(* ===== verification/_CoqProject ===== *)
-Q . S2P
Prelude.v
RustStd.v
SeekSequence.v
PatchParser.v
PatchGrammar.v
PatchReplace.v
PatchApply.v
PatchInvocation.v
SandboxPolicy.v
PatchSafety.v
Order.v
ExecPolicy.v
ExecPolicyParser.v
ShellParse.v
CommandSafety.v
ExecApproval.v
CodeTree.v
CallExtraction.v
ImportExtraction.v
GlobalIndex.v
BaseClasses.v
StableGraph.v
RepoGraph.v
RepoEdges.v
RepoUpdate.v
GraphQueries.v
ElementExtraction.v
Float64.v
Bm25.v
RepoHandle.v
NetworkApproval.v
ExecSandbox.v
Orchestrator.v
ShellWrap.v
ToolRuntimes.v
TurnState.v
HeadTailBuffer.v
Truncate.v
History.v
HistoryEdit.v
IpAddr.v
HostPolicy.v
HostRules.v
ProxyConfig.v
ProxyRuntime.v
ProxyHandlers.v
ProxySafety.v
TomlValues.v
ConfigRequirements.v
ConfigPermissions.v
ConfigLayers.v
ConfigLoad.v
Bwrap.v
LinuxSandbox.v
ByteText.v
TextArea.v
TextAreaEdit.v
TextAreaElements.v
TextAreaKeys.v
TextAreaContract.v
TextAreaScreen.v
LegacyArgs.v
LegacyPolicy.v
LegacyPolicySafety.v
Utf8.v
ReadFile.v
ReadFileSpec.v
ListDir.v
AgentGuards.v
ExecEnv.v
ThreadHistory.v
ThreadHistorySpec.v
TagStream.v
MentionCodec.v
Streaming.v
Chunking.v
StreamingSpec.v
Readiness.v
ThreadSubscriptions.v
ThreadSubscriptionsSpec.v
