(* ===== verification/Prelude.v ===== *)
(** * Patches, commands, network, configuration and code graph of happy-faster-code

    The program is a coding agent: a model proposes file patches and shell
    commands, and the agent decides what may run, asks the user where it must, and
    carries the rest out; a proxy decides which hosts a command reaches; configuration
    and managed requirements say what the policies are; a graph of the code of the
    repository answers the model's questions.  This development models the code that
    stands between a proposal and its effect, what is kept of the conversation, and the
    code graph.

    ** Parts

    Two pipelines share the sandbox policy and end in the running of tool calls;
    another one serves the questions.

    _Patches._  A command line is recognised as a call of [apply_patch]
    (PatchInvocation, [apply-patch/src/invocation.rs]); its text is parsed into
    hunks (PatchParser, [parser.rs]); every update is computed by locating its
    chunks in the lines of the file (SeekSequence, [seek_sequence.rs]) and splicing
    the replacements in (PatchReplace, [compute_replacements] and
    [apply_replacements] of [lib.rs]); the hunks are run on the files one after the
    other (PatchApply, [apply_hunks_to_files], [apply_hunks], [apply_patch] of
    [lib.rs]).  Before that, the session assesses the previewed changes against the
    writable roots (PatchSafety, [core/src/safety.rs]).

    _Commands._  A command line is taken apart into plain commands (ShellParse,
    [shell-command/src/bash.rs], [shell_detect.rs], [powershell.rs]), which are
    compared with the lists of safe and of dangerous commands (CommandSafety,
    [command_safety/is_safe_command.rs], [is_dangerous_command.rs],
    [windows_safe_commands.rs]) and with the user's prefix rules (ExecPolicy,
    [execpolicy/src/rule.rs], [policy.rs]; ExecPolicyParser, [parser.rs],
    [amend.rs]).  ExecApproval ([core/src/exec_policy.rs],
    [core/src/tools/sandboxing.rs]) turns the matches into a requirement: skip
    approval, ask, or forbid; it also loads the rule files of all configuration
    layers, records accepted amendments and caches approvals of a session.

    _Tool calls._  Both kinds of call are run by the orchestrator (Orchestrator,
    [core/src/tools/orchestrator.rs]): approval, an attempt in the chosen sandbox, and
    after a denial a second attempt outside of it.  It knows the tools by the classes
    [Sandboxable], [Approvable] and [ToolRuntime], of which ToolRuntimes
    ([tools/runtimes/], [apply_patch.rs]) has the instances of the shell, unified exec
    and patch tools, with laws [ApprovalLaws] and [ToolLaws] between the two.  A
    command is wrapped so that it starts from a snapshot of the user's shell, and
    reduced to the key of its approval, in ShellWrap ([tools/runtimes/mod.rs],
    [command_canonicalization.rs]); ExecSandbox ([sandboxing/mod.rs], [exec.rs],
    [landlock.rs]) chooses the sandbox, puts the command under it and reads its output
    and end.  While an attempt runs, its requests for hosts are decided by the service
    of NetworkApproval ([tools/network_approval.rs]).  TurnState ([state/turn.rs],
    [tasks/mod.rs] and the questions and steered input of [codex.rs]) is the turn in
    which all of this happens: who waits for which answer, and what the start, end and
    abort of a task do to it.  A command gets the environment that its policy makes
    (ExecEnv, [exec_env.rs]).  Two tools of the model read the disk: ReadFile and ListDir
    ([tools/handlers/read_file.rs], [list_dir.rs]), whose answers ReadFileSpec and
    the second half of ListDir specify.  AgentGuards ([agent/guards.rs]) counts the agents a session may
    have, with the atomic operations of its counter as steps.

    _Output and history._  The output of a process is kept in a buffer with two ends
    (HeadTailBuffer, [core/src/unified_exec/head_tail_buffer.rs]) and texts are cut in
    the middle to a budget (Truncate, [core/src/truncate.rs]).  What is recorded of the
    conversation, and how it is normalised before it is sent, is History
    ([core/src/context_manager/history.rs], [normalize.rs]); HistoryEdit has the
    theorems on recording, trimming and rollbacks.  ThreadHistory
    ([app-server-protocol/src/protocol/thread_history.rs]) makes turns with their items out
    of the events of a thread; ThreadHistorySpec reads it as an append-only log.
    ThreadSubscriptions ([app-server/src/thread_state.rs] and the listeners of
    [codex_message_processor.rs]) says which connections hear of a thread and which task
    tells them; ThreadSubscriptionsSpec has the invariant of its runs.  TagStream
    ([core/src/tagged_block_parser.rs], [proposed_plan_parser.rs]) finds the plans in the
    text of the model while it comes, and shows that the pieces do not matter.

    _The first exec policy_ ([execpolicy-legacy/src]), a tool of its own.  LegacyArgs
    ([arg_matcher.rs], [arg_type.rs], [arg_resolver.rs]) compares arguments with patterns;
    LegacyPolicy ([program.rs], [policy.rs], [policy_parser.rs], [execv_checker.rs],
    [main.rs]) has the definitions of programs, the policy they make, its verdict on a call
    and the check of the files a call names; LegacyPolicySafety says what they guarantee.

    _The network proxy_ ([network-proxy/src]).  Addresses and their reserved ranges are
    IpAddr, hosts and the patterns of the lists of domains HostPolicy ([policy.rs]);
    HostRules has lemmas on the lists that rules are made of.  ProxyConfig ([config.rs],
    [state.rs], [core/src/config/network_proxy_spec.rs], [permissions.rs],
    [core/src/network_proxy_loader.rs]) has the settings, the addresses to bind, the
    check of settings against managed constraints, and both from configuration layers.
    ProxyRuntime ([runtime.rs], [network_policy.rs]) is the state all handlers share,
    with its reloads, and the verdict on a host; ProxyHandlers ([http_proxy.rs],
    [socks5.rs], [responses.rs], [metadata.rs]) are the handlers, which record what they
    contact; ProxySafety serves requests one after the other and says what is contacted.

    _Configuration_ ([config/src], [core/src/config], [core/src/config_loader]).
    TomlValues ([merge.rs], [overrides.rs], [fingerprint.rs]) merges TOML values;
    ConfigLayers ([state.rs]) is the stack of layers; ConfigRequirements
    ([constraint.rs], [config_requirements.rs], [requirements_exec_policy.rs]) has values
    with constraints and the requirements of administrators; ConfigPermissions
    ([core/src/config/mod.rs]) derives approval and sandbox policy, web search and MCP
    servers of a session within them; ConfigLoad ([config_loader/mod.rs], [layer_io.rs])
    reads layers and requirements, and decides which project directories are trusted.

    _The Linux sandbox_ ([linux-sandbox/src]).  Bwrap ([bwrap.rs]) turns a policy into
    arguments of bubblewrap, which are read back by a model of the vendored parser as the
    mounts they mean; LinuxSandbox ([landlock.rs], [linux_run_main.rs]) has the network
    filter, the Landlock rules and the stages of the helper, from its command line to the
    image it becomes.

    _The editor of the prompt_ ([tui/src/bottom_pane/textarea.rs]).  TextArea has the text,
    its cursor and its elements, the keys, and the lines drawn; TextAreaEdit the invariant
    and what replacing a range keeps, TextAreaElements the calls that make and rename
    elements, TextAreaKeys the keys, TextAreaContract and TextAreaScreen what is promised.
    MentionCodec ([mention_codec.rs]) stores prompts with the targets of their mentions.

    _The terminal's stream of messages_ ([tui/src/streaming], [markdown_stream.rs]).
    Streaming has the collector of complete lines, the queue and the controllers of messages
    and plans; Chunking ([chunking.rs], [commit_tick.rs]) how fast the queue is shown, which
    is decided on each tick; StreamingSpec what is shown in the end.

    _Shared._  SandboxPolicy ([protocol/src/protocol.rs],
    [utils/absolute-path/src/lib.rs]): approval policies, sandbox policies, the
    writable roots with their read-only subpaths.  Readiness ([utils/readiness/src/lib.rs])
    is the flag that tool calls wait for, its tokens and its broadcast.

    _The code graph_ ([crates/happy-core/src]).  A file is parsed into a syntax tree
    (CodeTree, [parser/languages.rs]) in which the definitions (ElementExtraction,
    [indexer/walker.rs]), the calls with their scopes (CallExtraction,
    [parser/calls.rs]), the imports (ImportExtraction, [parser/imports.rs]) and the
    base classes (BaseClasses, [graph/mod.rs]) are found.  The elements of all files
    go into an index of modules and symbols (GlobalIndex, [global_index/]) and a
    graph (RepoGraph, [graph/mod.rs], over the container StableGraph,
    [graph/types.rs]); RepoEdges says what each phase of a build adds, RepoUpdate
    what builds, removals and updates leave; GraphQueries ([graph/queries.rs])
    answers.  Bm25 ([vector/bm25.rs]) is the keyword index.  RepoHandle
    ([core/src/tools/handlers/code_graph.rs]) keeps graph and keyword index of a
    session up to date.

    Prelude, RustStd, ByteText, Utf8 and Order hold what is not this program's: the [outcome] and
    [io] monads, the operations of Rust's standard library the code uses (strings,
    [Vec], [std::path] on Unix; byte positions in texts), lexicographic order, [sort] and [dedup].
    PatchGrammar holds no code: it is the grammar the patch tool documents, with
    its printer.

    ** How code is represented

    A Rust [String] is the list of its [char]s (numbers), a [Vec] a list, a
    [HashMap] a [gmap], a path the string of it where the code shows or joins it
    and its list of components where the code compares or hashes it ([Path]
    equality is equality of components).  An [enum] is an inductive type, a
    [struct] a record.  [usize] is [nat]: every number is an index or length of a
    list in memory.  Fallible code returns [outcome]: [Ok], [Err], [Panic] for an
    index, slice or [expect] that fails, [Timeout] when the fuel of a modelled loop
    runs out.  Code with effects is [io S E A], a state-passing function that
    returns its final state also on errors; async functions are read sequentially,
    between two awaits of one task.  Where tasks share state and the order of their
    steps matters (NetworkApproval, TurnState, AgentGuards, Readiness, ThreadSubscriptions), the steps are a relation with labels,
    any task may move next, and the theorems are about all runs; a one-shot channel is
    open, answered or closed, and its sender has an owner whose end closes it; a watch
    channel is its value with a version, and the version each receiver has seen.

    Code of other packages is a parameter: regular expressions (class [RegexLib], of which
    [RegexLaws] says that escaped alternatives are found as texts), the file system (classes [FileSystem],
    [AppendFile], with laws on the texts of files; [MemFs] and [TextFs] are
    instances), the [multimap] crate (class [MultiMap]), tree-sitter (the syntax
    tree of a script, the captures of a query), the Starlark interpreter (the calls
    of [prefix_rule] a module makes), [shlex], [serde_json], [similar], the home
    directory, environment and [absolutize] of [host], and the PowerShell process;
    for the code graph [petgraph] (class [StableGraph] with laws, instance
    [map_graph]; its [astar]), the parsers and the text of a node (class [NodeText]),
    the order in which a [DashMap], [HashMap] or [HashSet] iterates (a permutation of
    its contents), [blake3], the Unicode lowercase mapping and [f64::ln].  [f64] is
    the binary64 of the Standard Library's SpecFloat (Float64).  For tool calls the class
    [ToolServices] has what the runtimes call in the session: the user's answers, the
    process that is run with its end and output, the features and the shell; its laws
    say that none of it touches the session's approvals and network attempts but by
    the operations modelled.  The arguments of seatbelt, the JSON of a policy, the
    decoding of output and [Uuid::new_v4] are parameters.  Budgets of truncation are [N],
    with the saturation the code asks for; the length of a serialised item is a
    parameter.  For the proxy they are the URL parser, the text of sets in [Debug]
    (classes [UrlLib], [DebugStrs], [SetOrderOk]), the compilation of globs (only
    literal texts, the star and what is refused are said of it), base64, and the world of
    the handlers: DNS, clock, decider, files to reload, Unix sockets and upstreams.  For
    configuration they are the TOML text, serde, and the files ([ConfigWorld]).  A TOML
    table is a list of entries sorted by key, as a [BTreeMap] is; plain values are not
    looked into, but for strings; in ConfigLoad an absolute path is the list of its
    names, and errors carry what failed instead of a message.  For the sandbox helper they
    are the answers of the kernel, the trial run of bubblewrap ([SandboxHost]) and the
    parser of its command line; for the text area the segmentation of texts, widths and the
    wrapping of textwrap ([TextWorld], with the laws [TextLaws]; instance [char_world]).  A
    file that is read is its bytes with the error after them, a directory its entries with
    theirs; [serde_json] gives the fields of arguments; the sort of entries puts equal keys in
    any order (class [UnstableSort]); patterns of environment variables are the class
    [WildMatch], of which [WildMatchLaws] says what a literal between stars matches; UUIDs of
    turns are a function of how many were made.  The rendering of Markdown is a function
    from text to lines, and the styles of the terminal are the class [Terminal].

    ** Fuel and bounds

    The loops of the parser that advance by a computed number of lines
    ([hunks_loop], [update_loop]) run with one unit of fuel more than there are
    lines; every iteration consumes a line, so they never time out
    ([parse_patch_text_returns]).  [detect_shell_type] recurses on the file stem
    with fuel above the length of the path, the stem being shorter
    ([detect_shell_type_fuel_returns]).  [trim_start_loop] and [replace_loop] have
    the length of the text as fuel, of which each step takes some.  [walk] and [find_single_fuel] traverse a
    syntax tree with fuel the number of its nodes, each popped once ([walk_spec],
    [find_single_spec]).  The widening of a range to whole elements ([expand_loop]) has fuel
    above the number of elements: every pass but the last swallows one.  [slice_loop] and
    [collect_loop] have more fuel than a file has bytes, and each round reads some;
    [block_loop] more than it has lines, and each round but the last takes one;
    [collect_entries_loop] more than there are directories down to the depth ([dirs_below]).
    [encode_loop] and [decode_loop] have the length of the text, of which each round takes
    some; [next_token] more than there are tokens, each tried once.
    [remove_loop] and [insert_loop] are structural.  No index or slice is out of
    range: [parse_patch_text_returns], [new_contents_returns], [check_strictest].

    ** What the theorems show

    - Patches.  The parser inverts the printer of the documented grammar, bare or
      wrapped in a here-document.  [seek_sequence] finds the first match of the
      strictest pass.  New contents are the old ones rewritten chunk by chunk.
      Applying hunks refines a specification on finite maps, touches no other file
      in any outcome, stops at the first error with the earlier hunks in place,
      and succeeds with the specified result on reliable file systems.  The
      preview agrees with the application for patches that name each file once.
    - Permission.  A patch assessed as constrained writes under the writable roots
      only; [.git], [.agents] and [.codex] of a root are not writable through it;
      the decision table of [assess_patch_safety].
    - Commands.  What word-only scripts are; safe commands are not dangerous; the
      strictest match decides; loading is cumulative; calls of [prefix_rule] are
      checked against their examples; allowed prefixes, amendments and cached
      approvals are what they claim; policies that refuse prompts get none, and
      dangerous commands do not run unasked.
    - The first exec policy.  Arguments match patterns exactly where they can be given out
      to them in order ([resolve_spec]); a policy matches what it permits, and reads it as
      meant ([policy_matches_what_it_permits]); a call that is safe is accounted for word by
      word and reads within the folders only ([safe_call_contained]); examples are checked
      ([examples_hold]).
    - The code graph.  Calls are reported in their innermost scope, definitions in
      source order; imports are resolved as their language says, but for packages.
      Any history of builds, removals and updates keeps the graph well-formed
      ([graph_history_safe]) and the handle in sync ([handle_stays_in_sync]); each
      phase adds exactly the edges its specification lists (RepoEdges), from which
      the answers of the queries follow ([find_callers_of_build]).  The search of
      related elements is reachability ([get_related_spec]).
    - Tool calls.  The orchestrator refines a protocol of decisions and attempts
      ([run_follows_protocol]): with a sandbox on the platform and a policy that
      restricts writes, nothing runs outside it without a yes of the user
      ([unsandboxed_needs_consent]), for the shell ([shell_call_contained]) and from
      the assessment of a patch to its process ([patch_call_contained]).  The network
      attempts a call registers are unregistered however it ends
      ([network_attempts_balanced]); a host is allowed only by an answer
      ([inline_allow_granted]), and a refusal is final ([user_denial_rejects]).  The
      wrapper runs the words it was given ([exec_line_words]), keeps overridden
      variables ([overrides_survive]) and hides their values ([wrap_hides_values]);
      approvals are shared by commands that run the same ([approval_key_sound]).
      Output is cut at its limit ([read_capped_spec], [aggregate_output_spec]) and the
      end of a process is classified ([finalize_spec]).
    - The turn.  Every sender has one owner ([one_owner_per_sender]), so that ending a
      turn ends its questions ([turn_end_answers]); no answer is made up
      ([decision_comes_from_user]) and no input lost ([input_conserved]).
    - Tools that read.  A slice and a block of a file are what they are said to be
      ([read_file_slice], [read_file_block]), and so is a listing ([list_dir_spec]).
    - Commands and agents.  No secret of the parent reaches a command where the defaults
      exclude it ([secrets_not_inherited]); the count of agents is right and within the
      limit whatever the interleaving ([agents_within_limit]).
    - Output and history.  The buffer holds the two ends of what was pushed
      ([buffer_keeps_ends]), truncation the two ends of a text
      ([truncation_keeps_ends], [output_items_spec]).  Normalisation pairs every history
      ([normalize_pairs]) and equals a plain function ([normalize_reference]); recording,
      trimming and rollbacks do what they say ([record_items_spec],
      [removal_keeps_pairs], [rollback_spec]).  The turns shown of a thread only grow but for
      rollbacks ([history_is_kept]), ids of items are apart ([item_ids_are_apart]), and the
      end of a command is shown where it began ([late_end_goes_to_its_turn]).  Plans are found
      as in the whole text however it comes ([streamed_as_whole],
      [plan_extracted_as_streamed]).
    - The terminal.  A message is shown as it is rendered, each line once
      ([message_shown_as_rendered]); the speed does not flicker ([chunking_hysteresis]);
      stored prompts come back with their mentions ([history_mentions_roundtrip]).
    - Readiness.  A flag becomes ready once, by a token given out, and nobody is told so
      before ([ready_once]).
    - Subscriptions.  A thread has one listener ([one_listener_per_thread]), and a connection
      that closes is forgotten ([closed_connection_forgotten]).
    - The network proxy.  Patterns are compared exactly ([allows_iff]), the verdict on a
      host is the one of its lists and addresses ([host_verdict_spec],
      [is_non_public_ip_spec]); settings that load are within the constraints of
      administrators ([validate_policy_spec], [layers_within_constraints],
      [requirements_always_valid], [mode_stays_within]), which holds the managed list
      for ordinary entries ([managed_allowlist_enforced]).  All that is contacted is
      authorised ([contacts_authorised]), nothing is but reads in limited mode
      ([limited_mode_reads_only]), and no decider opens what is refused
      ([off_limits_never_contacted]).  The proxy binds loopback unless told otherwise
      ([bind_addrs_guarded]), names attempts faithfully ([attempt_id_roundtrip]) and
      keeps the last blocked requests ([blocked_buffer_spec]).
    - Configuration.  A merged configuration has the word of the highest layer
      ([merge_all_spec]), an override its value at its path ([override_spec]), an origin
      the layer that decided ([origins_name_deciding_layer]); stacks stay in order
      ([with_user_config_ok], [loaded_layers_in_order]).  Files of projects that are not
      trusted change nothing ([untrusted_files_ignored],
      [only_trusted_projects_configure]).  The first source of a requirement wins
      ([earlier_sources_win]); its rules match what they describe
      ([requirement_rules_spec]); values stay within requirements from the loading on
      ([requirements_enforced], [permissions_meet_requirements],
      [configured_or_required]).
    - The Linux sandbox.  The mounts make only writable roots writable, and no protected
      subpath of them ([bwrap_enforces_policy]); the filter refuses what it lists and no
      more ([network_filter_spec]); a command the helper gets to run is confined by both
      ([helper_confines]).
    - The editor.  Every call and key keeps the text area in order and none panics
      ([text_area_in_order]); elements are edited whole ([elements_are_atomic]); a replaced
      range is the least that cuts none ([replace_range_least]); what was cut comes back
      ([kill_then_yank]), as do the elements of a message ([elements_restored]); the cursor
      is among the lines drawn ([cursor_stays_on_screen]).
    - Surprises.  Some theorems describe behaviour that the comments or the
      purpose of the code contradict: [move_to_self_deletes],
      [trailing_blank_line_dropped], [preview_of_repeated_update],
      [overwritten_move_escapes_check], [tmp_root_unprotects_git],
      [sed_operand_unchecked], [powershell_git_override_accepted],
      [allow_rule_lifts_sandbox_of_script], [powershell_prefix_replaces_last],
      [seek_sequence_eof], [stacked_context_rejected], [class_hierarchy_empty],
      [unreadable_class_no_handle], [update_file_edges], [remove_file_forgets],
      [relative_import_spec], [readded_document_stale], [find_path_spec],
      [powershell_key_ignores_args], [retry_asking], [question_without_turn_hangs],
      [overtaken_question_denied], [finished_before_registered],
      [completed_and_aborted],
      [truncated_over_budget], [managed_allowlist_bypassed],
      [managed_full_access_panics], [working_directory_unchecked], [huge_limit_panics],
      [listing_misplaces_children], [double_registration_leaks],
      [late_search_is_shown_twice], [rollback_takes_turns_without_user],
      [bracket_takes_mention], [missed_waits],
      [resumed_connection_outlives_close].

    ** Not modelled

    Windows builds ([cfg_windows] is false; [windows_dangerous_commands.rs]),
    concurrent access to a rules file beyond its lock, logging and metrics, the
    display of Starlark errors, the walk over the directory of a repository, the
    stored graph and the vector kernels of happy-core, the spawning of processes and
    the Windows sandbox, what a task of a turn does, and the other parts of the
    system: the other tools and their registry, the session loop, the settings of a session
    other than its permissions, the editing of configuration files, tunnels, TLS and
    headers of the proxy, the user interface around the editor and the stream of messages, the servers and the
    sandboxes of macOS and Windows. *)

(** This file: the monads, and lemmas on lists and options. *)

From stdpp Require Export base tactics numbers list option strings gmap.

(** Rust [char]s are Unicode scalar values, a Rust [str]/[String] is the
    sequence of its [char]s. *)
Abbreviation char := N (only parsing).
Abbreviation str := (list N) (only parsing).

(** An ASCII literal of the source as a Rust string. *)
Definition lit (s : string) : str := Ascii.N_of_ascii <$> String.list_ascii_of_string s.
Arguments lit _%_string_scope : simpl never.

(** A single ASCII character literal. *)
Definition ch (s : string) : char :=
  match s with String.String a _ => Ascii.N_of_ascii a | String.EmptyString => 0%N end.
Arguments ch _%_string_scope.

(** ** Results of fallible code

    [Ok]/[Err] are Rust's [Result]; [Panic] is a Rust panic (an index or slice
    out of range, [expect] on [None]); [Timeout] marks the fuel of a loop
    running out in the model, and is proved unreachable wherever a loop is
    modelled with fuel. *)
Inductive outcome (E A : Type) : Type :=
  | Ok (a : A)
  | Err (e : E)
  | Panic
  | Timeout.
Arguments Ok {_ _} _.
Arguments Err {_ _} _.
Arguments Panic {_ _}.
Arguments Timeout {_ _}.

#[export] Instance outcome_ret {E} : MRet (outcome E) := fun A a => Ok a.
#[export] Instance outcome_bind {E} : MBind (outcome E) := fun A B f m =>
  match m with
  | Ok a => f a
  | Err e => Err e
  | Panic => Panic
  | Timeout => Timeout
  end.
#[export] Instance outcome_fmap {E} : FMap (outcome E) := fun A B f m =>
  match m with
  | Ok a => Ok (f a)
  | Err e => Err e
  | Panic => Panic
  | Timeout => Timeout
  end.

(** [Result::map_err]. *)
Definition map_err {E F A} (f : E -> F) (m : outcome E A) : outcome F A :=
  match m with
  | Ok a => Ok a
  | Err e => Err (f e)
  | Panic => Panic
  | Timeout => Timeout
  end.

(** [Option::ok_or]. *)
Definition ok_or {E A} (o : option A) (e : E) : outcome E A :=
  match o with Some a => Ok a | None => Err e end.

(** [Result::is_ok]. *)
Definition is_ok {E A} (m : outcome E A) : bool :=
  match m with Ok _ => true | _ => false end.

(** A computation that succeeds only under a condition, and always under it. *)
Lemma ok_dichotomy {E A} (m : outcome E A) (P : Prop) (Q : A -> Prop) :
  (forall a, m = Ok a -> P) -> (P -> exists a, m = Ok a /\ Q a) ->
  (P /\ exists a, m = Ok a /\ Q a) \/ (~ P /\ is_ok m = false).
Proof.
  intros Honly Hall. destruct m as [a| | |].
  - left. specialize (Honly a eq_refl). auto.
  - right. split; [|done]. intros (a & ? & _)%Hall. done.
  - right. split; [|done]. intros (a & ? & _)%Hall. done.
  - right. split; [|done]. intros (a & ? & _)%Hall. done.
Qed.

(** [Result::unwrap_or]. *)
Definition unwrap_or {E A} (d : A) (m : outcome E A) : A :=
  match m with Ok a => a | _ => d end.

(** The computation finishes with a value or an error of the source. *)
Definition returns {E A} (m : outcome E A) : Prop :=
  match m with Ok _ | Err _ => True | Panic | Timeout => False end.

(** [iter().map(f).collect::<Result<Vec<_>, _>>()]: stops at the first error. *)
Fixpoint collect_results {E A B} (f : A -> outcome E B) (l : list A) : outcome E (list B) :=
  match l with
  | [] => Ok []
  | x :: l => y ← f x; ys ← collect_results f l; Ok (y :: ys)
  end.

(** ** Fallible code with effects

    A computation over a state that survives its failure: what was done before an
    error stays done. *)
Definition io (S E A : Type) : Type := S -> S * outcome E A.

#[export] Instance io_ret {S E} : MRet (io S E) := fun A a s => (s, Ok a).
#[export] Instance io_bind {S E} : MBind (io S E) := fun A B f m s =>
  match m s with
  | (s, Ok a) => f a s
  | (s, Err e) => (s, Err e)
  | (s, Panic) => (s, Panic)
  | (s, Timeout) => (s, Timeout)
  end.

(** A pure result; an error; a result that looks at the state. *)
Definition io_of {S E A} (m : outcome E A) : io S E A := fun s => (s, m).
Definition io_get {S E A} (f : S -> outcome E A) : io S E A := fun s => (s, f s).
Definition io_map_err {S E F A} (f : E -> F) (m : io S E A) : io S F A := fun s =>
  let (s, r) := m s in (s, map_err f r).

(** ** Automation *)

(** Case on the scrutinee of a [match] or [if] of the goal, or of a hypothesis
    in which [tac]'s result is computed. *)
Ltac case_goal :=
  match goal with
  | |- context [match ?x with _ => _ end] => destruct x eqn:?
  end.
Ltac case_hyp H :=
  match type of H with
  | context [match ?x with _ => _ end] => destruct x eqn:?
  end.

(** An error branch: it returns, and is no [Ok]. *)
Ltac bsimpl := cbn [mbind outcome_bind].
Ltac errs := split; [exact I | intros; discriminate].

(** Turn boolean tests of the code into propositions. *)
Ltac to_prop :=
  repeat match goal with
  | H : bool_decide _ = true |- _ => apply bool_decide_eq_true_1 in H
  | H : bool_decide _ = false |- _ => apply bool_decide_eq_false_1 in H
  | H : andb _ _ = true |- _ => apply andb_true_iff in H; destruct H
  | H : orb _ _ = false |- _ => apply orb_false_iff in H; destruct H
  | H : negb _ = true |- _ => apply negb_true_iff in H
  | H : negb _ = false |- _ => apply negb_false_iff in H
  | H : Nat.leb _ _ = true |- _ => apply Nat.leb_le in H
  | H : Nat.leb _ _ = false |- _ => apply Nat.leb_gt in H
  | H : Nat.ltb _ _ = true |- _ => apply Nat.ltb_lt in H
  | H : Nat.ltb _ _ = false |- _ => apply Nat.ltb_ge in H
  | H : Nat.eqb _ _ = true |- _ => apply Nat.eqb_eq in H
  | H : Nat.eqb _ _ = false |- _ => apply Nat.eqb_neq in H
  end.

Create HintDb happy.
Create Rewrite HintDb happy_rw.

Lemma bind_Ok {E A B} (m : outcome E A) (f : A -> outcome E B) b :
  m ≫= f = Ok b <-> exists a, m = Ok a /\ f a = Ok b.
Proof.
  destruct m; simpl; split; try (intros (? & ? & _); discriminate); try discriminate.
  - eauto.
  - intros (? & [= <-] & ?). done.
Qed.

Lemma bind_returns {E A B} (m : outcome E A) (f : A -> outcome E B) :
  returns m -> (forall a, m = Ok a -> returns (f a)) -> returns (m ≫= f).
Proof. destruct m; simpl; auto. Qed.

Lemma collect_results_Ok {E A B} (f : A -> outcome E B) l ys : collect_results f l = Ok ys <-> Forall2 (fun x y => f x = Ok y) l ys.
Proof.
  revert ys. induction l as [|x l IH]; intros ys; cbn [collect_results].
  { split; [intros [= <-]; constructor|by inversion 1]. }
  rewrite bind_Ok. setoid_rewrite bind_Ok. setoid_rewrite IH. split.
  - intros (y & Hy & zs & Hzs & [= <-]). by constructor.
  - inversion 1; subst. eauto.
Qed.

Lemma map_err_Ok {E F A} (f : E -> F) (m : outcome E A) a :
  map_err f m = Ok a <-> m = Ok a.
Proof. destruct m; simpl; split; congruence. Qed.

Lemma is_ok_true {E A} (m : outcome E A) : is_ok m = true <-> exists a, m = Ok a.
Proof. destruct m; simpl; split; try (intros (? & ?)); try discriminate; eauto. Qed.

Lemma is_ok_unwrap {E A} (d : A) (m : outcome E A) : is_ok m = true -> m = Ok (unwrap_or d m).
Proof. by destruct m. Qed.

#[export] Hint Resolve bind_returns : happy.

Lemma io_bind_Ok {S E A B} (m : io S E A) (f : A -> io S E B) s s' b :
  (m ≫= f) s = (s', Ok b) <-> exists s1 a, m s = (s1, Ok a) /\ f a s1 = (s', Ok b).
Proof.
  unfold mbind, io_bind. destruct (m s) as [s1 [a|e| |]]; naive_solver.
Qed.

(** A sequence whose first part is known. *)
Lemma io_bind_run {S E A B} (m : io S E A) (f : A -> io S E B) s s1 a :
  m s = (s1, Ok a) -> (m ≫= f) s = f a s1.
Proof. unfold mbind, io_bind. by intros ->. Qed.
Lemma io_bind_fail {S E A B} (m : io S E A) (f : A -> io S E B) s s1 e :
  m s = (s1, Err e) -> (m ≫= f) s = (s1, Err e).
Proof. unfold mbind, io_bind. by intros ->. Qed.

Lemma io_map_err_state {S E F A} (f : E -> F) (m : io S E A) s :
  (io_map_err f m s).1 = (m s).1.
Proof. unfold io_map_err. by destruct (m s). Qed.

Lemma io_map_err_Ok {S E F A} (f : E -> F) (m : io S E A) s s' a :
  io_map_err f m s = (s', Ok a) <-> m s = (s', Ok a).
Proof. unfold io_map_err. destruct (m s) as [? []]; simpl; naive_solver. Qed.

Lemma io_bind_assoc {S E A B C} (m : io S E A) (f : A -> io S E B) (g : B -> io S E C) s :
  ((m ≫= f) ≫= g) s = (m ≫= fun a => f a ≫= g) s.
Proof. unfold mbind, io_bind. by destruct (m s) as [s1 [a|e| |]]. Qed.

Lemma io_bind_ext {S E A B} (m : io S E A) (f g : A -> io S E B) s :
  (forall a s1, f a s1 = g a s1) -> (m ≫= f) s = (m ≫= g) s.
Proof. intros Hfg. unfold mbind, io_bind. by destruct (m s) as [s1 [a|e| |]]. Qed.

(** An invariant relation between the states before and after, whatever the
    outcome. *)
Lemma io_bind_rel {S E A B} (R : relation S) `{!Transitive R}
    (m : io S E A) (f : A -> io S E B) s :
  R s (m s).1 -> (forall a s1, m s = (s1, Ok a) -> R s1 (f a s1).1) ->
  R s ((m ≫= f) s).1.
Proof.
  intros Hm Hf. unfold mbind, io_bind. destruct (m s) as [s1 [a|e| |]] eqn:E'; simpl in *;
    [|done..]. etrans; [exact Hm|]. by apply Hf.
Qed.

(** ** Searches over an index range

    [for i in lo..=hi { if f(i) { return Some(i) } }], as the number of
    iterations left. *)
Fixpoint find_from (f : nat -> bool) (i n : nat) : option nat :=
  match n with
  | O => None
  | S n => if f i then Some i else find_from f (S i) n
  end.

(** The inclusive range [lo..=hi] runs [S hi - lo] times (none when [hi < lo]). *)
Definition find_in_range (f : nat -> bool) (lo hi : nat) : option nat :=
  find_from f lo (S hi - lo).

Lemma find_from_Some f i n k :
  find_from f i n = Some k <->
  i <= k < i + n /\ f k = true /\ forall j, i <= j < k -> f j = false.
Proof.
  revert i. induction n as [|n IH]; intros i; simpl.
  { split; [done|lia]. }
  destruct (f i) eqn:Hf.
  - split.
    + intros [= <-]. split; [lia|split; [done|lia]].
    + intros (Hk & Hfk & Hmin). f_equal.
      destruct (decide (i = k)) as [->|]; [done|].
      rewrite Hmin in Hf by lia. done.
  - rewrite IH. split.
    + intros (Hk & Hfk & Hmin). split; [lia|split; [done|]].
      intros j Hj. destruct (decide (i = j)) as [->|]; [done|]. apply Hmin; lia.
    + intros (Hk & Hfk & Hmin).
      destruct (decide (i = k)) as [->|]; [congruence|].
      split; [lia|split; [done|]]. intros j Hj. apply Hmin; lia.
Qed.

Lemma find_from_None f i n :
  find_from f i n = None <-> forall j, i <= j < i + n -> f j = false.
Proof.
  revert i. induction n as [|n IH]; intros i; simpl.
  { split; [intros; lia|done]. }
  destruct (f i) eqn:Hf.
  - split; [done|]. intros H. rewrite H in Hf by lia. done.
  - rewrite IH. split; intros H j Hj.
    + destruct (decide (i = j)) as [->|]; [done|]. apply H; lia.
    + apply H; lia.
Qed.

Lemma find_in_range_Some f lo hi k :
  find_in_range f lo hi = Some k <->
  lo <= k <= hi /\ f k = true /\ forall j, lo <= j < k -> f j = false.
Proof.
  unfold find_in_range. rewrite find_from_Some.
  split; intros (? & ? & Hmin); (split; [lia|split; [done|]]); intros; apply Hmin; lia.
Qed.

Lemma find_in_range_None f lo hi :
  find_in_range f lo hi = None <-> forall j, lo <= j <= hi -> f j = false.
Proof.
  unfold find_in_range. rewrite find_from_None.
  split; intros Hmin j Hj; apply Hmin; lia.
Qed.

(** [Iterator::any] and [Iterator::all] over a slice. *)
Lemma existsb_elem {A} (f : A -> bool) (l : list A) :
  existsb f l = true <-> exists x, x ∈ l /\ f x = true.
Proof. rewrite existsb_exists. setoid_rewrite list_elem_of_In. done. Qed.

Lemma forallb_elem {A} (f : A -> bool) (l : list A) :
  forallb f l = true <-> forall x, x ∈ l -> f x = true.
Proof. rewrite forallb_forall. setoid_rewrite list_elem_of_In. done. Qed.

Lemma existsb_false_elem {A} (f : A -> bool) (l : list A) :
  existsb f l = false <-> forall x, x ∈ l -> f x = false.
Proof.
  rewrite <-not_true_iff_false, existsb_elem. split.
  - intros H x Hx. destruct (f x) eqn:?; [|done]. exfalso. eauto.
  - intros H (x & Hx & Hf). rewrite H in Hf; done.
Qed.

(** ** Filters *)

Lemma filter_iff {A} (P Q : A -> Prop) `{!forall x, Decision (P x), !forall x, Decision (Q x)} (l : list A) :
  (forall x, x ∈ l -> P x <-> Q x) -> filter P l = filter Q l.
Proof.
  induction l as [|x l IH]; [done|]. intros Hpq. rewrite !filter_cons.
  rewrite IH by (intros; apply Hpq; by right). specialize (Hpq x ltac:(left)).
  destruct (decide (P x)), (decide (Q x)); tauto.
Qed.

Lemma filter_all {A} (P : A -> Prop) `{!forall x, Decision (P x)} (l : list A) :
  (forall x, x ∈ l -> P x) -> filter P l = l.
Proof.
  induction l as [|x l IH]; [done|]. intros Hall. rewrite filter_cons_True by (apply Hall; left).
  f_equal. apply IH. intros. apply Hall. by right.
Qed.

Lemma filter_none {A} (P : A -> Prop) `{!forall x, Decision (P x)} (l : list A) :
  (forall x, x ∈ l -> ~ P x) -> filter P l = [].
Proof.
  induction l as [|x l IH]; [done|]. intros Hno. rewrite filter_cons_False by (apply Hno; left).
  apply IH. intros. apply Hno. by right.
Qed.

(** ** The end of a list *)

Definition last_n {A} (n : nat) (l : list A) : list A := drop (length l - n) l.

Lemma last_n_length {A} n (l : list A) : length (last_n n l) = min n (length l).
Proof. unfold last_n. rewrite length_drop. lia. Qed.

Lemma last_n_all {A} n (l : list A) : length l <= n -> last_n n l = l.
Proof. intros Hl. unfold last_n. by replace (length l - n) with 0 by lia. Qed.

Lemma last_n_0 {A} (l : list A) : last_n 0 l = [].
Proof. unfold last_n. apply drop_ge. lia. Qed.

Lemma last_n_app {A} n (l1 l2 : list A) : last_n n (last_n n l1 ++ l2) = last_n n (l1 ++ l2).
Proof.
  unfold last_n. rewrite !length_app, length_drop, !drop_app, drop_drop, length_drop. f_equal; f_equal; lia.
Qed.

Lemma last_n_long {A} n (l1 l2 : list A) : n <= length l2 -> last_n n (l1 ++ l2) = last_n n l2.
Proof.
  intros Hn. unfold last_n. rewrite length_app, drop_app_ge by lia. f_equal. lia.
Qed.
