(* ===== verification/RustStd.v ===== *)
(** * The parts of Rust's standard library the code uses

    [str]/[String] methods on sequences of [char]s, [Vec] operations that can
    panic, and [std::path] on Unix. *)

From S2P Require Import Prelude.

(** [cfg!(windows)]: the development is about the Unix builds, whose paths are
    separated by "/" only. *)
Definition cfg_windows : bool := false.

(** ** Characters *)

(** [char::is_whitespace]: the Unicode property White_Space. *)
Definition is_whitespace (c : char) : bool :=
  bool_decide (9 <= c <= 13)%N || bool_decide (c ∈ [32; 133; 160; 5760])%N
  || bool_decide (8192 <= c <= 8202)%N
  || bool_decide (c ∈ [8232; 8233; 8239; 8287; 12288])%N.

Definition is_ascii_digit (c : char) : bool := bool_decide (48 <= c <= 57)%N.

(** [char::to_ascii_lowercase]. *)
Definition to_ascii_lower (c : char) : char :=
  if bool_decide (65 <= c <= 90)%N then (c + 32)%N else c.

(** [str::to_ascii_lowercase] and [str::eq_ignore_ascii_case]. *)
Definition to_ascii_lowercase (s : str) : str := to_ascii_lower <$> s.
Definition eq_ignore_ascii_case (a b : str) : bool :=
  bool_decide (to_ascii_lowercase a = to_ascii_lowercase b).

(** Length in bytes of the UTF-8 encoding ([char::len_utf8], [str::len]). *)
Definition len_utf8 (c : char) : nat :=
  if bool_decide (c < 128)%N then 1
  else if bool_decide (c < 2048)%N then 2
  else if bool_decide (c < 65536)%N then 3 else 4.
Definition str_len (s : str) : nat := sum_list_with len_utf8 s.

(** ** Trimming *)

Fixpoint drop_while {A} (p : A -> bool) (l : list A) : list A :=
  match l with
  | [] => []
  | x :: l' => if p x then drop_while p l' else l
  end.

(** Drop the longest suffix whose elements satisfy [p]. *)
Fixpoint drop_while_end {A} (p : A -> bool) (l : list A) : list A :=
  match l with
  | [] => []
  | x :: l' =>
      match drop_while_end p l' with
      | [] => if p x then [] else [x]
      | r => x :: r
      end
  end.

(** [trim_start_matches(c)]/[trim_end_matches(c)] for a [char] pattern, and the
    whitespace versions [trim_start]/[trim_end]/[trim]. *)
Definition trim_start (s : str) : str := drop_while is_whitespace s.
Definition trim_end (s : str) : str := drop_while_end is_whitespace s.
Definition trim (s : str) : str := trim_start (trim_end s).
Definition trim_end_matches (c : char) (s : str) : str :=
  drop_while_end (fun x => bool_decide (x = c)) s.

(** [trim_matches(f)] for a predicate on [char]s. *)
Definition trim_matches (f : char -> bool) (s : str) : str := drop_while f (drop_while_end f s).

(** ** Prefixes and suffixes *)

Fixpoint strip_prefix (p s : str) : option str :=
  match p, s with
  | [], _ => Some s
  | a :: p', b :: s' => if bool_decide (a = b) then strip_prefix p' s' else None
  | _ :: _, [] => None
  end.
Definition starts_with (p s : str) : bool :=
  match strip_prefix p s with Some _ => true | None => false end.
Definition strip_suffix (p s : str) : option str :=
  match strip_prefix (reverse p) (reverse s) with
  | Some r => Some (reverse r)
  | None => None
  end.
Definition ends_with (p s : str) : bool :=
  match strip_suffix p s with Some _ => true | None => false end.

(** [trim_start_matches(p)] for a non-empty string: strip [p] as often as it leads,
    at most as often as there are characters. *)
Fixpoint trim_start_loop (n : nat) (p s : str) : str :=
  match n with
  | O => s
  | S n => match strip_prefix p s with Some r => trim_start_loop n p r | None => s end
  end.
Definition trim_start_matches_str (p s : str) : str := trim_start_loop (length s) p s.

(** [trim_end_matches(p)] for a non-empty string. *)
Definition trim_end_matches_str (p s : str) : str :=
  reverse (trim_start_matches_str (reverse p) (reverse s)).

(** [str::contains] for a string pattern. *)
Fixpoint contains (p s : str) : bool :=
  starts_with p s || match s with [] => false | _ :: s' => contains p s' end.

(** ** Splitting and joining *)

(** [str::split(c)]: one piece more than there are separators. *)
Fixpoint split_on (c : char) (s : str) : list str :=
  match s with
  | [] => [[]]
  | x :: s' =>
      if bool_decide (x = c) then [] :: split_on c s'
      else match split_on c s' with
           | [] => [[x]]
           | p :: ps => (x :: p) :: ps
           end
  end.

(** [split_whitespace]: the maximal runs of non-blank characters. *)
Fixpoint split_whitespace (s : str) : list str :=
  match s with
  | [] => []
  | c :: s' =>
      if is_whitespace c then split_whitespace s'
      else match s' with
           | [] => [[c]]
           | c' :: _ =>
               if is_whitespace c' then [c] :: split_whitespace s'
               else match split_whitespace s' with
                    | w :: ws => (c :: w) :: ws
                    | [] => [[c]]
                    end
           end
  end.

(** [s.rfind(p)] with the pieces of [s] around the match found, the last one. *)
Fixpoint rsplit_once (p s : str) : option (str * str) :=
  match s with
  | [] => match p with [] => Some ([], []) | _ => None end
  | x :: s' =>
      match rsplit_once p s' with
      | Some (a, b) => Some (x :: a, b)
      | None => match strip_prefix p s with Some r => Some ([], r) | None => None end
      end
  end.

(** [s.rsplit(c).next()]: the piece after the last separator. *)
Definition rsplit_next (c : char) (s : str) : option str := last (split_on c s).

(** [replace(from, to)] for a [char], and for a non-empty string: from the left, no
    overlaps; the fuel is the length of what is left. *)
Definition replace_char (f : char -> bool) (to s : str) : str :=
  s ≫= fun c => if f c then to else [c].
Fixpoint replace_loop (n : nat) (from to s : str) : str :=
  match n with
  | O => s
  | S n =>
      match strip_prefix from s with
      | Some r => to ++ replace_loop n from to r
      | None => match s with [] => [] | c :: s' => c :: replace_loop n from to s' end
      end
  end.
Definition replace_str (from to s : str) : str := replace_loop (length s) from to s.

(** [join(sep)] of a slice of strings. *)
Fixpoint join (sep : str) (l : list str) : str :=
  match l with
  | [] => []
  | [x] => x
  | x :: l' => x ++ sep ++ join sep l'
  end.

(** The line feed, and [str::lines]: pieces ended by "\n", an optional "\r"
    before it dropped, and no empty piece after a final "\n". *)
Definition LF : char := 10%N.
Definition CR : char := 13%N.
Definition strip_cr (l : str) : str :=
  match strip_suffix [CR] l with Some r => r | None => l end.

(** [split_inclusive('\n')], each piece with whether it ends in a line feed. *)
Fixpoint split_inclusive (s : str) : list (str * bool) :=
  match s with
  | [] => []
  | x :: s' =>
      if bool_decide (x = LF) then ([], true) :: split_inclusive s'
      else match split_inclusive s' with
           | [] => [([x], false)]
           | (p, b) :: ps => (x :: p, b) :: ps
           end
  end.
Definition lines (s : str) : list str :=
  (fun pb : str * bool => let (p, b) := pb in if b then strip_cr p else p)
    <$> split_inclusive s.

(** Decimal rendering of a [usize] ([Display]). *)
Definition show_usize (n : nat) : str := lit (pretty.pretty n).

(** ** [Vec] operations that panic out of range *)

(** [Vec::insert]: panics when the index is greater than the length. *)
Definition vec_insert {E A} (i : nat) (x : A) (l : list A) : outcome E (list A) :=
  if bool_decide (i <= length l) then Ok (take i l ++ x :: drop i l) else Panic.

(** [Vec::remove]: panics when the index is not smaller than the length. *)
Definition vec_remove {E A} (i : nat) (l : list A) : outcome E (list A) :=
  if bool_decide (i < length l) then Ok (take i l ++ drop (S i) l) else Panic.

(** [&l[a..b]]: panics unless [a <= b <= l.len()]. *)
Definition slice {E A} (a b : nat) (l : list A) : outcome E (list A) :=
  if bool_decide (a <= b <= length l) then Ok (take (b - a) (drop a l)) else Panic.

(** [&l[a..]]: panics unless [a <= l.len()]. *)
Definition slice_from {E A} (a : nat) (l : list A) : outcome E (list A) :=
  if bool_decide (a <= length l) then Ok (drop a l) else Panic.

(** [l[i]]: panics out of range. *)
Definition index {E A} (i : nat) (l : list A) : outcome E A :=
  match l !! i with Some x => Ok x | None => Panic end.

(** ** [std::path] on Unix *)

Inductive component : Type :=
  | RootDir
  | CurDir
  | ParentDir
  | Normal (s : str).

#[export] Instance component_eq_dec : EqDecision component.
Proof. solve_decision. Defined.
#[export] Instance component_countable : Countable component.
Proof.
  refine (inj_countable'
    (fun c => match c with
              | RootDir => inl (inl ()) | CurDir => inl (inr ())
              | ParentDir => inr (inl ()) | Normal s => inr (inr s) end)
    (fun x => match x with
              | inl (inl _) => RootDir | inl (inr _) => CurDir
              | inr (inl _) => ParentDir | inr (inr s) => Normal s end) _).
  by intros [].
Defined.

Definition SLASH : char := ch "/".

(** [Path::is_absolute]. *)
Definition is_absolute (p : str) : bool :=
  match p with c :: _ => bool_decide (c = SLASH) | [] => false end.

(** A piece between separators: empty pieces and "." are skipped. *)
Definition piece_component (s : str) : option component :=
  if bool_decide (s = []) then None
  else if bool_decide (s = lit ".") then None
  else if bool_decide (s = lit "..") then Some ParentDir
  else Some (Normal s).

(** [Path::components]: a leading "." is kept (as [CurDir]) in a relative path. *)
Definition components (p : str) : list component :=
  let pieces := split_on SLASH p in
  let body := omap piece_component pieces in
  if is_absolute p then RootDir :: body
  else match pieces with
       | first :: _ => if bool_decide (first = lit ".") then CurDir :: body else body
       | [] => body
       end.

(** [Path::eq] compares components. *)
Definition path_eq (a b : str) : bool := bool_decide (components a = components b).

(** [Path::file_name]: the last component, when it is a normal one. *)
Definition file_name (p : str) : option str :=
  match last (components p) with
  | Some (Normal s) => Some s
  | _ => None
  end.

(** Split a file name at its last dot: (before, after), as [rsplitn(2, '.')]. *)
Definition rsplit_dot (s : str) : option str * str :=
  match reverse (split_on (ch ".") s) with
  | after :: ((_ :: _) as before) => (Some (join (lit ".") (reverse before)), after)
  | after :: [] => (None, after)
  | [] => (None, s)
  end.

(** [Path::file_stem] and [Path::extension]. *)
Definition file_stem (p : str) : option str :=
  name ← file_name p;
  match rsplit_dot name with
  | (Some before, _) => if bool_decide (before = []) then Some name else Some before
  | (None, after) => Some after
  end.
Definition extension (p : str) : option str :=
  name ← file_name p;
  match rsplit_dot name with
  | (Some before, after) => if bool_decide (before = []) then None else Some after
  | (None, _) => None
  end.

(** [Path::join]: an absolute argument replaces the base. *)
Definition path_join (base p : str) : str :=
  if is_absolute p then p
  else match last base with
       | Some c => if bool_decide (c = SLASH) then base ++ p else base ++ SLASH :: p
       | None => p
       end.

(** [Path::parent], as the components of the result: [None] for a root or an
    empty path. *)
Definition parent (p : str) : option (list component) :=
  match reverse (components p) with
  | [] => None
  | RootDir :: _ => None
  | _ :: rest => Some (reverse rest)
  end.

(** [Path::strip_prefix], as the string of the resulting path: the component-wise
    rest of [p] after the components of [base].  What remains keeps its separators,
    but for those (and the "." pieces) at its two ends; when nothing is stripped the
    front is left alone. *)
Fixpoint list_strip {A} `{EqDecision A} (p l : list A) : option (list A) :=
  match p, l with
  | [], _ => Some l
  | x :: p, y :: l => if bool_decide (x = y) then list_strip p l else None
  | _ :: _, [] => None
  end.

Definition is_skipped_piece (s : str) : bool :=
  match piece_component s with None => true | Some _ => false end.

Fixpoint drop_components (n : nat) (pieces : list str) : list str :=
  match n, pieces with
  | O, _ => pieces
  | S _, [] => []
  | S n', s :: pieces => drop_components (if is_skipped_piece s then n else n') pieces
  end.

Definition path_strip_prefix (p base : str) : option str :=
  match list_strip (components base) (components p) with
  | None => None
  | Some _ =>
      let trim_right := drop_while_end is_skipped_piece in
      match components base, split_on SLASH p with
      | _, [] => Some []
      | [], first :: rest =>
          Some (if is_absolute p then SLASH :: join [SLASH] (trim_right rest)
                else join [SLASH] (first :: trim_right rest))
      | c :: cs, first :: rest =>
          (* a root, or a leading ".", is the first piece *)
          let body := if is_absolute p || bool_decide (c = CurDir)
                      then drop_components (length cs) rest
                      else drop_components (length (c :: cs)) (first :: rest) in
          Some (join [SLASH] (trim_right (drop_while is_skipped_piece body)))
      end
  end.

(** ** Lemmas *)

Lemma strip_prefix_Some p s r : strip_prefix p s = Some r <-> s = p ++ r.
Proof.
  revert s. induction p as [|a p IH]; intros s; simpl.
  { naive_solver. }
  destruct s as [|b s]; simpl; [naive_solver|].
  case_bool_decide; [rewrite IH|]; naive_solver.
Qed.

Lemma strip_prefix_app p r : strip_prefix p (p ++ r) = Some r.
Proof. by apply strip_prefix_Some. Qed.

Lemma strip_prefix_None p s : strip_prefix p s = None <-> forall r, s <> p ++ r.
Proof.
  destruct (strip_prefix p s) as [r|] eqn:H.
  - apply strip_prefix_Some in H. split; [done|]. intros Hn. by destruct (Hn r).
  - split; [|done]. intros _ r ->. by rewrite strip_prefix_app in H.
Qed.

Lemma starts_with_true p s : starts_with p s = true <-> exists r, s = p ++ r.
Proof.
  unfold starts_with. destruct (strip_prefix p s) as [r|] eqn:H.
  - apply strip_prefix_Some in H. naive_solver.
  - rewrite strip_prefix_None in H. split; [done|]. intros [r ->]. by destruct (H r).
Qed.

Lemma starts_with_app p r : starts_with p (p ++ r) = true.
Proof. apply starts_with_true. by exists r. Qed.

Lemma strip_suffix_Some p s r : strip_suffix p s = Some r <-> s = r ++ p.
Proof.
  unfold strip_suffix. split.
  - destruct (strip_prefix (reverse p) (reverse s)) as [q|] eqn:H; [|done].
    intros [= <-]. apply strip_prefix_Some in H.
    rewrite <-(reverse_involutive s), H, reverse_app, reverse_involutive. done.
  - intros ->. rewrite reverse_app, strip_prefix_app, reverse_involutive. done.
Qed.

(** The last occurrence: nothing of the rest starts with another one. *)
Lemma rsplit_once_Some p s a b :
  rsplit_once p s = Some (a, b) -> s = a ++ p ++ b.
Proof.
  revert a b. induction s as [|x s IH]; intros a b; cbn [rsplit_once].
  { destruct p; [|done]. by intros [= <- <-]. }
  destruct (rsplit_once p s) as [[a' b']|].
  - intros [= <- <-]. cbn. f_equal. by apply IH.
  - destruct (strip_prefix p (x :: s)) as [r|] eqn:E; [|done]. intros [= <- <-].
    by apply strip_prefix_Some in E.
Qed.

Lemma rsplit_once_None p s : rsplit_once p s = None <-> contains p s = false.
Proof.
  induction s as [|x s IH]; cbn [rsplit_once contains].
  { unfold starts_with. destruct p; simpl; done. }
  unfold starts_with. rewrite orb_false_iff, <-IH.
  destruct (rsplit_once p s) as [[]|]; [naive_solver|].
  destruct (strip_prefix p (x :: s)); naive_solver.
Qed.

Lemma ends_with_true p s : ends_with p s = true <-> exists r, s = r ++ p.
Proof.
  unfold ends_with. destruct (strip_suffix p s) as [r|] eqn:H.
  - apply strip_suffix_Some in H. naive_solver.
  - split; [done|]. intros [r Hr]. apply strip_suffix_Some in Hr. congruence.
Qed.

Lemma drop_while_end_app {A} (q : A -> bool) p s :
  drop_while_end q s <> [] -> drop_while_end q (p ++ s) = p ++ drop_while_end q s.
Proof.
  intros Hs. induction p as [|x p IH]; simpl; [done|].
  rewrite IH. destruct (p ++ drop_while_end q s) eqn:E; [|done].
  apply app_eq_nil in E as [_ ?]. done.
Qed.

Lemma drop_while_end_snoc {A} (q : A -> bool) l x :
  q x = true -> drop_while_end q (l ++ [x]) = drop_while_end q l.
Proof.
  intros Hx. induction l as [|y l IH]; simpl; [by rewrite Hx|]. by rewrite IH.
Qed.

Lemma drop_while_end_last {A} (q : A -> bool) l x :
  q x = false -> drop_while_end q (l ++ [x]) = l ++ [x].
Proof.
  intros Hx. rewrite drop_while_end_app; simpl; rewrite Hx; done.
Qed.

Lemma drop_while_end_idem {A} (q : A -> bool) l :
  drop_while_end q (drop_while_end q l) = drop_while_end q l.
Proof.
  induction l as [|x l IH]; simpl; [done|].
  destruct (drop_while_end q l) as [|y r] eqn:E.
  - destruct (q x) eqn:Hx; simpl; [done|]. by rewrite Hx.
  - cbn [drop_while_end] in *. rewrite IH. done.
Qed.

(** The last kept element is not dropped by the predicate. *)
Lemma drop_while_end_last_kept {A} (q : A -> bool) l x :
  last (drop_while_end q l) = Some x -> q x = false.
Proof.
  induction l as [|y l IH]; simpl; [done|].
  destruct (drop_while_end q l) as [|z r] eqn:E.
  - destruct (q y) eqn:Hy; simpl; [done|]. congruence.
  - rewrite last_cons_cons. apply IH.
Qed.

Lemma trim_start_idem s : trim_start (trim_start s) = trim_start s.
Proof.
  unfold trim_start. induction s as [|x s IH]; simpl; [done|].
  destruct (is_whitespace x) eqn:Hx; [done|]. simpl. by rewrite Hx.
Qed.

Lemma trim_trim_end s : trim (trim_end s) = trim s.
Proof. unfold trim, trim_end. by rewrite drop_while_end_idem. Qed.

Lemma drop_while_suffix {A} (q : A -> bool) l : exists p, l = p ++ drop_while q l.
Proof.
  induction l as [|x l [p IH]]; simpl; [by exists []|].
  destruct (q x); [|by exists []]. exists (x :: p). simpl. by rewrite <-IH.
Qed.

Lemma drop_while_end_prefix {A} (q : A -> bool) l : exists p, l = drop_while_end q l ++ p.
Proof.
  induction l as [|x l [p IH]]; simpl; [by exists []|].
  destruct (drop_while_end q l) as [|y r] eqn:E.
  - destruct (q x); [by exists (x :: l)|]. exists l. done.
  - exists p. simpl. by rewrite IH at 1.
Qed.

Lemma drop_while_end_drop_while {A} (q : A -> bool) l :
  drop_while_end q (drop_while q l) = drop_while q (drop_while_end q l).
Proof.
  induction l as [|x l IH]; simpl; [done|].
  destruct (q x) eqn:Hx.
  - rewrite IH. destruct (drop_while_end q l) eqn:E; [done|]. simpl. by rewrite Hx.
  - simpl. destruct (drop_while_end q l) eqn:E; simpl; rewrite Hx; done.
Qed.

Lemma trim_idem s : trim (trim s) = trim s.
Proof.
  unfold trim at 1 2, trim_end, trim_start.
  rewrite drop_while_end_drop_while, drop_while_end_idem.
  apply trim_start_idem.
Qed.

(** A string that starts with a non-blank and ends with a trimmed, non-empty
    string is trimmed. *)
Lemma trim_app x p s :
  is_whitespace x = false -> s <> [] -> trim_end s = s -> trim (x :: p ++ s) = x :: p ++ s.
Proof.
  intros Hx Hs Ht. unfold trim, trim_end in *.
  change (x :: p ++ s) with ((x :: p) ++ s).
  rewrite drop_while_end_app; rewrite Ht; [|done].
  unfold trim_start. simpl. by rewrite Hx.
Qed.

Lemma trim_end_of_trim s : trim s = s -> trim_end s = s.
Proof.
  intros H. transitivity (trim_end (trim s)); [by rewrite H|].
  unfold trim, trim_end, trim_start in *.
  by rewrite drop_while_end_drop_while, drop_while_end_idem.
Qed.

Lemma split_on_nonempty c s : split_on c s <> [].
Proof.
  induction s as [|x s IH]; simpl; [done|].
  case_bool_decide; [done|]. by destruct (split_on c s).
Qed.

Lemma join_cons sep x l : l <> [] -> join sep (x :: l) = x ++ sep ++ join sep l.
Proof. by destruct l. Qed.

(** [split] then [join] is the identity. *)
Lemma join_split c s : join [c] (split_on c s) = s.
Proof.
  induction s as [|x s IH]; simpl; [done|].
  case_bool_decide as Hx.
  - subst x. rewrite join_cons by apply split_on_nonempty. simpl. by rewrite IH.
  - destruct (split_on c s) as [|p ps] eqn:E; [by destruct (split_on_nonempty c s)|].
    destruct ps; simpl in *; by rewrite <-IH.
Qed.

Lemma split_on_app c l s :
  c ∉ l -> split_on c (l ++ c :: s) = l :: split_on c s.
Proof.
  induction l as [|x l IH]; simpl; intros Hl.
  - by rewrite bool_decide_eq_true_2.
  - rewrite bool_decide_eq_false_2 by set_solver. rewrite IH by set_solver. done.
Qed.

Lemma split_on_no c l : c ∉ l -> split_on c l = [l].
Proof.
  induction l as [|x l IH]; simpl; intros Hl; [done|].
  rewrite bool_decide_eq_false_2 by set_solver. rewrite IH by set_solver. done.
Qed.

(** The last element of a join. *)
Lemma join_snoc sep l x : l <> [] -> join sep (l ++ [x]) = join sep l ++ sep ++ x.
Proof.
  induction l as [|y l IH]; intros Hne; [done|]. cbn [app].
  destruct l as [|z l]; [done|].
  rewrite !join_cons by (destruct l; done). rewrite IH by done. by rewrite <-!app_assoc.
Qed.

Lemma join_snoc_app sep l a b : join sep (l ++ [a ++ b]) = join sep (l ++ [a]) ++ b.
Proof. destruct l as [|y l]; [done|]. rewrite !join_snoc by done. by rewrite <-!app_assoc. Qed.

(** [join] then [split] is the identity on non-empty lists of separator-free
    pieces. *)
Lemma split_join c l :
  l <> [] -> Forall (fun p => c ∉ p) l -> split_on c (join [c] l) = l.
Proof.
  induction l as [|x l IH]; intros Hne Hall; [done|].
  apply Forall_cons in Hall as [Hx Hl]. destruct l as [|y l].
  - simpl. by apply split_on_no.
  - rewrite join_cons by done.
    change (x ++ [c] ++ join [c] (y :: l)) with (x ++ c :: join [c] (y :: l)).
    rewrite split_on_app by done. by rewrite IH.
Qed.

Lemma split_inclusive_app l s :
  LF ∉ l -> split_inclusive (l ++ LF :: s) = (l, true) :: split_inclusive s.
Proof.
  induction l as [|x l IH]; simpl; intros Hl; [done|].
  rewrite bool_decide_eq_false_2 by set_solver. rewrite IH by set_solver. done.
Qed.

Lemma split_inclusive_no l : LF ∉ l -> l <> [] -> split_inclusive l = [(l, false)].
Proof.
  induction l as [|x l IH]; simpl; intros Hl Hne; [done|].
  rewrite bool_decide_eq_false_2 by set_solver.
  destruct l as [|y l]; [done|]. rewrite IH by set_solver. done.
Qed.

(** A line of text: no line feed in it, no carriage return at its end. *)
Definition line_ok (l : str) : Prop := (LF ∉ l) /\ strip_suffix [CR] l = None.

Lemma strip_cr_ok l : line_ok l -> strip_cr l = l.
Proof. intros [_ H]. unfold strip_cr. by rewrite H. Qed.

Lemma lines_cons l s : line_ok l -> lines (l ++ LF :: s) = l :: lines s.
Proof.
  intros Hl. unfold lines. rewrite split_inclusive_app by apply Hl.
  simpl. by rewrite strip_cr_ok.
Qed.

(** [lines] inverts joining with line feeds, when the last line is not empty. *)
Lemma lines_join ls l :
  Forall line_ok ls -> LF ∉ l -> l <> [] -> lines (join [LF] (ls ++ [l])) = ls ++ [l].
Proof.
  intros Hls Hl Hne. induction ls as [|x ls IH]; simpl.
  - unfold lines. by rewrite split_inclusive_no.
  - apply Forall_cons in Hls as [Hx Hls]. 
    transitivity (x :: lines (join [LF] (ls ++ [l]))); [|by rewrite (IH Hls)].
    rewrite <-lines_cons by done.
    destruct (ls ++ [l]) eqn:E; [by destruct ls|]. done.
Qed.

Lemma components_absolute p : is_absolute p = true -> head (components p) = Some RootDir.
Proof. unfold components. by intros ->. Qed.

(** A line feed separates the lines before it from those after it. *)
Lemma split_inclusive_lf a b :
  split_inclusive (a ++ LF :: b) = split_inclusive (a ++ [LF]) ++ split_inclusive b.
Proof.
  induction a as [|x a IH]; simpl; [done|].
  case_bool_decide; [by rewrite IH|]. rewrite IH.
  destruct (split_inclusive (a ++ [LF])) as [|[p q] ps] eqn:E; [|done].
  exfalso. destruct a as [|y a]; simpl in E; [done|].
  case_bool_decide; [done|]. by destruct (split_inclusive (a ++ [LF])) as [|[] ?].
Qed.

Lemma lines_lf a b : lines (a ++ LF :: b) = lines (a ++ [LF]) ++ lines b.
Proof. unfold lines. by rewrite split_inclusive_lf, fmap_app. Qed.

Lemma ends_with_lf s : ends_with [LF] s = true <-> exists r, s = r ++ [LF].
Proof. apply ends_with_true. Qed.

(** A piece of a string is no longer than the string, and as long only when it is
    the whole string. *)
Lemma split_on_piece_length c s p :
  p ∈ split_on c s -> length p <= length s /\ (length p = length s -> p = s).
Proof.
  revert p. induction s as [|x s IH]; intros p; simpl.
  { intros ->%list_elem_of_singleton. done. }
  case_bool_decide as Hx.
  - intros [->|Hp]%elem_of_cons; simpl; [split; [lia|done]|].
    destruct (IH p Hp). split; lia.
  - destruct (split_on c s) as [|q qs] eqn:E; [by destruct (split_on_nonempty c s)|].
    intros [->|Hp]%elem_of_cons; simpl.
    + destruct (IH q) as [? Heq]; [set_solver|]. split; [lia|]. intros. by rewrite Heq by lia.
    + destruct (IH p) as [? Heq]; [set_solver|]. split; lia.
Qed.

Lemma file_name_piece p n : file_name p = Some n -> n ∈ split_on SLASH p.
Proof.
  unfold file_name. destruct (last (components p)) as [c|] eqn:E; [|done].
  destruct c as [| | |n']; try done. intros [= ->].
  assert (Normal n ∈ components p) as Hin by (by apply last_Some_elem_of).
  assert (Hbody : Normal n ∈ omap piece_component (split_on SLASH p) -> n ∈ split_on SLASH p).
  { intros (x & Hx & Hn)%list_elem_of_omap. unfold piece_component in Hn.
    repeat case_bool_decide; simplify_eq. done. }
  unfold components in Hin. destruct (is_absolute p).
  - apply elem_of_cons in Hin as [?|?]; [done|auto].
  - destruct (split_on SLASH p) as [|first ?]; [auto|].
    case_bool_decide; [apply elem_of_cons in Hin as [?|?]; [done|auto]|auto].
Qed.

Lemma rsplit_dot_length s before after :
  rsplit_dot s = (Some before, after) -> length before < length s.
Proof.
  unfold rsplit_dot. pose proof (join_split (ch ".") s) as Hs.
  destruct (split_on (ch ".") s) as [|p ps _] eqn:E using rev_ind; [done|].
  rewrite reverse_snoc. destruct (reverse ps) as [|q qs] eqn:Eps; [done|].
  intros [= <- <-]. rewrite <-Eps, reverse_involutive.
  assert (ps <> []) as Hne by (intros ->; done).
  rewrite <-Hs. change [ch "."] with (lit "."). rewrite join_snoc by done.
  rewrite !length_app. change (length (lit ".")) with 1. lia.
Qed.

Lemma file_stem_length p s :
  file_stem p = Some s -> length s <= length p /\ (length s = length p -> s = p).
Proof.
  unfold file_stem. destruct (file_name p) as [n|] eqn:Hn; [|done]. cbn [mbind option_bind].
  apply file_name_piece, split_on_piece_length in Hn as [Hle Heq].
  destruct (rsplit_dot n) as [[before|] after] eqn:E.
  - apply rsplit_dot_length in E. case_bool_decide; intros [= <-]; [done|]. split; lia.
  - intros [= <-]. unfold rsplit_dot in E.
    destruct (reverse (split_on (ch ".") n)) as [|a [|b l]] eqn:Er.
    + by injection E as <-.
    + injection E as <-. pose proof (join_split (ch ".") n) as Hj.
      rewrite <-(reverse_involutive (split_on _ _)), Er in Hj. simpl in Hj. by subst a.
    + done.
Qed.

(** ** Paths and their components *)

(** A file name as it occurs in a path. *)
Definition valid_name (n : str) : Prop :=
  n <> [] /\ n <> lit "." /\ n <> lit ".." /\ SLASH ∉ n.

#[export] Instance valid_name_dec n : Decision (valid_name n).
Proof. unfold valid_name. apply _. Defined.

Lemma split_on_pieces c s : Forall (fun p => c ∉ p) (split_on c s).
Proof.
  induction s as [|x s IH]; simpl; [by repeat constructor; apply not_elem_of_nil|].
  case_bool_decide; [constructor; [apply not_elem_of_nil|done]|].
  destruct (split_on c s) as [|p ps]; [constructor; [set_solver|constructor]|].
  apply Forall_cons in IH as [Hp Hps]. constructor; [set_solver|done].
Qed.

Lemma split_on_sep c a b : split_on c (a ++ c :: b) = split_on c a ++ split_on c b.
Proof.
  induction a as [|x a IH]; simpl; [by rewrite bool_decide_eq_true_2|].
  case_bool_decide; [by rewrite IH|]. rewrite IH.
  pose proof (split_on_nonempty c a). by destruct (split_on c a).
Qed.

Lemma piece_component_name n : valid_name n -> piece_component n = Some (Normal n).
Proof.
  intros (? & ? & ? & _). unfold piece_component. by rewrite !bool_decide_eq_false_2.
Qed.

Lemma omap_piece_names ns :
  Forall valid_name ns -> omap piece_component ns = Normal <$> ns.
Proof.
  induction 1 as [|n ns Hn _ IH]; [done|]. csimpl. rewrite piece_component_name by done.
  by rewrite IH.
Qed.

(** Every normal component of a path is a file name. *)
Lemma components_names p n : Normal n ∈ components p -> valid_name n.
Proof.
  assert (Hbody : Normal n ∈ omap piece_component (split_on SLASH p) -> valid_name n).
  { intros (x & Hx & Hn)%list_elem_of_omap. pose proof (split_on_pieces SLASH p) as Hp.
    rewrite Forall_forall in Hp. specialize (Hp x Hx). unfold piece_component in Hn.
    repeat case_bool_decide; simplify_eq. done. }
  unfold components. destruct (is_absolute p).
  - intros [?|?]%elem_of_cons; [done|auto].
  - destruct (split_on SLASH p) as [|first ?]; [auto|].
    case_bool_decide; [intros [?|?]%elem_of_cons; [done|auto]|auto].
Qed.

(** The path "/a/b/c" has the components of its names. *)
Definition render_absolute (ns : list str) : str := SLASH :: join [SLASH] ns.

Lemma components_render ns :
  Forall valid_name ns -> components (render_absolute ns) = RootDir :: (Normal <$> ns).
Proof.
  intros Hns. unfold components, render_absolute. cbn [is_absolute].
  rewrite bool_decide_eq_true_2 by done. f_equal. cbn [split_on].
  rewrite bool_decide_eq_true_2 by done. destruct ns as [|n ns]; [done|].
  rewrite split_join; [|done|].
  - change (omap piece_component (n :: ns) = Normal <$> n :: ns). by rewrite omap_piece_names.
  - eapply Forall_impl; [exact Hns|]. by intros ? (_ & _ & _ & ?).
Qed.

(** Joining a relative path to a base that ends in no separator appends its
    components, but for a leading ".". *)
Lemma components_join b p :
  b <> [] -> last b <> Some SLASH -> is_absolute p = false ->
  components (path_join b p) = components b ++ filter (fun c => c <> CurDir) (components p).
Proof.
  intros Hb Hlast Hp. unfold path_join. rewrite Hp.
  destruct (last b) as [c|] eqn:Hl; [|by apply last_None in Hl].
  rewrite bool_decide_eq_false_2 by congruence.
  assert (Hfilter : forall l : list str, filter (fun c => c <> CurDir) ((omap piece_component l : list component))
    = (omap piece_component l : list component)).
  { induction l as [|x l IH]; [done|]. csimpl.
    destruct (piece_component x) as [y|] eqn:Hx; [|exact IH].
    rewrite filter_cons_True, IH; [done|]. intros ->. unfold piece_component in Hx.
    by repeat case_bool_decide. }
  assert (Hcp : filter (fun c => c <> CurDir) (components p)
                = omap piece_component (split_on SLASH p)).
  { unfold components. rewrite Hp. destruct (split_on SLASH p) as [|f l] eqn:E; [done|].
    case_bool_decide; [rewrite filter_cons_False by (by intros H'; apply H')|];
      by rewrite Hfilter. }
  rewrite Hcp. unfold components.
  destruct b as [|x b]; [done|]. cbn [app is_absolute].
  assert (Hsplit : split_on SLASH (x :: b ++ SLASH :: p)
                   = split_on SLASH (x :: b) ++ split_on SLASH p)
    by (by rewrite <-split_on_sep).
  rewrite Hsplit, omap_app. destruct (bool_decide (x = SLASH)); [done|].
  pose proof (split_on_nonempty SLASH (x :: b)).
  destruct (split_on SLASH (x :: b)); [done|]. cbn [app]. by case_bool_decide.
Qed.

Lemma replace_char_app f to a b : replace_char f to (a ++ b) = replace_char f to a ++ replace_char f to b.
Proof. apply bind_app. Qed.

Lemma replace_char_id f to s : Forall (fun c => f c = false) s -> replace_char f to s = s.
Proof.
  unfold replace_char. induction 1 as [|c s Hc _ IH]; [done|]. rewrite bind_cons, Hc, IH. done.
Qed.

(** Replacing the separator of a join. *)
Lemma replace_char_join f to c l :
  f c = true -> Forall (Forall (fun x => f x = false)) l ->
  replace_char f to (join [c] l) = join to l.
Proof.
  intros Hc Hl. induction Hl as [|x l Hx _ IH]; [done|]. destruct l as [|y l].
  { by apply replace_char_id. }
  rewrite !join_cons, !replace_char_app, IH, replace_char_id by done.
  unfold replace_char. simpl. by rewrite Hc, app_nil_r.
Qed.

(** Stripping a directory from a path below it leaves the names that follow. *)
Lemma list_strip_app {A} `{EqDecision A} (p l : list A) : list_strip p (p ++ l) = Some l.
Proof. induction p as [|x p IH]; simpl; [done|]. by rewrite bool_decide_eq_true_2. Qed.

Lemma valid_name_kept n : valid_name n -> is_skipped_piece n = false.
Proof. intros H. unfold is_skipped_piece. by rewrite piece_component_name. Qed.

Lemma drop_components_names ns ps :
  Forall valid_name ns -> drop_components (length ns) (ns ++ ps) = ps.
Proof. induction 1 as [|n ns Hn _ IH]; [by destruct ps|]. simpl. by rewrite valid_name_kept. Qed.

Lemma trim_names ns :
  Forall valid_name ns ->
  drop_while_end is_skipped_piece (drop_while is_skipped_piece ns) = ns.
Proof.
  intros Hns. destruct Hns as [|n ns Hn Hns]; [done|]. cbn [drop_while].
  rewrite valid_name_kept by done.
  destruct ns as [|x ns _] using rev_ind; [cbn [drop_while_end]; by rewrite valid_name_kept|].
  apply Forall_app in Hns as [_ Hx]. inversion_clear Hx.
  rewrite app_comm_cons. apply drop_while_end_last. by apply valid_name_kept.
Qed.

Lemma path_strip_prefix_render ns ms :
  Forall valid_name ns -> Forall valid_name ms -> ms <> [] ->
  path_strip_prefix (render_absolute (ns ++ ms)) (render_absolute ns) = Some (join [SLASH] ms).
Proof.
  intros Hns Hms Hne. assert (Forall valid_name (ns ++ ms)) as Hall by (by apply Forall_app).
  unfold path_strip_prefix. rewrite !components_render by done.
  rewrite fmap_app, app_comm_cons, list_strip_app.
  assert (Hsplit : split_on SLASH (render_absolute (ns ++ ms)) = [] :: (ns ++ ms)).
  { unfold render_absolute. cbn [split_on]. rewrite bool_decide_eq_true_2 by done.
    rewrite split_join; [done| |].
    - by destruct ns.
    - eapply Forall_impl; [exact Hall|]. by intros ? (_ & _ & _ & ?). }
  rewrite Hsplit. cbn [is_absolute render_absolute].
  rewrite bool_decide_eq_true_2 by done. cbn [orb]. rewrite length_fmap, drop_components_names by done.
  by rewrite trim_names.
Qed.

#[export] Hint Rewrite strip_prefix_app starts_with_app : happy_rw.
#[export] Hint Resolve split_on_nonempty strip_cr_ok : happy.
