(* ===== verification/SeekSequence.v ===== *)
(** * Locating context lines (apply-patch/src/seek_sequence.rs)

    [seek_sequence] looks for the lines of a patch chunk in a file with four
    decreasing degrees of strictness. *)

From S2P Require Import Prelude RustStd.

(** ** The code *)

(** The table of [normalise]: typographic punctuation to ASCII. *)
Definition normalise_char (c : char) : char :=
  if bool_decide (c ∈ [0x2010; 0x2011; 0x2012; 0x2013; 0x2014; 0x2015; 0x2212]%N) then ch "-"
  else if bool_decide (c ∈ [0x2018; 0x2019; 0x201A; 0x201B]%N) then ch "'"
  else if bool_decide (c ∈ [0x201C; 0x201D; 0x201E; 0x201F]%N) then 34%N
  else if bool_decide (c ∈ [0x00A0; 0x2002; 0x2003; 0x2004; 0x2005; 0x2006; 0x2007;
                            0x2008; 0x2009; 0x200A; 0x202F; 0x205F; 0x3000]%N) then ch " "
  else c.

Definition normalise (s : str) : str := normalise_char <$> trim s.

(** The body of one search loop: [pattern] against [lines] from index [i], both
    sides mapped by [norm], stopping at the first difference.  An index out of
    range would panic; the callers keep [i + pattern.len() <= lines.len()]
    ([match_at_in_range]). *)
Fixpoint match_at (norm : str -> str) (lines pattern : list str) (i : nat) : bool :=
  match pattern with
  | [] => true
  | pat :: pattern' =>
      match lines !! i with
      | Some line =>
          if bool_decide (norm line <> norm pat) then false
          else match_at norm lines pattern' (S i)
      | None => false
      end
  end.

(** The degrees of strictness, in the order of the four loops. *)
Definition passes : list (str -> str) := [fun s => s; trim_end; trim; normalise].

(** [for i in search_start..=lines.len().saturating_sub(pattern.len())]. *)
Definition search_pass (lines pattern : list str) (search_start : nat)
    (norm : str -> str) : option nat :=
  find_in_range (match_at norm lines pattern) search_start (length lines - length pattern).

(** The first pass that finds the pattern. *)
Fixpoint first_pass {A} (f : A -> option nat) (l : list A) : option nat :=
  match l with
  | [] => None
  | x :: l => match f x with Some i => Some i | None => first_pass f l end
  end.

Definition search_start (lines pattern : list str) (start : nat) (eof : bool) : nat :=
  if eof && (length pattern <=? length lines) then length lines - length pattern else start.

Definition seek_sequence (lines pattern : list str) (start : nat) (eof : bool) : option nat :=
  match pattern with
  | [] => Some start
  | _ =>
      if length lines <? length pattern then None
      else first_pass (search_pass lines pattern (search_start lines pattern start eof)) passes
  end.

(** ** What a match is *)

(** [pattern] occurs in [lines] at [i], up to [norm]. *)
Definition occurs (norm : str -> str) (lines pattern : list str) (i : nat) : Prop :=
  i + length pattern <= length lines /\
  norm <$> take (length pattern) (drop i lines) = norm <$> pattern.

Lemma match_at_occurs norm lines pattern i :
  i <= length lines ->
  match_at norm lines pattern i = true <-> occurs norm lines pattern i.
Proof.
  unfold occurs. revert i. induction pattern as [|p pattern IH]; intros i Hi; simpl.
  { split; [split; [lia|done]|done]. }
  destruct (lines !! i) as [line|] eqn:Hl.
  - rewrite (drop_S _ line) by done. simpl.
    pose proof (lookup_lt_Some _ _ _ Hl).
    case_bool_decide as Hne.
    + split; [done|]. intros [_ [= ? _]]. done.
    + rewrite IH by lia.
      split; intros [? Heq]; (split; [lia|]); [by f_equal|by injection Heq].
  - apply lookup_ge_None in Hl. split; [done|]. lia.
Qed.

(** The loop bound keeps every index of a pass in range. *)
Lemma match_at_in_range (lines pattern : list str) i k :
  i <= length lines - length pattern -> length pattern <= length lines ->
  k < length pattern -> is_Some (lines !! (i + k)).
Proof. intros. apply lookup_lt_is_Some. lia. Qed.

Lemma first_pass_Some {A} (f : A -> option nat) l i :
  first_pass f l = Some i <->
  exists l1 x l2, l = l1 ++ x :: l2 /\ f x = Some i /\ Forall (fun y => f y = None) l1.
Proof.
  induction l as [|x l IH]; simpl.
  { split; [done|]. by intros ([] & ? & ? & ? & _). }
  destruct (f x) as [j|] eqn:Hx.
  - split.
    + intros [= <-]. exists [], x, l. split_and!; auto.
    + intros ([|y l1] & z & l2 & [= -> ->] & Hz & Hall); [congruence|].
      apply Forall_cons in Hall as [? _]. congruence.
  - rewrite IH. split.
    + intros (l1 & y & l2 & -> & Hy & Hall). exists (x :: l1), y, l2. split_and!; auto.
    + intros ([|z l1] & y & l2 & [= -> ->] & Hy & Hall); [congruence|].
      apply Forall_cons in Hall as [_ Hall]. exists l1, y, l2. auto.
Qed.

Lemma first_pass_None {A} (f : A -> option nat) l :
  first_pass f l = None <-> Forall (fun y => f y = None) l.
Proof.
  induction l as [|x l IH]; simpl; [done|]. rewrite Forall_cons, <-IH.
  destruct (f x); naive_solver.
Qed.

Section passes.
Context (lines pattern : list str).

Lemma search_pass_Some s norm i :
  search_pass lines pattern s norm = Some i <->
  s <= i /\ occurs norm lines pattern i /\
  forall j, s <= j < i -> ~ occurs norm lines pattern j.
Proof.
  unfold search_pass. rewrite find_in_range_Some. split.
  - intros (Hi & Hm & Hmin). split; [lia|].
    rewrite match_at_occurs in Hm by lia. split; [done|].
    intros j Hj Hocc. apply match_at_occurs in Hocc; [|lia].
    rewrite Hmin in Hocc by done. done.
  - intros (Hi & Hocc & Hmin). pose proof Hocc as [Hr _].
    split; [lia|]. split; [by apply match_at_occurs; [lia|]|].
    intros j Hj. apply not_true_iff_false. rewrite match_at_occurs by lia. auto.
Qed.

Lemma search_pass_None s norm :
  search_pass lines pattern s norm = None <->
  forall j, s <= j -> ~ occurs norm lines pattern j.
Proof.
  unfold search_pass. rewrite find_in_range_None. split.
  - intros Hn j Hj Hocc. pose proof Hocc as [Hr _].
    apply match_at_occurs in Hocc; [|lia]. rewrite Hn in Hocc by lia. done.
  - intros Hn j Hj. apply not_true_iff_false. rewrite match_at_occurs by lia.
    apply Hn. lia.
Qed.
End passes.

(** A match of a stricter pass is a match of every later one: each later
    normalisation factors through the earlier ones. *)
Lemma occurs_coarser (f g : str -> str) lines pattern i :
  (forall s, f (g s) = f s) -> occurs g lines pattern i -> occurs f lines pattern i.
Proof.
  intros Hfg [Hr Heq]. split; [done|].
  assert (Hext : forall l : list str, f <$> l = (f ∘ g) <$> l).
  { intros l. apply list_fmap_ext. intros; simpl. by rewrite Hfg. }
  rewrite (Hext (take _ _)), (Hext pattern), !list_fmap_compose. by rewrite Heq.
Qed.

Lemma normalise_trim s : normalise (trim s) = normalise s.
Proof. unfold normalise. by rewrite trim_idem. Qed.
Lemma normalise_trim_end s : normalise (trim_end s) = normalise s.
Proof. unfold normalise. by rewrite trim_trim_end. Qed.

Lemma occurs_normalise norm lines pattern i :
  norm ∈ passes -> occurs norm lines pattern i -> occurs normalise lines pattern i.
Proof.
  unfold passes. rewrite !elem_of_cons.
  intros [->|[->|[->|[->|[]%not_elem_of_nil]]]]; [..|done];
    apply occurs_coarser; intros s; auto using normalise_trim, normalise_trim_end.
Qed.

(** ** Properties *)

Lemma seek_first_spec lines pattern start eof i :
  pattern <> [] ->
  seek_sequence lines pattern start eof = Some i <->
  exists stricter norm coarser,
    passes = stricter ++ norm :: coarser /\
    let s := search_start lines pattern start eof in
    s <= i /\ occurs norm lines pattern i /\
    (forall j, s <= j < i -> ~ occurs norm lines pattern j) /\
    Forall (fun n => forall j, s <= j -> ~ occurs n lines pattern j) stricter.
Proof.
  intros Hne. unfold seek_sequence. destruct pattern as [|p ps]; [done|].
  set (pat := p :: ps) in *.
  destruct (Nat.ltb_spec (length lines) (length pat)) as [Hlt|Hle].
  - split; [done|]. intros (? & ? & ? & _ & _ & [Hr _] & _). lia.
  - rewrite first_pass_Some. split.
    + intros (l1 & n & l2 & Hp & Hs & Hall). exists l1, n, l2. split; [done|].
      apply search_pass_Some in Hs as (? & ? & ?). split_and!; auto.
      eapply Forall_impl; [exact Hall|]. intros n' Hn'. by apply search_pass_None.
    + intros (l1 & n & l2 & Hp & Hi & Hocc & Hmin & Hall). exists l1, n, l2.
      split_and!; [done|by apply search_pass_Some|].
      eapply Forall_impl; [exact Hall|]. intros n' Hn'. by apply search_pass_None.
Qed.

(** The search fails exactly when the pattern occurs nowhere from the search
    start, even up to the most permissive normalisation. *)
Lemma seek_sequence_None lines pattern start eof :
  pattern <> [] ->
  seek_sequence lines pattern start eof = None <->
  forall j, search_start lines pattern start eof <= j -> ~ occurs normalise lines pattern j.
Proof.
  intros Hne. unfold seek_sequence. destruct pattern as [|p ps]; [done|].
  set (pat := p :: ps) in *.
  destruct (Nat.ltb_spec (length lines) (length pat)) as [Hlt|Hle].
  { split; [|done]. intros _ j _ [Hr _]. lia. }
  rewrite first_pass_None. split.
  - intros Hall j Hj. rewrite Forall_forall in Hall.
    specialize (Hall normalise ltac:(unfold passes; set_solver)).
    rewrite search_pass_None in Hall. auto.
  - intros Hn. apply Forall_forall. intros norm Hin. apply search_pass_None.
    intros j Hj Hocc. eapply Hn; eauto using occurs_normalise.
Qed.

(** A position that is found is in range, and never before the search start. *)
Lemma seek_sequence_bounds lines pattern start eof i :
  start <= length lines ->
  seek_sequence lines pattern start eof = Some i ->
  i + length pattern <= length lines /\ (eof = false -> start <= i).
Proof.
  intros Hs. destruct (decide (pattern = [])) as [->|Hne].
  { intros [= <-]. simpl. lia. }
  rewrite seek_first_spec by done. intros (? & ? & ? & _ & Hi & [Hr _] & _).
  split; [done|]. intros ->. done.
Qed.


(** With the end-of-file flag a non-empty pattern is only ever compared with
    the last lines of the file: a found position is the one that ends the file,
    and when the last lines do not match the search fails, whatever occurs from
    [start] on. *)
Theorem seek_sequence_eof lines pattern start :
  pattern <> [] ->
  (forall i, seek_sequence lines pattern start true = Some i ->
             i + length pattern = length lines) /\
  (~ occurs normalise lines pattern (length lines - length pattern) ->
   seek_sequence lines pattern start true = None).
Proof.
  intros Hne. unfold search_start. split.
  - intros i. rewrite seek_first_spec by done. unfold search_start. simpl.
    intros (? & ? & ? & _ & Hi & [Hr _] & _).
    rewrite (proj2 (Nat.leb_le _ _)) in Hi by lia. lia.
  - intros Hn. apply seek_sequence_None; [done|]. unfold search_start. simpl.
    intros j Hj [Hr Hocc]. rewrite (proj2 (Nat.leb_le _ _)) in Hj by lia.
    apply Hn. replace (length lines - length pattern) with j by lia. done.
Qed.

(** ** Witnesses *)

Definition demo_lines : list str := [lit "foo   "; lit "bar"; lit "end"].


(** The pattern occurs at the search start, but not at the end of the file. *)
Lemma seek_sequence_eof_witness :
  seek_sequence demo_lines [lit "foo   "] 0 true = None /\
  occurs (fun s => s) demo_lines [lit "foo   "] 0.
Proof.
  split.
  - apply (proj2 (seek_sequence_eof demo_lines [lit "foo   "] 0 ltac:(done))).
    intros [_ Heq]. vm_compute in Heq. discriminate Heq.
  - split; [simpl; lia|reflexivity].
Defined.
