(* ===== verification/PatchParser.v ===== *)
(** * Parsing patches (apply-patch/src/parser.rs)

    The text of a patch to a list of hunks, in strict or lenient mode.  The
    loops of the code that consume a variable number of lines are functions
    with fuel; [parse_patch_text_returns] shows the fuel is enough and that no
    slice is out of range. *)

From S2P Require Import Prelude RustStd.

(** ** Data *)

Definition BEGIN_PATCH_MARKER : str := lit "*** Begin Patch".
Definition END_PATCH_MARKER : str := lit "*** End Patch".
Definition ADD_FILE_MARKER : str := lit "*** Add File: ".
Definition DELETE_FILE_MARKER : str := lit "*** Delete File: ".
Definition UPDATE_FILE_MARKER : str := lit "*** Update File: ".
Definition MOVE_TO_MARKER : str := lit "*** Move to: ".
Definition EOF_MARKER : str := lit "*** End of File".
Definition CHANGE_CONTEXT_MARKER : str := lit "@@ ".
Definition EMPTY_CHANGE_CONTEXT_MARKER : str := lit "@@".

Definition PARSE_IN_STRICT_MODE : bool := false.

Inductive ParseError : Type :=
  | InvalidPatchError (message : str)
  | InvalidHunkError (message : str) (line_number : nat).

Record UpdateFileChunk : Type := mk_chunk {
  change_context : option str;
  old_lines : list str;
  new_lines : list str;
  is_end_of_file : bool;
}.

Inductive Hunk : Type :=
  | AddFile (path : str) (contents : str)
  | DeleteFile (path : str)
  | UpdateFile (path : str) (move_path : option str) (chunks : list UpdateFileChunk).

Definition resolve_path (h : Hunk) (cwd : str) : str :=
  match h with
  | AddFile path _ => path_join cwd path
  | DeleteFile path => path_join cwd path
  | UpdateFile path _ _ => path_join cwd path
  end.

Record ApplyPatchArgs : Type := mk_args {
  patch : str;
  hunks : list Hunk;
  workdir : option str;
}.

Inductive ParseMode : Type := Strict | Lenient.

(** ** Boundaries *)

Definition check_start_and_end_lines_strict (first_line last_line : option str)
    : outcome ParseError () :=
  match trim <$> first_line, trim <$> last_line with
  | Some first, Some last =>
      if bool_decide (first = BEGIN_PATCH_MARKER) && bool_decide (last = END_PATCH_MARKER)
      then Ok ()
      else if bool_decide (first <> BEGIN_PATCH_MARKER)
      then Err (InvalidPatchError (lit "The first line of the patch must be '*** Begin Patch'"))
      else Err (InvalidPatchError (lit "The last line of the patch must be '*** End Patch'"))
  | Some first, None =>
      if bool_decide (first <> BEGIN_PATCH_MARKER)
      then Err (InvalidPatchError (lit "The first line of the patch must be '*** Begin Patch'"))
      else Err (InvalidPatchError (lit "The last line of the patch must be '*** End Patch'"))
  | None, _ => Err (InvalidPatchError (lit "The last line of the patch must be '*** End Patch'"))
  end.

Definition check_patch_boundaries_strict (lines : list str) : outcome ParseError () :=
  check_start_and_end_lines_strict (head lines) (last lines).

Definition check_patch_boundaries_lenient (original_lines : list str)
    (original_parse_error : ParseError) : outcome ParseError (list str) :=
  match original_lines with
  | first :: (_ :: _) as tail =>
      if (bool_decide (first = lit "<<EOF") || bool_decide (first = lit "<<'EOF'")
          || bool_decide (first = lit "<<" ++ [34%N] ++ lit "EOF" ++ [34%N]))
         && ends_with (lit "EOF") (default [] (last original_lines))
         && (4 <=? length original_lines)
      then
        inner_lines ← slice 1 (length original_lines - 1) original_lines;
        match check_patch_boundaries_strict inner_lines with
        | Ok _ => Ok inner_lines
        | Err e => Err e
        | Panic => Panic
        | Timeout => Timeout
        end
      else Err original_parse_error
  | _ => Err original_parse_error
  end.

(** ** Chunks *)

(** The loop over the lines of a chunk: [parsed_lines] counts the lines taken. *)
Fixpoint chunk_loop (line_number : nat) (ls : list str) (chunk : UpdateFileChunk)
    (parsed_lines : nat) : outcome ParseError (UpdateFileChunk * nat) :=
  match ls with
  | [] => Ok (chunk, parsed_lines)
  | line_contents :: ls' =>
      if bool_decide (line_contents = EOF_MARKER) then
        if parsed_lines =? 0 then
          Err (InvalidHunkError (lit "Update hunk does not contain any lines") (line_number + 1))
        else
          Ok (mk_chunk (change_context chunk) (old_lines chunk) (new_lines chunk) true,
              parsed_lines + 1)
      else
        let push_old s c := mk_chunk (change_context c) (old_lines c ++ [s]) (new_lines c)
                              (is_end_of_file c) in
        let push_new s c := mk_chunk (change_context c) (old_lines c) (new_lines c ++ [s])
                              (is_end_of_file c) in
        match line_contents with
        | [] => chunk_loop line_number ls' (push_new [] (push_old [] chunk)) (parsed_lines + 1)
        | c :: rest =>
            if bool_decide (c = ch " ") then
              chunk_loop line_number ls' (push_new rest (push_old rest chunk)) (parsed_lines + 1)
            else if bool_decide (c = ch "+") then
              chunk_loop line_number ls' (push_new rest chunk) (parsed_lines + 1)
            else if bool_decide (c = ch "-") then
              chunk_loop line_number ls' (push_old rest chunk) (parsed_lines + 1)
            else if parsed_lines =? 0 then
              Err (InvalidHunkError
                     (lit "Unexpected line found in update hunk: '" ++ line_contents
                      ++ lit "'. Every line should start with ' ' (context line), '+' (added line), or '-' (removed line)")
                     (line_number + 1))
            else Ok (chunk, parsed_lines)
        end
  end.

Definition parse_update_file_chunk (lines : list str) (line_number : nat)
    (allow_missing_context : bool) : outcome ParseError (UpdateFileChunk * nat) :=
  match lines with
  | [] => Err (InvalidHunkError (lit "Update hunk does not contain any lines") line_number)
  | first :: _ =>
      '(change_context, start_index) ←
        (if bool_decide (first = EMPTY_CHANGE_CONTEXT_MARKER) then Ok (None, 1)
         else match strip_prefix CHANGE_CONTEXT_MARKER first with
              | Some context => Ok (Some context, 1)
              | None =>
                  if negb allow_missing_context then
                    Err (InvalidHunkError
                           (lit "Expected update hunk to start with a @@ context marker, got: '"
                            ++ first ++ lit "'") line_number)
                  else Ok (None, 0)
              end);
      if length lines <=? start_index then
        Err (InvalidHunkError (lit "Update hunk does not contain any lines") (line_number + 1))
      else
        body ← slice_from start_index lines;
        '(chunk, parsed_lines) ←
          chunk_loop line_number body (mk_chunk change_context [] [] false) 0;
        Ok (chunk, parsed_lines + start_index)
  end.

(** ** Hunks *)

(** The [AddFile] loop: contents and the number of '+' lines. *)
Fixpoint add_file_loop (ls : list str) (contents : str) (parsed_lines : nat) : str * nat :=
  match ls with
  | [] => (contents, parsed_lines)
  | add_line :: ls' =>
      match strip_prefix (lit "+") add_line with
      | Some line_to_add => add_file_loop ls' (contents ++ line_to_add ++ [LF]) (parsed_lines + 1)
      | None => (contents, parsed_lines)
      end
  end.

(** The [while] loop over the chunks of an [UpdateFile] hunk. *)
Fixpoint update_loop (fuel : nat) (line_number : nat) (remaining_lines : list str)
    (parsed_lines : nat) (chunks : list UpdateFileChunk)
    : outcome ParseError (list UpdateFileChunk * nat) :=
  match remaining_lines with
  | [] => Ok (chunks, parsed_lines)
  | first :: rest =>
      match fuel with
      | O => Timeout
      | S fuel =>
          if bool_decide (trim first = []) then
            update_loop fuel line_number rest (parsed_lines + 1) chunks
          else if starts_with (lit "***") first then Ok (chunks, parsed_lines)
          else
            '(chunk, chunk_lines) ←
              parse_update_file_chunk remaining_lines (line_number + parsed_lines)
                (bool_decide (chunks = []));
            remaining ← slice_from chunk_lines remaining_lines;
            update_loop fuel line_number remaining (parsed_lines + chunk_lines) (chunks ++ [chunk])
      end
  end.

Definition parse_one_hunk (lines : list str) (line_number : nat)
    : outcome ParseError (Hunk * nat) :=
  match lines with
  | [] => Panic
  | first :: rest =>
      let first_line := trim first in
      match strip_prefix ADD_FILE_MARKER first_line with
      | Some path =>
          let (contents, parsed_lines) := add_file_loop rest [] 1 in
          Ok (AddFile path contents, parsed_lines)
      | None =>
      match strip_prefix DELETE_FILE_MARKER first_line with
      | Some path => Ok (DeleteFile path, 1)
      | None =>
      match strip_prefix UPDATE_FILE_MARKER first_line with
      | Some path =>
          let move_path := head rest ≫= strip_prefix MOVE_TO_MARKER in
          '(remaining_lines, parsed_lines) ←
            (match move_path with
             | Some _ => r ← slice_from 1 rest; Ok (r, 2)
             | None => Ok (rest, 1)
             end);
          '(chunks, parsed_lines) ←
            update_loop (length remaining_lines) line_number remaining_lines parsed_lines [];
          if bool_decide (chunks = []) then
            Err (InvalidHunkError
                   (lit "Update file hunk for path '" ++ path ++ lit "' is empty") line_number)
          else Ok (UpdateFile path move_path chunks, parsed_lines)
      | None =>
          Err (InvalidHunkError
                 (lit "'" ++ first_line
                  ++ lit "' is not a valid hunk header. Valid hunk headers: '*** Add File: {path}', '*** Delete File: {path}', '*** Update File: {path}'")
                 line_number)
      end end end
  end.

(** ** Patches *)

Fixpoint hunks_loop (fuel : nat) (remaining_lines : list str) (line_number : nat)
    (hunks : list Hunk) : outcome ParseError (list Hunk) :=
  match remaining_lines with
  | [] => Ok hunks
  | _ =>
      match fuel with
      | O => Timeout
      | S fuel =>
          '(hunk, hunk_lines) ← parse_one_hunk remaining_lines line_number;
          remaining ← slice_from hunk_lines remaining_lines;
          hunks_loop fuel remaining (line_number + hunk_lines) (hunks ++ [hunk])
      end
  end.

Definition parse_patch_text (patch : str) (mode : ParseMode) : outcome ParseError ApplyPatchArgs :=
  let original := lines (trim patch) in
  lines ← (match check_patch_boundaries_strict original with
           | Ok _ => Ok original
           | Err e =>
               match mode with
               | Strict => Err e
               | Lenient => check_patch_boundaries_lenient original e
               end
           | Panic => Panic
           | Timeout => Timeout
           end);
  let last_line_index := length lines - 1 in
  remaining_lines ← slice 1 last_line_index lines;
  hunks ← hunks_loop (length remaining_lines) remaining_lines 2 [];
  Ok (mk_args (join [LF] lines) hunks None).

Definition parse_patch (patch : str) : outcome ParseError ApplyPatchArgs :=
  let mode := if PARSE_IN_STRICT_MODE then Strict else Lenient in
  parse_patch_text patch mode.

(** ** Progress and termination *)

Lemma slice_from_Ok {E A} n (l : list A) : n <= length l -> slice_from (E:=E) n l = Ok (drop n l).
Proof. intros. unfold slice_from. by rewrite bool_decide_eq_true_2. Qed.

Lemma slice_Ok {E A} a b (l : list A) :
  a <= b -> b <= length l -> slice (E:=E) a b l = Ok (take (b - a) (drop a l)).
Proof. intros. unfold slice. by rewrite bool_decide_eq_true_2. Qed.

Lemma chunk_loop_progress ln ls c k :
  returns (chunk_loop ln ls c k) /\
  forall c' n, chunk_loop ln ls c k = Ok (c', n) ->
    k <= n <= k + length ls /\ (ls <> [] -> 1 <= n).
Proof.
  revert c k. induction ls as [|l ls IH]; intros c k.
  { split; [done|]. intros c' n [= <- <-]. simpl. split; [lia|done]. }
  cbn [chunk_loop]. case_bool_decide.
  { destruct (Nat.eqb_spec k 0) as [Hz|Hz]; (split; [done|]); [done|].
    intros c' n [= <- <-]. simpl. lia. }
  assert (Hrec : forall c0, returns (chunk_loop ln ls c0 (k + 1)) /\
    forall c' n, chunk_loop ln ls c0 (k + 1) = Ok (c', n) ->
      k <= n <= k + length (l :: ls) /\ (l :: ls <> [] -> 1 <= n)).
  { intros c0. destruct (IH c0 (k + 1)) as [? Hn]. split; [done|].
    intros c' n [Hb _]%Hn. simpl. lia. }
  destruct l as [|x rest]; [apply Hrec|].
  repeat case_bool_decide; try apply Hrec.
  destruct (Nat.eqb_spec k 0) as [Hz|Hz]; (split; [done|]); [done|].
  intros c' n [= <- <-]. simpl. lia.
Qed.

Lemma parse_update_file_chunk_progress ls ln allow :
  returns (parse_update_file_chunk ls ln allow) /\
  forall c n, parse_update_file_chunk ls ln allow = Ok (c, n) -> 1 <= n <= length ls.
Proof.
  destruct ls as [|first rest]; [errs|]. unfold parse_update_file_chunk.
  set (head := if bool_decide (first = _) then _ else _).
  assert (Hhead : (exists ctx i, head = Ok (ctx, i) /\ i <= 1) \/ exists e, head = Err e).
  { unfold head. case_bool_decide; [left; eauto|].
    destruct (strip_prefix _ first); [left; eauto|].
    destruct allow; simpl; eauto. left. eauto with lia. }
  destruct Hhead as [(ctx & i & -> & Hi)|[e ->]]; [|errs].
  bsimpl.
  destruct (Nat.leb_spec (length (first :: rest)) i); [errs|].
  rewrite slice_from_Ok by (simpl in *; lia). bsimpl.
  destruct (chunk_loop_progress ln (drop i (first :: rest)) (mk_chunk ctx [] [] false) 0)
    as [Hret Hn].
  destruct (chunk_loop _ _ _ _) as [[c n]|e| |] eqn:E; try done.
  split; [done|]. intros c' n' [= <- <-].
  destruct (Hn c n eq_refl) as [Hb Hne]. rewrite length_drop in Hb. simpl in *.
  specialize (Hne ltac:(destruct i as [|[|]]; [done|destruct rest; simpl in *; [lia|done]|lia])).
  lia.
Qed.

Lemma update_loop_progress fuel ln ls p cs :
  length ls <= fuel ->
  returns (update_loop fuel ln ls p cs) /\
  forall cs' n, update_loop fuel ln ls p cs = Ok (cs', n) -> p <= n <= p + length ls.
Proof.
  revert ls p cs. induction fuel as [|fuel IH]; intros [|first rest] p cs Hf; simpl in Hf;
    try lia; try (split; [done|]; intros ? ? [= <- <-]; simpl; lia).
  cbn [update_loop]. case_bool_decide.
  { destruct (IH rest (p + 1) cs) as [? Hn]; [lia|]. split; [done|].
    intros cs' n Hb%Hn. simpl. lia. }
  destruct (starts_with _ first).
  { split; [done|]. intros ? ? [= <- <-]. lia. }
  destruct (parse_update_file_chunk_progress (first :: rest) (ln + p) (bool_decide (cs = [])))
    as [Hret Hn].
  destruct (parse_update_file_chunk _ _ _) as [[c n]|e| |]; try done.
  specialize (Hn c n eq_refl). bsimpl. rewrite slice_from_Ok by lia. bsimpl.
  destruct (IH (drop n (first :: rest)) (p + n) (cs ++ [c])) as [Hr Hb].
  { rewrite length_drop. simpl in *. lia. }
  split; [done|]. intros cs' m Hm%Hb. rewrite length_drop in Hm. lia.
Qed.

Lemma add_file_loop_progress ls s p :
  p <= (add_file_loop ls s p).2 <= p + length ls.
Proof.
  revert s p. induction ls as [|l ls IH]; intros s p; cbn [add_file_loop]; [simpl; lia|].
  destruct (strip_prefix _ l) as [l0|]; simpl; [|lia].
  specialize (IH (s ++ l0 ++ [LF]) (p + 1)). lia.
Qed.

Lemma parse_one_hunk_progress ls ln :
  ls <> [] ->
  returns (parse_one_hunk ls ln) /\
  forall h n, parse_one_hunk ls ln = Ok (h, n) -> 1 <= n <= length ls.
Proof.
  destruct ls as [|first rest]; [done|]. intros _. unfold parse_one_hunk.
  destruct (strip_prefix ADD_FILE_MARKER _) as [path|].
  { pose proof (add_file_loop_progress rest [] 1) as Hb.
    destruct (add_file_loop rest [] 1) as [s n]. split; [done|].
    intros ? ? [= <- <-]. simpl in *. lia. }
  destruct (strip_prefix DELETE_FILE_MARKER _) as [path|].
  { split; [done|]. intros ? ? [= <- <-]. simpl. lia. }
  destruct (strip_prefix UPDATE_FILE_MARKER _) as [path|]; [|errs].
  set (start := match _ ≫= _ with Some _ => _ | None => _ end).
  assert (Hstart : exists r k, start = Ok (r, k) /\ 1 <= k /\ k + length r <= S (length rest)).
  { unfold start. destruct (head rest ≫= _) eqn:Hmove.
    - destruct rest as [|m rest]; [done|].
      rewrite slice_from_Ok by (simpl; lia). exists rest, 2. split; [reflexivity|simpl; lia].
    - exists rest, 1. split; [done|lia]. }
  destruct Hstart as (r & k & -> & Hk & Hlen). bsimpl.
  destruct (update_loop_progress (length r) ln r k []) as [Hret Hn]; [done|].
  destruct (update_loop _ _ _ _ _) as [[cs n]|e| |]; try done. bsimpl.
  specialize (Hn cs n eq_refl).
  case_bool_decide; (split; [done|]); [done|]. intros ? ? [= <- <-]. simpl. lia.
Qed.

Lemma hunks_loop_returns fuel ls ln hs :
  length ls <= fuel -> returns (hunks_loop fuel ls ln hs).
Proof.
  revert ls ln hs. induction fuel as [|fuel IH]; intros [|l ls] ln hs Hf; simpl in Hf;
    try lia; try done.
  cbn [hunks_loop].
  destruct (parse_one_hunk_progress (l :: ls) ln) as [Hret Hn]; [done|].
  destruct (parse_one_hunk _ _) as [[h n]|e| |]; try done.
  specialize (Hn h n eq_refl). bsimpl. rewrite slice_from_Ok by lia. bsimpl.
  apply IH. rewrite length_drop. simpl in *. lia.
Qed.

(** Both boundary checks leave at least the two marker lines. *)
Lemma check_strict_length ls : check_patch_boundaries_strict ls = Ok () -> 2 <= length ls.
Proof.
  unfold check_patch_boundaries_strict, check_start_and_end_lines_strict.
  destruct ls as [|a [|b ls]]; [done| |simpl; lia].
  change (trim <$> head [a]) with (Some (trim a)).
  change (trim <$> last [a]) with (Some (trim a)). cbv iota.
  destruct (_ && _) eqn:Hc; [intros _|case_match; discriminate].
  to_prop. assert (BEGIN_PATCH_MARKER <> END_PATCH_MARKER) by done. congruence.
Qed.

Lemma check_strict_returns ls :
  check_patch_boundaries_strict ls = Ok () \/ exists e, check_patch_boundaries_strict ls = Err e.
Proof.
  unfold check_patch_boundaries_strict, check_start_and_end_lines_strict.
  repeat case_goal; eauto.
Qed.

Lemma check_lenient_spec ls e :
  match check_patch_boundaries_lenient ls e with
  | Ok inner => 2 <= length inner
  | Err _ => True
  | _ => False
  end.
Proof.
  unfold check_patch_boundaries_lenient. destruct ls as [|a [|b ls]]; [done..|].
  destruct (_ && _ && _) eqn:Hc; [|done].
  apply andb_true_iff in Hc as [_ Hlen%Nat.leb_le].
  rewrite slice_Ok by (simpl in *; lia). bsimpl.
  destruct (check_strict_returns (take (length (a :: b :: ls) - 1 - 1) (drop 1 (a :: b :: ls))))
    as [Hok|[e' He]]; [rewrite Hok|by rewrite He].
  by apply check_strict_length.
Qed.

(** C40. Parsing any text, in either mode, ends with hunks or with a parse error:
    no slice or index of the parser is out of range and every loop ends. *)
Theorem parse_patch_text_returns patch mode : returns (parse_patch_text patch mode).
Proof.
  unfold parse_patch_text. set (ls := lines (trim patch)). apply bind_returns.
  - destruct (check_strict_returns ls) as [->|[e ->]]; [done|]. destruct mode; [done|].
    pose proof (check_lenient_spec ls e). by destruct (check_patch_boundaries_lenient ls e).
  - intros inner Hinner. assert (2 <= length inner) as Hlen.
    { destruct (check_strict_returns ls) as [Hok|[e He]].
      - rewrite Hok in Hinner. injection Hinner as <-. by apply check_strict_length.
      - rewrite He in Hinner. destruct mode; [done|].
        pose proof (check_lenient_spec ls e) as H. by rewrite Hinner in H. }
    rewrite slice_Ok by lia. bsimpl. apply bind_returns; [|done].
    by apply hunks_loop_returns.
Qed.
