(* ===== verification/PatchGrammar.v ===== *)
(** * The documented patch grammar, and the parser on it

    The abstract syntax of the grammar in the header of
    apply-patch/src/parser.rs, its text, and its meaning as hunks.  The parser
    is shown to accept every text of the grammar with that meaning, bare or
    wrapped in a here-document. *)

From S2P Require Import Prelude RustStd PatchParser.

(** ** Abstract syntax *)

(** [change_line]. *)
Inductive diff_line : Type :=
  | Keep (s : str)
  | Insert (s : str)
  | Remove (s : str).

(** [change]: an optional "@@" line with an optional context, the lines, and
    the end-of-file marker. *)
Record chunk_src : Type := mk_chunk_src {
  header : option (option str);
  body : list diff_line;
  at_eof : bool;
}.

Inductive hunk_src : Type :=
  | SrcAdd (path : str) (contents : list str)
  | SrcDelete (path : str)
  | SrcUpdate (path : str) (move_to : option str) (chunks : list chunk_src).

(** ** Text *)

Definition text_of_diff_line (d : diff_line) : str :=
  match d with
  | Keep s => ch " " :: s
  | Insert s => ch "+" :: s
  | Remove s => ch "-" :: s
  end.

Definition text_of_header (h : option (option str)) : list str :=
  match h with
  | None => []
  | Some None => [EMPTY_CHANGE_CONTEXT_MARKER]
  | Some (Some ctx) => [CHANGE_CONTEXT_MARKER ++ ctx]
  end.

Definition text_of_chunk (c : chunk_src) : list str :=
  text_of_header (header c) ++ (text_of_diff_line <$> body c)
    ++ (if at_eof c then [EOF_MARKER] else []).

Definition text_of_hunk (h : hunk_src) : list str :=
  match h with
  | SrcAdd path contents => (ADD_FILE_MARKER ++ path) :: ((fun l => ch "+" :: l) <$> contents)
  | SrcDelete path => [DELETE_FILE_MARKER ++ path]
  | SrcUpdate path move_to chunks =>
      (UPDATE_FILE_MARKER ++ path)
        :: (match move_to with Some d => [MOVE_TO_MARKER ++ d] | None => [] end)
        ++ (chunks ≫= text_of_chunk)
  end.

Definition text_of_patch (hs : list hunk_src) : list str :=
  BEGIN_PATCH_MARKER :: (hs ≫= text_of_hunk) ++ [END_PATCH_MARKER].

(** ** Meaning *)

Definition old_of_diff_line (d : diff_line) : option str :=
  match d with Keep s | Remove s => Some s | Insert _ => None end.
Definition new_of_diff_line (d : diff_line) : option str :=
  match d with Keep s | Insert s => Some s | Remove _ => None end.

Definition chunk_of (c : chunk_src) : UpdateFileChunk :=
  mk_chunk (match header c with Some ctx => ctx | None => None end)
    (omap old_of_diff_line (body c)) (omap new_of_diff_line (body c)) (at_eof c).

Definition hunk_of (h : hunk_src) : Hunk :=
  match h with
  | SrcAdd path contents => AddFile path (contents ≫= fun l => l ++ [LF])
  | SrcDelete path => DeleteFile path
  | SrcUpdate path move_to chunks => UpdateFile path move_to (chunk_of <$> chunks)
  end.

(** ** Well-formed syntax *)

(** Only the first chunk of a hunk may omit its "@@" line, and then its first
    line must not be blank (the parser would skip it between chunks). *)
Definition chunk_wf (first : bool) (c : chunk_src) : Prop :=
  body c <> [] /\
  match header c with
  | Some _ => True
  | None => first = true /\ exists d ds, body c = d :: ds /\ trim (text_of_diff_line d) <> []
  end.

Definition path_wf (p : str) : Prop := p <> [] /\ trim_end p = p.

Definition hunk_wf (h : hunk_src) : Prop :=
  match h with
  | SrcAdd path _ | SrcDelete path => path_wf path
  | SrcUpdate path _ chunks =>
      path_wf path /\
      match chunks with
      | [] => False
      | c :: cs => chunk_wf true c /\ Forall (chunk_wf false) cs
      end
  end.

(** The syntax has the shape of the grammar and every line of its text is a
    line (no line feed inside, no carriage return at the end). *)
Definition patch_wf (hs : list hunk_src) : Prop :=
  Forall hunk_wf hs /\ Forall line_ok (hs ≫= text_of_hunk).

(** ** The parser on the text of a chunk *)

(** A line at which a chunk that has lines already ends. *)
Definition ends_chunk (rest : list str) : Prop :=
  match rest with
  | [] => True
  | l :: _ => l <> EOF_MARKER /\
      match l with [] => False | c :: _ => c <> ch " " /\ c <> ch "+" /\ c <> ch "-" end
  end.

Definition push_diff_line (d : diff_line) (c : UpdateFileChunk) : UpdateFileChunk :=
  mk_chunk (change_context c) (old_lines c ++ option_list (old_of_diff_line d))
    (new_lines c ++ option_list (new_of_diff_line d)) (is_end_of_file c).

Lemma text_not_eof d : text_of_diff_line d <> EOF_MARKER.
Proof. by destruct d. Qed.

Lemma chunk_loop_diff_line ln d ls c k :
  chunk_loop ln (text_of_diff_line d :: ls) c k = chunk_loop ln ls (push_diff_line d c) (k + 1).
Proof.
  cbn [chunk_loop]. rewrite bool_decide_eq_false_2 by apply text_not_eof.
  destruct d; simpl; unfold push_diff_line; simpl; by rewrite ?app_nil_r.
Qed.

Lemma chunk_loop_ends ln rest c k :
  ends_chunk rest -> 0 < k -> chunk_loop ln rest c k = Ok (c, k).
Proof.
  intros Hend Hk. destruct rest as [|l rest]; [done|]. destruct Hend as [Heof Hc].
  cbn [chunk_loop]. rewrite bool_decide_eq_false_2 by done.
  destruct l as [|x l]; [done|]. destruct Hc as (H1 & H2 & H3).
  rewrite !bool_decide_eq_false_2 by done.
  by rewrite (proj2 (Nat.eqb_neq k 0)) by lia.
Qed.

(** The lines of a body, the marker, and whatever ends the chunk. *)
Lemma chunk_loop_body ln ds (eof : bool) rest c k :
  (eof = true \/ ends_chunk rest) -> is_end_of_file c = false -> 0 < k + length ds ->
  chunk_loop ln ((text_of_diff_line <$> ds) ++ (if eof then [EOF_MARKER] else []) ++ rest) c k
  = Ok (mk_chunk (change_context c) (old_lines c ++ omap old_of_diff_line ds)
          (new_lines c ++ omap new_of_diff_line ds) eof,
        k + length ds + (if eof then 1 else 0)).
Proof.
  intros Hend. revert c k. induction ds as [|d ds IH]; intros c k Hc Hk.
  - simpl in *. rewrite !app_nil_r. destruct eof.
    + cbn [chunk_loop app]. rewrite bool_decide_eq_true_2 by done.
      rewrite (proj2 (Nat.eqb_neq k 0)) by lia. do 2 f_equal. lia.
    + destruct Hend as [|Hend]; [done|]. simpl. rewrite chunk_loop_ends by (auto || lia).
      destruct c; simpl in *; subst. do 2 f_equal. lia.
  - rewrite fmap_cons, <-app_comm_cons, chunk_loop_diff_line.
    rewrite IH by (simpl; done || lia). unfold push_diff_line. simpl.
    rewrite <-!app_assoc. do 3 f_equal; [..|destruct eof; simpl; lia].
    + by destruct (old_of_diff_line d).
    + by destruct (new_of_diff_line d).
Qed.

Lemma parse_chunk_text ln (first : bool) c rest :
  chunk_wf first c -> (at_eof c = true \/ ends_chunk rest) ->
  parse_update_file_chunk (text_of_chunk c ++ rest) ln first
  = Ok (chunk_of c, length (text_of_chunk c)).
Proof.
  destruct c as [h ds eof]. unfold chunk_wf, text_of_chunk, chunk_of. simpl.
  intros [Hne Hh] Hend.
  destruct ds as [|d ds]; [done|]. set (all := d :: ds) in *.
  assert (Hbody : forall ctx, chunk_loop ln ((text_of_diff_line <$> all)
             ++ (if eof then [EOF_MARKER] else []) ++ rest) (mk_chunk ctx [] [] false) 0
    = Ok (mk_chunk ctx (omap old_of_diff_line all) (omap new_of_diff_line all) eof,
          length all + (if eof then 1 else 0))).
  { intros ctx. rewrite chunk_loop_body; simpl; auto with lia. }
  assert (Hlen : length ((text_of_diff_line <$> all) ++ (if eof then [EOF_MARKER] else []))
                 = length all + (if eof then 1 else 0)).
  { rewrite length_app, length_fmap. by destruct eof. }
  rewrite <-!app_assoc. unfold parse_update_file_chunk.
  destruct h as [[ctx|]|]; cbn [text_of_header].
  - cbn [app]. rewrite bool_decide_eq_false_2 by (destruct ctx; done).
    rewrite strip_prefix_app. bsimpl.
    rewrite (proj2 (Nat.leb_gt _ _)) by (unfold all; simpl; lia).
    rewrite slice_from_Ok by (simpl; lia). bsimpl. cbn [drop]. rewrite Hbody. bsimpl.
    rewrite length_cons, Hlen. do 2 f_equal. lia.
  - cbn [app]. rewrite bool_decide_eq_true_2 by done. bsimpl.
    rewrite (proj2 (Nat.leb_gt _ _)) by (unfold all; simpl; lia).
    rewrite slice_from_Ok by (simpl; lia). bsimpl. cbn [drop]. rewrite Hbody. bsimpl.
    rewrite length_cons, Hlen. do 2 f_equal. lia.
  - destruct Hh as [-> _]. unfold all at 1. rewrite fmap_cons. cbn [app].
    rewrite bool_decide_eq_false_2 by (destruct d; done).
    assert (strip_prefix CHANGE_CONTEXT_MARKER (text_of_diff_line d) = None) as ->
      by (by destruct d).
    cbn [negb]. bsimpl. rewrite (proj2 (Nat.leb_gt _ _)) by (unfold all; simpl; lia).
    rewrite slice_from_Ok by lia. bsimpl. rewrite drop_0, Hbody. bsimpl.
    do 2 f_equal. cbn [app]. lia.
Qed.

Lemma trim_nonblank x s : is_whitespace x = false -> trim (x :: s) <> [].
Proof.
  intros Hx. unfold trim, trim_start, trim_end. simpl.
  destruct (drop_while_end is_whitespace s); simpl; by rewrite Hx; simpl; rewrite ?Hx.
Qed.

(** A line at which an update hunk ends. *)
Definition ends_hunk (rest : list str) : Prop :=
  match rest with
  | [] => True
  | l :: _ => exists s, l = lit "*** " ++ s /\ l <> EOF_MARKER
  end.

Lemma ends_hunk_chunk rest : ends_hunk rest -> ends_chunk rest.
Proof. destruct rest as [|l rest]; [done|]. intros (s & -> & ?). done. Qed.

(** The first line of a chunk is neither blank nor a "***" line. *)
Lemma text_of_chunk_head (first : bool) c rest :
  chunk_wf first c ->
  exists l ls, text_of_chunk c ++ rest = l :: ls /\ trim l <> [] /\
    starts_with (lit "***") l = false /\ strip_prefix MOVE_TO_MARKER l = None.
Proof.
  destruct c as [h ds eof]. unfold chunk_wf, text_of_chunk. simpl.
  intros [Hne Hh]. destruct h as [[ctx|]|]; simpl.
  - eexists _, _. split; [done|]. split; [by apply trim_nonblank|done].
  - eexists _, _. split; [done|]. split; [by apply trim_nonblank|done].
  - destruct Hh as (-> & d & ds' & -> & Htrim). eexists _, _. split; [done|].
    split; [done|]. by destruct d.
Qed.

Lemma chunk_wf_false_ends c rest : chunk_wf false c -> ends_chunk (text_of_chunk c ++ rest).
Proof.
  destruct c as [h ds eof]. unfold chunk_wf, text_of_chunk. simpl.
  intros [Hne Hh]. by destruct h as [[ctx|]|]; [..|by destruct Hh].
Qed.

Lemma update_loop_text fuel ln cs rest p acc :
  length ((cs ≫= text_of_chunk) ++ rest) <= fuel ->
  match cs with
  | [] => True
  | c :: cs' => chunk_wf (bool_decide (acc = [])) c /\ Forall (chunk_wf false) cs'
  end ->
  ends_hunk rest ->
  update_loop fuel ln ((cs ≫= text_of_chunk) ++ rest) p acc
  = Ok (acc ++ (chunk_of <$> cs), p + length (cs ≫= text_of_chunk)).
Proof.
  revert cs p acc. induction fuel as [|fuel IH]; intros cs p acc Hf Hwf Hrest.
  { destruct cs as [|c cs]; csimpl in *.
    - destruct rest as [|l rest]; simpl in Hf; [|lia]. simpl. by rewrite app_nil_r, Nat.add_0_r.
    - destruct Hwf as [Hc _]. destruct (text_of_chunk_head _ c ((cs ≫= text_of_chunk) ++ rest) Hc)
        as (l & ls & Heq & _). rewrite <-app_assoc, Heq in Hf. simpl in Hf. lia. }
  destruct cs as [|c cs].
  { csimpl. destruct rest as [|l rest]; simpl; [by rewrite app_nil_r, Nat.add_0_r|].
    destruct Hrest as (s & -> & _).
    rewrite bool_decide_eq_false_2 by (by apply trim_nonblank).
    change (starts_with (lit "***") (lit "*** " ++ s)) with true.
    by rewrite app_nil_r, Nat.add_0_r. }
  destruct Hwf as [Hc Hcs].
  assert (Hends : ends_chunk ((cs ≫= text_of_chunk) ++ rest)).
  { destruct cs as [|c' cs]; [by apply ends_hunk_chunk|].
    csimpl. rewrite <-app_assoc. apply chunk_wf_false_ends. by apply Forall_cons in Hcs as [? _]. }
  csimpl. rewrite <-app_assoc.
  destruct (text_of_chunk_head _ c ((cs ≫= text_of_chunk) ++ rest) Hc)
    as (l & ls & Heq & Htrim & Hstar & _).
  rewrite Heq. cbn [update_loop]. rewrite bool_decide_eq_false_2 by done.
  rewrite Hstar, <-Heq, parse_chunk_text by auto. bsimpl.
  rewrite slice_from_Ok by (rewrite length_app; lia). bsimpl.
  rewrite drop_app_length, IH; [|..|done].
  - rewrite <-app_assoc, length_app. do 2 f_equal. lia.
  - csimpl in Hf. rewrite <-app_assoc, length_app in Hf.
    assert (1 <= length (text_of_chunk c)); [|lia].
    destruct c as [h [|d ds] eof]; [by destruct Hc|].
    unfold text_of_chunk. simpl. rewrite length_app. simpl. lia.
  - rewrite bool_decide_eq_false_2 by (by destruct acc).
    destruct cs; [done|]. by apply Forall_cons in Hcs.
Qed.

(** ** The parser on the text of a hunk *)

Lemma trim_marker c m path : is_whitespace c = false -> path_wf path ->
  trim (c :: m ++ path) = c :: m ++ path.
Proof. intros Hc [Hne Ht]. by apply trim_app. Qed.

Lemma add_file_loop_text contents rest acc p :
  ends_hunk rest ->
  add_file_loop (((fun l => ch "+" :: l) <$> contents) ++ rest) acc p
  = (acc ++ (contents ≫= fun l => l ++ [LF]), p + length contents).
Proof.
  intros Hrest. revert acc p. induction contents as [|l contents IH]; intros acc p.
  - csimpl. rewrite app_nil_r, Nat.add_0_r.
    destruct rest as [|r rest]; [done|]. by destruct Hrest as (s & -> & _).
  - csimpl. change (strip_prefix (lit "+") (ch "+" :: l)) with (Some l). cbv iota.
    rewrite IH, <-!app_assoc. f_equal. lia.
Qed.

Lemma parse_hunk_text ln h rest :
  hunk_wf h -> ends_hunk rest ->
  parse_one_hunk (text_of_hunk h ++ rest) ln = Ok (hunk_of h, length (text_of_hunk h)).
Proof.
  intros Hwf Hrest. destruct h as [path contents|path|path move_to chunks];
    cbn [text_of_hunk hunk_of app]; unfold parse_one_hunk; simpl in Hwf.
  - change (ADD_FILE_MARKER ++ path) with (ch "*" :: lit "** Add File: " ++ path).
    rewrite trim_marker by done.
    change (ch "*" :: lit "** Add File: " ++ path) with (ADD_FILE_MARKER ++ path).
    rewrite strip_prefix_app, add_file_loop_text by done.
    rewrite length_cons, length_fmap. done.
  - change (DELETE_FILE_MARKER ++ path) with (ch "*" :: lit "** Delete File: " ++ path).
    rewrite trim_marker by done.
    change (ch "*" :: lit "** Delete File: " ++ path) with (DELETE_FILE_MARKER ++ path).
    by rewrite strip_prefix_app.
  - destruct Hwf as [Hpath Hchunks]. destruct chunks as [|c cs]; [done|].
    change (UPDATE_FILE_MARKER ++ path) with (ch "*" :: lit "** Update File: " ++ path).
    rewrite trim_marker by done.
    change (ch "*" :: lit "** Update File: " ++ path) with (UPDATE_FILE_MARKER ++ path).
    rewrite strip_prefix_app.
    change (strip_prefix ADD_FILE_MARKER (UPDATE_FILE_MARKER ++ path)) with (@None str).
    change (strip_prefix DELETE_FILE_MARKER (UPDATE_FILE_MARKER ++ path)) with (@None str).
    cbv iota.
    assert (Hloop : forall p,
      update_loop (length (((c :: cs) ≫= text_of_chunk) ++ rest)) ln
        (((c :: cs) ≫= text_of_chunk) ++ rest) p []
      = Ok (chunk_of <$> c :: cs, p + length ((c :: cs) ≫= text_of_chunk))).
    { intros p. rewrite update_loop_text by done. by rewrite app_nil_l. }
    destruct move_to as [dest|].
    + rewrite <-app_assoc. cbn [head app mbind option_bind].
      rewrite strip_prefix_app, slice_from_Ok by (simpl; lia). bsimpl. cbn [drop].
      rewrite Hloop. bsimpl. rewrite bool_decide_eq_false_2 by done.
      rewrite !length_cons. do 2 f_equal.
    + assert (head (((c :: cs) ≫= text_of_chunk) ++ rest) ≫= strip_prefix MOVE_TO_MARKER = None)
        as Hmove.
      { csimpl. rewrite <-app_assoc.
        destruct (text_of_chunk_head true c ((cs ≫= text_of_chunk) ++ rest))
          as (l & ls & -> & _ & _ & Hl); [apply Hchunks|]. exact Hl. }
      rewrite app_nil_l, Hmove. bsimpl. rewrite Hloop. bsimpl.
      rewrite bool_decide_eq_false_2 by done. done.
Qed.

Lemma text_of_hunk_ends h rest : hunk_wf h -> ends_hunk (text_of_hunk h ++ rest).
Proof. by destruct h; intros; eexists. Qed.

Lemma hunks_loop_text fuel ln hs acc :
  length (hs ≫= text_of_hunk) <= fuel -> Forall hunk_wf hs ->
  hunks_loop fuel (hs ≫= text_of_hunk) ln acc = Ok (acc ++ (hunk_of <$> hs)).
Proof.
  revert ln hs acc. induction fuel as [|fuel IH]; intros ln hs acc Hf Hwf.
  { destruct hs as [|h hs]; csimpl in *; [by rewrite app_nil_r|].
    rewrite length_app in Hf. destruct h; simpl in Hf; lia. }
  destruct hs as [|h hs]; csimpl in *; [by rewrite app_nil_r|].
  apply Forall_cons in Hwf as [Hh Hhs].
  assert (Hends : ends_hunk (hs ≫= text_of_hunk)).
  { destruct hs; [done|]. apply Forall_cons in Hhs as [? _]. by apply text_of_hunk_ends. }
  assert (Hpos : 1 <= length (text_of_hunk h)) by (destruct h; simpl; lia).
  rewrite length_app in Hf.
  destruct (text_of_hunk h ++ (hs ≫= text_of_hunk)) as [|l ls] eqn:E.
  { apply app_eq_nil in E as [E _]. rewrite E in Hpos. simpl in Hpos. lia. }
  cbn [hunks_loop]. rewrite <-E, parse_hunk_text by done. bsimpl.
  rewrite slice_from_Ok by (rewrite length_app; lia). bsimpl.
  rewrite drop_app_length, IH by (done || lia). by rewrite <-app_assoc.
Qed.

(** ** Whole patches *)

Lemma trim_text ls :
  Forall line_ok ls ->
  trim (join [LF] (BEGIN_PATCH_MARKER :: ls ++ [END_PATCH_MARKER]))
  = join [LF] (BEGIN_PATCH_MARKER :: ls ++ [END_PATCH_MARKER]).
Proof.
  intros _. assert (Hj : exists p, join [LF] (ls ++ [END_PATCH_MARKER]) = p ++ END_PATCH_MARKER).
  { induction ls as [|l ls [p Hp]]; [by exists []|]. exists (l ++ [LF] ++ p).
    cbn [app]. rewrite join_cons by (by destruct ls). by rewrite Hp, <-!app_assoc. }
  destruct Hj as [p Hp]. rewrite join_cons by (by destruct ls). rewrite Hp.
  pose proof (trim_app (ch "*") (lit "** Begin Patch" ++ [LF] ++ p) END_PATCH_MARKER) as H.
  rewrite <-!app_assoc in H. by apply H.
Qed.

Lemma lines_text ls :
  Forall line_ok ls ->
  lines (join [LF] (BEGIN_PATCH_MARKER :: ls ++ [END_PATCH_MARKER]))
  = BEGIN_PATCH_MARKER :: ls ++ [END_PATCH_MARKER].
Proof.
  intros Hls. apply (lines_join (BEGIN_PATCH_MARKER :: ls)).
  - apply Forall_cons. split; [|done]. split; [|done].
    by apply (bool_decide_unpack (LF ∉ BEGIN_PATCH_MARKER)).
  - by apply (bool_decide_unpack (LF ∉ END_PATCH_MARKER)).
  - done.
Qed.

Lemma check_strict_markers ls :
  check_patch_boundaries_strict (BEGIN_PATCH_MARKER :: ls ++ [END_PATCH_MARKER]) = Ok ().
Proof.
  unfold check_patch_boundaries_strict. rewrite (app_comm_cons ls), last_snoc. done.
Qed.

Lemma slice_body {E} (a b : str) ls :
  slice (E:=E) 1 (length (a :: ls ++ [b]) - 1) (a :: ls ++ [b]) = Ok ls.
Proof.
  rewrite slice_Ok by (rewrite ?length_cons, ?length_app; simpl; lia).
  f_equal. rewrite length_cons, length_app. cbn [length drop].
  replace (S (length ls + 1) - 1 - 1) with (length ls) by lia.
  by rewrite drop_0, take_app_length.
Qed.

Lemma parse_grammar_text hs mode :
  patch_wf hs ->
  parse_patch_text (join [LF] (text_of_patch hs)) mode
  = Ok (mk_args (join [LF] (text_of_patch hs)) (hunk_of <$> hs) None).
Proof.
  intros [Hwf Hlines]. unfold parse_patch_text, text_of_patch in *.
  rewrite trim_text, lines_text, check_strict_markers by done. bsimpl.
  rewrite slice_body. bsimpl. by rewrite hunks_loop_text.
Qed.

(** C13. The parser accepts every text of the documented grammar, in strict and in
    lenient mode, and returns the hunks the syntax denotes. *)
Theorem parse_patch_text_of_patch hs mode :
  patch_wf hs ->
  parse_patch_text (join [LF] (text_of_patch hs)) mode
  = Ok (mk_args (join [LF] (text_of_patch hs)) (hunk_of <$> hs) None).
Proof. apply parse_grammar_text. Qed.

(** The three here-document openings the lenient mode strips. *)
Definition heredoc_openings : list str :=
  [lit "<<EOF"; lit "<<'EOF'"; lit "<<" ++ [34%N] ++ lit "EOF" ++ [34%N]].

Lemma heredoc_open_ok open :
  open ∈ heredoc_openings ->
  exists m, open = ch "<" :: m /\ line_ok open /\ trim open <> BEGIN_PATCH_MARKER.
Proof.
  unfold heredoc_openings. rewrite !elem_of_cons. intros [->|[->|[->|[]%not_elem_of_nil]]];
    eexists; (split; [reflexivity|]); (split; [|done]);
    (split; [by apply (bool_decide_unpack (LF ∉ _))|done]).
Qed.

(** A text whose first and last characters are not blank is trimmed. *)
Lemma trim_join_ends x m ls close :
  is_whitespace x = false -> close <> [] -> trim_end close = close ->
  trim (join [LF] ((x :: m) :: ls ++ [close])) = join [LF] ((x :: m) :: ls ++ [close]).
Proof.
  intros Hx Hc Ht.
  assert (Hj : exists p, join [LF] (ls ++ [close]) = p ++ close).
  { induction ls as [|l ls [p Hp]]; [by exists []|]. exists (l ++ [LF] ++ p).
    cbn [app]. rewrite join_cons by (by destruct ls). by rewrite Hp, <-!app_assoc. }
  destruct Hj as [p Hp]. rewrite join_cons by (by destruct ls). rewrite Hp.
  pose proof (trim_app x (m ++ [LF] ++ p) close) as H.
  rewrite <-!app_assoc in H. by apply H.
Qed.

Lemma text_of_patch_lines hs : patch_wf hs -> Forall line_ok (text_of_patch hs).
Proof.
  intros [_ Hlines]. apply Forall_cons. split.
  { split; [|done]. by apply (bool_decide_unpack (LF ∉ BEGIN_PATCH_MARKER)). }
  apply Forall_app. split; [done|]. apply Forall_cons. split; [|by apply Forall_nil].
  split; [|done]. by apply (bool_decide_unpack (LF ∉ END_PATCH_MARKER)).
Qed.

Lemma lines_heredoc ls open close :
  Forall line_ok ls -> open ∈ heredoc_openings ->
  LF ∉ close -> ends_with (lit "EOF") close = true ->
  lines (trim (join [LF] (open :: ls ++ [close]))) = open :: ls ++ [close].
Proof.
  intros Hls Hopen Hlf [pre ->]%ends_with_true.
  destruct (heredoc_open_ok open Hopen) as (m & Hm & Hok & _).
  rewrite Hm at 1. rewrite trim_join_ends, <-Hm; [|done|by destruct pre|].
  - apply (lines_join (open :: ls)); [by apply Forall_cons|done|by destruct pre].
  - unfold trim_end. by rewrite drop_while_end_app.
Qed.

Lemma check_strict_heredoc ls open :
  open ∈ heredoc_openings ->
  check_patch_boundaries_strict (open :: ls)
  = Err (InvalidPatchError (lit "The first line of the patch must be '*** Begin Patch'")).
Proof.
  intros Hopen. destruct (heredoc_open_ok open Hopen) as (_ & _ & _ & Hnot).
  unfold check_patch_boundaries_strict, check_start_and_end_lines_strict.
  change (trim <$> head (open :: ls)) with (Some (trim open)). cbv iota.
  destruct (trim <$> last (open :: ls));
    rewrite ?(bool_decide_eq_false_2 (trim open = _)) by done; cbn [andb];
    by rewrite bool_decide_eq_true_2.
Qed.

Lemma check_lenient_heredoc ls open close e :
  check_patch_boundaries_strict ls = Ok () -> open ∈ heredoc_openings ->
  ends_with (lit "EOF") close = true ->
  check_patch_boundaries_lenient (open :: ls ++ [close]) e = Ok ls.
Proof.
  intros Hls Hopen Hclose. pose proof (check_strict_length ls Hls) as Hlen.
  assert (Hor : (bool_decide (open = lit "<<EOF") || bool_decide (open = lit "<<'EOF'")
      || bool_decide (open = lit "<<" ++ [34%N] ++ lit "EOF" ++ [34%N]))%bool = true).
  { unfold heredoc_openings in Hopen. rewrite !elem_of_cons in Hopen.
    destruct Hopen as [->|[->|[->|[]%not_elem_of_nil]]]; reflexivity. }
  pose proof (last_snoc close (open :: ls)) as Hlast. cbn [app] in Hlast.
  pose proof (slice_body (E:=ParseError) open close ls) as Hslice.
  unfold check_patch_boundaries_lenient.
  destruct (ls ++ [close]) as [|x xs] eqn:E; [by destruct ls|].
  rewrite Hor, Hlast, Hslice. change (default [] (Some close)) with close. rewrite Hclose.
  rewrite (proj2 (Nat.leb_le _ _)) by (rewrite length_cons, <-E, length_app; simpl; lia).
  cbn [andb]. bsimpl. by rewrite Hls.
Qed.

(** A patch wrapped in a here-document ("<<EOF", quoted or not, as first line
    and a last line ending in "EOF") parses in lenient mode exactly as the bare
    patch, and is rejected in strict mode. *)
Theorem parse_patch_text_heredoc hs open close :
  patch_wf hs -> open ∈ heredoc_openings ->
  LF ∉ close -> ends_with (lit "EOF") close = true ->
  parse_patch_text (join [LF] (open :: text_of_patch hs ++ [close])) Lenient
  = parse_patch_text (join [LF] (text_of_patch hs)) Lenient /\
  parse_patch_text (join [LF] (open :: text_of_patch hs ++ [close])) Strict
  = Err (InvalidPatchError (lit "The first line of the patch must be '*** Begin Patch'")).
Proof.
  intros Hwf Hopen Hlf Hends. pose proof (text_of_patch_lines hs Hwf) as Hlines.
  unfold parse_patch_text at 1 3.
  rewrite lines_heredoc, check_strict_heredoc by done. split; [|done].
  rewrite check_lenient_heredoc; [|apply check_strict_markers|done..]. bsimpl.
  destruct Hwf as [Hh Hbody]. unfold parse_patch_text, text_of_patch in *.
  by rewrite trim_text, lines_text, check_strict_markers by done.
Qed.

(** Two "@@" lines in a row are rejected: after an "@@" line the parser takes a
    second one for an unexpected line of the chunk, whatever follows. *)
Theorem stacked_context_rejected path a b rest line_number :
  path_wf path ->
  exists message,
    parse_one_hunk ((UPDATE_FILE_MARKER ++ path) :: (CHANGE_CONTEXT_MARKER ++ a)
                      :: (CHANGE_CONTEXT_MARKER ++ b) :: rest) line_number
    = Err (InvalidHunkError message (line_number + 2)).
Proof.
  intros Hpath. unfold parse_one_hunk.
  change (UPDATE_FILE_MARKER ++ path) with (ch "*" :: lit "** Update File: " ++ path).
  rewrite trim_marker by done.
  change (ch "*" :: lit "** Update File: " ++ path) with (UPDATE_FILE_MARKER ++ path).
  change (strip_prefix ADD_FILE_MARKER (UPDATE_FILE_MARKER ++ path)) with (@None str).
  change (strip_prefix DELETE_FILE_MARKER (UPDATE_FILE_MARKER ++ path)) with (@None str).
  rewrite strip_prefix_app. cbn [head mbind option_bind].
  change (strip_prefix MOVE_TO_MARKER (CHANGE_CONTEXT_MARKER ++ a)) with (@None str).
  bsimpl. cbn [length update_loop].
  rewrite bool_decide_eq_false_2 by (by apply trim_nonblank).
  change (starts_with (lit "***") (CHANGE_CONTEXT_MARKER ++ a)) with false. cbv iota.
  unfold parse_update_file_chunk.
  rewrite bool_decide_eq_false_2 by (by destruct a).
  rewrite strip_prefix_app. bsimpl. cbn [length Nat.leb].
  rewrite slice_from_Ok by (simpl; lia). bsimpl. cbn [drop chunk_loop].
  rewrite bool_decide_eq_false_2 by done.
  change (CHANGE_CONTEXT_MARKER ++ b) with (ch "@" :: lit "@ " ++ b). cbv iota.
  eexists. cbn [Nat.eqb]. bsimpl.
  by replace (line_number + 1 + 1) with (line_number + 2) by lia.
Qed.

(** ** Witnesses *)

Definition demo_patch : list hunk_src :=
  [SrcUpdate (lit "src/a.py") (Some (lit "src/b.py"))
     [mk_chunk_src None [Remove (lit "x = 1"); Insert (lit "x = 2")] false;
      mk_chunk_src (Some (Some (lit "def f():"))) [Keep (lit "  y"); Insert []] true];
   SrcAdd (lit "new.txt") [lit "hello"; []];
   SrcDelete (lit "old.txt")].

Lemma demo_patch_wf : patch_wf demo_patch.
Proof.
  split.
  - unfold demo_patch. apply Forall_cons. split.
    + split; [done|]. split.
      * split; [done|]. split; [done|]. eexists _, _. split; [reflexivity|].
        vm_compute. discriminate.
      * apply Forall_cons. split; [done|by constructor].
    + repeat (apply Forall_cons; split; [done|]). by constructor.
  - unfold demo_patch, line_ok. csimpl.
    repeat (apply Forall_cons; split;
      [split; [apply (bool_decide_unpack (LF ∉ _)); vm_compute; exact I|vm_compute; reflexivity]|]).
    by constructor.
Defined.

Lemma parse_patch_text_of_patch_witness :
  parse_patch (join [LF] (text_of_patch demo_patch))
  = Ok (mk_args (join [LF] (text_of_patch demo_patch)) (hunk_of <$> demo_patch) None).
Proof.
  apply (parse_patch_text_of_patch demo_patch Lenient). apply demo_patch_wf.
Defined.

Lemma parse_patch_text_heredoc_witness :
  is_ok (parse_patch_text (join [LF] (lit "<<'EOF'" :: text_of_patch demo_patch ++ [lit "EOF"]))
           Lenient) = true.
Proof.
  rewrite (proj1 (parse_patch_text_heredoc demo_patch (lit "<<'EOF'") (lit "EOF")
             demo_patch_wf ltac:(apply (bool_decide_unpack (_ ∈ heredoc_openings)); vm_compute; exact I)
             ltac:(apply (bool_decide_unpack (LF ∉ lit "EOF")); vm_compute; exact I) eq_refl)).
  vm_compute. reflexivity.
Defined.

Lemma stacked_context_rejected_witness :
  path_wf (lit "a.py") /\
  exists message,
    parse_one_hunk ((UPDATE_FILE_MARKER ++ lit "a.py") :: (CHANGE_CONTEXT_MARKER ++ lit "class C")
                      :: (CHANGE_CONTEXT_MARKER ++ lit "def m():") :: [lit "-x"; lit "+y"]) 2
    = Err (InvalidHunkError message 4).
Proof.
  assert (path_wf (lit "a.py")) as H by done. split; [exact H|].
  apply (stacked_context_rejected (lit "a.py") (lit "class C") (lit "def m():") _ 2 H).
Defined.
