(* ===== verification/PatchReplace.v ===== *)
(** * From chunks to new file contents (apply-patch/src/lib.rs)

    [compute_replacements], [apply_replacements] and the pure part of
    [derive_new_contents_from_chunks]: the text of a file and the chunks of an
    update to the text after it. *)

From Stdlib Require Import Sorted.
From S2P Require Import Prelude RustStd SeekSequence PatchParser.

(** ** The code *)

(** The failures of [compute_replacements]: [ApplyPatchError::ComputeReplacements]. *)
Definition replacement : Type := nat * nat * list str.

Definition ends_empty (l : list str) : bool := bool_decide (last l = Some []).

(** The position of a chunk: the search of [old_lines], then the retry without a
    trailing empty line. *)
Definition locate (original_lines : list str) (line_index : nat) (chunk : UpdateFileChunk)
    : option nat * list str * list str :=
  let pattern := old_lines chunk in
  let new_slice := new_lines chunk in
  let found := seek_sequence original_lines pattern line_index (is_end_of_file chunk) in
  match found with
  | Some _ => (found, pattern, new_slice)
  | None =>
      if ends_empty pattern then
        let pattern := take (length pattern - 1) pattern in
        let new_slice :=
          if ends_empty new_slice then take (length new_slice - 1) new_slice else new_slice in
        (seek_sequence original_lines pattern line_index (is_end_of_file chunk), pattern, new_slice)
      else (None, pattern, new_slice)
  end.

(** One iteration of the loop over the chunks: the replacement it pushes and the
    next [line_index]. *)
Definition chunk_replacement (original_lines : list str) (path : str) (line_index : nat)
    (chunk : UpdateFileChunk) : outcome str (replacement * nat) :=
  line_index ←
    (match change_context chunk with
     | Some ctx_line =>
         match seek_sequence original_lines [ctx_line] line_index false with
         | Some idx => Ok (idx + 1)
         | None =>
             Err (lit "Failed to find context '" ++ ctx_line ++ lit "' in " ++ path)
         end
     | None => Ok line_index
     end);
  if bool_decide (old_lines chunk = []) then
    let insertion_idx :=
      if ends_empty original_lines then length original_lines - 1 else length original_lines in
    Ok ((insertion_idx, 0, new_lines chunk), line_index)
  else
    let '(found, pattern, new_slice) := locate original_lines line_index chunk in
    match found with
    | Some start_idx =>
        Ok ((start_idx, length pattern, new_slice), start_idx + length pattern)
    | None =>
        Err (lit "Failed to find expected lines in " ++ path ++ lit ":" ++ [LF]
             ++ join [LF] (old_lines chunk))
    end.

Fixpoint replacements_loop (original_lines : list str) (path : str) (line_index : nat)
    (chunks : list UpdateFileChunk) : outcome str (list replacement) :=
  match chunks with
  | [] => Ok []
  | chunk :: chunks =>
      '(r, line_index) ← chunk_replacement original_lines path line_index chunk;
      rs ← replacements_loop original_lines path line_index chunks;
      Ok (r :: rs)
  end.

(** [sort_by] on the start index: a stable sort. *)
Definition start_of (r : replacement) : nat := r.1.1.
Fixpoint insert_sorted (r : replacement) (l : list replacement) : list replacement :=
  match l with
  | [] => [r]
  | x :: l' => if start_of r <=? start_of x then r :: l else x :: insert_sorted r l'
  end.
Definition sort_by_start (l : list replacement) : list replacement := foldr insert_sorted [] l.

Definition compute_replacements (original_lines : list str) (path : str)
    (chunks : list UpdateFileChunk) : outcome str (list replacement) :=
  rs ← replacements_loop original_lines path 0 chunks;
  Ok (sort_by_start rs).

(** The removals of one replacement. *)
Fixpoint remove_loop {E} (n start_idx : nat) (ls : list str) : outcome E (list str) :=
  match n with
  | O => Ok ls
  | S n =>
      ls ← (if start_idx <? length ls then vec_remove start_idx ls else Ok ls);
      remove_loop n start_idx ls
  end.

(** Its insertions. *)
Fixpoint insert_loop {E} (at_idx : nat) (new_segment : list str) (ls : list str)
    : outcome E (list str) :=
  match new_segment with
  | [] => Ok ls
  | new_line :: new_segment =>
      ls ← vec_insert at_idx new_line ls;
      insert_loop (S at_idx) new_segment ls
  end.

Definition apply_replacement {E} (r : replacement) (ls : list str) : outcome E (list str) :=
  let '(start_idx, old_len, new_segment) := r in
  ls ← remove_loop old_len start_idx ls;
  insert_loop start_idx new_segment ls.
Arguments apply_replacement : simpl never.

(** In descending order: the last replacement first. *)
Definition apply_replacements {E} (ls : list str) (rs : list replacement) : outcome E (list str) :=
  foldr (fun r acc => ls ← acc; apply_replacement r ls) (Ok ls) rs.

(** [derive_new_contents_from_chunks] after the file is read. *)
Definition split_lines (contents : str) : list str :=
  let original_lines := split_on LF contents in
  if ends_empty original_lines then take (length original_lines - 1) original_lines
  else original_lines.

Definition join_lines (new_lines : list str) : str :=
  let new_lines := if ends_empty new_lines then new_lines else new_lines ++ [[]] in
  join [LF] new_lines.

Definition new_contents_from_chunks (original_contents : str) (path : str)
    (chunks : list UpdateFileChunk) : outcome str str :=
  let original_lines := split_lines original_contents in
  replacements ← compute_replacements original_lines path chunks;
  new_lines ← apply_replacements original_lines replacements;
  Ok (join_lines new_lines).

(** ** One replacement *)

Lemma remove_loop_spec {E} n s ls :
  s <= length ls -> remove_loop (E:=E) n s ls = Ok (take s ls ++ drop (s + n) ls).
Proof.
  revert ls. induction n as [|n IH]; intros ls Hs; cbn [remove_loop].
  { by rewrite Nat.add_0_r, take_drop. }
  destruct (Nat.ltb_spec s (length ls)).
  - unfold vec_remove. rewrite bool_decide_eq_true_2 by done. bsimpl.
    rewrite IH by (rewrite length_app, length_take; lia).
    rewrite take_app_le by (rewrite length_take; lia). rewrite take_take, Nat.min_id.
    rewrite drop_app_ge by (rewrite length_take; lia).
    rewrite length_take, drop_drop. do 3 f_equal. lia.
  - bsimpl. rewrite IH by done. rewrite !drop_ge by lia. done.
Qed.

Lemma insert_loop_spec {E} new s ls :
  s <= length ls -> insert_loop (E:=E) s new ls = Ok (take s ls ++ new ++ drop s ls).
Proof.
  revert s ls. induction new as [|x new IH]; intros s ls Hs; cbn [insert_loop].
  { by rewrite app_nil_l, take_drop. }
  unfold vec_insert. rewrite bool_decide_eq_true_2 by done. bsimpl.
  assert (Hlen : length (take s ls) = s) by (rewrite length_take; lia).
  rewrite IH by (rewrite length_app, Hlen; simpl; lia).
  assert (Hsplit : take s ls ++ x :: drop s ls = (take s ls ++ [x]) ++ drop s ls)
    by (by rewrite <-app_assoc).
  rewrite Hsplit. rewrite take_app_length', drop_app_length'
    by (rewrite length_app, Hlen; simpl; lia).
  by rewrite <-!app_assoc.
Qed.

Lemma apply_replacement_spec {E} s n new ls :
  s <= length ls ->
  apply_replacement (E:=E) (s, n, new) ls = Ok (take s ls ++ new ++ drop (s + n) ls).
Proof.
  intros Hs. unfold apply_replacement. rewrite remove_loop_spec by done. bsimpl.
  assert (Hlen : length (take s ls) = s) by (rewrite length_take; lia).
  rewrite insert_loop_spec by (rewrite length_app; lia).
  by rewrite take_app_length', drop_app_length' by done.
Qed.

(** ** All replacements *)

(** The indices the code relies on: sorted, and no index past the end. *)
Definition in_bounds (len : nat) (rs : list replacement) : Prop :=
  StronglySorted (fun a b => start_of a <= start_of b) rs /\
  Forall (fun r => start_of r + r.1.2 <= len) rs.

(** The lines before the first start are not touched. *)
Lemma apply_replacements_prefix {E} ls rs :
  in_bounds (length ls) rs ->
  exists ls', apply_replacements (E:=E) ls rs = Ok ls' /\
    forall k, k <= length ls -> Forall (fun r => k <= start_of r) rs ->
      k <= length ls' /\ take k ls' = take k ls.
Proof.
  intros [Hsort Hbound]. induction rs as [|[[s n] new] rs IH]; simpl.
  { exists ls. auto. }
  apply StronglySorted_inv in Hsort as [Hsort Hle].
  apply Forall_cons in Hbound as [Hs Hbound]. unfold start_of in Hs. simpl in Hs.
  destruct IH as (ls' & -> & Hpre); [done..|]. bsimpl.
  destruct (Hpre s) as [Hlen Htake]; [lia|done|].
  rewrite apply_replacement_spec by done. eexists. split; [done|].
  intros k Hk [Hks Hall]%Forall_cons. unfold start_of in Hks. simpl in Hks.
  destruct (Hpre k) as [Hkl Hkt]; [done..|].
  rewrite length_app, length_take. split; [lia|].
  rewrite take_app_le by (rewrite length_take; lia).
  by rewrite take_take, Nat.min_l by lia.
Qed.

(** Reference definition: a left-to-right splice of the original lines. *)
Fixpoint splice (pos : nat) (ls : list str) (rs : list replacement) : list str :=
  match rs with
  | [] => drop pos ls
  | (s, n, new) :: rs => take (s - pos) (drop pos ls) ++ new ++ splice (s + n) ls rs
  end.

(** The replacements do not overlap. *)
Fixpoint disjoint_from (pos len : nat) (rs : list replacement) : Prop :=
  match rs with
  | [] => pos <= len
  | (s, n, _) :: rs => pos <= s /\ disjoint_from (s + n) len rs
  end.

Lemma disjoint_from_start pos len rs :
  disjoint_from pos len rs ->
  pos <= len /\ Forall (fun r => pos <= start_of r) rs /\ in_bounds len rs.
Proof.
  revert pos. induction rs as [|[[s n] new] rs IH]; intros pos; simpl.
  { intros. split; [done|]. split; [by constructor|]. split; by constructor. }
  intros [Hs Hd]. destruct (IH _ Hd) as (Hlen & Hall & Hsort & Hb).
  split; [lia|]. split.
  { apply Forall_cons. split; [done|]. eapply Forall_impl; [exact Hall|]. simpl. lia. }
  split.
  - constructor; [done|]. eapply Forall_impl; [exact Hall|]. unfold start_of. simpl. lia.
  - apply Forall_cons. unfold start_of. simpl. split; [lia|done].
Qed.

Lemma apply_replacements_splice_from {E} pos ls rs :
  disjoint_from pos (length ls) rs ->
  apply_replacements (E:=E) ls rs = Ok (take pos ls ++ splice pos ls rs).
Proof.
  revert pos. induction rs as [|[[s n] new] rs IH]; intros pos; simpl.
  { intros. by rewrite take_drop. }
  intros [Hs Hd]. pose proof (disjoint_from_start _ _ _ Hd) as (Hlen & _ & _).
  rewrite (IH _ Hd). bsimpl.
  assert (length (take (s + n) ls) = s + n) as Hl by (rewrite length_take; lia).
  rewrite apply_replacement_spec by (rewrite length_app; lia).
  rewrite drop_app_length' by done.
  rewrite take_app_le, take_take, Nat.min_l by lia.
  rewrite (assoc_L (++) (take pos ls)). do 2 f_equal.
  rewrite <-(take_drop pos (take s ls)), take_take, Nat.min_l by lia. f_equal.
  by rewrite skipn_firstn_comm.
Qed.

(** On replacements in increasing order that do not overlap, the descending
    in-place removals and insertions compute the left-to-right splice of the
    original lines: every index is in range, and all offsets are relative to the
    original text. *)
Theorem apply_replacements_splice ls rs :
  disjoint_from 0 (length ls) rs ->
  apply_replacements (E:=str) ls rs = Ok (splice 0 ls rs).
Proof. intros Hd. by rewrite (apply_replacements_splice_from 0) by done. Qed.

(** ** The replacements of the chunks *)

Lemma insert_sorted_perm r l : insert_sorted r l ≡ₚ r :: l.
Proof.
  induction l as [|x l IH]; simpl; [done|].
  destruct (_ <=? _); [done|]. by rewrite IH, Permutation_swap.
Qed.

Lemma sort_by_start_perm l : sort_by_start l ≡ₚ l.
Proof. induction l as [|x l IH]; simpl; [done|]. by rewrite insert_sorted_perm, IH. Qed.

Lemma insert_sorted_sorted r l :
  StronglySorted (fun a b => start_of a <= start_of b) l ->
  StronglySorted (fun a b => start_of a <= start_of b) (insert_sorted r l).
Proof.
  induction l as [|x l IH]; simpl; intros Hs; [by repeat constructor|].
  apply StronglySorted_inv in Hs as [Hs Hall].
  destruct (Nat.leb_spec (start_of r) (start_of x)).
  - constructor; [by constructor|]. constructor; [done|].
    eapply Forall_impl; [exact Hall|]. simpl. lia.
  - constructor; [by apply IH|]. rewrite insert_sorted_perm. constructor; [lia|done].
Qed.

Lemma sort_by_start_sorted l :
  StronglySorted (fun a b => start_of a <= start_of b) (sort_by_start l).
Proof. induction l; simpl; [constructor|]. by apply insert_sorted_sorted. Qed.

(** Sorting a sorted list changes nothing: equal starts keep their order. *)
Lemma sort_by_start_id l :
  StronglySorted (fun a b => start_of a <= start_of b) l -> sort_by_start l = l.
Proof.
  induction l as [|x l IH]; simpl; [done|].
  intros [Hs Hall]%StronglySorted_inv. rewrite IH by done.
  destruct l as [|y l]; simpl; [done|]. apply Forall_cons in Hall as [Hxy _].
  by rewrite (proj2 (Nat.leb_le _ _)).
Qed.

(** How the pattern and the new lines of a chunk may be shortened: by the empty
    last line of [old_lines], and then by that of [new_lines]. *)
Definition chunk_pattern (c : UpdateFileChunk) (pattern new : list str) : Prop :=
  pattern = old_lines c /\ new = new_lines c \/
  pattern ++ [[]] = old_lines c /\
    (new = new_lines c \/ new ++ [[]] = new_lines c).

Lemma ends_empty_take l :
  ends_empty l = true -> take (length l - 1) l ++ [[]] = l.
Proof.
  unfold ends_empty. intros H%bool_decide_eq_true_1.
  apply last_Some in H as [l' ->]. rewrite length_app. cbn [length].
  by rewrite Nat.add_sub, take_app_length.
Qed.

Lemma locate_spec ls li c start pattern new :
  li <= length ls -> locate ls li c = (Some start, pattern, new) ->
  chunk_pattern c pattern new /\
  seek_sequence ls pattern li (is_end_of_file c) = Some start.
Proof.
  intros Hli. unfold locate, chunk_pattern.
  destruct (seek_sequence ls (old_lines c) li (is_end_of_file c)) as [i|] eqn:Hseek.
  - intros [= <- <- <-]. auto.
  - destruct (ends_empty (old_lines c)) eqn:Hold; [|done].
    intros [= Hs <- <-]. split; [right|done]. split; [by apply ends_empty_take|].
    destruct (ends_empty (new_lines c)) eqn:Hnew; [|auto].
    right. by apply ends_empty_take.
Qed.

(** What one chunk contributes. *)
Lemma chunk_replacement_spec ls path li c s n new li' :
  li <= length ls ->
  chunk_replacement ls path li c = Ok ((s, n, new), li') ->
  s + n <= length ls /\ li' <= length ls /\
  (old_lines c <> [] -> is_end_of_file c = false ->
   li <= s /\ li' = s + n /\
   (exists pattern, n = length pattern /\ chunk_pattern c pattern new /\
      (pattern <> [] -> occurs normalise ls pattern s)) /\
   match change_context c with
   | Some x => exists k l, li <= k < s /\ ls !! k = Some l /\ normalise l = normalise x
   | None => True
   end).
Proof.
  intros Hli. unfold chunk_replacement.
  set (ctx := match change_context c with Some _ => _ | None => _ end).
  destruct ctx as [li1| | |] eqn:Hctx; try discriminate. bsimpl.
  assert (li <= li1 /\ li1 <= length ls /\
    match change_context c with
    | Some x => exists k l, li <= k < li1 /\ ls !! k = Some l /\ normalise l = normalise x
    | None => True
    end) as (Hle1 & Hli1 & Hx).
  { subst ctx. destruct (change_context c) as [x|]; [|by injection Hctx as <-].
    destruct (seek_sequence ls [x] li false) as [k|] eqn:Hk; [|done].
    injection Hctx as <-. pose proof (seek_sequence_bounds _ _ _ _ _ Hli Hk) as [Hb Hge].
    specialize (Hge eq_refl). simpl in Hb. split; [lia|]. split; [lia|].
    apply seek_first_spec in Hk as (l1 & nm & l2 & Hp & _ & Hocc & _); [|done].
    apply (occurs_normalise nm) in Hocc as [_ Hocc]; [|rewrite Hp; set_solver].
    destruct (lookup_lt_is_Some_2 ls k) as [line Hline]; [lia|].
    exists k, line. split; [lia|]. split; [done|].
    rewrite (drop_S _ line) in Hocc by done. simpl in Hocc. by injection Hocc. }
  case_bool_decide as Hold.
  { intros [= <- <- <- <-]. split; [destruct (ends_empty ls); lia|]. done. }
  destruct (locate ls li1 c) as [[[start|] pattern] new'] eqn:Hloc; [|done].
  intros [= <- <- <- <-].
  apply locate_spec in Hloc as [Hpat Hseek]; [|done].
  pose proof (seek_sequence_bounds _ _ _ _ _ Hli1 Hseek) as [Hb Hge].
  split; [done|]. split; [done|]. intros _ Heof. specialize (Hge Heof).
  split; [lia|]. split; [done|]. split.
  - exists pattern. split; [done|]. split; [done|]. intros Hne.
    apply seek_first_spec in Hseek as (l1 & nm & l2 & Hp & _ & Hocc & _); [|done].
    apply (occurs_normalise nm); [rewrite Hp; set_solver|done].
  - destruct (change_context c); [|done].
    destruct Hx as (k & line & Hk & Hline). exists k, line. split; [lia|done].
Qed.

Lemma chunk_replacement_returns ls path li c : returns (chunk_replacement ls path li c).
Proof.
  unfold chunk_replacement. apply bind_returns.
  - destruct (change_context c); [|done]. by destruct (seek_sequence _ _ _ _).
  - intros li1 _. case_bool_decide; [done|].
    destruct (locate ls li1 c) as [[[start|] pattern] new']; done.
Qed.

Lemma replacements_loop_spec ls path li chunks :
  li <= length ls ->
  returns (replacements_loop ls path li chunks) /\
  forall rs, replacements_loop ls path li chunks = Ok rs ->
    Forall (fun r => start_of r + r.1.2 <= length ls) rs.
Proof.
  revert li. induction chunks as [|c chunks IH]; intros li Hli; cbn [replacements_loop].
  { split; [done|]. intros rs [= <-]. constructor. }
  pose proof (chunk_replacement_returns ls path li c) as Hret.
  destruct (chunk_replacement ls path li c) as [[[[s n] new] li']|e| |] eqn:Hc; try done.
  bsimpl. apply chunk_replacement_spec in Hc as (Hb & Hli' & _); [|done].
  destruct (IH li' Hli') as [Hr Hall].
  destruct (replacements_loop ls path li' chunks) as [rs| | |]; try done. bsimpl.
  split; [done|]. intros ? [= <-]. constructor; [done|]. by apply Hall.
Qed.

Lemma compute_replacements_spec ls path chunks :
  returns (compute_replacements ls path chunks) /\
  forall rs, compute_replacements ls path chunks = Ok rs -> in_bounds (length ls) rs.
Proof.
  unfold compute_replacements.
  destruct (replacements_loop_spec ls path 0 chunks) as [Hret Hall]; [lia|].
  destruct (replacements_loop ls path 0 chunks) as [rs| | |]; try done. bsimpl.
  split; [done|]. intros ? [= <-]. split; [apply sort_by_start_sorted|].
  rewrite sort_by_start_perm. by apply Hall.
Qed.

(** Updating any text with any chunks ends with new contents or a reported
    mismatch: no removal or insertion is out of range, even when end-of-file
    chunks or additions make replacements overlap. *)
Theorem new_contents_returns contents path chunks :
  returns (new_contents_from_chunks contents path chunks).
Proof.
  unfold new_contents_from_chunks.
  destruct (compute_replacements_spec (split_lines contents) path chunks) as [Hret Hb].
  apply bind_returns; [done|]. intros rs Hrs. specialize (Hb rs Hrs).
  destruct (apply_replacements_prefix (E:=str) _ _ Hb) as (ls' & -> & _). done.
Qed.

(** ** What an update does *)

(** A chunk with old lines that is not anchored at the end of the file. *)
Definition ordinary (c : UpdateFileChunk) : Prop :=
  old_lines c <> [] /\ is_end_of_file c = false.

(** The line asked for by [@@ ctx] is skipped over, up to [normalise]. *)
Definition context_within (ls : list str) (c : UpdateFileChunk) (pos s : nat) : Prop :=
  match change_context c with
  | Some x => exists k l, pos <= k < s /\ ls !! k = Some l /\ normalise l = normalise x
  | None => True
  end.

(** [edits ls pos chunks out]: from line [pos] on, the chunks rewrite [ls] to
    [out]: what is between the places of two chunks is kept verbatim, and what a
    chunk replaces is its pattern up to [normalise]. *)
Inductive edits (ls : list str) : nat -> list UpdateFileChunk -> list str -> Prop :=
  | edits_done pos : pos <= length ls -> edits ls pos [] (drop pos ls)
  | edits_chunk pos c cs s pattern new out :
      pos <= s ->
      chunk_pattern c pattern new ->
      (pattern <> [] -> occurs normalise ls pattern s) ->
      context_within ls c pos s ->
      edits ls (s + length pattern) cs out ->
      edits ls pos (c :: cs) (take (s - pos) (drop pos ls) ++ new ++ out).

Lemma replacements_edits ls path li chunks rs :
  li <= length ls -> Forall ordinary chunks ->
  replacements_loop ls path li chunks = Ok rs ->
  disjoint_from li (length ls) rs /\ edits ls li chunks (splice li ls rs).
Proof.
  revert li rs. induction chunks as [|c chunks IH]; intros li rs Hli Hord;
    cbn [replacements_loop].
  { intros [= <-]. split; [done|]. by constructor. }
  apply Forall_cons in Hord as [[Hold Heof] Hord].
  destruct (chunk_replacement ls path li c) as [[[[s n] new] li']|e| |] eqn:Hc; try done.
  bsimpl. apply chunk_replacement_spec in Hc as (Hb & Hli' & Hspec); [|done].
  destruct (Hspec Hold Heof) as (Hs & -> & (pattern & -> & Hpat & Hocc) & Hctx).
  destruct (replacements_loop _ _ _ chunks) as [rs'| | |] eqn:Hrs; try done. bsimpl.
  intros [= <-]. destruct (IH _ _ Hli' Hord Hrs) as [Hd He].
  split; [done|]. by econstructor.
Qed.

Lemma disjoint_sort pos len rs : disjoint_from pos len rs -> sort_by_start rs = rs.
Proof.
  intros Hd. apply sort_by_start_id. by apply (disjoint_from_start pos len rs).
Qed.

(** C35. When an update of ordinary chunks succeeds, the new text is the old one
    rewritten chunk after chunk in file order: text between two chunks is kept
    verbatim, each replaced region is the chunk's old lines up to [normalise],
    each [@@] context line lies before its region, and every line ends in a
    line feed. *)
Theorem new_contents_edits contents path chunks out :
  Forall ordinary chunks ->
  new_contents_from_chunks contents path chunks = Ok out ->
  exists new_text, edits (split_lines contents) 0 chunks new_text /\ out = join_lines new_text.
Proof.
  intros Hord. unfold new_contents_from_chunks, compute_replacements.
  destruct (replacements_loop (split_lines contents) path 0 chunks) as [rs| | |] eqn:Hrs;
    try done. bsimpl.
  apply replacements_edits in Hrs as [Hd He]; [|lia|done].
  rewrite (disjoint_sort _ _ _ Hd), (apply_replacements_splice_from 0) by done. bsimpl.
  intros [= <-]. by eexists.
Qed.

(** ** Final line feeds *)

Lemma split_text_lines ls tail :
  Forall (fun l => LF ∉ l) ls -> Forall (fun l => LF ∉ l) tail -> tail <> [] ->
  split_on LF (join [LF] (ls ++ tail)) = ls ++ tail.
Proof.
  intros Hls Htail Hne. apply split_join; [|by apply Forall_app].
  intros [_ ?]%app_eq_nil. done.
Qed.

Lemma join_app sep ls x : ls <> [] -> join sep (ls ++ [x]) = join sep ls ++ sep ++ x.
Proof.
  induction ls as [|l ls IH]; [done|]. intros _. cbn [app].
  destruct ls as [|l' ls]; [done|].
  rewrite !join_cons by (destruct ls; done). rewrite IH by done. by rewrite <-!app_assoc.
Qed.

Lemma ends_empty_snoc l : ends_empty (l ++ [[]]) = true.
Proof. unfold ends_empty. by rewrite last_snoc. Qed.

Lemma seek_first_line l ls : seek_sequence (l :: ls) [l] 0 false = Some 0.
Proof.
  unfold seek_sequence, search_start, passes, search_pass, find_in_range.
  cbn [length Nat.ltb Nat.leb andb first_pass].
  replace (S (S (length ls) - 1) - 0) with (S (length ls)) by lia.
  cbn [find_from match_at lookup list_lookup].
  by rewrite bool_decide_eq_false_2 by (intros H; by apply H).
Qed.

(** A text that ends in a blank line loses that line to any update, even one
    that replaces a line by itself: the blank last line is taken for the final
    line feed that [join] needs. *)
Theorem trailing_blank_line_dropped l ls path :
  Forall (fun x => LF ∉ x) (l :: ls) ->
  new_contents_from_chunks (join [LF] (l :: ls) ++ [LF; LF]) path
    [mk_chunk None [l] [l] false]
  = Ok (join [LF] (l :: ls) ++ [LF]).
Proof.
  intros Hall. set (text := l :: ls).
  assert (Hjoin : join [LF] (text ++ [[]]) = join [LF] text ++ [LF])
    by (by rewrite join_app).
  assert (Hsplit : split_lines (join [LF] text ++ [LF; LF]) = text ++ [[]]).
  { assert (join [LF] text ++ [LF; LF] = join [LF] (text ++ [[]] ++ [[]])) as ->.
    { rewrite (assoc_L (++) text). rewrite join_app by done. rewrite Hjoin.
      by rewrite <-app_assoc. }
    unfold split_lines. rewrite split_text_lines; [|done| |done].
    - rewrite (assoc_L (++) text), ends_empty_snoc, length_app.
      cbn [length]. by rewrite Nat.add_sub, take_app_length.
    - repeat constructor; set_solver. }
  unfold new_contents_from_chunks. rewrite Hsplit.
  unfold compute_replacements. cbn [replacements_loop]. unfold chunk_replacement.
  cbn [change_context old_lines]. bsimpl. rewrite bool_decide_eq_false_2 by done.
  unfold locate. cbn [old_lines new_lines is_end_of_file]. subst text. cbn [app].
  rewrite seek_first_line. bsimpl. cbn [sort_by_start foldr insert_sorted].
  unfold apply_replacements. cbn [foldr]. bsimpl. rewrite apply_replacement_spec by lia.
  bsimpl. f_equal. cbn [take app drop length Nat.add]. unfold join_lines.
  rewrite drop_0. change (l :: ls ++ [[]]) with ((l :: ls) ++ [[]]). by rewrite ends_empty_snoc.
Qed.

(** ** Concrete instances *)

Lemma apply_replacements_splice_witness :
  apply_replacements (E:=str) [lit "a"; lit "b"; lit "c"]
    [((0, 1), [lit "x"; lit "y"]); ((2, 1), [])]
  = Ok (splice 0 [lit "a"; lit "b"; lit "c"] [((0, 1), [lit "x"; lit "y"]); ((2, 1), [])]).
Proof. apply apply_replacements_splice. simpl. lia. Defined.

Lemma new_contents_edits_witness :
  exists new_text,
    edits (split_lines (lit "a" ++ [LF] ++ lit "b " ++ [LF])) 0
      [mk_chunk (Some (lit "a")) [lit "b"] [lit "c"] false] new_text /\
    lit "a" ++ [LF] ++ lit "c" ++ [LF] = join_lines new_text.
Proof.
  apply (new_contents_edits _ (lit "f")).
  - repeat constructor. discriminate.
  - vm_compute. reflexivity.
Defined.

Lemma trailing_blank_line_dropped_witness :
  new_contents_from_chunks (join [LF] [lit "a"; lit "b"] ++ [LF; LF]) (lit "f")
    [mk_chunk None [lit "a"] [lit "a"] false]
  = Ok (join [LF] [lit "a"; lit "b"] ++ [LF]).
Proof.
  apply trailing_blank_line_dropped.
  repeat (apply Forall_cons; split; [by apply (bool_decide_unpack (LF ∉ _))|]).
  by apply Forall_nil.
Defined.
