(* ===== verification/PatchApply.v ===== *)
(** * Applying patches (apply-patch/src/lib.rs)

    The hunks of a patch applied to a file system, the error values of the
    crate, and what is printed.  The file system is an interface: its operations
    are those of [std::fs] the code calls, its laws what the documentation of
    [std::fs] promises about them.  [MemFs] is an instance. *)

From S2P Require Import Prelude RustStd SeekSequence PatchParser PatchGrammar PatchReplace.

(** ** Errors *)

(** [std::io::Error]: its kind and its text. *)
Inductive error_kind : Type := NotFound | AlreadyExists | InvalidData | PermissionDenied | Other.
Record io_error : Type := mk_io_error { kind : error_kind; message : str }.

Record IoError : Type := mk_IoError { context : str; source : io_error }.

Inductive ApplyPatchError : Type :=
  | ApplyParseError (e : ParseError)
  | ApplyIoError (e : IoError)
  | ComputeReplacements (message : str)
  | ImplicitInvocation.

(** The [Display] instances ([thiserror]'s [#[error(...)]]). *)
Definition show_ParseError (e : ParseError) : str :=
  match e with
  | InvalidPatchError message => lit "invalid patch: " ++ message
  | InvalidHunkError message line_number =>
      lit "invalid hunk at line " ++ show_usize line_number ++ lit ", " ++ message
  end.
Definition show_IoError (e : IoError) : str :=
  context e ++ lit ": " ++ message (source e).
Definition show_ApplyPatchError (e : ApplyPatchError) : str :=
  match e with
  | ApplyParseError e => show_ParseError e
  | ApplyIoError e => show_IoError e
  | ComputeReplacements message => message
  | ImplicitInvocation =>
      lit "patch detected without explicit call to apply_patch. Rerun as ["
      ++ [34%N] ++ lit "apply_patch" ++ [34%N] ++ lit ", " ++ [34%N] ++ lit "<patch>" ++ [34%N]
      ++ lit "]"
  end.

(** [From<io::Error>] and [From<&io::Error>]. *)
Definition from_io_error (err : io_error) : ApplyPatchError :=
  ApplyIoError (mk_IoError (lit "I/O error") err).

(** The values of [anyhow::Error] the code builds: an I/O error with a context
    ([with_context]), an [ApplyPatchError] converted by [?], a message ([bail!]). *)
Inductive anyhow : Type :=
  | AnyContext (ctx : str) (source : io_error)
  | AnyApply (e : ApplyPatchError)
  | AnyMessage (msg : str).

(** [to_string] shows the outermost context only. *)
Definition show_anyhow (e : anyhow) : str :=
  match e with
  | AnyContext ctx _ => ctx
  | AnyApply e => show_ApplyPatchError e
  | AnyMessage msg => msg
  end.

(** [downcast_ref::<std::io::Error>]: the source below a context; the I/O error
    inside an [ApplyPatchError] is not found. *)
Definition downcast_io (e : anyhow) : option io_error :=
  match e with
  | AnyContext _ source => Some source
  | _ => None
  end.

(** ** The file system *)

Class FileSystem (FS : Type) := {
  read_to_string : str -> FS -> outcome io_error str;
  fs_write : str -> str -> io FS io_error ();
  fs_remove_file : str -> io FS io_error ();
  fs_create_dir_all : list component -> io FS io_error ();
}.

(** Laws on the view of the file system as a finite map from files to their
    texts, [file] giving the file a path denotes.  Operations that fail may leave
    only their own file changed. *)
Class FileSystemLaws (FS K : Type) `{FileSystem FS, Countable K} := {
  file : str -> K;
  texts : FS -> gmap K str;
  file_components p q : components p = components q -> file p = file q;
  read_Ok p fs s : read_to_string p fs = Ok s -> texts fs !! file p = Some s;
  read_returns p fs : returns (read_to_string p fs);
  write_Ok p s fs fs' : fs_write p s fs = (fs', Ok ()) -> texts fs' = <[file p := s]> (texts fs);
  write_frame p s fs k : k <> file p -> texts (fs_write p s fs).1 !! k = texts fs !! k;
  write_returns p s fs : returns (fs_write p s fs).2;
  remove_Ok p fs fs' : fs_remove_file p fs = (fs', Ok ()) -> texts fs' = delete (file p) (texts fs);
  remove_frame p fs k : k <> file p -> texts (fs_remove_file p fs).1 !! k = texts fs !! k;
  remove_returns p fs : returns (fs_remove_file p fs).2;
  create_texts d fs : texts (fs_create_dir_all d fs).1 = texts fs;
  create_returns d fs : returns (fs_create_dir_all d fs).2;
}.

(** Nothing stands in the way of an operation: what is there can be read and
    removed, writing and creating directories succeed. *)
Class ReliableFs (FS K : Type) `{FileSystemLaws FS K} := {
  read_present p fs s : texts fs !! file p = Some s -> read_to_string p fs = Ok s;
  write_succeeds p s fs : (fs_write p s fs).2 = Ok ();
  remove_succeeds p fs : is_Some (texts fs !! file p) -> (fs_remove_file p fs).2 = Ok ();
  create_succeeds d fs : (fs_create_dir_all d fs).2 = Ok ();
}.

(** ** The code *)

Record AffectedPaths : Type := mk_affected {
  added : list str;
  modified : list str;
  deleted : list str;
}.

Record AppliedPatch : Type := mk_applied {
  original_contents : str;
  new_contents : str;
}.

Section code.
Context {FS : Type} `{FileSystem FS}.

(** [fs::read_to_string(..)] with its error wrapped by the caller. *)
Definition derive_new_contents_from_chunks (path : str) (chunks : list UpdateFileChunk)
    (fs : FS) : outcome ApplyPatchError AppliedPatch :=
  original_contents ←
    (map_err (fun err => ApplyIoError (mk_IoError (lit "Failed to read file to update " ++ path) err))
       (read_to_string path fs));
  new_contents ← (map_err ComputeReplacements
                    (new_contents_from_chunks original_contents path chunks));
  Ok (mk_applied original_contents new_contents).

(** [with_context]. *)
Definition with_context {A} (ctx : str) (m : io FS io_error A) : io FS anyhow A :=
  io_map_err (AnyContext ctx) m.

(** [if let Some(parent) = path.parent() && !parent.as_os_str().is_empty()]. *)
Definition create_parents (path : str) : io FS anyhow () :=
  match parent path with
  | Some parent =>
      if bool_decide (parent = []) then mret ()
      else with_context (lit "Failed to create parent directories for " ++ path)
             (fs_create_dir_all parent)
  | None => mret ()
  end.

Definition write_file (path contents : str) : io FS anyhow () :=
  with_context (lit "Failed to write file " ++ path) (fs_write path contents).

(** One iteration of the loop: the effects of a hunk and the lists extended. *)
Definition apply_hunk (hunk : Hunk) (affected : AffectedPaths) : io FS anyhow AffectedPaths :=
  match hunk with
  | AddFile path contents =>
      _ ← create_parents path;
      _ ← write_file path contents;
      mret (mk_affected (added affected ++ [path]) (modified affected) (deleted affected))
  | DeleteFile path =>
      _ ← with_context (lit "Failed to delete file " ++ path) (fs_remove_file path);
      mret (mk_affected (added affected) (modified affected) (deleted affected ++ [path]))
  | UpdateFile path move_path chunks =>
      applied ← io_get (fun fs => map_err AnyApply (derive_new_contents_from_chunks path chunks fs));
      match move_path with
      | Some dest =>
          _ ← create_parents dest;
          _ ← write_file dest (new_contents applied);
          _ ← with_context (lit "Failed to remove original " ++ path) (fs_remove_file path);
          mret (mk_affected (added affected) (modified affected ++ [dest]) (deleted affected))
      | None =>
          _ ← write_file path (new_contents applied);
          mret (mk_affected (added affected) (modified affected ++ [path]) (deleted affected))
      end
  end.

Fixpoint apply_hunks_loop (hunks : list Hunk) (affected : AffectedPaths)
    : io FS anyhow AffectedPaths :=
  match hunks with
  | [] => mret affected
  | hunk :: hunks => affected ← apply_hunk hunk affected; apply_hunks_loop hunks affected
  end.

Definition apply_hunks_to_files (hunks : list Hunk) : io FS anyhow AffectedPaths :=
  if bool_decide (hunks = []) then io_of (Err (AnyMessage (lit "No files were modified.")))
  else apply_hunks_loop hunks (mk_affected [] [] []).

(** The world of the command: files and two writers. *)
Context {W : Type} (write_str : str -> io W io_error ()).

Record world : Type := mk_world { files : FS; stdout : W; stderr : W }.

Definition on_files {E A} (m : io FS E A) : io world E A := fun w =>
  let (fs, r) := m (files w) in (mk_world fs (stdout w) (stderr w), r).

(** [writeln!(stdout, ...)] and [writeln!(stderr, ...)]. *)
Definition writeln_out (s : str) : io world io_error () := fun w =>
  let (o, r) := write_str (s ++ [LF]) (stdout w) in (mk_world (files w) o (stderr w), r).
Definition writeln_err (s : str) : io world io_error () := fun w =>
  let (o, r) := write_str (s ++ [LF]) (stderr w) in (mk_world (files w) (stdout w) o, r).

Fixpoint print_paths (mark : str) (paths : list str) : io world io_error () :=
  match paths with
  | [] => mret ()
  | path :: paths => _ ← writeln_out (mark ++ path); print_paths mark paths
  end.

Definition print_summary (affected : AffectedPaths) : io world io_error () :=
  _ ← writeln_out (lit "Success. Updated the following files:");
  _ ← print_paths (lit "A ") (added affected);
  _ ← print_paths (lit "M ") (modified affected);
  print_paths (lit "D ") (deleted affected).

(** The error value of a failed application. *)
Definition returned_error (err : anyhow) : ApplyPatchError :=
  match downcast_io err with
  | Some io => from_io_error io
  | None => ApplyIoError (mk_IoError (show_anyhow err) (mk_io_error Other (show_anyhow err)))
  end.

Definition apply_hunks (hunks : list Hunk) : io world ApplyPatchError () := fun w =>
  match on_files (apply_hunks_to_files hunks) w with
  | (w, Ok affected) => io_map_err from_io_error (print_summary affected) w
  | (w, Err err) =>
      (_ ← io_map_err from_io_error (writeln_err (show_anyhow err));
       io_of (Err (returned_error err))) w
  | (w, Panic) => (w, Panic)
  | (w, Timeout) => (w, Timeout)
  end.

Definition apply_patch (patch : str) : io world ApplyPatchError () :=
  match parse_patch patch with
  | Ok source => apply_hunks (hunks source)
  | Err e =>
      _ ← io_map_err from_io_error
            (writeln_err match e with
                         | InvalidPatchError message => lit "Invalid patch: " ++ message
                         | InvalidHunkError message line_number =>
                             lit "Invalid patch hunk on line " ++ show_usize line_number
                             ++ lit ": " ++ message
                         end);
      io_of (Err (ApplyParseError e))
  | Panic => io_of Panic
  | Timeout => io_of Timeout
  end.
End code.

Arguments world : clear implicits.

(** ** The abstract specification: hunks as updates of a map of texts *)

Section spec.
Context {K : Type} `{Countable K} (file : str -> K).

Definition hunk_effect (h : Hunk) (m : gmap K str) : option (gmap K str) :=
  match h with
  | AddFile path contents => Some (<[file path := contents]> m)
  | DeleteFile path => Some (delete (file path) m)
  | UpdateFile path move_path chunks =>
      old ← m !! file path;
      match new_contents_from_chunks old path chunks with
      | Ok new =>
          match move_path with
          | Some dest => Some (delete (file path) (<[file dest := new]> m))
          | None => Some (<[file path := new]> m)
          end
      | _ => None
      end
  end.

Fixpoint hunks_effect (hs : list Hunk) (m : gmap K str) : option (gmap K str) :=
  match hs with
  | [] => Some m
  | h :: hs => m ← hunk_effect h m; hunks_effect hs m
  end.

(** The files a hunk names. *)
Definition touched (h : Hunk) : list K :=
  match h with
  | AddFile path _ | DeleteFile path | UpdateFile path None _ => [file path]
  | UpdateFile path (Some dest) _ => [file path; file dest]
  end.

(** What is deleted must be there for the operation to succeed. *)
Fixpoint deletes_present (hs : list Hunk) (m : gmap K str) : Prop :=
  match hs with
  | [] => True
  | h :: hs =>
      match h with DeleteFile path => is_Some (m !! file path) | _ => True end /\
      match hunk_effect h m with Some m' => deletes_present hs m' | None => True end
  end.
End spec.

(** What is reported: added, modified and deleted paths in hunk order. *)
Definition report (a : AffectedPaths) (h : Hunk) : AffectedPaths :=
  match h with
  | AddFile path _ => mk_affected (added a ++ [path]) (modified a) (deleted a)
  | DeleteFile path => mk_affected (added a) (modified a) (deleted a ++ [path])
  | UpdateFile path move_path _ =>
      mk_affected (added a) (modified a ++ [default path move_path]) (deleted a)
  end.

Section refinement.
Context {FS K : Type} `{FileSystemLaws FS K}.

(** States that agree but for the files [ks]. *)
Definition agree_but (ks : list K) (fs fs' : FS) : Prop :=
  forall k, k ∉ ks -> texts fs' !! k = texts fs !! k.

#[local] Instance agree_but_trans ks : Transitive (agree_but ks).
Proof. intros a b c Hab Hbc k Hk. by rewrite Hbc, Hab. Qed.
#[local] Instance agree_but_refl ks : Reflexive (agree_but ks).
Proof. by intros a k. Qed.

Lemma agree_but_mono ks ks' fs fs' : ks ⊆ ks' -> agree_but ks fs fs' -> agree_but ks' fs fs'.
Proof. intros Hsub Ha k Hk. apply Ha. set_solver. Qed.

Lemma with_context_state {A} ctx (m : io FS io_error A) fs :
  (with_context ctx m fs).1 = (m fs).1.
Proof. unfold with_context, io_map_err. by destruct (m fs). Qed.

Lemma with_context_Ok {A} ctx (m : io FS io_error A) fs fs' a :
  with_context ctx m fs = (fs', Ok a) <-> m fs = (fs', Ok a).
Proof. unfold with_context, io_map_err. destruct (m fs) as [? []]; simpl; naive_solver. Qed.

Lemma create_parents_state p fs : texts (create_parents p fs).1 = texts fs.
Proof.
  unfold create_parents. destruct (parent p) as [d|]; [|done].
  case_bool_decide; [done|]. by rewrite with_context_state, create_texts.
Qed.

Lemma create_parents_frame ks p fs : agree_but ks fs (create_parents p fs).1.
Proof. intros k _. by rewrite create_parents_state. Qed.

Lemma write_file_frame p s ks fs : file p ∈ ks -> agree_but ks fs (write_file p s fs).1.
Proof.
  intros Hp k Hk. unfold write_file. rewrite with_context_state.
  apply write_frame. set_solver.
Qed.

Lemma remove_file_frame ctx p ks fs :
  file p ∈ ks -> agree_but ks fs (with_context ctx (fs_remove_file p) fs).1.
Proof. intros Hp k Hk. rewrite with_context_state. apply remove_frame. set_solver. Qed.

Lemma io_get_frame {E A} (f : FS -> outcome E A) ks fs : agree_but ks fs (io_get f fs).1.
Proof. done. Qed.

#[local] Hint Resolve io_get_frame create_parents_frame write_file_frame remove_file_frame : happy.
#[local] Hint Extern 1 (_ ∈ _) => set_solver : happy.
#[local] Hint Extern 1 (agree_but _ ?fs ?fs) => reflexivity : happy.

Ltac frame_step := first
  [ reflexivity
  | apply io_bind_rel; [apply _ | solve [eauto with happy] | intros ? ? _] ].

Lemma apply_hunk_frame h a fs : agree_but (touched file h) fs (apply_hunk h a fs).1.
Proof.
  destruct h as [p s|p|p [dest|] cs]; cbn [apply_hunk touched];
    repeat frame_step.
Qed.

Lemma apply_hunks_loop_frame hs a fs :
  agree_but (hs ≫= touched file) fs (apply_hunks_loop hs a fs).1.
Proof.
  revert a fs. induction hs as [|h hs IH]; intros a fs; [reflexivity|].
  cbn [apply_hunks_loop]. apply io_bind_rel; [apply _| |].
  - eapply agree_but_mono; [|apply apply_hunk_frame]. csimpl. set_solver.
  - intros a1 s1 _. eapply agree_but_mono; [|apply IH]. csimpl. set_solver.
Qed.

Lemma apply_hunk_refines h a fs fs' a' :
  apply_hunk h a fs = (fs', Ok a') ->
  hunk_effect file h (texts fs) = Some (texts fs') /\ a' = report a h.
Proof.
  destruct h as [p s|p|p mv cs]; simpl.
  - intros (s1 & [] & Hc & (s2 & [] & Hw & [= <- <-])%io_bind_Ok)%io_bind_Ok.
    apply with_context_Ok, write_Ok in Hw as ->.
    pose proof (create_parents_state p fs) as Hs. rewrite Hc in Hs. simpl in Hs.
    by rewrite Hs.
  - intros (s1 & [] & Hc & [= <- <-])%io_bind_Ok.
    by apply with_context_Ok, remove_Ok in Hc as ->.
  - intros (s1 & ap & Hd & Hrest)%io_bind_Ok.
    unfold io_get in Hd. injection Hd as <- Hd. apply map_err_Ok in Hd.
    unfold derive_new_contents_from_chunks in Hd.
    apply bind_Ok in Hd as (old & Hr%map_err_Ok%read_Ok & Hd).
    apply bind_Ok in Hd as (new & Hn%map_err_Ok & [= <-]).
    rewrite Hr. simpl. rewrite Hn. cbn [new_contents] in Hrest.
    destruct mv as [dest|].
    + apply io_bind_Ok in Hrest as (s1 & [] & Hc & (s2 & [] & Hw & Hrest)%io_bind_Ok).
      apply io_bind_Ok in Hrest as (s3 & [] & Hrm & [= <- <-]).
      apply with_context_Ok, write_Ok in Hw. apply with_context_Ok, remove_Ok in Hrm.
      pose proof (create_parents_state dest fs) as Hs. rewrite Hc in Hs. simpl in Hs.
      by rewrite Hrm, Hw, Hs.
    + apply io_bind_Ok in Hrest as (s1 & [] & Hw & [= <- <-]).
      by apply with_context_Ok, write_Ok in Hw as ->.
Qed.

Lemma apply_hunks_loop_refines hs a fs fs' a' :
  apply_hunks_loop hs a fs = (fs', Ok a') ->
  hunks_effect file hs (texts fs) = Some (texts fs') /\ a' = foldl report a hs.
Proof.
  revert a fs. induction hs as [|h hs IH]; intros a fs; cbn [apply_hunks_loop].
  { by intros [= <- <-]. }
  intros (s1 & a1 & [Heff ->]%apply_hunk_refines & Hrest)%io_bind_Ok.
  cbn [hunks_effect]. rewrite Heff. by apply IH.
Qed.

Lemma hunks_effect_app hs1 hs2 m :
  hunks_effect file (hs1 ++ hs2) m
  = m1 ← hunks_effect file hs1 m; hunks_effect file hs2 m1.
Proof.
  revert m. induction hs1 as [|h hs1 IH]; intros m; simpl; [done|].
  destruct (hunk_effect file h m); simpl; [apply IH|done].
Qed.

Lemma hunk_effect_frame h m m' k :
  hunk_effect file h m = Some m' -> k ∉ touched file h -> m' !! k = m !! k.
Proof.
  destruct h as [p s|p|p mv cs]; simpl.
  - intros [= <-] Hk. apply lookup_insert_ne. set_solver.
  - intros [= <-] Hk. apply lookup_delete_ne. set_solver.
  - destruct (m !! file p); [|done]. simpl. destruct (new_contents_from_chunks _ _ _); try done.
    destruct mv as [d|]; intros [= <-] Hk.
    + rewrite lookup_delete_ne, lookup_insert_ne by set_solver. done.
    + apply lookup_insert_ne. set_solver.
Qed.

Lemma hunks_effect_frame hs m m' k :
  hunks_effect file hs m = Some m' -> k ∉ hs ≫= touched file -> m' !! k = m !! k.
Proof.
  revert m. induction hs as [|h hs IH]; intros m; simpl; [by intros [= ->]|].
  destruct (hunk_effect file h m) as [m1|] eqn:E; [|done]. simpl. intros Hm Hk.
  csimpl in Hk. rewrite (IH m1) by set_solver.
  apply (hunk_effect_frame h); [done|set_solver].
Qed.

Lemma apply_hunks_loop_app hs1 hs2 a fs :
  apply_hunks_loop (hs1 ++ hs2) a fs =
  (a ← apply_hunks_loop hs1 a; apply_hunks_loop hs2 a) fs.
Proof.
  revert a fs. induction hs1 as [|h hs1 IH]; intros a fs; [done|].
  cbn [apply_hunks_loop app]. unfold mbind, io_bind at 1 2 3.
  destruct (apply_hunk h a fs) as [s1 [a1|e| |]]; [|done..]. apply IH.
Qed.
End refinement.

Section properties.
Context {FS K : Type} `{FileSystemLaws FS K}.

(** C10. Applying hunks refines the abstract specification: when it succeeds, the
    texts of the files are those the hunks compute one after the other, and the
    report lists every path under what was done to it, in order. *)
Theorem apply_hunks_to_files_refines hs fs fs' affected :
  apply_hunks_to_files hs fs = (fs', Ok affected) ->
  hs <> [] /\ hunks_effect file hs (texts fs) = Some (texts fs') /\
  affected = foldl report (mk_affected [] [] []) hs.
Proof.
  unfold apply_hunks_to_files. case_bool_decide as Hne; [done|].
  intros Hl. split; [done|]. by apply apply_hunks_loop_refines.
Qed.

(** C11. Application is not transactional: when a hunk fails, the error is the
    result, the hunks before it stay applied, the hunks after it are not, and
    only the files the failing hunk names can be in between. *)
Theorem apply_hunks_to_files_partial hs1 h hs2 fs fs1 affected e :
  apply_hunks_loop hs1 (mk_affected [] [] []) fs = (fs1, Ok affected) ->
  (apply_hunk h affected fs1).2 = Err e ->
  (apply_hunks_to_files (hs1 ++ h :: hs2) fs).2 = Err e /\
  exists m, hunks_effect file hs1 (texts fs) = Some m /\
    forall k, k ∉ touched file h ->
      texts (apply_hunks_to_files (hs1 ++ h :: hs2) fs).1 !! k = m !! k.
Proof.
  intros Hl Herr. pose proof (apply_hunks_loop_refines _ _ _ _ _ Hl) as [Heff _].
  pose proof (apply_hunk_frame h affected fs1) as Hframe.
  destruct (apply_hunk h affected fs1) as [fs2 r] eqn:Hh. simpl in *. subst r.
  assert (apply_hunks_to_files (hs1 ++ h :: hs2) fs = (fs2, Err e)) as ->.
  { unfold apply_hunks_to_files. rewrite bool_decide_eq_false_2 by (by destruct hs1).
    rewrite apply_hunks_loop_app. unfold mbind, io_bind. rewrite Hl.
    cbn [apply_hunks_loop]. unfold mbind, io_bind. by rewrite Hh. }
  split; [done|]. exists (texts fs1). split; [done|]. exact Hframe.
Qed.

(** A move of a file onto itself deletes it: the new text is written and then
    the original path, the same file, is removed, and the patch reports the file
    as modified. *)
Theorem move_to_self_deletes path dest chunks a fs fs' a' :
  file dest = file path ->
  apply_hunk (UpdateFile path (Some dest) chunks) a fs = (fs', Ok a') ->
  texts fs' !! file path = None /\ modified a' = modified a ++ [dest].
Proof.
  intros Hsame [Heff ->]%apply_hunk_refines. split; [|done]. simpl in Heff.
  destruct (texts fs !! file path) as [old|]; simpl in Heff; [|done].
  destruct (new_contents_from_chunks _ _ _); try done. injection Heff as <-.
  apply lookup_delete_eq.
Qed.

Lemma with_context_returns {A} ctx (m : io FS io_error A) fs :
  returns (m fs).2 -> returns (with_context ctx m fs).2.
Proof. unfold with_context, io_map_err. by destruct (m fs) as [? []]. Qed.
End properties.

(** ** The whole command *)

Section command.
Context {FS K : Type} `{FileSystemLaws FS K} `{!ReliableFs FS K}.

Lemma io_step {S E A B} (m : io S E A) (f : A -> io S E B) s a :
  (m s).2 = Ok a -> (m ≫= f) s = f a (m s).1.
Proof. unfold mbind, io_bind. destruct (m s) as [s1 r]. simpl. by intros ->. Qed.

Lemma with_context_succeeds {A} ctx (m : io FS io_error A) fs a :
  (m fs).2 = Ok a -> (with_context ctx m fs).2 = Ok a.
Proof. unfold with_context, io_map_err. destruct (m fs). simpl. by intros ->. Qed.

Lemma create_parents_succeeds p fs : (create_parents p fs).2 = Ok ().
Proof.
  unfold create_parents. destruct (parent p); [|done]. case_bool_decide; [done|].
  apply with_context_succeeds, create_succeeds.
Qed.

Lemma write_file_succeeds p s fs : (write_file p s fs).2 = Ok ().
Proof. apply with_context_succeeds, write_succeeds. Qed.

Lemma write_file_texts p s fs :
  texts (write_file p s fs).1 = <[file p := s]> (texts fs).
Proof.
  unfold write_file. rewrite with_context_state. apply write_Ok.
  rewrite <-(write_succeeds p s fs). by destruct (fs_write p s fs).
Qed.

Lemma apply_hunk_succeeds h a fs :
  is_Some (hunk_effect file h (texts fs)) ->
  match h with DeleteFile path => is_Some (texts fs !! file path) | _ => True end ->
  exists a', (apply_hunk h a fs).2 = Ok a'.
Proof.
  intros [m Heff] Hdel. destruct h as [p s|p|p mv cs]; cbn [apply_hunk].
  - erewrite io_step by apply create_parents_succeeds.
    erewrite io_step by apply write_file_succeeds. by eexists.
  - erewrite io_step by (by apply with_context_succeeds, remove_succeeds). by eexists.
  - simpl in Heff. destruct (texts fs !! file p) as [old|] eqn:Hold; [|done]. simpl in Heff.
    destruct (new_contents_from_chunks old p cs) as [new|e| |] eqn:Hnew; try done.
    assert (derive_new_contents_from_chunks p cs fs = Ok (mk_applied old new)) as Hder.
    { unfold derive_new_contents_from_chunks. rewrite (read_present p fs old) by done.
      cbn [map_err]. bsimpl. by rewrite Hnew. }
    erewrite io_step by (unfold io_get; simpl; by rewrite Hder).
    cbn [io_get fst]. destruct mv as [dest|]; cbn [new_contents].
    + erewrite io_step by apply create_parents_succeeds.
      erewrite io_step by apply write_file_succeeds.
      erewrite io_step; [by eexists|]. apply with_context_succeeds, remove_succeeds.
      rewrite write_file_texts, create_parents_state.
      apply lookup_insert_is_Some. destruct (decide (file dest = file p)); eauto.
    + erewrite io_step by apply write_file_succeeds. by eexists.
Qed.

Lemma apply_hunks_loop_succeeds hs a fs m :
  hunks_effect file hs (texts fs) = Some m -> deletes_present file hs (texts fs) ->
  exists fs', apply_hunks_loop hs a fs = (fs', Ok (foldl report a hs)) /\ texts fs' = m.
Proof.
  revert a fs. induction hs as [|h hs IH]; intros a fs; simpl.
  { intros [= <-] _. by eexists. }
  destruct (hunk_effect file h (texts fs)) as [m1|] eqn:Heff; [|done]. simpl.
  intros Hm [Hdel Hrest].
  destruct (apply_hunk_succeeds h a fs) as [a' Ha]; [by rewrite Heff|done|].
  destruct (apply_hunk h a fs) as [fs1 r] eqn:Hh. simpl in Ha. subst r.
  apply apply_hunk_refines in Hh as Hr. destruct Hr as [Hm1 ->].
  rewrite Heff in Hm1. injection Hm1 as ->.
  destruct (IH (report a h) fs1 Hm Hrest) as (fs' & Hl & Ht).
  exists fs'. split; [|done]. unfold mbind, io_bind. by rewrite Hh.
Qed.
End command.

(** Writers that are buffers in memory. *)
Definition write_buffer (s : str) : io str io_error () := fun o => (o ++ s, Ok ()).

Definition path_lines (mark : str) (paths : list str) : str :=
  paths ≫= fun path => mark ++ path ++ [LF].
Definition summary_text (a : AffectedPaths) : str :=
  lit "Success. Updated the following files:" ++ [LF]
  ++ path_lines (lit "A ") (added a) ++ path_lines (lit "M ") (modified a)
  ++ path_lines (lit "D ") (deleted a).

Section buffers.
Context {FS K : Type} `{FileSystemLaws FS K}.

Lemma print_paths_buffer mark paths (w : world FS str) :
  print_paths write_buffer mark paths w
  = (mk_world (files w) (stdout w ++ path_lines mark paths) (stderr w), Ok ()).
Proof.
  revert w. induction paths as [|p paths IH]; intros w; cbn [print_paths].
  - destruct w. unfold path_lines. simpl. by rewrite app_nil_r.
  - unfold mbind at 1, io_bind at 1. cbn [writeln_out write_buffer]. rewrite IH.
    unfold path_lines. csimpl. by rewrite <-!app_assoc.
Qed.

Lemma print_summary_buffer a (w : world FS str) :
  print_summary write_buffer a w
  = (mk_world (files w) (stdout w ++ summary_text a) (stderr w), Ok ()).
Proof.
  unfold print_summary, mbind, io_bind. unfold writeln_out, write_buffer at 1.
  do 3 (rewrite print_paths_buffer; cbn [files stdout stderr]).
  unfold summary_text. by rewrite <-!app_assoc.
Qed.

(** Printing does not touch the files. *)
Definition same_files {W} (w w' : world FS W) : Prop := files w' = files w.
#[local] Instance same_files_trans {W} : Transitive (same_files (W:=W)).
Proof. unfold same_files. intros ???. congruence. Qed.

Lemma writeln_out_files {W} (write_str : str -> io W io_error ()) s w :
  same_files w (writeln_out (FS:=FS) write_str s w).1.
Proof. unfold same_files, writeln_out. by destruct (write_str _ _). Qed.

Lemma print_paths_files {W} (write_str : str -> io W io_error ()) mark ps w :
  same_files w (print_paths (FS:=FS) write_str mark ps w).1.
Proof.
  revert w. induction ps as [|p ps IH]; intros w; [done|]. cbn [print_paths].
  apply (io_bind_rel same_files); [apply writeln_out_files|auto].
Qed.

Lemma print_summary_files {W} (write_str : str -> io W io_error ()) a w :
  same_files w (print_summary (FS:=FS) write_str a w).1.
Proof.
  unfold print_summary; apply (io_bind_rel same_files); [apply writeln_out_files|intros _ s1 _].
  apply (io_bind_rel same_files); [apply print_paths_files|intros _ s2 _].
  apply (io_bind_rel same_files); [apply print_paths_files|intros _ s3 _].
  apply print_paths_files.
Qed.

(** The files [apply_hunks] can change. *)
Lemma apply_hunks_frame {W} (write_str : str -> io W io_error ()) hs w k :
  k ∉ hs ≫= touched file ->
  texts (files (apply_hunks write_str hs w).1) !! k = texts (files w) !! k.
Proof.
  intros Hk. unfold apply_hunks, on_files.
  assert (Hf : texts (apply_hunks_to_files hs (files w)).1 !! k = texts (files w) !! k).
  { unfold apply_hunks_to_files. case_bool_decide; [done|].
    by apply (apply_hunks_loop_frame hs). }
  destruct (apply_hunks_to_files hs (files w)) as [fs [a|e| |]]; simpl in *; [| |done|done].
  - rewrite <-Hf. unfold io_map_err.
    pose proof (print_summary_files write_str a (mk_world fs (stdout w) (stderr w))) as Hp.
    destruct (print_summary _ _ _). simpl in *. by rewrite Hp.
  - unfold mbind, io_bind, io_map_err, writeln_err, io_of.
    by destruct (write_str _ _) as [o [[]|?| |]].
Qed.

(** Whatever happens, a patch changes no file that it does not name: a text
    that does not parse changes nothing, and on success as on failure only the
    paths and move targets of the parsed hunks can differ. *)
Theorem apply_patch_frame {W} (write_str : str -> io W io_error ()) patch w k :
  match parse_patch patch with
  | Ok source => k ∉ hunks source ≫= touched file
  | _ => True
  end ->
  texts (files (apply_patch write_str patch w).1) !! k = texts (files w) !! k.
Proof.
  unfold apply_patch. destruct (parse_patch patch) as [source|e| |]; [| |done|done].
  - apply apply_hunks_frame.
  - intros _. unfold mbind, io_bind, io_map_err, writeln_err, io_of.
    by destruct (write_str _ _) as [o [[]|?| |]].
Qed.

(** C1. From patch text to files: on a file system whose operations succeed,
    applying any text of the patch grammar whose hunks have an effect by the
    abstract specification ends with exactly the specified texts, prints the
    summary of the added, modified and deleted paths to stdout and nothing to
    stderr. *)
Theorem apply_patch_end_to_end `{!ReliableFs FS K} ps fs out err m :
  patch_wf ps -> ps <> [] ->
  hunks_effect file (hunk_of <$> ps) (texts fs) = Some m ->
  deletes_present file (hunk_of <$> ps) (texts fs) ->
  exists fs',
    apply_patch write_buffer (join [LF] (text_of_patch ps)) (mk_world fs out err)
    = (mk_world fs'
         (out ++ summary_text (foldl report (mk_affected [] [] []) (hunk_of <$> ps))) err,
       Ok ()) /\
    texts fs' = m.
Proof.
  intros Hwf Hne Heff Hdel. unfold apply_patch, parse_patch.
  rewrite parse_grammar_text by done. cbn [hunks].
  destruct (apply_hunks_loop_succeeds _ (mk_affected [] [] []) _ _ Heff Hdel)
    as (fs' & Hl & Ht).
  exists fs'. split; [|done]. unfold apply_hunks, on_files, apply_hunks_to_files.
  rewrite bool_decide_eq_false_2 by (by destruct ps). cbn [files]. rewrite Hl.
  unfold io_map_err. by rewrite print_summary_buffer.
Qed.
End buffers.

(** ** A file system in memory *)

Definition MemFs : Type := gmap (list component) str.

#[export] Instance MemFs_FileSystem : FileSystem MemFs := {
  read_to_string p m :=
    match m !! components p with
    | Some s => Ok s
    | None => Err (mk_io_error NotFound (lit "No such file or directory (os error 2)"))
    end;
  fs_write p s m := (<[components p := s]> m, Ok ());
  fs_remove_file p m :=
    match m !! components p with
    | Some _ => (delete (components p) m, Ok ())
    | None => (m, Err (mk_io_error NotFound (lit "No such file or directory (os error 2)")))
    end;
  fs_create_dir_all d m := (m, Ok ());
}.

#[export] Instance MemFs_laws : FileSystemLaws MemFs (list component).
Proof.
  refine {| file := components; texts m := m |}; simpl.
  - done.
  - intros p m s. case_match eqn:E; [intros [= <-]; exact E|discriminate].
  - intros p m. by case_match.
  - by intros p s m m' [= <-].
  - intros p s m k Hk. by apply lookup_insert_ne.
  - done.
  - intros p m m'. case_match; [by intros [= <-]|discriminate].
  - intros p m k Hk. case_match; simpl; [|done]. by apply lookup_delete_ne.
  - intros p m. by case_match.
  - done.
  - done.
Defined.

#[export] Instance MemFs_reliable : ReliableFs MemFs (list component).
Proof.
  split; simpl.
  - intros p m s Hs. case_match eqn:E; [|by exfalso; pose proof (eq_trans (eq_sym Hs) E)].
    f_equal. pose proof (eq_trans (eq_sym Hs) E). congruence.
  - done.
  - intros p m [s Hs]. case_match eqn:E; [done|].
    by exfalso; pose proof (eq_trans (eq_sym Hs) E).
  - done.
Qed.

(** ** Concrete instances *)

Definition demo_fs : MemFs :=
  <[components (lit "src/a.py") := lit "x = 1" ++ [LF] ++ lit "def f():" ++ [LF] ++ lit "  y" ++ [LF]]>
  (<[components (lit "old.txt") := lit "old"]> ∅).

Definition demo_fs_after : MemFs :=
  <[components (lit "src/b.py") := lit "x = 2" ++ [LF] ++ lit "def f():" ++ [LF] ++ lit "  y" ++ [LF]]>
  (<[components (lit "new.txt") := lit "hello" ++ [LF; LF]]> ∅).

Lemma demo_effect :
  hunks_effect components (hunk_of <$> demo_patch) demo_fs = Some demo_fs_after.
Proof. by apply (bool_decide_unpack (_ = _)); vm_compute. Qed.

(** A computed pair is its first part and a known second part. *)
Lemma pair_snd {A B} (x : A * B) b : x.2 = b -> x = (x.1, b).
Proof. by destruct x; simpl; intros ->. Qed.

Lemma apply_patch_end_to_end_witness :
  exists fs',
    apply_patch write_buffer (join [LF] (text_of_patch demo_patch)) (mk_world demo_fs [] [])
    = (mk_world fs'
         ([] ++ summary_text (foldl report (mk_affected [] [] []) (hunk_of <$> demo_patch))) [],
       Ok ()) /\
    texts fs' = demo_fs_after.
Proof.
  apply (apply_patch_end_to_end (K:=list component) demo_patch demo_fs [] [] demo_fs_after).
  - apply demo_patch_wf.
  - discriminate.
  - apply demo_effect.
  - vm_compute. repeat split. by eexists.
Defined.

Lemma apply_patch_frame_witness :
  texts (files (apply_patch write_buffer (lit "no patch") (mk_world demo_fs [] [])).1)
    !! components (lit "src/a.py")
  = texts demo_fs !! components (lit "src/a.py").
Proof.
  apply (apply_patch_frame write_buffer (lit "no patch") (mk_world demo_fs [] [])).
  vm_compute. exact I.
Defined.

Lemma apply_hunks_to_files_refines_witness :
  [DeleteFile (lit "old.txt")] <> [] /\
  hunks_effect components [DeleteFile (lit "old.txt")] demo_fs
  = Some (texts (apply_hunks_to_files [DeleteFile (lit "old.txt")] demo_fs).1) /\
  mk_affected [] [] [lit "old.txt"]
  = foldl report (mk_affected [] [] []) [DeleteFile (lit "old.txt")].
Proof.
  destruct (apply_hunks_to_files_refines (K:=list component) [DeleteFile (lit "old.txt")] demo_fs
           (apply_hunks_to_files [DeleteFile (lit "old.txt")] demo_fs).1
           (mk_affected [] [] [lit "old.txt"])) as (H1 & H2 & H3).
  - apply pair_snd. vm_compute. reflexivity.
  - split; [exact H1|]. split; [exact H2|exact H3].
Defined.

Lemma apply_hunks_to_files_partial_witness :
  let hs1 := [AddFile (lit "n.txt") (lit "n")] in
  let h := DeleteFile (lit "missing.txt") in
  (apply_hunks_to_files (hs1 ++ h :: []) demo_fs).2
  = Err (AnyContext (lit "Failed to delete file missing.txt")
           (mk_io_error NotFound (lit "No such file or directory (os error 2)"))) /\
  exists m, hunks_effect (file (FS:=MemFs)) hs1 (texts demo_fs) = Some m /\
    forall k, k ∉ touched (file (FS:=MemFs)) h ->
      texts (apply_hunks_to_files (hs1 ++ h :: []) demo_fs).1 !! k = m !! k.
Proof.
  intros hs1 h.
  apply (apply_hunks_to_files_partial (K:=list component) hs1 h [] demo_fs
           (apply_hunks_loop hs1 (mk_affected [] [] []) demo_fs).1 (mk_affected [lit "n.txt"] [] [])).
  - apply pair_snd. vm_compute. reflexivity.
  - vm_compute. reflexivity.
Defined.

Lemma move_to_self_deletes_witness :
  let moved := apply_hunk (UpdateFile (lit "src/a.py") (Some (lit "src//./a.py"))
                    [mk_chunk None [lit "x = 1"] [lit "x = 2"] false]) (mk_affected [] [] []) demo_fs in
  texts moved.1 !! file (FS:=MemFs) (lit "src/a.py") = None /\
  modified (mk_affected [] [lit "src//./a.py"] []) = [] ++ [lit "src//./a.py"].
Proof.
  intros moved.
  apply (move_to_self_deletes (K:=list component) (lit "src/a.py") (lit "src//./a.py")
           [mk_chunk None [lit "x = 1"] [lit "x = 2"] false] (mk_affected [] [] []) demo_fs
           moved.1 (mk_affected [] [lit "src//./a.py"] [])).
  - vm_compute. reflexivity.
  - apply pair_snd. vm_compute. reflexivity.
Defined.
