(* ===== verification/PatchInvocation.v ===== *)
(** * Recognising patch commands (apply-patch/src/invocation.rs)

    Which argument vectors are invocations of [apply_patch], the patch they
    carry, and the preview of the file changes it proposes.  The bash grammar and
    its query (tree-sitter) and the rendering of unified diffs (similar) are
    parameters. *)

From S2P Require Import Prelude RustStd SeekSequence PatchParser PatchReplace PatchApply.

Definition APPLY_PATCH_COMMANDS : list str := [lit "apply_patch"; lit "applypatch"].

(** ** Shells *)

Inductive ApplyPatchShell : Type := Unix | PowerShell | Cmd.

Definition classify_shell_name (shell : str) : option str :=
  name ← file_stem shell; Some (to_ascii_lowercase name).

Definition classify_shell (shell flag : str) : option ApplyPatchShell :=
  name ← classify_shell_name shell;
  if bool_decide (name ∈ [lit "bash"; lit "zsh"; lit "sh"])
     && bool_decide (flag ∈ [lit "-lc"; lit "-c"]) then Some Unix
  else if bool_decide (name ∈ [lit "pwsh"; lit "powershell"])
          && eq_ignore_ascii_case flag (lit "-command") then Some PowerShell
  else if bool_decide (name = lit "cmd") && eq_ignore_ascii_case flag (lit "/c") then Some Cmd
  else None.

Definition can_skip_flag (shell flag : str) : bool :=
  match classify_shell_name shell with
  | Some name =>
      bool_decide (name ∈ [lit "pwsh"; lit "powershell"])
      && eq_ignore_ascii_case flag (lit "-noprofile")
  | None => false
  end.

Definition parse_shell_script (argv : list str) : option (ApplyPatchShell * str) :=
  match argv with
  | [shell; flag; script] =>
      shell_type ← classify_shell shell flag; Some (shell_type, script)
  | [shell; skip_flag; flag; script] =>
      if can_skip_flag shell skip_flag then
        shell_type ← classify_shell shell flag; Some (shell_type, script)
      else None
  | _ => None
  end.

(** ** Errors and results *)

Inductive ExtractHeredocError (LanguageError Utf8Error : Type) : Type :=
  | CommandDidNotStartWithApplyPatch
  | FailedToLoadBashGrammar (e : LanguageError)
  | HeredocNotUtf8 (e : Utf8Error)
  | FailedToParsePatchIntoAst
  | FailedToFindHeredocBody.
Arguments CommandDidNotStartWithApplyPatch {_ _}.
Arguments FailedToLoadBashGrammar {_ _} _.
Arguments HeredocNotUtf8 {_ _} _.
Arguments FailedToParsePatchIntoAst {_ _}.
Arguments FailedToFindHeredocBody {_ _}.

Inductive ApplyPatchFileChange : Type :=
  | Add (content : str)
  | Delete (content : str)
  | Update (unified_diff : str) (move_path : option str) (new_content : str).

(** [HashMap<PathBuf, _>]: paths are equal when their components are. *)
Record ApplyPatchAction : Type := mk_action {
  changes : gmap (list component) ApplyPatchFileChange;
  action_patch : str;
  cwd : str;
}.

Definition is_empty (a : ApplyPatchAction) : bool := bool_decide (changes a = ∅).

Record ApplyPatchFileUpdate : Type := mk_update { unified_diff : str; content : str }.

Section invocation.
(** tree-sitter: loading the bash grammar, parsing a script, and the matches of
    the query, each a list of captures (name, text of the node). *)
Context {LanguageError Utf8Error tree : Type}.
Variable set_language : outcome LanguageError ().
Variable parse : str -> option tree.
Variable query_matches : tree -> list (list (str * outcome Utf8Error str)).
(** [TextDiff::from_lines(a, b).unified_diff().context_radius(n).to_string()]. *)
Variable text_diff : str -> str -> nat -> str.

#[local] Abbreviation heredoc_error := (ExtractHeredocError LanguageError Utf8Error).

Inductive MaybeApplyPatch : Type :=
  | MBody (args : ApplyPatchArgs)
  | MShellParseError (e : heredoc_error)
  | MPatchParseError (e : ParseError)
  | MNotApplyPatch.

Inductive MaybeApplyPatchVerified : Type :=
  | Body (action : ApplyPatchAction)
  | ShellParseError (e : heredoc_error)
  | CorrectnessError (e : ApplyPatchError)
  | NotApplyPatch.

(** The captures of one match, in order: (heredoc_text, cd_path). *)
Fixpoint read_captures (captures : list (str * outcome Utf8Error str))
    (heredoc_text cd_path : option str) : outcome heredoc_error (option str * option str) :=
  match captures with
  | [] => Ok (heredoc_text, cd_path)
  | (name, node_text) :: captures =>
      if bool_decide (name = lit "heredoc") then
        text ← map_err HeredocNotUtf8 node_text;
        read_captures captures (Some (trim_end_matches LF text)) cd_path
      else if bool_decide (name = lit "cd_path") then
        text ← map_err HeredocNotUtf8 node_text;
        read_captures captures heredoc_text (Some text)
      else if bool_decide (name = lit "cd_raw_string") then
        raw ← map_err HeredocNotUtf8 node_text;
        let trimmed :=
          default raw (s ← strip_prefix (lit "'") raw; strip_suffix (lit "'") s) in
        read_captures captures heredoc_text (Some trimmed)
      else read_captures captures heredoc_text cd_path
  end.

Fixpoint first_heredoc (matches : list (list (str * outcome Utf8Error str)))
    : outcome heredoc_error (str * option str) :=
  match matches with
  | [] => Err CommandDidNotStartWithApplyPatch
  | m :: matches =>
      '(heredoc_text, cd_path) ← read_captures m None None;
      match heredoc_text with
      | Some heredoc => Ok (heredoc, cd_path)
      | None => first_heredoc matches
      end
  end.

Definition extract_apply_patch_from_bash (src : str) : outcome heredoc_error (str * option str) :=
  _ ← map_err FailedToLoadBashGrammar set_language;
  tree ← ok_or (parse src) FailedToParsePatchIntoAst;
  first_heredoc (query_matches tree).

Definition extract_apply_patch_from_shell (shell : ApplyPatchShell) (script : str)
    : outcome heredoc_error (str * option str) :=
  match shell with
  | Unix | PowerShell | Cmd => extract_apply_patch_from_bash script
  end.

(** The results are [outcome]s without errors of their own: [Ok] of a value of
    the enum. *)
Definition parse_body (body : str) (wd : option (option str)) : outcome () MaybeApplyPatch :=
  match parse_patch body with
  | Ok source =>
      Ok (MBody match wd with
                | Some wd => mk_args (patch source) (hunks source) wd
                | None => source
                end)
  | Err e => Ok (MPatchParseError e)
  | Panic => Panic
  | Timeout => Timeout
  end.

Definition maybe_parse_shell (argv : list str) : outcome () MaybeApplyPatch :=
  match parse_shell_script argv with
  | Some (shell, script) =>
      match extract_apply_patch_from_shell shell script with
      | Ok (body, workdir) => parse_body body (Some workdir)
      | Err CommandDidNotStartWithApplyPatch => Ok MNotApplyPatch
      | Err e => Ok (MShellParseError e)
      | Panic => Panic
      | Timeout => Timeout
      end
  | None => Ok MNotApplyPatch
  end.

Definition maybe_parse_apply_patch (argv : list str) : outcome () MaybeApplyPatch :=
  match argv with
  | [cmd; body] =>
      if bool_decide (cmd ∈ APPLY_PATCH_COMMANDS) then parse_body body None
      else maybe_parse_shell argv
  | _ => maybe_parse_shell argv
  end.

(** ** The verified invocation *)

Section verified.
Context {FS : Type} `{FileSystem FS}.

Definition unified_diff_from_chunks_with_context (path : str) (chunks : list UpdateFileChunk)
    (context : nat) (fs : FS) : outcome ApplyPatchError ApplyPatchFileUpdate :=
  applied ← derive_new_contents_from_chunks path chunks fs;
  Ok (mk_update (text_diff (original_contents applied) (new_contents applied) context)
        (new_contents applied)).

Definition unified_diff_from_chunks (path : str) (chunks : list UpdateFileChunk) (fs : FS) :=
  unified_diff_from_chunks_with_context path chunks 1 fs.

(** The change one hunk proposes, relative to [effective_cwd]. *)
Definition hunk_change (effective_cwd : str) (hunk : Hunk) (fs : FS)
    : outcome ApplyPatchError ApplyPatchFileChange :=
  let path := resolve_path hunk effective_cwd in
  match hunk with
  | AddFile _ contents => Ok (Add contents)
  | DeleteFile _ =>
      content ← map_err (fun e => ApplyIoError (mk_IoError (lit "Failed to read " ++ path) e))
                  (read_to_string path fs);
      Ok (Delete content)
  | UpdateFile _ move_path chunks =>
      diff ← unified_diff_from_chunks path chunks fs;
      Ok (Update (unified_diff diff) (path_join effective_cwd <$> move_path) (content diff))
  end.

Fixpoint changes_loop (effective_cwd : str) (hunks : list Hunk) (fs : FS)
    (acc : gmap (list component) ApplyPatchFileChange)
    : outcome ApplyPatchError (gmap (list component) ApplyPatchFileChange) :=
  match hunks with
  | [] => Ok acc
  | hunk :: hunks =>
      change ← hunk_change effective_cwd hunk fs;
      changes_loop effective_cwd hunks fs
        (<[components (resolve_path hunk effective_cwd) := change]> acc)
  end.

Definition effective_cwd_of (workdir : option str) (cwd : str) : str :=
  match workdir with
  | Some dir => if is_absolute dir then dir else path_join cwd dir
  | None => cwd
  end.

Definition raw_patch (argv : list str) : bool :=
  match argv with [body] => is_ok (parse_patch body) | _ => false end
  || match parse_shell_script argv with
     | Some (_, script) => is_ok (parse_patch script)
     | None => false
     end.

Definition maybe_parse_apply_patch_verified (argv : list str) (cwd : str) (fs : FS)
    : outcome () MaybeApplyPatchVerified :=
  if raw_patch argv then Ok (CorrectnessError ImplicitInvocation)
  else
    m ← maybe_parse_apply_patch argv;
    match m with
    | MBody args =>
        let effective_cwd := effective_cwd_of (workdir args) cwd in
        match changes_loop effective_cwd (hunks args) fs ∅ with
        | Ok changes => Ok (Body (mk_action changes (patch args) effective_cwd))
        | Err e => Ok (CorrectnessError e)
        | Panic => Panic
        | Timeout => Timeout
        end
    | MShellParseError e => Ok (ShellParseError e)
    | MPatchParseError e => Ok (CorrectnessError (ApplyParseError e))
    | MNotApplyPatch => Ok NotApplyPatch
    end.
End verified.
End invocation.

(** ** The preview and the application *)

(** A hunk with its paths resolved, as the action's consumer applies it. *)
Definition rebase (cwd : str) (h : Hunk) : Hunk :=
  match h with
  | AddFile path contents => AddFile (path_join cwd path) contents
  | DeleteFile path => DeleteFile (path_join cwd path)
  | UpdateFile path move_path chunks =>
      UpdateFile (path_join cwd path) (path_join cwd <$> move_path) chunks
  end.

Definition hunk_path (h : Hunk) : str :=
  match h with AddFile path _ | DeleteFile path | UpdateFile path _ _ => path end.

(** The proposed change of a path tells the texts before and after. *)
Definition preview_holds {K} `{Countable K} (file : str -> K)
    (ch : gmap (list component) ApplyPatchFileChange) (before after : gmap K str) (path : str)
    : Prop :=
  match ch !! components path with
  | Some (Add content) => after !! file path = Some content
  | Some (Delete content) => before !! file path = Some content /\ after !! file path = None
  | Some (Update _ None new) => is_Some (before !! file path) /\ after !! file path = Some new
  | Some (Update _ (Some dest) new) =>
      is_Some (before !! file path) /\ after !! file path = None /\ after !! file dest = Some new
  | None => False
  end.

Section preview.
Context {LanguageError Utf8Error tree : Type}.
Variable set_language : outcome LanguageError ().
Variable parse : str -> option tree.
Variable query_matches : tree -> list (list (str * outcome Utf8Error str)).
Variable text_diff : str -> str -> nat -> str.
Context {FS K : Type} `{FileSystemLaws FS K}.

Lemma rebase_path cwd h : hunk_path (rebase cwd h) = resolve_path h cwd.
Proof. by destruct h. Qed.

Lemma touched_path h : file (hunk_path h) ∈ touched file h.
Proof. destruct h as [| |? []]; simpl; set_solver. Qed.

Lemma changes_loop_other cwd hs (fs : FS) acc ch k :
  changes_loop text_diff cwd hs fs acc = Ok ch ->
  k ∉ (fun h => components (resolve_path h cwd)) <$> hs -> ch !! k = acc !! k.
Proof.
  revert acc. induction hs as [|h hs IH]; intros acc; cbn [changes_loop].
  { by intros [= ->]. }
  intros (c & _ & Hl)%bind_Ok Hk. rewrite fmap_cons in Hk.
  rewrite (IH _ Hl) by set_solver. apply lookup_insert_ne. set_solver.
Qed.

Lemma changes_loop_lookup cwd hs (fs : FS) acc ch hs1 h hs2 :
  changes_loop text_diff cwd hs fs acc = Ok ch ->
  hs = hs1 ++ h :: hs2 ->
  components (resolve_path h cwd) ∉ (fun h => components (resolve_path h cwd)) <$> hs2 ->
  exists c, hunk_change text_diff cwd h fs = Ok c /\
    ch !! components (resolve_path h cwd) = Some c.
Proof.
  intros Hl -> Hnot. revert acc Hl. induction hs1 as [|h1 hs1 IH]; intros acc; simpl.
  - intros (c & Hc & Hl)%bind_Ok. exists c. split; [done|].
    rewrite (changes_loop_other _ _ _ _ _ _ Hl Hnot). apply lookup_insert_eq.
  - intros (c & _ & Hl)%bind_Ok. by apply (IH _ Hl).
Qed.

(** What a hunk's change says, in terms of the effect of the rebased hunk on a
    map that has the same texts for the files it names. *)
Lemma hunk_change_effect cwd h (fs : FS) c m m' :
  hunk_change text_diff cwd h fs = Ok c ->
  (forall k, k ∈ touched file (rebase cwd h) -> m !! k = texts fs !! k) ->
  NoDup (touched file (rebase cwd h)) ->
  hunk_effect file (rebase cwd h) m = Some m' ->
  forall ch, ch !! components (hunk_path (rebase cwd h)) = Some c ->
  preview_holds file ch (texts fs) m' (hunk_path (rebase cwd h)).
Proof.
  intros Hc Hm Hnd Heff ch Hch. unfold preview_holds. rewrite Hch. clear Hch.
  destruct h as [p s|p|p mv cs]; simpl in *.
  - injection Hc as <-. injection Heff as <-. apply lookup_insert_eq.
  - apply bind_Ok in Hc as (s & Hr%map_err_Ok%read_Ok & [= <-]).
    injection Heff as <-. split; [done|]. apply lookup_delete_eq.
  - apply bind_Ok in Hc as (d & Hd & [= <-]).
    apply bind_Ok in Hd as (ap & Hd & [= <-]).
    apply bind_Ok in Hd as (old & Hr%map_err_Ok%read_Ok & Hd).
    apply bind_Ok in Hd as (new & Hn%map_err_Ok & [= <-]).
    simpl. rewrite Hm, Hr in Heff by (destruct mv; set_solver). simpl in Heff.
    rewrite Hn in Heff. destruct mv as [d|]; simpl in *; injection Heff as <-.
    + apply NoDup_cons in Hnd as [Hne _].
      split; [by eexists|]. split; [apply lookup_delete_eq|].
      rewrite lookup_delete_ne by set_solver. apply lookup_insert_eq.
    + split; [by eexists|]. apply lookup_insert_eq.
Qed.

Lemma preview_loop cwd hs (fs : FS) ch fs' affected :
  changes_loop text_diff cwd hs fs ∅ = Ok ch ->
  NoDup ((rebase cwd <$> hs) ≫= touched file) ->
  apply_hunks_to_files (rebase cwd <$> hs) fs = (fs', Ok affected) ->
  Forall (fun h => preview_holds file ch (texts fs) (texts fs') (hunk_path h)) (rebase cwd <$> hs).
Proof.
  intros Hch Hnd Happ.
  assert (hunks_effect file (rebase cwd <$> hs) (texts fs) = Some (texts fs')) as Heff.
  { unfold apply_hunks_to_files in Happ. case_bool_decide; [done|].
    by apply apply_hunks_loop_refines in Happ as []. }
  apply Forall_fmap, Forall_forall. intros h Hin. simpl.
  apply list_elem_of_split in Hin as (hs1 & hs2 & Hhs).
  rewrite Hhs, fmap_app, fmap_cons in Heff, Hnd.
  rewrite bind_app, bind_cons in Hnd.
  apply NoDup_app in Hnd as (_ & Hd1 & Hnd). apply NoDup_app in Hnd as (Hnh & Hd2 & _).
  rewrite hunks_effect_app in Heff.
  destruct (hunks_effect file (rebase cwd <$> hs1) (texts fs)) as [m1|] eqn:Hm1; [|done].
  simpl in Heff. destruct (hunk_effect file (rebase cwd h) m1) as [m2|] eqn:Hm2; [|done].
  simpl in Heff.
  destruct (changes_loop_lookup cwd hs fs ∅ ch hs1 h hs2 Hch Hhs) as (c & Hc & Hlook).
  { intros Hin. apply list_elem_of_fmap in Hin as (h' & Heq & Hh').
    apply (Hd2 (file (hunk_path (rebase cwd h)))); [apply touched_path|].
    apply list_elem_of_bind. exists (rebase cwd h').
    rewrite rebase_path, (file_components _ _ Heq), <-rebase_path.
    split; [apply touched_path|]. by apply list_elem_of_fmap_2. }
  rewrite <-rebase_path in Hlook.
  assert (Hpre : preview_holds file ch (texts fs) m2 (hunk_path (rebase cwd h))).
  { eapply hunk_change_effect; [done| |done|done|done].
    intros k Hk. apply (hunks_effect_frame _ _ _ _ Hm1). intros Hk1.
    apply (Hd1 k Hk1). set_solver. }
  assert (Hlater : forall k, k ∈ touched file (rebase cwd h) -> texts fs' !! k = m2 !! k).
  { intros k Hk. apply (hunks_effect_frame _ _ _ _ Heff). by apply Hd2. }
  unfold preview_holds in *. rewrite Hlook in *.
  pose proof (touched_path (rebase cwd h)) as Hself. rewrite (Hlater _ Hself).
  destruct c as [s|s|ud [d|] new]; try done.
  rewrite (Hlater (file d)); [done|].
  destruct h as [|?|? [mv|] ?]; simpl in Hc; try discriminate;
    apply bind_Ok in Hc as (? & _ & Hc); simplify_eq; simpl; set_solver.
Qed.

(** The preview shown for approval is what applying the patch does: for a
    patch whose paths and move targets are pairwise distinct files, every change
    listed by the verified invocation tells the text the file had before
    (deletions) and the text each path and move target has after application. *)
Theorem preview_matches_application argv wd args action (fs : FS) fs' affected :
  maybe_parse_apply_patch set_language parse query_matches argv = Ok (MBody args) ->
  maybe_parse_apply_patch_verified set_language parse query_matches text_diff argv wd fs
  = Ok (Body action) ->
  let hs := rebase (cwd action) <$> hunks args in
  NoDup (hs ≫= touched file) ->
  apply_hunks_to_files hs fs = (fs', Ok affected) ->
  Forall (fun h => preview_holds file (changes action) (texts fs) (texts fs') (hunk_path h)) hs.
Proof.
  intros Hparse. unfold maybe_parse_apply_patch_verified.
  destruct (raw_patch argv); [done|]. rewrite Hparse. bsimpl.
  destruct (changes_loop _ _ (hunks args) _ _) as [ch|e| |] eqn:Hch; try done.
  intros [= <-]. simpl. by apply preview_loop.
Qed.

(** The preview ignores the order of hunks on one file: of two updates of the
    same path only the second is listed, computed from the text before the patch,
    while application runs the second on the result of the first. *)
Theorem preview_of_repeated_update cwd p c1 c2 (fs : FS) ch :
  changes_loop text_diff cwd [UpdateFile p None c1; UpdateFile p None c2] fs ∅ = Ok ch ->
  exists old n2 ud, texts fs !! file (path_join cwd p) = Some old /\
    new_contents_from_chunks old (path_join cwd p) c2 = Ok n2 /\
    ch = {[components (path_join cwd p) := Update ud None n2]} /\
    hunks_effect file (rebase cwd <$> [UpdateFile p None c1; UpdateFile p None c2]) (texts fs)
    = match new_contents_from_chunks old (path_join cwd p) c1 with
      | Ok n1 =>
          match new_contents_from_chunks n1 (path_join cwd p) c2 with
          | Ok n12 => Some (<[file (path_join cwd p) := n12]> (texts fs))
          | _ => None
          end
      | _ => None
      end.
Proof.
  cbn [changes_loop]. intros (d1 & _ & (d2 & Hd2 & [= <-])%bind_Ok)%bind_Ok.
  cbn [hunk_change resolve_path fmap list_fmap rebase option_fmap option_map] in *.
  apply bind_Ok in Hd2 as (u & Hu & [= <-]).
  apply bind_Ok in Hu as (ap & Hd & [= <-]).
  apply bind_Ok in Hd as (old & Hr%map_err_Ok%read_Ok & Hd).
  apply bind_Ok in Hd as (new & Hn%map_err_Ok & [= <-]).
  exists old, new. eexists. split; [done|]. split; [done|].
  split; [by rewrite insert_insert_eq|].
  generalize dependent (path_join cwd p). intros q Hr Hn.
  cbn [hunks_effect hunk_effect]. rewrite Hr. cbn [mbind option_bind].
  destruct (new_contents_from_chunks old q c1) as [n1|?| |]; try done.
  cbn [mbind option_bind]. rewrite lookup_insert_eq. cbn [mbind option_bind].
  destruct (new_contents_from_chunks n1 q c2); try done.
  cbn [mbind option_bind]. by rewrite insert_insert_eq.
Qed.
End preview.

(** ** What counts as an invocation *)

Section invocations.
Context {LanguageError Utf8Error tree : Type}.
Variable set_language : outcome LanguageError ().
Variable parse : str -> option tree.
Variable query_matches : tree -> list (list (str * outcome Utf8Error str)).
Variable text_diff : str -> str -> nat -> str.
Context {FS : Type} `{FileSystem FS}.

Lemma parse_body_Ok body wd args :
  parse_body (LanguageError:=LanguageError) (Utf8Error:=Utf8Error) body wd = Ok (MBody args) ->
  exists source, parse_patch body = Ok source /\ hunks args = hunks source /\
    patch args = patch source.
Proof.
  unfold parse_body. destruct (parse_patch body) as [source|e| |]; try done.
  intros [= <-]. exists source. by destruct wd.
Qed.

(** A patch is acted on only when it is addressed to [apply_patch]: the
    verified invocation yields changes only for [apply_patch <patch>], or for a
    shell script from which the grammar query extracts a here-document holding a
    patch; a patch given as the whole command, or as the whole script, never
    does. *)
Theorem verified_body_explicit argv wd (fs : FS) action :
  maybe_parse_apply_patch_verified set_language parse query_matches text_diff argv wd fs
  = Ok (Body action) ->
  exists body source, parse_patch body = Ok source /\ action_patch action = patch source /\
    ((exists cmd, argv = [cmd; body] /\ cmd ∈ APPLY_PATCH_COMMANDS) \/
     (exists shell script workdir, parse_shell_script argv = Some (shell, script) /\
        is_ok (parse_patch script) = false /\
        extract_apply_patch_from_bash set_language parse query_matches script
        = Ok (body, workdir))).
Proof.
  unfold maybe_parse_apply_patch_verified.
  destruct (raw_patch argv) eqn:Hraw; [done|].
  destruct (maybe_parse_apply_patch _ _ _ argv) as [[args|e|e|]|e| |] eqn:Hm; try done. bsimpl.
  destruct (changes_loop _ _ _ _ _) as [ch|e| |]; try done. intros [= <-].
  assert (Hshell : maybe_parse_shell set_language parse query_matches argv = Ok (MBody args) ->
    exists body source, parse_patch body = Ok source /\ patch args = patch source /\
      exists shell script workdir, parse_shell_script argv = Some (shell, script) /\
        is_ok (parse_patch script) = false /\
        extract_apply_patch_from_bash set_language parse query_matches script
        = Ok (body, workdir)).
  { unfold maybe_parse_shell. apply orb_false_iff in Hraw as [_ Hscript].
    destruct (parse_shell_script argv) as [[shell script]|]; [|done].
    assert (extract_apply_patch_from_shell set_language parse query_matches shell script
            = extract_apply_patch_from_bash set_language parse query_matches script) as ->
      by (by destruct shell).
    destruct (extract_apply_patch_from_bash _ _ _ script) as [[body workdir]|[]| |] eqn:Hx;
      try done.
    intros (source & Hsource & _ & Hpatch)%parse_body_Ok.
    exists body, source. eauto 10. }
  cbn [action_patch]. unfold maybe_parse_apply_patch in Hm.
  destruct argv as [|cmd [|body [|? ?]]];
    try (destruct (Hshell Hm) as (b & so & ? & ? & ?); exists b, so; by auto).
  case_bool_decide as Hcmd;
    [|destruct (Hshell Hm) as (b & so & ? & ? & ?); exists b, so; by auto].
  apply parse_body_Ok in Hm as (source & Hsource & _ & Hpatch).
  exists body, source. eauto 6.
Qed.
End invocations.

(** ** Concrete instances *)

Definition demo_cwd_fs : MemFs :=
  <[components (lit "/w/a.py") := lit "x = 1" ++ [LF] ++ lit "y" ++ [LF]]>
  (<[components (lit "/w/old.txt") := lit "old"]> ∅).

Definition demo_hunks : list Hunk :=
  [UpdateFile (lit "a.py") (Some (lit "b.py")) [mk_chunk None [lit "x = 1"] [lit "x = 2"] false];
   DeleteFile (lit "old.txt")].

Definition demo_text : str :=
  join [LF] [lit "*** Begin Patch"; lit "*** Update File: a.py"; lit "*** Move to: b.py";
             lit "-x = 1"; lit "+x = 2"; lit "*** Delete File: old.txt"; lit "*** End Patch"].

Definition demo_verified :=
  maybe_parse_apply_patch_verified (FS:=MemFs) (Ok () : outcome () ()) (fun _ => Some ())
    (fun _ => ([] : list (list (str * outcome () str)))) (fun _ _ _ => [])
    [lit "apply_patch"; demo_text] (lit "/w") demo_cwd_fs.

Definition demo_action : ApplyPatchAction :=
  match demo_verified with Ok (Body a) => a | _ => mk_action ∅ [] [] end.

Lemma demo_verified_body : demo_verified = Ok (Body demo_action).
Proof.
  unfold demo_action.
  assert (match demo_verified with Ok (Body _) => true | _ => false end = true) as Hb
    by (vm_compute; reflexivity).
  by destruct demo_verified as [[]| | |].
Qed.

Lemma preview_matches_application_witness :
  let hs := rebase (cwd demo_action) <$> demo_hunks in
  Forall (fun h => preview_holds (file (FS:=MemFs)) (changes demo_action) (texts demo_cwd_fs)
                     (texts (apply_hunks_to_files hs demo_cwd_fs).1) (hunk_path h)) hs.
Proof.
  intros hs.
  apply (preview_matches_application (K:=list component) (Ok () : outcome () ())
           (fun _ => Some ()) (fun _ => ([] : list (list (str * outcome () str))))
           (fun _ _ _ => []) [lit "apply_patch"; demo_text] (lit "/w")
           (mk_args demo_text demo_hunks None) demo_action demo_cwd_fs _
           (mk_affected [] [lit "/w/b.py"] [lit "/w/old.txt"])).
  - vm_compute. reflexivity.
  - apply demo_verified_body.
  - by apply (bool_decide_unpack (NoDup _)); vm_compute.
  - apply pair_snd. vm_compute. reflexivity.
Defined.

Lemma preview_of_repeated_update_witness :
  let c1 := [mk_chunk None [lit "x = 1"] [lit "x = 2"] false] in
  let c2 := [mk_chunk None [lit "y"] [lit "z"] false] in
  exists old n2 ud, texts demo_cwd_fs !! file (FS:=MemFs) (lit "/w/a.py") = Some old /\
    new_contents_from_chunks old (lit "/w/a.py") c2 = Ok n2 /\
    ({[components (lit "/w/a.py") := Update [] None (lit "x = 1" ++ [LF] ++ lit "z" ++ [LF])]}
     : gmap _ _) = {[components (lit "/w/a.py") := Update ud None n2]} /\
    hunks_effect (file (FS:=MemFs)) (rebase (lit "/w") <$> [UpdateFile (lit "a.py") None c1;
                    UpdateFile (lit "a.py") None c2]) (texts demo_cwd_fs)
    = match new_contents_from_chunks old (lit "/w/a.py") c1 with
      | Ok n1 =>
          match new_contents_from_chunks n1 (lit "/w/a.py") c2 with
          | Ok n12 => Some (<[file (FS:=MemFs) (lit "/w/a.py") := n12]> (texts demo_cwd_fs))
          | _ => None
          end
      | _ => None
      end.
Proof.
  intros c1 c2.
  apply (preview_of_repeated_update (K:=list component) (fun _ _ _ => []) (lit "/w") (lit "a.py")
           c1 c2 demo_cwd_fs).
  vm_compute. reflexivity.
Defined.

Lemma verified_body_explicit_witness :
  exists body source, parse_patch body = Ok source /\
    action_patch demo_action = patch source /\
    ((exists cmd, [lit "apply_patch"; demo_text] = [cmd; body] /\ cmd ∈ APPLY_PATCH_COMMANDS) \/
     (exists shell script workdir,
        parse_shell_script [lit "apply_patch"; demo_text] = Some (shell, script) /\
        is_ok (parse_patch script) = false /\
        extract_apply_patch_from_bash (Ok () : outcome () ()) (fun _ => Some ())
          (fun _ => ([] : list (list (str * outcome () str)))) script = Ok (body, workdir))).
Proof.
  apply (verified_body_explicit (FS:=MemFs) (Ok () : outcome () ()) (fun _ => Some ())
           (fun _ => ([] : list (list (str * outcome () str)))) (fun _ _ _ => [])
           [lit "apply_patch"; demo_text] (lit "/w") demo_cwd_fs).
  apply demo_verified_body.
Defined.
