(* ===== verification/SandboxPolicy.v ===== *)
(** * Sandbox and approval policies (protocol/src/protocol.rs)

    [AskForApproval], [SandboxPolicy], the writable roots of a policy with the
    subpaths kept read-only, and [AbsolutePathBuf] (utils/absolute-path).  What
    the code asks the host (environment variables, what exists on disk) and the
    path-absolutize crate are the fields of a record. *)

From S2P Require Import Prelude RustStd PatchApply.

(** ** Policies *)

Record RejectConfig : Type := mk_reject {
  sandbox_approval : bool;
  rules : bool;
  mcp_elicitations : bool;
}.

Definition rejects_sandbox_approval (c : RejectConfig) : bool := sandbox_approval c.
Definition rejects_rules_approval (c : RejectConfig) : bool := rules c.
Definition rejects_mcp_elicitations (c : RejectConfig) : bool := mcp_elicitations c.

Inductive AskForApproval : Type :=
  | UnlessTrusted
  | OnFailure
  | OnRequest
  | Reject (config : RejectConfig)
  | Never.

Inductive NetworkAccess : Type := Restricted | Enabled.
Definition is_enabled (n : NetworkAccess) : bool :=
  match n with Enabled => true | Restricted => false end.

(** [AbsolutePathBuf] wraps a path. *)
Definition AbsolutePathBuf : Type := str.

Inductive ReadOnlyAccess : Type :=
  | RestrictedAccess (platform_defaults : bool) (readable_roots : list AbsolutePathBuf)
  | FullAccess.

Inductive SandboxPolicy : Type :=
  | DangerFullAccess
  | ReadOnly (access : ReadOnlyAccess)
  | ExternalSandbox (network_access : NetworkAccess)
  | WorkspaceWrite (writable_roots : list AbsolutePathBuf) (read_only_access : ReadOnlyAccess)
      (network_access exclude_tmpdir_env_var exclude_slash_tmp : bool).

#[export] Instance RejectConfig_eq_dec : EqDecision RejectConfig.
Proof. solve_decision. Defined.
#[export] Instance AskForApproval_eq_dec : EqDecision AskForApproval.
Proof. solve_decision. Defined.

Record WritableRoot : Type := mk_root {
  root : AbsolutePathBuf;
  read_only_subpaths : list AbsolutePathBuf;
}.

(** [Path::starts_with]: a prefix of components. *)
Fixpoint components_start_with (p prefix : list component) {struct prefix} : bool :=
  match prefix, p with
  | [], _ => true
  | c :: prefix, d :: p => bool_decide (c = d) && components_start_with p prefix
  | _ :: _, [] => false
  end.

(** On the components of the path. *)
Definition is_path_writable (r : WritableRoot) (path : list component) : bool :=
  if negb (components_start_with path (components (root r))) then false
  else negb (existsb (fun subpath => components_start_with path (components subpath))
               (read_only_subpaths r)).

(** [retain(|root| seen.insert(root))]: the first of equal paths stays. *)
Fixpoint retain_unseen (seen : gset (list component)) (roots : list AbsolutePathBuf)
    : list AbsolutePathBuf :=
  match roots with
  | [] => []
  | r :: roots =>
      if decide (components r ∈ seen) then retain_unseen seen roots
      else r :: retain_unseen ({[components r]} ∪ seen) roots
  end.

Definition read_access_is_full (a : ReadOnlyAccess) : bool :=
  match a with FullAccess => true | RestrictedAccess _ _ => false end.
Definition access_include_platform_defaults (a : ReadOnlyAccess) : bool :=
  match a with RestrictedAccess d _ => d | FullAccess => false end.

Definition new_read_only_policy : SandboxPolicy := ReadOnly FullAccess.
Definition new_workspace_write_policy : SandboxPolicy :=
  WorkspaceWrite [] FullAccess false false false.

Definition has_full_disk_read_access (p : SandboxPolicy) : bool :=
  match p with
  | DangerFullAccess => true
  | ExternalSandbox _ => true
  | ReadOnly access => read_access_is_full access
  | WorkspaceWrite _ read_only_access _ _ _ => read_access_is_full read_only_access
  end.

Definition has_full_disk_write_access (p : SandboxPolicy) : bool :=
  match p with
  | DangerFullAccess => true
  | ExternalSandbox _ => true
  | ReadOnly _ => false
  | WorkspaceWrite _ _ _ _ _ => false
  end.

Definition has_full_network_access (p : SandboxPolicy) : bool :=
  match p with
  | DangerFullAccess => true
  | ExternalSandbox network_access => is_enabled network_access
  | ReadOnly _ => false
  | WorkspaceWrite _ _ network_access _ _ => network_access
  end.

Definition include_platform_defaults (p : SandboxPolicy) : bool :=
  if has_full_disk_read_access p then false
  else match p with
       | ReadOnly access => access_include_platform_defaults access
       | WorkspaceWrite _ read_only_access _ _ _ =>
           access_include_platform_defaults read_only_access
       | DangerFullAccess | ExternalSandbox _ => false
       end.

(** ** The host *)

Record host : Type := mk_host {
  (** path-absolutize: [absolutize] and [absolutize_from]. *)
  absolutize : str -> outcome io_error str;
  absolutize_from : str -> list component -> outcome io_error str;
  home_dir : option str;
  env_tmpdir : option str;
  is_dir : str -> bool;
  is_file : str -> bool;
  path_exists : str -> bool;
  host_read : str -> outcome io_error str;
}.

(** [str::split_once]. *)
Fixpoint split_once (c : char) (s : str) : option (str * str) :=
  match s with
  | [] => None
  | x :: s => if bool_decide (x = c) then Some ([], s)
              else '(a, b) ← split_once c s; Some (x :: a, b)
  end.

Section with_host.
Variable h : host.

Definition maybe_expand_home_directory (path : str) : str :=
  match home_dir h with
  | Some home =>
      if bool_decide (path = lit "~") then home
      else match strip_prefix (lit "~/") path with
           | Some rest =>
               let rest := drop_while (fun c => bool_decide (c = SLASH)) rest in
               if bool_decide (rest = []) then home else path_join home rest
           | None => path
           end
  | None => path
  end.

Definition resolve_path_against_base (path : str) (base_path : list component)
    : outcome io_error AbsolutePathBuf :=
  absolutize_from h (maybe_expand_home_directory path) base_path.

Definition from_absolute_path (path : str) : outcome io_error AbsolutePathBuf :=
  absolutize h (maybe_expand_home_directory path).

Definition abs_join (base : AbsolutePathBuf) (path : str) : outcome io_error AbsolutePathBuf :=
  resolve_path_against_base path (components base).

(** [.expect(..)]: an error is a panic. *)
Definition expect {E F A} (m : outcome E A) : outcome F A :=
  match m with Ok a => Ok a | Timeout => Timeout | _ => Panic end.

(** Push the path when it is valid, ignore it (with a log line) otherwise. *)
Definition push_ok {F} (m : outcome io_error AbsolutePathBuf) (roots : list AbsolutePathBuf)
    : outcome F (list AbsolutePathBuf) :=
  match m with
  | Ok p => Ok (roots ++ [p])
  | Err _ => Ok roots
  | Panic => Panic
  | Timeout => Timeout
  end.

Definition access_get_readable_roots_with_cwd (a : ReadOnlyAccess) (cwd : str)
    : outcome () (list AbsolutePathBuf) :=
  match a with
  | FullAccess => Ok []
  | RestrictedAccess _ readable_roots =>
      roots ← push_ok (from_absolute_path cwd) readable_roots;
      Ok (retain_unseen ∅ roots)
  end.

Definition is_git_pointer_file (path : AbsolutePathBuf) : bool :=
  is_file h path && bool_decide (file_name path = Some (lit ".git")).

Definition resolve_gitdir_from_file (dot_git : AbsolutePathBuf)
    : outcome () (option AbsolutePathBuf) :=
  match host_read h dot_git with
  | Ok contents =>
      match split_once (ch ":") (trim contents) with
      | Some (_, gitdir_raw) =>
          let gitdir_raw := trim gitdir_raw in
          if bool_decide (gitdir_raw = []) then Ok None
          else match parent dot_git with
               | Some base =>
                   match resolve_path_against_base gitdir_raw base with
                   | Ok gitdir_path =>
                       if path_exists h gitdir_path
                       then Ok (Some gitdir_path) else Ok None
                   | Err _ => Ok None
                   | Panic => Panic
                   | Timeout => Timeout
                   end
               | None => Ok None
               end
      | None => Ok None
      end
  | Err _ => Ok None
  | Panic => Panic
  | Timeout => Timeout
  end.

(** The [.git] entries kept read-only under a root ([subpaths] is still empty
    when the code looks for the gitdir in it). *)
Definition git_subpaths (top_level_git : AbsolutePathBuf) : outcome () (list AbsolutePathBuf) :=
  if is_dir h top_level_git || is_file h top_level_git then
    gitdir ←
      (if is_file h top_level_git && is_git_pointer_file top_level_git
       then resolve_gitdir_from_file top_level_git else Ok None);
    Ok (match gitdir with Some g => [g] | None => [] end ++ [top_level_git])
  else Ok [].

(** The directories of [dirs] that exist under a root. *)
Fixpoint existing_subdirs (writable_root : AbsolutePathBuf) (dirs : list str)
    : outcome () (list AbsolutePathBuf) :=
  match dirs with
  | [] => Ok []
  | subdir :: dirs =>
      p ← expect (abs_join writable_root subdir);
      rest ← existing_subdirs writable_root dirs;
      Ok (if is_dir h p then p :: rest else rest)
  end.

(** The closure mapped over the roots. *)
Definition writable_root_of (writable_root : AbsolutePathBuf) : outcome () WritableRoot :=
  top_level_git ← expect (abs_join writable_root (lit ".git"));
  git ← git_subpaths top_level_git;
  subdirs ← existing_subdirs writable_root [lit ".agents"; lit ".codex"];
  Ok (mk_root writable_root (git ++ subdirs)).

(** On Unix. *)
Definition writable_root_paths (writable_roots : list AbsolutePathBuf)
    (exclude_tmpdir_env_var exclude_slash_tmp : bool) (cwd : str)
    : outcome () (list AbsolutePathBuf) :=
  roots ← push_ok (from_absolute_path cwd) writable_roots;
  roots ←
    (if negb exclude_slash_tmp then
       slash_tmp ← expect (from_absolute_path (lit "/tmp"));
       Ok (if is_dir h slash_tmp then roots ++ [slash_tmp] else roots)
     else Ok roots);
  if negb exclude_tmpdir_env_var then
    match env_tmpdir h with
    | Some tmpdir =>
        if bool_decide (tmpdir = []) then Ok roots
        else push_ok (from_absolute_path tmpdir) roots
    | None => Ok roots
    end
  else Ok roots.

Definition get_writable_roots_with_cwd (p : SandboxPolicy) (cwd : str)
    : outcome () (list WritableRoot) :=
  match p with
  | DangerFullAccess => Ok []
  | ExternalSandbox _ => Ok []
  | ReadOnly _ => Ok []
  | WorkspaceWrite writable_roots _ _ exclude_tmpdir_env_var exclude_slash_tmp =>
      roots ← writable_root_paths writable_roots exclude_tmpdir_env_var exclude_slash_tmp cwd;
      collect_results writable_root_of roots
  end.

Definition get_readable_roots_with_cwd (p : SandboxPolicy) (cwd : str)
    : outcome () (list AbsolutePathBuf) :=
  roots ←
    (match p with
     | DangerFullAccess | ExternalSandbox _ => Ok []
     | ReadOnly access => access_get_readable_roots_with_cwd access cwd
     | WorkspaceWrite _ read_only_access _ _ _ =>
         roots ← access_get_readable_roots_with_cwd read_only_access cwd;
         writable ← get_writable_roots_with_cwd p cwd;
         Ok (roots ++ (root <$> writable))
     end);
  Ok (retain_unseen ∅ roots).
End with_host.

(** ** What the host promises *)

(** An absolute path without [.] and [..]. *)
Definition is_normal (c : component) : Prop := match c with Normal n => valid_name n | _ => False end.
Definition normalized (p : list component) : Prop :=
  match p with RootDir :: rest => Forall is_normal rest | _ => False end.

#[export] Instance is_normal_dec c : Decision (is_normal c).
Proof. destruct c; apply _. Defined.
#[export] Instance normalized_dec p : Decision (normalized p).
Proof. destruct p as [|[] p]; apply _. Defined.

(** A file name: one component. *)
Definition plain_name (n : str) : Prop := components n = [Normal n].

(** The documentation of path-absolutize: a relative name is resolved against the
    base, and the result is absolute and free of [.] and [..]; and a question about
    a path does not depend on how its separators are written. *)
Record host_laws (h : host) : Prop := {
  absolutize_normalized p q : absolutize h p = Ok q -> normalized (components q);
  absolutize_absolute p q : absolutize h p = Ok q -> normalized (components p) ->
    components q = components p;
  absolutize_from_name n base q : plain_name n -> normalized base ->
    absolutize_from h n base = Ok q -> components q = base ++ [Normal n];
  is_dir_components p q : components p = components q -> is_dir h p = is_dir h q;
  is_file_components p q : components p = components q -> is_file h p = is_file h q;
}.

Lemma components_start_with_prefix p prefix :
  components_start_with p prefix = true <-> exists rest, p = prefix ++ rest.
Proof.
  revert p. induction prefix as [|c prefix IH]; intros p; simpl.
  { split; [by exists p|done]. }
  destruct p as [|d p]; simpl; [split; [done|by intros [? [=]]]|].
  rewrite andb_true_iff, bool_decide_eq_true, IH. split.
  - intros [-> [rest ->]]. by exists rest.
  - intros [rest [= -> ->]]. split; [done|by exists rest].
Qed.

(** What a writable root lets through. *)
Lemma is_path_writable_true r path :
  is_path_writable r path = true <->
  (exists rest, path = components (root r) ++ rest) /\
  forall s, s ∈ read_only_subpaths r -> ~ exists rest, path = components s ++ rest.
Proof.
  unfold is_path_writable. setoid_rewrite <-components_start_with_prefix.
  destruct (components_start_with path (components (root r))); simpl;
    [|naive_solver].
  rewrite negb_true_iff, existsb_false_elem. split.
  - intros Hall. split; [done|]. intros s Hs Hp. rewrite Hall in Hp; done.
  - intros [_ Hall] s Hs. apply not_true_iff_false. by apply Hall.
Qed.

Lemma collect_results_Forall2 {E A B} (f : A -> outcome E B) l l' :
  collect_results f l = Ok l' -> Forall2 (fun x y => f x = Ok y) l l'.
Proof. apply collect_results_Ok. Qed.

Section writable.
Context (h : host) (Hh : host_laws h).

Lemma expand_plain n : starts_with (lit "~") n = false -> maybe_expand_home_directory h n = n.
Proof.
  intros Hn. unfold maybe_expand_home_directory. destruct (home_dir h) as [home|]; [|done].
  rewrite bool_decide_eq_false_2 by (by intros ->).
  destruct (strip_prefix (lit "~/") n) as [r|] eqn:Hs; [|done].
  apply strip_prefix_Some in Hs. subst n.
  change (lit "~/" ++ r) with (lit "~" ++ lit "/" ++ r) in Hn.
  by rewrite starts_with_app in Hn.
Qed.

Lemma abs_join_name r n q :
  plain_name n -> starts_with (lit "~") n = false -> normalized (components r) ->
  abs_join h r n = Ok q -> components q = components r ++ [Normal n].
Proof.
  intros Hn Htilde Hr. unfold abs_join, resolve_path_against_base.
  rewrite expand_plain by done. by apply (absolutize_from_name h Hh).
Qed.

Lemma expect_Ok {E F A} (m : outcome E A) a :
  expect (F:=F) m = Ok a <-> m = Ok a.
Proof. destruct m; simpl; naive_solver. Qed.

Lemma existing_subdirs_spec r dirs ps :
  existing_subdirs h r dirs = Ok ps ->
  forall d, d ∈ dirs -> exists p, abs_join h r d = Ok p /\ (is_dir h p = true -> p ∈ ps).
Proof.
  revert ps. induction dirs as [|d dirs IH]; intros ps; cbn [existing_subdirs].
  { intros _ d ?%not_elem_of_nil. done. }
  intros (p & Hp & (rest & Hrest & [= <-])%bind_Ok)%bind_Ok d' Hd'. rewrite expect_Ok in Hp.
  apply elem_of_cons in Hd' as [->|Hd'].
  - exists p. split; [done|]. intros ->. set_solver.
  - destruct (IH rest Hrest d' Hd') as (p' & Hp' & Hin). exists p'. split; [done|].
    intros Hdir. specialize (Hin Hdir). destruct (is_dir h p); set_solver.
Qed.

(** The protected names under a root, when they exist. *)
Definition protected_under (r : AbsolutePathBuf) (n : str) : Prop :=
  n = lit ".git" /\ (exists p, components p = components r ++ [Normal n] /\
                     (is_dir h p = true \/ is_file h p = true)) \/
  (n = lit ".agents" \/ n = lit ".codex") /\
    exists p, components p = components r ++ [Normal n] /\ is_dir h p = true.

Lemma writable_root_protects r w n :
  normalized (components r) -> writable_root_of h r = Ok w -> protected_under r n ->
  root w = r /\ exists s, s ∈ read_only_subpaths w /\ components s = components r ++ [Normal n].
Proof.
  intros Hr. unfold writable_root_of.
  intros (tg & Htg & (git & Hgit & (sub & Hsub & [= <-])%bind_Ok)%bind_Ok)%bind_Ok Hp.
  rewrite expect_Ok in Htg.
  split; [done|]. cbn [read_only_subpaths]. destruct Hp as [[-> (p & Hp & Hex)]|[Hn (p & Hp & Hex)]].
  - assert (Hc : components tg = components r ++ [Normal (lit ".git")])
      by (by apply (abs_join_name r)).
    exists tg. split; [|done]. unfold git_subpaths in Hgit.
    rewrite (is_dir_components h Hh tg p), (is_file_components h Hh tg p) in Hgit
      by congruence.
    assert ((is_dir h p || is_file h p)%bool = true) as Hor
      by (destruct Hex as [->| ->]; rewrite ?orb_true_r; done).
    rewrite Hor in Hgit. apply bind_Ok in Hgit as (g & _ & [= <-]). set_solver.
  - destruct (existing_subdirs_spec _ _ _ Hsub n) as (q & Hq & Hin); [set_solver|].
    assert (Hc : components q = components r ++ [Normal n]).
    { apply (abs_join_name r n); try done; by destruct Hn as [->| ->]. }
    exists q. split; [|done]. apply elem_of_app. right. apply Hin.
    by rewrite (is_dir_components h Hh q p) by congruence.
Qed.
End writable.

(** The directories that could be used to gain privileges are not writable
    through their own root: for every writable root the policy computes, a path in
    an existing [.git], [.agents] or [.codex] directly under that root is
    rejected by it. *)
Theorem protected_subpaths_not_writable h p cwd ws w n rest :
  host_laws h -> get_writable_roots_with_cwd h p cwd = Ok ws -> w ∈ ws ->
  normalized (components (root w)) -> protected_under h (root w) n ->
  is_path_writable w (components (root w) ++ Normal n :: rest) = false.
Proof.
  intros Hh Hws Hw Hnorm Hprot. unfold get_writable_roots_with_cwd in Hws.
  destruct p as [|access|net|roots ro net et es];
    try (by injection Hws as <-; apply not_elem_of_nil in Hw).
  apply bind_Ok in Hws as (rs & _ & Hws%collect_results_Forall2).
  apply list_elem_of_lookup in Hw as [i Hi].
  destruct (Forall2_lookup_r _ _ _ _ _ Hws Hi) as (r & _ & Hr).
  assert (root w = r) as Hroot.
  { unfold writable_root_of in Hr.
    by apply bind_Ok in Hr as (? & _ & (? & _ & (? & _ & [= <-])%bind_Ok)%bind_Ok). }
  rewrite Hroot in *. destruct (writable_root_protects h Hh r w n) as (_ & s & Hs & Hc); try done.
  apply not_true_iff_false. rewrite is_path_writable_true. intros [_ Hnot].
  apply (Hnot s Hs). exists rest. by rewrite Hc, <-app_assoc.
Qed.

(** [/tmp] is one of the roots of the default policy where it is a directory. *)
Lemma tmp_is_root h cwd rs :
  host_laws h ->
  (forall p, components p = [RootDir; Normal (lit "tmp")] -> is_dir h p = true) ->
  writable_root_paths h [] false false cwd = Ok rs ->
  exists t, t ∈ rs /\ components t = [RootDir; Normal (lit "tmp")].
Proof.
  intros Hh Htmp Hrs. unfold writable_root_paths in Hrs. cbn [negb] in Hrs.
  apply bind_Ok in Hrs as (rs1 & _ & (rs2 & Hrs2 & Hrs)%bind_Ok).
  apply bind_Ok in Hrs2 as (t & Ht & [= <-]). rewrite expect_Ok in Ht.
  unfold from_absolute_path in Ht. rewrite expand_plain in Ht by done.
  assert (Hc : components t = [RootDir; Normal (lit "tmp")]).
  { rewrite (absolutize_absolute h Hh _ _ Ht); [done|]. by apply (bool_decide_unpack (normalized _)). }
  rewrite (Htmp t Hc) in Hrs. exists t. split; [|done].
  destruct (env_tmpdir h) as [d|]; [|injection Hrs as <-; set_solver].
  case_bool_decide; [injection Hrs as <-; set_solver|].
  destruct (from_absolute_path h d); cbn [push_ok] in Hrs; simplify_eq; set_solver.
Qed.

(** A root without the special entries protects nothing. *)
Lemma bare_writable_root h r w :
  host_laws h -> normalized (components r) ->
  (forall n p, n ∈ [lit ".git"; lit ".agents"; lit ".codex"] ->
     components p = components r ++ [Normal n] -> is_dir h p = false /\ is_file h p = false) ->
  writable_root_of h r = Ok w -> w = mk_root r [].
Proof.
  intros Hh Hnorm Hno Hw. unfold writable_root_of in Hw.
  apply bind_Ok in Hw as (tg & Htg & (git & Hgit & (sub & Hsub & [= <-])%bind_Ok)%bind_Ok).
  rewrite expect_Ok in Htg.
  assert (Hjoin : forall n q, n ∈ [lit ".git"; lit ".agents"; lit ".codex"] ->
    abs_join h r n = Ok q -> is_dir h q = false /\ is_file h q = false).
  { intros n q Hn Hq. apply (Hno n q Hn). apply (abs_join_name h Hh r n q); try done;
      set_unfold in Hn; naive_solver. }
  unfold git_subpaths in Hgit.
  destruct (Hjoin (lit ".git") tg) as [Hd Hf]; [set_solver|done|].
  rewrite Hd, Hf in Hgit. injection Hgit as <-.
  cbn [existing_subdirs] in Hsub. apply bind_Ok in Hsub as (a & Ha & Hsub).
  apply bind_Ok in Hsub as (r1 & Hr1 & [= <-]). apply bind_Ok in Hr1 as (c & Hc & [= <-]).
  rewrite expect_Ok in Ha. rewrite expect_Ok in Hc.
  rewrite (proj1 (Hjoin (lit ".agents") a ltac:(set_solver) Ha)).
  by rewrite (proj1 (Hjoin (lit ".codex") c ltac:(set_solver) Hc)).
Qed.

(** The protection is by top-level entry of each root, and roots overlap: with
    the default workspace policy, in a project directly under [/tmp] (a default
    root itself), the project's [.git] stays writable through [/tmp], although the
    project's own root lists it as read-only. *)
Theorem tmp_root_unprotects_git h name rest cwd ws :
  host_laws h ->
  components cwd = [RootDir; Normal (lit "tmp"); Normal name] -> valid_name name ->
  starts_with (lit "~") cwd = false ->
  (forall n, n ∈ [lit ".git"; lit ".agents"; lit ".codex"] ->
     n <> name /\
     forall p, components p = [RootDir; Normal (lit "tmp"); Normal n] ->
       is_dir h p = false /\ is_file h p = false) ->
  (forall p, components p = [RootDir; Normal (lit "tmp")] -> is_dir h p = true) ->
  get_writable_roots_with_cwd h new_workspace_write_policy cwd = Ok ws ->
  existsb (fun w => is_path_writable w (components cwd ++ Normal (lit ".git") :: rest)) ws = true.
Proof.
  intros Hh Hcwd Hname Htilde Hno Htmp. unfold get_writable_roots_with_cwd.
  cbn [new_workspace_write_policy]. intros (rs & Hrs & Hws%collect_results_Forall2)%bind_Ok.
  destruct (tmp_is_root h cwd rs Hh Htmp Hrs) as (t & Ht & Hct).
  apply list_elem_of_lookup in Ht as [i Hi].
  destruct (Forall2_lookup_l _ _ _ _ _ Hws Hi) as (w & Hw & Hwt).
  apply existsb_elem. exists w. split; [by eapply list_elem_of_lookup_2|].
  rewrite (bare_writable_root h t w Hh); [| | |done].
  - apply is_path_writable_true. cbn [root read_only_subpaths]. split.
    + rewrite Hct, Hcwd. by eexists.
    + intros s Hs. by apply not_elem_of_nil in Hs.
  - rewrite Hct. by apply (bool_decide_unpack (normalized _)).
  - intros n p Hn Hp. apply (Hno n Hn). by rewrite Hp, Hct.
Qed.

(** ** A concrete host *)

(** Components of an absolute path with [.] and [..] resolved. *)
Definition resolve_dots (cs : list component) : list str :=
  foldl (fun acc c =>
    match c with
    | Normal n => if decide (valid_name n) then acc ++ [n] else acc
    | ParentDir => take (length acc - 1) acc
    | CurDir | RootDir => acc
    end) [] cs.

Definition demo_host (dirs : list (list component)) : host :=
  mk_host (fun p => Ok (render_absolute (resolve_dots (components p))))
    (fun p base => Ok (render_absolute (resolve_dots
        (if is_absolute p then components p else base ++ components p))))
    None None
    (fun p => bool_decide (components p ∈ dirs)) (fun _ => false)
    (fun p => bool_decide (components p ∈ dirs))
    (fun _ => Err (mk_io_error NotFound [])).

Lemma resolve_dots_valid cs : Forall valid_name (resolve_dots cs).
Proof.
  unfold resolve_dots. induction cs as [|c cs IH] using rev_ind; [constructor|].
  rewrite foldl_snoc. destruct c; try done.
  - by apply Forall_take.
  - case_decide; [|done]. apply Forall_app. split; [done|by apply Forall_singleton].
Qed.

Lemma resolve_dots_normal ns :
  Forall is_normal ns -> Normal <$> resolve_dots ns = ns.
Proof.
  unfold resolve_dots. induction ns as [|c ns IH] using rev_ind; [done|].
  rewrite Forall_app, foldl_snoc. intros [Hns Hc]. apply Forall_cons in Hc as [Hc _].
  destruct c as [| | |n]; try done. rewrite decide_True by done.
  by rewrite fmap_app, IH.
Qed.

Lemma demo_host_laws dirs : host_laws (demo_host dirs).
Proof.
  split; simpl.
  - intros p q [= <-]. rewrite components_render by apply resolve_dots_valid.
    simpl. apply Forall_fmap. eapply Forall_impl; [apply resolve_dots_valid|]. done.
  - intros p q [= <-] Hn. rewrite components_render by apply resolve_dots_valid.
    destruct (components p) as [|[] cs] eqn:E; try done. simpl in Hn.
    change (resolve_dots (RootDir :: cs)) with (resolve_dots cs).
    by rewrite resolve_dots_normal.
  - intros n base q Hn Hb [= <-]. rewrite components_render by apply resolve_dots_valid.
    assert (valid_name n) as Hv by (apply (components_names n); rewrite Hn; set_solver).
    assert (is_absolute n = false) as ->.
    { destruct (is_absolute n) eqn:Ha; [|done]. apply components_absolute in Ha.
      by rewrite Hn in Ha. }
    rewrite Hn. destruct base as [|[] base]; try done. simpl in Hb.
    change (resolve_dots ((RootDir :: base) ++ [Normal n]))
      with (resolve_dots (base ++ [Normal n])).
    rewrite resolve_dots_normal; [done|]. apply Forall_app.
    split; [done|by apply Forall_singleton].
  - intros p q ->. done.
  - done.
Qed.

Definition tmp_dirs : list (list component) :=
  [[RootDir; Normal (lit "tmp")];
   [RootDir; Normal (lit "tmp"); Normal (lit "p")];
   [RootDir; Normal (lit "tmp"); Normal (lit "p"); Normal (lit ".git")]].

Lemma tmp_root_unprotects_git_witness :
  existsb (fun w => is_path_writable w
             (components (lit "/tmp/p") ++ Normal (lit ".git") :: [Normal (lit "config")]))
    match get_writable_roots_with_cwd (demo_host tmp_dirs) new_workspace_write_policy
            (lit "/tmp/p") with Ok ws => ws | _ => [] end = true.
Proof.
  apply (tmp_root_unprotects_git (demo_host tmp_dirs) (lit "p") _ (lit "/tmp/p")).
  - apply demo_host_laws.
  - vm_compute. reflexivity.
  - by apply (bool_decide_unpack (valid_name _)).
  - vm_compute. reflexivity.
  - intros n Hn. split.
    + set_unfold in Hn. naive_solver.
    + intros p Hp. simpl. rewrite Hp. split; [|done]. apply bool_decide_eq_false_2.
      set_unfold in Hn. set_unfold. intros H. naive_solver.
  - intros p Hp. simpl. rewrite Hp. vm_compute. reflexivity.
  - vm_compute. reflexivity.
Defined.

Lemma protected_subpaths_not_writable_witness :
  is_path_writable (mk_root (lit "/tmp/p") [lit "/tmp/p/.git"])
    (components (lit "/tmp/p") ++ Normal (lit ".git") :: [Normal (lit "config")]) = false.
Proof.
  apply (protected_subpaths_not_writable (demo_host tmp_dirs) new_workspace_write_policy
           (lit "/tmp/p")
           [mk_root (lit "/tmp/p") [lit "/tmp/p/.git"]; mk_root (lit "/tmp") []]).
  - apply demo_host_laws.
  - vm_compute. reflexivity.
  - set_solver.
  - by apply (bool_decide_unpack (normalized _)).
  - left. split; [done|]. exists (lit "/tmp/p/.git"). split; [|left]; vm_compute; reflexivity.
Defined.
