(* ===== verification/PatchSafety.v ===== *)
(** * Approving patches (core/src/safety.rs)

    [assess_patch_safety] decides from the preview of a patch whether it runs
    without asking, is shown to the user, or is rejected. *)

From S2P Require Import Prelude RustStd PatchParser PatchReplace PatchApply.
From S2P Require Import PatchInvocation SandboxPolicy.

(** ** The code *)

(** [core/src/exec.rs]. *)
Inductive SandboxType : Type :=
  | SandboxNone
  | MacosSeatbelt
  | LinuxSeccomp
  | WindowsRestrictedToken.

(** [protocol/src/config_types.rs]. *)
Inductive WindowsSandboxLevel : Type := Disabled | RestrictedToken | Elevated.

(** The [cfg!(target_os = ..)] of the build. *)
Inductive target_os : Type := MacOS | Linux | Windows | OtherOs.

Inductive SafetyCheck : Type :=
  | AutoApprove (sandbox_type : SandboxType) (user_explicitly_approved : bool)
  | AskUser
  | RejectPatch (reason : str).

Definition get_platform_sandbox (os : target_os) (windows_sandbox_enabled : bool)
    : option SandboxType :=
  match os with
  | MacOS => Some MacosSeatbelt
  | Linux => Some LinuxSeccomp
  | Windows => if windows_sandbox_enabled then Some WindowsRestrictedToken else None
  | OtherOs => None
  end.

(** [PathBuf::pop]: a root stays. *)
Definition path_pop (out : list component) : list component :=
  match reverse out with
  | [] => []
  | [RootDir] => out
  | _ :: rest => reverse rest
  end.

(** [out.push(comp)]: an absolute component replaces the path. *)
Definition normalize_step (out : list component) (comp : component) : list component :=
  match comp with
  | ParentDir => path_pop out
  | CurDir => out
  | RootDir => [RootDir]
  | Normal _ => out ++ [comp]
  end.

Definition normalize_path (path : list component) : list component :=
  foldl normalize_step [] path.

(** [resolve_path(cwd, p)] on components: the leading "." that [join] drops is
    kept, and skipped by [normalize_path]. *)
Definition resolve_path_components (base path : list component) : list component :=
  match path with RootDir :: _ => path | _ => base ++ path end.

(** The closure [is_path_writable]. *)
Definition is_write_allowed (roots : list WritableRoot) (cwd p : list component) : bool :=
  let abs := normalize_path (resolve_path_components cwd p) in
  existsb (fun writable_root => is_path_writable writable_root abs) roots.

Definition change_allowed (roots : list WritableRoot) (cwd : list component)
    (change : list component * ApplyPatchFileChange) : bool :=
  let (path, change) := change in
  match change with
  | Add _ | Delete _ => is_write_allowed roots cwd path
  | Update _ move_path _ =>
      if negb (is_write_allowed roots cwd path) then false
      else match move_path with
           | Some dest => is_write_allowed roots cwd (components dest)
           | None => true
           end
  end.

Section safety.
Variable h : host.
Variable os : target_os.

Definition is_write_patch_constrained_to_writable_paths (action : ApplyPatchAction)
    (sandbox_policy : SandboxPolicy) (cwd : str) : outcome () bool :=
  match sandbox_policy with
  | ReadOnly _ => Ok false
  | DangerFullAccess | ExternalSandbox _ => Ok true
  | WorkspaceWrite _ _ _ _ _ =>
      writable_roots ← get_writable_roots_with_cwd h sandbox_policy cwd;
      Ok (forallb (change_allowed writable_roots (components cwd)) (map_to_list (changes action)))
  end.

Definition rejects_sandbox (policy : AskForApproval) : bool :=
  match policy with
  | Never => true
  | Reject reject_config => sandbox_approval reject_config
  | _ => false
  end.

Definition assess_patch_safety (action : ApplyPatchAction) (policy : AskForApproval)
    (sandbox_policy : SandboxPolicy) (cwd : str) (windows_sandbox_level : WindowsSandboxLevel)
    : outcome () SafetyCheck :=
  if is_empty action then Ok (RejectPatch (lit "empty patch"))
  else
    match policy with
    | UnlessTrusted => Ok AskUser
    | _ =>
        let rejects_sandbox_approval := rejects_sandbox policy in
        let refused :=
          RejectPatch (lit "writing outside of the project; rejected by user approval settings") in
        constrained ← is_write_patch_constrained_to_writable_paths action sandbox_policy cwd;
        if constrained || bool_decide (policy = OnFailure) then
          match sandbox_policy with
          | DangerFullAccess | ExternalSandbox _ => Ok (AutoApprove SandboxNone false)
          | _ =>
              match get_platform_sandbox os
                      (match windows_sandbox_level with Disabled => false | _ => true end) with
              | Some sandbox_type => Ok (AutoApprove sandbox_type false)
              | None => if rejects_sandbox_approval then Ok refused else Ok AskUser
              end
          end
        else if rejects_sandbox_approval then Ok refused
        else Ok AskUser
    end.
End safety.

(** ** Normalised paths *)

Lemma path_pop_app p : path_pop (RootDir :: p) = RootDir :: take (length p - 1) p.
Proof.
  destruct p as [|c p _] using rev_ind; [done|].
  assert (reverse (RootDir :: p ++ [c]) = c :: reverse (RootDir :: p)) as Hrev
    by (change (RootDir :: p ++ [c]) with ((RootDir :: p) ++ [c]); by rewrite reverse_snoc).
  rewrite length_app. cbn [length]. rewrite Nat.add_sub, take_app_length.
  unfold path_pop. rewrite Hrev. rewrite reverse_involutive.
  destruct (reverse (RootDir :: p)) eqn:E; [|by destruct c].
  by apply (f_equal length) in E; rewrite length_reverse in E.
Qed.

Lemma normalize_path_snoc p c :
  normalize_path (p ++ [c]) = normalize_step (normalize_path p) c.
Proof. unfold normalize_path. by rewrite foldl_snoc. Qed.

(** The result is absolute and has neither [.] nor [..]: the prefix test that
    follows cannot be fooled by them. *)
Lemma normalize_path_normalized p :
  (forall n, Normal n ∈ p -> valid_name n) -> normalized (normalize_path (RootDir :: p)).
Proof.
  induction p as [|c p IH] using rev_ind; intros Hp; [by repeat constructor|].
  change (RootDir :: p ++ [c]) with ((RootDir :: p) ++ [c]).
  rewrite normalize_path_snoc.
  assert (normalized (normalize_path (RootDir :: p))) as Hn by (apply IH; set_solver).
  destruct (normalize_path (RootDir :: p)) as [|[] q]; try done. simpl in Hn.
  destruct c as [| | |n]; cbn [normalize_step]; [by repeat constructor|done| |].
  - rewrite path_pop_app. simpl. by apply Forall_take.
  - simpl. apply Forall_app. split; [done|]. apply Forall_singleton. simpl. apply Hp. set_solver.
Qed.

(** On a path without dots it is the identity. *)
Lemma normalize_path_id p : normalized p -> normalize_path p = p.
Proof.
  destruct p as [|[] p]; try done. simpl. intros Hp.
  induction p as [|c p IH] using rev_ind; [done|].
  apply Forall_app in Hp as [Hp Hc]. apply Forall_cons in Hc as [Hc _].
  change (RootDir :: p ++ [c]) with ((RootDir :: p) ++ [c]).
  rewrite normalize_path_snoc, IH by done. by destruct c.
Qed.

(** ** Properties *)

Section properties.
Context (h : host) (os : target_os).


(** The decision table of patch approval: when each verdict is given. *)
Theorem assess_patch_safety_table action policy sandbox_policy cwd level verdict :
  assess_patch_safety h os action policy sandbox_policy cwd level = Ok verdict ->
  match verdict with
  | AutoApprove SandboxNone approved =>
      approved = false /\ has_full_disk_write_access sandbox_policy = true /\
      policy <> UnlessTrusted /\ changes action <> ∅
  | AutoApprove sandbox approved =>
      approved = false /\ has_full_disk_write_access sandbox_policy = false /\
      policy <> UnlessTrusted /\ changes action <> ∅ /\
      get_platform_sandbox os (match level with Disabled => false | _ => true end) = Some sandbox /\
      (policy = OnFailure \/
       is_write_patch_constrained_to_writable_paths h action sandbox_policy cwd = Ok true)
  | AskUser =>
      rejects_sandbox policy = false /\ changes action <> ∅ /\
      (policy = UnlessTrusted \/ has_full_disk_write_access sandbox_policy = false)
  | RejectPatch _ =>
      changes action = ∅ \/
      rejects_sandbox policy = true /\ has_full_disk_write_access sandbox_policy = false
  end.
Proof.
  unfold assess_patch_safety, is_empty. case_bool_decide as Hempty.
  { intros [= <-]. by left. }
  destruct (decide (policy = UnlessTrusted)) as [->|Hp]; [intros [= <-]; auto|].
  assert (Hmain : forall m : outcome () SafetyCheck,
    (match policy with UnlessTrusted => Ok AskUser | _ => m end) = m) by (by destruct policy).
  rewrite Hmain. clear Hmain.
  intros (constrained & Hc & H)%bind_Ok.
  destruct (constrained || bool_decide (policy = OnFailure)) eqn:Hor.
  - assert (policy = OnFailure \/
      is_write_patch_constrained_to_writable_paths h action sandbox_policy cwd = Ok true) as Hwhy.
    { apply orb_true_iff in Hor as [->|?%bool_decide_eq_true_1]; auto. }
    destruct sandbox_policy; try (injection H as <-; by auto);
    (destruct (get_platform_sandbox os _) as [s|] eqn:Hs;
      [injection H as <-; destruct s; try done; by destruct os, level
      |destruct (rejects_sandbox policy) eqn:Hr; injection H as <-; auto]).
  - apply orb_false_iff in Hor as [-> _].
    assert (has_full_disk_write_access sandbox_policy = false) as Hw
      by (by destruct sandbox_policy).
    destruct (rejects_sandbox policy) eqn:Hr; injection H as <-; auto.
Qed.

Context {FS K : Type} `{FileSystemLaws FS K}.

(** A change that is overwritten in the preview escapes the check: a move to any
    destination followed by a hunk that adds the same path again is assessed
    exactly as the addition alone, although applying the patch writes the
    destination. *)
Theorem overwritten_move_escapes_check text_diff wd p dest cs c (fs : FS) ch patch :
  changes_loop text_diff wd [UpdateFile p (Some dest) cs; AddFile p c] fs ∅ = Ok ch ->
  (forall policy sandbox_policy cwd level,
    assess_patch_safety h os (mk_action ch patch wd) policy sandbox_policy cwd level
    = assess_patch_safety h os
        (mk_action {[components (path_join wd p) := Add c]} patch wd)
        policy sandbox_policy cwd level) /\
  (file (path_join wd dest) <> file (path_join wd p) ->
   forall fs' a, apply_hunks_to_files
             (rebase wd <$> [UpdateFile p (Some dest) cs; AddFile p c]) fs = (fs', Ok a) ->
   exists old new, texts fs !! file (path_join wd p) = Some old /\
     new_contents_from_chunks old (path_join wd p) cs = Ok new /\
     texts fs' !! file (path_join wd dest) = Some new).
Proof.
  cbn [changes_loop resolve_path]. intros (d1 & _ & (d2 & [= <-] & [= <-])%bind_Ok)%bind_Ok.
  split; [intros; by rewrite insert_insert_eq|].
  intros Hne fs' a Happ.
  assert (hunks_effect file (rebase wd <$> [UpdateFile p (Some dest) cs; AddFile p c]) (texts fs)
          = Some (texts fs')) as Heff.
  { unfold apply_hunks_to_files in Happ. case_bool_decide; [done|].
    by apply apply_hunks_loop_refines in Happ as []. }
  cbn [fmap list_fmap rebase option_fmap option_map] in Heff.
  clear Happ. generalize dependent (path_join wd p). intros q Hne Heff.
  generalize dependent (path_join wd dest). intros d Hne Heff.
  cbn [hunks_effect hunk_effect mbind option_bind] in Heff.
  destruct (texts fs !! file q) as [old|]; [|done]. cbn [mbind option_bind] in Heff.
  destruct (new_contents_from_chunks old q cs) as [new|?| |] eqn:Hnew; try done.
  cbn [mbind option_bind] in Heff. injection Heff as <-. exists old, new.
  split; [done|]. split; [done|].
  rewrite lookup_insert_ne by congruence. rewrite lookup_delete_ne by congruence.
  apply lookup_insert_eq.
Qed.
End properties.

(** ** Concrete instances *)

Definition ws_host : host :=
  demo_host [[RootDir; Normal (lit "w")]; [RootDir; Normal (lit "w"); Normal (lit ".git")]].

Definition ws_action : ApplyPatchAction :=
  mk_action {[components (lit "src/../a.py") := Update [] (Some (lit "/w/b.py")) []]} [] (lit "/w").


Lemma assess_patch_safety_table_witness :
  rejects_sandbox Never = true /\ has_full_disk_write_access new_read_only_policy = false.
Proof.
  destruct (assess_patch_safety_table ws_host Linux ws_action Never new_read_only_policy (lit "/w")
    Disabled (RejectPatch
      (lit "writing outside of the project; rejected by user approval settings"))) as [H|H].
  - vm_compute. reflexivity.
  - exfalso. revert H. apply (bool_decide_unpack (_ <> _)). vm_compute. exact I.
  - exact H.
Defined.

Definition overwritten_hunks : list Hunk :=
  [UpdateFile (lit "a.py") (Some (lit "/etc/x")) [mk_chunk None [lit "x = 1"] [lit "x = 2"] false];
   AddFile (lit "a.py") []].

Definition overwritten_changes : gmap (list component) ApplyPatchFileChange :=
  unwrap_or ∅ (changes_loop (FS:=MemFs) (fun _ _ _ => []) (lit "/w") overwritten_hunks demo_cwd_fs ∅).

Lemma overwritten_move_escapes_check_witness :
  assess_patch_safety ws_host Linux (mk_action overwritten_changes [] (lit "/w"))
    OnRequest (WorkspaceWrite [] FullAccess false true true) (lit "/w") Disabled
  = Ok (AutoApprove LinuxSeccomp false).
Proof.
  pose proof (overwritten_move_escapes_check (K:=list component) ws_host Linux (fun _ _ _ => [])
    (lit "/w") (lit "a.py") (lit "/etc/x") [mk_chunk None [lit "x = 1"] [lit "x = 2"] false]
    [] demo_cwd_fs overwritten_changes []) as H.
  destruct H as [H _].
  - apply is_ok_unwrap. vm_compute. reflexivity.
  - rewrite H. vm_compute. reflexivity.
Defined.
