(* ===== verification/Order.v ===== *)
(** * Orders, sorting and deduplication

    Lexicographic comparison ([Ord] of strings and of vectors), [Vec::sort] and
    [Vec::dedup]. *)

From Stdlib Require Import Sorted.
From stdpp Require Import sorting.
From S2P Require Import Prelude.

(** A comparison function that is a total order ([Ord]). *)
Class TotalCompare {A} (cmp : A -> A -> comparison) := {
  compare_eq x y : cmp x y = Eq <-> x = y;
  compare_opp x y : cmp y x = CompOpp (cmp x y);
  compare_lt_trans x y z : cmp x y = Lt -> cmp y z = Lt -> cmp x z = Lt;
}.

#[export] Instance N_compare_total : TotalCompare N.compare.
Proof.
  split.
  - intros x y. apply N.compare_eq_iff.
  - intros x y. apply N.compare_antisym.
  - intros x y z. rewrite !N.compare_lt_iff. lia.
Qed.

Fixpoint list_compare {A} (cmp : A -> A -> comparison) (l1 l2 : list A) : comparison :=
  match l1, l2 with
  | [], [] => Eq
  | [], _ :: _ => Lt
  | _ :: _, [] => Gt
  | x :: l1, y :: l2 => match cmp x y with Eq => list_compare cmp l1 l2 | c => c end
  end.

#[export] Instance list_compare_total {A} (cmp : A -> A -> comparison) :
  TotalCompare cmp -> TotalCompare (list_compare cmp).
Proof.
  intros Hcmp. split.
  - intros l1. induction l1 as [|x l1 IH]; intros [|y l2]; simpl; [done..|].
    destruct (cmp x y) eqn:E.
    + apply compare_eq in E as ->. rewrite IH. split; [by intros ->|by intros [= ->]].
    + split; [done|]. intros [= -> _]. pose proof (proj2 (compare_eq y y) eq_refl). congruence.
    + split; [done|]. intros [= -> _]. pose proof (proj2 (compare_eq y y) eq_refl). congruence.
  - intros l1. induction l1 as [|x l1 IH]; intros [|y l2]; simpl; [done..|].
    rewrite (compare_opp (cmp:=cmp) x y). destruct (cmp x y); simpl; auto.
  - intros l1. induction l1 as [|x l1 IH]; intros [|y l2] [|z l3]; simpl; try done.
    destruct (cmp x y) eqn:Exy; [|intros _|done].
    + apply compare_eq in Exy as ->. destruct (cmp y z); [|done..]. apply IH.
    + destruct (cmp y z) eqn:Eyz; [|intros _|done].
      * apply compare_eq in Eyz as <-. by rewrite Exy.
      * by rewrite (compare_lt_trans (cmp:=cmp) x y z).
Qed.

Definition compare_le {A} (cmp : A -> A -> comparison) (x y : A) : Prop := cmp x y <> Gt.

#[export] Instance compare_le_dec {A} (cmp : A -> A -> comparison) : RelDecision (compare_le cmp).
Proof. intros x y. unfold compare_le. destruct (cmp x y); [left|left|right]; congruence. Defined.

Section ordered.
Context {A : Type} (cmp : A -> A -> comparison) `{!TotalCompare cmp}.

#[export] Instance compare_le_trans : Transitive (compare_le cmp).
Proof.
  intros x y z. unfold compare_le. intros Hxy Hyz.
  destruct (cmp x y) eqn:Exy; [apply compare_eq in Exy as ->; done| |done].
  destruct (cmp y z) eqn:Eyz; [apply compare_eq in Eyz as <-; congruence| |done].
  by rewrite (compare_lt_trans (cmp:=cmp) x y z).
Qed.
#[export] Instance compare_le_total : Total (compare_le cmp).
Proof.
  intros x y. unfold compare_le. rewrite (compare_opp (cmp:=cmp) x y).
  destruct (cmp x y); simpl; [left|left|right]; congruence.
Qed.
Lemma compare_le_antisym x y : compare_le cmp x y -> compare_le cmp y x -> x = y.
Proof.
  unfold compare_le. rewrite (compare_opp (cmp:=cmp) x y). intros Hxy Hyx.
  apply compare_eq. by destruct (cmp x y).
Qed.
End ordered.

(** [Vec::sort]. *)
Definition sort {A} (cmp : A -> A -> comparison) (l : list A) : list A :=
  merge_sort (compare_le cmp) l.

(** [Vec::dedup]: equal neighbours are merged. *)
Fixpoint dedup {A} `{EqDecision A} (l : list A) : list A :=
  match l with
  | [] => []
  | x :: l' =>
      match l' with
      | y :: _ => if decide (x = y) then dedup l' else x :: dedup l'
      | [] => [x]
      end
  end.

Lemma elem_of_dedup {A} `{EqDecision A} (l : list A) x : x ∈ dedup l <-> x ∈ l.
Proof.
  induction l as [|y l IH]; [done|]. cbn [dedup]. destruct l as [|z l]; [done|].
  case_decide as E; [subst|]; rewrite ?elem_of_cons in *; rewrite ?IH; naive_solver.
Qed.

Section sorted_dedup.
Context {A : Type} `{EqDecision A} (cmp : A -> A -> comparison) `{!TotalCompare cmp}.

Lemma sort_perm l : sort cmp l ≡ₚ l.
Proof. apply merge_sort_Permutation. Qed.

Lemma sort_sorted l : StronglySorted (compare_le cmp) (sort cmp l).
Proof. apply StronglySorted_merge_sort; apply _. Qed.

(** Deduplicating a sorted list leaves a strictly increasing one. *)
Lemma dedup_sorted l :
  StronglySorted (compare_le cmp) l -> StronglySorted (fun x y => cmp x y = Lt) (dedup l).
Proof.
  induction l as [|x l IH]; intros Hs; [constructor|].
  apply StronglySorted_inv in Hs as [Hs Hall]. cbn [dedup].
  destruct l as [|y l]; [repeat constructor|].
  case_decide as E; [by apply IH|]. constructor; [by apply IH|].
  apply Forall_forall. intros z Hz. apply (proj1 (elem_of_dedup _ _)) in Hz.
  rewrite Forall_forall in Hall. pose proof (Hall z Hz) as Hxz.
  destruct (cmp x z) eqn:Exz; [|done|done]. apply compare_eq in Exz as ->.
  exfalso. apply E. apply elem_of_cons in Hz as [->|Hz]; [done|].
  apply StronglySorted_inv in Hs as [_ Hy]. rewrite Forall_forall in Hy.
  apply (compare_le_antisym cmp); [|by apply Hy].
  apply Hall. apply elem_of_cons. by left.
Qed.
End sorted_dedup.

(** [Ord] of [String] and of [Vec<String>]: bytes compare as code points do in
    UTF-8. *)
Definition str_compare : str -> str -> comparison := list_compare N.compare.
Definition strs_compare : list str -> list str -> comparison := list_compare str_compare.

(** [slice::sort_by_key]: stable insertion by a numeric key. *)
Fixpoint insert_by_key {A} (key : A -> nat) (x : A) (l : list A) : list A :=
  match l with
  | [] => [x]
  | y :: l' => if key x <=? key y then x :: l else y :: insert_by_key key x l'
  end.
Definition sort_by_key {A} (key : A -> nat) (l : list A) : list A :=
  foldr (insert_by_key key) [] l.

Lemma insert_by_key_perm {A} (key : A -> nat) x l : insert_by_key key x l ≡ₚ x :: l.
Proof.
  induction l as [|y l IH]; simpl; [done|]. case_match; [done|]. rewrite IH. apply Permutation_swap.
Qed.

Lemma sort_by_key_perm {A} (key : A -> nat) l : sort_by_key key l ≡ₚ l.
Proof. induction l as [|x l IH]; simpl; [done|]. by rewrite insert_by_key_perm, IH. Qed.

(** A list whose keys ascend is left as it is. *)
Lemma sort_by_key_sorted {A} (key : A -> nat) l :
  StronglySorted (fun x y => key x <= key y) l -> sort_by_key key l = l.
Proof.
  induction 1 as [|x l _ IH Hx]; [done|]. unfold sort_by_key in *. cbn [foldr]. rewrite IH.
  destruct l as [|y l]; [done|]. apply Forall_cons in Hx as [Hxy _]. cbn [insert_by_key].
  by apply Nat.leb_le in Hxy as ->.
Qed.

(** [slice::sort_by]: a stable sort by a comparison. *)
Fixpoint insert_by {A} (cmp : A -> A -> comparison) (x : A) (l : list A) : list A :=
  match l with
  | [] => [x]
  | y :: l' => match cmp x y with Gt => y :: insert_by cmp x l' | _ => x :: l end
  end.
Definition sort_by {A} (cmp : A -> A -> comparison) (l : list A) : list A :=
  foldr (insert_by cmp) [] l.

Lemma sort_by_perm {A} (cmp : A -> A -> comparison) l : sort_by cmp l ≡ₚ l.
Proof.
  assert (Hi : forall x l, insert_by cmp x l ≡ₚ x :: l).
  { intros x l'. induction l' as [|y l' IH]; simpl; [done|].
    destruct (cmp x y); [done..|]. rewrite IH. apply Permutation_swap. }
  induction l as [|x l IH]; simpl; [done|]. by rewrite Hi, IH.
Qed.
