(* ===== verification/ExecPolicy.v ===== *)
(** * Execution policy: rules and evaluation
      (execpolicy/src/decision.rs, rule.rs, policy.rs, executable check of
       execpolicycheck.rs)

    Prefix rules keyed by program, the decisions of the rules a command matches,
    and their aggregation.  [multimap::MultiMap] is an interface with laws; a
    finite map of lists implements it. *)

From S2P Require Import Prelude RustStd Order.

(** ** Decisions *)

Inductive Decision : Type := Allow | Prompt | Forbidden.

#[export] Instance Decision_eq_dec : EqDecision Decision.
Proof. solve_decision. Defined.

(** The derived [Ord]: in the order of declaration. *)
Definition decision_rank (d : Decision) : nat :=
  match d with Allow => 0 | Prompt => 1 | Forbidden => 2 end.
Definition decision_max (a b : Decision) : Decision :=
  if decision_rank a <=? decision_rank b then b else a.

(** ** Errors *)

Inductive Error (StarlarkError : Type) : Type :=
  | InvalidDecision (raw : str)
  | InvalidPattern (message : str)
  | InvalidExample (message : str)
  | InvalidRule (message : str)
  | ExampleDidNotMatch (rules examples : list str)
  | ExampleDidMatch (rule example : str)
  | Starlark (e : StarlarkError).
Arguments InvalidDecision {_} _.
Arguments InvalidPattern {_} _.
Arguments InvalidExample {_} _.
Arguments InvalidRule {_} _.
Arguments ExampleDidNotMatch {_} _ _.
Arguments ExampleDidMatch {_} _ _.
Arguments Starlark {_} _.

Definition parse_decision {SE} (raw : str) : outcome (Error SE) Decision :=
  if bool_decide (raw = lit "allow") then Ok Allow
  else if bool_decide (raw = lit "prompt") then Ok Prompt
  else if bool_decide (raw = lit "forbidden") then Ok Forbidden
  else Err (InvalidDecision raw).

(** ** Patterns and rules *)

Inductive PatternToken : Type :=
  | Single (expected : str)
  | Alts (alternatives : list str).

Definition token_matches (p : PatternToken) (token : str) : bool :=
  match p with
  | Single expected => bool_decide (expected = token)
  | Alts alternatives => existsb (fun alt => bool_decide (alt = token)) alternatives
  end.

Definition alternatives_of (p : PatternToken) : list str :=
  match p with Single expected => [expected] | Alts alternatives => alternatives end.

Record PrefixPattern : Type := mk_pattern {
  first : str;
  rest : list PatternToken;
}.

(** [for (pattern_token, cmd_token) in rest.iter().zip(&cmd[1..pattern_length])]. *)
Fixpoint zip_all_match (ps : list PatternToken) (tokens : list str) : bool :=
  match ps, tokens with
  | p :: ps, t :: tokens => token_matches p t && zip_all_match ps tokens
  | _, _ => true
  end.

Definition matches_prefix (p : PrefixPattern) (cmd : list str) : option (list str) :=
  let pattern_length := length (rest p) + 1 in
  if (length cmd <? pattern_length) || negb (bool_decide (head cmd = Some (first p))) then None
  else if negb (zip_all_match (rest p) (take (pattern_length - 1) (drop 1 cmd))) then None
  else Some (take pattern_length cmd).

Inductive RuleMatch : Type :=
  | PrefixRuleMatch (matched_prefix : list str) (decision : Decision) (justification : option str)
  | HeuristicsRuleMatch (command : list str) (decision : Decision).

Definition match_decision (m : RuleMatch) : Decision :=
  match m with
  | PrefixRuleMatch _ decision _ => decision
  | HeuristicsRuleMatch _ decision => decision
  end.

(** [Arc<dyn Rule>]: the only implementation of the trait is [PrefixRule]. *)
Record PrefixRule : Type := mk_rule {
  pattern : PrefixPattern;
  decision : Decision;
  justification : option str;
}.

Definition program (r : PrefixRule) : str := first (pattern r).

Definition rule_matches (r : PrefixRule) (cmd : list str) : option RuleMatch :=
  match matches_prefix (pattern r) cmd with
  | Some matched_prefix => Some (PrefixRuleMatch matched_prefix (decision r) (justification r))
  | None => None
  end.

Section examples.
Context {SE : Type}.
(** [shlex::try_join] and the [Debug] rendering of a rule. *)
Variable try_join : list str -> option str.
Variable debug_rule : PrefixRule -> str.

Definition render_example (example : list str) : str :=
  default (lit "unable to render example") (try_join example).

Definition some_rule_matches (rules : list PrefixRule) (example : list str) : bool :=
  existsb (fun rule => match rule_matches rule example with Some _ => true | None => false end)
    rules.

Definition validate_match_examples (rules : list PrefixRule) (matches : list (list str))
    : outcome (Error SE) () :=
  let unmatched_examples :=
    render_example <$> filter (fun e => some_rule_matches rules e = false) matches in
  match unmatched_examples with
  | [] => Ok ()
  | _ => Err (ExampleDidNotMatch (debug_rule <$> rules) unmatched_examples)
  end.

(** [rules.iter().find(..)]. *)
Fixpoint find_matching (rules : list PrefixRule) (example : list str) : option PrefixRule :=
  match rules with
  | [] => None
  | rule :: rules =>
      match rule_matches rule example with
      | Some _ => Some rule
      | None => find_matching rules example
      end
  end.

Fixpoint validate_not_match_examples (rules : list PrefixRule) (not_matches : list (list str))
    : outcome (Error SE) () :=
  match not_matches with
  | [] => Ok ()
  | example :: not_matches =>
      match find_matching rules example with
      | Some rule => Err (ExampleDidMatch (debug_rule rule) (render_example example))
      | None => validate_not_match_examples rules not_matches
      end
  end.
End examples.

(** ** [multimap::MultiMap<String, V>] *)

Class MultiMap (M : Type -> Type) := {
  mm_new {V} : M V;
  mm_insert {V} : str -> V -> M V -> M V;
  mm_get_vec {V} : M V -> str -> option (list V);
  mm_iter_all {V} : M V -> list (str * list V);
}.

(** Insertion pushes to the vector of its key and leaves the others; iteration
    visits every key once, in some order. *)
Class MultiMapLaws (M : Type -> Type) `{MultiMap M} := {
  get_new {V} k : mm_get_vec (mm_new (V:=V)) k = None;
  get_insert {V} k (v : V) m k' :
    mm_get_vec (mm_insert k v m) k'
    = if decide (k = k') then Some (default [] (mm_get_vec m k) ++ [v]) else mm_get_vec m k';
  elem_of_iter_all {V} (m : M V) k vs : (k, vs) ∈ mm_iter_all m <-> mm_get_vec m k = Some vs;
  iter_all_keys {V} (m : M V) : NoDup ((mm_iter_all m).*1);
}.

Definition map_of_lists (V : Type) : Type := gmap str (list V).

#[export] Instance map_of_lists_multimap : MultiMap map_of_lists := {
  mm_new V := ∅ : gmap str (list V);
  mm_insert V k v m := <[k := default [] (m !! k) ++ [v]]> (m : gmap str (list V));
  mm_get_vec V m k := (m : gmap str (list V)) !! k;
  mm_iter_all V m := map_to_list (m : gmap str (list V));
}.

#[export] Instance map_of_lists_laws : MultiMapLaws map_of_lists.
Proof.
  split; simpl.
  - intros V k. apply lookup_empty.
  - intros V k v m k'. unfold map_of_lists in *. destruct (decide (k = k')) as [->|Hk].
    + apply lookup_insert_eq.
    + by apply lookup_insert_ne.
  - intros V m k vs. apply elem_of_map_to_list.
  - intros V m. apply NoDup_fst_map_to_list.
Qed.

(** ** The policy *)

Record Evaluation : Type := mk_evaluation {
  eval_decision : Decision;
  matched_rules : list RuleMatch;
}.

Definition is_match (e : Evaluation) : bool :=
  existsb (fun m => match m with HeuristicsRuleMatch _ _ => false | _ => true end)
    (matched_rules e).

(** [iter().max()]. *)
Fixpoint max_decision (ds : list Decision) : option Decision :=
  match ds with
  | [] => None
  | d :: ds =>
      match max_decision ds with
      | Some d' => Some (decision_max d d')
      | None => Some d
      end
  end.

Definition from_matches {E} (matched_rules : list RuleMatch) : outcome E Evaluation :=
  match max_decision (match_decision <$> matched_rules) with
  | Some decision => Ok (mk_evaluation decision matched_rules)
  | None => Panic
  end.

Definition render_pattern_token (token : PatternToken) : str :=
  match token with
  | Single value => value
  | Alts alternatives => lit "[" ++ join (lit "|") alternatives ++ lit "]"
  end.

Section policy.
Context {M : Type -> Type} `{MultiMap M}.

Record Policy : Type := mk_policy { rules_by_program : M PrefixRule }.

Definition empty_policy : Policy := mk_policy mm_new.

Definition allowed_prefix (rule : PrefixRule) : option (list str) :=
  if bool_decide (decision rule <> Allow) then None
  else Some (first (pattern rule) :: (render_pattern_token <$> rest (pattern rule))).

Definition get_allowed_prefixes (p : Policy) : list (list str) :=
  dedup (sort strs_compare
    (mm_iter_all (rules_by_program p) ≫= fun '(_, rules) => omap allowed_prefix rules)).

Definition add_prefix_rule {SE} (prefix : list str) (decision : Decision) (p : Policy)
    : outcome (Error SE) Policy :=
  match prefix with
  | [] => Err (InvalidPattern (lit "prefix cannot be empty"))
  | first_token :: rest =>
      let rule := mk_rule (mk_pattern first_token (Single <$> rest)) decision None in
      Ok (mk_policy (mm_insert first_token rule (rules_by_program p)))
  end.

Definition matches_for_command (p : Policy) (cmd : list str)
    (heuristics_fallback : option (list str -> Decision)) : list RuleMatch :=
  let matched_rules :=
    match cmd with
    | first :: _ =>
        match mm_get_vec (rules_by_program p) first with
        | Some rules => omap (fun rule => rule_matches rule cmd) rules
        | None => []
        end
    | [] => []
    end in
  match matched_rules, heuristics_fallback with
  | [], Some heuristics_fallback => [HeuristicsRuleMatch cmd (heuristics_fallback cmd)]
  | _, _ => matched_rules
  end.

Definition check {E} (p : Policy) (cmd : list str) (heuristics_fallback : list str -> Decision)
    : outcome E Evaluation :=
  from_matches (matches_for_command p cmd (Some heuristics_fallback)).

Definition check_multiple {E} (p : Policy) (commands : list (list str))
    (heuristics_fallback : list str -> Decision) : outcome E Evaluation :=
  from_matches (commands ≫= fun command =>
    matches_for_command p command (Some heuristics_fallback)).

(** [format_matches_json] computes this decision before rendering. *)
Definition check_output (matched_rules : list RuleMatch) : list RuleMatch * option Decision :=
  (matched_rules, max_decision (match_decision <$> matched_rules)).
End policy.
Arguments Policy : clear implicits.

(** ** Matching *)

(** A token of a pattern accepts exactly its alternatives. *)
Lemma token_matches_true p t : token_matches p t = true <-> t ∈ alternatives_of p.
Proof.
  destruct p as [e|alts]; simpl.
  - rewrite bool_decide_eq_true. set_solver.
  - rewrite existsb_elem. setoid_rewrite bool_decide_eq_true. naive_solver.
Qed.

Lemma zip_all_match_true ps ts :
  length ts = length ps ->
  zip_all_match ps ts = true <-> Forall2 (fun p t => t ∈ alternatives_of p) ps ts.
Proof.
  revert ts. induction ps as [|p ps IH]; intros [|t ts] Hlen; simpl in *; try done.
  rewrite andb_true_iff, token_matches_true, IH by lia. by rewrite Forall2_cons.
Qed.

(** The pattern as one list of tokens. *)
Definition pattern_tokens (p : PrefixPattern) : list PatternToken := Single (first p) :: rest p.

Lemma matches_prefix_Some p cmd m :
  matches_prefix p cmd = Some m <->
  exists tail, cmd = m ++ tail /\ Forall2 (fun p t => t ∈ alternatives_of p) (pattern_tokens p) m.
Proof.
  unfold matches_prefix, pattern_tokens. rewrite Nat.add_1_r. split.
  - destruct (Nat.ltb_spec (length cmd) (S (length (rest p)))); [done|]. simpl.
    destruct cmd as [|c cmd]; [done|]. simpl in *.
    case_bool_decide as Hc; [|done]. simpl. injection Hc as ->.
    rewrite Nat.sub_0_r, drop_0.
    destruct (zip_all_match _ _) eqn:Hz; [|done]. simpl. intros [= <-].
    exists (drop (length (rest p)) cmd). split; [by rewrite <-app_comm_cons, take_drop|].
    constructor; [set_solver|]. apply zip_all_match_true; [|done]. rewrite length_take. lia.
  - intros (tail & -> & Hall). pose proof (Forall2_length _ _ _ Hall) as Hlen. simpl in Hlen.
    apply Forall2_cons_inv_l in Hall as (t & m' & Ht & Hall & ->). simpl in *.
    apply list_elem_of_singleton in Ht as ->.
    destruct (Nat.ltb_spec (S (length (m' ++ tail))) (S (length (rest p)))) as [Hlt|_].
    { rewrite length_app in Hlt. lia. }
    rewrite bool_decide_eq_true_2 by done. simpl. rewrite Nat.sub_0_r, drop_0.
    replace (length (rest p)) with (length m') by lia. rewrite take_app_length.
    assert (zip_all_match (rest p) m' = true) as -> by (apply zip_all_match_true; [lia|done]).
    done.
Qed.

Lemma rule_matches_Some r cmd m :
  rule_matches r cmd = Some m <->
  exists prefix tail, cmd = prefix ++ tail /\
    Forall2 (fun p t => t ∈ alternatives_of p) (pattern_tokens (pattern r)) prefix /\
    m = PrefixRuleMatch prefix (decision r) (justification r).
Proof.
  unfold rule_matches. destruct (matches_prefix (pattern r) cmd) as [prefix|] eqn:E.
  - split.
    + intros [= <-]. apply matches_prefix_Some in E as (tail & -> & Hall). eauto.
    + intros (prefix' & tail & Hcmd & Hall & ->).
      assert (matches_prefix (pattern r) cmd = Some prefix') as E'
        by (apply matches_prefix_Some; eauto). congruence.
  - split; [done|]. intros (prefix & tail & Hcmd & Hall & _).
    assert (matches_prefix (pattern r) cmd = Some prefix) as E'
      by (apply matches_prefix_Some; eauto). congruence.
Qed.

(** A rule matches only commands that start with its program. *)
Lemma rule_matches_program r cmd m : rule_matches r cmd = Some m -> head cmd = Some (program r).
Proof.
  intros (prefix & tail & -> & Hall & _)%rule_matches_Some.
  apply Forall2_cons_inv_l in Hall as (t & m' & Ht & _ & ->). simpl in *.
  by apply list_elem_of_singleton in Ht as ->.
Qed.

(** ** Aggregation *)

Lemma max_decision_Some ds d :
  max_decision ds = Some d <->
  d ∈ ds /\ Forall (fun d' => decision_rank d' <= decision_rank d) ds.
Proof.
  revert d. induction ds as [|x ds IH]; intros d; cbn [max_decision].
  { split; [done|]. by intros [?%not_elem_of_nil _]. }
  destruct (max_decision ds) as [y|] eqn:E.
  - destruct (proj1 (IH y) eq_refl) as [Hy Hall].
    assert (forall d', d' = decision_max x y <->
      d' ∈ x :: ds /\ Forall (fun z => decision_rank z <= decision_rank d') (x :: ds)) as Hmax.
    { intros d'. unfold decision_max. rewrite Forall_cons.
      rewrite Forall_forall in *. destruct (Nat.leb_spec (decision_rank x) (decision_rank y)).
      - split; [intros ->; set_solver|]. intros [[->|Hd]%elem_of_cons [Hx Hrest]].
        + specialize (Hrest y Hy). destruct x, y; simpl in *; done || lia.
        + pose proof (Hrest y Hy). pose proof (Hall d' Hd). destruct d', y; simpl in *; done || lia.
      - split.
        + intros ->. split; [set_solver|]. split; [done|].
          intros z Hz. specialize (Hall z Hz). lia.
        + intros [[->|Hd]%elem_of_cons [Hx Hrest]]; [done|].
          pose proof (Hall d' Hd). lia. }
    rewrite <-Hmax. naive_solver.
  - destruct ds as [|y ds]; [|by cbn [max_decision] in E; destruct (max_decision ds)].
    rewrite Forall_singleton, list_elem_of_singleton. naive_solver.
Qed.

Lemma max_decision_None ds : max_decision ds = None <-> ds = [].
Proof.
  destruct ds as [|d ds]; [done|]. cbn [max_decision]. split; [|done].
  by destruct (max_decision ds).
Qed.

Lemma max_decision_perm ds ds' : ds ≡ₚ ds' -> max_decision ds = max_decision ds'.
Proof.
  intros Hp. destruct (max_decision ds) as [d|] eqn:E.
  - symmetry. apply max_decision_Some. rewrite <-Hp. by apply max_decision_Some.
  - apply max_decision_None in E as ->. apply Permutation_nil in Hp as ->. done.
Qed.

Lemma decision_le_forbidden d : decision_rank d <= decision_rank Forbidden.
Proof. destruct d; simpl; lia. Qed.

Section check.
Context {M : Type -> Type} `{MultiMapLaws M}.

Lemma matches_fallback_nonempty (p : Policy M) cmd f :
  matches_for_command p cmd (Some f) <> [].
Proof. unfold matches_for_command. by destruct (match cmd with [] => [] | _ => _ end). Qed.

(** The fallback only replaces an empty result. *)
Lemma matches_fallback (p : Policy M) cmd f :
  matches_for_command p cmd (Some f)
  = match matches_for_command p cmd None with
    | [] => [HeuristicsRuleMatch cmd (f cmd)]
    | l => l
    end.
Proof. unfold matches_for_command. by destruct (match cmd with [] => [] | _ => _ end). Qed.

(** Which matches a command has: those of the rules of its program, or the
    heuristic one when there are none. *)
Lemma elem_of_matches (p : Policy M) cmd f m :
  m ∈ matches_for_command p cmd f <->
  (exists rs r, mm_get_vec (rules_by_program p) (default [] (head cmd)) = Some rs /\
     r ∈ rs /\ rule_matches r cmd = Some m) \/
  (exists g, f = Some g /\ m = HeuristicsRuleMatch cmd (g cmd) /\
     matches_for_command p cmd None = []).
Proof.
  assert (Hnone : forall m, m ∈ matches_for_command p cmd None <->
    exists rs r, mm_get_vec (rules_by_program p) (default [] (head cmd)) = Some rs /\
     r ∈ rs /\ rule_matches r cmd = Some m).
  { intros m'. unfold matches_for_command. destruct cmd as [|c cmd].
    - split; [by intros ?%not_elem_of_nil|]. by intros (rs & r & _ & _ & Hm%rule_matches_program).
    - simpl. destruct (mm_get_vec _ c) as [rs|] eqn:E.
      + assert (forall l : list RuleMatch,
          match l with [] => l | _ => l end = l) as Hid by (by intros []).
        rewrite Hid. rewrite list_elem_of_omap. split.
        * intros (r & Hr & Hm). eauto.
        * intros (rs' & r & Hrs & Hr & Hm). simplify_eq. eauto.
      + split; [by intros ?%not_elem_of_nil|]. by intros (rs & r & ? & _). }
  rewrite <-Hnone. destruct f as [g|].
  - rewrite matches_fallback.
    destruct (matches_for_command p cmd None) as [|m0 l].
    + rewrite list_elem_of_singleton. split; [intros ->; right; eauto|].
      intros [?%not_elem_of_nil|(g' & [= <-] & -> & _)]; done.
    + split; [auto|]. by intros [?|(? & _ & _ & ?)].
  - split; [auto|]. by intros [?|(? & ? & _)].
Qed.
End check.

(** ** Properties *)

(** A prefix rule matches a command exactly when the command starts with one
    token per pattern element, each among the element's alternatives, and the match
    reports that prefix with the rule's decision and justification. *)
Theorem prefix_rule_matches_iff r cmd m :
  rule_matches r cmd = Some m <->
  exists prefix tail, cmd = prefix ++ tail /\
    Forall2 (fun p t => t ∈ alternatives_of p) (pattern_tokens (pattern r)) prefix /\
    m = PrefixRuleMatch prefix (decision r) (justification r).
Proof. apply rule_matches_Some. Qed.

Section properties.
Context {M : Type -> Type} `{MultiMapLaws M}.

Lemma from_matches_spec {E} ms :
  ms <> [] -> exists d, from_matches (E:=E) ms = Ok (mk_evaluation d ms) /\
    d ∈ match_decision <$> ms /\
    Forall (fun d' => decision_rank d' <= decision_rank d) (match_decision <$> ms).
Proof.
  intros Hne. unfold from_matches.
  destruct (max_decision (match_decision <$> ms)) as [d|] eqn:E'.
  - exists d. split; [done|]. by apply max_decision_Some.
  - apply max_decision_None, fmap_nil_inv in E'. done.
Qed.

(** Checking a command always yields an evaluation, whose decision is the
    strictest of its matches: it is forbidden as soon as one match forbids, and
    allowed only when every match allows; the heuristics are consulted only when
    no rule matches. *)
Theorem check_strictest {E} (p : Policy M) cmd f :
  exists e, check (E:=E) p cmd f = Ok e /\
    matched_rules e = matches_for_command p cmd (Some f) /\
    (eval_decision e = Forbidden <->
       exists m, m ∈ matched_rules e /\ match_decision m = Forbidden) /\
    (eval_decision e = Allow <->
       forall m, m ∈ matched_rules e -> match_decision m = Allow) /\
    (is_match e = false <->
       matches_for_command p cmd None = [] /\ matched_rules e = [HeuristicsRuleMatch cmd (f cmd)]).
Proof.
  unfold check.
  destruct (from_matches_spec (E:=E) _ (matches_fallback_nonempty p cmd f)) as (d & -> & Hd & Hall).
  eexists. split; [done|]. cbn [matched_rules eval_decision]. split; [done|].
  apply list_elem_of_fmap in Hd as (m0 & -> & Hm0).
  rewrite Forall_fmap, Forall_forall in Hall. unfold compose in Hall. split; [|split].
  - split; [eauto|]. intros (m & Hm & Hf). specialize (Hall m Hm). simpl in Hall.
    rewrite Hf in Hall. destruct (match_decision m0); simpl in Hall; [lia|lia|done].
  - split; [|auto]. intros Ha m Hm. specialize (Hall m Hm). simpl in Hall.
    rewrite Ha in Hall. destruct (match_decision m); simpl in Hall; [done|lia|lia].
  - unfold is_match. rewrite existsb_false_elem. cbn [matched_rules]. split.
    + intros Hno. assert (Hnil : matches_for_command p cmd None = []).
      { destruct (matches_for_command p cmd None) as [|m l] eqn:El; [done|]. exfalso.
        assert (Hm : m ∈ matches_for_command p cmd None) by (rewrite El; set_solver).
        apply elem_of_matches in Hm as [(rs & r & Hrs & Hr & Hm)|(g & [=] & _)].
        assert (m ∈ matches_for_command p cmd (Some f)) as Hin
          by (apply elem_of_matches; left; eauto).
        apply Hno in Hin.
        by apply rule_matches_Some in Hm as (? & ? & _ & _ & ->). }
      split; [done|]. by rewrite matches_fallback, Hnil.
    + intros [_ Hms] m Hm. rewrite Hms in Hm. by apply list_elem_of_singleton in Hm as ->.
Qed.

Lemma max_decision_app ds1 ds2 :
  max_decision (ds1 ++ ds2)
  = match max_decision ds1, max_decision ds2 with
    | Some a, Some b => Some (decision_max a b)
    | Some a, None => Some a
    | None, o => o
    end.
Proof.
  induction ds1 as [|d ds1 IH]; simpl; [done|]. rewrite IH.
  destruct (max_decision ds1) as [a|], (max_decision ds2) as [b|]; try done.
  f_equal. destruct d, a, b; done.
Qed.

(** Checking several commands takes the strictest of their single
    evaluations, and concatenates their matches; on no command at all it panics,
    which is left to the caller to avoid. *)
Theorem check_multiple_strictest {E} (p : Policy M) commands f :
  match max_decision ((fun c => match check (E:=E) p c f with
                                | Ok e => eval_decision e | _ => Forbidden end) <$> commands) with
  | Some d =>
      check_multiple (E:=E) p commands f
      = Ok (mk_evaluation d (commands ≫= fun c => matches_for_command p c (Some f)))
  | None => commands = [] /\ check_multiple (E:=E) p commands f = Panic
  end.
Proof.
  destruct (max_decision _) as [d|] eqn:E'.
  - assert (max_decision (match_decision <$> (commands ≫= fun c => matches_for_command p c (Some f)))
            = Some d) as Hmax.
    { rewrite <-E'. clear E'. induction commands as [|c cs IH]; [done|].
      destruct (from_matches_spec (E:=E) _ (matches_fallback_nonempty p c f))
        as (dc & Hcheck & Hdc).
      rewrite bind_cons, fmap_app, max_decision_app, IH, fmap_cons. cbn [max_decision].
      change (check (E:=E) p c f = Ok (mk_evaluation dc (matches_for_command p c (Some f)))) in Hcheck.
      rewrite Hcheck. apply max_decision_Some in Hdc as ->.
      cbn [eval_decision]. done. }
    unfold check_multiple, from_matches. by rewrite Hmax.
  - apply max_decision_None, fmap_nil_inv in E' as ->. done.
Qed.

(** Adding a prefix rule adds exactly its matches: a command that starts with
    the prefix gains one match, after those it had, and every other command keeps
    its own; a rule cannot relax a stricter one. *)
Theorem add_prefix_rule_matches {SE} prefix d (p p' : Policy M) cmd :
  add_prefix_rule (SE:=SE) prefix d p = Ok p' ->
  matches_for_command p' cmd None
  = matches_for_command p cmd None
    ++ (if bool_decide (prefix `prefix_of` cmd) then [PrefixRuleMatch prefix d None] else []).
Proof.
  unfold add_prefix_rule. destruct prefix as [|tok rest]; [done|]. intros [= <-].
  unfold matches_for_command. cbn [rules_by_program].
  destruct cmd as [|c cmd].
  { rewrite bool_decide_eq_false_2; [done|]. by intros [? [=]]. }
  assert (Hid : forall l : list RuleMatch, match l with [] => l | _ => l end = l)
    by (by intros []).
  rewrite !Hid, get_insert.
  set (rule := mk_rule (mk_pattern tok (Single <$> rest)) d None).
  assert (Hrule : omap (fun r => rule_matches r (c :: cmd)) [rule]
    = if bool_decide (tok :: rest `prefix_of` c :: cmd)
      then [PrefixRuleMatch (tok :: rest) d None] else []).
  { assert (Htokens : forall ts pre, Forall2 (fun p t => t ∈ alternatives_of p) (Single <$> ts) pre
              <-> pre = ts).
    { intros ts pre. rewrite Forall2_fmap_l. split.
      - induction 1 as [|t x ts' pre' Ht _ ->]; [done|]. simpl in Ht. set_solver.
      - intros ->. induction ts as [|t ts IH]; constructor; [simpl; set_solver|done]. }
    simpl. case_bool_decide as Hpre.
    - destruct Hpre as [tail Htail].
      rewrite (proj2 (rule_matches_Some rule (c :: cmd) (PrefixRuleMatch (tok :: rest) d None)));
        [done|]. exists (tok :: rest), tail. split; [done|]. split; [|done].
      by apply (Htokens (tok :: rest)).
    - destruct (rule_matches rule (c :: cmd)) as [m|] eqn:Hm; [|done].
      apply rule_matches_Some in Hm as (pre & tail & Heq & Hall & _).
      apply (Htokens (tok :: rest)) in Hall as ->. exfalso. apply Hpre. by exists tail. }
  destruct (decide (tok = c)) as [<-|Hne].
  - rewrite omap_app, Hrule. by destruct (mm_get_vec _ tok).
  - rewrite bool_decide_eq_false_2; [by rewrite app_nil_r|].
    intros [? [= ? _]]. done.
Qed.

(** The allowed prefixes are listed in strictly increasing order, without
    duplicates, and are exactly the rendered patterns of the rules that allow. *)
Theorem get_allowed_prefixes_spec (p : Policy M) :
  Sorted.StronglySorted (fun a b => strs_compare a b = Lt) (get_allowed_prefixes p) /\
  forall prefix, prefix ∈ get_allowed_prefixes p <->
    exists prog rs r, mm_get_vec (rules_by_program p) prog = Some rs /\ r ∈ rs /\
      decision r = Allow /\
      prefix = first (pattern r) :: (render_pattern_token <$> rest (pattern r)).
Proof.
  unfold get_allowed_prefixes. split; [apply dedup_sorted; [apply _|apply sort_sorted, _]|].
  intros prefix. rewrite elem_of_dedup, sort_perm, list_elem_of_bind. split.
  - intros ([prog rs] & Hin & Hel%elem_of_iter_all).
    apply list_elem_of_omap in Hin as (r & Hr & Hp). unfold allowed_prefix in Hp.
    case_bool_decide as Hd; [done|]. injection Hp as <-. eauto 8.
  - intros (prog & rs & r & Hget & Hr & Hd & ->). exists (prog, rs).
    split; [|by apply elem_of_iter_all]. apply list_elem_of_omap. exists r. split; [done|].
    unfold allowed_prefix. by rewrite bool_decide_eq_false_2 by (rewrite Hd; auto).
Qed.
End properties.

(** ** Concrete instances *)

Definition demo_policy : Policy map_of_lists :=
  mk_policy (mm_insert (lit "git")
    (mk_rule (mk_pattern (lit "git") [Alts [lit "push"; lit "fetch"]]) Prompt (Some (lit "network")))
    (mm_insert (lit "ls") (mk_rule (mk_pattern (lit "ls") []) Allow None) mm_new)).

Lemma add_prefix_rule_matches_witness :
  matches_for_command
    match add_prefix_rule (SE:=()) [lit "git"; lit "push"] Forbidden demo_policy with
    | Ok p => p | _ => demo_policy end [lit "git"; lit "push"; lit "-f"] None
  = matches_for_command demo_policy [lit "git"; lit "push"; lit "-f"] None
    ++ [PrefixRuleMatch [lit "git"; lit "push"] Forbidden None].
Proof.
  apply (add_prefix_rule_matches (SE:=()) [lit "git"; lit "push"] Forbidden demo_policy).
  reflexivity.
Defined.

Lemma check_strictest_witness :
  exists e, check (E:=()) demo_policy [lit "git"; lit "push"; lit "-f"] (fun _ => Allow) = Ok e /\
    eval_decision e <> Allow.
Proof.
  destruct (check_strictest (E:=()) demo_policy [lit "git"; lit "push"; lit "-f"] (fun _ => Allow))
    as (e & He & Hm & _ & Hallow & _).
  exists e. split; [exact He|]. rewrite Hallow. intros Hall.
  assert (Prompt = Allow) as [=].
  refine (Hall (PrefixRuleMatch [lit "git"; lit "push"] Prompt (Some (lit "network"))) _).
  rewrite Hm. vm_compute. left.
Defined.

Lemma get_allowed_prefixes_spec_witness : [lit "ls"] ∈ get_allowed_prefixes demo_policy.
Proof.
  apply (proj2 (get_allowed_prefixes_spec demo_policy)).
  exists (lit "ls"), [mk_rule (mk_pattern (lit "ls") []) Allow None],
    (mk_rule (mk_pattern (lit "ls") []) Allow None).
  split; [reflexivity|]. split; [left|]. split; reflexivity.
Defined.
