(* ===== verification/ExecPolicyParser.v ===== *)
(** * Execution policy: policy files
      (execpolicy/src/parser.rs, execpolicycheck.rs, amend.rs)

    The [prefix_rule] builtin that policy files call, the loading of several files
    into one policy, and the amendment of a policy file by an allow rule.  The
    Starlark interpreter is a parameter: the calls to [prefix_rule] that a module
    makes, in order, and the error that may end it. *)

From S2P Require Import Prelude RustStd Order PatchApply ExecPolicy.

(** ** Starlark values, as the builtin sees them *)

Inductive value : Type :=
  | VStr (s : str)
  | VList (content : list value)
  | VOther (type_name : str).

Definition unpack_str (v : value) : option str :=
  match v with VStr s => Some s | _ => None end.
Definition get_type (v : value) : str :=
  match v with VStr _ => lit "string" | VList _ => lit "list" | VOther t => t end.

(** The arguments of one call. *)
Record prefix_rule_call : Type := mk_call {
  arg_pattern : list value;
  arg_decision : option str;
  arg_match : option (list value);
  arg_not_match : option (list value);
  arg_justification : option str;
}.

Section parser.
Context {SE : Type} {M : Type -> Type} `{MultiMap M}.
(** [shlex::split], [shlex::try_join] and the [Debug] form of a rule. *)
Variable shlex_split : str -> option (list str).
Variable try_join : list str -> option str.
Variable debug_rule : PrefixRule -> str.

#[local] Abbreviation result := (outcome (Error SE)).

(** ** Patterns and examples *)

Definition parse_pattern_token (v : value) : result PatternToken :=
  match v with
  | VStr s => Ok (Single s)
  | VList content =>
      tokens ← collect_results (fun value =>
        ok_or (unpack_str value)
          (InvalidPattern (lit "pattern alternative must be a string (got " ++ get_type value
                           ++ lit ")"))) content;
      match tokens with
      | [] => Err (InvalidPattern (lit "pattern alternatives cannot be empty"))
      | [single] => Ok (Single single)
      | _ => Ok (Alts tokens)
      end
  | VOther t =>
      Err (InvalidPattern (lit "pattern element must be a string or list of strings (got " ++ t
                           ++ lit ")"))
  end.

Definition parse_pattern (pattern : list value) : result (list PatternToken) :=
  tokens ← collect_results parse_pattern_token pattern;
  match tokens with
  | [] => Err (InvalidPattern (lit "pattern cannot be empty"))
  | _ => Ok tokens
  end.

Definition parse_string_example (raw : str) : result (list str) :=
  tokens ← ok_or (shlex_split raw)
    (InvalidExample (lit "example string has invalid shell syntax"));
  match tokens with
  | [] => Err (InvalidExample (lit "example cannot be an empty string"))
  | _ => Ok tokens
  end.

Definition parse_list_example (content : list value) : result (list str) :=
  tokens ← collect_results (fun value =>
    ok_or (unpack_str value)
      (InvalidExample (lit "example tokens must be strings (got " ++ get_type value
                       ++ lit ")"))) content;
  match tokens with
  | [] => Err (InvalidExample (lit "example cannot be an empty list"))
  | _ => Ok tokens
  end.

Definition parse_example (v : value) : result (list str) :=
  match v with
  | VStr raw => parse_string_example raw
  | VList content => parse_list_example content
  | VOther t =>
      Err (InvalidExample (lit "example must be a string or list of strings (got " ++ t
                           ++ lit ")"))
  end.

Definition parse_examples (examples : list value) : result (list (list str)) :=
  collect_results parse_example examples.

(** [examples.map(parse_examples).transpose()?.unwrap_or_default()]. *)
Definition optional_examples (examples : option (list value)) : result (list (list str)) :=
  match examples with Some e => parse_examples e | None => Ok [] end.

(** ** The builder and the builtin *)

Definition add_rule (rule : PrefixRule) (builder : M PrefixRule) : M PrefixRule :=
  mm_insert (program rule) rule builder.

Definition parse_justification (j : option str) : result (option str) :=
  match j with
  | Some raw =>
      if bool_decide (trim raw = []) then
        Err (InvalidRule (lit "justification cannot be empty"))
      else Ok (Some raw)
  | None => Ok None
  end.

(** The rules one call defines, after all its checks. *)
Definition call_rules (call : prefix_rule_call) : result (list PrefixRule) :=
  decision ← (match arg_decision call with
              | Some raw => parse_decision raw
              | None => Ok Allow
              end);
  justification ← parse_justification (arg_justification call);
  pattern_tokens ← parse_pattern (arg_pattern call);
  matches ← optional_examples (arg_match call);
  not_matches ← optional_examples (arg_not_match call);
  match pattern_tokens with
  | [] => Err (InvalidPattern (lit "pattern cannot be empty"))
  | first_token :: rest =>
      let rules := (fun head => mk_rule (mk_pattern head rest) decision justification)
                     <$> alternatives_of first_token in
      _ ← validate_not_match_examples try_join debug_rule rules not_matches;
      _ ← validate_match_examples try_join debug_rule rules matches;
      Ok rules
  end.

Definition prefix_rule (call : prefix_rule_call) : io (M PrefixRule) (Error SE) () :=
  fun builder =>
    match call_rules call with
    | Ok rules => (foldl (fun b rule => add_rule rule b) builder rules, Ok ())
    | Err e => (builder, Err e)
    | Panic => (builder, Panic)
    | Timeout => (builder, Timeout)
    end.

(** ** Modules and files *)

(** Parsing a module, the calls its evaluation makes, the error that ends it if
    any, and how the interpreter wraps an error of the builtin. *)
Context {Ast : Type}.
Variable ast_parse : str -> str -> outcome SE Ast.
Variable module_calls : Ast -> list prefix_rule_call.
Variable module_error : Ast -> option SE.
Variable wrap_error : Error SE -> SE.

Fixpoint run_calls (calls : list prefix_rule_call) : io (M PrefixRule) (Error SE) () :=
  match calls with
  | [] => mret ()
  | call :: calls =>
      _ ← io_map_err (fun e => Starlark (wrap_error e)) (prefix_rule call);
      run_calls calls
  end.

Definition parse (policy_identifier policy_file_contents : str)
    : io (M PrefixRule) (Error SE) () :=
  ast ← io_of (map_err Starlark (ast_parse policy_identifier policy_file_contents));
  _ ← run_calls (module_calls ast);
  io_of (match module_error ast with Some e => Err (Starlark e) | None => Ok () end).

Inductive load_error : Type :=
  | LoadRead (context : str) (e : io_error)
  | LoadParse (context : str) (e : Error SE).

Variable read_policy : str -> outcome io_error str.

Fixpoint load_loop (policy_paths : list str) : io (M PrefixRule) load_error () :=
  match policy_paths with
  | [] => mret ()
  | policy_path :: policy_paths =>
      contents ← io_of (map_err (LoadRead (lit "failed to read policy at " ++ policy_path))
                          (read_policy policy_path));
      _ ← io_map_err (LoadParse (lit "failed to parse policy at " ++ policy_path))
            (parse policy_path contents);
      load_loop policy_paths
  end.

Definition load_policies (policy_paths : list str) : outcome load_error (Policy M) :=
  let (builder, r) := load_loop policy_paths mm_new in
  _ ← r; Ok (mk_policy builder).
End parser.

(** ** Amendments *)

Inductive AmendError (SJ : Type) : Type :=
  | EmptyPrefix
  | MissingParent (path : str)
  | CreatePolicyDir (dir : list component) (source : io_error)
  | SerializePrefix (source : SJ)
  | OpenPolicyFile (path : str) (source : io_error)
  | WritePolicyFile (path : str) (source : io_error)
  | LockPolicyFile (path : str) (source : io_error)
  | SeekPolicyFile (path : str) (source : io_error)
  | ReadPolicyFile (path : str) (source : io_error)
  | PolicyMetadata (path : str) (source : io_error).
Arguments EmptyPrefix {_}.
Arguments MissingParent {_} _.
Arguments CreatePolicyDir {_} _ _.
Arguments SerializePrefix {_} _.
Arguments OpenPolicyFile {_} _ _.
Arguments WritePolicyFile {_} _ _.
Arguments LockPolicyFile {_} _ _.
Arguments SeekPolicyFile {_} _ _.
Arguments ReadPolicyFile {_} _ _.
Arguments PolicyMetadata {_} _ _.

(** A file opened with [create(true).read(true).append(true)], and its lock. *)
Class AppendFile (FS : Type) := {
  af_create_dir : list component -> io FS io_error ();
  af_open : str -> io FS io_error ();
  af_lock : str -> io FS io_error ();
  af_seek_start : str -> io FS io_error ();
  af_read : str -> FS -> outcome io_error str;
  af_write_all : str -> str -> io FS io_error ();
}.

(** Opening creates a missing file and keeps an existing one; writing appends, and
    when it fails may have appended a part. *)
Class AppendFileLaws (FS : Type) `{AppendFile FS} := {
  af_text : FS -> str -> option str;
  af_create_dir_text d fs : af_text (af_create_dir d fs).1 = af_text fs;
  af_open_Ok p fs fs' : af_open p fs = (fs', Ok ()) ->
    af_text fs' p = Some (default [] (af_text fs p));
  af_open_failed p fs : (af_open p fs).2 <> Ok () -> af_text (af_open p fs).1 p = af_text fs p;
  af_lock_text p fs : af_text (af_lock p fs).1 = af_text fs;
  af_seek_text p fs : af_text (af_seek_start p fs).1 = af_text fs;
  af_read_Ok p fs s : af_read p fs = Ok s -> af_text fs p = Some s;
  af_write_Ok p s fs fs' old : af_write_all p s fs = (fs', Ok ()) ->
    af_text fs p = Some old -> af_text fs' p = Some (old ++ s);
  af_write_partial p s fs old : af_text fs p = Some old ->
    exists part, part `prefix_of` s /\ af_text (af_write_all p s fs).1 p = Some (old ++ part);
}.

Section amend.
Context {SJ FS : Type} `{AppendFile FS}.
(** [serde_json::to_string] of a string. *)
Variable json_string : str -> outcome SJ str.

Definition append_locked_line (policy_path line : str) : io FS (AmendError SJ) () :=
  _ ← io_map_err (OpenPolicyFile policy_path) (af_open policy_path);
  _ ← io_map_err (LockPolicyFile policy_path) (af_lock policy_path);
  _ ← io_map_err (SeekPolicyFile policy_path) (af_seek_start policy_path);
  contents ← io_get (fun fs => map_err (ReadPolicyFile policy_path) (af_read policy_path fs));
  if existsb (fun existing => bool_decide (existing = line)) (lines contents) then mret ()
  else
    _ ← (if negb (bool_decide (contents = [])) && negb (ends_with [LF] contents)
         then io_map_err (WritePolicyFile policy_path) (af_write_all policy_path [LF])
         else mret ());
    io_map_err (WritePolicyFile policy_path) (af_write_all policy_path (line ++ [LF])).

Definition allow_rule_text (tokens : list str) : str :=
  lit "prefix_rule(pattern=[" ++ join (lit ", ") tokens ++ lit "], decision=" ++ [34%N]
  ++ lit "allow" ++ [34%N] ++ lit ")".

Definition create_policy_dir (dir : list component) : io FS (AmendError SJ) () := fun fs =>
  match af_create_dir dir fs with
  | (fs, Ok ()) => (fs, Ok ())
  | (fs, Err source) =>
      match kind source with
      | AlreadyExists => (fs, Ok ())
      | _ => (fs, Err (CreatePolicyDir dir source))
      end
  | (fs, Panic) => (fs, Panic)
  | (fs, Timeout) => (fs, Timeout)
  end.

Definition blocking_append_allow_prefix_rule (policy_path : str) (prefix : list str)
    : io FS (AmendError SJ) () :=
  match prefix with
  | [] => io_of (Err EmptyPrefix)
  | _ =>
      tokens ← io_of (map_err SerializePrefix (collect_results json_string prefix));
      match parent policy_path with
      | None => io_of (Err (MissingParent policy_path))
      | Some dir =>
          _ ← create_policy_dir dir;
          append_locked_line policy_path (allow_rule_text tokens)
      end
  end.
End amend.

(** ** The builtin *)

(** Rules and matches in terms of one another. *)
Lemma some_rule_matches_true rules e :
  some_rule_matches rules e = true <-> exists r m, r ∈ rules /\ rule_matches r e = Some m.
Proof.
  unfold some_rule_matches. rewrite existsb_elem. split.
  - intros (r & Hr & Hm). destruct (rule_matches r e) as [m|] eqn:E; [eauto|done].
  - intros (r & m & Hr & Hm). exists r. by rewrite Hm.
Qed.

Section builtin.
Context {SE : Type} {M : Type -> Type} `{MultiMapLaws M}.
Variable shlex_split : str -> option (list str).
Variable try_join : list str -> option str.
Variable debug_rule : PrefixRule -> str.

Lemma validate_match_Ok rules es :
  validate_match_examples (SE:=SE) try_join debug_rule rules es = Ok () ->
  Forall (fun e => some_rule_matches rules e = true) es.
Proof.
  unfold validate_match_examples.
  destruct (_ <$> filter _ es) as [|x l] eqn:E; [|done]. intros _.
  apply fmap_nil_inv in E. apply Forall_forall. intros e He.
  destruct (some_rule_matches rules e) eqn:Hs; [done|]. exfalso.
  assert (e ∈ filter (fun e => some_rule_matches rules e = false) es) as Hin
    by (by apply list_elem_of_filter).
  rewrite E in Hin. by apply not_elem_of_nil in Hin.
Qed.

Lemma find_matching_None rules e :
  find_matching rules e = None -> Forall (fun r => rule_matches r e = None) rules.
Proof.
  induction rules as [|r rules IH]; cbn [find_matching]; [constructor|].
  destruct (rule_matches r e) eqn:E; [done|]. intros. constructor; [done|by apply IH].
Qed.

Lemma validate_not_match_Ok rules es :
  validate_not_match_examples (SE:=SE) try_join debug_rule rules es = Ok () ->
  Forall (fun e => Forall (fun r => rule_matches r e = None) rules) es.
Proof.
  induction es as [|e es IH]; cbn [validate_not_match_examples]; [constructor|].
  destruct (find_matching rules e) eqn:E; [done|]. intros.
  constructor; [by apply find_matching_None|by apply IH].
Qed.

Lemma call_rules_Ok call rules :
  call_rules (SE:=SE) shlex_split try_join debug_rule call = Ok rules ->
  exists d ms nms,
    match arg_decision call with Some raw => parse_decision (SE:=SE) raw | None => Ok Allow end
      = Ok d /\
    optional_examples (SE:=SE) shlex_split (arg_match call) = Ok ms /\
    optional_examples (SE:=SE) shlex_split (arg_not_match call) = Ok nms /\
    Forall (fun r => decision r = d) rules /\
    Forall (fun e => some_rule_matches rules e = true) ms /\
    Forall (fun e => Forall (fun r => rule_matches r e = None) rules) nms.
Proof.
  unfold call_rules. intros (d & Hd & Hr)%bind_Ok.
  apply bind_Ok in Hr as (j & _ & Hr). apply bind_Ok in Hr as (ts & _ & Hr).
  apply bind_Ok in Hr as (ms & Hms & Hr). apply bind_Ok in Hr as (nms & Hnms & Hr).
  destruct ts as [|t ts]; [done|].
  apply bind_Ok in Hr as ([] & Hvn & Hr). apply bind_Ok in Hr as ([] & Hvm & [= <-]).
  exists d, ms, nms. split_and!; try done.
  - apply Forall_fmap, Forall_forall. by intros.
  - by apply validate_match_Ok.
  - by apply validate_not_match_Ok.
Qed.

(** The rules of a program after adding a list of rules. *)
Lemma get_add_rules rules (b : M PrefixRule) k :
  default [] (mm_get_vec (foldl (fun b rule => add_rule rule b) b rules) k)
  = default [] (mm_get_vec b k) ++ filter (fun r => program r = k) rules.
Proof.
  revert b. induction rules as [|r rules IH]; intros b; [by rewrite app_nil_r|].
  cbn [foldl]. rewrite IH. unfold add_rule at 1. rewrite get_insert.
  destruct (decide (program r = k)) as [Hk|Hk].
  - rewrite filter_cons_True by done. subst k. simpl. by rewrite <-app_assoc.
  - by rewrite filter_cons_False.
Qed.

(** Without heuristics, the matches of a command are those of its program's
    rules. *)
Lemma matches_without_fallback (b : M PrefixRule) c cmd :
  matches_for_command (mk_policy b) (c :: cmd) None
  = omap (fun r => rule_matches r (c :: cmd)) (default [] (mm_get_vec b c)).
Proof.
  unfold matches_for_command. cbn [rules_by_program].
  destruct (mm_get_vec b c) as [rs|]; [|done]. simpl. by destruct (omap _ _).
Qed.

Lemma matches_add_rules rules (b : M PrefixRule) cmd :
  matches_for_command (mk_policy (foldl (fun b rule => add_rule rule b) b rules)) cmd None
  = matches_for_command (mk_policy b) cmd None ++ omap (fun r => rule_matches r cmd) rules.
Proof.
  destruct cmd as [|c cmd].
  - assert (omap (fun r => rule_matches r []) rules = []) as ->; [|done].
    induction rules as [|r rules IH]; [done|]. csimpl.
    destruct (rule_matches r []) eqn:E; [|done]. by apply rule_matches_program in E.
  - rewrite !matches_without_fallback, get_add_rules, omap_app. f_equal.
    induction rules as [|r rules IH]; [done|].
    destruct (decide (program r = c)) as [Hc|Hc].
    + rewrite filter_cons_True by done. csimpl. by rewrite IH.
    + rewrite filter_cons_False by done. csimpl. rewrite IH.
      destruct (rule_matches r (c :: cmd)) eqn:E; [|done].
      apply rule_matches_program in E. simpl in E. congruence.
Qed.

(** A [prefix_rule] call that is accepted keeps its word, and one that is
    rejected changes nothing: after success every [match] example is matched in
    the policy with the rule's decision, no [not_match] example gained a match,
    and all earlier matches remain. *)
Theorem prefix_rule_validated call (b : M PrefixRule) :
  match prefix_rule (SE:=SE) shlex_split try_join debug_rule call b with
  | (b', Ok ()) =>
      exists d ms nms,
        match arg_decision call with Some raw => parse_decision (SE:=SE) raw | None => Ok Allow end
          = Ok d /\
        optional_examples (SE:=SE) shlex_split (arg_match call) = Ok ms /\
        optional_examples (SE:=SE) shlex_split (arg_not_match call) = Ok nms /\
        (forall cmd, exists new,
           matches_for_command (mk_policy b') cmd None
           = matches_for_command (mk_policy b) cmd None ++ new /\
           Forall (fun m => match_decision m = d) new /\
           (cmd ∈ ms -> new <> []) /\ (cmd ∈ nms -> new = []))
  | (b', Err _) => b' = b
  | (_, _) => True
  end.
Proof.
  unfold prefix_rule.
  destruct (call_rules shlex_split try_join debug_rule call) as [rules|e| |] eqn:E; try done.
  apply call_rules_Ok in E as (d & ms & nms & Hd & Hms & Hnms & Hdec & Hm & Hnm).
  exists d, ms, nms. split; [done|]. split; [done|]. split; [done|]. intros cmd.
  exists (omap (fun r => rule_matches r cmd) rules).
  split; [apply matches_add_rules|]. rewrite Forall_forall in Hdec. rewrite Forall_forall in Hm. rewrite Forall_forall in Hnm. split; [|split].
  - apply Forall_forall. intros m (r & Hr & Hmr)%list_elem_of_omap.
    apply rule_matches_Some in Hmr as (? & ? & _ & _ & ->). by apply Hdec.
  - intros Hc Hnil. apply Hm, some_rule_matches_true in Hc as (r & m & Hr & Hmr).
    assert (m ∈ omap (fun r => rule_matches r cmd) rules) as Hin
      by (apply list_elem_of_omap; eauto).
    rewrite Hnil in Hin. by apply not_elem_of_nil in Hin.
  - intros Hc. specialize (Hnm cmd Hc). clear -Hnm.
    induction rules as [|r rules IH]; [done|]. apply Forall_cons in Hnm as [Hr Hrs].
    csimpl. by rewrite Hr, IH.
Qed.

(** ** Files *)

Context {Ast : Type}.
Variable ast_parse : str -> str -> outcome SE Ast.
Variable module_calls : Ast -> list prefix_rule_call.
Variable module_error : Ast -> option SE.
Variable wrap_error : Error SE -> SE.
Variable read_policy : str -> outcome io_error str.

(** The matches of every command grow from one builder to the next. *)
Definition grows (b b' : M PrefixRule) : Prop :=
  forall cmd, matches_for_command (mk_policy b) cmd None
              `prefix_of` matches_for_command (mk_policy b') cmd None.

#[local] Instance grows_trans : Transitive grows.
Proof. intros a b c Hab Hbc cmd. etrans; [apply Hab|apply Hbc]. Qed.
#[local] Instance grows_refl : Reflexive grows.
Proof. by intros a cmd. Qed.

Lemma prefix_rule_grows call (b : M PrefixRule) :
  grows b (prefix_rule (SE:=SE) shlex_split try_join debug_rule call b).1.
Proof.
  unfold prefix_rule. destruct (call_rules _ _ _ call) as [rules|e| |]; try reflexivity.
  intros cmd. simpl. rewrite matches_add_rules. by apply prefix_app_r.
Qed.

Lemma run_calls_grows calls (b : M PrefixRule) :
  grows b (run_calls shlex_split try_join debug_rule wrap_error calls b).1.
Proof.
  revert b. induction calls as [|call calls IH]; intros b; [reflexivity|].
  cbn [run_calls]. apply (io_bind_rel grows).
  - rewrite io_map_err_state. apply prefix_rule_grows.
  - intros [] b1 _. apply IH.
Qed.

Lemma parse_grows id contents (b : M PrefixRule) :
  grows b (parse shlex_split try_join debug_rule ast_parse module_calls module_error wrap_error
             id contents b).1.
Proof.
  unfold parse. apply (io_bind_rel grows); [reflexivity|]. intros ast b1 _.
  apply (io_bind_rel grows); [apply run_calls_grows|]. intros [] b2 _. reflexivity.
Qed.

(** Loading is cumulative: the matches a command has after some of the policy
    files are kept, in the same order, whatever the later files contain, so a later
    file can add a stricter rule but never remove one. *)
Theorem load_policies_cumulative paths1 paths2 p1 p2 cmd :
  load_policies shlex_split try_join debug_rule ast_parse module_calls module_error wrap_error
    read_policy paths1 = Ok p1 ->
  load_policies shlex_split try_join debug_rule ast_parse module_calls module_error wrap_error
    read_policy (paths1 ++ paths2) = Ok p2 ->
  matches_for_command p1 cmd None `prefix_of` matches_for_command p2 cmd None /\
  (forall m f e, m ∈ matches_for_command p1 cmd None ->
     check (E:=load_error (SE:=SE)) p2 cmd f = Ok e ->
     decision_rank (match_decision m) <= decision_rank (eval_decision e)).
Proof.
  unfold load_policies. intros H1 H2.
  destruct (load_loop _ _ _ _ _ _ _ _ paths1 mm_new) as [b1 r1] eqn:E1.
  destruct (load_loop _ _ _ _ _ _ _ _ (paths1 ++ paths2) mm_new) as [b2 r2] eqn:E2.
  apply bind_Ok in H1 as ([] & -> & [= <-]). apply bind_Ok in H2 as ([] & -> & [= <-]).
  assert (Hg : grows b1 b2).
  { assert (Happ : forall b, load_loop shlex_split try_join debug_rule ast_parse module_calls
        module_error wrap_error read_policy (paths1 ++ paths2) b
      = (load_loop shlex_split try_join debug_rule ast_parse module_calls
        module_error wrap_error read_policy paths1 ≫= fun _ =>
        load_loop shlex_split try_join debug_rule ast_parse module_calls
        module_error wrap_error read_policy paths2) b).
    { clear. induction paths1 as [|p ps IH]; intros b; [done|]. cbn [app load_loop].
      rewrite io_bind_assoc. apply io_bind_ext. intros c b1.
      rewrite io_bind_assoc. apply io_bind_ext. intros [] b2. apply IH. }
    rewrite Happ in E2. unfold mbind, io_bind in E2. rewrite E1 in E2.
    assert (b2 = (load_loop shlex_split try_join debug_rule ast_parse module_calls
        module_error wrap_error read_policy paths2 b1).1) as -> by (by rewrite E2).
    clear -H0. revert b1. induction paths2 as [|p ps IH]; intros b; [reflexivity|].
    cbn [load_loop]. apply (io_bind_rel grows); [reflexivity|]. intros c b' _.
    apply (io_bind_rel grows); [rewrite io_map_err_state; apply parse_grows|].
    intros [] b'' _. apply IH. }
  split; [apply Hg|]. intros m f e Hm. unfold check.
  destruct (from_matches_spec (E:=load_error (SE:=SE)) _
    (matches_fallback_nonempty (mk_policy b2) cmd f)) as (d & -> & _ & Hall).
  intros [= <-]. cbn [eval_decision]. rewrite Forall_fmap, Forall_forall in Hall.
  apply (Hall m). rewrite matches_fallback.
  destruct (Hg cmd) as [tail Ht]. rewrite Ht.
  destruct (matches_for_command (mk_policy b1) cmd None) eqn:E; [by apply not_elem_of_nil in Hm|].
  simpl. set_solver.
Qed.
End builtin.

(** ** The amendment *)

(** What precedes an appended line: a line feed, when the text does not end in one. *)
Definition separator (old : str) : str :=
  if negb (bool_decide (old = [])) && negb (ends_with [LF] old) then [LF] else [].

Lemma lines_append old line :
  line_ok line ->
  exists kept, lines (old ++ separator old ++ line ++ [LF]) = kept ++ [line].
Proof.
  intros Hline. assert (lines (line ++ [LF]) = [line]) as Hl
    by (by rewrite lines_cons).
  unfold separator. case_bool_decide as Hnil; [subst old; exists []; exact Hl|].
  destruct (ends_with [LF] old) eqn:Hlf; cbn [negb andb].
  - apply ends_with_lf in Hlf as [r ->].
    exists (lines (r ++ [LF])). rewrite app_nil_l, <-app_assoc. cbn [app].
    by rewrite lines_lf, Hl.
  - exists (lines (old ++ [LF])). cbn [app]. by rewrite lines_lf, Hl.
Qed.

Section amendment.
Context {SJ FS : Type} `{AppendFileLaws FS}.

Lemma append_locked_line_Ok path line (fs fs' : FS) :
  append_locked_line (SJ:=SJ) path line fs = (fs', Ok ()) ->
  let old := default [] (af_text fs path) in
  af_text fs' path
  = Some (if bool_decide (line ∈ lines old) then old else old ++ separator old ++ line ++ [LF]).
Proof.
  unfold append_locked_line. intros (f1 & [] & Hopen & Hr)%io_bind_Ok.
  apply io_map_err_Ok, af_open_Ok in Hopen.
  apply io_bind_Ok in Hr as (f2 & [] & Hlock & Hr).
  apply io_bind_Ok in Hr as (f3 & [] & Hseek & Hr).
  apply io_bind_Ok in Hr as (f4 & contents & Hread & Hr).
  apply io_map_err_Ok in Hlock, Hseek.
  pose proof (af_lock_text path f1) as Hl. rewrite Hlock in Hl.
  pose proof (af_seek_text path f2) as Hs. rewrite Hseek in Hs. simpl in Hl, Hs.
  unfold io_get in Hread. injection Hread as <- Hread.
  apply map_err_Ok, af_read_Ok in Hread.
  assert (contents = default [] (af_text fs path)) as -> by congruence.
  set (old := default [] (af_text fs path)) in *. cbv zeta.
  assert (Hin : existsb (fun existing => bool_decide (existing = line)) (lines old)
                = bool_decide (line ∈ lines old)).
  { apply eq_true_iff_eq. rewrite existsb_elem, bool_decide_eq_true.
    setoid_rewrite bool_decide_eq_true. naive_solver. }
  rewrite Hin in Hr. case_bool_decide; [injection Hr as <-; done|].
  apply io_bind_Ok in Hr as (f5 & [] & Hsep & Hw). apply io_map_err_Ok in Hw.
  assert (af_text f5 path = Some (old ++ separator old)) as H5.
  { unfold separator. destruct (negb _ && negb _) eqn:E.
    - apply io_map_err_Ok in Hsep. by apply (af_write_Ok path [LF] f3).
    - injection Hsep as <-. by rewrite app_nil_r. }
  rewrite (af_write_Ok path _ f5 fs' _ Hw H5). by rewrite <-app_assoc.
Qed.

(** Appending a rule line never loses policy text and adds the line at most
    once: when it succeeds, the new text extends the old one, contains the line as
    a line of its own, equals the old text if the line was already there, and a
    second append of the same line changes nothing. *)
Theorem append_locked_line_spec path line (fs fs1 fs2 : FS) :
  line_ok line ->
  append_locked_line (SJ:=SJ) path line fs = (fs1, Ok ()) ->
  append_locked_line (SJ:=SJ) path line fs1 = (fs2, Ok ()) ->
  exists new, af_text fs1 path = Some new /\ af_text fs2 path = Some new /\
    default [] (af_text fs path) `prefix_of` new /\ line ∈ lines new /\
    (line ∈ lines (default [] (af_text fs path)) -> new = default [] (af_text fs path)).
Proof.
  intros Hline H1%append_locked_line_Ok H2%append_locked_line_Ok. cbv zeta in *.
  set (old := default [] (af_text fs path)) in *.
  set (new := if bool_decide (line ∈ lines old) then old
              else old ++ separator old ++ line ++ [LF]) in *.
  rewrite H1 in H2. change (default [] (Some new)) with new in H2.
  assert (Hnew : line ∈ lines new).
  { clear H1 H2. subst new. case_bool_decide; [done|].
    destruct (lines_append old line Hline) as [kept ->]. set_solver. }
  rewrite bool_decide_eq_true_2 in H2 by done.
  exists new. split_and!; [done|done| |done|].
  - clear H1 H2 Hnew. subst new. case_bool_decide; [done|]. by apply prefix_app_r.
  - intros Hin. clear H1 H2 Hnew. subst new. by rewrite bool_decide_eq_true_2.
Qed.
End amendment.

(** ** A file system of texts *)

Definition TextFs : Type := gmap str str.

#[export] Instance TextFs_AppendFile : AppendFile TextFs := {
  af_create_dir d fs := (fs, Ok ());
  af_open p fs := (<[p := default [] (fs !! p)]> fs, Ok ());
  af_lock p fs := (fs, Ok ());
  af_seek_start p fs := (fs, Ok ());
  af_read p fs := match fs !! p with Some s => Ok s | None => Err (mk_io_error NotFound []) end;
  af_write_all p s fs := (<[p := default [] (fs !! p) ++ s]> fs, Ok ());
}.

#[export] Instance TextFs_laws : AppendFileLaws TextFs.
Proof.
  refine {| af_text fs p := (fs : TextFs) !! p |}; unfold TextFs; simpl; try done.
  - intros p fs fs' [= <-]. apply lookup_insert_eq.
  - intros p fs s. case_match eqn:E; [intros [= <-]; exact E|discriminate].
  - intros p s fs fs' old [= <-] Hold. etrans; [apply lookup_insert_eq|].
    f_equal. f_equal. exact (f_equal (default []) Hold).
  - intros p s fs old Hold. exists s. split; [done|]. etrans; [apply lookup_insert_eq|].
    f_equal. f_equal. exact (f_equal (default []) Hold).
Defined.

(** ** Concrete instances *)

Definition demo_rule_line : str := allow_rule_text [[34%N] ++ lit "ls" ++ [34%N]].

Lemma append_locked_line_spec_witness :
  exists new,
    af_text (append_locked_line (SJ:=()) (lit "p") demo_rule_line {[lit "p" := lit "a"]} : TextFs * _).1
      (lit "p") = Some new /\ demo_rule_line ∈ lines new.
Proof.
  set (fs := {[lit "p" := lit "a"]} : TextFs).
  destruct (append_locked_line_spec (SJ:=()) (lit "p") demo_rule_line fs
    (append_locked_line (SJ:=()) (lit "p") demo_rule_line fs).1
    (append_locked_line (SJ:=()) (lit "p") demo_rule_line
       (append_locked_line (SJ:=()) (lit "p") demo_rule_line fs).1).1) as (new & H1 & _ & _ & H2 & _).
  - split; [by apply (bool_decide_unpack (LF ∉ _))|reflexivity].
  - apply pair_snd. vm_compute. reflexivity.
  - apply pair_snd. vm_compute. reflexivity.
  - exists new. split; [exact H1|exact H2].
Defined.

Definition demo_calls : list prefix_rule_call :=
  [mk_call [VStr (lit "ls")] None None None None].

Lemma load_policies_cumulative_witness :
  let load := load_policies (M:=map_of_lists) (SE:=()) (fun _ => None) (fun _ => None) (fun _ => [])
    (fun _ _ => Ok ()) (fun _ => demo_calls) (fun _ => None) (fun _ => ()) (fun _ => Ok []) in
  let empty := mk_policy (mm_new (M:=map_of_lists)) in
  matches_for_command (unwrap_or empty (load [lit "a"])) [lit "ls"] None
    `prefix_of` matches_for_command (unwrap_or empty (load ([lit "a"] ++ [lit "b"]))) [lit "ls"] None.
Proof.
  intros load empty.
  refine (proj1 (load_policies_cumulative (fun _ => None) (fun _ => None) (fun _ => [])
    (fun _ _ => Ok ()) (fun _ => demo_calls) (fun _ => None) (fun _ => ()) (fun _ => Ok [])
    [lit "a"] [lit "b"] _ _ [lit "ls"] _ _)).
  - apply is_ok_unwrap. vm_compute. reflexivity.
  - apply is_ok_unwrap. vm_compute. reflexivity.
Defined.

(** [prefix_rule(pattern=["ls"], match=[["ls", "-l"]], not_match=[["cat"]])]. *)
Definition demo_checked_call : prefix_rule_call :=
  mk_call [VStr (lit "ls")] None (Some [VList [VStr (lit "ls"); VStr (lit "-l")]])
    (Some [VList [VStr (lit "cat")]]) None.

Lemma prefix_rule_validated_witness :
  exists new,
    matches_for_command
      (mk_policy (prefix_rule (M:=map_of_lists) (SE:=()) (fun _ => None) (fun _ => None) (fun _ => [])
                    demo_checked_call mm_new).1) [lit "cat"] None
    = matches_for_command (mk_policy (mm_new (M:=map_of_lists))) [lit "cat"] None ++ new /\ new = [].
Proof.
  pose proof (prefix_rule_validated (SE:=()) (fun _ => None) (fun _ => None) (fun _ => [])
    demo_checked_call (mm_new (M:=map_of_lists))) as H.
  destruct (prefix_rule _ _ _ demo_checked_call _) as [b' r] eqn:E.
  assert (r = Ok ()) as -> by (revert E; intros [= _ <-]; reflexivity).
  destruct H as (d & ms & nms & _ & _ & Hn & Hall).
  injection Hn as <-. destruct (Hall [lit "cat"]) as (new & Hnew & _ & _ & Hnot).
  exists new. split; [exact Hnew|]. apply Hnot. left.
Defined.
