(* ===== verification/ShellParse.v ===== *)
(** * Reading shell commands
      (shell-command/src/shell_detect.rs, bash.rs, powershell.rs)

    Which argument vectors run a script in a shell, and the plain commands of a
    bash script.  The tree-sitter parse of a script is a parameter; its nodes are
    data, and the walks over them are the code's. *)

From Stdlib Require Import Sorted.
From S2P Require Import Prelude RustStd.

(** ** Shells *)

Inductive ShellType : Type := Zsh | Bash | PowerShellType | Sh | CmdType.

Definition shell_of_name (name : str) : option ShellType :=
  if bool_decide (name = lit "zsh") then Some Zsh
  else if bool_decide (name = lit "sh") then Some Sh
  else if bool_decide (name = lit "cmd") then Some CmdType
  else if bool_decide (name = lit "bash") then Some Bash
  else if bool_decide (name = lit "pwsh") then Some PowerShellType
  else if bool_decide (name = lit "powershell") then Some PowerShellType
  else None.

(** The recursion on the file stem, with fuel ([detect_shell_type_returns]). *)
Fixpoint detect_shell_type_fuel (fuel : nat) (shell_path : str) : outcome () (option ShellType) :=
  match fuel with
  | O => Timeout
  | S fuel =>
      match shell_of_name shell_path with
      | Some t => Ok (Some t)
      | None =>
          match file_stem shell_path with
          | Some shell_name =>
              if path_eq shell_name shell_path then Ok None
              else detect_shell_type_fuel fuel shell_name
          | None => Ok None
          end
      end
  end.

Definition detect_shell_type (shell_path : str) : option ShellType :=
  unwrap_or None (detect_shell_type_fuel (S (length shell_path)) shell_path).

(** ** Syntax trees *)

(** A tree-sitter node: its kind, whether it is named, where it starts, its text
    ([None] when it is not UTF-8) and its children. *)
Inductive node : Type :=
  | Node (kind : str) (is_named : bool) (start_byte : nat) (text : option str)
      (children : list node).

Definition kind (n : node) : str := let '(Node k _ _ _ _) := n in k.
Definition is_named (n : node) : bool := let '(Node _ b _ _ _) := n in b.
Definition start_byte (n : node) : nat := let '(Node _ _ p _ _) := n in p.
Definition utf8_text (n : node) : option str := let '(Node _ _ _ t _) := n in t.
Definition children (n : node) : list node := let '(Node _ _ _ _ cs) := n in cs.
Definition named_children (n : node) : list node := filter (fun c => is_named c = true) (children n).

Record tree : Type := mk_tree { root_node : node; has_error : bool }.

Fixpoint node_size (n : node) : nat :=
  let '(Node _ _ _ _ cs) := n in S (sum_list_with node_size cs).

(** All nodes of a subtree, the root first. *)
Fixpoint subnodes (n : node) : list node :=
  let '(Node _ _ _ _ cs) := n in n :: (cs ≫= subnodes).

(** ** Word-only commands *)

Definition ALLOWED_KINDS : list str :=
  lit <$> ["program"; "list"; "pipeline"; "command"; "command_name"; "word"; "string";
           "string_content"; "raw_string"; "number"; "concatenation"]%string.

Definition ALLOWED_PUNCT_TOKENS : list str :=
  (lit <$> ["&&"; "||"; ";"; "|"]%string) ++ [[34%N]] ++ [lit "'"].

(** The tests of the loop body, in their order. *)
Definition node_allowed (n : node) : bool :=
  if is_named n then bool_decide (kind n ∈ ALLOWED_KINDS)
  else if existsb (fun c => bool_decide (c ∈ lit "&;|")) (kind n)
          && negb (bool_decide (kind n ∈ ALLOWED_PUNCT_TOKENS)) then false
  else bool_decide (kind n ∈ ALLOWED_PUNCT_TOKENS) || bool_decide (trim (kind n) = []).

(** The stack is a list with its top first: the children are pushed in order. *)
Fixpoint walk (fuel : nat) (stack command_nodes : list node) : outcome () (option (list node)) :=
  match fuel with
  | O => Timeout
  | S fuel =>
      match stack with
      | [] => Ok (Some command_nodes)
      | n :: stack =>
          if negb (node_allowed n) then Ok None
          else
            let command_nodes :=
              if is_named n && bool_decide (kind n = lit "command")
              then command_nodes ++ [n] else command_nodes in
            walk fuel (reverse (children n) ++ stack) command_nodes
      end
  end.

(** [sort_by_key(start_byte)]: stable. *)
Fixpoint insert_by_start (n : node) (l : list node) : list node :=
  match l with
  | [] => [n]
  | x :: l' => if start_byte n <=? start_byte x then n :: l else x :: insert_by_start n l'
  end.
Definition sort_by_start_byte (l : list node) : list node := foldr insert_by_start [] l.

Definition parse_double_quoted_string (n : node) : option str :=
  if bool_decide (kind n <> lit "string") then None
  else if existsb (fun part => bool_decide (kind part <> lit "string_content")) (named_children n)
  then None
  else raw ← utf8_text n; text ← strip_prefix [34%N] raw; strip_suffix [34%N] text.

Definition parse_raw_string (n : node) : option str :=
  if bool_decide (kind n <> lit "raw_string") then None
  else raw_string ← utf8_text n; s ← strip_prefix (lit "'") raw_string; strip_suffix (lit "'") s.

(** The parts of a concatenation. *)
Definition concat_part (part : node) : option str :=
  if bool_decide (kind part ∈ [lit "word"; lit "number"]) then utf8_text part
  else if bool_decide (kind part = lit "string") then parse_double_quoted_string part
  else if bool_decide (kind part = lit "raw_string") then parse_raw_string part
  else None.

(** The word a child of a command contributes. *)
Definition plain_word (child : node) : option str :=
  if bool_decide (kind child = lit "command_name") then
    word_node ← head (named_children child);
    if bool_decide (kind word_node <> lit "word") then None else utf8_text word_node
  else if bool_decide (kind child ∈ [lit "word"; lit "number"]) then utf8_text child
  else if bool_decide (kind child = lit "string") then parse_double_quoted_string child
  else if bool_decide (kind child = lit "raw_string") then parse_raw_string child
  else if bool_decide (kind child = lit "concatenation") then
    parts ← mapM concat_part (named_children child);
    let concatenated := concat parts in
    if bool_decide (concatenated = []) then None else Some concatenated
  else None.

Definition parse_plain_command_from_node (cmd : node) : option (list str) :=
  if bool_decide (kind cmd <> lit "command") then None
  else mapM plain_word (named_children cmd).

Definition try_parse_word_only_commands_sequence (t : tree) : option (list (list str)) :=
  if has_error t then None
  else
    command_nodes ← unwrap_or None (walk (S (node_size (root_node t))) [root_node t] []);
    mapM parse_plain_command_from_node (sort_by_start_byte command_nodes).

(** ** A single command with here-documents *)

Definition is_literal_word_or_number (n : node) : bool :=
  bool_decide (kind n ∈ [lit "word"; lit "number"]) && bool_decide (named_children n = []).

Definition is_allowed_heredoc_attachment_kind (k : str) : bool :=
  bool_decide (k ∈ lit <$> ["heredoc_body"; "simple_heredoc_body"; "heredoc_redirect";
                            "herestring_redirect"; "file_redirect"; "redirected_statement"]%string).

(** What a child contributes: [Some None] when it is skipped. *)
Definition heredoc_word (child : node) : option (option str) :=
  if bool_decide (kind child = lit "command_name") then
    word_node ← head (named_children child);
    if negb (is_literal_word_or_number word_node) then None
    else Some <$> utf8_text word_node
  else if bool_decide (kind child ∈ [lit "word"; lit "number"]) then
    if negb (is_literal_word_or_number child) then None else Some <$> utf8_text child
  else if bool_decide (kind child ∈ [lit "variable_assignment"; lit "comment"]) then Some None
  else if is_allowed_heredoc_attachment_kind (kind child) then Some None
  else None.

Definition parse_heredoc_command_words (cmd : node) : option (list str) :=
  if bool_decide (kind cmd <> lit "command") then None
  else
    words ← mapM heredoc_word (named_children cmd);
    let words := omap id words in
    if bool_decide (words = []) then None else Some words.

Fixpoint find_single_fuel (fuel : nat) (stack : list node) (single_command : option node)
    : outcome () (option node) :=
  match fuel with
  | O => Timeout
  | S fuel =>
      match stack with
      | [] => Ok single_command
      | n :: stack =>
          if bool_decide (kind n = lit "command") then
            match single_command with
            | Some _ => Ok None
            | None => find_single_fuel fuel (reverse (named_children n) ++ stack) (Some n)
            end
          else find_single_fuel fuel (reverse (named_children n) ++ stack) single_command
      end
  end.

Definition find_single_command_node (root : node) : option node :=
  unwrap_or None (find_single_fuel (S (node_size root)) [root] None).

(** ** Shell invocations *)

Definition extract_bash_command (command : list str) : option (str * str) :=
  match command with
  | [shell; flag; script] =>
      if negb (bool_decide (flag ∈ [lit "-lc"; lit "-c"]))
         || negb (match detect_shell_type shell with
                  | Some (Zsh | Bash | Sh) => true
                  | _ => false
                  end) then None
      else Some (shell, script)
  | _ => None
  end.

Section parsed.
(** [try_parse_shell]. *)
Variable try_parse_shell : str -> option tree.

Definition parse_shell_lc_plain_commands (command : list str) : option (list (list str)) :=
  '(_, script) ← extract_bash_command command;
  t ← try_parse_shell script;
  try_parse_word_only_commands_sequence t.

Definition parse_shell_lc_single_command_prefix (command : list str) : option (list str) :=
  '(_, script) ← extract_bash_command command;
  t ← try_parse_shell script;
  if has_error t then None
  else command_node ← find_single_command_node (root_node t);
       parse_heredoc_command_words command_node.
End parsed.

(** ** PowerShell *)

Definition POWERSHELL_FLAGS : list str :=
  lit <$> ["-nologo"; "-noprofile"; "-command"; "-c"]%string.

Definition UTF8_OUTPUT_PREFIX : str :=
  lit "[Console]::OutputEncoding=[System.Text.Encoding]::UTF8;" ++ [LF].

(** The loop from index 1, on the rest of the command. *)
Fixpoint powershell_script (args : list str) : option str :=
  match args with
  | flag :: ((script :: _) as args') =>
      if negb (bool_decide (to_ascii_lowercase flag ∈ POWERSHELL_FLAGS)) then None
      else if eq_ignore_ascii_case flag (lit "-Command") || eq_ignore_ascii_case flag (lit "-c")
      then Some script
      else powershell_script args'
  | _ => None
  end.

Definition extract_powershell_command (command : list str) : option (str * str) :=
  if length command <? 3 then None
  else match command with
       | shell :: args =>
           match detect_shell_type shell with
           | Some PowerShellType => script ← powershell_script args; Some (shell, script)
           | _ => None
           end
       | [] => None
       end.

Definition prefix_powershell_script_with_utf8 (command : list str) : list str :=
  match extract_powershell_command command with
  | None => command
  | Some (_, script) =>
      let script :=
        if starts_with UTF8_OUTPUT_PREFIX (trim_start script) then script
        else UTF8_OUTPUT_PREFIX ++ script in
      take (length command - 1) command ++ [script]
  end.

(** ** Termination *)

Lemma detect_shell_type_fuel_returns fuel p :
  length p < fuel -> exists r, detect_shell_type_fuel fuel p = Ok r.
Proof.
  revert p. induction fuel as [|fuel IH]; intros p Hlen; [lia|]. cbn [detect_shell_type_fuel].
  destruct (shell_of_name p); [by eexists|].
  destruct (file_stem p) as [s|] eqn:Hs; [|by eexists].
  destruct (path_eq s p) eqn:Heq; [by eexists|].
  apply file_stem_length in Hs as [Hle Hsame]. apply IH.
  destruct (decide (length s = length p)) as [E|]; [|lia].
  rewrite Hsame in Heq by done. unfold path_eq in Heq. by rewrite bool_decide_eq_true_2 in Heq.
Qed.

(** The recursion always finishes: each step is on a strictly shorter name. *)
Lemma detect_shell_type_eq p :
  detect_shell_type p =
  match shell_of_name p with
  | Some t => Some t
  | None =>
      match file_stem p with
      | Some s => if path_eq s p then None else detect_shell_type s
      | None => None
      end
  end.
Proof.
  unfold detect_shell_type at 1. cbn [detect_shell_type_fuel].
  destruct (shell_of_name p); [done|]. destruct (file_stem p) as [s|] eqn:Hs; [|done].
  destruct (path_eq s p) eqn:Heq; [done|].
  apply file_stem_length in Hs as [Hle Hsame].
  assert (length s < length p) as Hlt.
  { destruct (decide (length s = length p)) as [E|]; [|lia].
    rewrite Hsame in Heq by done. unfold path_eq in Heq. by rewrite bool_decide_eq_true_2 in Heq. }
  unfold detect_shell_type.
  assert (Hmono : forall f1 f2 q r, f1 <= f2 -> detect_shell_type_fuel f1 q = Ok r ->
                  detect_shell_type_fuel f2 q = Ok r).
  { clear. induction f1 as [|f1 IH]; intros [|f2] q r Hle; try done; [lia|].
    cbn [detect_shell_type_fuel]. destruct (shell_of_name q); [done|].
    destruct (file_stem q); [|done]. destruct (path_eq _ q); [done|]. apply IH. lia. }
  destruct (detect_shell_type_fuel_returns (S (length s)) s) as [r Hr]; [lia|].
  rewrite Hr. rewrite (Hmono (S (length s)) (length p) s r); [done|lia|done].
Qed.

(** ** The walks *)

Lemma node_ind' (P : node -> Prop) :
  (forall k b p t cs, Forall P cs -> P (Node k b p t cs)) -> forall n, P n.
Proof.
  intros Hnode. fix IH 1. intros [k b p t cs]. apply Hnode.
  induction cs; constructor; [apply IH|done].
Qed.

Lemma subnodes_unfold n : subnodes n = n :: (children n ≫= subnodes).
Proof. by destruct n. Qed.

Lemma node_size_unfold n : node_size n = S (sum_list_with node_size (children n)).
Proof. by destruct n. Qed.

Lemma stack_size_push cs st :
  sum_list_with node_size (reverse cs ++ st)
  = sum_list_with node_size cs + sum_list_with node_size st.
Proof. by rewrite sum_list_with_app, sum_list_with_reverse. Qed.

(** The command nodes of a tree, and the nodes of a stack of trees. *)
Definition is_command_node (n : node) : bool := is_named n && bool_decide (kind n = lit "command").

(** The walk visits every node of every tree of the stack: it collects the command
    nodes, or stops at a node that is not allowed. *)
Lemma walk_spec fuel st acc :
  sum_list_with node_size st < fuel ->
  (Forall (fun n => node_allowed n = true) (st ≫= subnodes) /\
   exists cs, walk fuel st acc = Ok (Some (acc ++ cs)) /\
     cs ≡ₚ filter (fun n => is_command_node n = true) (st ≫= subnodes)) \/
  (Exists (fun n => node_allowed n = false) (st ≫= subnodes) /\ walk fuel st acc = Ok None).
Proof.
  revert st acc. induction fuel as [|fuel IH]; intros st acc Hfuel; [lia|].
  destruct st as [|n st]; cbn [walk].
  { left. split; [constructor|]. exists []. by rewrite app_nil_r. }
  assert (Hperm : (n :: st) ≫= subnodes ≡ₚ n :: ((reverse (children n) ++ st) ≫= subnodes)).
  { rewrite bind_cons, subnodes_unfold, bind_app. simpl. constructor.
    apply Permutation_app_tail. induction (children n) as [|c cs IHc]; [done|].
    rewrite bind_cons, reverse_cons, bind_app, bind_singleton.
    etrans; [apply Permutation_app_comm|]. by apply Permutation_app_tail. }
  destruct (node_allowed n) eqn:Hn; cbn [negb].
  - simpl in Hfuel. rewrite node_size_unfold in Hfuel.
    specialize (IH (reverse (children n) ++ st)
      (if is_named n && bool_decide (kind n = lit "command") then acc ++ [n] else acc)).
    rewrite stack_size_push in IH. destruct IH as [(Hall & cs & Hw & Hcs)|(Hex & Hw)]; [lia| |].
    + left. split; [rewrite Hperm; by constructor|].
      fold (is_command_node n) in Hw |- *.
      destruct (is_command_node n) eqn:Hc.
      * exists (n :: cs). split; [by rewrite Hw, <-app_assoc|].
        rewrite Hperm, filter_cons_True by done. by constructor.
      * exists cs. split; [done|]. rewrite Hperm. by rewrite filter_cons_False by congruence.
    + right. split; [|done]. rewrite Hperm. by constructor.
  - right. split; [|done]. rewrite Hperm. by constructor.
Qed.

(** A subtree without its anonymous nodes. *)
Fixpoint named_subnodes (n : node) : list node :=
  let '(Node _ _ _ _ cs) := n in
  n :: (cs ≫= fun c => if is_named c then named_subnodes c else []).

Lemma named_subnodes_unfold n : named_subnodes n = n :: (named_children n ≫= named_subnodes).
Proof.
  destruct n as [k b p t cs]. cbn [named_subnodes]. f_equal. unfold named_children, children.
  induction cs as [|c cs IH]; [done|]. rewrite bind_cons, IH.
  destruct (is_named c) eqn:E; [by rewrite filter_cons_True|by rewrite filter_cons_False by congruence].
Qed.

Definition only {A} (l : list A) : option A := match l with [x] => Some x | _ => None end.

Lemma named_children_size n : sum_list_with node_size (named_children n) < node_size n.
Proof.
  rewrite node_size_unfold. unfold named_children. induction (children n) as [|c cs IH]; simpl; [lia|].
  destruct (decide (is_named c = true)); [rewrite filter_cons_True by done|rewrite filter_cons_False by done];
    simpl; lia.
Qed.

(** The search for a single command ends within its fuel and finds it when there is
    no other. *)
Lemma find_single_spec fuel st acc :
  sum_list_with node_size st < fuel ->
  exists cs, cs ≡ₚ filter (fun n => kind n = lit "command") (st ≫= named_subnodes) /\
    find_single_fuel fuel st acc = Ok (only (option_list acc ++ cs)).
Proof.
  revert st acc. induction fuel as [|fuel IH]; intros st acc Hfuel; [lia|].
  destruct st as [|n st]; cbn [find_single_fuel].
  { exists []. by destruct acc. }
  assert (Hperm : (n :: st) ≫= named_subnodes
                  ≡ₚ n :: ((reverse (named_children n) ++ st) ≫= named_subnodes)).
  { rewrite bind_cons, named_subnodes_unfold, bind_app. simpl. constructor.
    apply Permutation_app_tail. by rewrite reverse_Permutation. }
  simpl in Hfuel. pose proof (named_children_size n) as Hsz.
  assert (Hpush : sum_list_with node_size (reverse (named_children n) ++ st) < fuel)
    by (rewrite stack_size_push; lia).
  case_bool_decide as Hk.
  - destruct acc as [y|].
    + exists (filter (fun n => kind n = lit "command") ((n :: st) ≫= named_subnodes)).
      split; [done|]. rewrite bind_cons, named_subnodes_unfold. cbn [app].
      by rewrite filter_cons_True by done.
    + destruct (IH _ (Some n) Hpush) as (cs & Hcs & ->). exists (n :: cs). split; [|done].
      rewrite Hperm, filter_cons_True by done. by constructor.
  - destruct (IH _ acc Hpush) as (cs & Hcs & ->). exists cs. split; [|done].
    by rewrite Hperm, filter_cons_False by done.
Qed.

(** The here-document parser reads the one command node among the named nodes. *)
Theorem find_single_command_node_spec root :
  find_single_command_node root
  = only (filter (fun n => kind n = lit "command") (named_subnodes root)).
Proof.
  unfold find_single_command_node.
  destruct (find_single_spec (S (node_size root)) [root] None) as (cs & Hcs & ->); [simpl; lia|].
  rewrite bind_singleton in Hcs. cbn [unwrap_or option_list app].
  destruct (filter _ (named_subnodes root)) as [|a [|b l]].
  - by apply Permutation_nil_r in Hcs as ->.
  - by apply Permutation_singleton_r in Hcs as ->.
  - apply Permutation_length in Hcs. by destruct cs as [|? [|? ?]].
Qed.

Lemma insert_by_start_perm n l : insert_by_start n l ≡ₚ n :: l.
Proof.
  induction l as [|x l IH]; simpl; [done|].
  destruct (_ <=? _); [done|]. by rewrite IH, Permutation_swap.
Qed.

Lemma sort_by_start_byte_perm l : sort_by_start_byte l ≡ₚ l.
Proof. induction l as [|x l IH]; simpl; [done|]. by rewrite insert_by_start_perm, IH. Qed.

Lemma sort_by_start_byte_sorted l :
  StronglySorted (fun a b => start_byte a <= start_byte b) (sort_by_start_byte l).
Proof.
  induction l as [|n l IH]; simpl; [constructor|].
  induction (sort_by_start_byte l) as [|x l' IH']; simpl; [by repeat constructor|].
  apply StronglySorted_inv in IH as [Hs Hall].
  destruct (Nat.leb_spec (start_byte n) (start_byte x)).
  - constructor; [by constructor|]. constructor; [done|].
    eapply Forall_impl; [exact Hall|]. simpl. lia.
  - constructor; [by apply IH'|]. rewrite insert_by_start_perm. constructor; [lia|done].
Qed.

(** A script read as word-only commands contains nothing else: when the parse
    succeeds, every node of the syntax tree is of an allowed kind, and the result
    lists the words of every command node of the tree, in the order of the source;
    when it fails, the tree has an error, a node that is not allowed, or a command
    with a child that is not a plain word. *)
Theorem word_only_commands_spec t :
  match try_parse_word_only_commands_sequence t with
  | Some cmds =>
      has_error t = false /\
      Forall (fun n => node_allowed n = true) (subnodes (root_node t)) /\
      exists ns, ns ≡ₚ filter (fun n => is_command_node n = true) (subnodes (root_node t)) /\
        StronglySorted (fun a b => start_byte a <= start_byte b) ns /\
        Forall2 (fun n words => parse_plain_command_from_node n = Some words) ns cmds
  | None =>
      has_error t = true \/
      Exists (fun n => node_allowed n = false) (subnodes (root_node t)) \/
      exists n, n ∈ subnodes (root_node t) /\ is_command_node n = true /\
        parse_plain_command_from_node n = None
  end.
Proof.
  unfold try_parse_word_only_commands_sequence. destruct (has_error t); [by left|].
  destruct (walk_spec (S (node_size (root_node t))) [root_node t] []) as
    [(Hall & cs & -> & Hcs)|(Hex & ->)]; simpl in *; rewrite ?app_nil_r in *; [lia| |].
  - destruct (mapM parse_plain_command_from_node (sort_by_start_byte cs)) as [cmds|] eqn:Hm.
    + split; [done|]. split; [done|]. exists (sort_by_start_byte cs).
      split; [by rewrite sort_by_start_byte_perm|]. split; [apply sort_by_start_byte_sorted|].
      by apply mapM_Some.
    + right. right. apply mapM_None, Exists_exists in Hm as (n & Hn & Hp).
      exists n. rewrite sort_by_start_byte_perm, Hcs in Hn. apply list_elem_of_filter in Hn as [].
      auto.
  - right. by left.
Qed.

(** ** PowerShell scripts *)

(** The UTF-8 prefix goes to the last argument, which need not be the script: when
    anything follows the script, the script runs without the prefix and the last
    argument is replaced by a prefixed copy of the script. *)
Theorem powershell_prefix_replaces_last shell script mid x :
  detect_shell_type shell = Some PowerShellType ->
  starts_with UTF8_OUTPUT_PREFIX (trim_start script) = false ->
  prefix_powershell_script_with_utf8 ([shell; lit "-Command"; script] ++ mid ++ [x])
  = [shell; lit "-Command"; script] ++ mid ++ [UTF8_OUTPUT_PREFIX ++ script].
Proof.
  intros Hshell Hpre. unfold prefix_powershell_script_with_utf8, extract_powershell_command.
  rewrite (proj2 (Nat.ltb_ge _ _)) by (simpl; lia).
  cbn [app]. rewrite Hshell. cbn [powershell_script].
  change (bool_decide (to_ascii_lowercase (lit "-Command") ∈ POWERSHELL_FLAGS)) with true.
  change (eq_ignore_ascii_case (lit "-Command") (lit "-Command")) with true.
  cbn [negb orb mbind option_bind]. rewrite Hpre.
  change (shell :: lit "-Command" :: script :: mid ++ [x])
    with (([shell; lit "-Command"; script] ++ mid) ++ [x]).
  rewrite length_app. cbn [length]. rewrite Nat.add_sub, take_app_length.
  by rewrite <-app_assoc.
Qed.

Lemma powershell_prefix_replaces_last_witness :
  prefix_powershell_script_with_utf8
    ([lit "pwsh"; lit "-Command"; lit "dir"] ++ [] ++ [lit "docs"])
  = [lit "pwsh"; lit "-Command"; lit "dir"] ++ [] ++ [UTF8_OUTPUT_PREFIX ++ lit "dir"].
Proof. apply powershell_prefix_replaces_last; vm_compute; reflexivity. Defined.
