(* ===== verification/CommandSafety.v ===== *)
(** * Known-safe and dangerous commands
      (shell-command/src/command_safety/is_safe_command.rs,
       is_dangerous_command.rs, windows_safe_commands.rs)

    The allow-list of read-only commands, the deny-list, and the PowerShell
    counterpart.  The bash parser and the run of the PowerShell parser script are
    parameters. *)

From S2P Require Import Prelude RustStd ShellParse.

(** ** Git *)

Definition is_git_global_option_with_value (arg : str) : bool :=
  bool_decide (arg ∈ lit <$> ["-C"; "-c"; "--config-env"; "--exec-path"; "--git-dir"; "--namespace";
                              "--super-prefix"; "--work-tree"]%string).

Definition is_git_global_option_with_inline_value (arg : str) : bool :=
  existsb (fun p => starts_with p arg)
    (lit <$> ["--config-env="; "--exec-path="; "--git-dir="; "--namespace="; "--super-prefix=";
              "--work-tree="]%string)
  || ((starts_with (lit "-C") arg || starts_with (lit "-c") arg) && (2 <? str_len arg)).

(** The loop of [find_git_subcommand]: [skip_next] and the index of the head of
    [args]. *)
Fixpoint git_subcommand_loop (idx : nat) (skip_next : bool) (args subcommands : list str)
    : option (nat * str) :=
  match args with
  | [] => None
  | arg :: args =>
      if skip_next then git_subcommand_loop (S idx) false args subcommands
      else if is_git_global_option_with_inline_value arg
      then git_subcommand_loop (S idx) false args subcommands
      else if is_git_global_option_with_value arg
      then git_subcommand_loop (S idx) true args subcommands
      else if bool_decide (arg = lit "--") || starts_with (lit "-") arg
      then git_subcommand_loop (S idx) false args subcommands
      else if bool_decide (arg ∈ subcommands) then Some (idx, arg)
      else None
  end.

Definition find_git_subcommand (command subcommands : list str) : option (nat * str) :=
  match command with
  | [] => None
  | cmd0 :: args =>
      if negb (ends_with (lit "git") cmd0) then None
      else git_subcommand_loop 1 false args subcommands
  end.

Definition git_branch_flag_is_read_only (arg : str) : bool :=
  bool_decide (arg ∈ lit <$> ["--list"; "-l"; "--show-current"; "-a"; "--all"; "-r"; "--remotes";
                              "-v"; "-vv"; "--verbose"]%string)
  || starts_with (lit "--format=") arg.

(** [saw_read_only_flag] is set by the first argument of a non-empty list. *)
Definition git_branch_is_read_only (branch_args : list str) : bool :=
  match branch_args with
  | [] => true
  | _ => forallb git_branch_flag_is_read_only branch_args
  end.

Definition git_has_config_override_global_option (command : list str) : bool :=
  existsb (fun arg =>
    bool_decide (arg ∈ [lit "-c"; lit "--config-env"])
    || (starts_with (lit "-c") arg && (2 <? str_len arg))
    || starts_with (lit "--config-env=") arg) command.

Definition UNSAFE_GIT_FLAGS : list str :=
  lit <$> ["--output"; "--ext-diff"; "--textconv"; "--exec"; "--paginate"]%string.

Definition git_subcommand_args_are_read_only (args : list str) : bool :=
  negb (existsb (fun arg =>
    bool_decide (arg ∈ UNSAFE_GIT_FLAGS)
    || starts_with (lit "--output=") arg || starts_with (lit "--exec=") arg) args).

(** ** Sed *)

Definition all_digits (s : str) : bool := forallb is_ascii_digit s.

Definition is_valid_sed_n_arg (arg : option str) : bool :=
  match arg with
  | None => false
  | Some s =>
      match strip_suffix (lit "p") s with
      | None => false
      | Some core =>
          match split_on (ch ",") core with
          | [num] => negb (bool_decide (num = [])) && all_digits num
          | [a; b] =>
              negb (bool_decide (a = [])) && negb (bool_decide (b = []))
              && all_digits a && all_digits b
          | _ => false
          end
      end
  end.

(** ** The allow-list *)

Definition always_safe : list str :=
  lit <$> ["cat"; "cd"; "cut"; "echo"; "expr"; "false"; "grep"; "head"; "id"; "ls"; "nl"; "paste";
           "pwd"; "rev"; "seq"; "stat"; "tail"; "tr"; "true"; "uname"; "uniq"; "wc"; "which";
           "whoami"]%string.

Definition UNSAFE_FIND_OPTIONS : list str :=
  lit <$> ["-exec"; "-execdir"; "-ok"; "-okdir"; "-delete"; "-fls"; "-fprint"; "-fprint0";
           "-fprintf"]%string.

Definition base64_arg_is_unsafe (arg : str) : bool :=
  bool_decide (arg ∈ [lit "-o"; lit "--output"]) || starts_with (lit "--output=") arg
  || (starts_with (lit "-o") arg && negb (bool_decide (arg = lit "-o"))).

Definition rg_arg_is_unsafe (arg : str) : bool :=
  bool_decide (arg ∈ [lit "--search-zip"; lit "-z"])
  || existsb (fun opt => bool_decide (arg = opt) || starts_with (opt ++ lit "=") arg)
       [lit "--pre"; lit "--hostname-bin"].

Definition git_command_is_safe (command : list str) : bool :=
  if git_has_config_override_global_option command then false
  else
    match find_git_subcommand command
            (lit <$> ["status"; "log"; "diff"; "show"; "branch"]%string) with
    | None => false
    | Some (subcommand_idx, subcommand) =>
        let subcommand_args := drop (subcommand_idx + 1) command in
        if bool_decide (subcommand ∈ lit <$> ["status"; "log"; "diff"; "show"]%string)
        then git_subcommand_args_are_read_only subcommand_args
        else if bool_decide (subcommand = lit "branch")
        then git_subcommand_args_are_read_only subcommand_args
             && git_branch_is_read_only subcommand_args
        else false
    end.

(** [linux] is [cfg!(target_os = "linux")]. *)
Definition is_safe_to_call_with_exec (linux : bool) (command : list str) : bool :=
  match command with
  | [] => false
  | cmd0 :: args =>
      match file_name cmd0 with
      | None => false
      | Some cmd =>
          if linux && bool_decide (cmd ∈ [lit "numfmt"; lit "tac"]) then true
          else if bool_decide (cmd ∈ always_safe) then true
          else if bool_decide (cmd = lit "base64") then negb (existsb base64_arg_is_unsafe args)
          else if bool_decide (cmd = lit "find")
          then negb (existsb (fun arg => bool_decide (arg ∈ UNSAFE_FIND_OPTIONS)) command)
          else if bool_decide (cmd = lit "rg") then negb (existsb rg_arg_is_unsafe command)
          else if bool_decide (cmd = lit "git") then git_command_is_safe command
          else if bool_decide (cmd = lit "sed")
          then (length command <=? 4) && bool_decide (command !! 1 = Some (lit "-n"))
               && is_valid_sed_n_arg (command !! 2)
          else false
      end
  end.

(** ** PowerShell *)

(** What running the parser script prints: its status and commands, or nothing
    readable. *)
Record PowershellParserOutput : Type := mk_ps_output {
  status : str;
  ps_commands : option (list (list str));
}.

Inductive PowershellParseOutcome : Type :=
  | Commands (commands : list (list str))
  | Unsupported
  | Failed.

Definition into_outcome (o : PowershellParserOutput) : PowershellParseOutcome :=
  if bool_decide (status o = lit "ok") then
    match ps_commands o with
    | Some commands =>
        if negb (bool_decide (commands = []))
           && forallb (fun cmd => negb (bool_decide (cmd = []))
                         && forallb (fun word => negb (bool_decide (word = []))) cmd) commands
        then Commands commands else Unsupported
    | None => Unsupported
    end
  else if bool_decide (status o = lit "unsupported") then Unsupported
  else Failed.

Definition is_powershell_executable (exe : str) : bool :=
  bool_decide (to_ascii_lowercase (default exe (file_name exe))
               ∈ lit <$> ["powershell"; "powershell.exe"; "pwsh"; "pwsh.exe"]%string).

Definition quote_argument (arg : str) : str :=
  if bool_decide (arg = []) then lit "''"
  else if forallb (fun c => negb (is_whitespace c)) arg then arg
  else lit "'" ++ (arg ≫= fun c => if bool_decide (c = ch "'") then lit "''" else [c]) ++ lit "'".

Definition join_arguments_as_script (args : list str) : str :=
  match args with
  | [] => []
  | first :: rest => join (lit " ") (first :: (quote_argument <$> rest))
  end.

(** [trim_matches(|c| c == '(' || c == ')').trim_start_matches('-')
    .to_ascii_lowercase()]. *)
Definition bare_word (w : str) : str :=
  let paren := fun c => bool_decide (c ∈ lit "()") in
  to_ascii_lowercase
    (drop_while (fun c => bool_decide (c = ch "-")) (drop_while paren (drop_while_end paren w))).

Definition side_effecting_cmdlets : list str :=
  lit <$> ["set-content"; "add-content"; "out-file"; "new-item"; "remove-item"; "move-item";
           "copy-item"; "rename-item"; "start-process"; "stop-process"]%string.

Definition read_only_cmdlets : list str :=
  lit <$> ["echo"; "write-output"; "write-host"; "dir"; "ls"; "get-childitem"; "gci"; "cat"; "type";
           "gc"; "get-content"; "select-string"; "sls"; "findstr"; "measure-object"; "measure";
           "get-location"; "gl"; "pwd"; "test-path"; "tp"; "resolve-path"; "rvpa";
           "select-object"; "select"; "get-item"]%string.

Definition is_safe_ripgrep (words : list str) : bool :=
  negb (existsb (fun arg =>
    let arg_lc := to_ascii_lowercase arg in
    bool_decide (arg_lc ∈ [lit "--search-zip"; lit "-z"])
    || existsb (fun opt => bool_decide (arg_lc = opt) || starts_with (opt ++ lit "=") arg_lc)
         [lit "--pre"; lit "--hostname-bin"]) (drop 1 words)).

(** The [while let Some(arg) = iter.next()] loop. *)
Fixpoint safe_git_loop (args : list str) : bool :=
  match args with
  | [] => false
  | arg :: args =>
      let arg_lc := to_ascii_lowercase arg in
      if starts_with (lit "-") arg then
        if eq_ignore_ascii_case arg (lit "-c") || eq_ignore_ascii_case arg (lit "--config") then
          match args with [] => false | _ :: args => safe_git_loop args end
        else if existsb (fun p => starts_with p arg_lc)
                  (lit <$> ["-c="; "--config="; "--git-dir="; "--work-tree="]%string)
        then safe_git_loop args
        else if eq_ignore_ascii_case arg (lit "--git-dir")
                || eq_ignore_ascii_case arg (lit "--work-tree") then
          match args with [] => false | _ :: args => safe_git_loop args end
        else safe_git_loop args
      else bool_decide (arg_lc ∈ lit <$> ["status"; "log"; "show"; "diff"; "cat-file"]%string)
  end.
Definition is_safe_git_command (words : list str) : bool := safe_git_loop (drop 1 words).

Definition is_safe_powershell_command (words : list str) : bool :=
  match words with
  | [] => false
  | w0 :: _ =>
      if existsb (fun w => bool_decide (bare_word w ∈ side_effecting_cmdlets)) words then false
      else
        let command := bare_word w0 in
        if bool_decide (command ∈ read_only_cmdlets) then true
        else if bool_decide (command = lit "git") then is_safe_git_command words
        else if bool_decide (command = lit "rg") then is_safe_ripgrep words
        else false
  end.

Section powershell.
(** Running [executable] on the parser script with the encoded payload: what its
    output deserialises to when it exits with success. *)
Variable run_powershell_parser : str -> str -> option PowershellParserOutput.

Definition parse_with_powershell_ast (executable script : str) : PowershellParseOutcome :=
  match run_powershell_parser executable script with
  | Some result => into_outcome result
  | None => Failed
  end.

Definition parse_powershell_script (executable script : str) : option (list (list str)) :=
  match parse_with_powershell_ast executable script with
  | Commands commands => Some commands
  | _ => None
  end.

(** The [while idx < args.len()] loop, on the arguments from [idx] on. *)
Fixpoint parse_powershell_invocation (executable : str) (args : list str)
    : option (list (list str)) :=
  match args with
  | [] => None
  | arg :: rest =>
      let lower := to_ascii_lowercase arg in
      if bool_decide (lower ∈ lit <$> ["-command"; "/command"; "-c"]%string) then
        match rest with
        | [script] => parse_powershell_script executable script
        | _ => None
        end
      else if starts_with (lit "-command:") lower || starts_with (lit "/command:") lower then
        match rest with
        | [] =>
            match drop_while (fun c => negb (bool_decide (c = ch ":"))) arg with
            | _ :: script => parse_powershell_script executable script
            | [] => None
            end
        | _ => None
        end
      else if bool_decide (lower ∈ lit <$> ["-nologo"; "-noprofile"; "-noninteractive"; "-mta";
                                            "-sta"]%string)
      then parse_powershell_invocation executable rest
      else if bool_decide (lower ∈ lit <$> ["-encodedcommand"; "-ec"; "-file"; "/file";
                                            "-windowstyle"; "-executionpolicy";
                                            "-workingdirectory"]%string)
      then None
      else if starts_with (lit "-") lower then None
      else parse_powershell_script executable (join_arguments_as_script args)
  end.

Definition try_parse_powershell_command_sequence (command : list str)
    : option (list (list str)) :=
  match command with
  | [] => None
  | exe :: rest =>
      if is_powershell_executable exe then parse_powershell_invocation exe rest else None
  end.

Definition is_safe_command_windows (command : list str) : bool :=
  match try_parse_powershell_command_sequence command with
  | Some commands => forallb is_safe_powershell_command commands
  | None => false
  end.

(** ** The two tests *)

Variable linux : bool.
Variable try_parse_shell : str -> option tree.

Definition zsh_to_bash (s : str) : str :=
  if bool_decide (s = lit "zsh") then lit "bash" else s.

Definition is_known_safe_command (command : list str) : bool :=
  let command := zsh_to_bash <$> command in
  is_safe_command_windows command
  || is_safe_to_call_with_exec linux command
  || match parse_shell_lc_plain_commands try_parse_shell command with
     | Some all_commands =>
         negb (bool_decide (all_commands = []))
         && forallb (is_safe_to_call_with_exec linux) all_commands
     | None => false
     end.

Fixpoint is_dangerous_to_call_with_exec (command : list str) : bool :=
  match command with
  | [] => false
  | cmd0 :: rest =>
      if bool_decide (cmd0 = lit "rm") then
        match rest with
        | arg :: _ => bool_decide (arg ∈ [lit "-f"; lit "-rf"])
        | [] => false
        end
      else if bool_decide (cmd0 = lit "sudo") then is_dangerous_to_call_with_exec rest
      else false
  end.

(** Off Windows. *)
Definition command_might_be_dangerous (command : list str) : bool :=
  is_dangerous_to_call_with_exec command
  || match parse_shell_lc_plain_commands try_parse_shell command with
     | Some all_commands => existsb is_dangerous_to_call_with_exec all_commands
     | None => false
     end.
End powershell.

(** ** Sed arguments *)

(** [^(\d+,)?\d+p$]. *)
Definition number (s : str) : Prop := s <> [] /\ Forall (fun c => is_ascii_digit c = true) s.

Lemma number_iff s : negb (bool_decide (s = [])) && all_digits s = true <-> number s.
Proof.
  unfold number, all_digits. rewrite andb_true_iff, negb_true_iff, bool_decide_eq_false.
  by rewrite forallb_elem, Forall_forall.
Qed.

Lemma number_no_comma s : number s -> ch "," ∉ s.
Proof. intros [_ Hs] Hin. rewrite Forall_forall in Hs. by apply Hs in Hin. Qed.

Lemma sed_n_arg_iff s :
  is_valid_sed_n_arg (Some s) = true <->
  exists b, number b /\ (s = b ++ lit "p" \/ exists a, number a /\ s = a ++ lit "," ++ b ++ lit "p").
Proof.
  unfold is_valid_sed_n_arg. destruct (strip_suffix (lit "p") s) as [core|] eqn:Hs.
  - apply strip_suffix_Some in Hs as ->. split.
    + pose proof (join_split (ch ",") core) as Hj.
      destruct (split_on (ch ",") core) as [|a [|b [|]]]; try done; simpl in Hj; subst core.
      * intros Ha%number_iff. exists a. auto.
      * intros H. exists b.
        assert (number a /\ number b) as [Ha Hb].
        { rewrite <-!number_iff. to_prop. rewrite !andb_true_iff, !negb_true_iff.
          rewrite !bool_decide_eq_false. auto. }
        split; [done|]. right. exists a. by rewrite <-!app_assoc.
    + intros (b & Hb & [Heq|(a & Ha & Heq)]).
      * apply app_inv_tail in Heq as ->.
        rewrite split_on_no by (by apply number_no_comma). by apply number_iff.
      * rewrite !(assoc_L (++)) in Heq. apply app_inv_tail in Heq as ->.
        rewrite <-(assoc_L (++)). change (lit "," ++ b) with (ch "," :: b).
        rewrite split_on_app by (by apply number_no_comma).
        rewrite split_on_no by (by apply number_no_comma).
        apply number_iff in Ha, Hb. to_prop. by rewrite !andb_true_iff, !negb_true_iff, !bool_decide_eq_false.
  - split; [done|]. intros (b & _ & [->|(a & _ & ->)]); exfalso.
    + by rewrite (proj2 (strip_suffix_Some _ _ b)) in Hs.
    + rewrite !(assoc_L (++)) in Hs. by rewrite (proj2 (strip_suffix_Some _ _ _) eq_refl) in Hs.
Qed.

(** The sed argument that makes [sed -n] safe is exactly a line number or a range
    of two line numbers followed by "p": no other sed command gets through. *)
Theorem is_valid_sed_n_arg_iff s :
  is_valid_sed_n_arg (Some s) = true <->
  exists b, number b /\ (s = b ++ lit "p" \/ exists a, number a /\ s = a ++ lit "," ++ b ++ lit "p").
Proof. exact (sed_n_arg_iff s). Qed.

(** The file operand of a safe [sed -n N p] is not looked at: any fourth argument
    passes, also one that sed reads as an option with another script, such as
    [-ewFILE], which truncates FILE. *)
Theorem sed_operand_unchecked linux n arg :
  number n ->
  is_safe_to_call_with_exec linux [lit "sed"; lit "-n"; n ++ lit "p"; arg] = true.
Proof.
  intros Hn. unfold is_safe_to_call_with_exec.
  change (file_name (lit "sed")) with (Some (lit "sed")). cbv iota.
  assert (is_valid_sed_n_arg (Some (n ++ lit "p")) = true) as Hv
    by (apply sed_n_arg_iff; eauto).
  change ([lit "sed"; lit "-n"; n ++ lit "p"; arg] !! 2) with (Some (n ++ lit "p")). rewrite Hv.
  by destruct linux.
Qed.

(** ** Git subcommands *)

(** Tokens skipped before the subcommand: options, and the values of those that
    take one. *)
Inductive git_options : list str -> Prop :=
  | options_nil : git_options []
  | options_inline o os :
      is_git_global_option_with_inline_value o = true -> git_options os -> git_options (o :: os)
  | options_value o v os :
      is_git_global_option_with_inline_value o = false ->
      is_git_global_option_with_value o = true -> git_options os -> git_options (o :: v :: os)
  | options_flag o os :
      is_git_global_option_with_inline_value o = false ->
      is_git_global_option_with_value o = false -> starts_with (lit "-") o = true ->
      git_options os -> git_options (o :: os).

Lemma dash_dash_starts arg :
  bool_decide (arg = lit "--") || starts_with (lit "-") arg = starts_with (lit "-") arg.
Proof. case_bool_decide; [by subst|done]. Qed.

(** A token that is neither an option nor, at its place, the value of one. *)
Definition is_subcommand (s : str) : Prop :=
  is_git_global_option_with_inline_value s = false /\
  is_git_global_option_with_value s = false /\ starts_with (lit "-") s = false.

Lemma git_subcommand_loop_finds os rest subs idx s :
  git_options os -> is_subcommand s -> s ∈ subs ->
  git_subcommand_loop idx false (os ++ s :: rest) subs = Some (idx + length os, s).
Proof.
  intros Hos (Hi & Hv & Hd) Hs. revert idx.
  induction Hos as [|o os Ho _ IH|o v os Ho1 Ho2 _ IH|o os Ho1 Ho2 Ho3 _ IH]; intros idx;
    cbn [git_subcommand_loop app length]; rewrite dash_dash_starts.
  - rewrite Hi, Hv, Hd, bool_decide_eq_true_2 by done. by rewrite Nat.add_0_r.
  - rewrite Ho, IH. f_equal. f_equal. lia.
  - rewrite Ho1, Ho2, IH. f_equal. f_equal. lia.
  - rewrite Ho1, Ho2, Ho3, IH. f_equal. f_equal. lia.
Qed.

Lemma git_subcommand_loop_found n args subs idx i s :
  length args < n -> git_subcommand_loop idx false args subs = Some (i, s) ->
  exists os rest, args = os ++ s :: rest /\ i = idx + length os /\ git_options os /\
    is_subcommand s /\ s ∈ subs.
Proof.
  revert args idx. induction n as [|n IH]; intros args idx Hlen; [lia|].
  destruct args as [|arg args]; cbn [git_subcommand_loop]; [done|].
  simpl in Hlen. rewrite dash_dash_starts.
  destruct (is_git_global_option_with_inline_value arg) eqn:Hi.
  { intros (os & rest & -> & -> & Hos & Hs)%IH; [|lia]. exists (arg :: os), rest. simpl.
    split; [done|]. split; [lia|]. split; [by apply options_inline|done]. }
  destruct (is_git_global_option_with_value arg) eqn:Hv.
  { destruct args as [|v args]; cbn [git_subcommand_loop]; [done|]. simpl in Hlen.
    intros (os & rest & -> & -> & Hos & Hs)%IH; [|lia]. exists (arg :: v :: os), rest. simpl.
    split; [done|]. split; [lia|]. split; [by apply options_value|done]. }
  destruct (starts_with (lit "-") arg) eqn:Hd.
  { intros (os & rest & -> & -> & Hos & Hs)%IH; [|lia]. exists (arg :: os), rest. simpl.
    split; [done|]. split; [lia|]. split; [by apply options_flag|done]. }
  case_bool_decide; [|done]. intros [= <- <-]. exists [], args. simpl.
  split; [done|]. split; [lia|]. split; [constructor|done].
Qed.

(** The git subcommand is the first argument that is neither a global option nor
    the value of one: an answer gives its index, everything before it is options,
    and later arguments are never taken for it. *)
Theorem find_git_subcommand_spec cmd0 args subs i s :
  find_git_subcommand (cmd0 :: args) subs = Some (i, s) <->
  ends_with (lit "git") cmd0 = true /\
  exists os rest, args = os ++ s :: rest /\ i = S (length os) /\ git_options os /\
    is_subcommand s /\ s ∈ subs.
Proof.
  unfold find_git_subcommand. destruct (ends_with (lit "git") cmd0); cbn [negb].
  - split.
    + intros H%(git_subcommand_loop_found (S (length args))); [done|lia].
    + intros [_ (os & rest & -> & -> & Hos & Hs & Hin)]. by apply git_subcommand_loop_finds.
  - split; [done|]. by intros [? _].
Qed.

(** ** Safe and dangerous *)

Lemma file_name_plain n : SLASH ∉ n -> valid_name n -> file_name n = Some n.
Proof.
  intros Hs Hn. unfold file_name, components.
  assert (is_absolute n = false) as ->.
  { destruct n as [|c n]; [done|]. simpl. apply bool_decide_eq_false_2. intros ->. set_solver. }
  rewrite split_on_no by done. rewrite bool_decide_eq_false_2 by apply Hn. csimpl.
  by rewrite piece_component_name.
Qed.

Lemma safe_exec_not_dangerous linux cmd :
  is_safe_to_call_with_exec linux cmd = true -> is_dangerous_to_call_with_exec cmd = false.
Proof.
  destruct cmd as [|c args]; [done|]. intros Hsafe. cbn [is_dangerous_to_call_with_exec].
  case_bool_decide as Hrm; [subst c; by destruct linux|].
  case_bool_decide as Hsudo; [subst c; by destruct linux|]. done.
Qed.

(** The names of the allow-list: none is a shell. *)
Definition safe_names : list str :=
  [lit "numfmt"; lit "tac"] ++ always_safe
  ++ (lit <$> ["base64"; "find"; "rg"; "git"; "sed"]%string).

Lemma safe_exec_name linux c args :
  is_safe_to_call_with_exec linux (c :: args) = true ->
  exists n, file_name c = Some n /\ n ∈ safe_names.
Proof.
  cbn [is_safe_to_call_with_exec]. destruct (file_name c) as [n|]; [|done].
  intros H. exists n. split; [done|]. unfold safe_names.
  rewrite !elem_of_app. destruct (linux && bool_decide (n ∈ [lit "numfmt"; lit "tac"])) eqn:E.
  { apply andb_true_iff in E as [_ E%bool_decide_eq_true_1]. by left. }
  case_bool_decide; [by right; left|]. right. right.
  repeat (case_bool_decide; [subst n; by apply (bool_decide_unpack (_ ∈ _))|]). done.
Qed.

Lemma safe_names_no_shell :
  forallb (fun n => bool_decide (file_name n = Some n) && bool_decide (file_stem n = Some n)
     && match detect_shell_type n with None => true | _ => false end) safe_names = true.
Proof. vm_compute. reflexivity. Qed.

Lemma file_stem_of_name p q n : file_name p = Some n -> file_name q = Some n -> file_stem p = file_stem q.
Proof. unfold file_stem. by intros -> ->. Qed.

Lemma shell_of_name_file_name p t : shell_of_name p = Some t -> file_name p = Some p.
Proof.
  unfold shell_of_name. intros H.
  repeat (case_bool_decide; [subst p; vm_compute; reflexivity|]). done.
Qed.

Lemma safe_name_not_shell c n :
  file_name c = Some n -> n ∈ safe_names -> detect_shell_type c = None.
Proof.
  intros Hc Hn. pose proof safe_names_no_shell as Hall. rewrite forallb_elem in Hall.
  specialize (Hall n Hn). apply andb_true_iff in Hall as [Hall Hd].
  apply andb_true_iff in Hall as [Hf%bool_decide_eq_true_1 Hs%bool_decide_eq_true_1].
  assert (detect_shell_type n = None) as Hnone by (by destruct (detect_shell_type n)).
  rewrite detect_shell_type_eq. destruct (shell_of_name c) as [t|] eqn:Ht.
  - pose proof (shell_of_name_file_name _ _ Ht) as Hcc. rewrite Hcc in Hc. injection Hc as ->.
    rewrite detect_shell_type_eq, Ht in Hnone. done.
  - rewrite (file_stem_of_name c n n), Hs by done. by destruct (path_eq n c).
Qed.

Lemma extract_bash_shell command shell script :
  extract_bash_command command = Some (shell, script) ->
  head command = Some shell /\ is_Some (detect_shell_type shell).
Proof.
  unfold extract_bash_command. destruct command as [|sh [|flag [|sc [|? ?]]]]; try done.
  destruct (negb _ || negb _) eqn:Hn; [done|]. intros [= <- <-]. split; [done|].
  apply orb_false_iff in Hn as [_ Hn%negb_false_iff]. by destruct (detect_shell_type sh).
Qed.

Section whole.
Variable run_powershell_parser : str -> str -> option PowershellParserOutput.
Variable linux : bool.
Variable try_parse_shell : str -> option tree.

Lemma zsh_to_bash_id (command : list str) :
  (lit "zsh" ∉ command) -> zsh_to_bash <$> command = command.
Proof.
  induction command as [|c command IH]; intros Hz; [done|]. csimpl.
  rewrite IH by set_solver. unfold zsh_to_bash. rewrite bool_decide_eq_false_2; [done|set_solver].
Qed.

Lemma parse_plain_shell command cs :
  parse_shell_lc_plain_commands try_parse_shell command = Some cs ->
  exists shell script, extract_bash_command command = Some (shell, script).
Proof.
  unfold parse_shell_lc_plain_commands.
  destruct (extract_bash_command command) as [[shell script]|]; [eauto|done].
Qed.

(** What is known to be safe is never dangerous: apart from PowerShell
    invocations, a command the allow-list accepts, directly or as a bash script of
    accepted commands, is not flagged by the deny-list. *)
Theorem known_safe_not_dangerous (command : list str) :
  (lit "zsh" ∉ command) -> is_safe_command_windows run_powershell_parser command = false ->
  is_known_safe_command run_powershell_parser linux try_parse_shell command = true ->
  command_might_be_dangerous try_parse_shell command = false.
Proof.
  intros Hz Hps. unfold is_known_safe_command, command_might_be_dangerous.
  rewrite zsh_to_bash_id, Hps by done. cbn [orb].
  destruct (parse_shell_lc_plain_commands try_parse_shell command) as [cs|] eqn:Hparse.
  - pose proof (parse_plain_shell _ _ Hparse) as (shell & script & He).
    apply extract_bash_shell in He as [Hhead [t Ht]].
    destruct command as [|c args]; [done|]. injection Hhead as ->.
    assert (is_safe_to_call_with_exec linux (shell :: args) = false) as ->.
    { apply not_true_iff_false. intros (n & Hn & Hin)%safe_exec_name.
      by rewrite (safe_name_not_shell shell n) in Ht. }
    assert (is_dangerous_to_call_with_exec (shell :: args) = false) as ->.
    { cbn [is_dangerous_to_call_with_exec].
      do 2 (case_bool_decide; [subst shell; vm_compute in Ht; done|]). done. }
    cbn [orb]. intros [_ Hall]%andb_true_iff. rewrite forallb_elem in Hall.
    apply existsb_false_elem. intros c Hc. apply (safe_exec_not_dangerous linux). by apply Hall.
  - rewrite !orb_false_r. apply safe_exec_not_dangerous.
Qed.

(** PowerShell invocations get a weaker git check: a configuration override,
    which can make git run any program and is refused for git itself, passes when
    the same git command is given to a PowerShell executable. *)
Theorem powershell_git_override_accepted setting sub :
  (bare_word setting ∉ side_effecting_cmdlets) ->
  sub ∈ [lit "status"; lit "log"; lit "show"; lit "diff"] ->
  is_safe_powershell_command [lit "git"; lit "-c"; setting; sub] = true /\
  is_safe_to_call_with_exec linux [lit "git"; lit "-c"; setting; sub] = false.
Proof.
  intros Hset Hsub.
  assert (Hw : (bare_word sub ∉ side_effecting_cmdlets) /\
               safe_git_loop [sub] = true).
  { set_unfold in Hsub. destruct_or!; subst sub;
      (split; [by apply (bool_decide_unpack (_ ∉ _))|vm_compute; reflexivity]). }
  destruct Hw as [Hword Hloop]. split; [|by destruct linux].
  unfold is_safe_powershell_command.
  assert (existsb (fun w => bool_decide (bare_word w ∈ side_effecting_cmdlets))
            [lit "git"; lit "-c"; setting; sub] = false) as ->.
  { cbn [existsb]. rewrite !bool_decide_eq_false_2; [done|done|done| |];
      by apply (bool_decide_unpack (_ ∉ _)). }
  change (bare_word (lit "git")) with (lit "git").
  change (bool_decide (lit "git" ∈ read_only_cmdlets)) with false.
  change (bool_decide (lit "git" = lit "git")) with true. cbv iota.
  unfold is_safe_git_command.
  change (safe_git_loop (drop 1 [lit "git"; lit "-c"; setting; sub])) with (safe_git_loop [sub]).
  exact Hloop.
Qed.
End whole.

(** ** Concrete instances *)

Lemma sed_operand_unchecked_witness :
  is_safe_to_call_with_exec true [lit "sed"; lit "-n"; lit "1" ++ lit "p"; lit "-ewnotes.txt"] = true.
Proof. apply sed_operand_unchecked. split; [done|]. by apply Forall_singleton. Defined.

(** The tree of the script "ls". *)
Definition ls_tree : tree :=
  mk_tree (Node (lit "program") true 0 (Some (lit "ls"))
    [Node (lit "command") true 0 (Some (lit "ls"))
      [Node (lit "command_name") true 0 (Some (lit "ls"))
        [Node (lit "word") true 0 (Some (lit "ls")) []]]]) false.

Lemma known_safe_not_dangerous_witness :
  command_might_be_dangerous (fun _ => Some ls_tree) [lit "/bin/bash"; lit "-lc"; lit "ls"] = false.
Proof.
  apply (known_safe_not_dangerous (fun _ _ => None) true).
  - by apply (bool_decide_unpack (_ ∉ _)).
  - vm_compute. reflexivity.
  - vm_compute. reflexivity.
Defined.

Lemma powershell_git_override_accepted_witness :
  is_safe_powershell_command [lit "git"; lit "-c"; lit "core.pager=evil"; lit "log"] = true /\
  is_safe_to_call_with_exec true [lit "git"; lit "-c"; lit "core.pager=evil"; lit "log"] = false.
Proof.
  apply powershell_git_override_accepted.
  - by apply (bool_decide_unpack (_ ∉ _)).
  - by apply (bool_decide_unpack (_ ∈ _)).
Defined.
