(* ===== verification/ExecApproval.v ===== *)
(** * Approving commands
      (core/src/exec_policy.rs, core/src/tools/sandboxing.rs)

    The manager of the execution policy: the commands a shell invocation stands
    for, the decision on commands no rule matches, the approval requirement with
    its reason and proposed amendment, the amendment of the policy in memory and on
    disk, loading from the layers of the configuration, and the session cache of
    approvals. *)

From S2P Require Import Prelude RustStd Order PatchApply SandboxPolicy ExecPolicy.
From S2P Require Import ExecPolicyParser ShellParse CommandSafety.

(** ** Data *)

Inductive SandboxPermissions : Type := UseDefault | RequireEscalated.
Definition requires_escalated_permissions (p : SandboxPermissions) : bool :=
  match p with RequireEscalated => true | UseDefault => false end.

(** [ExecPolicyAmendment { command }]. *)
Definition ExecPolicyAmendment : Type := list str.

Inductive ExecApprovalRequirement : Type :=
  | Skip (bypass_sandbox : bool) (proposed_execpolicy_amendment : option ExecPolicyAmendment)
  | NeedsApproval (reason : option str)
      (proposed_execpolicy_amendment : option ExecPolicyAmendment)
  | ForbiddenCall (reason : str).

Definition proposed_execpolicy_amendment (r : ExecApprovalRequirement)
    : option ExecPolicyAmendment :=
  match r with
  | NeedsApproval _ (Some prefix) => Some prefix
  | Skip _ (Some prefix) => Some prefix
  | _ => None
  end.

Definition PROMPT_CONFLICT_REASON : str :=
  lit "approval required by policy, but AskForApproval is set to Never".
Definition REJECT_SANDBOX_APPROVAL_REASON : str :=
  lit "approval required by policy, but AskForApproval::Reject.sandbox_approval is set".
Definition REJECT_RULES_APPROVAL_REASON : str :=
  lit "approval required by policy rule, but AskForApproval::Reject.rules is set".

Definition BANNED_PREFIX_SUGGESTIONS : list (list str) :=
  (fun l : list string => lit <$> l) <$>
  ([["python3"]; ["python3"; "-"]; ["python3"; "-c"]; ["python"]; ["python"; "-"]; ["python"; "-c"];
    ["py"]; ["py"; "-3"]; ["pythonw"]; ["pyw"]; ["pypy"]; ["pypy3"]; ["git"]; ["bash"];
    ["bash"; "-lc"]; ["sh"]; ["sh"; "-c"]; ["sh"; "-lc"]; ["zsh"]; ["zsh"; "-lc"]; ["/bin/zsh"];
    ["/bin/zsh"; "-lc"]; ["/bin/bash"]; ["/bin/bash"; "-lc"]; ["pwsh"]; ["pwsh"; "-Command"];
    ["pwsh"; "-c"]; ["powershell"]; ["powershell"; "-Command"]; ["powershell"; "-c"];
    ["powershell.exe"]; ["powershell.exe"; "-Command"]; ["powershell.exe"; "-c"]; ["env"]; ["sudo"];
    ["node"]; ["node"; "-e"]; ["perl"]; ["perl"; "-e"]; ["ruby"]; ["ruby"; "-e"]; ["php"];
    ["php"; "-r"]; ["lua"]; ["lua"; "-e"]; ["osascript"]])%string.

(** ** Rule matches *)

Definition is_policy_match (m : RuleMatch) : bool :=
  match m with PrefixRuleMatch _ _ _ => true | HeuristicsRuleMatch _ _ => false end.

(** [is_policy_match(m) && m.decision() == d]. *)
Definition is_policy_match_with (d : Decision) (m : RuleMatch) : bool :=
  is_policy_match m && bool_decide (match_decision m = d).

Definition prompt_is_rejected_by_policy (approval_policy : AskForApproval) (prompt_is_rule : bool)
    : option str :=
  match approval_policy with
  | Never => Some PROMPT_CONFLICT_REASON
  | OnFailure => None
  | OnRequest => None
  | UnlessTrusted => None
  | Reject reject_config =>
      if prompt_is_rule then
        if rejects_rules_approval reject_config then Some REJECT_RULES_APPROVAL_REASON else None
      else if rejects_sandbox_approval reject_config then Some REJECT_SANDBOX_APPROVAL_REASON
      else None
  end.

(** [find_map] of the heuristic matches with decision [d]. *)
Fixpoint first_heuristic (d : Decision) (ms : list RuleMatch) : option ExecPolicyAmendment :=
  match ms with
  | [] => None
  | HeuristicsRuleMatch command d' :: ms =>
      if bool_decide (d' = d) then Some command else first_heuristic d ms
  | _ :: ms => first_heuristic d ms
  end.

Definition try_derive_execpolicy_amendment_for_prompt_rules (matched_rules : list RuleMatch)
    : option ExecPolicyAmendment :=
  if existsb (is_policy_match_with Prompt) matched_rules then None
  else first_heuristic Prompt matched_rules.

Definition try_derive_execpolicy_amendment_for_allow_rules (matched_rules : list RuleMatch)
    : option ExecPolicyAmendment :=
  if existsb is_policy_match matched_rules then None
  else first_heuristic Allow matched_rules.

Definition derive_requested_execpolicy_amendment_from_prefix_rule (prefix_rule : option (list str))
    (matched_rules : list RuleMatch) : option ExecPolicyAmendment :=
  prefix_rule ← prefix_rule;
  if bool_decide (prefix_rule = []) then None
  else if existsb (fun banned => bool_decide (prefix_rule = banned)) BANNED_PREFIX_SUGGESTIONS
  then None
  else if existsb is_policy_match matched_rules then None
  else Some prefix_rule.

(** [max_by_key] with the length of the prefix: the last of the longest. *)
Fixpoint max_by_len (l : list (list str * option str)) : option (list str * option str) :=
  match l with
  | [] => None
  | x :: l =>
      match max_by_len l with
      | Some y => if length x.1 <=? length y.1 then Some y else Some x
      | None => Some x
      end
  end.

Definition prefix_matches_with (d : Decision) (ms : list RuleMatch) : list (list str * option str) :=
  omap (fun m => match m with
                 | PrefixRuleMatch matched_prefix d' justification =>
                     if bool_decide (d' = d) then Some (matched_prefix, justification) else None
                 | _ => None
                 end) ms.

(** The back quote of the messages. *)
Definition BQ : str := [96%N].

Section approval.
Variable try_join : list str -> option str.

Definition render_shlex_command (args : list str) : str :=
  default (join (lit " ") args) (try_join args).

Definition derive_prompt_reason (command_args : list str) (evaluation : Evaluation)
    : option str :=
  let command := render_shlex_command command_args in
  match max_by_len (prefix_matches_with Prompt (matched_rules evaluation)) with
  | Some (_, Some justification) =>
      Some (BQ ++ command ++ BQ ++ lit " requires approval: " ++ justification)
  | Some (_, None) => Some (BQ ++ command ++ BQ ++ lit " requires approval by policy")
  | None => None
  end.

Definition derive_forbidden_reason (command_args : list str) (evaluation : Evaluation) : str :=
  let command := render_shlex_command command_args in
  match max_by_len (prefix_matches_with Forbidden (matched_rules evaluation)) with
  | Some (_, Some justification) =>
      BQ ++ command ++ BQ ++ lit " rejected: " ++ justification
  | Some (matched_prefix, None) =>
      BQ ++ command ++ BQ ++ lit " rejected: policy forbids commands starting with " ++ BQ
      ++ render_shlex_command matched_prefix ++ BQ
  | None => BQ ++ command ++ BQ ++ lit " rejected: blocked by policy"
  end.

(** ** Decisions on unmatched commands *)

Variable run_powershell_parser : str -> str -> option PowershellParserOutput.
Variable linux : bool.
Variable try_parse_shell : str -> option tree.

Definition render_decision_for_unmatched_command (approval_policy : AskForApproval)
    (sandbox_policy : SandboxPolicy) (sandbox_permissions : SandboxPermissions)
    (used_complex_parsing : bool) (command : list str) : Decision :=
  if is_known_safe_command run_powershell_parser linux try_parse_shell command
     && negb used_complex_parsing then Allow
  else
    let runtime_sandbox_provides_safety :=
      cfg_windows && match sandbox_policy with ReadOnly _ => true | _ => false end in
    if command_might_be_dangerous try_parse_shell command || runtime_sandbox_provides_safety then
      match approval_policy with Never => Forbidden | _ => Prompt end
    else
      match approval_policy with
      | Never | OnFailure => Allow
      | UnlessTrusted => Prompt
      | OnRequest | Reject _ =>
          match sandbox_policy with
          | DangerFullAccess | ExternalSandbox _ => Allow
          | ReadOnly _ | WorkspaceWrite _ _ _ _ _ =>
              if requires_escalated_permissions sandbox_permissions then Prompt else Allow
          end
      end.

Definition commands_for_exec_policy (command : list str) : list (list str) * bool :=
  match parse_shell_lc_plain_commands try_parse_shell command with
  | Some ((_ :: _) as commands) => (commands, false)
  | _ =>
      match parse_shell_lc_single_command_prefix try_parse_shell command with
      | Some single_command => ([single_command], true)
      | None => ([command], false)
      end
  end.

(** ** The requirement *)

Context {M : Type -> Type} `{MultiMap M}.

Record ExecApprovalRequest : Type := mk_request {
  command : list str;
  approval_policy : AskForApproval;
  sandbox_policy : SandboxPolicy;
  sandbox_permissions : SandboxPermissions;
  prefix_rule_request : option (list str);
}.

(** The requirement that an evaluation leads to. *)
Definition requirement_of (req : ExecApprovalRequest) (auto_amendment_allowed : bool)
    (evaluation : Evaluation) : ExecApprovalRequirement :=
  let rules := matched_rules evaluation in
  let requested_amendment :=
    derive_requested_execpolicy_amendment_from_prefix_rule (prefix_rule_request req) rules in
  match eval_decision evaluation with
  | Forbidden => ForbiddenCall (derive_forbidden_reason (command req) evaluation)
  | Prompt =>
      let prompt_is_rule := existsb (is_policy_match_with Prompt) rules in
      match prompt_is_rejected_by_policy (approval_policy req) prompt_is_rule with
      | Some reason => ForbiddenCall reason
      | None =>
          NeedsApproval (derive_prompt_reason (command req) evaluation)
            (match requested_amendment with
             | Some a => Some a
             | None =>
                 if auto_amendment_allowed
                 then try_derive_execpolicy_amendment_for_prompt_rules rules else None
             end)
      end
  | Allow =>
      Skip (existsb (is_policy_match_with Allow) rules)
        (if auto_amendment_allowed
         then try_derive_execpolicy_amendment_for_allow_rules rules else None)
  end.

Definition create_exec_approval_requirement_for_command (exec_policy : Policy M)
    (req : ExecApprovalRequest) : outcome () ExecApprovalRequirement :=
  let '(commands, used_complex_parsing) := commands_for_exec_policy (command req) in
  let exec_policy_fallback :=
    render_decision_for_unmatched_command (approval_policy req) (sandbox_policy req)
      (sandbox_permissions req) used_complex_parsing in
  evaluation ← check_multiple exec_policy commands exec_policy_fallback;
  Ok (requirement_of req (negb used_complex_parsing) evaluation).
End approval.

(** ** Amending the policy *)

Inductive ExecPolicyUpdateError (SE SJ : Type) : Type :=
  | AppendRule (path : str) (source : AmendError SJ)
  | JoinBlockingTask
  | AddRule (source : Error SE).
Arguments AppendRule {_ _} _ _.
Arguments JoinBlockingTask {_ _}.
Arguments AddRule {_ _} _.

Section manager.
Context {SE SJ FS : Type} {M : Type -> Type} `{MultiMap M} `{AppendFile FS}.
Variable json_string : str -> outcome SJ str.

(** [ExecPolicyManager] and the files. *)
Record manager : Type := mk_manager { policy : Policy M; disk : FS }.

Definition default_policy_path (codex_home : str) : str :=
  path_join (path_join codex_home (lit "rules")) (lit "default.rules").

Definition append_amendment_and_update (codex_home : str) (amendment : ExecPolicyAmendment)
    : io manager (ExecPolicyUpdateError SE SJ) () := fun st =>
  let policy_path := default_policy_path codex_home in
  match blocking_append_allow_prefix_rule json_string policy_path amendment (disk st) with
  | (fs, Ok ()) =>
      match add_prefix_rule amendment Allow (policy st) with
      | Ok updated_policy => (mk_manager updated_policy fs, Ok ())
      | Err source => (mk_manager (policy st) fs, Err (AddRule source))
      | Panic => (mk_manager (policy st) fs, Panic)
      | Timeout => (mk_manager (policy st) fs, Timeout)
      end
  | (fs, Err source) => (mk_manager (policy st) fs, Err (AppendRule policy_path source))
  | (fs, Panic) => (mk_manager (policy st) fs, Err JoinBlockingTask)
  | (fs, Timeout) => (mk_manager (policy st) fs, Timeout)
  end.
End manager.

(** ** Loading from the configuration *)

Inductive ExecPolicyError (SE : Type) : Type :=
  | ReadDir (dir : str) (source : io_error)
  | ReadFile (path : str) (source : io_error)
  | ParsePolicy (path : str) (source : Error SE).
Arguments ReadDir {_} _ _.
Arguments ReadFile {_} _ _.
Arguments ParsePolicy {_} _ _.

Section loading.
Context {SE : Type} {M : Type -> Type} `{MultiMap M}.
(** The entries of a directory, each with its path and whether it is a file. *)
Variable read_dir : str -> outcome io_error (list (outcome io_error (str * outcome io_error bool))).
Variable read_file : str -> outcome io_error str.
(** The parameters of [PolicyParser::parse]. *)
Variable shlex_split : str -> option (list str).
Variable try_join : list str -> option str.
Variable debug_rule : PrefixRule -> str.
Context {Ast : Type}.
Variable ast_parse : str -> str -> outcome SE Ast.
Variable module_calls : Ast -> list prefix_rule_call.
Variable module_error : Ast -> option SE.
Variable wrap_error : Error SE -> SE.

Fixpoint entries_loop (dir : str) (entries : list (outcome io_error (str * outcome io_error bool)))
    : outcome (ExecPolicyError SE) (list str) :=
  match entries with
  | [] => Ok []
  | entry :: entries =>
      '(path, file_type) ← map_err (ReadDir dir) entry;
      is_file ← map_err (ReadDir dir) file_type;
      rest ← entries_loop dir entries;
      Ok (if bool_decide (extension path = Some (lit "rules")) && is_file
          then path :: rest else rest)
  end.

(** [sort] of paths compares components: for the entries of one directory, which
    differ in their last component, that is the order of the strings. *)
Definition collect_policy_files (dir : str) : outcome (ExecPolicyError SE) (list str) :=
  match read_dir dir with
  | Ok entries => paths ← entries_loop dir entries; Ok (sort str_compare paths)
  | Err err =>
      match PatchApply.kind err with NotFound => Ok [] | _ => Err (ReadDir dir err) end
  | Panic => Panic
  | Timeout => Timeout
  end.

(** The configuration folders of the layers, lowest precedence first. *)
Fixpoint layer_paths (config_folders : list (option str)) : outcome (ExecPolicyError SE) (list str) :=
  match config_folders with
  | [] => Ok []
  | Some config_folder :: rest =>
      layer_policy_paths ← collect_policy_files (path_join config_folder (lit "rules"));
      more ← layer_paths rest;
      Ok (layer_policy_paths ++ more)
  | None :: rest => layer_paths rest
  end.

Fixpoint parse_files (policy_paths : list str) : io (M PrefixRule) (ExecPolicyError SE) () :=
  match policy_paths with
  | [] => mret ()
  | policy_path :: policy_paths =>
      contents ← io_of (map_err (ReadFile policy_path) (read_file policy_path));
      _ ← io_map_err (ParsePolicy policy_path)
            (parse shlex_split try_join debug_rule ast_parse module_calls module_error wrap_error
               policy_path contents);
      parse_files policy_paths
  end.

(** [for (program, rules) in requirements.iter_all() { for rule in rules { insert } }]. *)
Definition combine_rules (rules requirements : M PrefixRule) : M PrefixRule :=
  foldl (fun combined '(program, rs) =>
    foldl (fun combined rule => mm_insert program rule combined) combined rs)
    rules (mm_iter_all requirements).

Definition load_exec_policy (config_folders : list (option str))
    (requirements_policy : option (Policy M)) : outcome (ExecPolicyError SE) (Policy M) :=
  policy_paths ← layer_paths config_folders;
  let (builder, r) := parse_files policy_paths mm_new in
  _ ← r;
  match requirements_policy with
  | None => Ok (mk_policy builder)
  | Some requirements => Ok (mk_policy (combine_rules builder (rules_by_program requirements)))
  end.

Definition load_exec_policy_with_warning (config_folders : list (option str))
    (requirements_policy : option (Policy M))
    : outcome (ExecPolicyError SE) (Policy M * option (ExecPolicyError SE)) :=
  match load_exec_policy config_folders requirements_policy with
  | Ok policy => Ok (policy, None)
  | Err (ParsePolicy path source) => Ok (empty_policy, Some (ParsePolicy path source))
  | Err err => Err err
  | Panic => Panic
  | Timeout => Timeout
  end.
End loading.

(** ** Defaults and the session cache *)

Definition default_exec_approval_requirement (policy : AskForApproval)
    (sandbox_policy : SandboxPolicy) : ExecApprovalRequirement :=
  let needs_approval :=
    match policy with
    | Never | OnFailure => false
    | OnRequest | Reject _ =>
        negb match sandbox_policy with DangerFullAccess | ExternalSandbox _ => true | _ => false end
    | UnlessTrusted => true
    end in
  if needs_approval
     && match policy with
        | Reject reject_config => rejects_sandbox_approval reject_config
        | _ => false
        end
  then ForbiddenCall (lit "approval policy rejected sandbox approval prompt")
  else if needs_approval then NeedsApproval None None
  else Skip false None.

Inductive ReviewDecision : Type :=
  | Approved
  | ApprovedExecpolicyAmendment (amendment : ExecPolicyAmendment)
  | ApprovedForSession
  | Denied
  | Abort.

#[export] Instance ReviewDecision_eq_dec : EqDecision ReviewDecision.
Proof. solve_decision. Defined.

Definition should_bypass_approval (policy : AskForApproval) (already_approved : bool) : bool :=
  if already_approved then true else match policy with Never => true | _ => false end.

Definition wants_no_sandbox_approval (policy : AskForApproval) : bool :=
  match policy with
  | OnFailure => true
  | UnlessTrusted => true
  | Never => false
  | OnRequest => false
  | Reject reject_config => negb (sandbox_approval reject_config)
  end.

(** [ApprovalStore]: serialised keys to decisions. *)
Abbreviation ApprovalStore := (gmap str ReviewDecision) (only parsing).

Section store.
Context {Key : Type}.
(** [serde_json::to_string(key).ok()]. *)
Variable serialize : Key -> option str.

Definition store_get (key : Key) (store : ApprovalStore) : option ReviewDecision :=
  s ← serialize key; store !! s.

Definition store_put (key : Key) (value : ReviewDecision) (store : ApprovalStore) : ApprovalStore :=
  match serialize key with
  | Some s => <[s := value]> store
  | None => store
  end.

Definition is_approved_for_session (d : option ReviewDecision) : bool :=
  bool_decide (d = Some ApprovedForSession).

End store.

(** A state that holds the store: the session. *)
Class HasApprovals (S : Type) : Type := {
  approvals_of : S -> gmap str ReviewDecision;
  set_approvals : gmap str ReviewDecision -> S -> S;
}.
Class ApprovalsLaws (S : Type) `{!HasApprovals S} : Prop := {
  approvals_set st (s : S) : approvals_of (set_approvals st s) = st;
}.

#[export] Instance store_approvals : HasApprovals ApprovalStore :=
  {| approvals_of st := st; set_approvals st _ := st |}.
#[export] Instance store_approvals_laws : ApprovalsLaws ApprovalStore.
Proof. by split. Qed.

(** [fetch] asks the user; the state may change while it runs. *)
Definition with_cached_approval {Key S : Type} `{!HasApprovals S} (serialize : Key -> option str)
    (keys : list Key) (fetch : S -> S * ReviewDecision) (s : S) : S * ReviewDecision :=
  match keys with
  | [] => fetch s
  | _ =>
      if forallb (fun key => is_approved_for_session (store_get serialize key (approvals_of s))) keys
      then (s, ApprovedForSession)
      else
        let (s, decision) := fetch s in
        (if bool_decide (decision = ApprovedForSession)
         then set_approvals (foldl (fun st key => store_put serialize key ApprovedForSession st)
                               (approvals_of s) keys) s
         else s, decision)
  end.

(** ** Requirements *)

Lemma banned_existsb (l : list str) :
  existsb (fun banned => bool_decide (l = banned)) BANNED_PREFIX_SUGGESTIONS
  = bool_decide (l ∈ BANNED_PREFIX_SUGGESTIONS).
Proof.
  apply eq_true_iff_eq. rewrite existsb_elem, bool_decide_eq_true.
  setoid_rewrite bool_decide_eq_true. naive_solver.
Qed.

Lemma requested_amendment_Some prefix ms a :
  derive_requested_execpolicy_amendment_from_prefix_rule prefix ms = Some a ->
  prefix = Some a /\ a <> [] /\ (a ∉ BANNED_PREFIX_SUGGESTIONS) /\
  forall m, m ∈ ms -> is_policy_match m = false.
Proof.
  unfold derive_requested_execpolicy_amendment_from_prefix_rule.
  destruct prefix as [l|]; [|done]. cbn [mbind option_bind].
  case_bool_decide as Hne; [done|]. rewrite banned_existsb. case_bool_decide as Hb; [done|].
  destruct (existsb is_policy_match ms) eqn:Hm; [done|]. intros [= ->].
  split_and!; try done. by apply existsb_false_elem.
Qed.

Lemma existsb_policy_with d ms :
  existsb (is_policy_match_with d) ms = true <->
  exists m, m ∈ ms /\ is_policy_match m = true /\ match_decision m = d.
Proof.
  rewrite existsb_elem. unfold is_policy_match_with.
  setoid_rewrite andb_true_iff. by setoid_rewrite bool_decide_eq_true.
Qed.

Lemma first_heuristic_Some d ms a :
  first_heuristic d ms = Some a -> HeuristicsRuleMatch a d ∈ ms.
Proof.
  induction ms as [|m ms IH]; cbn [first_heuristic]; [done|].
  destruct m as [|c d']; [intros H; right; by apply IH|].
  case_bool_decide as Hd; [intros [= ->]; subst; left|intros H; right; by apply IH].
Qed.

(** A non-empty list of commands evaluates to the strictest of its matches. *)
Lemma check_multiple_Ok {M} `{MultiMapLaws M} {E} (p : Policy M) cs f :
  cs <> [] ->
  exists d, let ms := cs ≫= fun c => matches_for_command p c (Some f) in
    check_multiple (E:=E) p cs f = Ok (mk_evaluation d ms) /\
    d ∈ match_decision <$> ms /\
    Forall (fun d' => decision_rank d' <= decision_rank d) (match_decision <$> ms).
Proof.
  intros Hcs. cbv zeta. apply from_matches_spec.
  destruct cs as [|c cs]; [done|]. rewrite bind_cons. intros [Hnil _]%app_eq_nil.
  by apply matches_fallback_nonempty in Hnil.
Qed.

Section requirements.
Context {M : Type -> Type} `{MultiMapLaws M}.
Variable try_join : list str -> option str.
Variable run_powershell_parser : str -> str -> option PowershellParserOutput.
Variable linux : bool.
Variable try_parse_shell : str -> option tree.

#[local] Abbreviation requirement :=
  (create_exec_approval_requirement_for_command try_join run_powershell_parser linux
     try_parse_shell).
#[local] Abbreviation fallback req complex :=
  (render_decision_for_unmatched_command run_powershell_parser linux try_parse_shell
     (approval_policy req) (sandbox_policy req) (sandbox_permissions req) complex).

Lemma commands_nonempty cmd : (commands_for_exec_policy try_parse_shell cmd).1 <> [].
Proof.
  unfold commands_for_exec_policy.
  destruct (parse_shell_lc_plain_commands try_parse_shell cmd) as [[|c cs]|]; try done;
    by destruct (parse_shell_lc_single_command_prefix try_parse_shell cmd).
Qed.

(** The requirement through the evaluation of the commands. *)
Lemma requirement_eq (p : Policy M) req :
  let '(cs, complex) := commands_for_exec_policy try_parse_shell (command req) in
  let ms := cs ≫= fun c => matches_for_command p c (Some (fallback req complex)) in
  exists d, requirement p req
    = Ok (requirement_of try_join req (negb complex) (mk_evaluation d ms)) /\
    d ∈ match_decision <$> ms /\
    Forall (fun d' => decision_rank d' <= decision_rank d) (match_decision <$> ms).
Proof.
  pose proof (commands_nonempty (command req)) as Hne.
  unfold create_exec_approval_requirement_for_command.
  destruct (commands_for_exec_policy try_parse_shell (command req)) as [cs complex].
  simpl in Hne.
  destruct (check_multiple_Ok (E:=()) p cs (fallback req complex) Hne) as (d & Hc & Hd & Hall).
  exists d. rewrite Hc. done.
Qed.

(** The policy that allows no prompts gets none: with [Never], or with both
    categories of prompts rejected, no command is ever put to the user; it is
    skipped or forbidden. *)
Theorem no_prompts_when_refused (p : Policy M) req r :
  (approval_policy req = Never \/
   exists c, approval_policy req = Reject c /\ sandbox_approval c = true /\ rules c = true) ->
  create_exec_approval_requirement_for_command try_join run_powershell_parser linux
    try_parse_shell p req = Ok r ->
  (exists bypass amendment, r = Skip bypass amendment) \/ exists reason, r = ForbiddenCall reason.
Proof.
  intros Hp Hr. pose proof (requirement_eq p req) as Heq.
  destruct (commands_for_exec_policy try_parse_shell (command req)) as [cs complex].
  cbv zeta in Heq. destruct Heq as (d & Heq & _). rewrite Heq in Hr. injection Hr as <-.
  unfold requirement_of. cbn [eval_decision matched_rules]. destruct d; [left; eauto| |right; eauto].
  destruct Hp as [-> |(c & -> & Hs & Hrl)]; cbn [prompt_is_rejected_by_policy]; [right; eauto|].
  unfold rejects_rules_approval, rejects_sandbox_approval. rewrite Hs, Hrl.
  destruct (existsb _ _); right; eauto.
Qed.

(** A dangerous command does not run unasked: when a shell invocation contains
    a command that may be dangerous, is not known to be safe and matches no rule,
    the requirement is never to skip approval, whatever the rules say of the other
    commands. *)
Theorem dangerous_segment_not_skipped (p : Policy M) req c bypass amendment :
  c ∈ (commands_for_exec_policy try_parse_shell (command req)).1 ->
  matches_for_command p c None = [] ->
  command_might_be_dangerous try_parse_shell c = true ->
  is_known_safe_command run_powershell_parser linux try_parse_shell c = false ->
  requirement p req <> Ok (Skip bypass amendment).
Proof.
  intros Hc Hnone Hdang Hsafe Hr. pose proof (requirement_eq p req) as Heq.
  destruct (commands_for_exec_policy try_parse_shell (command req)) as [cs complex].
  cbv zeta in Heq. destruct Heq as (d & Heq & _ & Hall). rewrite Heq in Hr. injection Hr as Hr.
  rewrite Forall_fmap, Forall_forall in Hall. unfold compose in Hall.
  assert (Hm : HeuristicsRuleMatch c (fallback req complex c)
               ∈ cs ≫= fun c => matches_for_command p c (Some (fallback req complex))).
  { apply list_elem_of_bind. exists c. split; [|done].
    rewrite matches_fallback, Hnone. set_solver. }
  specialize (Hall _ Hm). simpl in Hall.
  assert (decision_rank Prompt <= decision_rank (fallback req complex c)) as Hrank.
  { unfold render_decision_for_unmatched_command. rewrite Hsafe, Hdang. simpl.
    destruct (approval_policy req); simpl; lia. }
  unfold requirement_of in Hr. cbn [eval_decision] in Hr.
  destruct d; [simpl in *; lia| |done].
  by destruct (prompt_is_rejected_by_policy _ _).
Qed.

(** One allow rule lifts the sandbox for the whole script: when a script has a
    command that a rule allows and a command that no rule matches, and the latter
    is allowed only in the trust that the sandbox contains it, approval is skipped
    and the first attempt runs everything without the sandbox. *)
Theorem allow_rule_lifts_sandbox_of_script (p : Policy M) req a b :
  commands_for_exec_policy try_parse_shell (command req) = ([a; b], false) ->
  matches_for_command p a None <> [] ->
  (forall m, m ∈ matches_for_command p a None -> match_decision m = Allow) ->
  matches_for_command p b None = [] ->
  is_known_safe_command run_powershell_parser linux try_parse_shell b = false ->
  command_might_be_dangerous try_parse_shell b = false ->
  approval_policy req = OnRequest -> sandbox_permissions req = UseDefault ->
  requirement p req = Ok (Skip true None).
Proof.
  intros Hcs Ha Hallow Hb Hsafe Hdang Hpol Hperm.
  pose proof (requirement_eq p req) as Heq. rewrite Hcs in Heq. cbv zeta in Heq.
  destruct Heq as (d & -> & Hd & _). f_equal.
  set (ms := [a; b] ≫= _) in *.
  assert (Hms : ms = matches_for_command p a None ++ [HeuristicsRuleMatch b Allow]).
  { subst ms. rewrite !bind_cons, !matches_fallback, Hb.
    destruct (matches_for_command p a None) as [|m l] eqn:E; [done|].
    f_equal. cbn [mbind list_bind app]. f_equal. f_equal.
    unfold render_decision_for_unmatched_command. rewrite Hsafe, Hdang, Hpol, Hperm.
    by destruct (sandbox_policy req). }
  assert (d = Allow) as ->.
  { rewrite Hms, fmap_app in Hd. apply elem_of_app in Hd as [Hd|Hd].
    - apply list_elem_of_fmap in Hd as (m & -> & Hm). by apply Hallow.
    - by apply list_elem_of_singleton in Hd. }
  unfold requirement_of. cbn [eval_decision matched_rules negb].
  destruct (matches_for_command p a None) as [|m l] eqn:E; [done|].
  assert (is_policy_match m = true /\ match_decision m = Allow) as [Hpm Hdm].
  { split; [|apply Hallow; set_solver].
    assert (m ∈ matches_for_command p a None) as Hin by (rewrite E; set_solver).
    apply elem_of_matches in Hin as [(rs & r & _ & _ & Hmr)|(g & [=] & _)].
    by apply rule_matches_Some in Hmr as (? & ? & _ & _ & ->). }
  rewrite (proj2 (existsb_policy_with Allow ms)) by (exists m; rewrite Hms; set_solver).
  unfold try_derive_execpolicy_amendment_for_allow_rules.
  by rewrite (proj2 (existsb_elem is_policy_match ms)) by (exists m; rewrite Hms; set_solver).
Qed.

(** An amendment proposed for a prompt is never one of the banned prefixes when
    the model asked for it, and is otherwise the exact command that the heuristics
    prompted for; no amendment is proposed when a rule prompted. *)
Theorem proposed_amendment_origin (p : Policy M) req reason a :
  requirement p req = Ok (NeedsApproval reason (Some a)) ->
  let '(cs, complex) := commands_for_exec_policy try_parse_shell (command req) in
  (prefix_rule_request req = Some a /\ a <> [] /\ (a ∉ BANNED_PREFIX_SUGGESTIONS) /\
   forall c, c ∈ cs -> matches_for_command p c None = []) \/
  (complex = false /\ a ∈ cs /\ matches_for_command p a None = [] /\
   forall c m, c ∈ cs -> m ∈ matches_for_command p c None -> match_decision m <> Prompt).
Proof.
  intros Hr. pose proof (requirement_eq p req) as Heq.
  destruct (commands_for_exec_policy try_parse_shell (command req)) as [cs complex].
  cbv zeta in Heq. destruct Heq as (d & Heq & _). rewrite Heq in Hr. injection Hr as Hr.
  unfold requirement_of in Hr. cbn [eval_decision matched_rules] in Hr.
  set (ms := cs ≫= _) in *. destruct d; try done.
  destruct (prompt_is_rejected_by_policy _ _); [done|]. injection Hr as _ Hr.
  assert (Hin : forall c m, c ∈ cs -> m ∈ matches_for_command p c None -> m ∈ ms).
  { intros c m Hc Hm. apply list_elem_of_bind. exists c. split; [|done].
    rewrite matches_fallback. revert Hm.
    destruct (matches_for_command p c None); [by intros ?%not_elem_of_nil|done]. }
  assert (Hpm : forall c m, m ∈ matches_for_command p c None -> is_policy_match m = true).
  { intros c m Hm. apply elem_of_matches in Hm as [(rs & r & _ & _ & Hmr)|(g & [=] & _)].
    by apply rule_matches_Some in Hmr as (? & ? & _ & _ & ->). }
  destruct (derive_requested_execpolicy_amendment_from_prefix_rule _ ms) as [a'|] eqn:Ha.
  - injection Hr as ->. apply requested_amendment_Some in Ha as (Hreq & Hne & Hban & Hno).
    left. split_and!; try done. intros c Hc.
    destruct (matches_for_command p c None) as [|m l] eqn:E; [done|]. exfalso.
    assert (m ∈ matches_for_command p c None) as Hm by (rewrite E; set_solver).
    specialize (Hno m (Hin c m Hc Hm)). by rewrite (Hpm c m Hm) in Hno.
  - destruct complex; [done|]. cbn [negb] in Hr. right. split; [done|].
    unfold try_derive_execpolicy_amendment_for_prompt_rules in Hr.
    destruct (existsb (is_policy_match_with Prompt) ms) eqn:Hex; [done|].
    apply first_heuristic_Some, list_elem_of_bind in Hr as (c & Hm & Hc).
    apply elem_of_matches in Hm as [(rs & r & _ & _ & Hmr)|(g & _ & Heqm & Hnone)].
    { by apply rule_matches_Some in Hmr as (? & ? & _ & _ & ?). }
    injection Heqm as -> _. split; [done|]. split; [done|].
    intros c' m Hc' Hm Hd. apply not_true_iff_false in Hex. apply Hex.
    apply existsb_policy_with. exists m. split; [by eapply Hin|]. split; [by eapply Hpm|done].
Qed.
End requirements.

(** ** Amendments *)

Section amendments.
Context {SE SJ FS : Type} {M : Type -> Type} `{MultiMapLaws M} `{AppendFileLaws FS}.
Variable json_string : str -> outcome SJ str.
Variable try_join : list str -> option str.
Variable run_powershell_parser : str -> str -> option PowershellParserOutput.
Variable linux : bool.
Variable try_parse_shell : str -> option tree.

Lemma add_prefix_rule_get (p p' : Policy M) prefix d :
  add_prefix_rule (SE:=SE) prefix d p = Ok p' ->
  exists tok rest, prefix = tok :: rest /\
    p' = mk_policy (mm_insert tok (mk_rule (mk_pattern tok (Single <$> rest)) d None)
                      (rules_by_program p)).
Proof. unfold add_prefix_rule. destruct prefix as [|tok rest]; [done|]. intros [= <-]. eauto. Qed.

Lemma single_tokens ts pre :
  Forall2 (fun p t => t ∈ alternatives_of p) (Single <$> ts) pre <-> pre = ts.
Proof.
  rewrite Forall2_fmap_l. split.
  - induction 1 as [|t x ts' pre' Ht _ ->]; [done|]. simpl in Ht. set_solver.
  - intros ->. induction ts as [|t ts IH]; constructor; [simpl; set_solver|done].
Qed.

(** The new rule among the matches. *)
Lemma added_rule_matches (p p' : Policy M) prefix d cmd m :
  add_prefix_rule (SE:=SE) prefix d p = Ok p' -> prefix `prefix_of` cmd ->
  m ∈ matches_for_command p' cmd None <->
  m = PrefixRuleMatch prefix d None \/ m ∈ matches_for_command p cmd None.
Proof.
  intros (tok & rest & -> & ->)%add_prefix_rule_get [tail ->].
  set (rule := mk_rule (mk_pattern tok (Single <$> rest)) d None).
  assert (Hm : rule_matches rule ((tok :: rest) ++ tail)
               = Some (PrefixRuleMatch (tok :: rest) d None)).
  { apply rule_matches_Some. exists (tok :: rest), tail. split; [done|]. split; [|done].
    by apply (single_tokens (tok :: rest)). }
  rewrite !elem_of_matches. cbn [rules_by_program head default app] in *.
  change (default [] (Some tok)) with tok. rewrite get_insert, decide_True by done. split.
  - intros [(rs & r & [= <-] & Hr & Hmr)|(g & [=] & _)].
    apply elem_of_app in Hr as [Hr| ->%list_elem_of_singleton]; [|left; congruence].
    right. left. destruct (mm_get_vec (rules_by_program p) tok) as [rs|] eqn:E;
      [|by apply not_elem_of_nil in Hr].
    exists rs, r. done.
  - intros [->|[(rs & r & Hrs & Hr & Hmr)|(g & [=] & _)]]; left; eexists _, _.
    + split; [done|]. split; [|exact Hm]. set_solver.
    + split; [done|]. split; [|exact Hmr]. change (id tok) with tok in Hrs.
      rewrite Hrs. set_solver.
Qed.

(** With an allow rule for a prefix, a command that starts with it and that no rule
    asks or forbids is skipped, outside the sandbox. *)
Lemma allowed_prefix_skips (p p' : Policy M) prefix req cmd complex :
  add_prefix_rule (SE:=SE) prefix Allow p = Ok p' ->
  commands_for_exec_policy try_parse_shell (command req) = ([cmd], complex) ->
  prefix `prefix_of` cmd ->
  (forall m, m ∈ matches_for_command p cmd None -> match_decision m = Allow) ->
  create_exec_approval_requirement_for_command try_join run_powershell_parser linux
    try_parse_shell p' req = Ok (Skip true None).
Proof.
  intros Hadd Hcs Hpre Hallow.
  pose proof (requirement_eq try_join run_powershell_parser linux try_parse_shell p' req)
    as Heq.
  rewrite Hcs in Heq. cbv zeta in Heq. destruct Heq as (d & -> & Hd & _). f_equal.
  set (fb := render_decision_for_unmatched_command _ _ _ _ _ _ _) in *.
  assert (Hms : forall m, m ∈ [cmd] ≫= (fun c => matches_for_command p' c (Some fb)) <->
            m = PrefixRuleMatch prefix Allow None \/
            m ∈ matches_for_command p cmd None).
  { intros m. rewrite bind_cons, app_nil_r, <-(added_rule_matches _ _ _ _ _ _ Hadd Hpre).
    rewrite matches_fallback. destruct (matches_for_command p' cmd None) eqn:E; [|done].
    assert (PrefixRuleMatch prefix Allow None ∈ matches_for_command p' cmd None) as Hin
      by (apply (added_rule_matches _ _ _ _ _ _ Hadd Hpre); by left).
    rewrite E in Hin. by apply not_elem_of_nil in Hin. }
  assert (d = Allow) as ->.
  { apply list_elem_of_fmap in Hd as (m & -> & [->|Hm]%Hms); [done|]. by apply Hallow. }
  unfold requirement_of. cbn [eval_decision matched_rules].
  assert (Hin := proj2 (Hms (PrefixRuleMatch prefix Allow None)) (or_introl eq_refl)).
  rewrite (proj2 (existsb_policy_with Allow _)) by eauto.
  unfold try_derive_execpolicy_amendment_for_allow_rules.
  rewrite (proj2 (existsb_elem is_policy_match _)) by eauto. by destruct complex.
Qed.

(** Accepting an amendment takes effect at once and on disk: after it succeeds,
    the rules file contains the allow rule as a line, and a command that starts
    with the amended prefix and matches no stricter rule skips approval and the
    sandbox; when it fails, the policy in memory is the old one. *)
Theorem amendment_takes_effect codex_home amendment (st st' : manager) r tokens :
  append_amendment_and_update (SE:=SE) json_string codex_home amendment st = (st', r) ->
  (r <> Ok () -> policy st' = policy st) /\
  (r = Ok () ->
    (collect_results json_string amendment = Ok tokens -> line_ok (allow_rule_text tokens) ->
     exists text, af_text (disk st') (default_policy_path codex_home) = Some text /\
       allow_rule_text tokens ∈ lines text) /\
    forall req cmd complex,
      commands_for_exec_policy try_parse_shell (command req) = ([cmd], complex) ->
      amendment `prefix_of` cmd ->
      (forall m, m ∈ matches_for_command (policy st) cmd None -> match_decision m = Allow) ->
      create_exec_approval_requirement_for_command try_join run_powershell_parser linux
        try_parse_shell (policy st') req = Ok (Skip true None)).
Proof.
  unfold append_amendment_and_update.
  destruct (blocking_append_allow_prefix_rule _ _ _ _) as [fs [[]|e| |]] eqn:Happ;
    try (intros [= <- <-]; split; [done|intros [=]]).
  destruct (add_prefix_rule (SE:=SE) amendment Allow (policy st)) as [p'|e| |] eqn:Hadd;
    intros [= <- <-]; (split; [done|]); try (intros [=]).
  split.
  - intros Htok Hline. cbn [disk]. unfold blocking_append_allow_prefix_rule in Happ.
    destruct amendment as [|a0 am]; [done|].
    apply io_bind_Ok in Happ as (fs1 & tk & Htk & Happ). unfold io_of in Htk.
    injection Htk as <- Htk. apply map_err_Ok in Htk. pose proof (eq_trans (eq_sym Htok) Htk) as [= ->].
    destruct (parent _); [|done].
    apply io_bind_Ok in Happ as (fs2 & [] & _ & Happ%append_locked_line_Ok). cbv zeta in Happ.
    rewrite Happ. eexists. split; [done|]. case_bool_decide; [done|].
    destruct (lines_append (default [] (af_text fs2 (default_policy_path codex_home)))
      _ Hline) as [kept ->]. set_solver.
  - intros req cmd complex. cbn [policy]. by apply (allowed_prefix_skips (policy st)).
Qed.
End amendments.

(** ** Loading *)

Section loaded.
Context {SE : Type} {M : Type -> Type} `{MultiMapLaws M}.
Variable read_dir : str -> outcome io_error (list (outcome io_error (str * outcome io_error bool))).
Variable read_file : str -> outcome io_error str.
Variable shlex_split : str -> option (list str).
Variable try_join : list str -> option str.
Variable debug_rule : PrefixRule -> str.
Context {Ast : Type}.
Variable ast_parse : str -> str -> outcome SE Ast.
Variable module_calls : Ast -> list prefix_rule_call.
Variable module_error : Ast -> option SE.
Variable wrap_error : Error SE -> SE.

Lemma get_insert_all {V} prog (vs : list V) (b : M V) k :
  default [] (mm_get_vec (foldl (fun b v => mm_insert prog v b) b vs) k)
  = default [] (mm_get_vec b k) ++ (if decide (prog = k) then vs else []).
Proof.
  revert b. induction vs as [|v vs IH]; intros b; cbn [foldl].
  { destruct (decide _); by rewrite app_nil_r. }
  rewrite IH, get_insert. destruct (decide (prog = k)) as [->|]; [|done].
  simpl. by rewrite <-app_assoc.
Qed.

Lemma get_combine_rules (rules requirements : M PrefixRule) k :
  default [] (mm_get_vec (combine_rules rules requirements) k)
  = default [] (mm_get_vec rules k)
    ++ (mm_iter_all requirements ≫= fun '(prog, rs) => if decide (prog = k) then rs else []).
Proof.
  unfold combine_rules. revert rules.
  induction (mm_iter_all requirements) as [|[prog rs] l IH]; intros b; cbn [foldl].
  { by rewrite app_nil_r. }
  by rewrite IH, get_insert_all, bind_cons, <-app_assoc.
Qed.

Lemma combined_matches (rules : M PrefixRule) (requirements : Policy M) cmd m :
  m ∈ matches_for_command requirements cmd None ->
  m ∈ matches_for_command (mk_policy (combine_rules rules (rules_by_program requirements))) cmd None.
Proof.
  rewrite !elem_of_matches. intros [(rs & r & Hrs & Hr & Hm)|(g & [=] & _)]. left.
  cbn [rules_by_program]. set (k := default [] (head cmd)) in *.
  pose proof (get_combine_rules rules (rules_by_program requirements) k) as Hget.
  assert (r ∈ default [] (mm_get_vec (combine_rules rules (rules_by_program requirements)) k)) as Hin.
  { rewrite Hget. apply elem_of_app. right. apply list_elem_of_bind.
    exists (k, rs). split; [|by apply elem_of_iter_all]. by rewrite decide_True by done. }
  destruct (mm_get_vec (combine_rules _ _) k) as [rs'|]; [|by apply not_elem_of_nil in Hin]. eauto.
Qed.

#[local] Abbreviation load :=
  (load_exec_policy_with_warning read_dir read_file shlex_split try_join debug_rule ast_parse
     module_calls module_error wrap_error).

(** The rules a managed requirement adds bind exactly as long as the user's own
    files parse: if they do, every match of the requirements is a match of the
    loaded policy, so no decision is milder; if one file does not parse, the loaded
    policy is empty, and the requirements are dropped with everything else. *)
Theorem requirements_bind_unless_parse_fails folders requirements policy warning cmd m :
  load_exec_policy_with_warning read_dir read_file shlex_split try_join debug_rule ast_parse
    module_calls module_error wrap_error folders (Some requirements) = Ok (policy, warning) ->
  m ∈ matches_for_command requirements cmd None ->
  match warning with
  | None =>
      m ∈ matches_for_command policy cmd None /\
      forall f e, check (E:=()) policy cmd f = Ok e ->
        decision_rank (match_decision m) <= decision_rank (eval_decision e)
  | Some err =>
      (exists path source, err = ParsePolicy path source) /\
      policy = empty_policy /\ matches_for_command policy cmd None = []
  end.
Proof.
  unfold load_exec_policy_with_warning. intros Hload Hm.
  destruct (load_exec_policy _ _ _ _ _ _ _ _ _ folders _) as [p|err| |] eqn:E; try done.
  - injection Hload as <- <-. unfold load_exec_policy in E.
    apply bind_Ok in E as (paths & _ & E). destruct (parse_files _ _ _ _ _ _ _ _ _ _) as [b r].
    apply bind_Ok in E as ([] & _ & [= <-]).
    pose proof (combined_matches b requirements cmd m Hm) as Hin. split; [done|].
    intros f e. unfold check.
    destruct (from_matches_spec (E:=()) _ (matches_fallback_nonempty
      (mk_policy (combine_rules b (rules_by_program requirements))) cmd f)) as (d & -> & _ & Hall).
    intros [= <-]. cbn [eval_decision]. rewrite Forall_fmap, Forall_forall in Hall.
    apply (Hall m). rewrite matches_fallback.
    destruct (matches_for_command (mk_policy (combine_rules _ _)) cmd None);
      [by apply not_elem_of_nil in Hin|done].
  - destruct err as [| |path source]; try done. injection Hload as <- <-.
    split; [by eauto|]. split; [done|].
    unfold matches_for_command, empty_policy. cbn [rules_by_program].
    destruct cmd as [|c cmd]; [done|]. by rewrite get_new.
Qed.
End loaded.

(** ** The session cache *)

Section cache.
Context {Key : Type} (serialize : Key -> option str).

Lemma put_all_get (keys : list Key) (store : ApprovalStore) s :
  foldl (fun st key => store_put serialize key ApprovedForSession st) store keys !! s
  = if bool_decide (Some s ∈ serialize <$> keys) then Some ApprovedForSession else store !! s.
Proof.
  revert store. induction keys as [|k keys IH]; intros store; [done|].
  cbn [foldl]. rewrite IH, fmap_cons. unfold store_put.
  destruct (bool_decide (Some s ∈ serialize <$> keys)) eqn:E.
  - apply bool_decide_eq_true_1 in E. rewrite bool_decide_eq_true_2; [done|set_solver].
  - apply bool_decide_eq_false_1 in E. destruct (serialize k) as [t|] eqn:Hk.
    + destruct (decide (t = s)) as [->|Hts].
      * rewrite lookup_insert_eq, bool_decide_eq_true_2; [done|set_solver].
      * rewrite lookup_insert_ne by done. rewrite bool_decide_eq_false_2; [done|].
        rewrite elem_of_cons. intros [[= ?]|?]; done.
    + rewrite bool_decide_eq_false_2; [done|]. rewrite elem_of_cons. intros [?|?]; done.
Qed.

Context {S : Type} `{ApprovalsLaws S}.

Lemma with_cached_approval_nonempty (keys : list Key) (fetch : S -> S * ReviewDecision) (s : S) :
  keys <> [] ->
  with_cached_approval serialize keys fetch s =
  if forallb (fun key => is_approved_for_session (store_get serialize key (approvals_of s))) keys
  then (s, ApprovedForSession)
  else (if bool_decide ((fetch s).2 = ApprovedForSession)
        then set_approvals (foldl (fun st key => store_put serialize key ApprovedForSession st)
                              (approvals_of (fetch s).1) keys) (fetch s).1
        else (fetch s).1, (fetch s).2).
Proof.
  intros Hne. unfold with_cached_approval. destruct keys; [done|].
  destruct (forallb _ _); [done|]. by destruct (fetch s).
Qed.

(** Approvals for the session are remembered key by key and never invented:
    after the user approves a set of keys for the session, any non-empty subset of
    them is approved without asking; and without asking, only keys that are all
    stored as approved for the session pass. *)
Theorem session_approval_cached (keys keys' : list Key) (fetch fetch' : S -> S * ReviewDecision) (s : S) :
  Forall (fun k => is_Some (serialize k)) keys -> keys' <> [] -> keys' ⊆ keys ->
  (fetch s).2 = ApprovedForSession ->
  let s1 := (with_cached_approval serialize keys fetch s).1 in
  with_cached_approval serialize keys' fetch' s1 = (s1, ApprovedForSession) /\
  (forall st, with_cached_approval serialize keys' fetch' st <> fetch' st ->
     (fetch' st).2 <> ApprovedForSession ->
     Forall (fun k => store_get serialize k (approvals_of st) = Some ApprovedForSession) keys').
Proof.
  intros Hser Hne Hsub Hfetch s1.
  assert (Hall : forall k, k ∈ keys -> store_get serialize k (approvals_of s1) = Some ApprovedForSession).
  { intros k Hk. rewrite Forall_forall in Hser. destruct (Hser k Hk) as [t Hs].
    assert (Hk0 : keys <> []) by (intros ->; by apply not_elem_of_nil in Hk).
    unfold store_get. rewrite Hs. cbn [mbind option_bind]. subst s1.
    rewrite with_cached_approval_nonempty by done. destruct (forallb _ keys) eqn:Hcached.
    - rewrite forallb_elem in Hcached. specialize (Hcached k Hk).
      unfold is_approved_for_session, store_get in Hcached. rewrite Hs in Hcached.
      by apply bool_decide_eq_true_1 in Hcached.
    - rewrite bool_decide_eq_true_2 by done. cbn [fst]. rewrite approvals_set, put_all_get.
      rewrite bool_decide_eq_true_2; [done|]. apply list_elem_of_fmap. eauto. }
  split.
  - rewrite with_cached_approval_nonempty by done.
    rewrite (proj2 (forallb_elem _ keys')); [done|].
    intros k' Hk'. unfold is_approved_for_session. apply bool_decide_eq_true_2. auto.
  - intros st. rewrite with_cached_approval_nonempty by done.
    destruct (forallb _ keys') eqn:E.
    + intros _ _. rewrite forallb_elem in E. apply Forall_forall. intros k' Hk'.
      specialize (E k' Hk'). by apply bool_decide_eq_true_1 in E.
    + intros Hdiff Hd. rewrite bool_decide_eq_false_2 in Hdiff by done.
      exfalso. apply Hdiff. by destruct (fetch' st).
Qed.
End cache.

(** ** Concrete instances *)

Definition word_command (start : nat) (words : list str) : node :=
  Node (lit "command") true start None
    match words with
    | [] => []
    | w :: ws =>
        Node (lit "command_name") true start None [Node (lit "word") true start (Some w) []]
          :: ((fun w => Node (lit "word") true start (Some w) []) <$> ws)
    end.

(** The tree of "make && curl host". *)
Definition script_tree : tree :=
  mk_tree (Node (lit "program") true 0 None
    [Node (lit "list") true 0 None
      [word_command 0 [lit "make"]; Node (lit "&&") false 5 None [];
       word_command 8 [lit "curl"; lit "host"]]]) false.

(** The tree of "rm -rf x". *)
Definition rm_tree : tree :=
  mk_tree (Node (lit "program") true 0 None [word_command 0 [lit "rm"; lit "-rf"; lit "x"]]) false.

Definition bash_request (policy : AskForApproval) (prefix : option (list str)) : ExecApprovalRequest :=
  mk_request [lit "bash"; lit "-lc"; lit "script"] policy new_workspace_write_policy UseDefault prefix.

Definition make_policy : Policy map_of_lists :=
  mk_policy (mm_insert (lit "make") (mk_rule (mk_pattern (lit "make") []) Allow None) mm_new).

Lemma allow_rule_lifts_sandbox_of_script_witness :
  create_exec_approval_requirement_for_command (fun _ => None) (fun _ _ => None) true
    (fun _ => Some script_tree) make_policy (bash_request OnRequest None) = Ok (Skip true None).
Proof.
  apply (allow_rule_lifts_sandbox_of_script (fun _ => None) (fun _ _ => None) true
           (fun _ => Some script_tree) make_policy (bash_request OnRequest None)
           [lit "make"] [lit "curl"; lit "host"]); try (vm_compute; reflexivity).
  - vm_compute. discriminate.
  - intros m Hm. vm_compute in Hm. by apply list_elem_of_singleton in Hm as ->.
Defined.

Lemma no_prompts_when_refused_witness :
  (exists bypass amendment, ForbiddenCall (lit "`bash -lc script` rejected: blocked by policy")
     = Skip bypass amendment) \/
  exists reason, ForbiddenCall (lit "`bash -lc script` rejected: blocked by policy")
     = ForbiddenCall reason.
Proof.
  apply (no_prompts_when_refused (fun _ => None) (fun _ _ => None) true
           (fun _ => Some rm_tree) make_policy (bash_request Never None)).
  - by left.
  - vm_compute. reflexivity.
Defined.

Lemma dangerous_segment_not_skipped_witness :
  create_exec_approval_requirement_for_command (fun _ => None) (fun _ _ => None) true
    (fun _ => Some rm_tree) make_policy (bash_request OnRequest None) <> Ok (Skip true None).
Proof.
  apply (dangerous_segment_not_skipped (fun _ => None) (fun _ _ => None) true
           (fun _ => Some rm_tree) make_policy (bash_request OnRequest None)
           [lit "rm"; lit "-rf"; lit "x"]); try (vm_compute; reflexivity).
  by apply (bool_decide_unpack (_ ∈ _)); vm_compute.
Defined.

Lemma proposed_amendment_origin_witness :
  let '(cs, complex) := commands_for_exec_policy (fun _ => Some rm_tree)
                          (command (bash_request OnRequest None)) in
  (prefix_rule_request (bash_request OnRequest None) = Some [lit "rm"; lit "-rf"; lit "x"] /\
   [lit "rm"; lit "-rf"; lit "x"] <> [] /\
   ([lit "rm"; lit "-rf"; lit "x"] ∉ BANNED_PREFIX_SUGGESTIONS) /\
   forall c, c ∈ cs -> matches_for_command make_policy c None = []) \/
  (complex = false /\ [lit "rm"; lit "-rf"; lit "x"] ∈ cs /\
   matches_for_command make_policy [lit "rm"; lit "-rf"; lit "x"] None = [] /\
   forall c m, c ∈ cs -> m ∈ matches_for_command make_policy c None -> match_decision m <> Prompt).
Proof.
  apply (proposed_amendment_origin (fun _ => None) (fun _ _ => None) true
           (fun _ => Some rm_tree) make_policy (bash_request OnRequest None) None).
  vm_compute. reflexivity.
Defined.

Definition json_quote (s : str) : outcome () str := Ok ([34%N] ++ s ++ [34%N]).

Definition amended : manager (M:=map_of_lists) (FS:=TextFs) :=
  (append_amendment_and_update (SE:=()) json_quote (lit "/home") [lit "curl"]
     (mk_manager make_policy (∅ : TextFs))).1.

Lemma amendment_takes_effect_witness :
  exists text, af_text (disk amended) (default_policy_path (lit "/home")) = Some text /\
    allow_rule_text [[34%N] ++ lit "curl" ++ [34%N]] ∈ lines text.
Proof.
  destruct (amendment_takes_effect (SE:=()) json_quote (fun _ => None) (fun _ _ => None) true
    (fun _ => Some rm_tree) (lit "/home") [lit "curl"] (mk_manager make_policy (∅ : TextFs))
    amended (Ok ()) [[34%N] ++ lit "curl" ++ [34%N]]) as [_ H].
  - apply pair_snd. vm_compute. reflexivity.
  - destruct (H eq_refl) as [Hdisk _]. apply Hdisk; [reflexivity|].
    split; [by apply (bool_decide_unpack (LF ∉ _))|reflexivity].
Defined.

Lemma session_approval_cached_witness :
  let ask := fun st : ApprovalStore => (st, ApprovedForSession) in
  let store1 := (with_cached_approval (fun k : str => Some k) [lit "a"; lit "b"] ask (∅ : ApprovalStore)).1 in
  with_cached_approval (fun k : str => Some k) [lit "b"] (fun st => (st, Denied)) store1
  = (store1, ApprovedForSession).
Proof.
  intros ask store1.
  apply (session_approval_cached (fun k : str => Some k) [lit "a"; lit "b"] [lit "b"] ask
           (fun st => (st, Denied)) (∅ : ApprovalStore)).
  - repeat (apply Forall_cons; split; [by eexists|]). by apply Forall_nil.
  - discriminate.
  - intros x ->%list_elem_of_singleton. right. left.
  - reflexivity.
Defined.

(** Requirements that forbid [curl], added to a layer whose one file is empty. *)
Definition curl_requirements : Policy map_of_lists :=
  mk_policy (mm_insert (lit "curl") (mk_rule (mk_pattern (lit "curl") []) Forbidden None) mm_new).

Definition loaded_policy : Policy map_of_lists :=
  (unwrap_or (empty_policy, None)
     (load_exec_policy_with_warning (SE:=())
        (fun _ => Ok [Ok (lit "/etc/rules/a.rules", Ok true)]) (fun _ => Ok []) (fun _ => None)
        (fun _ => None) (fun _ => []) (fun _ _ => Ok ()) (fun _ => []) (fun _ => None)
        (fun _ => ()) [Some (lit "/etc")] (Some curl_requirements))).1.

Lemma requirements_bind_unless_parse_fails_witness :
  PrefixRuleMatch [lit "curl"] Forbidden None ∈ matches_for_command loaded_policy [lit "curl"] None.
Proof.
  apply (requirements_bind_unless_parse_fails (SE:=())
    (fun _ => Ok [Ok (lit "/etc/rules/a.rules", Ok true)]) (fun _ => Ok []) (fun _ => None)
    (fun _ => None) (fun _ => []) (fun _ _ => Ok ()) (fun _ => []) (fun _ => None)
    (fun _ => ()) [Some (lit "/etc")] curl_requirements loaded_policy None
    [lit "curl"] (PrefixRuleMatch [lit "curl"] Forbidden None)).
  - vm_compute. reflexivity.
  - vm_compute. left.
Defined.
