(* ===== verification/CodeTree.v ===== *)
(** * Source code trees (crates/happy-core/src/parser/mod.rs, languages.rs)

    The languages the indexer knows and the syntax trees it walks.  The tree-sitter
    parsers are not code of the repository: a tree is data, in which every node has
    its kind, the field of its parent it fills, its byte range and its rows; the
    text of a node in a source is an interface whose law says that it is a piece of
    that source. *)

From Stdlib Require Import Sorted.
From stdpp Require Import sorting.
From S2P Require Import Prelude RustStd.

Inductive SupportedLanguage : Type :=
  Python | JavaScript | TypeScript | Tsx | Rust | Go | Java | Cpp | C.

#[export] Instance SupportedLanguage_eq_dec : EqDecision SupportedLanguage.
Proof. solve_decision. Defined.

(** [SupportedLanguage::from_extension]. *)
Definition from_extension (path : str) : option SupportedLanguage :=
  ext ← extension path;
  if bool_decide (ext ∈ [lit "py"; lit "pyi"]) then Some Python
  else if bool_decide (ext ∈ [lit "js"; lit "mjs"; lit "cjs"]) then Some JavaScript
  else if bool_decide (ext ∈ [lit "ts"; lit "mts"; lit "cts"]) then Some TypeScript
  else if bool_decide (ext ∈ [lit "tsx"; lit "jsx"]) then Some Tsx
  else if bool_decide (ext = lit "rs") then Some Rust
  else if bool_decide (ext = lit "go") then Some Go
  else if bool_decide (ext = lit "java") then Some Java
  else if bool_decide (ext ∈ lit <$> ["cpp"; "cc"; "cxx"; "hpp"; "hxx"; "h"]%string) then Some Cpp
  else if bool_decide (ext = lit "c") then Some C
  else None.

Definition language_name (l : SupportedLanguage) : str :=
  lit match l with
      | Python => "python" | JavaScript => "javascript" | TypeScript => "typescript"
      | Tsx => "tsx" | Rust => "rust" | Go => "go" | Java => "java" | Cpp => "cpp" | C => "c"
      end.

(** ** Nodes *)

Record node_info : Type := mk_info {
  node_kind : str;
  node_field : option str;
  node_start_byte : nat;
  node_end_byte : nat;
  node_start_row : nat;
  node_end_row : nat;
}.

Inductive tnode : Type := TNode (info : node_info) (cs : list tnode).

Definition info (n : tnode) : node_info := let '(TNode i _) := n in i.
Definition tchildren (n : tnode) : list tnode := let '(TNode _ cs) := n in cs.
Definition tkind (n : tnode) : str := node_kind (info n).
Definition tstart (n : tnode) : nat := node_start_byte (info n).
Definition tend (n : tnode) : nat := node_end_byte (info n).
Definition start_line_of (n : tnode) : nat := node_start_row (info n) + 1.
Definition end_line_of (n : tnode) : nat := node_end_row (info n) + 1.

(** [matches!(node.kind(), a | b | ..)]. *)
Definition kind_in (n : tnode) (kinds : list string) : bool :=
  bool_decide (tkind n ∈ lit <$> kinds).
Arguments kind_in _ _%_string_scope.

(** [utf8_text(code)], which slices the bytes of a source: the text of a node in the
    source it was parsed from.  In the empty source, which one caller gives, the slice
    may be out of range and panic; when it does not, it is empty. *)
Class NodeText : Type := {
  utf8_text : str -> tnode -> option str;
  empty_source_text : tnode -> outcome () (option str);
}.
Class NodeTextLaws `{NodeText} : Prop := {
  utf8_text_piece code n t : utf8_text code n = Some t -> exists a b, code = a ++ t ++ b;
  empty_source_text_nil n t : empty_source_text n = Ok (Some t) -> t = [];
}.

(** [utf8_text(code).unwrap_or_default()]. *)
Definition text_of `{NodeText} (code : str) (n : tnode) : str := default [] (utf8_text code n).

(** The byte range of the node in an ASCII source. *)
Definition ascii_text : NodeText := {|
  utf8_text code n :=
    if bool_decide (tstart n <= tend n <= length code)
    then Some (take (tend n - tstart n) (drop (tstart n) code)) else None;
  empty_source_text n := if bool_decide (tend n = 0) then Ok (Some []) else Panic;
|}.

Lemma ascii_text_laws : @NodeTextLaws ascii_text.
Proof.
  split.
  - intros code n t. cbn [utf8_text ascii_text]. case_bool_decide; [|done].
    intros [= <-]. exists (take (tstart n) code), (drop (tend n - tstart n) (drop (tstart n) code)).
    by rewrite (take_drop (tend n - tstart n)), take_drop.
  - intros n t. cbn. case_bool_decide; naive_solver.
Qed.

(** In an empty source every node's text is empty. *)
Lemma text_of_empty `{NodeTextLaws} n : text_of [] n = [].
Proof.
  unfold text_of. destruct (utf8_text [] n) as [t|] eqn:E; [|done].
  apply utf8_text_piece in E as (a & b & Hab). symmetry in Hab.
  apply app_nil in Hab as [_ Hab]. by apply app_nil in Hab as [-> _].
Qed.

(** [child_by_field_name]: the first child that fills the field. *)
Definition child_by_field_name (name : string) (n : tnode) : option tnode :=
  head (filter (fun c => node_field (info c) = Some (lit name)) (tchildren n)).
Arguments child_by_field_name _%_string_scope _.

(** The nodes of a subtree in the order a recursive walk meets them. *)
Fixpoint preorder (n : tnode) : list tnode :=
  let '(TNode _ cs) := n in n :: (cs ≫= preorder).

Lemma preorder_unfold n : preorder n = n :: (tchildren n ≫= preorder).
Proof. by destruct n. Qed.

(** Induction over a tree and its children. *)
Lemma tnode_ind' (P : tnode -> Prop) :
  (forall i cs, Forall P cs -> P (TNode i cs)) -> forall n, P n.
Proof.
  intros Hnode. fix IH 1. intros [i cs]. apply Hnode.
  induction cs; constructor; [apply IH|done].
Qed.

(** A walk that emits something at every node and goes on to the children lists
    what the nodes emit in preorder. *)
Lemma walk_preorder {A} (emit : tnode -> list A) (walk : tnode -> list A) :
  (forall i cs, walk (TNode i cs) = emit (TNode i cs) ++ (cs ≫= walk)) ->
  forall n, walk n = preorder n ≫= emit.
Proof.
  intros Hwalk n. induction n as [i cs IH] using tnode_ind'.
  rewrite Hwalk, preorder_unfold, bind_cons. f_equal. cbn [tchildren].
  induction IH as [|c cs Hc _ IHcs]; [done|]. by rewrite !bind_cons, bind_app, Hc, IHcs.
Qed.

(** ** Well-nested trees

    Every child lies within its parent and the children follow one another. *)
Fixpoint well_nested (n : tnode) : Prop :=
  let '(TNode i cs) := n in
  node_start_byte i <= node_end_byte i /\
  (fix siblings (pos : nat) (cs : list tnode) : Prop :=
     match cs with
     | [] => True
     | c :: cs => pos <= tstart c /\ tend c <= node_end_byte i /\ well_nested c /\ siblings (tend c) cs
     end) (node_start_byte i) cs.

(** Of two nodes in preorder the second lies within the first or after it. *)
Definition within_or_after (a b : tnode) : Prop :=
  (tstart a <= tstart b /\ tend b <= tend a) \/ tend a <= tstart b.

Lemma well_nested_range n : well_nested n -> tstart n <= tend n.
Proof. destruct n. by intros [? _]. Qed.

Lemma StronglySorted_bind {A B} (R : relation B) (f : A -> list B) l :
  (forall x, x ∈ l -> StronglySorted R (f x)) ->
  StronglySorted (fun x y => forall a b, a ∈ f x -> b ∈ f y -> R a b) l ->
  StronglySorted R (l ≫= f).
Proof.
  intros Hin Hl. induction Hl as [|x l Hl IH Hx]; [constructor|]. rewrite bind_cons.
  assert (Hrest : StronglySorted R (l ≫= f)) by (apply IH; intros; apply Hin; set_solver).
  assert (Hcross : forall a b, a ∈ f x -> b ∈ l ≫= f -> R a b).
  { intros a b Ha (y & Hb & Hy)%list_elem_of_bind. rewrite Forall_forall in Hx. by apply (Hx y). }
  clear IH Hl Hx. specialize (Hin x ltac:(set_solver)).
  induction Hin as [|a l' Hl' IH Ha]; [done|]. simpl. constructor.
  - apply IH. intros; apply Hcross; set_solver.
  - apply Forall_app. split; [done|]. apply Forall_forall. intros b Hb. apply Hcross; set_solver.
Qed.

Lemma well_nested_siblings i pos cs :
  (fix siblings (pos : nat) (cs : list tnode) : Prop :=
     match cs with
     | [] => True
     | c :: cs => pos <= tstart c /\ tend c <= node_end_byte i /\ well_nested c /\ siblings (tend c) cs
     end) pos cs ->
  Forall (fun c => pos <= tstart c /\ tend c <= node_end_byte i /\ well_nested c) cs /\
  StronglySorted (fun a b => tend a <= tstart b) cs.
Proof.
  revert pos. induction cs as [|c cs IH]; intros pos; [by split; constructor|].
  intros (Hpos & Hend & Hc & Hcs). destruct (IH _ Hcs) as [Hall Hsort].
  pose proof (well_nested_range c Hc). split.
  - constructor; [done|]. eapply Forall_impl; [exact Hall|]. simpl. intros d (? & ? & ?). lia || (split; [lia|done]).
  - constructor; [done|]. eapply Forall_impl; [exact Hall|]. simpl. intros d (? & ? & ?). lia.
Qed.

Lemma preorder_range n : well_nested n ->
  forall m, m ∈ preorder n -> tstart n <= tstart m /\ tend m <= tend n /\ tstart m <= tend m.
Proof.
  induction n as [i cs IH] using tnode_ind'. intros [Hi Hs]%id m. rewrite preorder_unfold.
  apply well_nested_siblings in Hs as [Hall _].
  intros [->|(c & Hm & Hc)%list_elem_of_bind]%elem_of_cons; [by cbn|].
  rewrite Forall_forall in IH. rewrite Forall_forall in Hall.
  destruct (Hall c Hc) as (Hstart & Hend & Hn).
  destruct (IH c Hc Hn m Hm) as (? & ? & ?). unfold tstart, tend in *. cbn [info] in *. lia.
Qed.

Lemma preorder_nested n : well_nested n -> StronglySorted within_or_after (preorder n).
Proof.
  induction n as [i cs IH] using tnode_ind'. intros Hn. rewrite preorder_unfold.
  pose proof (preorder_range _ Hn) as Hrange. destruct Hn as [Hi Hs].
  apply well_nested_siblings in Hs as [Hall Hsort]. constructor.
  - cbn [tchildren]. rewrite Forall_forall in IH. rewrite Forall_forall in Hall.
    apply StronglySorted_bind.
    + intros c Hc. by apply IH, Hall.
    + assert (Hin : forall c, c ∈ cs -> well_nested c) by (intros c Hc; by apply Hall).
      clear IH Hall Hrange. induction Hsort as [|c cs Hcs IHcs Hc]; [constructor|]. constructor.
      { apply IHcs. intros; apply Hin; set_solver. }
      rewrite Forall_forall in Hc. apply Forall_forall. intros d Hd a b Ha Hb. right.
      apply (preorder_range c ltac:(apply Hin; set_solver)) in Ha as (? & ? & ?).
      apply (preorder_range d ltac:(apply Hin; set_solver)) in Hb as (? & ? & ?).
      specialize (Hc d Hd). lia.
  - apply Forall_forall. intros m Hm. left.
    destruct (Hrange m) as (? & ? & ?); [rewrite preorder_unfold; by right|done].
Qed.
