(* ===== verification/CallExtraction.v ===== *)
(** * Call extraction (crates/happy-core/src/parser/calls.rs)

    The calls of a syntax tree, each with the name called, the object it is called
    on and the innermost function or class it stands in. *)

From Stdlib Require Import Sorted.
From stdpp Require Import sorting.
From S2P Require Import Prelude RustStd Order.
From S2P Require Import CodeTree.

Inductive CallType : Type := Simple | Attribute.

#[export] Instance CallType_eq_dec : EqDecision CallType.
Proof. solve_decision. Defined.

Record CallInfo : Type := mk_call {
  call_name : str;
  base_object : option str;
  call_type : CallType;
  scope_id : option str;
  call_start_byte : nat;
  call_end_byte : nat;
  call_start_line : nat;
  call_end_line : nat;
  call_node_text : str;
}.

Record ScopeInfo : Type := mk_scope {
  scope_type : str;
  scope_name : str;
  scope_start_byte : nat;
  scope_end_byte : nat;
}.

Definition PYTHON_BUILTINS : list str := lit <$>
  [
    "abs"; "all"; "any"; "bin"; "bool"; "breakpoint"; "bytearray"; "bytes"; "callable";
    "chr"; "classmethod"; "compile"; "complex"; "delattr"; "dict"; "dir"; "divmod";
    "enumerate"; "eval"; "exec"; "filter"; "float"; "format"; "frozenset"; "getattr";
    "globals"; "hasattr"; "hash"; "help"; "hex"; "id"; "input"; "int"; "isinstance";
    "issubclass"; "iter"; "len"; "list"; "locals"; "map"; "max"; "memoryview"; "min";
    "next"; "object"; "oct"; "open"; "ord"; "pow"; "print"; "property"; "range"; "repr";
    "reversed"; "round"; "set"; "setattr"; "slice"; "sorted"; "staticmethod"; "str"; "sum";
    "super"; "tuple"; "type"; "vars"; "zip"
  ]%string.

Section calls.
Context `{NodeText}.

(** ** Scopes *)

(** What [collect_scopes] pushes at one node. *)
Definition node_scope (code : str) (n : tnode) : option ScopeInfo :=
  if kind_in n ["function_definition"; "function_declaration"; "function_item";
                "method_definition"; "method_declaration"; "constructor_declaration"] then
    name_node ← child_by_field_name "name" n;
    Some (mk_scope (lit "function") (text_of code name_node) (tstart n) (tend n))
  else if kind_in n ["class_definition"; "class_declaration"; "struct_item"; "impl_item";
                     "enum_item"; "interface_declaration"; "enum_declaration"] then
    name_node ← match child_by_field_name "name" n with
                | Some name_node => Some name_node
                | None => child_by_field_name "type" n
                end;
    Some (mk_scope (lit "class") (text_of code name_node) (tstart n) (tend n))
  else None.

Fixpoint collect_scopes (code : str) (n : tnode) : list ScopeInfo :=
  let '(TNode _ cs) := n in
  option_list (node_scope code n) ++ (cs ≫= collect_scopes code).

Definition extract_scopes (code : str) (n : tnode) : list ScopeInfo :=
  sort_by_key scope_start_byte (collect_scopes code n).

(** [format!("{}::{}", scope.scope_type, scope.name)]. *)
Definition scope_label (s : ScopeInfo) : str := scope_type s ++ lit "::" ++ scope_name s.

Definition scope_contains (byte_pos : nat) (s : ScopeInfo) : bool :=
  (scope_start_byte s <=? byte_pos) && (byte_pos <? scope_end_byte s).

(** [for scope in scopes.iter().rev()]: the first hit from the end. *)
Definition find_scope_for_position (byte_pos : nat) (scopes : list ScopeInfo) : option str :=
  scope_label <$> head (filter (fun s => scope_contains byte_pos s = true) (reverse scopes)).

(** ** Calls of each language *)

(** A name called on an object: the texts of two fields. *)
Definition field_call (code : str) (object name : string) (n : tnode)
    : option (str * option str * CallType) :=
  object_node ← child_by_field_name object n;
  name_node ← child_by_field_name name n;
  base ← utf8_text code object_node;
  name ← utf8_text code name_node;
  Some (name, Some base, Attribute).

Definition identifier_call (code : str) (n : tnode) : option (str * option str * CallType) :=
  name ← utf8_text code n; Some (name, None, Simple).

(** [text.rfind("::")] splits the path from the name. *)
Definition scoped_call (code : str) (n : tnode) : option (str * option str * CallType) :=
  text ← utf8_text code n;
  match rsplit_once (lit "::") text with
  | Some (base, name) => Some (name, Some base, Attribute)
  | None => Some (text, None, Simple)
  end.

Definition extract_python_call (code : str) (n : tnode) : option (str * option str * CallType) :=
  if kind_in n ["identifier"] then identifier_call code n
  else if kind_in n ["attribute"] then field_call code "object" "attribute" n
  else None.

Definition extract_js_ts_call (code : str) (n : tnode) : option (str * option str * CallType) :=
  if kind_in n ["identifier"] then identifier_call code n
  else if kind_in n ["member_expression"] then field_call code "object" "property" n
  else None.

Definition extract_rust_call (code : str) (n : tnode) : option (str * option str * CallType) :=
  if kind_in n ["identifier"] then identifier_call code n
  else if kind_in n ["field_expression"] then field_call code "value" "field" n
  else if kind_in n ["scoped_identifier"] then scoped_call code n
  else None.

Definition extract_go_call (code : str) (n : tnode) : option (str * option str * CallType) :=
  if kind_in n ["identifier"] then identifier_call code n
  else if kind_in n ["selector_expression"] then field_call code "operand" "field" n
  else None.

Definition extract_java_call (code : str) (n : tnode) : option (str * option str * CallType) :=
  name_node ← child_by_field_name "name" n;
  name ← utf8_text code name_node;
  let base := child_by_field_name "object" n ≫= utf8_text code in
  Some (name, base, match base with Some _ => Attribute | None => Simple end).

Definition extract_c_cpp_call (code : str) (n : tnode) : option (str * option str * CallType) :=
  if kind_in n ["identifier"] then identifier_call code n
  else if kind_in n ["field_expression"] then field_call code "argument" "field" n
  else if kind_in n ["qualified_identifier"] then scoped_call code n
  else None.

(** ** The extraction *)

Definition is_call (language : SupportedLanguage) (n : tnode) : bool :=
  match language with
  | Python => kind_in n ["call"]
  | Java => kind_in n ["method_invocation"]
  | _ => kind_in n ["call_expression"]
  end.

Definition call_target (code : str) (language : SupportedLanguage) (n : tnode)
    : option (str * option str * CallType) :=
  if bool_decide (language = Java) then extract_java_call code n
  else
    function_node ← child_by_field_name "function" n;
    match language with
    | Python => extract_python_call code function_node
    | JavaScript | TypeScript | Tsx => extract_js_ts_call code function_node
    | Rust => extract_rust_call code function_node
    | Go => extract_go_call code function_node
    | C | Cpp => extract_c_cpp_call code function_node
    | Java => None (* unreachable!(): the language is not Java here *)
    end.

Definition process_call_node (code : str) (language : SupportedLanguage)
    (scopes : list ScopeInfo) (n : tnode) : option CallInfo :=
  '(name, base, kind) ← call_target code language n;
  Some (mk_call name base kind (find_scope_for_position (tstart n) scopes)
          (tstart n) (tend n) (start_line_of n) (end_line_of n) (text_of code n)).

Definition should_filter_call (language : SupportedLanguage) (call : CallInfo) : bool :=
  match language with
  | Python => bool_decide (call_type call = Simple) && bool_decide (call_name call ∈ PYTHON_BUILTINS)
  | _ => false
  end.

(** What [extract_calls_recursive] pushes at one node. *)
Definition node_call (code : str) (language : SupportedLanguage) (scopes : list ScopeInfo)
    (n : tnode) : option CallInfo :=
  if is_call language n then
    call ← process_call_node code language scopes n;
    if negb (should_filter_call language call) then Some call else None
  else None.

Fixpoint extract_calls_recursive (code : str) (language : SupportedLanguage)
    (scopes : list ScopeInfo) (n : tnode) : list CallInfo :=
  let '(TNode _ cs) := n in
  option_list (node_call code language scopes n)
  ++ (cs ≫= extract_calls_recursive code language scopes).

Definition extract_calls (tree : tnode) (code : str) (language : SupportedLanguage)
    : list CallInfo :=
  extract_calls_recursive code language (extract_scopes code tree) tree.

(** ** Lemmas *)

Lemma bind_option_list {A B} (f : A -> option B) (l : list A) :
  l ≫= (fun x => option_list (f x)) = omap f l.
Proof. induction l as [|x l IH]; [done|]. csimpl. destruct (f x); simpl; by rewrite <-IH. Qed.

Lemma collect_scopes_preorder code n : collect_scopes code n = omap (node_scope code) (preorder n).
Proof. rewrite <-bind_option_list. by apply (walk_preorder (fun n => option_list (node_scope code n))). Qed.

Lemma extract_calls_preorder code language tree :
  extract_calls tree code language
  = omap (node_call code language (extract_scopes code tree)) (preorder tree).
Proof.
  rewrite <-bind_option_list.
  by apply (walk_preorder (fun n => option_list (node_call code language (extract_scopes code tree) n))).
Qed.

Lemma node_scope_range code n s :
  node_scope code n = Some s -> scope_start_byte s = tstart n /\ scope_end_byte s = tend n.
Proof.
  unfold node_scope. intros Hs. repeat case_match; simplify_option_eq; try done;
    repeat case_match; simplify_option_eq; done.
Qed.
Lemma within_or_after_start a b : tstart a <= tend a -> within_or_after a b -> tstart a <= tstart b.
Proof. unfold within_or_after. lia. Qed.

(** In a well-nested tree the scopes are met in the order of their starts, so that
    sorting leaves them as they are. *)
Lemma extract_scopes_preorder code root :
  well_nested root -> extract_scopes code root = omap (node_scope code) (preorder root).
Proof.
  intros Hwn. unfold extract_scopes. rewrite collect_scopes_preorder. apply sort_by_key_sorted.
  pose proof (preorder_range root Hwn) as Hrange.
  induction (preorder_nested root Hwn) as [|n l _ IH Hn]; [constructor|].
  csimpl. specialize (IH ltac:(intros; apply Hrange; by right)).
  destruct (node_scope code n) as [s|] eqn:Hs; [|done]. constructor; [done|].
  apply Forall_forall. intros s' (m & Hm & Hs')%list_elem_of_omap.
  apply node_scope_range in Hs as [-> _], Hs' as [-> _].
  rewrite Forall_forall in Hn. apply within_or_after_start; [|by apply Hn].
  by apply (Hrange n ltac:(left)).
Qed.

(** The position lies in the bytes of the node. *)
Definition covers (n : tnode) (byte_pos : nat) : Prop := tstart n <= byte_pos < tend n.

Lemma scope_contains_covers code n s byte_pos :
  node_scope code n = Some s -> scope_contains byte_pos s = true <-> covers n byte_pos.
Proof.
  intros [Hstart Hend]%node_scope_range. unfold scope_contains, covers.
  rewrite andb_true_iff, Nat.leb_le, Nat.ltb_lt. lia.
Qed.

Lemma head_filter_reverse {A} (P : A -> Prop) `{!forall x, Decision (P x)} (l : list A) x :
  head (filter P (reverse l)) = Some x <->
  P x /\ exists l1 l2, l = l1 ++ x :: l2 /\ Forall (fun y => ~ P y) l2.
Proof.
  induction l as [|y l IH] using rev_ind.
  { split; [done|]. intros (_ & l1 & l2 & Hl & _). by destruct l1. }
  rewrite reverse_snoc. destruct (decide (P y)) as [Hy|Hy].
  - rewrite filter_cons_True by done. cbn [head]. split.
    + intros [= <-]. split; [done|]. exists l, []. by split; [|constructor].
    + intros (Hx & l1 & l2 & Hl & Hall). destruct l2 as [|z l2 _] using rev_ind.
      * by apply app_inj_tail in Hl as [_ ->].
      * rewrite app_comm_cons, app_assoc in Hl. apply app_inj_tail in Hl as [_ ->].
        apply Forall_app in Hall as [_ Hz]. by inversion Hz.
  - rewrite filter_cons_False by done. rewrite IH. split.
    + intros (Hx & l1 & l2 & -> & Hall). split; [done|]. exists l1, (l2 ++ [y]).
      rewrite <-app_assoc. split; [done|]. apply Forall_app; by repeat constructor.
    + intros (Hx & l1 & l2 & Hl & Hall). split; [done|].
      destruct l2 as [|z l2 _] using rev_ind; [by apply app_inj_tail in Hl as [_ ->]|].
      rewrite app_comm_cons, app_assoc in Hl. apply app_inj_tail in Hl as [-> ->].
      apply Forall_app in Hall as [? _]. by exists l1, l2.
Qed.

(** Of an [omap] split at an element, the list is split at an argument of it. *)
Lemma omap_split {A B} (f : A -> option B) l l1 y l2 :
  omap f l = l1 ++ y :: l2 ->
  exists k1 x k2, l = k1 ++ x :: k2 /\ f x = Some y /\ omap f k2 = l2.
Proof.
  revert l1. induction l as [|x l IH]; intros l1 Hl; [by destruct l1|].
  csimpl in Hl. destruct (f x) as [z|] eqn:Hx.
  - destruct l1 as [|z' l1]; simplify_eq/=; [by exists [], x, l|].
    destruct (IH l1) as (k1 & x' & k2 & -> & ? & ?); [done|]. by exists (x :: k1), x', k2.
  - destruct (IH l1 Hl) as (k1 & x' & k2 & -> & ? & ?). by exists (x :: k1), x', k2.
Qed.

(** What the scope search promises: the label of the smallest scope around the
    position. *)
Definition innermost_scope (code : str) (root : tnode) (byte_pos : nat) (label : option str) : Prop :=
  match label with
  | Some label => exists n s, n ∈ preorder root /\ node_scope code n = Some s /\
      label = scope_label s /\ covers n byte_pos /\
      forall m s', m ∈ preorder root -> node_scope code m = Some s' -> covers m byte_pos ->
        tstart m <= tstart n /\ tend n <= tend m
  | None => forall m s', m ∈ preorder root -> node_scope code m = Some s' -> ~ covers m byte_pos
  end.

Lemma find_scope_innermost code root byte_pos :
  well_nested root ->
  innermost_scope code root byte_pos (find_scope_for_position byte_pos (extract_scopes code root)).
Proof.
  intros Hwn. unfold find_scope_for_position. rewrite (extract_scopes_preorder code root Hwn).
  destruct (head (filter _ _)) as [s|] eqn:E; cbn [fmap option_fmap option_map innermost_scope].
  - apply head_filter_reverse in E as (Hs & l1 & l2 & Hl & Hall).
    destruct (omap_split _ _ _ _ _ Hl) as (k1 & n & k2 & Hk & Hn & <-).
    exists n, s. split; [rewrite Hk; set_solver|]. split; [done|]. split; [done|].
    apply (scope_contains_covers _ _ _ _ Hn) in Hs. split; [done|].
    intros m s' Hm Hs' Hcov. rewrite Hk in Hm.
    pose proof (preorder_nested root Hwn) as Hsorted. rewrite Hk in Hsorted.
    apply elem_of_app in Hm as [Hm|[->|Hm]%elem_of_cons]; [|done|].
    + assert (within_or_after m n) as Hw.
      { apply StronglySorted_app in Hsorted as (Hx & _ & _). apply Hx; [done|left]. }
      unfold within_or_after, covers in *. lia.
    + rewrite Forall_forall in Hall. destruct (Hall s'); [by apply list_elem_of_omap; eauto|].
      by apply (scope_contains_covers _ _ _ _ Hs').
  - intros m s' Hm Hs' Hcov%(scope_contains_covers _ _ _ _ Hs').
    assert (s' ∈ filter (fun s => scope_contains byte_pos s = true)
                   (reverse (omap (node_scope code) (preorder root)))) as Hin.
    { apply list_elem_of_filter. split; [done|]. apply elem_of_reverse, list_elem_of_omap. eauto. }
    destruct (filter _ _); [set_solver|done].
Qed.

(** Every call the extraction reports stands in the innermost function or class
    around it; a call outside of all of them has no scope. *)
Theorem calls_in_innermost_scope code root language c :
  well_nested root -> c ∈ extract_calls root code language ->
  innermost_scope code root (call_start_byte c) (scope_id c).
Proof.
  intros Hwn Hc. rewrite extract_calls_preorder in Hc.
  apply list_elem_of_omap in Hc as (n & _ & Hc). unfold node_call in Hc.
  destruct (is_call language n); [|done].
  destruct (process_call_node _ _ _ _) as [c'|] eqn:E; [|done].
  cbn [mbind option_bind] in Hc. case_match; simplify_eq. unfold process_call_node in E.
  destruct (call_target _ _ _) as [[[name base] kind]|]; simplify_eq/=.
  by apply find_scope_innermost.
Qed.
(** A call is reported exactly when it is a call node of the tree whose callee is
    named, and it is not a bare Python built-in. *)
Lemma extract_calls_iff code root language c :
  c ∈ extract_calls root code language <->
  exists n name base kind, n ∈ preorder root /\ is_call language n = true /\
    call_target code language n = Some (name, base, kind) /\
    ~ (language = Python /\ kind = Simple /\ name ∈ PYTHON_BUILTINS) /\
    c = mk_call name base kind (find_scope_for_position (tstart n) (extract_scopes code root))
          (tstart n) (tend n) (start_line_of n) (end_line_of n) (text_of code n).
Proof.
  rewrite extract_calls_preorder, list_elem_of_omap.
  assert (Hf : forall n name base kind,
    should_filter_call language
      (mk_call name base kind (find_scope_for_position (tstart n) (extract_scopes code root))
         (tstart n) (tend n) (start_line_of n) (end_line_of n) (text_of code n)) = true
    <-> language = Python /\ kind = Simple /\ name ∈ PYTHON_BUILTINS).
  { intros. unfold should_filter_call. destruct language; try naive_solver.
    cbn [call_type call_name]. rewrite andb_true_iff, !bool_decide_eq_true. naive_solver. }
  split.
  - intros (n & Hn & Hc). unfold node_call, process_call_node in Hc.
    destruct (is_call language n) eqn:Hcall; [|done].
    destruct (call_target code language n) as [[[name base] kind]|] eqn:Ht; [|done].
    cbn [mbind option_bind] in Hc. case_match eqn:Hneg; simplify_eq.
    exists n, name, base, kind. rewrite <-(Hf n name base kind). apply negb_true_iff in Hneg.
    rewrite Hneg. naive_solver.
  - intros (n & name & base & kind & Hn & Hcall & Ht & Hno & ->). exists n. split; [done|].
    rewrite <-(Hf n name base kind) in Hno. apply not_true_iff_false in Hno.
    unfold node_call, process_call_node. rewrite Hcall, Ht. cbn [mbind option_bind]. by rewrite Hno.
Qed.
End calls.

(** A Python function [f] in a class [C], calling [g]: ["class C:\n def f(): g()"]. *)
Definition example_call_tree : tnode :=
  let node kind field a b cs := TNode (mk_info (lit kind) (lit <$> field) a b 0 0) cs in
  node "module" None 0 22
    [node "class_definition" None 0 22
       [node "identifier" (Some "name") 6 7 [];
        node "block" (Some "body") 10 22
          [node "function_definition" None 10 22
             [node "identifier" (Some "name") 14 15 [];
              node "call" None 19 22 [node "identifier" (Some "function") 19 20 []]]]]]%string.

Definition example_call_source : str := lit "class C:  def f(): g()".

Lemma calls_in_innermost_scope_witness :
  let _ := ascii_text in
  exists c, c ∈ extract_calls example_call_tree example_call_source Python /\
    scope_id c = Some (lit "function::f") /\
    innermost_scope example_call_source example_call_tree (call_start_byte c) (scope_id c).
Proof.
  intros text.
  exists (mk_call (lit "g") None Simple (Some (lit "function::f")) 19 22 1 1 (lit "g()")).
  assert (mk_call (lit "g") None Simple (Some (lit "function::f")) 19 22 1 1 (lit "g()")
          ∈ extract_calls example_call_tree example_call_source Python) as Hin.
  { apply list_elem_of_In. vm_compute. left. reflexivity. }
  split; [exact Hin|]. split; [reflexivity|].
  apply (calls_in_innermost_scope _ _ Python); [|exact Hin].
  cbn. unfold tstart, tend; cbn. repeat split; lia.
Defined.
