(* ===== verification/ImportExtraction.v ===== *)
(** * Import extraction (crates/happy-core/src/parser/imports.rs)

    The import statements of a syntax tree, language by language: the module, the
    names imported from it, and for Python the number of leading dots. *)

From S2P Require Import Prelude RustStd.
From S2P Require Import CodeTree.

Record ImportInfo : Type := mk_import {
  import_module : str;
  import_names : list str;
  import_level : nat;
  import_start_line : nat;
  import_end_line : nat;
}.

Section imports.
Context `{NodeText}.

(** An import that reports the lines of [n]. *)
Definition import_at (n : tnode) (module : str) (names : list str) (level : nat) : ImportInfo :=
  mk_import module names level (start_line_of n) (end_line_of n).

(** ** Python *)

(** [import foo, foo.bar as baz]. *)
Definition python_import_statement (code : str) (n : tnode) : list ImportInfo :=
  tchildren n ≫= fun child =>
    if kind_in child ["dotted_name"] then
      let module := text_of code child in [import_at n module [module] 0]
    else if kind_in child ["aliased_import"] then
      match child_by_field_name "name" child with
      | Some name_node => let module := text_of code name_node in [import_at n module [module] 0]
      | None => []
      end
    else [].

(** The variables of the loop over the children of [from .. import ..]. *)
Record from_state : Type := mk_from {
  from_module : str;
  from_names : list str;
  from_level : nat;
  seen_import_keyword : bool;
}.

Definition count_dots (s : str) : nat := length (filter (fun c => c = ch ".") s).

(** [for rchild in child.children(..)] of a [relative_import]. *)
Definition relative_import_step (code : str) (st : from_state) (rchild : tnode) : from_state :=
  if kind_in rchild ["import_prefix"] then
    mk_from (from_module st) (from_names st) (count_dots (text_of code rchild)) (seen_import_keyword st)
  else if kind_in rchild ["dotted_name"] then
    mk_from (text_of code rchild) (from_names st) (from_level st) (seen_import_keyword st)
  else st.

Definition add_from_name (name : str) (st : from_state) : from_state :=
  mk_from (from_module st) (from_names st ++ [name]) (from_level st) (seen_import_keyword st).

Definition from_import_step (code : str) (st : from_state) (child : tnode) : from_state :=
  let text := text_of code child in
  if bool_decide (text = lit "import") && kind_in child ["import"] then
    mk_from (from_module st) (from_names st) (from_level st) true
  else if negb (seen_import_keyword st) then
    if kind_in child ["relative_import"] then
      foldl (relative_import_step code) st (tchildren child)
    else if kind_in child ["import_prefix"] then
      mk_from (from_module st) (from_names st) (count_dots text) (seen_import_keyword st)
    else st
  else
    if kind_in child ["dotted_name"; "identifier"] then
      if bool_decide (text = []) then st else add_from_name text st
    else if kind_in child ["aliased_import"] then
      match child_by_field_name "name" child with
      | Some name_node => add_from_name (text_of code name_node) st
      | None => st
      end
    else if kind_in child ["wildcard_import"] then add_from_name (lit "*") st
    else st.

(** [from foo import bar, baz]. *)
Definition python_import_from_statement (code : str) (n : tnode) : ImportInfo :=
  let module := match child_by_field_name "module_name" n with
                | Some module_node => text_of code module_node
                | None => []
                end in
  let st := foldl (from_import_step code) (mk_from module [] 0 false) (tchildren n) in
  import_at n (from_module st) (from_names st) (from_level st).

Fixpoint collect_python_imports (code : str) (n : tnode) : list ImportInfo :=
  let '(TNode _ cs) := n in
  if kind_in n ["import_statement"] then python_import_statement code n
  else if kind_in n ["import_from_statement"] then [python_import_from_statement code n]
  else cs ≫= collect_python_imports code.

(** ** JavaScript and TypeScript *)

Definition is_quote (c : char) : bool := bool_decide (c = ch "'") || bool_decide (c = 34%N).

Fixpoint collect_js_import_names (code : str) (n : tnode) : list str :=
  let '(TNode _ cs) := n in
  if kind_in n ["identifier"] then
    let name := text_of code n in if bool_decide (name = []) then [] else [name]
  else if kind_in n ["import_specifier"] then
    let name := default [] (child_by_field_name "name" n ≫= utf8_text code) in
    if bool_decide (name = []) then [] else [name]
  else if kind_in n ["namespace_import"] then [lit "*"]
  else cs ≫= collect_js_import_names code.

Definition js_import_statement (code : str) (n : tnode) : ImportInfo :=
  let module := default [] (trim_matches is_quote <$> (child_by_field_name "source" n ≫= utf8_text code)) in
  let names := tchildren n ≫= fun child =>
    if kind_in child ["import_clause"] then collect_js_import_names code child
    else if kind_in child ["identifier"] then
      let name := text_of code child in
      if bool_decide (name <> lit "import") && bool_decide (name <> lit "from") then [name] else []
    else [] in
  import_at n module names 0.

(** [require("module")]. *)
Definition js_require (code : str) (n : tnode) : list ImportInfo :=
  match child_by_field_name "function" n with
  | Some func =>
      if bool_decide (text_of code func = lit "require") then
        match child_by_field_name "arguments" n with
        | Some args => tchildren args ≫= fun arg =>
            if kind_in arg ["string"] then [import_at n (trim_matches is_quote (text_of code arg)) [] 0]
            else []
        | None => []
        end
      else []
  | None => []
  end.

Fixpoint collect_js_ts_imports (code : str) (n : tnode) : list ImportInfo :=
  let '(TNode _ cs) := n in
  if kind_in n ["import_statement"] then [js_import_statement code n]
  else if kind_in n ["call_expression"] then js_require code n
  else cs ≫= collect_js_ts_imports code.

(** ** Rust *)

(** The walk below a child that fills a field. *)
Definition walk_field {A} (name : string) (walks : list (tnode * A)) : option A :=
  snd <$> head (filter (fun cw => node_field (info cw.1) = Some (lit name)) walks).

(** [walk_use]: the state is the path so far and the names. *)
Fixpoint walk_use (code : str) (n : tnode) (st : list str * list str) : list str * list str :=
  let '(TNode _ cs) := n in
  let walks := (fun c => (c, walk_use code c)) <$> cs in
  let walk name st := match walk_field name walks with Some w => w st | None => st end in
  if kind_in n ["scoped_identifier"; "scoped_use_list"] then
    let '(parts, names) := walk "path"%string st in
    let '(parts, names) :=
      match child_by_field_name "name" n with
      | Some name => (parts ++ [text_of code name], names ++ [text_of code name])
      | None => (parts, names)
      end in
    match child_by_field_name "list" n with
    | Some list => (parts, names ++ (tchildren list ≫= fun child =>
        if kind_in child ["identifier"; "scoped_identifier"] then [text_of code child]
        else if kind_in child ["use_as_clause"] then
          match head (tchildren child) with Some orig => [text_of code orig] | None => [] end
        else []))
    | None => (parts, names)
    end
  else if kind_in n ["identifier"; "crate"; "self"; "super"] then
    (st.1 ++ [text_of code n], st.2)
  else if kind_in n ["use_declaration"] then
    foldl (fun st cw => if kind_in cw.1 ["use"; ";"; "pub"] then st else cw.2 st) st walks
  else if kind_in n ["use_wildcard"] then
    let '(parts, names) := walk "path"%string st in (parts, names ++ [lit "*"])
  else if kind_in n ["use_as_clause"] then
    match walks with cw :: _ => cw.2 st | [] => st end
  else st.

(** [extract_rust_use_path]: the path and the names. *)
Definition extract_rust_use_path (code : str) (n : tnode) : str * list str :=
  let '(parts, names) := walk_use code n ([], []) in (join (lit "::") parts, names).

Fixpoint collect_rust_imports (code : str) (n : tnode) : list ImportInfo :=
  let '(TNode _ cs) := n in
  if kind_in n ["use_declaration"] then
    let '(path, names) := extract_rust_use_path code n in [import_at n path names 0]
  else if kind_in n ["mod_item"] then
    match child_by_field_name "name" n, child_by_field_name "body" n with
    | Some name_node, None => let name := text_of code name_node in [import_at n name [name] 0]
    | _, _ => []
    end
  else cs ≫= collect_rust_imports code.

(** ** Go *)

Definition trim_quote (s : str) : str := trim_matches (fun c => bool_decide (c = 34%N)) s.

Definition extract_go_import_path (code : str) (n : tnode) : str :=
  match filter (fun c => kind_in c ["interpreted_string_literal"] = true) (tchildren n) with
  | child :: _ => trim_quote (text_of code child)
  | [] => trim_quote (text_of code n)
  end.

Definition go_import (n : tnode) (module : str) : ImportInfo :=
  import_at n module [default module (rsplit_next (ch "/") module)] 0.

Definition go_import_declaration (code : str) (n : tnode) : list ImportInfo :=
  tchildren n ≫= fun child =>
    if kind_in child ["import_spec"] then [go_import child (extract_go_import_path code child)]
    else if kind_in child ["import_spec_list"] then
      tchildren child ≫= fun spec =>
        if kind_in spec ["import_spec"] then [go_import spec (extract_go_import_path code spec)]
        else []
    else if kind_in child ["interpreted_string_literal"] then
      [go_import child (trim_quote (text_of code child))]
    else [].

Fixpoint collect_go_imports (code : str) (n : tnode) : list ImportInfo :=
  let '(TNode _ cs) := n in
  if kind_in n ["import_declaration"] then go_import_declaration code n
  else cs ≫= collect_go_imports code.

(** ** Java *)

Fixpoint collect_java_imports (code : str) (n : tnode) : list ImportInfo :=
  let '(TNode _ cs) := n in
  if kind_in n ["import_declaration"] then
    let module :=
      trim (trim_end_matches (ch ";")
        (trim_start_matches_str (lit "static ")
          (trim_start_matches_str (lit "import ") (trim (text_of code n))))) in
    [import_at n module [default module (rsplit_next (ch ".") module)] 0]
  else if kind_in n ["package_declaration"] then
    let module :=
      trim (trim_end_matches (ch ";")
        (trim_start_matches_str (lit "package ") (trim (text_of code n)))) in
    [import_at n module [] 0]
  else cs ≫= collect_java_imports code.

(** ** C and C++ *)

Definition is_include_delimiter (c : char) : bool := bool_decide (c ∈ [ch "<"; ch ">"; 34%N]).

Fixpoint collect_c_cpp_imports (code : str) (n : tnode) : list ImportInfo :=
  let '(TNode _ cs) := n in
  if kind_in n ["preproc_include"] then
    tchildren n ≫= fun child =>
      if kind_in child ["system_lib_string"; "string_literal"] then
        let module := trim_matches is_include_delimiter (text_of code child) in
        [import_at n module [module] 0]
      else []
  else cs ≫= collect_c_cpp_imports code.

(** ** Dispatch *)

Definition extract_imports (tree : tnode) (code : str) (language : SupportedLanguage)
    : list ImportInfo :=
  match language with
  | Python => collect_python_imports code tree
  | JavaScript | TypeScript | Tsx => collect_js_ts_imports code tree
  | Rust => collect_rust_imports code tree
  | Go => collect_go_imports code tree
  | Java => collect_java_imports code tree
  | Cpp | C => collect_c_cpp_imports code tree
  end.
(** ** What a [from .. import ..] statement yields *)

(** The names a node behind the keyword [import] contributes. *)
Definition imported_names (code : str) (child : tnode) : list str :=
  if kind_in child ["dotted_name"; "identifier"] then
    if bool_decide (text_of code child = []) then [] else [text_of code child]
  else if kind_in child ["aliased_import"] then
    match child_by_field_name "name" child with Some n => [text_of code n] | None => [] end
  else if kind_in child ["wildcard_import"] then [lit "*"]
  else [].

Lemma kind_in_true n kinds : kind_in n kinds = true <-> tkind n ∈ lit <$> kinds.
Proof. unfold kind_in. by rewrite bool_decide_eq_true. Qed.

Lemma from_import_names code st rest :
  seen_import_keyword st = true -> Forall (fun c => kind_in c ["import"] = false) rest ->
  foldl (from_import_step code) st rest
  = mk_from (from_module st) (from_names st ++ (rest ≫= imported_names code)) (from_level st) true.
Proof.
  intros Hseen Hrest. revert st Hseen. induction Hrest as [|c rest Hc _ IH]; intros st Hseen.
  { destruct st. simpl in *. subst. by rewrite app_nil_r. }
  cbn [foldl]. rewrite bind_cons.
  assert (Hstep : from_import_step code st c
    = mk_from (from_module st) (from_names st ++ imported_names code c) (from_level st) true).
  { unfold from_import_step, imported_names. rewrite Hc, andb_false_r, Hseen. cbn [negb].
    destruct st as [m ns l b]. cbn [seen_import_keyword] in Hseen. subst b.
    repeat case_match; unfold add_from_name; cbn; by rewrite ?app_nil_r. }
  rewrite Hstep, IH by done. cbn. by rewrite app_assoc.
Qed.

(** A statement of the keyword [from], the module, the keyword [import] and what is
    imported. *)
Definition from_statement (code : str) (n from module kw : tnode) (rest : list tnode) : Prop :=
  tchildren n = from :: module :: kw :: rest /\
  tkind from = lit "from" /\ node_field (info from) = None /\
  node_field (info module) = Some (lit "module_name") /\
  tkind kw = lit "import" /\ text_of code kw = lit "import" /\
  Forall (fun c => kind_in c ["import"] = false) rest.

(** Decide the membership of a literal kind in a literal list. *)
Ltac kind_cases :=
  repeat match goal with
  | |- context [bool_decide (lit ?k ∈ ?l)] =>
      let b := eval vm_compute in (bool_decide (lit k ∈ l)) in
      change (bool_decide (lit k ∈ l)) with b; cbn [andb]
  end.

Lemma from_statement_fold code n from module kw rest st :
  from_statement code n from module kw rest ->
  from_import_step code (mk_from (text_of code module) [] 0 false) module = st ->
  seen_import_keyword st = false ->
  python_import_from_statement code n
  = import_at n (from_module st) (from_names st ++ (rest ≫= imported_names code)) (from_level st).
Proof.
  intros (Hcs & Hfrom & Hff & Hfield & Hkw & Hkwt & Hrest) Hst Hseen.
  unfold python_import_from_statement, child_by_field_name. rewrite Hcs.
  rewrite filter_cons_False by (rewrite Hff; done). rewrite filter_cons_True by done.
  cbn [head foldl].
  assert (Hk : from_import_step code (mk_from (text_of code module) [] 0 false) from
               = mk_from (text_of code module) [] 0 false).
  { unfold from_import_step, kind_in. rewrite Hfrom. cbn [seen_import_keyword negb].
    rewrite (bool_decide_eq_false_2 (lit "from" ∈ lit <$> ["import"%string]))
      by (apply (bool_decide_unpack _); vm_compute; exact I).
    rewrite andb_false_r.
    by rewrite !bool_decide_eq_false_2 by (apply (bool_decide_unpack _); vm_compute; exact I). }
  rewrite Hk, Hst.
  assert (Himp : from_import_step code st kw = mk_from (from_module st) (from_names st) (from_level st) true).
  { unfold from_import_step. rewrite Hkwt. unfold kind_in. rewrite Hkw.
    by rewrite !bool_decide_eq_true_2 by (apply (bool_decide_unpack _); vm_compute; exact I). }
  rewrite Himp, from_import_names by done. done.
Qed.
(** [from module import names]: a dotted module is taken with no dots to climb; a
    relative one with the number of its dots, and with what follows the dots as its
    module.  When nothing follows them ([from . import x]) the module is the text of
    the dots themselves, not empty. *)
Theorem python_from_import_spec code n from module kw rest :
  from_statement code n from module kw rest ->
  (tkind module = lit "dotted_name" ->
   python_import_from_statement code n
   = import_at n (text_of code module) (rest ≫= imported_names code) 0) /\
  (forall prefix target, tkind module = lit "relative_import" ->
   tchildren module = prefix :: option_list target ->
   tkind prefix = lit "import_prefix" ->
   (forall t, target = Some t -> tkind t = lit "dotted_name") ->
   python_import_from_statement code n
   = import_at n (match target with Some t => text_of code t | None => text_of code module end)
       (rest ≫= imported_names code) (count_dots (text_of code prefix))).
Proof.
  intros Hn. split.
  - intros Hk. rewrite (from_statement_fold code n from module kw rest
      (mk_from (text_of code module) [] 0 false) Hn); [done| |done].
    unfold from_import_step, kind_in. rewrite Hk. kind_cases. by rewrite andb_false_r.
  - intros prefix target Hk Hcs Hp Ht.
    rewrite (from_statement_fold code n from module kw rest
      (mk_from (match target with Some t => text_of code t | None => text_of code module end) []
         (count_dots (text_of code prefix)) false) Hn); [done| |done].
    unfold from_import_step, kind_in. rewrite Hk. kind_cases. rewrite andb_false_r.
    cbn [seen_import_keyword negb]. rewrite Hcs. cbn [foldl].
    destruct target as [t|]; simpl; unfold relative_import_step, kind_in;
      rewrite ?Hp, ?(Ht _ eq_refl); by kind_cases.
Qed.
End imports.

(** ["from . import x"]: the module is ".", one dot to climb. *)
Definition example_import_tree : tnode :=
  let node kind field a b cs := TNode (mk_info (lit kind) (lit <$> field) a b 0 0) cs in
  node "import_from_statement" None 0 15
    [node "from" None 0 4 [];
     node "relative_import" (Some "module_name") 5 6 [node "import_prefix" None 5 6 []];
     node "import" None 7 13 [];
     node "dotted_name" (Some "name") 14 15 []]%string.

Lemma python_from_import_spec_witness :
  let _ := ascii_text in
  python_import_from_statement (lit "from . import x") example_import_tree
  = mk_import (lit ".") [lit "x"] 1 1 1.
Proof.
  intros text.
  pose (cs := tchildren example_import_tree).
  pose (nth_cs i := nth i cs example_import_tree).
  rewrite (proj2 (python_from_import_spec (lit "from . import x") example_import_tree
    (nth_cs 0) (nth_cs 1) (nth_cs 2) [nth_cs 3]
    ltac:(repeat split; try reflexivity; repeat constructor))
    (TNode (mk_info (lit "import_prefix") None 5 6 0 0) []) None
    eq_refl eq_refl eq_refl ltac:(intros ? [=])).
  reflexivity.
Defined.
