(* ===== verification/GlobalIndex.v ===== *)
(** * The global index (crates/happy-core/src/global_index/, utils/mod.rs,
      indexer/element.rs)

    Files, their module paths and the symbols they export, and the resolution of
    imports and symbols against them. *)

From S2P Require Import Prelude RustStd.
From S2P Require Import ImportExtraction.

(** ** Code elements *)

Inductive ElementType : Type :=
  | EtFile | EtClass | EtFunction | EtMethod | EtModule | EtImport | EtVariable
  | EtInterface | EtStruct | EtEnum.

#[export] Instance ElementType_eq_dec : EqDecision ElementType.
Proof. solve_decision. Defined.

Record CodeElement : Type := mk_element {
  elem_id : str;
  element_type : ElementType;
  elem_name : str;
  elem_file_path : str;
  elem_relative_path : str;
  elem_language : str;
  elem_start_line : nat;
  elem_end_line : nat;
  elem_code : str;
  elem_signature : option str;
  elem_docstring : option str;
  elem_summary : option str;
  elem_metadata : gmap str str;
}.

(** ** Module paths *)

(** The extension dropped, the first of the list that is a suffix. *)
Fixpoint strip_first_suffix (suffixes : list str) (s : str) : str :=
  match suffixes with
  | [] => s
  | suffix :: suffixes =>
      match strip_suffix suffix s with Some r => r | None => strip_first_suffix suffixes s end
  end.

Definition module_extensions : list str :=
  lit <$> [".py"; ".ts"; ".js"; ".rs"; ".go"; ".java"]%string.

Definition BACKSLASH : char := 92%N.

(** [utils::file_path_to_module_path]. *)
Definition file_path_to_module_path (file_path repo_root : str) : option str :=
  relative ← path_strip_prefix file_path repo_root;
  let without_ext := strip_first_suffix module_extensions relative in
  let module_path :=
    replace_char (fun c => bool_decide (c = SLASH) || bool_decide (c = BACKSLASH)) (lit ".") without_ext in
  let module_path := default module_path (strip_suffix (lit ".__init__") module_path) in
  if bool_decide (module_path = []) then None else Some module_path.

(** ** The index *)

Record GlobalIndex : Type := mk_index {
  file_map : gmap str str;
  module_map : gmap str str;
  export_map : gmap str (list (str * str));
}.

Definition empty_index : GlobalIndex := mk_index ∅ ∅ ∅.

(** One element of [build]. *)
Definition build_element (repo_root : str) (index : GlobalIndex) (elem : CodeElement) : GlobalIndex :=
  if bool_decide (element_type elem = EtFile) then
    match file_path_to_module_path (elem_file_path elem) repo_root with
    | Some module_path =>
        mk_index (<[elem_file_path elem := module_path]> (file_map index))
                 (<[module_path := elem_file_path elem]> (module_map index))
                 (export_map index)
    | None => index
    end
  else
    mk_index (file_map index) (module_map index)
      (<[elem_name elem := default [] (export_map index !! elem_name elem)
                           ++ [(elem_file_path elem, elem_id elem)]]> (export_map index)).

Definition build (index : GlobalIndex) (elements : list CodeElement) (repo_root : str) : GlobalIndex :=
  foldl (build_element repo_root) index elements.

Definition resolve_module (index : GlobalIndex) (module_path : str) : option str :=
  module_map index !! module_path.
Definition resolve_symbol (index : GlobalIndex) (symbol : str) : list (str * str) :=
  default [] (export_map index !! symbol).
Definition file_to_module (index : GlobalIndex) (file_path : str) : option str :=
  file_map index !! file_path.

(** The entries of a symbol that are left when a file goes; the key goes with the
    last of them. *)
Definition retain_exports (file_path : str) (entries : list (str * str)) : option (list (str * str)) :=
  match filter (fun e => e.1 <> file_path) entries with
  | [] => None
  | entries => Some entries
  end.

Definition remove_file (index : GlobalIndex) (file_path : str) : GlobalIndex :=
  mk_index (delete file_path (file_map index))
    (match file_map index !! file_path with
     | Some module_path => delete module_path (module_map index)
     | None => module_map index
     end)
    (omap (retain_exports file_path) (export_map index)).

(** [stats]. *)
Definition index_stats (index : GlobalIndex) : nat * nat * nat :=
  (size (file_map index), size (module_map index), size (export_map index)).

(** ** Resolution of imports *)

Definition resolve_absolute_import (index : GlobalIndex) (import : ImportInfo) : option str :=
  match resolve_module index (import_module import) with
  | Some file => Some file
  | None =>
      match resolve_module index (import_module import ++ lit ".__init__") with
      | Some file => Some file
      | None =>
          '(parent, _) ← rsplit_once (lit ".") (import_module import);
          resolve_module index parent
      end
  end.

Definition resolve_relative_import (index : GlobalIndex) (import : ImportInfo) (current_file : str)
    : option str :=
  current_module ← file_to_module index current_file;
  let parts := split_on (ch ".") current_module in
  if length parts <? import_level import then None
  else
    let base := join (lit ".") (take (length parts - import_level import) parts) in
    let target_module :=
      if bool_decide (import_module import = []) then base
      else if bool_decide (base = []) then import_module import
      else base ++ lit "." ++ import_module import in
    resolve_module index target_module.

Definition resolve_import (index : GlobalIndex) (import : ImportInfo) (current_file : str)
    : option str :=
  if 0 <? import_level import then resolve_relative_import index import current_file
  else resolve_absolute_import index import.

(** [SymbolResolver::resolve] is [resolve_symbol]; within the imports of a file: *)
Definition resolve_in_context (index : GlobalIndex) (symbol : str) (imported_modules : list str)
    : list (str * str) :=
  let all := resolve_symbol index symbol in
  match imported_modules with
  | [] => all
  | _ =>
      filter (fun e => match file_to_module index e.1 with
                       | Some module => existsb (fun m => starts_with m module) imported_modules
                       | None => false
                       end = true) all
  end.

(** ** The index of a root

    Every file has the module path its name gives; a module is looked up to a file
    of that module path; no symbol is kept without an entry. *)
Record well_indexed (repo_root : str) (index : GlobalIndex) : Prop := {
  wi_file f m : file_to_module index f = Some m -> file_path_to_module_path f repo_root = Some m;
  wi_module m f : resolve_module index m = Some f -> file_to_module index f = Some m;
  wi_exports s entries : export_map index !! s = Some entries -> entries <> [];
}.

Lemma empty_well_indexed root : well_indexed root empty_index.
Proof.
  split; unfold file_to_module, resolve_module, empty_index; cbn [file_map module_map export_map];
    intros ? ?; rewrite lookup_empty; done.
Qed.

Lemma build_element_well_indexed root index elem :
  well_indexed root index -> well_indexed root (build_element root index elem).
Proof.
  intros [Hf Hm He]. unfold build_element. case_bool_decide.
  - destruct (file_path_to_module_path _ _) as [m|] eqn:Hmod; [|done].
    split; unfold file_to_module, resolve_module in *; cbn [file_map module_map export_map].
    + intros f m' [[<- <-]|[? ?]]%lookup_insert_Some; auto.
    + intros m' f [[<- <-]|[? Hlook]]%lookup_insert_Some; [by rewrite lookup_insert_eq|].
      destruct (decide (elem_file_path elem = f)) as [<-|]; [|rewrite lookup_insert_ne by done; auto].
      apply Hm, Hf in Hlook. congruence.
    + exact He.
  - split; [exact Hf|exact Hm|]. cbn [export_map].
    intros s entries [[<- <-]|[? ?]]%lookup_insert_Some; [|eauto].
    by destruct (default [] _).
Qed.

Lemma remove_file_well_indexed root index f :
  well_indexed root index -> well_indexed root (remove_file index f).
Proof.
  intros [Hf Hm He].
  split; unfold file_to_module, resolve_module, remove_file in *; cbn [file_map module_map export_map].
  - intros g m [? ?]%lookup_delete_Some; auto.
  - intros m g Hlook. destruct (file_map index !! f) as [mf|] eqn:Hmf.
    + apply lookup_delete_Some in Hlook as [Hne Hg%Hm]. rewrite lookup_delete_Some.
      split; [|done]. intros ->. congruence.
    + apply Hm in Hlook. rewrite lookup_delete_Some. split; [|done]. intros ->. congruence.
  - intros s entries. rewrite lookup_omap. intros (l & _ & Hl)%bind_Some.
    unfold retain_exports in Hl. by case_match; simplify_eq.
Qed.

(** Indexing elements and removing files keep the index well-formed. *)
Inductive index_op : Type := OpBuild (elements : list CodeElement) | OpRemove (file : str).
Definition run_index_op (root : str) (index : GlobalIndex) (op : index_op) : GlobalIndex :=
  match op with
  | OpBuild elements => build index elements root
  | OpRemove file => remove_file index file
  end.

Lemma build_well_indexed root index elems :
  well_indexed root index -> well_indexed root (build index elems root).
Proof.
  revert index. induction elems as [|e elems IH]; [done|]. intros index Hwi.
  by apply IH, build_element_well_indexed.
Qed.

Lemma index_history_well_indexed root ops :
  well_indexed root (foldl (run_index_op root) empty_index ops).
Proof.
  induction ops as [|op ops IH] using rev_ind; [apply empty_well_indexed|].
  rewrite foldl_app. cbn [foldl]. destruct op; cbn [run_index_op];
    [by apply build_well_indexed|by apply remove_file_well_indexed].
Qed.

(** ** What the operations do *)

Definition exports_of (symbol : str) (elems : list CodeElement) : list (str * str) :=
  (fun e => (elem_file_path e, elem_id e))
    <$> filter (fun e => element_type e <> EtFile /\ elem_name e = symbol) elems.

Lemma build_exports index elems root symbol :
  resolve_symbol (build index elems root) symbol = resolve_symbol index symbol ++ exports_of symbol elems.
Proof.
  revert index. induction elems as [|e elems IH]; intros index; [by rewrite app_nil_r|].
  unfold build in *. cbn [foldl]. rewrite IH. unfold exports_of, build_element.
  destruct (bool_decide (element_type e = EtFile)) eqn:Hty; to_prop.
  - rewrite filter_cons_False by naive_solver. by destruct (file_path_to_module_path _ _).
  - unfold resolve_symbol. cbn [export_map]. destruct (decide (elem_name e = symbol)) as [<-|Hne].
    + rewrite lookup_insert_eq, filter_cons_True by done. cbn [default fmap list_fmap].
      simpl. by rewrite <-app_assoc.
    + by rewrite lookup_insert_ne, filter_cons_False by naive_solver.
Qed.

(** The files of a module among the elements. *)
Definition files_of_module (root module : str) (elems : list CodeElement) : list str :=
  elem_file_path <$> filter (fun e => element_type e = EtFile /\
    file_path_to_module_path (elem_file_path e) root = Some module) elems.

Lemma build_modules index elems root module :
  resolve_module (build index elems root) module
  = match last (files_of_module root module elems) with
    | Some f => Some f
    | None => resolve_module index module
    end.
Proof.
  induction elems as [|e elems IH] using rev_ind; [done|].
  unfold build, files_of_module in *. rewrite foldl_app, filter_app, fmap_app. cbn [foldl].
  unfold build_element at 1. case_bool_decide as Hty.
  - destruct (file_path_to_module_path (elem_file_path e) root) as [m|] eqn:Hm.
    + destruct (decide (m = module)) as [->|Hne].
      * rewrite filter_cons_True by done. cbn [filter list_filter fmap list_fmap]. rewrite last_snoc.
        unfold resolve_module. cbn [module_map]. apply lookup_insert_eq.
      * rewrite filter_cons_False by naive_solver. cbn. rewrite app_nil_r, <-IH.
        unfold resolve_module. cbn [module_map]. by apply lookup_insert_ne.
    + rewrite filter_cons_False by naive_solver. cbn. by rewrite app_nil_r, <-IH.
  - rewrite filter_cons_False by naive_solver. cbn. by rewrite app_nil_r, <-IH.
Qed.

Lemma resolve_symbol_remove index f s :
  resolve_symbol (remove_file index f) s = filter (fun e => e.1 <> f) (resolve_symbol index s).
Proof.
  unfold resolve_symbol, remove_file. cbn [export_map]. rewrite lookup_omap.
  destruct (export_map index !! s) as [l|]; [|done]. simpl. unfold retain_exports.
  by destruct (filter _ l).
Qed.

(** Removing a file forgets it everywhere: it has no module path, no module is
    looked up to it, no symbol of it is left, and the symbols of the other files stay
    in their order.  The module paths of the others stay, but a module that the
    removed file shared with another file is no longer looked up at all. *)
Theorem remove_file_spec root index f :
  well_indexed root index ->
  let index' := remove_file index f in
  file_to_module index' f = None /\
  (forall g, g <> f -> file_to_module index' g = file_to_module index g) /\
  (forall m g, resolve_module index' m = Some g <->
     resolve_module index m = Some g /\ g <> f /\ file_to_module index f <> Some m) /\
  (forall s, resolve_symbol index' s = filter (fun e => e.1 <> f) (resolve_symbol index s)).
Proof.
  intros [Hf Hm He]. split; [apply lookup_delete_eq|]. split; [by intros; apply lookup_delete_ne|].
  split; [|intros; apply resolve_symbol_remove].
  unfold resolve_module, file_to_module, remove_file in *. cbn [module_map]. intros m g.
  destruct (file_map index !! f) as [mf|] eqn:Hmf.
  - rewrite lookup_delete_Some. split; [|naive_solver].
    intros [Hne Hg]. split; [done|]. split; [|congruence]. intros ->. apply Hm in Hg. congruence.
  - split; [|naive_solver]. intros Hg. split; [done|]. split; [|done].
    intros ->. apply Hm in Hg. congruence.
Qed.

(** ** Module paths of Python files *)

(** A name of a directory or file without dots and backslashes. *)
Definition plain_name (n : str) : Prop :=
  valid_name n /\ (ch "." ∉ n) /\ (BACKSLASH ∉ n).

Definition INIT : str := lit "__init__".

(** The file [root/ds/stem.py]. *)
Definition python_file (root ds : list str) (stem : str) : str :=
  render_absolute (root ++ ds ++ [stem ++ lit ".py"]).

(** The dotted path: an [__init__.py] stands for its directory. *)
Definition python_module (ds : list str) (stem : str) : list str :=
  if bool_decide (stem = INIT /\ ds <> []) then ds else ds ++ [stem].

Lemma valid_name_py stem : valid_name stem -> valid_name (stem ++ lit ".py").
Proof.
  intros (Hne & _ & _ & Hs). unfold valid_name.
  assert (Hlen : length (stem ++ lit ".py") > 3).
  { rewrite length_app. replace (length (lit ".py")) with 3 by reflexivity.
    destruct stem; [done|cbn [length]; lia]. }
  split; [by destruct stem|]. split; [intros E; rewrite E in Hlen; vm_compute in Hlen; lia|].
  split; [intros E; rewrite E in Hlen; vm_compute in Hlen; lia|].
  rewrite elem_of_app. intros [?|Hin]; [done|].
  revert Hin. apply (bool_decide_unpack _). vm_compute. exact I.
Qed.

Lemma plain_no_separator n :
  plain_name n ->
  Forall (fun c => bool_decide (c = SLASH) || bool_decide (c = BACKSLASH) = false) n.
Proof.
  intros ((_ & _ & _ & Hs) & _ & Hb). apply Forall_forall. intros c Hc.
  by rewrite !bool_decide_eq_false_2 by (intros ->; done).
Qed.

Lemma INIT_no_dot : ch "." ∉ INIT.
Proof. apply (bool_decide_unpack _). vm_compute. exact I. Qed.

Lemma init_suffix ds stem :
  ch "." ∉ stem ->
  default (join (lit ".") (ds ++ [stem])) (strip_suffix (lit ".__init__") (join (lit ".") (ds ++ [stem])))
  = join (lit ".") (python_module ds stem).
Proof.
  intros Hdot. unfold python_module. case_bool_decide as Hinit.
  - destruct Hinit as [-> Hds]. rewrite join_snoc by done.
    by rewrite (proj2 (strip_suffix_Some (lit ".__init__") _ (join (lit ".") ds))).
  - destruct (strip_suffix _ _) as [r|] eqn:E; [|done]. exfalso. apply Hinit.
    apply strip_suffix_Some in E.
    change (r ++ lit ".__init__") with (r ++ ch "." :: INIT) in E.
    apply (f_equal (split_on (ch "."))) in E. rewrite split_on_sep in E.
    rewrite (split_on_no _ INIT) in E by apply INIT_no_dot.
    destruct ds as [|d ds].
    + cbn [app join] in E. rewrite split_on_no in E by done.
      pose proof (split_on_nonempty (ch ".") r). apply (f_equal length) in E.
      rewrite length_app in E. destruct (split_on (ch ".") r); [done|cbn [length] in E; lia].
    + split; [|done]. rewrite join_snoc in E by done.
      change (lit "." ++ stem) with (ch "." :: stem) in E.
      rewrite split_on_sep, (split_on_no _ stem) in E by done.
      by apply app_inj_tail in E as [_ ->].
Qed.

Lemma module_path_of_python_file root ds stem :
  Forall valid_name root -> Forall plain_name ds -> plain_name stem ->
  file_path_to_module_path (python_file root ds stem) (render_absolute root)
  = Some (join (lit ".") (python_module ds stem)).
Proof.
  intros Hroot Hds Hstem. unfold file_path_to_module_path, python_file.
  assert (Forall valid_name (ds ++ [stem ++ lit ".py"])) as Hvalid.
  { apply Forall_app. split; [|by repeat constructor; apply valid_name_py, Hstem].
    eapply Forall_impl; [exact Hds|]. by intros ? []. }
  rewrite path_strip_prefix_render by (done || by destruct ds). cbn [mbind option_bind].
  assert (Hext : strip_first_suffix module_extensions (join [SLASH] (ds ++ [stem ++ lit ".py"]))
                 = join [SLASH] (ds ++ [stem])).
  { rewrite join_snoc_app. unfold module_extensions. csimpl.
    by rewrite (proj2 (strip_suffix_Some (lit ".py") _ (join [SLASH] (ds ++ [stem])))). }
  rewrite Hext, replace_char_join; [|done|].
  2: { apply Forall_app. split; [|repeat constructor; by apply plain_no_separator].
       eapply Forall_impl; [exact Hds|]. apply plain_no_separator. }
  rewrite init_suffix by apply Hstem. rewrite bool_decide_eq_false_2; [done|].
  assert (Hmod : Forall plain_name (python_module ds stem) /\ python_module ds stem <> []).
  { unfold python_module. case_bool_decide as Hi; [by destruct Hi|].
    split; [apply Forall_app; split; [done|by constructor]|by destruct ds]. }
  destruct Hmod as [Hmod Hne]. destruct (python_module ds stem) as [|x l]; [done|].
  apply Forall_cons in Hmod as [((Hx & _) & _) _].
  destruct l; [done|]. rewrite join_cons by done. by destruct x.
Qed.

(** ** Relative imports *)

(** What Python means by [from <level dots>module import ..] in a file of the
    directories [ds]: one dot is the directory itself, every further dot its parent. *)
Definition python_target (ds : list str) (level : nat) (module : str) : str :=
  join (lit ".") (take (length ds + 1 - level) ds ++ [module]).

Lemma plain_pieces l : Forall plain_name l -> Forall (fun p => ch "." ∉ p) l.
Proof. intros H. eapply Forall_impl; [exact H|]. by intros ? (_ & ? & _). Qed.

Lemma join_plain_nonempty sep l : l <> [] -> Forall plain_name l -> join sep l <> [].
Proof.
  intros Hne Hl. destruct l as [|x l]; [done|]. apply Forall_cons in Hl as [((Hx & _) & _) _].
  destruct l; [done|]. rewrite join_cons by done. by destruct x.
Qed.

(** Climbing [level] pieces from a module of plain names. *)
Lemma resolve_relative_plain index import file mods :
  file_to_module index file = Some (join (lit ".") mods) ->
  mods <> [] -> Forall plain_name mods -> import_module import <> [] ->
  0 < import_level import <= length mods ->
  resolve_import index import file
  = resolve_module index
      (join (lit ".") (take (length mods - import_level import) mods ++ [import_module import])).
Proof.
  intros Hfile Hne Hmods Hmod [Hpos Hlevel].
  unfold resolve_import, resolve_relative_import.
  rewrite (proj2 (Nat.ltb_lt _ _)) by done. rewrite Hfile. cbn [mbind option_bind].
  change (lit ".") with [ch "."]. rewrite split_join by (done || by apply plain_pieces).
  rewrite (proj2 (Nat.ltb_ge _ _)) by done. rewrite bool_decide_eq_false_2 by done.
  set (base := take _ mods).
  assert (Forall plain_name base) as Hbase by (by apply Forall_take).
  destruct base as [|b base']; [done|].
  rewrite bool_decide_eq_false_2 by (by apply join_plain_nonempty).
  by rewrite join_snoc by done.
Qed.

(** Relative imports of Python files.  In an ordinary file the import is looked up
    where Python looks it up.  In an [__init__.py] it is looked up one directory too
    high: the module path of the file is already that of its directory, and the
    first dot climbs once more. *)
Theorem relative_import_spec index root ds stem import :
  Forall valid_name root -> Forall plain_name ds -> plain_name stem -> ds <> [] ->
  let file := python_file root ds stem in
  file_to_module index file = file_path_to_module_path file (render_absolute root) ->
  import_module import <> [] -> 0 < import_level import <= length ds ->
  resolve_import index import file
  = resolve_module index
      (python_target ds (if bool_decide (stem = INIT) then import_level import + 1
                         else import_level import) (import_module import)).
Proof.
  intros Hroot Hds Hstem Hne file Hfile Hmod Hlevel.
  unfold file in Hfile. rewrite module_path_of_python_file in Hfile by done.
  rewrite (resolve_relative_plain _ _ _ _ Hfile); unfold python_module, python_target.
  - f_equal. f_equal. f_equal. case_bool_decide as Hi; case_bool_decide as Hj; try naive_solver.
    + f_equal. lia.
    + rewrite length_app. cbn [length]. rewrite take_app_le by lia. done.
  - case_bool_decide; [done|by destruct ds].
  - case_bool_decide; [done|]. apply Forall_app. split; [done|by constructor].
  - done.
  - case_bool_decide; [done|]. rewrite length_app. cbn [length]. lia.
Qed.

(** ** Examples *)

Definition file_element (id path : str) : CodeElement :=
  mk_element id EtFile (default [] (file_name path)) path path (lit "python") 1 1 [] None None None ∅.

(** "a.py" and "a/__init__.py" share the module "a"; removing the first leaves the
    second without a module that resolves to it. *)
Definition shared_index : GlobalIndex :=
  build empty_index [file_element (lit "1") (lit "/r/a/__init__.py");
                     file_element (lit "2") (lit "/r/a.py")] (lit "/r").

Lemma remove_file_spec_witness :
  well_indexed (lit "/r") shared_index /\
  file_to_module (remove_file shared_index (lit "/r/a.py")) (lit "/r/a/__init__.py") = Some (lit "a") /\
  resolve_module (remove_file shared_index (lit "/r/a.py")) (lit "a") <> Some (lit "/r/a/__init__.py").
Proof.
  assert (Hwi : well_indexed (lit "/r") shared_index)
    by (apply build_well_indexed, empty_well_indexed).
  destruct (remove_file_spec (lit "/r") shared_index (lit "/r/a.py") Hwi) as (_ & Hkept & Hmods & _).
  split; [exact Hwi|]. split.
  - rewrite Hkept by (apply (bool_decide_unpack _); vm_compute; exact I).
    apply (bool_decide_unpack (_ = _)). vm_compute. exact I.
  - rewrite Hmods. intros (_ & _ & Hno). apply Hno.
    apply (bool_decide_unpack (_ = _)). vm_compute. exact I.
Defined.

(** [from .auth import ..] in "app/views.py", and in "app/__init__.py". *)
Definition package_index : GlobalIndex :=
  build empty_index [file_element (lit "1") (lit "/r/app/views.py");
                     file_element (lit "2") (lit "/r/app/auth.py");
                     file_element (lit "3") (lit "/r/app/__init__.py")] (lit "/r").

Lemma relative_import_spec_witness :
  let import := mk_import (lit "auth") [lit "login"] 1 1 1 in
  resolve_import package_index import (lit "/r/app/views.py")
    = resolve_module package_index (lit "app.auth") /\
  resolve_import package_index import (lit "/r/app/__init__.py")
    = resolve_module package_index (lit "auth") /\
  resolve_module package_index (lit "app.auth") = Some (lit "/r/app/auth.py") /\
  resolve_module package_index (lit "auth") = None.
Proof.
  intros import.
  assert (Hplain : forall n, bool_decide (n ∈ [lit "app"; lit "views"; INIT]) = true -> plain_name n).
  { intros n Hn. apply bool_decide_eq_true in Hn.
    repeat (apply elem_of_cons in Hn as [->|Hn];
      [split; [|split]; apply (bool_decide_unpack _); vm_compute; exact I|]). by apply elem_of_nil in Hn. }
  assert (Hroot : Forall valid_name [lit "r"])
    by (constructor; [apply (bool_decide_unpack _); vm_compute; exact I|constructor]).
  assert (Hds : Forall plain_name [lit "app"]) by (constructor; [by apply Hplain|constructor]).
  split; [|split; [|split; apply (bool_decide_unpack (_ = _)); vm_compute; exact I]].
  - apply (relative_import_spec package_index [lit "r"] [lit "app"] (lit "views") import Hroot Hds);
      [by apply Hplain|done| |done|cbn; lia].
    apply (bool_decide_unpack (_ = _)). vm_compute. exact I.
  - apply (relative_import_spec package_index [lit "r"] [lit "app"] INIT import Hroot Hds);
      [by apply Hplain|done| |done|cbn; lia].
    apply (bool_decide_unpack (_ = _)). vm_compute. exact I.
Defined.
