(* ===== verification/BaseClasses.v ===== *)
(** * Base classes (crates/happy-core/src/graph/mod.rs, extract_base_classes)

    The names of the classes and interfaces a definition extends.  The code has no
    source at hand: it slices the root in the empty source, which may panic, and reads
    the names in the empty text it gets when it does not. *)

From S2P Require Import Prelude RustStd.
From S2P Require Import CodeTree.

Section bases.
Context `{NodeText}.

Definition extract_identifier_names (src : str) (n : tnode) : list str :=
  tchildren n ≫= fun child =>
    if kind_in child ["identifier"; "dotted_name"; "type_identifier"; "scoped_type_identifier"] then
      let name := text_of src child in
      if negb (bool_decide (name = [])) && negb (bool_decide (name = lit "public"))
         && negb (bool_decide (name = lit "private")) && negb (bool_decide (name = lit "protected"))
      then [name] else []
    else [].

(** The loop of [extract_js_ts_bases]: whether [extends] or [implements] was seen,
    and the names. *)
Record js_bases_state : Type := mk_js_bases {
  found_extends : bool;
  found_implements : bool;
  js_bases : list str;
}.

Definition js_bases_step (src : str) (st : js_bases_state) (child : tnode) : js_bases_state :=
  let text := text_of src child in
  if bool_decide (text = lit "extends") then mk_js_bases true false (js_bases st)
  else if bool_decide (text = lit "implements") then mk_js_bases false true (js_bases st)
  else
    let st :=
      if (found_extends st || found_implements st)
         && kind_in child ["identifier"; "type_identifier"; "member_expression"] then
        mk_js_bases false false
          (js_bases st ++ (if negb (bool_decide (text = [])) && negb (bool_decide (text = lit "{"))
                           then [text] else []))
      else st in
    if kind_in child ["class_heritage"] then
      mk_js_bases (found_extends st) (found_implements st)
        (js_bases st ++ extract_identifier_names src child)
    else st.

Definition extract_js_ts_bases (src : str) (n : tnode) : list str :=
  js_bases (foldl (js_bases_step src) (mk_js_bases false false []) (tchildren n)).

Definition push_name (name : str) : list str := if bool_decide (name = []) then [] else [name].

(** A child of a Java type list; a nested [type_list] is walked in turn. *)
Fixpoint java_type_names (src : str) (child : tnode) : list str :=
  let '(TNode _ cs) := child in
  if kind_in child ["generic_type"] then
    match cs with base :: _ => push_name (text_of src base) | [] => [] end
  else if kind_in child ["type_identifier"; "scoped_type_identifier"] then
    push_name (text_of src child)
  else if kind_in child ["type_list"] then cs ≫= java_type_names src
  else [].

Definition extract_java_type_list (src : str) (n : tnode) : list str :=
  tchildren n ≫= java_type_names src.

Definition field_names (f : tnode -> list str) (field : string) (n : tnode) : list str :=
  match child_by_field_name field n with Some c => f c | None => [] end.

(** What [collect_bases_recursive] pushes at one node. *)
Definition node_bases (src : str) (language : SupportedLanguage) (n : tnode) : list str :=
  match language with
  | Python =>
      if kind_in n ["class_definition"] then
        field_names (extract_identifier_names src) "superclasses" n
      else []
  | JavaScript | TypeScript | Tsx =>
      (if kind_in n ["class_declaration"; "class"] then extract_js_ts_bases src n else [])
      ++ (if kind_in n ["interface_declaration"] then extract_js_ts_bases src n else [])
  | Java =>
      (if kind_in n ["class_declaration"] then
         field_names (extract_identifier_names src) "superclass" n
         ++ field_names (extract_java_type_list src) "interfaces" n
       else [])
      ++ (if kind_in n ["interface_declaration"] then
            field_names (extract_java_type_list src) "extends_interfaces" n
          else [])
  | Rust =>
      if kind_in n ["impl_item"] then
        field_names (fun trait_node => push_name (text_of src trait_node)) "trait" n
      else []
  | Cpp | C =>
      if kind_in n ["class_specifier"; "struct_specifier"] then
        tchildren n ≫= fun child =>
          if kind_in child ["base_class_clause"] then extract_identifier_names src child else []
      else []
  | Go => []
  end.

Fixpoint collect_bases (src : str) (language : SupportedLanguage) (n : tnode) : list str :=
  let '(TNode _ cs) := n in node_bases src language n ++ (cs ≫= collect_bases src language).

(** The source is [tree.root_node().utf8_text(&[]).unwrap_or_default()]; every recursive
    call slices the root anew, with the same result. *)
Definition collect_bases_recursive (language : SupportedLanguage) (tree n : tnode)
    : outcome () (list str) :=
  text ← empty_source_text tree;
  Ok (collect_bases (default [] text) language n).

(** The children of the root, and the root itself. *)
Definition extract_base_classes (tree : tnode) (language : SupportedLanguage)
    : outcome () (list str) :=
  below ← collect_results (collect_bases_recursive language tree) (tchildren tree);
  own ← collect_bases_recursive language tree tree;
  Ok (concat below ++ own).

(** ** Nothing is read in an empty source *)

Context `{!NodeTextLaws}.

Lemma bind_nil {A B} (f : A -> list B) l : (forall x, x ∈ l -> f x = []) -> l ≫= f = [].
Proof.
  induction l as [|x l IH]; [done|]. intros Hf. rewrite bind_cons, (Hf x) by left.
  apply IH. intros. apply Hf. by right.
Qed.

Lemma identifier_names_empty n : extract_identifier_names [] n = [].
Proof. apply bind_nil. intros c _. rewrite text_of_empty. by case_match. Qed.

Lemma js_bases_empty n : extract_js_ts_bases [] n = [].
Proof.
  unfold extract_js_ts_bases. generalize false at 1 as b1. generalize false as b2.
  induction (tchildren n) as [|c cs IH]; intros b2 b1; [done|]. cbn [foldl].
  unfold js_bases_step at 2. rewrite text_of_empty, !bool_decide_eq_false_2 by done.
  rewrite identifier_names_empty, bool_decide_eq_true_2 by done. cbn.
  repeat case_match; cbn [js_bases found_extends found_implements app]; apply IH.
Qed.

Lemma java_type_names_empty c : java_type_names [] c = [].
Proof.
  induction c as [i cs IH] using tnode_ind'. cbn [java_type_names].
  unfold push_name. rewrite text_of_empty.
  repeat case_match; rewrite ?text_of_empty in *; try done.
  apply bind_nil. by rewrite Forall_forall in IH.
Qed.

Lemma node_bases_empty language n : node_bases [] language n = [].
Proof.
  assert (Hid : forall f, field_names (extract_identifier_names []) f n = []).
  { intros f. unfold field_names. case_match; [apply identifier_names_empty|done]. }
  assert (Hjava : forall f, field_names (extract_java_type_list []) f n = []).
  { intros f. unfold field_names. case_match; [|done]. apply bind_nil. intros. apply java_type_names_empty. }
  unfold node_bases. destruct language; rewrite ?Hid, ?Hjava, ?js_bases_empty;
    repeat case_match; try done.
  - unfold field_names. case_match; [|done]. by rewrite text_of_empty.
  - apply bind_nil. intros c _. case_match; [apply identifier_names_empty|done].
  - apply bind_nil. intros c _. case_match; [apply identifier_names_empty|done].
Qed.

Lemma collect_bases_empty language n : collect_bases [] language n = [].
Proof.
  induction n as [i cs IH] using tnode_ind'. cbn [collect_bases]. rewrite node_bases_empty.
  apply bind_nil. by rewrite Forall_forall in IH.
Qed.

(** No class has a base: the extraction panics with the slice, or finds nothing. *)
Lemma extract_base_classes_empty tree language :
  extract_base_classes tree language = (_ ← empty_source_text tree; Ok []).
Proof.
  assert (Hc : forall n, collect_bases_recursive language tree n = (_ ← empty_source_text tree; Ok [])).
  { intros n. unfold collect_bases_recursive.
    destruct (empty_source_text tree) as [[t|]| | |] eqn:E; cbn; try done.
    - apply empty_source_text_nil in E as ->. by rewrite collect_bases_empty.
    - by rewrite collect_bases_empty. }
  unfold extract_base_classes. rewrite Hc.
  destruct (empty_source_text tree) as [t| | |] eqn:E; cbn in *.
  - assert (collect_results (collect_bases_recursive language tree) (tchildren tree)
            = Ok (map (fun _ => []) (tchildren tree))) as ->.
    { induction (tchildren tree) as [|c cs IH]; [done|]. cbn. rewrite Hc. cbn. by rewrite IH. }
    cbn. rewrite app_nil_r. f_equal. by induction (tchildren tree).
  - destruct (tchildren tree) as [|c cs]; cbn; [done|by rewrite Hc].
  - destruct (tchildren tree) as [|c cs]; cbn; [done|by rewrite Hc].
  - destruct (tchildren tree) as [|c cs]; cbn; [done|by rewrite Hc].
Qed.
End bases.
