(* ===== verification/StableGraph.v ===== *)
(** * The graph container (petgraph's [StableDiGraph])

    The interface the repository graph relies on: nodes keep their index until they
    are removed, edges are directed, labelled and may be parallel.  The laws are the
    documented behaviour of the crate; the order of neighbours, the index a new node
    gets and which of several parallel edges [find_edge] returns are left open.
    Finite maps with an edge list implement it. *)

From S2P Require Import Prelude.

(** ** Nodes and edges (crates/happy-core/src/graph/types.rs) *)

Inductive NodeKind : Type :=
  | NkFile | NkModule | NkClass | NkFunction | NkMethod | NkVariable | NkInterface
  | NkStruct | NkEnum.

#[export] Instance NodeKind_eq_dec : EqDecision NodeKind.
Proof. solve_decision. Defined.

Record GraphNode : Type := mk_node {
  gn_id : str;
  gn_kind : NodeKind;
  gn_name : str;
  gn_file_path : str;
  gn_start_line : nat;
  gn_end_line : nat;
}.

Inductive EdgeKind : Type := Imports | Inherits | Calls | Defines | References | Implements.

#[export] Instance EdgeKind_eq_dec : EqDecision EdgeKind.
Proof. solve_decision. Defined.

Abbreviation NodeIndex := nat (only parsing).
Abbreviation edge := (nat * nat * EdgeKind)%type (only parsing).

(** ** The interface *)

Class StableGraph (G : Type) : Type := {
  sg_empty : G;
  sg_add_node : GraphNode -> G -> NodeIndex * G;
  sg_add_edge : NodeIndex -> NodeIndex -> EdgeKind -> G -> outcome () G;
  sg_remove_node : NodeIndex -> G -> G;
  sg_node : G -> NodeIndex -> option GraphNode;
  sg_edges : G -> list edge;
  sg_node_count : G -> nat;
  sg_find_edge : G -> NodeIndex -> NodeIndex -> option EdgeKind;
  sg_outgoing : G -> NodeIndex -> list NodeIndex;
  sg_incoming : G -> NodeIndex -> list NodeIndex;
}.

(** Whether an edge touches a node. *)
Definition touches (i : NodeIndex) (e : edge) : Prop := e.1.1 = i \/ e.1.2 = i.

#[export] Instance touches_dec i e : Decision (touches i e).
Proof. unfold touches. apply _. Defined.

Class StableGraphLaws (G : Type) `{StableGraph G} : Prop := {
  sg_empty_node i : sg_node (sg_empty (G:=G)) i = None;
  sg_empty_edges : sg_edges (sg_empty (G:=G)) = [];
  sg_add_node_fresh n (g : G) : sg_node g (sg_add_node n g).1 = None;
  sg_add_node_lookup n (g : G) j :
    sg_node (sg_add_node n g).2 j = if decide (j = (sg_add_node n g).1) then Some n else sg_node g j;
  sg_add_node_edges n (g : G) : sg_edges (sg_add_node n g).2 ≡ₚ sg_edges g;
  sg_add_edge_live a b k (g : G) :
    is_Some (sg_node g a) -> is_Some (sg_node g b) ->
    exists g', sg_add_edge a b k g = Ok g' /\ (forall j, sg_node g' j = sg_node g j) /\
      sg_edges g' ≡ₚ (a, b, k) :: sg_edges g;
  sg_add_edge_dead a b k (g : G) :
    sg_node g a = None \/ sg_node g b = None -> sg_add_edge a b k g = Panic;
  sg_remove_node_lookup i (g : G) j :
    sg_node (sg_remove_node i g) j = if decide (j = i) then None else sg_node g j;
  sg_remove_node_edges i (g : G) :
    sg_edges (sg_remove_node i g) ≡ₚ filter (fun e => ~ touches i e) (sg_edges g);
  sg_edges_live (g : G) a b k :
    (a, b, k) ∈ sg_edges g -> is_Some (sg_node g a) /\ is_Some (sg_node g b);
  sg_outgoing_spec (g : G) i :
    sg_outgoing g i ≡ₚ (fun e => e.1.2) <$> filter (fun e => e.1.1 = i) (sg_edges g);
  sg_incoming_spec (g : G) i :
    sg_incoming g i ≡ₚ (fun e => e.1.1) <$> filter (fun e => e.1.2 = i) (sg_edges g);
  sg_find_edge_Some (g : G) a b k : sg_find_edge g a b = Some k -> (a, b, k) ∈ sg_edges g;
  sg_find_edge_None (g : G) a b : sg_find_edge g a b = None -> forall k, (a, b, k) ∉ sg_edges g;
}.

(** ** An implementation: a map of nodes and the list of edges, newest first *)

Record map_graph : Type := mk_map_graph {
  mg_nodes : gmap nat GraphNode;
  mg_edges : list edge;
}.

(** Edges whose ends are both nodes. *)
Definition mg_live (g : map_graph) (e : edge) : Prop :=
  is_Some (mg_nodes g !! e.1.1) /\ is_Some (mg_nodes g !! e.1.2).

#[export] Instance mg_live_dec g e : Decision (mg_live g e).
Proof. unfold mg_live. apply _. Defined.

(** An index above all those in use. *)
Definition mg_next (g : map_graph) : nat :=
  S (max_list ((map_to_list (mg_nodes g)).*1 ++ (mg_edges g).*1.*1 ++ (mg_edges g).*1.*2)).

Definition mg_live_edges (g : map_graph) : list edge := filter (mg_live g) (mg_edges g).

#[export] Instance map_graph_stable : StableGraph map_graph := {
  sg_empty := mk_map_graph ∅ [];
  sg_add_node n g := (mg_next g, mk_map_graph (<[mg_next g := n]> (mg_nodes g)) (mg_edges g));
  sg_add_edge a b k g :=
    if decide (mg_live g (a, b, k)) then Ok (mk_map_graph (mg_nodes g) ((a, b, k) :: mg_edges g))
    else Panic;
  sg_remove_node i g :=
    mk_map_graph (delete i (mg_nodes g)) (filter (fun e => ~ touches i e) (mg_edges g));
  sg_node g i := mg_nodes g !! i;
  sg_edges := mg_live_edges;
  sg_node_count g := size (mg_nodes g);
  sg_find_edge g a b := snd <$> head (filter (fun e => e.1 = (a, b)) (mg_live_edges g));
  sg_outgoing g i := (fun e => e.1.2) <$> filter (fun e => e.1.1 = i) (mg_live_edges g);
  sg_incoming g i := (fun e => e.1.1) <$> filter (fun e => e.1.2 = i) (mg_live_edges g);
}.

Lemma max_list_elem x l : x ∈ l -> x <= max_list l.
Proof. intros Hx. by apply max_list_elem_of_le. Qed.

Lemma mg_next_node g i n : mg_nodes g !! i = Some n -> i < mg_next g.
Proof.
  intros Hi. unfold mg_next. apply Nat.lt_succ_r, max_list_elem.
  apply elem_of_app. left. apply list_elem_of_fmap. exists (i, n).
  split; [done|by apply elem_of_map_to_list].
Qed.

Lemma mg_next_edge g a b k : (a, b, k) ∈ mg_edges g -> a < mg_next g /\ b < mg_next g.
Proof.
  intros He. unfold mg_next. split; apply Nat.lt_succ_r, max_list_elem; rewrite !elem_of_app.
  - right; left. rewrite !list_elem_of_fmap. exists (a, b). split; [done|].
    apply list_elem_of_fmap. by exists (a, b, k).
  - right; right. rewrite !list_elem_of_fmap. exists (a, b). split; [done|].
    apply list_elem_of_fmap. by exists (a, b, k).
Qed.

#[export] Instance map_graph_laws : StableGraphLaws map_graph.
Proof.
  split; unfold sg_empty, sg_add_node, sg_add_edge, sg_remove_node, sg_node, sg_edges,
    sg_find_edge, sg_outgoing, sg_incoming; cbn [map_graph_stable fst snd mg_nodes mg_edges].
  - intros i. apply lookup_empty.
  - done.
  - intros n g. destruct (mg_nodes g !! mg_next g) eqn:E; [|done]. apply mg_next_node in E. lia.
  - intros n g j. destruct (decide _) as [->|]; [apply lookup_insert_eq|by apply lookup_insert_ne].
  - intros n g. unfold mg_live_edges. cbn [mg_edges]. erewrite filter_iff; [done|].
    intros [[a b] k] He. destruct (mg_next_edge _ _ _ _ He). unfold mg_live. cbn [fst snd mg_nodes].
    rewrite !lookup_insert_ne by lia. done.
  - intros a b k g Ha Hb. rewrite decide_True by done. eexists. split; [done|]. split; [done|].
    unfold mg_live_edges. cbn [mg_edges]. rewrite filter_cons_True by done. done.
  - intros a b k g Hd. rewrite decide_False; [done|]. unfold mg_live. cbn.
    intros [Ha Hb]. destruct Hd as [Hd|Hd]; rewrite Hd in *; by destruct (is_Some_None (A:=GraphNode)).
  - intros i g j. destruct (decide _) as [->|]; [apply lookup_delete_eq|by apply lookup_delete_ne].
  - intros i g. unfold mg_live_edges. cbn [mg_edges]. rewrite !list_filter_filter.
    erewrite filter_iff; [done|]. intros [[a b] k] _. unfold mg_live, touches. cbn [fst snd mg_nodes].
    rewrite !lookup_delete_is_Some. naive_solver.
  - intros g a b k He. by apply list_elem_of_filter in He as [He _].
  - done.
  - done.
  - intros g a b k He. destruct (filter _ (mg_live_edges g)) as [|[ab k'] l] eqn:E; [done|].
    simpl in He. simplify_eq.
    assert ((ab, k) ∈ filter (fun e : edge => e.1 = (a, b)) (mg_live_edges g)) as Hin
      by (rewrite E; left).
    by apply list_elem_of_filter in Hin as [[= ->] ?].
  - intros g a b He k Hin. destruct (filter _ (mg_live_edges g)) as [|? l] eqn:E; [|done].
    assert ((a, b, k) ∈ filter (fun e : edge => e.1 = (a, b)) (mg_live_edges g)) as Hin'
      by (by apply list_elem_of_filter). rewrite E in Hin'. by apply elem_of_nil in Hin'.
Qed.
