(* ===== verification/RepoGraph.v ===== *)
(** * The repository graph (crates/happy-core/src/graph/mod.rs)

    Nodes for the files, classes and functions of a repository, edges for what they
    define, import and call; built from the code elements of an index, updated file
    by file.  The graph container, the parser and the iteration order of a [DashMap]
    are parameters. *)

From S2P Require Import Prelude RustStd Order.
From S2P Require Import CodeTree CallExtraction ImportExtraction.
From S2P Require Import GlobalIndex BaseClasses StableGraph.

Definition node_kind_of (et : ElementType) : NodeKind :=
  match et with
  | EtFile => NkFile | EtClass => NkClass | EtFunction => NkFunction | EtMethod => NkMethod
  | EtModule => NkModule | EtImport => NkModule | EtVariable => NkVariable
  | EtInterface => NkInterface | EtStruct => NkStruct | EtEnum => NkEnum
  end.

(** A loop whose body can panic. *)
Fixpoint fold_outcome {E S A} (f : S -> A -> outcome E S) (s : S) (l : list A) : outcome E S :=
  match l with
  | [] => Ok s
  | x :: l => s ← f s x; fold_outcome f s l
  end.

Section graph.
Context {G : Type} `{StableGraph G} `{NodeText}.
(** [Parser::parse], and the order in which a [DashMap] iterates. *)
Variable parse : str -> SupportedLanguage -> option tnode.
Variable dash_iter : gmap str (list NodeIndex) -> list (str * list NodeIndex).

Record RepositoryGraph : Type := mk_repo {
  rg_graph : G;
  id_to_node : gmap str NodeIndex;
  name_to_nodes : gmap str (list NodeIndex);
  file_to_nodes : gmap str (list NodeIndex);
  element_arena : gmap str CodeElement;
  file_imports : gmap str (list str);
  rg_index : GlobalIndex;
}.

Definition new_graph : RepositoryGraph := mk_repo sg_empty ∅ ∅ ∅ ∅ ∅ empty_index.

Definition with_graph (g : G) (st : RepositoryGraph) : RepositoryGraph :=
  mk_repo g (id_to_node st) (name_to_nodes st) (file_to_nodes st) (element_arena st)
    (file_imports st) (rg_index st).

(** [entry(key).or_default().push(idx)]. *)
Definition push_entry (key : str) (idx : NodeIndex) (m : gmap str (list NodeIndex)) :=
  <[key := default [] (m !! key) ++ [idx]]> m.

(** [self.graph[idx]]: panics when the node is not there. *)
Definition node_at (g : G) (idx : NodeIndex) : outcome () GraphNode :=
  match sg_node g idx with Some n => Ok n | None => Panic end.

(** [iter().find(|&&idx| p(&self.graph[idx]))]. *)
Fixpoint find_node (g : G) (p : GraphNode -> bool) (l : list NodeIndex) : outcome () (option NodeIndex) :=
  match l with
  | [] => Ok None
  | idx :: l => n ← node_at g idx; if p n then Ok (Some idx) else find_node g p l
  end.

Definition is_file_node (n : GraphNode) : bool := bool_decide (gn_kind n = NkFile).

(** ** Nodes and edges *)

Definition add_node (n : GraphNode) (st : RepositoryGraph) : NodeIndex * RepositoryGraph :=
  let '(idx, g) := sg_add_node n (rg_graph st) in
  (idx, mk_repo g (<[gn_id n := idx]> (id_to_node st))
          (push_entry (gn_name n) idx (name_to_nodes st))
          (push_entry (gn_file_path n) idx (file_to_nodes st))
          (element_arena st) (file_imports st) (rg_index st)).

Definition add_edge (from to : NodeIndex) (kind : EdgeKind) (st : RepositoryGraph)
    : outcome () RepositoryGraph :=
  g ← sg_add_edge from to kind (rg_graph st); Ok (with_graph g st).

Definition element_node (e : CodeElement) : GraphNode :=
  mk_node (elem_id e) (node_kind_of (element_type e)) (elem_name e) (elem_file_path e)
    (elem_start_line e) (elem_end_line e).

(** One element of the node phases of [build_from_elements] and [update_file]. *)
Definition add_element (st : RepositoryGraph) (e : CodeElement) : RepositoryGraph :=
  let '(_, st) := add_node (element_node e) st in
  mk_repo (rg_graph st) (id_to_node st) (name_to_nodes st) (file_to_nodes st)
    (<[elem_id e := e]> (element_arena st)) (file_imports st) (rg_index st).

Definition build_index (elements : list CodeElement) (repo_root : str) (st : RepositoryGraph)
    : RepositoryGraph :=
  mk_repo (rg_graph st) (id_to_node st) (name_to_nodes st) (file_to_nodes st)
    (element_arena st) (file_imports st) (build (rg_index st) elements repo_root).

(** One element of the "defines" phases. *)
Definition add_defines_edge (st : RepositoryGraph) (e : CodeElement) : outcome () RepositoryGraph :=
  if bool_decide (element_type e = EtFile) then Ok st
  else match file_to_nodes st !! elem_file_path e with
       | None => Ok st
       | Some file_nodes =>
           file_idx ← find_node (rg_graph st) is_file_node file_nodes;
           match file_idx, id_to_node st !! elem_id e with
           | Some file_idx, Some elem_idx => add_edge file_idx elem_idx Defines st
           | _, _ => Ok st
           end
       end.

(** ** Calls *)

(** The loop over the resolved symbols: the first that is a candidate. *)
Definition first_candidate (st : RepositoryGraph) (candidates : list NodeIndex)
    (resolved : list (str * str)) : option NodeIndex :=
  head (filter (fun idx => idx ∈ candidates) (omap (fun e : str * str => id_to_node st !! e.2) resolved)).

Definition resolve_call_target (st : RepositoryGraph) (callee_name : str)
    (candidates : list NodeIndex) (caller_file : str) (imported_names : list str)
    : outcome () (option NodeIndex) :=
  same_file ← find_node (rg_graph st) (fun n => bool_decide (gn_file_path n = caller_file)) candidates;
  match same_file with
  | Some idx => Ok (Some idx)
  | None =>
      let resolved := resolve_in_context (rg_index st) callee_name imported_names in
      let via_index :=
        match resolved with
        | [] => None
        | (_, element_id) :: _ =>
            match first_candidate st candidates resolved with
            | Some idx => Some idx
            | None => id_to_node st !! element_id
            end
        end in
      match via_index with
      | Some idx => Ok (Some idx)
      | None =>
          from_import ←
            (if bool_decide (imported_names = []) then Ok None
             else find_node (rg_graph st)
               (fun n => existsb (fun imp => contains imp (gn_file_path n)
                                             || bool_decide (gn_name n = imp)) imported_names)
               candidates);
          match from_import with
          | Some idx => Ok (Some idx)
          | None => Ok (head candidates)
          end
      end
  end.

(** One call of a function. *)
Definition add_call_edge (caller_idx : NodeIndex) (caller_file : str) (imported_names : list str)
    (st : RepositoryGraph) (call : CallInfo) : outcome () RepositoryGraph :=
  match name_to_nodes st !! call_name call with
  | None => Ok st
  | Some callee_indices =>
      best_idx ← resolve_call_target st (call_name call) callee_indices caller_file imported_names;
      match best_idx with
      | Some callee_idx =>
          if bool_decide (callee_idx <> caller_idx) then add_edge caller_idx callee_idx Calls st
          else Ok st
      | None => Ok st
      end
  end.

(** The language of an element's file and the tree of its code. *)
Definition parse_element (e : CodeElement) : option (SupportedLanguage * tnode) :=
  lang ← from_extension (elem_file_path e);
  tree ← parse (elem_code e) lang;
  Some (lang, tree).

Definition is_callable (e : CodeElement) : bool :=
  bool_decide (element_type e = EtFunction) || bool_decide (element_type e = EtMethod).

Definition add_call_edges (st : RepositoryGraph) (e : CodeElement) : outcome () RepositoryGraph :=
  if is_callable e then
    match parse_element e, id_to_node st !! elem_id e with
    | Some (lang, tree), Some caller_idx =>
        let imported_names := default [] (file_imports st !! elem_file_path e) in
        fold_outcome (add_call_edge caller_idx (elem_file_path e) imported_names) st
          (extract_calls tree (elem_code e) lang)
    | _, _ => Ok st
    end
  else Ok st.

Definition build_call_edges (elements : list CodeElement) (st : RepositoryGraph)
    : outcome () RepositoryGraph := fold_outcome add_call_edges st elements.

(** ** Imports *)

Definition first_node (st : RepositoryGraph) (name : str) : option NodeIndex :=
  name_to_nodes st !! name ≫= head.

(** The loop over [file_to_nodes]: the file node of the first path that contains the
    module written with slashes. *)
Fixpoint find_file_entry (g : G) (normalized : str) (entries : list (str * list NodeIndex))
    : outcome () (option NodeIndex) :=
  match entries with
  | [] => Ok None
  | (file_path, nodes) :: entries =>
      if contains normalized file_path then
        file_idx ← find_node g is_file_node nodes;
        match file_idx with
        | Some file_idx => Ok (Some file_idx)
        | None => find_file_entry g normalized entries
        end
      else find_file_entry g normalized entries
  end.

Definition resolve_import_target_heuristic (st : RepositoryGraph) (import : ImportInfo)
    : outcome () (option NodeIndex) :=
  match first_node st (import_module import) with
  | Some idx => Ok (Some idx)
  | None =>
      let by_segment :=
        seg ← rsplit_next (ch ".") (import_module import);
        if bool_decide (seg <> import_module import) then first_node st seg else None in
      match by_segment with
      | Some idx => Ok (Some idx)
      | None =>
          let normalized :=
            replace_str (lit "::") (lit "/")
              (replace_char (fun c => bool_decide (c = ch ".")) (lit "/") (import_module import)) in
          find_file_entry (rg_graph st) normalized (dash_iter (file_to_nodes st))
      end
  end.

(** The node of an import's module: through the index, or by the heuristic. *)
Definition import_target (st : RepositoryGraph) (import : ImportInfo) (file_path : str)
    : outcome () (option NodeIndex) :=
  resolved_via_index ←
    match resolve_import (rg_index st) import file_path with
    | Some file_path =>
        match file_to_nodes st !! file_path with
        | Some nodes => find_node (rg_graph st) is_file_node nodes
        | None => Ok None
        end
    | None => Ok None
    end;
  match resolved_via_index with
  | Some idx => Ok (Some idx)
  | None => resolve_import_target_heuristic st import
  end.

(** The node of an imported name. *)
Definition name_target (st : RepositoryGraph) (name : str) : option NodeIndex :=
  let linked :=
    match resolve_symbol (rg_index st) name with
    | (_, element_id) :: _ => id_to_node st !! element_id
    | [] => None
    end in
  match linked with
  | Some idx => Some idx
  | None => first_node st name
  end.

Definition add_target_edge (from : NodeIndex) (kind : EdgeKind) (target : option NodeIndex)
    (st : RepositoryGraph) : outcome () RepositoryGraph :=
  match target with Some to => add_edge from to kind st | None => Ok st end.

Definition add_name_edge (file_idx : NodeIndex) (st : RepositoryGraph) (name : str)
    : outcome () RepositoryGraph :=
  if bool_decide (name = lit "*") then Ok st
  else add_target_edge file_idx Imports (name_target st name) st.

Definition add_import_edge (file_idx : NodeIndex) (file_path : str) (st : RepositoryGraph)
    (import : ImportInfo) : outcome () RepositoryGraph :=
  target_idx ← import_target st import file_path;
  st ← add_target_edge file_idx Imports target_idx st;
  fold_outcome (add_name_edge file_idx) st (import_names import).

Definition record_imports (file_path : str) (imports : list ImportInfo) (st : RepositoryGraph)
    : RepositoryGraph :=
  mk_repo (rg_graph st) (id_to_node st) (name_to_nodes st) (file_to_nodes st) (element_arena st)
    (<[file_path := imports ≫= fun import => import_module import :: import_names import]>
       (file_imports st)) (rg_index st).

Definition add_import_edges (st : RepositoryGraph) (e : CodeElement) : outcome () RepositoryGraph :=
  if bool_decide (element_type e = EtFile) then
    match parse_element e, id_to_node st !! elem_id e with
    | Some (lang, tree), Some file_idx =>
        let imports := extract_imports tree (elem_code e) lang in
        fold_outcome (add_import_edge file_idx (elem_file_path e))
          (record_imports (elem_file_path e) imports st) imports
    | _, _ => Ok st
    end
  else Ok st.

Definition build_import_edges (elements : list CodeElement) (st : RepositoryGraph)
    : outcome () RepositoryGraph := fold_outcome add_import_edges st elements.

(** ** Inheritance *)

Definition is_class_like (e : CodeElement) : bool :=
  bool_decide (element_type e ∈ [EtClass; EtStruct; EtInterface]).

Definition add_inheritance_edges (st : RepositoryGraph) (e : CodeElement)
    : outcome () RepositoryGraph :=
  if is_class_like e then
    match parse_element e, id_to_node st !! elem_id e with
    | Some (lang, tree), Some class_idx =>
        base_names ← extract_base_classes tree lang;
        fold_outcome (fun st base_name => add_target_edge class_idx Inherits (first_node st base_name) st)
          st base_names
    | _, _ => Ok st
    end
  else Ok st.

Definition build_inheritance_edges (elements : list CodeElement) (st : RepositoryGraph)
    : outcome () RepositoryGraph := fold_outcome add_inheritance_edges st elements.

(** ** Building, removing, updating *)

Definition build_from_elements (elements : list CodeElement) (repo_root : str) (st : RepositoryGraph)
    : outcome () RepositoryGraph :=
  let st := build_index elements repo_root (foldl add_element st elements) in
  st ← fold_outcome add_defines_edge st elements;
  st ← build_import_edges elements st;
  st ← build_call_edges elements st;
  build_inheritance_edges elements st.

(** One node of [remove_file]. *)
Definition remove_indexed_node (st : RepositoryGraph) (idx : NodeIndex) : outcome () RepositoryGraph :=
  n ← node_at (rg_graph st) idx;
  Ok (mk_repo (sg_remove_node idx (rg_graph st)) (delete (gn_id n) (id_to_node st))
        (alter (filter (fun i => i <> idx)) (gn_name n) (name_to_nodes st))
        (file_to_nodes st) (delete (gn_id n) (element_arena st)) (file_imports st) (rg_index st)).

Definition forget_file_nodes (file_path : str) (st : RepositoryGraph) : RepositoryGraph :=
  mk_repo (rg_graph st) (id_to_node st) (name_to_nodes st) (delete file_path (file_to_nodes st))
    (element_arena st) (file_imports st) (rg_index st).

Definition forget_imports (file_path : str) (st : RepositoryGraph) : RepositoryGraph :=
  mk_repo (rg_graph st) (id_to_node st) (name_to_nodes st) (file_to_nodes st)
    (element_arena st) (delete file_path (file_imports st)) (rg_index st).

Definition remove_file (file_path : str) (st : RepositoryGraph) : outcome () RepositoryGraph :=
  st ← match file_to_nodes st !! file_path with
       | Some indices => fold_outcome remove_indexed_node (forget_file_nodes file_path st) indices
       | None => Ok st
       end;
  Ok (forget_imports file_path st).

Definition remove_from_index (file_path : str) (st : RepositoryGraph) : RepositoryGraph :=
  mk_repo (rg_graph st) (id_to_node st) (name_to_nodes st) (file_to_nodes st)
    (element_arena st) (file_imports st) (GlobalIndex.remove_file (rg_index st) file_path).

Definition update_file (file_path : str) (new_elements : list CodeElement) (repo_root : str)
    (st : RepositoryGraph) : outcome () RepositoryGraph :=
  st ← remove_file file_path st;
  let st := remove_from_index file_path st in
  let st := build_index new_elements repo_root (foldl add_element st new_elements) in
  st ← build_import_edges new_elements st;
  st ← build_call_edges new_elements st;
  st ← build_inheritance_edges new_elements st;
  fold_outcome add_defines_edge st new_elements.

(** ** Reading the graph *)

Definition get_source (st : RepositoryGraph) (element_id : str) : option str :=
  elem_code <$> element_arena st !! element_id.

(** [stats]: nodes, edges, files, elements. *)
Definition graph_stats (st : RepositoryGraph) : nat * nat * nat * nat :=
  (sg_node_count (rg_graph st), length (sg_edges (rg_graph st)), size (file_to_nodes st),
   size (element_arena st)).

Definition file_paths (st : RepositoryGraph) : list str := (dash_iter (file_to_nodes st)).*1.

(** [all_elements]: sorted by id; the ids are the keys. *)
Definition elem_id_compare (a b : CodeElement) : comparison := str_compare (elem_id a) (elem_id b).
Definition all_elements (st : RepositoryGraph) : list CodeElement :=
  sort elem_id_compare (map_to_list (element_arena st)).*2.

Definition element_ids_for_file (st : RepositoryGraph) (file_path : str) : outcome () (list str) :=
  match file_to_nodes st !! file_path with
  | Some nodes => collect_results (fun idx => n ← node_at (rg_graph st) idx; Ok (gn_id n)) nodes
  | None => Ok []
  end.
End graph.

Arguments RepositoryGraph : clear implicits.

Section wellformed.
Context {G : Type} `{StableGraph G}.

#[local] Abbreviation RepositoryGraph := (RepositoryGraph G) (only parsing).

(** ** Well-formed graphs

    The maps name nodes of the graph by their own id, name and file, and every node
    is found under its name and its file. *)
Record wf_maps (g : G) (ids : gmap str NodeIndex) (names files : gmap str (list NodeIndex)) : Prop := {
  wf_ids i j : ids !! i = Some j -> exists n, sg_node g j = Some n /\ gn_id n = i;
  wf_names s l j : names !! s = Some l -> j ∈ l -> exists n, sg_node g j = Some n /\ gn_name n = s;
  wf_files f l j : files !! f = Some l -> j ∈ l -> exists n, sg_node g j = Some n /\ gn_file_path n = f;
  wf_files_nodup f l : files !! f = Some l -> NoDup l;
  wf_listed j n : sg_node g j = Some n ->
    j ∈ default [] (names !! gn_name n) /\ j ∈ default [] (files !! gn_file_path n);
}.

(** The elements are kept under their ids, the ids of the nodes. *)
Record wf_graph (st : RepositoryGraph) : Prop := {
  wf_st_maps : wf_maps (rg_graph st) (id_to_node st) (name_to_nodes st) (file_to_nodes st);
  wf_arena i e : element_arena st !! i = Some e -> elem_id e = i;
  wf_arena_ids i : is_Some (element_arena st !! i) <-> is_Some (id_to_node st !! i);
}.

Context `{!StableGraphLaws G}.

Lemma new_graph_wf : wf_graph new_graph.
Proof.
  split; [split|..]; cbn [rg_graph id_to_node name_to_nodes file_to_nodes element_arena new_graph].
  - intros i j. by rewrite lookup_empty.
  - intros s l j. by rewrite lookup_empty.
  - intros s l j. by rewrite lookup_empty.
  - intros f l. by rewrite lookup_empty.
  - intros j n. by rewrite sg_empty_node.
  - intros i e. by rewrite lookup_empty.
  - intros i. by rewrite !lookup_empty.
Qed.

(** ** Adding nodes *)

Lemma push_entry_elem key idx m s j :
  j ∈ default [] (push_entry key idx m !! s) <-> j ∈ default [] (m !! s) \/ (s = key /\ j = idx).
Proof.
  unfold push_entry. destruct (decide (key = s)) as [<-|Hne].
  - rewrite lookup_insert_eq. simpl. rewrite elem_of_app, list_elem_of_singleton. naive_solver.
  - rewrite lookup_insert_ne by done. naive_solver.
Qed.

Lemma default_elem (m : gmap str (list NodeIndex)) s j :
  j ∈ default [] (m !! s) <-> exists l, m !! s = Some l /\ j ∈ l.
Proof.
  destruct (m !! s) as [l|]; simpl; [naive_solver|]. split; [by intros ?%elem_of_nil|naive_solver].
Qed.

Lemma add_node_wf n st ids :
  wf_maps (rg_graph st) ids (name_to_nodes st) (file_to_nodes st) ->
  let '(idx, st') := add_node n st in
  wf_maps (rg_graph st') (<[gn_id n := idx]> ids) (name_to_nodes st') (file_to_nodes st').
Proof.
  intros Hwf. unfold add_node. pose proof (sg_add_node_fresh n (rg_graph st)) as Hfresh.
  pose proof (sg_add_node_lookup n (rg_graph st)) as Hlook.
  destruct (sg_add_node n (rg_graph st)) as [idx g]. cbn [fst snd] in *.
  cbn [rg_graph name_to_nodes file_to_nodes].
  assert (Hold : forall j m, sg_node (rg_graph st) j = Some m -> sg_node g j = Some m).
  { intros j m Hj. rewrite Hlook, decide_False; [done|]. intros ->. congruence. }
  assert (Hnew : sg_node g idx = Some n) by (by rewrite Hlook, decide_True).
  assert (Hpush : forall key m s l j, push_entry key idx m !! s = Some l -> j ∈ l ->
                    (exists l', m !! s = Some l' /\ j ∈ l') \/ (s = key /\ j = idx)).
  { intros key m s l j Hl Hj. rewrite <-default_elem, <-push_entry_elem, Hl. done. }
  split.
  - intros i j [[<- <-]|[_ (m & ? & ?)%(wf_ids _ _ _ _ Hwf)]]%lookup_insert_Some; eauto.
  - intros s l j Hl [(l' & Hl' & Hj')|[-> ->]]%(Hpush _ _ _ _ _ Hl); [|eauto].
    destruct (wf_names _ _ _ _ Hwf _ _ _ Hl' Hj') as (m & ? & ?). eauto.
  - intros s l j Hl [(l' & Hl' & Hj')|[-> ->]]%(Hpush _ _ _ _ _ Hl); [|eauto].
    destruct (wf_files _ _ _ _ Hwf _ _ _ Hl' Hj') as (m & ? & ?). eauto.
  - intros f l Hl. unfold push_entry in Hl.
    apply lookup_insert_Some in Hl as [[<- <-]|[_ Hl]]; [|by eapply wf_files_nodup].
    destruct (file_to_nodes st !! gn_file_path n) as [l|] eqn:El; simpl; [|apply NoDup_singleton].
    apply NoDup_app. split; [by eapply wf_files_nodup|]. split; [|apply NoDup_singleton].
    intros j Hj ->%list_elem_of_singleton.
    destruct (wf_files _ _ _ _ Hwf _ _ _ El Hj) as (m & ? & _). congruence.
  - intros j m Hj. rewrite !push_entry_elem. rewrite Hlook in Hj.
    destruct (decide (j = idx)) as [->|]; [simplify_eq; naive_solver|].
    apply (wf_listed _ _ _ _ Hwf) in Hj. naive_solver.
Qed.

Lemma add_element_wf st e : wf_graph st -> wf_graph (add_element st e).
Proof.
  intros [Hmaps Harena Hids]. pose proof (add_node_wf (element_node e) st _ Hmaps) as Hadd.
  unfold add_element, add_node in *.
  destruct (sg_add_node (element_node e) (rg_graph st)) as [idx g]. split; [exact Hadd|..];
    cbn [rg_graph name_to_nodes file_to_nodes id_to_node element_arena element_node gn_id].
  - intros i e' [[<- <-]|[_ ?]]%lookup_insert_Some; auto.
  - intros i. rewrite !lookup_insert_is_Some'. by rewrite Hids.
Qed.

Lemma add_elements_wf elems st : wf_graph st -> wf_graph (foldl add_element st elems).
Proof. revert st. induction elems as [|e elems IH]; intros st Hwf; [done|]. by apply IH, add_element_wf. Qed.
(** ** Removing files *)

Lemma remove_indexed_node_wf st f idx rest n :
  wf_maps (rg_graph st) (id_to_node st) (name_to_nodes st) (<[f := idx :: rest]> (file_to_nodes st)) ->
  sg_node (rg_graph st) idx = Some n -> gn_file_path n = f ->
  wf_maps (sg_remove_node idx (rg_graph st)) (delete (gn_id n) (id_to_node st))
    (alter (filter (fun i => i <> idx)) (gn_name n) (name_to_nodes st))
    (<[f := rest]> (file_to_nodes st)).
Proof.
  intros Hwf Hn Hf.
  assert (Hkeep : forall j m, sg_node (rg_graph st) j = Some m -> j <> idx ->
            sg_node (sg_remove_node idx (rg_graph st)) j = Some m)
    by (intros j m Hj Hne; by rewrite sg_remove_node_lookup, decide_False).
  pose proof (wf_files_nodup _ _ _ _ Hwf f _ (lookup_insert_eq _ _ _)) as [Hidx Hrest]%NoDup_cons.
  split.
  - intros i j [Hne (m & Hm & Hid)%(wf_ids _ _ _ _ Hwf)]%lookup_delete_Some.
    exists m. split; [|done]. apply Hkeep; [done|]. intros ->. congruence.
  - intros s l j Hl Hj. destruct (decide (gn_name n = s)) as [<-|Hne].
    + rewrite lookup_alter_eq in Hl. apply fmap_Some in Hl as (l0 & Hl0 & ->).
      apply list_elem_of_filter in Hj as [Hji Hj].
      destruct (wf_names _ _ _ _ Hwf _ _ _ Hl0 Hj) as (m & ? & ?). eauto.
    + rewrite lookup_alter_ne in Hl by done.
      destruct (wf_names _ _ _ _ Hwf _ _ _ Hl Hj) as (m & Hm & ?). exists m. split; [|done].
      apply Hkeep; [done|]. intros ->. congruence.
  - intros f' l j [[<- <-]|[Hne Hl]]%lookup_insert_Some Hj.
    + destruct (wf_files _ _ _ _ Hwf f _ j (lookup_insert_eq _ _ _)) as (m & ? & ?); [by right|].
      exists m. split; [|done]. apply Hkeep; [done|]. by intros ->.
    + destruct (wf_files _ _ _ _ Hwf f' l j) as (m & Hm & ?); [by rewrite lookup_insert_ne|done|].
      exists m. split; [|done]. apply Hkeep; [done|]. intros ->. congruence.
  - intros f' l [[<- <-]|[Hne Hl]]%lookup_insert_Some; [done|].
    apply (wf_files_nodup _ _ _ _ Hwf f'). by rewrite lookup_insert_ne.
  - intros j m. rewrite sg_remove_node_lookup. case_decide as Hji; [done|].
    intros [Hname Hfile]%(wf_listed _ _ _ _ Hwf). split.
    + destruct (decide (gn_name n = gn_name m)) as [Heq|Hne]; [|by rewrite lookup_alter_ne].
      rewrite Heq, lookup_alter_eq. destruct (name_to_nodes st !! gn_name m); [|done].
      simpl in *. by apply list_elem_of_filter.
    + destruct (decide (f = gn_file_path m)) as [->|Hne].
      * rewrite lookup_insert_eq in *. simpl in *. by apply elem_of_cons in Hfile as [?|?].
      * by rewrite lookup_insert_ne in *.
Qed.

(** The ids and sources of nodes go together. *)
Definition same_ids (st : RepositoryGraph) : Prop :=
  (forall i e, element_arena st !! i = Some e -> elem_id e = i) /\
  (forall i, is_Some (element_arena st !! i) <-> is_Some (id_to_node st !! i)).

Lemma remove_nodes st f l :
  wf_maps (rg_graph st) (id_to_node st) (name_to_nodes st) (<[f := l]> (file_to_nodes st)) ->
  same_ids st ->
  exists st', fold_outcome remove_indexed_node st l = Ok st' /\
    wf_maps (rg_graph st') (id_to_node st') (name_to_nodes st') (<[f := []]> (file_to_nodes st')) /\
    same_ids st' /\ file_to_nodes st' = file_to_nodes st /\
    file_imports st' = file_imports st /\ rg_index st' = rg_index st /\
    (forall j, sg_node (rg_graph st') j = if decide (j ∈ l) then None else sg_node (rg_graph st) j) /\
    sg_edges (rg_graph st') ≡ₚ filter (fun e => (e.1.1 ∉ l) /\ (e.1.2 ∉ l)) (sg_edges (rg_graph st)) /\
    (forall i, element_arena st' !! i =
       if decide (Exists (fun j => gn_id <$> sg_node (rg_graph st) j = Some i) l) then None
       else element_arena st !! i).
Proof.
  revert st. induction l as [|idx l IH]; intros st Hwf Hids.
  { exists st. split_and!; try done.
    rewrite filter_all; [done|]. intros. split; apply not_elem_of_nil. }
  destruct (wf_files _ _ _ _ Hwf f _ idx (lookup_insert_eq _ _ _)) as (n & Hn & Hf); [left|].
  pose proof (wf_files_nodup _ _ _ _ Hwf f _ (lookup_insert_eq _ _ _)) as [Hidx _]%NoDup_cons.
  pose proof (remove_indexed_node_wf st f idx l n Hwf Hn Hf) as Hwf1.
  set (st1 := mk_repo (sg_remove_node idx (rg_graph st)) (delete (gn_id n) (id_to_node st))
    (alter (filter (fun i => i <> idx)) (gn_name n) (name_to_nodes st)) (file_to_nodes st)
    (delete (gn_id n) (element_arena st)) (file_imports st) (rg_index st)).
  assert (Hstep : remove_indexed_node st idx = Ok st1)
    by (unfold remove_indexed_node, node_at; by rewrite Hn).
  cbn [fold_outcome]. rewrite Hstep. cbn [mbind outcome_bind].
  destruct (IH st1) as (st' & Hfold & Hwf' & Hids' & Hfiles & Himp & Hindex & Hnode & Hedges & Harena).
  { exact Hwf1. }
  { destruct Hids as [Ha Hi]. unfold same_ids, st1. cbn [element_arena id_to_node]. split.
    - intros i e [_ ?]%lookup_delete_Some. auto.
    - intros i. rewrite !lookup_delete_is_Some. by rewrite Hi. }
  exists st'. split; [exact Hfold|]. split; [done|]. split; [done|]. split; [done|].
  split; [done|]. split; [done|]. split; [|split].
  - intros j. rewrite Hnode. unfold st1. cbn [rg_graph]. rewrite sg_remove_node_lookup.
    destruct (decide (j = idx)) as [->|Hne].
    + rewrite (decide_True (P := idx ∈ idx :: l)) by left. by case_decide.
    + destruct (decide (j ∈ l)); [by rewrite decide_True by by right|].
      by rewrite decide_False by (by intros [?|?]%elem_of_cons).
  - rewrite Hedges. unfold st1. cbn [rg_graph]. rewrite sg_remove_node_edges, list_filter_filter.
    erewrite filter_iff; [done|]. intros [[a b] k] _. unfold touches. cbn [fst snd].
    rewrite !not_elem_of_cons. naive_solver.
  - intros i. rewrite Harena. unfold st1. cbn [rg_graph element_arena].
    destruct (decide (gn_id n = i)) as [<-|Hne].
    + rewrite lookup_delete_eq. rewrite (decide_True (P := Exists _ (idx :: l)));
        [by case_decide|]. left. by rewrite Hn.
    + rewrite lookup_delete_ne by done.
      assert (Hex : Exists (fun j => gn_id <$> sg_node (sg_remove_node idx (rg_graph st)) j = Some i) l
                    <-> Exists (fun j => gn_id <$> sg_node (rg_graph st) j = Some i) (idx :: l)).
      { rewrite Exists_cons, Hn. simpl. rewrite !Exists_exists.
        setoid_rewrite sg_remove_node_lookup. split.
        - intros (j & Hj & Heq). right. exists j. split; [done|]. by case_decide.
        - intros [[= ?]|(j & Hj & Heq)]; [done|]. exists j. split; [done|].
          rewrite decide_False; [done|]. by intros ->. }
      destruct (decide (Exists _ l)) as [He|He]; [by rewrite decide_True by by apply Hex|].
      by rewrite decide_False by (by intros ?%Hex).
Qed.

Definition node_in_file (st : RepositoryGraph) (f : str) (j : NodeIndex) : Prop :=
  gn_file_path <$> sg_node (rg_graph st) j = Some f.

#[export] Instance node_in_file_dec st f j : Decision (node_in_file st f j).
Proof. unfold node_in_file. apply _. Defined.

Lemma file_nodes_iff st f j :
  wf_graph st -> j ∈ default [] (file_to_nodes st !! f) <-> node_in_file st f j.
Proof.
  intros [Hwf _ _]. unfold node_in_file. rewrite default_elem, fmap_Some. split.
  - intros (l & Hl & Hj). destruct (wf_files _ _ _ _ Hwf _ _ _ Hl Hj) as (n & ? & ?). eauto.
  - intros (n & Hn & ->). apply (wf_listed _ _ _ _ Hwf) in Hn as [_ Hn]. by apply default_elem.
Qed.
Lemma wf_maps_forget g ids names files f :
  wf_maps g ids names (<[f := []]> files) -> wf_maps g ids names (delete f files).
Proof.
  intros Hwf. split.
  - apply (wf_ids _ _ _ _ Hwf).
  - apply (wf_names _ _ _ _ Hwf).
  - intros f' l j [Hne Hl]%lookup_delete_Some. apply (wf_files _ _ _ _ Hwf f' l j).
    by rewrite lookup_insert_ne.
  - intros f' l [Hne Hl]%lookup_delete_Some. apply (wf_files_nodup _ _ _ _ Hwf f' l).
    by rewrite lookup_insert_ne.
  - intros j n [? Hj]%(wf_listed _ _ _ _ Hwf). split; [done|].
    destruct (decide (f = gn_file_path n)) as [->|Hne].
    + rewrite lookup_insert_eq in Hj. by apply elem_of_nil in Hj.
    + rewrite lookup_insert_ne in Hj by done. by rewrite lookup_delete_ne.
Qed.

Lemma wf_maps_forget_none g ids names files f :
  wf_maps g ids names files -> files !! f = None -> wf_maps g ids names (<[f := []]> files).
Proof.
  intros Hwf Hf. split.
  - apply (wf_ids _ _ _ _ Hwf).
  - apply (wf_names _ _ _ _ Hwf).
  - intros f' l j [[<- <-]|[Hne Hl]]%lookup_insert_Some Hj; [by apply elem_of_nil in Hj|].
    by apply (wf_files _ _ _ _ Hwf f' l j).
  - intros f' l [[<- <-]|[Hne Hl]]%lookup_insert_Some; [constructor|].
    by apply (wf_files_nodup _ _ _ _ Hwf f' l).
  - intros j n [? Hj]%(wf_listed _ _ _ _ Hwf). split; [done|].
    rewrite lookup_insert_ne; [done|]. intros ->. rewrite Hf in Hj. by apply elem_of_nil in Hj.
Qed.

(** What a removal leaves: the nodes of the other files, the edges between them, and
    the sources of the other elements. *)
Lemma remove_file_state st f :
  wf_graph st ->
  exists st', remove_file f st = Ok st' /\ wf_graph st' /\
    (forall j, sg_node (rg_graph st') j
       = if decide (node_in_file st f j) then None else sg_node (rg_graph st) j) /\
    sg_edges (rg_graph st')
      ≡ₚ filter (fun e => ~ node_in_file st f e.1.1 /\ ~ node_in_file st f e.1.2) (sg_edges (rg_graph st)) /\
    (forall i, element_arena st' !! i =
       if decide (Exists (fun j => gn_id <$> sg_node (rg_graph st) j = Some i)
                    (default [] (file_to_nodes st !! f)))
       then None else element_arena st !! i) /\
    file_to_nodes st' = delete f (file_to_nodes st) /\ rg_index st' = rg_index st.
Proof.
  intros Hwf. pose proof (file_nodes_iff st f) as Hin. unfold remove_file.
  set (l := default [] (file_to_nodes st !! f)) in *.
  destruct (remove_nodes (forget_file_nodes f st) f l)
    as (st' & Hfold & Hwf' & Hids & Hfiles & _ & Hindex & Hnode & Hedges & Harena).
  { cbn [forget_file_nodes rg_graph id_to_node name_to_nodes file_to_nodes].
    rewrite insert_delete_eq. destruct Hwf as [Hmaps _ _]. unfold l.
    destruct (file_to_nodes st !! f) as [l0|] eqn:Hl0; [by rewrite insert_id|].
    by apply wf_maps_forget_none. }
  { split; apply Hwf. }
  exists (forget_imports f st'). split.
  { unfold l in Hfold. destruct (file_to_nodes st !! f) as [l0|] eqn:Hl0.
    - change (default [] (Some l0)) with l0 in Hfold. by rewrite Hfold.
    - cbn in Hfold. simplify_eq. unfold forget_file_nodes. rewrite delete_id by done. by destruct st. }
  split; [|split; [|split; [|split; [|split]]]].
  - destruct Hids as [Ha Hi]. rewrite Hfiles in Hwf'. split; [|done|done].
    apply wf_maps_forget in Hwf'. cbn in Hwf' |- *. rewrite Hfiles in *. by rewrite delete_delete_eq in Hwf'.
  - intros j. cbn. rewrite Hnode. by apply decide_ext, Hin.
  - cbn. rewrite Hedges. erewrite filter_iff; [done|]. intros [[a b] k] _. cbn. by rewrite !Hin.
  - intros i. cbn. by rewrite Harena.
  - exact Hfiles.
  - exact Hindex.
Qed.

Lemma element_ids_live st f :
  wf_graph st ->
  exists ids, element_ids_for_file st f = Ok ids /\
    Forall2 (fun j i => gn_id <$> sg_node (rg_graph st) j = Some i)
      (default [] (file_to_nodes st !! f)) ids.
Proof.
  intros Hwf. unfold element_ids_for_file.
  assert (Hl : forall j, j ∈ default [] (file_to_nodes st !! f) -> is_Some (sg_node (rg_graph st) j)).
  { intros j (n & Hn & _)%(file_nodes_iff st f j Hwf)%fmap_Some. by exists n. }
  destruct (file_to_nodes st !! f) as [l|]; [|by exists []]. cbn in Hl.
  induction l as [|j l IH]; [by exists []|]. destruct (Hl j) as [n Hn]; [left|].
  destruct IH as (ids & Hids & Hall); [intros; apply Hl; by right|].
  exists (gn_id n :: ids). split; [|constructor; [by rewrite Hn|done]]. cbn [collect_results].
  assert (node_at (rg_graph st) j = Ok n) as -> by (unfold node_at; by rewrite Hn).
  cbn [mbind outcome_bind]. by rewrite Hids.
Qed.

(** Removing a file never panics.  Afterwards the file has no elements, and exactly
    the sources of those it had are gone; the elements of the other files, and the
    edges between them, are as before.  The global index is not touched: symbols and
    modules still resolve to the removed file. *)
Theorem remove_file_forgets st f :
  wf_graph st ->
  exists ids st', element_ids_for_file st f = Ok ids /\ remove_file f st = Ok st' /\
    element_ids_for_file st' f = Ok [] /\
    (forall g, g <> f -> element_ids_for_file st' g = element_ids_for_file st g) /\
    (forall i, get_source st' i = if decide (i ∈ ids) then None else get_source st i) /\
    sg_edges (rg_graph st')
      ≡ₚ filter (fun e => ~ node_in_file st f e.1.1 /\ ~ node_in_file st f e.1.2) (sg_edges (rg_graph st)) /\
    rg_index st' = rg_index st.
Proof.
  intros Hwf. destruct (element_ids_live st f Hwf) as (ids & Hids & Hall).
  destruct (remove_file_state st f Hwf) as (st' & Hok & _ & Hnode & Hedges & Harena & Hfiles & Hindex).
  exists ids, st'. split; [done|]. split; [done|]. split; [|split; [|split; [|done]]].
  - unfold element_ids_for_file. by rewrite Hfiles, lookup_delete_eq.
  - intros g Hne. unfold element_ids_for_file. rewrite Hfiles, lookup_delete_ne by done.
    assert (Hg : forall j, j ∈ default [] (file_to_nodes st !! g) ->
              sg_node (rg_graph st') j = sg_node (rg_graph st) j).
    { intros j Hj%file_nodes_iff; [|done]. rewrite Hnode, decide_False; [done|].
      unfold node_in_file in *. congruence. }
    destruct (file_to_nodes st !! g) as [l|]; [|done]. cbn in Hg.
    induction l as [|j l IH]; [done|]. cbn [collect_results].
    assert (node_at (rg_graph st') j = node_at (rg_graph st) j) as ->
      by (unfold node_at; by rewrite Hg by left).
    by rewrite IH by (intros; apply Hg; by right).
  - intros i. unfold get_source. rewrite Harena.
    assert (Hex : Exists (fun j => gn_id <$> sg_node (rg_graph st) j = Some i)
                    (default [] (file_to_nodes st !! f)) <-> i ∈ ids).
    { clear -Hall. induction Hall as [|j i' l ids Hj _ IH].
      - rewrite Exists_nil. split; [done|apply elem_of_nil].
      - rewrite Exists_cons, IH, elem_of_cons, Hj. naive_solver. }
    destruct (decide (i ∈ ids)) as [Hi|Hi].
    + by rewrite decide_True by (by apply Hex).
    + rewrite decide_False; [done|]. by rewrite Hex.
Qed.
End wellformed.

(** ** An example: one file with one function, and another file *)

Definition example_element (id : string) (et : ElementType) (name path code : string) : CodeElement :=
  mk_element (lit id) et (lit name) (lit path) (lit path) (lit "python") 1 1 (lit code) None None None ∅.

Definition example_nodes : RepositoryGraph map_graph :=
  foldl add_element new_graph
    [example_element "fa" EtFile "a.py" "/r/a.py" ""; example_element "g" EtFunction "g" "/r/a.py" "";
     example_element "fb" EtFile "b.py" "/r/b.py" ""].

Lemma remove_file_forgets_witness :
  exists st, remove_file (lit "/r/a.py") example_nodes = Ok st /\
    get_source example_nodes (lit "g") = Some [] /\ get_source st (lit "g") = None.
Proof.
  assert (Hwf : wf_graph example_nodes) by apply add_elements_wf, new_graph_wf.
  destruct (remove_file_forgets example_nodes (lit "/r/a.py") Hwf)
    as (ids & st & Hids & Hok & _ & _ & Hsource & _).
  exists st. split; [exact Hok|]. split; [apply (bool_decide_unpack (_ = _)); vm_compute; exact I|].
  rewrite Hsource, decide_True; [reflexivity|].
  assert (Hin : match element_ids_for_file example_nodes (lit "/r/a.py") with
                | Ok ids => bool_decide (lit "g" ∈ ids) | _ => false end = true)
    by (vm_compute; reflexivity).
  rewrite Hids in Hin. apply bool_decide_eq_true in Hin. exact Hin.
Defined.
