(* ===== verification/RepoEdges.v ===== *)
(** * The edges of the repository graph (crates/happy-core/src/graph/mod.rs)

    What the phases of [build_from_elements] and [update_file] add: for each phase the
    edges as a function of the nodes, and the proof that the phase adds these and no
    others, without a panic. *)

From S2P Require Import Prelude RustStd Order.
From S2P Require Import CodeTree CallExtraction ImportExtraction.
From S2P Require Import GlobalIndex BaseClasses StableGraph.
From S2P Require Import RepoGraph.

Section adding.
Context {G : Type} `{StableGraph G} `{!StableGraphLaws G}.

#[local] Abbreviation RepositoryGraph := (RepositoryGraph G) (only parsing).

(** ** Adding edges

    The edge phases leave nodes and maps alone. *)
Record same_nodes (st st' : RepositoryGraph) : Prop := {
  sn_node j : sg_node (rg_graph st') j = sg_node (rg_graph st) j;
  sn_ids : id_to_node st' = id_to_node st;
  sn_names : name_to_nodes st' = name_to_nodes st;
  sn_files : file_to_nodes st' = file_to_nodes st;
  sn_arena : element_arena st' = element_arena st;
  sn_index : rg_index st' = rg_index st;
}.

#[export] Instance same_nodes_preorder : PreOrder same_nodes.
Proof.
  split; [by split|]. intros st1 st2 st3 H12 H23. split.
  - intros j. by rewrite (sn_node _ _ H23), (sn_node _ _ H12).
  - by rewrite (sn_ids _ _ H23), (sn_ids _ _ H12).
  - by rewrite (sn_names _ _ H23), (sn_names _ _ H12).
  - by rewrite (sn_files _ _ H23), (sn_files _ _ H12).
  - by rewrite (sn_arena _ _ H23), (sn_arena _ _ H12).
  - by rewrite (sn_index _ _ H23), (sn_index _ _ H12).
Qed.

Lemma same_nodes_wf st st' : same_nodes st st' -> wf_graph st -> wf_graph st'.
Proof.
  intros Hs [Hwf Ha Hi]. split; rewrite ?(sn_ids _ _ Hs), ?(sn_names _ _ Hs), ?(sn_files _ _ Hs),
    ?(sn_arena _ _ Hs); [|done..].
  destruct Hwf as [H1 H2 H3 H4 H5]. pose proof (sn_node _ _ Hs) as Hn.
  split; [setoid_rewrite Hn; done..|done|]. intros j n. rewrite Hn. apply H5.
Qed.

(** The same nodes, some edges more, and the imports of files updated. *)
Definition adds (imports : gmap str (list str) -> gmap str (list str)) (new : list edge)
    (st st' : RepositoryGraph) : Prop :=
  same_nodes st st' /\ file_imports st' = imports (file_imports st) /\
  sg_edges (rg_graph st') ≡ₚ new ++ sg_edges (rg_graph st).

Lemma adds_refl st : adds id [] st st.
Proof. by split. Qed.

(** A loop that adds edges element by element, under an invariant [K]. *)
Lemma fold_adds {A} (K : RepositoryGraph -> Prop) (f : RepositoryGraph -> A -> outcome () RepositoryGraph)
    (imports : A -> gmap str (list str) -> gmap str (list str)) (es : A -> list edge) st0 st l :
  same_nodes st0 st -> K st ->
  (forall st' x, x ∈ l -> same_nodes st0 st' -> K st' ->
     exists st'', f st' x = Ok st'' /\ adds (imports x) (es x) st' st'' /\ K st'') ->
  exists st', fold_outcome f st l = Ok st' /\
    adds (fun m => foldl (fun m x => imports x m) m l) (l ≫= es) st st' /\ K st'.
Proof.
  revert st. induction l as [|x l IH]; intros st Hs HK Hstep.
  { exists st. split; [done|]. split; [apply adds_refl|done]. }
  destruct (Hstep st x) as (st1 & Hx & (Hs1 & Hi1 & He1) & HK1); [left|done..|].
  destruct (IH st1) as (st2 & Hl & (Hs2 & Hi2 & He2) & HK2); [by etrans|done| |].
  { intros st' y Hy. apply Hstep. by right. }
  exists st2. cbn [fold_outcome]. rewrite Hx. split; [exact Hl|]. split; [|done].
  split; [by etrans|]. split; [by rewrite Hi2, Hi1|].
  rewrite He2, He1, bind_cons, !(assoc (++)). by rewrite (Permutation_app_comm (es x)).
Qed.

(** The common case: the imports of files are not touched. *)
Lemma fold_adds_edges {A} (f : RepositoryGraph -> A -> outcome () RepositoryGraph)
    (es : A -> list edge) st l :
  (forall st' x, x ∈ l -> same_nodes st st' -> file_imports st' = file_imports st ->
     exists st'', f st' x = Ok st'' /\ adds id (es x) st' st'') ->
  exists st', fold_outcome f st l = Ok st' /\ adds id (l ≫= es) st st'.
Proof.
  intros Hstep.
  destruct (fold_adds (fun st' => file_imports st' = file_imports st) f (fun _ => id) es st st l)
    as (st' & Hf & (Hs & Hi & He) & HK); [done|done| |].
  - intros st' x Hx Hs HK. destruct (Hstep st' x Hx Hs HK) as (st'' & Hok & Hadds).
    exists st''. split; [done|]. split; [done|]. destruct Hadds as (_ & Hi & _). by rewrite Hi.
  - exists st'. split; [done|]. split; [done|]. by split.
Qed.

Lemma add_edge_adds st a b k :
  is_Some (sg_node (rg_graph st) a) -> is_Some (sg_node (rg_graph st) b) ->
  exists st', add_edge a b k st = Ok st' /\ adds id [(a, b, k)] st st'.
Proof.
  intros Ha Hb. destruct (sg_add_edge_live a b k _ Ha Hb) as (g' & Hg & Hnode & Hedges).
  exists (with_graph g' st). unfold add_edge. rewrite Hg. split; [done|]. by repeat split.
Qed.

Lemma add_target_edge_adds st a k target :
  is_Some (sg_node (rg_graph st) a) ->
  (forall b, target = Some b -> is_Some (sg_node (rg_graph st) b)) ->
  exists st', add_target_edge a k target st = Ok st' /\
    adds id (option_list ((fun b => (a, b, k)) <$> target)) st st'.
Proof.
  intros Ha Hb. destruct target as [b|]; [by apply add_edge_adds; [|apply Hb]|].
  exists st. split; [done|apply adds_refl].
Qed.

(** ** Lookups of a well-formed graph *)

Definition live (st : RepositoryGraph) (j : NodeIndex) : Prop := is_Some (sg_node (rg_graph st) j).

Lemma find_node_pure g p l :
  (forall j, j ∈ l -> is_Some (sg_node g j)) ->
  find_node g p l
  = Ok (head (filter (fun j => match sg_node g j with Some n => p n | None => false end = true) l)).
Proof.
  induction l as [|j l IH]; intros Hl; [done|]. cbn [find_node]. unfold node_at.
  destruct (Hl j) as [n Hn]; [left|]. rewrite Hn. cbn [mbind outcome_bind].
  destruct (p n) eqn:Hp.
  - rewrite filter_cons_True; [done|]. by rewrite Hn.
  - rewrite filter_cons_False; [|by rewrite Hn, Hp]. apply IH. intros; apply Hl; by right.
Qed.

Lemma head_filter_elem {A} (P : A -> Prop) `{!forall x, Decision (P x)} (l : list A) x :
  head (filter P l) = Some x -> x ∈ l /\ P x.
Proof.
  intros Hh. assert (x ∈ filter P l) as Hx by (destruct (filter P l); simplify_eq/=; left).
  apply list_elem_of_filter in Hx. tauto.
Qed.

Lemma find_node_live g p l :
  (forall j, j ∈ l -> is_Some (sg_node g j)) ->
  exists o, find_node g p l = Ok o /\ forall j, o = Some j -> j ∈ l.
Proof.
  intros Hl. eexists. split; [by apply find_node_pure|]. by intros j [? _]%head_filter_elem.
Qed.

Lemma id_live st i j : wf_graph st -> id_to_node st !! i = Some j -> live st j.
Proof. intros [Hwf _ _] (n & Hn & _)%(wf_ids _ _ _ _ Hwf). by exists n. Qed.

Lemma name_live st s l : wf_graph st -> name_to_nodes st !! s = Some l -> forall j, j ∈ l -> live st j.
Proof.
  intros [Hwf _ _] Hl j Hj. destruct (wf_names _ _ _ _ Hwf _ _ _ Hl Hj) as (n & Hn & _). by exists n.
Qed.

Lemma file_live st f l : wf_graph st -> file_to_nodes st !! f = Some l -> forall j, j ∈ l -> live st j.
Proof.
  intros [Hwf _ _] Hl j Hj. destruct (wf_files _ _ _ _ Hwf _ _ _ Hl Hj) as (n & Hn & _). by exists n.
Qed.

Lemma first_node_live st s j : wf_graph st -> first_node st s = Some j -> live st j.
Proof.
  unfold first_node. intros Hwf (l & Hl & Hj)%bind_Some. eapply name_live; [done..|].
  destruct l; simplify_eq/=. left.
Qed.
End adding.

Section edges.
Context {G : Type} `{StableGraph G} `{NodeText}.
Variable parse : str -> SupportedLanguage -> option tnode.
Variable dash_iter : gmap str (list NodeIndex) -> list (str * list NodeIndex).
Context `{!StableGraphLaws G}.

#[local] Abbreviation RepositoryGraph := (RepositoryGraph G) (only parsing).
#[local] Abbreviation parse_element := (parse_element parse) (only parsing).
#[local] Abbreviation import_target := (import_target dash_iter) (only parsing).
#[local] Abbreviation resolve_import_target_heuristic :=
  (resolve_import_target_heuristic dash_iter) (only parsing).

(** ** The edges of each phase, as functions of the nodes *)

Definition edges_to (a : NodeIndex) (kind : EdgeKind) (target : option NodeIndex) : list edge :=
  option_list ((fun b => (a, b, kind)) <$> target).

Definition defines_edges (st : RepositoryGraph) (e : CodeElement) : list edge :=
  if bool_decide (element_type e = EtFile) then []
  else match file_to_nodes st !! elem_file_path e with
       | None => []
       | Some nodes =>
           match unwrap_or None (find_node (rg_graph st) is_file_node nodes),
                 id_to_node st !! elem_id e with
           | Some a, b => edges_to a Defines b
           | None, _ => []
           end
       end.

Definition call_edge (st : RepositoryGraph) (a : NodeIndex) (file : str) (imported : list str)
    (call : CallInfo) : list edge :=
  match name_to_nodes st !! call_name call with
  | None => []
  | Some candidates =>
      edges_to a Calls
        (b ← unwrap_or None (resolve_call_target st (call_name call) candidates file imported);
         if bool_decide (b <> a) then Some b else None)
  end.

Definition call_edges (st : RepositoryGraph) (imports : gmap str (list str)) (e : CodeElement)
    : list edge :=
  if is_callable e then
    match parse_element e, id_to_node st !! elem_id e with
    | Some (lang, tree), Some a =>
        extract_calls tree (elem_code e) lang
          ≫= call_edge st a (elem_file_path e) (default [] (imports !! elem_file_path e))
    | _, _ => []
    end
  else [].

Definition name_edge (st : RepositoryGraph) (a : NodeIndex) (name : str) : list edge :=
  if bool_decide (name = lit "*") then [] else edges_to a Imports (name_target st name).

Definition import_edge (st : RepositoryGraph) (a : NodeIndex) (file : str) (import : ImportInfo)
    : list edge :=
  edges_to a Imports (unwrap_or None (import_target st import file))
  ++ (import_names import ≫= name_edge st a).

(** What [add_import_edges] looks at: the node of the file and its imports. *)
Definition file_of_element (st : RepositoryGraph) (e : CodeElement)
    : option (NodeIndex * list ImportInfo) :=
  if bool_decide (element_type e = EtFile) then
    match parse_element e, id_to_node st !! elem_id e with
    | Some (lang, tree), Some a => Some (a, extract_imports tree (elem_code e) lang)
    | _, _ => None
    end
  else None.

Definition import_edges (st : RepositoryGraph) (e : CodeElement) : list edge :=
  match file_of_element st e with
  | Some (a, imports) => imports ≫= import_edge st a (elem_file_path e)
  | None => []
  end.

Definition imported_by (st : RepositoryGraph) (e : CodeElement) (m : gmap str (list str))
    : gmap str (list str) :=
  match file_of_element st e with
  | Some (_, imports) =>
      <[elem_file_path e := imports ≫= fun import => import_module import :: import_names import]> m
  | None => m
  end.

(** ** The lookups depend on the nodes only *)

Lemma find_node_same g g' p l :
  (forall j, sg_node g' j = sg_node g j) -> find_node g' p l = find_node g p l.
Proof.
  intros Hn. induction l as [|j l IH]; [done|]. cbn [find_node]. unfold node_at.
  rewrite Hn. destruct (sg_node g j); [|done]. cbn [mbind outcome_bind]. by rewrite IH.
Qed.

Lemma resolve_call_target_same st st' name candidates file imported :
  same_nodes st st' ->
  resolve_call_target st' name candidates file imported
  = resolve_call_target st name candidates file imported.
Proof.
  intros Hs. unfold resolve_call_target, first_candidate.
  rewrite !(find_node_same _ _ _ _ (sn_node _ _ Hs)), (sn_index _ _ Hs), (sn_ids _ _ Hs). done.
Qed.

Lemma import_target_same st st' import file :
  same_nodes st st' -> import_target st' import file = import_target st import file.
Proof.
  intros Hs. unfold import_target, resolve_import_target_heuristic, first_node.
  rewrite (sn_index _ _ Hs), (sn_files _ _ Hs), (sn_names _ _ Hs).
  assert (Hfind : forall normalized entries,
    find_file_entry (rg_graph st') normalized entries = find_file_entry (rg_graph st) normalized entries).
  { intros normalized. induction entries as [|[f nodes] entries IH]; [done|]. cbn [find_file_entry].
    by rewrite IH, (find_node_same _ _ _ _ (sn_node _ _ Hs)). }
  rewrite Hfind. destruct (resolve_import _ _ _) as [f|]; [|done].
  destruct (file_to_nodes st !! f); [|done]. by rewrite (find_node_same _ _ _ _ (sn_node _ _ Hs)).
Qed.

Lemma name_target_same st st' name : same_nodes st st' -> name_target st' name = name_target st name.
Proof.
  intros Hs. unfold name_target, first_node.
  by rewrite (sn_index _ _ Hs), (sn_ids _ _ Hs), (sn_names _ _ Hs).
Qed.

Lemma file_of_element_same st st' e : same_nodes st st' -> file_of_element st' e = file_of_element st e.
Proof. intros Hs. unfold file_of_element. by rewrite (sn_ids _ _ Hs). Qed.

Lemma imported_by_same st st' e m : same_nodes st st' -> imported_by st' e m = imported_by st e m.
Proof. intros Hs. unfold imported_by. by rewrite (file_of_element_same _ _ _ Hs). Qed.

Lemma import_edges_same st st' e : same_nodes st st' -> import_edges st' e = import_edges st e.
Proof.
  intros Hs. unfold import_edges. rewrite (file_of_element_same _ _ _ Hs).
  destruct (file_of_element st e) as [[a imports]|]; [|done].
  apply list_bind_ext; [|done]. intros import. unfold import_edge.
  rewrite (import_target_same _ _ _ _ Hs). f_equal.
  apply list_bind_ext; [|done]. intros name. unfold name_edge. by rewrite (name_target_same _ _ _ Hs).
Qed.

Lemma defines_edges_same st st' e : same_nodes st st' -> defines_edges st' e = defines_edges st e.
Proof.
  intros Hs. unfold defines_edges. rewrite (sn_files _ _ Hs), (sn_ids _ _ Hs).
  destruct (file_to_nodes st !! elem_file_path e); [|done].
  by rewrite (find_node_same _ _ _ _ (sn_node _ _ Hs)).
Qed.

(** ** The lookups find nodes of the graph *)

Lemma resolve_call_target_live st name candidates file imported :
  wf_graph st -> (forall j, j ∈ candidates -> live st j) ->
  exists o, resolve_call_target st name candidates file imported = Ok o /\
    forall j, o = Some j -> live st j.
Proof.
  intros Hwf Hl. unfold resolve_call_target.
  destruct (find_node_live (rg_graph st) (fun n => bool_decide (gn_file_path n = file)) candidates Hl)
    as (o & -> & Ho). cbn [mbind outcome_bind].
  destruct o as [idx|]; [exists (Some idx); naive_solver|].
  match goal with |- context [match ?x with Some idx => Ok (Some idx) | None => _ end] =>
    set (via := x) end.
  assert (Hvia : forall j, via = Some j -> live st j).
  { subst via. intros j. destruct (resolve_in_context _ _ _) as [|[f i] rest] eqn:E; [done|].
    destruct (first_candidate _ _ _) as [idx|] eqn:Hc; [|by apply id_live].
    unfold first_candidate in Hc. apply head_filter_elem in Hc as [_ Hc]. intros [= <-]. auto. }
  destruct via as [idx|]; [exists (Some idx); naive_solver|].
  destruct (bool_decide (imported = [])).
  - cbn [mbind outcome_bind]. exists (head candidates). split; [done|]. intros j Hj. apply Hl.
    destruct candidates; simplify_eq/=. left.
  - match goal with |- context [find_node ?g ?p ?l] =>
      destruct (find_node_live g p l Hl) as (o' & -> & Ho') end.
    cbn [mbind outcome_bind]. destruct o' as [idx|]; [exists (Some idx); naive_solver|].
    exists (head candidates). split; [done|]. intros j Hj. apply Hl.
    destruct candidates; simplify_eq/=. left.
Qed.

Lemma name_target_live st name j : wf_graph st -> name_target st name = Some j -> live st j.
Proof.
  intros Hwf. unfold name_target.
  destruct (resolve_symbol _ _) as [|[f i] rest]; [by apply first_node_live|].
  destruct (id_to_node st !! i) as [idx|] eqn:Hi; [|by apply first_node_live].
  intros [= <-]. by eapply id_live.
Qed.

Hypothesis dash_iter_perm : forall m, dash_iter m ≡ₚ map_to_list m.

Lemma find_file_entry_live st normalized entries :
  (forall f l j, (f, l) ∈ entries -> j ∈ l -> live st j) ->
  exists o, find_file_entry (rg_graph st) normalized entries = Ok o /\
    forall j, o = Some j -> live st j.
Proof.
  induction entries as [|[f l] entries IH]; intros Hl; [by exists None|]. cbn [find_file_entry].
  destruct IH as (o & Ho & Hlive); [intros f' l' j ?; apply (Hl f'); by right|].
  destruct (contains normalized f); [|eauto].
  destruct (find_node_live (rg_graph st) is_file_node l) as (o' & -> & Ho').
  { intros j Hj. apply (Hl f l); [left|done]. }
  cbn [mbind outcome_bind]. destruct o' as [idx|]; [|eauto].
  exists (Some idx). split; [done|]. intros j [= <-]. apply (Hl f l); [left|by apply Ho'].
Qed.

Lemma import_target_live st import file :
  wf_graph st ->
  exists o, import_target st import file = Ok o /\ forall j, o = Some j -> live st j.
Proof.
  intros Hwf. unfold import_target.
  assert (Hheur : exists o, resolve_import_target_heuristic st import = Ok o /\
                            forall j, o = Some j -> live st j).
  { unfold resolve_import_target_heuristic.
    destruct (first_node st (import_module import)) as [idx|] eqn:E1.
    { exists (Some idx). split; [done|]. intros j [= <-]. by eapply first_node_live. }
    match goal with |- context [match ?x with Some idx => Ok (Some idx) | None => _ end] =>
      destruct x as [idx|] eqn:E2 end.
    { exists (Some idx). split; [done|]. intros j [= <-]. apply bind_Some in E2 as (seg & _ & E2).
      case_match; [|done]. by eapply first_node_live. }
    apply find_file_entry_live. intros f l j Hl. rewrite dash_iter_perm in Hl.
    apply elem_of_map_to_list in Hl. by eapply file_live. }
  destruct (resolve_import _ _ _) as [f|]; [|done].
  destruct (file_to_nodes st !! f) as [nodes|] eqn:Hf; [|done].
  destruct (find_node_live (rg_graph st) is_file_node nodes) as (o & -> & Ho);
    [by eapply file_live|]. cbn [mbind outcome_bind].
  destruct o as [idx|]; [|done]. exists (Some idx). split; [done|]. intros j [= <-].
  by eapply file_live, Ho.
Qed.
(** ** Each phase adds its edges *)

Lemma adds_trans imports1 imports2 new1 new2 st1 st2 st3 :
  adds imports1 new1 st1 st2 -> adds imports2 new2 st2 st3 ->
  adds (fun m => imports2 (imports1 m)) (new2 ++ new1) st1 st3.
Proof.
  intros (Hs1 & Hi1 & He1) (Hs2 & Hi2 & He2). split; [by etrans|]. split; [by rewrite Hi2, Hi1|].
  by rewrite He2, He1, (assoc (++)).
Qed.

Lemma live_same st st' j : same_nodes st st' -> live st j -> live st' j.
Proof. intros Hs. unfold live. by rewrite (sn_node _ _ Hs). Qed.

Lemma add_defines_edge_adds st st' e :
  wf_graph st -> same_nodes st st' ->
  exists st'', add_defines_edge st' e = Ok st'' /\ adds id (defines_edges st e) st' st''.
Proof.
  intros Hwf Hs. unfold add_defines_edge, defines_edges.
  destruct (bool_decide _); [by exists st'; split; [|apply adds_refl]|].
  rewrite (sn_files _ _ Hs), (sn_ids _ _ Hs).
  destruct (file_to_nodes st !! elem_file_path e) as [nodes|] eqn:Hf;
    [|by exists st'; split; [|apply adds_refl]].
  rewrite (find_node_same _ _ _ _ (sn_node _ _ Hs)).
  destruct (find_node_live (rg_graph st) is_file_node nodes) as (o & -> & Ho);
    [by eapply file_live|]. cbn [mbind outcome_bind unwrap_or].
  destruct o as [a|]; [|by exists st'; split; [|apply adds_refl]].
  destruct (id_to_node st !! elem_id e) as [b|] eqn:Hb; [|by exists st'; split; [|apply adds_refl]].
  apply add_edge_adds.
  - eapply live_same, file_live; [done..|by apply Ho].
  - by eapply live_same, id_live.
Qed.

Lemma build_defines_edges_adds elems st :
  wf_graph st ->
  exists st', fold_outcome add_defines_edge st elems = Ok st' /\
    adds id (elems ≫= defines_edges st) st st'.
Proof. intros Hwf. apply fold_adds_edges. intros st' e _ Hs _. by apply add_defines_edge_adds. Qed.

Lemma add_call_edge_adds st st' a file imported call :
  wf_graph st -> live st a -> same_nodes st st' ->
  exists st'', add_call_edge a file imported st' call = Ok st'' /\
    adds id (call_edge st a file imported call) st' st''.
Proof.
  intros Hwf Ha Hs. unfold add_call_edge, call_edge. rewrite (sn_names _ _ Hs).
  destruct (name_to_nodes st !! call_name call) as [candidates|] eqn:Hn;
    [|by exists st'; split; [|apply adds_refl]].
  rewrite (resolve_call_target_same _ _ _ _ _ _ Hs).
  destruct (resolve_call_target_live st (call_name call) candidates file imported Hwf)
    as (o & -> & Ho); [by eapply name_live|]. cbn [mbind outcome_bind unwrap_or option_bind].
  destruct o as [b|]; [|by exists st'; split; [|apply adds_refl]]. cbn [mbind option_bind].
  destruct (bool_decide (b <> a)); [|by exists st'; split; [|apply adds_refl]].
  apply add_edge_adds; eapply live_same; eauto.
Qed.

Lemma add_call_edges_adds st st' e :
  wf_graph st -> same_nodes st st' ->
  exists st'', add_call_edges parse st' e = Ok st'' /\
    adds id (call_edges st (file_imports st') e) st' st''.
Proof.
  intros Hwf Hs. unfold add_call_edges, call_edges.
  destruct (is_callable e); [|by exists st'; split; [|apply adds_refl]].
  destruct (parse_element e) as [[lang tree]|]; [|by exists st'; split; [|apply adds_refl]].
  rewrite (sn_ids _ _ Hs).
  destruct (id_to_node st !! elem_id e) as [a|] eqn:Ha; [|by exists st'; split; [|apply adds_refl]].
  apply fold_adds_edges. intros st1 call _ Hs1 _.
  apply add_call_edge_adds; [done|by eapply id_live|by etrans].
Qed.

Lemma build_call_edges_adds elems st st' :
  wf_graph st -> same_nodes st st' ->
  exists st'', build_call_edges parse elems st' = Ok st'' /\
    adds id (elems ≫= call_edges st (file_imports st')) st' st''.
Proof.
  intros Hwf Hs. apply fold_adds_edges. intros st1 e _ Hs1 Hi1.
  rewrite <-Hi1. apply add_call_edges_adds; [done|by etrans].
Qed.

Lemma add_name_edge_adds st st' a name :
  wf_graph st -> live st a -> same_nodes st st' ->
  exists st'', add_name_edge a st' name = Ok st'' /\ adds id (name_edge st a name) st' st''.
Proof.
  intros Hwf Ha Hs. unfold add_name_edge, name_edge.
  destruct (bool_decide _); [by exists st'; split; [|apply adds_refl]|].
  rewrite (name_target_same _ _ _ Hs). apply add_target_edge_adds; [by eapply live_same|].
  intros b Hb. by eapply live_same, name_target_live.
Qed.

Lemma add_import_edge_adds st st' a file import :
  wf_graph st -> live st a -> same_nodes st st' ->
  exists st'' new, add_import_edge dash_iter a file st' import = Ok st'' /\ adds id new st' st'' /\
    new ≡ₚ import_edge st a file import.
Proof.
  intros Hwf Ha Hs. unfold add_import_edge, import_edge. rewrite (import_target_same _ _ _ _ Hs).
  destruct (import_target_live st import file Hwf) as (o & -> & Ho).
  cbn [mbind outcome_bind unwrap_or].
  destruct (add_target_edge_adds st' a Imports o) as (st1 & -> & Hadd1);
    [by eapply live_same|intros b Hb; by eapply live_same; eauto|].
  cbn [mbind outcome_bind].
  destruct (fold_adds_edges (add_name_edge a) (name_edge st a) st1 (import_names import))
    as (st2 & Hst2 & Hadd2).
  { intros st2 name _ Hs2 _. apply add_name_edge_adds; [done..|].
    transitivity st1; [|done]. transitivity st'; [done|apply Hadd1]. }
  exists st2. eexists. split; [exact Hst2|]. split; [exact (adds_trans _ _ _ _ _ _ _ Hadd1 Hadd2)|].
  apply Permutation_app_comm.
Qed.

Lemma adds_perm imports new new' st st' : new ≡ₚ new' -> adds imports new st st' -> adds imports new' st st'.
Proof. intros Hp (Hs & Hi & He). split; [done|]. split; [done|]. by rewrite <-Hp. Qed.

Lemma add_import_edges_adds st st' e :
  wf_graph st -> same_nodes st st' ->
  exists st'', add_import_edges parse dash_iter st' e = Ok st'' /\
    adds (imported_by st e) (import_edges st e) st' st''.
Proof.
  intros Hwf Hs. unfold add_import_edges, import_edges, imported_by, file_of_element.
  destruct (bool_decide _); [|by exists st'; split; [|apply adds_refl]].
  destruct (parse_element e) as [[lang tree]|]; [|by exists st'; split; [|apply adds_refl]].
  rewrite (sn_ids _ _ Hs).
  destruct (id_to_node st !! elem_id e) as [a|] eqn:Ha; [|by exists st'; split; [|apply adds_refl]].
  set (imports := extract_imports tree (elem_code e) lang).
  set (st1 := record_imports (elem_file_path e) imports st').
  assert (Hs1 : same_nodes st st1) by (etrans; [exact Hs|by split]).
  destruct (fold_adds_edges (add_import_edge dash_iter a (elem_file_path e))
              (import_edge st a (elem_file_path e)) st1 imports) as (st2 & Hst2 & Hs2 & Hi2 & He2).
  { intros st2 import _ Hs2 _.
    destruct (add_import_edge_adds st st2 a (elem_file_path e) import Hwf) as (st3 & new & Hok & Hadds & Hp).
    - by eapply id_live.
    - by etrans.
    - exists st3. split; [done|]. by eapply adds_perm. }
  exists st2. split; [exact Hst2|]. split; [etrans; [|exact Hs2]; by split|].
  split; [by rewrite Hi2|]. by rewrite He2.
Qed.

Lemma build_import_edges_adds elems st :
  wf_graph st ->
  exists st', build_import_edges parse dash_iter elems st = Ok st' /\
    adds (fun m => foldl (fun m e => imported_by st e m) m elems) (elems ≫= import_edges st) st st'.
Proof.
  intros Hwf.
  destruct (fold_adds (fun _ => True) (add_import_edges parse dash_iter) (imported_by st)
              (import_edges st) st st elems) as (st' & Hst' & Hadds & _); [done..| |eauto].
  intros st1 e _ Hs1 _. destruct (add_import_edges_adds st st1 e Hwf Hs1) as (st2 & ? & ?). eauto.
Qed.

Context `{!NodeTextLaws}.

(** The tree of a class can be sliced in the empty source. *)
Definition class_readable (e : CodeElement) : Prop :=
  is_class_like e = true -> forall lang tree, parse_element e = Some (lang, tree) ->
  is_ok (empty_source_text tree) = true.

Lemma add_inheritance_edges_result st e a :
  id_to_node st !! elem_id e = Some a ->
  (class_readable e /\ add_inheritance_edges parse st e = Ok st) \/
  (~ class_readable e /\ is_ok (add_inheritance_edges parse st e) = false).
Proof.
  intros Hid. unfold class_readable, add_inheritance_edges. rewrite Hid.
  destruct (is_class_like e); [|by left]. destruct (parse_element e) as [[lang tree]|]; [|by left].
  rewrite extract_base_classes_empty.
  destruct (empty_source_text tree) as [t| | |] eqn:E; cbn.
  - left. split; [|done]. intros _ ? ? [= _ <-]. by rewrite E.
  - right. split; [|done]. intros Hr. specialize (Hr eq_refl _ _ eq_refl). by rewrite E in Hr.
  - right. split; [|done]. intros Hr. specialize (Hr eq_refl _ _ eq_refl). by rewrite E in Hr.
  - right. split; [|done]. intros Hr. specialize (Hr eq_refl _ _ eq_refl). by rewrite E in Hr.
Qed.

(** No base is ever found, so that no edge is added; the phase succeeds exactly when
    every class is readable. *)
Lemma build_inheritance_edges_nop elems st :
  Forall class_readable elems -> (forall e, e ∈ elems -> is_Some (id_to_node st !! elem_id e)) ->
  build_inheritance_edges parse elems st = Ok st.
Proof.
  intros Hr Hids. unfold build_inheritance_edges.
  induction Hr as [|e elems He _ IH]; [done|]. cbn [fold_outcome].
  destruct (Hids e) as [a Ha]; [by left|].
  destruct (add_inheritance_edges_result st e a Ha) as [[_ ->]|[? _]]; [|done].
  apply IH. intros. apply Hids. by right.
Qed.

Lemma build_inheritance_edges_ok elems st st' :
  (forall e, e ∈ elems -> is_Some (id_to_node st !! elem_id e)) ->
  build_inheritance_edges parse elems st = Ok st' -> Forall class_readable elems /\ st' = st.
Proof.
  intros Hids. unfold build_inheritance_edges.
  induction elems as [|e elems IH]; cbn [fold_outcome]; [by intros [= <-]|].
  intros (st1 & Hst1 & Hrest)%bind_Ok. destruct (Hids e) as [a Ha]; [by left|].
  destruct (add_inheritance_edges_result st e a Ha) as [[He Hok]|[_ Hbad]];
    [|by rewrite Hst1 in Hbad].
  assert (st1 = st) as -> by congruence.
  destruct IH as [Hr ->]; [intros; apply Hids; by right|done|]. by split; [constructor|].
Qed.
End edges.
