(* ===== verification/RepoUpdate.v ===== *)
(** * Building and updating the repository graph (crates/happy-core/src/graph/mod.rs)

    The operations composed: what [build_from_elements] and [update_file] leave in the
    graph, and the well-formedness of every graph they produce. *)

From S2P Require Import Prelude RustStd Order.
From S2P Require Import CodeTree CallExtraction ImportExtraction.
From S2P Require Import GlobalIndex BaseClasses StableGraph.
From S2P Require Import RepoGraph RepoEdges.

Section nodes.
Context {G : Type} `{StableGraph G} `{!StableGraphLaws G}.

#[local] Abbreviation RepositoryGraph := (RepositoryGraph G) (only parsing).

Definition edges_of (st : RepositoryGraph) : list edge := sg_edges (rg_graph st).

(** ** The nodes of added elements *)

Lemma add_element_node (st : RepositoryGraph) e :
  exists idx, sg_node (rg_graph st) idx = None /\
    (forall j, sg_node (rg_graph (add_element st e)) j
       = if decide (j = idx) then Some (element_node e) else sg_node (rg_graph st) j) /\
    id_to_node (add_element st e) = <[elem_id e := idx]> (id_to_node st) /\
    edges_of (add_element st e) ≡ₚ edges_of st.
Proof.
  unfold add_element, add_node, edges_of.
  pose proof (sg_add_node_fresh (element_node e) (rg_graph st)) as Hfresh.
  pose proof (sg_add_node_lookup (element_node e) (rg_graph st)) as Hlook.
  pose proof (sg_add_node_edges (element_node e) (rg_graph st)) as Hedges.
  destruct (sg_add_node _ _) as [idx g]. exists idx. done.
Qed.

Lemma add_elements_edges elems (st : RepositoryGraph) :
  edges_of (foldl add_element st elems) ≡ₚ edges_of st.
Proof.
  revert st. induction elems as [|e elems IH]; intros st; [done|]. cbn [foldl]. rewrite IH.
  by destruct (add_element_node st e) as (idx & _ & _ & _ & ?).
Qed.

(** Old nodes stay; a new one is that of an element. *)
Lemma add_elements_nodes elems (st : RepositoryGraph) :
  (forall j n, sg_node (rg_graph st) j = Some n ->
     sg_node (rg_graph (foldl add_element st elems)) j = Some n) /\
  (forall j n, sg_node (rg_graph (foldl add_element st elems)) j = Some n ->
     sg_node (rg_graph st) j = Some n \/ exists e, e ∈ elems /\ n = element_node e).
Proof.
  revert st. induction elems as [|e elems IH]; intros st; [naive_solver|]. cbn [foldl].
  destruct (IH (add_element st e)) as [IHold IHnew].
  destruct (add_element_node st e) as (idx & Hidx & Hnode & _ & _). split.
  - intros j n Hj. apply IHold. rewrite Hnode, decide_False; [done|]. intros ->. congruence.
  - intros j n [Hj|(e' & He' & ->)]%IHnew.
    + rewrite Hnode in Hj. case_decide; [|by left]. simplify_eq. right. exists e. split; [left|done].
    + right. exists e'. split; [by right|done].
Qed.

(** The id of an added element names the node of an added element with that id. *)
Lemma add_elements_ids elems (st : RepositoryGraph) e :
  e ∈ elems ->
  exists j e', id_to_node (foldl add_element st elems) !! elem_id e = Some j /\ e' ∈ elems /\
    sg_node (rg_graph (foldl add_element st elems)) j = Some (element_node e').
Proof.
  revert e. induction elems as [|e0 elems IH] using rev_ind; intros e; [by intros ?%elem_of_nil|].
  rewrite foldl_app. cbn [foldl]. set (st1 := foldl add_element st elems) in *.
  destruct (add_element_node st1 e0) as (idx & Hidx & Hnode & Hids & _). rewrite Hids.
  setoid_rewrite Hnode. intros He. destruct (decide (elem_id e0 = elem_id e)) as [Heq|Hne].
  - exists idx, e0. rewrite Heq, lookup_insert_eq, decide_True by done. set_solver.
  - apply elem_of_app in He as [He| ->%list_elem_of_singleton]; [|done].
    destruct (IH e He) as (j & e' & Hj & He' & Hn). exists j, e'.
    rewrite lookup_insert_ne by done. split; [done|]. split; [set_solver|].
    rewrite decide_False; [done|]. intros ->. congruence.
Qed.

Lemma build_index_wf elems root (st : RepositoryGraph) : wf_graph st -> wf_graph (build_index elems root st).
Proof. by intros [? ? ?]. Qed.

(** ** Building *)

(** The graph with the nodes of the elements, before any edge. *)
Definition with_nodes (elems : list CodeElement) (root : str) (st : RepositoryGraph) : RepositoryGraph :=
  build_index elems root (foldl add_element st elems).

Lemma with_nodes_wf elems root st : wf_graph st -> wf_graph (with_nodes elems root st).
Proof. intros Hwf. by apply build_index_wf, add_elements_wf. Qed.

(** What [remove_file] leaves, as the update uses it. *)
Lemma removed_state (st : RepositoryGraph) f :
  wf_graph st ->
  exists st', RepoGraph.remove_file f st = Ok st' /\ wf_graph (remove_from_index f st') /\
    (forall j, ~ node_in_file st' f j) /\
    (forall j n, sg_node (rg_graph st') j = Some n <->
       sg_node (rg_graph st) j = Some n /\ gn_file_path n <> f) /\
    edges_of st'
      ≡ₚ filter (fun e => ~ node_in_file st f e.1.1 /\ ~ node_in_file st f e.1.2) (edges_of st).
Proof.
  intros Hwf. destruct (remove_file_state st f Hwf) as (st' & Hok & Hwf' & Hnode & Hedges & _).
  exists st'. split; [done|]. split; [by destruct Hwf'|].
  assert (Hiff : forall j n, sg_node (rg_graph st') j = Some n <->
            sg_node (rg_graph st) j = Some n /\ gn_file_path n <> f).
  { intros j n. rewrite Hnode. unfold node_in_file. case_decide as Hd; split.
    - done.
    - intros [Hj Hne]. rewrite Hj in Hd. simpl in Hd. congruence.
    - intros Hj. split; [done|]. intros <-. by rewrite Hj in Hd.
    - by intros [? _]. }
  split; [|split; [exact Hiff|exact Hedges]].
  intros j (n & [_ ?]%Hiff & ?)%fmap_Some. congruence.
Qed.
End nodes.

Section update.
Context {G : Type} `{StableGraph G} `{NodeText}.
Variable parse : str -> SupportedLanguage -> option tnode.
Variable dash_iter : gmap str (list NodeIndex) -> list (str * list NodeIndex).
Context `{!StableGraphLaws G} `{!NodeTextLaws}.
Hypothesis dash_iter_perm : forall m, dash_iter m ≡ₚ map_to_list m.

#[local] Abbreviation RepositoryGraph := (RepositoryGraph G) (only parsing).

(** The imports recorded for the call resolution. *)
Definition recorded_imports (st : RepositoryGraph) (elems : list CodeElement) : gmap str (list str) :=
  foldl (fun m e => imported_by parse st e m) (file_imports st) elems.

(** The edges of elements whose nodes are in [st]. *)
Definition element_edges (st : RepositoryGraph) (elems : list CodeElement) : list edge :=
  (elems ≫= call_edges parse st (recorded_imports st elems))
  ++ (elems ≫= import_edges parse dash_iter st) ++ (elems ≫= defines_edges st).

(** The import, call and inheritance phases, on a graph [st'] that has the nodes of
    [st] and the imports of it.  The last succeeds exactly when the classes are
    readable, and changes nothing. *)
Lemma semantic_phases elems (st st' : RepositoryGraph) :
  wf_graph st -> same_nodes st st' -> file_imports st' = file_imports st ->
  (forall e, e ∈ elems -> is_Some (id_to_node st !! elem_id e)) ->
  exists st1 st2, build_import_edges parse dash_iter elems st' = Ok st1 /\
    build_call_edges parse elems st1 = Ok st2 /\
    (Forall (class_readable parse) elems -> build_inheritance_edges parse elems st2 = Ok st2) /\
    (forall st3, build_inheritance_edges parse elems st2 = Ok st3 ->
       Forall (class_readable parse) elems) /\
    same_nodes st st2 /\
    edges_of st2 ≡ₚ (elems ≫= call_edges parse st (recorded_imports st elems))
                    ++ (elems ≫= import_edges parse dash_iter st) ++ edges_of st'.
Proof.
  intros Hwf Hs Himports Hids.
  destruct (build_import_edges_adds parse dash_iter dash_iter_perm elems st')
    as (st1 & Hst1 & Hs1 & Hi1 & He1); [by eapply same_nodes_wf|].
  destruct (build_call_edges_adds parse elems st st1 Hwf) as (st2 & Hst2 & Hs2 & _ & He2); [by etrans|].
  assert (Hsame : same_nodes st st2) by (etrans; [|exact Hs2]; by etrans).
  assert (Hids2 : forall e, e ∈ elems -> is_Some (id_to_node st2 !! elem_id e))
    by (intros e; rewrite (sn_ids _ _ Hsame); apply Hids).
  exists st1, st2. split; [exact Hst1|]. split; [exact Hst2|].
  split; [intros; by apply build_inheritance_edges_nop|].
  split; [intros st3 Hst3; by eapply build_inheritance_edges_ok|]. split; [exact Hsame|].
  unfold edges_of. rewrite He2, He1, Hi1, Himports.
  assert (Himp : elems ≫= import_edges parse dash_iter st' = elems ≫= import_edges parse dash_iter st).
  { apply list_bind_ext; [|done]. intros e. by apply import_edges_same. }
  assert (Hrec : foldl (fun m e => imported_by parse st' e m) (file_imports st) elems
                 = recorded_imports st elems).
  { unfold recorded_imports. generalize (file_imports st). clear -Hs.
    induction elems as [|e l IH]; intros m; [done|]. cbn [foldl].
    rewrite (imported_by_same parse st st') by done. apply IH. }
  by rewrite Himp, Hrec.
Qed.

Lemma with_nodes_ids elems root (st : RepositoryGraph) e :
  e ∈ elems -> is_Some (id_to_node (with_nodes elems root st) !! elem_id e).
Proof.
  intros He. destruct (add_elements_ids elems st e He) as (j & _ & Hj & _). by exists j.
Qed.

(** Building adds the nodes of the elements, and for every element its definition,
    import and call edges, computed from the nodes alone.  No inheritance edge is among
    them. *)
Lemma build_from_elements_state elems root st :
  wf_graph st -> Forall (class_readable parse) elems ->
  let st1 := with_nodes elems root st in
  exists st', build_from_elements parse dash_iter elems root st = Ok st' /\ wf_graph st' /\
    same_nodes st1 st' /\ edges_of st' ≡ₚ element_edges st1 elems ++ edges_of st.
Proof.
  intros Hwf Hr st1. pose proof (with_nodes_wf elems root st Hwf) as Hwf1. fold st1 in Hwf1.
  unfold build_from_elements. fold (with_nodes elems root st). fold st1.
  destruct (build_defines_edges_adds elems st1 Hwf1) as (st2 & -> & Hs2 & Hi2 & He2).
  destruct (semantic_phases elems st1 st2 Hwf1 Hs2 Hi2 (with_nodes_ids elems root st))
    as (s1 & st3 & Hs1 & Hst3 & Hinh & _ & Hs3 & He3).
  cbn [mbind outcome_bind]. rewrite Hs1. cbn [mbind outcome_bind]. rewrite Hst3.
  exists st3. split; [by apply Hinh|]. split; [by eapply same_nodes_wf|]. split; [done|].
  rewrite He3. unfold edges_of at 1, element_edges. rewrite He2, <-!(assoc (++)).
  by rewrite <-(add_elements_edges elems st).
Qed.

(** It returns only if it can slice the tree of every class. *)
Lemma build_from_elements_readable elems root (st st' : RepositoryGraph) :
  wf_graph st -> build_from_elements parse dash_iter elems root st = Ok st' ->
  Forall (class_readable parse) elems.
Proof.
  intros Hwf Hok. pose proof (with_nodes_wf elems root st Hwf) as Hwf1.
  unfold build_from_elements in Hok. fold (with_nodes elems root st) in Hok.
  destruct (build_defines_edges_adds elems _ Hwf1) as (st2 & Hst2 & Hs2 & Hi2 & _).
  destruct (semantic_phases elems _ st2 Hwf1 Hs2 Hi2 (with_nodes_ids elems root st))
    as (s1 & st3 & Hs1 & Hst3 & _ & Hinh & _).
  rewrite Hst2 in Hok. cbn [mbind outcome_bind] in Hok. rewrite Hs1 in Hok.
  cbn [mbind outcome_bind] in Hok. rewrite Hst3 in Hok. by eapply Hinh.
Qed.

(** ** Updating a file *)

Lemma edges_to_source a k target e : e ∈ edges_to a k target -> e.1.1 = a /\ e.2 = k.
Proof. destruct target; simpl; [by intros ->%list_elem_of_singleton|by intros ?%elem_of_nil]. Qed.

Lemma import_edges_source (st : RepositoryGraph) el e :
  e ∈ import_edges parse dash_iter st el ->
  element_type el = EtFile /\ id_to_node st !! elem_id el = Some e.1.1 /\ e.2 = Imports.
Proof.
  unfold import_edges, file_of_element. intros He. repeat case_match; simplify_eq;
    try by apply elem_of_nil in He. to_prop. split; [done|].
  apply list_elem_of_bind in He as (import & He & _). unfold import_edge in He.
  apply elem_of_app in He as [He|(name & He & _)%list_elem_of_bind].
  - by apply edges_to_source in He as [-> ->].
  - unfold name_edge in He. case_match; [by apply elem_of_nil in He|].
    by apply edges_to_source in He as [-> ->].
Qed.

Lemma call_edges_source (st : RepositoryGraph) imports el e :
  e ∈ call_edges parse st imports el ->
  is_callable el = true /\ id_to_node st !! elem_id el = Some e.1.1 /\ e.2 = Calls.
Proof.
  unfold call_edges. intros He. repeat case_match; simplify_eq; try by apply elem_of_nil in He.
  apply list_elem_of_bind in He as (call & He & _). unfold call_edge in He.
  case_match; [|by apply elem_of_nil in He]. by apply edges_to_source in He as [-> ->].
Qed.

Lemma defines_edges_source (st : RepositoryGraph) el e :
  wf_graph st -> e ∈ defines_edges st el ->
  exists n, sg_node (rg_graph st) e.1.1 = Some n /\ gn_file_path n = elem_file_path el /\
    gn_kind n = NkFile /\ e.2 = Defines.
Proof.
  intros Hwf. unfold defines_edges. case_match; [by intros ?%elem_of_nil|].
  case_match eqn:Hf; [|by intros ?%elem_of_nil].
  assert (Hlive : forall j, j ∈ l -> is_Some (sg_node (rg_graph st) j)) by (by eapply file_live).
  rewrite find_node_pure by done. cbn [unwrap_or].
  destruct (head _) as [a|] eqn:Ha; [|by intros ?%elem_of_nil].
  apply head_filter_elem in Ha as [Ha Hkind].
  intros [-> ->]%edges_to_source.
  destruct (wf_files _ _ _ _ (wf_st_maps _ Hwf) _ _ _ Hf Ha) as (n & Hn & Hfile).
  rewrite Hn in Hkind. unfold is_file_node in Hkind. to_prop. eauto.
Qed.

(** An update is a removal, followed by a build of the new elements. *)
Lemma update_file_state f elems root (st : RepositoryGraph) :
  wf_graph st -> Forall (class_readable parse) elems ->
  exists st1 st', RepoGraph.remove_file f st = Ok st1 /\
    let st2 := with_nodes elems root (remove_from_index f st1) in
    wf_graph st2 /\
    update_file parse dash_iter f elems root st = Ok st' /\ wf_graph st' /\
    same_nodes st2 st' /\ edges_of st' ≡ₚ element_edges st2 elems ++ edges_of st1.
Proof.
  intros Hwf Hr. unfold update_file.
  destruct (removed_state st f Hwf) as (st1 & -> & Hwf1 & _). cbn [mbind outcome_bind].
  set (st2 := remove_from_index f st1) in *. fold (with_nodes elems root st2).
  set (st3 := with_nodes elems root st2).
  assert (Hwf3 : wf_graph st3) by (by apply with_nodes_wf).
  destruct (semantic_phases elems st3 st3 Hwf3) as (s1 & st4 & Hs1 & Hst4 & Hinh & _ & Hs4 & He4);
    [done|done|apply with_nodes_ids|].
  destruct (build_defines_edges_adds elems st4) as (st5 & Hst5 & Hs5 & _ & He5);
    [by eapply same_nodes_wf|].
  assert (same_nodes st3 st5) as Hs by (by etrans).
  exists st1, st5. split; [done|]. split; [done|]. split.
  { rewrite Hs1. cbn [mbind outcome_bind]. rewrite Hst4. cbn [mbind outcome_bind].
    by rewrite (Hinh Hr). }
  split; [by eapply same_nodes_wf|]. split; [done|].
  unfold edges_of at 1, element_edges. rewrite He5.
  assert (Hdef : elems ≫= defines_edges st4 = elems ≫= defines_edges st3).
  { apply list_bind_ext; [|done]. intros e. by apply defines_edges_same. }
  assert (Hold : edges_of st3 ≡ₚ edges_of st1) by apply (add_elements_edges elems st2).
  fold (edges_of st4). rewrite Hdef, He4, Hold. solve_Permutation.
Qed.

Lemma update_file_readable f elems root (st st' : RepositoryGraph) :
  wf_graph st -> update_file parse dash_iter f elems root st = Ok st' ->
  Forall (class_readable parse) elems.
Proof.
  intros Hwf Hok. unfold update_file in Hok.
  destruct (removed_state st f Hwf) as (st1 & Hst1 & Hwf1 & _).
  rewrite Hst1 in Hok. cbn [mbind outcome_bind] in Hok.
  set (st2 := remove_from_index f st1) in *. fold (with_nodes elems root st2) in Hok.
  assert (Hwf3 : wf_graph (with_nodes elems root st2)) by (by apply with_nodes_wf).
  destruct (semantic_phases elems _ _ Hwf3 (PreOrder_Reflexive _) eq_refl (with_nodes_ids elems root st2))
    as (s1 & st4 & Hs1 & Hst4 & _ & Hinh & _).
  rewrite Hs1 in Hok. cbn [mbind outcome_bind] in Hok. rewrite Hst4 in Hok.
  cbn [mbind outcome_bind] in Hok. apply bind_Ok in Hok as (st5 & Hst5 & _). by eapply Hinh.
Qed.

(** Where an edge of an element starts, and of what kind it is. *)
Inductive edge_origin (st : RepositoryGraph) (el : CodeElement) (e : edge) : Prop :=
  | call_origin : is_callable el = true -> id_to_node st !! elem_id el = Some e.1.1 ->
      e.2 = Calls -> edge_origin st el e
  | import_origin : element_type el = EtFile -> id_to_node st !! elem_id el = Some e.1.1 ->
      e.2 = Imports -> edge_origin st el e
  | defines_origin n : sg_node (rg_graph st) e.1.1 = Some n -> gn_file_path n = elem_file_path el ->
      gn_kind n = NkFile -> e.2 = Defines -> edge_origin st el e.

Lemma element_edges_elem (st : RepositoryGraph) elems e :
  wf_graph st -> e ∈ element_edges st elems -> exists el, el ∈ elems /\ edge_origin st el e.
Proof.
  intros Hwf. unfold element_edges. rewrite !elem_of_app, !list_elem_of_bind.
  intros [(el & He & Hel)|[(el & He & Hel)|(el & He & Hel)]]; exists el; (split; [done|]).
  - apply call_edges_source in He as (? & ? & ?). by constructor 1.
  - apply import_edges_source in He as (? & ? & ?). by constructor 2.
  - apply defines_edges_source in He as (n & ? & ? & ? & ?); [|done]. by econstructor 3.
Qed.

(** Updating a file keeps the graph well-formed.  The edges between nodes of other
    files stay; every other edge afterwards starts in the updated file.  So no edge
    leads into the updated file from outside: the calls and imports of its elements by
    other files are lost. *)
Theorem update_file_edges st f elems root :
  wf_graph st -> Forall (class_readable parse) elems ->
  Forall (fun e => elem_file_path e = f) elems ->
  exists st', update_file parse dash_iter f elems root st = Ok st' /\ wf_graph st' /\
    (forall a b k, (a, b, k) ∈ edges_of st -> ~ node_in_file st f a -> ~ node_in_file st f b ->
       (a, b, k) ∈ edges_of st') /\
    (forall a b k, (a, b, k) ∈ edges_of st' -> node_in_file st' f b -> node_in_file st' f a).
Proof.
  intros Hwf Hr Hf.
  destruct (removed_state st f Hwf) as (st1 & Hst1 & _ & Hnone & _ & Hedges1).
  destruct (update_file_state f elems root st Hwf Hr) as (st1' & st' & Hst1' & Hwf2 & Hok & Hwf' & Hs & He).
  rewrite Hst1 in Hst1'. injection Hst1' as <-.
  set (st2 := remove_from_index f st1) in *. set (st3 := with_nodes elems root st2) in *.
  exists st'. split; [done|]. split; [done|]. split.
  - intros a b k Hin Ha Hb. rewrite He, elem_of_app. right. rewrite Hedges1.
    apply list_elem_of_filter. split; [done|exact Hin].
  - intros a b k Hin Hb. rewrite He, elem_of_app in Hin. unfold node_in_file in Hb |- *.
    rewrite (sn_node _ _ Hs) in *. rewrite Forall_forall in Hf. destruct Hin as [Hin|Hin].
    + apply element_edges_elem in Hin as (el & Hel & Horigin); [|done].
      assert (Hnew : forall j, id_to_node st3 !! elem_id el = Some j ->
                gn_file_path <$> sg_node (rg_graph st3) j = Some f).
      { intros j' Hid. destruct (add_elements_ids elems st2 el Hel) as (j & e' & Hj & He' & Hn).
        assert (j = j') as -> by (cbn in Hid, Hj; congruence). cbn. rewrite Hn. cbn. f_equal. by apply Hf. }
      destruct Horigin as [| |n Hn Hfile _ _]; [by apply Hnew..|].
      cbn [fst] in Hn. rewrite Hn. cbn. by rewrite Hfile, (Hf el Hel).
    + exfalso. apply sg_edges_live in Hin as [_ [n Hn]].
      pose proof (proj1 (add_elements_nodes elems st2) b n Hn) as Hn3.
      apply (Hnone b). unfold node_in_file. rewrite Hn.
      change (sg_node (rg_graph st3) b) with (sg_node (rg_graph (foldl add_element st2 elems)) b) in Hb.
      by rewrite Hn3 in Hb.
Qed.

(** ** Histories *)

Inductive graph_op : Type :=
  | GBuild (elements : list CodeElement) (repo_root : str)
  | GRemove (file : str)
  | GUpdate (file : str) (elements : list CodeElement) (repo_root : str).

Definition run_graph_op (st : RepositoryGraph) (op : graph_op) : outcome () RepositoryGraph :=
  match op with
  | GBuild elements repo_root => build_from_elements parse dash_iter elements repo_root st
  | GRemove file => RepoGraph.remove_file file st
  | GUpdate file elements repo_root => update_file parse dash_iter file elements repo_root st
  end.

Definition op_elements (op : graph_op) : list CodeElement :=
  match op with
  | GBuild elements _ => elements
  | GRemove _ => []
  | GUpdate _ elements _ => elements
  end.

(** One operation on a well-formed graph returns exactly when the classes among its
    elements can be read, and then leaves a well-formed graph. *)
Lemma run_graph_op_wf (st : RepositoryGraph) op :
  wf_graph st ->
  (Forall (class_readable parse) (op_elements op) /\
     exists st', run_graph_op st op = Ok st' /\ wf_graph st') \/
  (~ Forall (class_readable parse) (op_elements op) /\ is_ok (run_graph_op st op) = false).
Proof.
  intros Hwf. destruct op as [elems root|f|f elems root]; cbn [run_graph_op op_elements].
  - apply ok_dichotomy; [intros st'; by apply build_from_elements_readable|]. intros Hr.
    destruct (build_from_elements_state elems root st Hwf Hr) as (s & ? & ? & _). eauto.
  - left. split; [constructor|]. destruct (remove_file_state st f Hwf) as (st' & ? & ? & _). eauto.
  - apply ok_dichotomy; [intros st'; by apply update_file_readable|]. intros Hr.
    destruct (update_file_state f elems root st Hwf Hr) as (s1 & s & _ & _ & ? & ? & _). eauto.
Qed.

(** From the empty graph, a sequence of builds, removals and updates returns exactly
    when every class among the elements can be read in the empty source, and then ends
    in a well-formed graph: no index of a removed node is ever kept in a map or looked
    up, and the slice of the base classes is the only panic. *)
Theorem graph_history_safe ops :
  (is_ok (fold_outcome run_graph_op new_graph ops) = true <->
     Forall (fun op => Forall (class_readable parse) (op_elements op)) ops) /\
  (forall st, fold_outcome run_graph_op new_graph ops = Ok st -> wf_graph st).
Proof.
  assert (Hall : forall st : RepositoryGraph, wf_graph st ->
            (is_ok (fold_outcome run_graph_op st ops) = true <->
               Forall (fun op => Forall (class_readable parse) (op_elements op)) ops) /\
            (forall st', fold_outcome run_graph_op st ops = Ok st' -> wf_graph st')).
  { induction ops as [|op ops IH]; intros st Hwf; cbn [fold_outcome].
    { split; [by split|]. by intros ? [= <-]. }
    rewrite Forall_cons. destruct (run_graph_op_wf st op Hwf) as [(Hr & s & -> & Hwf')|[Hr Hbad]].
    - cbn [mbind outcome_bind]. destruct (IH s Hwf') as [Hiff Hok]. split; [|done]. tauto.
    - destruct (run_graph_op st op); [done|..]; cbn; (split; [|done]); split; [done|tauto|done|tauto|done|tauto]. }
  apply Hall, new_graph_wf.
Qed.
End update.

(** ** An example: a function of one file calls a function of another *)

(** A parser that knows one text, ["helper()"]. *)
Definition example_parse (code : str) (language : SupportedLanguage) : option tnode :=
  let node kind field a b cs := TNode (mk_info (lit kind) (lit <$> field) a b 0 0) cs in
  if bool_decide (code = lit "helper()") then
    Some (node "module" None 0 8
      [node "call" None 0 8 [node "identifier" (Some "function") 0 6 []]])%string
  else None.

Definition example_elements : list CodeElement :=
  [example_element "fa" EtFile "a.py" "/r/a.py" "";
   example_element "c" EtFunction "caller" "/r/a.py" "helper()";
   example_element "fb" EtFile "b.py" "/r/b.py" "";
   example_element "h" EtFunction "helper" "/r/b.py" ""].

Definition example_update : list CodeElement :=
  [example_element "fb" EtFile "b.py" "/r/b.py" "";
   example_element "h" EtFunction "helper" "/r/b.py" ""].

Lemma map_iter_perm (m : gmap str (list NodeIndex)) : map_to_list m ≡ₚ map_to_list m.
Proof. done. Qed.

Lemma example_readable :
  let _ := ascii_text in
  Forall (class_readable example_parse) example_elements /\
  Forall (class_readable example_parse) example_update.
Proof. intros text. split; repeat (constructor; [intros Hclass; discriminate Hclass|]); constructor. Qed.

(** The graph built from the example has the call. *)
Lemma build_from_elements_example :
  let _ := ascii_text in let _ := ascii_text_laws in
  exists st, build_from_elements example_parse map_to_list example_elements (lit "/r") (new_graph (G:=map_graph)) = Ok st /\
    wf_graph st /\ (2, 4, Calls) ∈ edges_of st.
Proof.
  intros text laws.
  destruct (build_from_elements_state example_parse map_to_list map_iter_perm example_elements (lit "/r")
    (new_graph (G:=map_graph)) new_graph_wf (proj1 example_readable)) as (st & Hst & Hwf & _ & He).
  exists st. split; [exact Hst|]. split; [exact Hwf|]. rewrite He. apply elem_of_app. left.
  apply (bool_decide_unpack _). vm_compute. exact I.
Qed.

(** Updating "b.py" with the elements it had loses the call from "a.py". *)
Lemma update_file_edges_witness :
  let _ := ascii_text in let _ := ascii_text_laws in
  exists st st', build_from_elements example_parse map_to_list example_elements (lit "/r")
                   (new_graph (G:=map_graph)) = Ok st /\
    (2, 4, Calls) ∈ edges_of st /\
    update_file example_parse map_to_list (lit "/r/b.py") example_update (lit "/r") st = Ok st' /\
    forall a b k, (a, b, k) ∈ edges_of st' -> node_in_file st' (lit "/r/b.py") b ->
      node_in_file st' (lit "/r/b.py") a.
Proof.
  intros text laws.
  destruct build_from_elements_example as (st & Hst & Hwf & Hcall).
  destruct (update_file_edges example_parse map_to_list map_iter_perm st (lit "/r/b.py") example_update
    (lit "/r") Hwf (proj2 example_readable)) as (st' & Hok & _ & _ & Hin).
  - repeat (constructor; [reflexivity|]). constructor.
  - exists st, st'. split; [exact Hst|]. split; [exact Hcall|]. split; [exact Hok|exact Hin].
Defined.

Lemma graph_history_safe_witness :
  let _ := ascii_text in let _ := ascii_text_laws in
  (exists st, fold_outcome (run_graph_op example_parse map_to_list) (new_graph (G:=map_graph))
    [GBuild example_elements (lit "/r"); GRemove (lit "/r/a.py");
     GUpdate (lit "/r/b.py") example_update (lit "/r")] = Ok st /\ wf_graph st) /\
  is_ok (fold_outcome (run_graph_op example_parse map_to_list) (new_graph (G:=map_graph))
    [GBuild [example_element "k" EtClass "K" "/r/k.py" "helper()"] (lit "/r")]) = false.
Proof.
  intros text laws.
  destruct (graph_history_safe example_parse map_to_list map_iter_perm (G:=map_graph)
    [GBuild example_elements (lit "/r"); GRemove (lit "/r/a.py");
     GUpdate (lit "/r/b.py") example_update (lit "/r")]) as [Hiff Hok].
  split.
  - destruct (fold_outcome _ _ _) as [st| | |]; [exists st; split; [reflexivity|exact (Hok st eq_refl)]|..];
      exfalso; enough (false = true) by done; apply Hiff;
      repeat (constructor; [apply example_readable|] || (constructor; [constructor|])); constructor.
  - apply not_true_is_false. intros Hbad.
    apply (graph_history_safe example_parse map_to_list map_iter_perm) in Hbad.
    apply Forall_cons_1 in Hbad as [Hbad _]. apply Forall_cons_1 in Hbad as [Hbad _].
    specialize (Hbad eq_refl Python _ eq_refl). discriminate Hbad.
Defined.
