(* ===== verification/GraphQueries.v ===== *)
(** * Queries of the repository graph (crates/happy-core/src/graph/queries.rs)

    Callers and callees, imports, class hierarchy, paths and neighbourhoods. *)

From S2P Require Import Prelude RustStd.
From S2P Require Import CodeTree CallExtraction ImportExtraction.
From S2P Require Import GlobalIndex BaseClasses StableGraph.
From S2P Require Import RepoGraph RepoEdges RepoUpdate.

Section queries.
Context {G : Type} `{StableGraph G}.

#[local] Abbreviation RepositoryGraph := (RepositoryGraph G) (only parsing).

(** [petgraph::algo::astar] from a node to a node, with the cost of each kind of
    edge: the cost and the nodes of a path. *)
Variable astar : G -> NodeIndex -> NodeIndex -> (EdgeKind -> Z) -> option (Z * list NodeIndex).
(** The order in which a [HashSet] iterates. *)
Variable set_iter : gset NodeIndex -> list NodeIndex.

Definition find_nodes_by_name (st : RepositoryGraph) (name : str) : list NodeIndex :=
  default [] (name_to_nodes st !! name).
Definition find_nodes_by_file (st : RepositoryGraph) (file_path : str) : list NodeIndex :=
  default [] (file_to_nodes st !! file_path).

(** ** Neighbours over one kind of edge

    Every neighbour, as often as it is one, when the edge [find_edge] returns for it
    has the kind. *)
Inductive Direction : Type := Outgoing | Incoming.

Definition neighbors_directed (g : G) (idx : NodeIndex) (d : Direction) : list NodeIndex :=
  match d with Outgoing => sg_outgoing g idx | Incoming => sg_incoming g idx end.

Definition edge_kind_between (g : G) (idx neighbor : NodeIndex) (d : Direction) : option EdgeKind :=
  match d with
  | Outgoing => sg_find_edge g idx neighbor
  | Incoming => sg_find_edge g neighbor idx
  end.

Definition linked (g : G) (d : Direction) (kind : EdgeKind) (idx : NodeIndex) : list NodeIndex :=
  filter (fun neighbor => edge_kind_between g idx neighbor d = Some kind) (neighbors_directed g idx d).

(** [&self.graph[idx]] of every index. *)
Definition nodes_at (g : G) (l : list NodeIndex) : outcome () (list GraphNode) :=
  collect_results (node_at g) l.

Definition find_callers (st : RepositoryGraph) (symbol : str) : outcome () (list GraphNode) :=
  nodes_at (rg_graph st) (find_nodes_by_name st symbol ≫= linked (rg_graph st) Incoming Calls).
Definition find_callees (st : RepositoryGraph) (symbol : str) : outcome () (list GraphNode) :=
  nodes_at (rg_graph st) (find_nodes_by_name st symbol ≫= linked (rg_graph st) Outgoing Calls).
Definition get_subclasses (st : RepositoryGraph) (class_name : str) : outcome () (list GraphNode) :=
  nodes_at (rg_graph st) (find_nodes_by_name st class_name ≫= linked (rg_graph st) Incoming Inherits).
Definition get_superclasses (st : RepositoryGraph) (class_name : str) : outcome () (list GraphNode) :=
  nodes_at (rg_graph st) (find_nodes_by_name st class_name ≫= linked (rg_graph st) Outgoing Inherits).

(** The neighbours of the file nodes among the indices, node by node. *)
Definition file_linked (g : G) (d : Direction) (idx : NodeIndex) : outcome () (list NodeIndex) :=
  n ← node_at g idx;
  if is_file_node n then Ok (linked g d Imports idx) else Ok [].

Definition file_neighbors (st : RepositoryGraph) (d : Direction) (file_path : str)
    : outcome () (list GraphNode) :=
  ls ← collect_results (file_linked (rg_graph st) d) (find_nodes_by_file st file_path);
  nodes_at (rg_graph st) (concat ls).

Definition get_dependencies (st : RepositoryGraph) (file_path : str) : outcome () (list GraphNode) :=
  file_neighbors st Outgoing file_path.
Definition get_dependents (st : RepositoryGraph) (file_path : str) : outcome () (list GraphNode) :=
  file_neighbors st Incoming file_path.

(** ** Paths *)

(** [usize::MAX / 2]. *)
Definition avoided_cost : Z := (2 ^ 64 - 1) / 2.

Definition edge_cost (edge_filter : option EdgeKind) (kind : EdgeKind) : Z :=
  match edge_filter with
  | Some filter => if bool_decide (kind = filter) then 1 else avoided_cost
  | None => 1
  end.

(** The pairs in the order of the two nested loops. *)
Definition find_path (st : RepositoryGraph) (source target : str) (edge_filter : option EdgeKind)
    : outcome () (option (list str)) :=
  let pairs := find_nodes_by_name st source ≫= fun src =>
                 (fun tgt => (src, tgt)) <$> find_nodes_by_name st target in
  match head (omap (fun p : nat * nat => astar (rg_graph st) p.1 p.2 (edge_cost edge_filter)) pairs) with
  | Some (_, path) =>
      (fun ids : list GraphNode => Some (gn_id <$> ids)) <$> nodes_at (rg_graph st) path
  | None => Ok None
  end.

(** ** Neighbourhoods *)

(** The neighbours not yet visited, outgoing ones first. *)
Definition unvisited (g : G) (visited : gset NodeIndex) (idx : NodeIndex) : list NodeIndex :=
  filter (fun n => n ∉ visited) (sg_outgoing g idx)
  ++ filter (fun n => n ∉ visited) (sg_incoming g idx).

(** [for idx in &frontier]: the visited nodes and the next frontier. *)
Fixpoint visit_frontier (g : G) (visited : gset NodeIndex) (next_frontier frontier : list NodeIndex)
    : gset NodeIndex * list NodeIndex :=
  match frontier with
  | [] => (visited, next_frontier)
  | idx :: frontier =>
      if decide (idx ∈ visited) then visit_frontier g visited next_frontier frontier
      else
        let visited := {[idx]} ∪ visited in
        visit_frontier g visited (next_frontier ++ unvisited g visited idx) frontier
  end.

(** [for _ in 0..max_hops]. *)
Fixpoint hop_loop (g : G) (n : nat) (visited : gset NodeIndex) (frontier : list NodeIndex)
    : gset NodeIndex * list NodeIndex :=
  match n with
  | O => (visited, frontier)
  | S n => let '(visited, frontier) := visit_frontier g visited [] frontier in
           hop_loop g n visited frontier
  end.

Definition get_related (st : RepositoryGraph) (element_name : str) (max_hops : nat)
    : outcome () (list GraphNode) :=
  let indices := find_nodes_by_name st element_name in
  let '(visited, frontier) := hop_loop (rg_graph st) max_hops ∅ indices in
  let visited := visited ∪ list_to_set frontier in
  nodes_at (rg_graph st) (filter (fun idx => idx ∉ indices) (set_iter visited)).

End queries.

Section query_lemmas.
Context {G : Type} `{StableGraph G} `{!StableGraphLaws G}.

#[local] Abbreviation RepositoryGraph := (RepositoryGraph G) (only parsing).

Lemma nodes_at_live g l :
  (forall j, j ∈ l -> is_Some (sg_node g j)) ->
  exists ns, nodes_at g l = Ok ns /\ Forall2 (fun j n => sg_node g j = Some n) l ns.
Proof.
  induction l as [|j l IH]; intros Hl; [by exists []|].
  destruct (Hl j) as [n Hn]; [left|]. destruct IH as (ns & Hns & Hall); [intros; apply Hl; by right|].
  exists (n :: ns). split; [|by constructor]. unfold nodes_at in *. cbn [collect_results].
  assert (node_at g j = Ok n) as -> by (unfold node_at; by rewrite Hn).
  cbn [mbind outcome_bind]. by rewrite Hns.
Qed.

Lemma outgoing_elem (g : G) i j : j ∈ sg_outgoing g i <-> exists k, (i, j, k) ∈ sg_edges g.
Proof.
  rewrite sg_outgoing_spec, list_elem_of_fmap. setoid_rewrite list_elem_of_filter. split.
  - intros ([[a b] k] & -> & <- & He). by exists k.
  - intros (k & He). by exists (i, j, k).
Qed.

Lemma incoming_elem (g : G) i j : j ∈ sg_incoming g i <-> exists k, (j, i, k) ∈ sg_edges g.
Proof.
  rewrite sg_incoming_spec, list_elem_of_fmap. setoid_rewrite list_elem_of_filter. split.
  - intros ([[a b] k] & -> & <- & He). by exists k.
  - intros (k & He). by exists (j, i, k).
Qed.

(** An edge of the kind, and between its ends no other kind. *)
Definition edge_towards (d : Direction) (idx neighbor : NodeIndex) : NodeIndex * NodeIndex :=
  match d with Outgoing => (idx, neighbor) | Incoming => (neighbor, idx) end.

Lemma linked_sound g d kind idx j :
  j ∈ linked g d kind idx -> (edge_towards d idx j, kind) ∈ sg_edges g.
Proof.
  unfold linked. intros [Hk _]%list_elem_of_filter. destruct d; cbn in *; by apply sg_find_edge_Some.
Qed.

Lemma linked_complete g d kind idx j :
  (edge_towards d idx j, kind) ∈ sg_edges g ->
  (forall k, (edge_towards d idx j, k) ∈ sg_edges g -> k = kind) -> j ∈ linked g d kind idx.
Proof.
  intros He Honly. apply list_elem_of_filter. split.
  - destruct (edge_kind_between g idx j d) as [k|] eqn:E.
    + f_equal. apply Honly. destruct d; by apply sg_find_edge_Some.
    + exfalso. destruct d; by eapply sg_find_edge_None.
  - destruct d; [apply outgoing_elem|apply incoming_elem]; by exists kind.
Qed.

Lemma linked_live g d kind idx j : j ∈ linked g d kind idx -> is_Some (sg_node g j).
Proof. intros He%linked_sound. destruct d; by apply sg_edges_live in He as [? ?]. Qed.

Lemma find_nodes_by_name_iff (st : RepositoryGraph) s j :
  wf_graph st -> j ∈ find_nodes_by_name st s <-> gn_name <$> sg_node (rg_graph st) j = Some s.
Proof.
  intros [Hwf _ _]. unfold find_nodes_by_name. rewrite default_elem, fmap_Some. split.
  - intros (l & Hl & Hj). destruct (wf_names _ _ _ _ Hwf _ _ _ Hl Hj) as (n & ? & ?). eauto.
  - intros (n & Hn & ->). apply (wf_listed _ _ _ _ Hwf) in Hn as [Hn _]. by apply default_elem.
Qed.

(** What a query over the neighbours of a name returns: a node for every linked
    neighbour. *)
Lemma name_query (st : RepositoryGraph) d kind s :
  wf_graph st ->
  exists ns, nodes_at (rg_graph st) (find_nodes_by_name st s ≫= linked (rg_graph st) d kind) = Ok ns /\
    forall n, n ∈ ns <-> exists i j, gn_name <$> sg_node (rg_graph st) i = Some s /\
      j ∈ linked (rg_graph st) d kind i /\ sg_node (rg_graph st) j = Some n.
Proof.
  intros Hwf. destruct (nodes_at_live (rg_graph st) (find_nodes_by_name st s ≫= linked (rg_graph st) d kind))
    as (ns & Hns & Hall).
  { intros j (i & Hj & _)%list_elem_of_bind. by eapply linked_live. }
  exists ns. split; [done|]. intros n.
  assert (Hin : n ∈ ns <-> exists j, j ∈ (find_nodes_by_name st s ≫= linked (rg_graph st) d kind) /\
                                  sg_node (rg_graph st) j = Some n).
  { clear Hns. induction Hall as [|j m l ns Hj _ IH].
    - split; [by intros ?%elem_of_nil|by intros (? & ?%elem_of_nil & _)].
    - rewrite elem_of_cons, IH. setoid_rewrite elem_of_cons. naive_solver. }
  rewrite Hin. setoid_rewrite list_elem_of_bind. setoid_rewrite find_nodes_by_name_iff; [|done..].
  naive_solver.
Qed.

(** Without edges of the kind the query finds nothing. *)
Lemma name_query_none (st : RepositoryGraph) d kind s :
  wf_graph st -> (forall a b, (a, b, kind) ∉ edges_of st) ->
  nodes_at (rg_graph st) (find_nodes_by_name st s ≫= linked (rg_graph st) d kind) = Ok [].
Proof.
  intros Hwf Hno. destruct (name_query st d kind s Hwf) as (ns & Hns & Hiff).
  destruct ns as [|n ns]; [done|]. exfalso.
  destruct (proj1 (Hiff n) ltac:(left)) as (i & j & _ & Hj%linked_sound & _).
  destruct d; by eapply Hno.
Qed.
End query_lemmas.

(** ** Neighbourhoods *)

Section related.
Context {G : Type} `{StableGraph G} `{!StableGraphLaws G}.

#[local] Abbreviation RepositoryGraph := (RepositoryGraph G) (only parsing).

(** An edge either way, and the nodes at most [n] edges away from the indices. *)
Definition adjacent (g : G) (i j : NodeIndex) : Prop :=
  exists k, (i, j, k) ∈ sg_edges g \/ (j, i, k) ∈ sg_edges g.

Fixpoint within (g : G) (indices : list NodeIndex) (n : nat) (j : NodeIndex) : Prop :=
  match n with
  | O => j ∈ indices
  | S n => within g indices n j \/ exists i, within g indices n i /\ adjacent g i j
  end.

Lemma unvisited_elem g visited i j :
  j ∈ unvisited g visited i <-> adjacent g i j /\ j ∉ visited.
Proof.
  unfold unvisited, adjacent. rewrite elem_of_app, !list_elem_of_filter, outgoing_elem, incoming_elem.
  naive_solver.
Qed.

(** One pass over a frontier visits it, and collects the neighbours of what it newly
    visited. *)
Lemma visit_frontier_spec g frontier visited0 next0 :
  let '(visited, next) := visit_frontier g visited0 next0 frontier in
  (forall j, j ∈ visited <-> j ∈ visited0 \/ j ∈ frontier) /\
  (forall j, j ∈ next -> j ∈ next0 \/ exists i, i ∈ frontier /\ adjacent g i j) /\
  (forall j, j ∈ next0 -> j ∈ next) /\
  (forall i j, i ∈ frontier -> i ∉ visited0 -> adjacent g i j -> j ∈ visited \/ j ∈ next).
Proof.
  revert visited0 next0. induction frontier as [|i frontier IH]; intros visited0 next0; cbn [visit_frontier].
  { set_solver. }
  destruct (decide (i ∈ visited0)) as [Hi|Hi].
  - specialize (IH visited0 next0). destruct (visit_frontier _ _ _ _) as [visited next].
    destruct IH as (H1 & H2 & H3 & H4). split; [|split; [|split; [done|]]].
    + intros j. rewrite H1. set_solver.
    + intros j [?|(i' & ? & ?)]%H2; [by left|right; exists i'; split; [by right|done]].
    + intros i' j [->|?]%elem_of_cons; [done|by apply H4].
  - set (visited1 := {[i]} ∪ visited0). specialize (IH visited1 (next0 ++ unvisited g visited1 i)).
    destruct (visit_frontier _ _ _ _) as [visited next]. destruct IH as (H1 & H2 & H3 & H4).
    split; [|split; [|split]].
    + intros j. rewrite H1. set_solver.
    + intros j [[?|Hj]%elem_of_app|(i' & ? & ?)]%H2.
      * by left.
      * right. exists i. apply unvisited_elem in Hj as [? _]. split; [by left|done].
      * right. exists i'. split; [by right|done].
    + intros j Hj. apply H3, elem_of_app. by left.
    + intros i' j Hi' Hnew Hadj. destruct (decide (i' = i)) as [->|Hne].
      * destruct (decide (j ∈ visited1)) as [Hj|Hj]; [left; apply H1; by left|].
        right. apply H3, elem_of_app. right. by apply unvisited_elem.
      * apply H4 with i'; [set_solver|set_solver|done].
Qed.

(** After [n] rounds the visited nodes and the frontier are those within [n] hops. *)
Definition hop_invariant (g : G) (indices : list NodeIndex) (n : nat) (visited : gset NodeIndex)
    (frontier : list NodeIndex) : Prop :=
  (forall j, within g indices n j <-> j ∈ visited \/ j ∈ frontier) /\
  (forall i j, i ∈ visited -> adjacent g i j -> within g indices n j).

Lemma hop_step g indices n visited frontier :
  hop_invariant g indices n visited frontier ->
  let '(visited', frontier') := visit_frontier g visited [] frontier in
  hop_invariant g indices (S n) visited' frontier'.
Proof.
  intros [Hall Hclosed]. pose proof (visit_frontier_spec g frontier visited []) as Hspec.
  destruct (visit_frontier _ _ _ _) as [visited' next]. destruct Hspec as (H1 & H2 & _ & H4).
  assert (Hv : forall j, j ∈ visited' <-> within g indices n j) by (intros j; by rewrite H1, Hall).
  split.
  - intros j. cbn [within]. split.
    + intros [Hj|(i & Hi & Hadj)]; [left; by apply Hv|].
      destruct (decide (i ∈ visited)) as [Hvis|Hvis].
      * left. apply Hv. by eapply Hclosed.
      * apply Hall in Hi as [?|Hi]; [done|]. by eapply H4.
    + intros [Hj|Hj]; [left; by apply Hv|]. apply H2 in Hj as [?%elem_of_nil|(i & Hi & Hadj)]; [done|].
      right. exists i. split; [|done]. apply Hall. by right.
  - intros i j Hi Hadj. cbn [within]. right. exists i. split; [by apply Hv|done].
Qed.

Lemma hop_loop_invariant g indices m n visited frontier :
  hop_invariant g indices n visited frontier ->
  let '(visited', frontier') := hop_loop g m visited frontier in
  hop_invariant g indices (m + n) visited' frontier'.
Proof.
  revert n visited frontier. induction m as [|m IH]; intros n visited frontier Hinv; [done|].
  cbn [hop_loop]. pose proof (hop_step g indices n visited frontier Hinv) as Hstep.
  destruct (visit_frontier _ _ _ _) as [visited1 frontier1].
  specialize (IH (S n) visited1 frontier1 Hstep). by rewrite Nat.add_succ_r in IH.
Qed.

Lemma within_live g indices n j :
  (forall i, i ∈ indices -> is_Some (sg_node g i)) -> within g indices n j -> is_Some (sg_node g j).
Proof.
  intros Hl. revert j. induction n as [|n IH]; intros j; cbn [within]; [apply Hl|].
  intros [?|(i & _ & k & [He|He])]; [by apply IH|by apply sg_edges_live in He as [_ ?]|
    by apply sg_edges_live in He as [? _]].
Qed.

Variable set_iter : gset NodeIndex -> list NodeIndex.
Hypothesis set_iter_perm : forall s, set_iter s ≡ₚ elements s.

(** [get_related] returns every node at most [max_hops] edges away, in either
    direction, from a node of the name, once each, and none of those nodes
    themselves. *)
Theorem get_related_spec (st : RepositoryGraph) name max_hops :
  wf_graph st ->
  exists idxs ns, get_related set_iter st name max_hops = Ok ns /\
    Forall2 (fun j n => sg_node (rg_graph st) j = Some n) idxs ns /\ NoDup idxs /\
    forall j, j ∈ idxs <->
      within (rg_graph st) (find_nodes_by_name st name) max_hops j /\
      gn_name <$> sg_node (rg_graph st) j <> Some name.
Proof.
  intros Hwf. unfold get_related. set (indices := find_nodes_by_name st name).
  assert (Hname : forall j, j ∈ indices <-> gn_name <$> sg_node (rg_graph st) j = Some name)
    by (intros j; by apply find_nodes_by_name_iff).
  assert (Hinv0 : hop_invariant (rg_graph st) indices 0 ∅ indices) by (split; set_solver).
  pose proof (hop_loop_invariant _ _ max_hops 0 _ _ Hinv0) as Hinv. rewrite Nat.add_0_r in Hinv.
  destruct (hop_loop _ _ _ _) as [visited frontier]. destruct Hinv as [Hall _].
  set (idxs := filter (fun idx => idx ∉ indices) (set_iter (visited ∪ list_to_set frontier))).
  assert (Hidxs : forall j, j ∈ idxs <-> within (rg_graph st) indices max_hops j /\ j ∉ indices).
  { intros j. unfold idxs. rewrite list_elem_of_filter, set_iter_perm, elem_of_elements, Hall.
    rewrite elem_of_union, elem_of_list_to_set. tauto. }
  destruct (nodes_at_live (rg_graph st) idxs) as (ns & Hns & Hnodes).
  { intros j [Hj _]%Hidxs. eapply within_live; [|exact Hj]. intros i Hi%Hname.
    by apply fmap_Some in Hi as (n & -> & _). }
  exists idxs, ns. split; [done|]. split; [done|]. split.
  - unfold idxs. apply NoDup_filter. rewrite set_iter_perm. apply NoDup_elements.
  - intros j. rewrite Hidxs. by rewrite Hname.
Qed.
End related.

(** ** Queries of built graphs *)

Section built.
Context {G : Type} `{StableGraph G} `{NodeText}.
Variable parse : str -> SupportedLanguage -> option tnode.
Variable dash_iter : gmap str (list NodeIndex) -> list (str * list NodeIndex).
Context `{!StableGraphLaws G} `{!NodeTextLaws}.
Hypothesis dash_iter_perm : forall m, dash_iter m ≡ₚ map_to_list m.

#[local] Abbreviation RepositoryGraph := (RepositoryGraph G) (only parsing).

Lemma NoDup_fmap_inj {A B} (f : A -> B) (l : list A) x y :
  NoDup (f <$> l) -> x ∈ l -> y ∈ l -> f x = f y -> x = y.
Proof.
  induction l as [|z l IH]; [by intros _ ?%elem_of_nil|].
  rewrite fmap_cons, NoDup_cons. intros [Hz Hl] [->|Hx]%elem_of_cons [->|Hy]%elem_of_cons Heq;
    [done| | |by apply IH]; exfalso; apply Hz.
  - rewrite Heq. by apply list_elem_of_fmap_2.
  - rewrite <-Heq. by apply list_elem_of_fmap_2.
Qed.

(** With distinct ids, the id of an element names its own node. *)
Lemma element_of_id elems root (st : RepositoryGraph) e a :
  wf_graph st -> NoDup (elem_id <$> elems) -> e ∈ elems ->
  id_to_node (with_nodes elems root st) !! elem_id e = Some a ->
  sg_node (rg_graph (with_nodes elems root st)) a = Some (element_node e).
Proof.
  intros Hwf Hids He Ha. destruct (add_elements_ids elems st e He) as (j & e' & Hj & He' & Hn).
  assert (j = a) as -> by (cbn in Ha, Hj; congruence).
  pose proof (with_nodes_wf elems root st Hwf) as [Hmaps _ _].
  destruct (wf_ids _ _ _ _ Hmaps _ _ Ha) as (n & Hn' & Hid).
  assert (n = element_node e') as -> by (cbn in Hn, Hn'; congruence).
  by rewrite (NoDup_fmap_inj elem_id elems e e').
Qed.

(** In a graph built from elements with distinct ids, the callers of a name are the
    elements in whose code a call is resolved to a node of that name, no more and no
    less. *)
Theorem find_callers_of_build elems root symbol :
  NoDup (elem_id <$> elems) -> Forall (class_readable parse) elems ->
  let st1 := with_nodes elems root new_graph in
  exists (st : RepositoryGraph) ns,
    build_from_elements parse dash_iter elems root new_graph = Ok st /\
    find_callers st symbol = Ok ns /\
    forall n, n ∈ ns <-> exists e a b, e ∈ elems /\ n = element_node e /\
      (a, b, Calls) ∈ call_edges parse st1 (recorded_imports parse st1 elems) e /\
      gn_name <$> sg_node (rg_graph st) b = Some symbol.
Proof.
  intros Hids Hr st1. destruct (build_from_elements_state parse dash_iter dash_iter_perm elems root
    (new_graph (G:=G)) new_graph_wf Hr) as (st & Hst & Hwf & Hs & Hedges). fold st1 in Hs, Hedges.
  assert (edges_of (new_graph (G:=G)) = []) as Hnil by apply sg_empty_edges.
  rewrite Hnil, app_nil_r in Hedges.
  assert (Hwf1 : wf_graph st1) by apply with_nodes_wf, new_graph_wf.
  assert (Hnode : forall e a, e ∈ elems -> id_to_node st1 !! elem_id e = Some a ->
            sg_node (rg_graph st) a = Some (element_node e)).
  { intros e a He Ha. rewrite (sn_node _ _ Hs).
    by apply (element_of_id elems root new_graph _ _ new_graph_wf Hids He). }
  destruct (name_query st Incoming Calls symbol Hwf) as (ns & Hns & Hiff).
  exists st, ns. split; [done|]. split; [exact Hns|]. intros n. rewrite Hiff. split.
  - intros (b & a & Hb & Ha%linked_sound & Hn). cbn [edge_towards] in Ha. fold (edges_of st) in Ha.
    rewrite Hedges in Ha. unfold element_edges in Ha. rewrite !elem_of_app, !list_elem_of_bind in Ha.
    destruct Ha as [(e & Hin & He)|[(e & Hin & He)|(e & Hin & He)]].
    + exists e, a, b. split; [done|]. split; [|done].
      apply call_edges_source in Hin as (_ & Hid & _). cbn [fst] in Hid.
      specialize (Hnode e a He Hid). congruence.
    + by apply import_edges_source in Hin as (_ & _ & ?).
    + by apply defines_edges_source in Hin as (? & _ & _ & _ & ?).
  - intros (e & a & b & He & -> & Hin & Hb).
    pose proof (call_edges_source _ _ _ _ _ Hin) as (Hcall & Hid & _). cbn [fst] in Hid.
    pose proof (Hnode e a He Hid) as Ha. exists b, a. split; [done|]. split; [|done].
    apply linked_complete; cbn [edge_towards]; fold (edges_of st).
    + rewrite Hedges. unfold element_edges. rewrite !elem_of_app, !list_elem_of_bind. left. eauto.
    + intros k. rewrite Hedges. intros (el & Hel & Horigin)%element_edges_elem; [|done].
      assert (Hkind : gn_kind (element_node e) <> NkFile).
      { unfold is_callable in Hcall. cbn. intros Hk. by destruct (element_type e). }
      destruct Horigin as [_ _ Hk|Hty Hid' Hk|m Hm _ Hkm Hk]; [done|exfalso..]; cbn [fst snd] in *.
      * specialize (Hnode el a Hel Hid'). apply Hkind.
        assert (element_node e = element_node el) as Heq by congruence.
        rewrite Heq. cbn. by rewrite Hty.
      * rewrite <-(sn_node _ _ Hs) in Hm. assert (m = element_node e) as -> by congruence. done.
Qed.

(** ** The class hierarchy is always empty *)

Definition no_edge_of (kind : EdgeKind) (st : RepositoryGraph) : Prop :=
  forall a b, (a, b, kind) ∉ edges_of st.

Lemma element_edges_no_inherits (st : RepositoryGraph) elems a b :
  wf_graph st -> (a, b, Inherits) ∉ element_edges parse dash_iter st elems.
Proof. intros Hwf (el & _ & [_ _ Hk|_ _ Hk|n _ _ _ Hk])%element_edges_elem; done. Qed.

Lemma run_graph_op_no_inherits (st st' : RepositoryGraph) op :
  wf_graph st -> no_edge_of Inherits st -> run_graph_op parse dash_iter st op = Ok st' ->
  wf_graph st' /\ no_edge_of Inherits st'.
Proof.
  intros Hwf Hno. destruct op as [elems root|f|f elems root]; cbn [run_graph_op]; intros Hok.
  - pose proof (build_from_elements_readable parse dash_iter dash_iter_perm elems root st st' Hwf Hok) as Hr.
    destruct (build_from_elements_state parse dash_iter dash_iter_perm elems root st Hwf Hr)
      as (s & Hs & ? & _ & He). assert (s = st') as -> by congruence.
    split; [done|]. intros a b. rewrite He.
    intros [?%element_edges_no_inherits|?%Hno]%elem_of_app; [done| |done].
    by apply with_nodes_wf.
  - destruct (remove_file_state st f Hwf) as (s & Hs & ? & _ & He & _).
    assert (s = st') as -> by congruence.
    split; [done|]. intros a b. unfold edges_of. rewrite He.
    intros [_ ?%Hno]%list_elem_of_filter. done.
  - pose proof (update_file_readable parse dash_iter dash_iter_perm f elems root st st' Hwf Hok) as Hr.
    destruct (update_file_state parse dash_iter dash_iter_perm f elems root st Hwf Hr)
      as (st1 & s & Hst1 & Hwf2 & Hs & ? & _ & He). assert (s = st') as -> by congruence.
    destruct (removed_state st f Hwf) as (st1' & Hst1' & _ & _ & _ & He1).
    rewrite Hst1 in Hst1'. injection Hst1' as <-.
    split; [done|]. intros a b. rewrite He.
    intros [?%element_edges_no_inherits|Hin]%elem_of_app; [done|done|].
    rewrite He1 in Hin. apply list_elem_of_filter in Hin as [_ ?%Hno]. done.
Qed.

(** Whatever is built, removed and updated, no class ever has a subclass or a
    superclass: the names of base classes are read from an empty source. *)
Theorem class_hierarchy_empty ops (st : RepositoryGraph) class :
  fold_outcome (run_graph_op parse dash_iter) new_graph ops = Ok st ->
  get_subclasses st class = Ok [] /\ get_superclasses st class = Ok [].
Proof.
  assert (Hall : forall st st' : RepositoryGraph, wf_graph st -> no_edge_of Inherits st ->
            fold_outcome (run_graph_op parse dash_iter) st ops = Ok st' ->
            wf_graph st' /\ no_edge_of Inherits st').
  { induction ops as [|op ops IH]; intros s s' Hwf Hno; cbn [fold_outcome]; [by intros [= <-]|].
    intros (s1 & Hs1 & Hrest)%bind_Ok.
    destruct (run_graph_op_no_inherits s s1 op Hwf Hno Hs1) as [? ?]. by eapply IH. }
  intros Hok. destruct (Hall new_graph st) as [Hwf Hno]; [apply new_graph_wf| |done|].
  { intros a b. unfold edges_of. cbn [new_graph rg_graph]. rewrite sg_empty_edges. apply not_elem_of_nil. }
  split; by apply name_query_none.
Qed.
End built.

(** ** Paths *)

Section paths.
Context {G : Type} `{StableGraph G} `{!StableGraphLaws G}.
Variable astar : G -> NodeIndex -> NodeIndex -> (EdgeKind -> Z) -> option (Z * list NodeIndex).

#[local] Abbreviation RepositoryGraph := (RepositoryGraph G) (only parsing).

(** A sequence of nodes joined by edges, from its first to its last. *)
Inductive graph_path (g : G) : NodeIndex -> list NodeIndex -> NodeIndex -> Prop :=
  | path_here s : graph_path g s [s] s
  | path_step s k i p t : (s, i, k) ∈ sg_edges g -> graph_path g i p t -> graph_path g s (s :: p) t.

(** What the search promises on a graph: a path, or none exists. *)
Definition astar_finds_paths (g : G) : Prop := forall s t cost,
  is_Some (sg_node g s) ->
  match astar g s t cost with
  | Some (_, p) => graph_path g s p t
  | None => forall p, ~ graph_path g s p t
  end.

Lemma graph_path_live g s p t :
  graph_path g s p t -> is_Some (sg_node g s) -> forall j, j ∈ p -> is_Some (sg_node g j).
Proof.
  induction 1 as [s|s k i p t He _ IH]; intros Hs j Hj.
  - by apply list_elem_of_singleton in Hj as ->.
  - apply elem_of_cons in Hj as [->|Hj]; [done|]. apply IH; [|done]. by apply sg_edges_live in He as [_ ?].
Qed.

(** [find_path] yields the ids along a path from a node of the one name to a node of
    the other.  The kind asked for is a preference only: the answer is [None] exactly
    when there is no path at all, and a path over other kinds is returned rather than
    none. *)
Theorem find_path_spec (st : RepositoryGraph) source target edge_filter :
  wf_graph st -> astar_finds_paths (rg_graph st) ->
  exists r, find_path astar st source target edge_filter = Ok r /\
    match r with
    | Some ids => exists s t p, gn_name <$> sg_node (rg_graph st) s = Some source /\
        gn_name <$> sg_node (rg_graph st) t = Some target /\ graph_path (rg_graph st) s p t /\
        Forall2 (fun j i => gn_id <$> sg_node (rg_graph st) j = Some i) p ids
    | None => forall s t p, gn_name <$> sg_node (rg_graph st) s = Some source ->
        gn_name <$> sg_node (rg_graph st) t = Some target -> ~ graph_path (rg_graph st) s p t
    end.
Proof.
  intros Hwf Hastar. unfold find_path.
  set (pairs := find_nodes_by_name st source ≫= _).
  assert (Hpairs : forall s t, (s, t) ∈ pairs <-> gn_name <$> sg_node (rg_graph st) s = Some source /\
                                        gn_name <$> sg_node (rg_graph st) t = Some target).
  { intros s t. unfold pairs. rewrite list_elem_of_bind. setoid_rewrite list_elem_of_fmap.
    setoid_rewrite find_nodes_by_name_iff; [|done..]. naive_solver. }
  assert (Hlive : forall s, gn_name <$> sg_node (rg_graph st) s = Some source ->
            is_Some (sg_node (rg_graph st) s)) by (intros s (n & Hn & _)%fmap_Some; by exists n).
  set (found := omap _ pairs).
  destruct (head found) as [[c path]|] eqn:Hfound.
  - assert ((c, path) ∈ found) as Hin by (destruct found; simplify_eq/=; left).
    apply list_elem_of_omap in Hin as ([s t] & Hst & Hpath). apply Hpairs in Hst as [Hs Ht].
    specialize (Hastar s t (edge_cost edge_filter) (Hlive s Hs)). cbn [fst snd] in Hpath.
    rewrite Hpath in Hastar.
    destruct (nodes_at_live (rg_graph st) path) as (ns & -> & Hall);
      [by apply (graph_path_live _ _ _ _ Hastar), Hlive|].
    eexists. split; [done|]. exists s, t, path. do 3 (split; [done|]).
    apply Forall2_fmap_r. eapply Forall2_impl; [exact Hall|]. intros j n Hj. cbn. by rewrite Hj.
  - exists None. split; [done|]. intros s t p Hs Ht Hp.
    specialize (Hastar s t (edge_cost edge_filter) (Hlive s Hs)).
    destruct (astar (rg_graph st) s t (edge_cost edge_filter)) as [r|] eqn:Er; [|by eapply Hastar].
    assert (r ∈ found) as Hin by (apply list_elem_of_omap; exists (s, t); by rewrite Hpairs).
    destruct found; [by apply elem_of_nil in Hin|done].
Qed.
End paths.

(** ** Examples *)

Lemma find_callers_of_build_witness :
  let _ := ascii_text in let _ := ascii_text_laws in
  exists (st : RepositoryGraph map_graph) ns,
    build_from_elements example_parse map_to_list example_elements (lit "/r") new_graph = Ok st /\
    find_callers st (lit "helper") = Ok ns /\
    element_node (example_element "c" EtFunction "caller" "/r/a.py" "helper()") ∈ ns.
Proof.
  intros text laws.
  assert (Hids : NoDup (elem_id <$> example_elements))
    by (apply (bool_decide_unpack _); vm_compute; exact I).
  destruct (find_callers_of_build example_parse map_to_list map_iter_perm example_elements (lit "/r")
    (lit "helper") Hids (proj1 example_readable)) as (st & ns & Hst & Hns & Hiff).
  exists st, ns. split; [exact Hst|]. split; [exact Hns|]. apply Hiff.
  exists (example_element "c" EtFunction "caller" "/r/a.py" "helper()"), 2, 4.
  split; [right; left|]. split; [reflexivity|]. split.
  - apply (bool_decide_unpack _). vm_compute. exact I.
  - assert (Hb : forall r, build_from_elements example_parse map_to_list example_elements (lit "/r")
                   (new_graph (G:=map_graph)) = r ->
                 match r with
                 | Ok st => bool_decide (gn_name <$> sg_node (rg_graph st) 4 = Some (lit "helper"))
                 | _ => false end = true) by (intros r <-; vm_compute; reflexivity).
    specialize (Hb _ Hst). apply bool_decide_eq_true in Hb. exact Hb.
Defined.

Lemma class_hierarchy_empty_witness :
  let _ := ascii_text in let _ := ascii_text_laws in
  exists st, fold_outcome (run_graph_op example_parse map_to_list) (new_graph (G:=map_graph))
      [GBuild [example_element "k" EtClass "K" "/r/k.py" ""] (lit "/r")] = Ok st /\
    get_subclasses st (lit "K") = Ok [] /\ get_superclasses st (lit "K") = Ok [].
Proof.
  intros text laws.
  assert (Hrun : is_ok (fold_outcome (run_graph_op example_parse map_to_list) (new_graph (G:=map_graph))
      [GBuild [example_element "k" EtClass "K" "/r/k.py" ""] (lit "/r")]) = true)
    by (vm_compute; reflexivity).
  destruct (fold_outcome _ _ _) as [st| | |] eqn:Hst; try discriminate Hrun.
  exists st. split; [reflexivity|].
  apply (class_hierarchy_empty example_parse map_to_list map_iter_perm _ _ _ Hst).
Defined.

(** Two functions and a call between them. *)
Definition example_call : RepositoryGraph map_graph :=
  let st := foldl add_element new_graph
    [example_element "c" EtFunction "caller" "/r/a.py" ""; example_element "h" EtFunction "helper" "/r/b.py" ""] in
  match add_edge 1 2 Calls st with Ok st => st | _ => st end.

Lemma example_call_wf : wf_graph example_call.
Proof.
  unfold example_call. set (st := foldl _ _ _).
  assert (Hwf : wf_graph st) by apply add_elements_wf, new_graph_wf.
  destruct (add_edge_adds st 1 2 Calls) as (st' & -> & Hs & _);
    [by apply (bool_decide_unpack _); vm_compute..|]. by eapply same_nodes_wf.
Qed.

Lemma set_elements_perm (s : gset NodeIndex) : elements s ≡ₚ elements s.
Proof. done. Qed.

Lemma example_edges : sg_edges (rg_graph example_call) = [(1, 2, Calls)].
Proof. apply (bool_decide_unpack (_ = _)). vm_compute. exact I. Qed.

Lemma get_related_spec_witness :
  exists ns, get_related elements example_call (lit "caller") 1 = Ok ns /\
    (exists idxs, Forall2 (fun j n => sg_node (rg_graph example_call) j = Some n) idxs ns /\ 2 ∈ idxs).
Proof.
  destruct (get_related_spec elements set_elements_perm example_call (lit "caller") 1 example_call_wf)
    as (idxs & ns & Hns & Hall & _ & Hiff).
  exists ns. split; [exact Hns|]. exists idxs. split; [exact Hall|]. apply Hiff. split.
  - right. exists 1. split.
    { apply (bool_decide_unpack (1 ∈ find_nodes_by_name example_call (lit "caller"))). vm_compute. exact I. }
    exists Calls. left. rewrite example_edges. left.
  - apply (bool_decide_unpack (_ <> _)). vm_compute. exact I.
Defined.

(** A search that is right on graphs whose only edge leads from 1 to 2. *)
Definition example_astar (g : map_graph) (s t : NodeIndex) (cost : EdgeKind -> Z)
    : option (Z * list NodeIndex) :=
  if decide (s = t) then Some (0%Z, [s])
  else if decide (s = 1 /\ t = 2) then Some (cost Calls, [1; 2]) else None.

Lemma example_astar_finds : astar_finds_paths example_astar (rg_graph example_call).
Proof.
  intros s t cost Hs. unfold example_astar. destruct (decide (s = t)) as [->|Hne]; [constructor|].
  assert (Hedge : forall a b k, (a, b, k) ∈ sg_edges (rg_graph example_call) -> a = 1 /\ b = 2).
  { intros a b k. rewrite example_edges. by intros [= -> -> _]%list_elem_of_singleton. }
  destruct (decide _) as [[-> ->]|Hno].
  - econstructor; [|constructor]. rewrite example_edges. left.
  - intros p Hp. inversion Hp as [|? k i p' ? He Hp']; subst; [done|].
    apply Hedge in He as [-> ->]. inversion Hp' as [|? ? ? ? ? He]; subst; [naive_solver|].
    by apply Hedge in He as [? _].
Qed.

(** Asked for a path over imports, the query answers with the call. *)
Lemma find_path_spec_witness :
  find_path example_astar example_call (lit "caller") (lit "helper") (Some Imports)
    = Ok (Some [lit "c"; lit "h"]) /\
  exists s t p, graph_path (rg_graph example_call) s p t /\
    Forall2 (fun j i => gn_id <$> sg_node (rg_graph example_call) j = Some i) p [lit "c"; lit "h"].
Proof.
  assert (Hrun : find_path example_astar example_call (lit "caller") (lit "helper") (Some Imports)
                 = Ok (Some [lit "c"; lit "h"])) by (vm_compute; reflexivity).
  split; [exact Hrun|].
  destruct (find_path_spec example_astar example_call (lit "caller") (lit "helper") (Some Imports)
    example_call_wf example_astar_finds) as (r & Hr & Hspec).
  rewrite Hrun in Hr. injection Hr as <-. destruct Hspec as (s & t & p & _ & _ & Hp & Hall).
  exists s, t, p. split; [exact Hp|exact Hall].
Defined.
