(* ===== verification/ElementExtraction.v ===== *)
(** * Code elements of a file (crates/happy-core/src/indexer/walker.rs, element.rs)

    A parsed file becomes a list of elements: the file itself and every function and
    class-like definition in it, with its name, signature, documentation and a
    deterministic id. *)

From S2P Require Import Prelude RustStd.
From S2P Require Import CodeTree GlobalIndex.

Definition element_type_str (et : ElementType) : str :=
  lit match et with
      | EtFile => "file" | EtClass => "class" | EtFunction => "function" | EtMethod => "method"
      | EtModule => "module" | EtImport => "import" | EtVariable => "variable"
      | EtInterface => "interface" | EtStruct => "struct" | EtEnum => "enum"
      end.

Section elements.
Context `{NodeText}.
(** The hexadecimal BLAKE3 hash of a string. *)
Variable hash_hex : str -> str.

(** [utils::generate_element_id]. *)
Definition generate_id (type_ : str) (parts : list str) : str :=
  type_ ++ lit "_" ++ take 16 (hash_hex (type_ ++ lit "/" ++ join (lit "/") parts)).

(** ** Kinds of definitions *)

Definition is_function_kind (n : tnode) : bool :=
  kind_in n ["function_definition"; "function_declaration"; "method_definition"; "function_item";
             "method_declaration"; "constructor_declaration"].

Definition is_class_like_kind (n : tnode) : bool :=
  kind_in n ["class_definition"; "class_declaration"; "struct_item"; "enum_item"; "impl_item";
             "struct_specifier"; "enum_specifier"; "interface_declaration"; "enum_declaration"].

Definition classify_class_kind (n : tnode) : ElementType :=
  if kind_in n ["struct_item"; "struct_specifier"] then EtStruct
  else if kind_in n ["enum_item"; "enum_specifier"; "enum_declaration"] then EtEnum
  else if kind_in n ["interface_declaration"] then EtInterface
  else EtClass.

(** ** Names *)

(** A C or C++ declarator, down its [declarator] fields. *)
Fixpoint extract_declarator_name (code : str) (n : tnode) : option str :=
  let '(TNode _ cs) := n in
  let names := (fun c => (c, extract_declarator_name code c)) <$> cs in
  let inner := head (filter (fun cn => node_field (info cn.1) = Some (lit "declarator")) names) in
  if kind_in n ["identifier"; "field_identifier"; "type_identifier"] then Some (text_of code n)
  else if kind_in n ["function_declarator"; "pointer_declarator"; "parenthesized_declarator"] then
    match inner with
    | Some cn => cn.2
    | None => match names with cn :: _ => cn.2 | [] => None end
    end
  else if kind_in n ["qualified_identifier"; "scoped_identifier"] then
    match child_by_field_name "name" n with
    | Some name_node => Some (text_of code name_node)
    | None => Some (text_of code n)
    end
  else match inner with Some cn => cn.2 | None => None end.

Definition extract_name (code : str) (n : tnode) : option str :=
  match child_by_field_name "name" n with
  | Some name_node => Some (text_of code name_node)
  | None =>
      match (if kind_in n ["impl_item"] then child_by_field_name "type" n else None) with
      | Some type_node => Some (text_of code type_node)
      | None =>
          if kind_in n ["function_definition"] then
            match child_by_field_name "declarator" n with
            | Some declarator => extract_declarator_name code declarator
            | None => None
            end
          else None
      end
  end.

(** ** Documentation

    [prevs] are the siblings before the node, the nearest first. *)

Definition QUOTES3 : str := [34; 34; 34]%N.

(** The first child of the body, when it is a string. *)
Definition extract_python_docstring (code : str) (n : tnode) : option str :=
  body ← child_by_field_name "body" n;
  child ← head (tchildren body);
  if kind_in child ["expression_statement"] then
    string_node ← head (tchildren child);
    if kind_in string_node ["string"; "concatenated_string"] then
      Some (trim
        (trim_end_matches_str (lit "'''")
          (trim_end_matches_str QUOTES3
            (trim_start_matches_str (lit "'''")
              (trim_start_matches_str QUOTES3 (text_of code string_node))))))
    else None
  else None.

(** The loop over the line comments before the item, the nearest first. *)
Fixpoint rust_doc_lines (code : str) (prevs : list tnode) : list str :=
  match prevs with
  | [] => []
  | sibling :: prevs =>
      if kind_in sibling ["line_comment"] then
        let text := text_of code sibling in
        if starts_with (lit "///") text || starts_with (lit "//!") text then
          trim_start (trim_start_matches_str (lit "//!") (trim_start_matches_str (lit "///") text))
            :: rust_doc_lines code prevs
        else []
      else []
  end.

Definition extract_rust_doc_comment (code : str) (prevs : list tnode) : option str :=
  match rust_doc_lines code prevs with
  | [] => None
  | doc_lines => Some (join [LF] (reverse doc_lines))
  end.

(** A block comment without its stars. *)
Definition clean_block_comment (text : str) : str :=
  let body := trim_end_matches_str (lit "*/")
                (trim_start_matches_str (lit "/*") (trim_start_matches_str (lit "/**") text)) in
  join [LF] (filter (fun l => l <> [])
    ((fun l => trim (drop_while (fun c => bool_decide (c = ch "*")) (trim l))) <$> lines body)).

Fixpoint extract_comment_doc (code : str) (prevs : list tnode) : option str :=
  match prevs with
  | [] => None
  | sibling :: prevs =>
      if kind_in sibling ["comment"; "block_comment"] then
        let text := text_of code sibling in
        if starts_with (lit "/**") text || starts_with (lit "/*") text then
          Some (clean_block_comment text)
        else if starts_with (lit "//") text then
          Some (trim (trim_start_matches_str (lit "//") text))
        else extract_comment_doc code prevs
      else None
  end.

Definition extract_docstring (code : str) (language : SupportedLanguage) (prevs : list tnode)
    (n : tnode) : option str :=
  match language with
  | Python => extract_python_docstring code n
  | Rust => extract_rust_doc_comment code prevs
  | _ => extract_comment_doc code prevs
  end.

(** ** Elements *)

Variable code file_path relative_path : str.
Variable language : SupportedLanguage.

(** The element of a definition. *)
Definition definition_element (et : ElementType) (parts : list str) (name : str)
    (prevs : list tnode) (n : tnode) : CodeElement :=
  let node_code := text_of code n in
  mk_element (generate_id (element_type_str et) parts) et name file_path relative_path
    (language_name language) (start_line_of n) (end_line_of n) node_code
    (head (lines node_code)) (extract_docstring code language prevs n) None ∅.

Definition function_element (parent_class : option str) (prevs : list tnode) (n : tnode)
    : list CodeElement :=
  match extract_name code n with
  | Some name =>
      let et := match parent_class with Some _ => EtMethod | None => EtFunction end in
      let parts := match parent_class with
                   | Some cls => [relative_path; cls; name]
                   | None => [relative_path; name]
                   end in
      [definition_element et parts name prevs n]
  | None => []
  end.

Fixpoint collect_definitions (parent_class : option str) (prevs : list tnode) (n : tnode)
    : list CodeElement :=
  let '(TNode _ cs) := n in
  let children := fix children (parent_class : option str) (prevs cs : list tnode) :=
    match cs with
    | [] => []
    | c :: cs => collect_definitions parent_class prevs c ++ children parent_class (c :: prevs) cs
    end in
  if is_function_kind n then
    function_element parent_class prevs n ++ children parent_class [] cs
  else if is_class_like_kind n then
    match extract_name code n with
    | Some name =>
        definition_element (classify_class_kind n) [relative_path; name] name prevs n
          :: children (Some name) [] cs
    | None => children parent_class [] cs
    end
  else children parent_class [] cs.

Definition file_element_of : CodeElement :=
  mk_element (generate_id (lit "file") [relative_path]) EtFile (default [] (file_name file_path))
    file_path relative_path (language_name language) 1 (length (lines code)) code None None None ∅.

Definition extract_elements_from_tree (tree : tnode) : list CodeElement :=
  file_element_of :: collect_definitions None [] tree.

(** ** What the elements are *)

(** An element of a definition: of the file, not a file, with the id its type and
    names give. *)
Definition definition_of_file (e : CodeElement) : Prop :=
  elem_file_path e = file_path /\ elem_relative_path e = relative_path /\
  elem_language e = language_name language /\ element_type e <> EtFile /\
  elem_start_line e >= 1 /\
  exists cls : list str, length cls <= 1 /\
    elem_id e = generate_id (element_type_str (element_type e)) (relative_path :: cls ++ [elem_name e]).

Lemma definition_element_ok et cls name prevs n :
  et <> EtFile -> length cls <= 1 ->
  definition_of_file (definition_element et (relative_path :: cls ++ [name]) name prevs n).
Proof.
  intros Het Hcls. unfold definition_of_file. cbn. unfold start_line_of. repeat (split; [done || lia|]).
  by exists cls.
Qed.

Lemma function_element_ok parent_class prevs n :
  Forall definition_of_file (function_element parent_class prevs n).
Proof.
  unfold function_element. destruct (extract_name code n) as [name|]; [|constructor].
  constructor; [|constructor]. destruct parent_class as [cls|].
  - by apply (definition_element_ok EtMethod [cls]); [|cbn; lia].
  - by apply (definition_element_ok EtFunction []); [|cbn; lia].
Qed.

Lemma collect_definitions_ok n : forall parent_class prevs,
  Forall definition_of_file (collect_definitions parent_class prevs n).
Proof.
  induction n as [i cs IH] using tnode_ind'. intros parent_class prevs. cbn [collect_definitions].
  match goal with |- context [function_element _ _ _ ++ ?ch parent_class [] cs] => set (children := ch) end.
  assert (Hch : forall parent_class prevs, Forall definition_of_file (children parent_class prevs cs)).
  { induction IH as [|c cs Hc _ IHcs]; intros parent_class' prevs'; [constructor|].
    cbn [children]. apply Forall_app. split; [apply Hc|apply IHcs]. }
  destruct (is_function_kind _).
  { apply Forall_app. split; [apply function_element_ok|apply Hch]. }
  destruct (is_class_like_kind _); [|apply Hch].
  destruct (extract_name code _) as [name|]; [|apply Hch]. constructor; [|apply Hch].
  apply (definition_element_ok _ []); [|cbn; lia].
  unfold classify_class_kind. by repeat case_match.
Qed.
(** The reference: the definitions of a tree are its named function and class-like
    nodes, at any depth, in the order of a walk. *)
Definition node_definition (n : tnode) : option (str * str * nat * nat) :=
  if is_function_kind n || is_class_like_kind n then
    name ← extract_name code n; Some (name, text_of code n, start_line_of n, end_line_of n)
  else None.

Definition definition_view (e : CodeElement) : str * str * nat * nat :=
  (elem_name e, elem_code e, elem_start_line e, elem_end_line e).

Lemma collect_definitions_view n : forall parent_class prevs,
  definition_view <$> collect_definitions parent_class prevs n = omap node_definition (preorder n).
Proof.
  induction n as [i cs IH] using tnode_ind'. intros parent_class prevs. cbn [collect_definitions].
  match goal with |- context [function_element _ _ _ ++ ?ch parent_class [] cs] => set (children := ch) end.
  assert (Hch : forall parent_class prevs,
            definition_view <$> children parent_class prevs cs = omap node_definition (cs ≫= preorder)).
  { induction IH as [|c cs Hc _ IHcs]; intros parent_class' prevs'; [done|].
    cbn [children]. rewrite fmap_app, bind_cons, omap_app. by rewrite Hc, IHcs. }
  rewrite preorder_unfold. cbn [tchildren].
  assert (Hcons : forall x l, omap node_definition (x :: l)
                   = option_list (node_definition x) ++ omap node_definition l)
    by (intros x l; csimpl; by destruct (node_definition x)).
  rewrite Hcons, <-(Hch parent_class []). unfold node_definition. destruct (is_function_kind _); cbn [orb].
  { unfold function_element. rewrite fmap_app. by destruct (extract_name code _). }
  destruct (is_class_like_kind _); [|done].
  destruct (extract_name code _) as [name|]; [|done]. cbn [mbind option_bind].
  rewrite fmap_cons, (Hch (Some name)), (Hch parent_class). done.
Qed.

(** The elements of a file are the file itself, first, and then one for each of its
    definitions, at any depth and in source order, with its name, text and lines.
    Each carries the path and language of the file, and an id that depends on
    nothing but its type, the path, the enclosing class and its name. *)
Theorem extract_elements_spec tree :
  exists defs, extract_elements_from_tree tree = file_element_of :: defs /\
    definition_view <$> defs = omap node_definition (preorder tree) /\
    Forall definition_of_file defs.
Proof.
  exists (collect_definitions None [] tree). split; [done|]. split.
  - apply collect_definitions_view.
  - apply collect_definitions_ok.
Qed.
End elements.
