(* ===== verification/Float64.v ===== *)
(** * Binary64 arithmetic

    [f64] of Rust as the binary64 of the Standard Library's SpecFloat: the operations
    the code uses, the conversion from an integer (to nearest, ties to even) and the
    saturating conversion [x.ceil() as usize]. *)

From Stdlib Require Import SpecFloat.
From S2P Require Import Prelude RustStd.

Abbreviation f64 := spec_float (only parsing).

Definition f64_of_Z (z : Z) : f64 := binary_normalize 53 1024 z 0 false.
Definition f64_of_nat (n : nat) : f64 := f64_of_Z (Z.of_nat n).
Definition f64_add : f64 -> f64 -> f64 := SFadd 53 1024.
Definition f64_sub : f64 -> f64 -> f64 := SFsub 53 1024.
Definition f64_mul : f64 -> f64 -> f64 := SFmul 53 1024.
Definition f64_div : f64 -> f64 -> f64 := SFdiv 53 1024.

Definition USIZE_MAX : N := 18446744073709551615.

(** [m * 2 ^ e], rounded up. *)
Definition ceil_scaled (m : positive) (e : Z) : Z :=
  if (0 <=? e)%Z then Z.pos m * 2 ^ e
  else - ((- Z.pos m) / 2 ^ (- e)).

(** [x.ceil() as usize]: NaN and negative numbers become 0. *)
Definition f64_ceil_usize (x : f64) : N :=
  match x with
  | S754_finite false m e => N.min (Z.to_N (ceil_scaled m e)) USIZE_MAX
  | S754_infinity false => USIZE_MAX
  | _ => 0
  end.
