(* ===== verification/Bm25.v ===== *)
(** * Keyword search (crates/happy-core/src/vector/bm25.rs)

    The BM25 index: documents as token lists, postings, lengths and counts.  The scores
    are [f64] (Float64); the natural logarithm
    (whose precision Rust leaves open), the Unicode lowercase mapping and the order in
    which a [HashMap] iterates are parameters. *)

From Stdlib Require Import SpecFloat.
From S2P Require Import Prelude RustStd Order Float64.

(** The literals 0.5, 0.75 and 1.5, which binary64 represents exactly. *)
Definition f64_half : f64 := f64_div (f64_of_nat 1) (f64_of_nat 2).
Definition DEFAULT_K1 : f64 := f64_div (f64_of_nat 3) (f64_of_nat 2).
Definition DEFAULT_B : f64 := f64_div (f64_of_nat 3) (f64_of_nat 4).

(** ** The index *)

Record BM25Index : Type := mk_bm25 {
  documents : gmap str (list str);
  inverted_index : gmap str (list str);
  doc_lengths : gmap str nat;
  avg_doc_len : f64;
  num_docs : nat;
  bm25_k1 : f64;
  bm25_b : f64;
}.

Definition empty_bm25 : BM25Index := mk_bm25 ∅ ∅ ∅ (f64_of_nat 0) 0 DEFAULT_K1 DEFAULT_B.

Section bm25.
Variable to_lowercase : str -> str.
Variable ln : f64 -> f64.
Variable tf_iter : gmap str nat -> list (str * nat).
Variable score_iter : gmap str f64 -> list (str * f64).

(** [utils::tokenize]. *)
Definition tokenize (text : str) : list str := split_whitespace (to_lowercase text).

Definition total_len (lengths : gmap str nat) : nat := map_fold (fun _ n acc => n + acc) 0 lengths.

(** ** Adding and removing documents *)

Definition push_posting (doc_id : str) (m : gmap str (list str)) (token : str) : gmap str (list str) :=
  <[token := default [] (m !! token) ++ [doc_id]]> m.

Definition add_document (index : BM25Index) (doc_id text : str) : BM25Index :=
  let tokens := tokenize text in
  let lengths := <[doc_id := length tokens]> (doc_lengths index) in
  let n := num_docs index + 1 in
  mk_bm25 (<[doc_id := tokens]> (documents index))
    (foldl (push_posting doc_id) (inverted_index index) tokens) lengths
    (f64_div (f64_of_nat (total_len lengths)) (f64_of_nat n)) n (bm25_k1 index) (bm25_b index).

(** One token of a removed document: its postings go, and the key with the last. *)
Definition retain_postings (doc_id : str) (doc_ids : list str) : option (list str) :=
  match filter (fun id => id <> doc_id) doc_ids with [] => None | doc_ids => Some doc_ids end.

Definition drop_posting (doc_id : str) (m : gmap str (list str)) (token : str) : gmap str (list str) :=
  partial_alter (fun ids => ids ≫= retain_postings doc_id) token m.

Definition remove_document (index : BM25Index) (doc_id : str) : BM25Index :=
  match documents index !! doc_id with
  | None => index
  | Some tokens =>
      let lengths := delete doc_id (doc_lengths index) in
      let n := num_docs index - 1 in
      mk_bm25 (delete doc_id (documents index))
        (foldl (drop_posting doc_id) (inverted_index index) tokens) lengths
        (if 0 <? n then f64_div (f64_of_nat (total_len lengths)) (f64_of_nat n) else f64_of_nat 0)
        n (bm25_k1 index) (bm25_b index)
  end.

(** ** Searching *)

Definition count_terms (doc_ids : list str) : gmap str nat :=
  foldl (fun m doc_id => <[doc_id := default 0 (m !! doc_id) + 1]> m) ∅ doc_ids.

Definition term_score (index : BM25Index) (idf : f64) (doc_id : str) (tf : nat) : f64 :=
  let doc_len := f64_of_nat (default 1 (doc_lengths index !! doc_id)) in
  let tf := f64_of_nat tf in
  let numerator := f64_mul tf (f64_add (bm25_k1 index) (f64_of_nat 1)) in
  let denominator :=
    f64_add tf (f64_mul (bm25_k1 index)
      (f64_add (f64_sub (f64_of_nat 1) (bm25_b index))
         (f64_div (f64_mul (bm25_b index) doc_len) (avg_doc_len index)))) in
  f64_div (f64_mul idf numerator) denominator.

Definition idf_of (index : BM25Index) (df : nat) : f64 :=
  let n := f64_of_nat (num_docs index) in
  let df := f64_of_nat df in
  ln (f64_add (f64_div (f64_add (f64_sub n df) f64_half) (f64_add df f64_half)) (f64_of_nat 1)).

Definition add_score (scores : gmap str f64) (doc_id : str) (score : f64) : gmap str f64 :=
  <[doc_id := f64_add (default (f64_of_nat 0) (scores !! doc_id)) score]> scores.

Definition score_token (index : BM25Index) (scores : gmap str f64) (token : str) : gmap str f64 :=
  match inverted_index index !! token with
  | None => scores
  | Some doc_ids =>
      let idf := idf_of index (length doc_ids) in
      foldl (fun scores dt => add_score scores dt.1 (term_score index idf dt.1 dt.2)) scores
        (tf_iter (count_terms doc_ids))
  end.

(** [b.1.partial_cmp(&a.1).unwrap_or(Equal)]. *)
Definition by_score_desc (a b : str * f64) : comparison := default Eq (SFcompare b.2 a.2).

Definition search (index : BM25Index) (query : str) (k : nat) : list (str * f64) :=
  let scores := foldl (score_token index) ∅ (tokenize query) in
  take k (sort_by by_score_desc (score_iter scores)).

(** ** Postings *)

(** How often [x] occurs in [l]. *)
Definition occ (x : str) (l : list str) : nat := length (filter (fun y => y = x) l).

Lemma occ_cons x y l : occ x (y :: l) = (if decide (y = x) then 1 else 0) + occ x l.
Proof. unfold occ. rewrite filter_cons. by destruct (decide (y = x)). Qed.

Lemma occ_notin x l : x ∉ l -> occ x l = 0.
Proof.
  induction l as [|y l IH]; [done|]. intros [? ?]%not_elem_of_cons.
  rewrite occ_cons, decide_False by done. by apply IH.
Qed.

Lemma occ_app x l1 l2 : occ x (l1 ++ l2) = occ x l1 + occ x l2.
Proof. unfold occ. by rewrite filter_app, length_app. Qed.

Lemma push_postings_lookup doc_id tokens m t :
  foldl (push_posting doc_id) m tokens !! t
  = if decide (t ∈ tokens) then Some (default [] (m !! t) ++ replicate (occ t tokens) doc_id) else m !! t.
Proof.
  revert m. induction tokens as [|x tokens IH]; intros m; [done|]. cbn [foldl]. rewrite IH, occ_cons.
  destruct (decide (x = t)) as [->|Hne].
  - unfold push_posting. rewrite lookup_insert_eq, (decide_True (P := t ∈ t :: tokens)) by left.
    cbn [default Nat.add replicate]. simpl. rewrite <-app_assoc. cbn [app].
    case_decide as Ht; [done|]. by rewrite occ_notin.
  - unfold push_posting. rewrite lookup_insert_ne by done.
    by destruct (decide (t ∈ tokens)), (decide (t ∈ x :: tokens)); [|set_solver..|].
Qed.

Lemma retain_postings_idemp doc_id ids :
  (ids ≫= retain_postings doc_id) ≫= retain_postings doc_id = ids ≫= retain_postings doc_id.
Proof.
  destruct ids as [l|]; [|done]. cbn. unfold retain_postings at 2 3.
  destruct (filter _ l) as [|y l'] eqn:E; [done|]. cbn. unfold retain_postings.
  rewrite <-E, list_filter_filter. erewrite list_filter_iff; [by rewrite E|]. naive_solver.
Qed.

Lemma drop_postings_lookup doc_id tokens m t :
  foldl (drop_posting doc_id) m tokens !! t
  = if decide (t ∈ tokens) then m !! t ≫= retain_postings doc_id else m !! t.
Proof.
  revert m. induction tokens as [|x tokens IH]; intros m; [done|]. cbn [foldl]. rewrite IH.
  unfold drop_posting. destruct (decide (x = t)) as [->|Hne].
  - rewrite lookup_partial_alter_eq, (decide_True (P := t ∈ t :: tokens)) by left.
    case_decide; [apply retain_postings_idemp|done].
  - rewrite lookup_partial_alter_ne by done.
    by destruct (decide (t ∈ tokens)), (decide (t ∈ x :: tokens)); [|set_solver..|].
Qed.
(** ** The index of a set of documents

    A document is posted under a token as often as the token occurs in it, and the
    counts are those of the documents. *)
Record bm25_ok (index : BM25Index) : Prop := {
  ok_postings t d :
    occ d (default [] (inverted_index index !! t)) = occ t (default [] (documents index !! d));
  ok_nonempty t ids : inverted_index index !! t = Some ids -> ids <> [];
  ok_lengths : doc_lengths index = length <$> documents index;
  ok_num : num_docs index = size (documents index);
  ok_avg : avg_doc_len index
    = if 0 <? num_docs index
      then f64_div (f64_of_nat (total_len (doc_lengths index))) (f64_of_nat (num_docs index))
      else f64_of_nat 0;
}.

Lemma empty_bm25_ok : bm25_ok empty_bm25.
Proof. split; cbn; intros; by rewrite ?lookup_empty, ?fmap_empty in *. Qed.

Lemma occ_replicate x n y : occ x (replicate n y) = if decide (y = x) then n else 0.
Proof.
  induction n as [|n IH]; simpl; [by destruct (decide (y = x))|]. rewrite occ_cons, IH.
  destruct (decide (y = x)); lia.
Qed.

Lemma occ_filter_ne x d l : occ x (filter (fun y => y <> d) l) = if decide (x = d) then 0 else occ x l.
Proof.
  induction l as [|y l IH]; [by destruct (decide (x = d))|]. rewrite filter_cons, occ_cons.
  destruct (decide (x = d)) as [->|Hne]; repeat case_decide; rewrite ?occ_cons; subst;
    repeat case_decide; try done; lia.
Qed.

Lemma occ_pos x l : x ∈ l <-> 0 < occ x l.
Proof.
  split.
  - induction 1 as [l|y l Hl IH]; rewrite occ_cons; [rewrite decide_True by done|]; lia.
  - intros Hpos. destruct (decide (x ∈ l)); [done|]. rewrite occ_notin in Hpos by done. lia.
Qed.

Lemma default_retain d ids :
  default [] (ids ≫= retain_postings d) = filter (fun y => y <> d) (default [] ids).
Proof. destruct ids as [l|]; [|done]. simpl. unfold retain_postings. by destruct (filter _ l). Qed.

Lemma add_document_ok index d text :
  bm25_ok index -> documents index !! d = None -> bm25_ok (add_document index d text).
Proof.
  intros [Hpost Hne Hlen Hnum Havg] Hfresh.
  split; cbn [add_document documents inverted_index doc_lengths num_docs avg_doc_len].
  - intros t d'. rewrite push_postings_lookup. destruct (decide (d = d')) as [<-|Hd].
    + rewrite lookup_insert_eq. specialize (Hpost t d). rewrite Hfresh in Hpost. cbn [default] in Hpost.
      change (occ t []) with 0 in Hpost.
      case_decide as Ht; simpl.
      * by rewrite occ_app, Hpost, occ_replicate, decide_True.
      * rewrite Hpost. by rewrite occ_notin.
    + rewrite lookup_insert_ne by done. rewrite <-Hpost. case_decide; [|done]. simpl.
      rewrite occ_app, occ_replicate, decide_False by done. lia.
  - intros t ids. rewrite push_postings_lookup. case_decide as Ht; [|apply Hne].
    intros [= <-] [_ Hnil]%app_nil. apply occ_pos in Ht. destruct (occ t _); [lia|done].
  - rewrite fmap_insert. by rewrite Hlen.
  - rewrite map_size_insert_None by done. lia.
  - by rewrite (proj2 (Nat.ltb_lt _ _)) by lia.
Qed.

Lemma remove_document_ok index d : bm25_ok index -> bm25_ok (remove_document index d).
Proof.
  intros Hok. unfold remove_document. destruct (documents index !! d) as [tokens|] eqn:Hd; [|done].
  destruct Hok as [Hpost Hne Hlen Hnum Havg].
  split; cbn [documents inverted_index doc_lengths num_docs avg_doc_len].
  - intros t d'. rewrite drop_postings_lookup.
    assert (Hfilter : occ d' (filter (fun y => y <> d) (default [] (inverted_index index !! t)))
                      = occ t (default [] (delete d (documents index) !! d'))).
    { rewrite occ_filter_ne. destruct (decide (d' = d)) as [->|Hd']; [by rewrite lookup_delete_eq|].
      by rewrite lookup_delete_ne. }
    rewrite <-Hfilter. case_decide as Ht; [by rewrite default_retain|].
    destruct (decide (d' = d)) as [->|Hd'].
    + rewrite Hpost, Hd, occ_filter_ne, decide_True by done. simpl. by rewrite occ_notin.
    + by rewrite occ_filter_ne, decide_False.
  - intros t ids. rewrite drop_postings_lookup. case_decide; [|apply Hne].
    destruct (inverted_index index !! t) as [l|]; [|done]. simpl. unfold retain_postings.
    destruct (filter _ l); [done|by intros [= <-]].
  - by rewrite fmap_delete, Hlen.
  - rewrite map_size_delete, Hd. lia.
  - done.
Qed.

(** Adding a new document and removing it again gives back the index. *)
Theorem remove_added_document index d text :
  bm25_ok index -> documents index !! d = None ->
  remove_document (add_document index d text) d = index.
Proof.
  intros [Hpost Hne Hlen Hnum Havg] Hfresh. unfold remove_document.
  cbn [add_document documents]. rewrite lookup_insert_eq.
  cbn [add_document inverted_index doc_lengths num_docs avg_doc_len bm25_k1 bm25_b].
  assert (Hl : doc_lengths index !! d = None) by (by rewrite Hlen, lookup_fmap, Hfresh).
  rewrite !delete_insert_id by done. rewrite Nat.add_sub.
  assert (Hinv : foldl (drop_posting d) (foldl (push_posting d) (inverted_index index) (tokenize text))
                   (tokenize text) = inverted_index index).
  { apply map_eq. intros t. rewrite drop_postings_lookup, push_postings_lookup.
    case_decide as Ht; [|done]. simpl. unfold retain_postings.
    specialize (Hpost t d). rewrite Hfresh in Hpost. change (occ t (default [] None)) with 0 in Hpost.
    rewrite filter_app.
    assert (filter (fun id => id <> d) (replicate (occ t (tokenize text)) d) = []) as ->.
    { apply filter_none. intros y [-> _]%elem_of_replicate. naive_solver. }
    rewrite app_nil_r. specialize (Hne t). destruct (inverted_index index !! t) as [ids|] eqn:Et; simpl in *.
    - rewrite filter_all.
      + destruct ids; [by destruct (Hne [] eq_refl)|done].
      + intros y Hy ->. apply occ_pos in Hy. lia.
    - done. }
  rewrite Hinv, <-Havg. by destruct index.
Qed.

(** Adding an id that is already there replaces its document, but not its postings: a
    token of the old text that the new one lacks still leads to the id, even after it
    is removed, and the count of documents stays one too high. *)
Theorem readded_document_stale index d text tokens t :
  bm25_ok index -> documents index !! d = Some tokens -> t ∈ tokens -> t ∉ tokenize text ->
  let index' := remove_document (add_document index d text) d in
  documents index' !! d = None /\ d ∈ default [] (inverted_index index' !! t) /\
  num_docs index' = size (documents index') + 1.
Proof.
  intros [Hpost _ _ Hnum _] Hd Ht Hnew. unfold remove_document. cbn [add_document documents].
  rewrite lookup_insert_eq. cbn [add_document documents inverted_index num_docs].
  split; [apply lookup_delete_eq|].
  split.
  - rewrite drop_postings_lookup, decide_False, push_postings_lookup, decide_False by done.
    apply occ_pos. rewrite Hpost, Hd. by apply occ_pos.
  - rewrite delete_insert_eq, Nat.add_sub, map_size_delete, Hd, Hnum.
    assert (size (documents index) <> 0) by (intros E%map_size_empty_iff; by rewrite E, lookup_empty in Hd).
    lia.
Qed.

(** ** What a search finds *)

Hypothesis tf_iter_perm : forall m, tf_iter m ≡ₚ map_to_list m.
Hypothesis score_iter_perm : forall m, score_iter m ≡ₚ map_to_list m.

Lemma count_terms_keys ids d : is_Some (count_terms ids !! d) <-> d ∈ ids.
Proof.
  unfold count_terms.
  assert (Hgen : forall m : gmap str nat,
    is_Some (foldl (fun m doc_id => <[doc_id := default 0 (m !! doc_id) + 1]> m) m ids !! d)
    <-> d ∈ ids \/ is_Some (m !! d)).
  { induction ids as [|x ids IH]; intros m; cbn [foldl]; [set_solver|].
    rewrite IH, lookup_insert_is_Some', elem_of_cons. naive_solver. }
  rewrite Hgen, lookup_empty. split; [intros [?|[? ?]]; done|by left].
Qed.

Lemma score_token_keys index scores token d :
  is_Some (score_token index scores token !! d) <->
  is_Some (scores !! d) \/ d ∈ default [] (inverted_index index !! token).
Proof.
  unfold score_token. destruct (inverted_index index !! token) as [ids|]; simpl; [|set_solver].
  assert (Hkeys : d ∈ (tf_iter (count_terms ids)).*1 <-> d ∈ ids).
  { rewrite <-(count_terms_keys ids d), tf_iter_perm, list_elem_of_fmap. split.
    - intros ([d' n] & -> & Hd%elem_of_map_to_list). by exists n.
    - intros [n Hn]. exists (d, n). by rewrite elem_of_map_to_list. }
  rewrite <-Hkeys. clear Hkeys. generalize (tf_iter (count_terms ids)) as l. intros l. revert scores.
  induction l as [|[d' n] l IH]; intros scores; cbn [foldl fmap list_fmap]; [set_solver|].
  rewrite IH. unfold add_score. cbn [fst]. rewrite lookup_insert_is_Some', elem_of_cons. naive_solver.
Qed.

(** The results are the [k] best of the documents that contain a token of the query:
    each of these documents is scored once, and no other. *)
Theorem search_documents index query k :
  bm25_ok index ->
  exists full, search index query k = take k full /\ NoDup full.*1 /\
    forall d, d ∈ full.*1 <->
      exists t tokens, t ∈ tokenize query /\ documents index !! d = Some tokens /\ t ∈ tokens.
Proof.
  intros Hok. unfold search. set (scores := foldl _ _ _).
  exists (sort_by by_score_desc (score_iter scores)). split; [done|].
  assert (Hperm : (sort_by by_score_desc (score_iter scores)).*1 ≡ₚ (map_to_list scores).*1)
    by (by rewrite sort_by_perm, score_iter_perm).
  split; [rewrite Hperm; apply NoDup_fst_map_to_list|]. intros d. rewrite Hperm.
  assert (Hkey : d ∈ (map_to_list scores).*1 <-> is_Some (scores !! d)).
  { rewrite list_elem_of_fmap. split.
    - intros ([d' x] & -> & Hd%elem_of_map_to_list). by exists x.
    - intros [x Hx]. exists (d, x). by rewrite elem_of_map_to_list. }
  rewrite Hkey. unfold scores.
  assert (Hgen : forall tokens sc, is_Some (foldl (score_token index) sc tokens !! d) <->
    is_Some (sc !! d) \/ exists t, t ∈ tokens /\ d ∈ default [] (inverted_index index !! t)).
  { induction tokens as [|x tokens IH]; intros sc; cbn [foldl]; [set_solver|].
    rewrite IH, score_token_keys. setoid_rewrite elem_of_cons. naive_solver. }
  rewrite Hgen, lookup_empty.
  assert (Hpost : forall t, d ∈ default [] (inverted_index index !! t) <->
            exists tokens, documents index !! d = Some tokens /\ t ∈ tokens).
  { intros t. rewrite occ_pos, (ok_postings _ Hok), <-occ_pos.
    destruct (documents index !! d); simpl; set_solver. }
  setoid_rewrite Hpost. split; [intros [[? ?]|?]; [done|naive_solver]|naive_solver].
Qed.
End bm25.

(** ** Witnesses: one document of two words *)

Definition example_bm25 : BM25Index := add_document (fun s => s) empty_bm25 (lit "d") (lit "alpha beta").

Lemma example_bm25_ok : bm25_ok example_bm25.
Proof. apply add_document_ok; [apply empty_bm25_ok|reflexivity]. Qed.

Lemma remove_added_document_witness :
  bm25_ok example_bm25 /\
  remove_document (add_document (fun s => s) example_bm25 (lit "e") (lit "beta gamma")) (lit "e")
  = example_bm25.
Proof.
  split; [apply example_bm25_ok|].
  apply (remove_added_document (fun s => s)); [apply example_bm25_ok|reflexivity].
Defined.

Lemma readded_document_stale_witness :
  let index := remove_document (add_document (fun s => s) example_bm25 (lit "d") (lit "gamma")) (lit "d") in
  documents index !! lit "d" = None /\ lit "d" ∈ default [] (inverted_index index !! lit "alpha") /\
  num_docs index = size (documents index) + 1.
Proof.
  apply (readded_document_stale (fun s => s) example_bm25 (lit "d") (lit "gamma")
           [lit "alpha"; lit "beta"] (lit "alpha")).
  - apply example_bm25_ok.
  - reflexivity.
  - left.
  - apply (bool_decide_unpack _). vm_compute. exact I.
Defined.

(** With [ln] read as the identity, a word of the document finds it. *)
Lemma search_documents_witness :
  exists full, search (fun s => s) (fun x => x) map_to_list map_to_list example_bm25 (lit "beta") 1
    = take 1 full /\ lit "d" ∈ full.*1.
Proof.
  destruct (search_documents (fun s => s) (fun x => x) map_to_list map_to_list
    (fun m => Permutation_refl _) (fun m => Permutation_refl _) example_bm25 (lit "beta") 1 example_bm25_ok)
    as (full & Hsearch & _ & Hin).
  exists full. split; [exact Hsearch|]. apply Hin. exists (lit "beta"), [lit "alpha"; lit "beta"].
  split; [|split].
  - apply (bool_decide_unpack _). vm_compute. exact I.
  - reflexivity.
  - apply (bool_decide_unpack _). vm_compute. exact I.
Defined.
