(* ===== verification/RepoHandle.v ===== *)
(** * The repository handle of a session (core/src/tools/handlers/code_graph.rs,
      crates/happy-core/src/indexer/walker.rs, watcher/mod.rs)

    The code graph and the keyword index of a session: built once in the background,
    then kept up to date batch by batch from the events of a file watcher.  Reading
    files, parsing and hashing are parameters. *)

From S2P Require Import Prelude RustStd.
From S2P Require Import CodeTree GlobalIndex StableGraph.
From S2P Require Import RepoGraph RepoEdges RepoUpdate.
From S2P Require Import ElementExtraction Bm25.

Inductive WatchEvent : Type :=
  | Modified (path : str)
  | Created (path : str)
  | Removed (path : str).

Section handle.
Context {G : Type} `{StableGraph G} `{NodeText}.
Variable parse : str -> SupportedLanguage -> option tnode.
Variable dash_iter : gmap str (list NodeIndex) -> list (str * list NodeIndex).
Variable hash_hex to_lowercase : str -> str.
(** [std::fs::read_to_string(path).ok()], at the time of a batch. *)
Variable read_to_string : str -> option str.

Record RepoHandle : Type := mk_handle {
  handle_graph : RepositoryGraph G;
  handle_bm25 : BM25Index;
}.

(** [index_single_file]. *)
Definition index_single_file (file_path repo_root : str) : option (list CodeElement) :=
  lang ← from_extension file_path;
  code ← read_to_string file_path;
  tree ← parse code lang;
  let relative := default file_path (path_strip_prefix file_path repo_root) in
  Some (extract_elements_from_tree hash_hex code file_path relative lang tree).

(** [format!("{} {} {}", name, code, docstring)]. *)
Definition bm25_text (e : CodeElement) : str :=
  elem_name e ++ lit " " ++ elem_code e ++ lit " " ++ default [] (elem_docstring e).

Definition add_to_bm25 (index : BM25Index) (e : CodeElement) : BM25Index :=
  add_document to_lowercase index (elem_id e) (bm25_text e).

(** The background indexing, on the elements found in the repository. *)
Definition build_handle (elements : list CodeElement) (path_str : str)
    : outcome () (option RepoHandle) :=
  match elements with
  | [] => Ok None
  | _ =>
      graph ← build_from_elements parse dash_iter elements path_str new_graph;
      Ok (Some (mk_handle graph (foldl add_to_bm25 empty_bm25 elements)))
  end.

(** ** Batches of changes *)

(** Draining the events: the files to index again, as a set, and those removed. *)
Definition drain_event (batch : gset str * list str) (event : WatchEvent) : gset str * list str :=
  match event with
  | Modified path | Created path =>
      match from_extension path with
      | Some _ => ({[path]} ∪ batch.1, batch.2)
      | None => batch
      end
  | Removed path => (batch.1, batch.2 ++ [path])
  end.

Definition drain_events (events : list WatchEvent) : gset str * list str :=
  foldl drain_event (∅, []) events.

Definition remove_from_handle (handle : RepoHandle) (path : str) : outcome () RepoHandle :=
  ids ← element_ids_for_file (handle_graph handle) path;
  let bm25 := foldl remove_document (handle_bm25 handle) ids in
  graph ← RepoGraph.remove_file path (handle_graph handle);
  Ok (mk_handle graph bm25).

Definition update_in_handle (repo_root : str) (handle : RepoHandle) (path : str)
    : outcome () RepoHandle :=
  match index_single_file path repo_root with
  | None => Ok handle
  | Some new_elements =>
      ids ← element_ids_for_file (handle_graph handle) path;
      let bm25 := foldl remove_document (handle_bm25 handle) ids in
      graph ← update_file parse dash_iter path new_elements repo_root (handle_graph handle);
      Ok (mk_handle graph (foldl add_to_bm25 bm25 new_elements))
  end.

(** [changed_files] in the order the set iterates. *)
Definition apply_batch (repo_root : str) (handle : RepoHandle) (batch : list str * list str)
    : outcome () RepoHandle :=
  let '(changed_files, removed_files) := batch in
  handle ← fold_outcome remove_from_handle handle removed_files;
  fold_outcome (update_in_handle repo_root) handle changed_files.
End handle.

Arguments RepoHandle : clear implicits.

Section sync.
Context {G : Type} `{StableGraph G} `{NodeText}.
Variable parse : str -> SupportedLanguage -> option tnode.
Variable dash_iter : gmap str (list NodeIndex) -> list (str * list NodeIndex).
Variable hash_hex to_lowercase : str -> str.
Context `{!StableGraphLaws G} `{!NodeTextLaws}.
Hypothesis dash_iter_perm : forall m, dash_iter m ≡ₚ map_to_list m.

(** The graph is well-formed, and the searchable documents are its elements. *)
Definition in_sync (handle : RepoHandle G) : Prop :=
  wf_graph (handle_graph handle) /\
  dom (documents (handle_bm25 handle)) = dom (element_arena (handle_graph handle)).

Lemma add_elements_docs elems index :
  dom (documents (foldl (add_to_bm25 to_lowercase) index elems))
  = list_to_set (elem_id <$> elems) ∪ dom (documents index).
Proof.
  revert index. induction elems as [|e elems IH]; intros index; [set_solver|].
  cbn [foldl]. rewrite IH. cbn. rewrite dom_insert_L. set_solver.
Qed.

Lemma remove_documents_docs ids index :
  dom (documents (foldl remove_document index ids)) = dom (documents index) ∖ list_to_set ids.
Proof.
  revert index. induction ids as [|i ids IH]; intros index; [set_solver|].
  cbn [foldl]. rewrite IH. unfold remove_document.
  destruct (documents index !! i) as [ts|] eqn:Hi; cbn [documents].
  - rewrite dom_delete_L. set_solver.
  - apply not_elem_of_dom in Hi. set_solver.
Qed.

Lemma add_elements_arena elems (st : RepositoryGraph G) :
  dom (element_arena (foldl add_element st elems))
  = list_to_set (elem_id <$> elems) ∪ dom (element_arena st).
Proof.
  revert st. induction elems as [|e elems IH]; intros st; [set_solver|].
  cbn [foldl]. rewrite IH. unfold add_element, add_node.
  destruct (sg_add_node _ _) as [idx g]. cbn [element_arena]. rewrite dom_insert_L. set_solver.
Qed.

(** Removing a file takes exactly its ids out of the elements. *)
Lemma remove_file_arena (st : RepositoryGraph G) f :
  wf_graph st ->
  exists ids st', element_ids_for_file st f = Ok ids /\ RepoGraph.remove_file f st = Ok st' /\
    wf_graph st' /\ dom (element_arena st') = dom (element_arena st) ∖ list_to_set ids.
Proof.
  intros Hwf. destruct (element_ids_live st f Hwf) as (ids & Hids & Hall).
  destruct (remove_file_state st f Hwf) as (st' & Hok & Hwf' & _ & _ & Harena & _).
  exists ids, st'. do 3 (split; [done|]). apply set_eq. intros i.
  rewrite elem_of_difference, elem_of_list_to_set, !elem_of_dom, Harena.
  assert (Hex : Exists (fun j => gn_id <$> sg_node (rg_graph st) j = Some i)
                  (default [] (file_to_nodes st !! f)) <-> i ∈ ids).
  { clear -Hall. induction Hall as [|j i' l ids Hj _ IH].
    - rewrite Exists_nil. split; [done|apply elem_of_nil].
    - rewrite Exists_cons, IH, elem_of_cons, Hj. naive_solver. }
  rewrite <-Hex. case_decide as Hd.
  - split; [intros [? ?]; done|tauto].
  - tauto.
Qed.

Lemma remove_from_handle_sync handle path :
  in_sync handle ->
  exists handle', remove_from_handle handle path = Ok handle' /\ in_sync handle'.
Proof.
  intros [Hwf Hdom]. unfold remove_from_handle.
  destruct (remove_file_arena (handle_graph handle) path Hwf) as (ids & st' & -> & -> & Hwf' & Harena).
  eexists. split; [done|]. split; [done|]. cbn [handle_bm25 handle_graph].
  by rewrite remove_documents_docs, Harena, Hdom.
Qed.

(** The classes of the files to index again can be read in the empty source. *)
Definition file_readable (read_to_string : str -> option str) (repo_root path : str) : Prop :=
  forall elems, index_single_file parse hash_hex read_to_string path repo_root = Some elems ->
    Forall (class_readable parse) elems.

Lemma update_in_handle_sync read_to_string repo_root handle path :
  in_sync handle -> file_readable read_to_string repo_root path ->
  exists handle', update_in_handle parse dash_iter hash_hex to_lowercase read_to_string repo_root handle path
                  = Ok handle' /\ in_sync handle'.
Proof.
  intros [Hwf Hdom] Hread. unfold update_in_handle, file_readable in *.
  destruct (index_single_file _ _ _ path repo_root) as [elems|]; [|by exists handle].
  specialize (Hread elems eq_refl).
  destruct (remove_file_arena (handle_graph handle) path Hwf) as (ids & st1 & -> & Hst1 & _ & Harena).
  cbn [mbind outcome_bind].
  destruct (update_file_state parse dash_iter dash_iter_perm path elems repo_root _ Hwf Hread)
    as (st1' & st' & Hst1' & _ & -> & Hwf' & Hs & _).
  rewrite Hst1 in Hst1'. injection Hst1' as <-.
  eexists. split; [done|]. split; [done|]. cbn [handle_bm25 handle_graph].
  rewrite add_elements_docs, remove_documents_docs, (sn_arena _ _ Hs).
  unfold with_nodes. cbn [build_index element_arena]. rewrite add_elements_arena.
  cbn [remove_from_index element_arena]. by rewrite Harena, Hdom.
Qed.

Lemma fold_in_sync {A} (f : RepoHandle G -> A -> outcome () (RepoHandle G)) l h :
  (forall h x, x ∈ l -> in_sync h -> exists h', f h x = Ok h' /\ in_sync h') -> in_sync h ->
  exists h', fold_outcome f h l = Ok h' /\ in_sync h'.
Proof.
  revert h. induction l as [|x l IH]; intros h Hf Hh; [by exists h|].
  destruct (Hf h x ltac:(left) Hh) as (h1 & Hx & Hh1). cbn [fold_outcome]. rewrite Hx.
  apply IH; [|done]. intros. apply Hf; [by right|done].
Qed.

Lemma apply_batch_sync read_to_string repo_root handle batch :
  in_sync handle -> Forall (file_readable read_to_string repo_root) batch.1 ->
  exists handle', apply_batch parse dash_iter hash_hex to_lowercase read_to_string repo_root handle batch
                  = Ok handle' /\ in_sync handle'.
Proof.
  intros Hsync Hread. destruct batch as [changed removed]. unfold apply_batch. cbn [fst] in Hread.
  destruct (fold_in_sync remove_from_handle removed handle) as (h1 & -> & Hh1);
    [intros; by apply remove_from_handle_sync|done|]. cbn [mbind outcome_bind].
  apply fold_in_sync; [|done]. intros h path Hpath Hh. rewrite Forall_forall in Hread.
  by apply update_in_handle_sync, Hread.
Qed.

Lemma build_handle_sync elements path_str :
  elements <> [] -> Forall (class_readable parse) elements ->
  exists handle, build_handle (G:=G) parse dash_iter to_lowercase elements path_str = Ok (Some handle) /\
    in_sync handle.
Proof.
  intros Hne Hr. unfold build_handle. destruct elements as [|e elems]; [done|].
  destruct (build_from_elements_state parse dash_iter dash_iter_perm (e :: elems) path_str
    (new_graph (G:=G)) new_graph_wf Hr) as (st & -> & Hwf & Hs & _).
  eexists. split; [done|]. split; [done|]. cbn [handle_bm25 handle_graph].
  rewrite add_elements_docs, (sn_arena _ _ Hs).
  unfold with_nodes. cbn [build_index element_arena]. by rewrite add_elements_arena.
Qed.

(** Whatever the repository held, and whatever files are then changed and removed,
    with any contents read at each batch: as long as the classes met can be read in the
    empty source, the handle never panics and stays in sync, and the keyword index holds
    a document for exactly the elements of the graph. *)
Theorem handle_stays_in_sync elements path_str (batches : list ((str -> option str) * (list str * list str))) :
  elements <> [] -> Forall (class_readable parse) elements ->
  Forall (fun rb => Forall (file_readable rb.1 path_str) rb.2.1) batches ->
  exists handle0 handle,
    build_handle (G:=G) parse dash_iter to_lowercase elements path_str = Ok (Some handle0) /\
    fold_outcome (fun handle rb => apply_batch parse dash_iter hash_hex to_lowercase rb.1 path_str handle rb.2)
      handle0 batches = Ok handle /\
    in_sync handle.
Proof.
  intros Hne Hr Hbatches. destruct (build_handle_sync elements path_str Hne Hr) as (handle0 & Hhandle0 & Hsync0).
  rewrite Forall_forall in Hbatches.
  destruct (fold_in_sync (fun handle rb => apply_batch parse dash_iter hash_hex to_lowercase rb.1 path_str handle rb.2)
    batches handle0) as (handle & Hh & Hsync); [|done|by exists handle0, handle].
  intros h rb Hrb Hh. by apply apply_batch_sync, Hbatches.
Qed.

(** One class that cannot be read, and there is no handle at all. *)
Theorem unreadable_class_no_handle elements path_str e :
  e ∈ elements -> ~ class_readable parse e ->
  is_ok (build_handle (G:=G) parse dash_iter to_lowercase elements path_str) = false.
Proof.
  intros He Hbad. unfold build_handle. destruct elements as [|e' elems]; [by apply elem_of_nil in He|].
  destruct (build_from_elements parse dash_iter (e' :: elems) path_str (new_graph (G:=G)))
    as [st| | |] eqn:Hst; try done.
  apply (build_from_elements_readable parse dash_iter dash_iter_perm) in Hst; [|apply new_graph_wf].
  rewrite Forall_forall in Hst. by specialize (Hst e He).
Qed.
End sync.

(** A session over two files, with one batch that changes one and removes the other. *)
Lemma handle_stays_in_sync_witness :
  let _ := ascii_text in let _ := ascii_text_laws in
  exists handle0 handle,
    build_handle (G:=map_graph) example_parse map_to_list (fun s => s) example_elements (lit "/r")
      = Ok (Some handle0) /\
    fold_outcome (fun handle rb => apply_batch example_parse map_to_list (fun s => s) (fun s => s)
        rb.1 (lit "/r") handle rb.2)
      handle0 [((fun _ => Some []), ([lit "/r/b.py"], [lit "/r/a.py"]))] = Ok handle /\
    in_sync handle.
Proof.
  intros text laws.
  apply (handle_stays_in_sync example_parse map_to_list (fun s => s) (fun s => s) map_iter_perm).
  - discriminate.
  - apply example_readable.
  - repeat constructor. intros elems Helems. vm_compute in Helems. discriminate Helems.
Defined.

(** A repository of one Python class. *)
Lemma unreadable_class_no_handle_witness :
  let _ := ascii_text in let _ := ascii_text_laws in
  is_ok (build_handle (G:=map_graph) example_parse map_to_list (fun s => s)
           [example_element "k" EtClass "K" "/r/k.py" "helper()"] (lit "/r")) = false.
Proof.
  intros text laws.
  apply (unreadable_class_no_handle example_parse map_to_list (fun s => s) map_iter_perm _ _
    (example_element "k" EtClass "K" "/r/k.py" "helper()")).
  - left.
  - intros Hr. specialize (Hr eq_refl Python _ eq_refl). discriminate Hr.
Defined.
