(* ===== verification/NetworkApproval.v ===== *)
(** * Approval of network access (core/src/tools/network_approval.rs,
      core/src/network_policy_decision.rs, network-proxy/src/network_policy.rs)

    While a command runs, the proxy asks the service whether a host may be reached;
    the service asks the user and remembers the answers, per attempt to run the
    command or for the session.  Attempts are shared objects ([Arc]): a request that
    waits for the user holds its attempt while other tasks register, finish and block;
    they are kept in a store of cells, and a map from attempt ids to cells. *)

From stdpp Require Import gmap sets.
From S2P Require Import Prelude RustStd.
From S2P Require Import ExecApproval.

(** ** Requests and decisions of the proxy *)

Inductive NetworkProtocol : Type := Http | HttpsConnect | Socks5Tcp | Socks5Udp.

Inductive NetworkPolicyDecision : Type := PolicyDeny | PolicyAsk.
#[export] Instance NetworkPolicyDecision_eq_dec : EqDecision NetworkPolicyDecision.
Proof. solve_decision. Defined.

Inductive NetworkDecisionSource : Type := BaselinePolicy | ModeGuard | ProxyState | Decider.
#[export] Instance NetworkDecisionSource_eq_dec : EqDecision NetworkDecisionSource.
Proof. solve_decision. Defined.

Record NetworkPolicyRequest : Type := mk_request {
  req_protocol : NetworkProtocol;
  req_host : str;
  req_port : nat;
  req_attempt_id : option str;
}.

Inductive NetworkDecision : Type :=
  | NetAllow
  | NetDeny (reason : str) (source : NetworkDecisionSource) (decision : NetworkPolicyDecision).

Definition REASON_POLICY_DENIED : str := lit "policy_denied".

Definition non_empty_reason (reason : str) : str :=
  if bool_decide (reason = []) then REASON_POLICY_DENIED else reason.

Definition deny_with_source (reason : str) (source : NetworkDecisionSource) : NetworkDecision :=
  NetDeny (non_empty_reason reason) source PolicyDeny.
Definition ask_with_source (reason : str) (source : NetworkDecisionSource) : NetworkDecision :=
  NetDeny (non_empty_reason reason) source PolicyAsk.
Definition net_deny (reason : str) : NetworkDecision := deny_with_source reason Decider.
Definition net_ask (reason : str) : NetworkDecision := ask_with_source reason Decider.

(** The fields of a [BlockedRequest] that are read here. *)
Record BlockedRequest : Type := mk_blocked {
  blocked_host : str;
  blocked_reason : str;
  blocked_attempt_id : option str;
  blocked_decision : option str;
}.

(** ** Policy decisions as text *)

Inductive NetworkApprovalProtocol : Type := ApproveHttp | ApproveHttps | ApproveSocks5Tcp | ApproveSocks5Udp.

Record NetworkApprovalContext : Type := mk_net_context {
  context_host : str;
  context_protocol : NetworkApprovalProtocol;
}.

Record NetworkPolicyDecisionPayload : Type := mk_payload {
  payload_decision : NetworkPolicyDecision;
  payload_source : NetworkDecisionSource;
  payload_protocol : option NetworkApprovalProtocol;
  payload_host : option str;
}.

Definition is_ask_from_decider (p : NetworkPolicyDecisionPayload) : bool :=
  bool_decide (payload_decision p = PolicyAsk) && bool_decide (payload_source p = Decider).

Definition parse_network_policy_decision (value : str) : option NetworkPolicyDecision :=
  if bool_decide (value = lit "deny") then Some PolicyDeny
  else if bool_decide (value = lit "ask") then Some PolicyAsk
  else None.

Definition network_approval_context_from_payload (payload : NetworkPolicyDecisionPayload)
    : option NetworkApprovalContext :=
  if negb (is_ask_from_decider payload) then None
  else
    protocol ← payload_protocol payload;
    host ← trim <$> payload_host payload;
    if bool_decide (host = []) then None else Some (mk_net_context host protocol).

Definition blocked_detail (reason : str) : str :=
  if bool_decide (reason = lit "denied") then
    lit "domain is explicitly denied by policy and cannot be approved from this prompt"
  else if bool_decide (reason = lit "not_allowed") then
    lit "domain is not on the allowlist for the current sandbox mode"
  else if bool_decide (reason = lit "not_allowed_local") then
    lit "local/private network addresses are blocked by policy"
  else if bool_decide (reason = lit "method_not_allowed") then
    lit "request method is blocked by the current network mode"
  else if bool_decide (reason = lit "proxy_disabled") then
    lit "managed network proxy is disabled"
  else lit "request is blocked by network policy".

(** A double quote of a message. *)
Definition DQUOTE : str := [34%N].

Definition denied_network_policy_message (blocked : BlockedRequest) : option str :=
  if bool_decide ((blocked_decision blocked ≫= parse_network_policy_decision) = Some PolicyDeny) then
    let host := trim (blocked_host blocked) in
    if bool_decide (host = []) then Some (lit "Network access was blocked by policy.")
    else Some (lit "Network access to " ++ DQUOTE ++ host ++ DQUOTE ++ lit " was blocked: "
               ++ blocked_detail (blocked_reason blocked) ++ lit ".")
  else None.

(** ** The service *)

Inductive NetworkApprovalMode : Type := Immediate | Deferred.

Record NetworkApprovalSpec : Type := mk_spec {
  spec_command : list str;
  spec_cwd : str;
  spec_has_network : bool;
  spec_mode : NetworkApprovalMode;
}.

(** [DeferredNetworkApproval { attempt_id }]. *)
Definition DeferredNetworkApproval : Type := str.

Record ActiveNetworkApproval : Type := mk_active {
  active_attempt_id : option str;
  active_mode : NetworkApprovalMode;
}.

Definition into_deferred (a : ActiveNetworkApproval) : option DeferredNetworkApproval :=
  match active_mode a, active_attempt_id a with
  | Deferred, Some attempt_id => Some attempt_id
  | _, _ => None
  end.

Inductive NetworkApprovalOutcome : Type :=
  | DeniedByUser
  | DeniedByPolicy (message : str).

Record NetworkApprovalAttempt : Type := mk_attempt {
  attempt_turn_id : str;
  attempt_call_id : str;
  attempt_command : list str;
  attempt_cwd : str;
  approved_hosts : gset str;
  attempt_outcome : option NetworkApprovalOutcome;
}.

Definition with_outcome (o : option NetworkApprovalOutcome) (a : NetworkApprovalAttempt)
    : NetworkApprovalAttempt :=
  mk_attempt (attempt_turn_id a) (attempt_call_id a) (attempt_command a) (attempt_cwd a)
    (approved_hosts a) o.
Definition with_approved (host : str) (a : NetworkApprovalAttempt) : NetworkApprovalAttempt :=
  mk_attempt (attempt_turn_id a) (attempt_call_id a) (attempt_command a) (attempt_cwd a)
    ({[host]} ∪ approved_hosts a) (attempt_outcome a).

Abbreviation cell := nat (only parsing).

Record NetworkApprovalService : Type := mk_service {
  attempts : gmap str cell;
  cells : gmap cell NetworkApprovalAttempt;
  session_approved_hosts : gset str;
}.

Definition default_service : NetworkApprovalService := mk_service ∅ ∅ ∅.

Definition update_cell (f : NetworkApprovalAttempt -> NetworkApprovalAttempt) (c : cell)
    (s : NetworkApprovalService) : NetworkApprovalService :=
  mk_service (attempts s) (alter f c (cells s)) (session_approved_hosts s).

Definition register_attempt (attempt_id turn_id call_id : str) (command : list str) (cwd : str)
    (s : NetworkApprovalService) : NetworkApprovalService :=
  let c := fresh (dom (cells s)) in
  mk_service (<[attempt_id := c]> (attempts s))
    (<[c := mk_attempt turn_id call_id command cwd ∅ None]> (cells s)) (session_approved_hosts s).

Definition unregister_attempt (attempt_id : str) (s : NetworkApprovalService)
    : NetworkApprovalService :=
  mk_service (delete attempt_id (attempts s)) (cells s) (session_approved_hosts s).

(** The outcome of the attempt a cell holds. *)
Definition outcome_at (c : cell) (s : NetworkApprovalService) : option NetworkApprovalOutcome :=
  a ← cells s !! c; attempt_outcome a.

Definition take_outcome (attempt_id : str) (s : NetworkApprovalService)
    : NetworkApprovalService * option NetworkApprovalOutcome :=
  match attempts s !! attempt_id with
  | None => (s, None)
  | Some c => (update_cell (with_outcome None) c s, outcome_at c s)
  end.

Definition take_user_denial_outcome (attempt_id : str) (s : NetworkApprovalService)
    : NetworkApprovalService * bool :=
  match attempts s !! attempt_id with
  | None => (s, false)
  | Some c =>
      match outcome_at c s with
      | Some DeniedByUser => (update_cell (with_outcome None) c s, true)
      | _ => (s, false)
      end
  end.

(** [resolve_attempt_for_request] and [resolve_attempt_for_blocked_request]. *)
Definition resolve_attempt (attempt_id : option str) (s : NetworkApprovalService) : option cell :=
  match attempt_id with
  | Some attempt_id => attempts s !! attempt_id
  | None => if size (attempts s) =? 1 then snd <$> head (map_to_list (attempts s)) else None
  end.

Definition record_blocked_request (blocked : BlockedRequest) (s : NetworkApprovalService)
    : NetworkApprovalService :=
  match denied_network_policy_message blocked, resolve_attempt (blocked_attempt_id blocked) s with
  | Some message, Some c =>
      match outcome_at c s with
      | Some DeniedByUser => s
      | _ => update_cell (with_outcome (Some (DeniedByPolicy message))) c s
      end
  | _, _ => s
  end.

(** ** Requests in flight

    [handle_inline_policy_request] takes and releases a lock at every stage; between
    two stages other tasks may run. *)
Inductive inline_task : Type :=
  | AtSessionCheck
  | AtResolve
  | AtAttemptCheck (c : cell)
  | AtTurnLookup (c : cell)
  | AtAnswer (c : cell)
  | InlineDone (c : option cell) (d : NetworkDecision).

Definition INLINE_NOT_ALLOWED : str := lit "not_allowed".

Definition approval_protocol (p : NetworkProtocol) : NetworkApprovalProtocol :=
  match p with
  | Http => ApproveHttp | HttpsConnect => ApproveHttps
  | Socks5Tcp => ApproveSocks5Tcp | Socks5Udp => ApproveSocks5Udp
  end.

Definition network_blocked_reason (host : str) : str :=
  lit "Network access to " ++ DQUOTE ++ host ++ DQUOTE ++ lit " is blocked by policy.".

(** What the user is asked: the call, its command, the reason and the context. *)
Definition network_prompt (a : NetworkApprovalAttempt) (request : NetworkPolicyRequest)
    : str * list str * str * str * NetworkApprovalContext :=
  (attempt_call_id a, attempt_command a, attempt_cwd a, network_blocked_reason (req_host request),
   mk_net_context (req_host request) (approval_protocol (req_protocol request))).

Definition host_approved_at (c : cell) (host : str) (s : NetworkApprovalService) : bool :=
  match cells s !! c with
  | Some a => bool_decide (host ∈ approved_hosts a)
  | None => false
  end.

Definition apply_answer (c : cell) (host : str) (decision : ReviewDecision) (s : NetworkApprovalService)
    : NetworkApprovalService * NetworkDecision :=
  match decision with
  | Approved | ApprovedExecpolicyAmendment _ => (update_cell (with_approved host) c s, NetAllow)
  | ApprovedForSession =>
      (mk_service (attempts s) (cells s) ({[host]} ∪ session_approved_hosts s), NetAllow)
  | Denied | Abort =>
      (update_cell (with_outcome (Some DeniedByUser)) c s, net_deny INLINE_NOT_ALLOWED)
  end.

(** One stage of a request: [turn_active] tells whether the turn of an attempt is
    still running, [answer] is what the user answers if this is the stage that waits
    for it. *)
Definition inline_step (turn_active : str -> bool) (answer : ReviewDecision)
    (request : NetworkPolicyRequest) (t : inline_task) (s : NetworkApprovalService)
    : NetworkApprovalService * inline_task :=
  let host := req_host request in
  match t with
  | AtSessionCheck =>
      if bool_decide (host ∈ session_approved_hosts s) then (s, InlineDone None NetAllow)
      else (s, AtResolve)
  | AtResolve =>
      match resolve_attempt (req_attempt_id request) s with
      | None => (s, InlineDone None (net_deny INLINE_NOT_ALLOWED))
      | Some c => (s, AtAttemptCheck c)
      end
  | AtAttemptCheck c =>
      if host_approved_at c host s then (s, InlineDone (Some c) NetAllow) else (s, AtTurnLookup c)
  | AtTurnLookup c =>
      match cells s !! c with
      | Some a => if turn_active (attempt_turn_id a) then (s, AtAnswer c)
                  else (s, InlineDone (Some c) (net_deny INLINE_NOT_ALLOWED))
      | None => (s, InlineDone (Some c) (net_deny INLINE_NOT_ALLOWED))
      end
  | AtAnswer c =>
      let '(s, d) := apply_answer c host answer s in (s, InlineDone (Some c) d)
  | InlineDone c d => (s, InlineDone c d)
  end.

(** The whole handler, when nothing happens between its stages. *)
Definition handle_inline_policy_request (turn_active : str -> bool) (answer : ReviewDecision)
    (request : NetworkPolicyRequest) (s : NetworkApprovalService)
    : NetworkApprovalService * inline_task :=
  let step t s := inline_step turn_active answer request t s in
  let '(s, t) := step AtSessionCheck s in
  let '(s, t) := step t s in
  let '(s, t) := step t s in
  let '(s, t) := step t s in
  step t s.

(** ** Beginning and finishing an attempt *)

Definition REJECTED_BY_USER : str := lit "rejected by user".

(** [uuid] is the [Uuid::new_v4().to_string()] of the call. *)
Definition begin_network_approval (uuid turn_id call_id : str) (has_managed_network_requirements : bool)
    (spec : option NetworkApprovalSpec) (s : NetworkApprovalService)
    : NetworkApprovalService * option ActiveNetworkApproval :=
  match spec with
  | None => (s, None)
  | Some spec =>
      if negb has_managed_network_requirements || negb (spec_has_network spec) then (s, None)
      else (register_attempt uuid turn_id call_id (spec_command spec) (spec_cwd spec) s,
            Some (mk_active (Some uuid) (spec_mode spec)))
  end.

Definition outcome_message (o : option NetworkApprovalOutcome) : option str :=
  match o with
  | Some DeniedByUser => Some REJECTED_BY_USER
  | Some (DeniedByPolicy message) => Some message
  | None => None
  end.

(** The error is the message of a [ToolError::Rejected]. *)
Definition finish_immediate_network_approval (active : ActiveNetworkApproval) (s : NetworkApprovalService)
    : NetworkApprovalService * outcome str () :=
  match active_attempt_id active with
  | None => (s, Ok ())
  | Some attempt_id =>
      let '(s, approval_outcome) := take_outcome attempt_id s in
      (unregister_attempt attempt_id s,
       match outcome_message approval_outcome with Some m => Err m | None => Ok () end)
  end.

Definition deferred_rejection_message (deferred : DeferredNetworkApproval) (s : NetworkApprovalService)
    : NetworkApprovalService * option str :=
  let '(s, o) := take_outcome deferred s in (s, outcome_message o).

Definition finish_deferred_network_approval (deferred : option DeferredNetworkApproval)
    (s : NetworkApprovalService) : NetworkApprovalService :=
  match deferred with None => s | Some attempt_id => unregister_attempt attempt_id s end.

(** ** Interleavings

    The service, the requests in flight and the answers the user has given so far, with
    the attempt and the host each was about. *)
Record net_world : Type := mk_world {
  world_service : NetworkApprovalService;
  world_tasks : gmap nat (NetworkPolicyRequest * inline_task);
  world_answers : list (cell * str * ReviewDecision);
}.

Definition with_service (s : NetworkApprovalService) (w : net_world) : net_world :=
  mk_world s (world_tasks w) (world_answers w).

Definition initial_world : net_world := mk_world default_service ∅ [].

Inductive net_label : Type :=
  | LRegister (attempt_id : str)
  | LUnregister (attempt_id : str)
  | LTake (attempt_id : str)
  | LBlocked
  | LArrive
  | LStage
  | LAnswer (c : cell) (host : str) (d : ReviewDecision).

Definition answer_of (answer : ReviewDecision) (r : NetworkPolicyRequest) (t : inline_task)
    : list (cell * str * ReviewDecision) :=
  match t with AtAnswer c => [(c, req_host r, answer)] | _ => [] end.

Definition stage_label (answer : ReviewDecision) (r : NetworkPolicyRequest) (t : inline_task) : net_label :=
  match t with AtAnswer c => LAnswer c (req_host r) answer | _ => LStage end.

(** Any task of the session may move next; attempt ids are never reused. *)
Inductive net_step : net_world -> net_label -> net_world -> Prop :=
  | net_register w attempt_id turn_id call_id command cwd :
      attempts (world_service w) !! attempt_id = None ->
      net_step w (LRegister attempt_id)
        (with_service (register_attempt attempt_id turn_id call_id command cwd (world_service w)) w)
  | net_unregister w attempt_id :
      net_step w (LUnregister attempt_id) (with_service (unregister_attempt attempt_id (world_service w)) w)
  | net_take w attempt_id :
      net_step w (LTake attempt_id) (with_service (take_outcome attempt_id (world_service w)).1 w)
  | net_take_denial w attempt_id :
      net_step w (LTake attempt_id) (with_service (take_user_denial_outcome attempt_id (world_service w)).1 w)
  | net_blocked w blocked :
      net_step w LBlocked (with_service (record_blocked_request blocked (world_service w)) w)
  | net_arrive w t request :
      world_tasks w !! t = None ->
      net_step w LArrive
        (mk_world (world_service w) (<[t := (request, AtSessionCheck)]> (world_tasks w)) (world_answers w))
  | net_stage w t request st turn_active answer :
      world_tasks w !! t = Some (request, st) ->
      let r := inline_step turn_active answer request st (world_service w) in
      net_step w (stage_label answer request st)
        (mk_world r.1 (<[t := (request, r.2)]> (world_tasks w))
           (world_answers w ++ answer_of answer request st)).

Inductive net_run : net_world -> list net_label -> net_world -> Prop :=
  | net_run_nil w : net_run w [] w
  | net_run_cons w1 l w2 ls w3 : net_step w1 l w2 -> net_run w2 ls w3 -> net_run w1 (l :: ls) w3.

(** ** Cells are live and belong to one attempt *)

Definition task_cell (t : inline_task) : option cell :=
  match t with
  | AtAttemptCheck c | AtTurnLookup c | AtAnswer c => Some c
  | InlineDone c _ => c
  | _ => None
  end.

Record service_ok (s : NetworkApprovalService) : Prop := {
  attempts_live id c : attempts s !! id = Some c -> is_Some (cells s !! c);
  attempts_inj id1 id2 c : attempts s !! id1 = Some c -> attempts s !! id2 = Some c -> id1 = id2;
}.

Lemma update_cell_live f c s c' : is_Some (cells (update_cell f c s) !! c') <-> is_Some (cells s !! c').
Proof. unfold update_cell. cbn. by rewrite lookup_alter_is_Some. Qed.

Lemma update_cell_ok f c s : service_ok s -> service_ok (update_cell f c s).
Proof.
  intros [Hlive Hinj]. split; [|exact Hinj]. intros id c' Hid. apply update_cell_live. by eapply Hlive.
Qed.

Lemma register_attempt_ok id turn_id call_id command cwd s :
  service_ok s -> service_ok (register_attempt id turn_id call_id command cwd s).
Proof.
  intros [Hlive Hinj]. unfold register_attempt. set (c := fresh _).
  assert (Hfresh : forall id', attempts s !! id' <> Some c).
  { intros id' Hid'. apply Hlive in Hid' as Hd. apply elem_of_dom in Hd. by apply (is_fresh (dom (cells s))) in Hd. }
  split; cbn [attempts cells].
  - intros id' c'. rewrite lookup_insert_Some, lookup_insert_is_Some'. naive_solver.
  - intros id1 id2 c'. rewrite !lookup_insert_Some. naive_solver.
Qed.

Lemma unregister_attempt_ok id s : service_ok s -> service_ok (unregister_attempt id s).
Proof.
  intros [Hlive Hinj]. split; cbn [unregister_attempt attempts cells].
  - intros id' c' [_ Hid]%lookup_delete_Some. by eapply Hlive.
  - intros id1 id2 c [_ H1]%lookup_delete_Some [_ H2]%lookup_delete_Some. by eapply Hinj.
Qed.

Lemma take_outcome_ok id s : service_ok s -> service_ok (take_outcome id s).1.
Proof. intros. unfold take_outcome. case_match; cbn; [by apply update_cell_ok|done]. Qed.

Lemma take_user_denial_ok id s : service_ok s -> service_ok (take_user_denial_outcome id s).1.
Proof. intros. unfold take_user_denial_outcome. repeat case_match; cbn; by try apply update_cell_ok. Qed.

Lemma record_blocked_ok b s : service_ok s -> service_ok (record_blocked_request b s).
Proof. intros. unfold record_blocked_request. repeat case_match; by try apply update_cell_ok. Qed.

Lemma apply_answer_ok c host d s : service_ok s -> service_ok (apply_answer c host d s).1.
Proof. intros Hs. destruct d; cbn; try by apply update_cell_ok. all: by destruct Hs. Qed.

Lemma resolve_attempt_live id s c : service_ok s -> resolve_attempt id s = Some c -> is_Some (cells s !! c).
Proof.
  intros Hs. unfold resolve_attempt. destruct id as [id|]; [apply (attempts_live _ Hs)|].
  case_match; [|done]. destruct (map_to_list (attempts s)) as [|[id c'] l] eqn:E; [done|].
  intros [= ->]. apply (attempts_live _ Hs id). apply elem_of_map_to_list. rewrite E. left.
Qed.

(** ** What a request is allowed by *)

Definition grants_once (d : ReviewDecision) : Prop :=
  match d with Approved | ApprovedExecpolicyAmendment _ => True | _ => False end.

(** The user allowed the host for the session, or for the attempt of the request. *)
Definition granted (c : option cell) (host : str) (answers : list (cell * str * ReviewDecision)) : Prop :=
  (exists c', (c', host, ApprovedForSession) ∈ answers) \/
  (exists c' d, c = Some c' /\ (c', host, d) ∈ answers /\ grants_once d).

Lemma granted_mono c host answers new : granted c host answers -> granted c host (answers ++ new).
Proof. unfold granted. setoid_rewrite elem_of_app. naive_solver. Qed.

Record world_ok (w : net_world) : Prop := {
  ok_service : service_ok (world_service w);
  ok_tasks t r st c : world_tasks w !! t = Some (r, st) -> task_cell st = Some c ->
    is_Some (cells (world_service w) !! c);
  ok_session host : host ∈ session_approved_hosts (world_service w) ->
    exists c, (c, host, ApprovedForSession) ∈ world_answers w;
  ok_approved c a host : cells (world_service w) !! c = Some a -> host ∈ approved_hosts a ->
    exists d, (c, host, d) ∈ world_answers w /\ grants_once d;
  ok_allowed t r c : world_tasks w !! t = Some (r, InlineDone c NetAllow) ->
    granted c (req_host r) (world_answers w);
}.

Lemma initial_world_ok : world_ok initial_world.
Proof.
  split; [split|..]; cbn; intros; try (rewrite lookup_empty in *; discriminate). set_solver.
Qed.

(** Changes of the service that keep the cells, give no approval and no new id. *)
Definition approvals_kept (s s' : NetworkApprovalService) : Prop :=
  session_approved_hosts s' = session_approved_hosts s /\
  (forall c, is_Some (cells s !! c) -> is_Some (cells s' !! c)) /\
  (forall c a', cells s' !! c = Some a' -> approved_hosts a' = ∅ \/
     exists a, cells s !! c = Some a /\ approved_hosts a' = approved_hosts a).

Lemma approvals_kept_refl s : approvals_kept s s.
Proof. split; [done|]. split; [done|]. eauto. Qed.

Lemma approvals_kept_outcome o c s : approvals_kept s (update_cell (with_outcome o) c s).
Proof.
  split; [done|]. split; [intros c'; apply update_cell_live|].
  intros c' a'. cbn [update_cell cells]. destruct (decide (c = c')) as [<-|Hne].
  - rewrite lookup_alter_eq. intros (a & Ha & ->)%fmap_Some_1. right. by exists a.
  - rewrite lookup_alter_ne by done. eauto.
Qed.

Lemma with_service_ok w s :
  world_ok w -> service_ok s -> approvals_kept (world_service w) s -> world_ok (with_service s w).
Proof.
  intros [Hs Htasks Hses Happ Hallow] Hs' (Hsession & Hlive & Hcells). split; cbn; try done.
  - intros t r st c Ht Hc. eapply Hlive, Htasks; eauto.
  - by rewrite Hsession.
  - intros c a' host Ha' Hhost. destruct (Hcells c a' Ha') as [He|(a & Ha & He)]; [set_solver|].
    rewrite He in Hhost. by eapply Happ.
Qed.

Lemma register_kept id turn_id call_id command cwd s :
  approvals_kept s (register_attempt id turn_id call_id command cwd s).
Proof.
  split; [done|]. unfold register_attempt. cbn [cells]. split.
  - intros c Hc. apply lookup_insert_is_Some'. by right.
  - intros c a'. rewrite lookup_insert_Some. intros [[_ <-]|[_ Ha]]; [by left|]. right. eauto.
Qed.

(** A stage without an answer changes nothing in the service. *)
Lemma inline_step_service active answer r t s :
  (forall c, t <> AtAnswer c) -> (inline_step active answer r t s).1 = s.
Proof. intros Hne. destruct t; cbn; repeat case_match; try done. by destruct (Hne c). Qed.

(** Where a stage leads: a live cell, and an allowance only with an approval. *)
Lemma inline_step_next active answer r t s answers :
  service_ok s ->
  (forall c, task_cell t = Some c -> is_Some (cells s !! c)) ->
  (forall host, host ∈ session_approved_hosts s -> exists c, (c, host, ApprovedForSession) ∈ answers) ->
  (forall c a host, cells s !! c = Some a -> host ∈ approved_hosts a ->
     exists d, (c, host, d) ∈ answers /\ grants_once d) ->
  (forall c, t = InlineDone c NetAllow -> granted c (req_host r) answers) ->
  let t' := (inline_step active answer r t s).2 in
  (forall c, task_cell t' = Some c -> is_Some (cells s !! c)) /\
  (forall c, t' = InlineDone c NetAllow -> granted c (req_host r) (answers ++ answer_of answer r t)).
Proof.
  intros Hs Hcell Hses Happ Hallow. destruct t as [| |c|c|c|c d]; cbn.
  - case_bool_decide as Hin; cbn; [|done]. split; [done|]. intros c [= <-].
    left. destruct (Hses _ Hin) as [c Hc]. exists c. apply elem_of_app. by left.
  - destruct (resolve_attempt _ s) as [c|] eqn:Hc; cbn; [|done]. split; [|done].
    intros c' [= <-]. by eapply resolve_attempt_live.
  - unfold host_approved_at. destruct (cells s !! c) as [a|] eqn:Ha; cbn; [|naive_solver].
    case_bool_decide as Hin; cbn; [|naive_solver]. split; [naive_solver|]. intros c' [= <-].
    destruct (Happ _ _ _ Ha Hin) as (d & Hd & Hg). right. exists c, d. split; [done|].
    split; [apply elem_of_app; by left|done].
  - repeat case_match; cbn; naive_solver.
  - unfold granted. destruct answer; cbn; (split; [naive_solver|]); intros c' [= <-]; set_solver.
  - rewrite app_nil_r. naive_solver.
Qed.

Lemma apply_answer_session c host d s :
  forall h, h ∈ session_approved_hosts (apply_answer c host d s).1 ->
  h ∈ session_approved_hosts s \/ h = host /\ d = ApprovedForSession.
Proof. destruct d; cbn; set_solver. Qed.

Lemma apply_answer_cells c host d s c' a' h :
  cells (apply_answer c host d s).1 !! c' = Some a' -> h ∈ approved_hosts a' ->
  (exists a, cells s !! c' = Some a /\ h ∈ approved_hosts a) \/ c' = c /\ h = host /\ grants_once d.
Proof.
  destruct d; cbn [apply_answer fst update_cell cells]; try (by eauto);
    (destruct (decide (c = c')) as [<-|Hne];
     [rewrite lookup_alter_eq; intros (a & Ha & ->)%fmap_Some_1; cbn [with_approved with_outcome approved_hosts]
     |rewrite lookup_alter_ne by done; by eauto]).
  all: set_solver.
Qed.

Lemma apply_answer_live c host d s c' :
  is_Some (cells s !! c') -> is_Some (cells (apply_answer c host d s).1 !! c').
Proof. destruct d; cbn [apply_answer fst cells]; try done; intros; by apply update_cell_live. Qed.

Lemma inline_step_ok active answer r t s : service_ok s -> service_ok (inline_step active answer r t s).1.
Proof.
  intros Hs. destruct t; cbn; repeat case_match; cbn; try done.
  assert (Hok := apply_answer_ok c (req_host r) answer s Hs).
  match goal with H : apply_answer _ _ _ _ = _ |- _ => by rewrite H in Hok end.
Qed.

Lemma inline_step_live active answer r t s c' :
  is_Some (cells s !! c') -> is_Some (cells (inline_step active answer r t s).1 !! c').
Proof.
  intros Hc. destruct t; cbn; repeat case_match; cbn; try done.
  assert (Hok := apply_answer_live c (req_host r) answer s c' Hc).
  match goal with H : apply_answer _ _ _ _ = _ |- _ => by rewrite H in Hok end.
Qed.

Lemma net_step_ok w l w' : net_step w l w' -> world_ok w -> world_ok w'.
Proof.
  intros Hstep Hw. pose proof (ok_service _ Hw) as Hs.
  destruct Hstep as [w id turn call command cwd Hid|w id|w id|w id|w b|w t r Ht|w t r st active answer Ht res].
  - apply with_service_ok; [done|by apply register_attempt_ok|apply register_kept].
  - apply with_service_ok; [done|by apply unregister_attempt_ok|]. split; [done|]. split; [done|]. eauto.
  - apply with_service_ok; [done|by apply take_outcome_ok|]. unfold take_outcome.
    case_match; [apply approvals_kept_outcome|apply approvals_kept_refl].
  - apply with_service_ok; [done|by apply take_user_denial_ok|]. unfold take_user_denial_outcome.
    repeat case_match; by (apply approvals_kept_outcome || apply approvals_kept_refl).
  - apply with_service_ok; [done|by apply record_blocked_ok|]. unfold record_blocked_request.
    repeat case_match; by (apply approvals_kept_outcome || apply approvals_kept_refl).
  - destruct Hw as [_ Htasks Hses Happ Hallow]. split; cbn; try done.
    + intros t' r' st' c. rewrite lookup_insert_Some. naive_solver.
    + intros t' r' c. rewrite lookup_insert_Some. naive_solver.
  - destruct Hw as [_ Htasks Hses Happ Hallow].
    destruct (inline_step_next active answer r st (world_service w) (world_answers w)) as [Hnext Hgrant];
      [done|naive_solver|done|done|intros c ->; by eapply Hallow|]. fold res in Hnext, Hgrant.
    split; cbn [world_service world_tasks world_answers].
    + by apply inline_step_ok.
    + intros t' r' st' c Ht' Hc. apply inline_step_live.
      apply lookup_insert_Some in Ht' as [[-> [= <- <-]]|[_ Ht']]; [by apply Hnext|by eapply Htasks].
    + intros host Hhost. setoid_rewrite elem_of_app. unfold res in Hhost.
      destruct st; try (rewrite inline_step_service in Hhost by done; naive_solver).
      cbn [inline_step] in Hhost. destruct (apply_answer _ _ _ _) as [s' d'] eqn:E. cbn [fst] in Hhost.
      pose proof (apply_answer_session c (req_host r) answer (world_service w) host) as Hsess.
      rewrite E in Hsess. destruct (Hsess Hhost) as [?|[-> ->]]; [naive_solver|].
      exists c. right. cbn. left.
    + intros c' a' host Ha' Hhost. setoid_rewrite elem_of_app. unfold res in Ha'.
      destruct st; try (rewrite inline_step_service in Ha' by done; naive_solver).
      cbn [inline_step] in Ha'. destruct (apply_answer _ _ _ _) as [s' d'] eqn:E. cbn [fst] in Ha'.
      pose proof (apply_answer_cells c (req_host r) answer (world_service w) c' a' host) as Hcell.
      rewrite E in Hcell. destruct (Hcell Ha' Hhost) as [(a & Ha & Hin)|(-> & -> & Hg)]; [naive_solver|].
      exists answer. split; [|done]. right. cbn. left.
    + intros t' r' c Ht'. apply lookup_insert_Some in Ht' as [[-> [= <- Heq]]|[_ Ht']].
      * by apply Hgrant.
      * apply granted_mono. by eapply Hallow.
Qed.

Lemma net_run_ok w ls w' : net_run w ls w' -> world_ok w -> world_ok w'.
Proof. induction 1; [done|]. intros. by apply IHnet_run, (net_step_ok _ _ _ H). Qed.

(** Whatever the interleaving of requests, attempts and answers, a host is reached
    only if the user allowed it: for the session, in answer to any request, or once, in
    answer to a request of the same attempt. *)
Theorem inline_allow_granted ls w t r c :
  net_run initial_world ls w ->
  world_tasks w !! t = Some (r, InlineDone c NetAllow) ->
  granted c (req_host r) (world_answers w).
Proof. intros Hrun Ht. eapply ok_allowed; [|exact Ht]. by eapply net_run_ok, initial_world_ok. Qed.

(** ** A refusal is final for the attempt *)

Definition refuses (d : ReviewDecision) : Prop := d = Denied \/ d = Abort.

Lemma update_cell_outcome f c s c' :
  outcome_at c' (update_cell f c s)
  = if decide (c = c') then a ← cells s !! c; attempt_outcome (f a) else outcome_at c' s.
Proof.
  unfold outcome_at, update_cell. cbn [cells]. destruct (decide (c = c')) as [<-|Hne].
  - rewrite lookup_alter_eq. by destruct (cells s !! c).
  - by rewrite lookup_alter_ne.
Qed.

(** As long as nobody takes the outcome of the attempt or drops its id, the denial of
    the user stays: blocked requests and further answers do not replace it. *)
Definition leaves_alone (id : str) (l : net_label) : Prop := l <> LUnregister id /\ l <> LTake id.

Lemma inline_step_denial active answer r st s c :
  outcome_at c s = Some DeniedByUser ->
  outcome_at c (inline_step active answer r st s).1 = Some DeniedByUser.
Proof.
  intros Ho. assert (Hans : forall c', outcome_at c (apply_answer c' (req_host r) answer s).1 = Some DeniedByUser).
  { intros c'. unfold outcome_at in *. destruct answer; cbn [apply_answer fst update_cell cells]; try done;
      (destruct (decide (c' = c)) as [->|Hne]; [rewrite lookup_alter_eq|by rewrite lookup_alter_ne]);
      destruct (cells s !! c) as [a|]; cbn in *; done. }
  destruct st; cbn; repeat case_match; cbn; try done.
  match goal with H : apply_answer ?x _ _ _ = _ |- _ => specialize (Hans x); by rewrite H in Hans end.
Qed.

Lemma net_step_denial w l w' id c :
  net_step w l w' -> world_ok w -> leaves_alone id l ->
  attempts (world_service w) !! id = Some c -> outcome_at c (world_service w) = Some DeniedByUser ->
  attempts (world_service w') !! id = Some c /\ outcome_at c (world_service w') = Some DeniedByUser.
Proof.
  intros Hstep Hw [Hu Ht] Hid Ho. pose proof (ok_service _ Hw) as Hs.
  assert (Hother : forall id' c', attempts (world_service w) !! id' = Some c' -> LTake id' = l ->
            outcome_at c (update_cell (with_outcome None) c' (world_service w)) = Some DeniedByUser).
  { intros id' c' Hid' Hl. rewrite update_cell_outcome, decide_False; [done|]. intros ->.
    by rewrite (attempts_inj _ Hs _ _ _ Hid' Hid) in Hl. }
  destruct Hstep as [w id' turn call command cwd Hid'|w id'|w id'|w id'|w b|w t r Ht'|w t r st active answer Ht' res];
    cbn [with_service world_service].
  - unfold register_attempt. cbn [attempts cells]. split.
    + rewrite lookup_insert_ne; [done|]. intros ->. congruence.
    + destruct (attempts_live _ Hs _ _ Hid) as [a Ha].
      assert (Hne : fresh (dom (cells (world_service w))) <> c).
      { intros Heq. apply (is_fresh (dom (cells (world_service w)))). rewrite Heq.
        apply elem_of_dom. by exists a. }
      unfold outcome_at in *. cbn. by rewrite lookup_insert_ne.
  - split; [|done]. cbn. rewrite lookup_delete_ne; [done|]. by intros ->.
  - unfold take_outcome. case_match; [|done]. split; [done|]. by eapply Hother.
  - unfold take_user_denial_outcome. repeat case_match; try done. split; [done|]. by eapply Hother.
  - unfold record_blocked_request. repeat case_match; try done; (split; [done|]);
      rewrite update_cell_outcome; case_decide; try done; subst; congruence.
  - done.
  - split; [|by apply inline_step_denial]. unfold res.
    destruct st; cbn; repeat case_match; cbn; try done.
    match goal with H : apply_answer _ _ ?x _ = _ |- _ => destruct x; cbn in H; by injection H as <- <- end.
Qed.

Lemma net_run_denial w ls w' id c :
  net_run w ls w' -> world_ok w -> Forall (leaves_alone id) ls ->
  attempts (world_service w) !! id = Some c -> outcome_at c (world_service w) = Some DeniedByUser ->
  attempts (world_service w') !! id = Some c /\ outcome_at c (world_service w') = Some DeniedByUser.
Proof.
  induction 1 as [|w1 l w2 ls w3 Hstep _ IH]; [done|]. intros Hw Hl%Forall_cons Hid Ho.
  destruct Hl as [Hl Hls].
  destruct (net_step_denial _ _ _ _ _ Hstep Hw Hl Hid Ho) as [? ?].
  apply IH; try done. by eapply net_step_ok.
Qed.

(** C29. When the user refuses a host that a running attempt asked for, the attempt ends
    rejected, whatever happens until it is finished: it does not matter which other
    hosts are then allowed or blocked. *)
Theorem user_denial_rejects ls1 w1 c host d w2 ls2 w3 id mode :
  net_run initial_world ls1 w1 -> net_step w1 (LAnswer c host d) w2 -> refuses d ->
  attempts (world_service w1) !! id = Some c ->
  net_run w2 ls2 w3 -> Forall (leaves_alone id) ls2 ->
  finish_immediate_network_approval (mk_active (Some id) mode) (world_service w3)
  = (unregister_attempt id (take_outcome id (world_service w3)).1, Err REJECTED_BY_USER).
Proof.
  intros Hrun1 Hstep Hd Hid Hrun2 Hls.
  assert (Hw1 : world_ok w1) by (eapply net_run_ok, initial_world_ok; exact Hrun1).
  assert (Hw2 : world_ok w2) by (by eapply net_step_ok).
  assert (Hdenied : attempts (world_service w2) !! id = Some c /\
                    outcome_at c (world_service w2) = Some DeniedByUser).
  { destruct (attempts_live _ (ok_service _ Hw1) _ _ Hid) as [a Ha]. clear Hrun1 Hrun2 Hw1 Hw2.
    inversion Hstep as [| | | | | |w t r st active answer Ht res Hw Hlabel]; subst.
    destruct st; try discriminate Hlabel. injection Hlabel as <- <- <-. unfold res.
    destruct Hd as [-> | ->]; cbn; (split; [done|]);
      rewrite update_cell_outcome, decide_True by done; by rewrite Ha. }
  destruct Hdenied as [Hid2 Ho2].
  destruct (net_run_denial _ _ _ _ _ Hrun2 Hw2 Hls Hid2 Ho2) as [Hid3 Ho3].
  unfold finish_immediate_network_approval, take_outcome. cbn [active_attempt_id].
  by rewrite Hid3, Ho3.
Qed.

(** The handler on its own always comes to a decision. *)
Lemma handle_inline_decides turn_active answer request s :
  exists s' c d, handle_inline_policy_request turn_active answer request s = (s', InlineDone c d).
Proof.
  unfold handle_inline_policy_request. cbn. case_bool_decide; cbn; [eauto|].
  destruct (resolve_attempt _ s) as [c|]; cbn; [|eauto].
  destruct (host_approved_at c _ s); cbn; [eauto|].
  destruct (cells s !! c) as [a|]; cbn; [|eauto]. destruct (turn_active _); cbn; [|eauto].
  destruct (apply_answer _ _ _ s) as [s' d]. eauto.
Qed.

(** ** Witnesses: one attempt and one request *)

Definition run_stage (answer : ReviewDecision) (t : nat) (w : net_world) : net_world :=
  match world_tasks w !! t with
  | Some (request, st) =>
      let r := inline_step (fun _ => true) answer request st (world_service w) in
      mk_world r.1 (<[t := (request, r.2)]> (world_tasks w))
        (world_answers w ++ answer_of answer request st)
  | None => w
  end.

Lemma run_stage_step answer t w r st :
  world_tasks w !! t = Some (r, st) -> net_step w (stage_label answer r st) (run_stage answer t w).
Proof. intros Ht. unfold run_stage. rewrite Ht. by apply net_stage. Qed.

Definition example_net_request : NetworkPolicyRequest := mk_request Http (lit "example.com") 80 (Some (lit "a")).

Definition example_asking : net_world :=
  let w := with_service (register_attempt (lit "a") (lit "t") (lit "c") [lit "curl"] (lit "/") default_service)
             initial_world in
  let w := mk_world (world_service w) {[0 := (example_net_request, AtSessionCheck)]} [] in
  let stage := run_stage Denied 0 in
  stage (stage (stage (stage w))).

Lemma example_asking_run : net_run initial_world [LRegister (lit "a"); LArrive; LStage; LStage; LStage; LStage] example_asking.
Proof.
  eapply net_run_cons; [apply (net_register _ (lit "a") (lit "t") (lit "c") [lit "curl"] (lit "/")); reflexivity|].
  eapply net_run_cons; [apply (net_arrive _ 0 example_net_request); reflexivity|].
  eapply net_run_cons; [eapply (run_stage_step Denied 0 _ _ AtSessionCheck); vm_compute; reflexivity|].
  eapply net_run_cons; [eapply (run_stage_step Denied 0 _ _ AtResolve); vm_compute; reflexivity|].
  eapply net_run_cons; [eapply (run_stage_step Denied 0 _ _ (AtAttemptCheck 0)); vm_compute; reflexivity|].
  eapply net_run_cons; [eapply (run_stage_step Denied 0 _ _ (AtTurnLookup 0)); vm_compute; reflexivity|].
  constructor.
Qed.

Lemma net_run_app w1 ls1 w2 ls2 w3 : net_run w1 ls1 w2 -> net_run w2 ls2 w3 -> net_run w1 (ls1 ++ ls2) w3.
Proof. induction 1; [done|]. intros. econstructor; eauto. Qed.

Lemma inline_allow_granted_witness :
  exists ls w, net_run initial_world ls w /\
    world_tasks w !! 0 = Some (example_net_request, InlineDone (Some 0) NetAllow) /\
    granted (Some 0) (lit "example.com") (world_answers w).
Proof.
  assert (Hrun : net_run initial_world
            ([LRegister (lit "a"); LArrive; LStage; LStage; LStage; LStage] ++
             [LAnswer 0 (lit "example.com") Approved]) (run_stage Approved 0 example_asking)).
  { eapply net_run_app; [apply example_asking_run|]. eapply net_run_cons; [|constructor].
    apply (run_stage_step Approved 0 _ example_net_request (AtAnswer 0)). vm_compute. reflexivity. }
  assert (Ht : world_tasks (run_stage Approved 0 example_asking) !! 0
               = Some (example_net_request, InlineDone (Some 0) NetAllow)) by (vm_compute; reflexivity).
  exists ([LRegister (lit "a"); LArrive; LStage; LStage; LStage; LStage] ++
          [LAnswer 0 (lit "example.com") Approved]), (run_stage Approved 0 example_asking).
  split; [exact Hrun|]. split; [exact Ht|].
  exact (inline_allow_granted _ _ 0 example_net_request (Some 0) Hrun Ht).
Defined.

Lemma user_denial_rejects_witness :
  exists w2, net_step example_asking (LAnswer 0 (lit "example.com") Denied) w2 /\
    (finish_immediate_network_approval (mk_active (Some (lit "a")) Immediate) (world_service w2)).2
    = Err REJECTED_BY_USER.
Proof.
  assert (Hstep : net_step example_asking (LAnswer 0 (lit "example.com") Denied) (run_stage Denied 0 example_asking)).
  { apply (run_stage_step Denied 0 _ example_net_request (AtAnswer 0)). vm_compute. reflexivity. }
  exists (run_stage Denied 0 example_asking). split; [exact Hstep|].
  rewrite (user_denial_rejects _ _ 0 (lit "example.com") Denied _ [] _ (lit "a") Immediate
             example_asking_run Hstep).
  - reflexivity.
  - by left.
  - vm_compute. reflexivity.
  - constructor.
  - constructor.
Defined.
