(* ===== verification/ExecSandbox.v ===== *)
(** * Running a command in a sandbox (core/src/sandboxing/mod.rs, core/src/exec.rs,
      core/src/landlock.rs)

    Which sandbox a command gets, the command line that puts it there, the output that
    is kept of it and how its end is read.  Spawning the process, decoding bytes,
    JSON and the Seatbelt profile are parameters. *)

From S2P Require Import Prelude RustStd.
From S2P Require Import SandboxPolicy PatchSafety ExecApproval NetworkApproval.

(** ** Choosing the sandbox *)

#[export] Instance SandboxType_eq_dec : EqDecision SandboxType.
Proof. solve_decision. Defined.

Inductive SandboxablePreference : Type := PrefAuto | PrefRequire | PrefForbid.

Definition windows_sandbox_enabled (level : WindowsSandboxLevel) : bool :=
  match level with Disabled => false | _ => true end.

(** [get_platform_sandbox(..).unwrap_or(SandboxType::None)]. *)
Definition platform_sandbox_or_none (os : target_os) (level : WindowsSandboxLevel) : SandboxType :=
  default SandboxNone (get_platform_sandbox os (windows_sandbox_enabled level)).

(** The choice both [select_initial] and [process_exec_tool_call] make from the policy. *)
Definition sandbox_for_policy (os : target_os) (policy : SandboxPolicy) (level : WindowsSandboxLevel)
    (managed_network : bool) : SandboxType :=
  match policy with
  | DangerFullAccess | ExternalSandbox _ =>
      if managed_network then platform_sandbox_or_none os level else SandboxNone
  | _ => platform_sandbox_or_none os level
  end.

Definition select_initial (os : target_os) (policy : SandboxPolicy) (pref : SandboxablePreference)
    (level : WindowsSandboxLevel) (has_managed_network_requirements : bool) : SandboxType :=
  match pref with
  | PrefForbid => SandboxNone
  | PrefRequire => platform_sandbox_or_none os level
  | PrefAuto => sandbox_for_policy os policy level has_managed_network_requirements
  end.

(** ** Errors and outputs *)

Record StreamOutput (T : Type) : Type := mk_stream {
  stream_text : T;
  truncated_after_lines : option nat;
}.
Arguments mk_stream {T} _ _.
Arguments stream_text {T} _.
Arguments truncated_after_lines {T} _.

Record ExecToolCallOutput : Type := mk_exec_output {
  exit_code : Z;
  out_stdout : StreamOutput str;
  out_stderr : StreamOutput str;
  out_aggregated : StreamOutput str;
  out_timed_out : bool;
}.

(** The two errors of setting up seccomp, which only the Linux helper makes, are left out. *)
Inductive SandboxErr : Type :=
  | SandboxDenied (output : ExecToolCallOutput)
      (network_policy_decision : option NetworkPolicyDecisionPayload)
  | SandboxTimeout (output : ExecToolCallOutput)
  | SandboxSignal (signal : Z)
  | LandlockRestrict.

(** The errors of [CodexErr] that this code makes or looks at; the others are texts. *)
Inductive CodexErr : Type :=
  | CodexSandbox (e : SandboxErr)
  | LandlockSandboxExecutableNotProvided
  | UnsupportedOperation (message : str)
  | CodexIo (message : str)
  | CodexOther (message : str).

Inductive SandboxTransformError : Type :=
  | MissingLinuxSandboxExecutable
  | SeatbeltUnavailable.

Definition from_transform_error (e : SandboxTransformError) : CodexErr :=
  match e with
  | MissingLinuxSandboxExecutable => LandlockSandboxExecutableNotProvided
  | SeatbeltUnavailable => UnsupportedOperation (lit "seatbelt sandbox is only available on macOS")
  end.

(** ** The command line *)

Inductive ExecExpiration : Type :=
  | ExpireAfterMs (timeout_ms : nat)
  | DefaultTimeout
  | Cancellation.

Definition DEFAULT_EXEC_COMMAND_TIMEOUT_MS : Z := 10000.

Definition expiration_from (timeout_ms : option nat) : ExecExpiration :=
  match timeout_ms with Some ms => ExpireAfterMs ms | None => DefaultTimeout end.

Definition expiration_timeout_ms (e : ExecExpiration) : option Z :=
  match e with
  | ExpireAfterMs ms => Some (Z.of_nat ms)
  | DefaultTimeout => Some DEFAULT_EXEC_COMMAND_TIMEOUT_MS
  | Cancellation => None
  end.

Record CommandSpec : Type := mk_command_spec {
  cs_program : str;
  cs_args : list str;
  cs_cwd : str;
  cs_env : gmap str str;
  cs_expiration : ExecExpiration;
  cs_permissions : SandboxPermissions;
  cs_justification : option str;
}.

(** [Net] is the type of proxies. *)
Record ExecRequest (Net : Type) : Type := mk_exec_request {
  er_command : list str;
  er_cwd : str;
  er_env : gmap str str;
  er_network : option Net;
  er_network_attempt_id : option str;
  er_expiration : ExecExpiration;
  er_sandbox : SandboxType;
  er_windows_level : WindowsSandboxLevel;
  er_permissions : SandboxPermissions;
  er_justification : option str;
  er_arg0 : option str;
}.
Arguments mk_exec_request {Net} _ _ _ _ _ _ _ _ _ _ _.
Arguments er_command {Net} _.
Arguments er_env {Net} _.
Arguments er_network {Net} _.
Arguments er_network_attempt_id {Net} _.
Arguments er_sandbox {Net} _.
Arguments er_cwd {Net} _.
Arguments er_arg0 {Net} _.

Definition with_attempt_id {Net} (id : option str) (r : ExecRequest Net) : ExecRequest Net :=
  let '(mk_exec_request c d e n _ x s w p j a) := r in mk_exec_request c d e n id x s w p j a.

Record SandboxTransformRequest (Net : Type) : Type := mk_transform {
  tr_spec : CommandSpec;
  tr_policy : SandboxPolicy;
  tr_sandbox : SandboxType;
  tr_enforce_managed_network : bool;
  tr_network : option Net;
  tr_policy_cwd : str;
  tr_linux_sandbox_exe : option str;
  tr_use_bwrap : bool;
  tr_windows_level : WindowsSandboxLevel;
}.
Arguments mk_transform {Net} _ _ _ _ _ _ _ _ _.
Arguments tr_spec {Net} _.
Arguments tr_policy {Net} _.
Arguments tr_sandbox {Net} _.
Arguments tr_enforce_managed_network {Net} _.
Arguments tr_network {Net} _.
Arguments tr_policy_cwd {Net} _.
Arguments tr_linux_sandbox_exe {Net} _.
Arguments tr_use_bwrap {Net} _.
Arguments tr_windows_level {Net} _.

Definition CODEX_SANDBOX_NETWORK_DISABLED_ENV_VAR : str := lit "CODEX_SANDBOX_NETWORK_DISABLED".
Definition CODEX_SANDBOX_ENV_VAR : str := lit "CODEX_SANDBOX".
Definition ZSH_EXEC_BRIDGE_WRAPPER_SOCKET_ENV_VAR : str := lit "CODEX_ZSH_EXEC_BRIDGE_WRAPPER_SOCKET".
Definition MACOS_PATH_TO_SEATBELT_EXECUTABLE : str := lit "/usr/bin/sandbox-exec".

Section transform.
Context {Net : Type}.
Variable os : target_os.
(** [serde_json::to_string(sandbox_policy)], and [create_seatbelt_command_args]. *)
Variable policy_json : SandboxPolicy -> str.
Variable create_seatbelt_command_args :
  list str -> SandboxPolicy -> str -> bool -> option Net -> list str -> list str.

Definition allow_network_for_proxy (enforce_managed_network : bool) : bool := enforce_managed_network.

Definition create_linux_sandbox_command_args (command : list str) (sandbox_policy : SandboxPolicy)
    (sandbox_policy_cwd : str) (use_bwrap_sandbox allow_network : bool) : list str :=
  [lit "--sandbox-policy-cwd"; sandbox_policy_cwd; lit "--sandbox-policy"; policy_json sandbox_policy]
  ++ (if use_bwrap_sandbox then [lit "--use-bwrap-sandbox"] else [])
  ++ (if allow_network then [lit "--allow-network-for-proxy"] else [])
  ++ [lit "--"] ++ command.

(** The argument vector in the sandbox, the variables it adds and its name. *)
Definition sandboxed_command (request : SandboxTransformRequest Net) (env : gmap str str)
    (command : list str) : outcome SandboxTransformError (list str * gmap str str * option str) :=
  match tr_sandbox request with
  | SandboxNone | WindowsRestrictedToken => Ok (command, ∅, None)
  | MacosSeatbelt =>
      match os with
      | MacOS =>
          let sockets := match env !! ZSH_EXEC_BRIDGE_WRAPPER_SOCKET_ENV_VAR with
                         | Some path => [path] | None => [] end in
          Ok (MACOS_PATH_TO_SEATBELT_EXECUTABLE ::
                create_seatbelt_command_args command (tr_policy request) (tr_policy_cwd request)
                  (tr_enforce_managed_network request) (tr_network request) sockets,
              {[CODEX_SANDBOX_ENV_VAR := lit "seatbelt"]}, None)
      | _ => Err SeatbeltUnavailable
      end
  | LinuxSeccomp =>
      exe ← ok_or (tr_linux_sandbox_exe request) MissingLinuxSandboxExecutable;
      Ok (exe :: create_linux_sandbox_command_args command (tr_policy request) (tr_policy_cwd request)
                   (tr_use_bwrap request) (allow_network_for_proxy (tr_enforce_managed_network request)),
          ∅, Some (lit "codex-linux-sandbox"))
  end.

Definition transform (request : SandboxTransformRequest Net)
    : outcome SandboxTransformError (ExecRequest Net) :=
  let spec := tr_spec request in
  let env := if has_full_network_access (tr_policy request) then cs_env spec
             else <[CODEX_SANDBOX_NETWORK_DISABLED_ENV_VAR := lit "1"]> (cs_env spec) in
  res ← sandboxed_command request env (cs_program spec :: cs_args spec);
  let '(command, sandbox_env, arg0_override) := res in
  Ok (mk_exec_request command (cs_cwd spec) (sandbox_env ∪ env) (tr_network request) None
        (cs_expiration spec) (tr_sandbox request) (tr_windows_level request) (cs_permissions spec)
        (cs_justification spec) arg0_override).
End transform.

(** ** Reading the output *)

Definition EXEC_OUTPUT_MAX_BYTES : nat := 1024 * 1024.
Definition MAX_EXEC_OUTPUT_DELTAS_PER_CALL : nat := 100 * 100.

Definition append_capped (dst src : list N) (max_bytes : nat) : list N :=
  if max_bytes <=? length dst then dst
  else dst ++ take (min (max_bytes - length dst) (length src)) src.

(** The chunks [read] returns until it returns none: the bytes kept, and the chunks sent
    on to the client when it listens. *)
Fixpoint read_capped_loop (listening : bool) (chunks : list (list N)) (buf : list N)
    (emitted : list (list N)) : list N * list (list N) :=
  match chunks with
  | [] => (buf, emitted)
  | chunk :: chunks =>
      if bool_decide (chunk = []) then (buf, emitted)
      else
        let emitted := if listening && (length emitted <? MAX_EXEC_OUTPUT_DELTAS_PER_CALL)
                       then emitted ++ [chunk] else emitted in
        read_capped_loop listening chunks (append_capped buf chunk EXEC_OUTPUT_MAX_BYTES) emitted
  end.

Definition read_capped (listening : bool) (chunks : list (list N)) : StreamOutput (list N) * list (list N) :=
  let '(buf, emitted) := read_capped_loop listening chunks [] [] in (mk_stream buf None, emitted).

Definition aggregate_output (stdout stderr : StreamOutput (list N)) : StreamOutput (list N) :=
  let out := stream_text stdout in
  let err := stream_text stderr in
  let max_bytes := EXEC_OUTPUT_MAX_BYTES in
  if length out + length err <=? max_bytes then mk_stream (out ++ err) None
  else
    let want_stdout := min (length out) (max_bytes / 3) in
    let want_stderr := length err in
    let stderr_take := min want_stderr (max_bytes - want_stdout) in
    let remaining := max_bytes - (want_stdout + stderr_take) in
    let stdout_take := want_stdout + min remaining (length out - want_stdout) in
    mk_stream (take stdout_take out ++ take stderr_take err) None.

(** ** How a command ended *)

(** [ExitStatus] on Unix: the status word of [wait]. *)
Definition wait_termsig (status : Z) : Z := Z.land status 127.
Definition status_signal (status : Z) : option Z :=
  let s := wait_termsig status in
  if ((0 <? s) && (s <? 127))%Z then Some s else None.
Definition status_code (status : Z) : option Z :=
  if (wait_termsig status =? 0)%Z then Some (Z.land (Z.shiftr status 8) 255) else None.

(** [synthetic_exit_status]: [ExitStatus::from_raw]. *)
Definition synthetic_exit_status (code : Z) : Z := code.

Definition SIGKILL_CODE : Z := 9.
Definition TIMEOUT_CODE : Z := 64.
Definition EXIT_CODE_SIGNAL_BASE : Z := 128.
Definition EXEC_TIMEOUT_EXIT_CODE : Z := 124.
Definition SIGSYS_CODE : Z := 31.

Record RawExecToolCallOutput : Type := mk_raw_output {
  raw_exit_status : Z;
  raw_stdout : StreamOutput (list N);
  raw_stderr : StreamOutput (list N);
  raw_aggregated : StreamOutput (list N);
  raw_timed_out : bool;
}.

Definition SANDBOX_DENIED_KEYWORDS : list str :=
  lit <$> ["operation not permitted"; "permission denied"; "read-only file system"; "seccomp";
           "sandbox"; "landlock"; "failed to write file"]%string.
Definition QUICK_REJECT_EXIT_CODES : list Z := [2; 126; 127]%Z.

Section ended.
(** [str::to_lowercase], and [bytes_to_string_smart]. *)
Variable to_lowercase : str -> str.
Variable bytes_to_string : list N -> str.

Definition has_sandbox_keyword (o : ExecToolCallOutput) : bool :=
  existsb (fun section => let lower := to_lowercase section in
             existsb (fun needle => contains needle lower) SANDBOX_DENIED_KEYWORDS)
    [stream_text (out_stderr o); stream_text (out_stdout o); stream_text (out_aggregated o)].

Definition is_likely_sandbox_denied (sandbox_type : SandboxType) (o : ExecToolCallOutput) : bool :=
  if bool_decide (sandbox_type = SandboxNone) || (exit_code o =? 0)%Z then false
  else if has_sandbox_keyword o then true
  else if bool_decide (exit_code o ∈ QUICK_REJECT_EXIT_CODES) then false
  else bool_decide (sandbox_type = LinuxSeccomp)
       && (exit_code o =? EXIT_CODE_SIGNAL_BASE + SIGSYS_CODE)%Z.

Definition decode_stream (s : StreamOutput (list N)) : StreamOutput str :=
  mk_stream (bytes_to_string (stream_text s)) (truncated_after_lines s).

(** Whether the process was ended for its time; any other signal is an error. *)
Definition ended_by_timeout (raw : RawExecToolCallOutput) : outcome CodexErr bool :=
  match status_signal (raw_exit_status raw) with
  | Some signal => if (signal =? TIMEOUT_CODE)%Z then Ok true
                   else Err (CodexSandbox (SandboxSignal signal))
  | None => Ok (raw_timed_out raw)
  end.

Definition finalize_output (raw : RawExecToolCallOutput) (timed_out : bool) : ExecToolCallOutput :=
  let code := default (-1)%Z (status_code (raw_exit_status raw)) in
  mk_exec_output (if timed_out then EXEC_TIMEOUT_EXIT_CODE else code) (decode_stream (raw_stdout raw))
    (decode_stream (raw_stderr raw)) (decode_stream (raw_aggregated raw)) timed_out.

Definition finalize_exec_result (raw_output_result : outcome CodexErr RawExecToolCallOutput)
    (sandbox_type : SandboxType) : outcome CodexErr ExecToolCallOutput :=
  raw ← raw_output_result;
  timed_out ← ended_by_timeout raw;
  let exec_output := finalize_output raw timed_out in
  if (timed_out : bool) then Err (CodexSandbox (SandboxTimeout exec_output))
  else if is_likely_sandbox_denied sandbox_type exec_output then
    Err (CodexSandbox (SandboxDenied exec_output None))
  else Ok exec_output.
End ended.

(** The end of [consume_truncated_output]: what the child, the expiration or an
    interrupt ended it with, and the streams collected. *)
Inductive exec_end : Type := ChildExited (status : Z) | Expired | Interrupted.

Definition end_status (e : exec_end) : Z * bool :=
  match e with
  | ChildExited status => (status, false)
  | Expired => (synthetic_exit_status (EXIT_CODE_SIGNAL_BASE + TIMEOUT_CODE), true)
  | Interrupted => (synthetic_exit_status (EXIT_CODE_SIGNAL_BASE + SIGKILL_CODE), false)
  end.

(** [None]: the pipe was still open when the drain timed out. *)
Definition collect_output (e : exec_end) (stdout stderr : option (StreamOutput (list N)))
    : RawExecToolCallOutput :=
  let '(exit_status, timed_out) := end_status e in
  let stdout := default (mk_stream [] None) stdout in
  let stderr := default (mk_stream [] None) stderr in
  mk_raw_output exit_status stdout stderr (aggregate_output stdout stderr) timed_out.

(** ** What the sandbox is given *)

(** Unless the policy allows everything, a command is run without a sandbox only where
    the platform has none. *)
Lemma restricted_policy_sandboxed os policy level managed :
  has_full_disk_write_access policy = false ->
  select_initial os policy PrefAuto level managed = platform_sandbox_or_none os level.
Proof. by destruct policy. Qed.

Section transform_facts.
Context {Net : Type}.
Variable os : target_os.
Variable policy_json : SandboxPolicy -> str.
Variable seatbelt_args : list str -> SandboxPolicy -> str -> bool -> option Net -> list str -> list str.

#[local] Abbreviation transform := (transform os policy_json seatbelt_args) (only parsing).

(** A transformed command on Linux: the original command line, after [--], under the
    helper with the policy and its directory; the network is marked as disabled unless
    the policy allows it; the transformation fails only when the helper is missing. *)
Theorem transform_linux_spec (request : SandboxTransformRequest Net) :
  tr_sandbox request = LinuxSeccomp ->
  match tr_linux_sandbox_exe request with
  | None => transform request = Err MissingLinuxSandboxExecutable
  | Some exe =>
      exists r options, transform request = Ok r /\
        er_command r = [exe; lit "--sandbox-policy-cwd"; tr_policy_cwd request;
                               lit "--sandbox-policy"; policy_json (tr_policy request)]
                       ++ options ++ (lit "--" :: cs_program (tr_spec request) :: cs_args (tr_spec request)) /\
        (lit "--" ∉ options) /\
        (lit "--allow-network-for-proxy" ∈ options <-> tr_enforce_managed_network request = true) /\
        er_sandbox r = LinuxSeccomp /\ er_cwd r = cs_cwd (tr_spec request) /\
        (has_full_network_access (tr_policy request) = false ->
           er_env r !! CODEX_SANDBOX_NETWORK_DISABLED_ENV_VAR = Some (lit "1")) /\
        (forall k, k <> CODEX_SANDBOX_NETWORK_DISABLED_ENV_VAR ->
           er_env r !! k = cs_env (tr_spec request) !! k)
  end.
Proof.
  intros Hs. unfold ExecSandbox.transform, sandboxed_command. rewrite Hs.
  destruct (tr_linux_sandbox_exe request) as [exe|]; [|done]. cbn [ok_or mbind outcome_bind].
  eexists _, ((if tr_use_bwrap request then [lit "--use-bwrap-sandbox"] else [])
              ++ (if tr_enforce_managed_network request then [lit "--allow-network-for-proxy"] else [])).
  split; [done|]. cbn [er_command er_sandbox er_cwd er_env]. split.
  { unfold create_linux_sandbox_command_args, allow_network_for_proxy. by rewrite <-!(assoc (++)). }
  split.
  { destruct (tr_use_bwrap request), (tr_enforce_managed_network request);
      apply (bool_decide_unpack _); vm_compute; exact I. }
  split.
  { destruct (tr_use_bwrap request), (tr_enforce_managed_network request);
      split; intros Hin; try done; try (apply (bool_decide_unpack _); vm_compute; exact I);
      apply (bool_decide_pack _) in Hin; vm_compute in Hin; destruct Hin. }
  split; [done|]. split; [done|]. split.
  - intros ->. by rewrite map_empty_union, lookup_insert_eq.
  - intros k Hk. rewrite map_empty_union. destruct (has_full_network_access _); [done|].
    by rewrite lookup_insert_ne.
Qed.
End transform_facts.

(** ** What is kept of the output *)

Lemma append_capped_take dst src max :
  length dst <= max -> append_capped dst src max = take max (dst ++ src).
Proof.
  intros Hlen. unfold append_capped. case_match; to_prop.
  - rewrite take_app_le by lia. by rewrite take_ge by lia.
  - rewrite take_app. rewrite (take_ge dst) by lia. f_equal.
    destruct (Nat.min_spec (max - length dst) (length src)) as [[? ->]|[? ->]]; [done|].
    by rewrite !take_ge by lia.
Qed.

(** The chunks before the end of the input. *)
Fixpoint before_end (chunks : list (list N)) : list (list N) :=
  match chunks with
  | [] => []
  | chunk :: chunks => if bool_decide (chunk = []) then [] else chunk :: before_end chunks
  end.

Lemma take_take_app {A} m (l1 l2 : list A) : take m (take m l1 ++ l2) = take m (l1 ++ l2).
Proof.
  destruct (decide (length l1 <= m)); [by rewrite (take_ge l1)|].
  rewrite !take_app_le by (rewrite ?length_take; lia). by rewrite take_take, Nat.min_id.
Qed.

Lemma read_capped_loop_spec listening chunks buf emitted :
  length buf <= EXEC_OUTPUT_MAX_BYTES -> length emitted <= MAX_EXEC_OUTPUT_DELTAS_PER_CALL ->
  read_capped_loop listening chunks buf emitted
  = (take EXEC_OUTPUT_MAX_BYTES (buf ++ concat (before_end chunks)),
     if listening then take MAX_EXEC_OUTPUT_DELTAS_PER_CALL (emitted ++ before_end chunks) else emitted).
Proof.
  revert buf emitted. induction chunks as [|c chunks IH]; intros buf emitted Hb He;
    cbn [read_capped_loop before_end].
  { cbn [concat]. rewrite !app_nil_r, !take_ge by done. by destruct listening. }
  case_bool_decide as Hc.
  { cbn [concat]. rewrite !app_nil_r, !take_ge by done. by destruct listening. }
  rewrite append_capped_take by done. rewrite IH.
  - cbn [concat]. rewrite (assoc (++)), take_take_app. f_equal. destruct listening; [|done]. cbn [andb].
    case_match; to_prop; [by rewrite <-(assoc (++))|].
    by rewrite !take_app_le by lia.
  - rewrite length_take. lia.
  - destruct listening; [|done]. cbn [andb]. case_match; to_prop; [|done].
    rewrite length_app. change (length [c]) with 1. lia.
Qed.

(** Of a stream the first bytes up to the limit are kept, and the first chunks are sent
    to the client. *)
Lemma read_capped_spec listening chunks :
  read_capped listening chunks
  = (mk_stream (take EXEC_OUTPUT_MAX_BYTES (concat (before_end chunks))) None,
     if listening then take MAX_EXEC_OUTPUT_DELTAS_PER_CALL (before_end chunks) else []).
Proof. unfold read_capped. rewrite read_capped_loop_spec by apply Nat.le_0_l. by rewrite !app_nil_l. Qed.

(** Both streams are kept whole when they fit together.  When they do not, the limit is
    used up to the last byte with the start of each: a third of it is reserved for the
    standard output, two thirds for the errors, and what one does not need the other
    gets. *)
Theorem aggregate_output_spec stdout stderr :
  let out := stream_text stdout in let err := stream_text stderr in
  let max := EXEC_OUTPUT_MAX_BYTES in
  exists a b, stream_text (aggregate_output stdout stderr) = take a out ++ take b err /\
    a <= length out /\ b <= length err /\ a + b = min (length out + length err) max /\
    min (length out) (max / 3) <= a /\ min (length err) (max - max / 3) <= b.
Proof.
  intros out err max. unfold aggregate_output. fold out err.
  change EXEC_OUTPUT_MAX_BYTES with max. clearbody max. set (third := max / 3).
  assert (third <= max) by (unfold third; apply Nat.Div0.div_le_upper_bound; lia).
  clearbody third. case_match; to_prop.
  - exists (length out), (length err). rewrite !take_ge by done. cbn [stream_text]. split; [done|]. lia.
  - eexists _, _. split; [reflexivity|]. lia.
Qed.

(** ** How an end is reported *)

Section ended_facts.
Variable to_lowercase : str -> str.
Variable bytes_to_string : list N -> str.

#[local] Abbreviation finalize := (finalize_exec_result to_lowercase bytes_to_string) (only parsing).

Lemma likely_denied_sandboxed sandbox o :
  is_likely_sandbox_denied to_lowercase sandbox o = true -> sandbox <> SandboxNone /\ exit_code o <> 0%Z.
Proof.
  unfold is_likely_sandbox_denied. destruct (_ || _) eqn:E; [done|].
  apply orb_false_iff in E as [Hs%bool_decide_eq_false Hc%Z.eqb_neq]. done.
Qed.

Lemma exit_status_code n : (0 <= n < 256)%Z ->
  status_signal (n * 256) = None /\ status_code (n * 256) = Some n.
Proof.
  intros Hn. unfold status_signal, status_code, wait_termsig.
  assert (Z.land (n * 256) 127 = 0)%Z as ->.
  { change 127%Z with (Z.ones 7). rewrite Z.land_ones by lia. change (2 ^ 7)%Z with 128%Z.
    replace (n * 256)%Z with (n * 2 * 128)%Z by lia. by rewrite Z.mod_mul. }
  split; [done|]. cbn. f_equal. rewrite Z.shiftr_div_pow2 by lia. change (2 ^ 8)%Z with 256%Z.
  rewrite Z.div_mul by lia. change 255%Z with (Z.ones 8). rewrite Z.land_ones by lia.
  apply Z.mod_small. change (2 ^ 8)%Z with 256%Z. lia.
Qed.

(** How the end of a command is reported.  One that expires is a timeout with code 124,
    whatever it wrote; one that is interrupted died of SIGKILL.  One that exits by
    itself is a success, whatever its code, unless it ran in a sandbox, failed, and
    its output names a sandbox restriction or its code is that of a forbidden system
    call: without a sandbox nothing is ever reported as denied. *)
Theorem finalize_spec sandbox e stdout stderr :
  match e with
  | Expired => exists o, finalize (Ok (collect_output e stdout stderr)) sandbox
                 = Err (CodexSandbox (SandboxTimeout o)) /\ exit_code o = EXEC_TIMEOUT_EXIT_CODE
  | Interrupted => finalize (Ok (collect_output e stdout stderr)) sandbox
                   = Err (CodexSandbox (SandboxSignal SIGKILL_CODE))
  | ChildExited status =>
      forall n, status = (n * 256)%Z -> (0 <= n < 256)%Z ->
      exists o, exit_code o = n /\
        ((finalize (Ok (collect_output e stdout stderr)) sandbox = Ok o /\
            (sandbox = SandboxNone \/ n = 0%Z \/ has_sandbox_keyword to_lowercase o = false)) \/
         (finalize (Ok (collect_output e stdout stderr)) sandbox
            = Err (CodexSandbox (SandboxDenied o None)) /\
            sandbox <> SandboxNone /\ n <> 0%Z /\
            (has_sandbox_keyword to_lowercase o = true \/
             sandbox = LinuxSeccomp /\ n = (EXIT_CODE_SIGNAL_BASE + SIGSYS_CODE)%Z)))
  end.
Proof.
  destruct e as [status| |]; [|by eexists|done]. intros n -> Hn.
  unfold finalize_exec_result. set (raw := collect_output _ _ _). cbn [mbind outcome_bind].
  assert (Hend : ended_by_timeout raw = Ok false).
  { unfold ended_by_timeout. cbn. by rewrite (proj1 (exit_status_code n Hn)). }
  rewrite Hend. cbn [mbind outcome_bind]. set (o := finalize_output _ raw false).
  assert (Hcode : exit_code o = n) by (cbn; by rewrite (proj2 (exit_status_code n Hn))).
  exists o. split; [exact Hcode|]. clearbody o. subst n.
  unfold is_likely_sandbox_denied. destruct (_ || _) eqn:E.
  { left. split; [done|]. apply orb_true_iff in E as [E%bool_decide_eq_true|E%Z.eqb_eq]; auto. }
  apply orb_false_iff in E as [Hs%bool_decide_eq_false Hc%Z.eqb_neq].
  destruct (has_sandbox_keyword to_lowercase o) eqn:Hk; [right; by eauto 10|].
  case_bool_decide; [left; auto|]. destruct (_ && _) eqn:E; [|left; auto].
  apply andb_true_iff in E as [E1%bool_decide_eq_true E2%Z.eqb_eq]. right. by eauto 10.
Qed.
End ended_facts.

(** ** Witnesses *)

Definition example_transform : SandboxTransformRequest () :=
  mk_transform (mk_command_spec (lit "ls") [lit "--"] (lit "/w") ∅ DefaultTimeout UseDefault None)
    (ReadOnly FullAccess) LinuxSeccomp false None (lit "/w") (Some (lit "/helper")) true Disabled.

Lemma transform_linux_spec_witness :
  exists r, transform Linux (fun _ => lit "P") (fun _ _ _ _ _ _ => []) example_transform = Ok r /\
    er_command r = lit <$> ["/helper"; "--sandbox-policy-cwd"; "/w"; "--sandbox-policy"; "P";
                            "--use-bwrap-sandbox"; "--"; "ls"; "--"]%string /\
    er_env r !! CODEX_SANDBOX_NETWORK_DISABLED_ENV_VAR = Some (lit "1").
Proof.
  pose proof (transform_linux_spec Linux (fun _ => lit "P") (fun _ _ _ _ _ _ => []) example_transform
                eq_refl) as H.
  destruct H as (r & options & Hr & _ & _ & _ & _ & _ & Hnet & _).
  exists r. split; [exact Hr|]. split; [|by apply Hnet]. vm_compute in Hr. by injection Hr as <-.
Defined.

(** Exit code 1 with "Permission denied" on the error stream. *)
Lemma finalize_spec_witness :
  exists o, exit_code o = 1%Z /\
    finalize_exec_result (fun s => s) (fun s => s)
      (Ok (collect_output (ChildExited (1 * 256)) None (Some (mk_stream (lit "permission denied") None))))
      LinuxSeccomp = Err (CodexSandbox (SandboxDenied o None)).
Proof.
  destruct (finalize_spec (fun s => s) (fun s => s) LinuxSeccomp (ChildExited (1 * 256)) None
              (Some (mk_stream (lit "permission denied") None)) 1%Z eq_refl ltac:(lia))
    as (o & Ho & [[H _]|[H _]]); exists o; split; try exact Ho; [|exact H].
  exfalso. vm_compute in H. discriminate H.
Defined.
