(* ===== verification/Orchestrator.v ===== *)
(** * The tool orchestrator (core/src/tools/orchestrator.rs, core/src/tools/sandboxing.rs)

    How any tool call is run: approval, choice of the sandbox, first attempt, and after
    a denial by the sandbox a second attempt without it.  The traits of the tools are
    type classes; a tool acts on the session, of which the network service and the
    store of approvals are modelled and everything else is a type [X]. *)

From stdpp Require Import gmap sets.
From S2P Require Import Prelude RustStd.
From S2P Require Import SandboxPolicy PatchSafety ExecApproval NetworkApproval ExecSandbox.

(** ** The session and the turn *)

Record Session (X : Type) : Type := mk_session {
  network_approval : NetworkApprovalService;
  tool_approvals : gmap str ReviewDecision;
  outside : X;
}.
Arguments mk_session {X} _ _ _.
Arguments network_approval {X} _.
Arguments tool_approvals {X} _.
Arguments outside {X} _.

Definition with_network {X : Type} (n : NetworkApprovalService) (s : Session X) : Session X :=
  mk_session n (tool_approvals s) (outside s).
Definition with_approvals {X : Type} (store : gmap str ReviewDecision) (s : Session X) : Session X :=
  mk_session (network_approval s) store (outside s).
Definition with_outside {X : Type} (x : X) (s : Session X) : Session X :=
  mk_session (network_approval s) (tool_approvals s) x.

(** What the orchestrator reads of a [TurnContext]; the last field is
    [requirements_toml().network.is_some()]. *)
Record TurnContext : Type := mk_turn {
  turn_sub_id : str;
  turn_sandbox_policy : SandboxPolicy;
  turn_windows_level : WindowsSandboxLevel;
  turn_cwd : str;
  turn_linux_sandbox_exe : option str;
  turn_use_bwrap : bool;
  turn_managed_network : bool;
}.

Record ToolCtx : Type := mk_tool_ctx {
  ctx_call_id : str;
  ctx_tool_name : str;
  ctx_network_attempt_id : option str;
}.

Record ApprovalCtx : Type := mk_approval_ctx {
  approval_call_id : str;
  retry_reason : option str;
  approval_network_context : option NetworkApprovalContext;
}.

Inductive ToolError : Type :=
  | Rejected (message : str)
  | Codex (e : CodexErr).

Inductive SandboxOverride : Type := NoOverride | BypassSandboxFirstAttempt.

(** [manager] has no state. *)
Record SandboxAttempt : Type := mk_sandbox_attempt {
  attempt_sandbox : SandboxType;
  attempt_policy : SandboxPolicy;
  attempt_managed_network : bool;
  attempt_sandbox_cwd : str;
  attempt_linux_exe : option str;
  attempt_use_bwrap : bool;
  attempt_windows_level : WindowsSandboxLevel;
}.

Definition env_for {Net} (os : target_os) (policy_json : SandboxPolicy -> str)
    (seatbelt_args : list str -> SandboxPolicy -> str -> bool -> option Net -> list str -> list str)
    (attempt : SandboxAttempt) (spec : CommandSpec) (network : option Net)
    : outcome SandboxTransformError (ExecRequest Net) :=
  transform os policy_json seatbelt_args
    (mk_transform spec (attempt_policy attempt) (attempt_sandbox attempt)
       (attempt_managed_network attempt) network (attempt_sandbox_cwd attempt)
       (attempt_linux_exe attempt) (attempt_use_bwrap attempt) (attempt_windows_level attempt)).

(** ** The traits *)

Class Sandboxable (T : Type) : Type := {
  sandbox_preference : T -> SandboxablePreference;
  escalate_on_failure : T -> bool;
}.

Class Approvable (X T Rq : Type) : Type := {
  sandbox_mode_for_first_attempt : T -> Rq -> SandboxOverride;
  bypasses_approval : T -> AskForApproval -> bool -> bool;
  exec_approval_requirement : T -> Rq -> option ExecApprovalRequirement;
  retry_approval_wanted : T -> AskForApproval -> bool;
  start_approval : T -> Rq -> TurnContext -> ApprovalCtx -> Session X -> Session X * ReviewDecision;
}.

Class ToolRuntime (X T Rq Out : Type) : Type := {
  network_approval_spec : T -> Rq -> ToolCtx -> option NetworkApprovalSpec;
  run_tool : T -> Rq -> SandboxAttempt -> TurnContext -> ToolCtx -> Session X ->
    Session X * outcome ToolError Out;
}.

(** ** What the orchestrator did

    The decisions it reports to telemetry, and (not part of the code) each attempt at
    the moment it starts. *)
Inductive ToolDecisionSource : Type := SourceUser | SourceConfig.

Inductive event : Type :=
  | Decided (d : ReviewDecision) (source : ToolDecisionSource)
  | Attempted (a : SandboxAttempt).

Record orch (X : Type) : Type := mk_orch {
  session : Session X;
  trace : list event;
}.
Arguments mk_orch {X} _ _.
Arguments session {X} _.
Arguments trace {X} _.

Record OrchestratorRunResult (Out : Type) : Type := mk_run_result {
  run_output : Out;
  run_deferred : option DeferredNetworkApproval;
}.
Arguments mk_run_result {Out} _ _.
Arguments run_output {Out} _.
Arguments run_deferred {Out} _.

Definition rejects (d : ReviewDecision) : bool :=
  match d with
  | Denied | Abort => true
  | Approved | ApprovedExecpolicyAmendment _ | ApprovedForSession => false
  end.

Definition build_denial_reason_from_output (output : ExecToolCallOutput) : str :=
  lit "command failed; retry without sandbox?".

(** ** One attempt *)

Section orchestrator.
Context {X T Rq Out : Type} `{!Sandboxable T} `{!Approvable X T Rq} `{!ToolRuntime X T Rq Out}.
Variable os : target_os.

Definition fail {A} (e : ToolError) : io (orch X) ToolError A := fun st => (st, Err e).
Definition log (e : event) : io (orch X) ToolError () := fun st =>
  (mk_orch (session st) (trace st ++ [e]), Ok ()).

(** What follows the tool's own run. *)
Definition finish_attempt (active : ActiveNetworkApproval) (run_result : outcome ToolError Out)
    (s : Session X) : Session X * (outcome ToolError Out * option DeferredNetworkApproval) :=
  match run_result with
  | Panic => (s, (Panic, None))
  | Timeout => (s, (Timeout, None))
  | _ =>
      match active_mode active with
      | Immediate =>
          let '(net, finalize_result) :=
            finish_immediate_network_approval active (network_approval s) in
          (with_network net s,
           (match finalize_result with Err message => Err (Rejected message) | _ => run_result end, None))
      | Deferred =>
          let deferred := into_deferred active in
          match run_result with
          | Ok _ => (s, (run_result, deferred))
          | _ => (with_network (finish_deferred_network_approval deferred (network_approval s)) s,
                  (run_result, None))
          end
      end
  end.

Definition run_attempt (tool : T) (req : Rq) (turn : TurnContext) (tool_ctx : ToolCtx)
    (attempt : SandboxAttempt) (has_managed_network_requirements : bool) (uuid : str)
    (s : Session X) : Session X * (outcome ToolError Out * option DeferredNetworkApproval) :=
  let '(net, active) :=
    begin_network_approval uuid (turn_sub_id turn) (ctx_call_id tool_ctx)
      has_managed_network_requirements (network_approval_spec tool req tool_ctx)
      (network_approval s) in
  let attempt_tool_ctx :=
    mk_tool_ctx (ctx_call_id tool_ctx) (ctx_tool_name tool_ctx) (active ≫= active_attempt_id) in
  let '(s, run_result) := run_tool tool req attempt turn attempt_tool_ctx (with_network net s) in
  match active with
  | None => (s, (run_result, None))
  | Some active => finish_attempt active run_result s
  end.

(** ** The whole call *)

Definition attempt_step (tool : T) (req : Rq) (turn : TurnContext) (tool_ctx : ToolCtx)
    (attempt : SandboxAttempt) (uuid : str)
    : io (orch X) ToolError (outcome ToolError Out * option DeferredNetworkApproval) := fun st =>
  let '(s, r) := run_attempt tool req turn tool_ctx attempt (turn_managed_network turn) uuid (session st) in
  (mk_orch s (trace st ++ [Attempted attempt]), Ok r).

(** Asking the user; a refusal ends the call. *)
Definition ask (tool : T) (req : Rq) (turn : TurnContext) (ctx : ApprovalCtx)
    : io (orch X) ToolError () := fun st =>
  let '(s, decision) := start_approval tool req turn ctx (session st) in
  (mk_orch s (trace st ++ [Decided decision SourceUser]),
   if rejects decision then Err (Rejected REJECTED_BY_USER) else Ok ()).

Definition requirement_for (tool : T) (req : Rq) (turn : TurnContext) (approval_policy : AskForApproval)
    : ExecApprovalRequirement :=
  default (default_exec_approval_requirement approval_policy (turn_sandbox_policy turn))
    (exec_approval_requirement tool req).

(** The value is [already_approved]. *)
Definition approval_step (tool : T) (req : Rq) (turn : TurnContext) (tool_ctx : ToolCtx)
    (approval_policy : AskForApproval) : io (orch X) ToolError bool :=
  match requirement_for tool req turn approval_policy with
  | Skip _ _ => _ ← log (Decided Approved SourceConfig); mret false
  | ForbiddenCall reason => fail (Rejected reason)
  | NeedsApproval reason _ =>
      _ ← ask tool req turn (mk_approval_ctx (ctx_call_id tool_ctx) reason None); mret true
  end.

Definition initial_sandbox (tool : T) (req : Rq) (turn : TurnContext) : SandboxType :=
  match sandbox_mode_for_first_attempt tool req with
  | BypassSandboxFirstAttempt => SandboxNone
  | NoOverride =>
      select_initial os (turn_sandbox_policy turn) (sandbox_preference tool) (turn_windows_level turn)
        (turn_managed_network turn)
  end.

Definition initial_attempt (tool : T) (req : Rq) (turn : TurnContext) : SandboxAttempt :=
  mk_sandbox_attempt (initial_sandbox tool req turn) (turn_sandbox_policy turn)
    (turn_managed_network turn) (turn_cwd turn) (turn_linux_sandbox_exe turn) (turn_use_bwrap turn)
    (turn_windows_level turn).

Definition escalated_attempt (turn : TurnContext) : SandboxAttempt :=
  mk_sandbox_attempt SandboxNone (turn_sandbox_policy turn) (turn_managed_network turn)
    (turn_cwd turn) None (turn_use_bwrap turn) (turn_windows_level turn).

Definition denied (output : ExecToolCallOutput) (npd : option NetworkPolicyDecisionPayload) : ToolError :=
  Codex (CodexSandbox (SandboxDenied output npd)).

(** [matches!(requirement, NeedsApproval { .. })] under [OnRequest]. *)
Definition allow_on_request_network_prompt (turn : TurnContext) (approval_policy : AskForApproval)
    (network_approval_context : option NetworkApprovalContext) : bool :=
  match approval_policy with OnRequest => true | _ => false end
  && bool_decide (is_Some network_approval_context)
  && match default_exec_approval_requirement approval_policy (turn_sandbox_policy turn) with
     | NeedsApproval _ _ => true | _ => false end.

Definition denial_context (turn : TurnContext) (npd : option NetworkPolicyDecisionPayload)
    : option NetworkApprovalContext :=
  if turn_managed_network turn then npd ≫= network_approval_context_from_payload else None.

Definition retry_reason_for (output : ExecToolCallOutput) (context : option NetworkApprovalContext) : str :=
  match context with
  | Some context => network_blocked_reason (context_host context)
  | None => build_denial_reason_from_output output
  end.

(** The guards between a denial and the second attempt. *)
Definition may_retry (tool : T) (turn : TurnContext) (approval_policy : AskForApproval)
    (npd : option NetworkPolicyDecisionPayload) : bool :=
  let context := denial_context turn npd in
  if bool_decide (is_Some npd) && negb (bool_decide (is_Some context)) then false
  else if negb (escalate_on_failure tool) then false
  else if negb (retry_approval_wanted tool approval_policy) then
    allow_on_request_network_prompt turn approval_policy context
  else true.

Definition retry_step (tool : T) (req : Rq) (turn : TurnContext) (tool_ctx : ToolCtx)
    (approval_policy : AskForApproval) (already_approved : bool) (uuid : str)
    (output : ExecToolCallOutput) (npd : option NetworkPolicyDecisionPayload)
    : io (orch X) ToolError (OrchestratorRunResult Out) :=
  let context := denial_context turn npd in
  if negb (may_retry tool turn approval_policy npd) then fail (denied output npd)
  else
    let bypass_retry_approval :=
      bypasses_approval tool approval_policy already_approved && negb (bool_decide (is_Some context)) in
    _ ← (if bypass_retry_approval then mret ()
         else ask tool req turn
                (mk_approval_ctx (ctx_call_id tool_ctx) (Some (retry_reason_for output context)) context));
    res ← attempt_step tool req turn tool_ctx (escalated_attempt turn) uuid;
    output ← io_of res.1;
    mret (mk_run_result output res.2).

(** [first_uuid] and [retry_uuid] are the [Uuid::new_v4()] of the two attempts. *)
Definition run (tool : T) (req : Rq) (turn : TurnContext) (tool_ctx : ToolCtx)
    (approval_policy : AskForApproval) (first_uuid retry_uuid : str)
    : io (orch X) ToolError (OrchestratorRunResult Out) :=
  already_approved ← approval_step tool req turn tool_ctx approval_policy;
  first ← attempt_step tool req turn tool_ctx (initial_attempt tool req turn) first_uuid;
  match first.1 with
  | Ok out => mret (mk_run_result out first.2)
  | Err (Codex (CodexSandbox (SandboxDenied output npd))) =>
      retry_step tool req turn tool_ctx approval_policy already_approved retry_uuid output npd
  | Err err => fail err
  | Panic => io_of Panic
  | Timeout => io_of Timeout
  end.
End orchestrator.

(** ** What the tools promise

    Every tool leaves [should_bypass_approval] as it is, and none wants a retry when
    the user must never be asked. *)
Class ApprovalLaws (X T Rq : Type) `{!Approvable X T Rq} : Prop := {
  bypass_consented (tool : T) policy already :
    bypasses_approval tool policy already = true -> already = true \/ policy = Never;
  never_retries (tool : T) : retry_approval_wanted tool Never = false;
  approval_keeps_attempts (tool : T) req turn ctx (s : Session X) :
    attempts (network_approval (start_approval tool req turn ctx s).1) = attempts (network_approval s);
}.

(** A tool's own run starts and ends no attempt of the network service. *)
Class ToolLaws (X T Rq Out : Type) `{!ToolRuntime X T Rq Out} : Prop := {
  run_keeps_attempts (tool : T) (req : Rq) attempt turn ctx (s : Session X) :
    attempts (network_approval (run_tool tool req attempt turn ctx s).1) = attempts (network_approval s);
}.

(** ** The protocol *)

Section protocol.
Context {X T Rq Out : Type} `{!Sandboxable T} `{!Approvable X T Rq} `{!ToolRuntime X T Rq Out}.
Context `{!ApprovalLaws X T Rq}.
Variable os : target_os.
Variables (tool : T) (req : Rq) (turn : TurnContext) (tool_ctx : ToolCtx) (approval_policy : AskForApproval).

#[local] Abbreviation initial := (initial_attempt os tool req turn) (only parsing).
#[local] Abbreviation escalated := (escalated_attempt turn) (only parsing).
#[local] Abbreviation requirement := (requirement_for tool req turn approval_policy) (only parsing).

(** How a call gets past its approval: the policy skips it, or the user consents. *)
Inductive consent : event -> Prop :=
  | consent_config bypass amendment :
      requirement = Skip bypass amendment -> consent (Decided Approved SourceConfig)
  | consent_user d reason amendment :
      requirement = NeedsApproval reason amendment -> rejects d = false -> consent (Decided d SourceUser).

(** The orders in which decisions and attempts may come, and the result of each. *)
Inductive protocol : list event -> outcome ToolError (OrchestratorRunResult Out) -> Prop :=
  | protocol_forbidden reason :
      requirement = ForbiddenCall reason -> protocol [] (Err (Rejected reason))
  | protocol_refused d reason amendment :
      requirement = NeedsApproval reason amendment -> rejects d = true ->
      protocol [Decided d SourceUser] (Err (Rejected REJECTED_BY_USER))
  | protocol_first e r :
      consent e -> (forall output npd, r <> Err (denied output npd)) ->
      protocol [e; Attempted initial] r
  | protocol_denied e output npd :
      consent e -> may_retry tool turn approval_policy npd = false ->
      protocol [e; Attempted initial] (Err (denied output npd))
  | protocol_retry_refused e d npd :
      consent e -> may_retry tool turn approval_policy npd = true -> rejects d = true ->
      protocol [e; Attempted initial; Decided d SourceUser] (Err (Rejected REJECTED_BY_USER))
  | protocol_retry e d npd r :
      consent e -> may_retry tool turn approval_policy npd = true -> rejects d = false ->
      protocol [e; Attempted initial; Decided d SourceUser; Attempted escalated] r
  | protocol_retry_silent d npd r :
      consent (Decided d SourceUser) -> may_retry tool turn approval_policy npd = true ->
      protocol [Decided d SourceUser; Attempted initial; Attempted escalated] r.

Lemma ask_trace ctx (st : orch X) :
  exists s d, ask tool req turn ctx st
    = (mk_orch s (trace st ++ [Decided d SourceUser]),
       if rejects d then Err (Rejected REJECTED_BY_USER) else Ok ()).
Proof. unfold ask. destruct (start_approval _ _ _ _ _) as [s d]. eauto. Qed.

Lemma attempt_step_trace attempt uuid (st : orch X) :
  exists s (r : outcome ToolError Out) deferred, attempt_step tool req turn tool_ctx attempt uuid st
    = (mk_orch s (trace st ++ [Attempted attempt]), Ok (r, deferred)).
Proof. unfold attempt_step. destruct (run_attempt _ _ _ _ _ _ _ _) as [s [r d]]. eauto. Qed.

(** The three ways the approval ends. *)
Lemma approval_step_trace (st : orch X) :
  (exists reason, requirement = ForbiddenCall reason /\
    approval_step tool req turn tool_ctx approval_policy st = (st, Err (Rejected reason))) \/
  exists s d source, (approval_step tool req turn tool_ctx approval_policy st).1
      = mk_orch s (trace st ++ [Decided d source]) /\
    ((rejects d = true /\ source = SourceUser /\ (exists reason a, requirement = NeedsApproval reason a) /\
        (approval_step tool req turn tool_ctx approval_policy st).2 = Err (Rejected REJECTED_BY_USER)) \/
     (consent (Decided d source) /\ exists already,
        (approval_step tool req turn tool_ctx approval_policy st).2 = Ok already /\
        (already = true -> source = SourceUser))).
Proof.
  unfold approval_step. destruct requirement as [bypass a|reason a|reason] eqn:Hr; [right|right|left; eauto].
  - exists (session st), Approved, SourceConfig. split; [done|]. right.
    split; [by econstructor|]. by exists false.
  - destruct (ask_trace (mk_approval_ctx (ctx_call_id tool_ctx) reason None) st) as (s & d & Ha).
    exists s, d, SourceUser. unfold mbind, io_bind, mret, io_ret. rewrite Ha.
    destruct (rejects d) eqn:Hd; [split; [done|]; left; split_and!; by eauto|]. split; [done|]. right.
    split; [by eapply consent_user|]. by exists true.
Qed.

(** The second attempt, given that the first was denied. *)
Lemma retry_attempt_trace uuid (st : orch X) tr :
  (forall r, protocol (tr ++ [Attempted escalated]) r) ->
  let run := (res ← attempt_step tool req turn tool_ctx escalated uuid;
              output ← io_of res.1; mret (mk_run_result output res.2)) in
  forall base, trace st = base ++ tr ->
  exists evs, trace (run st).1 = base ++ evs /\ protocol evs (run st).2.
Proof.
  intros Hp run base Hst. unfold run.
  destruct (attempt_step_trace escalated uuid st) as (s & r & deferred & Ha).
  rewrite (io_bind_run _ _ _ _ _ Ha). exists (tr ++ [Attempted escalated]). split; [|apply Hp].
  destruct r; cbn; by rewrite Hst, <-(assoc (++)).
Qed.

Lemma retry_step_trace already uuid output npd e (st : orch X) base :
  consent e -> trace st = base ++ [e; Attempted initial] ->
  (already = true -> exists d, e = Decided d SourceUser) ->
  let run := retry_step tool req turn tool_ctx approval_policy already uuid output npd in
  exists evs, trace (run st).1 = base ++ evs /\ protocol evs (run st).2.
Proof.
  intros He Htr Hal run. unfold run, retry_step. destruct (may_retry _ _ _ _) eqn:Hm; cbn [negb].
  2:{ exists [e; Attempted initial]. split; [done|]. by apply protocol_denied. }
  destruct (_ && _) eqn:Hb.
  - apply andb_true_iff in Hb as [[-> | ->]%bypass_consented _].
    + destruct (Hal eq_refl) as [d ->]. rewrite (io_bind_run _ _ _ st ()) by done.
      eapply retry_attempt_trace; [|exact Htr]. intros r. by eapply protocol_retry_silent.
    + exfalso. unfold may_retry in Hm. rewrite never_retries in Hm.
      repeat case_match; try discriminate Hm. done.
  - set (ctx := mk_approval_ctx _ _ _). destruct (ask_trace ctx st) as (s & d & Hask).
    destruct (rejects d) eqn:Hd.
    { rewrite (io_bind_fail _ _ _ _ _ Hask). exists [e; Attempted initial; Decided d SourceUser].
      split; [cbn; by rewrite Htr, <-(assoc (++))|]. by eapply protocol_retry_refused. }
    rewrite (io_bind_run _ _ _ _ _ Hask).
    eapply (retry_attempt_trace _ _ [e; Attempted initial; Decided d SourceUser]).
    + intros r. by eapply protocol_retry.
    + cbn. by rewrite Htr, <-(assoc (++)).
Qed.

(** Every call follows the protocol: what is decided and attempted is one of its
    sequences, and the result is the one that goes with it. *)
Lemma run_protocol first_uuid retry_uuid (st : orch X) :
  let r := run os tool req turn tool_ctx approval_policy first_uuid retry_uuid st in
  exists evs, trace r.1 = trace st ++ evs /\ protocol evs r.2.
Proof.
  intros r. unfold r, run.
  destruct (approval_step_trace st) as [(reason & Hr & Ha)|(s & d & source & Hst & Ha)].
  { rewrite (io_bind_fail _ _ _ _ _ Ha). exists []. rewrite app_nil_r. split; [done|]. by constructor. }
  destruct (approval_step _ _ _ _ _ st) as [st1 r1] eqn:Hstep. cbn [fst snd] in Hst, Ha. subst st1.
  destruct Ha as [(Hd & -> & (reason & am & Hreq) & ->)|(Hc & already & -> & Hal)].
  { rewrite (io_bind_fail _ _ _ _ _ Hstep). eexists. split; [reflexivity|]. by eapply protocol_refused. }
  rewrite (io_bind_run _ _ _ _ _ Hstep). set (st1 := mk_orch s _).
  destruct (attempt_step_trace initial first_uuid st1) as (s2 & r2 & deferred & Hfirst).
  rewrite (io_bind_run _ _ _ _ _ Hfirst). cbn [fst snd]. set (st2 := mk_orch s2 _).
  assert (Htr : trace st2 = trace st ++ [Decided d source; Attempted initial]).
  { unfold st2, st1. cbn [trace]. by rewrite <-(assoc (++)). }
  assert (Hdone : forall r, (forall output npd, r <> Err (denied output npd)) ->
    exists evs, trace st2 = trace st ++ evs /\ protocol evs r).
  { intros r0 Hr0. eexists. split; [exact Htr|]. by apply protocol_first. }
  destruct r2 as [out|[m|[[output npd|o|sg|]| | | |]]| |]; try (by apply Hdone).
  apply (retry_step_trace already retry_uuid output npd (Decided d source)); [done|done|].
  intros Ht. rewrite (Hal Ht). by eauto.
Qed.


Definition is_attempt (e : event) : bool := match e with Attempted _ => true | _ => false end.

(** Every attempt of a call is the first one, or follows an approval by the user. *)
Lemma protocol_attempts evs r pre a post :
  protocol evs r -> evs = pre ++ Attempted a :: post ->
  a = initial \/ (a = escalated /\ exists d npd, Decided d SourceUser ∈ pre /\ rejects d = false /\
                    may_retry tool turn approval_policy npd = true).
Proof.
  intros Hp.
  assert (Hc : forall d, consent (Decided d SourceUser) -> rejects d = false).
  { intros d Hd. by inversion Hd. }
  destruct Hp; intros Hev; repeat (destruct pre as [|? pre]; simplify_list_eq);
    try (by left); try (by match goal with H : consent (Attempted _) |- _ => inversion H end);
    right; (split; [done|]); eexists _, _; split_and!; try done; try (by apply Hc); set_solver.
Qed.

(** Attempts without a sandbox. *)
Lemma protocol_unsandboxed evs r pre a post :
  has_full_disk_write_access (turn_sandbox_policy turn) = false ->
  platform_sandbox_or_none os (turn_windows_level turn) <> SandboxNone ->
  sandbox_preference tool = PrefAuto -> sandbox_mode_for_first_attempt tool req = NoOverride ->
  protocol evs r -> evs = pre ++ Attempted a :: post -> attempt_sandbox a = SandboxNone ->
  exists d, Decided d SourceUser ∈ pre /\ rejects d = false.
Proof.
  intros Hpolicy Hplatform Hpref Hmode Hp Hev Hnone.
  destruct (protocol_attempts _ _ _ _ _ Hp Hev) as [->|(-> & d & npd & ? & ? & _)]; [|eauto].
  exfalso. apply Hplatform. rewrite <-Hnone. unfold initial_attempt, initial_sandbox. cbn.
  by rewrite Hmode, Hpref, restricted_policy_sandboxed.
Qed.

(** C2. No command leaves the sandbox by itself: where the policy restricts writes, the
    platform has a sandbox and the call does not ask to bypass it, every attempt
    without a sandbox comes after the user approved the call or its retry. *)
Theorem unsandboxed_needs_consent first_uuid retry_uuid (st : orch X) evs pre a post :
  has_full_disk_write_access (turn_sandbox_policy turn) = false ->
  platform_sandbox_or_none os (turn_windows_level turn) <> SandboxNone ->
  sandbox_preference tool = PrefAuto -> sandbox_mode_for_first_attempt tool req = NoOverride ->
  trace (run os tool req turn tool_ctx approval_policy first_uuid retry_uuid st).1 = trace st ++ evs ->
  evs = pre ++ Attempted a :: post -> attempt_sandbox a = SandboxNone ->
  exists d, Decided d SourceUser ∈ pre /\ rejects d = false.
Proof.
  intros Hpolicy Hplatform Hpref Hmode Htr.
  destruct (run_protocol first_uuid retry_uuid st) as (evs' & Htr' & Hp).
  rewrite Htr in Htr'. apply app_inv_head in Htr' as <-. by eapply protocol_unsandboxed.
Qed.

(** Without questions there is no second attempt. *)
Lemma never_no_retry npd : approval_policy = Never -> may_retry tool turn approval_policy npd = false.
Proof.
  intros ->. unfold may_retry. rewrite never_retries. by repeat case_match.
Qed.

(** Under the policy that never asks, and when the call's requirement does not ask
    either, a call makes at most one attempt, the one under the chosen sandbox, and
    the user decides nothing. *)
Theorem never_policy_contained first_uuid retry_uuid (st : orch X) :
  approval_policy = Never -> (forall reason a, requirement <> NeedsApproval reason a) ->
  let r := run os tool req turn tool_ctx approval_policy first_uuid retry_uuid st in
  (trace r.1 = trace st /\ exists reason, requirement = ForbiddenCall reason /\ r.2 = Err (Rejected reason)) \/
  trace r.1 = trace st ++ [Decided Approved SourceConfig; Attempted initial].
Proof.
  intros Hnever Hreq r. destruct (run_protocol first_uuid retry_uuid st) as (evs & Htr & Hp).
  assert (Hc : forall e, consent e -> e = Decided Approved SourceConfig).
  { intros e [|d reason a Hr]; [done|]. by apply Hreq in Hr. }
  fold r in Htr, Hp. rewrite Htr. assert (Hno := fun npd => never_no_retry npd Hnever).
  destruct Hp as [reason Hr|d reason a Hr _|e r' He|e output npd He|e d npd He Hm|e d npd r' He Hm|d npd r' He Hm];
    try (by rewrite Hno in Hm); try (by apply Hreq in Hr); try (right; by rewrite (Hc _ He)).
  left. rewrite app_nil_r. eauto.
Qed.
End protocol.

(** ** The network attempts of a call *)

Section network.
Context {X T Rq Out : Type} `{!Sandboxable T} `{!Approvable X T Rq} `{!ToolRuntime X T Rq Out}.
Context `{!ToolLaws X T Rq Out}.

(** The ids the service knows after a call, [deferred] being the one it leaves open. *)
Definition attempts_after (before : gmap str nat) (deferred : option DeferredNetworkApproval)
    (s : Session X) : Prop :=
  match deferred with
  | None => attempts (network_approval s) = before
  | Some id => exists c, attempts (network_approval s) = <[id := c]> before
  end.

Lemma finish_attempt_balanced mode uuid (r : outcome ToolError Out) (s : Session X) before c :
  before !! uuid = None -> attempts (network_approval s) = <[uuid := c]> before ->
  let res := finish_attempt (mk_active (Some uuid) mode) r s in
  attempts_after before res.2.2 res.1 \/ res.2.1 = Panic \/ res.2.1 = Timeout.
Proof.
  intros Hno Hs. unfold finish_attempt, finish_immediate_network_approval, take_outcome. cbn [active_attempt_id].
  rewrite Hs, lookup_insert_eq.
  destruct r, mode; cbn; rewrite ?Hs, ?delete_insert_id by done; eauto.
Qed.

(** An attempt leaves its id registered only when it succeeds in deferred mode. *)
Lemma run_attempt_balanced tool req turn tool_ctx attempt managed uuid (s : Session X) :
  attempts (network_approval s) !! uuid = None ->
  let res := run_attempt tool req turn tool_ctx attempt managed uuid s in
  attempts_after (attempts (network_approval s)) res.2.2 res.1 \/
    res.2.1 = Panic \/ res.2.1 = Timeout.
Proof.
  intros Hno. unfold run_attempt, begin_network_approval.
  destruct (network_approval_spec tool req tool_ctx) as [spec|]; [destruct (_ || _)|];
    match goal with |- context[run_tool tool req attempt turn ?ctx ?s0] =>
      pose proof (run_keeps_attempts tool req attempt turn ctx s0) as Hrun;
      destruct (run_tool tool req attempt turn ctx s0) as [s1 r]; cbn [fst] in Hrun end;
    try (left; exact Hrun).
  eapply finish_attempt_balanced; [done|exact Hrun].
Qed.

Lemma run_attempt_deferred tool req turn tool_ctx attempt managed uuid (s : Session X) id :
  (run_attempt tool req turn tool_ctx attempt managed uuid s).2.2 = Some id ->
  exists out, (run_attempt tool req turn tool_ctx attempt managed uuid s).2.1 = Ok out.
Proof.
  unfold run_attempt. destruct (begin_network_approval _ _ _ _ _ _) as [net [active|]];
    destruct (run_tool _ _ _ _ _ _) as [s1 r]; [|done].
  unfold finish_attempt, finish_immediate_network_approval, into_deferred.
  destruct r, active as [[uid|] []]; cbn; try done; try (destruct (take_outcome _ _)); cbn; try done; by eauto.
Qed.

(** The result of a step of the call: the attempts of the service are those at the
    start and the one left open; a panic says nothing. *)
Definition balanced (before : gmap str nat) (r : orch X * outcome ToolError (OrchestratorRunResult Out)) : Prop :=
  match r.2 with
  | Ok res => attempts_after before (run_deferred res) (session r.1)
  | Err _ => attempts (network_approval (session r.1)) = before
  | _ => True
  end.

Context `{!ApprovalLaws X T Rq}.

Lemma ask_keeps_attempts tool req turn ctx (st : orch X) :
  attempts (network_approval (session (ask tool req turn ctx st).1))
  = attempts (network_approval (session st)).
Proof.
  unfold ask. pose proof (approval_keeps_attempts tool req turn ctx (session st)) as H.
  by destruct (start_approval _ _ _ _ _).
Qed.

Lemma attempt_step_balanced tool req turn tool_ctx attempt uuid (st : orch X) st' r deferred :
  attempts (network_approval (session st)) !! uuid = None ->
  attempt_step tool req turn tool_ctx attempt uuid st = (st', Ok (r, deferred)) ->
  match r with
  | Ok _ => attempts_after (attempts (network_approval (session st))) deferred (session st')
  | Err _ => attempts (network_approval (session st')) = attempts (network_approval (session st))
  | _ => True
  end.
Proof.
  intros Hno. unfold attempt_step.
  pose proof (run_attempt_balanced tool req turn tool_ctx attempt (turn_managed_network turn) uuid _ Hno) as Hb.
  pose proof (fun id => run_attempt_deferred tool req turn tool_ctx attempt (turn_managed_network turn) uuid
                (session st) id) as Hd.
  destruct (run_attempt _ _ _ _ _ _ _ _) as [s [r' d]]. cbn [fst snd] in Hb, Hd. intros [= <- <- <-].
  cbn [session]. destruct r' as [out|e| |]; try done; destruct Hb as [Hb|[Hb|Hb]]; try done.
  destruct d as [id|]; [|done]. by destruct (Hd id eq_refl).
Qed.

Lemma retry_step_balanced tool req turn tool_ctx policy already uuid output npd (st : orch X) :
  attempts (network_approval (session st)) !! uuid = None ->
  balanced (attempts (network_approval (session st)))
    (retry_step tool req turn tool_ctx policy already uuid output npd st).
Proof.
  intros Hno. unfold retry_step. destruct (negb _); [done|].
  assert (Hrun : forall st1 : orch X,
    attempts (network_approval (session st1)) = attempts (network_approval (session st)) ->
    balanced (attempts (network_approval (session st)))
      ((res ← attempt_step tool req turn tool_ctx (escalated_attempt turn) uuid;
        output ← io_of res.1; mret (mk_run_result output res.2)) st1)).
  { intros st1 H1. rewrite <-H1 in Hno |- *. destruct (attempt_step_trace tool req turn tool_ctx
      (escalated_attempt turn) uuid st1) as (s & r & deferred & Ha).
    rewrite (io_bind_run _ _ _ _ _ Ha). apply attempt_step_balanced in Ha; [|done].
    unfold balanced. by destruct r. }
  destruct (_ && _); [by rewrite (io_bind_run _ _ _ st ()); [apply Hrun|]|].
  set (ctx := mk_approval_ctx _ _ _). pose proof (ask_keeps_attempts tool req turn ctx st) as Hk.
  destruct (ask tool req turn ctx st) as [st1 [[]|e| |]] eqn:Ha.
  - rewrite (io_bind_run _ _ _ _ _ Ha). by apply Hrun.
  - by rewrite (io_bind_fail _ _ _ _ _ Ha).
  - unfold mbind, io_bind. by rewrite Ha.
  - unfold mbind, io_bind. by rewrite Ha.
Qed.

Lemma approval_step_keeps tool req turn tool_ctx policy (st : orch X) :
  attempts (network_approval (session (approval_step tool req turn tool_ctx policy st).1))
  = attempts (network_approval (session st)).
Proof.
  unfold approval_step. case_match; [done| |done].
  set (ctx := mk_approval_ctx _ _ _). pose proof (ask_keeps_attempts tool req turn ctx st) as Hk.
  unfold mbind, io_bind. by destruct (ask tool req turn ctx st) as [st1 [[]|e| |]].
Qed.

(** However a call ends, the network attempts it registered are unregistered: the
    service is left with the attempts it had, and with the one more that a successful
    call returns to be finished by its caller. *)
Theorem network_attempts_balanced os tool req turn tool_ctx policy first_uuid retry_uuid (st : orch X) :
  attempts (network_approval (session st)) !! first_uuid = None ->
  attempts (network_approval (session st)) !! retry_uuid = None ->
  balanced (attempts (network_approval (session st)))
    (run os tool req turn tool_ctx policy first_uuid retry_uuid st).
Proof.
  intros Hfirst Hretry. unfold run. pose proof (approval_step_keeps tool req turn tool_ctx policy st) as Hk.
  destruct (approval_step _ _ _ _ _ st) as [st1 [already|e| |]] eqn:Ha; cbn [fst] in Hk;
    [rewrite (io_bind_run _ _ _ _ _ Ha)|by rewrite (io_bind_fail _ _ _ _ _ Ha)
    |unfold mbind, io_bind; by rewrite Ha..].
  rewrite <-Hk in Hfirst, Hretry |- *.
  destruct (attempt_step_trace tool req turn tool_ctx (initial_attempt os tool req turn) first_uuid st1)
    as (s & r & deferred & Hs).
  rewrite (io_bind_run _ _ _ _ _ Hs). cbn [fst snd]. apply attempt_step_balanced in Hs; [|done].
  destruct r as [out|[m|[[output npd|o|sg|]| | | |]]| |]; try done.
  rewrite <-Hs in Hretry |- *. by apply retry_step_balanced.
Qed.
End network.

(** ** A refusal of the network *)

Section refusal.
Context {X T Rq Out : Type} `{!ToolRuntime X T Rq Out} `{!ToolLaws X T Rq Out}.

(** A host the user refuses while the tool runs rejects the attempt, whatever the
    tool itself reports, and the attempt is unregistered. *)
Theorem network_refusal_rejects (tool : T) (req : Rq) turn tool_ctx attempt uuid spec (s s' : Session X)
    (r : outcome ToolError Out) :
  network_approval_spec tool req tool_ctx = Some spec ->
  spec_has_network spec = true -> spec_mode spec = Immediate ->
  run_tool tool req attempt turn (mk_tool_ctx (ctx_call_id tool_ctx) (ctx_tool_name tool_ctx) (Some uuid))
    (with_network (register_attempt uuid (turn_sub_id turn) (ctx_call_id tool_ctx) (spec_command spec)
                     (spec_cwd spec) (network_approval s)) s) = (s', r) ->
  (forall c, attempts (network_approval s') !! uuid = Some c ->
     outcome_at c (network_approval s') = Some DeniedByUser) ->
  (exists x, r = Ok x) \/ (exists e, r = Err e) ->
  let res := run_attempt tool req turn tool_ctx attempt true uuid s in
  res.2 = (Err (Rejected REJECTED_BY_USER), None) /\
  attempts (network_approval res.1) !! uuid = None.
Proof.
  intros Hspec Hnet Hmode Hrun Hdenied Hr. unfold run_attempt, begin_network_approval.
  rewrite Hspec, Hnet. cbn [negb orb active_attempt_id mbind option_bind]. rewrite Hrun.
  match type of Hrun with run_tool _ _ _ _ ?ctx ?s0 = _ =>
    pose proof (run_keeps_attempts tool req attempt turn ctx s0) as Hk end.
  rewrite Hrun in Hk. cbn [fst network_approval with_network register_attempt attempts] in Hk.
  set (c := fresh _) in Hk. assert (Hc : attempts (network_approval s') !! uuid = Some c).
  { by rewrite Hk, lookup_insert_eq. }
  unfold finish_attempt. cbn [active_mode]. rewrite Hmode.
  unfold finish_immediate_network_approval, take_outcome. cbn [active_attempt_id].
  rewrite Hc, (Hdenied c Hc). cbn. destruct Hr as [[x ->]|[e ->]]; cbn; by rewrite lookup_delete_eq.
Qed.
End refusal.

(** ** Witnesses: a tool that the sandbox denies and the user allows *)

Definition empty_output (code : Z) : ExecToolCallOutput :=
  mk_exec_output code (mk_stream [] None) (mk_stream [] None) (mk_stream [] None) false.

(** The outside holds what the user answers next. *)
#[local] Instance example_sandboxable : Sandboxable () :=
  {| sandbox_preference _ := PrefAuto; escalate_on_failure _ := true |}.
#[local] Instance example_approvable : Approvable ReviewDecision () () :=
  {| sandbox_mode_for_first_attempt _ _ := NoOverride;
     bypasses_approval _ := should_bypass_approval;
     exec_approval_requirement _ _ := None;
     retry_approval_wanted _ := wants_no_sandbox_approval;
     start_approval _ _ _ _ s := (s, outside s) |}.
(** While it runs, the user refuses the network. *)
#[local] Instance example_runtime : ToolRuntime ReviewDecision () () () :=
  {| network_approval_spec _ _ _ := Some (NetworkApproval.mk_spec [lit "curl"] (lit "/w") true Immediate);
     run_tool _ _ attempt _ ctx s :=
       let s := match ctx_network_attempt_id ctx ≫= fun id => attempts (network_approval s) !! id with
                | Some c => with_network (update_cell (with_outcome (Some DeniedByUser)) c (network_approval s)) s
                | None => s
                end in
       (s, match attempt_sandbox attempt with
           | SandboxNone => Ok ()
           | _ => Err (denied (empty_output 1) None)
           end) |}.

Lemma should_bypass_consented policy already :
  should_bypass_approval policy already = true -> already = true \/ policy = Never.
Proof. destruct already, policy; cbn; auto. Qed.

#[local] Instance example_approval_laws : ApprovalLaws ReviewDecision () ().
Proof. split; [intros []; apply should_bypass_consented|done|done]. Qed.
#[local] Instance example_tool_laws : ToolLaws ReviewDecision () () ().
Proof.
  split. intros [] [] attempt turn ctx s. cbn. by destruct (ctx_network_attempt_id ctx ≫= _).
Qed.

Definition example_turn (managed : bool) : TurnContext :=
  mk_turn (lit "t") (ReadOnly FullAccess) Disabled (lit "/w") (Some (lit "/exe")) false managed.
Definition example_ctx : ToolCtx := mk_tool_ctx (lit "c") (lit "shell") None.
Definition example_start (answer : ReviewDecision) : orch ReviewDecision :=
  mk_orch (mk_session default_service ∅ answer) [].
Definition example_run (managed : bool) policy answer :=
  run Linux () () (example_turn managed) example_ctx policy (lit "u1") (lit "u2") (example_start answer).

Lemma unsandboxed_needs_consent_witness :
  trace (example_run false OnFailure Approved).1
  = [] ++ [Decided Approved SourceConfig; Attempted (initial_attempt Linux () () (example_turn false));
           Decided Approved SourceUser; Attempted (escalated_attempt (example_turn false))] /\
  exists d, Decided d SourceUser ∈ [Decided Approved SourceConfig;
      Attempted (initial_attempt Linux () () (example_turn false)); Decided Approved SourceUser] /\
    rejects d = false.
Proof.
  split; [vm_compute; reflexivity|].
  apply (unsandboxed_needs_consent Linux () () (example_turn false) example_ctx OnFailure (lit "u1") (lit "u2")
           (example_start Approved)
           [Decided Approved SourceConfig; Attempted (initial_attempt Linux () () (example_turn false));
            Decided Approved SourceUser; Attempted (escalated_attempt (example_turn false))]
           _ (escalated_attempt (example_turn false)) []); try reflexivity.
  discriminate.
Defined.


Lemma never_policy_contained_witness :
  trace (example_run false Never Approved).1
  = [] ++ [Decided Approved SourceConfig; Attempted (initial_attempt Linux () () (example_turn false))].
Proof.
  destruct (never_policy_contained Linux () () (example_turn false) example_ctx Never (lit "u1") (lit "u2")
              (example_start Approved)) as [[_ (reason & Hr & _)]|H].
  - reflexivity.
  - intros reason a H. vm_compute in H. discriminate H.
  - vm_compute in Hr. discriminate Hr.
  - exact H.
Defined.

Lemma network_attempts_balanced_witness :
  balanced ∅ (example_run true UnlessTrusted Approved) /\
  attempts (network_approval (session (example_run true UnlessTrusted Approved).1)) = ∅.
Proof.
  split; [|vm_compute; reflexivity].
  apply (network_attempts_balanced Linux () () (example_turn true) example_ctx UnlessTrusted
           (lit "u1") (lit "u2") (example_start Approved)); reflexivity.
Defined.

Lemma network_refusal_rejects_witness :
  (run_attempt () () (example_turn true) example_ctx (escalated_attempt (example_turn true)) true (lit "u1")
     (session (example_start Approved))).2
  = (Err (Rejected REJECTED_BY_USER), None).
Proof.
  eapply (network_refusal_rejects () () (example_turn true) example_ctx
           (escalated_attempt (example_turn true)) (lit "u1")); try reflexivity.
  - intros c Hc. vm_compute in Hc. injection Hc as <-. reflexivity.
  - left. by exists ().
Defined.
