(* ===== verification/ShellWrap.v ===== *)
(** * The command lines of the shell tools
      (core/src/tools/runtimes/mod.rs, core/src/command_canonicalization.rs, core/src/shell.rs)

    The argument vector of a script, the script that sources the snapshot of the user's
    shell before it runs the original one, and the form of a command under which its
    approval is remembered.  How a POSIX shell reads quotes, and what the lines of the
    wrapper do to the variables, is defined here to state what the wrapper preserves. *)

From stdpp Require Import gmap sets sorting.
From S2P Require Import Prelude RustStd Order.
From S2P Require Import ShellParse ExecApproval ExecSandbox Orchestrator.

(** ** The session's shell *)

Record ShellSnapshot : Type := mk_snapshot { snapshot_path : str; snapshot_cwd : str }.

(** [shell_type] is ShellParse's; the snapshot is the current value of the channel. *)
Record Shell : Type := mk_shell {
  shell_type : ShellType;
  shell_path : str;
  shell_snapshot : option ShellSnapshot;
}.

Definition derive_exec_args (shell : Shell) (command : str) (use_login_shell : bool) : list str :=
  match shell_type shell with
  | Zsh | Bash | Sh =>
      [shell_path shell; if use_login_shell then lit "-lc" else lit "-c"; command]
  | PowerShellType =>
      [shell_path shell] ++ (if use_login_shell then [] else [lit "-NoProfile"])
      ++ [lit "-Command"; command]
  | CmdType => [shell_path shell; lit "/c"; command]
  end.

Definition build_command_spec (command : list str) (cwd : str) (env : gmap str str)
    (expiration : ExecExpiration) (sandbox_permissions : SandboxPermissions)
    (justification : option str) : outcome ToolError CommandSpec :=
  match command with
  | [] => Err (Rejected (lit "command args are empty"))
  | program :: args =>
      Ok (mk_command_spec program args cwd env expiration sandbox_permissions justification)
  end.

(** ** Quoting *)

Definition SQ : char := ch "'".
Definition DQ : char := 34%N.

Definition shell_single_quote (input : str) : str :=
  replace_char (fun c => bool_decide (c = SQ)) [SQ; DQ; SQ; DQ; SQ] input.

Definition quoted (input : str) : str := [SQ] ++ shell_single_quote input ++ [SQ].

(** ** Overrides *)

Definition is_ascii_alphabetic (c : char) : bool :=
  bool_decide (65 <= c <= 90)%N || bool_decide (97 <= c <= 122)%N.
Definition is_ascii_alphanumeric (c : char) : bool := is_ascii_alphabetic c || is_ascii_digit c.
Definition UNDERSCORE : char := ch "_".

Definition is_valid_shell_variable_name (name : str) : bool :=
  match name with
  | [] => false
  | first :: chars =>
      (bool_decide (first = UNDERSCORE) || is_ascii_alphabetic first)
      && forallb (fun c => bool_decide (c = UNDERSCORE) || is_ascii_alphanumeric c) chars
  end.

Definition OVERRIDE_SET (idx : nat) : str := lit "__CODEX_SNAPSHOT_OVERRIDE_SET_" ++ show_usize idx.
Definition OVERRIDE (idx : nat) : str := lit "__CODEX_SNAPSHOT_OVERRIDE_" ++ show_usize idx.

Definition override_capture (idx : nat) (key : str) : str :=
  OVERRIDE_SET idx ++ lit "=" ++ [DQ] ++ lit "${" ++ key ++ lit "+x}" ++ [DQ] ++ [LF]
  ++ OVERRIDE idx ++ lit "=" ++ [DQ] ++ lit "${" ++ key ++ lit "-}" ++ [DQ].

Definition override_restore (idx : nat) (key : str) : str :=
  lit "if [ -n " ++ [DQ] ++ lit "${" ++ OVERRIDE_SET idx ++ lit "}" ++ [DQ] ++ lit " ]; then export "
  ++ key ++ lit "=" ++ [DQ] ++ lit "${" ++ OVERRIDE idx ++ lit "}" ++ [DQ] ++ lit "; else unset "
  ++ key ++ lit "; fi".

(** The keys with a capture and a restore line, in their order. *)
Definition override_keys (explicit_env_overrides : gmap str str) : list str :=
  sort str_compare
    (filter (fun key => is_valid_shell_variable_name key = true)
       (fst <$> map_to_list explicit_env_overrides)).

Definition build_override_exports (explicit_env_overrides : gmap str str) : str * str :=
  let keys := override_keys explicit_env_overrides in
  (join [LF] (imap override_capture keys), join [LF] (imap override_restore keys)).

(** ** The wrapper *)

Definition exec_line (shell script : str) (trailing_args : list str) : str :=
  lit "exec " ++ quoted shell ++ lit " -c " ++ quoted script
  ++ (trailing_args ≫= fun arg => lit " " ++ quoted arg).

Definition source_line (snapshot_path : str) : str :=
  lit "if . " ++ quoted snapshot_path ++ lit " >/dev/null 2>&1; then :; fi".

Definition BLANK_LINE : str := [LF; LF].

Definition rewritten_script (snapshot_path shell script : str) (trailing_args : list str)
    (explicit_env_overrides : gmap str str) : str :=
  let '(override_captures, override_exports) := build_override_exports explicit_env_overrides in
  if bool_decide (override_exports = []) then
    source_line snapshot_path ++ BLANK_LINE ++ exec_line shell script trailing_args
  else
    override_captures ++ BLANK_LINE ++ source_line snapshot_path ++ BLANK_LINE ++ override_exports
    ++ BLANK_LINE ++ exec_line shell script trailing_args.

Section wrap.
(** [Path::exists], and [normalize_for_path_comparison] when it succeeds. *)
Variable path_exists : str -> bool.
Variable normalize : str -> option str.

Definition same_cwd (snapshot_cwd cwd : str) : bool :=
  match normalize snapshot_cwd, normalize cwd with
  | Some snapshot_cwd, Some command_cwd => path_eq snapshot_cwd command_cwd
  | _, _ => path_eq snapshot_cwd cwd
  end.

Definition maybe_wrap_shell_lc_with_snapshot (command : list str) (session_shell : Shell) (cwd : str)
    (explicit_env_overrides : gmap str str) : list str :=
  if cfg_windows then command
  else
    match shell_snapshot session_shell with
    | None => command
    | Some snapshot =>
        if negb (path_exists (snapshot_path snapshot)) then command
        else if negb (same_cwd (snapshot_cwd snapshot) cwd) then command
        else
          match command with
          | shell :: flag :: script :: trailing_args =>
              if negb (bool_decide (flag = lit "-lc")) then command
              else [shell_path session_shell; lit "-c";
                    rewritten_script (snapshot_path snapshot) shell script trailing_args
                      explicit_env_overrides]
          | _ => command
          end
    end.
End wrap.

(** ** The key of an approval *)

Definition CANONICAL_BASH_SCRIPT_PREFIX : str := lit "__codex_shell_script__".
Definition CANONICAL_POWERSHELL_SCRIPT_PREFIX : str := lit "__codex_powershell_script__".

Section canonical.
Variable try_parse_shell : str -> option tree.

Definition canonicalize_command_for_approval (command : list str) : list str :=
  match parse_shell_lc_plain_commands try_parse_shell command with
  | Some [single_command] => single_command
  | _ =>
      match extract_bash_command command with
      | Some (_, script) =>
          [CANONICAL_BASH_SCRIPT_PREFIX; default [] (command !! 1); script]
      | None =>
          match extract_powershell_command command with
          | Some (_, script) => [CANONICAL_POWERSHELL_SCRIPT_PREFIX; script]
          | None => command
          end
      end
  end.
End canonical.

(** ** How a shell reads words

    Quotes and blanks, as POSIX has them; a character that would expand, join commands
    or redirect makes the reading fail. *)
Inductive quote_mode : Type := Between | Bare | InSingle | InDouble.

Definition EXPANSIONS : list char := [ch "$"; ch "`"; ch "\"].
Definition OPERATORS : list char :=
  [ch "|"; ch "&"; ch ";"; ch "<"; ch ">"; ch "("; ch ")"; ch "*"; ch "?"; ch "["; ch "#"; ch "~"].
Definition is_blank (c : char) : bool := bool_decide (c ∈ [32; 9]%N).

Fixpoint shell_words (m : quote_mode) (w s : str) : option (list str) :=
  match s with
  | [] => match m with Between => Some [] | Bare => Some [w] | _ => None end
  | c :: s =>
      match m with
      | InSingle => if bool_decide (c = SQ) then shell_words Bare w s
                    else shell_words InSingle (w ++ [c]) s
      | InDouble => if bool_decide (c = DQ) then shell_words Bare w s
                    else if bool_decide (c ∈ EXPANSIONS) then None
                    else shell_words InDouble (w ++ [c]) s
      | Between | Bare =>
          if is_blank c then
            match m with Bare => cons w <$> shell_words Between [] s | _ => shell_words Between [] s end
          else if bool_decide (c = SQ) then shell_words InSingle w s
          else if bool_decide (c = DQ) then shell_words InDouble w s
          else if bool_decide (c ∈ LF :: EXPANSIONS ++ OPERATORS) then None
          else shell_words Bare (w ++ [c]) s
      end
  end.

(** ** Quoted words are read back *)

Lemma shell_single_quote_cons c x :
  shell_single_quote (c :: x)
  = (if bool_decide (c = SQ) then [SQ; DQ; SQ; DQ; SQ] else [c]) ++ shell_single_quote x.
Proof. apply bind_cons. Qed.

Lemma single_quoted_read w x s :
  shell_words InSingle w (shell_single_quote x ++ SQ :: s) = shell_words Bare (w ++ x) s.
Proof.
  revert w. induction x as [|c x IH]; intros w; [by rewrite app_nil_r|].
  rewrite shell_single_quote_cons, <-(assoc (++)). case_bool_decide as Hc.
  - subst c. transitivity (shell_words InSingle (w ++ [SQ]) (shell_single_quote x ++ SQ :: s)); [reflexivity|].
    by rewrite IH, <-(assoc (++)).
  - cbn [app shell_words]. rewrite bool_decide_eq_false_2 by done. by rewrite IH, <-(assoc (++)).
Qed.

Lemma quoted_read m w x s :
  m = Between \/ m = Bare -> shell_words m w (quoted x ++ s) = shell_words Bare (w ++ x) s.
Proof.
  unfold quoted. rewrite <-!(assoc (++)). cbn [app].
  intros [-> | ->]; cbn; by rewrite single_quoted_read.
Qed.

(** The end of a word. *)
Lemma bare_end w s : shell_words Bare w (lit " " ++ s) = cons w <$> shell_words Between [] s.
Proof. reflexivity. Qed.

Lemma quoted_args_read w args :
  shell_words Bare w (args ≫= fun arg => lit " " ++ quoted arg) = Some (w :: args).
Proof.
  revert w. induction args as [|a args IH]; intros w; [done|].
  rewrite bind_cons, <-(assoc (++)), bare_end, quoted_read by by left. by rewrite IH.
Qed.

(** The wrapper runs what was asked for: a shell reads its last line as [exec], the
    original shell, [-c], the original script and the original arguments, whatever
    quotes and special characters they hold. *)
Theorem exec_line_words shell script args :
  shell_words Between [] (exec_line shell script args)
  = Some (lit "exec" :: shell :: lit "-c" :: script :: args).
Proof.
  unfold exec_line.
  change (shell_words Between [] (lit "exec " ++ ?s)) with (shell_words Bare (lit "exec") (lit " " ++ s)).
  rewrite bare_end, quoted_read by by left. cbn [app].
  change (lit " -c " ++ ?s) with (lit " " ++ lit "-c " ++ s).
  rewrite bare_end. cbn [fmap].
  change (shell_words Between [] (lit "-c " ++ ?s)) with (shell_words Bare (lit "-c") (lit " " ++ s)).
  rewrite bare_end, quoted_read by by left. cbn [app]. by rewrite quoted_args_read.
Qed.

(** ** The names of the saved variables *)

Lemma lit_inj s t : lit s = lit t -> s = t.
Proof.
  unfold lit. intros H. assert (Hinj : forall a b, Ascii.N_of_ascii a = Ascii.N_of_ascii b -> a = b).
  { intros a b Hab. by rewrite <-(Ascii.ascii_N_embedding a), Hab, Ascii.ascii_N_embedding. }
  apply (list_fmap_eq_inj _ Hinj) in H.
  by rewrite <-(String.string_of_list_ascii_of_string s), H, String.string_of_list_ascii_of_string.
Qed.

Lemma show_usize_inj i j : show_usize i = show_usize j -> i = j.
Proof. intros H%lit_inj. by apply (inj pretty.pretty) in H. Qed.

Lemma pretty_go_digits x s :
  Forall (fun c => is_ascii_digit c = true) (lit s) ->
  Forall (fun c => is_ascii_digit c = true) (lit (pretty.pretty_N_go x s)).
Proof.
  revert s. induction x as [x IH] using (well_founded_induction N.lt_wf_0). intros s Hs.
  destruct (decide (x = 0)%N) as [->|Hx]; [done|].
  rewrite pretty.pretty_N_go_step by lia. apply IH; [apply N.div_lt; lia|].
  apply Forall_cons. split; [|exact Hs].
  assert (Hd : (x `mod` 10 < 10)%N) by (apply N.mod_lt; lia). clear -Hd.
  revert Hd. generalize (x `mod` 10)%N. intros d Hd.
  assert (Hc : (d = 0 \/ d = 1 \/ d = 2 \/ d = 3 \/ d = 4 \/ d = 5 \/ d = 6 \/ d = 7 \/ d = 8 \/ d = 9)%N) by lia.
  destruct_or! Hc; subst; reflexivity.
Qed.

Lemma show_usize_digits n : Forall (fun c => is_ascii_digit c = true) (show_usize n).
Proof.
  unfold show_usize, pretty.pretty, pretty.pretty_nat, pretty.pretty, pretty.pretty_N.
  case_decide; [by repeat constructor|]. by apply pretty_go_digits.
Qed.

Lemma OVERRIDE_inj i j : OVERRIDE i = OVERRIDE j -> i = j.
Proof. intros H. by apply app_inv_head, show_usize_inj in H. Qed.
Lemma OVERRIDE_SET_inj i j : OVERRIDE_SET i = OVERRIDE_SET j -> i = j.
Proof. intros H. by apply app_inv_head, show_usize_inj in H. Qed.
Lemma OVERRIDE_ne i j : OVERRIDE i <> OVERRIDE_SET j.
Proof.
  unfold OVERRIDE, OVERRIDE_SET.
  change (lit "__CODEX_SNAPSHOT_OVERRIDE_SET_") with (lit "__CODEX_SNAPSHOT_OVERRIDE_" ++ lit "SET_").
  rewrite <-(assoc (++)). intros H%app_inv_head. pose proof (show_usize_digits i) as Hd.
  rewrite H in Hd. by apply Forall_cons in Hd as [Hd _].
Qed.

(** ** What the override lines do to the variables *)

(** A capture: whether the variable is set, and its value. *)
Definition run_capture (idx : nat) (key : str) (vars : gmap str str) : gmap str str :=
  let vars := <[OVERRIDE_SET idx := if bool_decide (is_Some (vars !! key)) then lit "x" else []]> vars in
  <[OVERRIDE idx := default [] (vars !! key)]> vars.

(** A restore. *)
Definition run_restore (idx : nat) (key : str) (vars : gmap str str) : gmap str str :=
  if bool_decide (default [] (vars !! OVERRIDE_SET idx) = []) then delete key vars
  else <[key := default [] (vars !! OVERRIDE idx)]> vars.

Definition run_all (f : nat -> str -> gmap str str -> gmap str str) (l : list (nat * str))
    (vars : gmap str str) : gmap str str :=
  foldl (fun vars p => f p.1 p.2 vars) vars l.

(** The wrapper up to its last line, [source] being what the snapshot does. *)
Definition run_wrapper (source : gmap str str -> gmap str str) (explicit_env_overrides vars : gmap str str)
    : gmap str str :=
  let lines := imap pair (override_keys explicit_env_overrides) in
  run_all run_restore lines (source (run_all run_capture lines vars)).

Definition saved_name (name : str) : Prop := exists i, name = OVERRIDE i \/ name = OVERRIDE_SET i.

Lemma run_all_cons f i k l vars : run_all f ((i, k) :: l) vars = run_all f l (f i k vars).
Proof. done. Qed.

Lemma run_capture_other idx key vars name :
  name <> OVERRIDE idx -> name <> OVERRIDE_SET idx -> run_capture idx key vars !! name = vars !! name.
Proof. intros ? ?. unfold run_capture. by rewrite !lookup_insert_ne by done. Qed.

Lemma run_captures_other l vars name :
  (forall i, i ∈ l.*1 -> name <> OVERRIDE i /\ name <> OVERRIDE_SET i) ->
  run_all run_capture l vars !! name = vars !! name.
Proof.
  revert vars. induction l as [|[i k] l IH]; intros vars Hl; [done|].
  rewrite run_all_cons. rewrite fmap_cons in Hl. rewrite IH by set_solver. apply run_capture_other; set_solver.
Qed.

(** After the captures, the saved variables hold what the keys had. *)
Lemma run_captures_saved l vars i k :
  NoDup l.*1 -> (forall k, k ∈ l.*2 -> ~ saved_name k) -> (i, k) ∈ l ->
  run_all run_capture l vars !! OVERRIDE_SET i = Some (if bool_decide (is_Some (vars !! k)) then lit "x" else []) /\
  run_all run_capture l vars !! OVERRIDE i = Some (default [] (vars !! k)).
Proof.
  revert vars. induction l as [|[j k'] l IH]; intros vars; [by intros _ _ ?%not_elem_of_nil|].
  rewrite !fmap_cons, NoDup_cons. cbn [fst snd]. intros [Hj Hnd] Hk [[= <- <-]|Hin]%elem_of_cons.
  - assert (Hk' : ~ saved_name k) by (apply Hk; left).
    rewrite run_all_cons, !run_captures_other.
    + unfold run_capture. rewrite lookup_insert_ne by apply OVERRIDE_ne.
      rewrite !lookup_insert_eq. split; [done|]. rewrite lookup_insert_ne; [done|].
      intros Hs. apply Hk'. exists i. by right.
    + intros i' Hi'. split; [intros <-%OVERRIDE_inj; done|apply OVERRIDE_ne].
    + intros i' Hi'. split; [intros H; by apply (OVERRIDE_ne i' i)|intros <-%OVERRIDE_SET_inj; done].
  - rewrite run_all_cons. assert (Hk' : ~ saved_name k) by (apply Hk; right; apply list_elem_of_fmap; by exists (i, k)).
    destruct (IH (run_capture j k' vars)) as [H1 H2]; [done|set_solver|done|].
    assert (Hsame : run_capture j k' vars !! k = vars !! k).
    { apply run_capture_other; intros ->; apply Hk'; exists j; auto. }
    by rewrite H1, H2, Hsame.
Qed.

Lemma run_restore_other i k vars name : name <> k -> run_restore i k vars !! name = vars !! name.
Proof.
  intros Hne. unfold run_restore. case_bool_decide; [by rewrite lookup_delete_ne|by rewrite lookup_insert_ne].
Qed.

Lemma run_restores_other l vars name :
  (name ∉ l.*2) -> run_all run_restore l vars !! name = vars !! name.
Proof.
  revert vars. induction l as [|[i k] l IH]; intros vars Hn; [done|].
  rewrite fmap_cons, not_elem_of_cons in Hn. destruct Hn as [Hk Hn]. cbn [snd] in Hk.
  by rewrite run_all_cons, IH, run_restore_other.
Qed.

Lemma run_restores_key l vars i k :
  NoDup l.*2 -> (forall k, k ∈ l.*2 -> ~ saved_name k) -> (i, k) ∈ l ->
  run_all run_restore l vars !! k
  = if bool_decide (default [] (vars !! OVERRIDE_SET i) = []) then None
    else Some (default [] (vars !! OVERRIDE i)).
Proof.
  revert vars. induction l as [|[j k'] l IH]; intros vars; [by intros _ _ ?%not_elem_of_nil|].
  rewrite !fmap_cons, NoDup_cons. cbn [fst snd]. intros [Hj Hnd] Hk [[= <- <-]|Hin]%elem_of_cons;
    rewrite run_all_cons.
  - rewrite run_restores_other by done. unfold run_restore.
    case_bool_decide; [by rewrite lookup_delete_eq|by rewrite lookup_insert_eq].
  - rewrite IH by set_solver. assert (Hk' : ~ saved_name k') by (apply Hk; left).
    rewrite !run_restore_other; [done|intros <-; apply Hk'; exists i; auto..].
Qed.

Lemma elem_of_override_keys e k :
  k ∈ override_keys e <-> is_valid_shell_variable_name k = true /\ k ∈ dom e.
Proof.
  unfold override_keys. rewrite (sort_perm str_compare), list_elem_of_filter, list_elem_of_fmap, elem_of_dom.
  split; intros [Hv Hk]; (split; [done|]).
  - destruct Hk as ([k' v] & -> & Hin). exists v. by apply elem_of_map_to_list in Hin.
  - destruct Hk as [v Hv']. exists (k, v). split; [done|]. by apply elem_of_map_to_list.
Qed.

Lemma override_keys_nodup e : NoDup (override_keys e).
Proof.
  unfold override_keys. rewrite (sort_perm str_compare). apply NoDup_filter, NoDup_fst_map_to_list.
Qed.

Lemma imap_pair_keys {A} (l : list A) : (imap pair l).*2 = l /\ (imap pair l).*1 = seq 0 (length l).
Proof.
  split; apply list_eq; intros i; rewrite list_lookup_fmap, list_lookup_imap.
  - by destruct (l !! i).
  - destruct (l !! i) as [x|] eqn:Hi; cbn.
    + apply lookup_lt_Some in Hi. by rewrite lookup_seq_lt.
    + apply lookup_ge_None in Hi. by rewrite lookup_seq_ge.
Qed.

(** The overrides of the environment survive the snapshot: whatever the snapshot
    sets or unsets (but the variables the wrapper saves them in), the original script
    sees each overridden variable as it was before, set or unset; every other variable
    is as the snapshot leaves it. *)
Theorem overrides_survive source explicit_env_overrides vars :
  (forall vars i, source vars !! OVERRIDE i = vars !! OVERRIDE i /\
                  source vars !! OVERRIDE_SET i = vars !! OVERRIDE_SET i) ->
  (forall k, k ∈ override_keys explicit_env_overrides -> ~ saved_name k) ->
  let after := run_wrapper source explicit_env_overrides vars in
  (forall k, k ∈ dom explicit_env_overrides -> is_valid_shell_variable_name k = true ->
     after !! k = vars !! k) /\
  (forall name, (name ∉ override_keys explicit_env_overrides) ->
     after !! name = source (run_all run_capture (imap pair (override_keys explicit_env_overrides)) vars) !! name).
Proof.
  intros Hsource Hkeys after. unfold after, run_wrapper.
  destruct (imap_pair_keys (override_keys explicit_env_overrides)) as [H2 H1].
  set (l := imap pair _) in *. split.
  - intros k Hdom Hvalid. assert (Hk : k ∈ override_keys explicit_env_overrides)
      by by apply elem_of_override_keys.
    rewrite <-H2 in Hk, Hkeys. apply list_elem_of_fmap in Hk as ([i k'] & -> & Hin). cbn [snd].
    rewrite (run_restores_key l _ i k') by (try done; rewrite H2; apply override_keys_nodup).
    destruct (Hsource (run_all run_capture l vars) i) as [-> ->].
    destruct (run_captures_saved l vars i k') as [-> ->]; [rewrite H1; apply NoDup_seq|done|done|].
    cbn [default]. by destruct (vars !! k').
  - intros name Hn. apply run_restores_other. by rewrite H2.
Qed.

(** ** The values of overrides stay out of the command line *)

Lemma override_keys_dom (e1 e2 : gmap str str) : dom e1 = dom e2 -> override_keys e1 = override_keys e2.
Proof.
  intros Hd. assert (AntiSymm eq (compare_le str_compare)) by (intros x y; apply compare_le_antisym, _).
  apply (StronglySorted_unique (compare_le str_compare)); [apply sort_sorted, _..|].
  apply NoDup_Permutation; [apply override_keys_nodup..|].
  intros k. by rewrite !elem_of_override_keys, Hd.
Qed.

(** The command line reveals which variables a call overrides and nothing of their
    values: those travel in the environment only. *)
Theorem wrap_hides_values (path_exists : str -> bool) (normalize : str -> option str)
    (command : list str) (session_shell : Shell) (cwd : str) (e1 e2 : gmap str str) :
  dom e1 = dom e2 ->
  maybe_wrap_shell_lc_with_snapshot path_exists normalize command session_shell cwd e1
  = maybe_wrap_shell_lc_with_snapshot path_exists normalize command session_shell cwd e2.
Proof.
  intros Hd. unfold maybe_wrap_shell_lc_with_snapshot, rewritten_script, build_override_exports.
  by rewrite (override_keys_dom e1 e2 Hd).
Qed.

(** The wrapper applies only to a login shell with a script, where the snapshot exists
    and was taken in the same directory; then the script's last line is the [exec]. *)
Lemma wrap_spec (path_exists : str -> bool) (normalize : str -> option str)
    (command : list str) (session_shell : Shell) (cwd : str) e :
  let wrapped := maybe_wrap_shell_lc_with_snapshot path_exists normalize command session_shell cwd e in
  wrapped = command \/
  exists shell script args before snapshot,
    command = shell :: lit "-lc" :: script :: args /\ shell_snapshot session_shell = Some snapshot /\
    path_exists (snapshot_path snapshot) = true /\ same_cwd normalize (snapshot_cwd snapshot) cwd = true /\
    wrapped = [shell_path session_shell; lit "-c"; before ++ BLANK_LINE ++ exec_line shell script args].
Proof.
  unfold maybe_wrap_shell_lc_with_snapshot. change cfg_windows with false. cbn beta iota.
  destruct (shell_snapshot session_shell) as [snapshot|] eqn:Hs; [|by left].
  destruct (path_exists _) eqn:Hp; [|by left]. destruct (same_cwd _ _ _) eqn:Hc; [|by left]. cbn [negb].
  destruct command as [|shell [|flag [|script args]]]; try (by left).
  destruct (bool_decide (flag = lit "-lc")) eqn:Hf; [|by left]. apply bool_decide_eq_true in Hf as ->.
  right. cbn [negb]. unfold rewritten_script. destruct (build_override_exports e) as [captures exports].
  case_bool_decide; [exists shell, script, args, (source_line (snapshot_path snapshot)), snapshot|
    exists shell, script, args, (captures ++ BLANK_LINE ++ source_line (snapshot_path snapshot)
                                 ++ BLANK_LINE ++ exports), snapshot]; [done|].
  split_and!; try done. by rewrite <-!(assoc (++)).
Qed.

(** ** What an approval key stands for *)

(** What a command does, as far as its key tells: the words of one plain command, a
    script for a POSIX shell with its flag, a PowerShell script, or the words of any
    other command. *)
Inductive action : Type :=
  | ActWords (words : list str)
  | ActScript (flag script : str)
  | ActPowershell (script : str).

Definition action_key (a : action) : list str :=
  match a with
  | ActWords words => words
  | ActScript flag script => [CANONICAL_BASH_SCRIPT_PREFIX; flag; script]
  | ActPowershell script => [CANONICAL_POWERSHELL_SCRIPT_PREFIX; script]
  end.

Section keys.
Variable try_parse_shell : str -> option tree.

(** [command] runs [a]: through a shell whose script is exactly that one command, a
    shell with the script, or directly. *)
Definition runs_action (command : list str) (a : action) : Prop :=
  match a with
  | ActWords words =>
      command = words \/ parse_shell_lc_plain_commands try_parse_shell command = Some [words]
  | ActScript flag script => exists shell, command = [shell; flag; script]
  | ActPowershell script => exists shell, extract_powershell_command command = Some (shell, script)
  end.

Lemma canonical_action command :
  exists a, canonicalize_command_for_approval try_parse_shell command = action_key a /\ runs_action command a.
Proof.
  unfold canonicalize_command_for_approval.
  destruct (parse_shell_lc_plain_commands try_parse_shell command) as [[|ws [|? ?]]|] eqn:Hp;
    try (by exists (ActWords ws); split; [done|right]);
    (destruct (extract_bash_command command) as [[shell script]|] eqn:Hb;
     [unfold extract_bash_command in Hb;
      destruct command as [|sh [|flag [|sc [|? ?]]]]; try discriminate Hb;
      destruct (_ || _); try discriminate Hb; injection Hb as -> ->;
      exists (ActScript flag script); split; [done|by exists shell]|
      destruct (extract_powershell_command command) as [[shell script]|] eqn:Hw;
      [exists (ActPowershell script); split; [done|by exists shell]|
       exists (ActWords command); split; [done|by left]]]).
Qed.

(** A key that no script marker starts names its action. *)
Definition unmarked (key : list str) : Prop :=
  head key <> Some CANONICAL_BASH_SCRIPT_PREFIX /\ head key <> Some CANONICAL_POWERSHELL_SCRIPT_PREFIX.

(** An approval remembered for one command is used for another only if both run the
    same thing: the same words, the same script with the same flag in some POSIX shell,
    or the same PowerShell script (commands whose own first word is a marker aside). *)
Theorem approval_key_sound c1 c2 :
  canonicalize_command_for_approval try_parse_shell c1
  = canonicalize_command_for_approval try_parse_shell c2 ->
  (exists a, runs_action c1 a /\ runs_action c2 a) \/
  (exists words, (runs_action c1 (ActWords words) \/ runs_action c2 (ActWords words)) /\ ~ unmarked words).
Proof.
  destruct (canonical_action c1) as (a1 & -> & H1). destruct (canonical_action c2) as (a2 & -> & H2).
  assert (Hmark : forall w a, w = action_key a -> (forall ws, a <> ActWords ws) -> ~ unmarked w).
  { intros w a -> Ha [Hm1 Hm2]. destruct a as [ws| |]; [by destruct (Ha ws)|done|done]. }
  intros Hkey. destruct a1 as [w1|f1 s1|s1], a2 as [w2|f2 s2|s2].
  - left. exists (ActWords w1). cbn [action_key] in Hkey. by rewrite <-Hkey in H2.
  - right. exists w1. split; [by left|]. by eapply Hmark.
  - right. exists w1. split; [by left|]. by eapply Hmark.
  - right. exists w2. split; [by right|]. by eapply Hmark.
  - left. exists (ActScript f1 s1). cbn [action_key] in Hkey. by injection Hkey as <- <-.
  - discriminate Hkey.
  - right. exists w2. split; [by right|]. by eapply Hmark.
  - discriminate Hkey.
  - left. exists (ActPowershell s1). cbn [action_key] in Hkey. by injection Hkey as <-.
Qed.

(** The arguments after the script of [-Command] are part of what PowerShell runs, and
    not of the key. *)
Theorem powershell_key_ignores_args shell script extra :
  detect_shell_type shell = Some PowerShellType ->
  canonicalize_command_for_approval try_parse_shell (shell :: lit "-Command" :: script :: extra)
  = canonicalize_command_for_approval try_parse_shell [shell; lit "-Command"; script].
Proof.
  intros Hshell.
  assert (Hb : forall c, head c = Some shell -> extract_bash_command c = None).
  { intros [|sh [|flag [|sc [|? ?]]]]; try done. intros [= ->].
    unfold extract_bash_command. rewrite Hshell. cbn [negb]. by rewrite orb_true_r. }
  assert (Hw : forall extra, extract_powershell_command (shell :: lit "-Command" :: script :: extra)
                             = Some (shell, script)).
  { intros ex. unfold extract_powershell_command. cbn [length Nat.ltb Nat.leb]. rewrite Hshell.
    reflexivity. }
  unfold canonicalize_command_for_approval, parse_shell_lc_plain_commands.
  by rewrite !Hb, !Hw by done.
Qed.
End keys.

(** ** Witnesses *)

(** The snapshot sets [PATH]; the call overrides it, and unsets [HOME]. *)
Definition example_source (vars : gmap str str) : gmap str str :=
  <[lit "PATH" := lit "/snapshot"]> (<[lit "HOME" := lit "/root"]> vars).
Definition example_overrides : gmap str str := {[lit "PATH" := lit "/mine"; lit "HOME" := []]}.
Definition example_vars : gmap str str := {[lit "PATH" := lit "/mine"]}.

Lemma overrides_survive_witness :
  run_wrapper example_source example_overrides example_vars !! lit "PATH" = Some (lit "/mine") /\
  run_wrapper example_source example_overrides example_vars !! lit "HOME" = None.
Proof.
  destruct (overrides_survive example_source example_overrides example_vars) as [H _].
  - intros vars i. unfold example_source. split; rewrite !lookup_insert_ne; done.
  - intros k Hk (i & [-> | ->]); apply elem_of_override_keys in Hk as [_ Hk]; unfold example_overrides in Hk;
      rewrite dom_insert, dom_singleton in Hk; set_solver.
  - split.
    + rewrite (H (lit "PATH")); [reflexivity| |reflexivity].
      unfold example_overrides. rewrite dom_insert. set_solver.
    + rewrite (H (lit "HOME")); [reflexivity| |reflexivity].
      unfold example_overrides. rewrite dom_insert, dom_singleton. set_solver.
Defined.

Definition example_shell : Shell :=
  mk_shell Zsh (lit "/bin/zsh") (Some (mk_snapshot (lit "/tmp/s.sh") (lit "/w"))).

Lemma wrap_hides_values_witness :
  maybe_wrap_shell_lc_with_snapshot (fun _ => true) Some [lit "bash"; lit "-lc"; lit "env"] example_shell
    (lit "/w") {[lit "TOKEN" := lit "secret"]}
  = maybe_wrap_shell_lc_with_snapshot (fun _ => true) Some [lit "bash"; lit "-lc"; lit "env"] example_shell
    (lit "/w") {[lit "TOKEN" := lit "other"]}.
Proof. apply wrap_hides_values. by rewrite !dom_singleton_L. Defined.

Lemma approval_key_sound_witness :
  (exists a, runs_action (fun _ => None) [lit "/bin/bash"; lit "-lc"; lit "a b"] a /\
             runs_action (fun _ => None) [lit "bash"; lit "-lc"; lit "a b"] a) \/
  (exists words, (runs_action (fun _ => None) [lit "/bin/bash"; lit "-lc"; lit "a b"] (ActWords words) \/
                  runs_action (fun _ => None) [lit "bash"; lit "-lc"; lit "a b"] (ActWords words)) /\
                 ~ unmarked words).
Proof. apply approval_key_sound. vm_compute. reflexivity. Defined.

Lemma powershell_key_ignores_args_witness :
  canonicalize_command_for_approval (fun _ => None) [lit "pwsh"; lit "-Command"; lit "ls"; lit ";"; lit "rm"]
  = canonicalize_command_for_approval (fun _ => None) [lit "pwsh"; lit "-Command"; lit "ls"].
Proof. apply powershell_key_ignores_args. vm_compute. reflexivity. Defined.
