(* ===== verification/ToolRuntimes.v ===== *)
(** * The tools behind the orchestrator (core/src/tools/runtimes/shell.rs,
      unified_exec.rs and apply_patch.rs, core/src/apply_patch.rs,
      core/src/tools/handlers/apply_patch.rs, core/src/exec.rs)

    The three runtimes as instances of the orchestrator's classes: what each asks the
    user and under which keys it remembers the answer, which command line it builds and
    how it is run.  What they call on the session, the proxy and the process manager
    are parameters. *)

From stdpp Require Import gmap sets.
From S2P Require Import Prelude RustStd.
From S2P Require Import SandboxPolicy PatchInvocation PatchSafety ShellParse ExecApproval.
From S2P Require Import NetworkApproval ExecSandbox Orchestrator ShellWrap.

#[export] Instance session_approvals {X : Type} : HasApprovals (Session X) :=
  {| approvals_of := tool_approvals; set_approvals := with_approvals |}.
#[export] Instance session_approvals_laws {X : Type} : ApprovalsLaws (Session X).
Proof. by split. Qed.

(** ** Requests *)

Record ShellRequest (Net : Type) : Type := mk_shell_request {
  sh_command : list str;
  sh_cwd : str;
  sh_timeout_ms : option nat;
  sh_env : gmap str str;
  sh_overrides : gmap str str;
  sh_network : option Net;
  sh_permissions : SandboxPermissions;
  sh_justification : option str;
  sh_requirement : ExecApprovalRequirement;
}.
Arguments mk_shell_request {Net} _ _ _ _ _ _ _ _ _.
Arguments sh_command {Net} _.
Arguments sh_cwd {Net} _.
Arguments sh_timeout_ms {Net} _.
Arguments sh_env {Net} _.
Arguments sh_overrides {Net} _.
Arguments sh_network {Net} _.
Arguments sh_permissions {Net} _.
Arguments sh_justification {Net} _.
Arguments sh_requirement {Net} _.

Record UnifiedExecRequest (Net : Type) : Type := mk_unified_request {
  ue_command : list str;
  ue_cwd : str;
  ue_env : gmap str str;
  ue_overrides : gmap str str;
  ue_network : option Net;
  ue_tty : bool;
  ue_permissions : SandboxPermissions;
  ue_justification : option str;
  ue_requirement : ExecApprovalRequirement;
}.
Arguments mk_unified_request {Net} _ _ _ _ _ _ _ _ _.
Arguments ue_command {Net} _.
Arguments ue_cwd {Net} _.
Arguments ue_env {Net} _.
Arguments ue_overrides {Net} _.
Arguments ue_network {Net} _.
Arguments ue_tty {Net} _.
Arguments ue_permissions {Net} _.
Arguments ue_justification {Net} _.
Arguments ue_requirement {Net} _.

Inductive FileChange : Type :=
  | ChangeAdd (content : str)
  | ChangeDelete (content : str)
  | ChangeUpdate (unified_diff : str) (move_path : option str).

Record ApplyPatchRequest : Type := mk_patch_request {
  ap_action : ApplyPatchAction;
  ap_file_paths : list str;
  ap_changes : gmap (list component) FileChange;
  ap_requirement : ExecApprovalRequirement;
  ap_timeout_ms : option nat;
  ap_codex_exe : option str;
}.

Record ApprovalKey : Type := mk_approval_key {
  key_command : list str;
  key_cwd : str;
  key_permissions : SandboxPermissions;
}.

Record UnifiedExecApprovalKey : Type := mk_unified_key {
  unified_key_command : list str;
  unified_key_cwd : str;
  unified_key_tty : bool;
  unified_key_permissions : SandboxPermissions;
}.

(** What [request_command_approval] and [request_patch_approval] show the user. *)
Record CommandPrompt : Type := mk_command_prompt {
  prompt_call_id : str;
  prompt_command : list str;
  prompt_cwd : str;
  prompt_reason : option str;
  prompt_network : option NetworkApprovalContext;
  prompt_amendment : option ExecPolicyAmendment;
}.

Record PatchPrompt : Type := mk_patch_prompt {
  patch_prompt_call_id : str;
  patch_prompt_changes : gmap (list component) FileChange;
  patch_prompt_reason : option str;
}.

Inductive UnifiedExecError : Type :=
  | UnifiedSandboxDenied (message : str) (output : ExecToolCallOutput)
  | UnifiedOther (display : str).

Inductive ShellRuntime : Type := TheShellRuntime.
Inductive UnifiedExecRuntime : Type := TheUnifiedExecRuntime.
Inductive ApplyPatchRuntime : Type := TheApplyPatchRuntime.

(** [sandbox_mode_for_first_attempt] of both shell tools. *)
Definition shell_sandbox_mode (permissions : SandboxPermissions) (requirement : ExecApprovalRequirement)
    : SandboxOverride :=
  if requires_escalated_permissions permissions
     || match requirement with Skip true _ => true | _ => false end
  then BypassSandboxFirstAttempt else NoOverride.

Definition shell_approval_keys (try_parse_shell : str -> option tree) {Net} (req : ShellRequest Net)
    : list ApprovalKey :=
  [mk_approval_key (canonicalize_command_for_approval try_parse_shell (sh_command req)) (sh_cwd req)
     (sh_permissions req)].
Definition unified_approval_keys (try_parse_shell : str -> option tree) {Net} (req : UnifiedExecRequest Net)
    : list UnifiedExecApprovalKey :=
  [mk_unified_key (canonicalize_command_for_approval try_parse_shell (ue_command req)) (ue_cwd req)
     (ue_tty req) (ue_permissions req)].

Definition or_else {A} (a b : option A) : option A := match a with Some x => Some x | None => b end.

#[export] Instance shell_sandboxable : Sandboxable ShellRuntime :=
  {| sandbox_preference _ := PrefAuto; escalate_on_failure _ := true |}.
#[export] Instance unified_sandboxable : Sandboxable UnifiedExecRuntime :=
  {| sandbox_preference _ := PrefAuto; escalate_on_failure _ := true |}.
#[export] Instance patch_sandboxable : Sandboxable ApplyPatchRuntime :=
  {| sandbox_preference _ := PrefAuto; escalate_on_failure _ := true |}.

(** ** The patch tool *)

Definition CODEX_APPLY_PATCH_ARG1 : str := lit "--codex-run-as-apply-patch".

Record ApplyPatchExec : Type := mk_patch_exec {
  exec_action : ApplyPatchAction;
  auto_approved : bool;
  exec_requirement : ExecApprovalRequirement;
}.

Inductive InternalApplyPatchInvocation : Type :=
  | PatchRejected (message : str)
  | DelegateToExec (apply : ApplyPatchExec).

Definition invocation_of (action : ApplyPatchAction) (check : SafetyCheck) : InternalApplyPatchInvocation :=
  match check with
  | AutoApprove _ user_explicitly_approved =>
      DelegateToExec (mk_patch_exec action (negb user_explicitly_approved) (Skip false None))
  | AskUser => DelegateToExec (mk_patch_exec action false (NeedsApproval None None))
  | RejectPatch reason => PatchRejected (lit "patch rejected: " ++ reason)
  end.

Definition convert_change (change : ApplyPatchFileChange) : FileChange :=
  match change with
  | PatchInvocation.Add content => ChangeAdd content
  | PatchInvocation.Delete content => ChangeDelete content
  | PatchInvocation.Update unified_diff move_path _ => ChangeUpdate unified_diff move_path
  end.

Definition convert_apply_patch_to_protocol (action : ApplyPatchAction) : gmap (list component) FileChange :=
  convert_change <$> changes action.

Definition patch_wants_no_sandbox_approval (policy : AskForApproval) : bool :=
  match policy with
  | Never => false
  | Reject reject_config => negb (rejects_sandbox_approval reject_config)
  | OnFailure | OnRequest | UnlessTrusted => true
  end.

Section patch.
Variable h : host.
Variable os : target_os.
(** [AbsolutePathBuf::resolve_path_against_base(..).ok()]. *)
Variable resolve : str -> list component -> option str.

Definition apply_patch (turn : TurnContext) (approval_policy : AskForApproval) (action : ApplyPatchAction)
    : outcome () InternalApplyPatchInvocation :=
  check ← assess_patch_safety h os action approval_policy (turn_sandbox_policy turn) (turn_cwd turn)
            (turn_windows_level turn);
  Ok (invocation_of action check).

Definition paths_of_change (cwd : str) (entry : list component * ApplyPatchFileChange) : list str :=
  option_list (resolve cwd entry.1)
  ++ match entry.2 with
     | PatchInvocation.Update _ (Some dest) _ => option_list (resolve cwd (components dest))
     | _ => []
     end.

(** The order is that of the map. *)
Definition file_paths_for_action (action : ApplyPatchAction) : list str :=
  map_to_list (changes action) ≫= paths_of_change (PatchInvocation.cwd action).

(** The request of an accepted patch. *)
Definition patch_request (turn : TurnContext) (timeout_ms : option nat) (apply : ApplyPatchExec)
    : ApplyPatchRequest :=
  mk_patch_request (exec_action apply) (file_paths_for_action (exec_action apply))
    (convert_apply_patch_to_protocol (exec_action apply)) (exec_requirement apply) timeout_ms
    (turn_linux_sandbox_exe turn).
End patch.

(** ** What the runtimes call *)

Class ToolServices (X Net Proc : Type) : Type := {
  svc_os : target_os;
  svc_policy_json : SandboxPolicy -> str;
  svc_seatbelt_args : list str -> SandboxPolicy -> str -> bool -> option Net -> list str -> list str;
  svc_try_parse_shell : str -> option tree;
  svc_path_exists : X -> str -> bool;
  svc_normalize : X -> str -> option str;
  svc_user_shell : X -> Shell;
  svc_powershell_utf8 : bool;
  svc_zsh_fork : bool;
  svc_current_exe : X -> outcome str str;
  (* [serde_json::to_string] of the keys *)
  svc_key : ApprovalKey -> option str;
  svc_unified_key : UnifiedExecApprovalKey -> option str;
  svc_path_key : str -> option str;
  (* the session: asking, and waiting for the answer *)
  svc_request_command : CommandPrompt -> Session X -> Session X * ReviewDecision;
  svc_request_patch : PatchPrompt -> Session X -> Session X * ReviewDecision;
  (* spawning and waiting *)
  svc_exec : ExecRequest Net -> option str -> SandboxPolicy -> Session X ->
    Session X * outcome CodexErr RawExecToolCallOutput;
  svc_open_session : ExecRequest Net -> bool -> Session X -> Session X * outcome UnifiedExecError Proc;
  svc_wrapper_socket : X -> str;
  svc_zsh_execute : ExecRequest Net -> ToolCtx -> Session X -> Session X * outcome ToolError ExecToolCallOutput;
  svc_apply_network_env : Net -> option str -> gmap str str -> gmap str str;
  svc_parse_uuid : str -> option str;
  svc_new_uuid : X -> str;
  svc_to_lowercase : str -> str;
  svc_bytes_to_string : list N -> str;
}.

(** None of them begins or ends an attempt of the network service. *)
Class ToolServicesLaws (X Net Proc : Type) `{!ToolServices X Net Proc} : Prop := {
  request_command_keeps p (s : Session X) :
    attempts (network_approval (svc_request_command p s).1) = attempts (network_approval s);
  request_patch_keeps p (s : Session X) :
    attempts (network_approval (svc_request_patch p s).1) = attempts (network_approval s);
  exec_keeps env id policy (s : Session X) :
    attempts (network_approval (svc_exec env id policy s).1) = attempts (network_approval s);
  open_session_keeps env tty (s : Session X) :
    attempts (network_approval (svc_open_session env tty s).1) = attempts (network_approval s);
  zsh_execute_keeps env ctx (s : Session X) :
    attempts (network_approval (svc_zsh_execute env ctx s).1) = attempts (network_approval s);
}.

Section runtimes.
Context {X Net Proc : Type} `{!ToolServices X Net Proc}.

(** ** Asking *)

Definition shell_start_approval (req : ShellRequest Net) (ctx : ApprovalCtx)
    : Session X -> Session X * ReviewDecision :=
  with_cached_approval svc_key (shell_approval_keys svc_try_parse_shell req)
    (svc_request_command
       (mk_command_prompt (approval_call_id ctx) (sh_command req) (sh_cwd req)
          (or_else (retry_reason ctx) (sh_justification req)) (approval_network_context ctx)
          (proposed_execpolicy_amendment (sh_requirement req)))).

Definition unified_start_approval (req : UnifiedExecRequest Net) (ctx : ApprovalCtx)
    : Session X -> Session X * ReviewDecision :=
  with_cached_approval svc_unified_key (unified_approval_keys svc_try_parse_shell req)
    (svc_request_command
       (mk_command_prompt (approval_call_id ctx) (ue_command req) (ue_cwd req)
          (or_else (retry_reason ctx) (ue_justification req)) (approval_network_context ctx)
          (proposed_execpolicy_amendment (ue_requirement req)))).

Definition patch_start_approval (req : ApplyPatchRequest) (ctx : ApprovalCtx)
    : Session X -> Session X * ReviewDecision :=
  match retry_reason ctx with
  | Some reason =>
      svc_request_patch (mk_patch_prompt (approval_call_id ctx) (ap_changes req) (Some reason))
  | None =>
      with_cached_approval svc_path_key (ap_file_paths req)
        (svc_request_patch (mk_patch_prompt (approval_call_id ctx) (ap_changes req) None))
  end.

#[export] Instance shell_approvable : Approvable X ShellRuntime (ShellRequest Net) :=
  {| sandbox_mode_for_first_attempt _ req := shell_sandbox_mode (sh_permissions req) (sh_requirement req);
     bypasses_approval _ := should_bypass_approval;
     exec_approval_requirement _ req := Some (sh_requirement req);
     retry_approval_wanted _ := wants_no_sandbox_approval;
     start_approval _ req _ ctx := shell_start_approval req ctx |}.

#[export] Instance unified_approvable : Approvable X UnifiedExecRuntime (UnifiedExecRequest Net) :=
  {| sandbox_mode_for_first_attempt _ req := shell_sandbox_mode (ue_permissions req) (ue_requirement req);
     bypasses_approval _ := should_bypass_approval;
     exec_approval_requirement _ req := Some (ue_requirement req);
     retry_approval_wanted _ := wants_no_sandbox_approval;
     start_approval _ req _ ctx := unified_start_approval req ctx |}.

#[export] Instance patch_approvable : Approvable X ApplyPatchRuntime ApplyPatchRequest :=
  {| sandbox_mode_for_first_attempt _ _ := NoOverride;
     bypasses_approval _ := should_bypass_approval;
     exec_approval_requirement _ req := Some (ap_requirement req);
     retry_approval_wanted _ := patch_wants_no_sandbox_approval;
     start_approval _ req _ ctx := patch_start_approval req ctx |}.

(** ** Running *)

Definition execute_exec_env (env : ExecRequest Net) (policy : SandboxPolicy)
    : io (Session X) CodexErr ExecToolCallOutput := fun s =>
  let network_attempt_id :=
    match er_network_attempt_id env with
    | Some attempt_id => svc_parse_uuid attempt_id
    | None => (fun _ => svc_new_uuid (outside s)) <$> er_network env
    end in
  let '(s, raw_output_result) := svc_exec env network_attempt_id policy s in
  (s, finalize_exec_result svc_to_lowercase svc_bytes_to_string raw_output_result (er_sandbox env)).

Definition attempt_env (attempt : SandboxAttempt) (spec : CommandSpec) (network : option Net)
    : outcome ToolError (ExecRequest Net) :=
  map_err (fun e => Codex (from_transform_error e))
    (env_for svc_os svc_policy_json svc_seatbelt_args attempt spec network).

(** The command after the snapshot and the encoding prefix. *)
Definition effective_command (command : list str) (cwd : str) (overrides : gmap str str) (s : Session X)
    : list str :=
  let session_shell := svc_user_shell (outside s) in
  let command :=
    maybe_wrap_shell_lc_with_snapshot (svc_path_exists (outside s)) (svc_normalize (outside s)) command
      session_shell cwd overrides in
  if match shell_type session_shell with PowerShellType => svc_powershell_utf8 | _ => false end
  then prefix_powershell_script_with_utf8 command else command.

Definition shell_run (req : ShellRequest Net) (attempt : SandboxAttempt) (ctx : ToolCtx)
    : io (Session X) ToolError ExecToolCallOutput := fun s =>
  let command := effective_command (sh_command req) (sh_cwd req) (sh_overrides req) s in
  let spec_in env :=
    build_command_spec command (sh_cwd req) env (expiration_from (sh_timeout_ms req))
      (sh_permissions req) (sh_justification req) in
  if svc_zsh_fork then
    let zsh_fork_env := <[ZSH_EXEC_BRIDGE_WRAPPER_SOCKET_ENV_VAR := svc_wrapper_socket (outside s)]>
                          (sh_env req) in
    (env ← io_of (spec ← spec_in zsh_fork_env; attempt_env attempt spec (sh_network req));
     svc_zsh_execute env ctx) s
  else
    (env ← io_of (spec ← spec_in (sh_env req); attempt_env attempt spec (sh_network req));
     io_map_err Codex (execute_exec_env (with_attempt_id (ctx_network_attempt_id ctx) env)
                         (attempt_policy attempt))) s.

Definition unified_error (e : UnifiedExecError) : ToolError :=
  match e with
  | UnifiedSandboxDenied _ output => denied output None
  | UnifiedOther display => Rejected display
  end.

Definition unified_run (req : UnifiedExecRequest Net) (attempt : SandboxAttempt) (ctx : ToolCtx)
    : io (Session X) ToolError Proc := fun s =>
  let command := effective_command (ue_command req) (ue_cwd req) (ue_overrides req) s in
  let env := match ue_network req with
             | Some network => svc_apply_network_env network (ctx_network_attempt_id ctx) (ue_env req)
             | None => ue_env req
             end in
  (exec_env ← io_of (spec ← map_err (fun _ => Rejected (lit "missing command line for PTY"))
                             (build_command_spec command (ue_cwd req) env DefaultTimeout
                                (ue_permissions req) (ue_justification req));
                     attempt_env attempt spec (ue_network req));
   io_map_err unified_error (svc_open_session exec_env (ue_tty req))) s.

Definition patch_command_spec (req : ApplyPatchRequest) (s : Session X) : outcome ToolError CommandSpec :=
  program ← match ap_codex_exe req with
            | Some path => Ok path
            | None => map_err (fun e => Rejected (lit "failed to determine codex exe: " ++ e))
                        (svc_current_exe (outside s))
            end;
  Ok (mk_command_spec program [CODEX_APPLY_PATCH_ARG1; action_patch (ap_action req)]
        (PatchInvocation.cwd (ap_action req)) ∅ (expiration_from (ap_timeout_ms req)) UseDefault None).

Definition patch_run (req : ApplyPatchRequest) (attempt : SandboxAttempt)
    : io (Session X) ToolError ExecToolCallOutput := fun s =>
  (env ← io_of (spec ← patch_command_spec req s; attempt_env attempt spec None);
   io_map_err Codex (execute_exec_env env (attempt_policy attempt))) s.

Definition network_spec (command : list str) (cwd : str) (network : option Net) (mode : NetworkApprovalMode)
    : option NetworkApprovalSpec :=
  _ ← network; Some (NetworkApproval.mk_spec command cwd true mode).

#[export] Instance shell_runtime : ToolRuntime X ShellRuntime (ShellRequest Net) ExecToolCallOutput :=
  {| network_approval_spec _ req _ := network_spec (sh_command req) (sh_cwd req) (sh_network req) Immediate;
     run_tool _ req attempt _ ctx s := shell_run req attempt ctx s |}.

#[export] Instance unified_runtime : ToolRuntime X UnifiedExecRuntime (UnifiedExecRequest Net) Proc :=
  {| network_approval_spec _ req _ := network_spec (ue_command req) (ue_cwd req) (ue_network req) Deferred;
     run_tool _ req attempt _ ctx s := unified_run req attempt ctx s |}.

#[export] Instance patch_runtime : ToolRuntime X ApplyPatchRuntime ApplyPatchRequest ExecToolCallOutput :=
  {| network_approval_spec _ _ _ := None;
     run_tool _ req attempt _ ctx s := patch_run req attempt s |}.
End runtimes.

(** ** The promises of the runtimes *)

Lemma io_of_bind_keeps {X E A B C : Type} (p : outcome E A) (k : A -> io (Session X) E B) (f : Session X -> C)
    (s : Session X) :
  (forall a, f (k a s).1 = f s) -> f ((a ← io_of p; k a) s).1 = f s.
Proof. intros Hk. by destruct p as [a|e| |]; [apply (Hk a)|..]. Qed.

Lemma with_cached_approval_keeps {X Key : Type} (serialize : Key -> option str) keys
    (fetch : Session X -> Session X * ReviewDecision) (s : Session X) :
  network_approval (fetch s).1 = network_approval s \/
    attempts (network_approval (fetch s).1) = attempts (network_approval s) ->
  attempts (network_approval (with_cached_approval serialize keys fetch s).1) = attempts (network_approval s).
Proof.
  intros Hf. assert (Hk : attempts (network_approval (fetch s).1) = attempts (network_approval s)).
  { by destruct Hf as [->|?]. }
  destruct (decide (keys = [])) as [->|Hne]; [done|]. rewrite with_cached_approval_nonempty by done.
  destruct (forallb _ _); [done|]. by case_bool_decide.
Qed.

Section laws.
Context {X Net Proc : Type} `{!ToolServices X Net Proc} `{!ToolServicesLaws X Net Proc}.

Lemma patch_never_retries : patch_wants_no_sandbox_approval Never = false.
Proof. done. Qed.

#[export] Instance shell_approval_laws : ApprovalLaws X ShellRuntime (ShellRequest Net).
Proof.
  split; [intros; by apply should_bypass_consented|done|].
  intros tool req turn ctx s. apply with_cached_approval_keeps. right. apply request_command_keeps.
Qed.
#[export] Instance unified_approval_laws : ApprovalLaws X UnifiedExecRuntime (UnifiedExecRequest Net).
Proof.
  split; [intros; by apply should_bypass_consented|done|].
  intros tool req turn ctx s. apply with_cached_approval_keeps. right. apply request_command_keeps.
Qed.
#[export] Instance patch_approval_laws : ApprovalLaws X ApplyPatchRuntime ApplyPatchRequest.
Proof.
  split; [intros; by apply should_bypass_consented|done|].
  intros tool req turn ctx s. cbn. unfold patch_start_approval. destruct (retry_reason ctx).
  - apply request_patch_keeps.
  - apply with_cached_approval_keeps. right. apply request_patch_keeps.
Qed.

Lemma execute_keeps env policy (s : Session X) :
  attempts (network_approval (execute_exec_env env policy s).1) = attempts (network_approval s).
Proof.
  unfold execute_exec_env. set (id := match er_network_attempt_id env with Some _ => _ | None => _ end).
  pose proof (exec_keeps env id policy s) as H. by destruct (svc_exec env id policy s).
Qed.

#[export] Instance shell_laws : ToolLaws X ShellRuntime (ShellRequest Net) ExecToolCallOutput.
Proof.
  split. intros tool req attempt turn ctx s. cbn. unfold shell_run. destruct svc_zsh_fork.
  - apply (io_of_bind_keeps _ _ (fun s => attempts (network_approval s))). intros env. apply zsh_execute_keeps.
  - apply (io_of_bind_keeps _ _ (fun s => attempts (network_approval s))). intros env.
    rewrite io_map_err_state. apply execute_keeps.
Qed.
#[export] Instance unified_laws : ToolLaws X UnifiedExecRuntime (UnifiedExecRequest Net) Proc.
Proof.
  split. intros tool req attempt turn ctx s. cbn. unfold unified_run.
  apply (io_of_bind_keeps _ _ (fun s => attempts (network_approval s))). intros env.
  rewrite io_map_err_state. apply open_session_keeps.
Qed.
#[export] Instance patch_laws : ToolLaws X ApplyPatchRuntime ApplyPatchRequest ExecToolCallOutput.
Proof.
  split. intros tool req attempt turn ctx s. cbn. unfold patch_run.
  apply (io_of_bind_keeps _ _ (fun s => attempts (network_approval s))). intros env.
  rewrite io_map_err_state. apply execute_keeps.
Qed.
End laws.

(** ** Whole calls *)

Section calls.
Context {X Net Proc : Type} `{!ToolServices X Net Proc} `{!ToolServicesLaws X Net Proc}.

(** A shell command that asks for no escalation and that no rule lets bypass the
    sandbox runs outside of it, under a policy that restricts writes, only after the
    user approved it. *)
Theorem shell_call_contained (req : ShellRequest Net) turn tool_ctx approval_policy first_uuid retry_uuid
    (st : orch X) :
  sh_permissions req = UseDefault -> (forall amendment, sh_requirement req <> Skip true amendment) ->
  has_full_disk_write_access (turn_sandbox_policy turn) = false ->
  platform_sandbox_or_none svc_os (turn_windows_level turn) <> SandboxNone ->
  exists evs,
    trace (run svc_os TheShellRuntime req turn tool_ctx approval_policy first_uuid retry_uuid st).1
      = trace st ++ evs /\
    forall pre a post, evs = pre ++ Attempted a :: post -> attempt_sandbox a = SandboxNone ->
    exists d, Decided d SourceUser ∈ pre /\ rejects d = false.
Proof.
  intros Hperm Hreq Hpolicy Hplatform.
  assert (Hmode : sandbox_mode_for_first_attempt TheShellRuntime req = NoOverride).
  { change (shell_sandbox_mode (sh_permissions req) (sh_requirement req) = NoOverride).
    unfold shell_sandbox_mode. rewrite Hperm. cbn [requires_escalated_permissions orb].
    destruct (sh_requirement req) as [[] amendment|?|?] eqn:E; try done. by destruct (Hreq amendment). }
  destruct (run_protocol (X:=X) svc_os TheShellRuntime req turn tool_ctx approval_policy first_uuid retry_uuid st)
    as (evs & Htr & Hp).
  exists evs. split; [exact Htr|]. intros pre a post.
  eapply (protocol_unsandboxed (T:=ShellRuntime) (Rq:=ShellRequest Net));
    [exact Hpolicy|exact Hplatform|reflexivity|exact Hmode|exact Hp].
Qed.

(** What [apply_patch] decides where the platform has a sandbox and writes are
    restricted. *)
Lemma apply_patch_requirement h os turn approval_policy action apply :
  has_full_disk_write_access (turn_sandbox_policy turn) = false ->
  apply_patch h os turn approval_policy action = Ok (DelegateToExec apply) ->
  exec_action apply = action /\
  (exec_requirement apply = NeedsApproval None None \/
   exec_requirement apply = Skip false None /\
     (approval_policy = OnFailure \/
      is_write_patch_constrained_to_writable_paths h action (turn_sandbox_policy turn) (turn_cwd turn) = Ok true)).
Proof.
  intros Hpolicy. unfold apply_patch, assess_patch_safety. destruct (is_empty action); [done|].
  destruct approval_policy; cbn [mbind outcome_bind];
    try (intros [= <-]; split; [done|by left]);
    destruct (is_write_patch_constrained_to_writable_paths h action (turn_sandbox_policy turn) (turn_cwd turn))
      as [c|e| |] eqn:Hc; try discriminate; cbn [mbind outcome_bind];
    destruct c; cbn [orb]; repeat case_match; try discriminate; intros [= <-]; (split; [done|]); auto.
Qed.


(** A shell command approved for the session is never asked about again, not even
    for its retry without a sandbox or for the network; a patch is asked about again
    for its retry, whatever was approved. *)
Theorem retry_asking (req : ShellRequest Net) (patch : ApplyPatchRequest) ctx (s : Session X) reason :
  (forall key, key ∈ shell_approval_keys svc_try_parse_shell req ->
     store_get svc_key key (tool_approvals s) = Some ApprovedForSession) ->
  shell_start_approval req ctx s = (s, ApprovedForSession) /\
  (retry_reason ctx = Some reason ->
   patch_start_approval patch ctx s
   = svc_request_patch (mk_patch_prompt (approval_call_id ctx) (ap_changes patch) (Some reason)) s).
Proof.
  intros Hkeys. split.
  - unfold shell_start_approval. rewrite with_cached_approval_nonempty by done.
    cbn [shell_approval_keys forallb]. unfold is_approved_for_session.
    change (approvals_of s) with (tool_approvals s). rewrite (Hkeys _ ltac:(left)). by rewrite bool_decide_eq_true_2.
  - intros Hr. unfold patch_start_approval. by rewrite Hr.
Qed.
End calls.

(** ** What is executed *)

Section executed.
Context {X Net Proc : Type} `{!ToolServices X Net Proc}.

(** Under the Linux sandbox a shell call executes the helper with the policy and,
    after [--], the effective command, in the directory of the request and for the
    attempt of the network service; its result is the end of that process, and only a
    missing helper or an empty command ends the call without one. *)
Theorem shell_run_spec (req : ShellRequest Net) attempt ctx (s : Session X) :
  svc_zsh_fork = false -> attempt_sandbox attempt = LinuxSeccomp ->
  match effective_command (sh_command req) (sh_cwd req) (sh_overrides req) s, attempt_linux_exe attempt with
  | [], _ => shell_run req attempt ctx s = (s, Err (Rejected (lit "command args are empty")))
  | _ :: _, None => shell_run req attempt ctx s = (s, Err (Codex LandlockSandboxExecutableNotProvided))
  | command, Some helper =>
      exists env options,
        shell_run req attempt ctx s
          = io_map_err Codex (execute_exec_env env (attempt_policy attempt)) s /\
        er_command env = [helper; lit "--sandbox-policy-cwd"; attempt_sandbox_cwd attempt;
                          lit "--sandbox-policy"; svc_policy_json (attempt_policy attempt)]
                         ++ options ++ lit "--" :: command /\
        (lit "--" ∉ options) /\ er_sandbox env = LinuxSeccomp /\ er_cwd env = sh_cwd req /\
        er_network_attempt_id env = ctx_network_attempt_id ctx
  end.
Proof.
  intros Hzsh Hsandbox. unfold shell_run. rewrite Hzsh.
  destruct (effective_command _ _ _ s) as [|program args]; [done|].
  unfold build_command_spec, attempt_env, env_for, transform, sandboxed_command.
  cbn [mbind outcome_bind tr_sandbox tr_linux_sandbox_exe]. rewrite Hsandbox.
  destruct (attempt_linux_exe attempt) as [helper|]; [|done].
  cbn [ok_or mbind outcome_bind map_err].
  eexists _, ((if attempt_use_bwrap attempt then [lit "--use-bwrap-sandbox"] else [])
              ++ (if attempt_managed_network attempt then [lit "--allow-network-for-proxy"] else [])).
  split; [reflexivity|].
  cbn [with_attempt_id er_command er_sandbox er_cwd er_network_attempt_id tr_spec cs_program cs_args cs_cwd
       tr_policy_cwd tr_policy tr_use_bwrap tr_enforce_managed_network].
  unfold create_linux_sandbox_command_args, allow_network_for_proxy.
  split; [by rewrite <-!(assoc (++))|].
  split; [|done].
  destruct (attempt_use_bwrap attempt), (attempt_managed_network attempt);
    apply (bool_decide_unpack _); vm_compute; exact I.
Qed.
End executed.

(** ** Witnesses *)

(** A user who approves everything, a shell without a snapshot, and processes that are
    recorded and exit with code 1 and an empty output. *)
#[local] Instance example_services : ToolServices (list (list str)) () () :=
  {| svc_os := Linux; svc_policy_json _ := lit "P"; svc_seatbelt_args _ _ _ _ _ _ := [];
     svc_try_parse_shell _ := None; svc_path_exists _ _ := true; svc_normalize _ p := Some p;
     svc_user_shell _ := mk_shell Bash (lit "/bin/bash") None;
     svc_powershell_utf8 := false; svc_zsh_fork := false; svc_current_exe _ := Ok (lit "/codex");
     svc_key k := Some (join (lit " ") (key_command k));
     svc_unified_key k := Some (join (lit " ") (unified_key_command k)); svc_path_key p := Some p;
     svc_request_command _ s := (s, Approved); svc_request_patch _ s := (s, Approved);
     svc_exec env _ _ s := (with_outside (outside s ++ [er_command env]) s,
                            Ok (collect_output (ChildExited 256) None None));
     svc_open_session env _ s := (with_outside (outside s ++ [er_command env]) s, Ok ());
     svc_wrapper_socket _ := lit "/sock"; svc_zsh_execute _ _ s := (s, Err (Rejected []));
     svc_apply_network_env _ _ e := e; svc_parse_uuid u := Some u; svc_new_uuid _ := lit "u";
     svc_to_lowercase t := t; svc_bytes_to_string b := b |}.
#[local] Instance example_services_laws : ToolServicesLaws (list (list str)) () ().
Proof. by split. Qed.

Definition example_shell_request (requirement : ExecApprovalRequirement) : ShellRequest () :=
  mk_shell_request [lit "ls"] (lit "/w") None ∅ ∅ None UseDefault None requirement.
Definition example_session : Session (list (list str)) := mk_session default_service ∅ [].

Lemma shell_call_contained_witness :
  exists evs,
    trace (run svc_os TheShellRuntime (example_shell_request (Skip false None)) (example_turn false)
             example_ctx OnFailure (lit "u1") (lit "u2") (mk_orch example_session [])).1 = [] ++ evs /\
    forall pre a post, evs = pre ++ Attempted a :: post -> attempt_sandbox a = SandboxNone ->
    exists d, Decided d SourceUser ∈ pre /\ rejects d = false.
Proof.
  apply (shell_call_contained (example_shell_request (Skip false None)) (example_turn false) example_ctx
           OnFailure (lit "u1") (lit "u2") (mk_orch example_session [])); try reflexivity; discriminate.
Defined.

Definition example_attempt : SandboxAttempt :=
  mk_sandbox_attempt LinuxSeccomp (ReadOnly FullAccess) false (lit "/w") (Some (lit "/exe")) false Disabled.

Lemma shell_run_spec_witness :
  exists env options,
    shell_run (example_shell_request (Skip false None)) example_attempt example_ctx example_session
      = io_map_err Codex (execute_exec_env env (ReadOnly FullAccess)) example_session /\
    er_command env = [lit "/exe"; lit "--sandbox-policy-cwd"; lit "/w"; lit "--sandbox-policy"; lit "P"]
                     ++ options ++ [lit "--"; lit "ls"].
Proof.
  destruct (@shell_run_spec _ _ _ example_services (example_shell_request (Skip false None))
              example_attempt example_ctx example_session eq_refl eq_refl)
    as (env & options & Hrun & Hcmd & _).
  exists env, options. split; [exact Hrun|exact Hcmd].
Defined.

Lemma retry_asking_witness :
  let s := with_approvals {[lit "ls" := ApprovedForSession]} example_session in
  let ctx := mk_approval_ctx (lit "c") (Some (lit "retry")) None in
  let patch := mk_patch_request ws_action [] ∅ (NeedsApproval None None) None None in
  shell_start_approval (example_shell_request (Skip false None)) ctx s = (s, ApprovedForSession) /\
  patch_start_approval patch ctx s = (s, Approved).
Proof.
  intros s ctx patch.
  destruct (retry_asking (example_shell_request (Skip false None)) patch ctx s (lit "retry")) as [H1 H2].
  - intros key ->%list_elem_of_singleton. vm_compute. reflexivity.
  - split; [exact H1|]. by rewrite H2.
Defined.

