(* ===== verification/TurnState.v ===== *)
(** * The active turn (core/src/state/turn.rs, core/src/tasks/mod.rs, and the requests
      and notifications of core/src/codex.rs and core/src/tools/handlers/dynamic.rs)

    A turn is a running task with the questions it waits on and the input that waits for
    it.  A question is a one-shot channel: its sender lies in the turn until an answer
    takes it out, its receiver with the code that asked.  Any task of the session may
    move next, so the operations are steps of a labelled relation. *)

From stdpp Require Import gmap sets.
From S2P Require Import Prelude RustStd.
From S2P Require Import ExecApproval.

(** ** Data *)

(** The three maps of pending senders are one, keyed by the kind of question too. *)
Inductive question : Type := AskApproval | AskUserInput | AskDynamicTool.
#[export] Instance question_eq_dec : EqDecision question.
Proof. solve_decision. Defined.
#[export] Instance question_countable : Countable question.
Proof.
  refine (inj_countable' (fun q => match q with AskApproval => 0 | AskUserInput => 1 | AskDynamicTool => 2 end)
            (fun n => match n with 0 => AskApproval | 1 => AskUserInput | _ => AskDynamicTool end) _).
  by intros [].
Defined.

Inductive answer : Type :=
  | Decision (d : ReviewDecision)
  | UserInputResponse (response : str)
  | DynamicToolResponse (response : str).

Abbreviation chan := nat (only parsing).

(** A one-shot channel: open while its sender lives. *)
Inductive chan_state : Type := Open | Sent (a : answer) | Closed.

Record TurnState : Type := mk_turn_state {
  pending : gmap (question * str) chan;
  pending_input : list str;
}.

Definition insert_pending (q : question) (key : str) (tx : chan) (ts : TurnState) : TurnState * option chan :=
  (mk_turn_state (<[(q, key) := tx]> (pending ts)) (pending_input ts), pending ts !! (q, key)).
Definition remove_pending (q : question) (key : str) (ts : TurnState) : TurnState * option chan :=
  (mk_turn_state (delete (q, key) (pending ts)) (pending_input ts), pending ts !! (q, key)).
Definition push_pending_input (input : str) (ts : TurnState) : TurnState :=
  mk_turn_state (pending ts) (pending_input ts ++ [input]).
Definition take_pending_input (ts : TurnState) : TurnState * list str :=
  (mk_turn_state (pending ts) [], pending_input ts).
Definition has_pending_input (ts : TurnState) : bool := negb (bool_decide (pending_input ts = [])).

(** The senders a turn owns: clearing or dropping it drops them. *)
Definition turn_senders (ts : TurnState) : list chan := snd <$> map_to_list (pending ts).

(** [tasks]: the keys of the [IndexMap], in order. *)
Record ActiveTurn : Type := mk_active_turn { turn_tasks : list str; turn_state : TurnState }.

Definition default_turn_state : TurnState := mk_turn_state ∅ [].
Definition default_active_turn : ActiveTurn := mk_active_turn [] default_turn_state.

Definition add_task (sub_id : str) (at_ : ActiveTurn) : ActiveTurn :=
  mk_active_turn (if bool_decide (sub_id ∈ turn_tasks at_) then turn_tasks at_ else turn_tasks at_ ++ [sub_id])
    (turn_state at_).

(** [IndexMap::swap_remove]: the last entry takes the place of the removed one. *)
Definition swap_remove (sub_id : str) (l : list str) : list str :=
  match list_find (fun x => x = sub_id) l with
  | Some (i, _) =>
      match last l with
      | Some z => take (length l - 1) (<[i := z]> l)
      | None => l
      end
  | None => l
  end.

Definition remove_task (sub_id : str) (at_ : ActiveTurn) : ActiveTurn * bool :=
  let tasks := swap_remove sub_id (turn_tasks at_) in
  (mk_active_turn tasks (turn_state at_), bool_decide (tasks = [])).

(** ** The session *)

(** A question that waits: what was asked, and the sender that a local of the asking
    function keeps alive until the answer: the one it replaced, or its own. *)
Record wait : Type := mk_wait { wait_question : question; wait_key : str; wait_held : option chan }.

(** A spawned task: it runs, it was cancelled, or it has run, found itself not cancelled
    and is about to report. *)
Inductive task_phase : Type := TaskRunning | TaskCancelled | TaskFinishing.

Inductive TurnAbortReason : Type := Interrupted | Replaced | ReviewEnded.

Inductive turn_event : Type := TurnComplete (turn_id : str) | TurnAborted (turn_id : str).

Record TurnSession : Type := mk_session {
  active_turn : option ActiveTurn;
  next_chan : nat;
  chans : gmap chan chan_state;
  waits : gmap chan wait;
  phases : gmap str task_phase;
  history : list str;
  events : list turn_event;
}.

Definition initial_session : TurnSession := mk_session None 0 ∅ ∅ ∅ [] [].

Definition with_active (at_ : option ActiveTurn) (s : TurnSession) : TurnSession :=
  mk_session at_ (next_chan s) (chans s) (waits s) (phases s) (history s) (events s).
Definition with_chans (cs : gmap chan chan_state) (s : TurnSession) : TurnSession :=
  mk_session (active_turn s) (next_chan s) cs (waits s) (phases s) (history s) (events s).
Definition with_waits (ws : gmap chan wait) (s : TurnSession) : TurnSession :=
  mk_session (active_turn s) (next_chan s) (chans s) ws (phases s) (history s) (events s).
Definition with_phases (ps : gmap str task_phase) (s : TurnSession) : TurnSession :=
  mk_session (active_turn s) (next_chan s) (chans s) (waits s) ps (history s) (events s).
Definition with_history (h : list str) (s : TurnSession) : TurnSession :=
  mk_session (active_turn s) (next_chan s) (chans s) (waits s) (phases s) h (events s).
Definition send_event (e : turn_event) (s : TurnSession) : TurnSession :=
  mk_session (active_turn s) (next_chan s) (chans s) (waits s) (phases s) (history s) (events s ++ [e]).

Definition active_turn_state (s : TurnSession) : option TurnState := turn_state <$> active_turn s.

(** Senders that go out of scope, and an answer that is sent. *)
Definition drop_sender (c : chan) (cs : gmap chan chan_state) : gmap chan chan_state :=
  match cs !! c with Some Open => <[c := Closed]> cs | _ => cs end.
Definition drop_senders (l : list chan) (s : TurnSession) : TurnSession :=
  with_chans (foldr drop_sender (chans s) l) s.
Definition send_answer (c : chan) (a : answer) (s : TurnSession) : TurnSession :=
  with_chans (match chans s !! c with Some Open => <[c := Sent a]> (chans s) | _ => chans s end) s.

(** ** Asking and answering *)

(** The new sender is put into the active turn, and the one it replaces comes out.
    Without an active turn it is moved nowhere, and stays a local. *)
Definition place_sender (q : question) (key : str) (c : chan) (s : TurnSession) : TurnSession * option chan :=
  match active_turn s with
  | Some at_ =>
      let '(ts, prev_entry) := insert_pending q key c (turn_state at_) in
      (with_active (Some (mk_active_turn (turn_tasks at_) ts)) s, prev_entry)
  | None => (s, Some c)
  end.

Definition new_chan (s : TurnSession) : TurnSession :=
  mk_session (active_turn s) (S (next_chan s)) (<[next_chan s := Open]> (chans s)) (waits s) (phases s)
    (history s) (events s).

(** [request_command_approval], [request_user_input] and [request_dynamic_tool] up to
    the wait ([holds]: their locals live on), and [request_patch_approval], which
    returns the receiver and with that drops its locals. *)
Definition begin_request (holds : bool) (q : question) (key : str) (s : TurnSession) : TurnSession :=
  let c := next_chan s in
  let '(s, local) := place_sender q key c (new_chan s) in
  if holds then with_waits (<[c := mk_wait q key local]> (waits s)) s
  else drop_senders (option_list local) (with_waits (<[c := mk_wait q key None]> (waits s)) s).

(** [notify_approval], [notify_user_input_response] and [notify_dynamic_tool_response]. *)
Definition notify (q : question) (key : str) (a : answer) (s : TurnSession) : TurnSession :=
  match active_turn s with
  | Some at_ =>
      let '(ts, entry) := remove_pending q key (turn_state at_) in
      let s := with_active (Some (mk_active_turn (turn_tasks at_) ts)) s in
      match entry with Some tx => send_answer tx a s | None => s end
  | None => s
  end.

(** The end of a wait: what the receiver yields, if it is ready, and the locals dropped. *)
Definition received (c : chan) (s : TurnSession) : option (option answer) :=
  match chans s !! c with
  | Some (Sent a) => Some (Some a)
  | Some Closed => Some None
  | _ => None
  end.
Definition end_wait (c : chan) (s : TurnSession) : TurnSession :=
  match waits s !! c with
  | Some w => drop_senders (option_list (wait_held w)) (with_waits (delete c (waits s)) s)
  | None => s
  end.

(** [rx_approve.await.unwrap_or_default()]. *)
Definition decision_received (r : option answer) : ReviewDecision :=
  match r with Some (Decision d) => d | _ => Denied end.

(** ** Input *)

Inductive SteerInputError : Type :=
  | EmptyInput
  | NoActiveTurn (input : str)
  | ExpectedTurnMismatch (expected actual : str).

(** An empty input is the empty string. *)
Definition steer_input (input : str) (expected_turn_id : option str) (s : TurnSession)
    : TurnSession * outcome SteerInputError str :=
  if bool_decide (input = []) then (s, Err EmptyInput)
  else
    match active_turn s with
    | None => (s, Err (NoActiveTurn input))
    | Some at_ =>
        match head (turn_tasks at_) with
        | None => (s, Err (NoActiveTurn input))
        | Some active_turn_id =>
            let push := with_active (Some (mk_active_turn (turn_tasks at_)
                                             (push_pending_input input (turn_state at_)))) s in
            match expected_turn_id with
            | Some expected =>
                if bool_decide (expected = active_turn_id) then (push, Ok active_turn_id)
                else (s, Err (ExpectedTurnMismatch expected active_turn_id))
            | None => (push, Ok active_turn_id)
            end
        end
    end.

Definition inject_response_items (input : list str) (s : TurnSession) : TurnSession * outcome (list str) () :=
  match active_turn s with
  | Some at_ =>
      (with_active (Some (mk_active_turn (turn_tasks at_)
                            (foldl (fun ts item => push_pending_input item ts) (turn_state at_) input))) s, Ok ())
  | None => (s, Err input)
  end.

Definition get_pending_input (s : TurnSession) : TurnSession * list str :=
  match active_turn s with
  | Some at_ =>
      let '(ts, input) := take_pending_input (turn_state at_) in
      (with_active (Some (mk_active_turn (turn_tasks at_) ts)) s, input)
  | None => (s, [])
  end.

Definition session_has_pending_input (s : TurnSession) : bool :=
  match active_turn s with Some at_ => has_pending_input (turn_state at_) | None => false end.

(** ** Tasks *)

(** Dropping the active turn drops the senders it owns. *)
Definition replace_active (at_ : option ActiveTurn) (s : TurnSession) : TurnSession :=
  drop_senders (match active_turn_state s with Some ts => turn_senders ts | None => [] end) (with_active at_ s).

(** The tasks that were running. *)
Definition take_all_running_tasks (s : TurnSession) : TurnSession * list str :=
  match active_turn s with
  | Some at_ => (replace_active None s, turn_tasks at_)
  | None => (s, [])
  end.

Definition register_new_active_task (sub_id : str) (s : TurnSession) : TurnSession :=
  replace_active (Some (add_task sub_id default_active_turn)) s.

(** [handle_task_abort] up to its wait, and after it; the token may have been cancelled
    before. *)
Definition cancel_task (sub_id : str) (s : TurnSession) : TurnSession :=
  match phases s !! sub_id with
  | Some TaskRunning => with_phases (<[sub_id := TaskCancelled]> (phases s)) s
  | _ => s
  end.
Definition finish_abort (sub_id : str) (s : TurnSession) : TurnSession :=
  send_event (TurnAborted sub_id) (with_phases (delete sub_id (phases s)) s).

(** The input left over goes to the history; empty input is not recorded. *)
Definition on_task_finished (sub_id : str) (s : TurnSession) : TurnSession :=
  let s :=
    match active_turn s with
    | Some at_ =>
        let '(at_, empty) := remove_task sub_id at_ in
        if empty then
          let '(_, input) := take_pending_input (turn_state at_) in
          with_history (history s ++ input) (replace_active None s)
        else with_active (Some at_) s
    | None => s
    end in
  send_event (TurnComplete sub_id) s.

(** ** Steps *)

Inductive turn_label : Type :=
  | LRequest (c : chan) (q : question) (key : str)
  | LNotify (q : question) (key : str) (a : answer)
  | LReceive (c : chan) (r : option answer)
  | LAbandon (c : chan)
  | LSteer (pushed : list str)
  | LTakeInput (input : list str)
  | LTakeAll (lost : list str)
  | LRegister (sub_id : str) (lost : list str)
  | LFinish (sub_id : str) (recorded : list str)
  | LTask (sub_id : str).

Definition pending_input_of (s : TurnSession) : list str :=
  match active_turn s with Some at_ => pending_input (turn_state at_) | None => [] end.

(** What a step does to the input: what it adds, and what it takes away. *)
Definition pushed_by (l : turn_label) : list str := match l with LSteer pushed => pushed | _ => [] end.
Definition consumed_by (l : turn_label) : list str :=
  match l with
  | LTakeInput input | LTakeAll input | LRegister _ input | LFinish _ input => input
  | _ => []
  end.

(** Any task may move next.  [LAbandon] is a waiting future that is dropped. *)
Inductive turn_step : TurnSession -> turn_label -> TurnSession -> Prop :=
  | step_request s holds q key :
      turn_step s (LRequest (next_chan s) q key) (begin_request holds q key s)
  | step_notify s q key a : turn_step s (LNotify q key a) (notify q key a s)
  | step_receive s c r :
      is_Some (waits s !! c) -> received c s = Some r -> turn_step s (LReceive c r) (end_wait c s)
  | step_abandon s c : is_Some (waits s !! c) -> turn_step s (LAbandon c) (end_wait c s)
  | step_steer s input expected turn_id s' :
      steer_input input expected s = (s', Ok turn_id) -> turn_step s (LSteer [input]) s'
  | step_inject s input s' : inject_response_items input s = (s', Ok ()) -> turn_step s (LSteer input) s'
  | step_take_input s : turn_step s (LTakeInput (get_pending_input s).2) (get_pending_input s).1
  | step_take_all s : turn_step s (LTakeAll (pending_input_of s)) (take_all_running_tasks s).1
  | step_register s sub_id :
      turn_step s (LRegister sub_id (pending_input_of s)) (register_new_active_task sub_id s)
  | step_spawn s sub_id : phases s !! sub_id = None ->
      turn_step s (LTask sub_id) (with_phases (<[sub_id := TaskRunning]> (phases s)) s)
  | step_check s sub_id : phases s !! sub_id = Some TaskRunning ->
      turn_step s (LTask sub_id) (with_phases (<[sub_id := TaskFinishing]> (phases s)) s)
  | step_cancel s sub_id : turn_step s (LTask sub_id) (cancel_task sub_id s)
  | step_aborted s sub_id : turn_step s (LTask sub_id) (finish_abort sub_id s)
  | step_finish s sub_id : phases s !! sub_id = Some TaskFinishing ->
      turn_step s
        (LFinish sub_id (if bool_decide (active_turn (on_task_finished sub_id s) = None) then pending_input_of s else []))
        (with_phases (delete sub_id (phases s)) (on_task_finished sub_id s)).

(** The labels in the order of the steps. *)
Inductive turn_run : list turn_label -> TurnSession -> Prop :=
  | run_start : turn_run [] initial_session
  | run_snoc ls s l s' : turn_run ls s -> turn_step s l s' -> turn_run (ls ++ [l]) s'.

(** ** Every sender has one owner *)

(** [l]: the senders that live; they are the open channels. *)
Record chans_ok (l : list chan) (cs : gmap chan chan_state) (n : nat) : Prop := {
  senders_nodup : NoDup l;
  senders_open c : c ∈ l <-> cs !! c = Some Open;
  chans_fresh c : is_Some (cs !! c) -> c < n;
}.

Lemma chans_ok_perm l l' cs n : l ≡ₚ l' -> chans_ok l cs n -> chans_ok l' cs n.
Proof.
  intros Hp [Hnd Hopen Hfresh]. split; [by rewrite <-Hp| |done]. intros c. by rewrite <-Hp.
Qed.

#[export] Instance chans_ok_proper : Proper ((≡ₚ) ==> eq ==> eq ==> iff) chans_ok.
Proof. intros l l' Hp cs ? <- n ? <-. by split; apply chans_ok_perm. Qed.

Lemma chans_ok_new l cs n : chans_ok l cs n -> chans_ok (n :: l) (<[n := Open]> cs) (S n).
Proof.
  intros [Hnd Hopen Hfresh].
  assert (Hn : cs !! n = None).
  { apply eq_None_not_Some. intros Hs%Hfresh. lia. }
  split.
  - apply NoDup_cons. split; [|done]. rewrite Hopen. congruence.
  - intros c. rewrite elem_of_cons, Hopen, lookup_insert_Some. split; [|naive_solver].
    intros [->|Hc]; [by left|]. right. split; [intros ->; congruence|done].
  - intros c. rewrite lookup_insert_is_Some'. intros [->|Hc]; [lia|]. apply Hfresh in Hc. lia.
Qed.

(** Whatever an owned sender's channel becomes. *)
Lemma chans_ok_remove c x l cs n :
  x <> Open -> chans_ok (c :: l) cs n -> chans_ok l (<[c := x]> cs) n.
Proof.
  intros Hx [[Hc Hnd]%NoDup_cons Hopen Hfresh]. split; [done| |].
  - intros c'. rewrite lookup_insert_Some. specialize (Hopen c'). rewrite elem_of_cons in Hopen.
    split; [intros Hin; right; split; [by intros ->|naive_solver]|]. intros [[-> ?]|[Hne Ho]]; [done|].
    apply Hopen in Ho as [->|?]; done.
  - intros c'. rewrite lookup_insert_is_Some'. intros [<-|?]; [|auto].
    apply Hfresh. exists Open. apply Hopen. left.
Qed.

Lemma chans_ok_drop c l cs n : chans_ok (c :: l) cs n -> chans_ok l (drop_sender c cs) n.
Proof.
  intros Hok. unfold drop_sender. assert (Hc : cs !! c = Some Open) by (apply (senders_open _ _ _ Hok); left).
  rewrite Hc. by apply chans_ok_remove.
Qed.

Lemma chans_ok_drops l1 l2 cs n :
  chans_ok (l1 ++ l2) cs n -> chans_ok l2 (foldr drop_sender cs l1) n.
Proof.
  revert l2. induction l1 as [|c l1 IH]; intros l2 Hok; [done|]. cbn [foldr]. apply chans_ok_drop.
  apply IH. by rewrite <-Permutation_middle.
Qed.

(** The owners: the active turn, and the locals of the questions that wait. *)
Definition pending_senders (s : TurnSession) : list chan :=
  match active_turn s with Some at_ => turn_senders (turn_state at_) | None => [] end.
Definition held_senders (ws : gmap chan wait) : list chan :=
  (map_to_list ws).*2 ≫= fun w => option_list (wait_held w).

Lemma elem_of_held ws c :
  c ∈ held_senders ws <-> exists c1 w, ws !! c1 = Some w /\ wait_held w = Some c.
Proof.
  assert (Hol : forall o : option nat, c ∈ option_list o <-> o = Some c).
  { intros [x|]; cbn; [rewrite list_elem_of_singleton; naive_solver|]. split; [by intros ?%not_elem_of_nil|done]. }
  unfold held_senders. rewrite list_elem_of_bind. setoid_rewrite Hol. setoid_rewrite list_elem_of_fmap.
  split.
  - intros (w & Hw & ([c1 w'] & -> & Hin)). apply elem_of_map_to_list in Hin. eauto.
  - intros (c1 & w & Hin & Hw). exists w. split; [done|]. exists (c1, w). split; [done|].
    by apply elem_of_map_to_list.
Qed.

Record session_ok (s : TurnSession) : Prop := {
  ok_chans : chans_ok (pending_senders s ++ held_senders (waits s)) (chans s) (next_chan s);
  ok_waits c w : waits s !! c = Some w ->
    is_Some (chans s !! c) /\ forall c', wait_held w = Some c' -> c' <= c;
}.

Lemma held_insert ws c w :
  ws !! c = None -> held_senders (<[c := w]> ws) ≡ₚ option_list (wait_held w) ++ held_senders ws.
Proof. intros Hc. unfold held_senders. by rewrite map_to_list_insert. Qed.

Lemma held_delete ws c w :
  ws !! c = Some w -> held_senders ws ≡ₚ option_list (wait_held w) ++ held_senders (delete c ws).
Proof. intros Hc. rewrite <-(insert_delete_id ws c w) at 1 by done. apply held_insert, lookup_delete_eq. Qed.

Lemma turn_senders_delete ts k :
  turn_senders ts ≡ₚ option_list (pending ts !! k)
                     ++ turn_senders (mk_turn_state (delete k (pending ts)) (pending_input ts)).
Proof.
  unfold turn_senders. cbn [pending]. destruct (pending ts !! k) as [c|] eqn:Hk; [|by rewrite delete_id].
  rewrite <-(insert_delete_id (pending ts) k c) at 1 by done.
  rewrite map_to_list_insert by apply lookup_delete_eq. done.
Qed.

Lemma turn_senders_insert ts q key c :
  let r := insert_pending q key c ts in c :: turn_senders ts ≡ₚ option_list r.2 ++ turn_senders r.1.
Proof.
  cbn. rewrite (turn_senders_delete ts (q, key)). unfold turn_senders. cbn [pending].
  rewrite <-(insert_delete_eq (pending ts)). rewrite map_to_list_insert by apply lookup_delete_eq.
  by rewrite fmap_cons, Permutation_middle.
Qed.

Lemma drop_senders_is_Some l cs c : is_Some (foldr drop_sender cs l !! c) <-> is_Some (cs !! c).
Proof.
  induction l as [|x l IH]; [done|]. cbn [foldr]. rewrite <-IH. unfold drop_sender at 1.
  destruct (foldr drop_sender cs l !! x) as [[]|] eqn:Hx; try done.
  rewrite lookup_insert_is_Some'. split; [intros [<-|?]; [by eexists|done]|auto].
Qed.

(** A state that differs in nothing that owns or knows a channel. *)
Lemma session_ok_same s s' :
  pending_senders s' = pending_senders s -> waits s' = waits s -> chans s' = chans s ->
  next_chan s' = next_chan s -> session_ok s -> session_ok s'.
Proof. intros Hp Hw Hc Hn [Hok Hwait]. split; by rewrite ?Hp, ?Hw, ?Hc, ?Hn. Qed.

(** Senders that leave their owner are dropped. *)
Lemma drop_senders_ok l s :
  chans_ok (l ++ pending_senders s ++ held_senders (waits s)) (chans s) (next_chan s) ->
  (forall c w, waits s !! c = Some w -> is_Some (chans s !! c) /\ forall c', wait_held w = Some c' -> c' <= c) ->
  session_ok (drop_senders l s).
Proof.
  intros Hok Hwait. split; [by apply chans_ok_drops|]. intros c w Hc. cbn [drop_senders with_chans chans].
  rewrite drop_senders_is_Some. by apply Hwait.
Qed.

Lemma fresh_not_waiting s : session_ok s -> waits s !! next_chan s = None.
Proof.
  intros [Hok Hwait]. apply eq_None_not_Some. intros [w Hw]. apply Hwait in Hw as [Hw _].
  apply (chans_fresh _ _ _ Hok) in Hw. lia.
Qed.

Lemma place_sender_spec q key s :
  session_ok s ->
  let r := place_sender q key (next_chan s) (new_chan s) in
  waits r.1 = waits s /\ chans r.1 = <[next_chan s := Open]> (chans s) /\ next_chan r.1 = S (next_chan s) /\
  next_chan s :: pending_senders s ≡ₚ option_list r.2 ++ pending_senders r.1 /\
  forall c, r.2 = Some c -> c <= next_chan s.
Proof.
  intros [Hok _] r. unfold r, place_sender, pending_senders. cbn [new_chan active_turn].
  destruct (active_turn s) as [at_|] eqn:Ha.
  2:{ cbn. rewrite Ha. do 4 (split; [done|]). intros c [= <-]. lia. }
  pose proof (turn_senders_insert (turn_state at_) q key (next_chan s)) as Hi. cbn in Hi |- *.
  split_and!; try done. intros c Hprev.
  enough (Ho : c ∈ pending_senders s ++ held_senders (waits s)).
  { apply (senders_open _ _ _ Hok) in Ho. enough (c < next_chan s) by lia. apply (chans_fresh _ _ _ Hok). by eexists. }
  apply elem_of_app. left. unfold pending_senders. rewrite Ha. apply list_elem_of_fmap.
  exists ((q, key), c). split; [done|]. by apply elem_of_map_to_list.
Qed.

Lemma begin_request_ok holds q key s : session_ok s -> session_ok (begin_request holds q key s).
Proof.
  intros Hs. pose proof (fresh_not_waiting s Hs) as Hc. pose proof (place_sender_spec q key s Hs) as Hr.
  destruct Hs as [Hok Hwait]. pose proof (chans_ok_new _ _ _ Hok) as Hnew. unfold begin_request.
  set (c := next_chan s) in *. destruct (place_sender q key c (new_chan s)) as [s2 local].
  cbn [fst snd] in Hr. destruct Hr as (Hw2 & Hc2 & Hn2 & Hperm & Hlocal).
  assert (Hall : chans_ok (option_list local ++ pending_senders s2 ++ held_senders (waits s)) (chans s2) (next_chan s2)).
  { rewrite Hc2, Hn2, (assoc (++)), <-Hperm. exact Hnew. }
  assert (Hwait2 : forall w, (forall c', wait_held w = Some c' -> c' <= c) -> forall c0 w0,
    <[c := w]> (waits s) !! c0 = Some w0 ->
    is_Some (chans s2 !! c0) /\ forall c', wait_held w0 = Some c' -> c' <= c0).
  { intros w Hw c0 w0. rewrite lookup_insert_Some, Hc2. intros [[<- <-]|[Hne Hw0]].
    - rewrite lookup_insert_eq. split; [by eexists|done].
    - rewrite lookup_insert_ne by done. by apply Hwait. }
  destruct holds.
  - split; cbn [with_waits waits chans next_chan]; rewrite Hw2; [|by apply Hwait2].
    change (pending_senders (with_waits ?ws s2)) with (pending_senders s2).
    rewrite held_insert by done. cbn [wait_held].
    by rewrite (assoc (++)), (comm (++) (pending_senders s2)), <-(assoc (++)).
  - apply drop_senders_ok; cbn [with_waits waits chans next_chan]; rewrite Hw2; [|by apply Hwait2].
    change (pending_senders (with_waits ?ws s2)) with (pending_senders s2).
    by rewrite held_insert by done.
Qed.

Lemma notify_ok q key a s : session_ok s -> session_ok (notify q key a s).
Proof.
  intros Hs. unfold notify, remove_pending. destruct (active_turn s) as [at_|] eqn:Ha; [|done].
  pose proof (turn_senders_delete (turn_state at_) (q, key)) as Hp.
  destruct Hs as [Hok Hwait]. unfold pending_senders in Hok. rewrite Ha in Hok.
  rewrite Hp in Hok. destruct (pending (turn_state at_) !! (q, key)) as [c|] eqn:Hc;
    [|split; [exact Hok|exact Hwait]].
  cbn [option_list app] in Hok. unfold send_answer. cbn [with_active chans].
  rewrite (proj1 (senders_open _ _ _ Hok c) ltac:(left)). split; cbn [with_chans with_active chans waits next_chan].
  - by apply chans_ok_remove.
  - intros c' w Hw. rewrite lookup_insert_is_Some'. split; [right|]; by eapply Hwait.
Qed.

Lemma end_wait_ok c s : session_ok s -> session_ok (end_wait c s).
Proof.
  intros [Hok Hwait]. unfold end_wait. destruct (waits s !! c) as [w|] eqn:Hw; [|done].
  apply drop_senders_ok; cbn [with_waits waits chans next_chan].
  - change (pending_senders (with_waits ?ws s)) with (pending_senders s).
    eapply chans_ok_perm; [|exact Hok]. rewrite (held_delete _ _ _ Hw).
    rewrite !(assoc (++)). f_equiv. apply Permutation_app_comm.
  - intros c' w' [_ Hw']%lookup_delete_Some. by eapply Hwait.
Qed.

Lemma replace_active_ok at_ s :
  match at_ with Some at_ => pending (turn_state at_) = ∅ | None => True end ->
  session_ok s -> session_ok (replace_active at_ s).
Proof.
  intros Hat [Hok Hwait]. unfold replace_active. apply drop_senders_ok; [|exact Hwait].
  assert (Hnew : pending_senders (with_active at_ s) = []).
  { unfold pending_senders. cbn. destruct at_ as [at_|]; [|done]. unfold turn_senders. by rewrite Hat. }
  rewrite Hnew. unfold pending_senders in Hok. unfold active_turn_state.
  by destruct (active_turn s).
Qed.

Lemma on_task_finished_ok sub_id s : session_ok s -> session_ok (on_task_finished sub_id s).
Proof.
  intros Hs. unfold on_task_finished. destruct (active_turn s) as [at_|] eqn:Ha;
    [|by eapply session_ok_same, Hs].
  destruct (remove_task sub_id at_) as [at' []] eqn:Hr.
  - cbn. eapply session_ok_same, (replace_active_ok None s); done.
  - eapply session_ok_same, Hs; try done. unfold pending_senders. cbn. rewrite Ha.
    by injection Hr as <- _.
Qed.

Lemma steer_input_same input expected s s' turn_id :
  steer_input input expected s = (s', Ok turn_id) ->
  exists at_, active_turn s = Some at_ /\ head (turn_tasks at_) = Some turn_id /\
    (expected = None \/ expected = Some turn_id) /\
    s' = with_active (Some (mk_active_turn (turn_tasks at_) (push_pending_input input (turn_state at_)))) s.
Proof.
  unfold steer_input. case_bool_decide; [done|]. destruct (active_turn s) as [at_|]; [|done].
  destruct (head (turn_tasks at_)) as [t|] eqn:Ht; [|done]. intros Hs. exists at_. split; [done|].
  destruct expected as [e|]; [case_bool_decide; [subst e|done]|]; injection Hs as <- <-; auto.
Qed.

Lemma push_all_pending input ts :
  pending (foldl (fun ts item => push_pending_input item ts) ts input) = pending ts /\
  pending_input (foldl (fun ts item => push_pending_input item ts) ts input) = pending_input ts ++ input.
Proof.
  revert ts. induction input as [|i input IH]; intros ts; [by rewrite app_nil_r|]. cbn [foldl].
  destruct (IH (push_pending_input i ts)) as [-> ->]. cbn. by rewrite <-(assoc (++)).
Qed.

Lemma turn_step_ok s l s' : turn_step s l s' -> session_ok s -> session_ok s'.
Proof.
  intros Hstep Hs.
  destruct Hstep as [s holds q key|s q key a|s c r _ _|s c _|s i e t s' Hi|s i s' Hi|s|s|s sub|s sub _|s sub _|s sub|s sub|s sub _].
  - by apply begin_request_ok.
  - by apply notify_ok.
  - by apply end_wait_ok.
  - by apply end_wait_ok.
  - apply steer_input_same in Hi as (at_ & Ha & _ & _ & ->). eapply session_ok_same, Hs; try done.
    unfold pending_senders. cbn. by rewrite Ha.
  - unfold inject_response_items in Hi. destruct (active_turn s) as [at_|] eqn:Ha; [|done]. injection Hi as <-.
    eapply session_ok_same, Hs; try done. unfold pending_senders, turn_senders. cbn. rewrite Ha.
    by rewrite (proj1 (push_all_pending i (turn_state at_))).
  - unfold get_pending_input. destruct (active_turn s) as [at_|] eqn:Ha; [|done].
    eapply session_ok_same, Hs; try done. unfold pending_senders. cbn. by rewrite Ha.
  - unfold take_all_running_tasks. destruct (active_turn s); [|done]. by apply (replace_active_ok None).
  - by apply replace_active_ok.
  - by eapply session_ok_same, Hs.
  - by eapply session_ok_same, Hs.
  - unfold cancel_task. repeat case_match; by try (eapply session_ok_same, Hs).
  - by eapply session_ok_same, Hs.
  - eapply session_ok_same, (on_task_finished_ok sub s Hs); done.
Qed.

Lemma initial_ok : session_ok initial_session.
Proof.
  split; [|intros c w; cbn; by rewrite lookup_empty]. split; cbn.
  - constructor.
  - intros c. rewrite lookup_empty. set_solver.
  - intros c [x Hx]. cbn in Hx. by rewrite lookup_empty in Hx.
Qed.

Lemma turn_run_ok ls s : turn_run ls s -> session_ok s.
Proof. induction 1; [apply initial_ok|]. by eapply turn_step_ok. Qed.

(** Every sender of an answer has one owner: the open channels are exactly those whose
    sender is in the active turn or held by a waiting question, none is owned twice,
    and a new channel is never one that was used before. *)
Theorem one_owner_per_sender ls s :
  turn_run ls s ->
  NoDup (pending_senders s ++ held_senders (waits s)) /\
  (forall c, c ∈ pending_senders s ++ held_senders (waits s) <-> chans s !! c = Some Open) /\
  chans s !! next_chan s = None.
Proof.
  intros Hrun. destruct (ok_chans _ (turn_run_ok _ _ Hrun)) as [Hnd Hopen Hfresh]. split_and!; [done..|].
  apply eq_None_not_Some. intros Hlive%Hfresh. lia.
Qed.

(** ** Every question is answered *)

Definition receive_step (s s' : TurnSession) : Prop := exists c r, turn_step s (LReceive c r) s'.

Lemma receive_step_inv s s' :
  receive_step s s' ->
  exists c r, is_Some (waits s !! c) /\ received c s = Some r /\ s' = end_wait c s.
Proof. intros (c & r & Hstep). inversion Hstep; subst. eauto. Qed.

Lemma end_wait_fields c s :
  active_turn (end_wait c s) = active_turn s /\ waits (end_wait c s) = delete c (waits s).
Proof.
  unfold end_wait. destruct (waits s !! c) as [w|] eqn:Hw; [done|]. by rewrite delete_id.
Qed.

(** With no active turn, some question is ready unless all that wait keep their own
    sender. *)
Lemma some_question_ready s c w :
  session_ok s -> active_turn s = None -> waits s !! c = Some w -> wait_held w <> Some c ->
  exists c', is_Some (waits s !! c') /\ is_Some (received c' s).
Proof.
  intros [Hok Hwait] Hactive. unfold pending_senders in Hok. rewrite Hactive in Hok. cbn [app] in Hok.
  assert (Hfresh : forall c w, waits s !! c = Some w -> c < next_chan s).
  { intros c' w' Hw'. apply (chans_fresh _ _ _ Hok). by apply Hwait in Hw' as [? _]. }
  remember (next_chan s - c) as n eqn:Hn. revert c w Hn.
  induction n as [n IH] using lt_wf_ind. intros c w -> Hw Hheld.
  destruct (Hwait c w Hw) as [[x Hx] _]. destruct x as [|a|].
  - apply (senders_open _ _ _ Hok), elem_of_held in Hx as (c1 & w1' & Hin & Hc1).
    destruct (Hwait c1 w1' Hin) as [_ Hle]. specialize (Hle c Hc1).
    assert (c1 <> c) by (intros ->; congruence). pose proof (Hfresh _ _ Hin).
    apply (IH (next_chan s - c1) ltac:(lia) c1 w1'); [done|done|congruence].
  - exists c. split; [by eexists|]. unfold received. rewrite Hx. by eexists.
  - exists c. split; [by eexists|]. unfold received. rewrite Hx. by eexists.
Qed.

Lemma receives_ok s s' :
  rtc receive_step s s' -> session_ok s -> active_turn s = None ->
  session_ok s' /\ active_turn s' = None.
Proof.
  induction 1 as [|s s1 s' Hstep _ IH]; [done|]. intros Hs Ha.
  apply receive_step_inv in Hstep as (c & r & _ & _ & ->).
  apply IH; [by apply end_wait_ok|]. by rewrite (proj1 (end_wait_fields c s)).
Qed.


(** ** A question without a turn *)

Inductive turn_steps : TurnSession -> list turn_label -> TurnSession -> Prop :=
  | steps_nil s : turn_steps s [] s
  | steps_cons s l s1 ls s2 : turn_step s l s1 -> turn_steps s1 ls s2 -> turn_steps s (l :: ls) s2.

Lemma drop_senders_waits l s : waits (drop_senders l s) = waits s.
Proof. done. Qed.

Lemma begin_request_waits holds q key s :
  exists w, waits (begin_request holds q key s) = <[next_chan s := w]> (waits s) /\
    wait_question w = q /\ wait_key w = key.
Proof.
  unfold begin_request, place_sender. cbn [new_chan active_turn].
  destruct (active_turn s) as [at_|]; cbn; destruct holds; cbn; by eexists.
Qed.

Lemma held_open s c c1 w :
  session_ok s -> waits s !! c1 = Some w -> wait_held w = Some c -> received c s = None.
Proof.
  intros Hs Hw Hc. enough (Ho : chans s !! c = Some Open) by (unfold received; by rewrite Ho).
  apply (senders_open _ _ _ (ok_chans _ Hs)). apply elem_of_app. right. apply elem_of_held. eauto.
Qed.

(** Only its own end takes a question out. *)
Lemma turn_step_waits s l s' c w :
  turn_step s l s' -> session_ok s -> (forall r, l <> LReceive c r) -> l <> LAbandon c ->
  waits s !! c = Some w -> waits s' !! c = Some w.
Proof.
  intros Hstep Hs Hrec Hab Hw.
  destruct Hstep as [s holds q key|s q key a|s c' r _ _|s c' _|s i e t s' Hi|s i s' Hi|s|s|s sub|s sub _|s sub _|s sub|s sub|s sub _];
    try done.
  - destruct (begin_request_waits holds q key s) as (w' & -> & _).
    rewrite lookup_insert_ne; [done|]. intros <-. by rewrite (fresh_not_waiting s Hs) in Hw.
  - unfold notify. destruct (active_turn s); [|done]. cbn. by destruct (pending _ !! _).
  - rewrite (proj2 (end_wait_fields c' s)), lookup_delete_ne; [done|]. intros ->. by apply (Hrec r).
  - rewrite (proj2 (end_wait_fields c' s)), lookup_delete_ne; [done|]. by intros ->.
  - apply steer_input_same in Hi as (at_ & _ & _ & _ & ->). done.
  - unfold inject_response_items in Hi. destruct (active_turn s); [|done]. by injection Hi as <-.
  - unfold get_pending_input. by destruct (active_turn s).
  - unfold take_all_running_tasks. by destruct (active_turn s).
  - unfold cancel_task. by repeat case_match.
  - unfold on_task_finished. destruct (active_turn s); [|done]. by destruct (remove_task sub a) as [? []].
Qed.

(** A question that is asked when no turn is active waits for ever: its sender is
    kept alive by the very function that waits, and no answer, no new turn and no
    abort of a turn ends the wait; only dropping the future does. *)
Theorem question_without_turn_hangs ls s q key labels s' :
  turn_run ls s -> active_turn s = None ->
  turn_steps (begin_request true q key s) labels s' -> LAbandon (next_chan s) ∉ labels ->
  is_Some (waits s' !! next_chan s) /\ received (next_chan s) s' = None.
Proof.
  intros Hrun Ha Hsteps Hab. set (c := next_chan s) in *.
  assert (Hgen : forall s1 labels s2, turn_steps s1 labels s2 -> LAbandon c ∉ labels -> session_ok s1 ->
    waits s1 !! c = Some (mk_wait q key (Some c)) ->
    session_ok s2 /\ waits s2 !! c = Some (mk_wait q key (Some c))).
  { induction 1 as [|s1 l s2 labels1 s3 Hstep _ IH]; [done|]. intros Hl Hs1 Hw.
    rewrite not_elem_of_cons in Hl. destruct Hl as [Hl Hls].
    apply IH; [done|by eapply turn_step_ok|]. eapply turn_step_waits; try done.
    intros r ->. inversion Hstep as [| |? ? ? _ Hr| | | | | | | | | | |]; subst.
    by rewrite (held_open _ _ _ _ Hs1 Hw) in Hr. }
  destruct (Hgen _ _ _ Hsteps Hab) as [Hs' Hw'].
  - apply begin_request_ok. by eapply turn_run_ok.
  - unfold begin_request, place_sender. cbn [new_chan active_turn]. rewrite Ha. cbn. by rewrite lookup_insert_eq.
  - split; [by eexists|]. by eapply held_open.
Qed.

(** ** Where answers come from *)

Definition asked (ls : list turn_label) (c : chan) (q : question) (key : str) : Prop :=
  LRequest c q key ∈ ls.
(** The question was asked, and then answered. *)
Definition answered (ls : list turn_label) (c : chan) (q : question) (key : str) (a : answer) : Prop :=
  exists l1 l2 l3, ls = l1 ++ LRequest c q key :: l2 ++ LNotify q key a :: l3.

Lemma answered_mono ls c q key a l : answered ls c q key a -> answered (ls ++ [l]) c q key a.
Proof.
  intros (l1 & l2 & l3 & ->). exists l1, l2, (l3 ++ [l]). by rewrite <-!(assoc (++)); cbn; rewrite <-!(assoc (++)).
Qed.

Lemma answered_now ls c q key a : asked ls c q key -> answered (ls ++ [LNotify q key a]) c q key a.
Proof.
  intros (l1 & l2 & ->)%list_elem_of_split. exists l1, l2, []. by rewrite <-(assoc (++)).
Qed.

Record log_ok (ls : list turn_label) (s : TurnSession) : Prop := {
  log_fresh c q key : asked ls c q key -> c < next_chan s;
  log_once c q key q' key' : asked ls c q key -> asked ls c q' key' -> q = q' /\ key = key';
  log_pending at_ q key c : active_turn s = Some at_ -> pending (turn_state at_) !! (q, key) = Some c ->
    asked ls c q key;
  log_waits c w : waits s !! c = Some w -> asked ls c (wait_question w) (wait_key w);
  log_sent c a : chans s !! c = Some (Sent a) -> exists q key, answered ls c q key a;
}.

Lemma asked_snoc ls l c q key : asked (ls ++ [l]) c q key <-> asked ls c q key \/ l = LRequest c q key.
Proof. unfold asked. rewrite elem_of_app, list_elem_of_singleton. naive_solver. Qed.

(** A step that asks nothing, after which what is pending, waits or was sent is as
    before or is accounted for. *)
Lemma log_ok_step ls l s s' :
  log_ok ls s -> (forall c q key, l <> LRequest c q key) -> next_chan s' = next_chan s ->
  (forall at' q key c, active_turn s' = Some at' -> pending (turn_state at') !! (q, key) = Some c ->
     exists at_, active_turn s = Some at_ /\ pending (turn_state at_) !! (q, key) = Some c) ->
  (forall c w, waits s' !! c = Some w -> waits s !! c = Some w) ->
  (forall c a, chans s' !! c = Some (Sent a) -> chans s !! c = Some (Sent a) \/
     exists q key, answered (ls ++ [l]) c q key a) ->
  log_ok (ls ++ [l]) s'.
Proof.
  intros [Hf Ho Hp Hw Hs] Hl Hn Hp' Hw' Hs'. split.
  - intros c q key. rewrite asked_snoc, Hn. intros [?|Heq]; [by eapply Hf|]. by destruct (Hl c q key).
  - intros c q key q' key'. rewrite !asked_snoc. intros [H1|H1] [H2|H2]; try (by destruct (Hl _ _ _ H1));
      try (by destruct (Hl _ _ _ H2)). by eapply Ho.
  - intros at' q key c Ha Hc. apply asked_snoc. left. destruct (Hp' _ _ _ _ Ha Hc) as (? & ? & ?). by eapply Hp.
  - intros c w Hc. apply asked_snoc. left. by apply Hw, Hw'.
  - intros c a [H|H]%Hs'; [|done]. destruct (Hs c a H) as (q & key & Ha). exists q, key. by apply answered_mono.
Qed.

Lemma dropped_sent l cs c a : foldr drop_sender cs l !! c = Some (Sent a) -> cs !! c = Some (Sent a).
Proof.
  induction l as [|x l IH]; [done|]. cbn [foldr]. unfold drop_sender at 1. intros H1. apply IH.
  revert H1. destruct (foldr drop_sender cs l !! x) as [[]|] eqn:Hx; try done.
  rewrite lookup_insert_Some. naive_solver.
Qed.

Lemma place_sender_pending q key c s s' local at' q' key' c' :
  place_sender q key c (new_chan s) = (s', local) -> active_turn s' = Some at' ->
  pending (turn_state at') !! (q', key') = Some c' ->
  (q' = q /\ key' = key /\ c' = c) \/
  exists at_, active_turn s = Some at_ /\ pending (turn_state at_) !! (q', key') = Some c'.
Proof.
  unfold place_sender. cbn [new_chan active_turn]. destruct (active_turn s) as [at_|] eqn:Ha.
  - intros [= <- <-]. cbn. intros [= <-]. cbn. rewrite lookup_insert_Some. naive_solver.
  - intros [= <- <-]. cbn. by rewrite Ha.
Qed.

Lemma log_ok_request ls s holds q key :
  session_ok s -> log_ok ls s -> log_ok (ls ++ [LRequest (next_chan s) q key]) (begin_request holds q key s).
Proof.
  intros Hs [Hf Ho Hp Hw Hsent]. destruct (begin_request_waits holds q key s) as (w & Hwaits & Hq & Hk).
  pose proof (place_sender_spec q key s Hs) as (Hw2 & Hc2 & Hn2 & _).
  pose proof (place_sender_pending q key (next_chan s) s) as Hpend.
  assert (Hsame : next_chan (begin_request holds q key s) = S (next_chan s) /\
    (forall at', active_turn (begin_request holds q key s) = Some at' ->
       active_turn (place_sender q key (next_chan s) (new_chan s)).1 = Some at') /\
    forall c a, chans (begin_request holds q key s) !! c = Some (Sent a) -> chans s !! c = Some (Sent a)).
  { unfold begin_request. destruct (place_sender _ _ _ _) as [s2 local]. cbn [fst] in *.
    assert (Hins : forall c a, chans s2 !! c = Some (Sent a) -> chans s !! c = Some (Sent a)).
    { intros c a. rewrite Hc2, lookup_insert_Some. naive_solver. }
    destruct holds; cbn; (split_and!; [done|done|]); [done|].
    intros c a H%dropped_sent. by apply Hins. }
  destruct Hsame as (Hn & Hact & Hch). split.
  - intros c q' key'. rewrite asked_snoc, Hn. intros [?%Hf|[= <- <- <-]]; lia.
  - intros c q1 k1 q2 k2. rewrite !asked_snoc.
    intros [H1|[= <- <- <-]] [H2|[= ]]; subst; try done; [by eapply Ho|apply Hf in H1; lia|apply Hf in H2; lia].
  - intros at' q' key' c' Ha Hc. apply asked_snoc. apply Hact in Ha.
    destruct (place_sender q key (next_chan s) (new_chan s)) as [s2 local] eqn:E. cbn [fst] in Ha.
    destruct (Hpend _ _ _ _ _ _ eq_refl Ha Hc) as [(-> & -> & ->)|(at_ & ? & ?)]; [by right|left; by eapply Hp].
  - intros c w'. rewrite Hwaits, lookup_insert_Some, asked_snoc. intros [[<- <-]|[_ H]]; [right; by rewrite Hq, Hk|].
    left. by apply Hw.
  - intros c a H%Hch. destruct (Hsent c a H) as (q' & k' & Ha). exists q', k'. by apply answered_mono.
Qed.

Lemma log_ok_notify ls s q key a :
  log_ok ls s -> log_ok (ls ++ [LNotify q key a]) (notify q key a s).
Proof.
  intros Hlog. unfold notify, remove_pending. destruct (active_turn s) as [at_|] eqn:Ha.
  2:{ eapply log_ok_step; eauto; done. }
  assert (Hdel : forall q' key' c, delete (q, key) (pending (turn_state at_)) !! (q', key') = Some c ->
    pending (turn_state at_) !! (q', key') = Some c) by (intros q' key' c [_ ?]%lookup_delete_Some; done).
  destruct (pending (turn_state at_) !! (q, key)) as [c|] eqn:Hc.
  - eapply log_ok_step; [exact Hlog|done|done| |done|].
    + cbn. intros at' q' key' c' [= <-] H%Hdel. eauto.
    + cbn. intros c' a'. destruct (chans s !! c) as [[]|] eqn:Ho; auto.
      rewrite lookup_insert_Some. intros [[<- [= <-]]|[_ ?]]; [|by left]. right. exists q, key.
      apply answered_now. by eapply log_pending.
  - eapply log_ok_step; [exact Hlog|done|done| |done|auto].
    cbn. intros at' q' key' c' [= <-] H%Hdel. eauto.
Qed.

Lemma end_wait_log ls l c s :
  log_ok ls s -> (forall c q key, l <> LRequest c q key) -> log_ok (ls ++ [l]) (end_wait c s).
Proof.
  intros Hlog Hl. unfold end_wait. destruct (waits s !! c) as [w|]; [|eapply log_ok_step; eauto].
  eapply log_ok_step; [exact Hlog|exact Hl|done|eauto| |].
  - cbn. intros c' w' [_ ?]%lookup_delete_Some. done.
  - cbn. intros c' a ?%dropped_sent. by left.
Qed.

(** Steps that send nothing and add nothing to what is pending. *)
Lemma replace_active_log ls l at_ s :
  log_ok ls s -> (forall c q key, l <> LRequest c q key) ->
  match at_ with Some at_ => pending (turn_state at_) = ∅ | None => True end ->
  log_ok (ls ++ [l]) (replace_active at_ s).
Proof.
  intros Hlog Hl Hat. eapply log_ok_step; [exact Hlog|exact Hl|done| |done|].
  - cbn. intros at' q key c ->. by rewrite Hat, lookup_empty.
  - cbn. intros c a ?%dropped_sent. by left.
Qed.

Lemma log_ok_same ls l s s' :
  log_ok ls s -> (forall c q key, l <> LRequest c q key) ->
  pending <$> active_turn_state s' = pending <$> active_turn_state s ->
  waits s' = waits s -> chans s' = chans s -> next_chan s' = next_chan s -> log_ok (ls ++ [l]) s'.
Proof.
  intros Hlog Hl Hp Hw Hc Hn. eapply log_ok_step; [exact Hlog|exact Hl|done| |by rewrite Hw|rewrite Hc; auto].
  intros at' q key c Ha Hk. unfold active_turn_state in Hp. rewrite Ha in Hp. cbn in Hp.
  destruct (active_turn s) as [at_|]; [|done]. cbn in Hp. injection Hp as Hp. rewrite Hp in Hk. eauto.
Qed.

Lemma log_ok_finish ls l sub_id s :
  log_ok ls s -> (forall c q key, l <> LRequest c q key) ->
  log_ok (ls ++ [l]) (with_phases (delete sub_id (phases s)) (on_task_finished sub_id s)).
Proof.
  intros Hlog Hl. unfold on_task_finished. destruct (active_turn s) as [at_|] eqn:Ha;
    [|eapply log_ok_same; eauto; by rewrite Ha].
  destruct (remove_task sub_id at_) as [at' []] eqn:Hr.
  - pose proof (replace_active_log ls l None s Hlog Hl I) as Hn. cbn.
    split; [apply Hn|apply Hn|apply Hn|apply Hn|apply Hn].
  - eapply log_ok_same; [exact Hlog|exact Hl| |done|done|done].
    unfold active_turn_state. cbn. rewrite Ha. by injection Hr as <- _.
Qed.

Lemma turn_run_log ls s : turn_run ls s -> log_ok ls s.
Proof.
  induction 1 as [|ls s l s' Hrun IH Hstep].
  { split; unfold asked; cbn; intros; try (by set_solver); by rewrite lookup_empty in *. }
  pose proof (turn_run_ok _ _ Hrun) as Hs.
  destruct Hstep as [s holds q key|s q key a|s c' r _ _|s c' _|s i e t s' Hi|s i s' Hi|s|s|s sub|s sub _|s sub _|s sub|s sub|s sub _].
  - by apply log_ok_request.
  - by apply log_ok_notify.
  - by apply end_wait_log.
  - by apply end_wait_log.
  - apply steer_input_same in Hi as (at_ & Ha & _ & _ & ->). eapply log_ok_same; [exact IH|done| |done..].
    unfold active_turn_state. cbn. by rewrite Ha.
  - unfold inject_response_items in Hi. destruct (active_turn s) as [at_|] eqn:Ha; [|done]. injection Hi as <-.
    eapply log_ok_same; [exact IH|done| |done..]. unfold active_turn_state. cbn. rewrite Ha. cbn.
    by rewrite (proj1 (push_all_pending i (turn_state at_))).
  - unfold get_pending_input. destruct (active_turn s) as [at_|] eqn:Ha; 
      (eapply log_ok_same; [exact IH|done| |done..]); unfold active_turn_state; cbn; by rewrite Ha.
  - unfold take_all_running_tasks. destruct (active_turn s) eqn:Ha; [by apply replace_active_log|].
    by eapply log_ok_same; [exact IH|..].
  - by apply replace_active_log.
  - by eapply log_ok_same; [exact IH|..].
  - by eapply log_ok_same; [exact IH|..].
  - eapply log_ok_same; [exact IH|done|..]; unfold cancel_task; by repeat case_match.
  - by eapply log_ok_same; [exact IH|..].
  - by apply log_ok_finish.
Qed.

(** C14. No answer is made up: what a question receives was given, after it was asked, in
    reply to its kind and key.  A decision other than a refusal therefore comes from
    the user; a question that is dropped, overtaken or cut off by the end of its turn
    counts as denied. *)
Theorem decision_comes_from_user ls s c r s' :
  turn_run ls s -> turn_step s (LReceive c r) s' ->
  exists w, waits s !! c = Some w /\
    match r with
    | Some a => answered ls c (wait_question w) (wait_key w) a
    | None => decision_received r = Denied
    end.
Proof.
  intros Hrun Hstep. pose proof (turn_run_log _ _ Hrun) as Hlog.
  inversion Hstep as [| |? ? ? [w Hw] Hr| | | | | | | | | | |]; subst. exists w. split; [done|].
  unfold received in Hr. destruct (chans s !! c) as [[|a|]|] eqn:Hc; try done; injection Hr as <-; [|done].
  destruct (log_sent _ _ Hlog c a Hc) as (q & key & Ha).
  assert (Hasked : asked ls c q key).
  { destruct Ha as (l1 & l2 & l3 & ->). unfold asked. set_solver. }
  by destruct (log_once _ _ Hlog _ _ _ _ _ Hasked (log_waits _ _ Hlog _ _ Hw)) as [<- <-].
Qed.

(** ** Input is kept in order *)

(** Nothing a turn was given is lost or repeated: all input that was accepted, in the
    order of its acceptance, is what was taken by the task, recorded at its end or
    given up with an aborted turn, followed by what still waits. *)
Theorem input_conserved ls s :
  turn_run ls s -> ls ≫= pushed_by = (ls ≫= consumed_by) ++ pending_input_of s.
Proof.
  induction 1 as [|ls s l s' Hrun IH Hstep]; [done|]. rewrite !bind_app, IH. cbn [mbind list_bind].
  rewrite !app_nil_r, <-!(assoc (++)). f_equal. clear IH Hrun.
  destruct Hstep as [s holds q key|s q key a|s c' r _ _|s c' _|s i e t s' Hi|s i s' Hi|s|s|s sub|s sub _|s sub _|s sub|s sub|s sub _];
    cbn [pushed_by consumed_by]; rewrite ?app_nil_r, ?app_nil_l.
  - unfold begin_request, place_sender, pending_input_of. cbn [new_chan active_turn].
    destruct (active_turn s) as [at_|] eqn:Ha; destruct holds; cbn; by rewrite ?Ha.
  - unfold notify, pending_input_of. destruct (active_turn s) as [at_|] eqn:Ha; [|by rewrite Ha].
    cbn. by destruct (pending _ !! _).
  - unfold pending_input_of. by rewrite (proj1 (end_wait_fields c' s)).
  - unfold pending_input_of. by rewrite (proj1 (end_wait_fields c' s)).
  - apply steer_input_same in Hi as (at_ & Ha & _ & _ & ->). unfold pending_input_of. cbn. by rewrite Ha.
  - unfold inject_response_items in Hi. destruct (active_turn s) as [at_|] eqn:Ha; [|done]. injection Hi as <-.
    unfold pending_input_of. cbn. rewrite Ha. by rewrite (proj2 (push_all_pending i (turn_state at_))).
  - unfold get_pending_input, pending_input_of. destruct (active_turn s) as [at_|] eqn:Ha; cbn; [|by rewrite Ha].
    by rewrite app_nil_r.
  - unfold take_all_running_tasks, pending_input_of. destruct (active_turn s) eqn:Ha; cbn; [|by rewrite Ha].
    by rewrite app_nil_r.
  - done.
  - done.
  - done.
  - unfold cancel_task. by repeat case_match.
  - done.
  - unfold on_task_finished, pending_input_of. destruct (active_turn s) as [at_|] eqn:Ha; cbn; [|by rewrite Ha].
    destruct (bool_decide (swap_remove sub (turn_tasks at_) = [])); cbn; by rewrite ?app_nil_r.
Qed.

(** Two questions under one key: the user is shown both, but the sender of the first
    is gone from the turn.  One approval answers the second; the first is then denied,
    although the user refused nothing. *)
Theorem overtaken_question_denied q key a s at_ :
  session_ok s -> active_turn s = Some at_ ->
  let c1 := next_chan s in
  let c2 := S c1 in
  let s2 := begin_request true q key (begin_request true q key s) in
  received c1 s2 = None /\ received c2 s2 = None /\
  let s3 := notify q key a s2 in
  received c1 s3 = None /\ received c2 s3 = Some (Some a) /\
  received c1 (end_wait c2 s3) = Some None.
Proof.
  intros Hs Ha c1 c2 s2. pose proof (fresh_not_waiting s Hs) as Hw.
  assert (Hw2 : waits s2 !! c1 <> None /\ exists w, waits s2 !! c2 = Some w /\ wait_held w = Some c1).
  { unfold s2, begin_request, place_sender, c2, c1. cbn. rewrite Ha. cbn. split.
    - rewrite lookup_insert_ne by lia. by rewrite lookup_insert_eq.
    - rewrite lookup_insert_eq. eexists. split; [done|]. cbn. by rewrite lookup_insert_eq. }
  assert (Hc : chans s2 = <[c2 := Open]> (<[c1 := Open]> (chans s))).
  { unfold s2, begin_request, place_sender. cbn. by rewrite Ha. }
  assert (H1 : chans s2 !! c1 = Some Open) by (rewrite Hc, lookup_insert_ne by (unfold c2; lia); apply lookup_insert_eq).
  assert (H2 : chans s2 !! c2 = Some Open) by (rewrite Hc; apply lookup_insert_eq).
  split; [unfold received; by rewrite H1|]. split; [unfold received; by rewrite H2|]. intros s3.
  assert (Hs3 : chans s3 = <[c2 := Sent a]> (chans s2) /\ waits s3 = waits s2).
  { unfold s3, notify. assert (Hat : exists at2, active_turn s2 = Some at2 /\ pending (turn_state at2) !! (q, key) = Some c2).
    { unfold s2, begin_request, place_sender. cbn. rewrite Ha. cbn. eexists. split; [done|]. cbn. apply lookup_insert_eq. }
    destruct Hat as (at2 & -> & Hp). unfold remove_pending. rewrite Hp. cbn. by rewrite H2. }
  destruct Hs3 as [Hc3 Hw3]. destruct Hw2 as (_ & w & Hw2 & Hheld).
  assert (H1' : chans s3 !! c1 = Some Open) by (rewrite Hc3, lookup_insert_ne by (unfold c2; lia); exact H1).
  split; [unfold received; by rewrite H1'|].
  split; [unfold received; by rewrite Hc3, lookup_insert_eq|].
  unfold end_wait. rewrite Hw3, Hw2, Hheld. unfold received. cbn.
  unfold drop_sender. by rewrite H1', lookup_insert_eq.
Qed.

(** ** Ends of tasks *)

Lemma swap_remove_other sub_id l : (sub_id ∉ l) -> swap_remove sub_id l = l.
Proof.
  intros Hn. unfold swap_remove. destruct (list_find (fun x => x = sub_id) l) as [[i x]|] eqn:Hf; [|done].
  apply list_find_Some in Hf as (Hi & -> & _). apply list_elem_of_lookup_2 in Hi. done.
Qed.

(** A task that reports its end late, after another turn has begun, leaves that
    turn as it is: its tasks, its questions and its input. *)
Theorem late_finish_keeps_turn sub_id s at_ :
  active_turn s = Some at_ -> turn_tasks at_ <> [] -> (sub_id ∉ turn_tasks at_) ->
  on_task_finished sub_id s = send_event (TurnComplete sub_id) s.
Proof.
  intros Ha Hne Hn. unfold on_task_finished, remove_task. rewrite Ha, swap_remove_other by done.
  rewrite bool_decide_eq_false_2 by done. destruct at_. cbn. by destruct s; cbn in Ha |- *; subst.
Qed.

Lemma run_labels ls s l s' : turn_run ls s -> turn_step s l s' -> turn_run (ls ++ [l]) s'.
Proof. apply run_snoc. Qed.

(** [spawn_task] starts the task before it registers the turn.  A task that is done
    first finds no turn to end, and the turn is then registered without a task: it
    stays active, and input steered into it is accepted. *)
Theorem finished_before_registered sub_id :
  exists ls s s',
    turn_run ls s /\ phases s = ∅ /\ active_turn s = Some (mk_active_turn [sub_id] default_turn_state) /\
    events s = [TurnComplete sub_id] /\
    steer_input (lit "go on") None s = (s', Ok sub_id) /\ pending_input_of s' = [lit "go on"].
Proof.
  pose (s1 := with_phases {[sub_id := TaskRunning]} initial_session).
  pose (s2 := with_phases (<[sub_id := TaskFinishing]> (phases s1)) s1).
  pose (s3 := with_phases (delete sub_id (phases s2)) (on_task_finished sub_id s2)).
  eexists _, (register_new_active_task sub_id s3), _.
  split_and!; try reflexivity.
  - eapply run_snoc; [|apply step_register]. eapply run_snoc; [|apply (step_finish s2 sub_id)].
    + eapply run_snoc; [|apply (step_check s1 sub_id)].
      * eapply run_snoc; [apply run_start|]. apply (step_spawn initial_session sub_id). apply lookup_empty.
      * apply lookup_singleton_eq.
    + apply lookup_insert_eq.
  - change (delete sub_id (<[sub_id := TaskFinishing]> {[sub_id := TaskRunning]}) = (∅ : gmap str task_phase)).
    by rewrite delete_insert_eq, delete_singleton_eq.
Qed.

(** A turn that is aborted while its task reports is announced as completed and as
    aborted. *)
Theorem completed_and_aborted sub_id :
  exists ls s, turn_run ls s /\ events s = [TurnComplete sub_id; TurnAborted sub_id].
Proof.
  pose (s1 := with_phases {[sub_id := TaskRunning]} initial_session).
  pose (s2 := register_new_active_task sub_id s1).
  pose (s3 := with_phases (<[sub_id := TaskFinishing]> (phases s2)) s2).
  pose (s4 := cancel_task sub_id (take_all_running_tasks s3).1).
  pose (s5 := with_phases (delete sub_id (phases s4)) (on_task_finished sub_id s4)).
  assert (H4 : phases s4 !! sub_id = Some TaskFinishing /\ active_turn s4 = None /\ events s4 = []).
  { unfold s4, cancel_task. cbn. rewrite !lookup_insert_eq. cbn. by rewrite lookup_insert_eq. }
  destruct H4 as (Hp4 & Ha4 & He4).
  eexists _, (finish_abort sub_id s5). split.
  - eapply run_snoc; [|apply step_aborted]. eapply run_snoc; [|apply (step_finish s4 sub_id Hp4)].
    eapply run_snoc; [|apply step_cancel]. eapply run_snoc; [|apply step_take_all].
    eapply run_snoc; [|apply (step_check s2 sub_id); apply lookup_singleton_eq].
    eapply run_snoc; [|apply step_register]. eapply run_snoc; [apply run_start|].
    apply (step_spawn initial_session sub_id). apply lookup_empty.
  - unfold s5, on_task_finished. rewrite Ha4. cbn. by rewrite He4.
Qed.

(** ** Witnesses *)

(** A turn, a question in it, and the end of the turn. *)
Definition asked_session : TurnSession :=
  begin_request true AskApproval (lit "c") (register_new_active_task (lit "t") initial_session).
Definition ended_session : TurnSession := (take_all_running_tasks asked_session).1.

Lemma asked_run :
  turn_run [LRegister (lit "t") []; LRequest 0 AskApproval (lit "c")] asked_session.
Proof.
  apply (run_snoc [LRegister (lit "t") []] (register_new_active_task (lit "t") initial_session) (LRequest 0 AskApproval (lit "c"))); [|apply step_request].
  apply (run_snoc [] initial_session (LRegister (lit "t") [])); [apply run_start|]. apply step_register.
Qed.

Lemma ended_run :
  turn_run [LRegister (lit "t") []; LRequest 0 AskApproval (lit "c"); LTakeAll []] ended_session.
Proof.
  apply (run_snoc [LRegister (lit "t") []; LRequest 0 AskApproval (lit "c")] asked_session (LTakeAll [])); [apply asked_run|].
  apply step_take_all.
Qed.

Lemma one_owner_per_sender_witness :
  chans asked_session !! 0 = Some Open /\ NoDup (pending_senders asked_session ++ held_senders (waits asked_session)).
Proof. split; [reflexivity|]. exact (proj1 (one_owner_per_sender _ _ asked_run)). Defined.


Lemma question_without_turn_hangs_witness :
  let s' := notify AskApproval (lit "c") (Decision Approved)
              (register_new_active_task (lit "t") (begin_request true AskApproval (lit "c") initial_session)) in
  is_Some (waits s' !! 0) /\ received 0 s' = None.
Proof.
  intros s'. apply (question_without_turn_hangs [] initial_session AskApproval (lit "c")
    [LRegister (lit "t") []; LNotify AskApproval (lit "c") (Decision Approved)] s').
  - apply run_start.
  - reflexivity.
  - eapply steps_cons; [apply step_register|]. eapply steps_cons; [apply step_notify|]. apply steps_nil.
  - rewrite !not_elem_of_cons. split; [discriminate|]. split; [discriminate|apply not_elem_of_nil].
Defined.

Lemma decision_comes_from_user_witness :
  exists ls s, turn_run ls s /\
    turn_step s (LReceive 0 (Some (Decision Approved))) (end_wait 0 s) /\
    answered ls 0 AskApproval (lit "c") (Decision Approved).
Proof.
  exists ([LRegister (lit "t") []; LRequest 0 AskApproval (lit "c")] ++ [LNotify AskApproval (lit "c") (Decision Approved)]),
    (notify AskApproval (lit "c") (Decision Approved) asked_session).
  assert (Hrun := run_snoc _ _ _ _ asked_run (step_notify asked_session AskApproval (lit "c") (Decision Approved))).
  assert (Hstep : turn_step (notify AskApproval (lit "c") (Decision Approved) asked_session)
    (LReceive 0 (Some (Decision Approved)))
    (end_wait 0 (notify AskApproval (lit "c") (Decision Approved) asked_session))).
  { apply step_receive; [by eexists|reflexivity]. }
  split; [exact Hrun|]. split; [exact Hstep|].
  destruct (decision_comes_from_user _ _ _ _ _ Hrun Hstep) as (w & Hw & Ha).
  vm_compute in Hw. injection Hw as <-. exact Ha.
Defined.

Lemma input_conserved_witness :
  [LRegister (lit "t") []; LRequest 0 AskApproval (lit "c")] ≫= pushed_by
  = ([LRegister (lit "t") []; LRequest 0 AskApproval (lit "c")] ≫= consumed_by) ++ pending_input_of asked_session.
Proof. apply input_conserved. exact asked_run. Defined.

Lemma late_finish_keeps_turn_witness :
  on_task_finished (lit "old") asked_session = send_event (TurnComplete (lit "old")) asked_session.
Proof.
  apply (late_finish_keeps_turn _ _ (mk_active_turn [lit "t"]
    (mk_turn_state {[(AskApproval, lit "c") := 0]} []))); [reflexivity|discriminate|].
  apply (bool_decide_unpack _). vm_compute. exact I.
Defined.

Lemma overtaken_question_denied_witness :
  let s := register_new_active_task (lit "t") initial_session in
  received 0 (end_wait 1 (notify AskApproval (lit "c") (Decision Approved)
    (begin_request true AskApproval (lit "c") (begin_request true AskApproval (lit "c") s)))) = Some None.
Proof.
  intros s. apply (overtaken_question_denied AskApproval (lit "c") (Decision Approved) s
    (mk_active_turn [lit "t"] default_turn_state)); [|reflexivity].
  apply (turn_run_ok [LRegister (lit "t") []]).
  apply (run_snoc [] initial_session (LRegister (lit "t") [])); [apply run_start|apply step_register].
Defined.
