(* ===== verification/HeadTailBuffer.v ===== *)
(** * The capped output buffer (core/src/unified_exec/head_tail_buffer.rs)

    What a running process wrote: the first and the last bytes, with the middle
    dropped.  Chunks are lists of bytes; the deques are lists, front first. *)

From S2P Require Import Prelude RustStd.

Abbreviation byte := N (only parsing).

Record HeadTailBuffer : Type := mk_buffer {
  max_bytes : nat;
  head_budget : nat;
  tail_budget : nat;
  head_chunks : list (list byte);
  tail_chunks : list (list byte);
  head_bytes : nat;
  tail_bytes : nat;
  omitted_bytes : nat;
}.

Definition new_buffer (max_bytes : nat) : HeadTailBuffer :=
  let head_budget := max_bytes / 2 in
  let tail_budget := max_bytes - head_budget in
  mk_buffer max_bytes head_budget tail_budget [] [] 0 0 0.

Definition retained_bytes (b : HeadTailBuffer) : nat := head_bytes b + tail_bytes b.

Definition with_head (chunks : list (list byte)) (n : nat) (b : HeadTailBuffer) : HeadTailBuffer :=
  mk_buffer (max_bytes b) (head_budget b) (tail_budget b) chunks (tail_chunks b) n (tail_bytes b)
    (omitted_bytes b).
Definition with_tail (chunks : list (list byte)) (n omitted : nat) (b : HeadTailBuffer) : HeadTailBuffer :=
  mk_buffer (max_bytes b) (head_budget b) (tail_budget b) (head_chunks b) chunks (head_bytes b) n omitted.

(** The loop of [trim_tail_to_budget], on the deque and the two counters. *)
Fixpoint trim_loop (excess : nat) (tail : list (list byte)) (tail_bytes omitted : nat)
    : list (list byte) * nat * nat :=
  if excess =? 0 then (tail, tail_bytes, omitted)
  else
    match tail with
    | [] => ([], tail_bytes, omitted)
    | front :: rest =>
        if length front <=? excess then
          trim_loop (excess - length front) rest (tail_bytes - length front) (omitted + length front)
        else (drop excess front :: rest, tail_bytes - excess, omitted + excess)
    end.

Definition trim_tail_to_budget (b : HeadTailBuffer) : HeadTailBuffer :=
  let '(tail, n, omitted) :=
    trim_loop (tail_bytes b - tail_budget b) (tail_chunks b) (tail_bytes b) (omitted_bytes b) in
  with_tail tail n omitted b.

Definition push_to_tail (chunk : list byte) (b : HeadTailBuffer) : HeadTailBuffer :=
  if tail_budget b =? 0 then with_tail (tail_chunks b) (tail_bytes b) (omitted_bytes b + length chunk) b
  else if tail_budget b <=? length chunk then
    let kept := drop (length chunk - tail_budget b) chunk in
    let dropped := length chunk - length kept in
    with_tail [kept] (length kept) (omitted_bytes b + tail_bytes b + dropped) b
  else
    trim_tail_to_budget
      (with_tail (tail_chunks b ++ [chunk]) (tail_bytes b + length chunk) (omitted_bytes b) b).

Definition push_chunk (chunk : list byte) (b : HeadTailBuffer) : HeadTailBuffer :=
  if max_bytes b =? 0 then with_tail (tail_chunks b) (tail_bytes b) (omitted_bytes b + length chunk) b
  else if head_bytes b <? head_budget b then
    let remaining_head := head_budget b - head_bytes b in
    if length chunk <=? remaining_head then
      with_head (head_chunks b ++ [chunk]) (head_bytes b + length chunk) b
    else
      let head_part := take remaining_head chunk in
      let tail_part := drop remaining_head chunk in
      let b :=
        if bool_decide (head_part = []) then b
        else with_head (head_chunks b ++ [head_part]) (head_bytes b + length head_part) b in
      push_to_tail tail_part b
  else push_to_tail chunk b.

Definition snapshot_chunks (b : HeadTailBuffer) : list (list byte) := head_chunks b ++ tail_chunks b.

Definition to_bytes (b : HeadTailBuffer) : list byte := concat (head_chunks b) ++ concat (tail_chunks b).

Definition drain_chunks (b : HeadTailBuffer) : HeadTailBuffer * list (list byte) :=
  (mk_buffer (max_bytes b) (head_budget b) (tail_budget b) [] [] 0 0 0, head_chunks b ++ tail_chunks b).

(** ** What is kept *)

(** Of the bytes [data] a buffer of [max] keeps the first half of its room and fills the
    rest from the end. *)
Definition kept (max : nat) (data : list byte) : list byte :=
  take (max / 2) data ++ last_n (max - max / 2) (drop (max / 2) data).

Record buffer_ok (max : nat) (data : list byte) (b : HeadTailBuffer) : Prop := {
  ok_max : max_bytes b = max;
  ok_head_budget : head_budget b = max / 2;
  ok_tail_budget : tail_budget b = max - max / 2;
  ok_head : concat (head_chunks b) = take (max / 2) data;
  ok_tail : concat (tail_chunks b) = last_n (max - max / 2) (drop (max / 2) data);
  ok_head_bytes : head_bytes b = length (concat (head_chunks b));
  ok_tail_bytes : tail_bytes b = length (concat (tail_chunks b));
  ok_omitted : omitted_bytes b + head_bytes b + tail_bytes b = length data;
}.

Lemma concat_snoc {A} (l : list (list A)) x : concat (l ++ [x]) = concat l ++ x.
Proof. rewrite concat_app. cbn. by rewrite app_nil_r. Qed.

(** The loop drops exactly [excess] bytes. *)
Lemma trim_loop_spec excess tail n omitted :
  n = length (concat tail) -> excess <= n ->
  let '(tail', n', omitted') := trim_loop excess tail n omitted in
  concat tail' = drop excess (concat tail) /\ n' = n - excess /\ omitted' = omitted + excess.
Proof.
  revert excess n omitted. induction tail as [|front rest IH]; intros excess n omitted Hn Hle; simpl.
  - cbn in Hn. destruct (Nat.eqb_spec excess 0); [subst; cbn; split_and!; [done|lia..]|lia].
  - destruct (Nat.eqb_spec excess 0) as [->|Hne]; [cbn; rewrite drop_0; split_and!; [done|lia..]|].
    cbn in Hn. rewrite length_app in Hn. destruct (Nat.leb_spec (length front) excess) as [Hf|Hf].
    + specialize (IH (excess - length front) (n - length front) (omitted + length front)).
      destruct (trim_loop _ _ _ _) as [[tail' n'] omitted']. destruct IH as (-> & -> & ->); [lia..|].
      rewrite drop_app_ge by lia. split_and!; [done|lia..].
    + cbn. rewrite drop_app_le by lia. done.
Qed.

(** The fields of a buffer after an operation ([max / 2] stays folded). *)
Ltac buffer_fields :=
  cbn [max_bytes head_budget tail_budget head_chunks tail_chunks head_bytes tail_bytes omitted_bytes
       with_head with_tail concat app length].

(** The end of a push: the tail has the last bytes, and none goes uncounted. *)
Lemma push_to_tail_ok max data c b :
  0 < max -> max / 2 <= length data -> buffer_ok max data b -> buffer_ok max (data ++ c) (push_to_tail c b).
Proof.
  intros Hmax Hlen [Hm Hhb Htb Hhead Htail Hh Ht Ho]. unfold push_to_tail.
  assert (Hroom : max / 2 < max) by (apply Nat.div_lt; lia).
  assert (Hhead' : concat (head_chunks b) = take (max / 2) (data ++ c)) by by rewrite take_app_le.
  assert (Hdata : drop (max / 2) (data ++ c) = drop (max / 2) data ++ c) by by rewrite drop_app_le.
  assert (Hcount : tail_bytes b = min (max - max / 2) (length (drop (max / 2) data)))
    by by rewrite Ht, Htail, last_n_length.
  rewrite Htb. destruct (Nat.eqb_spec (max - max / 2) 0) as [|_]; [lia|].
  destruct (Nat.leb_spec (max - max / 2) (length c)) as [Hc|Hc].
  - split; buffer_fields; try done; rewrite ?app_nil_r, ?length_app; [|done|].
    + rewrite Hdata, last_n_long by done. done.
    + rewrite length_drop. lia.
  - unfold trim_tail_to_budget. buffer_fields.
    pose proof (trim_loop_spec (tail_bytes b + length c - tail_budget b) (tail_chunks b ++ [c])
                  (tail_bytes b + length c) (omitted_bytes b)) as Hloop.
    rewrite concat_snoc, length_app in Hloop.
    destruct (trim_loop _ _ _ _) as [[tail n] omitted]. destruct Hloop as (Htl & -> & ->); [lia..|].
    assert (Hlast : concat tail = last_n (max - max / 2) (concat (tail_chunks b) ++ c)).
    { rewrite Htl. unfold last_n. rewrite length_app. f_equal. lia. }
    split; buffer_fields; try done; [| |].
    + by rewrite Hlast, Htail, last_n_app, Hdata.
    + rewrite Hlast, last_n_length, length_app. lia.
    + rewrite length_app. lia.
Qed.

Lemma push_chunk_ok max data c b : buffer_ok max data b -> buffer_ok max (data ++ c) (push_chunk c b).
Proof.
  intros Hok. pose proof Hok as [Hm Hhb Htb Hhead Htail Hh Ht Ho]. unfold push_chunk. rewrite Hm, Hhb.
  destruct (Nat.eqb_spec max 0) as [->|Hmax].
  { change (0 - 0 / 2) with 0 in *. rewrite last_n_0 in Htail.
    split; buffer_fields; try done; [by rewrite Htail, last_n_0|]. rewrite length_app. lia. }
  assert (Hlen : length (concat (head_chunks b)) = min (max / 2) (length data))
    by by rewrite Hhead, length_take.
  destruct (Nat.ltb_spec (head_bytes b) (max / 2)) as [Hfull|Hfull];
    [|apply push_to_tail_ok; [lia..|done]].
  assert (Hshort : take (max / 2) data = data) by (apply take_ge; lia).
  assert (Hnone : tail_bytes b = 0 /\ concat (tail_chunks b) = []).
  { assert (Hd : drop (max / 2) data = []) by (apply drop_ge; lia).
    rewrite Hd in Htail. cbn in Htail. rewrite Ht, Htail. done. }
  destruct Hnone as [Htb0 Htail0].
  destruct (Nat.leb_spec (length c) (max / 2 - head_bytes b)) as [Hc|Hc].
  - assert (Hfit : length (data ++ c) <= max / 2) by (rewrite length_app; lia).
    split; buffer_fields; try done.
    + by rewrite concat_snoc, Hhead, Hshort, take_ge.
    + rewrite (drop_ge (data ++ c)) by done. done.
    + rewrite concat_snoc, length_app. lia.
    + rewrite length_app. lia.
  - rewrite bool_decide_eq_false_2.
    2:{ intros Hnil%(f_equal length). rewrite length_take in Hnil. cbn [length] in Hnil. lia. }
    set (n := max / 2 - head_bytes b) in *. rewrite <-(take_drop n c) at 1. rewrite (assoc (++)).
    assert (Hn : length (data ++ take n c) = max / 2) by (rewrite length_app, length_take; lia).
    apply push_to_tail_ok; [lia..|]. split; buffer_fields; try done.
    + rewrite concat_snoc, Hhead, Hshort, (take_ge (data ++ take n c)) by lia. done.
    + rewrite (drop_ge (data ++ take n c)) by lia. done.
    + rewrite concat_snoc, length_app. lia.
    + rewrite !length_app. lia.
Qed.

Lemma new_buffer_ok max : buffer_ok max [] (new_buffer max).
Proof. split; buffer_fields; try done; [by rewrite take_nil|by rewrite drop_nil]. Qed.

(** ** Histories *)

Inductive buffer_op : Type := Push (chunk : list byte) | Drain.

Definition run_op (b : HeadTailBuffer) (op : buffer_op) : HeadTailBuffer :=
  match op with Push chunk => push_chunk chunk b | Drain => (drain_chunks b).1 end.

(** The bytes pushed since the last drain. *)
Definition pending_bytes (data : list byte) (op : buffer_op) : list byte :=
  match op with Push chunk => data ++ chunk | Drain => [] end.

Lemma run_op_ok max data b op : buffer_ok max data b -> buffer_ok max (pending_bytes data op) (run_op b op).
Proof.
  intros Hok. destruct op as [c|]; [by apply push_chunk_ok|]. destruct Hok.
  split; try done; cbn [head_chunks tail_chunks run_op drain_chunks fst concat pending_bytes]; by rewrite ?take_nil, ?drop_nil.
Qed.

Lemma run_ops_ok max ops data b :
  buffer_ok max data b -> buffer_ok max (foldl pending_bytes data ops) (foldl run_op b ops).
Proof. revert data b. induction ops as [|op ops IH]; [done|]. intros data b Hok. by apply IH, run_op_ok. Qed.

(** The buffer refines its specification: after any pushes and drains, in whatever
    chunks, it holds the first and the last of the bytes pushed since the last drain,
    all of them when they fit; its counters tell exactly how many it has and how many
    it dropped, and it never holds more than its maximum. *)
Theorem buffer_keeps_ends max ops :
  let b := foldl run_op (new_buffer max) ops in
  let data := foldl pending_bytes [] ops in
  to_bytes b = kept max data /\ concat (snapshot_chunks b) = kept max data /\
  retained_bytes b = length (kept max data) /\ omitted_bytes b = length data - max /\
  length (kept max data) <= max /\ (length data <= max -> kept max data = data).
Proof.
  intros b data. destruct (run_ops_ok max ops [] _ (new_buffer_ok max)) as [_ _ _ Hhead Htail Hh Ht Ho].
  fold b data in Hhead, Htail, Hh, Ht, Ho.
  assert (Hhalf : max / 2 <= max) by (apply Nat.Div0.div_le_upper_bound; lia).
  assert (Hlen : length (kept max data) = min max (length data)).
  { unfold kept. rewrite length_app, length_take, last_n_length, length_drop. lia. }
  assert (Hret : retained_bytes b = length (kept max data)).
  { unfold retained_bytes, kept. rewrite Hh, Ht, Hhead, Htail, length_app. done. }
  split_and!.
  - unfold to_bytes, kept. by rewrite Hhead, Htail.
  - unfold snapshot_chunks, kept. by rewrite concat_app, Hhead, Htail.
  - done.
  - unfold retained_bytes in Hret. lia.
  - lia.
  - intros Hfit. unfold kept. rewrite last_n_all by (rewrite length_drop; lia). apply take_drop.
Qed.
