(* ===== verification/Truncate.v ===== *)
(** * Truncation of texts (core/src/truncate.rs)

    How texts are cut to the budget of a policy: the start and the end are kept, and a
    marker tells how much is missing.  Budgets are [usize] (and [u64]) numbers with
    their saturation; the lengths of texts are those of their UTF-8 encoding. *)

From S2P Require Import Prelude RustStd Float64.

(** ** Policies *)

Definition APPROX_BYTES_PER_TOKEN : N := 4.

Definition saturate (n : N) : N := N.min n USIZE_MAX.

Inductive TruncationPolicy : Type := Bytes (bytes : N) | Tokens (tokens : N).

Definition approx_token_count (text : str) : N :=
  saturate (N.of_nat (str_len text) + (APPROX_BYTES_PER_TOKEN - 1)) / APPROX_BYTES_PER_TOKEN.

Definition approx_bytes_for_tokens (tokens : N) : N := saturate (tokens * APPROX_BYTES_PER_TOKEN).

Definition approx_tokens_from_byte_count (bytes : N) : N :=
  saturate (bytes + (APPROX_BYTES_PER_TOKEN - 1)) / APPROX_BYTES_PER_TOKEN.

Definition I64_MAX : Z := 9223372036854775807.

Definition approx_tokens_from_byte_count_i64 (bytes : Z) : Z :=
  if (bytes <=? 0)%Z then 0 else Z.min (Z.of_N (approx_tokens_from_byte_count (Z.to_N bytes))) I64_MAX.

Definition token_budget (p : TruncationPolicy) : N :=
  match p with
  | Bytes bytes => approx_tokens_from_byte_count bytes
  | Tokens tokens => tokens
  end.

Definition byte_budget (p : TruncationPolicy) : N :=
  match p with
  | Bytes bytes => bytes
  | Tokens tokens => approx_bytes_for_tokens tokens
  end.

(** [impl Mul<f64>]. *)
Definition scale (n : N) (multiplier : f64) : N :=
  f64_ceil_usize (f64_mul (f64_of_Z (Z.of_N n)) multiplier).
Definition mul_policy (p : TruncationPolicy) (multiplier : f64) : TruncationPolicy :=
  match p with
  | Bytes bytes => Bytes (scale bytes multiplier)
  | Tokens tokens => Tokens (scale tokens multiplier)
  end.

(** ** Positions in a text *)

(** [s.split_at_checked(n)]: [None] when [n] is not on the boundary of a character. *)
Fixpoint split_at_byte (n : N) (s : str) : option (str * str) :=
  if (n =? 0)%N then Some ([], s)
  else
    match s with
    | [] => None
    | c :: s' =>
        if (n <? N.of_nat (len_utf8 c))%N then None
        else '(before, after) ← split_at_byte (n - N.of_nat (len_utf8 c)) s'; Some (c :: before, after)
    end.

Definition byte_slice {E} (r : option str) : outcome E str :=
  match r with Some s => Ok s | None => Panic end.

(** ** Cutting out the middle *)

Definition show_u64 (n : N) : str := lit (pretty.pretty n).

Definition ELLIPSIS : str := [8230%N].

Definition format_truncation_marker (policy : TruncationPolicy) (removed_count : N) : str :=
  match policy with
  | Tokens _ => ELLIPSIS ++ show_u64 removed_count ++ lit " tokens truncated" ++ ELLIPSIS
  | Bytes _ => ELLIPSIS ++ show_u64 removed_count ++ lit " chars truncated" ++ ELLIPSIS
  end.

Definition split_budget (budget : N) : N * N := (budget / 2, budget - budget / 2)%N.

Definition removed_units_for_source (policy : TruncationPolicy) (removed_bytes removed_chars : N) : N :=
  match policy with
  | Tokens _ => approx_tokens_from_byte_count removed_bytes
  | Bytes _ => removed_chars
  end.

Definition assemble_truncated_output (prefix suffix marker : str) : str := prefix ++ marker ++ suffix.

(** The loop over [char_indices]: the position, the end of the prefix, the start of
    the suffix once it has started, and the characters in between. *)
Record split_state : Type := mk_split {
  split_idx : N;
  prefix_end : N;
  suffix_start : option N;
  removed_chars : N;
}.

Definition split_char (beginning_bytes tail_start_target : N) (st : split_state) (c : char) : split_state :=
  let idx := split_idx st in
  let char_end := (idx + N.of_nat (len_utf8 c))%N in
  if (char_end <=? beginning_bytes)%N then mk_split char_end char_end (suffix_start st) (removed_chars st)
  else if (tail_start_target <=? idx)%N then
    mk_split char_end (prefix_end st) (Some (default idx (suffix_start st))) (removed_chars st)
  else mk_split char_end (prefix_end st) (suffix_start st) (saturate (removed_chars st + 1)).

Definition split_string {E} (s : str) (beginning_bytes end_bytes : N) : outcome E (N * str * str) :=
  if bool_decide (s = []) then Ok (0%N, [], [])
  else
    let len := N.of_nat (str_len s) in
    let st := foldl (split_char beginning_bytes (len - end_bytes)) (mk_split 0 0 None 0) s in
    let start := default len (suffix_start st) in
    let start := if (start <? prefix_end st)%N then prefix_end st else start in
    before ← byte_slice (fst <$> split_at_byte (prefix_end st) s);
    after ← byte_slice (snd <$> split_at_byte start s);
    Ok (removed_chars st, before, after).

Definition truncate_with_byte_estimate {E} (s : str) (policy : TruncationPolicy) : outcome E str :=
  if bool_decide (s = []) then Ok []
  else
    let len := N.of_nat (str_len s) in
    let total_chars := N.of_nat (length s) in
    let max_bytes := byte_budget policy in
    if (max_bytes =? 0)%N then
      Ok (format_truncation_marker policy (removed_units_for_source policy len total_chars))
    else if (len <=? max_bytes)%N then Ok s
    else
      let '(left_budget, right_budget) := split_budget max_bytes in
      '(removed, prefix, suffix) ← split_string s left_budget right_budget;
      let marker :=
        format_truncation_marker policy (removed_units_for_source policy (len - max_bytes) removed) in
      Ok (assemble_truncated_output prefix suffix marker).

Definition truncate_with_token_budget {E} (s : str) (policy : TruncationPolicy)
    : outcome E (str * option N) :=
  if bool_decide (s = []) then Ok ([], None)
  else
    let max_tokens := token_budget policy in
    if (0 <? max_tokens)%N && (N.of_nat (str_len s) <=? approx_bytes_for_tokens max_tokens)%N then Ok (s, None)
    else
      truncated ← truncate_with_byte_estimate s policy;
      Ok (truncated, if bool_decide (truncated = s) then None else Some (approx_token_count s)).

Definition truncate_text {E} (content : str) (policy : TruncationPolicy) : outcome E str :=
  match policy with
  | Bytes _ => truncate_with_byte_estimate content policy
  | Tokens _ => '(truncated, _) ← truncate_with_token_budget content policy; Ok truncated
  end.

Definition formatted_truncate_text {E} (content : str) (policy : TruncationPolicy) : outcome E str :=
  if (N.of_nat (str_len content) <=? byte_budget policy)%N then Ok content
  else
    let total_lines := length (lines content) in
    result ← truncate_text content policy;
    Ok (lit "Total output lines: " ++ show_usize total_lines ++ [LF; LF] ++ result).

(** ** Items of a tool output *)

Inductive FunctionCallOutputContentItem : Type :=
  | OutText (text : str)
  | OutImage (image_url : str).

(** The state of the loop: the items put out, the budget left and the texts left out. *)
Record items_state : Type := mk_items {
  items_out : list FunctionCallOutputContentItem;
  remaining_budget : N;
  omitted_text_items : nat;
}.

Definition item_cost (policy : TruncationPolicy) (text : str) : N :=
  match policy with
  | Bytes _ => N.of_nat (str_len text)
  | Tokens _ => approx_token_count text
  end.

Definition snippet_policy (policy : TruncationPolicy) (remaining : N) : TruncationPolicy :=
  match policy with Bytes _ => Bytes remaining | Tokens _ => Tokens remaining end.

Definition items_step {E} (policy : TruncationPolicy) (st : items_state)
    (it : FunctionCallOutputContentItem) : outcome E items_state :=
  match it with
  | OutText text =>
      if (remaining_budget st =? 0)%N then
        Ok (mk_items (items_out st) (remaining_budget st) (S (omitted_text_items st)))
      else
        let cost := item_cost policy text in
        if (cost <=? remaining_budget st)%N then
          Ok (mk_items (items_out st ++ [OutText text]) (remaining_budget st - cost) (omitted_text_items st))
        else
          snippet ← truncate_text text (snippet_policy policy (remaining_budget st));
          if bool_decide (snippet = []) then Ok (mk_items (items_out st) 0 (S (omitted_text_items st)))
          else Ok (mk_items (items_out st ++ [OutText snippet]) 0 (omitted_text_items st))
  | OutImage image_url =>
      Ok (mk_items (items_out st ++ [OutImage image_url]) (remaining_budget st) (omitted_text_items st))
  end.

Fixpoint items_loop {E} (policy : TruncationPolicy) (items : list FunctionCallOutputContentItem)
    (st : items_state) : outcome E items_state :=
  match items with
  | [] => Ok st
  | it :: items => st ← items_step policy st it; items_loop policy items st
  end.

Definition initial_budget (policy : TruncationPolicy) : N :=
  match policy with Bytes _ => byte_budget policy | Tokens _ => token_budget policy end.

Definition omitted_summary (n : nat) : str :=
  lit "[omitted " ++ show_usize n ++ lit " text items ...]".

Definition truncate_function_output_items_with_policy {E} (items : list FunctionCallOutputContentItem)
    (policy : TruncationPolicy) : outcome E (list FunctionCallOutputContentItem) :=
  st ← items_loop policy items (mk_items [] (initial_budget policy) 0);
  Ok (if 0 <? omitted_text_items st
      then items_out st ++ [OutText (omitted_summary (omitted_text_items st))] else items_out st).

(** ** Lengths *)

Definition nlen (s : str) : N := N.of_nat (str_len s).
Definition clen (c : char) : N := N.of_nat (len_utf8 c).

Lemma clen_pos c : (0 < clen c)%N.
Proof. unfold clen, len_utf8. repeat case_match; lia. Qed.

Lemma nlen_cons c s : nlen (c :: s) = (clen c + nlen s)%N.
Proof. unfold nlen, clen, str_len. cbn. lia. Qed.

Lemma nlen_app s1 s2 : nlen (s1 ++ s2) = (nlen s1 + nlen s2)%N.
Proof. induction s1 as [|c s1 IH]; [done|]. cbn [app]. rewrite !nlen_cons, IH. lia. Qed.

Lemma length_nlen s : (N.of_nat (length s) <= nlen s)%N.
Proof. induction s as [|c s IH]; [done|]. rewrite nlen_cons. cbn. pose proof (clen_pos c). lia. Qed.

Lemma nlen_pos s : s <> [] -> (0 < nlen s)%N.
Proof. destruct s as [|c s]; [done|]. rewrite nlen_cons. pose proof (clen_pos c). lia. Qed.

Lemma split_at_byte_app s1 s2 : split_at_byte (nlen s1) (s1 ++ s2) = Some (s1, s2).
Proof.
  induction s1 as [|c s1 IH]; [by destruct s2|]. rewrite nlen_cons. pose proof (clen_pos c).
  cbn [app split_at_byte]. rewrite (proj2 (N.eqb_neq _ _)) by lia. fold (clen c).
  rewrite (proj2 (N.ltb_ge _ _)) by lia. replace (clen c + nlen s1 - clen c)%N with (nlen s1) by lia.
  by rewrite IH.
Qed.

Lemma saturate_le n : (n <= USIZE_MAX)%N -> saturate n = n.
Proof. unfold saturate. lia. Qed.

Lemma saturate_step n m : saturate (saturate n + m) = saturate (n + m).
Proof. unfold saturate. lia. Qed.

(** ** The loop that splits *)

Section split.
Variables beginning tail_start : N.

#[local] Abbreviation step := (split_char beginning tail_start) (only parsing).

(** No character of [s], the first of which is at [idx], ends within the beginning. *)
Definition past (idx : N) (s : str) : Prop := forall c, head s = Some c -> (beginning < idx + clen c)%N.

Lemma past_tail idx c s : past idx (c :: s) -> past (idx + clen c) s.
Proof. intros Hp c' _. specialize (Hp c eq_refl). pose proof (clen_pos c'). lia. Qed.

(** Once the suffix has started nothing changes but the position. *)
Lemma split_suffix s idx p x r :
  past idx s -> (tail_start <= idx)%N ->
  foldl step (mk_split idx p (Some x) r) s = mk_split (idx + nlen s) p (Some x) r.
Proof.
  revert idx. induction s as [|c s IH]; intros idx Hp Ht; [cbn; f_equal; unfold nlen; cbn; lia|].
  cbn [foldl]. unfold split_char at 2. cbn [split_idx prefix_end suffix_start removed_chars]. fold (clen c).
  rewrite (proj2 (N.leb_gt _ _)) by by apply Hp. rewrite (proj2 (N.leb_le _ _)) by done. cbn [default].
  rewrite IH; [|by apply past_tail|pose proof (clen_pos c); lia]. rewrite nlen_cons. f_equal. lia.
Qed.

Lemma split_removed s idx p r :
  past idx s ->
  exists mid after, s = mid ++ after /\
    foldl step (mk_split idx p None r) s
    = mk_split (idx + nlen s) p (if bool_decide (after = []) then None else Some (idx + nlen mid)%N)
        (match mid with [] => r | _ => saturate (r + N.of_nat (length mid)) end) /\
    (after <> [] -> tail_start <= idx + nlen mid)%N /\
    (forall m c, mid = m ++ [c] -> idx + nlen m < tail_start)%N.
Proof.
  revert idx r. induction s as [|c s IH]; intros idx r Hp.
  - exists [], []. split_and!; try done; [cbn; f_equal; unfold nlen; cbn; lia|by intros []].
  - destruct (N.leb_spec tail_start idx) as [Ht|Ht].
    + exists [], (c :: s). split_and!; try done; [|cbn; intros; unfold nlen; cbn; lia|by intros []].
      cbn [foldl]. unfold split_char at 2. cbn [split_idx prefix_end suffix_start removed_chars]. fold (clen c).
      rewrite (proj2 (N.leb_gt _ _)) by by apply Hp. rewrite (proj2 (N.leb_le _ _)) by done. cbn [default].
      rewrite split_suffix; [|by apply past_tail|pose proof (clen_pos c); lia]. rewrite nlen_cons.
      cbn. f_equal; [lia|]. f_equal. unfold nlen. cbn. lia.
    + destruct (IH (idx + clen c)%N (saturate (r + 1)) (past_tail _ _ _ Hp)) as (mid & after & -> & Hfold & Ha & Hm).
      exists (c :: mid), after. split; [done|]. split; [|split].
      * cbn [foldl]. unfold split_char at 2. cbn [split_idx prefix_end suffix_start removed_chars]. fold (clen c).
        rewrite (proj2 (N.leb_gt _ _)) by by apply Hp. rewrite (proj2 (N.leb_gt _ _)) by done.
        rewrite Hfold, !nlen_cons. f_equal; [lia|by rewrite N.add_assoc|].
        destruct mid as [|c' mid]; [done|]. rewrite saturate_step. f_equal. cbn. lia.
      * intros H. specialize (Ha H). rewrite nlen_cons. lia.
      * intros [|c0 m] c' Heq; [unfold nlen; cbn; lia|]. injection Heq as <- ->. rewrite nlen_cons.
        specialize (Hm m c' eq_refl). lia.
Qed.

Lemma split_prefix s idx :
  (idx <= beginning)%N ->
  exists before rest, s = before ++ rest /\ (idx + nlen before <= beginning)%N /\ past (idx + nlen before) rest /\
    foldl step (mk_split idx idx None 0) s
    = foldl step (mk_split (idx + nlen before) (idx + nlen before) None 0) rest.
Proof.
  revert idx. induction s as [|c s IH]; intros idx Hi.
  - exists [], []. change (nlen []) with 0%N. rewrite N.add_0_r. done.
  - destruct (N.leb_spec (idx + clen c) beginning) as [Hfit|Hfit].
    + destruct (IH _ Hfit) as (before & rest & -> & Hb & Hp & Hfold). exists (c :: before), rest.
      rewrite nlen_cons, N.add_assoc. split_and!; try done. cbn [foldl]. rewrite <-Hfold. f_equal.
      unfold split_char. cbn [split_idx prefix_end suffix_start removed_chars]. fold (clen c).
      by rewrite (proj2 (N.leb_le _ _)) by done.
    + exists [], (c :: s). change (nlen []) with 0%N. rewrite N.add_0_r. split_and!; try done.
      by intros c' [= <-].
Qed.
End split.

(** [split_string] splits the text in three, and never cuts a character. *)
Lemma split_string_spec {E} s b e :
  (nlen s <= USIZE_MAX)%N ->
  exists before mid after, s = before ++ mid ++ after /\
    split_string (E:=E) s b e = Ok (N.of_nat (length mid), before, after) /\
    (nlen before <= b)%N /\ (nlen after <= e)%N /\
    (forall c, head mid = Some c -> b < nlen before + clen c)%N /\
    (forall m c, mid = m ++ [c] -> e < clen c + nlen after)%N.
Proof.
  intros Hmax. unfold split_string. case_bool_decide as Hs.
  { exists [], [], []. subst. split_and!; try done; [apply N.le_0_l..|by intros []]. }
  fold (nlen s). set (t := (nlen s - e)%N).
  destruct (split_prefix b t s 0 (N.le_0_l _)) as (before & rest & Hsplit & Hb & Hp & ->). rewrite N.add_0_l in *.
  destruct (split_removed b t rest _ (nlen before) 0 Hp) as (mid & after & -> & -> & Ha & Hm).
  exists before, mid, after. split; [done|].
  assert (Hlen : nlen s = (nlen before + nlen mid + nlen after)%N) by (rewrite Hsplit, !nlen_app; lia).
  cbn [prefix_end suffix_start removed_chars].
  assert (Hstart : default (nlen s) (if bool_decide (after = []) then None else Some (nlen before + nlen mid)%N)
                   = (nlen before + nlen mid)%N).
  { case_bool_decide as Haft; [|done]. subst after. cbn. rewrite Hlen. change (nlen []) with 0%N. lia. }
  assert (Hat1 : split_at_byte (nlen before) s = Some (before, mid ++ after))
    by (rewrite Hsplit; apply split_at_byte_app).
  assert (Hat2 : split_at_byte (nlen before + nlen mid) s = Some (before ++ mid, after))
    by (rewrite Hsplit, app_assoc, <-nlen_app; apply split_at_byte_app).
  rewrite Hstart, (proj2 (N.ltb_ge _ _)) by lia. rewrite Hat1, Hat2. cbn [fmap option_fmap option_map fst snd byte_slice mbind outcome_bind].
  split.
  { do 3 f_equal. destruct mid as [|c mid]; [done|]. apply saturate_le.
    pose proof (length_nlen (c :: mid)). lia. }
  split_and!; [done| |intros c Hc; apply Hp; by destruct mid|].
  - destruct (decide (after = [])) as [->|Hne]; [apply N.le_0_l|]. specialize (Ha Hne). lia.
  - intros m c ->. specialize (Hm m c eq_refl). rewrite nlen_app, nlen_cons in Hlen.
    change (nlen []) with 0%N in Hlen. lia.
Qed.

(** ** What a truncated text is *)

(** The number the marker tells: characters, or an estimate of tokens. *)
Definition removed_count (policy : TruncationPolicy) (s mid : str) : N :=
  match policy with
  | Bytes _ => N.of_nat (length mid)
  | Tokens _ => approx_tokens_from_byte_count (nlen s - byte_budget policy)
  end.

(** [s] without its middle [mid], cut to [budget] bytes: neither side has room for one
    more character. *)
Record cut_to (budget : N) (s before mid after : str) : Prop := {
  cut_parts : s = before ++ mid ++ after;
  cut_before : (nlen before <= budget / 2)%N;
  cut_after : (nlen after <= budget - budget / 2)%N;
  cut_first c : head mid = Some c -> (budget / 2 < nlen before + clen c)%N;
  cut_last m c : mid = m ++ [c] -> (budget - budget / 2 < clen c + nlen after)%N;
}.

Lemma estimate_spec {E} s policy :
  (nlen s <= USIZE_MAX)%N ->
  ((nlen s <= byte_budget policy)%N /\ truncate_with_byte_estimate (E:=E) s policy = Ok s) \/
  ((byte_budget policy < nlen s)%N /\ exists before mid after, cut_to (byte_budget policy) s before mid after /\
     truncate_with_byte_estimate (E:=E) s policy
     = Ok (before ++ format_truncation_marker policy (removed_count policy s mid) ++ after)).
Proof.
  intros Hmax. unfold truncate_with_byte_estimate. case_bool_decide as Hs.
  { left. subst. split; [apply N.le_0_l|done]. }
  fold (nlen s). pose proof (nlen_pos s Hs). destruct (N.eqb_spec (byte_budget policy) 0) as [Hz|Hz].
  - right. rewrite Hz. split; [lia|]. exists [], s, []. split.
    + split; [by rewrite app_nil_r|done|done| |].
      * intros c _. pose proof (clen_pos c). change (0 / 2)%N with 0%N. lia.
      * intros m c _. pose proof (clen_pos c). change (0 - 0 / 2)%N with 0%N. lia.
    + rewrite app_nil_r. cbn [app]. do 2 f_equal. destruct policy; [done|]. cbn [removed_units_for_source removed_count].
      by rewrite Hz, N.sub_0_r.
  - destruct (N.leb_spec (nlen s) (byte_budget policy)) as [Hle|Hle]; [by left|]. right. split; [done|].
    unfold split_budget.
    destruct (split_string_spec (E:=E) s (byte_budget policy / 2) (byte_budget policy - byte_budget policy / 2) Hmax)
      as (before & mid & after & Hparts & -> & Hb & Ha & Hf & Hl).
    exists before, mid, after. split; [by split|]. cbn [mbind outcome_bind]. unfold assemble_truncated_output.
    by destruct policy.
Qed.

(** The token path only repeats tests of the byte path. *)
Lemma truncate_text_estimate {E} s policy :
  (nlen s <= USIZE_MAX)%N -> truncate_text (E:=E) s policy = truncate_with_byte_estimate s policy.
Proof.
  intros Hmax. destruct policy as [b|t]; [done|]. unfold truncate_text, truncate_with_token_budget.
  pose proof (estimate_spec (E:=E) s (Tokens t) Hmax) as Hest.
  case_bool_decide as Hs; [by subst|]. cbn [token_budget]. fold (nlen s). cbn [byte_budget] in Hest.
  destruct ((0 <? t)%N && (nlen s <=? approx_bytes_for_tokens t)%N) eqn:Hfit.
  - apply andb_true_iff in Hfit as [_ Hfit%N.leb_le]. destruct Hest as [[_ ->]|[? _]]; [done|lia].
  - destruct Hest as [[_ ->]|(_ & before & mid & after & _ & ->)]; done.
Qed.

Lemma truncation_cases {E} s policy :
  (nlen s <= USIZE_MAX)%N ->
  ((nlen s <= byte_budget policy)%N /\ truncate_text (E:=E) s policy = Ok s) \/
  ((byte_budget policy < nlen s)%N /\ exists before mid after, cut_to (byte_budget policy) s before mid after /\
     truncate_text (E:=E) s policy
     = Ok (before ++ format_truncation_marker policy (removed_count policy s mid) ++ after)).
Proof. intros Hmax. rewrite truncate_text_estimate by done. by apply estimate_spec. Qed.

(** Truncation returns, and cuts only the middle: a text within the budget is kept; of
    a longer one the start and the end are kept, each with as many whole characters as
    its half of the budget has room for, around a marker with the number of characters
    removed (of tokens over the budget, for a policy in tokens). *)
Theorem truncation_keeps_ends {E} s policy :
  (nlen s <= USIZE_MAX)%N ->
  ((nlen s <= byte_budget policy)%N /\ truncate_text (E:=E) s policy = Ok s) \/
  ((byte_budget policy < nlen s)%N /\ exists before mid after, cut_to (byte_budget policy) s before mid after /\
     truncate_text (E:=E) s policy
     = Ok (before ++ format_truncation_marker policy (removed_count policy s mid) ++ after)).
Proof. apply truncation_cases. Qed.

(** The marker is not counted: a text that is cut is longer than its budget. *)
Lemma clen_le c : (clen c <= 4)%N.
Proof. unfold clen, len_utf8. repeat case_match; lia. Qed.

Lemma marker_length policy n : (22 <= nlen (format_truncation_marker policy n))%N.
Proof.
  destruct policy; unfold format_truncation_marker; rewrite !nlen_app.
  - change (nlen (lit " chars truncated")) with 16%N. change (nlen ELLIPSIS) with 3%N. lia.
  - change (nlen (lit " tokens truncated")) with 17%N. change (nlen ELLIPSIS) with 3%N. lia.
Qed.

Theorem truncated_over_budget {E} s policy r :
  (nlen s <= USIZE_MAX)%N -> (byte_budget policy < nlen s)%N -> truncate_text (E:=E) s policy = Ok r ->
  (byte_budget policy < nlen r)%N.
Proof.
  intros Hmax Hlong. destruct (truncation_cases (E:=E) s policy Hmax) as [[? _]|(_ & before & mid & after & Hc & ->)]; [lia|].
  intros [= <-]. destruct Hc as [Hparts Hb Ha Hf Hl].
  assert (byte_budget policy / 2 <= byte_budget policy)%N by (apply N.Div0.div_le_upper_bound; lia).
  destruct mid as [|c mid]; [rewrite Hparts, !nlen_app in Hlong; change (nlen []) with 0%N in Hlong; lia|].
  specialize (Hf c eq_refl). destruct (exists_last (l:=c :: mid)) as (m & c' & Hm); [done|]. specialize (Hl m c' Hm).
  rewrite !nlen_app. pose proof (clen_le c). pose proof (clen_le c').
  pose proof (marker_length policy (removed_count policy s (c :: mid))). lia.
Qed.

(** ** What is kept of the items of an output *)

Definition texts_of : list FunctionCallOutputContentItem -> list str :=
  omap (fun it => match it with OutText text => Some text | OutImage _ => None end).
Definition images_of : list FunctionCallOutputContentItem -> list str :=
  omap (fun it => match it with OutText _ => None | OutImage image_url => Some image_url end).

(** The texts that are kept whole, and what they cost. *)
Fixpoint fitting (policy : TruncationPolicy) (budget : N) (texts : list str) : list str :=
  match texts with
  | [] => []
  | t :: ts =>
      if (budget =? 0)%N then []
      else if (item_cost policy t <=? budget)%N then t :: fitting policy (budget - item_cost policy t) ts
      else []
  end.
Fixpoint cost_of (policy : TruncationPolicy) (texts : list str) : N :=
  match texts with [] => 0 | t :: ts => item_cost policy t + cost_of policy ts end.

Lemma fitting_cost policy budget texts : (cost_of policy (fitting policy budget texts) <= budget)%N.
Proof.
  revert budget. induction texts as [|t ts IH]; intros budget; cbn [fitting]; [apply N.le_0_l|].
  destruct (budget =? 0)%N; [apply N.le_0_l|].
  destruct (N.leb_spec (item_cost policy t) budget); [|apply N.le_0_l]. cbn [cost_of]. specialize (IH (budget - item_cost policy t)%N). lia.
Qed.

Lemma fitting_prefix policy budget texts :
  fitting policy budget texts = take (length (fitting policy budget texts)) texts.
Proof.
  revert budget. induction texts as [|t ts IH]; intros budget; [done|]. cbn [fitting].
  destruct (budget =? 0)%N; [done|]. destruct (_ <=? _)%N; [|done]. cbn. by f_equal.
Qed.

Lemma texts_of_app l1 l2 : texts_of (l1 ++ l2) = texts_of l1 ++ texts_of l2.
Proof. apply omap_app. Qed.
Lemma images_of_app l1 l2 : images_of (l1 ++ l2) = images_of l1 ++ images_of l2.
Proof. apply omap_app. Qed.

Lemma items_loop_spent {E} policy items out omitted :
  exists out', items_loop (E:=E) policy items (mk_items out 0 omitted)
               = Ok (mk_items out' 0 (omitted + length (texts_of items))) /\
    texts_of out' = texts_of out /\ images_of out' = images_of out ++ images_of items.
Proof.
  revert out omitted. induction items as [|[t|u] items IH]; intros out omitted; cbn.
  - exists out. rewrite app_nil_r, Nat.add_0_r. done.
  - destruct (IH out (S omitted)) as (out' & -> & ? & ?). exists out'. split_and!; try done. do 2 f_equal. lia.
  - destruct (IH (out ++ [OutImage u]) omitted) as (out' & -> & Ht & Hi). exists out'. split; [done|].
    rewrite Ht, Hi, texts_of_app, images_of_app. cbn. rewrite app_nil_r, <-(assoc (++)). done.
Qed.

Lemma cost_nonempty policy t n : (n < item_cost policy t)%N -> t <> [].
Proof. intros H ->. change (item_cost policy []) with (match policy with Bytes _ => 0 | Tokens _ => 0 end)%N in H. destruct policy; lia. Qed.

(** A shortened text is never empty. *)
Lemma snippet_nonempty {E} t policy :
  t <> [] -> (nlen t <= USIZE_MAX)%N ->
  exists snippet, truncate_text (E:=E) t policy = Ok snippet /\ snippet <> [].
Proof.
  intros Hne Hmax. destruct (truncation_cases (E:=E) t policy Hmax) as [[_ ->]|(_ & b & m & a & _ & ->)]; [eauto|].
  eexists. split; [done|]. destruct policy, b; done.
Qed.

Definition all_sized (texts : list str) : Prop := Forall (fun t => nlen t <= USIZE_MAX)%N texts.

Lemma items_loop_spec {E} policy items out budget :
  all_sized (texts_of items) ->
  let whole := fitting policy budget (texts_of items) in
  let room := (budget - cost_of policy whole)%N in
  exists out' room' omitted, items_loop (E:=E) policy items (mk_items out budget 0) = Ok (mk_items out' room' omitted) /\
    images_of out' = images_of out ++ images_of items /\
    match drop (length whole) (texts_of items) with
    | [] => texts_of out' = texts_of out ++ whole /\ omitted = 0
    | t :: more =>
        if (room =? 0)%N then texts_of out' = texts_of out ++ whole /\ omitted = S (length more)
        else exists snippet, truncate_text (E:=E) t (snippet_policy policy room) = Ok snippet /\
               texts_of out' = texts_of out ++ whole ++ [snippet] /\ omitted = length more
    end.
Proof.
  revert out budget. induction items as [|[t|u] items IH]; intros out budget Hsz; cbn.
  - exists out, budget, 0. rewrite !app_nil_r. done.
  - apply Forall_cons in Hsz as [Ht Hsz]. destruct (N.eqb_spec budget 0) as [->|Hb].
    { cbn. destruct (items_loop_spent (E:=E) policy items out 1) as (out' & -> & Htx & Him).
      exists out', 0%N, (S (length (texts_of items))). cbn. rewrite app_nil_r. done. }
    destruct (N.leb_spec (item_cost policy t) budget) as [Hc|Hc].
    + cbn. destruct (IH (out ++ [OutText t]) (budget - item_cost policy t)%N Hsz) as (out' & room' & omitted & -> & Him & Hrest).
      exists out', room', omitted. split; [done|]. rewrite images_of_app in Him. cbn in Him. rewrite app_nil_r in Him.
      split; [done|]. cbn. rewrite texts_of_app in Hrest. cbn in Hrest. rewrite N.sub_add_distr.
      destruct (drop _ _) as [|t' more]; [by rewrite <-(assoc (++)) in Hrest|].
      destruct (_ =? 0)%N; [by rewrite <-(assoc (++)) in Hrest|].
      destruct Hrest as (snippet & Hs & Htx & Ho). exists snippet. by rewrite <-(assoc (++)) in Htx.
    + destruct (snippet_nonempty (E:=E) t (snippet_policy policy budget) (cost_nonempty _ _ _ Hc) Ht)
        as (snippet & Hs & Hne).
      cbn [cost_of length drop]. rewrite N.sub_0_r, (proj2 (N.eqb_neq _ _)) by done. rewrite Hs. cbn [mbind outcome_bind].
      rewrite bool_decide_eq_false_2 by done. cbn [mbind outcome_bind].
      destruct (items_loop_spent (E:=E) policy items (out ++ [OutText snippet]) 0) as (out' & -> & Htx & Him).
      exists out', 0%N, (length (texts_of items)). split; [done|].
      rewrite texts_of_app in Htx. rewrite images_of_app in Him. cbn in Him, Htx. rewrite app_nil_r in Him. eauto.
  - destruct (IH (out ++ [OutImage u]) budget Hsz) as (out' & room' & omitted & -> & Him & Hrest).
    exists out', room', omitted. split; [done|]. rewrite images_of_app in Him. rewrite texts_of_app in Hrest. cbn in Him, Hrest.
    rewrite <-(assoc (++)) in Him. rewrite app_nil_r in Hrest. done.
Qed.

(** The items of a tool output: images are all kept, texts are kept whole from the
    first on while the budget lasts, the one at which it ends is truncated to what is
    left of it, and the rest is replaced by their number. *)
Theorem output_items_spec {E} items policy :
  all_sized (texts_of items) ->
  let texts := texts_of items in
  let whole := fitting policy (initial_budget policy) texts in
  let room := (initial_budget policy - cost_of policy whole)%N in
  exists out, truncate_function_output_items_with_policy (E:=E) items policy = Ok out /\
    images_of out = images_of items /\ (cost_of policy whole <= initial_budget policy)%N /\
    whole = take (length whole) texts /\
    match drop (length whole) texts with
    | [] => texts_of out = texts
    | t :: more =>
        if (room =? 0)%N then texts_of out = whole ++ [omitted_summary (S (length more))]
        else exists snippet, truncate_text (E:=E) t (snippet_policy policy room) = Ok snippet /\
               texts_of out = whole ++ [snippet] ++ match more with [] => [] | _ => [omitted_summary (length more)] end
    end.
Proof.
  intros Hsz texts whole room. unfold truncate_function_output_items_with_policy.
  destruct (items_loop_spec (E:=E) policy items [] (initial_budget policy) Hsz)
    as (out & room' & omitted & -> & Him & Hrest). fold texts whole room in Hrest.
  cbn [mbind outcome_bind items_out omitted_text_items]. eexists. split; [done|].
  split; [by destruct (0 <? omitted); rewrite ?images_of_app, ?Him, ?app_nil_r|]. split; [apply fitting_cost|].
  split; [apply fitting_prefix|]. destruct (drop (length whole) texts) as [|t more] eqn:Hdrop.
  - destruct Hrest as [Htx ->]. cbn [Nat.ltb Nat.leb]. rewrite Htx. cbn [app texts_of omap list_omap].
    etransitivity; [apply fitting_prefix|]. fold whole.
    pose proof (take_drop (length whole) texts) as Hall. by rewrite Hdrop, app_nil_r in Hall.
  - destruct (room =? 0)%N; [destruct Hrest as [Htx ->]; cbn [Nat.ltb Nat.leb]; by rewrite texts_of_app, Htx|].
    destruct Hrest as (snippet & Hs & Htx & ->). exists snippet. split; [done|].
    destruct more as [|m more]; cbn [length Nat.ltb Nat.leb]; [by rewrite Htx|].
    rewrite texts_of_app, Htx. change (texts_of [] ++ ?l) with l. by rewrite <-(assoc (++)).
Qed.

(** ** Witnesses *)

Definition example_text : str := lit "ab" ++ [8364%N; 8364%N; 8364%N] ++ lit "yz".

Lemma truncation_keeps_ends_witness :
  truncate_text (E:=()) example_text (Bytes 9)
  = Ok (lit "ab" ++ ELLIPSIS ++ lit "2 chars truncated" ++ ELLIPSIS ++ [8364%N] ++ lit "yz") /\
  ((byte_budget (Bytes 9) < nlen example_text)%N /\
   exists before mid after, cut_to 9 example_text before mid after).
Proof.
  split; [vm_compute; reflexivity|].
  destruct (truncation_keeps_ends (E:=()) example_text (Bytes 9)) as [[H _]|[H (b & m & a & Hc & _)]].
  - apply (bool_decide_unpack _). vm_compute. exact I.
  - exfalso. apply (N.lt_irrefl 13). eapply N.le_lt_trans; [exact H|]. reflexivity.
  - split; [exact H|]. exists b, m, a. exact Hc.
Defined.

Lemma truncated_over_budget_witness :
  exists r, truncate_text (E:=()) example_text (Bytes 9) = Ok r /\ (9 < nlen r)%N.
Proof.
  eexists. split; [vm_compute; reflexivity|].
  apply (truncated_over_budget (E:=()) example_text (Bytes 9)); [apply (bool_decide_unpack _); vm_compute; exact I|reflexivity|].
  vm_compute. reflexivity.
Defined.

Definition example_items : list FunctionCallOutputContentItem :=
  [OutText (lit "abc"); OutImage (lit "u"); OutText (lit "defghij"); OutText (lit "k")].

Lemma output_items_spec_witness :
  truncate_function_output_items_with_policy (E:=()) example_items (Bytes 5)
  = Ok [OutText (lit "abc"); OutImage (lit "u");
        OutText (lit "d" ++ ELLIPSIS ++ lit "5 chars truncated" ++ ELLIPSIS ++ lit "j");
        OutText (lit "[omitted 1 text items ...]")] /\
  exists out, truncate_function_output_items_with_policy (E:=()) example_items (Bytes 5) = Ok out /\
    images_of out = [lit "u"].
Proof.
  split; [vm_compute; reflexivity|].
  destruct (output_items_spec (E:=()) example_items (Bytes 5)) as (out & H & Hi & _).
  - apply (bool_decide_unpack _). vm_compute. exact I.
  - exists out. split; [exact H|exact Hi].
Defined.
