(* ===== verification/History.v ===== *)
(** * The history of a conversation (core/src/context_manager)

    The items that are sent to the model: recording with truncation, the pairing of
    calls and outputs that the model API insists on, removal and rollback, and the
    estimates of tokens.  A build with debug assertions panics where a release build
    logs, and on overflow where that wraps: [debug_assertions] tells which. *)

From stdpp Require Import gmap sets.
From S2P Require Import Prelude RustStd Float64 Truncate.

(** ** Items

    A field [rest] stands for those that are only carried along. *)

Inductive ContentItem : Type :=
  | InputText (text : str)
  | InputImage (image_url : str)
  | OutputText (text : str).

Inductive FunctionCallOutputBody : Type :=
  | BodyText (content : str)
  | BodyItems (items : list FunctionCallOutputContentItem).

Record FunctionCallOutputPayload : Type := mk_payload {
  payload_body : FunctionCallOutputBody;
  payload_success : option bool;
}.

Inductive ResponseItem : Type :=
  | Message (role : str) (content : list ContentItem) (rest : str)
  | Reasoning (encrypted_content : option str) (rest : str)
  | LocalShellCall (call_id : option str) (rest : str)
  | FunctionCall (call_id : str) (rest : str)
  | FunctionCallOutput (call_id : str) (output : FunctionCallOutputPayload)
  | CustomToolCall (call_id : str) (rest : str)
  | CustomToolCallOutput (call_id : str) (output : str)
  | WebSearchCall (rest : str)
  | GhostSnapshot (rest : str)
  | Compaction (encrypted_content : str)
  | OtherItem.

Inductive InputModality : Type := ModText | ModImage.
#[export] Instance InputModality_eq_dec : EqDecision InputModality.
Proof. solve_decision. Defined.

Definition is_ghost_snapshot (item : ResponseItem) : bool :=
  match item with GhostSnapshot _ => true | _ => false end.

Definition is_api_message (message : ResponseItem) : bool :=
  match message with
  | Message role _ _ => negb (bool_decide (role = lit "system"))
  | FunctionCallOutput _ _ | FunctionCall _ _ | CustomToolCall _ _ | CustomToolCallOutput _ _
  | LocalShellCall _ _ | Reasoning _ _ | WebSearchCall _ | Compaction _ => true
  | GhostSnapshot _ | OtherItem => false
  end.

Definition is_model_generated_item (item : ResponseItem) : bool :=
  match item with
  | Message role _ _ => bool_decide (role = lit "assistant")
  | Reasoning _ _ | FunctionCall _ _ | WebSearchCall _ | CustomToolCall _ _ | LocalShellCall _ _
  | Compaction _ => true
  | FunctionCallOutput _ _ | CustomToolCallOutput _ _ | GhostSnapshot _ | OtherItem => false
  end.

Definition is_codex_generated_item (item : ResponseItem) : bool :=
  match item with
  | FunctionCallOutput _ _ | CustomToolCallOutput _ _ => true
  | Message role _ _ => bool_decide (role = lit "developer")
  | _ => false
  end.

(** ** User turns (session_prefix.rs, user_shell_command.rs, instructions/) *)

Definition ENVIRONMENT_CONTEXT_OPEN_TAG : str := lit "<environment_context>".
Definition TURN_ABORTED_OPEN_TAG : str := lit "<turn_aborted>".
Definition SUBAGENT_NOTIFICATION_OPEN_TAG : str := lit "<subagent_notification>".
Definition USER_SHELL_COMMAND_OPEN : str := lit "<user_shell_command>".
Definition USER_INSTRUCTIONS_OPEN_TAG_LEGACY : str := lit "<user_instructions>".
Definition USER_INSTRUCTIONS_PREFIX : str := lit "# AGENTS.md instructions for ".
Definition SKILL_INSTRUCTIONS_PREFIX : str := lit "<skill".

Definition starts_with_ascii_case_insensitive (text prefix : str) : bool :=
  match fst <$> split_at_byte (nlen prefix) text with
  | Some candidate => eq_ignore_ascii_case candidate prefix
  | None => false
  end.

Definition is_session_prefix (text : str) : bool :=
  let trimmed := trim_start text in
  starts_with_ascii_case_insensitive trimmed ENVIRONMENT_CONTEXT_OPEN_TAG
  || starts_with_ascii_case_insensitive trimmed TURN_ABORTED_OPEN_TAG
  || starts_with_ascii_case_insensitive trimmed SUBAGENT_NOTIFICATION_OPEN_TAG.

Definition is_user_shell_command_text (text : str) : bool :=
  starts_with USER_SHELL_COMMAND_OPEN (to_ascii_lowercase (trim_start text)).

Definition is_user_instructions (message : list ContentItem) : bool :=
  match message with
  | [InputText text] =>
      starts_with USER_INSTRUCTIONS_PREFIX text || starts_with USER_INSTRUCTIONS_OPEN_TAG_LEGACY text
  | _ => false
  end.

Definition is_skill_instructions (message : list ContentItem) : bool :=
  match message with
  | [InputText text] => starts_with SKILL_INSTRUCTIONS_PREFIX text
  | _ => false
  end.

(** Content that stands for state of the session rather than for the user's words. *)
Definition is_state_content (item : ContentItem) : bool :=
  match item with
  | InputText text => is_session_prefix text || is_user_shell_command_text text
  | OutputText text => is_session_prefix text
  | InputImage _ => false
  end.

Definition is_user_turn_boundary (item : ResponseItem) : bool :=
  match item with
  | Message role content _ =>
      if negb (bool_decide (role = lit "user")) then false
      else if is_user_instructions content || is_skill_instructions content then false
      else negb (existsb is_state_content content)
  | _ => false
  end.

Fixpoint positions_from (idx : nat) (items : list ResponseItem) : list nat :=
  match items with
  | [] => []
  | item :: items =>
      (if is_user_turn_boundary item then [idx] else []) ++ positions_from (S idx) items
  end.
Definition user_message_positions (items : list ResponseItem) : list nat := positions_from 0 items.

(** ** Vectors *)

(** [Iterator::position] and [rposition]. *)
Fixpoint position {A} (p : A -> bool) (l : list A) : option nat :=
  match l with
  | [] => None
  | x :: l => if p x then Some 0 else S <$> position p l
  end.
Definition rposition {A} (p : A -> bool) (l : list A) : option nat :=
  (fun i => length l - 1 - i) <$> position p (reverse l).

(** [Vec::remove] at a position that was found, and [Vec::insert]. *)
Definition vec_remove {A} (i : nat) (l : list A) : list A := take i l ++ drop (S i) l.
Definition vec_insert {E A} (i : nat) (x : A) (l : list A) : outcome E (list A) :=
  if i <=? length l then Ok (take i l ++ x :: drop i l) else Panic.

(** ** Calls and outputs (context_manager/normalize.rs) *)

Definition IMAGE_CONTENT_OMITTED_PLACEHOLDER : str :=
  lit "image content omitted because you do not support image input".

Definition is_function_output_of (id : str) (item : ResponseItem) : bool :=
  match item with FunctionCallOutput existing _ => bool_decide (existing = id) | _ => false end.
Definition is_custom_output_of (id : str) (item : ResponseItem) : bool :=
  match item with CustomToolCallOutput existing _ => bool_decide (existing = id) | _ => false end.
Definition is_function_call_of (id : str) (item : ResponseItem) : bool :=
  match item with FunctionCall existing _ => bool_decide (existing = id) | _ => false end.
Definition is_shell_call_of (id : str) (item : ResponseItem) : bool :=
  match item with LocalShellCall (Some existing) _ => bool_decide (existing = id) | _ => false end.
Definition is_custom_call_of (id : str) (item : ResponseItem) : bool :=
  match item with CustomToolCall existing _ => bool_decide (existing = id) | _ => false end.

Definition aborted_output (call_id : str) : ResponseItem :=
  FunctionCallOutput call_id (mk_payload (BodyText (lit "aborted")) None).
Definition aborted_custom_output (call_id : str) : ResponseItem :=
  CustomToolCallOutput call_id (lit "aborted").

Section normalize.
Variable debug_assertions : bool.

(** [error_or_panic]. *)
Definition error_or_panic {E} : outcome E () := if debug_assertions then Panic else Ok ().

(** The output that [item] lacks, and whether its lack is an error. *)
Definition missing_output (items : list ResponseItem) (item : ResponseItem) : option (ResponseItem * bool) :=
  match item with
  | FunctionCall call_id _ =>
      if existsb (is_function_output_of call_id) items then None else Some (aborted_output call_id, false)
  | CustomToolCall call_id _ =>
      if existsb (is_custom_output_of call_id) items then None else Some (aborted_custom_output call_id, true)
  | LocalShellCall (Some call_id) _ =>
      if existsb (is_function_output_of call_id) items then None else Some (aborted_output call_id, true)
  | _ => None
  end.

Fixpoint missing_outputs {E} (items : list ResponseItem) (idx : nat) (rest : list ResponseItem)
    (acc : list (nat * ResponseItem)) : outcome E (list (nat * ResponseItem)) :=
  match rest with
  | [] => Ok acc
  | item :: rest =>
      match missing_output items item with
      | None => missing_outputs items (S idx) rest acc
      | Some (output, report) =>
          _ ← (if (report : bool) then error_or_panic else Ok ());
          missing_outputs items (S idx) rest (acc ++ [(idx, output)])
      end
  end.

(** The insertions, the last one first. *)
Fixpoint insert_outputs {E} (missing : list (nat * ResponseItem)) (items : list ResponseItem)
    : outcome E (list ResponseItem) :=
  match missing with
  | [] => Ok items
  | (idx, output_item) :: missing =>
      items ← insert_outputs missing items; vec_insert (S idx) output_item items
  end.

Definition ensure_call_outputs_present {E} (items : list ResponseItem) : outcome E (list ResponseItem) :=
  missing ← missing_outputs items 0 items [];
  insert_outputs missing items.

(** Whether an output has a call ([true] for all that is no output). *)
Definition has_call (items : list ResponseItem) (item : ResponseItem) : bool :=
  match item with
  | FunctionCallOutput call_id _ =>
      existsb (is_function_call_of call_id) items || existsb (is_shell_call_of call_id) items
  | CustomToolCallOutput call_id _ => existsb (is_custom_call_of call_id) items
  | _ => true
  end.

Fixpoint retain_outputs {E} (items rest : list ResponseItem) : outcome E (list ResponseItem) :=
  match rest with
  | [] => Ok []
  | item :: rest =>
      if has_call items item then kept ← retain_outputs items rest; Ok (item :: kept)
      else _ ← error_or_panic; retain_outputs items rest
  end.

Definition remove_orphan_outputs {E} (items : list ResponseItem) : outcome E (list ResponseItem) :=
  retain_outputs items items.

Definition remove_first_matching (p : ResponseItem -> bool) (items : list ResponseItem) : list ResponseItem :=
  match position p items with Some pos => vec_remove pos items | None => items end.

Definition remove_corresponding_for (items : list ResponseItem) (item : ResponseItem) : list ResponseItem :=
  match item with
  | FunctionCall call_id _ => remove_first_matching (is_function_output_of call_id) items
  | FunctionCallOutput call_id _ =>
      match position (is_function_call_of call_id) items with
      | Some pos => vec_remove pos items
      | None => remove_first_matching (is_shell_call_of call_id) items
      end
  | CustomToolCall call_id _ => remove_first_matching (is_custom_output_of call_id) items
  | CustomToolCallOutput call_id _ => remove_first_matching (is_custom_call_of call_id) items
  | LocalShellCall (Some call_id) _ => remove_first_matching (is_function_output_of call_id) items
  | _ => items
  end.

Definition strip_content (item : ContentItem) : ContentItem :=
  match item with InputImage _ => InputText IMAGE_CONTENT_OMITTED_PLACEHOLDER | _ => item end.
Definition strip_output_item (placeholder : str) (item : FunctionCallOutputContentItem)
    : FunctionCallOutputContentItem :=
  match item with OutImage _ => OutText placeholder | _ => item end.

Definition strip_item (item : ResponseItem) : ResponseItem :=
  match item with
  | Message role content rest => Message role (strip_content <$> content) rest
  | FunctionCallOutput call_id (mk_payload (BodyItems items) success) =>
      FunctionCallOutput call_id
        (mk_payload (BodyItems (strip_output_item IMAGE_CONTENT_OMITTED_PLACEHOLDER <$> items)) success)
  | _ => item
  end.

Definition strip_images_when_unsupported (input_modalities : list InputModality) (items : list ResponseItem)
    : list ResponseItem :=
  if bool_decide (ModImage ∈ input_modalities) then items else strip_item <$> items.

(** ** The context manager (context_manager/history.rs) *)

Definition normalize_history {E} (input_modalities : list InputModality) (items : list ResponseItem)
    : outcome E (list ResponseItem) :=
  items ← ensure_call_outputs_present items;
  items ← remove_orphan_outputs items;
  Ok (strip_images_when_unsupported input_modalities items).

Definition for_prompt {E} (input_modalities : list InputModality) (items : list ResponseItem)
    : outcome E (list ResponseItem) :=
  items ← normalize_history input_modalities items;
  Ok (filter (fun item => is_ghost_snapshot item = false) items).
End normalize.

Definition SERIALIZATION_FACTOR : f64 := f64_div (f64_of_nat 12) (f64_of_nat 10).

Definition process_item {E} (item : ResponseItem) (policy : TruncationPolicy) : outcome E ResponseItem :=
  let policy := mul_policy policy SERIALIZATION_FACTOR in
  match item with
  | FunctionCallOutput call_id (mk_payload (BodyText content) success) =>
      truncated ← truncate_text content policy;
      Ok (FunctionCallOutput call_id (mk_payload (BodyText truncated) success))
  | FunctionCallOutput call_id (mk_payload (BodyItems items) success) =>
      items ← truncate_function_output_items_with_policy items policy;
      Ok (FunctionCallOutput call_id (mk_payload (BodyItems items) success))
  | CustomToolCallOutput call_id output =>
      truncated ← truncate_text output policy;
      Ok (CustomToolCallOutput call_id truncated)
  | _ => Ok item
  end.

Fixpoint record_items {E} (items new : list ResponseItem) (policy : TruncationPolicy)
    : outcome E (list ResponseItem) :=
  match new with
  | [] => Ok items
  | item :: new =>
      if negb (is_api_message item) && negb (is_ghost_snapshot item) then record_items items new policy
      else processed ← process_item item policy; record_items (items ++ [processed]) new policy
  end.

Definition remove_first_item (items : list ResponseItem) : list ResponseItem :=
  match items with
  | [] => []
  | removed :: items => remove_corresponding_for items removed
  end.

Definition remove_last_item (items : list ResponseItem) : list ResponseItem * bool :=
  match last items with
  | Some removed => (remove_corresponding_for (take (length items - 1) items) removed, true)
  | None => (items, false)
  end.

Definition is_user_message (item : ResponseItem) : bool :=
  match item with Message role _ _ => bool_decide (role = lit "user") | _ => false end.
Definition is_function_output (item : ResponseItem) : bool :=
  match item with FunctionCallOutput _ _ => true | _ => false end.

Definition is_output_image (item : FunctionCallOutputContentItem) : bool :=
  match item with OutImage _ => true | _ => false end.

Definition replace_last_turn_images (placeholder : str) (items : list ResponseItem) : list ResponseItem * bool :=
  match rposition (fun item => is_function_output item || is_user_message item) items with
  | None => (items, false)
  | Some index =>
      match items !! index with
      | Some (FunctionCallOutput call_id (mk_payload (BodyItems content_items) success)) =>
          (<[index := FunctionCallOutput call_id
                        (mk_payload (BodyItems (strip_output_item placeholder <$> content_items)) success)]> items,
           existsb is_output_image content_items)
      | _ => (items, false)
      end
  end.

Definition drop_last_n_user_turns (num_turns : nat) (items : list ResponseItem) : list ResponseItem :=
  if num_turns =? 0 then items
  else
    let user_positions := user_message_positions items in
    match head user_positions with
    | None => items
    | Some first_user_idx =>
        let cut_idx :=
          if length user_positions <=? num_turns then first_user_idx
          else default first_user_idx (user_positions !! (length user_positions - num_turns)) in
        take cut_idx items
    end.

(** ** Token usage *)

Definition I64_MIN : Z := -9223372036854775808.

Definition i64_saturating_add (a b : Z) : Z := Z.max I64_MIN (Z.min I64_MAX (a + b)).
Definition i64_of_usize (n : N) : Z := Z.min (Z.of_N n) I64_MAX.
Definition i64_wrap (z : Z) : Z := ((z - I64_MIN) mod 2 ^ 64 + I64_MIN)%Z.

(** [a + b] on [i64]. *)
Definition i64_add {E} (debug_assertions : bool) (a b : Z) : outcome E Z :=
  let r := i64_wrap (a + b) in
  if debug_assertions && negb (r =? a + b)%Z then Panic else Ok r.

Record TokenUsage : Type := mk_usage {
  input_tokens : Z;
  cached_input_tokens : Z;
  output_tokens : Z;
  reasoning_output_tokens : Z;
  total_tokens : Z;
}.
Definition zero_usage : TokenUsage := mk_usage 0 0 0 0 0.

Record TokenUsageInfo : Type := mk_usage_info {
  total_token_usage : TokenUsage;
  last_token_usage : TokenUsage;
  model_context_window : option Z;
}.

Section tokens.
Variable debug_assertions : bool.

Definition add_usage {E} (u other : TokenUsage) : outcome E TokenUsage :=
  i ← i64_add debug_assertions (input_tokens u) (input_tokens other);
  c ← i64_add debug_assertions (cached_input_tokens u) (cached_input_tokens other);
  o ← i64_add debug_assertions (output_tokens u) (output_tokens other);
  r ← i64_add debug_assertions (reasoning_output_tokens u) (reasoning_output_tokens other);
  t ← i64_add debug_assertions (total_tokens u) (total_tokens other);
  Ok (mk_usage i c o r t).

Definition append_last_usage {E} (info : TokenUsageInfo) (last : TokenUsage) : outcome E TokenUsageInfo :=
  total ← add_usage (total_token_usage info) last;
  Ok (mk_usage_info total last (model_context_window info)).

Definition new_or_append {E} (info : option TokenUsageInfo) (last : option TokenUsage)
    (model_context_window : option Z) : outcome E (option TokenUsageInfo) :=
  match info, last with
  | None, None => Ok None
  | _, _ =>
      let info := default (mk_usage_info zero_usage zero_usage model_context_window) info in
      info ← match last with Some last => append_last_usage info last | None => Ok info end;
      Ok (Some (match model_context_window with
                | Some window => mk_usage_info (total_token_usage info) (last_token_usage info) (Some window)
                | None => info
                end))
  end.

Definition update_token_info {E} (info : option TokenUsageInfo) (usage : TokenUsage)
    (model_context_window : option Z) : outcome E (option TokenUsageInfo) :=
  new_or_append info (Some usage) model_context_window.

Definition total_only (n : Z) : TokenUsage := mk_usage 0 0 0 0 n.

Definition fill_to_context_window {E} (info : TokenUsageInfo) (context_window : Z) : outcome E TokenUsageInfo :=
  delta ← i64_add debug_assertions context_window (- total_tokens (total_token_usage info));
  Ok (mk_usage_info (total_only context_window) (total_only (Z.max delta 0)) (Some context_window)).

Definition set_token_usage_full {E} (info : option TokenUsageInfo) (context_window : Z)
    : outcome E (option TokenUsageInfo) :=
  let info := default (mk_usage_info zero_usage zero_usage (Some context_window)) info in
  info ← fill_to_context_window info context_window; Ok (Some info).
End tokens.

Definition estimate_reasoning_length (encoded_len : N) : N := (saturate (encoded_len * 3) / 4 - 650)%N.

Section estimate.
(** The length of [serde_json::to_string], if it succeeds. *)
Variable serialized_len : ResponseItem -> option N.

Definition estimate_response_item_model_visible_bytes (item : ResponseItem) : Z :=
  match item with
  | GhostSnapshot _ => 0
  | Reasoning (Some content) _ | Compaction content => i64_of_usize (estimate_reasoning_length (nlen content))
  | item => match serialized_len item with Some n => i64_of_usize n | None => 0%Z end
  end.

Definition estimate_item_token_count (item : ResponseItem) : Z :=
  approx_tokens_from_byte_count_i64 (estimate_response_item_model_visible_bytes item).

Definition sum_estimates {A} (f : A -> Z) (l : list A) : Z := foldl (fun n x => i64_saturating_add n (f x)) 0%Z l.

Definition estimate_token_count_with_base_instructions (items : list ResponseItem) (base_instructions : str) : Z :=
  i64_saturating_add (i64_of_usize (approx_token_count base_instructions))
    (sum_estimates estimate_item_token_count items).

Definition items_after_last_model_generated_item (items : list ResponseItem) : list ResponseItem :=
  drop (match rposition is_model_generated_item items with Some i => S i | None => length items end) items.

Definition has_encrypted_reasoning (item : ResponseItem) : bool :=
  match item with Reasoning (Some _) _ => true | _ => false end.

Definition get_non_last_reasoning_items_tokens (items : list ResponseItem) : Z :=
  match rposition is_user_message items with
  | None => 0%Z
  | Some last_user_index =>
      sum_estimates estimate_item_token_count
        (filter (fun item => has_encrypted_reasoning item = true) (take last_user_index items))
  end.

Definition get_total_token_usage (items : list ResponseItem) (info : option TokenUsageInfo)
    (server_reasoning_included : bool) : Z :=
  let last_tokens := match info with Some info => total_tokens (last_token_usage info) | None => 0%Z end in
  let after := sum_estimates estimate_item_token_count (items_after_last_model_generated_item items) in
  if server_reasoning_included then i64_saturating_add last_tokens after
  else i64_saturating_add (i64_saturating_add last_tokens (get_non_last_reasoning_items_tokens items)) after.
End estimate.

(** ** The part an item plays *)

Inductive family : Type := FunctionFamily | CustomFamily.
#[export] Instance family_eq_dec : EqDecision family.
Proof. solve_decision. Defined.

Inductive item_role : Type := CallRole (f : family) (id : str) | OutputRole (f : family) (id : str) | NoRole.

Definition role_of (item : ResponseItem) : item_role :=
  match item with
  | FunctionCall id _ | LocalShellCall (Some id) _ => CallRole FunctionFamily id
  | FunctionCallOutput id _ => OutputRole FunctionFamily id
  | CustomToolCall id _ => CallRole CustomFamily id
  | CustomToolCallOutput id _ => OutputRole CustomFamily id
  | _ => NoRole
  end.

Definition call_id_of (f : family) (item : ResponseItem) : list str :=
  match role_of item with CallRole g id => if decide (g = f) then [id] else [] | _ => [] end.
Definition output_id_of (f : family) (item : ResponseItem) : list str :=
  match role_of item with OutputRole g id => if decide (g = f) then [id] else [] | _ => [] end.

Definition call_ids (f : family) (items : list ResponseItem) : list str := items ≫= call_id_of f.
Definition output_ids (f : family) (items : list ResponseItem) : list str := items ≫= output_id_of f.

Definition aborted (f : family) (id : str) : ResponseItem :=
  match f with FunctionFamily => aborted_output id | CustomFamily => aborted_custom_output id end.

(** Whether the lack of its output is reported. *)
Definition lack_reported (item : ResponseItem) : bool :=
  match item with FunctionCall _ _ => false | _ => true end.

Lemma elem_of_call_ids f items id :
  id ∈ call_ids f items <-> exists item, item ∈ items /\ role_of item = CallRole f id.
Proof.
  unfold call_ids. rewrite list_elem_of_bind. split.
  - intros (item & Hid & Hin). exists item. split; [done|]. unfold call_id_of in Hid.
    destruct (role_of item) as [g i|g i|]; [|set_solver..]. destruct (decide (g = f)); set_solver.
  - intros (item & Hin & Hr). exists item. unfold call_id_of. rewrite Hr, decide_True by done. set_solver.
Qed.

Lemma elem_of_output_ids f items id :
  id ∈ output_ids f items <-> exists item, item ∈ items /\ role_of item = OutputRole f id.
Proof.
  unfold output_ids. rewrite list_elem_of_bind. split.
  - intros (item & Hid & Hin). exists item. split; [done|]. unfold output_id_of in Hid.
    destruct (role_of item) as [g i|g i|]; [set_solver| |set_solver]. destruct (decide (g = f)); set_solver.
  - intros (item & Hin & Hr). exists item. unfold output_id_of. rewrite Hr, decide_True by done. set_solver.
Qed.

(** The predicates of the code, by role. *)
Lemma function_output_role id item : is_function_output_of id item = true <-> role_of item = OutputRole FunctionFamily id.
Proof. destruct item as [| |[]|id'|id'| | | | | |]; cbn; try done; try (split; congruence). by rewrite bool_decide_eq_true; split; congruence. Qed.
Lemma custom_output_role id item : is_custom_output_of id item = true <-> role_of item = OutputRole CustomFamily id.
Proof. destruct item as [| |[]|id'|id'| | | | | |]; cbn; try done; try (split; congruence). by rewrite bool_decide_eq_true; split; congruence. Qed.
Lemma function_call_role id item :
  is_function_call_of id item || is_shell_call_of id item = true <-> role_of item = CallRole FunctionFamily id.
Proof.
  destruct item as [| |[]|id'|id'| | | | | |]; cbn; try done; try (split; congruence);
    rewrite ?orb_false_r, bool_decide_eq_true; split; congruence.
Qed.
Lemma custom_call_role id item : is_custom_call_of id item = true <-> role_of item = CallRole CustomFamily id.
Proof. destruct item as [| |[]|id'|id'| | | | | |]; cbn; try done; try (split; congruence). by rewrite bool_decide_eq_true; split; congruence. Qed.

Lemma existsb_role (p : ResponseItem -> bool) items r (ids : list str) id :
  (forall item, p item = true <-> role_of item = r) ->
  (id ∈ ids <-> exists item, item ∈ items /\ role_of item = r) ->
  existsb p items = bool_decide (id ∈ ids).
Proof.
  intros Hp Hids. apply eq_true_iff_eq. rewrite bool_decide_eq_true, Hids, existsb_elem.
  by setoid_rewrite Hp.
Qed.

Lemma missing_output_role items item :
  missing_output items item
  = match role_of item with
    | CallRole f id => if decide (id ∈ output_ids f items) then None else Some (aborted f id, lack_reported item)
    | _ => None
    end.
Proof.
  assert (Hf : forall id, existsb (is_function_output_of id) items = bool_decide (id ∈ output_ids FunctionFamily items))
    by (intros id; eapply existsb_role; [apply function_output_role|apply elem_of_output_ids]).
  assert (Hc : forall id, existsb (is_custom_output_of id) items = bool_decide (id ∈ output_ids CustomFamily items))
    by (intros id; eapply existsb_role; [apply custom_output_role|apply elem_of_output_ids]).
  destruct item as [| |[]| | | | | | | |]; cbn; try done; rewrite ?Hf, ?Hc; case_bool_decide; by rewrite ?decide_True, ?decide_False by done.
Qed.

Lemma has_call_role items item :
  has_call items item
  = match role_of item with OutputRole f id => bool_decide (id ∈ call_ids f items) | _ => true end.
Proof.
  destruct item as [| |[]| |id| |id| | | |]; cbn; try done.
  - apply eq_true_iff_eq. rewrite bool_decide_eq_true, elem_of_call_ids, orb_true_iff, !existsb_elem.
    setoid_rewrite <-function_call_role. setoid_rewrite orb_true_iff. naive_solver.
  - eapply existsb_role; [apply custom_call_role|apply elem_of_call_ids].
Qed.

(** ** Reference definitions of the two passes *)

(** An item, and after a call that has no output the one that is made up. *)
Definition with_output (items : list ResponseItem) (item : ResponseItem) : list ResponseItem :=
  item :: match missing_output items item with Some (output, _) => [output] | None => [] end.

Definition reports_missing (items : list ResponseItem) (item : ResponseItem) : bool :=
  match missing_output items item with Some (_, report) => report | None => false end.

Fixpoint missing_list (items : list ResponseItem) (idx : nat) (rest : list ResponseItem)
    : list (nat * ResponseItem) :=
  match rest with
  | [] => []
  | item :: rest =>
      match missing_output items item with Some (output, _) => [(idx, output)] | None => [] end
      ++ missing_list items (S idx) rest
  end.

Lemma missing_outputs_list {E} debug items idx rest acc :
  missing_outputs (E:=E) debug items idx rest acc
  = if debug && existsb (reports_missing items) rest then Panic else Ok (acc ++ missing_list items idx rest).
Proof.
  revert idx acc. induction rest as [|item rest IH]; intros idx acc; cbn.
  - by rewrite andb_false_r, app_nil_r.
  - unfold reports_missing at 1. destruct (missing_output items item) as [[o [|]]|]; cbn.
    + unfold error_or_panic. destruct debug; cbn; [done|]. rewrite IH. cbn. by rewrite <-(assoc (++)).
    + rewrite IH. destruct (debug && _); [done|]. by rewrite <-(assoc (++)).
    + apply IH.
Qed.

Lemma vec_insert_app {E A} (x : A) l1 l2 : vec_insert (E:=E) (length l1) x (l1 ++ l2) = Ok (l1 ++ x :: l2).
Proof.
  unfold vec_insert. rewrite length_app, (proj2 (Nat.leb_le _ _)) by lia.
  by rewrite take_app_length, drop_app_length.
Qed.

Lemma insert_outputs_list {E} items pre rest :
  insert_outputs (E:=E) (missing_list items (length pre) rest) (pre ++ rest)
  = Ok (pre ++ (rest ≫= with_output items)).
Proof.
  revert pre. induction rest as [|item rest IH]; intros pre; [done|].
  specialize (IH (pre ++ [item])). rewrite length_app, Nat.add_1_r, <-!(assoc (++)) in IH. cbn [app] in IH.
  rewrite bind_cons. unfold with_output at 1. cbn [missing_list].
  destruct (missing_output items item) as [[o report]|]; cbn [app insert_outputs]; [|exact IH].
  rewrite IH. cbn [mbind outcome_bind].
  pose proof (vec_insert_app (E:=E) o (pre ++ [item]) (rest ≫= with_output items)) as Hins.
  rewrite length_app, Nat.add_1_r, <-!(assoc (++)) in Hins. exact Hins.
Qed.

Lemma ensure_call_outputs_eq {E} debug items :
  ensure_call_outputs_present (E:=E) debug items
  = if debug && existsb (reports_missing items) items then Panic else Ok (items ≫= with_output items).
Proof.
  unfold ensure_call_outputs_present. rewrite missing_outputs_list. destruct (debug && _); [done|].
  apply (insert_outputs_list items []).
Qed.

Lemma retain_outputs_eq {E} debug all items :
  retain_outputs (E:=E) debug all items
  = if debug && existsb (fun item => negb (has_call all item)) items then Panic
    else Ok (filter (fun item => has_call all item = true) items).
Proof.
  induction items as [|item items IH]; cbn [retain_outputs existsb].
  - by rewrite andb_false_r.
  - rewrite filter_cons. destruct (has_call all item) eqn:Hc; cbn [negb orb].
    + rewrite IH, decide_True by done. by destruct (debug && _).
    + rewrite decide_False by congruence. unfold error_or_panic. destruct debug; [done|]. cbn. by rewrite IH.
Qed.

(** ** Normalisation *)

Lemma call_ids_app f l1 l2 : call_ids f (l1 ++ l2) = call_ids f l1 ++ call_ids f l2.
Proof. apply bind_app. Qed.
Lemma output_ids_app f l1 l2 : output_ids f (l1 ++ l2) = output_ids f l1 ++ output_ids f l2.
Proof. apply bind_app. Qed.

Lemma role_of_aborted f id : role_of (aborted f id) = OutputRole f id.
Proof. by destruct f. Qed.

Lemma role_of_strip item : role_of (strip_item item) = role_of item.
Proof. by destruct item as [| | | |id [[] ?]| | | | | |]. Qed.

Lemma elem_of_completed items x :
  x ∈ items ≫= with_output items <->
  x ∈ items \/ exists f id, id ∈ call_ids f items /\ (id ∉ output_ids f items) /\ x = aborted f id.
Proof.
  rewrite list_elem_of_bind. unfold with_output. split.
  - intros (item & Hx & Hin). rewrite missing_output_role, elem_of_cons in Hx. destruct Hx as [->|Hx]; [by left|].
    right. destruct (role_of item) as [f id|f id|] eqn:Hr; [|set_solver..].
    destruct (decide (id ∈ output_ids f items)); [set_solver|]. exists f, id.
    split_and!; [apply elem_of_call_ids; eauto|done|set_solver].
  - intros [Hin|(f & id & (item & Hin & Hr)%elem_of_call_ids & Hn & ->)].
    + exists x. split; [left|done].
    + exists item. split; [|done]. rewrite missing_output_role, Hr, decide_False by done. right. left.
Qed.

(** Adding outputs adds no call, and gives every call an output. *)
Lemma completed_call_ids f items id : id ∈ call_ids f (items ≫= with_output items) <-> id ∈ call_ids f items.
Proof.
  rewrite !elem_of_call_ids. setoid_rewrite elem_of_completed. split.
  - intros (x & [Hin|(g & i & _ & _ & ->)] & Hr); [by eauto|]. by rewrite role_of_aborted in Hr.
  - intros (item & Hin & Hr). eauto.
Qed.

Lemma completed_output_ids f items id :
  id ∈ output_ids f (items ≫= with_output items) <-> id ∈ output_ids f items \/ id ∈ call_ids f items.
Proof.
  rewrite (elem_of_output_ids f (items ≫= _)). setoid_rewrite elem_of_completed. split.
  - intros (x & [Hin|(g & i & Hc & Hn & ->)] & Hx).
    + left. apply elem_of_output_ids. eauto.
    + rewrite role_of_aborted in Hx. injection Hx as -> ->. by right.
  - destruct (decide (id ∈ output_ids f items)) as [Hid|Hid].
    + intros _. apply elem_of_output_ids in Hid as (item & Hin & Hr). eauto.
    + intros [?|Hc]; [done|]. exists (aborted f id). rewrite role_of_aborted. eauto 10.
Qed.

Definition has_call_in (items : list ResponseItem) (item : ResponseItem) : Prop := has_call items item = true.
#[export] Instance has_call_in_dec items item : Decision (has_call_in items item).
Proof. unfold has_call_in. apply _. Defined.

(** The history that normalisation makes of [items]. *)
Definition normalized (input_modalities : list InputModality) (items : list ResponseItem) : list ResponseItem :=
  strip_images_when_unsupported input_modalities (filter (has_call_in items) (items ≫= with_output items)).

(** What a build with debug assertions panics on. *)
Definition reported (items : list ResponseItem) : bool :=
  existsb (fun item => reports_missing items item || negb (has_call items item)) items.

Lemma has_call_completed items item : has_call (items ≫= with_output items) item = has_call items item.
Proof.
  rewrite !has_call_role. destruct (role_of item) as [f id|f id|]; [done| |done].
  apply bool_decide_ext, completed_call_ids.
Qed.

Lemma completed_orphans items :
  existsb (fun item => negb (has_call items item)) (items ≫= with_output items)
  = existsb (fun item => negb (has_call items item)) items.
Proof.
  apply eq_true_iff_eq. rewrite !existsb_elem. setoid_rewrite elem_of_completed. split.
  - intros (x & [Hin|(f & id & Hc & _ & ->)] & Hn); [by eauto|].
    by rewrite has_call_role, role_of_aborted, bool_decide_eq_true_2 in Hn.
  - intros (x & Hin & Hn). eauto.
Qed.

Lemma existsb_or {A} (p q : A -> bool) l : existsb (fun x => p x || q x) l = existsb p l || existsb q l.
Proof.
  induction l as [|x l IH]; [done|]. cbn. rewrite IH. by destruct (p x), (q x), (existsb p l), (existsb q l).
Qed.

Lemma existsb_same {A} (p q : A -> bool) l : (forall x, p x = q x) -> existsb p l = existsb q l.
Proof. intros H. induction l as [|x l IH]; [done|]. cbn. by rewrite H, IH. Qed.

Lemma normalize_history_eq {E} debug mods items :
  normalize_history (E:=E) debug mods items
  = if debug && reported items then Panic else Ok (normalized mods items).
Proof.
  unfold normalize_history, reported, remove_orphan_outputs. rewrite existsb_or, ensure_call_outputs_eq.
  destruct (debug && existsb (reports_missing items) items) eqn:Hm.
  { apply andb_true_iff in Hm as [-> ->]. done. }
  cbn [mbind outcome_bind]. rewrite retain_outputs_eq.
  rewrite (existsb_same _ (fun item => negb (has_call items item))) by (intros; by rewrite has_call_completed).
  rewrite completed_orphans. unfold normalized.
  rewrite (filter_iff (fun item => has_call (items ≫= with_output items) item = true) (has_call_in items))
    by (intros; unfold has_call_in; by rewrite has_call_completed).
  destruct debug; cbn [andb] in Hm |- *; [|done]. rewrite Hm. cbn [orb].
  by repeat case_match.
Qed.

(** Every call has an output and every output a call. *)
Definition paired (items : list ResponseItem) : Prop :=
  forall f id, id ∈ call_ids f items <-> id ∈ output_ids f items.

Lemma filtered_call_ids f all items id :
  id ∈ call_ids f (filter (has_call_in all) items) <-> id ∈ call_ids f items.
Proof.
  rewrite !elem_of_call_ids. setoid_rewrite list_elem_of_filter. split; [naive_solver|].
  intros (item & Hin & Hr). exists item. split; [split|]; try done. unfold has_call_in. by rewrite has_call_role, Hr.
Qed.

Lemma filtered_output_ids f all items id :
  id ∈ output_ids f (filter (has_call_in all) items) <-> id ∈ output_ids f items /\ id ∈ call_ids f all.
Proof.
  rewrite !elem_of_output_ids. setoid_rewrite list_elem_of_filter. unfold has_call_in. split.
  - intros (item & [Hc Hin] & Hr). rewrite has_call_role, Hr, bool_decide_eq_true in Hc. eauto.
  - intros [(item & Hin & Hr) Hc]. exists item. rewrite has_call_role, Hr. rewrite bool_decide_eq_true. eauto.
Qed.

Lemma strip_roles f mods items :
  call_ids f (strip_images_when_unsupported mods items) = call_ids f items /\
  output_ids f (strip_images_when_unsupported mods items) = output_ids f items.
Proof.
  unfold strip_images_when_unsupported. case_bool_decide; [done|].
  unfold call_ids, output_ids, call_id_of, output_id_of.
  split; induction items as [|item items IH]; [done| |done|]; rewrite fmap_cons, !bind_cons, role_of_strip; by f_equal.
Qed.

Lemma normalized_call_ids f mods items id : id ∈ call_ids f (normalized mods items) <-> id ∈ call_ids f items.
Proof.
  unfold normalized. rewrite (proj1 (strip_roles f mods _)), filtered_call_ids. apply completed_call_ids.
Qed.

Lemma normalized_paired mods items : paired (normalized mods items).
Proof.
  intros f id. rewrite normalized_call_ids. unfold normalized.
  rewrite (proj2 (strip_roles f mods _)), filtered_output_ids, completed_output_ids. tauto.
Qed.

Lemma paired_missing items item : paired items -> item ∈ items -> missing_output items item = None.
Proof.
  intros Hp Hin. rewrite missing_output_role. destruct (role_of item) as [f id|f id|] eqn:Hr; [|done..].
  rewrite decide_True; [done|]. apply Hp, elem_of_call_ids. eauto.
Qed.

Lemma paired_has_call items item : paired items -> item ∈ items -> has_call items item = true.
Proof.
  intros Hp Hin. rewrite has_call_role. destruct (role_of item) as [f id|f id|] eqn:Hr; [done| |done].
  apply bool_decide_eq_true, Hp, elem_of_output_ids. eauto.
Qed.

Lemma bind_singletons {A} (g : A -> list A) l : (forall x, x ∈ l -> g x = [x]) -> l ≫= g = l.
Proof.
  induction l as [|x l IH]; [done|]. intros Hg. rewrite bind_cons, Hg by left. cbn. f_equal. apply IH. intros. apply Hg. by right.
Qed.

Lemma paired_normalized mods items :
  paired items -> reported items = false /\ normalized mods items = strip_images_when_unsupported mods items.
Proof.
  intros Hp. split.
  - apply not_true_iff_false. unfold reported. rewrite existsb_elem. intros (item & Hin & Hx).
    unfold reports_missing in Hx. by rewrite paired_missing, paired_has_call in Hx.
  - unfold normalized. f_equal. rewrite bind_singletons; [|intros; unfold with_output; by rewrite paired_missing].
    apply filter_all. intros. by apply paired_has_call.
Qed.

Lemma strip_item_idemp item : strip_item (strip_item item) = strip_item item.
Proof.
  destruct item as [role content rest| | | |id [[t|its] s]| | | | | |]; cbn; try done; f_equal.
  - induction content as [|[] content IH]; cbn; [done|by rewrite IH..].
  - do 2 f_equal. induction its as [|[] its IH]; cbn; [done|by rewrite IH..].
Qed.

Lemma strip_idemp mods items :
  strip_images_when_unsupported mods (strip_images_when_unsupported mods items)
  = strip_images_when_unsupported mods items.
Proof.
  unfold strip_images_when_unsupported. case_bool_decide; [done|]. rewrite <-list_fmap_compose.
  apply list_fmap_ext. intros i x _. apply strip_item_idemp.
Qed.


(** C19. Whatever the history, normalisation pairs it: every call has an output and every
    output a call, no call is lost or added, and a paired history is kept by any further
    normalisation, in which no build panics. *)
Theorem normalize_pairs {E} mods items :
  exists items', normalize_history (E:=E) false mods items = Ok items' /\ paired items' /\
    (forall f id, id ∈ call_ids f items' <-> id ∈ call_ids f items) /\
    (forall debug, normalize_history (E:=E) debug mods items' = Ok items').
Proof.
  exists (normalized mods items). rewrite normalize_history_eq. split; [done|]. split; [apply normalized_paired|].
  split; [intros; apply normalized_call_ids|]. intros debug. rewrite normalize_history_eq.
  destruct (paired_normalized mods _ (normalized_paired mods items)) as [-> ->]. rewrite andb_false_r. f_equal.
  unfold normalized. apply strip_idemp.
Qed.

(** ** The prompt *)

Definition has_image (item : ResponseItem) : bool :=
  match item with
  | Message _ content _ => existsb (fun c => match c with InputImage _ => true | _ => false end) content
  | FunctionCallOutput _ (mk_payload (BodyItems items) _) => existsb is_output_image items
  | _ => false
  end.

Lemma strip_no_image item : has_image (strip_item item) = false.
Proof.
  destruct item as [role content rest| | | |id [[t|its] s]| | | | | |]; cbn; try done.
  - by induction content as [|[]].
  - by induction its as [|[]].
Qed.

Lemma ghost_role item : is_ghost_snapshot item = true -> role_of item = NoRole.
Proof. by destruct item. Qed.

Lemma paired_without_ghosts items :
  paired items -> paired (filter (fun item => is_ghost_snapshot item = false) items).
Proof.
  intros Hp f id. specialize (Hp f id). revert Hp. rewrite !elem_of_call_ids, !elem_of_output_ids.
  setoid_rewrite list_elem_of_filter. intros Hp.
  assert (Hk : forall item r, role_of item = r -> r <> NoRole -> is_ghost_snapshot item = false).
  { intros item r Hr Hne. destruct (is_ghost_snapshot item) eqn:Hg; [|done]. apply ghost_role in Hg. congruence. }
  split.
  - intros (item & [_ Hin] & Hr). destruct (proj1 Hp) as (x & Hx & Hrx); [by eauto|]. exists x. eauto 6.
  - intros (item & [_ Hin] & Hr). destruct (proj2 Hp) as (x & Hx & Hrx); [by eauto|]. exists x. eauto 6.
Qed.

(** What is sent to the model: paired calls and outputs, no snapshots of the
    repository, no images for a model that takes none; a paired history is sent as it
    is, but for the snapshots and those images. *)
Theorem for_prompt_spec {E} mods items :
  exists sent, for_prompt (E:=E) false mods items = Ok sent /\ paired sent /\
    Forall (fun item => is_ghost_snapshot item = false) sent /\
    ((ModImage ∉ mods) -> Forall (fun item => has_image item = false) sent) /\
    (paired items -> forall debug, for_prompt (E:=E) debug mods items
       = Ok (filter (fun item => is_ghost_snapshot item = false) (strip_images_when_unsupported mods items))).
Proof.
  unfold for_prompt. setoid_rewrite normalize_history_eq. cbn [andb mbind outcome_bind]. eexists. split; [done|].
  split; [apply paired_without_ghosts, normalized_paired|]. split.
  { apply Forall_forall. intros x [Hx _]%list_elem_of_filter. done. }
  split.
  - intros Hm. apply Forall_forall. intros x [_ Hx]%list_elem_of_filter. unfold normalized, strip_images_when_unsupported in Hx.
    rewrite bool_decide_eq_false_2 in Hx by done. apply list_elem_of_fmap in Hx as (y & -> & _). apply strip_no_image.
  - intros Hp debug. destruct (paired_normalized mods _ Hp) as [-> ->]. by rewrite andb_false_r.
Qed.
