(* ===== verification/HistoryEdit.v ===== *)
(** * Changes of the history: recording, removal, rollback and usage

    Theorems on the operations of History that change a history or measure it. *)

From stdpp Require Import gmap sets.
From S2P Require Import Prelude RustStd Float64 Truncate History.

(** ** Positions *)

Lemma position_Some {A} (p : A -> bool) l i :
  position p l = Some i -> exists x, l !! i = Some x /\ p x = true /\ l = take i l ++ x :: drop (S i) l.
Proof.
  revert i. induction l as [|x l IH]; intros i; cbn; [done|]. destruct (p x) eqn:Hp.
  - intros [= <-]. exists x. done.
  - destruct (position p l) as [j|]; [|done]. intros [= <-]. destruct (IH j eq_refl) as (y & Hy & Hpy & Hl).
    exists y. split_and!; [done..|]. cbn. by f_equal.
Qed.

Lemma position_exists {A} (p : A -> bool) l x : x ∈ l -> p x = true -> is_Some (position p l).
Proof.
  induction l as [|y l IH]; [set_solver|]. intros [->|Hin]%elem_of_cons Hp; cbn; [rewrite Hp; by eexists|].
  destruct (p y); [by eexists|]. destruct (IH Hin Hp) as [i ->]. by eexists.
Qed.

(** ** Removal keeps the pairs *)

(** Calls and outputs correspond one to one. *)
Definition well_paired (items : list ResponseItem) : Prop :=
  forall f, call_ids f items ≡ₚ output_ids f items /\ NoDup (call_ids f items).

Lemma call_ids_perm f l1 l2 : l1 ≡ₚ l2 -> call_ids f l1 ≡ₚ call_ids f l2.
Proof. intros Hp. unfold call_ids. by rewrite Hp. Qed.
Lemma output_ids_perm f l1 l2 : l1 ≡ₚ l2 -> output_ids f l1 ≡ₚ output_ids f l2.
Proof. intros Hp. unfold output_ids. by rewrite Hp. Qed.

#[export] Instance well_paired_proper : Proper ((≡ₚ) ==> iff) well_paired.
Proof.
  assert (H : forall l1 l2, l1 ≡ₚ l2 -> well_paired l1 -> well_paired l2).
  { intros l1 l2 Hp Hw f. destruct (Hw f) as [Hc Hn]. rewrite <-(call_ids_perm f _ _ Hp), <-(output_ids_perm f _ _ Hp). done. }
  intros l1 l2 Hp. split; by apply H.
Qed.

Lemma vec_remove_position (p : ResponseItem -> bool) items i :
  position p items = Some i -> exists y, p y = true /\ items ≡ₚ y :: vec_remove i items.
Proof.
  intros (y & _ & Hp & Hl)%position_Some. exists y. split; [done|]. rewrite Hl at 1. unfold vec_remove. by rewrite Permutation_middle.
Qed.

(** The partner of the removed item goes too. *)
Definition partner (r : item_role) : option item_role :=
  match r with
  | CallRole f id => Some (OutputRole f id)
  | OutputRole f id => Some (CallRole f id)
  | NoRole => None
  end.

Lemma remove_first_matching_role p r items :
  (forall item, p item = true <-> role_of item = r) -> (exists item, item ∈ items /\ role_of item = r) ->
  exists y, role_of y = r /\ items ≡ₚ y :: remove_first_matching p items.
Proof.
  intros Hp (item & Hin & Hr). unfold remove_first_matching.
  destruct (position_exists p items item Hin) as [i Hi]; [by apply Hp|]. rewrite Hi.
  apply vec_remove_position in Hi as (y & Hy & Hperm). exists y. split; [by apply Hp|done].
Qed.

Lemma remove_corresponding_spec items item r :
  partner (role_of item) = Some r -> (exists x, x ∈ items /\ role_of x = r) ->
  exists y, role_of y = r /\ items ≡ₚ y :: remove_corresponding_for items item.
Proof.
  destruct item as [| |[id|]|id|id|id|id| | | |]; cbn; try done; intros [= <-] Hex.
  - by apply remove_first_matching_role; [apply function_output_role|].
  - by apply remove_first_matching_role; [apply function_output_role|].
  - destruct (position (is_function_call_of id) items) as [i|] eqn:Hi.
    + apply vec_remove_position in Hi as (y & Hy & Hperm). exists y. split; [|done].
      apply function_call_role. by rewrite Hy.
    + destruct Hex as (x & Hin & Hr). apply function_call_role, orb_true_iff in Hr as [Hr|Hr].
      { destruct (position_exists _ items x Hin Hr) as [? ?]. congruence. }
      unfold remove_first_matching. destruct (position_exists _ items x Hin Hr) as [i Hs]. rewrite Hs.
      apply vec_remove_position in Hs as (y & Hy & Hperm). exists y. split; [|done].
      apply function_call_role. by rewrite Hy, orb_true_r.
  - by apply remove_first_matching_role; [apply custom_output_role|].
  - by apply remove_first_matching_role; [apply custom_call_role|].
Qed.

Lemma remove_corresponding_none items item : role_of item = NoRole -> remove_corresponding_for items item = items.
Proof. by destruct item as [| |[]| | | | | | | |]. Qed.

Lemma call_ids_cons f x l : call_ids f (x :: l) = call_id_of f x ++ call_ids f l.
Proof. apply bind_cons. Qed.
Lemma output_ids_cons f x l : output_ids f (x :: l) = output_id_of f x ++ output_ids f l.
Proof. apply bind_cons. Qed.

Lemma well_paired_two x y items :
  partner (role_of x) = Some (role_of y) -> well_paired (x :: y :: items) -> well_paired items.
Proof.
  intros Hr Hw f. destruct (Hw f) as [Hc Hn]. revert Hc Hn.
  rewrite !call_ids_cons, !output_ids_cons. unfold call_id_of, output_id_of.
  destruct (role_of x) as [g id|g id|]; cbn in Hr; [| |done]; injection Hr as <-; destruct (decide (g = f)); cbn; try done.
  - intros Hc%Permutation_cons_inv [_ Hn]%NoDup_cons. done.
  - intros Hc%Permutation_cons_inv [_ Hn]%NoDup_cons. done.
Qed.

Lemma partner_present x items r :
  well_paired (x :: items) -> partner (role_of x) = Some r -> exists y, y ∈ items /\ role_of y = r.
Proof.
  intros Hw. destruct (role_of x) as [f id|f id|] eqn:Hx; cbn; [| |done]; intros [= <-].
  - destruct (Hw f) as [Hc _]. apply elem_of_output_ids.
    assert (Hin : id ∈ output_ids f (x :: items)).
    { rewrite <-Hc, call_ids_cons. unfold call_id_of. rewrite Hx, decide_True by done. left. }
    rewrite output_ids_cons in Hin. unfold output_id_of in Hin at 1. by rewrite Hx in Hin.
  - destruct (Hw f) as [Hc _]. apply elem_of_call_ids.
    assert (Hin : id ∈ call_ids f (x :: items)).
    { rewrite Hc, output_ids_cons. unfold output_id_of. rewrite Hx, decide_True by done. left. }
    rewrite call_ids_cons in Hin. unfold call_id_of in Hin at 1. by rewrite Hx in Hin.
Qed.

Lemma well_paired_none x items : role_of x = NoRole -> well_paired (x :: items) -> well_paired items.
Proof.
  intros Hx Hw f. destruct (Hw f) as [Hc Hn]. rewrite call_ids_cons, output_ids_cons in Hc. rewrite call_ids_cons in Hn.
  unfold call_id_of, output_id_of in Hc, Hn. by rewrite Hx in Hc, Hn.
Qed.

Lemma remove_corresponding_well_paired x items :
  well_paired (x :: items) -> well_paired (remove_corresponding_for items x).
Proof.
  intros Hw. destruct (partner (role_of x)) as [r|] eqn:Hr.
  - destruct (remove_corresponding_spec items x r Hr) as (y & Hy & Hperm); [by eapply partner_present|].
    rewrite Hperm in Hw. eapply well_paired_two; [|exact Hw]. by rewrite Hy.
  - assert (Hn : role_of x = NoRole) by by destruct (role_of x).
    rewrite remove_corresponding_none by done. by eapply well_paired_none.
Qed.

(** Trimming the history from either end keeps calls and outputs paired: with an item
    its partner goes, wherever it is. *)
Theorem removal_keeps_pairs items :
  well_paired items -> well_paired (remove_first_item items) /\ well_paired (remove_last_item items).1.
Proof.
  intros Hw. split; [by destruct items; [|apply remove_corresponding_well_paired]|].
  unfold remove_last_item. destruct (last items) as [x|] eqn:Hl; [|done]. cbn [fst].
  apply last_Some in Hl as [l ->]. rewrite length_app. cbn [length]. replace (length l + 1 - 1) with (length l) by lia.
  rewrite take_app_length. apply remove_corresponding_well_paired. by rewrite Permutation_app_comm in Hw.
Qed.

(** ** Rollback *)

Definition turns (items : list ResponseItem) : nat :=
  length (filter (fun item => is_user_turn_boundary item = true) items).

Lemma turns_app l1 l2 : turns (l1 ++ l2) = turns l1 + turns l2.
Proof. unfold turns. by rewrite filter_app, length_app. Qed.

Lemma positions_length idx items : length (positions_from idx items) = turns items.
Proof.
  revert idx. induction items as [|x items IH]; intros idx; [done|]. cbn [positions_from]. unfold turns in *.
  rewrite length_app, filter_cons, IH. destruct (is_user_turn_boundary x) eqn:Hx.
  - by rewrite decide_True by done.
  - by rewrite decide_False by congruence.
Qed.

(** Before the position of a turn are as many turns as its number. *)
Lemma positions_lookup idx items k p :
  positions_from idx items !! k = Some p ->
  exists l1 x l2, items = l1 ++ x :: l2 /\ p = idx + length l1 /\ turns l1 = k /\ is_user_turn_boundary x = true.
Proof.
  revert idx k. induction items as [|x items IH]; intros idx k; cbn [positions_from]; [done|].
  destruct (is_user_turn_boundary x) eqn:Hx; cbn [app].
  - destruct k as [|k]; cbn [lookup list_lookup].
    + intros [= <-]. exists [], x, items. cbn. rewrite Nat.add_0_r. done.
    + intros (l1 & y & l2 & -> & -> & Hk & Hy)%IH. exists (x :: l1), y, l2. split_and!; try done; [cbn; lia|].
      unfold turns in *. rewrite filter_cons_True by done. cbn. by f_equal.
  - intros (l1 & y & l2 & -> & -> & Hk & Hy)%IH. exists (x :: l1), y, l2. split_and!; try done; [cbn; lia|].
    unfold turns in *. by rewrite filter_cons_False by congruence.
Qed.

(** A rollback drops exactly the wanted number of user turns, or all there are: what
    is left is a prefix of the history with that many turns less, and what is dropped
    starts with a turn. *)
Theorem rollback_spec n items :
  exists dropped, items = drop_last_n_user_turns n items ++ dropped /\
    turns (drop_last_n_user_turns n items) = turns items - n /\ turns dropped = min n (turns items) /\
    forall x, head dropped = Some x -> is_user_turn_boundary x = true.
Proof.
  assert (Hcut : forall k p, user_message_positions items !! k = Some p ->
    exists dropped, items = take p items ++ dropped /\ turns (take p items) = k /\ turns dropped = turns items - k /\
      forall x, head dropped = Some x -> is_user_turn_boundary x = true).
  { intros k p (l1 & x & l2 & -> & -> & Hk & Hx)%positions_lookup. exists (x :: l2).
    rewrite Nat.add_0_l, take_app_length, turns_app. split_and!; [done|done|lia|]. by intros y [= <-]. }
  assert (Hid : turns items - n = turns items -> min n (turns items) = 0 ->
    exists dropped, items = items ++ dropped /\ turns items = turns items - n /\ turns dropped = min n (turns items) /\
      forall x, head dropped = Some x -> is_user_turn_boundary x = true).
  { intros H1 H2. exists []. rewrite app_nil_r, H1, H2. done. }
  unfold drop_last_n_user_turns. destruct (Nat.eqb_spec n 0) as [->|Hn]; [apply Hid; lia|].
  pose proof (positions_length 0 items) as Hlen. fold (user_message_positions items) in Hlen.
  destruct (head (user_message_positions items)) as [first|] eqn:Hh.
  2:{ destruct (user_message_positions items); [|done]. cbn in Hlen. apply Hid; lia. }
  rewrite Hlen. destruct (Nat.leb_spec (turns items) n) as [Hle|Hle].
  - rewrite head_lookup in Hh. destruct (Hcut _ _ Hh) as (dropped & Hd & H1 & H2 & H3).
    exists dropped. split_and!; [done|lia|lia|done].
  - destruct (lookup_lt_is_Some_2 (user_message_positions items) (turns items - n)) as [p Hp]; [lia|].
    rewrite Hp. cbn [default from_option id]. destruct (Hcut _ _ Hp) as (dropped & Hd & H1 & H2 & H3).
    exists dropped. split_and!; [done|lia|lia|done].
Qed.

(** ** Recording *)

Definition item_texts (item : ResponseItem) : list str :=
  match item with
  | FunctionCallOutput _ (mk_payload (BodyText content) _) => [content]
  | FunctionCallOutput _ (mk_payload (BodyItems items) _) => texts_of items
  | CustomToolCallOutput _ output => [output]
  | _ => []
  end.

Definition is_recorded (item : ResponseItem) : bool := is_api_message item || is_ghost_snapshot item.

Lemma truncate_text_returns {E} s policy :
  (nlen s <= USIZE_MAX)%N -> exists r, truncate_text (E:=E) s policy = Ok r.
Proof. intros Hs. destruct (truncation_cases (E:=E) s policy Hs) as [[_ ->]|(_ & b & m & a & _ & ->)]; eauto. Qed.

Lemma truncate_items_returns {E} items policy :
  all_sized (texts_of items) ->
  exists out, truncate_function_output_items_with_policy (E:=E) items policy = Ok out.
Proof.
  intros Hs. unfold truncate_function_output_items_with_policy.
  destruct (items_loop_spec (E:=E) policy items [] (initial_budget policy) Hs) as (out & r & o & -> & _). cbn. eauto.
Qed.

Lemma items_loop_images {E} policy items st :
  texts_of items = [] ->
  items_loop (E:=E) policy items st
  = Ok (mk_items (items_out st ++ items) (remaining_budget st) (omitted_text_items st)).
Proof.
  revert st. induction items as [|[t|u] items IH]; intros st Ht; [by rewrite app_nil_r; destruct st|done|].
  cbn [items_loop items_step mbind outcome_bind]. rewrite IH by done. cbn. by rewrite <-(assoc (++)).
Qed.

(** Only texts of outputs change. *)
Lemma process_item_spec {E} item policy :
  all_sized (item_texts item) ->
  exists p, process_item (E:=E) item policy = Ok p /\ role_of p = role_of item /\ (item_texts item = [] -> p = item).
Proof.
  intros Hs. destruct item as [| | | |id [[t|its] s]| |id t| | | |]; cbn [process_item item_texts] in *; try (by eexists).
  - apply Forall_cons in Hs as [Ht _].
    destruct (truncate_text_returns (E:=E) t (mul_policy policy SERIALIZATION_FACTOR) Ht) as [r ->]. by eexists.
  - destruct (truncate_items_returns (E:=E) its (mul_policy policy SERIALIZATION_FACTOR) Hs) as [out Hout].
    rewrite Hout. cbn [mbind outcome_bind]. eexists. split_and!; [done..|]. intros Hnone. revert Hout.
    unfold truncate_function_output_items_with_policy. rewrite items_loop_images by done. cbn. by intros [= <-].
  - apply Forall_cons in Hs as [Ht _].
    destruct (truncate_text_returns (E:=E) t (mul_policy policy SERIALIZATION_FACTOR) Ht) as [r ->]. by eexists.
Qed.

Lemma record_items_app {E} items new policy :
  Forall (fun item => all_sized (item_texts item)) new ->
  exists recorded, record_items (E:=E) items new policy = Ok (items ++ recorded) /\
    Forall2 (fun item p => process_item (E:=E) item policy = Ok p /\ role_of p = role_of item /\
                           (item_texts item = [] -> p = item))
      (filter (fun item => is_recorded item = true) new) recorded.
Proof.
  revert items. induction new as [|item new IH]; intros items Hs; cbn [record_items].
  { exists []. rewrite app_nil_r. split; [done|constructor]. }
  apply Forall_cons in Hs as [Hi Hs]. rewrite <-negb_orb. fold (is_recorded item).
  destruct (is_recorded item) eqn:Hr; cbn [negb].
  - destruct (process_item_spec (E:=E) item policy Hi) as (p & Hp & Hrest). rewrite Hp. cbn [mbind outcome_bind].
    destruct (IH (items ++ [p]) Hs) as (recorded & -> & Hall). exists (p :: recorded).
    rewrite <-(assoc (++)), filter_cons_True by done. split; [done|]. by constructor.
  - rewrite filter_cons_False by congruence. by apply IH.
Qed.

Lemma recorded_ids {E} policy l1 l2 :
  Forall2 (fun item p => process_item (E:=E) item policy = Ok p /\ role_of p = role_of item /\
                         (item_texts item = [] -> p = item)) l1 l2 ->
  forall f, call_ids f l2 = call_ids f l1 /\ output_ids f l2 = output_ids f l1.
Proof.
  intros Hall f. induction Hall as [|x p l1 l2 (_ & Hr & _) _ [IH1 IH2]]; [done|].
  rewrite !call_ids_cons, !output_ids_cons, IH1, IH2. unfold call_id_of, output_id_of. by rewrite Hr.
Qed.

(** Recording appends, in their order, the items that belong to the conversation and the
    snapshots; of an item only the texts of a tool output are changed, by truncation, so
    that the pairs of the history are those of what was recorded. *)
Theorem record_items_spec {E} items new policy :
  Forall (fun item => all_sized (item_texts item)) new ->
  exists recorded, record_items (E:=E) items new policy = Ok (items ++ recorded) /\
    Forall2 (fun item p => role_of p = role_of item /\ (item_texts item = [] -> p = item))
      (filter (fun item => is_recorded item = true) new) recorded /\
    (well_paired (items ++ filter (fun item => is_recorded item = true) new) -> well_paired (items ++ recorded)).
Proof.
  intros Hs. destruct (record_items_app (E:=E) items new policy Hs) as (recorded & Hr & Hall).
  exists recorded. split; [done|]. split; [eapply Forall2_impl; [exact Hall|]; by intros ?? (_ & ? & ?)|].
  intros Hw f. destruct (Hw f) as [Hc Hn]. revert Hc Hn. rewrite !call_ids_app, !output_ids_app.
  by destruct (recorded_ids _ _ _ Hall f) as [-> ->].
Qed.

(** ** Usage *)

Definition in_i64 (z : Z) : Prop := (I64_MIN <= z <= I64_MAX)%Z.

Lemma saturating_add_range a b : in_i64 (i64_saturating_add a b).
Proof. unfold in_i64, i64_saturating_add, I64_MIN, I64_MAX. lia. Qed.

Lemma saturating_add_exact a b : in_i64 (a + b) -> i64_saturating_add a b = (a + b)%Z.
Proof. unfold in_i64, i64_saturating_add. lia. Qed.

Lemma saturating_add_grows a b : (0 <= b)%Z -> in_i64 a -> (a <= i64_saturating_add a b)%Z.
Proof. unfold in_i64, i64_saturating_add. lia. Qed.

Lemma saturating_add_mono a a' b b' :
  (a <= a')%Z -> (b <= b')%Z -> (i64_saturating_add a b <= i64_saturating_add a' b')%Z.
Proof. unfold i64_saturating_add. lia. Qed.

Section estimates.
Variable serialized_len : ResponseItem -> option N.

#[local] Abbreviation tokens_of := (estimate_item_token_count serialized_len) (only parsing).

Lemma tokens_of_nonneg item : (0 <= tokens_of item)%Z.
Proof.
  unfold estimate_item_token_count, approx_tokens_from_byte_count_i64. case_match; [done|].
  unfold I64_MAX. lia.
Qed.

Lemma sum_estimates_from {A} (f : A -> Z) l n :
  (forall x, 0 <= f x)%Z -> (0 <= n <= I64_MAX)%Z ->
  (n <= foldl (fun n x => i64_saturating_add n (f x)) n l <= I64_MAX)%Z.
Proof.
  intros Hf. revert n. induction l as [|x l IH]; intros n Hn; cbn; [lia|].
  specialize (Hf x). pose proof (saturating_add_grows n (f x) Hf) as Hg.
  pose proof (saturating_add_range n (f x)) as Hr. unfold in_i64, I64_MIN in *.
  specialize (IH (i64_saturating_add n (f x))). lia.
Qed.

Lemma sum_estimates_range l : (0 <= sum_estimates tokens_of l <= I64_MAX)%Z.
Proof. apply sum_estimates_from; [apply tokens_of_nonneg|unfold I64_MAX; lia]. Qed.

(** The estimate of the usage never wraps, never falls below what the server last
    reported, and counts past reasoning only on top of that. *)
Theorem token_usage_bounds items info :
  let last := match info with Some info => total_tokens (last_token_usage info) | None => 0%Z end in
  in_i64 last ->
  let included := get_total_token_usage serialized_len items info true in
  let estimated := get_total_token_usage serialized_len items info false in
  (last <= included <= estimated)%Z /\ in_i64 included /\ in_i64 estimated.
Proof.
  intros last Hlast included estimated. unfold included, estimated, get_total_token_usage. fold last.
  set (after := sum_estimates _ _). pose proof (sum_estimates_range (items_after_last_model_generated_item items)) as Ha.
  fold after in Ha.
  assert (Hr : (0 <= get_non_last_reasoning_items_tokens serialized_len items)%Z).
  { unfold get_non_last_reasoning_items_tokens. case_match; [|done]. apply sum_estimates_range. }
  split; [|split; apply saturating_add_range]. split; [apply saturating_add_grows; [lia|done]|].
  apply saturating_add_mono; [|done]. by apply saturating_add_grows.
Qed.
End estimates.

(** ** The sum of the reported usage *)

Lemma i64_add_exact {E} debug a b : in_i64 (a + b) -> i64_add (E:=E) debug a b = Ok (a + b)%Z.
Proof.
  intros Hr. unfold i64_add. assert (Hw : i64_wrap (a + b) = (a + b)%Z).
  { unfold i64_wrap, in_i64, I64_MIN, I64_MAX in *. rewrite Z.mod_small; lia. }
  rewrite Hw, Z.eqb_refl. by destruct debug.
Qed.

Definition plus_usage (u v : TokenUsage) : TokenUsage :=
  mk_usage (input_tokens u + input_tokens v) (cached_input_tokens u + cached_input_tokens v)
    (output_tokens u + output_tokens v) (reasoning_output_tokens u + reasoning_output_tokens v)
    (total_tokens u + total_tokens v).

Definition usage_ok (u : TokenUsage) : Prop :=
  in_i64 (input_tokens u) /\ in_i64 (cached_input_tokens u) /\ in_i64 (output_tokens u) /\
  in_i64 (reasoning_output_tokens u) /\ in_i64 (total_tokens u).

Lemma add_usage_exact {E} debug u v :
  usage_ok (plus_usage u v) -> add_usage (E:=E) debug u v = Ok (plus_usage u v).
Proof.
  intros (Hi & Hc & Ho & Hr & Ht). unfold add_usage.
  do 5 (rewrite i64_add_exact by done; cbn [mbind outcome_bind]). done.
Qed.

(** The responses of a conversation, one after the other. *)
Fixpoint update_all {E} (debug : bool) (info : option TokenUsageInfo) (us : list TokenUsage)
    : outcome E (option TokenUsageInfo) :=
  match us with
  | [] => Ok info
  | u :: us => info ← update_token_info debug info u None; update_all debug info us
  end.

(** While no sum leaves the range of [i64], the totals are the sums of what was reported
    and the last usage is the last report. *)
Theorem usage_accumulates {E} debug u l w us :
  (forall k, usage_ok (foldl plus_usage u (take k us))) ->
  update_all (E:=E) debug (Some (mk_usage_info u l w)) us
  = Ok (Some (mk_usage_info (foldl plus_usage u us) (default l (last us)) w)).
Proof.
  revert u l. induction us as [|v us IH]; intros u l Hok; [done|].
  cbn [update_all]. unfold update_token_info, new_or_append, append_last_usage. cbn [default from_option id].
  cbn [total_token_usage]. rewrite add_usage_exact; [|specialize (Hok 1); cbn in Hok; by rewrite take_0 in Hok].
  cbn [mbind outcome_bind model_context_window]. rewrite IH; [|intros k; apply (Hok (S k))].
  rewrite last_cons. cbn [foldl]. by destruct (last us).
Qed.

(** ** Witnesses *)

Definition example_history : list ResponseItem :=
  [Message (lit "user") [InputText (lit "run it")] []; FunctionCall (lit "1") []; CustomToolCall (lit "2") [];
   FunctionCallOutput (lit "1") (mk_payload (BodyText (lit "done")) None);
   CustomToolCallOutput (lit "2") (lit "ok")].

Lemma removal_keeps_pairs_witness :
  remove_first_item (drop 1 example_history)
  = [CustomToolCall (lit "2") []; CustomToolCallOutput (lit "2") (lit "ok")] /\
  well_paired (remove_first_item (drop 1 example_history)).
Proof.
  split; [reflexivity|]. refine (proj1 (removal_keeps_pairs (drop 1 example_history) _)).
  intros []; vm_compute; split; first [reflexivity | apply (bool_decide_unpack _); vm_compute; exact I].
Defined.

Lemma record_items_spec_witness :
  exists recorded, record_items (E:=()) [] example_history (Bytes 2) = Ok ([] ++ recorded) /\ length recorded = 5.
Proof.
  destruct (record_items_spec (E:=()) [] example_history (Bytes 2)) as (recorded & H & Hall & _).
  - apply (bool_decide_unpack _). vm_compute. exact I.
  - exists recorded. split; [exact H|]. apply Forall2_length in Hall. rewrite <-Hall. reflexivity.
Defined.

Lemma token_usage_bounds_witness :
  let info := mk_usage_info zero_usage (mk_usage 0 0 0 0 70) None in
  (70 <= get_total_token_usage (fun _ => Some 40%N) example_history (Some info) true)%Z.
Proof.
  cbv zeta. refine (proj1 (proj1 (token_usage_bounds (fun _ => Some 40%N) example_history
    (Some (mk_usage_info zero_usage (mk_usage 0 0 0 0 70) None)) _))).
  split; apply Z.leb_le; reflexivity.
Defined.

Lemma usage_accumulates_witness :
  update_all (E:=()) true (Some (mk_usage_info zero_usage zero_usage None)) [mk_usage 5 0 1 0 6; mk_usage 7 2 1 0 8]
  = Ok (Some (mk_usage_info (mk_usage 12 2 2 0 14) (mk_usage 7 2 1 0 8) None)).
Proof.
  apply (usage_accumulates (E:=()) true zero_usage zero_usage None [mk_usage 5 0 1 0 6; mk_usage 7 2 1 0 8]).
  intros k. destruct k as [|[|[|k]]]; cbn; repeat split; apply Z.leb_le; reflexivity.
Defined.
