(* ===== verification/IpAddr.v ===== *)
(** * IP addresses (std::net, and the classification of network-proxy/src/policy.rs)

    The part of Rust's [std::net] the proxy uses: addresses, the parser of [IpAddr]
    and the tests of single ranges; and the proxy's own test for addresses that are not
    on the public network. *)

From S2P Require Import Prelude RustStd.

(** ** Addresses *)

Record Ipv4Addr : Type := mk_ipv4 { octet0 : N; octet1 : N; octet2 : N; octet3 : N }.

(** The eight 16-bit segments of an address. *)
Record Ipv6Addr : Type := mk_ipv6 {
  segment0 : N; segment1 : N; segment2 : N; segment3 : N;
  segment4 : N; segment5 : N; segment6 : N; segment7 : N;
}.

Inductive IpAddr : Type := V4 (ip : Ipv4Addr) | V6 (ip : Ipv6Addr).

#[export] Instance Ipv4Addr_eq_dec : EqDecision Ipv4Addr.
Proof. solve_decision. Defined.
#[export] Instance Ipv6Addr_eq_dec : EqDecision Ipv6Addr.
Proof. solve_decision. Defined.
#[export] Instance IpAddr_eq_dec : EqDecision IpAddr.
Proof. solve_decision. Defined.

(** [u32::from]. *)
Definition u32_of (ip : Ipv4Addr) : N :=
  (octet0 ip * 16777216 + octet1 ip * 65536 + octet2 ip * 256 + octet3 ip)%N.

Definition ipv4_ok (ip : Ipv4Addr) : Prop :=
  (octet0 ip < 256 /\ octet1 ip < 256 /\ octet2 ip < 256 /\ octet3 ip < 256)%N.

Definition segments (ip : Ipv6Addr) : list N :=
  [segment0 ip; segment1 ip; segment2 ip; segment3 ip;
   segment4 ip; segment5 ip; segment6 ip; segment7 ip].

Definition ipv6_of_segments (l : list N) : Ipv6Addr :=
  let s i := default 0%N (l !! i) in mk_ipv6 (s 0) (s 1) (s 2) (s 3) (s 4) (s 5) (s 6) (s 7).

(** ** The tests of [Ipv4Addr] *)

Definition v4_is_loopback (ip : Ipv4Addr) : bool := (octet0 ip =? 127)%N.
Definition v4_is_private (ip : Ipv4Addr) : bool :=
  (octet0 ip =? 10)%N
  || ((octet0 ip =? 172) && (16 <=? octet1 ip) && (octet1 ip <=? 31))%N
  || ((octet0 ip =? 192) && (octet1 ip =? 168))%N.
Definition v4_is_link_local (ip : Ipv4Addr) : bool := ((octet0 ip =? 169) && (octet1 ip =? 254))%N.
Definition v4_is_unspecified (ip : Ipv4Addr) : bool := (u32_of ip =? 0)%N.
Definition v4_is_multicast (ip : Ipv4Addr) : bool := ((224 <=? octet0 ip) && (octet0 ip <=? 239))%N.
Definition v4_is_broadcast (ip : Ipv4Addr) : bool := (u32_of ip =? 4294967295)%N.

(** ** The tests of [Ipv6Addr] *)

Definition v6_is_loopback (ip : Ipv6Addr) : bool := bool_decide (segments ip = [0; 0; 0; 0; 0; 0; 0; 1]%N).
Definition v6_is_unspecified (ip : Ipv6Addr) : bool := bool_decide (segments ip = replicate 8 0%N).
(** 0xff00, 0xfe00 = fc00, 0xffc0 = fe80. *)
Definition v6_is_multicast (ip : Ipv6Addr) : bool := (N.land (segment0 ip) 65280 =? 65280)%N.
Definition v6_is_unique_local (ip : Ipv6Addr) : bool := (N.land (segment0 ip) 65024 =? 64512)%N.
Definition v6_is_unicast_link_local (ip : Ipv6Addr) : bool := (N.land (segment0 ip) 65472 =? 65152)%N.

(** [Ipv6Addr::to_ipv4]: mapped and compatible addresses. *)
Definition to_ipv4 (ip : Ipv6Addr) : option Ipv4Addr :=
  let prefix := [segment0 ip; segment1 ip; segment2 ip; segment3 ip; segment4 ip] in
  if bool_decide (prefix = replicate 5 0%N) && ((segment5 ip =? 0) || (segment5 ip =? 65535))%N then
    Some (mk_ipv4 (segment6 ip / 256) (segment6 ip mod 256) (segment7 ip / 256) (segment7 ip mod 256))
  else None.

Definition ip_is_loopback (ip : IpAddr) : bool :=
  match ip with V4 ip => v4_is_loopback ip | V6 ip => v6_is_loopback ip end.

(** ** The parser of [std::net]

    A reader takes the rest of the text and gives its result and what is left; a
    reader that fails leaves the text as it was ([read_atomically]). *)

Definition reader (A : Type) : Type := str -> option (A * str).

Definition read_given_char (c : char) : reader () := fun s =>
  match s with c' :: s' => if (c' =? c)%N then Some ((), s') else None | [] => None end.

(** [char::to_digit], for the radices 10 and 16. *)
Definition to_digit (radix : N) (c : char) : option N :=
  let d :=
    if is_ascii_digit c then Some (c - 48)%N
    else if bool_decide (97 <= c <= 102)%N then Some (c - 87)%N
    else if bool_decide (65 <= c <= 70)%N then Some (c - 55)%N
    else None in
  d ← d; if (d <? radix)%N then Some d else None.

Fixpoint read_digits (radix : N) (max_digits count : nat) (acc : N) (s : str) : option (N * nat * str) :=
  match s with
  | [] => Some (acc, count, s)
  | c :: s' =>
      match to_digit radix c with
      | None => Some (acc, count, s)
      | Some d =>
          if max_digits <? S count then None
          else read_digits radix max_digits (S count) (acc * radix + d)%N s'
      end
  end.

(** [read_number] at a type whose values are below [bound]. *)
Definition read_number (radix : N) (max_digits : nat) (allow_zero_prefix : bool) (bound : N) : reader N := fun s =>
  let has_leading_zero := bool_decide (head s = Some (ch "0")) in
  '(result, digit_count, rest) ← read_digits radix max_digits 0 0 s;
  if digit_count =? 0 then None
  else if negb allow_zero_prefix && has_leading_zero && (1 <? digit_count) then None
  else if (result <? bound)%N then Some (result, rest) else None.

Definition read_separator {A} (sep : char) (index : nat) (inner : reader A) : reader A := fun s =>
  s ← (if 0 <? index then snd <$> read_given_char sep s else Some s); inner s.

Definition read_ipv4_addr : reader Ipv4Addr := fun s =>
  let group i := read_separator (ch ".") i (read_number 10 3 false 256) in
  '(a, s) ← group 0 s; '(b, s) ← group 1 s; '(c, s) ← group 2 s; '(d, s) ← group 3 s;
  Some (mk_ipv4 a b c d, s).

(** [read_groups] from group [i] on, with [n] groups of [limit] left: the groups read,
    whether they end in an IPv4 address, and the rest. *)
Fixpoint read_groups (limit i n : nat) (s : str) : list N * bool * str :=
  match n with
  | O => ([], false, s)
  | S n =>
      let group :=
        match read_separator (ch ":") i (read_number 16 4 true 65536) s with
        | Some (g, s) => let '(gs, ipv4, s) := read_groups limit (S i) n s in (g :: gs, ipv4, s)
        | None => ([], false, s)
        end in
      if i <? limit - 1 then
        match read_separator (ch ":") i read_ipv4_addr s with
        | Some (ip, s) => ([octet0 ip * 256 + octet1 ip; octet2 ip * 256 + octet3 ip]%N, true, s)
        | None => group
        end
      else group
  end.

Definition read_ipv6_addr : reader Ipv6Addr := fun s =>
  let '(head, head_ipv4, s) := read_groups 8 0 8 s in
  if length head =? 8 then Some (ipv6_of_segments head, s)
  else if (head_ipv4 : bool) then None
  else
    '(_, s) ← read_given_char (ch ":") s;
    '(_, s) ← read_given_char (ch ":") s;
    let limit := 8 - (length head + 1) in
    let '(tail, _, s) := read_groups limit 0 limit s in
    Some (ipv6_of_segments (head ++ replicate (8 - length head - length tail) 0%N ++ tail), s).

(** [str::parse::<IpAddr>]. *)
Definition parse_ip (s : str) : option IpAddr :=
  let r :=
    match read_ipv4_addr s with
    | Some (ip, rest) => Some (V4 ip, rest)
    | None => '(ip, rest) ← read_ipv6_addr s; Some (V6 ip, rest)
    end in
  '(ip, rest) ← r; if bool_decide (rest = []) then Some ip else None.

(** ** Addresses that are not public (policy.rs) *)

Definition u32_MAX : N := 4294967295.

Definition ipv4_in_cidr (ip base : Ipv4Addr) (prefix : N) : bool :=
  let mask := if (prefix =? 0)%N then 0%N else (N.shiftl u32_MAX (32 - prefix) mod 4294967296)%N in
  (N.land (u32_of ip) mask =? N.land (u32_of base) mask)%N.

Definition is_non_public_ipv4 (ip : Ipv4Addr) : bool :=
  v4_is_loopback ip || v4_is_private ip || v4_is_link_local ip || v4_is_unspecified ip
  || v4_is_multicast ip || v4_is_broadcast ip
  || ipv4_in_cidr ip (mk_ipv4 0 0 0 0) 8 || ipv4_in_cidr ip (mk_ipv4 100 64 0 0) 10
  || ipv4_in_cidr ip (mk_ipv4 192 0 0 0) 24 || ipv4_in_cidr ip (mk_ipv4 192 0 2 0) 24
  || ipv4_in_cidr ip (mk_ipv4 198 18 0 0) 15 || ipv4_in_cidr ip (mk_ipv4 198 51 100 0) 24
  || ipv4_in_cidr ip (mk_ipv4 203 0 113 0) 24 || ipv4_in_cidr ip (mk_ipv4 240 0 0 0) 4.

Definition is_non_public_ipv6 (ip : Ipv6Addr) : bool :=
  match to_ipv4 ip with
  | Some v4 => is_non_public_ipv4 v4 || v6_is_loopback ip
  | None =>
      v6_is_loopback ip || v6_is_unspecified ip || v6_is_multicast ip || v6_is_unique_local ip
      || v6_is_unicast_link_local ip
  end.

Definition is_non_public_ip (ip : IpAddr) : bool :=
  match ip with V4 ip => is_non_public_ipv4 ip | V6 ip => is_non_public_ipv6 ip end.

(** ** Examples of the parser *)

Example parse_v4 : parse_ip (lit "192.168.0.1") = Some (V4 (mk_ipv4 192 168 0 1)).
Proof. reflexivity. Qed.
Example parse_octal : parse_ip (lit "127.0.0.01") = None.
Proof. reflexivity. Qed.
Example parse_v6 : parse_ip (lit "fe80::1:2") = Some (V6 (mk_ipv6 65152 0 0 0 0 0 1 2)).
Proof. reflexivity. Qed.
Example parse_mapped : parse_ip (lit "::ffff:10.0.0.1") = Some (V6 (mk_ipv6 0 0 0 0 0 65535 2560 1)).
Proof. reflexivity. Qed.
Example parse_full : parse_ip (lit "1:2:3:4:5:6:7:8") = Some (V6 (mk_ipv6 1 2 3 4 5 6 7 8)).
Proof. reflexivity. Qed.
Example parse_nine : parse_ip (lit "1:2:3:4:5:6:7:8:9") = None /\ parse_ip (lit "1::2::3") = None /\ parse_ip (lit ":1") = None.
Proof. done. Qed.

(** ** Prefixes and ranges *)

(** Masking with a prefix keeps the multiple of its block. *)
Lemma land_prefix w k x :
  (x < 2 ^ w)%N -> N.land x (N.ldiff (N.ones w) (N.ones k)) = (x / 2 ^ k * 2 ^ k)%N.
Proof.
  intros Hx. rewrite <-N.shiftr_div_pow2, <-N.shiftl_mul_pow2, <-N.ldiff_ones_r.
  apply N.bits_inj. intros i. rewrite N.land_spec, !N.ldiff_spec. destruct (N.ltb_spec i w).
  - by rewrite (N.ones_spec_low w) by done.
  - rewrite (N.ones_spec_high w), andb_false_r by done. rewrite <-(N.mod_small x (2 ^ w)) by done.
    by rewrite N.mod_pow2_bits_high by done.
Qed.

(** A block of [2 ^ k] numbers that starts at [base]. *)
Lemma prefix_block k x base :
  (base mod 2 ^ k = 0)%N ->
  ((x / 2 ^ k * 2 ^ k =? base / 2 ^ k * 2 ^ k) = ((base <=? x) && (x <=? base + (2 ^ k - 1))))%N.
Proof.
  intros Hb. assert (Hp : (0 < 2 ^ k)%N) by (apply N.neq_0_lt_0, N.pow_nonzero; lia).
  generalize dependent (2 ^ k)%N. intros p Hb Hp. pose proof (N.div_mod x p ltac:(lia)) as H. pose proof (N.div_mod base p ltac:(lia)).
  pose proof (N.mod_lt x p ltac:(lia)). apply eq_true_iff_eq. rewrite andb_true_iff, N.eqb_eq, !N.leb_le. split.
  - intros Hq%N.mul_cancel_r; [|lia]. rewrite Hq in H. generalize dependent (x mod p)%N. intros r Hr Hlt. rewrite Hb in *. nia.
  - intros [Hlo Hhi]. assert (Hq : (base / p = x / p)%N); [|by rewrite Hq].
    apply (N.div_unique x p (base / p) (x - base)); lia.
Qed.

Definition in_block (k base x : N) : bool := ((base <=? x) && (x <=? base + (2 ^ k - 1)))%N.

Lemma land_block w k x base m :
  (x < 2 ^ w)%N -> (base < 2 ^ w)%N -> (base mod 2 ^ k = 0)%N -> m = N.ldiff (N.ones w) (N.ones k) ->
  (N.land x m =? N.land base m)%N = in_block k base x.
Proof. intros Hx Hb Hm ->. rewrite !land_prefix by done. by apply prefix_block. Qed.

Lemma u32_bound ip : ipv4_ok ip -> (u32_of ip < 2 ^ 32)%N.
Proof. unfold ipv4_ok, u32_of. change (2 ^ 32)%N with 4294967296%N. lia. Qed.

(** The range of addresses of a CIDR block, both ends included. *)
Definition cidr_range (a b c d len : N) : N * N :=
  let base := u32_of (mk_ipv4 a b c d) in (base, base + (2 ^ (32 - len) - 1))%N.

Definition in_range (x : N) (r : N * N) : bool := ((fst r <=? x) && (x <=? snd r))%N.

(** RFC 1122, 1918, 6598, 3927, 6890, 5737, 2544, 1112. *)
Definition non_public_ranges : list (N * N) :=
  [cidr_range 0 0 0 0 8; cidr_range 10 0 0 0 8; cidr_range 100 64 0 0 10; cidr_range 127 0 0 0 8;
   cidr_range 169 254 0 0 16; cidr_range 172 16 0 0 12; cidr_range 192 0 0 0 24; cidr_range 192 0 2 0 24;
   cidr_range 192 168 0 0 16; cidr_range 198 18 0 0 15; cidr_range 198 51 100 0 24; cidr_range 203 0 113 0 24;
   cidr_range 224 0 0 0 4; cidr_range 240 0 0 0 4].

Lemma cidr_block ip a b c d len :
  ipv4_ok ip -> ipv4_ok (mk_ipv4 a b c d) ->
  (len =? 0)%N = false ->
  (N.shiftl u32_MAX (32 - len) mod 4294967296)%N = N.ldiff (N.ones 32) (N.ones (32 - len)) ->
  (u32_of (mk_ipv4 a b c d) mod 2 ^ (32 - len))%N = 0%N ->
  ipv4_in_cidr ip (mk_ipv4 a b c d) len = in_range (u32_of ip) (cidr_range a b c d len).
Proof.
  intros Hip Hb Hl Hm Hz. unfold ipv4_in_cidr. rewrite Hl. cbv zeta.
  rewrite (land_block 32 (32 - len)); [done|by apply u32_bound|by apply u32_bound|done|done].
Qed.

(** The octets behind a range: the upper bounds of a block are those of its fields. *)
Ltac octet_ranges :=
  unfold in_range, cidr_range, u32_of; cbn [octet0 octet1 octet2 octet3 fst snd];
  repeat match goal with |- context [(2 ^ (32 - ?l))%N] => let p := eval vm_compute in (2 ^ (32 - l))%N in change (2 ^ (32 - l))%N with p end;
  apply eq_true_iff_eq; rewrite ?orb_true_iff, ?andb_true_iff, ?N.eqb_eq, ?N.leb_le; lia.

Lemma loopback_range ip : ipv4_ok ip -> v4_is_loopback ip = in_range (u32_of ip) (cidr_range 127 0 0 0 8).
Proof. destruct ip. unfold ipv4_ok, v4_is_loopback. cbn. intros. octet_ranges. Qed.
Lemma private_ranges ip :
  ipv4_ok ip ->
  v4_is_private ip = in_range (u32_of ip) (cidr_range 10 0 0 0 8) || in_range (u32_of ip) (cidr_range 172 16 0 0 12)
                     || in_range (u32_of ip) (cidr_range 192 168 0 0 16).
Proof. destruct ip. unfold ipv4_ok, v4_is_private. cbn. intros. octet_ranges. Qed.
Lemma link_local_range ip : ipv4_ok ip -> v4_is_link_local ip = in_range (u32_of ip) (cidr_range 169 254 0 0 16).
Proof. destruct ip. unfold ipv4_ok, v4_is_link_local. cbn. intros. octet_ranges. Qed.
Lemma multicast_range ip : ipv4_ok ip -> v4_is_multicast ip = in_range (u32_of ip) (cidr_range 224 0 0 0 4).
Proof. destruct ip. unfold ipv4_ok, v4_is_multicast. cbn. intros. octet_ranges. Qed.
Lemma unspecified_range ip :
  v4_is_unspecified ip = true -> in_range (u32_of ip) (cidr_range 0 0 0 0 8) = true.
Proof. unfold v4_is_unspecified. intros ->%N.eqb_eq. done. Qed.
Lemma broadcast_range ip :
  v4_is_broadcast ip = true -> in_range (u32_of ip) (cidr_range 240 0 0 0 4) = true.
Proof. unfold v4_is_broadcast. intros ->%N.eqb_eq. done. Qed.

Lemma non_public_v4 ip :
  ipv4_ok ip -> is_non_public_ipv4 ip = existsb (in_range (u32_of ip)) non_public_ranges.
Proof.
  intros Hip. unfold is_non_public_ipv4. rewrite !cidr_block by (done || (unfold ipv4_ok; cbn; lia)).
  rewrite loopback_range, private_ranges, link_local_range, multicast_range by done.
  pose proof (unspecified_range ip) as Hu. pose proof (broadcast_range ip) as Hb.
  unfold non_public_ranges. cbn [existsb]. rewrite orb_false_r.
  generalize dependent (v4_is_unspecified ip). generalize dependent (v4_is_broadcast ip). intros b Hb u Hu.
  apply eq_true_iff_eq. split; intros H; repeat (apply orb_true_iff in H as [H|H]);
    rewrite ?(Hu H), ?(Hb H), ?H, ?orb_true_r; reflexivity.
Qed.

(** ** IPv6 *)

Definition ipv6_ok (ip : Ipv6Addr) : Prop := Forall (fun s => s < 65536)%N (segments ip).

Definition ip_ok (ip : IpAddr) : Prop := match ip with V4 ip => ipv4_ok ip | V6 ip => ipv6_ok ip end.

(** An IPv4 address within an IPv6 one: [::a.b.c.d] or [::ffff:a.b.c.d]. *)
Definition embeds_ipv4 (ip : Ipv6Addr) : bool :=
  bool_decide (take 5 (segments ip) = replicate 5 0%N) && ((segment5 ip =? 0) || (segment5 ip =? 65535))%N.

(** The first segments of the IPv6 addresses for local use: unique local (fc00::/7),
    link local (fe80::/10), multicast (ff00::/8). *)
Definition local_segments : list (N * N) := [(64512, 65023); (65152, 65215); (65280, 65535)]%N.

(** The specification of [is_non_public_ip], in ranges of numbers. *)
Definition non_public (ip : IpAddr) : bool :=
  match ip with
  | V4 ip => existsb (in_range (u32_of ip)) non_public_ranges
  | V6 ip =>
      if embeds_ipv4 ip then existsb (in_range (segment6 ip * 65536 + segment7 ip)) non_public_ranges
      else existsb (in_range (segment0 ip)) local_segments
  end.

Lemma embedded_number a b :
  (a < 65536)%N -> (b < 65536)%N ->
  let ip := mk_ipv4 (a / 256) (a mod 256) (b / 256) (b mod 256) in
  ipv4_ok ip /\ u32_of ip = (a * 65536 + b)%N.
Proof.
  intros Ha Hb ip. unfold ipv4_ok, u32_of. cbn [octet0 octet1 octet2 octet3 ip].
  pose proof (N.div_mod a 256 ltac:(lia)). pose proof (N.div_mod b 256 ltac:(lia)).
  pose proof (N.mod_lt a 256 ltac:(lia)). pose proof (N.mod_lt b 256 ltac:(lia)).
  pose proof (N.Div0.div_lt_upper_bound a 256 256). pose proof (N.Div0.div_lt_upper_bound b 256 256). lia.
Qed.

Lemma to_ipv4_embeds ip :
  to_ipv4 ip = if embeds_ipv4 ip
               then Some (mk_ipv4 (segment6 ip / 256) (segment6 ip mod 256) (segment7 ip / 256) (segment7 ip mod 256))
               else None.
Proof. reflexivity. Qed.

Lemma loopback_embeds ip :
  v6_is_loopback ip = true -> embeds_ipv4 ip = true /\ segment6 ip = 0%N /\ segment7 ip = 1%N.
Proof. destruct ip. unfold v6_is_loopback, segments. cbn. intros H%bool_decide_eq_true. by simplify_eq. Qed.
Lemma unspecified_embeds ip : v6_is_unspecified ip = true -> embeds_ipv4 ip = true.
Proof. destruct ip. unfold v6_is_unspecified, segments. cbn. intros H%bool_decide_eq_true. by simplify_eq. Qed.

Lemma local_segment ip :
  ipv6_ok ip ->
  v6_is_multicast ip || v6_is_unique_local ip || v6_is_unicast_link_local ip
  = existsb (in_range (segment0 ip)) local_segments.
Proof.
  intros Hip. apply Forall_cons in Hip as [H0 _].
  unfold v6_is_multicast, v6_is_unique_local, v6_is_unicast_link_local, local_segments. cbn [existsb].
  change 65280%N with (N.land 65280 65280) at 2. change 64512%N with (N.land 64512 65024) at 1.
  change 65152%N with (N.land 65152 65472) at 1.
  rewrite (land_block 16 8), (land_block 16 9), (land_block 16 6) by done.
  unfold in_block, in_range. cbn [fst snd]. rewrite orb_false_r.
  change (65280 + (2 ^ 8 - 1))%N with 65535%N. change (64512 + (2 ^ 9 - 1))%N with 65023%N.
  change (65152 + (2 ^ 6 - 1))%N with 65215%N.
  apply eq_true_iff_eq. rewrite !orb_true_iff, !andb_true_iff, !N.leb_le. lia.
Qed.

(** ** What is parsed is an address *)

Lemma read_number_bound radix m z bound s n s' : read_number radix m z bound s = Some (n, s') -> (n < bound)%N.
Proof.
  unfold read_number. intros ([[r c] rest] & _ & H)%bind_Some.
  repeat case_match; simplify_eq. by apply N.ltb_lt.
Qed.

Lemma read_separator_inner {A} sep i (inner : reader A) s r :
  read_separator sep i inner s = Some r -> exists s', inner s' = Some r.
Proof. unfold read_separator. intros (s' & _ & H)%bind_Some. eauto. Qed.

Lemma read_ipv4_ok s ip s' : read_ipv4_addr s = Some (ip, s') -> ipv4_ok ip.
Proof.
  unfold read_ipv4_addr. intros ([a s1] & Ha & ([b s2] & Hb & ([c s3] & Hc & ([d s4] & Hd & [= <- _])%bind_Some)%bind_Some)%bind_Some)%bind_Some.
  apply read_separator_inner in Ha as [? Ha%read_number_bound], Hb as [? Hb%read_number_bound],
    Hc as [? Hc%read_number_bound], Hd as [? Hd%read_number_bound]. done.
Qed.

Lemma read_groups_ok limit i n s gs ipv4 s' :
  read_groups limit i n s = (gs, ipv4, s') -> Forall (fun g => g < 65536)%N gs.
Proof.
  revert i s gs ipv4 s'. induction n as [|n IH]; intros i s gs ipv4 s' H; cbn [read_groups] in H; [simplify_eq; constructor|].
  assert (Hgroup : forall r,
    match read_separator (ch ":") i (read_number 16 4 true 65536) s with
    | Some (g, s) => let '(gs, ipv4, s) := read_groups limit (S i) n s in (g :: gs, ipv4, s)
    | None => ([], false, s)
    end = r -> Forall (fun g => g < 65536)%N r.1.1).
  { intros r <-. destruct (read_separator (ch ":") i (read_number 16 4 true 65536) s) as [[g s1]|] eqn:Hg; [|by constructor].
    apply read_separator_inner in Hg as [? Hg%read_number_bound].
    destruct (read_groups limit (S i) n s1) as [[gs1 v1] s2] eqn:Hr. apply IH in Hr. cbn. by constructor. }
  destruct (i <? limit - 1); [|exact (Hgroup _ H)].
  destruct (read_separator (ch ":") i read_ipv4_addr s) as [[ip s1]|] eqn:H4; [|exact (Hgroup _ H)].
  simplify_eq. apply read_separator_inner in H4 as [? (? & ? & ? & ?)%read_ipv4_ok].
  repeat constructor; lia.
Qed.

Lemma ipv6_of_segments_ok l : Forall (fun g => g < 65536)%N l -> ipv6_ok (ipv6_of_segments l).
Proof.
  intros Hl. assert (Hi : forall i, (default 0 (l !! i) < 65536)%N).
  { intros i. destruct (l !! i) as [g|] eqn:Hg; cbn; [|lia]. exact (proj1 (Forall_lookup _ _) Hl _ _ Hg). }
  unfold ipv6_ok, segments, ipv6_of_segments. cbn. repeat constructor; apply Hi.
Qed.

Lemma parse_ip_ok s ip : parse_ip s = Some ip -> ip_ok ip.
Proof.
  unfold parse_ip. intros ([ip' rest] & Hr & H)%bind_Some. case_match; [|done]. simplify_eq.
  destruct (read_ipv4_addr s) as [[v4 r4]|] eqn:H4; [simplify_eq; by apply read_ipv4_ok in H4|].
  apply bind_Some in Hr as ([v6 r6] & H6 & ?). simplify_eq. cbn [ip_ok]. unfold read_ipv6_addr in H6.
  destruct (read_groups 8 0 8 s) as [[hd v] s1] eqn:Hh. apply read_groups_ok in Hh.
  destruct (_ =? 8); [simplify_eq; by apply ipv6_of_segments_ok|]. destruct v; [done|].
  apply bind_Some in H6 as ([? s2] & _ & ([? s3] & _ & H6)%bind_Some).
  destruct (read_groups _ 0 _ s3) as [[tl v'] s4] eqn:Ht. apply read_groups_ok in Ht. simplify_eq.
  apply ipv6_of_segments_ok. rewrite !Forall_app. split_and!; [done|apply Forall_replicate; lia|done].
Qed.

(** The test for addresses that are not public is membership in the tables of
    reserved ranges: of an IPv4 address itself, of the IPv4 address within an IPv6 one,
    or of the first segment of any other IPv6 address. *)
Theorem is_non_public_ip_spec ip : ip_ok ip -> is_non_public_ip ip = non_public ip.
Proof.
  destruct ip as [ip|ip]; intros Hip; [by apply non_public_v4|]. cbn [is_non_public_ip non_public].
  unfold is_non_public_ipv6. rewrite to_ipv4_embeds. destruct (embeds_ipv4 ip) eqn:He.
  - pose proof Hip as Hs. unfold ip_ok, ipv6_ok, segments in Hs. rewrite !Forall_cons in Hs.
    destruct (embedded_number (segment6 ip) (segment7 ip)) as [Hok Hnum]; [tauto..|].
    rewrite non_public_v4, Hnum by done. destruct (v6_is_loopback ip) eqn:Hl; [|by rewrite orb_false_r].
    apply loopback_embeds in Hl as (_ & -> & ->). done.
  - rewrite <-local_segment by done.
    destruct (v6_is_loopback ip) eqn:Hl; [apply loopback_embeds in Hl as [? _]; congruence|].
    destruct (v6_is_unspecified ip) eqn:Hu; [apply unspecified_embeds in Hu; congruence|]. done.
Qed.

Lemma is_non_public_ip_spec_witness :
  is_non_public_ip (V6 (mk_ipv6 0 0 0 0 0 65535 2560 1)) = true /\
  is_non_public_ip (V6 (mk_ipv6 8193 3512 0 0 0 0 0 1)) = false.
Proof.
  split; (etransitivity; [apply is_non_public_ip_spec; apply (bool_decide_unpack _); vm_compute; exact I|]); reflexivity.
Defined.
