(* ===== verification/HostPolicy.v ===== *)
(** * Host patterns of the network proxy (network-proxy/src/policy.rs)

    Hosts are normalised texts; a pattern names a host, the hosts below a domain, both,
    or all hosts.  Patterns are compiled to globs for requests and compared with each
    other for constraints; the glob library and the URL parser are parameters. *)

From stdpp Require Import gmap sets.
From S2P Require Import Prelude RustStd IpAddr.

(** ** Hosts *)

Definition DOT : char := ch ".".
Definition COLON : char := ch ":".

(** [str::split_once(c)]. *)
Fixpoint split_once (c : char) (s : str) : option (str * str) :=
  match s with
  | [] => None
  | x :: s => if bool_decide (x = c) then Some ([], s) else '(a, b) ← split_once c s; Some (x :: a, b)
  end.

Definition normalize_dns_host (host : str) : str := trim_end_matches DOT (to_ascii_lowercase host).

Definition count_char (c : char) (s : str) : nat := length (filter (fun x => x = c) s).

Definition normalize_host (host : str) : str :=
  let host := trim host in
  let unbracketed :=
    if count_char COLON host =? 1 then normalize_dns_host (default [] (head (split_on COLON host)))
    else normalize_dns_host host in
  if starts_with (lit "[") host then
    match split_once (ch "]") host with
    | Some (before, _) => normalize_dns_host (drop 1 before)
    | None => unbracketed
    end
  else unbracketed.

Definition Host_parse (input : str) : option str :=
  let normalized := normalize_host input in
  if bool_decide (normalized = []) then None else Some normalized.

Definition without_scope (host : str) : str :=
  match split_once (ch "%") host with Some (ip, _) => ip | None => host end.

Definition is_loopback_host (host : str) : bool :=
  let host := without_scope host in
  if bool_decide (host = lit "localhost") then true
  else match parse_ip host with Some ip => ip_is_loopback ip | None => false end.

(** ** Patterns *)

Inductive DomainPattern : Type :=
  | AnyDomain
  | ApexAndSubdomains (domain : str)
  | SubdomainsOnly (domain : str)
  | Exact (domain : str).

#[export] Instance DomainPattern_eq_dec : EqDecision DomainPattern.
Proof. solve_decision. Defined.

Definition STAR : str := lit "*".

Definition normalize_pattern (pattern : str) : str :=
  let pattern := trim pattern in
  if bool_decide (pattern = STAR) then STAR
  else
    match strip_prefix (lit "**.") pattern with
    | Some domain => lit "**." ++ normalize_host domain
    | None =>
        match strip_prefix (lit "*.") pattern with
        | Some domain => lit "*." ++ normalize_host domain
        | None => normalize_host pattern
        end
    end.

Definition parse_domain (domain : str) (build : str -> DomainPattern) : DomainPattern :=
  let domain := trim domain in
  if bool_decide (domain = []) then Exact [] else build domain.

Definition DomainPattern_parse (input : str) : DomainPattern :=
  let input := trim input in
  if bool_decide (input = []) then Exact []
  else if bool_decide (input = STAR) then AnyDomain
  else
    match strip_prefix (lit "**.") input with
    | Some domain => parse_domain domain ApexAndSubdomains
    | None =>
        match strip_prefix (lit "*.") input with
        | Some domain => parse_domain domain SubdomainsOnly
        | None => Exact input
        end
    end.

Section constraints.
(** [url::Host::parse] and its [to_string]. *)
Variable url_host_parse : str -> option str.

Definition parse_domain_for_constraints (domain : str) : str :=
  let domain := trim_end_matches DOT (trim domain) in
  if bool_decide (domain = []) then []
  else
    let host :=
      if starts_with (lit "[") domain && ends_with (lit "]") domain
      then drop 1 (take (length domain - 1) domain) else domain in
    if contains STAR host || contains (lit "?") host || contains (lit "%") host then domain
    else default [] (url_host_parse host).

Definition parse_for_constraints (input : str) : DomainPattern :=
  let input := trim input in
  if bool_decide (input = []) then Exact []
  else if bool_decide (input = STAR) then AnyDomain
  else
    match strip_prefix (lit "**.") input with
    | Some domain => ApexAndSubdomains (parse_domain_for_constraints domain)
    | None =>
        match strip_prefix (lit "*.") input with
        | Some domain => SubdomainsOnly (parse_domain_for_constraints domain)
        | None => Exact (parse_domain_for_constraints input)
        end
    end.
End constraints.

Definition normalize_domain (domain : str) : str := to_ascii_lowercase (trim_end_matches DOT domain).

Definition domain_eq (left right : str) : bool := bool_decide (normalize_domain left = normalize_domain right).

Definition is_subdomain_or_equal (child parent : str) : bool :=
  let child := normalize_domain child in
  let parent := normalize_domain parent in
  bool_decide (child = parent) || ends_with (DOT :: parent) child.

Definition is_strict_subdomain (child parent : str) : bool :=
  let child := normalize_domain child in
  let parent := normalize_domain parent in
  negb (bool_decide (child = parent)) && ends_with (DOT :: parent) child.

(** [self.allows(candidate)]. *)
Definition allows (self candidate : DomainPattern) : bool :=
  match self with
  | AnyDomain => true
  | Exact domain => match candidate with Exact c => domain_eq c domain | _ => false end
  | SubdomainsOnly domain =>
      match candidate with
      | AnyDomain => false
      | Exact c => is_strict_subdomain c domain
      | SubdomainsOnly c => is_subdomain_or_equal c domain
      | ApexAndSubdomains c => is_strict_subdomain c domain
      end
  | ApexAndSubdomains domain =>
      match candidate with
      | AnyDomain => false
      | Exact c | SubdomainsOnly c | ApexAndSubdomains c => is_subdomain_or_equal c domain
      end
  end.

Definition expand_domain_pattern (pattern : str) : list str :=
  match DomainPattern_parse pattern with
  | AnyDomain => [pattern]
  | Exact domain => [domain]
  | SubdomainsOnly domain => [lit "?*." ++ domain]
  | ApexAndSubdomains domain => [domain; lit "?*." ++ domain]
  end.

(** ** Globs *)

(** The [globset] crate: globs that ignore the case of ASCII letters, and sets of them. *)
Class GlobLib : Type := {
  Glob : Type;
  GlobSet : Type;
  glob_build : str -> option Glob;
  globset_build : list Glob -> option GlobSet;
  glob_is_match : Glob -> str -> bool;
  globset_is_match : GlobSet -> str -> bool;
}.

Inductive GlobError : Type := InvalidGlob (candidate : str) | GlobSetError.

Section globs.
Context `{GlobLib}.

(** The inner loop over the candidates of a pattern, with the set of those seen. *)
Fixpoint add_candidates (candidates : list str) (seen : gset str) (builder : list Glob)
    : outcome GlobError (gset str * list Glob) :=
  match candidates with
  | [] => Ok (seen, builder)
  | candidate :: candidates =>
      if bool_decide (candidate ∈ seen) then add_candidates candidates seen builder
      else
        glob ← ok_or (glob_build candidate) (InvalidGlob candidate);
        add_candidates candidates ({[candidate]} ∪ seen) (builder ++ [glob])
  end.

Fixpoint add_patterns (patterns : list str) (seen : gset str) (builder : list Glob)
    : outcome GlobError (gset str * list Glob) :=
  match patterns with
  | [] => Ok (seen, builder)
  | pattern :: patterns =>
      '(seen, builder) ← add_candidates (expand_domain_pattern (normalize_pattern pattern)) seen builder;
      add_patterns patterns seen builder
  end.

Definition compile_globset (patterns : list str) : outcome GlobError GlobSet :=
  '(_, builder) ← add_patterns patterns ∅ [];
  ok_or (globset_build builder) GlobSetError.
End globs.

(** ** What a pattern means *)

(** [h] is a host below [d]: something, a dot and [d]. *)
Definition below (d h : str) : bool :=
  ends_with (DOT :: d) h && negb (bool_decide (h = DOT :: d)).

(** The hosts of a pattern, whatever the case of their letters. *)
Definition covers (p : DomainPattern) (h : str) : bool :=
  let h := to_ascii_lowercase h in
  match p with
  | AnyDomain => true
  | Exact d => bool_decide (to_ascii_lowercase d = h)
  | SubdomainsOnly d => below (to_ascii_lowercase d) h
  | ApexAndSubdomains d => bool_decide (to_ascii_lowercase d = h) || below (to_ascii_lowercase d) h
  end.

(** The domain of a pattern starts and ends with a label. *)
Definition domain_ok (d : str) : Prop := d <> [] /\ head d <> Some DOT /\ last d <> Some DOT.
Definition pattern_ok (p : DomainPattern) : Prop :=
  match p with AnyDomain => True | Exact d | SubdomainsOnly d | ApexAndSubdomains d => domain_ok d end.

Lemma below_iff d h : below d h = true <-> exists x, x <> [] /\ h = x ++ DOT :: d.
Proof.
  unfold below. rewrite andb_true_iff, negb_true_iff, bool_decide_eq_false, ends_with_true. split.
  - intros [[r ->] Hne]. exists r. split; [|done]. by intros ->.
  - intros (x & Hx & ->). split; [by exists x|]. intros He. apply (f_equal length) in He.
    rewrite length_app in He. destruct x; cbn in He; [done|lia].
Qed.

Lemma lower_dot c : to_ascii_lower c = DOT <-> c = DOT.
Proof.
  unfold to_ascii_lower, DOT. case_bool_decide; [|done]. split; intros He.
  - exfalso. cbv [ch] in He. cbn in He. lia.
  - subst. exfalso. cbn in *. lia.
Qed.

Lemma lower_app s1 s2 : to_ascii_lowercase (s1 ++ s2) = to_ascii_lowercase s1 ++ to_ascii_lowercase s2.
Proof. apply fmap_app. Qed.

Lemma lower_nil s : to_ascii_lowercase s = [] <-> s = [].
Proof. unfold to_ascii_lowercase. by destruct s. Qed.

Lemma lower_idem s : to_ascii_lowercase (to_ascii_lowercase s) = to_ascii_lowercase s.
Proof.
  unfold to_ascii_lowercase. rewrite <-list_fmap_compose. apply list_fmap_ext. intros i c _.
  unfold compose, to_ascii_lower. repeat case_bool_decide; lia.
Qed.

Lemma trim_dots_ok d : last d <> Some DOT -> trim_end_matches DOT d = d.
Proof.
  intros Hl. unfold trim_end_matches. destruct (last d) as [x|] eqn:Hd.
  - apply last_Some in Hd as [l ->]. rewrite drop_while_end_last; [done|].
    apply bool_decide_eq_false. congruence.
  - by apply last_None in Hd as ->.
Qed.

Lemma normalize_domain_ok d : domain_ok d -> normalize_domain d = to_ascii_lowercase d.
Proof. intros (_ & _ & Hl). unfold normalize_domain. by rewrite trim_dots_ok. Qed.

Lemma head_lower d : domain_ok d -> head (to_ascii_lowercase d) <> Some DOT.
Proof. intros (_ & Hh & _). destruct d as [|c d]; [done|]. intros [= He]. apply Hh. cbn [head]. f_equal. by apply lower_dot. Qed.

Lemma ends_with_cons_dot d h : ends_with (DOT :: d) h = true <-> exists x, h = x ++ DOT :: d.
Proof. apply ends_with_true. Qed.

(** A host below a domain that is below another. *)
Lemma below_trans d e h : below d e = true -> below e h = true -> below d h = true.
Proof.
  rewrite !below_iff. intros (x & _ & ->) (y & Hy & ->). exists (y ++ DOT :: x). split; [by destruct y|].
  by rewrite <-(assoc (++)).
Qed.

Lemma strict_below e d :
  domain_ok e -> domain_ok d -> is_strict_subdomain e d = below (to_ascii_lowercase d) (to_ascii_lowercase e).
Proof.
  intros He Hd. unfold is_strict_subdomain, below. rewrite !normalize_domain_ok by done. rewrite andb_comm.
  destruct (ends_with _ _) eqn:Hends; [|done]. cbn [andb]. f_equal. apply bool_decide_ext.
  pose proof (head_lower e He) as Hh. split; intros Heq.
  - apply (f_equal length) in Heq as Hlen. apply ends_with_true in Hends as [r Hr]. rewrite Hr, length_app in Hlen.
    cbn in Hlen. lia.
  - by rewrite Heq in Hh.
Qed.

Lemma equal_or_below e d :
  domain_ok e -> domain_ok d ->
  is_subdomain_or_equal e d
  = bool_decide (to_ascii_lowercase e = to_ascii_lowercase d) || below (to_ascii_lowercase d) (to_ascii_lowercase e).
Proof.
  intros He Hd. rewrite <-strict_below by done. unfold is_subdomain_or_equal, is_strict_subdomain.
  rewrite !normalize_domain_ok by done. by case_bool_decide.
Qed.

(** Every host below [e] is below [d] only if [e] is [d] or below it. *)
Lemma below_prefix d e :
  below d (lit "a" ++ DOT :: e) = true -> e = d \/ below d e = true \/ head e = Some DOT.
Proof.
  rewrite !below_iff. intros ([|c x] & Hx & He); [done|]. change (lit "a") with [97%N] in He. cbn [app] in He.
  injection He as <- He. destruct x as [|c x]; cbn [app] in He; [injection He as ->; by left|].
  injection He as <- ->. destruct x as [|c x]; [by right; right|]. right. left. by exists (c :: x).
Qed.

(** ** Comparing patterns is comparing their hosts *)

Lemma covers_self d h : covers (Exact d) h = bool_decide (to_ascii_lowercase d = to_ascii_lowercase h).
Proof. done. Qed.

Lemma below_lower_app x d :
  x <> [] -> below (to_ascii_lowercase d) (to_ascii_lowercase (x ++ DOT :: d)) = true.
Proof.
  intros Hx. apply below_iff. exists (to_ascii_lowercase x). rewrite lower_nil, lower_app. done.
Qed.

Lemma lower_a e : to_ascii_lowercase (lit "a" ++ DOT :: e) = lit "a" ++ DOT :: to_ascii_lowercase e.
Proof. by rewrite lower_app. Qed.

Lemma below_a_of_lower d e :
  domain_ok e -> below (to_ascii_lowercase d) (lit "a" ++ DOT :: to_ascii_lowercase e) = true ->
  to_ascii_lowercase e = to_ascii_lowercase d \/ below (to_ascii_lowercase d) (to_ascii_lowercase e) = true.
Proof. intros He [->|[H|H]]%below_prefix; [by left|by right|]. by apply head_lower in He. Qed.

Lemma allows_sound m c h : pattern_ok m -> pattern_ok c -> allows m c = true -> covers c h = true -> covers m h = true.
Proof.
  intros Hm Hc. destruct m as [|d|d|d], c as [|e|e|e]; cbn [allows covers pattern_ok] in *; try done;
    rewrite ?strict_below, ?equal_or_below by done; unfold domain_eq; rewrite ?normalize_domain_ok by done;
    rewrite ?orb_true_iff, ?bool_decide_eq_true; intros Ha Hh.
  - destruct Ha as [<-|Ha]; [done|]. right. destruct Hh as [<-|Hh]; [done|by eapply below_trans].
  - destruct Ha as [<-|Ha]; [by right|]. right. by eapply below_trans.
  - destruct Ha as [<-|Ha]; [by left|]. right. by rewrite <-Hh.
  - destruct Hh as [<-|Hh]; [done|by eapply below_trans].
  - destruct Ha as [<-|Ha]; [done|by eapply below_trans].
  - by rewrite <-Hh.
  - by rewrite <-Ha.
Qed.

(** No pattern of a domain has the empty host. *)
Lemma covers_nil p : pattern_ok p -> covers p [] = true -> p = AnyDomain.
Proof.
  destruct p as [|d|d|d]; cbn; [done|..]; intros [Hd _]; rewrite ?orb_true_iff, ?bool_decide_eq_true, ?lower_nil, ?below_iff;
    intros Hc; exfalso; [destruct Hc as [?|Hc]; [done|]| |done]; destruct Hc as (x & _ & Hx);
    by destruct x.
Qed.

Lemma covers_apex e :
  (forall p, p = Exact e \/ p = ApexAndSubdomains e -> covers p e = true).
Proof. intros p [->| ->]; cbn; by rewrite bool_decide_eq_true_2. Qed.

Lemma covers_sub x e :
  x <> [] -> (forall p, p = SubdomainsOnly e \/ p = ApexAndSubdomains e -> covers p (x ++ DOT :: e) = true).
Proof. intros Hx p [->| ->]; cbn; rewrite below_lower_app by done; by rewrite ?orb_true_r. Qed.

(** Two hosts below [e] of the same length cannot both be the apex [d], or one be it and
    the other be below it. *)
Lemma two_hosts d e :
  d = lit "a" ++ DOT :: e -> d = lit "b" ++ DOT :: e \/ below d (lit "b" ++ DOT :: e) = true -> False.
Proof.
  intros -> [He|(x & Hx & He)%below_iff]; [done|]. apply (f_equal length) in He.
  change (lit "a") with [97%N] in He. change (lit "b") with [98%N] in He. cbn in He. rewrite length_app in He.
  cbn in He. lia.
Qed.

Lemma allows_complete m c :
  pattern_ok m -> pattern_ok c -> (forall h, covers c h = true -> covers m h = true) -> allows m c = true.
Proof.
  intros Hm Hc Hall. destruct (decide (m = AnyDomain)) as [->|Hany]; [done|].
  destruct (decide (c = AnyDomain)) as [->|Hcany]; [by apply covers_nil in Hall|].
  assert (Hapex : forall e, c = Exact e \/ c = ApexAndSubdomains e -> covers m e = true)
    by (intros; by apply Hall, covers_apex).
  assert (Hsub : forall x e, x <> [] -> c = SubdomainsOnly e \/ c = ApexAndSubdomains e -> covers m (x ++ DOT :: e) = true)
    by (intros; by apply Hall, covers_sub).
  clear Hall. destruct m as [|d|d|d], c as [|e|e|e]; cbn [allows pattern_ok] in *; try done;
    rewrite ?strict_below, ?equal_or_below by done; unfold domain_eq; rewrite ?normalize_domain_ok by done;
    rewrite ?orb_true_iff, ?bool_decide_eq_true.
  all: try (specialize (Hapex e ltac:(auto)); cbn [covers] in Hapex; rewrite ?orb_true_iff, ?bool_decide_eq_true in Hapex;
    first [by destruct Hapex; [left|right]|done]).
  all: pose proof (Hsub (lit "a") e ltac:(done) ltac:(auto)) as Ha; pose proof (Hsub (lit "b") e ltac:(done) ltac:(auto)) as Hb;
    cbn [covers] in Ha, Hb; rewrite lower_app, ?orb_true_iff, ?bool_decide_eq_true in Ha, Hb;
    change (to_ascii_lowercase (DOT :: e)) with (DOT :: to_ascii_lowercase e) in Ha, Hb.
  - destruct Ha as [Ha|Ha]; [by destruct (two_hosts _ _ Ha Hb)|by apply below_a_of_lower].
  - by apply below_a_of_lower.
  - destruct (two_hosts _ _ Ha). by left.
  - destruct (two_hosts _ _ Ha). by left.
Qed.

(** The comparison of patterns is exact: a pattern allows another one just when every
    host of the other is one of its own. *)
Theorem allows_iff m c :
  pattern_ok m -> pattern_ok c ->
  (allows m c = true <-> forall h, covers c h = true -> covers m h = true).
Proof.
  intros Hm Hc. split; [intros Ha h; by apply allows_sound|by apply allows_complete].
Qed.

Lemma allows_iff_witness :
  allows (SubdomainsOnly (lit "A.com")) (SubdomainsOnly (lit "b.a.com")) = true /\
  covers (SubdomainsOnly (lit "A.com")) (lit "x.b.a.com") = true.
Proof.
  split; [reflexivity|].
  apply (proj1 (allows_iff (SubdomainsOnly (lit "A.com")) (SubdomainsOnly (lit "b.a.com"))
    ltac:(split; [discriminate|split; discriminate]) ltac:(split; [discriminate|split; discriminate]))); vm_compute; reflexivity.
Defined.
