(* ===== verification/HostRules.v ===== *)
(** * What the compiled rules of the network proxy match

    The laws of the glob library and of the URL parser that the proxy relies on, and what
    they make of the lists of domains: a compiled list matches the hosts of its patterns,
    and an ordinary entry means the same to the compiler and to the check of constraints. *)

From stdpp Require Import gmap sets.
From S2P Require Import Prelude RustStd IpAddr HostPolicy.

(** ** Ordinary names *)

Definition is_ascii_letter (c : char) : bool := bool_decide (65 <= c <= 90)%N || bool_decide (97 <= c <= 122)%N.

(** The characters of host names, among which none is special in a glob. *)
Definition plain_char (c : char) : bool :=
  is_ascii_letter c || is_ascii_digit c || bool_decide (c ∈ [ch "-"; ch "_"; DOT]).

Definition glob_plain (d : str) : Prop := d <> [] /\ Forall (fun c => plain_char c = true) d.
#[export] Instance glob_plain_dec d : Decision (glob_plain d).
Proof. unfold glob_plain. apply _. Defined.

Definition label_ok (l : str) : Prop := l <> [] /\ starts_with (lit "xn--") (to_ascii_lowercase l) = false.

(** A host name of ordinary labels, the last of which starts with a letter: no address,
    no port, nothing encoded. *)
Definition plain_name (d : str) : Prop :=
  Forall (fun c => plain_char c = true) d /\ Forall label_ok (split_on DOT d) /\
  match last (split_on DOT d) with Some (c :: _) => is_ascii_letter c = true | _ => False end.
#[export] Instance plain_name_dec d : Decision (plain_name d).
Proof. unfold plain_name, label_ok. repeat apply and_dec; repeat case_match; apply _. Defined.

(** ** The libraries *)

(** [globset]: a literal matches itself, [?] and [*] some characters, a set any of its
    globs; the case of ASCII letters does not matter. *)
Class GlobLaws `{GlobLib} : Prop := {
  globset_any gs set h : globset_build gs = Some set ->
    globset_is_match set h = existsb (fun g => glob_is_match g h) gs;
  glob_star : exists g, glob_build STAR = Some g /\ forall h, glob_is_match g h = true;
  glob_literal d : glob_plain d ->
    exists g, glob_build d = Some g /\
      forall h, glob_is_match g h = bool_decide (to_ascii_lowercase d = to_ascii_lowercase h);
  glob_below d : glob_plain d ->
    exists g, glob_build (lit "?*." ++ d) = Some g /\
      forall h, glob_is_match g h = below (to_ascii_lowercase d) (to_ascii_lowercase h);
}.

(** [url::Host]: names are put into lower case, and a colon is not part of one. *)
Class UrlLib : Type := url_host_parse : str -> option str.
Class UrlLaws `{UrlLib} : Prop := {
  url_host_plain d : plain_name d -> url_host_parse d = Some (to_ascii_lowercase d);
  url_host_port d port : plain_name d -> url_host_parse (d ++ COLON :: port) = None;
}.

(** ** Compilation *)

Section compile.
Context `{GlobLaws}.

Definition candidate_matches (c h : str) : Prop := exists g, glob_build c = Some g /\ glob_is_match g h = true.

(** The candidates of the patterns. *)
Definition all_candidates (patterns : list str) : list str :=
  patterns ≫= fun p => expand_domain_pattern (normalize_pattern p).

(** The globs of the builder are those of the candidates seen. *)
Definition builder_for (seen : gset str) (builder : list Glob) : Prop :=
  (forall h, (exists g, g ∈ builder /\ glob_is_match g h = true) <-> exists c, c ∈ seen /\ candidate_matches c h).

Lemma add_candidates_ok cs seen builder seen' builder' :
  add_candidates cs seen builder = Ok (seen', builder') -> builder_for seen builder ->
  builder_for seen' builder' /\ seen' = list_to_set cs ∪ seen.
Proof.
  revert seen builder. induction cs as [|c cs IH]; intros seen builder; cbn [add_candidates list_to_set].
  { intros [= <- <-] Hb. split; [done|set_solver]. }
  case_bool_decide as Hc.
  - intros Hadd Hb. destruct (IH _ _ Hadd Hb) as [? ->]. split; [done|set_solver].
  - intros (g & Hg & Hadd)%bind_Ok Hb. destruct (glob_build c) as [g'|] eqn:Hg'; [|done]. injection Hg as ->.
    destruct (IH _ _ Hadd) as [? ->]; [|split; [done|set_solver]].
    intros h. split.
    + intros (g' & [Hin| ->%list_elem_of_singleton]%elem_of_app & Hm); [|exists c; split; [set_solver|by exists g]].
      destruct (proj1 (Hb h)) as (c' & Hin' & Hm'); [by exists g'|]. exists c'. split; [set_solver|done].
    + intros (c' & [->%elem_of_singleton|Hin]%elem_of_union & Hm).
      * destruct Hm as (g' & Hg & Hm). simplify_eq. exists g. split; [|done]. apply elem_of_app. right. left.
      * destruct (proj2 (Hb h)) as (g' & Hin' & Hm'); [by exists c'|]. exists g'. rewrite elem_of_app. auto.
Qed.

Lemma add_patterns_ok ps seen builder seen' builder' :
  add_patterns ps seen builder = Ok (seen', builder') -> builder_for seen builder ->
  builder_for seen' builder' /\ seen' = list_to_set (all_candidates ps) ∪ seen.
Proof.
  revert seen builder. induction ps as [|p ps IH]; intros seen builder; cbn [add_patterns].
  { intros [= <- <-] Hb. split; [done|set_solver]. }
  intros ([seen1 builder1] & Hadd & Hps)%bind_Ok Hb. apply add_candidates_ok in Hadd as [Hb1 ->]; [|done].
  destruct (IH _ _ Hps Hb1) as [? ->]. split; [done|]. unfold all_candidates. cbn. rewrite list_to_set_app_L. set_solver.
Qed.

Lemma compile_matches ps set h :
  compile_globset ps = Ok set ->
  globset_is_match set h = true <-> exists c, c ∈ all_candidates ps /\ candidate_matches c h.
Proof.
  unfold compile_globset. intros ([seen builder] & Hadd & Hset)%bind_Ok.
  apply add_patterns_ok in Hadd as [Hb ->].
  2:{ intros h'. split; [intros (g & Hg & _)|intros (c & Hc & _)]; set_solver. }
  destruct (globset_build builder) as [set'|] eqn:Hs; [|done]. simplify_eq/=.
  rewrite (globset_any _ _ _ Hs), existsb_exists. setoid_rewrite <-list_elem_of_In. rewrite (Hb h).
  setoid_rewrite elem_of_union. setoid_rewrite elem_of_list_to_set. set_solver.
Qed.

(** The pattern of an entry of the configuration, as it is compiled. *)
Definition entry_pattern (e : str) : DomainPattern := DomainPattern_parse (normalize_pattern e).

(** An entry that is compiled to globs the laws speak of. *)
Definition entry_plain (e : str) : Prop :=
  match entry_pattern e with
  | AnyDomain => normalize_pattern e = STAR
  | Exact d | SubdomainsOnly d | ApexAndSubdomains d => glob_plain d
  end.

Lemma entry_matches e h :
  entry_plain e ->
  (exists c, c ∈ expand_domain_pattern (normalize_pattern e) /\ candidate_matches c h) <-> covers (entry_pattern e) h = true.
Proof.
  unfold entry_plain, expand_domain_pattern. fold (entry_pattern e). unfold candidate_matches.
  destruct (entry_pattern e) as [|d|d|d]; cbn [covers]; intros Hp.
  - rewrite Hp. destruct glob_star as (g & Hg & Hm). split; [done|]. intros _. exists STAR. split; [left|]. eauto.
  - destruct (glob_literal d Hp) as (g & Hg & Hm), (glob_below d Hp) as (g' & Hg' & Hm').
    rewrite orb_true_iff, <-Hm, <-Hm'. split.
    + intros (c & [->|Hc]%elem_of_cons & g1 & Hg1 & H1); [left|apply list_elem_of_singleton in Hc as ->; right]; congruence.
    + intros [H1|H1]; eexists; (split; [|eauto]); [left|right; left].
  - destruct (glob_below d Hp) as (g & Hg & Hm). rewrite <-Hm. split.
    + intros (c & ->%list_elem_of_singleton & g1 & Hg1 & H1). congruence.
    + intros H1. eexists. split; [left|]. eauto.
  - destruct (glob_literal d Hp) as (g & Hg & Hm). rewrite <-Hm. split.
    + intros (c & ->%list_elem_of_singleton & g1 & Hg1 & H1). congruence.
    + intros H1. eexists. split; [left|]. eauto.
Qed.

(** A compiled list matches the hosts of its patterns. *)
Lemma compile_covers ps set h :
  Forall entry_plain ps -> compile_globset ps = Ok set ->
  globset_is_match set h = true <-> exists e, e ∈ ps /\ covers (entry_pattern e) h = true.
Proof.
  intros Hps Hset. rewrite (compile_matches ps set h Hset). unfold all_candidates. setoid_rewrite list_elem_of_bind.
  rewrite Forall_forall in Hps. split.
  - intros (c & (e & Hc & He) & Hm). exists e. split; [done|]. apply entry_matches; [auto|]. eauto.
  - intros (e & He & (c & Hc & Hm)%entry_matches); [|auto]. eauto.
Qed.
End compile.

(** ** Ordinary entries *)

Definition plain_text (d : str) : Prop := Forall (fun c => plain_char c = true) d.

Lemma plain_char_range c :
  plain_char c = true -> (48 <= c <= 57 \/ 65 <= c <= 90 \/ 97 <= c <= 122 \/ c = 45 \/ c = 95 \/ c = 46)%N.
Proof.
  unfold plain_char, is_ascii_letter, is_ascii_digit. rewrite !orb_true_iff, !bool_decide_eq_true.
  rewrite !elem_of_cons, elem_of_nil. unfold DOT. cbn. lia.
Qed.

Lemma plain_not_space c : plain_char c = true -> is_whitespace c = false.
Proof.
  intros Hc%plain_char_range. unfold is_whitespace. rewrite !orb_false_iff, !bool_decide_eq_false.
  rewrite !elem_of_cons, !elem_of_nil. lia.
Qed.

Lemma plain_lower_char c : plain_char c = true -> plain_char (to_ascii_lower c) = true.
Proof.
  intros Hc. unfold to_ascii_lower. case_bool_decide as Hu; [|done].
  unfold plain_char, is_ascii_letter. rewrite (bool_decide_eq_true_2 (97 <= c + 32 <= 122)%N) by lia.
  by rewrite orb_true_r.
Qed.

Lemma plain_lower d : plain_text d -> plain_text (to_ascii_lowercase d).
Proof. intros Hd. apply Forall_fmap. eapply Forall_impl; [exact Hd|]. intros c. apply plain_lower_char. Qed.

(** Characters that are in no ordinary name. *)
Lemma plain_lacks c d : plain_text d -> plain_char c = false -> c ∉ d.
Proof. intros Hd Hc Hin. pose proof (proj1 (Forall_forall _ _) Hd c Hin). congruence. Qed.

Lemma trim_no_space s : Forall (fun c => is_whitespace c = false) s -> trim s = s.
Proof.
  intros Hs. unfold trim, trim_start, trim_end. assert (He : drop_while_end is_whitespace s = s).
  { destruct (last s) as [x|] eqn:Hl; [|by apply last_None in Hl as ->]. apply last_Some in Hl as [l ->].
    apply drop_while_end_last. by apply Forall_app in Hs as [_ [? _]%Forall_cons]. }
  rewrite He. destruct Hs as [|x s Hx _]; [done|]. cbn. by rewrite Hx.
Qed.

Lemma trim_plain d : plain_text d -> trim d = d.
Proof. intros Hd. apply trim_no_space. eapply Forall_impl; [exact Hd|]. intros c. apply plain_not_space. Qed.

Lemma count_char_0 c d : c ∉ d -> count_char c d = 0.
Proof.
  intros Hc. unfold count_char. induction d as [|x d IH]; [done|]. apply not_elem_of_cons in Hc as [Hne Hc].
  rewrite filter_cons_False by done. by apply IH.
Qed.

Lemma strip_prefix_head c p d : c ∉ d -> strip_prefix (c :: p) d = None.
Proof. intros Hc. apply strip_prefix_None. intros r ->. apply Hc. left. Qed.

Lemma starts_with_head c p d : c ∉ d -> starts_with (c :: p) d = false.
Proof.
  intros Hc. apply not_true_is_false. intros (r & ->)%starts_with_true. apply Hc. left.
Qed.

Lemma contains_not c d : c ∉ d -> contains [c] d = false.
Proof.
  intros Hc. induction d as [|x d IH]; [done|]. cbn [contains]. rewrite starts_with_head by done.
  apply not_elem_of_cons in Hc as [_ Hc]. by rewrite IH.
Qed.

(** The literals of the code, as the characters they start with. *)
Ltac show_literals :=
  try change (lit "[") with [91%N]; try change (lit "**.") with [42; 42; 46]%N;
  try change (lit "*.") with [42; 46]%N.

Lemma plain_name_ok d : plain_name d -> domain_ok d.
Proof.
  intros (_ & Hl & Hlast). rewrite Forall_forall in Hl. split_and!.
  - intros ->. done.
  - destruct d as [|c d]; [done|]. intros [= ->]. cbn in Hl. destruct (Hl []) as [? _]; [left|done].
  - intros Hd. apply last_Some in Hd as [l ->]. rewrite split_on_sep, last_app in Hlast. done.
Qed.

Lemma domain_ok_lower d : domain_ok d -> domain_ok (to_ascii_lowercase d).
Proof.
  intros Hd. pose proof (head_lower d Hd) as Hh. destruct Hd as (Hne & _ & Hl). split_and!; [by rewrite lower_nil|done|].
  destruct (last d) as [x|] eqn:Hx; [|by apply last_None in Hx]. apply last_Some in Hx as [l ->].
  rewrite lower_app. change (to_ascii_lowercase [x]) with [to_ascii_lower x]. rewrite last_snoc.
  intros [= He]. apply Hl. f_equal. by apply lower_dot.
Qed.

Lemma normalize_plain d : plain_name d -> normalize_host d = to_ascii_lowercase d.
Proof.
  intros Hd. pose proof Hd as (Hp & _). unfold normalize_host. rewrite trim_plain by done.
  show_literals. rewrite starts_with_head by (apply plain_lacks; done). rewrite count_char_0 by (apply plain_lacks; done).
  unfold normalize_dns_host. apply trim_dots_ok. by apply domain_ok_lower, plain_name_ok.
Qed.

(** The entries whose meaning is plain: all hosts, or an ordinary name with its
    wildcard. *)
Inductive plain_entry : str -> DomainPattern -> Prop :=
  | plain_any : plain_entry STAR AnyDomain
  | plain_exact d : plain_name d -> plain_entry d (Exact (to_ascii_lowercase d))
  | plain_sub d : plain_name d -> plain_entry (lit "*." ++ d) (SubdomainsOnly (to_ascii_lowercase d))
  | plain_apex d : plain_name d -> plain_entry (lit "**." ++ d) (ApexAndSubdomains (to_ascii_lowercase d)).

Lemma plain_entry_ok e p : plain_entry e p -> pattern_ok p.
Proof. intros [|d Hd|d Hd|d Hd]; [done|..]; by apply domain_ok_lower, plain_name_ok. Qed.

(** [DomainPattern::parse] of a plain text with a prefix. *)
Lemma parse_plain d : plain_text d -> d <> [] -> DomainPattern_parse d = Exact d.
Proof.
  intros Hp Hne. unfold DomainPattern_parse. rewrite trim_plain by done.
  rewrite (bool_decide_eq_false_2 (d = [])) by done.
  rewrite bool_decide_eq_false_2 by (intros ->; by apply Forall_cons in Hp as [? _]).
  show_literals. by rewrite !strip_prefix_head by (apply plain_lacks; done).
Qed.

Lemma not_star s : s <> [] -> lit "*." ++ s <> STAR /\ lit "**." ++ s <> STAR.
Proof. by destruct s. Qed.

Lemma trim_prefixed p d :
  Forall (fun c => is_whitespace c = false) p -> plain_text d -> trim (p ++ d) = p ++ d.
Proof.
  intros Hp Hd. apply trim_no_space, Forall_app. split; [done|].
  eapply Forall_impl; [exact Hd|]. intros c. apply plain_not_space.
Qed.

Lemma parse_sub d : plain_text d -> d <> [] -> DomainPattern_parse (lit "*." ++ d) = SubdomainsOnly d.
Proof.
  intros Hp Hne. unfold DomainPattern_parse. rewrite trim_prefixed by (done || (repeat constructor)).
  rewrite bool_decide_eq_false_2 by done. rewrite bool_decide_eq_false_2 by (by apply not_star).
  change (strip_prefix (lit "**.") (lit "*." ++ d)) with (@None str). rewrite strip_prefix_app.
  unfold parse_domain. by rewrite trim_plain, bool_decide_eq_false_2.
Qed.

Lemma parse_apex d : plain_text d -> d <> [] -> DomainPattern_parse (lit "**." ++ d) = ApexAndSubdomains d.
Proof.
  intros Hp Hne. unfold DomainPattern_parse. rewrite trim_prefixed by (done || (repeat constructor)).
  rewrite bool_decide_eq_false_2 by done. rewrite bool_decide_eq_false_2 by (by apply not_star).
  rewrite strip_prefix_app. unfold parse_domain. by rewrite trim_plain, bool_decide_eq_false_2.
Qed.

(** An ordinary entry is compiled to its pattern... *)
Lemma plain_entry_compiled e p : plain_entry e p -> entry_pattern e = p /\ entry_plain e.
Proof.
  intros He. assert (Hpat : entry_pattern e = p).
  { destruct He as [|d Hd|d Hd|d Hd]; [done|..]; unfold entry_pattern, normalize_pattern;
      pose proof (domain_ok_lower d (plain_name_ok d Hd)) as (Hne & _ & _); pose proof (plain_lower d (proj1 Hd)) as Hlow;
      assert (Hd0 : d <> []) by (by apply plain_name_ok).
    - rewrite trim_plain by apply Hd. rewrite bool_decide_eq_false_2 by (intros ->; by destruct Hd as [[? _]%Forall_cons _]).
      show_literals. rewrite !strip_prefix_head by (apply plain_lacks; [apply Hd|done]). rewrite normalize_plain by done.
      by apply parse_plain.
    - rewrite trim_prefixed by (apply Hd || (repeat constructor)). rewrite bool_decide_eq_false_2 by (by apply not_star).
      change (strip_prefix (lit "**.") (lit "*." ++ d)) with (@None str). rewrite strip_prefix_app, normalize_plain by done.
      by apply parse_sub.
    - rewrite trim_prefixed by (apply Hd || (repeat constructor)). rewrite bool_decide_eq_false_2 by (by apply not_star).
      rewrite strip_prefix_app, normalize_plain by done. by apply parse_apex. }
  split; [done|]. unfold entry_plain. rewrite Hpat.
  destruct He as [|d Hd|d Hd|d Hd]; [done|..]; (split; [by apply domain_ok_lower, plain_name_ok|apply plain_lower, Hd]).
Qed.

(** ... and read as the same one by the check of constraints. *)
Lemma plain_entry_checked `{UrlLaws} e p : plain_entry e p -> parse_for_constraints url_host_parse e = p.
Proof.
  assert (Hdom : forall d, plain_name d -> parse_domain_for_constraints url_host_parse d = to_ascii_lowercase d).
  { intros d Hd. pose proof (plain_name_ok d Hd) as (Hne & _ & Hl). unfold parse_domain_for_constraints.
    rewrite trim_plain, trim_dots_ok by (done || apply Hd). rewrite bool_decide_eq_false_2 by done.
    show_literals. rewrite starts_with_head by (apply plain_lacks; [apply Hd|done]). cbn [andb].
    unfold STAR. change (lit "*") with [42%N]. change (lit "?") with [63%N]. change (lit "%") with [37%N].
    rewrite !contains_not by (apply plain_lacks; [apply Hd|done]). by rewrite url_host_plain. }
  intros [|d Hd|d Hd|d Hd]; [done|..]; unfold parse_for_constraints; assert (d <> []) by (by apply plain_name_ok).
  - rewrite trim_plain by apply Hd. rewrite bool_decide_eq_false_2 by done.
    rewrite bool_decide_eq_false_2 by (intros ->; by destruct Hd as [[? _]%Forall_cons _]).
    show_literals. rewrite !strip_prefix_head by (apply plain_lacks; [apply Hd|done]). by rewrite Hdom.
  - rewrite trim_prefixed by (apply Hd || (repeat constructor)). rewrite bool_decide_eq_false_2 by done.
    rewrite bool_decide_eq_false_2 by (by apply not_star).
    change (strip_prefix (lit "**.") (lit "*." ++ d)) with (@None str). by rewrite strip_prefix_app, Hdom.
  - rewrite trim_prefixed by (apply Hd || (repeat constructor)). rewrite bool_decide_eq_false_2 by done.
    rewrite bool_decide_eq_false_2 by (by apply not_star). by rewrite strip_prefix_app, Hdom.
Qed.

(** ** Instances of the libraries, for examples *)

Definition simple_glob (p : str) : option DomainPattern :=
  if bool_decide (p = STAR) then Some AnyDomain
  else
    match strip_prefix (lit "?*.") p with
    | Some d => if bool_decide (glob_plain d) then Some (SubdomainsOnly d) else None
    | None => if bool_decide (glob_plain p) then Some (Exact p) else None
    end.

Definition simple_globs : GlobLib := {|
  Glob := DomainPattern;
  GlobSet := list DomainPattern;
  glob_build := simple_glob;
  globset_build := Some;
  glob_is_match := covers;
  globset_is_match := fun set h => existsb (fun g => covers g h) set;
|}.

Lemma simple_globs_laws : @GlobLaws simple_globs.
Proof.
  split; cbn.
  - by intros gs set h [= <-].
  - by exists AnyDomain.
  - intros d Hd. exists (Exact d). split; [|done]. unfold simple_glob.
    rewrite bool_decide_eq_false_2 by (intros ->; by destruct Hd as [_ [? _]%Forall_cons]).
    change (lit "?*.") with [63; 42; 46]%N. rewrite strip_prefix_head by (by eapply plain_lacks; [apply Hd|]).
    by rewrite bool_decide_eq_true_2.
  - intros d Hd. exists (SubdomainsOnly d). split; [|done]. unfold simple_glob. rewrite bool_decide_eq_false_2 by done.
    by rewrite strip_prefix_app, bool_decide_eq_true_2.
Qed.

Definition simple_url : UrlLib := fun s => if bool_decide (plain_name s) then Some (to_ascii_lowercase s) else None.

Lemma simple_url_laws : @UrlLaws simple_url.
Proof.
  split; unfold url_host_parse, simple_url; intros d; [by intros ?; rewrite bool_decide_eq_true_2|].
  intros port Hd. rewrite bool_decide_eq_false_2; [done|]. intros [Hp _].
  apply Forall_app in Hp as [_ [Hc _]%Forall_cons]. done.
Qed.
