(* ===== verification/ProxyConfig.v ===== *)
(** * Configuration of the network proxy (network-proxy/src/config.rs, state.rs;
      core/src/network_proxy_loader.rs, config/permissions.rs, config/network_proxy_spec.rs)

    The settings of the proxy, the addresses it listens on, the constraints that managed
    configuration puts on the settings, and the layers both are read from. *)

From stdpp Require Import gmap sets.
From S2P Require Import Prelude RustStd IpAddr HostPolicy HostRules.

(** ** Settings *)

Inductive NetworkMode : Type := Limited | Full.
#[export] Instance NetworkMode_eq_dec : EqDecision NetworkMode.
Proof. solve_decision. Defined.

Definition allows_method (self : NetworkMode) (method : str) : bool :=
  match self with
  | Full => true
  | Limited => bool_decide (method ∈ [lit "GET"; lit "HEAD"; lit "OPTIONS"])
  end.

Record NetworkProxySettings : Type := mk_settings {
  enabled : bool;
  proxy_url : str;
  admin_url : str;
  enable_socks5 : bool;
  socks_url : str;
  enable_socks5_udp : bool;
  allow_upstream_proxy : bool;
  dangerously_allow_non_loopback_proxy : bool;
  dangerously_allow_non_loopback_admin : bool;
  mode : NetworkMode;
  allowed_domains : list str;
  denied_domains : list str;
  allow_unix_sockets : list str;
  allow_local_binding : bool;
}.

Definition default_proxy_url : str := lit "http://127.0.0.1:3128".
Definition default_admin_url : str := lit "http://127.0.0.1:8080".
Definition default_socks_url : str := lit "http://127.0.0.1:8081".

Definition default_settings : NetworkProxySettings :=
  mk_settings false default_proxy_url default_admin_url true default_socks_url true true false false Full [] [] [] true.

(** ** Listening addresses *)

Record SocketAddr : Type := mk_addr { addr_ip : IpAddr; addr_port : N }.

Definition loopback_at (port : N) : SocketAddr := mk_addr (V4 (mk_ipv4 127 0 0 1)) port.

Definition clamp_non_loopback (addr : SocketAddr) (allow_non_loopback : bool) : SocketAddr :=
  if ip_is_loopback (addr_ip addr) then addr
  else if allow_non_loopback then addr
  else loopback_at (addr_port addr).

Definition clamp_bind_addrs (http_addr socks_addr admin_addr : SocketAddr) (cfg : NetworkProxySettings)
    : SocketAddr * SocketAddr * SocketAddr :=
  let http_addr := clamp_non_loopback http_addr (dangerously_allow_non_loopback_proxy cfg) in
  let socks_addr := clamp_non_loopback socks_addr (dangerously_allow_non_loopback_proxy cfg) in
  let admin_addr := clamp_non_loopback admin_addr (dangerously_allow_non_loopback_admin cfg) in
  if bool_decide (allow_unix_sockets cfg = []) then (http_addr, socks_addr, admin_addr)
  else (loopback_at (addr_port http_addr), loopback_at (addr_port socks_addr), loopback_at (addr_port admin_addr)).

(** [str::parse::<u16>]: decimal digits, after a plus sign at most. *)
Fixpoint parse_decimal (acc : N) (s : str) : option N :=
  match s with
  | [] => Some acc
  | c :: s =>
      if is_ascii_digit c then
        let acc := (acc * 10 + (c - 48))%N in
        if (65535 <? acc)%N then None else parse_decimal acc s
      else None
  end.
Definition parse_u16 (s : str) : option N :=
  let digits := default s (strip_prefix (lit "+") s) in
  if bool_decide (digits = []) then None else parse_decimal 0 digits.

(** [split_once] for a string. *)
Fixpoint split_once_str (p s : str) : option (str * str) :=
  match strip_prefix p s with
  | Some rest => Some ([], rest)
  | None => match s with [] => None | x :: s => '(a, b) ← split_once_str p s; Some (x :: a, b) end
  end.

Record SocketAddressParts : Type := mk_parts { parts_host : str; parts_port : N }.

Definition missing_host (url : str) : str := lit "missing host in network proxy address: " ++ url.

Definition parse_host_port_fallback (input : str) (default_port : N) : outcome str SocketAddressParts :=
  let without_scheme := match split_once_str (lit "://") input with Some (_, rest) => rest | None => input end in
  let host_port := default without_scheme (head (split_on (ch "/") without_scheme)) in
  let host_port := match rsplit_once (lit "@") host_port with Some (_, rest) => rest | None => host_port end in
  let bracketed :=
    if starts_with (lit "[") host_port then split_once (ch "]") host_port else None in
  match bracketed with
  | Some (before, after) =>
      let host := drop 1 before in
      let port := default default_port (strip_prefix (lit ":") after ≫= parse_u16) in
      if bool_decide (host = []) then Err (missing_host input) else Ok (mk_parts host port)
  | None =>
      match (if count_char COLON host_port =? 1 then rsplit_once (lit ":") host_port else None) with
      | Some (host, port) =>
          if bool_decide (host = []) then Err (missing_host input)
          else Ok (mk_parts host (default default_port (parse_u16 port)))
      | None =>
          if bool_decide (host_port = []) then Err (missing_host input) else Ok (mk_parts host_port default_port)
      end
  end.

Section addresses.
(** [Url::parse], with [host_str] and [port] of the URL. *)
Variable url_parse : str -> option (option str * option N).

Definition is_v6_literal (s : str) : bool := match parse_ip s with Some (V6 _) => true | _ => false end.

Definition parse_host_port (url : str) (default_port : N) : outcome str SocketAddressParts :=
  let trimmed := trim url in
  if bool_decide (trimmed = []) then Err (missing_host url)
  else if is_v6_literal trimmed && negb (starts_with (lit "[") trimmed) then Ok (mk_parts trimmed default_port)
  else
    let candidate := if contains (lit "://") trimmed then trimmed else lit "http://" ++ trimmed in
    match url_parse candidate with
    | Some (Some host, port) =>
        let host := trim_matches (fun c => bool_decide (c ∈ [ch "["; ch "]"])) host in
        if bool_decide (host = []) then Err (missing_host url) else Ok (mk_parts host (default default_port port))
    | _ => parse_host_port_fallback trimmed default_port
    end.

Definition resolve_addr (url : str) (default_port : N) : outcome str SocketAddr :=
  addr_parts ← parse_host_port url default_port;
  let host :=
    if eq_ignore_ascii_case (parts_host addr_parts) (lit "localhost") then lit "127.0.0.1" else parts_host addr_parts in
  match parse_ip host with
  | Some ip => Ok (mk_addr ip (parts_port addr_parts))
  | None => Ok (loopback_at (parts_port addr_parts))
  end.

Definition resolve_runtime (cfg : NetworkProxySettings) : outcome str (SocketAddr * SocketAddr * SocketAddr) :=
  http_addr ← map_err (fun _ => lit "invalid network.proxy_url: " ++ proxy_url cfg) (resolve_addr (proxy_url cfg) 3128);
  socks_addr ← map_err (fun _ => lit "invalid network.socks_url: " ++ socks_url cfg) (resolve_addr (socks_url cfg) 8081);
  admin_addr ← map_err (fun _ => lit "invalid network.admin_url: " ++ admin_url cfg) (resolve_addr (admin_url cfg) 8080);
  Ok (clamp_bind_addrs http_addr socks_addr admin_addr cfg).
End addresses.

(** ** Constraints of managed configuration *)

Record NetworkProxyConstraints : Type := mk_constraints {
  c_enabled : option bool;
  c_mode : option NetworkMode;
  c_allow_upstream_proxy : option bool;
  c_dangerously_allow_non_loopback_proxy : option bool;
  c_dangerously_allow_non_loopback_admin : option bool;
  c_allowed_domains : option (list str);
  c_denied_domains : option (list str);
  c_allow_unix_sockets : option (list str);
  c_allow_local_binding : option bool;
}.
#[export] Instance NetworkProxyConstraints_eq_dec : EqDecision NetworkProxyConstraints.
Proof. solve_decision. Defined.

Definition no_constraints : NetworkProxyConstraints := mk_constraints None None None None None None None None None.

Inductive NetworkProxyConstraintError : Type := InvalidValue (field_name candidate allowed : str).

Definition network_mode_rank (mode : NetworkMode) : nat := match mode with Limited => 0 | Full => 1 end.

Definition show_mode (mode : NetworkMode) : str := match mode with Limited => lit "Limited" | Full => lit "Full" end.

(** The Rust formatting of a list of strings for debugging, and the order in which a hash
    set is read. *)
Class DebugStrs : Type := debug_strs : list str -> str.
Class SetOrder : Type := iter_set : gset str -> list str.
Class SetOrderOk `{SetOrder} : Prop := iter_set_perm s : iter_set s ≡ₚ elements s.

Section validate.
Context `{UrlLib, DebugStrs, SetOrder}.

Definition disabled_by_managed : str := lit "false (disabled by managed config)".

(** A switch that managed configuration may force off. *)
Definition validate_switch (field : str) (allowed : option bool) (candidate : bool) : outcome NetworkProxyConstraintError () :=
  match allowed with
  | Some true | None => Ok ()
  | Some false => if candidate then Err (InvalidValue field (lit "true") disabled_by_managed) else Ok ()
  end.

Definition lower_set (l : list str) : gset str := list_to_set (to_ascii_lowercase <$> l).

Definition allowed_by (managed : list DomainPattern) (entry : str) : bool :=
  existsb (fun m => allows m (parse_for_constraints url_host_parse entry)) managed.

Definition validate_allowed_domains (managed candidate : list str) : outcome NetworkProxyConstraintError () :=
  let managed_patterns := parse_for_constraints url_host_parse <$> managed in
  let invalid := filter (fun entry => allowed_by managed_patterns entry = false) candidate in
  if bool_decide (invalid = []) then Ok ()
  else Err (InvalidValue (lit "network.allowed_domains") (debug_strs invalid) (lit "subset of managed allowed_domains")).

Definition validate_denied_domains (managed candidate : list str) : outcome NetworkProxyConstraintError () :=
  let candidate_set := lower_set candidate in
  let missing := filter (fun entry => entry ∉ candidate_set) (iter_set (lower_set managed)) in
  if bool_decide (missing = []) then Ok ()
  else Err (InvalidValue (lit "network.denied_domains") (lit "missing managed denied_domains entries") (debug_strs missing)).

Definition validate_unix_sockets (managed candidate : list str) : outcome NetworkProxyConstraintError () :=
  let allowed_set := lower_set managed in
  let invalid := filter (fun entry => to_ascii_lowercase entry ∉ allowed_set) candidate in
  if bool_decide (invalid = []) then Ok ()
  else Err (InvalidValue (lit "network.allow_unix_sockets") (debug_strs invalid) (lit "subset of managed allow_unix_sockets")).

Definition validate_mode (max_mode candidate : NetworkMode) : outcome NetworkProxyConstraintError () :=
  if network_mode_rank max_mode <? network_mode_rank candidate then
    Err (InvalidValue (lit "network.mode") (show_mode candidate) (show_mode max_mode ++ lit " or more restrictive"))
  else Ok ().

Definition when {A} (o : option A) (f : A -> outcome NetworkProxyConstraintError ()) : outcome NetworkProxyConstraintError () :=
  match o with Some a => f a | None => Ok () end.

Definition validate_policy_against_constraints (config : NetworkProxySettings) (constraints : NetworkProxyConstraints)
    : outcome NetworkProxyConstraintError () :=
  _ ← validate_switch (lit "network.enabled") (c_enabled constraints) (enabled config);
  _ ← when (c_mode constraints) (fun max_mode => validate_mode max_mode (mode config));
  _ ← validate_switch (lit "network.allow_upstream_proxy") (c_allow_upstream_proxy constraints) (allow_upstream_proxy config);
  _ ← validate_switch (lit "network.dangerously_allow_non_loopback_admin")
        (c_dangerously_allow_non_loopback_admin constraints) (dangerously_allow_non_loopback_admin config);
  _ ← validate_switch (lit "network.dangerously_allow_non_loopback_proxy")
        (c_dangerously_allow_non_loopback_proxy constraints) (dangerously_allow_non_loopback_proxy config);
  _ ← validate_switch (lit "network.allow_local_binding") (c_allow_local_binding constraints) (allow_local_binding config);
  _ ← when (c_allowed_domains constraints) (fun managed => validate_allowed_domains managed (allowed_domains config));
  _ ← when (c_denied_domains constraints) (fun managed => validate_denied_domains managed (denied_domains config));
  when (c_allow_unix_sockets constraints) (fun managed => validate_unix_sockets managed (allow_unix_sockets config)).

(** *** Requirements (config/network_proxy_spec.rs) *)

Record NetworkConstraints : Type := mk_requirements {
  q_enabled : option bool;
  q_http_port : option nat;
  q_socks_port : option nat;
  q_allow_upstream_proxy : option bool;
  q_dangerously_allow_non_loopback_proxy : option bool;
  q_dangerously_allow_non_loopback_admin : option bool;
  q_allowed_domains : option (list str);
  q_denied_domains : option (list str);
  q_allow_unix_sockets : option (list str);
  q_allow_local_binding : option bool;
}.

Definition loopback_url (port : nat) : str := lit "http://127.0.0.1:" ++ show_usize port.

Definition apply_requirements (config : NetworkProxySettings) (r : NetworkConstraints)
    : NetworkProxySettings * NetworkProxyConstraints :=
  (mk_settings
     (default (enabled config) (q_enabled r))
     (default (proxy_url config) (loopback_url <$> q_http_port r))
     (admin_url config)
     (enable_socks5 config)
     (default (socks_url config) (loopback_url <$> q_socks_port r))
     (enable_socks5_udp config)
     (default (allow_upstream_proxy config) (q_allow_upstream_proxy r))
     (default (dangerously_allow_non_loopback_proxy config) (q_dangerously_allow_non_loopback_proxy r))
     (default (dangerously_allow_non_loopback_admin config) (q_dangerously_allow_non_loopback_admin r))
     (mode config)
     (default (allowed_domains config) (q_allowed_domains r))
     (default (denied_domains config) (q_denied_domains r))
     (default (allow_unix_sockets config) (q_allow_unix_sockets r))
     (default (allow_local_binding config) (q_allow_local_binding r)),
   mk_constraints (q_enabled r) None (q_allow_upstream_proxy r) (q_dangerously_allow_non_loopback_proxy r)
     (q_dangerously_allow_non_loopback_admin r) (q_allowed_domains r) (q_denied_domains r)
     (q_allow_unix_sockets r) (q_allow_local_binding r)).

(** [NetworkProxySpec], without the message around the error. *)
Record NetworkProxySpec : Type := mk_proxy_spec { spec_config : NetworkProxySettings; spec_constraints : NetworkProxyConstraints }.

Definition from_config_and_constraints (config : NetworkProxySettings) (requirements : option NetworkConstraints)
    : outcome NetworkProxyConstraintError NetworkProxySpec :=
  let '(config, constraints) :=
    match requirements with
    | Some requirements => apply_requirements config requirements
    | None => (config, no_constraints)
    end in
  _ ← validate_policy_against_constraints config constraints;
  Ok (mk_proxy_spec config constraints).

(** *** Layers (config/permissions.rs, network_proxy_loader.rs) *)

Record NetworkToml : Type := mk_toml {
  t_enabled : option bool;
  t_proxy_url : option str;
  t_admin_url : option str;
  t_enable_socks5 : option bool;
  t_socks_url : option str;
  t_enable_socks5_udp : option bool;
  t_allow_upstream_proxy : option bool;
  t_dangerously_allow_non_loopback_proxy : option bool;
  t_dangerously_allow_non_loopback_admin : option bool;
  t_mode : option NetworkMode;
  t_allowed_domains : option (list str);
  t_denied_domains : option (list str);
  t_allow_unix_sockets : option (list str);
  t_allow_local_binding : option bool;
}.

Definition apply_to_network_proxy_config (t : NetworkToml) (config : NetworkProxySettings) : NetworkProxySettings :=
  mk_settings
    (default (enabled config) (t_enabled t))
    (default (proxy_url config) (t_proxy_url t))
    (default (admin_url config) (t_admin_url t))
    (default (enable_socks5 config) (t_enable_socks5 t))
    (default (socks_url config) (t_socks_url t))
    (default (enable_socks5_udp config) (t_enable_socks5_udp t))
    (default (allow_upstream_proxy config) (t_allow_upstream_proxy t))
    (default (dangerously_allow_non_loopback_proxy config) (t_dangerously_allow_non_loopback_proxy t))
    (default (dangerously_allow_non_loopback_admin config) (t_dangerously_allow_non_loopback_admin t))
    (default (mode config) (t_mode t))
    (default (allowed_domains config) (t_allowed_domains t))
    (default (denied_domains config) (t_denied_domains t))
    (default (allow_unix_sockets config) (t_allow_unix_sockets t))
    (default (allow_local_binding config) (t_allow_local_binding t)).

(** [o.or(constraint)]: what a layer sets replaces what was set before. *)
Definition set_by {A} (o prev : option A) : option A := match o with Some a => Some a | None => prev end.

Definition apply_network_constraints (t : NetworkToml) (c : NetworkProxyConstraints) : NetworkProxyConstraints :=
  mk_constraints (set_by (t_enabled t) (c_enabled c)) (set_by (t_mode t) (c_mode c))
    (set_by (t_allow_upstream_proxy t) (c_allow_upstream_proxy c))
    (set_by (t_dangerously_allow_non_loopback_proxy t) (c_dangerously_allow_non_loopback_proxy c))
    (set_by (t_dangerously_allow_non_loopback_admin t) (c_dangerously_allow_non_loopback_admin c))
    (set_by (t_allowed_domains t) (c_allowed_domains c)) (set_by (t_denied_domains t) (c_denied_domains c))
    (set_by (t_allow_unix_sockets t) (c_allow_unix_sockets c))
    (set_by (t_allow_local_binding t) (c_allow_local_binding c)).

Inductive ConfigLayerSource : Type :=
  | Mdm (domain key : str)
  | System (file : str)
  | User (file : str)
  | Project (dot_codex_folder : str)
  | SessionFlags
  | LegacyManagedConfigTomlFromFile (file : str)
  | LegacyManagedConfigTomlFromMdm.

Definition is_user_controlled_layer (layer : ConfigLayerSource) : bool :=
  match layer with User _ | Project _ | SessionFlags => true | _ => false end.

(** The tables of a layer: [network] and [permissions.network]. *)
Record NetworkTablesToml : Type := mk_tables { tables_network : option NetworkToml; tables_permissions : option NetworkToml }.

Section layers.
(** The deserialisation of a layer's TOML. *)
Variable toml : Type.
Variable network_tables_from_toml : toml -> outcome str NetworkTablesToml.

(** The layers of the stack, without disabled ones, lowest precedence first. *)
Record ConfigLayerEntry : Type := mk_layer { layer_name : ConfigLayerSource; layer_config : toml }.

Definition tables_list (parsed : NetworkTablesToml) : list NetworkToml :=
  option_list (tables_network parsed) ++ option_list (tables_permissions parsed).

Definition apply_network_tables (config : NetworkProxySettings) (parsed : NetworkTablesToml) : NetworkProxySettings :=
  foldl (fun config t => apply_to_network_proxy_config t config) config (tables_list parsed).

Fixpoint config_loop (layers : list ConfigLayerEntry) (config : NetworkProxySettings) : outcome str NetworkProxySettings :=
  match layers with
  | [] => Ok config
  | layer :: layers =>
      parsed ← network_tables_from_toml (layer_config layer);
      config_loop layers (apply_network_tables config parsed)
  end.
Definition config_from_layers (layers : list ConfigLayerEntry) : outcome str NetworkProxySettings :=
  config_loop layers default_settings.

Fixpoint constraints_loop (layers : list ConfigLayerEntry) (c : NetworkProxyConstraints) : outcome str NetworkProxyConstraints :=
  match layers with
  | [] => Ok c
  | layer :: layers =>
      if is_user_controlled_layer (layer_name layer) then constraints_loop layers c
      else
        parsed ← network_tables_from_toml (layer_config layer);
        constraints_loop layers (foldl (fun c t => apply_network_constraints t c) c (tables_list parsed))
  end.
Definition network_constraints_from_trusted_layers (layers : list ConfigLayerEntry) : outcome str NetworkProxyConstraints :=
  constraints_loop layers no_constraints.

Definition constraint_message (e : NetworkProxyConstraintError) : str :=
  let '(InvalidValue field_name candidate allowed) := e in
  lit "invalid value for " ++ field_name ++ lit ": " ++ candidate ++ lit " (allowed " ++ allowed ++ lit ")".

Definition enforce_trusted_constraints (layers : list ConfigLayerEntry) (config : NetworkProxySettings)
    : outcome str NetworkProxyConstraints :=
  constraints ← network_constraints_from_trusted_layers layers;
  _ ← map_err constraint_message (validate_policy_against_constraints config constraints);
  Ok constraints.

(** The part of [build_config_state_with_mtimes] after the layers are loaded. *)
Definition config_and_constraints (layers : list ConfigLayerEntry) : outcome str (NetworkProxySettings * NetworkProxyConstraints) :=
  config ← config_from_layers layers;
  constraints ← enforce_trusted_constraints layers config;
  Ok (config, constraints).
End layers.
End validate.

(** ** What the constraints say *)

Section rules.
Context `{UrlLib, DebugStrs, SetOrderOk}.

(** A setting that is at most what managed configuration gives. *)
Definition switch_within (allowed : option bool) (b : bool) : Prop := allowed = Some false -> b = false.

Record within_constraints (config : NetworkProxySettings) (c : NetworkProxyConstraints) : Prop := {
  w_enabled : switch_within (c_enabled c) (enabled config);
  w_mode : c_mode c = Some Limited -> mode config = Limited;
  w_upstream : switch_within (c_allow_upstream_proxy c) (allow_upstream_proxy config);
  w_admin : switch_within (c_dangerously_allow_non_loopback_admin c) (dangerously_allow_non_loopback_admin config);
  w_proxy : switch_within (c_dangerously_allow_non_loopback_proxy c) (dangerously_allow_non_loopback_proxy config);
  w_local : switch_within (c_allow_local_binding c) (allow_local_binding config);
  w_allowed managed : c_allowed_domains c = Some managed -> forall e, e ∈ allowed_domains config ->
    exists m, m ∈ managed /\
      allows (parse_for_constraints url_host_parse m) (parse_for_constraints url_host_parse e) = true;
  w_denied managed : c_denied_domains c = Some managed ->
    forall e, e ∈ managed -> exists e', e' ∈ denied_domains config /\ eq_ignore_ascii_case e e' = true;
  w_sockets managed : c_allow_unix_sockets c = Some managed ->
    forall e, e ∈ allow_unix_sockets config -> exists e', e' ∈ managed /\ eq_ignore_ascii_case e e' = true;
}.

Lemma bind_unit_ok {E} (m : outcome E ()) (k : outcome E ()) : (_ ← m; k) = Ok () <-> m = Ok () /\ k = Ok ().
Proof. rewrite bind_Ok. split; [intros ([] & ? & ?); done|intros [? ?]; by exists ()]. Qed.

Lemma validate_switch_ok field o b : validate_switch field o b = Ok () <-> switch_within o b.
Proof. unfold validate_switch, switch_within. destruct o as [[]|], b; naive_solver. Qed.

Lemma when_ok {A} (o : option A) f : when o f = Ok () <-> forall a, o = Some a -> f a = Ok ().
Proof. destruct o; cbn; naive_solver. Qed.

Lemma validate_mode_ok max m : validate_mode max m = Ok () <-> (max = Limited -> m = Limited).
Proof. destruct max, m; cbn; naive_solver. Qed.

Lemma filter_nil {A} (P : A -> Prop) `{!forall x, Decision (P x)} l : filter P l = [] <-> forall x, x ∈ l -> ~ P x.
Proof.
  split.
  - intros Hf x Hx HP. assert (Hin : x ∈ filter P l) by (by apply list_elem_of_filter). rewrite Hf in Hin. by apply not_elem_of_nil in Hin.
  - intros Hall. destruct (filter P l) as [|x l'] eqn:Hf; [done|]. exfalso.
    assert (Hin : x ∈ filter P l) by (rewrite Hf; left). apply list_elem_of_filter in Hin as [HP Hin]. by eapply Hall.
Qed.

Lemma validate_allowed_ok managed candidate :
  validate_allowed_domains managed candidate = Ok () <->
  forall e, e ∈ candidate -> exists m, m ∈ managed /\
    allows (parse_for_constraints url_host_parse m) (parse_for_constraints url_host_parse e) = true.
Proof.
  unfold validate_allowed_domains. transitivity (forall e, e ∈ candidate -> allowed_by (parse_for_constraints url_host_parse <$> managed) e <> false).
  { case_bool_decide as Hf; [by rewrite filter_nil in Hf|]. split; [done|]. intros Hall. by rewrite <-filter_nil in Hall. }
  apply forall_proper. intros e. unfold allowed_by. rewrite not_false_iff_true, existsb_exists. setoid_rewrite <-list_elem_of_In.
  setoid_rewrite list_elem_of_fmap. naive_solver.
Qed.

Lemma elem_of_lower_set s l : s ∈ lower_set l <-> exists e, e ∈ l /\ s = to_ascii_lowercase e.
Proof. unfold lower_set. rewrite elem_of_list_to_set, list_elem_of_fmap. naive_solver. Qed.

Lemma eq_ignore_case_iff a b : eq_ignore_ascii_case a b = true <-> to_ascii_lowercase a = to_ascii_lowercase b.
Proof. unfold eq_ignore_ascii_case. by rewrite bool_decide_eq_true. Qed.

Lemma validate_denied_ok managed candidate :
  validate_denied_domains managed candidate = Ok () <->
  forall e, e ∈ managed -> exists e', e' ∈ candidate /\ eq_ignore_ascii_case e e' = true.
Proof.
  unfold validate_denied_domains.
  transitivity (forall s, s ∈ iter_set (lower_set managed) -> ~ (s ∉ lower_set candidate)).
  { case_bool_decide as Hf; [by rewrite filter_nil in Hf|]. split; [done|]. intros Hall. by rewrite <-filter_nil in Hall. }
  setoid_rewrite iter_set_perm. setoid_rewrite elem_of_elements. setoid_rewrite eq_ignore_case_iff. split.
  - intros Hall e He. destruct (decide (to_ascii_lowercase e ∈ lower_set candidate)) as [(e' & ? & ?)%elem_of_lower_set|Hn]; [eauto|].
    exfalso. apply (Hall (to_ascii_lowercase e)); [|done]. apply elem_of_lower_set. eauto.
  - intros Hall s (e & He & ->)%elem_of_lower_set Hn. destruct (Hall e He) as (e' & He' & Heq). apply Hn, elem_of_lower_set. eauto.
Qed.

Lemma validate_sockets_ok managed candidate :
  validate_unix_sockets managed candidate = Ok () <->
  forall e, e ∈ candidate -> exists e', e' ∈ managed /\ eq_ignore_ascii_case e e' = true.
Proof.
  unfold validate_unix_sockets.
  transitivity (forall e, e ∈ candidate -> ~ (to_ascii_lowercase e ∉ lower_set managed)).
  { case_bool_decide as Hf; [by rewrite filter_nil in Hf|]. split; [done|]. intros Hall. by rewrite <-filter_nil in Hall. }
  apply forall_proper. intros e. setoid_rewrite eq_ignore_case_iff. split.
  - intros Hn He. specialize (Hn He). destruct (decide (to_ascii_lowercase e ∈ lower_set managed)) as [(e' & ? & ?)%elem_of_lower_set|]; [eauto|done].
  - intros Hex He Hn. destruct (Hex He) as (e' & He' & Heq). apply Hn, elem_of_lower_set. eauto.
Qed.

Lemma validate_iff config c : validate_policy_against_constraints config c = Ok () <-> within_constraints config c.
Proof.
  unfold validate_policy_against_constraints. rewrite !bind_unit_ok, !validate_switch_ok, !when_ok.
  setoid_rewrite validate_mode_ok. setoid_rewrite validate_allowed_ok. setoid_rewrite validate_denied_ok.
  setoid_rewrite validate_sockets_ok. split.
  - intros (V1 & V2 & V3 & V4 & V5 & V6 & V7 & V8 & V9). split; try done. intros Hm. by apply (V2 _ Hm).
  - intros [V1 V2 V3 V4 V5 V6 V7 V8 V9]. split_and!; try done. intros m Hm ->. by apply V2.
Qed.

Lemma validate_returns config c : returns (validate_policy_against_constraints config c).
Proof.
  assert (Hs : forall field o b, returns (validate_switch field o b)) by (by intros field [[]|] []).
  assert (Hw : forall A (o : option A) f, (forall a, returns (f a)) -> returns (when o f)) by (intros A [a|] f Hf; [apply Hf|exact I]).
  unfold validate_policy_against_constraints.
  repeat (apply bind_returns; [first [apply Hs|apply Hw; intros a]|intros _ _]); [| | |apply Hw; intros a];
    unfold validate_mode, validate_allowed_domains, validate_denied_domains, validate_unix_sockets; cbv zeta;
    match goal with |- returns (if ?b then _ else _) => by destruct b end.
Qed.

(** The check of the settings passes exactly when every setting is within what managed
    configuration allows; otherwise it is an error, never a panic. *)
Theorem validate_policy_spec config c :
  (within_constraints config c /\ validate_policy_against_constraints config c = Ok ()) \/
  (~ within_constraints config c /\ exists e, validate_policy_against_constraints config c = Err e).
Proof.
  pose proof (validate_iff config c) as Hiff. pose proof (validate_returns config c) as Hr.
  destruct (validate_policy_against_constraints config c) as [[]|e| |]; [left; tauto| |done..].
  right. split; [naive_solver|eauto].
Qed.

(** ** Settings that are the constraints themselves *)

(** Where a constraint is set, the setting is the constraint. *)
Record agrees (config : NetworkProxySettings) (c : NetworkProxyConstraints) : Prop := {
  a_enabled b : c_enabled c = Some b -> enabled config = b;
  a_mode m : c_mode c = Some m -> mode config = m;
  a_upstream b : c_allow_upstream_proxy c = Some b -> allow_upstream_proxy config = b;
  a_proxy b : c_dangerously_allow_non_loopback_proxy c = Some b -> dangerously_allow_non_loopback_proxy config = b;
  a_admin b : c_dangerously_allow_non_loopback_admin c = Some b -> dangerously_allow_non_loopback_admin config = b;
  a_allowed l : c_allowed_domains c = Some l -> allowed_domains config = l;
  a_denied l : c_denied_domains c = Some l -> denied_domains config = l;
  a_sockets l : c_allow_unix_sockets c = Some l -> allow_unix_sockets config = l;
  a_local b : c_allow_local_binding c = Some b -> allow_local_binding config = b;
}.

Lemma allows_refl p : allows p p = true.
Proof.
  destruct p as [|d|d|d]; cbn; [done|..]; unfold is_subdomain_or_equal, domain_eq; by rewrite bool_decide_eq_true_2.
Qed.

Lemma eq_ignore_case_refl s : eq_ignore_ascii_case s s = true.
Proof. by apply eq_ignore_case_iff. Qed.

Lemma agrees_within config c : agrees config c -> within_constraints config c.
Proof.
  intros [A1 A2 A3 A4 A5 A6 A7 A8 A9]. split; unfold switch_within; try by auto.
  - intros managed Hm e He. rewrite (A6 _ Hm) in He. exists e. split; [done|apply allows_refl].
  - intros managed Hm e He. rewrite (A7 _ Hm). exists e. split; [done|apply eq_ignore_case_refl].
  - intros managed Hm e He. rewrite (A8 _ Hm) in He. exists e. split; [done|apply eq_ignore_case_refl].
Qed.

Lemma requirements_agree config r : agrees (apply_requirements config r).1 (apply_requirements config r).2.
Proof. split; cbn; first [done|by intros ? ->]. Qed.

Lemma no_constraints_agree config : agrees config no_constraints.
Proof. by split. Qed.

(** Requirements replace the settings they name, so that building the specification of
    the proxy from them never fails, and leaves the settings within them. *)
Theorem requirements_always_valid config requirements :
  exists spec, from_config_and_constraints config requirements = Ok spec /\
    within_constraints (spec_config spec) (spec_constraints spec).
Proof.
  unfold from_config_and_constraints. destruct requirements as [r|].
  - pose proof (agrees_within _ _ (requirements_agree config r)) as Hw.
    destruct (apply_requirements config r) as [config' c]. cbn [fst snd] in Hw. rewrite (proj2 (validate_iff _ _) Hw). by eexists.
  - pose proof (agrees_within _ _ (no_constraints_agree config)) as Hw.
    rewrite (proj2 (validate_iff _ _) Hw). by eexists.
Qed.

(** ** Layers *)

Section layers.
Context (toml : Type) (network_tables_from_toml : toml -> outcome str NetworkTablesToml).

#[local] Abbreviation constraints_of := (constraints_loop toml network_tables_from_toml) (only parsing).

(** The layers of administrators: managed preferences and the files of the system. *)
Definition administered (src : ConfigLayerSource) : bool :=
  match src with
  | Mdm _ _ | System _ | LegacyManagedConfigTomlFromFile _ | LegacyManagedConfigTomlFromMdm => true
  | User _ | Project _ | SessionFlags => false
  end.
Definition trusted (layer : ConfigLayerEntry toml) : Prop := administered (layer_name _ layer) = true.
#[local] Instance trusted_dec layer : Decision (trusted layer).
Proof. unfold trusted. apply _. Defined.

Lemma user_controlled_iff src : is_user_controlled_layer src = negb (administered src).
Proof. by destruct src. Qed.

(** Layers the user controls do not take part. *)
Lemma constraints_trusted layers c : constraints_of layers c = constraints_of (filter trusted layers) c.
Proof.
  revert c. induction layers as [|layer layers IH]; intros c; [done|]. cbn [constraints_loop]. rewrite filter_cons.
  destruct (decide (trusted layer)) as [Ht|Ht]; unfold trusted in Ht.
  - cbn [constraints_loop]. rewrite user_controlled_iff, Ht. cbn [negb].
    destruct (network_tables_from_toml (layer_config toml layer)); cbn [mbind outcome_bind]; [apply IH|done..].
  - rewrite user_controlled_iff, (not_true_is_false _ Ht). apply IH.
Qed.

Lemma agrees_apply t config c : agrees config c -> agrees (apply_to_network_proxy_config t config) (apply_network_constraints t c).
Proof.
  intros [A1 A2 A3 A4 A5 A6 A7 A8 A9]. split; cbn; unfold set_by; case_match; cbn; try done; by intros ? [= <-].
Qed.

Lemma trusted_loops layers config c config' :
  Forall trusted layers -> agrees config c -> config_loop toml network_tables_from_toml layers config = Ok config' ->
  exists c', constraints_of layers c = Ok c' /\ agrees config' c'.
Proof.
  revert config c. induction layers as [|layer layers IH]; intros config c Ht Ha; cbn [config_loop constraints_loop].
  { intros [= <-]. eauto. }
  apply Forall_cons in Ht as [Hl Ht]. rewrite user_controlled_iff, Hl. cbn [negb]. intros (parsed & -> & Hc)%bind_Ok. cbn [mbind outcome_bind].
  eapply IH; [done| |exact Hc]. unfold apply_network_tables. generalize (tables_list parsed). intros ts. clear Hc.
  revert config c Ha. induction ts as [|t ts IHt]; intros config c Ha; [done|]. cbn. by apply IHt, agrees_apply.
Qed.

Lemma config_and_constraints_within layers config c :
  config_and_constraints toml network_tables_from_toml layers = Ok (config, c) ->
  within_constraints config c /\
  network_constraints_from_trusted_layers toml network_tables_from_toml (filter trusted layers) = Ok c.
Proof.
  unfold config_and_constraints, enforce_trusted_constraints.
  intros (config' & _ & (c' & (c'' & Hc & ([] & Hv%map_err_Ok & [= ->])%bind_Ok)%bind_Ok & [= -> ->])%bind_Ok)%bind_Ok.
  split; [by apply validate_iff|]. unfold network_constraints_from_trusted_layers in *. by rewrite <-constraints_trusted.
Qed.

(** Loading the layers gives settings within the constraints of the trusted layers
    alone, whatever the layers of the user say; and layers that are all trusted and can
    be read are never refused. *)
Theorem layers_within_constraints layers :
  (forall config c, config_and_constraints toml network_tables_from_toml layers = Ok (config, c) ->
     within_constraints config c /\
     network_constraints_from_trusted_layers toml network_tables_from_toml (filter trusted layers) = Ok c) /\
  (Forall trusted layers -> is_ok (config_from_layers toml network_tables_from_toml layers) = true ->
   is_ok (config_and_constraints toml network_tables_from_toml layers) = true).
Proof.
  split; [intros config c; apply config_and_constraints_within|].
  intros Ht [config Hc]%is_ok_true. unfold config_and_constraints, enforce_trusted_constraints. rewrite Hc. cbn [mbind outcome_bind].
  destruct (trusted_loops layers default_settings no_constraints config Ht (no_constraints_agree _) Hc) as (c & Hn & Ha).
  unfold network_constraints_from_trusted_layers. rewrite Hn. cbn [mbind outcome_bind].
  by rewrite (proj2 (validate_iff _ _) (agrees_within _ _ Ha)).
Qed.
End layers.
End rules.

(** ** The managed list of domains *)

Section managed.
Context `{UrlLaws, GlobLaws, DebugStrs, SetOrderOk}.

Definition plain_entries (l : list str) : Prop := forall e, e ∈ l -> exists p, plain_entry e p.

Lemma allowed_within managed config c set h :
  c_allowed_domains c = Some managed -> plain_entries managed -> plain_entries (allowed_domains config) ->
  within_constraints config c -> compile_globset (allowed_domains config) = Ok set ->
  globset_is_match set h = true -> exists m, m ∈ managed /\ covers (entry_pattern m) h = true.
Proof.
  intros Hm Hpm Hpc Hw Hset Hmatch.
  apply (compile_covers (allowed_domains config) set h) in Hmatch as (e & He & Hcov); [| |done].
  2:{ apply Forall_forall. intros e He. destruct (Hpc e He) as [p Hp]. by apply plain_entry_compiled in Hp as [_ ?]. }
  destruct (w_allowed _ _ Hw _ Hm e He) as (m & Hin & Ha).
  destruct (Hpc e He) as [p Hp], (Hpm m Hin) as [q Hq]. rewrite (plain_entry_checked _ _ Hp), (plain_entry_checked _ _ Hq) in Ha.
  exists m. split; [done|]. apply plain_entry_compiled in Hp as Hp'. apply plain_entry_compiled in Hq as Hq'.
  destruct Hp' as [Hpe _], Hq' as [Hqe _]. rewrite Hpe in Hcov. rewrite Hqe.
  apply (allows_sound q p); [by eapply plain_entry_ok|by eapply plain_entry_ok|exact Ha|exact Hcov].
Qed.

(** A managed list of ordinary entries holds: whatever ordinary entries the settings
    have, once the check has passed, the compiled settings match no host that is outside
    of the managed entries. *)
Theorem managed_allowlist_enforced managed config c set h :
  c_allowed_domains c = Some managed -> plain_entries managed -> plain_entries (allowed_domains config) ->
  validate_policy_against_constraints config c = Ok () ->
  compile_globset (allowed_domains config) = Ok set -> globset_is_match set h = true ->
  exists m, m ∈ managed /\ covers (entry_pattern m) h = true.
Proof. intros Hm Hpm Hpc Hv. eapply allowed_within; [done..|]. by apply validate_iff. Qed.

(** The entry that escapes: to the check it is a name below [d], to the compiler a star
    with a port. *)
Definition escaping_entry (d : str) : str := STAR ++ COLON :: DOT :: d.

Lemma trim_escaping d : plain_text d -> trim (escaping_entry d) = escaping_entry d.
Proof. intros Hd. apply (trim_prefixed (STAR ++ [COLON; DOT])); [repeat constructor|done]. Qed.

Lemma escaping_checked d : plain_name d -> parse_for_constraints url_host_parse (escaping_entry d) = Exact (escaping_entry d).
Proof.
  intros Hd. pose proof (plain_name_ok d Hd) as (Hne & _ & Hl). unfold parse_for_constraints. rewrite trim_escaping by apply Hd.
  rewrite !bool_decide_eq_false_2 by done. change (strip_prefix (lit "**.") (escaping_entry d)) with (@None str).
  change (strip_prefix (lit "*.") (escaping_entry d)) with (@None str). cbn iota. f_equal. unfold parse_domain_for_constraints.
  rewrite trim_escaping by apply Hd. rewrite trim_dots_ok.
  2:{ unfold escaping_entry. rewrite last_app. destruct d; [done|]. rewrite !last_cons_cons. by destruct (last _) eqn:?. }
  rewrite bool_decide_eq_false_2 by done. done.
Qed.

Lemma escaping_compiled d : plain_name d -> normalize_pattern (escaping_entry d) = STAR.
Proof.
  intros Hd. unfold normalize_pattern. rewrite trim_escaping by apply Hd. rewrite bool_decide_eq_false_2 by done.
  change (strip_prefix (lit "**.") (escaping_entry d)) with (@None str).
  change (strip_prefix (lit "*.") (escaping_entry d)) with (@None str). unfold normalize_host.
  rewrite trim_escaping by apply Hd. change (starts_with (lit "[") (escaping_entry d)) with false. cbv zeta iota.
  assert (Hc : count_char COLON (escaping_entry d) = 1).
  { unfold escaping_entry, count_char. change (STAR ++ COLON :: DOT :: d) with ([42%N; COLON; DOT] ++ d). rewrite filter_app, length_app.
    fold (count_char COLON d). by rewrite count_char_0 by (apply plain_lacks; [apply Hd|done]). }
  rewrite Hc. cbn [Nat.eqb]. unfold escaping_entry. by rewrite split_on_sep.
Qed.

Lemma escaping_allowed d : plain_name d -> is_strict_subdomain (escaping_entry d) (to_ascii_lowercase d) = true.
Proof.
  intros Hd. pose proof (plain_name_ok d Hd) as Hok. unfold is_strict_subdomain.
  rewrite (normalize_domain_ok (to_ascii_lowercase d)) by by apply domain_ok_lower.
  assert (Hn : normalize_domain (escaping_entry d) = STAR ++ COLON :: DOT :: to_ascii_lowercase d).
  { unfold normalize_domain. rewrite trim_dots_ok; [done|]. destruct Hok as (Hne & _ & Hl). unfold escaping_entry. rewrite last_app.
    destruct d; [done|]. rewrite !last_cons_cons. by destruct (last _) eqn:?. }
  rewrite Hn, lower_idem. apply andb_true_iff. split.
  - apply negb_true_iff, bool_decide_eq_false. intros Heq. apply (f_equal length) in Heq. rewrite length_app in Heq. cbn in Heq. lia.
  - apply ends_with_true. by exists (STAR ++ [COLON]).
Qed.

(** A flaw of the check: with hosts below one domain as the managed list, there is an
    entry that passes the check and, compiled, matches every host. *)
Theorem managed_allowlist_bypassed d config c :
  plain_name d -> c = mk_constraints None None None None None (Some [lit "*." ++ d]) None None None ->
  allowed_domains config = [escaping_entry d] ->
  validate_policy_against_constraints config c = Ok () /\
  forall set, compile_globset (allowed_domains config) = Ok set -> forall h, globset_is_match set h = true.
Proof.
  intros Hd -> Hc. split.
  - apply validate_iff. split; cbn; try done. intros managed [= <-] e. rewrite Hc. intros ->%list_elem_of_singleton.
    exists (lit "*." ++ d). split; [left|]. rewrite escaping_checked by done.
    rewrite (plain_entry_checked _ _ (plain_sub d Hd)). cbn. by apply escaping_allowed.
  - intros set Hset h. rewrite Hc in Hset. eapply compile_matches; [exact Hset|]. exists STAR.
    unfold all_candidates. cbn. rewrite escaping_compiled by done. destruct glob_star as (g & Hg & Hm).
    split; [left|]. exists g. auto.
Qed.
End managed.

(** ** Where the proxy listens *)

Definition loopback (a : SocketAddr) : Prop := ip_is_loopback (addr_ip a) = true.

Lemma clamped_loopback a allow : allow = false -> loopback (clamp_non_loopback a allow).
Proof. intros ->. unfold loopback, clamp_non_loopback. by destruct (ip_is_loopback (addr_ip a)) eqn:Ha. Qed.

(** Whatever the URLs, the proxy and its administration listen on the loopback
    interface only, unless the flag that calls it dangerous is set for them and no Unix
    socket can be reached through them. *)
Theorem bind_addrs_guarded url_parse cfg http socks admin :
  resolve_runtime url_parse cfg = Ok (http, socks, admin) ->
  (dangerously_allow_non_loopback_proxy cfg = false \/ allow_unix_sockets cfg <> [] -> loopback http /\ loopback socks) /\
  (dangerously_allow_non_loopback_admin cfg = false \/ allow_unix_sockets cfg <> [] -> loopback admin).
Proof.
  unfold resolve_runtime. intros (h & _ & (s & _ & (a & _ & [= Hc])%bind_Ok)%bind_Ok)%bind_Ok. revert Hc.
  unfold clamp_bind_addrs. case_bool_decide as Hs; intros [= <- <- <-]; [|done].
  split; [intros [Hp|?]; [|done]; split|intros [Hp|?]; [|done]]; by apply clamped_loopback.
Qed.

(** ** Witnesses *)

Definition example_debug : DebugStrs := fun l => join (lit ", ") l.
Definition example_order : SetOrder := fun s => elements s.
Lemma example_order_ok : @SetOrderOk example_order.
Proof. intros s. done. Qed.

Definition with_allowed (l : list str) : NetworkProxySettings :=
  mk_settings true default_proxy_url default_admin_url true default_socks_url true true false false Full l [] [] false.
Definition managed_list (l : list str) : NetworkProxyConstraints :=
  mk_constraints None None None None None (Some l) None None None.

Lemma validate_policy_spec_witness :
  let c := mk_constraints None (Some Limited) None None None None None None None in
  ~ @within_constraints simple_url (with_allowed []) c /\
  @validate_policy_against_constraints simple_url example_debug example_order (with_allowed []) c
  = Err (InvalidValue (lit "network.mode") (lit "Full") (lit "Limited or more restrictive")).
Proof.
  intros c. destruct (@validate_policy_spec simple_url example_debug example_order example_order_ok (with_allowed []) c)
    as [[_ Hv]|[Hn _]].
  - exfalso. vm_compute in Hv. discriminate Hv.
  - split; [exact Hn|]. vm_compute. reflexivity.
Defined.

Lemma requirements_always_valid_witness :
  let r := mk_requirements (Some true) (Some 80) None None None None (Some [lit "*.a.com"]) None None None in
  exists spec, @from_config_and_constraints simple_url example_debug example_order (with_allowed [lit "b.com"]) (Some r) = Ok spec.
Proof.
  intros r. destruct (@requirements_always_valid simple_url example_debug example_order example_order_ok
    (with_allowed [lit "b.com"]) (Some r)) as (spec & Hs & _). exists spec. exact Hs.
Defined.

Lemma layers_within_constraints_witness :
  let toml_of l := mk_tables (Some (mk_toml None None None None None None None None None None (Some l) None None None)) None in
  let layers := [mk_layer NetworkTablesToml (System []) (toml_of [lit "*.a.com"]);
                 mk_layer NetworkTablesToml (User []) (toml_of [lit "x.a.com"])] in
  exists config c, @config_and_constraints simple_url example_debug example_order NetworkTablesToml Ok layers = Ok (config, c) /\
    @within_constraints simple_url config c /\ allowed_domains config = [lit "x.a.com"].
Proof.
  intros toml_of layers. eexists _, _. split; [vm_compute; reflexivity|]. split; [|vm_compute; reflexivity].
  refine (proj1 (proj1 (@layers_within_constraints simple_url example_debug example_order example_order_ok
    NetworkTablesToml Ok layers) _ _ _)). vm_compute. reflexivity.
Defined.

Lemma plain_entry_example : plain_entry (lit "*.a.com") (SubdomainsOnly (lit "a.com")).
Proof. apply (plain_sub (lit "a.com")). apply (bool_decide_unpack _). vm_compute. exact I. Qed.

Lemma managed_allowlist_enforced_witness :
  exists m, m ∈ [lit "*.a.com"] /\ covers (entry_pattern m) (lit "x.y.a.com") = true.
Proof.
  apply (@managed_allowlist_enforced simple_url simple_url_laws simple_globs simple_globs_laws example_debug example_order
    example_order_ok [lit "*.a.com"] (with_allowed [lit "*.a.com"]) (managed_list [lit "*.a.com"])
    [SubdomainsOnly (lit "a.com")] (lit "x.y.a.com")).
  - reflexivity.
  - intros e ->%list_elem_of_singleton. eexists. apply plain_entry_example.
  - intros e ->%list_elem_of_singleton. eexists. apply plain_entry_example.
  - vm_compute. reflexivity.
  - vm_compute. reflexivity.
  - vm_compute. reflexivity.
Defined.

Lemma managed_allowlist_bypassed_witness :
  @validate_policy_against_constraints simple_url example_debug example_order
    (with_allowed [lit "*:.a.com"]) (managed_list [lit "*.a.com"]) = Ok () /\
  @globset_is_match simple_globs [AnyDomain] (lit "evil.org") = true.
Proof.
  destruct (@managed_allowlist_bypassed simple_url simple_url_laws simple_globs simple_globs_laws example_debug example_order
    example_order_ok (lit "a.com") (with_allowed [lit "*:.a.com"]) (managed_list [lit "*.a.com"])) as [Hv Hm].
  - apply (bool_decide_unpack _). vm_compute. exact I.
  - reflexivity.
  - reflexivity.
  - split; [exact Hv|]. apply Hm. vm_compute. reflexivity.
Defined.

Lemma bind_addrs_guarded_witness :
  exists http socks admin, resolve_runtime (fun _ => None) (with_allowed []) = Ok (http, socks, admin) /\ loopback admin.
Proof.
  eexists _, _, _. split; [vm_compute; reflexivity|].
  refine (proj2 (bind_addrs_guarded (fun _ => None) (with_allowed []) _ _ _ _) _); [vm_compute; reflexivity|].
  left. reflexivity.
Defined.
