(* ===== verification/ProxyRuntime.v ===== *)
(** * The state of the network proxy (network-proxy/src/runtime.rs, network_policy.rs)

    The configuration in force, which is read again before every use, the verdict on a
    host, and the buffer of blocked requests.  The reloader, name resolution, the
    observer and the decider are the surroundings [W] of the proxy. *)

From stdpp Require Import gmap sets.
From S2P Require Import Prelude RustStd IpAddr HostPolicy HostRules ProxyConfig NetworkApproval.

(** ** Data *)

Inductive HostBlockReason : Type := Denied | NotAllowed | NotAllowedLocal.
#[export] Instance HostBlockReason_eq_dec : EqDecision HostBlockReason.
Proof. solve_decision. Defined.

Inductive HostBlockDecision : Type := HostAllowed | HostBlocked (reason : HostBlockReason).
#[export] Instance HostBlockDecision_eq_dec : EqDecision HostBlockDecision.
Proof. solve_decision. Defined.

Definition REASON_DENIED : str := lit "denied".
Definition REASON_METHOD_NOT_ALLOWED : str := lit "method_not_allowed".
Definition REASON_NOT_ALLOWED : str := lit "not_allowed".
Definition REASON_NOT_ALLOWED_LOCAL : str := lit "not_allowed_local".
Definition REASON_PROXY_DISABLED : str := lit "proxy_disabled".

Definition reason_str (r : HostBlockReason) : str :=
  match r with
  | Denied => REASON_DENIED
  | NotAllowed => REASON_NOT_ALLOWED
  | NotAllowedLocal => REASON_NOT_ALLOWED_LOCAL
  end.

(** [BlockedRequest] of the proxy, with all its fields. *)
Record BlockedEntry : Type := mk_entry {
  entry_host : str;
  entry_reason : str;
  entry_client : option str;
  entry_method : option str;
  entry_mode : option NetworkMode;
  entry_protocol : str;
  entry_attempt_id : option str;
  entry_decision : option str;
  entry_source : option str;
  entry_port : option nat;
  entry_timestamp : Z;
}.

(** What the observer of the session reads of it. *)
Definition observed (e : BlockedEntry) : BlockedRequest :=
  mk_blocked (entry_host e) (entry_reason e) (entry_attempt_id e) (entry_decision e).

Definition MAX_BLOCKED_EVENTS : nat := 200.
Definition U64_MAX : N := 18446744073709551615.

Record ConfigState `{GlobLib} : Type := mk_config_state {
  config : NetworkProxySettings;
  allow_set : GlobSet;
  deny_set : GlobSet;
  constraints : NetworkProxyConstraints;
  blocked : list BlockedEntry;
  blocked_total : N;
}.

Definition build_config_state `{GlobLib} (config : NetworkProxySettings) (constraints : NetworkProxyConstraints)
    : outcome GlobError ConfigState :=
  deny_set ← compile_globset (denied_domains config);
  allow_set ← compile_globset (allowed_domains config);
  Ok (mk_config_state _ config allow_set deny_set constraints [] 0).

(** The surroundings: the reloader, [lookup_host] with its timeout ([None] when it fails
    or takes too long), the clock, the observer if there is one, the decider if there
    is one, and on macOS the paths of Unix sockets. *)
Class ProxyWorld (W : Type) `{GlobLib} : Type := {
  maybe_reload : W -> W * outcome str (option ConfigState);
  reload_now : W -> W * outcome str ConfigState;
  lookup_host : str -> nat -> W -> W * option (list IpAddr);
  unix_timestamp : W -> W * Z;
  on_blocked_request : BlockedEntry -> W -> W;
  policy_decider : option (NetworkPolicyRequest -> W -> W * NetworkDecision);
  target_macos : bool;
  from_absolute_path : str -> option str;
  canonicalize : str -> W -> option str;
}.

(** The configuration in force and the surroundings. *)
Record proxy_state (W : Type) `{GlobLib} : Type := mk_proxy_state { world : W; state : ConfigState }.
Arguments mk_proxy_state {W _} _ _.
Arguments world {W _} _.
Arguments state {W _} _.

Section runtime.
Context {W : Type} `{ProxyWorld W}.

Abbreviation proxy := (io (proxy_state W) str).

Definition in_world {A} (f : W -> W * A) : proxy A := fun s =>
  let (w, a) := f (world s) in (mk_proxy_state w (state s), Ok a).

Definition put_state (st : ConfigState) : proxy () := fun s => (mk_proxy_state (world s) st, Ok ()).
Definition read_state {A} (f : ConfigState -> A) : proxy A := io_get (fun s => Ok (f (state s))).

(** ** Reloading *)

(** The end of a reload: the new state, with the buffer that was read before. *)
Definition keep_blocked (new_state : ConfigState) (b : list BlockedEntry) (total : N) : ConfigState :=
  mk_config_state _ (config new_state) (allow_set new_state) (deny_set new_state) (constraints new_state) b total.

Definition reload_if_needed : proxy () :=
  r ← in_world maybe_reload;
  r ← io_of r;
  match r with
  | None => mret ()
  | Some new_state =>
      '(b, total) ← read_state (fun st => (blocked st, blocked_total st));
      put_state (keep_blocked new_state b total)
  end.

Definition force_reload : proxy () :=
  r ← in_world reload_now;
  new_state ← io_of r;
  b ← read_state blocked;
  put_state (keep_blocked new_state b (blocked_total new_state)).

(** A value of the configuration in force, reloaded first. *)
Definition current {A} (f : ConfigState -> A) : proxy A := _ ← reload_if_needed; read_state f.

Definition current_cfg : proxy NetworkProxySettings := current config.
Definition current_patterns : proxy (list str * list str) :=
  current (fun st => (allowed_domains (config st), denied_domains (config st))).
Definition is_enabled : proxy bool := current (fun st => enabled (config st)).
Definition method_allowed (method : str) : proxy bool := current (fun st => allows_method (mode (config st)) method).
Definition upstream_proxy_allowed : proxy bool := current (fun st => allow_upstream_proxy (config st)).
Definition network_mode : proxy NetworkMode := current (fun st => mode (config st)).

(** ** The verdict on a host *)

Definition is_wildcard (pattern : str) : bool :=
  bool_decide (pattern = STAR) || starts_with (lit "*.") pattern || starts_with (lit "**.") pattern.

Definition is_explicit_local_allowlisted (allowed : list str) (host : str) : bool :=
  existsb (fun pattern =>
    let pattern := trim pattern in
    if is_wildcard pattern then false
    else if contains (lit "*") pattern || contains (lit "?") pattern then false
    else bool_decide (normalize_host pattern = host)) allowed.

Definition host_resolves_to_non_public_ip (host : str) (port : nat) : proxy bool :=
  match parse_ip host with
  | Some ip => mret (is_non_public_ip ip)
  | None =>
      addrs ← in_world (lookup_host host port);
      match addrs with
      | None => mret false
      | Some addrs => mret (existsb is_non_public_ip addrs)
      end
  end.

Definition local_literal (host : str) : bool :=
  if is_loopback_host host then true
  else match parse_ip (without_scope host) with Some ip => is_non_public_ip ip | None => false end.

Definition host_blocked (host : str) (port : nat) : proxy HostBlockDecision :=
  _ ← reload_if_needed;
  match Host_parse host with
  | None => mret (HostBlocked NotAllowed)
  | Some host =>
      st ← read_state id;
      if globset_is_match (deny_set st) host then mret (HostBlocked Denied)
      else
        let is_allowlisted := globset_is_match (allow_set st) host in
        local ← (if allow_local_binding (config st) then mret false
                 else if local_literal host then
                   mret (negb (is_explicit_local_allowlisted (allowed_domains (config st)) host))
                 else host_resolves_to_non_public_ip host port);
        if (local : bool) then mret (HostBlocked NotAllowedLocal)
        else if bool_decide (allowed_domains (config st) = []) || negb is_allowlisted then
          mret (HostBlocked NotAllowed)
        else mret HostAllowed
  end.

(** What the decider answers counts as its own, whatever source it names. *)
Definition map_decider_decision (d : NetworkDecision) : NetworkDecision :=
  match d with NetAllow => NetAllow | NetDeny reason _ decision => NetDeny reason Decider decision end.

Definition evaluate_host_policy (request : NetworkPolicyRequest) : proxy NetworkDecision :=
  d ← host_blocked (req_host request) (req_port request);
  match d with
  | HostAllowed => mret NetAllow
  | HostBlocked NotAllowed =>
      match policy_decider with
      | Some decide => decision ← in_world (decide request); mret (map_decider_decision decision)
      | None => mret (deny_with_source (reason_str NotAllowed) BaselinePolicy)
      end
  | HostBlocked reason => mret (deny_with_source (reason_str reason) BaselinePolicy)
  end.

(** ** Blocked requests *)

Definition push_blocked (entry : BlockedEntry) (st : ConfigState) : ConfigState :=
  let b := blocked st ++ [entry] in
  keep_blocked st (drop (length b - MAX_BLOCKED_EVENTS) b) (N.min (blocked_total st + 1) U64_MAX).

Definition record_blocked (entry : BlockedEntry) : proxy () :=
  _ ← reload_if_needed;
  st ← read_state id;
  _ ← put_state (push_blocked entry st);
  in_world (fun w => (on_blocked_request entry w, ())).

Definition blocked_snapshot : proxy (list BlockedEntry) := current blocked.

Definition drain_blocked : proxy (list BlockedEntry) :=
  _ ← reload_if_needed;
  st ← read_state id;
  _ ← put_state (keep_blocked st [] (blocked_total st));
  mret (blocked st).

(** ** Unix sockets *)

Definition is_unix_socket_allowed (path : str) : proxy bool :=
  _ ← reload_if_needed;
  if negb target_macos then mret false
  else if negb (is_absolute path) then mret false
  else
    match from_absolute_path path with
    | None => mret false
    | Some requested_abs =>
        s ← io_get (fun s => Ok s);
        let requested_canonical := canonicalize requested_abs (world s) in
        mret (existsb (fun allowed =>
          bool_decide (allowed = path)
          || match requested_canonical with
             | None => false
             | Some requested => bool_decide (canonicalize allowed (world s) = Some requested)
             end) (allow_unix_sockets (config (state s))))
    end.
End runtime.

(** ** Changing the mode *)

Section mode.
Context {W : Type} `{ProxyWorld W, UrlLib, DebugStrs, SetOrder}.

Definition with_mode (m : NetworkMode) (c : NetworkProxySettings) : NetworkProxySettings :=
  mk_settings (enabled c) (proxy_url c) (admin_url c) (enable_socks5 c) (socks_url c) (enable_socks5_udp c)
    (allow_upstream_proxy c) (dangerously_allow_non_loopback_proxy c) (dangerously_allow_non_loopback_admin c) m
    (allowed_domains c) (denied_domains c) (allow_unix_sockets c) (allow_local_binding c).

Definition mode_refused : str := lit "network.mode constrained by managed config".

(** [other_tasks] is what happens between the check and the write. *)
Fixpoint set_network_mode (fuel : nat) (other_tasks : proxy_state W -> proxy_state W) (m : NetworkMode)
    : io (proxy_state W) str () :=
  match fuel with
  | O => io_of Timeout
  | S fuel =>
      _ ← reload_if_needed;
      st ← read_state id;
      let candidate := with_mode m (config st) in
      _ ← io_of (map_err (fun _ => mode_refused) (validate_policy_against_constraints candidate (constraints st)));
      _ ← (fun s => (other_tasks s, Ok ()));
      st' ← read_state id;
      if bool_decide (constraints st' = constraints st) then
        put_state (mk_config_state _ (with_mode m (config st')) (allow_set st') (deny_set st') (constraints st')
                     (blocked st') (blocked_total st'))
      else set_network_mode fuel other_tasks m
  end.
End mode.

(** ** The verdict *)

Section verdict.
Context {W : Type} `{GlobLaws, !ProxyWorld W}.

(** The sets in force are those of the settings. *)
Definition sets_ok (st : ConfigState) : Prop :=
  compile_globset (allowed_domains (config st)) = Ok (allow_set st) /\
  compile_globset (denied_domains (config st)) = Ok (deny_set st) /\
  Forall entry_plain (allowed_domains (config st)) /\ Forall entry_plain (denied_domains (config st)).

Definition covered (entries : list str) (h : str) : Prop := exists e, e ∈ entries /\ covers (entry_pattern e) h = true.

(** A host named in full by an entry without wildcards. *)
Definition listed (entries : list str) (h : str) : Prop :=
  exists e, e ∈ entries /\ is_wildcard (trim e) = false /\ (ch "*" ∉ trim e) /\ (ch "?" ∉ trim e) /\
    normalize_host (trim e) = h.

(** A host that may be reached although local addresses are refused. *)
Definition not_local (addrs : option (list IpAddr)) (allowed : list str) (h : str) : Prop :=
  if local_literal h then listed allowed h
  else forall l ip, addrs = Some l -> ip ∈ l -> is_non_public_ip ip = false.

Lemma reload_run s :
  reload_if_needed s
  = match maybe_reload (world s) with
    | (w, Ok None) => (mk_proxy_state w (state s), Ok ())
    | (w, Ok (Some st)) => (mk_proxy_state w (keep_blocked st (blocked (state s)) (blocked_total (state s))), Ok ())
    | (w, Err e) => (mk_proxy_state w (state s), Err e)
    | (w, Panic) => (mk_proxy_state w (state s), Panic)
    | (w, Timeout) => (mk_proxy_state w (state s), Timeout)
    end.
Proof.
  unfold reload_if_needed, in_world, io_of, read_state, io_get, put_state, mbind, io_bind.
  by destruct (maybe_reload (world s)) as [w [[st|]|e| |]].
Qed.

Lemma contains_char c s : contains [c] s = false <-> c ∉ s.
Proof.
  split; [|apply contains_not]. intros Hc Hin. induction s as [|x s IH]; [by apply not_elem_of_nil in Hin|].
  cbn [contains] in Hc. apply orb_false_iff in Hc as [Hx Hs]. apply elem_of_cons in Hin as [->|Hin]; [|auto].
  change (x :: s) with ([x] ++ s) in Hx. by rewrite starts_with_app in Hx.
Qed.

Lemma explicit_listed allowed h : is_explicit_local_allowlisted allowed h = true <-> listed allowed h.
Proof.
  unfold is_explicit_local_allowlisted, listed. rewrite existsb_exists. setoid_rewrite <-list_elem_of_In.
  apply exist_proper. intros e. change (lit "*") with [ch "*"]. change (lit "?") with [ch "?"].
  rewrite <-!contains_char. destruct (is_wildcard (trim e)); [naive_solver|].
  destruct (contains [ch "*"] (trim e)), (contains [ch "?"] (trim e)); cbn [orb]; [naive_solver..|].
  rewrite bool_decide_eq_true. naive_solver.
Qed.

(** The addresses of a host: a literal is its own. *)
Definition addresses_of (h : str) (port : nat) (w : W) : option (list IpAddr) :=
  match parse_ip h with Some ip => Some [ip] | None => (lookup_host h port w).2 end.

(** The test of [host_blocked] for local addresses. *)
Definition local_test (st : ConfigState) (h : str) (port : nat) (w : W) : bool :=
  if allow_local_binding (config st) then false
  else if local_literal h then negb (is_explicit_local_allowlisted (allowed_domains (config st)) h)
  else match addresses_of h port w with Some l => existsb is_non_public_ip l | None => false end.

Definition verdict (st : ConfigState) (h : str) (port : nat) (w : W) : HostBlockDecision :=
  if bool_decide (h = []) then HostBlocked NotAllowed
  else if globset_is_match (deny_set st) h then HostBlocked Denied
  else if local_test st h port w then HostBlocked NotAllowedLocal
  else if bool_decide (allowed_domains (config st) = []) || negb (globset_is_match (allow_set st) h)
  then HostBlocked NotAllowed else HostAllowed.

(** A verdict is one on the configuration that is in force after the reload. *)
Lemma host_blocked_run s s' host port d :
  host_blocked host port s = (s', Ok d) ->
  exists s1, reload_if_needed s = (s1, Ok ()) /\ state s' = state s1 /\
    d = verdict (state s1) (normalize_host host) port (world s1).
Proof.
  unfold host_blocked. intros (s1 & [] & Hr & Hd)%io_bind_Ok. exists s1. split; [done|]. revert Hd.
  unfold Host_parse, verdict, local_test, addresses_of, host_resolves_to_non_public_ip. set (h := normalize_host host).
  case_bool_decide as Hh; [by intros [= <- <-]|]. unfold read_state, io_get, mbind, io_bind, mret, io_ret, id, in_world.
  destruct (globset_is_match (deny_set (state s1)) h); [by intros [= <- <-]|].
  destruct (allow_local_binding (config (state s1))); [by case_match; intros [= <- <-]|].
  destruct (local_literal h).
  { destruct (is_explicit_local_allowlisted _ _); cbn [negb]; [by case_match; intros [= <- <-]|by intros [= <- <-]]. }
  destruct (parse_ip h) as [ip|]; cbn [existsb]; rewrite ?orb_false_r.
  { destruct (is_non_public_ip ip); [by intros [= <- <-]|by case_match; intros [= <- <-]]. }
  destruct (lookup_host h port (world s1)) as [w [l|]]; cbn [snd].
  - destruct (existsb is_non_public_ip l); [by intros [= <- <-]|by case_match; intros [= <- <-]].
  - by case_match; intros [= <- <-].
Qed.

Lemma sets_deny st h : sets_ok st -> globset_is_match (deny_set st) h = true <-> covered (denied_domains (config st)) h.
Proof. intros (_ & Hd & _ & Hp). by apply compile_covers. Qed.
Lemma sets_allow st h : sets_ok st -> globset_is_match (allow_set st) h = true <-> covered (allowed_domains (config st)) h.
Proof. intros (Ha & _ & Hp & _). by apply compile_covers. Qed.

Lemma local_test_false st h port w :
  local_test st h port w = false <->
  allow_local_binding (config st) = true \/ not_local (addresses_of h port w) (allowed_domains (config st)) h.
Proof.
  unfold local_test, not_local. destruct (allow_local_binding (config st)); [naive_solver|]. destruct (local_literal h).
  - rewrite negb_false_iff, explicit_listed. naive_solver.
  - destruct (addresses_of h port w) as [l|]; [|naive_solver]. rewrite <-not_true_iff_false, existsb_exists. split.
    + intros Hn. right. intros l' ip [= <-] Hip. destruct (is_non_public_ip ip) eqn:Hp; [|done]. exfalso. apply Hn.
      exists ip. by rewrite <-list_elem_of_In.
    + intros [?|Hall] (ip & Hin & Hp); [done|]. rewrite <-list_elem_of_In in Hin. by rewrite (Hall l ip) in Hp.
Qed.

(** The verdict on a host, for settings of ordinary entries: a denied entry refuses it
    whatever else is said; it is allowed just when no denied and some allowed entry
    covers it and it is not local, that is, a local address named in full by an entry,
    or a name none of whose addresses is known to be local, unless local addresses are
    allowed altogether. *)
Theorem host_verdict_spec s s' host port d :
  host_blocked host port s = (s', Ok d) -> sets_ok (state s') ->
  let st := state s' in
  let h := normalize_host host in
  let allowed := allowed_domains (config st) in
  exists s1, reload_if_needed s = (s1, Ok ()) /\
  (d = HostBlocked Denied <-> h <> [] /\ covered (denied_domains (config st)) h) /\
  (d = HostAllowed <-> h <> [] /\ ~ covered (denied_domains (config st)) h /\ covered allowed h /\
     (allow_local_binding (config st) = true \/ not_local (addresses_of h port (world s1)) allowed h)).
Proof.
  intros Hrun Hok. cbv zeta. destruct (host_blocked_run _ _ _ _ _ Hrun) as (s1 & Hr & Hst & ->). exists s1. split; [done|].
  rewrite Hst in *. set (h := normalize_host host). rewrite <-(sets_deny _ h Hok), <-(sets_allow _ h Hok), <-local_test_false.
  unfold verdict. case_bool_decide as Hh; [naive_solver|].
  destruct (globset_is_match (deny_set (state s1)) h); [naive_solver|].
  destruct (local_test (state s1) h port (world s1)); [naive_solver|].
  case_bool_decide as Hempty; [|destruct (globset_is_match (allow_set (state s1)) h) eqn:Hm; cbn [orb negb]; naive_solver].
  assert (Hm : globset_is_match (allow_set (state s1)) h = false).
  { apply not_true_iff_false. rewrite (sets_allow _ h Hok), Hempty. intros (e & He & _). by apply not_elem_of_nil in He. }
  rewrite Hm. naive_solver.
Qed.
End verdict.

(** ** The buffer of blocked requests *)

Section buffer.
Context {W : Type} `{ProxyWorld W}.

Inductive blocked_op : Type := RecordOp (entry : BlockedEntry) | DrainOp | SnapshotOp | ReloadOp.

Definition run_blocked (op : blocked_op) (s : proxy_state W) : proxy_state W * outcome str (list BlockedEntry) :=
  match op with
  | RecordOp entry => (_ ← record_blocked entry; mret []) s
  | DrainOp => drain_blocked s
  | SnapshotOp => blocked_snapshot s
  | ReloadOp => (_ ← force_reload; mret []) s
  end.

(** The requests recorded since the last drain, as far as operations succeed. *)
Definition pending_blocked (op : blocked_op) (s : proxy_state W) (pending : list BlockedEntry) : list BlockedEntry :=
  if is_ok (run_blocked op s).2 then
    match op with RecordOp entry => pending ++ [entry] | DrainOp => [] | _ => pending end
  else pending.

Definition blocked_step (sp : proxy_state W * list BlockedEntry) (op : blocked_op) : proxy_state W * list BlockedEntry :=
  ((run_blocked op sp.1).1, pending_blocked op sp.1 sp.2).

Definition buffer_of (s : proxy_state W) (pending : list BlockedEntry) : Prop :=
  blocked (state s) = last_n MAX_BLOCKED_EVENTS pending.

Lemma reload_blocked s : blocked (state (reload_if_needed s).1) = blocked (state s).
Proof. rewrite reload_run. by destruct (maybe_reload (world s)) as [w [[st|]|e| |]]. Qed.

Lemma push_buffer entry st pending :
  blocked st = last_n MAX_BLOCKED_EVENTS pending ->
  blocked (push_blocked entry st) = last_n MAX_BLOCKED_EVENTS (pending ++ [entry]).
Proof. intros Hb. unfold push_blocked. cbn [blocked keep_blocked]. by rewrite Hb, <-last_n_app. Qed.

Lemma blocked_step_ok op s pending :
  buffer_of s pending ->
  buffer_of (blocked_step (s, pending) op).1 (blocked_step (s, pending) op).2 /\
  (forall l, (op = DrainOp \/ op = SnapshotOp) -> (run_blocked op s).2 = Ok l -> l = last_n MAX_BLOCKED_EVENTS pending).
Proof.
  unfold buffer_of, blocked_step, pending_blocked. cbn [fst snd]. intros Hb. pose proof (reload_blocked s) as Hr.
  destruct op; cbn [run_blocked];
    unfold record_blocked, drain_blocked, blocked_snapshot, current, force_reload, put_state, read_state, io_get, in_world,
      io_of, mret, io_ret, mbind, io_bind, id.
  1-3: destruct (reload_if_needed s) as [s1 [[]|e| |]]; cbn [fst snd state blocked keep_blocked is_ok] in *; rewrite Hb in Hr;
      try (split; [done|by intros ? [?|?]]).
  - split; [by apply push_buffer|by intros ? [?|?]].
  - split; [done|]. by intros l _ [= <-].
  - split; [done|]. by intros l _ [= <-].
  - destruct (reload_now (world s)) as [w [st|e| |]]; (split; [done|by intros ? [?|?]]).
Qed.

(** The buffer of blocked requests holds the last two hundred requests recorded since
    it was drained, in order, whatever snapshots and reloads come between; a snapshot
    and a drain return just them. *)
Theorem blocked_buffer_spec ops s pending :
  buffer_of s pending ->
  let '(s', pending') := foldl blocked_step (s, pending) ops in
  buffer_of s' pending' /\ length (blocked (state s')) <= MAX_BLOCKED_EVENTS /\
  forall op l, op = DrainOp \/ op = SnapshotOp -> (run_blocked op s').2 = Ok l -> l = last_n MAX_BLOCKED_EVENTS pending'.
Proof.
  revert s pending. induction ops as [|op ops IH]; intros s pending Hb; cbn [foldl].
  - split; [done|]. split; [rewrite Hb, last_n_length; lia|]. intros op l. apply (blocked_step_ok op s pending Hb).
  - destruct (blocked_step_ok op s pending Hb) as [Hb' _].
    destruct (blocked_step (s, pending) op) as [s1 p1]. by apply IH.
Qed.
End buffer.

(** ** The mode stays within the constraints *)

Section within.
Context {W : Type} `{ProxyWorld W, UrlLib, DebugStrs, SetOrderOk}.

Definition state_within (s : proxy_state W) : Prop := within_constraints (config (state s)) (constraints (state s)).

Lemma within_mode m c k :
  within_constraints (with_mode m c) k -> forall c', within_constraints c' k -> within_constraints (with_mode m c') k.
Proof. intros [V1 V2 V3 V4 V5 V6 V7 V8 V9] c' [U1 U2 U3 U4 U5 U6 U7 U8 U9]. by split. Qed.

Definition reloads_within : Prop :=
  forall w w' st, maybe_reload w = (w', Ok (Some st)) -> within_constraints (config st) (constraints st).

Lemma reload_within s s' : reloads_within -> state_within s -> reload_if_needed s = (s', Ok ()) -> state_within s'.
Proof.
  intros Hw Hs. rewrite reload_run. destruct (maybe_reload (world s)) as [w [[st|]|e| |]] eqn:Hm; intros [= <-]; [|done].
  exact (Hw _ _ _ Hm).
Qed.

(** Setting the mode leaves the settings within the constraints in force, although
    other tasks may reload both between its check and its write. *)
Theorem mode_stays_within fuel other_tasks m s s' :
  reloads_within -> (forall s, state_within s -> state_within (other_tasks s)) -> state_within s ->
  set_network_mode fuel other_tasks m s = (s', Ok ()) -> state_within s' /\ mode (config (state s')) = m.
Proof.
  intros Hw Ho. revert s. induction fuel as [|fuel IH]; intros s Hs; cbn [set_network_mode]; [done|].
  intros (s1 & [] & Hr & Hrun)%io_bind_Ok. pose proof (reload_within _ _ Hw Hs Hr) as Hs1. revert Hrun.
  unfold read_state, io_get, io_of, put_state, mbind, io_bind, id.
  destruct (validate_policy_against_constraints (with_mode m (config (state s1))) (constraints (state s1))) as [[]|e| |] eqn:Hv;
    cbn [map_err]; [|done..].
  case_bool_decide as Hc; [|by apply IH, Ho]. intros [= <-]. split; [|done].
  unfold state_within. cbn [state config constraints]. apply validate_iff in Hv. rewrite <-Hc in Hv.
  eapply within_mode; [exact Hv|]. by apply Ho.
Qed.
End within.

(** ** Examples *)

Definition example_settings : NetworkProxySettings :=
  mk_settings true [] [] false [] false false false false Limited [lit "a.com"] [lit "b.com"] [] false.

Definition example_config : @ConfigState simple_globs :=
  @mk_config_state simple_globs example_settings [Exact (lit "a.com")] [Exact (lit "b.com")] no_constraints [] 0.

(** Whether a reload is due; a network where every name has one address; a decider that
    answers everything with yes. *)
Definition example_world : @ProxyWorld bool simple_globs := {|
  maybe_reload := fun w : bool => (false, Ok (if w then Some example_config else None));
  reload_now := fun w : bool => (false, Ok example_config);
  lookup_host := fun _ _ (w : bool) => (w, Some [V4 (mk_ipv4 93 184 216 34)]);
  unix_timestamp := fun w : bool => (w, 0%Z);
  on_blocked_request := fun _ (w : bool) => w;
  policy_decider := Some (fun _ (w : bool) => (w, NetAllow));
  target_macos := false;
  from_absolute_path := Some;
  canonicalize := fun p (_ : bool) => Some p;
|}.

Definition example_proxy : @proxy_state bool simple_globs := mk_proxy_state true example_config.

Definition example_entry : BlockedEntry :=
  mk_entry (lit "b.com") REASON_DENIED None None None (lit "http") None None None None 0.

Lemma example_sets_ok : @sets_ok simple_globs example_config.
Proof.
  split; [vm_compute; reflexivity|]. split; [vm_compute; reflexivity|].
  split; (constructor; [|constructor]).
  - apply (plain_entry_compiled _ (Exact (lit "a.com"))), plain_exact, (bool_decide_unpack _). vm_compute. exact I.
  - apply (plain_entry_compiled _ (Exact (lit "b.com"))), plain_exact, (bool_decide_unpack _). vm_compute. exact I.
Qed.

Lemma example_within : @within_constraints simple_url (config example_config) no_constraints.
Proof.
  apply (@validate_iff simple_url example_debug example_order example_order_ok). vm_compute. reflexivity.
Qed.

Lemma host_verdict_spec_witness :
  exists s', @host_blocked _ simple_globs example_world (lit "B.com.") 443 example_proxy = (s', Ok (HostBlocked Denied)) /\
    covered (denied_domains (config (state s'))) (lit "b.com").
Proof.
  destruct (@host_blocked _ simple_globs example_world (lit "B.com.") 443 example_proxy) as [s' r] eqn:Hrun. exists s'.
  assert (Hst : state s' = state (s', r).1) by reflexivity. assert (Hr : r = (s', r).2) by reflexivity.
  rewrite <-Hrun in Hst, Hr. assert (Hd : r = Ok (HostBlocked Denied)) by (rewrite Hr; vm_compute; reflexivity).
  clear Hr. subst r. split; [reflexivity|].
  assert (Hok : @sets_ok simple_globs (state s')) by (rewrite Hst; exact example_sets_ok).
  destruct (@host_verdict_spec _ simple_globs simple_globs_laws example_world _ _ _ _ _ Hrun Hok) as (s1 & _ & Hiff & _).
  exact (proj2 (proj1 Hiff eq_refl)).
Defined.

Lemma blocked_buffer_spec_witness :
  exists s', foldl (@blocked_step _ simple_globs example_world) (example_proxy, []) [RecordOp example_entry; SnapshotOp]
             = (s', [example_entry]) /\ length (blocked (state s')) <= MAX_BLOCKED_EVENTS.
Proof.
  assert (Hb : @buffer_of _ simple_globs example_proxy []) by (vm_compute; reflexivity).
  pose proof (@blocked_buffer_spec _ simple_globs example_world [RecordOp example_entry; SnapshotOp] _ _ Hb) as Hs.
  destruct (foldl _ _ _) as [s' pending] eqn:Hf. exists s'.
  assert (Hp : pending = (s', pending).2) by reflexivity. rewrite <-Hf in Hp.
  assert (Hp' : pending = [example_entry]) by (rewrite Hp; vm_compute; reflexivity).
  split; [by rewrite Hp'|]. exact (proj1 (proj2 Hs)).
Defined.

Lemma example_reloads : @reloads_within _ simple_globs example_world simple_url.
Proof. intros [] w' st; cbn [maybe_reload example_world]; intros [= _ <-]. exact example_within. Qed.

Lemma mode_stays_within_witness :
  exists s', @set_network_mode _ simple_globs example_world simple_url example_debug example_order 1 id Full
               example_proxy = (s', Ok ()) /\ mode (config (state s')) = Full.
Proof.
  destruct (@set_network_mode _ simple_globs example_world simple_url example_debug example_order 1 id Full example_proxy)
    as [s' r] eqn:Hrun. exists s'.
  assert (Hr : r = (s', r).2) by reflexivity. rewrite <-Hrun in Hr.
  assert (Hok : r = Ok ()) by (rewrite Hr; vm_compute; reflexivity). clear Hr. subst r. split; [reflexivity|].
  exact (proj2 (@mode_stays_within _ simple_globs example_world simple_url example_debug example_order example_order_ok
    1 id Full example_proxy s' example_reloads (fun s Hs => Hs) example_within Hrun)).
Defined.
