(* ===== verification/ProxyHandlers.v ===== *)
(** * The handlers of the network proxy (network-proxy/src/http_proxy.rs, socks5.rs,
      responses.rs, metadata.rs)

    What the proxy does with a CONNECT, a plain HTTP request, a SOCKS5 connection and a
    SOCKS5 datagram: the tests in their order, the blocked requests they record, the
    answers, and the contacts to the outside they end in.  Making a contact, and the
    encoding of bodies, are the surroundings'. *)

From stdpp Require Import gmap sets.
From S2P Require Import Prelude RustStd IpAddr HostPolicy HostRules ProxyConfig NetworkApproval ProxyRuntime.

(** ** Answers *)

Definition policy_protocol (p : NetworkProtocol) : str :=
  match p with
  | Http => lit "http"
  | HttpsConnect => lit "https_connect"
  | Socks5Tcp => lit "socks5_tcp"
  | Socks5Udp => lit "socks5_udp"
  end.
Definition decision_str (d : NetworkPolicyDecision) : str :=
  match d with PolicyDeny => lit "deny" | PolicyAsk => lit "ask" end.
Definition source_str (s : NetworkDecisionSource) : str :=
  match s with
  | BaselinePolicy => lit "baseline_policy"
  | ModeGuard => lit "mode_guard"
  | ProxyState => lit "proxy_state"
  | Decider => lit "decider"
  end.

Record PolicyDecisionDetails : Type := mk_details {
  details_decision : NetworkPolicyDecision;
  details_reason : str;
  details_source : NetworkDecisionSource;
  details_protocol : NetworkProtocol;
  details_host : str;
  details_port : nat;
}.

(** The fields of the JSON of a refusal. *)
Record BlockedResponse : Type := mk_blocked_response {
  br_status : str;
  br_host : str;
  br_reason : str;
  br_decision : option str;
  br_source : option str;
  br_protocol : option str;
  br_port : option nat;
  br_message : option str;
}.

Inductive Body : Type := EmptyBody | TextBody (text : str) | JsonBody (value : BlockedResponse) | OtherBody (bytes : str).

Record Response : Type := mk_response { status : nat; x_proxy_error : option str; body : Body }.

Definition text_response (status : nat) (text : str) : Response := mk_response status None (TextBody text).

Definition blocked_header_value (reason : str) : str :=
  if bool_decide (reason = REASON_NOT_ALLOWED \/ reason = REASON_NOT_ALLOWED_LOCAL) then lit "blocked-by-allowlist"
  else if bool_decide (reason = REASON_DENIED) then lit "blocked-by-denylist"
  else if bool_decide (reason = REASON_METHOD_NOT_ALLOWED) then lit "blocked-by-method-policy"
  else lit "blocked-by-policy".

Definition blocked_message (reason : str) : str :=
  if bool_decide (reason = REASON_NOT_ALLOWED) then
    lit "Codex blocked this request: domain not in allowlist (this is not a denylist block)."
  else if bool_decide (reason = REASON_NOT_ALLOWED_LOCAL) then
    lit "Codex blocked this request: local/private addresses not allowed."
  else if bool_decide (reason = REASON_DENIED) then lit "Codex blocked this request: domain denied by policy."
  else if bool_decide (reason = REASON_METHOD_NOT_ALLOWED) then
    lit "Codex blocked this request: method not allowed in limited mode."
  else lit "Codex blocked this request by network policy.".

Definition blocked_text_with_details (reason : str) (details : PolicyDecisionDetails) : Response :=
  mk_response 403 (Some (blocked_header_value reason)) (TextBody (blocked_message reason)).

Definition json_blocked (host reason : str) (details : option PolicyDecisionDetails) : Response :=
  mk_response 403 (Some (blocked_header_value reason))
    (JsonBody (mk_blocked_response (lit "blocked") host reason
       ((fun d => decision_str (details_decision d)) <$> details)
       ((fun d => source_str (details_source d)) <$> details)
       ((fun d => policy_protocol (details_protocol d)) <$> details)
       (details_port <$> details)
       ((fun _ => blocked_message reason) <$> details))).

Definition internal_error : Response := text_response 500 (lit "error").

(** ** Requests *)

(** The authority of a request, if it has one; headers as far as they are read, [x-unix-socket]
    being [Some None] when it is not text. *)
Record HttpRequest : Type := mk_http {
  http_authority : option (str * nat);
  http_method : str;
  http_client : option str;
  http_unix_socket : option (option str);
  proxy_authorization : option str;
  authorization : option str;
}.

Definition NETWORK_ATTEMPT_USERNAME_PREFIX : str := lit "codex-net-attempt-".

Definition proxy_username_for_attempt_id (attempt_id : str) : str := NETWORK_ATTEMPT_USERNAME_PREFIX ++ attempt_id.

Section attempt.
(** The decoding of base64, to text. *)
Variable base64_decode : str -> option str.

Definition attempt_id_from_proxy_authorization (header : option str) : option str :=
  raw ← header;
  encoded ← strip_prefix (lit "Basic ") raw;
  decoded ← base64_decode (trim encoded);
  let username := match split_once COLON decoded with Some (user, _) => user | None => decoded end in
  attempt_id ← strip_prefix NETWORK_ATTEMPT_USERNAME_PREFIX username;
  if bool_decide (attempt_id = []) then None else Some attempt_id.

Definition request_network_attempt_id (req : HttpRequest) : option str :=
  match attempt_id_from_proxy_authorization (proxy_authorization req) with
  | Some id => Some id
  | None => attempt_id_from_proxy_authorization (authorization req)
  end.
End attempt.

(** ** Contacts *)

Inductive contact : Type :=
  | Tunnel (host : str) (port : nat) (upstream_proxy : bool)
  | Upstream (host : str) (port : nat) (method : str) (upstream_proxy : bool)
  | UnixSocket (path method : str)
  | SocksConnect (host : str) (port : nat)
  | Datagram (host : str) (port : nat).

(** What the surroundings do with a contact: the answer of the other side, or a failure. *)
Class Contacts (W : Type) : Type := make_contact : contact -> W -> W * outcome str Response.

(** The state of the proxy, with all contacts made so far. *)
Record handler_state (W : Type) `{GlobLib} : Type := mk_handler_state { px : proxy_state W; contacts : list contact }.
Arguments mk_handler_state {W _} _ _.
Arguments px {W _} _.
Arguments contacts {W _} _.

Inductive SocksError : Type := InvalidInput | PermissionDenied (message : str) | OtherError.

Section handlers.
Context {W : Type} `{ProxyWorld W, Contacts W}.
Variable base64_decode : str -> option str.

Abbreviation handler := (io (handler_state W)).

Definition in_proxy {E A} (err : str -> E) (m : io (proxy_state W) str A) : handler E A := fun s =>
  let (p, r) := m (px s) in (mk_handler_state p (contacts s), map_err err r).

(** [let _ = ...]: an error is dropped. *)
Definition ignored {E} (m : io (proxy_state W) str ()) : handler E () := fun s =>
  let (p, r) := m (px s) in
  (mk_handler_state p (contacts s), match r with Ok _ | Err _ => Ok () | Panic => Panic | Timeout => Timeout end).

Definition contact_out {E} (c : contact) : handler E (outcome str Response) := fun s =>
  let (w, r) := make_contact c (world (px s)) in
  (mk_handler_state (mk_proxy_state w (state (px s))) (contacts s ++ [c]), Ok r).

Definition throw {E A} (e : E) : handler E A := io_of (Err e).

(** [BlockedRequest::new] and [record_blocked]. *)
Definition record_request (host reason : str) (client method : option str) (m : option NetworkMode) (protocol : str)
    (attempt_id decision source : option str) (port : nat) : io (proxy_state W) str () :=
  timestamp ← in_world unix_timestamp;
  record_blocked (mk_entry host reason client method m protocol attempt_id decision source (Some port) timestamp).

Definition proxy_disabled_response {E} (host : str) (port : nat) (client method : option str)
    (protocol : NetworkProtocol) : handler E Response :=
  _ ← ignored (record_request host REASON_PROXY_DISABLED client method None (policy_protocol protocol) None
                 (Some (lit "deny")) (Some (lit "proxy_state")) port);
  mret (text_response 503 (blocked_message REASON_PROXY_DISABLED)).

(** The record of a refusal that [details] describe. *)
Definition record_details {E} (details : PolicyDecisionDetails) (client method : option str) (m : option NetworkMode)
    (protocol : str) (attempt_id : option str) : handler E () :=
  ignored (record_request (details_host details) (details_reason details) client method m protocol attempt_id
             (Some (decision_str (details_decision details))) (Some (source_str (details_source details)))
             (details_port details)).

(** *** CONNECT *)

Definition http_connect_accept (req : HttpRequest) : handler Response (str * nat * NetworkMode) :=
  match http_authority req with
  | None => throw (text_response 400 (lit "missing authority"))
  | Some (authority_host, port) =>
      let host := normalize_host authority_host in
      if bool_decide (host = []) then throw (text_response 400 (lit "invalid host"))
      else
        let client := http_client req in
        let attempt_id := request_network_attempt_id base64_decode req in
        let connect := Some (lit "CONNECT") in
        enabled ← in_proxy (fun _ => internal_error) is_enabled;
        if negb enabled then
          resp ← proxy_disabled_response host port client connect HttpsConnect; throw resp
        else
          decision ← in_proxy (fun _ => internal_error)
                       (evaluate_host_policy (mk_request HttpsConnect host port attempt_id));
          match decision with
          | NetDeny reason source decision =>
              let details := mk_details decision reason source HttpsConnect host port in
              _ ← record_details details client connect None (lit "http-connect") attempt_id;
              throw (blocked_text_with_details reason details)
          | NetAllow =>
              m ← in_proxy (fun _ => internal_error) network_mode;
              if bool_decide (m = Limited) then
                let details := mk_details PolicyDeny REASON_METHOD_NOT_ALLOWED ModeGuard HttpsConnect host port in
                _ ← record_details details client connect (Some Limited) (lit "http-connect") attempt_id;
                throw (blocked_text_with_details REASON_METHOD_NOT_ALLOWED details)
              else mret (authority_host, port, m)
          end
  end.

(** After the answer to an accepted CONNECT: the tunnel, through the upstream proxy if that
    is allowed. *)
Definition http_connect_proxy {E} (target : str * nat) : handler E () :=
  allow ← (fun s => let (p, r) := upstream_proxy_allowed (px s) in
                    (mk_handler_state p (contacts s), match r with Err _ => Ok false | Ok b => Ok b | Panic => Panic | Timeout => Timeout end));
  _ ← contact_out (Tunnel target.1 target.2 allow);
  mret ().

(** *** Plain requests *)

(** The handler up to its early returns, which are its errors. *)
Definition unix_socket_request (req : HttpRequest) (allowed : bool) (header : option str) : handler Response Response :=
  match header with
  | None => throw (text_response 400 (lit "invalid x-unix-socket header"))
  | Some socket_path =>
      enabled ← in_proxy (fun _ => internal_error) is_enabled;
      if negb enabled then
        proxy_disabled_response socket_path 0 (http_client req) (Some (http_method req)) Http
      else if negb allowed then mret (json_blocked (lit "unix-socket") REASON_METHOD_NOT_ALLOWED None)
      else if negb target_macos then mret (text_response 501 (lit "unix sockets unsupported"))
      else
        socket_allowed ← in_proxy (fun _ => internal_error) (is_unix_socket_allowed socket_path);
        if (socket_allowed : bool) then
          r ← contact_out (UnixSocket socket_path (http_method req));
          match r with
          | Ok resp => mret resp
          | Err _ => mret (text_response 502 (lit "unix socket proxy failed"))
          | Panic => io_of Panic
          | Timeout => io_of Timeout
          end
        else mret (json_blocked (lit "unix-socket") REASON_NOT_ALLOWED None)
  end.

Definition http_plain_request (req : HttpRequest) : handler Response Response :=
  let client := http_client req in
  let attempt_id := request_network_attempt_id base64_decode req in
  allowed ← in_proxy (fun _ => internal_error) (method_allowed (http_method req));
  match http_unix_socket req with
  | Some header => unix_socket_request req allowed header
  | None =>
      match http_authority req with
      | None => throw (text_response 400 (lit "missing host"))
      | Some (authority_host, port) =>
          let host := normalize_host authority_host in
          enabled ← in_proxy (fun _ => internal_error) is_enabled;
          if negb enabled then proxy_disabled_response host port client (Some (http_method req)) Http
          else
            decision ← in_proxy (fun _ => internal_error) (evaluate_host_policy (mk_request Http host port attempt_id));
            match decision with
            | NetDeny reason source decision =>
                let details := mk_details decision reason source Http host port in
                _ ← record_details details client (Some (http_method req)) None (lit "http") attempt_id;
                mret (json_blocked host reason (Some details))
            | NetAllow =>
                if negb allowed then
                  let details := mk_details PolicyDeny REASON_METHOD_NOT_ALLOWED ModeGuard Http host port in
                  _ ← record_details details client (Some (http_method req)) (Some Limited) (lit "http") attempt_id;
                  mret (json_blocked host REASON_METHOD_NOT_ALLOWED (Some details))
                else
                  allow_upstream_proxy ← in_proxy (fun _ => internal_error) upstream_proxy_allowed;
                  r ← contact_out (Upstream authority_host port (http_method req) allow_upstream_proxy);
                  match r with
                  | Ok resp => mret resp
                  | Err _ => mret (text_response 502 (lit "upstream failure"))
                  | Panic => io_of Panic
                  | Timeout => io_of Timeout
                  end
            end
      end
  end.

Definition http_plain_proxy {E} (req : HttpRequest) : handler E Response := fun s =>
  match http_plain_request req s with
  | (s, Ok resp) | (s, Err resp) => (s, Ok resp)
  | (s, Panic) => (s, Panic)
  | (s, Timeout) => (s, Timeout)
  end.

(** *** SOCKS5 *)

Definition policy_denied_error (reason : str) : SocksError := PermissionDenied (blocked_message reason).

(** The tests that TCP connections and datagrams share; the protocol tells their names. *)
Definition socks_checks (protocol : NetworkProtocol) (label host : str) (port : nat) (client : option str)
    : handler SocksError () :=
  if bool_decide (host = []) then throw InvalidInput
  else
    let refuse (reason : str) (source : NetworkDecisionSource) (decision : NetworkPolicyDecision) (m : option NetworkMode) :=
      _ ← record_details (mk_details decision reason source protocol host port) client None m label None;
      throw (policy_denied_error reason) in
    enabled ← in_proxy (fun _ => OtherError) is_enabled;
    if negb enabled then refuse REASON_PROXY_DISABLED ProxyState PolicyDeny None
    else
      m ← in_proxy (fun _ => OtherError) network_mode;
      if bool_decide (m = Limited) then refuse REASON_METHOD_NOT_ALLOWED ModeGuard PolicyDeny (Some Limited)
      else
        decision ← in_proxy (fun _ => OtherError) (evaluate_host_policy (mk_request protocol host port None));
        match decision with
        | NetDeny reason source decision => refuse reason source decision None
        | NetAllow => mret ()
        end.

Definition handle_socks5_tcp (authority_host : str) (port : nat) (client : option str) : handler SocksError Response :=
  _ ← socks_checks Socks5Tcp (lit "socks5") (normalize_host authority_host) port client;
  r ← contact_out (SocksConnect authority_host port);
  io_of (map_err (fun _ => OtherError) r).

(** The payload of a datagram is relayed, or the datagram refused. *)
Definition inspect_socks5_udp (server_ip : str) (port : nat) (client : option str) : handler SocksError () :=
  _ ← socks_checks Socks5Udp (lit "socks5-udp") (normalize_host server_ip) port client;
  _ ← contact_out (Datagram server_ip port);
  mret ().
End handlers.
