(* ===== verification/ProxySafety.v ===== *)
(** * What the network proxy contacts (network-proxy/src/http_proxy.rs, socks5.rs, runtime.rs)

    Requests served one after the other, by the handlers of ProxyHandlers, from whatever
    configurations reloads bring; the theorems say of every contact made that it was
    authorised, what the limited mode and the denied domains exclude, and that attempt
    ids survive their way through the headers. *)

From stdpp Require Import gmap sets.
From S2P Require Import Prelude RustStd IpAddr HostPolicy HostRules ProxyConfig NetworkApproval ProxyRuntime ProxyHandlers.

(** ** Triples *)

(** The invariant [I] survives [m], whatever its outcome, and [Q] holds of its result. *)
Definition keeps {S E A} (I : S -> Prop) (m : io S E A) (Q : A -> Prop) : Prop :=
  forall s, I s -> I (m s).1 /\ forall a, (m s).2 = Ok a -> Q a.

Section keeps.
Context {S E : Type} (I : S -> Prop).

Lemma keeps_ret {A} (a : A) (Q : A -> Prop) : Q a -> keeps I (mret a : io S E A) Q.
Proof. intros Ha s Hs. split; [done|]. by intros a' [= <-]. Qed.

Lemma keeps_of {A} (m : outcome E A) : keeps I (io_of m : io S E A) (fun a => m = Ok a).
Proof. by intros s Hs. Qed.

Lemma keeps_bind {A B} (m : io S E A) (f : A -> io S E B) (Q : A -> Prop) (R : B -> Prop) :
  keeps I m Q -> (forall a, Q a -> keeps I (f a) R) -> keeps I (m ≫= f) R.
Proof.
  intros Hm Hf s Hs. destruct (Hm s Hs) as [Hs1 Ha]. unfold mbind, io_bind.
  destruct (m s) as [s1 [a|e| |]]; cbn [fst snd] in *; [|done..]. exact (Hf a (Ha a eq_refl) s1 Hs1).
Qed.

Lemma keeps_weaken {A} (m : io S E A) (Q R : A -> Prop) : keeps I m Q -> (forall a, Q a -> R a) -> keeps I m R.
Proof. intros Hm HQR s Hs. destruct (Hm s Hs) as [Hs1 Ha]. split; [done|]. intros a Hr. by apply HQR, Ha. Qed.

Lemma keeps_any {A} (m : io S E A) (Q : A -> Prop) : keeps I m Q -> keeps I m (fun _ => True).
Proof. intros Hm. exact (keeps_weaken _ _ _ Hm (fun _ _ => Logic.I)). Qed.

Lemma keeps_get {A} (f : S -> outcome E A) (Q : A -> Prop) :
  (forall s a, I s -> f s = Ok a -> Q a) -> keeps I (io_get f) Q.
Proof. intros Hf s Hs. split; [done|]. intros a Ha. exact (Hf s a Hs Ha). Qed.

Lemma keeps_map_err {F A} (err : E -> F) (m : io S E A) (Q : A -> Prop) : keeps I m Q -> keeps I (io_map_err err m) Q.
Proof.
  intros Hm s Hs. destruct (Hm s Hs) as [Hs1 Ha]. rewrite io_map_err_state. split; [done|].
  intros a Hr. apply Ha. unfold io_map_err in Hr. destruct (m s) as [s1 r]. cbn [snd] in *. by apply map_err_Ok in Hr.
Qed.
End keeps.

(** ** Requests *)

Inductive proxy_request : Type :=
  | ConnectRequest (req : HttpRequest)
  | PlainRequest (req : HttpRequest)
  | SocksRequest (host : str) (port : nat) (client : option str)
  | DatagramRequest (server_ip : str) (port : nat) (client : option str).

Section serve.
Context {W : Type} `{ProxyWorld W, Contacts W}.
Variable base64_decode : str -> option str.

Definition serve (r : proxy_request) : io (handler_state W) () () :=
  match r with
  | ConnectRequest req =>
      io_map_err (fun _ => ()) ('(host, port, _) ← http_connect_accept base64_decode req; http_connect_proxy (host, port))
  | PlainRequest req => _ ← http_plain_proxy base64_decode req; mret ()
  | SocksRequest host port client => io_map_err (fun _ => ()) (_ ← handle_socks5_tcp host port client; mret ())
  | DatagramRequest ip port client => io_map_err (fun _ => ()) (inspect_socks5_udp ip port client)
  end.

(** The state after some requests. *)
Definition serve_all (rs : list proxy_request) (s : handler_state W) : handler_state W :=
  foldl (fun s r => (serve r s).1) s rs.
End serve.

(** ** Authority *)

Section authority.
Context {W : Type} `{ProxyWorld W, Contacts W}.
Variable base64_decode : str -> option str.

(** A property of the configurations that can be in force. *)
Variable P : ConfigState -> Prop.
Definition in_force (Q : ConfigState -> Prop) : Prop := exists st, P st /\ Q st.

Definition serving : Prop := in_force (fun st => enabled (config st) = true).
Definition in_full_mode : Prop := in_force (fun st => mode (config st) = Full).
Definition in_mode_of (method : str) : Prop := in_force (fun st => allows_method (mode (config st)) method = true).

(** A host may be contacted: by the configuration, or, where it says neither yes nor no,
    by the decider. *)
Definition host_authorised (protocol : NetworkProtocol) (authority_host : str) (port : nat) (id : option str) : Prop :=
  let host := normalize_host authority_host in
  exists w, in_force (fun st =>
    verdict st (normalize_host host) port w = HostAllowed \/
    verdict st (normalize_host host) port w = HostBlocked NotAllowed /\
    exists decide w', policy_decider = Some decide /\ (decide (mk_request protocol host port id) w').2 = NetAllow).

Definition socket_authorised (path : str) : Prop :=
  target_macos = true /\ is_absolute path = true /\
  exists w, in_force (fun st => exists allowed, allowed ∈ allow_unix_sockets (config st) /\
    (allowed = path \/
     exists requested real, from_absolute_path path = Some requested /\
       canonicalize requested w = Some real /\ canonicalize allowed w = Some real)).

Definition authorised (c : contact) : Prop :=
  serving /\
  match c with
  | Tunnel host port upstream =>
      in_full_mode /\ (exists id, host_authorised HttpsConnect host port id) /\
      (upstream = true -> in_force (fun st => allow_upstream_proxy (config st) = true))
  | Upstream host port method upstream =>
      in_mode_of method /\ (exists id, host_authorised Http host port id) /\
      (upstream = true -> in_force (fun st => allow_upstream_proxy (config st) = true))
  | UnixSocket path method => in_mode_of method /\ socket_authorised path
  | SocksConnect host port => in_full_mode /\ host_authorised Socks5Tcp host port None
  | Datagram ip port => in_full_mode /\ host_authorised Socks5Udp ip port None
  end.

(** Reloads, and only they, bring configurations; the buffer of blocked requests is
    none of its business. *)
Definition reloads_keep : Prop :=
  (forall w w' st, maybe_reload w = (w', Ok (Some st)) -> P st) /\ (forall st b n, P st -> P (keep_blocked st b n)).

Context (Hreload : reloads_keep).

Definition proxy_ok (s : proxy_state W) : Prop := P (state s).
Definition all_authorised (s : handler_state W) : Prop := proxy_ok (px s) /\ Forall authorised (contacts s).

Lemma keeps_reload : keeps proxy_ok reload_if_needed (fun _ => True).
Proof.
  intros s Hs. split; [|done]. rewrite reload_run. unfold proxy_ok in *.
  destruct (maybe_reload (world s)) as [w [[st|]|e| |]] eqn:Hm; cbn [fst state]; [|done..].
  apply (proj2 Hreload). exact (proj1 Hreload _ _ _ Hm).
Qed.

Lemma keeps_in_world {A} (f : W -> W * A) : keeps proxy_ok (in_world f) (fun a => exists w, a = (f w).2).
Proof.
  intros s Hs. unfold in_world. destruct (f (world s)) as [w a] eqn:Hf. cbn [fst snd]. split; [done|].
  intros a' [= <-]. exists (world s). by rewrite Hf.
Qed.

Lemma keeps_current {A} (f : ConfigState -> A) : keeps proxy_ok (current f) (fun a => in_force (fun st => f st = a)).
Proof.
  unfold current. eapply keeps_bind; [exact keeps_reload|]. intros [] _. apply keeps_get.
  intros s a Hs [= <-]. exists (state s). by split.
Qed.

Lemma keeps_run {A} (m : io (proxy_state W) str A) (Q : A -> Prop) :
  keeps proxy_ok m (fun _ => True) -> (forall s s' a, proxy_ok s -> m s = (s', Ok a) -> Q a) -> keeps proxy_ok m Q.
Proof.
  intros Hm HQ s Hs. split; [by apply Hm|]. intros a Ha. apply (HQ s (m s).1 a Hs). rewrite <-Ha. by destruct (m s).
Qed.

Lemma keeps_host_blocked host port :
  keeps proxy_ok (host_blocked host port)
    (fun d => exists w, in_force (fun st => verdict st (normalize_host host) port w = d)).
Proof.
  intros s Hs. assert (Hany : keeps proxy_ok (host_blocked host port) (fun _ => True)).
  { unfold host_blocked. eapply (keeps_bind proxy_ok); [exact keeps_reload|]. intros [] _.
    destruct (Host_parse host) as [h|]; [|by apply keeps_ret].
    eapply keeps_bind; [apply (keeps_get proxy_ok _ (fun _ => True)); done|]. intros st _.
    case_match; [by apply keeps_ret|]. apply keeps_bind with (fun _ => True).
    - case_match; [by apply keeps_ret|]. case_match; [by apply keeps_ret|]. unfold host_resolves_to_non_public_ip.
      case_match; [by apply keeps_ret|]. eapply keeps_bind; [apply keeps_in_world|]. intros [l|] _; by apply keeps_ret.
    - intros [] _; [by apply keeps_ret|]. case_match; by apply keeps_ret. }
  pose proof (proj1 (Hany s Hs)) as Hok. split; [exact Hok|]. intros d Hd. destruct (host_blocked_run s (host_blocked host port s).1 host port d)
    as (s1 & _ & Hst & ->); [rewrite <-Hd; by destruct (host_blocked host port s)|].
  exists (world s1), (state s1). split; [by rewrite <-Hst|done].
Qed.

Lemma keeps_evaluate protocol host port id :
  keeps proxy_ok (evaluate_host_policy (mk_request protocol (normalize_host host) port id))
    (fun d => d = NetAllow -> host_authorised protocol host port id).
Proof.
  unfold evaluate_host_policy. eapply keeps_bind; [apply keeps_host_blocked|]. cbn [req_host req_port].
  intros d [w (st & Hst & Hd)]. destruct d as [|[]]; try (by apply keeps_ret).
  - apply keeps_ret. intros _. exists w, st. by split; [|left].
  - destruct policy_decider as [decide|] eqn:Hdec; [|by apply keeps_ret].
    eapply keeps_bind; [apply keeps_in_world|]. intros d' [w' ->]. apply keeps_ret.
    destruct (decide _ w').2 as [|reason source decision] eqn:Hd'; [|done]. intros _. exists w, st. split; [done|].
    right. split; [done|]. by exists decide, w'.
Qed.

Lemma keeps_put f (Q : () -> Prop) :
  (forall st, P st -> P (f st)) -> Q () -> keeps proxy_ok (st ← read_state id; put_state (f st)) Q.
Proof. intros Hf HQ s Hs. split; [by apply Hf|]. by intros [] _. Qed.

Lemma keeps_record entry : keeps proxy_ok (record_blocked entry) (fun _ => True).
Proof.
  unfold record_blocked. eapply keeps_bind; [exact keeps_reload|]. intros [] _ s Hs. split; [|done].
  by apply (proj2 Hreload).
Qed.

Lemma keeps_record_request host reason client method m protocol attempt_id decision source port :
  keeps proxy_ok (record_request host reason client method m protocol attempt_id decision source port) (fun _ => True).
Proof. unfold record_request. eapply keeps_bind; [apply keeps_in_world|]. intros ts _. apply keeps_record. Qed.

Lemma keeps_unix_socket path : keeps proxy_ok (is_unix_socket_allowed path) (fun b => b = true -> socket_authorised path).
Proof.
  unfold is_unix_socket_allowed, socket_authorised. eapply keeps_bind; [exact keeps_reload|]. intros [] _.
  destruct target_macos; [|by apply keeps_ret]. destruct (is_absolute path); [|by apply keeps_ret]. cbn [negb].
  destruct (from_absolute_path path) as [requested|]; [|by apply keeps_ret].
  eapply keeps_bind; [by apply (keeps_get proxy_ok _ proxy_ok); intros s s' Hs [= <-]|]. intros s Hs. apply keeps_ret.
  intros Hex. split; [done|]. split; [done|]. exists (world s), (state s). split; [done|].
  apply existsb_exists in Hex as (allowed & Hin & Hm). apply list_elem_of_In in Hin. exists allowed. split; [done|].
  apply orb_true_iff in Hm as [->%bool_decide_eq_true|Hm]; [by left|]. right.
  destruct (canonicalize requested (world s)) as [real|] eqn:Hreal; [|done]. apply bool_decide_eq_true in Hm. by exists requested, real.
Qed.

(** *** Handlers *)

Lemma keeps_in_proxy {E A} (err : str -> E) (m : io (proxy_state W) str A) (Q : A -> Prop) :
  keeps proxy_ok m Q -> keeps all_authorised (in_proxy err m) Q.
Proof.
  intros Hm s [Hp Hc]. destruct (Hm _ Hp) as [Hp' Ha]. unfold in_proxy. destruct (m (px s)) as [p r]. cbn [fst snd] in *.
  split; [by split|]. intros a Hr. apply Ha. by apply map_err_Ok in Hr.
Qed.

Lemma keeps_ignored {E} (m : io (proxy_state W) str ()) :
  keeps proxy_ok m (fun _ => True) -> keeps (E := E) all_authorised (ignored m) (fun _ => True).
Proof. intros Hm s [Hp Hc]. destruct (Hm _ Hp) as [Hp' _]. unfold ignored. by destruct (m (px s)) as [p r]. Qed.

Lemma keeps_contact {E} (c : contact) : authorised c -> keeps (E := E) all_authorised (contact_out c) (fun _ => True).
Proof.
  intros Hc s [Hp Hs]. unfold contact_out. destruct (make_contact c (world (px s))) as [w r]. cbn [fst snd]. split; [|done].
  split; [exact Hp|]. cbn [contacts]. apply Forall_app. split; [exact Hs|]. by apply Forall_singleton.
Qed.

Lemma keeps_throw {E A} (e : E) (Q : A -> Prop) : keeps all_authorised (throw e) Q.
Proof. by intros s Hs. Qed.

Lemma keeps_details {E} details client method m protocol id :
  keeps (E := E) all_authorised (record_details details client method m protocol id) (fun _ => True).
Proof. apply keeps_ignored, keeps_record_request. Qed.

Lemma keeps_disabled {E} host port client method protocol :
  keeps (E := E) all_authorised (proxy_disabled_response host port client method protocol) (fun _ => True).
Proof.
  unfold proxy_disabled_response. eapply keeps_bind; [apply keeps_ignored, keeps_record_request|].
  intros [] _. by apply keeps_ret.
Qed.

Ltac step lem := eapply keeps_bind; [apply lem|].
Ltac proxy_step lem := eapply keeps_bind; [apply keeps_in_proxy, lem|].
Ltac refusal := step @keeps_details; intros [] _; apply keeps_throw.

Lemma full_of_not_limited m : in_force (fun st => mode (config st) = m) -> m <> Limited -> in_full_mode.
Proof. intros Hm Hl. by destruct m. Qed.

Lemma keeps_accept req :
  keeps all_authorised (http_connect_accept base64_decode req)
    (fun '(host, port, m) => serving /\ in_full_mode /\ exists id, host_authorised HttpsConnect host port id).
Proof.
  unfold http_connect_accept. destruct (http_authority req) as [[host port]|]; [|apply keeps_throw].
  case_bool_decide; [apply keeps_throw|]. proxy_step @keeps_current. intros [] Hen; cbn [negb].
  - proxy_step @keeps_evaluate. intros [|reason source decision] Hd; [|refusal].
    proxy_step @keeps_current. intros m Hm. case_bool_decide as Hl; [refusal|]. apply keeps_ret.
    split; [exact Hen|]. split; [exact (full_of_not_limited m Hm Hl)|]. exists (request_network_attempt_id base64_decode req).
    by apply Hd.
  - step @keeps_disabled. intros resp _. apply keeps_throw.
Qed.

Lemma keeps_connect_proxy {E} host port :
  serving -> in_full_mode -> (exists id, host_authorised HttpsConnect host port id) ->
  keeps (E := E) all_authorised (http_connect_proxy (host, port)) (fun _ => True).
Proof.
  intros Hs Hf Hh. unfold http_connect_proxy.
  apply keeps_bind with (fun up => up = true -> in_force (fun st => allow_upstream_proxy (config st) = true)).
  - intros s [Hp Hc]. destruct (keeps_current (fun st => allow_upstream_proxy (config st)) _ Hp) as [Hp' Ha]. unfold upstream_proxy_allowed.
    destruct (current _ (px s)) as [p [b|e| |]]; cbn [fst snd] in *; (split; [by split|]); [|by intros ? [= <-]|done..].
    intros b' [= <-] ->. by apply Ha.
  - intros up Hup. step @keeps_contact; [|by intros; apply keeps_ret]. by split.
Qed.

Lemma keeps_answer {E} c (f : str -> Response) :
  authorised c ->
  keeps (E := E) all_authorised
    (r ← contact_out c;
     match r with Ok resp => mret resp | Err e => mret (f e) | Panic => io_of Panic | Timeout => io_of Timeout end)
    (fun _ => True).
Proof.
  intros Hc. step @keeps_contact; [exact Hc|]. intros [resp|e| |] _; try (by apply keeps_ret);
    eapply keeps_any, keeps_of.
Qed.

Lemma keeps_unix_request req allowed header :
  (allowed = true -> in_mode_of (http_method req)) ->
  keeps all_authorised (unix_socket_request req allowed header) (fun _ => True).
Proof.
  intros Hal. unfold unix_socket_request. destruct header as [path|]; [|apply keeps_throw].
  proxy_step @keeps_current. intros [] Hen; cbn [negb]; [|apply keeps_disabled].
  destruct allowed; cbn [negb]; [|by apply keeps_ret]. destruct target_macos eqn:Hmac; [|by apply keeps_ret]. cbn [negb].
  proxy_step @keeps_unix_socket. intros [] Hs; [|by apply keeps_ret]. apply keeps_answer. split; [exact Hen|]. auto.
Qed.

Lemma keeps_plain req : keeps all_authorised (http_plain_request base64_decode req) (fun _ => True).
Proof.
  unfold http_plain_request. proxy_step @keeps_current. intros allowed Hal.
  destruct (http_unix_socket req) as [header|].
  { apply keeps_unix_request. by intros ->. }
  destruct (http_authority req) as [[host port]|]; [|apply keeps_throw].
  proxy_step @keeps_current. intros [] Hen; cbn [negb]; [|apply keeps_disabled].
  proxy_step @keeps_evaluate. intros [|reason source decision] Hd; [|step @keeps_details; intros [] _; by apply keeps_ret].
  destruct allowed; cbn [negb]; [|step @keeps_details; intros [] _; by apply keeps_ret].
  proxy_step @keeps_current. intros up Hup. apply keeps_answer. split; [exact Hen|]. split; [exact Hal|].
  split; [by eexists; apply Hd|]. by intros ->.
Qed.

Lemma keeps_socks protocol label host port client :
  keeps all_authorised (socks_checks protocol label (normalize_host host) port client)
    (fun _ => serving /\ in_full_mode /\ host_authorised protocol host port None).
Proof.
  unfold socks_checks. case_bool_decide; [apply keeps_throw|]. proxy_step @keeps_current.
  intros [] Hen; cbn [negb]; [|refusal]. proxy_step @keeps_current. intros m Hm. case_bool_decide as Hl; [refusal|].
  proxy_step @keeps_evaluate. intros [|reason source decision] Hd; [|refusal]. apply keeps_ret.
  split; [exact Hen|]. split; [exact (full_of_not_limited m Hm Hl)|]. by apply Hd.
Qed.

Lemma keeps_serve r : keeps all_authorised (serve base64_decode r) (fun _ => True).
Proof.
  destruct r as [req|req|host port client|ip port client]; cbn [serve].
  - apply keeps_map_err. step @keeps_accept. intros [[host port] m] (Hs & Hf & Hh). by apply keeps_connect_proxy.
  - eapply (keeps_bind all_authorised _ _ (fun _ => True)); [|by intros; apply keeps_ret]. intros s Hs.
    destruct (keeps_plain req s Hs) as [Hs' _]. split; [|done]. unfold http_plain_proxy.
    by destruct (http_plain_request base64_decode req s) as [s1 [a|e| |]].
  - apply keeps_map_err. eapply (keeps_bind all_authorised _ _ (fun _ => True)); [|by intros; apply keeps_ret].
    unfold handle_socks5_tcp. step @keeps_socks. intros [] (Hs & Hf & Hh). step @keeps_contact; [by split|].
    intros out _. eapply keeps_any, keeps_of.
  - apply keeps_map_err. unfold inspect_socks5_udp. step @keeps_socks. intros [] (Hs & Hf & Hh).
    step @keeps_contact; [by split|]. intros out _. by apply keeps_ret.
Qed.

Lemma serve_all_authorised rs s : all_authorised s -> all_authorised (serve_all base64_decode rs s).
Proof.
  revert s. induction rs as [|r rs IH]; intros s Hs; [done|]. cbn [serve_all foldl].
  apply IH. by apply (keeps_serve r s Hs).
Qed.
End authority.

(** ** Safety *)

Section safety.
Context {W : Type} `{GlobLaws, !ProxyWorld W, Contacts W}.
Variable base64_decode : str -> option str.

(** The host a contact goes to. *)
Definition contact_host (c : contact) : option str :=
  match c with
  | Tunnel host _ _ | Upstream host _ _ _ | SocksConnect host _ | Datagram host _ => Some host
  | UnixSocket _ _ => None
  end.

(** Only reading: a plain request with a method of the limited mode, or one to a Unix
    socket. *)
Definition reads_only (c : contact) : Prop :=
  match c with
  | Upstream _ _ method _ | UnixSocket _ method => method ∈ [lit "GET"; lit "HEAD"; lit "OPTIONS"]
  | _ => False
  end.

(** A host that no configuration of this kind lets through: denied, or a local address
    that is neither named by an entry nor allowed altogether. *)
Definition off_limits (h : str) (st : ConfigState) : Prop :=
  sets_ok st /\
  (covered (denied_domains (config st)) h \/
   allow_local_binding (config st) = false /\ local_literal h = true /\ ~ listed (allowed_domains (config st)) h).

Lemma authorised_not_denied (P : ConfigState -> Prop) c host :
  authorised P c -> contact_host c = Some host ->
  exists st port w, P st /\ (verdict st (normalize_host (normalize_host host)) port w = HostAllowed \/
    verdict st (normalize_host (normalize_host host)) port w = HostBlocked NotAllowed).
Proof.
  intros [_ Hc] Hh. assert (Hauth : exists protocol id port, host_authorised P protocol host port id).
  { destruct c as [h p up|h p me up|path me|h p|h p]; [..|]; try discriminate Hh; injection Hh as ->.
    - destruct Hc as (_ & [id Ha] & _). by exists HttpsConnect, id, p.
    - destruct Hc as (_ & [id Ha] & _). by exists Http, id, p.
    - destruct Hc as (_ & Ha). by exists Socks5Tcp, None, p.
    - destruct Hc as (_ & Ha). by exists Socks5Udp, None, p. }
  destruct Hauth as (protocol & id & port & w & st & Hst & Hv). exists st, port, w. split; [done|].
  destruct Hv as [Hv|[Hv _]]; auto.
Qed.

Lemma off_limits_verdict h st port w :
  h <> [] -> off_limits h st -> verdict st h port w <> HostAllowed /\ verdict st h port w <> HostBlocked NotAllowed.
Proof.
  intros Hh [Hok Hoff]. unfold verdict. rewrite bool_decide_eq_false_2 by done.
  destruct (globset_is_match (deny_set st) h) eqn:Hd; [done|]. destruct Hoff as [Hcov|(Hb & Hl & Hn)].
  { apply (sets_deny st h Hok) in Hcov. congruence. }
  assert (Ht : local_test st h port w = true).
  { unfold local_test. rewrite Hb, Hl. apply negb_true_iff, not_true_iff_false. by rewrite explicit_listed. }
  by rewrite Ht.
Qed.

Lemma limited_reads_only (P : ConfigState -> Prop) c :
  (forall st, P st -> mode (config st) = Limited) -> authorised P c -> reads_only c.
Proof.
  intros HP [_ Hc]. assert (Hfull : ~ in_full_mode P). { intros (st & Hst & Hm). rewrite (HP st Hst) in Hm. done. }
  assert (Hmode : forall method, in_mode_of P method -> method ∈ [lit "GET"; lit "HEAD"; lit "OPTIONS"]).
  { intros method (st & Hst & Hm). rewrite (HP st Hst) in Hm. by apply bool_decide_eq_true in Hm. }
  destruct c; cbn [reads_only]; destruct Hc as [Hc1 Hc2]; auto.
Qed.


(** While the mode is limited the proxy only reads: no tunnel, SOCKS connection or
    datagram is ever made, and plain requests are GET, HEAD or OPTIONS, whatever the
    decider answers. *)
Theorem limited_mode_reads_only (P : ConfigState -> Prop) rs s :
  reloads_keep P -> (forall st, P st -> mode (config st) = Limited) -> P (state (px s)) -> contacts s = [] ->
  Forall reads_only (contacts (serve_all base64_decode rs s)).
Proof.
  intros Hr HP Hs Hnil. eapply Forall_impl; [|intros c Hc; exact (limited_reads_only P c HP Hc)].
  apply (serve_all_authorised base64_decode P Hr rs s). split; [exact Hs|]. rewrite Hnil. constructor.
Qed.

(** C27. A host that is denied, or a local address not named in full while local addresses
    are refused, is never contacted: the decider cannot lift such a verdict. *)
Theorem off_limits_never_contacted (P : ConfigState -> Prop) h rs s :
  reloads_keep P -> (forall st, P st -> off_limits h st) -> h <> [] -> P (state (px s)) -> contacts s = [] ->
  Forall (fun c => forall host, contact_host c = Some host -> normalize_host (normalize_host host) <> h)
    (contacts (serve_all base64_decode rs s)).
Proof.
  intros Hr HP Hh Hs Hnil. eapply Forall_impl.
  - apply (serve_all_authorised base64_decode P Hr rs s). split; [exact Hs|]. rewrite Hnil. constructor.
  - intros c Hc host Hhost Heq. destruct (authorised_not_denied P c host Hc Hhost) as (st & port & w & Hst & Hv).
    rewrite Heq in Hv. destruct (off_limits_verdict h st port w Hh (HP st Hst)) as [V1 V2]. by destruct Hv.
Qed.
End safety.

(** ** Attempt ids *)

Section attempts.
Variables (base64_encode : str -> str) (base64_decode : str -> option str).

(** Base64 yields what was encoded, and encodes without spaces. *)
Definition base64_laws : Prop :=
  (forall s, base64_decode (base64_encode s) = Some s) /\
  (forall s, Forall (fun c => is_whitespace c = false) (base64_encode s)).

(** The header a client sends for the user name and no password, or an empty one. *)
Definition basic_header (username : str) : str := lit "Basic " ++ base64_encode (username ++ lit ":").

Lemma split_once_app c a b : c ∉ a -> split_once c (a ++ c :: b) = Some (a, b).
Proof.
  induction a as [|x a IH]; cbn [app split_once]; intros Ha; [by rewrite bool_decide_eq_true_2|].
  rewrite bool_decide_eq_false_2 by set_solver. by rewrite IH by set_solver.
Qed.

(** The attempt id that the proxy's URL carries as its user name comes back from the
    credentials of the request, in whichever of the two headers they arrive. *)
Theorem attempt_id_roundtrip id req :
  base64_laws -> id <> [] -> COLON ∉ id ->
  let header := Some (basic_header (proxy_username_for_attempt_id id)) in
  proxy_authorization req = header \/ proxy_authorization req = None /\ authorization req = header ->
  request_network_attempt_id base64_decode req = Some id.
Proof.
  intros [Hdec Hsp] Hid Hc. cbv zeta. unfold request_network_attempt_id.
  assert (Hround : attempt_id_from_proxy_authorization base64_decode
            (Some (basic_header (proxy_username_for_attempt_id id))) = Some id).
  { unfold attempt_id_from_proxy_authorization, basic_header. cbn [mbind option_bind].
    rewrite strip_prefix_app. cbn [mbind option_bind]. rewrite trim_no_space by apply Hsp. rewrite Hdec.
    cbn [mbind option_bind]. change (lit ":") with [COLON]. rewrite split_once_app.
    - unfold proxy_username_for_attempt_id. rewrite strip_prefix_app. cbn [mbind option_bind].
      by rewrite bool_decide_eq_false_2.
    - unfold proxy_username_for_attempt_id. rewrite not_elem_of_app. split; [|exact Hc].
      apply (bool_decide_unpack _). vm_compute. exact I. }
  intros [->|[-> ->]]; by rewrite Hround.
Qed.
End attempts.

(** ** Examples *)

Definition example_contacts : Contacts bool := fun _ w => (w, Ok (text_response 200 [])).

Definition example_handlers : @handler_state bool simple_globs := mk_handler_state example_proxy [].

(** The configuration of the examples, up to its blocked requests. *)
Definition example_in_force (st : @ConfigState simple_globs) : Prop := exists b n, st = keep_blocked example_config b n.

Definition example_request (method host : str) : HttpRequest :=
  mk_http (Some (host, 80)) method None None None None.

Definition example_requests : list proxy_request :=
  [PlainRequest (example_request (lit "GET") (lit "c.com")); PlainRequest (example_request (lit "POST") (lit "a.com"));
   ConnectRequest (example_request (lit "CONNECT") (lit "a.com")); PlainRequest (example_request (lit "GET") (lit "b.com"));
   SocksRequest (lit "a.com") 443 None].

Definition example_served : handler_state bool :=
  @serve_all bool simple_globs example_world example_contacts (fun _ => None) example_requests example_handlers.

(** Only the first request goes through, by the decider's consent. *)
Example example_served_contacts : contacts example_served = [Upstream (lit "c.com") 80 (lit "GET") false].
Proof. vm_compute. reflexivity. Qed.

Lemma example_keeps : @reloads_keep _ simple_globs example_world example_in_force.
Proof.
  split; [|by intros st b n (b' & n' & ->); exists b, n].
  intros [] w' st; cbn [maybe_reload example_world]; intros [= _ <-]. by exists [], 0%N.
Qed.

Lemma example_force : example_in_force (state (px example_handlers)).
Proof. by exists [], 0%N. Qed.


Lemma limited_mode_reads_only_witness : Forall reads_only (contacts example_served).
Proof.
  refine (@limited_mode_reads_only bool simple_globs example_world example_contacts (fun _ => None) example_in_force
    example_requests example_handlers example_keeps _ example_force eq_refl).
  intros st (b & n & ->). reflexivity.
Defined.

Lemma off_limits_never_contacted_witness :
  Forall (fun c => forall host, contact_host c = Some host -> normalize_host (normalize_host host) <> lit "b.com")
    (contacts example_served).
Proof.
  refine (@off_limits_never_contacted bool simple_globs simple_globs_laws example_world example_contacts (fun _ => None)
    example_in_force (lit "b.com") example_requests example_handlers example_keeps _ _ example_force eq_refl); [|done].
  intros st (b & n & ->). split; [exact example_sets_ok|]. left. exists (lit "b.com"). split; [by left|reflexivity].
Defined.

(** Something that encodes to text without spaces: every character by its number of marks. *)
Fixpoint unary_encode (s : str) : str :=
  match s with [] => [] | c :: s => replicate (N.to_nat c) (ch "a") ++ ch "b" :: unary_encode s end.
Fixpoint unary_decode (n : N) (s : str) : option str :=
  match s with
  | [] => if (n =? 0)%N then Some [] else None
  | c :: s => if (c =? ch "a")%N then unary_decode (n + 1) s else r ← unary_decode 0 s; Some (n :: r)
  end.

Lemma unary_laws : base64_laws unary_encode (unary_decode 0).
Proof.
  split.
  - intros s. induction s as [|c s IH]; [done|]. cbn [unary_encode].
    assert (Hgo : forall k n r, unary_decode n (replicate k (ch "a") ++ ch "b" :: r)
                    = (t ← unary_decode 0 r; Some ((n + N.of_nat k)%N :: t))).
    { induction k as [|k IHk]; intros n r; cbn [replicate app unary_decode].
      { change (ch "b" =? ch "a")%N with false. by rewrite N.add_0_r. }
      rewrite N.eqb_refl, IHk. by replace (n + 1 + N.of_nat k)%N with (n + N.of_nat (S k))%N by lia. }
    rewrite Hgo, IH. cbn [mbind option_bind]. by rewrite N2Nat.id.
  - intros s. induction s as [|c s IH]; [constructor|]. cbn [unary_encode]. apply Forall_app. split.
    + by apply Forall_replicate.
    + by constructor; [|exact IH].
Qed.

Lemma attempt_id_roundtrip_witness :
  request_network_attempt_id (unary_decode 0)
    (mk_http None [] None None None (Some (basic_header unary_encode (proxy_username_for_attempt_id (lit "42")))))
  = Some (lit "42").
Proof.
  apply (attempt_id_roundtrip unary_encode (unary_decode 0) (lit "42")); [exact unary_laws|done| |right; by split].
  apply (bool_decide_unpack _). vm_compute. exact I.
Defined.
