(* ===== verification/TomlValues.v ===== *)
(** * TOML values (config/src/merge.rs, overrides.rs, fingerprint.rs)

    The trees that configuration layers hold, their merge, the overrides of the command
    line as a tree, the origins of settings, and copying the shape of one tree onto
    another (core/src/config_loader/mod.rs). *)

From Stdlib Require Import Sorted.
From stdpp Require Import gmap.
From S2P Require Import Prelude RustStd Order.

(** ** Values *)

Inductive scalar : Type :=
  | TomlString (s : str)
  | TomlInteger (z : Z)
  | TomlFloat (bits : Z)
  | TomlBoolean (b : bool)
  | TomlDatetime (text : str).
#[export] Instance scalar_eq_dec : EqDecision scalar.
Proof. solve_decision. Defined.

(** A table is a [BTreeMap]: its entries by increasing key. *)
Inductive TomlValue : Type :=
  | Scalar (s : scalar)
  | TomlArray (items : list TomlValue)
  | Table (entries : list (str * TomlValue)).

Definition empty_table : TomlValue := Table [].

Fixpoint table_get (k : str) (t : list (str * TomlValue)) : option TomlValue :=
  match t with
  | [] => None
  | (k', v) :: t => if bool_decide (k' = k) then Some v else table_get k t
  end.

(** [insert], which replaces the value of a key that is there. *)
Fixpoint table_insert (k : str) (v : TomlValue) (t : list (str * TomlValue)) : list (str * TomlValue) :=
  match t with
  | [] => [(k, v)]
  | (k', v') :: t =>
      match str_compare k k' with
      | Eq => (k, v) :: t
      | Lt => (k, v) :: (k', v') :: t
      | Gt => (k', v') :: table_insert k v t
      end
  end.

(** Induction that reaches into arrays and tables. *)
Lemma toml_ind (P : TomlValue -> Prop) :
  (forall s, P (Scalar s)) ->
  (forall items, Forall P items -> P (TomlArray items)) ->
  (forall entries, Forall (fun e => P e.2) entries -> P (Table entries)) ->
  forall v, P v.
Proof.
  intros Hs Ha Ht. fix IH 1. intros [s|items|entries]; [apply Hs|apply Ha|apply Ht].
  - induction items as [|v items IHi]; constructor; [apply IH|exact IHi].
  - induction entries as [|[k v] entries IHe]; constructor; [apply IH|exact IHe].
Qed.

(** ** Merging *)

Fixpoint merge_toml_values (base overlay : TomlValue) {struct overlay} : TomlValue :=
  match overlay, base with
  | Table overlay_table, Table base_table =>
      Table ((fix go (o b : list (str * TomlValue)) : list (str * TomlValue) :=
                match o with
                | [] => b
                | (key, value) :: o =>
                    match table_get key b with
                    | Some existing => go o (table_insert key (merge_toml_values existing value) b)
                    | None => go o (table_insert key value b)
                    end
                end) overlay_table base_table)
  | _, _ => overlay
  end.

(** The loop over the entries of the overlay. *)
Fixpoint merge_entries (o b : list (str * TomlValue)) : list (str * TomlValue) :=
  match o with
  | [] => b
  | (key, value) :: o =>
      match table_get key b with
      | Some existing => merge_entries o (table_insert key (merge_toml_values existing value) b)
      | None => merge_entries o (table_insert key value b)
      end
  end.

(** The configuration that layers give, lowest precedence first. *)
Definition merge_all (layers : list TomlValue) : TomlValue := foldl merge_toml_values empty_table layers.

(** ** Overrides *)

(** [apply_toml_override], on the segments of the path. *)
Fixpoint override_at (segments : list str) (value current : TomlValue) : TomlValue :=
  match segments with
  | [] => current
  | segment :: rest =>
      let table := match current with Table t => t | _ => [] end in
      match rest with
      | [] => Table (table_insert segment value table)
      | _ :: _ => Table (table_insert segment (override_at rest value (default empty_table (table_get segment table))) table)
      end
  end.

Definition apply_toml_override (root : TomlValue) (path : str) (value : TomlValue) : TomlValue :=
  override_at (split_on (ch ".") path) value root.

Definition build_cli_overrides_layer (cli_overrides : list (str * TomlValue)) : TomlValue :=
  foldl (fun root '(path, value) => apply_toml_override root path value) empty_table cli_overrides.

(** ** Origins *)

Section origins.
Context {M : Type}.

Fixpoint record_origins (value : TomlValue) (meta : M) (path : list str) (origins : gmap str M) : gmap str M :=
  match value with
  | Table table =>
      (fix go (t : list (str * TomlValue)) (origins : gmap str M) : gmap str M :=
         match t with
         | [] => origins
         | (key, val) :: t => go t (record_origins val meta (path ++ [key]) origins)
         end) table origins
  | TomlArray items =>
      (fix go (idx : nat) (l : list TomlValue) (origins : gmap str M) : gmap str M :=
         match l with
         | [] => origins
         | item :: l => go (S idx) l (record_origins item meta (path ++ [show_usize idx]) origins)
         end) 0 items origins
  | Scalar _ => if bool_decide (path = []) then origins else <[join (lit ".") path := meta]> origins
  end.

Definition origins_of (layers : list (M * TomlValue)) : gmap str M :=
  foldl (fun origins '(meta, config) => record_origins config meta [] origins) ∅ layers.
End origins.

(** ** Copying a shape *)

(** The two loops carry the resolved value of each entry along. *)
Fixpoint copy_shape_from_original (original resolved : TomlValue) {struct original} : TomlValue :=
  match original, resolved with
  | Table original_table, Table resolved_table =>
      Table ((fix go (o : list (str * TomlValue)) (acc : list (str * TomlValue)) : list (str * TomlValue) :=
                match o with
                | [] => acc
                | (key, original_value) :: o =>
                    let resolved_value := default original_value (table_get key resolved_table) in
                    go o (table_insert key (copy_shape_from_original original_value resolved_value) acc)
                end) original_table [])
  | TomlArray original_array, TomlArray resolved_array =>
      TomlArray ((fix go (o r : list TomlValue) : list TomlValue :=
                    match o with
                    | [] => []
                    | original_value :: o =>
                        copy_shape_from_original original_value (default original_value (head r)) :: go o (tail r)
                    end) original_array resolved_array)
  | _, _ => resolved
  end.

(** ** Specification

    What a tree says about a path of keys: nothing, that there is no setting there
    ([Some None]: the path ends in a table or runs into a value that is none), or the
    setting.  An array is a setting as a whole. *)
Fixpoint decision (v : TomlValue) (path : list str) : option (option TomlValue) :=
  match path, v with
  | [], Table _ => Some None
  | [], _ => Some (Some v)
  | k :: path, Table t => match table_get k t with Some v => decision v path | None => None end
  | _ :: _, _ => Some None
  end.

Definition setting (v : TomlValue) (path : list str) : option TomlValue := default None (decision v path).

(** Tables as [BTreeMap]s keep them. *)
Definition key_lt (a b : str * TomlValue) : Prop := str_compare a.1 b.1 = Lt.

Inductive toml_wf : TomlValue -> Prop :=
  | wf_scalar s : toml_wf (Scalar s)
  | wf_array items : Forall toml_wf items -> toml_wf (TomlArray items)
  | wf_table entries : StronglySorted key_lt entries -> Forall (fun e => toml_wf e.2) entries -> toml_wf (Table entries).

(** ** Tables *)

Lemma str_compare_refl k : str_compare k k = Eq.
Proof. by apply (compare_eq (cmp := str_compare)). Qed.

Lemma get_insert k k' v t : table_get k (table_insert k' v t) = if bool_decide (k = k') then Some v else table_get k t.
Proof.
  induction t as [|[k1 v1] t IH]; cbn [table_insert table_get].
  - by do 2 case_bool_decide.
  - destruct (str_compare k' k1) eqn:Hc; cbn [table_get].
    + apply (compare_eq (cmp := str_compare)) in Hc as ->. by repeat case_bool_decide; subst.
    + by repeat case_bool_decide; subst.
    + rewrite IH. repeat case_bool_decide; subst; try done. rewrite str_compare_refl in Hc. done.
Qed.

Lemma get_insert_same k v t : table_get k (table_insert k v t) = Some v.
Proof. by rewrite get_insert, bool_decide_eq_true_2. Qed.

Lemma get_insert_other k k' v t : k <> k' -> table_get k (table_insert k' v t) = table_get k t.
Proof. intros Hk. by rewrite get_insert, bool_decide_eq_false_2. Qed.

Lemma table_get_elem k v t : table_get k t = Some v -> (k, v) ∈ t.
Proof.
  induction t as [|[k1 v1] t IH]; cbn [table_get]; [done|]. case_bool_decide as Hk; [subst; intros [= ->]; left|].
  intros Hg. right. by apply IH.
Qed.

Lemma table_get_lt k t : Forall (key_lt (k, empty_table)) t -> table_get k t = None.
Proof.
  induction 1 as [|[k1 v1] t Hk Ht IH]; [done|]. cbn [table_get]. rewrite bool_decide_eq_false_2; [exact IH|].
  intros ->. unfold key_lt in Hk. cbn in Hk. by rewrite str_compare_refl in Hk.
Qed.

Lemma key_lt_trans a b c : key_lt a b -> key_lt b c -> key_lt a c.
Proof. apply (compare_lt_trans (cmp := str_compare)). Qed.

Lemma insert_sorted k v t : StronglySorted key_lt t -> StronglySorted key_lt (table_insert k v t).
Proof.
  assert (Hall : forall e t, Forall (key_lt e) t -> key_lt e (k, v) -> Forall (key_lt e) (table_insert k v t)).
  { intros e t'. induction 1 as [|[k1 v1] t' Hk Ht IH]; intros He; cbn [table_insert]; [by repeat constructor|].
    destruct (str_compare k k1) eqn:Hc; repeat constructor; auto. }
  induction 1 as [|[k1 v1] t Ht IH Hk]; cbn [table_insert]; [by repeat constructor|].
  destruct (str_compare k k1) eqn:Hc.
  - apply (compare_eq (cmp := str_compare)) in Hc as ->. by constructor.
  - constructor; [by constructor|]. constructor; [exact Hc|]. eapply Forall_impl; [exact Hk|]. intros e He.
    exact (key_lt_trans (k, v) (k1, v1) e Hc He).
  - constructor; [exact IH|]. apply Hall; [exact Hk|]. unfold key_lt. cbn [fst].
    by rewrite (compare_opp (cmp := str_compare)), Hc.
Qed.

Lemma insert_Forall (P : TomlValue -> Prop) k v t :
  Forall (fun e => P e.2) t -> P v -> Forall (fun e => P e.2) (table_insert k v t).
Proof.
  intros Ht Hv. induction Ht as [|[k1 v1] t Hk Ht IH]; cbn [table_insert]; [by repeat constructor|].
  destruct (str_compare k k1); by repeat constructor.
Qed.

Lemma wf_insert k v t : toml_wf (Table t) -> toml_wf v -> toml_wf (Table (table_insert k v t)).
Proof. intros Ht Hv. inversion Ht; subst. constructor; [by apply insert_sorted|by apply insert_Forall]. Qed.

Lemma wf_get k v t : toml_wf (Table t) -> table_get k t = Some v -> toml_wf v.
Proof.
  intros Ht Hg. inversion Ht; subst. apply table_get_elem in Hg.
  exact (proj1 (Forall_forall (fun e => toml_wf e.2) t) H1 (k, v) Hg).
Qed.

(** ** Merging *)

Lemma merge_tables b o : merge_toml_values (Table b) (Table o) = Table (merge_entries o b).
Proof. reflexivity. Qed.

Lemma merge_entries_get k o b :
  StronglySorted key_lt o ->
  table_get k (merge_entries o b)
  = match table_get k o with
    | Some v => Some (match table_get k b with Some e => merge_toml_values e v | None => v end)
    | None => table_get k b
    end.
Proof.
  intros Ho. revert b. induction Ho as [|[k1 v1] o Ho IH Hk]; intros b; [done|]. cbn [merge_entries table_get].
  assert (Hnot : k1 = k -> table_get k o = None) by (intros <-; exact (table_get_lt k1 o Hk)).
  destruct (table_get k1 b) as [e|] eqn:Hb; rewrite IH, get_insert; case_bool_decide as Hkk;
    case_bool_decide as Hkk'; subst; try done; by rewrite Hnot, ?Hb.
Qed.

(** What a path says after a merge: the overlay, or else the base. *)
Lemma setting_merge b o p :
  toml_wf o ->
  setting (merge_toml_values b o) p = match decision o p with Some d => d | None => setting b p end.
Proof.
  intros Ho. revert b p. induction o as [s|items|entries IH] using toml_ind; intros b p.
  1-2: by destruct b, p.
  destruct b as [s|items|t]; [..|].
  1-2: unfold setting; cbn [merge_toml_values]; destruct (decision (Table entries) p) eqn:Hd; [done|];
    destruct p; [done|]; by cbn.
  rewrite merge_tables. destruct p as [|k p]; [done|]. unfold setting. cbn [decision].
  assert (Hs : StronglySorted key_lt entries) by by inversion Ho.
  rewrite merge_entries_get by exact Hs.
  destruct (table_get k entries) as [v|] eqn:Hk; [|by destruct (table_get k t)].
  pose proof (proj1 (Forall_forall _ _) IH (k, v) (table_get_elem _ _ _ Hk) (wf_get _ _ _ Ho Hk)) as IHv.
  cbn [snd] in IHv. destruct (table_get k t) as [e|].
  - exact (IHv e p).
  - by destruct (decision v p).
Qed.

(** The first of the layers, from the highest, that says something of a path. *)
Fixpoint deciding {A} (layers : list (A * TomlValue)) (p : list str) : option (A * option TomlValue) :=
  match layers with
  | [] => None
  | (a, v) :: layers =>
      match deciding layers p with
      | Some d => Some d
      | None => (fun d => (a, d)) <$> decision v p
      end
  end.

Lemma setting_merge_all {A} (layers : list (A * TomlValue)) base p :
  Forall (fun l => toml_wf l.2) layers ->
  setting (foldl merge_toml_values base (layers.*2)) p
  = match deciding layers p with Some (_, d) => d | None => setting base p end.
Proof.
  revert base. induction layers as [|[a v] layers IH]; intros base Hwf; [done|].
  apply Forall_cons in Hwf as [Hv Hl]. cbn [fmap list_fmap foldl deciding snd]. rewrite (IH _ Hl).
  destruct (deciding layers p) as [[a' d]|]; [done|]. rewrite setting_merge by exact Hv. by destruct (decision v p).
Qed.

(** C9. The merged configuration has at a path just what the highest layer that says
    anything about it says, including that there is no setting: a table where a lower
    layer has a value, or a value above it. *)
Theorem merge_all_spec {A} (layers : list (A * TomlValue)) p :
  Forall (fun l => toml_wf l.2) layers ->
  setting (merge_all (layers.*2)) p = match deciding layers p with Some (_, d) => d | None => None end.
Proof.
  intros Hwf. unfold merge_all. rewrite (setting_merge_all layers _ p Hwf). destruct (deciding layers p) as [[a d]|]; [done|].
  by destruct p.
Qed.

(** *** Merging keeps tables sorted *)

Lemma wf_empty : toml_wf empty_table.
Proof. by repeat constructor. Qed.

Lemma merge_wf b o : toml_wf b -> toml_wf o -> toml_wf (merge_toml_values b o).
Proof.
  intros Hb Ho. revert b Hb. induction o as [s|items|entries IH] using toml_ind; intros b Hb; [by destruct b..|].
  destruct b as [s|items|t]; [done..|]. rewrite merge_tables.
  assert (Hall : Forall (fun e => toml_wf e.2) entries) by by inversion Ho. clear Ho. revert t Hb.
  induction entries as [|[k v] entries IHe]; intros t Ht; [done|].
  apply Forall_cons in IH as [IHv IH]. apply Forall_cons in Hall as [Hv Hall]. cbn [merge_entries].
  destruct (table_get k t) as [e|] eqn:Hk; apply IHe; try done; (apply wf_insert; [done|]); [|done].
  apply IHv; [done|]. by apply wf_get in Hk.
Qed.

(** ** Overrides *)

(** Where two paths part. *)
Definition apart (p q : list str) : Prop := ~ p `prefix_of` q /\ ~ q `prefix_of` p.

Lemma setting_nil v : setting v [] = match v with Table _ => None | _ => Some v end.
Proof. by destruct v. Qed.

Lemma setting_cons k p v :
  setting v (k :: p) = match v with Table t => default None ((fun v => setting v p) <$> table_get k t) | _ => None end.
Proof. destruct v as [s|items|t]; [done..|]. unfold setting. cbn [decision]. by destruct (table_get k t). Qed.

(** The table an override goes into: what is no table is dropped. *)
Definition table_of (v : TomlValue) : list (str * TomlValue) := match v with Table t => t | _ => [] end.

Lemma setting_table_of k p v : setting (Table (table_of v)) (k :: p) = setting v (k :: p).
Proof. by destruct v. Qed.

Lemma setting_insert k k' p u t :
  setting (Table (table_insert k u t)) (k' :: p) = if bool_decide (k' = k) then setting u p else setting (Table t) (k' :: p).
Proof. rewrite !setting_cons, get_insert. by case_bool_decide. Qed.

Lemma setting_empty p : setting empty_table p = None.
Proof. by destruct p. Qed.

Lemma override_setting segments value v q :
  segments <> [] ->
  setting (override_at segments value v) (segments ++ q) = setting value q /\
  (forall p, apart segments p -> setting (override_at segments value v) p = setting v p) /\
  (forall p, p `prefix_of` segments -> p <> segments -> setting (override_at segments value v) p = None).
Proof.
  intros Hs. revert v. induction segments as [|k segments IH]; intros v; [done|]. clear Hs.
  destruct segments as [|k2 rest]; cbn [override_at].
  - change (match v with Table t => t | _ => [] end) with (table_of v). split; [|split].
    + cbn [app]. by rewrite setting_insert, bool_decide_eq_true_2.
    + intros [|k' p] [Hp1 Hp2]; [by destruct Hp2; apply prefix_nil|]. rewrite setting_insert, bool_decide_eq_false_2.
      * apply setting_table_of.
      * intros ->. apply Hp1. by exists p.
    + intros [|k' p] Hp Hne; [done|]. apply prefix_cons_inv_1 in Hp as Hk. apply prefix_cons_inv_2 in Hp.
      apply prefix_nil_inv in Hp as ->. by subst.
  - destruct (IH ltac:(done) (default empty_table (table_get k (table_of v)))) as (IH1 & IH2 & IH3). clear IH.
    change (match v with Table t => t | _ => [] end) with (table_of v).
    set (w := override_at (k2 :: rest) value (default empty_table (table_get k (table_of v)))) in *.
    change (override_at (k2 :: rest) value _) with w. split; [|split].
    + change ((k :: k2 :: rest) ++ q) with (k :: ((k2 :: rest) ++ q)). by rewrite setting_insert, bool_decide_eq_true_2.
    + intros [|k' p] [Hp1 Hp2]; [by destruct Hp2; apply prefix_nil|]. rewrite setting_insert.
      case_bool_decide as Hk; [subst k'|apply setting_table_of]. rewrite IH2.
      * rewrite <-setting_table_of, (setting_cons k p). destruct (table_get k (table_of v)); [done|apply setting_empty].
      * split; intros Hp; [apply Hp1|apply Hp2]; by apply prefix_cons.
    + intros [|k' p] Hp Hne; [done|]. apply prefix_cons_inv_1 in Hp as Hk. apply prefix_cons_inv_2 in Hp. subst k'.
      rewrite setting_insert, bool_decide_eq_true_2 by done. apply IH3; [done|]. congruence.
Qed.

Lemma override_wf segments value v : toml_wf v -> toml_wf value -> toml_wf (override_at segments value v).
Proof.
  revert v. induction segments as [|k rest IH]; intros v Hv Hx; [done|].
  assert (Ht : toml_wf (Table (table_of v))) by (destruct v; [exact wf_empty..|exact Hv]).
  destruct rest as [|k2 rest]; cbn [override_at]; apply wf_insert; try done. apply IH; [|done].
  change (match v with Table t => t | _ => [] end) with (table_of v).
  destruct (table_get k (table_of v)) as [w|] eqn:Hk; [by apply wf_get in Hk|exact wf_empty].
Qed.

(** An override on the command line puts its value at its path, whole; settings on the
    way to it go, and every path that parts from it keeps what it has. *)
Theorem override_spec root path value q :
  let segments := split_on (ch ".") path in
  let root' := apply_toml_override root path value in
  setting root' (segments ++ q) = setting value q /\
  (forall p, apart segments p -> setting root' p = setting root p) /\
  (forall p, p `prefix_of` segments -> p <> segments -> setting root' p = None).
Proof.
  cbv zeta. apply override_setting. pose proof (join_split (ch ".") path) as Hj. intros Hnil.
  assert (Hlen : length (split_on (ch ".") path) <> 0) by (destruct path as [|c s]; cbn [split_on]; [done|]; by repeat case_match).
  by rewrite Hnil in Hlen.
Qed.

Lemma build_overrides_wf cli_overrides :
  Forall (fun o => toml_wf o.2) cli_overrides -> toml_wf (build_cli_overrides_layer cli_overrides).
Proof.
  unfold build_cli_overrides_layer. generalize empty_table, wf_empty.
  induction cli_overrides as [|[path value] l IH]; intros root Hr Hl; [done|]. apply Forall_cons in Hl as [Hv Hl].
  cbn [foldl]. apply IH; [|done]. by apply override_wf.
Qed.

(** ** Origins *)

Section origins_spec.
Context {M : Type}.
Implicit Type o : gmap str M.

(** The paths under which a tree is recorded: array elements by their index. *)
Fixpoint recorded (v : TomlValue) : list (list str) :=
  match v with
  | Scalar _ => [[]]
  | Table t => (fix go (t : list (str * TomlValue)) : list (list str) :=
                  match t with [] => [] | (k, v) :: t => (cons k <$> recorded v) ++ go t end) t
  | TomlArray items => (fix go (i : nat) (l : list TomlValue) : list (list str) :=
                  match l with [] => [] | v :: l => (cons (show_usize i) <$> recorded v) ++ go (S i) l end) 0 items
  end.

(** Under a path, one and the same value is recorded, and only at such paths. *)
Definition records (meta : M) (ps : list (list str)) (path : list str) (f : gmap str M -> gmap str M) : Prop :=
  (forall o key, f o !! key = Some meta \/ f o !! key = o !! key) /\
  (forall o q, q ∈ ps -> path ++ q <> [] -> f o !! join (lit ".") (path ++ q) = Some meta) /\
  (forall o key, (forall q, q ∈ ps -> path ++ q <> [] -> join (lit ".") (path ++ q) <> key) -> f o !! key = o !! key).

Lemma records_none meta path : records meta [] path id.
Proof. split; [by right|]. split; [|done]. intros o q Hq. by apply not_elem_of_nil in Hq. Qed.

Lemma records_then meta ps1 ps2 path k f g :
  records meta ps1 (path ++ [k]) f -> records meta ps2 path g ->
  records meta ((cons k <$> ps1) ++ ps2) path (fun o => g (f o)).
Proof.
  intros (F1 & F2 & F3) (G1 & G2 & G3). split; [|split].
  - intros o key. destruct (G1 (f o) key) as [-> | ->]; [by left|apply F1].
  - intros o q [Hq|Hq]%elem_of_app Hne; [|by apply G2]. apply list_elem_of_fmap in Hq as (q' & -> & Hq').
    destruct (G1 (f o) (join (lit ".") (path ++ k :: q'))) as [-> | ->]; [done|].
    specialize (F2 o q' Hq'). rewrite <-app_assoc in F2. apply F2. by destruct path.
  - intros o key Hkey. rewrite G3, F3; [done|..].
    + intros q Hq Hne. rewrite <-app_assoc. apply Hkey; [|by destruct path]. apply elem_of_app. left.
      by apply list_elem_of_fmap_2.
    + intros q Hq. apply Hkey. apply elem_of_app. by right.
Qed.

Lemma record_origins_records v meta path : records meta (recorded v) path (record_origins v meta path).
Proof.
  revert path. induction v as [s|items IH|entries IH] using toml_ind; intros path.
  - cbn [record_origins recorded]. split; [|split].
    + intros o key. case_bool_decide; [by right|]. destruct (decide (join (lit ".") path = key)) as [<-|Hk].
      * left. apply lookup_insert_eq.
      * right. by apply lookup_insert_ne.
    + intros o q ->%list_elem_of_singleton Hne. rewrite app_nil_r in *. rewrite bool_decide_eq_false_2 by done.
      apply lookup_insert_eq.
    + intros o key Hkey. case_bool_decide as Hp; [done|]. apply lookup_insert_ne.
      specialize (Hkey [] ltac:(left)). rewrite app_nil_r in Hkey. auto.
  - cbn [record_origins recorded]. generalize 0. induction items as [|v items IHi]; intros i; [apply records_none|].
    apply Forall_cons in IH as [Hv IH]. apply (records_then meta _ _ path (show_usize i) (record_origins v meta (path ++ [show_usize i]))).
    + apply Hv.
    + by apply IHi.
  - cbn [record_origins recorded]. induction entries as [|[k v] entries IHe]; [apply records_none|].
    apply Forall_cons in IH as [Hv IH]. apply (records_then meta _ _ path k (record_origins v meta (path ++ [k]))).
    + apply Hv.
    + by apply IHe.
Qed.

Lemma in_table_paths t q :
  q ∈ recorded (Table t) <-> exists k v q', (k, v) ∈ t /\ q = k :: q' /\ q' ∈ recorded v.
Proof.
  cbn [recorded]. induction t as [|[k v] t IH].
  - split; [intros Hq; by apply not_elem_of_nil in Hq|]. intros (k & v & q' & Hin & _). by apply not_elem_of_nil in Hin.
  - rewrite elem_of_app, IH, list_elem_of_fmap. split.
    + intros [(q' & -> & Hq)|(k' & v' & q' & Hin & -> & Hq)]; [exists k, v, q'|exists k', v', q']; (split; [|done]); [left|by right].
    + intros (k' & v' & q' & Hin & -> & Hq). apply elem_of_cons in Hin as [[= -> ->]|Hin]; [left; by exists q'|].
      right. by exists k', v', q'.
Qed.

Lemma table_get_sorted k v t : StronglySorted key_lt t -> (k, v) ∈ t -> table_get k t = Some v.
Proof.
  induction 1 as [|[k1 v1] t Ht IH Hk]; intros Hin; [by apply not_elem_of_nil in Hin|]. cbn [table_get].
  apply elem_of_cons in Hin as [[= -> ->]|Hin]; [by rewrite bool_decide_eq_true_2|].
  rewrite bool_decide_eq_false_2; [by apply IH|]. intros ->.
  pose proof (proj1 (Forall_forall _ _) Hk (k, v) Hin) as Hlt. unfold key_lt in Hlt. cbn in Hlt. by rewrite str_compare_refl in Hlt.
Qed.

Lemma recorded_decided v q : toml_wf v -> q ∈ recorded v -> decision v q <> None.
Proof.
  revert q. induction v as [s|items IH|entries IH] using toml_ind; intros q Hwf Hq.
  - by apply list_elem_of_singleton in Hq as ->.
  - by destruct q.
  - apply in_table_paths in Hq as (k & v & q' & Hin & -> & Hq). cbn [decision].
    rewrite (table_get_sorted k v) by (try done; by inversion Hwf).
    apply (proj1 (Forall_forall _ _) IH (k, v) Hin); [|done].
    apply (wf_get k _ entries Hwf), table_get_sorted; [by inversion Hwf|done].
Qed.

Lemma setting_recorded v p s : decision v p = Some (Some (Scalar s)) -> p ∈ recorded v.
Proof.
  revert v. induction p as [|k p IH]; intros [s'|items|t]; cbn [decision]; intros Hd; try done; [by left|].
  destruct (table_get k t) as [v|] eqn:Hk; [|done]. apply in_table_paths. exists k, v, p.
  split; [by apply table_get_elem|]. split; [done|]. by apply IH.
Qed.

Definition dotless (v : TomlValue) : Prop := Forall (Forall (fun k => ch "." ∉ k)) (recorded v).

Lemma dotless_inj p q : p <> [] -> q <> [] -> Forall (fun k => ch "." ∉ k) p -> Forall (fun k => ch "." ∉ k) q ->
  join (lit ".") p = join (lit ".") q -> p = q.
Proof.
  intros Hp Hq Dp Dq Hj. change (lit ".") with [ch "."] in Hj.
  by rewrite <-(split_join (ch ".") p), <-(split_join (ch ".") q), Hj.
Qed.

(** Where keys hold no dots, the origin of every setting of the merged configuration
    that is a plain value is the layer it comes from. *)
Theorem origins_name_deciding_layer (layers : list (M * TomlValue)) p meta s :
  Forall (fun l => toml_wf l.2 /\ dotless l.2) layers -> p <> [] ->
  deciding layers p = Some (meta, Some (Scalar s)) ->
  origins_of layers !! join (lit ".") p = Some meta /\ setting (merge_all (layers.*2)) p = Some (Scalar s).
Proof.
  intros Hl Hp Hd. split.
  2: { unfold merge_all. rewrite setting_merge_all, Hd; [done|]. eapply Forall_impl; [exact Hl|]. by intros l []. }
  unfold origins_of. generalize (∅ : gmap str M) as o.
  induction layers as [|[m v] layers IH]; intros o; [done|]. apply Forall_cons in Hl as [[Hwf Hdot] Hl]. cbn [snd] in *.
  cbn [foldl deciding] in *. destruct (deciding layers p) as [d|] eqn:Hrest; [by apply (IH Hl)|]. clear IH.
  destruct (decision v p) as [d|] eqn:Hv; [|done]. injection Hd as -> ->.
  pose proof (setting_recorded v p s Hv) as Hrec.
  pose proof (proj1 (Forall_forall _ _) Hdot p Hrec) as Dp. cbn beta in Dp.
  assert (Hstart : record_origins v meta [] o !! join (lit ".") p = Some meta).
  { exact (proj1 (proj2 (record_origins_records v meta [])) o p Hrec Hp). }
  revert Hstart. generalize (record_origins v meta [] o) as o1. clear Hv Hrec Hdot Hwf v o.
  induction layers as [|[m v] layers IH]; intros o1 Ho1; [done|]. cbn [foldl deciding] in *.
  apply Forall_cons in Hl as [[Hwf Hdot] Hl]. cbn [snd] in *. destruct (deciding layers p) as [d|] eqn:Hr; [done|].
  destruct (decision v p) as [d|] eqn:Hv; [done|]. apply IH; [done|done|].
  rewrite (proj2 (proj2 (record_origins_records v m []))); [done|]. intros q Hq Hne Hj. cbn [app] in *.
  apply (recorded_decided v q Hwf Hq). rewrite <-Hv. f_equal. apply dotless_inj; [done..| |done|done].
  exact (proj1 (Forall_forall _ _) Hdot q Hq).
Qed.
End origins_spec.

(** ** Examples *)

Definition toml_text (s : str) : TomlValue := Scalar (TomlString s).

(** Two layers: the higher has [model = "b"] and a table [tools] where the lower has a
    value and more. *)
Definition example_layers : list (str * TomlValue) :=
  [(lit "system", Table [(lit "model", toml_text (lit "a")); (lit "shell", toml_text (lit "sh")); (lit "tools", toml_text (lit "x"))]);
   (lit "user", Table [(lit "model", toml_text (lit "b")); (lit "tools", Table [(lit "view", Scalar (TomlBoolean true))])])].

Lemma example_layers_wf : Forall (fun l => toml_wf l.2 /\ dotless l.2) example_layers.
Proof.
  assert (Hd : Forall (fun l => dotless l.2) example_layers) by (apply (bool_decide_unpack _); vm_compute; exact I).
  assert (Hw : Forall (fun l => toml_wf l.2) example_layers) by (repeat constructor).
  apply Forall_and. by split.
Qed.

Example example_merge :
  merge_all (example_layers.*2)
  = Table [(lit "model", toml_text (lit "b")); (lit "shell", toml_text (lit "sh"));
           (lit "tools", Table [(lit "view", Scalar (TomlBoolean true))])].
Proof. vm_compute. reflexivity. Qed.

Lemma merge_all_spec_witness : setting (merge_all (example_layers.*2)) [lit "tools"] = None.
Proof.
  rewrite (merge_all_spec example_layers [lit "tools"]); [vm_compute; reflexivity|].
  eapply Forall_impl; [exact example_layers_wf|]. by intros l [].
Defined.

Lemma origins_name_deciding_layer_witness :
  origins_of example_layers !! lit "model" = Some (lit "user") /\
  setting (merge_all (example_layers.*2)) [lit "model"] = Some (toml_text (lit "b")).
Proof.
  apply (origins_name_deciding_layer example_layers [lit "model"] (lit "user") (TomlString (lit "b")));
    [exact example_layers_wf|done|]. vm_compute. reflexivity.
Defined.
