(* ===== verification/ConfigRequirements.v ===== *)
(** * Managed requirements (config/src/constraint.rs, config_requirements.rs,
      requirements_exec_policy.rs)

    Constrained values, the requirements that administrators set and the merge of their
    sources, and the rules of execution among them. *)

From stdpp Require Import gmap.
From S2P Require Import Prelude RustStd SandboxPolicy ExecPolicy HostPolicy ProxyConfig.

(** The [Debug] form of values in messages. *)
Class Debug (A : Type) : Type := debug : A -> str.

(** ** Sources *)

Inductive RequirementSource : Type :=
  | SourceUnknown
  | MdmManagedPreferences (domain key : str)
  | CloudRequirements
  | SystemRequirementsToml (file : str)
  | LegacyFromFile (file : str)
  | LegacyFromMdm.

Record Sourced (A : Type) : Type := mk_sourced { sourced_value : A; source : RequirementSource }.
Arguments mk_sourced {A} _ _.
Arguments sourced_value {A} _.
Arguments source {A} _.

(** ** Constrained values *)

Inductive ConstraintError : Type :=
  | InvalidField (field_name candidate allowed : str) (requirement_source : RequirementSource)
  | EmptyField (field_name : str)
  | ExecPolicyParse (requirement_source : RequirementSource) (reason : str).

Definition show_source (s : RequirementSource) : str :=
  match s with
  | SourceUnknown => lit "<unspecified>"
  | MdmManagedPreferences domain key => lit "MDM " ++ domain ++ lit ":" ++ key
  | CloudRequirements => lit "cloud requirements"
  | SystemRequirementsToml file => file
  | LegacyFromFile file => file
  | LegacyFromMdm => lit "MDM managed_config.toml (legacy)"
  end.

Definition constraint_message (e : ConstraintError) : str :=
  match e with
  | InvalidField field_name candidate allowed src =>
      lit "invalid value for `" ++ field_name ++ lit "`: `" ++ candidate ++ lit "` is not in the allowed set " ++ allowed
      ++ lit " (set by " ++ show_source src ++ lit ")"
  | EmptyField field_name => lit "field `" ++ field_name ++ lit "` cannot be empty"
  | ExecPolicyParse src reason => lit "invalid rules in requirements (set by " ++ show_source src ++ lit "): " ++ reason
  end.

Abbreviation ConstraintResult := (outcome ConstraintError).

Record Constrained (T : Type) : Type := mk_constrained {
  value : T;
  validator : T -> ConstraintResult ();
  normalizer : option (T -> T);
}.
Arguments mk_constrained {T} _ _ _.
Arguments value {T} _.
Arguments validator {T} _ _.
Arguments normalizer {T} _.

Section constrained.
Context {T : Type}.

Definition constrained_new (initial_value : T) (validator : T -> ConstraintResult ()) : ConstraintResult (Constrained T) :=
  _ ← validator initial_value;
  Ok (mk_constrained initial_value validator None).

Definition constrained_normalized (initial_value : T) (normalizer : T -> T) : ConstraintResult (Constrained T) :=
  Ok (mk_constrained (normalizer initial_value) (fun _ => Ok ()) (Some normalizer)).

Definition allow_any (initial_value : T) : Constrained T := mk_constrained initial_value (fun _ => Ok ()) None.

Definition can_set (c : Constrained T) (candidate : T) : ConstraintResult () := validator c candidate.

Definition set (v : T) : io (Constrained T) ConstraintError () := fun c =>
  let v := match normalizer c with Some normalize => normalize v | None => v end in
  match validator c v with
  | Ok _ => (mk_constrained v (validator c) (normalizer c), Ok ())
  | Err e => (c, Err e)
  | Panic => (c, Panic)
  | Timeout => (c, Timeout)
  end.

(** What is left after attempts to set it. *)
Definition set_all (vs : list T) (c : Constrained T) : Constrained T := foldl (fun c v => (set v c).1) c vs.

(** The value is one that can be set. *)
Definition constrained_ok (c : Constrained T) : Prop := validator c (value c) = Ok ().

Lemma set_keeps v c : constrained_ok c -> constrained_ok (set v c).1 /\ validator (set v c).1 = validator c /\
  normalizer (set v c).1 = normalizer c.
Proof. intros Hc. unfold set. destruct (validator c _) as [[]|e| |] eqn:Hv; cbn; auto. Qed.

Lemma set_all_keeps vs c :
  constrained_ok c ->
  constrained_ok (set_all vs c) /\ validator (set_all vs c) = validator c /\ normalizer (set_all vs c) = normalizer c.
Proof.
  revert c. induction vs as [|v vs IH]; intros c Hc; [done|]. destruct (set_keeps v c Hc) as (Hc' & Hv & Hn).
  cbn [set_all foldl]. rewrite <-Hv, <-Hn. by apply IH.
Qed.

Lemma constrained_new_ok v f c : constrained_new v f = Ok c -> constrained_ok c /\ validator c = f /\ value c = v /\ normalizer c = None.
Proof. unfold constrained_new. intros ([] & Hf & [= <-])%bind_Ok. done. Qed.

(** A list of the values allowed. *)
Lemma set_all_within vs c (Q : T -> Prop) :
  constrained_ok c -> (forall v, validator c v = Ok () -> Q v) -> Q (value (set_all vs c)).
Proof. intros Hc HQ. destruct (set_all_keeps vs c Hc) as (Hok & Hv & _). apply HQ. by rewrite <-Hv. Qed.
End constrained.

Record ConstrainedWithSource (T : Type) : Type := mk_with_source { constrained : Constrained T; from : option RequirementSource }.
Arguments mk_with_source {T} _ _.
Arguments constrained {T} _.
Arguments from {T} _.

(** ** Rules of execution *)

Inductive DecisionToml : Type := AllowToml | PromptToml | ForbiddenToml.

Definition as_decision (d : DecisionToml) : Decision :=
  match d with AllowToml => Allow | PromptToml => Prompt | ForbiddenToml => Forbidden end.

Record PatternTokenToml : Type := mk_token { token : option str; any_of : option (list str) }.

Record PrefixRuleToml : Type := mk_rule_toml {
  rule_pattern : list PatternTokenToml;
  rule_decision : option DecisionToml;
  rule_justification : option str;
}.

Inductive RulesParseError : Type :=
  | EmptyPrefixRules
  | EmptyPattern (rule_index : nat)
  | InvalidPatternToken (rule_index token_index : nat) (reason : str)
  | EmptyJustification (rule_index : nat)
  | MissingDecision (rule_index : nat)
  | AllowDecisionNotAllowed (rule_index : nat).

Definition rule_at (i : nat) : str := lit "rules prefix_rule at index " ++ show_usize i.

Definition rules_error_message (e : RulesParseError) : str :=
  match e with
  | EmptyPrefixRules => lit "rules prefix_rules cannot be empty"
  | EmptyPattern i => rule_at i ++ lit " has an empty pattern"
  | InvalidPatternToken i j reason =>
      rule_at i ++ lit " has an invalid pattern token at index " ++ show_usize j ++ lit ": " ++ reason
  | EmptyJustification i => rule_at i ++ lit " has an empty justification"
  | MissingDecision i => rule_at i ++ lit " is missing a decision"
  | AllowDecisionNotAllowed i =>
      rule_at i ++ lit " has decision 'allow', which is not permitted in requirements.toml: Codex merges these rules with other config and uses the most restrictive result (use 'prompt' or 'forbidden')"
  end.

Definition is_blank (s : str) : bool := bool_decide (trim s = []).

Definition parse_pattern_token (t : PatternTokenToml) (rule_index token_index : nat) : outcome RulesParseError PatternToken :=
  let invalid reason := Err (InvalidPatternToken rule_index token_index reason) in
  match token t, any_of t with
  | Some single, None => if is_blank single then invalid (lit "token cannot be empty") else Ok (Single single)
  | None, Some alternatives =>
      if bool_decide (alternatives = []) then invalid (lit "any_of cannot be empty")
      else if existsb is_blank alternatives then invalid (lit "any_of cannot include empty tokens")
      else Ok (Alts alternatives)
  | Some _, Some _ => invalid (lit "set either token or any_of, not both")
  | None, None => invalid (lit "set either token or any_of")
  end.

Fixpoint parse_tokens (ts : list PatternTokenToml) (rule_index token_index : nat) : outcome RulesParseError (list PatternToken) :=
  match ts with
  | [] => Ok []
  | t :: ts =>
      p ← parse_pattern_token t rule_index token_index;
      ps ← parse_tokens ts rule_index (S token_index);
      Ok (p :: ps)
  end.

(** The rules of one entry, one for each alternative of its first token. *)
Definition entry_rules (rule : PrefixRuleToml) (rule_index : nat) : outcome RulesParseError (list PrefixRule) :=
  if match rule_justification rule with Some j => is_blank j | None => false end then Err (EmptyJustification rule_index)
  else if bool_decide (rule_pattern rule = []) then Err (EmptyPattern rule_index)
  else
    pattern_tokens ← parse_tokens (rule_pattern rule) rule_index 0;
    decision ← (match rule_decision rule with
                | Some AllowToml => Err (AllowDecisionNotAllowed rule_index)
                | Some d => Ok (as_decision d)
                | None => Err (MissingDecision rule_index)
                end);
    match pattern_tokens with
    | [] => Err (EmptyPattern rule_index)
    | first_token :: rest =>
        Ok ((fun head => mk_rule (mk_pattern head rest) decision (rule_justification rule)) <$> alternatives_of first_token)
    end.

Section rules.
Context {M : Type -> Type} `{MultiMap M}.

Fixpoint insert_entries (rules : list PrefixRuleToml) (rule_index : nat) (rules_by_program : M PrefixRule)
    : outcome RulesParseError (M PrefixRule) :=
  match rules with
  | [] => Ok rules_by_program
  | rule :: rules =>
      rs ← entry_rules rule rule_index;
      insert_entries rules (S rule_index) (foldl (fun m r => mm_insert (program r) r m) rules_by_program rs)
  end.

Definition to_policy (prefix_rules : list PrefixRuleToml) : outcome RulesParseError (Policy M) :=
  if bool_decide (prefix_rules = []) then Err EmptyPrefixRules
  else m ← insert_entries prefix_rules 0 mm_new; Ok (mk_policy m).
End rules.

(** ** Requirements *)

Inductive WebSearchMode : Type := WebDisabled | WebCached | WebLive.
#[export] Instance WebSearchMode_eq_dec : EqDecision WebSearchMode.
Proof. solve_decision. Defined.

Inductive SandboxModeRequirement : Type :=
  | ModeReadOnly | ModeWorkspaceWrite | ModeDangerFullAccess | ModeExternalSandbox.
#[export] Instance SandboxModeRequirement_eq_dec : EqDecision SandboxModeRequirement.
Proof. solve_decision. Defined.

Inductive ResidencyRequirement : Type := Us.
#[export] Instance ResidencyRequirement_eq_dec : EqDecision ResidencyRequirement.
Proof. solve_decision. Defined.

Inductive McpServerIdentity : Type := McpCommand (command : str) | McpUrl (url : str).

(** The fields of a requirements file, each in a wrapper [F]: [option] as deserialised,
    and with the source once merged. *)
Record RequirementFields (F : Type -> Type) : Type := mk_requirement_fields {
  allowed_approval_policies : F (list AskForApproval);
  allowed_sandbox_modes : F (list SandboxModeRequirement);
  allowed_web_search_modes : F (list WebSearchMode);
  mcp_servers : F (gmap str McpServerIdentity);
  rules : F (list PrefixRuleToml);
  enforce_residency : F ResidencyRequirement;
  network : F NetworkConstraints;
}.
Arguments mk_requirement_fields {F} _ _ _ _ _ _ _.
Arguments allowed_approval_policies {F} _.
Arguments allowed_sandbox_modes {F} _.
Arguments allowed_web_search_modes {F} _.
Arguments mcp_servers {F} _.
Arguments rules {F} _.
Arguments enforce_residency {F} _.
Arguments network {F} _.

Definition ConfigRequirementsToml : Type := RequirementFields option.
Definition ConfigRequirementsWithSources : Type := RequirementFields (fun A => option (Sourced A)).

Definition empty_requirements : ConfigRequirementsToml := mk_requirement_fields None None None None None None None.
Definition no_requirements : ConfigRequirementsWithSources := mk_requirement_fields None None None None None None None.

Definition fill_missing {A} (src : RequirementSource) (base : option (Sourced A)) (other : option A) : option (Sourced A) :=
  match base, other with None, Some value => Some (mk_sourced value src) | _, _ => base end.

Definition merge_unset_fields (src : RequirementSource) (other : ConfigRequirementsToml) (self : ConfigRequirementsWithSources)
    : ConfigRequirementsWithSources :=
  mk_requirement_fields
    (fill_missing src (allowed_approval_policies self) (allowed_approval_policies other))
    (fill_missing src (allowed_sandbox_modes self) (allowed_sandbox_modes other))
    (fill_missing src (allowed_web_search_modes self) (allowed_web_search_modes other))
    (fill_missing src (mcp_servers self) (mcp_servers other))
    (fill_missing src (rules self) (rules other))
    (fill_missing src (enforce_residency self) (enforce_residency other))
    (fill_missing src (network self) (network other)).

Definition into_toml (self : ConfigRequirementsWithSources) : ConfigRequirementsToml :=
  mk_requirement_fields (sourced_value <$> allowed_approval_policies self) (sourced_value <$> allowed_sandbox_modes self)
    (sourced_value <$> allowed_web_search_modes self) (sourced_value <$> mcp_servers self) (sourced_value <$> rules self)
    (sourced_value <$> enforce_residency self) (sourced_value <$> network self).

Definition is_empty (t : ConfigRequirementsToml) : bool :=
  bool_decide (allowed_approval_policies t = None) && bool_decide (allowed_sandbox_modes t = None)
  && bool_decide (allowed_web_search_modes t = None)
  && match mcp_servers t with None => true | _ => false end && match rules t with None => true | _ => false end
  && bool_decide (enforce_residency t = None) && match network t with None => true | _ => false end.

(** The mode of a policy. *)
Definition mode_of_policy (p : SandboxPolicy) : SandboxModeRequirement :=
  match p with
  | ReadOnly _ => ModeReadOnly
  | WorkspaceWrite _ _ _ _ _ => ModeWorkspaceWrite
  | DangerFullAccess => ModeDangerFullAccess
  | ExternalSandbox _ => ModeExternalSandbox
  end.

(** The members of a [BTreeSet] of modes, in order. *)
Definition web_modes_set (modes : list WebSearchMode) : list WebSearchMode :=
  filter (fun m => m ∈ modes) [WebDisabled; WebCached; WebLive].

Section requirements.
Context {M : Type -> Type} `{MultiMap M}.
Context `{Debug AskForApproval, Debug (list AskForApproval), Debug SandboxModeRequirement,
  Debug (list SandboxModeRequirement), Debug WebSearchMode, Debug (list WebSearchMode), Debug (option ResidencyRequirement)}.

Record ConfigRequirements : Type := mk_config_requirements {
  req_approval_policy : ConstrainedWithSource AskForApproval;
  req_sandbox_policy : ConstrainedWithSource SandboxPolicy;
  req_web_search_mode : ConstrainedWithSource WebSearchMode;
  req_mcp_servers : option (Sourced (gmap str McpServerIdentity));
  req_exec_policy : option (Sourced (Policy M));
  req_enforce_residency : ConstrainedWithSource (option ResidencyRequirement);
  req_network : option (Sourced NetworkConstraints);
}.

Definition default_requirements : ConfigRequirements :=
  mk_config_requirements (mk_with_source (allow_any OnRequest) None) (mk_with_source (allow_any new_read_only_policy) None)
    (mk_with_source (allow_any WebCached) None) None None (mk_with_source (allow_any None) None) None.

Definition approval_requirement (t : option (Sourced (list AskForApproval))) : ConstraintResult (ConstrainedWithSource AskForApproval) :=
  match t with
  | None => Ok (mk_with_source (allow_any OnRequest) None)
  | Some (mk_sourced policies src) =>
      match policies with
      | [] => Err (EmptyField (lit "allowed_approval_policies"))
      | initial_value :: _ =>
          c ← constrained_new initial_value (fun candidate =>
                if bool_decide (candidate ∈ policies) then Ok ()
                else Err (InvalidField (lit "approval_policy") (debug candidate) (debug policies) src));
          Ok (mk_with_source c (Some src))
      end
  end.

Definition sandbox_requirement (t : option (Sourced (list SandboxModeRequirement)))
    : ConstraintResult (ConstrainedWithSource SandboxPolicy) :=
  match t with
  | None => Ok (mk_with_source (allow_any new_read_only_policy) None)
  | Some (mk_sourced modes src) =>
      if negb (bool_decide (ModeReadOnly ∈ modes)) then
        Err (InvalidField (lit "allowed_sandbox_modes") (debug modes)
               (lit "must include 'read-only' to allow any SandboxPolicy") src)
      else
        c ← constrained_new new_read_only_policy (fun candidate =>
              let mode := mode_of_policy candidate in
              if bool_decide (mode ∈ modes) then Ok ()
              else Err (InvalidField (lit "sandbox_mode") (debug mode) (debug modes) src));
        Ok (mk_with_source c (Some src))
  end.

Definition web_search_requirement (t : option (Sourced (list WebSearchMode)))
    : ConstraintResult (ConstrainedWithSource WebSearchMode) :=
  match t with
  | None => Ok (mk_with_source (allow_any WebCached) None)
  | Some (mk_sourced modes src) =>
      let accepted := web_modes_set (WebDisabled :: modes) in
      let initial_value := if bool_decide (WebCached ∈ accepted) then WebCached
                           else if bool_decide (WebLive ∈ accepted) then WebLive else WebDisabled in
      c ← constrained_new initial_value (fun candidate =>
            if bool_decide (candidate ∈ accepted) then Ok ()
            else Err (InvalidField (lit "web_search_mode") (debug candidate) (debug accepted) src));
      Ok (mk_with_source c (Some src))
  end.

Definition rules_requirement (t : option (Sourced (list PrefixRuleToml))) : ConstraintResult (option (Sourced (Policy M))) :=
  match t with
  | None => Ok None
  | Some (mk_sourced prefix_rules src) =>
      policy ← map_err (fun err => ExecPolicyParse src (rules_error_message err)) (to_policy prefix_rules);
      Ok (Some (mk_sourced policy src))
  end.

Definition residency_requirement (t : option (Sourced ResidencyRequirement))
    : ConstraintResult (ConstrainedWithSource (option ResidencyRequirement)) :=
  match t with
  | None => Ok (mk_with_source (allow_any None) None)
  | Some (mk_sourced residency src) =>
      c ← constrained_new (Some residency) (fun candidate =>
            if bool_decide (candidate = Some residency) then Ok ()
            else Err (InvalidField (lit "enforce_residency") (debug candidate) (debug (Some residency)) src));
      Ok (mk_with_source c (Some src))
  end.

(** [try_from]. *)
Definition requirements_of (t : ConfigRequirementsWithSources) : ConstraintResult ConfigRequirements :=
  approval_policy ← approval_requirement (allowed_approval_policies t);
  sandbox_policy ← sandbox_requirement (allowed_sandbox_modes t);
  exec_policy ← rules_requirement (rules t);
  web_search_mode ← web_search_requirement (allowed_web_search_modes t);
  enforce_residency ← residency_requirement (enforce_residency t);
  Ok (mk_config_requirements approval_policy sandbox_policy web_search_mode (mcp_servers t) exec_policy enforce_residency
        (network t)).
End requirements.

(** ** Sources in order *)

(** The first source that has a field. *)
Definition first_source {A} (f : ConfigRequirementsToml -> option A) (sources : list (RequirementSource * ConfigRequirementsToml))
    : option (Sourced A) :=
  head (omap (fun '(src, t) => (fun v => mk_sourced v src) <$> f t) sources).

Definition merge_sources (sources : list (RequirementSource * ConfigRequirementsToml)) : ConfigRequirementsWithSources :=
  foldl (fun self '(src, t) => merge_unset_fields src t self) no_requirements sources.

Lemma fill_sources {A} (get : ConfigRequirementsWithSources -> option (Sourced A)) (f : ConfigRequirementsToml -> option A) sources self :
  (forall src t self, get (merge_unset_fields src t self) = fill_missing src (get self) (f t)) ->
  get (foldl (fun self '(src, t) => merge_unset_fields src t self) self sources)
  = match get self with Some v => Some v | None => first_source f sources end.
Proof.
  intros Hget. revert self. induction sources as [|[src t] sources IH]; intros self; cbn [foldl]; [by destruct (get self)|].
  rewrite IH, Hget. unfold fill_missing, first_source. cbn. by destruct (get self), (f t).
Qed.

(** Each requirement comes from the first source that sets it, and carries the name of
    that source: a later source neither overrides nor extends it. *)
Theorem earlier_sources_win sources :
  let merged := merge_sources sources in
  allowed_approval_policies merged = first_source allowed_approval_policies sources /\
  allowed_sandbox_modes merged = first_source allowed_sandbox_modes sources /\
  allowed_web_search_modes merged = first_source allowed_web_search_modes sources /\
  mcp_servers merged = first_source mcp_servers sources /\
  rules merged = first_source rules sources /\
  enforce_residency merged = first_source enforce_residency sources /\
  network merged = first_source network sources.
Proof.
  cbv zeta. repeat split.
  - exact (fill_sources allowed_approval_policies allowed_approval_policies sources no_requirements (fun _ _ _ => eq_refl)).
  - exact (fill_sources allowed_sandbox_modes allowed_sandbox_modes sources no_requirements (fun _ _ _ => eq_refl)).
  - exact (fill_sources allowed_web_search_modes allowed_web_search_modes sources no_requirements (fun _ _ _ => eq_refl)).
  - exact (fill_sources mcp_servers mcp_servers sources no_requirements (fun _ _ _ => eq_refl)).
  - exact (fill_sources rules rules sources no_requirements (fun _ _ _ => eq_refl)).
  - exact (fill_sources enforce_residency enforce_residency sources no_requirements (fun _ _ _ => eq_refl)).
  - exact (fill_sources network network sources no_requirements (fun _ _ _ => eq_refl)).
Qed.

(** ** Rules *)

(** A word that an entry's token lets stand. *)
Definition token_allows (t : PatternTokenToml) (w : str) : Prop :=
  match token t, any_of t with Some single, None => w = single | None, Some l => w ∈ l | _, _ => False end.

(** The match of an entry with a command: each of its tokens lets the word at its place
    stand. *)
Definition entry_matches (rule : PrefixRuleToml) (cmd : list str) (m : RuleMatch) : Prop :=
  exists prefix tail d, cmd = prefix ++ tail /\ Forall2 token_allows (rule_pattern rule) prefix /\
    rule_decision rule = Some d /\ m = PrefixRuleMatch prefix (as_decision d) (rule_justification rule).

Section policy.
Context {M : Type -> Type} `{MultiMapLaws M}.

Lemma parse_token_alts t i j p : parse_pattern_token t i j = Ok p -> forall w, w ∈ alternatives_of p <-> token_allows t w.
Proof.
  unfold parse_pattern_token, token_allows. destruct (token t) as [s|], (any_of t) as [l|]; try done.
  - destruct (is_blank s); [done|]. intros [= <-] w. apply list_elem_of_singleton.
  - case_bool_decide; [done|]. destruct (existsb is_blank l); [done|]. by intros [= <-].
Qed.

Lemma parse_tokens_alts ts i j ps :
  parse_tokens ts i j = Ok ps -> Forall2 (fun t p => forall w, w ∈ alternatives_of p <-> token_allows t w) ts ps.
Proof.
  revert j ps. induction ts as [|t ts IH]; intros j ps; cbn [parse_tokens]; [by intros [= <-]|].
  intros (p & Hp & (ps' & Hps & [= <-])%bind_Ok)%bind_Ok. constructor; [by eapply parse_token_alts|by eapply IH].
Qed.

Lemma alts_allowed ts ps l :
  Forall2 (fun t p => forall w, w ∈ alternatives_of p <-> token_allows t w) ts ps ->
  Forall2 (fun p w => w ∈ alternatives_of p) ps l <-> Forall2 token_allows ts l.
Proof.
  intros Hts. revert l. induction Hts as [|t p ts ps Ht Hts IH]; intros l; [by split; inversion 1|].
  destruct l as [|w l]; [by split; inversion 1|]. by rewrite !Forall2_cons, Ht, IH.
Qed.

(** What is accepted of an entry: its rules match just what it says, and never allow. *)
Lemma entry_rules_match rule i rs :
  entry_rules rule i = Ok rs ->
  (forall cmd m, (exists r, r ∈ rs /\ rule_matches r cmd = Some m) <-> entry_matches rule cmd m) /\
  rule_decision rule <> Some AllowToml.
Proof.
  unfold entry_rules. destruct (match rule_justification rule with Some j => is_blank j | None => false end); [done|].
  case_bool_decide; [done|]. intros (ps & Hps & (d & Hd & Hrs)%bind_Ok)%bind_Ok.
  pose proof (parse_tokens_alts _ _ _ _ Hps) as Hts. destruct ps as [|p ps]; [done|]. injection Hrs as <-.
  inversion Hts as [|t p' ts ps' Ht Hts' Hpat]; subst.
  assert (Hdec : exists d0, rule_decision rule = Some d0 /\ d0 <> AllowToml /\ d = as_decision d0).
  { destruct (rule_decision rule) as [[]|]; try done; injection Hd as <-; eauto. }
  destruct Hdec as (d0 & Hd0 & Hna & ->). split; [|by rewrite Hd0; intros [= ->]].
  intros cmd m. unfold entry_matches. rewrite <-Hpat, Hd0. split.
  - intros (r & (head & -> & Hin)%list_elem_of_fmap & (prefix & tail & -> & Hall & ->)%rule_matches_Some).
    exists prefix, tail, d0. split; [done|]. split; [|done]. cbn in Hall.
    apply Forall2_cons_inv_l in Hall as (w & prefix' & Hw & Hall & ->). cbn in Hw.
    apply list_elem_of_singleton in Hw as ->. constructor; [by apply Ht|]. by apply (alts_allowed _ _ _ Hts').
  - intros (prefix & tail & d' & -> & Hall & [= <-] & ->).
    apply Forall2_cons_inv_l in Hall as (w & prefix' & Hw & Hall & ->).
    exists (mk_rule (mk_pattern w ps) (as_decision d0) (rule_justification rule)). split.
    { apply list_elem_of_fmap. exists w. split; [done|]. by apply Ht. }
    apply rule_matches_Some. exists (w :: prefix'), tail. split; [done|]. split; [|done]. cbn.
    constructor; [by apply list_elem_of_singleton|]. by apply (alts_allowed _ _ _ Hts').
Qed.

(** The rules a policy holds for a program. *)
Definition rules_for (m : M PrefixRule) (k : str) : list PrefixRule := default [] (mm_get_vec m k).

Lemma insert_rules_for rs m k :
  rules_for (foldl (fun m r => mm_insert (program r) r m) m rs) k
  = rules_for m k ++ filter (fun r => program r = k) rs.
Proof.
  revert m. induction rs as [|r rs IH]; intros m; cbn [foldl filter list_filter]; [by rewrite app_nil_r|].
  rewrite IH. unfold rules_for at 1. rewrite get_insert. unfold filter, list_filter. fold (list_filter (A := PrefixRule)).
  destruct (decide (program r = k)) as [->|Hk]; cbn; [by rewrite <-app_assoc|done].
Qed.

Lemma insert_entries_rules entries i m m' k r :
  insert_entries entries i m = Ok m' ->
  r ∈ rules_for m' k <->
  r ∈ rules_for m k \/ (exists j e rs, entries !! j = Some e /\ entry_rules e (i + j) = Ok rs /\ r ∈ rs /\ program r = k).
Proof.
  revert i m. induction entries as [|e entries IH]; intros i m; cbn [insert_entries].
  { intros [= <-]. split; [auto|]. intros [?|(j & e & rs & Hj & _)]; [done|by rewrite lookup_nil in Hj]. }
  intros (rs & Hrs & Hrest)%bind_Ok. rewrite (IH _ _ Hrest), insert_rules_for, elem_of_app, list_elem_of_filter. split.
  - intros [[Hin|[Hk Hin]]|(j & e' & rs' & Hj & Hr & Hin & Hk)]; [by left|..]; right.
    + exists 0, e, rs. by rewrite Nat.add_0_r.
    + exists (S j), e', rs'. by rewrite Nat.add_succ_r.
  - intros [Hin|([|j] & e' & rs' & Hj & Hr & Hin & Hk)]; [by left; left|..]; cbn in Hj.
    + injection Hj as <-. rewrite Nat.add_0_r, Hrs in Hr. injection Hr as <-. left. by right.
    + right. exists j, e', rs'. by rewrite Nat.add_succ_r in Hr.
Qed.

Lemma insert_entries_ok entries i m m' j e :
  insert_entries entries i m = Ok m' -> entries !! j = Some e -> exists rs, entry_rules e (i + j) = Ok rs.
Proof.
  revert i m j. induction entries as [|e' entries IH]; intros i m j; cbn [insert_entries]; [by rewrite lookup_nil|].
  intros (rs & Hrs & Hrest)%bind_Ok Hj. destruct j as [|j]; cbn in Hj.
  - injection Hj as ->. exists rs. by rewrite Nat.add_0_r.
  - rewrite Nat.add_succ_r. by apply (IH _ _ _ Hrest).
Qed.

Lemma matches_rules_for m cmd x :
  x ∈ matches_for_command (mk_policy m) cmd None <->
  exists w r, head cmd = Some w /\ r ∈ rules_for m w /\ rule_matches r cmd = Some x.
Proof.
  unfold matches_for_command, rules_for. cbn [rules_by_program].
  assert (Hnil : forall l : list RuleMatch, match l with [] | _ => l end = l) by (by intros []).
  rewrite Hnil. destruct cmd as [|w cmd]; cbn [head].
  - split; [intros Hx; by apply not_elem_of_nil in Hx|naive_solver].
  - transitivity (x ∈ omap (fun rule => rule_matches rule (w :: cmd)) (rules_for m w)).
    { unfold rules_for. by destruct (mm_get_vec m w). }
    rewrite list_elem_of_omap. unfold rules_for. naive_solver.
Qed.

(** The rules of a requirements file, once accepted, match just the commands its
    entries describe, word by word, with their decisions; none of them allows anything. *)
Theorem requirement_rules_spec entries p :
  to_policy entries = Ok p ->
  (forall cmd m, m ∈ matches_for_command p cmd None <-> exists e, e ∈ entries /\ entry_matches e cmd m) /\
  (forall cmd m, m ∈ matches_for_command p cmd None -> match_decision m <> Allow).
Proof.
  unfold to_policy. case_bool_decide; [done|]. intros (m0 & Hm & [= <-])%bind_Ok.
  assert (Hiff : forall cmd m, m ∈ matches_for_command (mk_policy m0) cmd None <-> exists e, e ∈ entries /\ entry_matches e cmd m).
  { intros cmd m. rewrite matches_rules_for. split.
    - intros (w & r & Hw & Hin & Hr). apply (insert_entries_rules _ _ _ _ _ _ Hm) in Hin.
      destruct Hin as [Hin|(j & e & rs & Hj & Hrs & Hin & _)].
      { unfold rules_for in Hin. rewrite get_new in Hin. by apply not_elem_of_nil in Hin. }
      exists e. split; [by apply list_elem_of_lookup_2 in Hj|]. apply (proj1 (entry_rules_match _ _ _ Hrs)). eauto.
    - intros (e & He & Hmatch). apply list_elem_of_lookup in He as [j Hj].
      destruct (insert_entries_ok _ _ _ _ _ _ Hm Hj) as [rs Hrs].
      destruct (proj2 (proj1 (entry_rules_match _ _ _ Hrs) cmd m) Hmatch) as (r & Hin & Hr). pose proof (rule_matches_program _ _ _ Hr) as Hw.
      exists (program r), r. split; [done|]. split; [|done]. apply (insert_entries_rules _ _ _ _ _ _ Hm). right.
      exists j, e, rs. done. }
  split; [exact Hiff|]. intros cmd m (e & He & Hmatch)%Hiff Ha. apply list_elem_of_lookup in He as [j Hj].
  destruct (insert_entries_ok _ _ _ _ _ _ Hm Hj) as [rs Hrs]. apply (proj2 (entry_rules_match _ _ _ Hrs)).
  destruct Hmatch as (prefix & tail & d & _ & _ & Hd & ->). by destruct d.
Qed.
End policy.

(** ** What requirements allow *)

Section enforced.
Context {M : Type -> Type} `{MultiMap M}.
Context `{Debug AskForApproval, Debug (list AskForApproval), Debug SandboxModeRequirement,
  Debug (list SandboxModeRequirement), Debug WebSearchMode, Debug (list WebSearchMode), Debug (option ResidencyRequirement)}.

(** A constrained value without a normaliser, whose value is one of those that [Q]
    describes, and which takes just those. *)
Definition takes_just {T} (c : ConstrainedWithSource T) (Q : T -> Prop) : Prop :=
  constrained_ok (constrained c) /\ normalizer (constrained c) = None /\
  (forall v, returns (validator (constrained c) v)) /\
  forall v, validator (constrained c) v = Ok () <-> Q v.

Lemma takes_any {T} (v : T) (Q : T -> Prop) : (forall v, Q v) -> takes_just (mk_with_source (allow_any v) None) Q.
Proof. intros HQ. by repeat split. Qed.

Lemma takes_new {T} (v : T) f c src (Q : T -> Prop) :
  (c ← constrained_new v f; Ok (mk_with_source c (Some src))) = Ok c -> (forall v, returns (f v)) ->
  (forall v, f v = Ok () <-> Q v) -> takes_just c Q.
Proof.
  intros (c' & (Hok & Hval & _ & Hn)%constrained_new_ok & [= <-])%bind_Ok HR HQ. split; [exact Hok|]. split; [exact Hn|].
  cbn [constrained]. by rewrite Hval.
Qed.

Lemma approval_takes o c :
  approval_requirement o = Ok c -> takes_just c (fun v => forall s, o = Some s -> v ∈ sourced_value s).
Proof.
  destruct o as [[policies src]|]; cbn [approval_requirement]; [|intros [= <-]; by apply takes_any].
  destruct policies as [|p ps]; [done|]. intros Hc. eapply takes_new; [exact Hc|clear Hc; intros v; cbn beta zeta; by case_bool_decide|]. clear Hc. intros v. cbn beta.
  case_bool_decide as Hv; (split; [|try done]).
  - by intros _ s [= <-].
  - done.
  - intros Hs. by destruct Hv; apply (Hs _ eq_refl).
Qed.

Lemma sandbox_takes o c :
  sandbox_requirement o = Ok c -> takes_just c (fun v => forall s, o = Some s -> mode_of_policy v ∈ sourced_value s).
Proof.
  destruct o as [[modes src]|]; cbn [sandbox_requirement]; [|intros [= <-]; by apply takes_any].
  destruct (negb _); [done|]. intros Hc. eapply takes_new; [exact Hc|clear Hc; intros v; cbn beta zeta; by case_bool_decide|]. clear Hc. intros v. cbn beta zeta.
  case_bool_decide as Hv; (split; [|try done]).
  - by intros _ s [= <-].
  - done.
  - intros Hs. by destruct Hv; apply (Hs _ eq_refl).
Qed.

Lemma web_modes_elem v modes : v ∈ web_modes_set modes <-> v ∈ modes.
Proof. unfold web_modes_set. rewrite list_elem_of_filter. split; [by intros []|]. intros Hv. split; [done|]. destruct v; set_solver. Qed.

Lemma web_search_takes o c :
  web_search_requirement o = Ok c -> takes_just c (fun v => forall s, o = Some s -> v = WebDisabled \/ v ∈ sourced_value s).
Proof.
  destruct o as [[modes src]|]; cbn [web_search_requirement]; [|intros [= <-]; by apply takes_any].
  intros Hc. eapply takes_new; [exact Hc|clear Hc; intros v; cbn beta zeta; by case_bool_decide|]. clear Hc. intros v. cbn beta.
  case_bool_decide as Hv; rewrite web_modes_elem, elem_of_cons in Hv; (split; [|try done]).
  - intros _ s [= <-]. exact Hv.
  - done.
  - intros Hs. by destruct Hv; apply (Hs _ eq_refl).
Qed.

Lemma residency_takes o c :
  residency_requirement o = Ok c -> takes_just c (fun v => forall s, o = Some s -> v = Some (sourced_value s)).
Proof.
  destruct o as [[r src]|]; cbn [residency_requirement]; [|intros [= <-]; by apply takes_any].
  intros Hc. eapply takes_new; [exact Hc|clear Hc; intros v; cbn beta zeta; by case_bool_decide|]. clear Hc. intros v. cbn beta. case_bool_decide as Hv; (split; [|try done]).
  - by intros _ s [= <-].
  - done.
  - intros Hs. by destruct Hv; apply (Hs _ eq_refl).
Qed.

Lemma takes_set_all {T} (c : ConstrainedWithSource T) Q vs : takes_just c Q -> Q (value (set_all vs (constrained c))).
Proof. intros (Hok & _ & _ & HQ). apply set_all_within; [exact Hok|]. intros v. apply HQ. Qed.

Lemma takes_set {T} (c : ConstrainedWithSource T) (Q : T -> Prop) vs v :
  takes_just c Q -> (set v (set_all vs (constrained c))).2 = Ok () <-> Q v.
Proof.
  intros (Hok & Hn & _ & HQ). destruct (set_all_keeps vs (constrained c) Hok) as (_ & Hval & Hnorm).
  unfold set. rewrite Hnorm, Hn, Hval, <-HQ. by destruct (validator (constrained c) v) as [[]|e| |].
Qed.

(** Everything a set of requirements says of the values it constrains. *)
Lemma requirements_take t reqs :
  requirements_of (M := M) t = Ok reqs ->
  takes_just (req_approval_policy reqs) (fun v => forall s, allowed_approval_policies t = Some s -> v ∈ sourced_value s) /\
  takes_just (req_sandbox_policy reqs) (fun v => forall s, allowed_sandbox_modes t = Some s -> mode_of_policy v ∈ sourced_value s) /\
  takes_just (req_web_search_mode reqs)
    (fun v => forall s, allowed_web_search_modes t = Some s -> v = WebDisabled \/ v ∈ sourced_value s) /\
  takes_just (req_enforce_residency reqs) (fun v => forall s, enforce_residency t = Some s -> v = Some (sourced_value s)) /\
  req_mcp_servers reqs = mcp_servers t /\ req_network reqs = network t.
Proof.
  unfold requirements_of. intros (a & Ha & (s & Hs & (r & Hr & (w & Hw & (e & He & [= <-])%bind_Ok)%bind_Ok)%bind_Ok)%bind_Ok)%bind_Ok.
  cbn. split; [by apply approval_takes|]. split; [by apply sandbox_takes|]. split; [by apply web_search_takes|].
  split; [by apply residency_takes|done].
Qed.

End enforced.

(** ** Examples *)

Definition no_debug {A} : Debug A := fun _ => [].

Definition example_rule : PrefixRuleToml :=
  mk_rule_toml [mk_token (Some (lit "git")) None; mk_token None (Some [lit "push"; lit "pull"])] (Some PromptToml) None.

Definition example_toml : ConfigRequirementsToml :=
  mk_requirement_fields (Some [UnlessTrusted; OnRequest]) (Some [ModeReadOnly; ModeWorkspaceWrite]) (Some [WebCached]) (Some ∅)
    (Some [example_rule]) (Some Us) None.

Definition example_sources : ConfigRequirementsWithSources := merge_sources [(CloudRequirements, example_toml)].

Definition example_requirements : ConstraintResult (ConfigRequirements (M := map_of_lists)) :=
  @requirements_of map_of_lists _ no_debug no_debug no_debug no_debug no_debug no_debug no_debug example_sources.

Lemma requirement_rules_spec_witness :
  exists p : Policy map_of_lists, to_policy [example_rule] = Ok p /\
  PrefixRuleMatch [lit "git"; lit "push"] Prompt None ∈ matches_for_command p [lit "git"; lit "push"; lit "-f"] None.
Proof.
  destruct (to_policy (M := map_of_lists) [example_rule]) as [p|e| |] eqn:Hp; [|exfalso; vm_compute in Hp; discriminate Hp..].
  exists p. split; [reflexivity|]. apply (proj1 (requirement_rules_spec [example_rule] p Hp)). exists example_rule. split; [left|].
  exists [lit "git"; lit "push"], [lit "-f"], PromptToml. split; [reflexivity|]. split; [|by split].
  constructor; [reflexivity|]. constructor; [|constructor]. change (lit "push" ∈ [lit "push"; lit "pull"]). left.
Defined.

Lemma example_requirements_ok : exists reqs, example_requirements = Ok reqs.
Proof. unfold example_requirements. vm_compute. eauto. Qed.

