(* ===== verification/ConfigPermissions.v ===== *)
(** * The permissions of a session (core/src/config/mod.rs)

    How a configuration, its profile and the overrides of the command line become an
    approval policy, a sandbox policy, a web search mode and a set of MCP servers, and how
    managed requirements bound them. *)

From stdpp Require Import gmap.
From S2P Require Import Prelude RustStd SandboxPolicy ExecPolicy HostPolicy ProxyConfig ConfigRequirements.

(** ** The settings read *)

Inductive TrustLevel : Type := Trusted | Untrusted.
#[export] Instance TrustLevel_eq_dec : EqDecision TrustLevel.
Proof. solve_decision. Defined.

Record ProjectConfig : Type := mk_project { trust_level : option TrustLevel }.
Definition is_trusted (p : ProjectConfig) : bool := bool_decide (trust_level p = Some Trusted).
Definition is_untrusted (p : ProjectConfig) : bool := bool_decide (trust_level p = Some Untrusted).

Inductive SandboxMode : Type := SandboxReadOnly | SandboxWorkspaceWrite | SandboxDangerFullAccess.
#[export] Instance SandboxMode_eq_dec : EqDecision SandboxMode.
Proof. solve_decision. Defined.

(** [sandbox_workspace_write]. *)
Record WorkspaceWriteToml : Type := mk_workspace_write {
  ws_writable_roots : list AbsolutePathBuf;
  ws_network_access : bool;
  ws_exclude_tmpdir_env_var : bool;
  ws_exclude_slash_tmp : bool;
}.

Inductive WindowsSandboxLevel : Type := WindowsDisabled | RestrictedToken | Elevated.
#[export] Instance WindowsSandboxLevel_eq_dec : EqDecision WindowsSandboxLevel.
Proof. solve_decision. Defined.

Inductive McpTransport : Type := Stdio (command : str) | StreamableHttp (url : str).

Inductive McpServerDisabledReason : Type := ReasonUnknown | ReasonRequirements (src : RequirementSource).

Record McpServerConfig : Type := mk_mcp {
  transport : McpTransport;
  mcp_enabled : bool;
  disabled_reason : option McpServerDisabledReason;
}.

(** The settings of [ConfigToml], of the active profile and of the overrides that
    permissions depend on. *)
Record ConfigToml : Type := mk_config_toml {
  cfg_approval_policy : option AskForApproval;
  cfg_sandbox_mode : option SandboxMode;
  cfg_sandbox_workspace_write : option WorkspaceWriteToml;
  cfg_web_search : option WebSearchMode;
  cfg_projects : gmap str ProjectConfig;
  cfg_mcp_servers : gmap str McpServerConfig;
}.

Record ConfigProfile : Type := mk_profile {
  profile_approval_policy : option AskForApproval;
  profile_sandbox_mode : option SandboxMode;
  profile_web_search : option WebSearchMode;
}.

Record ConfigOverrides : Type := mk_overrides {
  override_approval_policy : option AskForApproval;
  override_sandbox_mode : option SandboxMode;
  additional_writable_roots : list AbsolutePathBuf;
}.

(** The platform, the features that are on, and the root of the repository a directory
    belongs to. *)
Record Platform : Type := mk_platform {
  target_windows : bool;
  windows_sandbox_level : WindowsSandboxLevel;
  web_search_cached : bool;
  web_search_request : bool;
  repo_root_for_trust : str -> option str;
}.

Definition opt_or {A} (a b : option A) : option A := match a with Some x => Some x | None => b end.

Definition get_active_project (env : Platform) (cfg : ConfigToml) (resolved_cwd : str) : option ProjectConfig :=
  match cfg_projects cfg !! resolved_cwd with
  | Some project => Some project
  | None => repo_root ← repo_root_for_trust env resolved_cwd; cfg_projects cfg !! repo_root
  end.

(** ** The sandbox policy *)

Definition unsandboxed_windows (env : Platform) : bool :=
  target_windows env && bool_decide (windows_sandbox_level env = WindowsDisabled).

Definition downgrade_workspace_write (env : Platform) (policy : SandboxPolicy) : SandboxPolicy :=
  match policy with
  | WorkspaceWrite _ _ _ _ _ => if unsandboxed_windows env then new_read_only_policy else policy
  | _ => policy
  end.

Definition explicit_sandbox_mode (cfg : ConfigToml) (profile : ConfigProfile) (o : ConfigOverrides) : option SandboxMode :=
  opt_or (override_sandbox_mode o) (opt_or (profile_sandbox_mode profile) (cfg_sandbox_mode cfg)).

Definition trusted_default_mode (env : Platform) (cfg : ConfigToml) (cwd : str) : option SandboxMode :=
  p ← get_active_project env cfg cwd;
  if is_trusted p || is_untrusted p then
    Some (if unsandboxed_windows env then SandboxReadOnly else SandboxWorkspaceWrite)
  else None.

Definition policy_of_mode (cfg : ConfigToml) (mode : SandboxMode) : SandboxPolicy :=
  match mode with
  | SandboxReadOnly => new_read_only_policy
  | SandboxWorkspaceWrite =>
      match cfg_sandbox_workspace_write cfg with
      | Some w => WorkspaceWrite (ws_writable_roots w) FullAccess (ws_network_access w) (ws_exclude_tmpdir_env_var w)
                    (ws_exclude_slash_tmp w)
      | None => new_workspace_write_policy
      end
  | SandboxDangerFullAccess => DangerFullAccess
  end.

Definition derive_sandbox_policy (env : Platform) (cfg : ConfigToml) (profile : ConfigProfile) (o : ConfigOverrides)
    (cwd : str) (constraint : Constrained SandboxPolicy) : SandboxPolicy :=
  let explicit := explicit_sandbox_mode cfg profile o in
  let mode := default SandboxReadOnly (opt_or explicit (trusted_default_mode env cfg cwd)) in
  let policy := policy_of_mode cfg mode in
  let policy := if bool_decide (mode = SandboxWorkspaceWrite) then downgrade_workspace_write env policy else policy in
  match explicit, can_set constraint policy with
  | None, Err _ => downgrade_workspace_write env (value constraint)
  | _, _ => policy
  end.

Definition add_root (roots : list AbsolutePathBuf) (path : AbsolutePathBuf) : list AbsolutePathBuf :=
  if existsb (fun existing => path_eq existing path) roots then roots else roots ++ [path].

Definition add_writable_roots (paths : list AbsolutePathBuf) (policy : SandboxPolicy) : SandboxPolicy :=
  match policy with
  | WorkspaceWrite roots access network tmpdir slash_tmp =>
      WorkspaceWrite (foldl add_root roots paths) access network tmpdir slash_tmp
  | _ => policy
  end.

(** ** The approval policy and web search *)

Definition explicit_approval (cfg : ConfigToml) (profile : ConfigProfile) (o : ConfigOverrides) : option AskForApproval :=
  opt_or (override_approval_policy o) (opt_or (profile_approval_policy profile) (cfg_approval_policy cfg)).

Definition resolve_approval_policy (env : Platform) (cfg : ConfigToml) (profile : ConfigProfile) (o : ConfigOverrides)
    (cwd : str) (constraint : Constrained AskForApproval) : AskForApproval :=
  let active_project := default (mk_project None) (get_active_project env cfg cwd) in
  match explicit_approval cfg profile o with
  | Some p => p
  | None =>
      let p := if is_trusted active_project then OnRequest else if is_untrusted active_project then UnlessTrusted
               else OnRequest in
      match can_set constraint p with Err _ => value constraint | _ => p end
  end.

Definition resolve_web_search_mode (env : Platform) (cfg : ConfigToml) (profile : ConfigProfile) : option WebSearchMode :=
  match opt_or (profile_web_search profile) (cfg_web_search cfg) with
  | Some mode => Some mode
  | None => if web_search_cached env then Some WebCached else if web_search_request env then Some WebLive else None
  end.

Definition first_settable (c : Constrained WebSearchMode) (modes : list WebSearchMode) : WebSearchMode :=
  default WebDisabled (head (filter (fun m => is_ok (can_set c m) = true) modes)).

Definition resolve_web_search_mode_for_turn (c : Constrained WebSearchMode) (policy : SandboxPolicy) : WebSearchMode :=
  let preferred := value c in
  if match policy with DangerFullAccess => true | _ => false end && negb (bool_decide (preferred = WebDisabled)) then
    first_settable c [WebLive; WebCached; WebDisabled]
  else if is_ok (can_set c preferred) then preferred
  else first_settable c [WebCached; WebLive; WebDisabled].

(** ** Applying requirements *)

Definition disallowed_warning (field_name fallback : str) (err : ConstraintError) : str :=
  lit "Configured value for `" ++ field_name ++ lit "` is disallowed by requirements; falling back to required value "
  ++ fallback ++ lit ". Details: " ++ ConfigRequirements.constraint_message err.

(** [set_value] is the method of [Constrained]; the second attempt sets the value that is
    there already. *)
Definition apply_requirement_constrained_value {T} `{Debug T} (field_name : str) (configured_value : T)
    : io (Constrained T * list str) str () := fun '(c, startup_warnings) =>
  match set configured_value c with
  | (c, Ok _) => ((c, startup_warnings), Ok ())
  | (c, Err err) =>
      let fallback_value := value c in
      let startup_warnings := startup_warnings ++ [disallowed_warning field_name (debug fallback_value) err] in
      let (c, r) := set fallback_value c in
      ((c, startup_warnings),
       map_err (fun fallback_err =>
         lit "configured value for `" ++ field_name ++ lit "` is disallowed by requirements ("
         ++ ConfigRequirements.constraint_message err
         ++ lit "); fallback to a requirement-compliant value also failed ("
         ++ ConfigRequirements.constraint_message fallback_err ++ lit ")") r)
  | (c, Panic) => ((c, startup_warnings), Panic)
  | (c, Timeout) => ((c, startup_warnings), Timeout)
  end.

(** *** MCP servers *)

Definition mcp_server_matches_requirement (requirement : McpServerIdentity) (server : McpServerConfig) : bool :=
  match requirement, transport server with
  | McpCommand want, Stdio got => bool_decide (got = want)
  | McpUrl want, StreamableHttp got => bool_decide (got = want)
  | _, _ => false
  end.

Definition filter_mcp_servers_by_requirements (mcp_requirements : option (Sourced (gmap str McpServerIdentity)))
    (servers : gmap str McpServerConfig) : gmap str McpServerConfig :=
  match mcp_requirements with
  | None => servers
  | Some allowlist =>
      map_imap (fun name server => Some (
        if match sourced_value allowlist !! name with
           | Some requirement => mcp_server_matches_requirement requirement server
           | None => false
           end
        then mk_mcp (transport server) (mcp_enabled server) None
        else mk_mcp (transport server) false (Some (ReasonRequirements (source allowlist))))) servers
  end.

Definition constrain_mcp_servers (servers : gmap str McpServerConfig)
    (mcp_requirements : option (Sourced (gmap str McpServerIdentity))) : ConstraintResult (Constrained (gmap str McpServerConfig)) :=
  match mcp_requirements with
  | None => Ok (allow_any servers)
  | Some _ => constrained_normalized servers (filter_mcp_servers_by_requirements mcp_requirements)
  end.

(** ** Permissions *)

Section permissions.
Context {M : Type -> Type} `{MultiMap M}.
Context `{Debug AskForApproval, Debug (list AskForApproval), Debug SandboxModeRequirement,
  Debug (list SandboxModeRequirement), Debug WebSearchMode, Debug (list WebSearchMode), Debug (option ResidencyRequirement),
  Debug SandboxPolicy}.

Record Permissions : Type := mk_permissions {
  perm_approval_policy : Constrained AskForApproval;
  perm_sandbox_policy : Constrained SandboxPolicy;
  perm_web_search_mode : Constrained WebSearchMode;
  perm_mcp_servers : Constrained (gmap str McpServerConfig);
  perm_enforce_residency : Constrained (option ResidencyRequirement);
  startup_warnings : list str;
}.

(** The policies a configuration asks for. *)
Definition configured_sandbox_policy (env : Platform) (cfg : ConfigToml) (profile : ConfigProfile) (o : ConfigOverrides)
    (cwd : str) (reqs : ConfigRequirements (M := M)) : SandboxPolicy :=
  add_writable_roots (additional_writable_roots o)
    (derive_sandbox_policy env cfg profile o cwd (constrained (req_sandbox_policy reqs))).

Definition configured_approval_policy (env : Platform) (cfg : ConfigToml) (profile : ConfigProfile) (o : ConfigOverrides)
    (cwd : str) (reqs : ConfigRequirements (M := M)) : AskForApproval :=
  resolve_approval_policy env cfg profile o cwd (constrained (req_approval_policy reqs)).

(** The part of [load_config_with_layer_stack] that settles permissions. *)
Definition load_permissions (env : Platform) (cfg : ConfigToml) (profile : ConfigProfile) (o : ConfigOverrides) (cwd : str)
    (reqs : ConfigRequirements (M := M)) : outcome str Permissions :=
  let sandbox_policy := configured_sandbox_policy env cfg profile o cwd reqs in
  let approval_policy := configured_approval_policy env cfg profile o cwd reqs in
  let web_search_mode := default WebCached (resolve_web_search_mode env cfg profile) in
  let '((approval, warnings), r) :=
    apply_requirement_constrained_value (lit "approval_policy") approval_policy (constrained (req_approval_policy reqs), []) in
  _ ← r;
  let '((sandbox, warnings), r) :=
    apply_requirement_constrained_value (lit "sandbox_mode") sandbox_policy (constrained (req_sandbox_policy reqs), warnings) in
  _ ← r;
  let '((web, warnings), r) :=
    apply_requirement_constrained_value (lit "web_search_mode") web_search_mode (constrained (req_web_search_mode reqs), warnings) in
  _ ← r;
  mcp ← map_err ConfigRequirements.constraint_message (constrain_mcp_servers (cfg_mcp_servers cfg) (req_mcp_servers reqs));
  Ok (mk_permissions approval sandbox web mcp (constrained (req_enforce_residency reqs)) warnings).
End permissions.

(** ** Web search for a turn *)

Lemma first_settable_ok c modes :
  is_ok (can_set c WebDisabled) = true -> is_ok (can_set c (first_settable c modes)) = true.
Proof.
  intros Hd. unfold first_settable. destruct (filter _ modes) as [|m l] eqn:Hf; [exact Hd|]. cbn [head default].
  assert (Hm : m ∈ filter (fun m => is_ok (can_set c m) = true) modes) by (rewrite Hf; left).
  by apply list_elem_of_filter in Hm as [].
Qed.

(** The mode of a turn is one that may be set. *)
Lemma web_search_for_turn_settable c policy :
  is_ok (can_set c WebDisabled) = true -> is_ok (can_set c (resolve_web_search_mode_for_turn c policy)) = true.
Proof.
  intros Hd. unfold resolve_web_search_mode_for_turn. destruct (_ && _); [by apply first_settable_ok|].
  destruct (is_ok (can_set c (value c))) eqn:Hv; [exact Hv|]. by apply first_settable_ok.
Qed.

(** ** What requirements guarantee *)

Section guarantees.
Context {M : Type -> Type} `{MultiMap M}.
Context `{Debug AskForApproval, Debug (list AskForApproval), Debug SandboxModeRequirement,
  Debug (list SandboxModeRequirement), Debug WebSearchMode, Debug (list WebSearchMode), Debug (option ResidencyRequirement),
  Debug SandboxPolicy}.

(** Applying a value sets it if it is allowed, and else keeps the one required, with a
    warning. *)
Lemma apply_requirement_spec {T} `{Debug T} (field_name : str) (v : T) (c : ConstrainedWithSource T) Q warnings :
  takes_just c Q ->
  exists c' warnings', apply_requirement_constrained_value field_name v (constrained c, warnings) = ((c', warnings'), Ok ()) /\
    takes_just (mk_with_source c' None) Q /\ length warnings <= length warnings' /\
    (Q v -> value c' = v /\ warnings' = warnings) /\
    (~ Q v -> value c' = value (constrained c) /\ length warnings' = S (length warnings)).
Proof.
  intros Hc. pose proof Hc as (Hok & Hn & Hr & HQ). unfold apply_requirement_constrained_value, set. rewrite Hn.
  specialize (Hr v) as Hrv. destruct (validator (constrained c) v) as [[]|e| |] eqn:Hv; try done; cbn beta iota zeta.
  - eexists _, _. split; [reflexivity|]. split; [|split; [|split]].
    + by repeat split; cbn; auto; apply HQ.
    + done.
    + done.
    + intros HnQ. by destruct HnQ; apply HQ.
  - rewrite Hn. unfold constrained_ok in Hok. rewrite Hok. eexists _, _. split; [reflexivity|]. split; [|split; [|split]].
    + by repeat split; cbn; auto; apply HQ.
    + rewrite length_app. lia.
    + intros HQv. apply HQ in HQv. congruence.
    + intros _. split; [done|]. rewrite length_app. cbn. lia.
Qed.

Lemma approval_fallback p ps src c :
  approval_requirement (Some (mk_sourced (p :: ps) src)) = Ok c -> value (constrained c) = p.
Proof. cbn [approval_requirement]. by intros (c' & (_ & _ & Hv & _)%constrained_new_ok & [= <-])%bind_Ok. Qed.

(** A server is enabled only if the requirements name it with its identity. *)
Definition mcp_allowed (reqs : option (Sourced (gmap str McpServerIdentity))) (servers : gmap str McpServerConfig) : Prop :=
  forall allowlist name server, reqs = Some allowlist -> servers !! name = Some server -> mcp_enabled server = true ->
  exists requirement, sourced_value allowlist !! name = Some requirement /\ mcp_server_matches_requirement requirement server = true.

Lemma filter_allowed reqs servers : mcp_allowed reqs (filter_mcp_servers_by_requirements reqs servers).
Proof.
  intros allowlist name server -> Hs Hen. cbn [filter_mcp_servers_by_requirements] in Hs.
  rewrite map_lookup_imap in Hs. destruct (servers !! name) as [s0|]; [|done]. cbn [mbind option_bind] in Hs.
  destruct (sourced_value allowlist !! name) as [requirement|]; [|by injection Hs as <-]. exists requirement. split; [done|].
  destruct (mcp_server_matches_requirement requirement s0) eqn:Hm; injection Hs as <-; [|done].
  unfold mcp_server_matches_requirement in *. by destruct requirement, (transport s0).
Qed.

Lemma mcp_set_all servers reqs c vs : constrain_mcp_servers servers reqs = Ok c -> mcp_allowed reqs (value (set_all vs c)).
Proof.
  destruct reqs as [allowlist|]; [|done]. cbn [constrain_mcp_servers]. intros [= <-].
  assert (Hinv : forall vs (c : Constrained (gmap str McpServerConfig)),
            normalizer c = Some (filter_mcp_servers_by_requirements (Some allowlist)) -> mcp_allowed (Some allowlist) (value c) ->
            mcp_allowed (Some allowlist) (value (set_all vs c))).
  { clear. induction vs as [|v vs IH]; intros c Hn Hc; [done|]. cbn [set_all foldl]. apply IH.
    - unfold set. rewrite Hn. by destruct (validator c _).
    - unfold set. rewrite Hn. destruct (validator c _); try done. exact (filter_allowed (Some allowlist) v). }
  apply Hinv; [done|]. exact (filter_allowed (Some allowlist) servers).
Qed.

(** Loading, part by part. *)
Lemma load_permissions_run env cfg profile o cwd t reqs :
  requirements_of (M := M) t = Ok reqs ->
  let Qa v := forall s, allowed_approval_policies t = Some s -> v ∈ sourced_value s in
  let Qs v := forall s, allowed_sandbox_modes t = Some s -> mode_of_policy v ∈ sourced_value s in
  let Qw v := forall s, allowed_web_search_modes t = Some s -> v = WebDisabled \/ v ∈ sourced_value s in
  let a0 := configured_approval_policy env cfg profile o cwd reqs in
  let s0 := configured_sandbox_policy env cfg profile o cwd reqs in
  exists p, load_permissions env cfg profile o cwd reqs = Ok p /\
    takes_just (mk_with_source (perm_approval_policy p) None) Qa /\
    takes_just (mk_with_source (perm_sandbox_policy p) None) Qs /\
    takes_just (mk_with_source (perm_web_search_mode p) None) Qw /\
    (Qa a0 -> value (perm_approval_policy p) = a0) /\
    (~ Qa a0 -> value (perm_approval_policy p) = value (constrained (req_approval_policy reqs)) /\ startup_warnings p <> []) /\
    (Qs s0 -> value (perm_sandbox_policy p) = s0) /\
    (~ Qs s0 -> value (perm_sandbox_policy p) = value (constrained (req_sandbox_policy reqs)) /\ startup_warnings p <> []) /\
    constrain_mcp_servers (cfg_mcp_servers cfg) (mcp_servers t) = Ok (perm_mcp_servers p).
Proof.
  intros Hreq Qa Qs Qw a0 s0. destruct (requirements_take t reqs Hreq) as (Ha & Hs & Hw & _ & Hm & _).
  unfold load_permissions. fold a0 s0.
  destruct (apply_requirement_spec (lit "approval_policy") a0 _ _ [] Ha) as (a & w1 & -> & Ha' & Hl1 & Hay & Han).
  destruct (apply_requirement_spec (lit "sandbox_mode") s0 _ _ w1 Hs) as (s & w2 & Heq2 & Hs' & Hl2 & Hsy & Hsn).
  destruct (apply_requirement_spec (lit "web_search_mode") (default WebCached (resolve_web_search_mode env cfg profile)) _ _ w2 Hw)
    as (w & w3 & Heq3 & Hw' & Hl3 & _ & _).
  bsimpl. cbn beta iota. rewrite Heq2. cbn beta iota. rewrite Heq3, Hm. cbn beta iota.
  destruct (constrain_mcp_servers (cfg_mcp_servers cfg) (mcp_servers t)) as [mcp|e| |] eqn:Hmcp; try (by destruct (mcp_servers t)).
  cbn [map_err]. eexists. split; [reflexivity|].
  cbn [perm_approval_policy perm_sandbox_policy perm_web_search_mode perm_mcp_servers startup_warnings].
  split; [exact Ha'|]. split; [exact Hs'|]. split; [exact Hw'|].
  assert (Hw3 : 0 < length w2 -> w3 <> []) by (intros Hpos ->; cbn in Hl3; lia).
  split; [apply Hay|]. split.
  { intros HQ. destruct (Han HQ) as [Hv Hlen]. split; [exact Hv|]. apply Hw3. lia. }
  split; [apply Hsy|]. split; [|done]. intros HQ. destruct (Hsn HQ) as [Hv Hlen]. split; [exact Hv|]. apply Hw3. lia.
Qed.

(** C8. However a session is configured, by files, profiles and overrides, and whatever is
    set later on: its permissions load, and stay among what the requirements allow. *)
Theorem permissions_meet_requirements env cfg profile o cwd t reqs :
  requirements_of (M := M) t = Ok reqs ->
  exists p, load_permissions env cfg profile o cwd reqs = Ok p /\
  (forall s vs, allowed_approval_policies t = Some s -> value (set_all vs (perm_approval_policy p)) ∈ sourced_value s) /\
  (forall s vs, allowed_sandbox_modes t = Some s ->
     mode_of_policy (value (set_all vs (perm_sandbox_policy p))) ∈ sourced_value s) /\
  (forall s vs, allowed_web_search_modes t = Some s ->
     value (set_all vs (perm_web_search_mode p)) = WebDisabled \/ value (set_all vs (perm_web_search_mode p)) ∈ sourced_value s) /\
  (forall vs, mcp_allowed (mcp_servers t) (value (set_all vs (perm_mcp_servers p)))).
Proof.
  intros Hreq. destruct (load_permissions_run env cfg profile o cwd t reqs Hreq)
    as (p & Hp & Ha & Hs & Hw & _ & _ & _ & _ & Hmcp). exists p. split; [exact Hp|]. split; [|split; [|split]].
  - intros s0 vs Hp0. exact (takes_set_all _ _ vs Ha s0 Hp0).
  - intros s0 vs Hp0. exact (takes_set_all _ _ vs Hs s0 Hp0).
  - intros s0 vs Hp0. exact (takes_set_all _ _ vs Hw s0 Hp0).
  - intros vs. exact (mcp_set_all _ _ _ vs Hmcp).
Qed.

(** A session gets the approval policy and the sandbox policy it is configured with
    where the requirements allow them; where they do not, it gets the first approval
    policy of the list, and the read-only sandbox, and a warning is shown. *)
Theorem configured_or_required env cfg profile o cwd t reqs :
  requirements_of (M := M) t = Ok reqs ->
  exists p, load_permissions env cfg profile o cwd reqs = Ok p /\
  (forall s, allowed_approval_policies t = Some s ->
     let v := configured_approval_policy env cfg profile o cwd reqs in
     (v ∈ sourced_value s -> value (perm_approval_policy p) = v) /\
     (v ∉ sourced_value s -> head (sourced_value s) = Some (value (perm_approval_policy p)) /\ startup_warnings p <> [])) /\
  (forall s, allowed_sandbox_modes t = Some s ->
     let v := configured_sandbox_policy env cfg profile o cwd reqs in
     (mode_of_policy v ∈ sourced_value s -> value (perm_sandbox_policy p) = v) /\
     (mode_of_policy v ∉ sourced_value s -> value (perm_sandbox_policy p) = new_read_only_policy /\ startup_warnings p <> [])).
Proof.
  intros Hreq. destruct (load_permissions_run env cfg profile o cwd t reqs Hreq)
    as (p & Hp & _ & _ & _ & Hay & Han & Hsy & Hsn & _). exists p. split; [exact Hp|].
  unfold requirements_of in Hreq. apply bind_Ok in Hreq as (ra & Ha & (rs & Hs & (r & _ & (w & _ & (e & _ & [= <-])%bind_Ok)%bind_Ok)%bind_Ok)%bind_Ok).
  cbn [req_approval_policy req_sandbox_policy] in *. split.
  - intros s Hs0. rewrite Hs0 in *. split; intros Hv.
    + apply Hay. by intros s' [= <-].
    + destruct Han as [Hval Hwarn]; [intros HQ; apply Hv; by apply HQ|]. split; [|exact Hwarn]. rewrite Hval.
      destruct s as [[|q qs] src]; [done|]. cbn [sourced_value head]. f_equal. symmetry. exact (approval_fallback _ _ _ _ Ha).
  - intros s Hs0. rewrite Hs0 in *. split; intros Hv.
    + apply Hsy. by intros s' [= <-].
    + destruct Hsn as [Hval Hwarn]; [intros HQ; apply Hv; by apply HQ|]. split; [|exact Hwarn]. rewrite Hval.
      destruct s as [modes src]. cbn [sandbox_requirement] in Hs. destruct (negb _); [done|].
      by apply bind_Ok in Hs as (c & (_ & _ & Hc & _)%constrained_new_ok & [= <-]).
Qed.
End guarantees.

(** ** Examples *)

Definition example_platform : Platform := mk_platform false WindowsDisabled false false (fun _ => None).
Definition example_config_toml : ConfigToml :=
  mk_config_toml (Some Never) (Some SandboxDangerFullAccess) None None ∅
    {[ lit "docs" := mk_mcp (Stdio (lit "npx")) true None ]}.
Definition plain_profile : ConfigProfile := mk_profile None None None.
Definition plain_overrides : ConfigOverrides := mk_overrides None None [].

Definition example_permissions (reqs : ConfigRequirements (M := map_of_lists)) : outcome str Permissions :=
  @load_permissions map_of_lists no_debug no_debug no_debug example_platform example_config_toml plain_profile plain_overrides (lit "/w") reqs.

Lemma permissions_meet_requirements_witness :
  exists reqs p, example_requirements = Ok reqs /\ example_permissions reqs = Ok p /\
    value (perm_approval_policy p) ∈ [UnlessTrusted; OnRequest].
Proof.
  destruct example_requirements_ok as [reqs Hr].
  destruct (@permissions_meet_requirements map_of_lists _ no_debug no_debug no_debug no_debug no_debug no_debug no_debug no_debug
    example_platform example_config_toml plain_profile plain_overrides (lit "/w") example_sources reqs Hr)
    as (p & Hp & Ha & _). exists reqs, p. split; [exact Hr|]. split; [exact Hp|].
  exact (Ha (mk_sourced [UnlessTrusted; OnRequest] CloudRequirements) [] eq_refl).
Defined.

Lemma configured_or_required_witness :
  exists reqs p, example_requirements = Ok reqs /\ example_permissions reqs = Ok p /\
    value (perm_sandbox_policy p) = new_read_only_policy.
Proof.
  destruct example_requirements_ok as [reqs Hr].
  destruct (@configured_or_required map_of_lists _ no_debug no_debug no_debug no_debug no_debug no_debug no_debug no_debug
    example_platform example_config_toml plain_profile plain_overrides (lit "/w") example_sources reqs Hr)
    as (p & Hp & _ & Hs). exists reqs, p. split; [exact Hr|]. split; [exact Hp|].
  apply (proj2 (Hs (mk_sourced [ModeReadOnly; ModeWorkspaceWrite] CloudRequirements) eq_refl)). cbn.
  apply (bool_decide_unpack _). vm_compute. exact I.
Defined.
