(* ===== verification/ConfigLayers.v ===== *)
(** * Configuration layers (config/src/state.rs, core/src/config_loader/mod.rs)

    The layers of configuration and their order, the stack they form, which project
    directories are trusted, and the loading of all layers from files. *)

From Stdlib Require Import Sorted.
From stdpp Require Import gmap.
From S2P Require Import Prelude RustStd Order SandboxPolicy ExecPolicy HostPolicy ProxyConfig TomlValues ConfigRequirements ConfigPermissions.

(** ** Layers *)

(** [ConfigLayerEntry] with its reason for being disabled, if it is. *)
Record Layer : Type := mk_full_layer { entry : ConfigLayerEntry TomlValue; disabled_reason : option str }.

Definition name (l : Layer) : ConfigLayerSource := layer_name _ (entry l).
Definition config (l : Layer) : TomlValue := layer_config _ (entry l).
Definition is_disabled (l : Layer) : bool := match disabled_reason l with Some _ => true | None => false end.

Definition layer_new (name : ConfigLayerSource) (config : TomlValue) : Layer := mk_full_layer (mk_layer _ name config) None.
Definition layer_new_disabled (name : ConfigLayerSource) (config : TomlValue) (reason : str) : Layer :=
  mk_full_layer (mk_layer _ name config) (Some reason).

Definition precedence (s : ConfigLayerSource) : nat :=
  match s with
  | Mdm _ _ => 0
  | System _ => 10
  | User _ => 20
  | Project _ => 25
  | SessionFlags => 30
  | LegacyManagedConfigTomlFromFile _ => 40
  | LegacyManagedConfigTomlFromMdm => 50
  end.

Definition is_user (l : Layer) : bool := match name l with User _ => true | _ => false end.

(** ** Order *)

(** [is_sorted]. *)
Fixpoint is_sorted (l : list Layer) : bool :=
  match l with
  | a :: (b :: _) as l => (precedence (name a) <=? precedence (name b)) && is_sorted l
  | _ => true
  end.

(** [Path::ancestors] of an absolute path, by components. *)
Definition ancestors (cs : list component) : list (list component) := (fun n => take n cs) <$> reverse (seq 1 (length cs)).

Inductive OrderError : Type := NotSorted | MultipleUserLayers | NoParent | NotRootToCwd.

(** The check between a project folder and the one before it. *)
Definition check_project (previous : option str) (current : str) : outcome OrderError () :=
  match previous with
  | None => Ok ()
  | Some previous =>
      match parent previous with
      | None => Err NoParent
      | Some parent =>
          if path_eq previous current || negb (existsb (fun a => bool_decide (a = parent)) (ancestors (components current)))
          then Err NotRootToCwd else Ok ()
      end
  end.

Fixpoint verify_loop (layers : list Layer) (index : nat) (user_layer_index : option nat) (previous : option str)
    : outcome OrderError (option nat) :=
  match layers with
  | [] => Ok user_layer_index
  | layer :: layers =>
      user_layer_index ← (if is_user layer then
                            match user_layer_index with Some _ => Err MultipleUserLayers | None => Ok (Some index) end
                          else Ok user_layer_index);
      match name layer with
      | Project current => _ ← check_project previous current; verify_loop layers (S index) user_layer_index (Some current)
      | _ => verify_loop layers (S index) user_layer_index previous
      end
  end.

Definition verify_layer_ordering (layers : list Layer) : outcome OrderError (option nat) :=
  if negb (is_sorted layers) then Err NotSorted else verify_loop layers 0 None None.

(** ** The stack *)

Section stack.
Context {R : Type}.

Record ConfigLayerStack : Type := mk_stack {
  layers : list Layer;
  user_layer_index : option nat;
  requirements : R;
  requirements_toml : ConfigRequirementsToml;
}.

Definition stack_new (layers : list Layer) (requirements : R) (requirements_toml : ConfigRequirementsToml)
    : outcome OrderError ConfigLayerStack :=
  user_layer_index ← verify_layer_ordering layers;
  Ok (mk_stack layers user_layer_index requirements requirements_toml).

Definition get_user_layer (s : ConfigLayerStack) : option Layer := i ← user_layer_index s; layers s !! i.

(** The first layer of a higher precedence. *)
Fixpoint position_above (p : nat) (l : list Layer) : option nat :=
  match l with
  | [] => None
  | a :: l => if p <? precedence (name a) then Some 0 else S <$> position_above p l
  end.

(** [layers[index] = user_layer] panics out of range. *)
Definition with_user_config (s : ConfigLayerStack) (config_toml : str) (user_config : TomlValue)
    : outcome OrderError ConfigLayerStack :=
  let user_layer := layer_new (User config_toml) user_config in
  let with_layers ls i := mk_stack ls i (requirements s) (requirements_toml s) in
  match user_layer_index s with
  | Some index =>
      if index <? length (layers s) then Ok (with_layers (<[index := user_layer]> (layers s)) (user_layer_index s)) else Panic
  | None =>
      match position_above (precedence (name user_layer)) (layers s) with
      | Some index => Ok (with_layers (take index (layers s) ++ user_layer :: drop index (layers s)) (Some index))
      | None => Ok (with_layers (layers s ++ [user_layer]) (Some (length (layers s))))
      end
  end.

Inductive ConfigLayerStackOrdering : Type := LowestPrecedenceFirst | HighestPrecedenceFirst.

Definition get_layers (s : ConfigLayerStack) (ordering : ConfigLayerStackOrdering) (include_disabled : bool) : list Layer :=
  let ls := filter (fun l => include_disabled || negb (is_disabled l) = true) (layers s) in
  match ordering with LowestPrecedenceFirst => ls | HighestPrecedenceFirst => reverse ls end.

Definition effective_config (s : ConfigLayerStack) : TomlValue :=
  merge_all (config <$> get_layers s LowestPrecedenceFirst false).

Definition origins (s : ConfigLayerStack) : gmap str ConfigLayerSource :=
  origins_of ((fun l => (name l, config l)) <$> get_layers s LowestPrecedenceFirst false).
End stack.
Arguments ConfigLayerStack R : clear implicits.

(** ** What the order check accepts *)

Definition project_of (l : Layer) : option str := match name l with Project folder => Some folder | _ => None end.
Definition projects (ls : list Layer) : list str := omap project_of ls.

(** The places of the user layers, counting from [i]. *)
Fixpoint users_from (i : nat) (ls : list Layer) : list nat :=
  match ls with [] => [] | l :: ls => (if is_user l then [i] else []) ++ users_from (S i) ls end.

(** Project folders, each below the parent of the one before. *)
Fixpoint chain_ok (previous : option str) (ps : list str) : Prop :=
  match ps with [] => True | p :: ps => check_project previous p = Ok () /\ chain_ok (Some p) ps end.

Definition prec_le (a b : Layer) : Prop := precedence (name a) <= precedence (name b).

Lemma is_sorted_iff ls : is_sorted ls = true <-> StronglySorted prec_le ls.
Proof.
  induction ls as [|a [|b ls] IH]; [by split; [constructor|]|by split; [repeat constructor|]|].
  change (is_sorted (a :: b :: ls)) with ((precedence (name a) <=? precedence (name b)) && is_sorted (b :: ls)).
  rewrite andb_true_iff, Nat.leb_le, IH. split.
  - intros [Hab Hs]. constructor; [done|]. constructor; [exact Hab|]. inversion Hs as [|? ? _ Hb]; subst.
    eapply Forall_impl; [exact Hb|]. unfold prec_le. intros; lia.
  - inversion 1 as [|? ? Hs Ha]; subst. by apply Forall_cons in Ha as [Hab _].
Qed.

Lemma verify_loop_iff ls i u previous r :
  verify_loop ls i u previous = Ok r <->
  chain_ok previous (projects ls) /\ option_list u ++ users_from i ls = option_list r.
Proof.
  revert i u previous. induction ls as [|l ls IH]; intros i u previous; cbn [verify_loop users_from].
  - rewrite app_nil_r. cbn. split; [intros [= <-]; by split|]. intros [_ Hr]. destruct u, r; cbn in Hr; congruence.
  - unfold projects. cbn [omap list_omap]. fold (projects ls). unfold is_user, project_of.
    destruct (name l) as [d k|f|f|f| |f|] eqn:Hn; bsimpl; rewrite ?IH; cbn [app chain_ok]; try done.
    + destruct u as [j|]; bsimpl; [|by rewrite IH]. split; [done|]. intros [_ Hr]. destruct r; cbn in Hr; congruence.
    + destruct (check_project previous f) as [[]|e| |]; bsimpl; rewrite ?IH; naive_solver.
Qed.

Lemma users_from_app i l1 l2 : users_from i (l1 ++ l2) = users_from i l1 ++ users_from (i + length l1) l2.
Proof.
  revert i. induction l1 as [|l l1 IH]; intros i; cbn [app users_from length]; [by rewrite Nat.add_0_r|].
  by rewrite IH, <-app_assoc, Nat.add_succ_r.
Qed.

Lemma users_from_nil i ls : users_from i ls = [] <-> Forall (fun l => is_user l = false) ls.
Proof.
  revert i. induction ls as [|l ls IH]; intros i; cbn [users_from]; [by split; [constructor|]|].
  rewrite Forall_cons, <-(IH (S i)). destruct (is_user l); cbn [app]; naive_solver.
Qed.

Lemma users_from_split i ls j :
  users_from i ls = [j] -> exists l1 l l2, ls = l1 ++ l :: l2 /\ j = i + length l1 /\ is_user l = true /\
    users_from i l1 = [] /\ users_from (S j) l2 = [].
Proof.
  revert i. induction ls as [|l ls IH]; intros i; cbn [users_from]; [done|]. destruct (is_user l) eqn:Hu.
  - intros [= <- Hls]. exists [], l, ls. cbn. by rewrite Nat.add_0_r.
  - intros (l1 & l' & l2 & -> & -> & Hu' & Hl1 & Hl2)%IH. exists (l :: l1), l', l2. cbn [length users_from]. rewrite Hu, Hl1.
    by rewrite Nat.add_succ_r.
Qed.

Lemma verify_iff ls r :
  verify_layer_ordering ls = Ok r <->
  StronglySorted prec_le ls /\ chain_ok None (projects ls) /\ users_from 0 ls = option_list r.
Proof.
  unfold verify_layer_ordering. rewrite <-is_sorted_iff. destruct (is_sorted ls); cbn [negb]; [|naive_solver].
  rewrite verify_loop_iff. cbn. naive_solver.
Qed.

Lemma user_precedence l : is_user l = true -> precedence (name l) = 20.
Proof. unfold is_user. by destruct (name l). Qed.

Lemma user_no_project l : is_user l = true -> project_of l = None.
Proof. unfold is_user, project_of. by destruct (name l). Qed.

Lemma sorted_app_iff l1 l2 :
  StronglySorted prec_le (l1 ++ l2) <->
  StronglySorted prec_le l1 /\ StronglySorted prec_le l2 /\ (forall a b, a ∈ l1 -> b ∈ l2 -> prec_le a b).
Proof.
  induction l1 as [|a l1 IH]; cbn [app].
  - split; [intros Hs; split; [constructor|]; split; [done|]|by intros (_ & ? & _)]. intros a b Ha. by apply not_elem_of_nil in Ha.
  - split.
    + inversion 1 as [|? ? Hs Ha]; subst. apply IH in Hs as (Hs1 & Hs2 & Hall). apply Forall_app in Ha as [Ha1 Ha2].
      split; [by constructor|]. split; [done|]. intros x b [->|Hx]%elem_of_cons Hb; [|by apply Hall].
      exact (proj1 (Forall_forall _ _) Ha2 b Hb).
    + intros (Hs1 & Hs2 & Hall). inversion Hs1 as [|? ? Hs Ha]; subst. constructor.
      * apply IH. split; [done|]. split; [done|]. intros x b Hx Hb. apply Hall; [by right|done].
      * apply Forall_app. split; [done|]. apply Forall_forall. intros b Hb. apply Hall; [by left|done].
Qed.

(** A user layer put where its precedence belongs. *)
Lemma insert_user_ok l1 l2 u :
  is_user u = true -> StronglySorted prec_le (l1 ++ l2) -> chain_ok None (projects (l1 ++ l2)) ->
  users_from 0 l1 = [] -> users_from 0 l2 = [] ->
  Forall (fun l => precedence (name l) <= 20) l1 -> Forall (fun l => 20 <= precedence (name l)) l2 ->
  verify_layer_ordering (l1 ++ u :: l2) = Ok (Some (length l1)).
Proof.
  intros Hu (Hs1 & Hs2 & Hall)%sorted_app_iff Hc Hu1 Hu2 Hp1 Hp2. apply user_precedence in Hu as Hp.
  apply verify_iff. split; [|split].
  - apply sorted_app_iff. split; [done|]. split.
    + constructor; [done|]. eapply Forall_impl; [exact Hp2|]. unfold prec_le. intros b; lia.
    + intros a b Ha [->|Hb]%elem_of_cons; [|by apply Hall]. unfold prec_le. rewrite Hp.
      exact (proj1 (Forall_forall _ _) Hp1 a Ha).
  - revert Hc. unfold projects. rewrite !omap_app. cbn [omap list_omap]. by rewrite (user_no_project u Hu).
  - rewrite users_from_app. cbn [users_from]. rewrite Hu, Hu1. cbn [app].
    rewrite (proj2 (users_from_nil _ l2)); [done|]. by apply users_from_nil in Hu2.
Qed.

(** One user layer for another. *)
Lemma replace_user_ok l1 l l2 u :
  is_user l = true -> is_user u = true -> verify_layer_ordering (l1 ++ l :: l2) = Ok (Some (length l1)) ->
  users_from 0 l1 = [] -> users_from (S (length l1)) l2 = [] -> verify_layer_ordering (l1 ++ u :: l2) = Ok (Some (length l1)).
Proof.
  intros Hl Hu (Hs & Hc & _)%verify_iff Hu1 Hu2. apply sorted_app_iff in Hs as (Hs1 & Hs2 & Hall).
  inversion Hs2 as [|? ? Hs2' Hl2]; subst. apply insert_user_ok; [done|..].
  - apply sorted_app_iff. split; [done|]. split; [done|]. intros a b Ha Hb. apply Hall; [done|by right].
  - revert Hc. unfold projects. rewrite !omap_app. cbn [omap list_omap]. by rewrite (user_no_project l Hl).
  - exact Hu1.
  - apply users_from_nil. by apply users_from_nil in Hu2.
  - apply Forall_forall. intros a Ha. rewrite <-(user_precedence l Hl). apply Hall; [done|left].
  - eapply Forall_impl; [exact Hl2|]. intros b Hb. by rewrite <-(user_precedence l Hl).
Qed.

Lemma position_above_spec p ls :
  match position_above p ls with
  | Some i => i < length ls /\ Forall (fun l => precedence (name l) <= p) (take i ls) /\
              exists a, head (drop i ls) = Some a /\ p < precedence (name a)
  | None => Forall (fun l => precedence (name l) <= p) ls
  end.
Proof.
  induction ls as [|a ls IH]; cbn [position_above]; [constructor|].
  destruct (Nat.ltb_spec p (precedence (name a))) as [Hlt|Hge].
  - split; [cbn; lia|]. split; [constructor|]. by exists a.
  - destruct (position_above p ls) as [i|]; cbn [fmap option_fmap option_map].
    + destruct IH as (Hi & Hall & b & Hb & Hlt). split; [cbn; lia|]. split; [by constructor|]. by exists b.
    + by constructor.
Qed.

Section with_user.
Context {R : Type}.
Implicit Type s : ConfigLayerStack R.

Definition stack_ok s : Prop := verify_layer_ordering (layers s) = Ok (user_layer_index s).

Definition others (ls : list Layer) : list Layer := filter (fun l => is_user l = false) ls.

(** Replacing the user's configuration keeps a stack in order, with one user layer,
    which holds the new configuration; every other layer stays where it was. *)
Theorem with_user_config_ok s config_toml user_config :
  stack_ok s ->
  exists s', with_user_config s config_toml user_config = Ok s' /\ stack_ok s' /\
    get_user_layer s' = Some (layer_new (User config_toml) user_config) /\ others (layers s') = others (layers s) /\
    requirements s' = requirements s.
Proof.
  set (u := layer_new (User config_toml) user_config). intros Hok. pose proof Hok as (Hs & Hc & Hu)%verify_iff.
  unfold with_user_config. fold u. assert (Huu : is_user u = true) by done.
  destruct (user_layer_index s) as [j|] eqn:Hj; cbn [option_list] in Hu.
  - apply users_from_split in Hu as (l1 & l & l2 & Hls & -> & Hl & Hu1 & Hu2). cbn [Nat.add] in *. rewrite Hls in *.
    destruct (Nat.ltb_spec (length l1) (length (l1 ++ l :: l2))) as [_|Hge]; [|rewrite length_app in Hge; cbn in Hge; lia].
    rewrite insert_app_r_alt, Nat.sub_diag by lia. cbn [insert list_insert]. eexists. split; [reflexivity|].
    unfold stack_ok, get_user_layer, others. cbn [layers user_layer_index requirements]. split; [|split; [|split]].
    + apply (replace_user_ok l1 l l2 u); try done. unfold stack_ok in Hok. by rewrite Hls, Hj in Hok.
    + cbn [mbind option_bind]. by rewrite lookup_app_r, Nat.sub_diag by lia.
    + by rewrite !filter_app, !filter_cons_False by (rewrite ?Hl; done).
    + done.
  - pose proof (position_above_spec (precedence (name u)) (layers s)) as Hpos. change (precedence (name u)) with 20 in *.
    assert (Hnone : users_from 0 (layers s) = []) by exact Hu. apply users_from_nil in Hnone.
    destruct (position_above 20 (layers s)) as [i|].
    + destruct Hpos as (Hi & Hall & a & Ha & Hlt). pose proof (take_drop i (layers s)) as Htd.
      assert (Hlen : length (take i (layers s)) = i) by (rewrite length_take; lia).
      eexists. split; [reflexivity|]. unfold stack_ok, get_user_layer, others. cbn [layers user_layer_index requirements].
      rewrite <-Htd in Hs, Hc, Hnone. apply Forall_app in Hnone as [Hn1 Hn2]. split; [|split; [|split]].
      * rewrite <-Hlen at 3. apply insert_user_ok; try done; [by apply users_from_nil..|].
        apply sorted_app_iff in Hs as (_ & Hs2 & _). destruct (drop i (layers s)) as [|b l2]; [done|]. injection Ha as ->.
        inversion Hs2 as [|? ? _ Hb]; subst. constructor; [lia|]. eapply Forall_impl; [exact Hb|]. unfold prec_le. intros; lia.
      * cbn [mbind option_bind]. rewrite lookup_app_r by lia. by rewrite Hlen, Nat.sub_diag.
      * rewrite filter_app, filter_cons_False by done. by rewrite <-filter_app, Htd.
      * done.
    + eexists. split; [reflexivity|]. unfold stack_ok, get_user_layer, others. cbn [layers user_layer_index requirements].
      split; [|split; [|split]].
      * apply insert_user_ok; rewrite ?app_nil_r; try done; by apply users_from_nil.
      * cbn [mbind option_bind]. by rewrite lookup_app_r, Nat.sub_diag by lia.
      * rewrite filter_app, filter_cons_False by done. apply app_nil_r.
      * done.
Qed.
End with_user.

(** ** Examples *)

Definition example_stack : ConfigLayerStack () :=
  mk_stack [layer_new (System (lit "/etc/codex/config.toml")) empty_table; layer_new (Project (lit "/p/.codex")) empty_table]
    None () empty_requirements.

Lemma with_user_config_ok_witness :
  exists s', with_user_config example_stack (lit "/u") empty_table = Ok s' /\ user_layer_index s' = Some 1 /\
    get_user_layer s' = Some (layer_new (User (lit "/u")) empty_table).
Proof.
  destruct (with_user_config_ok example_stack (lit "/u") empty_table) as (s' & Hs & _ & Hu & _); [vm_compute; reflexivity|].
  exists s'. split; [exact Hs|]. split; [|exact Hu]. vm_compute in Hs. by injection Hs as <-.
Defined.
