(* ===== verification/ConfigLoad.v ===== *)
(** * Loading configuration (core/src/config_loader/mod.rs, layer_io.rs)

    The layers and the requirements of a session, read from the files of the system, the
    user and the project and from what the command line and administrators give; which
    project directories are trusted to configure anything.  Files, TOML text and
    deserialisation are the surroundings. *)

From Stdlib Require Import Sorted.
From stdpp Require Import gmap.
From S2P Require Import Prelude RustStd Order SandboxPolicy ExecPolicy HostPolicy ProxyConfig TomlValues ConfigRequirements ConfigPermissions ConfigLayers.

(** ** Surroundings

    Absolute paths are lists of names; text paths are their rendering. *)

Inductive ReadError : Type := NotFound | ReadFailed.

Class ConfigWorld : Type := {
  read_to_string : str -> outcome ReadError str;
  is_dir : str -> bool;
  path_exists : str -> bool;
  toml_from_str : str -> outcome str TomlValue;
  (** A table through [ConfigToml] and back, its relative paths resolved against a base;
      [None] when it is none. *)
  through_config_toml : list str -> TomlValue -> outcome str (option TomlValue);
  deserialize_projects : list str -> TomlValue -> outcome str (gmap str ProjectConfig);
  deserialize_requirements : str -> outcome str ConfigRequirementsToml;
  deserialize_legacy : TomlValue -> outcome str (option AskForApproval * option SandboxMode);
  normalize_path : list str -> option (list str);
  resolve_root_git_project_for_trust : list str -> option str;
}.

(** What went wrong; the messages are not modelled. *)
Inductive LoadError : Type :=
  | FileUnreadable (path : str)
  | TomlInvalid (path : str)
  | ConfigInvalid
  | MarkersInvalid
  | NoParentDirectory (path : str)
  | ConstraintInvalid (e : ConstraintError)
  | OrderInvalid (e : OrderError).

Definition CONFIG_TOML_FILE : str := lit "config.toml".
Definition DOT_CODEX : str := lit ".codex".
Definition SYSTEM_CONFIG_DIR : list str := [lit "etc"; lit "codex"].
Definition REQUIREMENTS_TOML_FILE : str := lit "requirements.toml".

(** ** Relative paths *)

Section load.
Context `{ConfigWorld}.

Definition resolve_relative_paths_in_config_toml (value : TomlValue) (base_dir : list str) : outcome LoadError TomlValue :=
  resolved ← map_err (fun _ => ConfigInvalid) (through_config_toml base_dir value);
  match resolved with
  | None => Ok value
  | Some resolved => Ok (copy_shape_from_original value resolved)
  end.

(** ** Required layers *)

Definition load_config_toml_for_required_layer (dir : list str) : outcome LoadError TomlValue :=
  let path := render_absolute (dir ++ [CONFIG_TOML_FILE]) in
  match read_to_string path with
  | Ok contents =>
      config ← map_err (fun _ => TomlInvalid path) (toml_from_str contents);
      resolve_relative_paths_in_config_toml config dir
  | Err NotFound => Ok empty_table
  | Err ReadFailed => Err (FileUnreadable path)
  | Panic => Panic
  | Timeout => Timeout
  end.

(** ** Trust *)

Record ProjectTrustContext : Type := mk_trust {
  project_root : list str;
  project_root_key : str;
  repo_root_key : option str;
  projects_trust : gmap str TrustLevel;
  user_config_file : str;
}.

Record ProjectTrustDecision : Type := mk_decision { decided : option TrustLevel; trust_key : str }.

Definition decision_trusted (d : ProjectTrustDecision) : bool := bool_decide (decided d = Some Trusted).

Definition decision_for_dir (ctx : ProjectTrustContext) (dir : list str) : ProjectTrustDecision :=
  let dir_key := render_absolute dir in
  match projects_trust ctx !! dir_key with
  | Some t => mk_decision (Some t) dir_key
  | None =>
      match projects_trust ctx !! project_root_key ctx with
      | Some t => mk_decision (Some t) (project_root_key ctx)
      | None =>
          match repo_root_key ctx with
          | Some key =>
              match projects_trust ctx !! key with
              | Some t => mk_decision (Some t) key
              | None => mk_decision None key
              end
          | None => mk_decision None (project_root_key ctx)
          end
      end
  end.

Definition disabled_reason_for_dir (ctx : ProjectTrustContext) (dir : list str) : option str :=
  let d := decision_for_dir ctx dir in
  if decision_trusted d then None
  else
    match decided d with
    | Some Untrusted =>
        Some (trust_key d ++ lit " is marked as untrusted in " ++ user_config_file ctx
              ++ lit ". To load config.toml, mark it trusted.")
    | _ =>
        Some (lit "To load config.toml, add " ++ trust_key d ++ lit " as a trusted project in " ++ user_config_file ctx
              ++ lit ".")
    end.

Definition project_layer_entry (ctx : ProjectTrustContext) (dot_codex_folder layer_dir : list str) (config : TomlValue)
    (config_toml_exists : bool) : Layer :=
  let source := Project (render_absolute dot_codex_folder) in
  match (if config_toml_exists then disabled_reason_for_dir ctx layer_dir else None) with
  | Some reason => layer_new_disabled source config reason
  | None => layer_new source config
  end.

(** ** The root of the project *)

Fixpoint strings_of (items : list TomlValue) : outcome LoadError (list str) :=
  match items with
  | [] => Ok []
  | Scalar (TomlString s) :: items => l ← strings_of items; Ok (s :: l)
  | _ :: _ => Err MarkersInvalid
  end.

Definition project_root_markers_from_config (config : TomlValue) : outcome LoadError (option (list str)) :=
  match config with
  | Table t =>
      match table_get (lit "project_root_markers") t with
      | None => Ok None
      | Some (TomlArray entries) => markers ← strings_of entries; Ok (Some markers)
      | Some _ => Err MarkersInvalid
      end
  | _ => Ok None
  end.

Definition default_project_root_markers : list str := [lit ".git"].

(** A directory and those above it, the nearest first. *)
Definition dir_ancestors (dir : list str) : list (list str) := (fun n => take n dir) <$> reverse (seq 0 (S (length dir))).

Definition find_project_root (cwd : list str) (markers : list str) : list str :=
  if bool_decide (markers = []) then cwd
  else
    default cwd (head (filter (fun ancestor =>
      existsb (fun marker => path_exists (path_join (render_absolute ancestor) marker)) markers = true) (dir_ancestors cwd))).

Definition trust_context (merged_config : TomlValue) (cwd : list str) (markers : list str) (config_base_dir : list str)
    (user_config_file : str) : outcome LoadError ProjectTrustContext :=
  projects ← map_err (fun _ => ConfigInvalid) (deserialize_projects config_base_dir merged_config);
  let project_root := find_project_root cwd markers in
  Ok (mk_trust project_root (render_absolute project_root) (resolve_root_git_project_for_trust cwd)
        (omap trust_level projects) user_config_file).

(** ** Project layers *)

(** The directories from the root of the project down to [cwd]. *)
Fixpoint up_to (root : list str) (l : list (list str)) : list (list str) :=
  match l with
  | [] => []
  | a :: l => if bool_decide (a = root) then [a] else a :: up_to root l
  end.
Definition project_dirs (cwd root : list str) : list (list str) := reverse (up_to root (dir_ancestors cwd)).

Definition normalized (p : list str) : list str := default p (normalize_path p).

(** The layer of one directory, if it has a folder that is not the user's own. *)
Definition project_layer (ctx : ProjectTrustContext) (codex_home dir : list str) : outcome LoadError (option Layer) :=
  let dot_codex := dir ++ [DOT_CODEX] in
  if negb (is_dir (render_absolute dot_codex)) then Ok None
  else if bool_decide (dot_codex = codex_home) || bool_decide (normalized dot_codex = normalized codex_home) then Ok None
  else
    let config_file := render_absolute (dot_codex ++ [CONFIG_TOML_FILE]) in
    match read_to_string config_file with
    | Ok contents =>
        match toml_from_str contents with
        | Ok config =>
            config ← resolve_relative_paths_in_config_toml config dot_codex;
            Ok (Some (project_layer_entry ctx dot_codex dir config true))
        | Err _ =>
            if decision_trusted (decision_for_dir ctx dir) then Err (TomlInvalid config_file)
            else Ok (Some (project_layer_entry ctx dot_codex dir empty_table true))
        | Panic => Panic
        | Timeout => Timeout
        end
    | Err NotFound => Ok (Some (project_layer_entry ctx dot_codex dir empty_table false))
    | Err ReadFailed => Err (FileUnreadable config_file)
    | Panic => Panic
    | Timeout => Timeout
    end.

Fixpoint project_layers_of (ctx : ProjectTrustContext) (codex_home : list str) (dirs : list (list str)) : outcome LoadError (list Layer) :=
  match dirs with
  | [] => Ok []
  | dir :: dirs =>
      l ← project_layer ctx codex_home dir;
      ls ← project_layers_of ctx codex_home dirs;
      Ok (option_list l ++ ls)
  end.

Definition load_project_layers (cwd : list str) (ctx : ProjectTrustContext) (codex_home : list str) : outcome LoadError (list Layer) :=
  project_layers_of ctx codex_home (project_dirs cwd (project_root ctx)).

(** ** Requirements *)

(** What the administrator of a machine manages, apart from files of the system: the cloud's
    requirements, those of managed preferences, and the path of [managed_config.toml] with
    the preferences that stand for it. *)
Record LoadInputs : Type := mk_inputs {
  codex_home : list str;
  cwd : option (list str);
  cli_overrides : list (str * TomlValue);
  cloud_requirements : option ConfigRequirementsToml;
  managed_preferences_requirements : option (str * str * ConfigRequirementsToml);
  managed_config_path : list str;
  managed_preferences : option TomlValue;
}.

Definition read_config_from_path (path : list str) : outcome LoadError (option TomlValue) :=
  let p := render_absolute path in
  match read_to_string p with
  | Ok contents => v ← map_err (fun _ => TomlInvalid p) (toml_from_str contents); Ok (Some v)
  | Err NotFound => Ok None
  | Err ReadFailed => Err (FileUnreadable p)
  | Panic => Panic
  | Timeout => Timeout
  end.

(** [load_requirements_toml], with its source, if there is such a file. *)
Definition system_requirements : outcome LoadError (list (RequirementSource * ConfigRequirementsToml)) :=
  let p := render_absolute (SYSTEM_CONFIG_DIR ++ [REQUIREMENTS_TOML_FILE]) in
  match read_to_string p with
  | Ok contents =>
      t ← map_err (fun _ => TomlInvalid p) (deserialize_requirements contents);
      Ok [(SystemRequirementsToml p, t)]
  | Err NotFound => Ok []
  | Err ReadFailed => Err (FileUnreadable p)
  | Panic => Panic
  | Timeout => Timeout
  end.

Definition requirement_of_mode (m : SandboxMode) : SandboxModeRequirement :=
  match m with
  | SandboxReadOnly => ModeReadOnly
  | SandboxWorkspaceWrite => ModeWorkspaceWrite
  | SandboxDangerFullAccess => ModeDangerFullAccess
  end.

(** [ConfigRequirementsToml::from] a legacy file: the one value, and read-only. *)
Definition legacy_requirements (legacy : option AskForApproval * option SandboxMode) : ConfigRequirementsToml :=
  mk_requirement_fields
    ((fun p => [p]) <$> legacy.1)
    ((fun m => let required := requirement_of_mode m in
               if bool_decide (required = ModeReadOnly) then [ModeReadOnly] else [ModeReadOnly; required]) <$> legacy.2)
    None None None None None.

Definition legacy_source (src : RequirementSource) (config : option TomlValue)
    : outcome LoadError (list (RequirementSource * ConfigRequirementsToml)) :=
  match config with
  | None => Ok []
  | Some c => legacy ← map_err (fun _ => ConfigInvalid) (deserialize_legacy c); Ok [(src, legacy_requirements legacy)]
  end.

(** All sources, the one that wins first. *)
Definition requirement_sources (inp : LoadInputs) (system : list (RequirementSource * ConfigRequirementsToml))
    (managed_config : option TomlValue) : outcome LoadError (list (RequirementSource * ConfigRequirementsToml)) :=
  mdm ← legacy_source LegacyFromMdm (managed_preferences inp);
  file ← legacy_source (LegacyFromFile (render_absolute (managed_config_path inp))) managed_config;
  Ok (option_list ((fun t => (CloudRequirements, t)) <$> cloud_requirements inp)
      ++ option_list ((fun '(domain, key, t) => (MdmManagedPreferences domain key, t)) <$> managed_preferences_requirements inp)
      ++ system ++ mdm ++ file).

(** ** All layers *)

Definition cli_layer (inp : LoadInputs) : outcome LoadError (option TomlValue) :=
  match cli_overrides inp with
  | [] => Ok None
  | overrides =>
      v ← resolve_relative_paths_in_config_toml (build_cli_overrides_layer overrides) (default (codex_home inp) (cwd inp));
      Ok (Some v)
  end.

(** The trust of projects, from the layers below them and the overrides. *)
Definition trust_of (inp : LoadInputs) (dir : list str) (system user : TomlValue) (cli : option TomlValue)
    : outcome LoadError ProjectTrustContext :=
  let merged_so_far := merge_all ([system; user] ++ option_list cli) in
  markers ← project_root_markers_from_config merged_so_far;
  trust_context merged_so_far dir (default default_project_root_markers markers) (codex_home inp)
    (render_absolute (codex_home inp ++ [CONFIG_TOML_FILE])).

Definition managed_layer (inp : LoadInputs) (managed_config : option TomlValue) : outcome LoadError (list Layer) :=
  match managed_config with
  | None => Ok []
  | Some v =>
      let file := render_absolute (managed_config_path inp) in
      match managed_config_path inp with
      | [] => Err (NoParentDirectory file)
      | path => v ← resolve_relative_paths_in_config_toml v (removelast path); Ok [layer_new (LegacyManagedConfigTomlFromFile file) v]
      end
  end.

(** The layers, from the lowest. *)
Definition load_layers (inp : LoadInputs) (managed_config : option TomlValue) : outcome LoadError (list Layer) :=
  cli ← cli_layer inp;
  system ← load_config_toml_for_required_layer SYSTEM_CONFIG_DIR;
  user ← load_config_toml_for_required_layer (codex_home inp);
  projects ← (match cwd inp with
              | None => Ok []
              | Some dir => ctx ← trust_of inp dir system user cli; load_project_layers dir ctx (codex_home inp)
              end);
  managed ← managed_layer inp managed_config;
  Ok ([layer_new (System (render_absolute (SYSTEM_CONFIG_DIR ++ [CONFIG_TOML_FILE]))) system;
       layer_new (User (render_absolute (codex_home inp ++ [CONFIG_TOML_FILE]))) user]
      ++ projects
      ++ option_list (layer_new SessionFlags <$> cli)
      ++ managed
      ++ option_list (layer_new LegacyManagedConfigTomlFromMdm <$> managed_preferences inp)).
End load.

Section state.
Context `{ConfigWorld} {M : Type -> Type} `{MultiMap M}.
Context `{Debug AskForApproval, Debug (list AskForApproval), Debug SandboxModeRequirement,
  Debug (list SandboxModeRequirement), Debug WebSearchMode, Debug (list WebSearchMode), Debug (option ResidencyRequirement)}.

Definition load_config_layers_state (inp : LoadInputs) : outcome LoadError (ConfigLayerStack (ConfigRequirements (M := M))) :=
  system ← system_requirements;
  managed_config ← read_config_from_path (managed_config_path inp);
  sources ← requirement_sources inp system managed_config;
  let toml := merge_sources sources in
  layers ← load_layers inp managed_config;
  requirements ← map_err ConstraintInvalid (requirements_of toml);
  map_err OrderInvalid (stack_new layers requirements (into_toml toml)).
End state.

(** ** Project layers are in order *)

Section projects.
Context `{ConfigWorld}.

(** One directory properly above another. *)
Definition above (a b : list str) : Prop := a `prefix_of` b /\ length a < length b.

Lemma takes_sorted dir i k : i + k <= S (length dir) -> StronglySorted above ((fun n => take n dir) <$> seq i k).
Proof.
  revert i. induction k as [|k IH]; intros i Hle; cbn [seq fmap list_fmap]; [constructor|].
  constructor; [apply IH; lia|]. apply Forall_fmap, Forall_seq. intros n Hn. cbn. split.
  - exists (drop i (take n dir)). rewrite <-(take_drop i (take n dir)) at 1. by rewrite take_take, Nat.min_l by lia.
  - rewrite !length_take. lia.
Qed.

Lemma StronglySorted_sublist {A} (R : relation A) l k : l `sublist_of` k -> StronglySorted R k -> StronglySorted R l.
Proof.
  induction 1 as [|x l k Hs IH|x l k Hs IH]; inversion 1 as [|? ? Hk Hx]; subst; [constructor|auto..].
  constructor; [auto|]. apply Forall_forall. intros y Hy. exact (proj1 (Forall_forall _ _) Hx y (elem_of_sublist l k y Hy Hs)).
Qed.

Lemma up_to_prefix root l : up_to root l `prefix_of` l.
Proof.
  induction l as [|a l IH]; cbn [up_to]; [done|]. case_bool_decide; [by exists l|]. by apply prefix_cons.
Qed.

Lemma project_dirs_sorted dir root : StronglySorted above (project_dirs dir root).
Proof.
  unfold project_dirs. destruct (up_to_prefix root (dir_ancestors dir)) as [rest Hrest].
  assert (Heq : (fun n => take n dir) <$> seq 0 (S (length dir)) = reverse rest ++ reverse (up_to root (dir_ancestors dir))).
  { rewrite <-reverse_app, <-Hrest. unfold dir_ancestors. by rewrite <-fmap_reverse, reverse_involutive. }
  eapply StronglySorted_sublist; [|by apply (takes_sorted dir 0 (S (length dir)))]. rewrite Heq. by apply sublist_inserts_l.
Qed.

Lemma project_dirs_above dir root d : d ∈ project_dirs dir root -> d `prefix_of` dir.
Proof.
  unfold project_dirs. rewrite elem_of_reverse. destruct (up_to_prefix root (dir_ancestors dir)) as [rest Hrest]. intros Hd.
  assert (Hin : d ∈ dir_ancestors dir) by (rewrite Hrest; apply elem_of_app; by left).
  unfold dir_ancestors in Hin. apply list_elem_of_fmap in Hin as (n & -> & _). exists (drop n dir). by rewrite take_drop.
Qed.

(** The folder of a directory, as text. *)
Definition folder_of (d : list str) : str := render_absolute (d ++ [DOT_CODEX]).

Lemma dot_codex_valid : valid_name DOT_CODEX.
Proof. apply (bool_decide_unpack _). vm_compute. exact I. Qed.

Lemma folder_components d : Forall valid_name d -> components (folder_of d) = RootDir :: (Normal <$> d) ++ [Normal DOT_CODEX].
Proof.
  intros Hd. unfold folder_of. rewrite components_render by (apply Forall_app; split; [done|]; repeat constructor; apply dot_codex_valid).
  by rewrite fmap_app.
Qed.

Lemma folder_below a b : Forall valid_name a -> Forall valid_name b -> above a b -> check_project (Some (folder_of a)) (folder_of b) = Ok ().
Proof.
  intros Ha Hb [[c ->] Hlen]. unfold check_project, parent. rewrite (folder_components a Ha).
  rewrite app_comm_cons, reverse_snoc. unfold path_eq. rewrite !folder_components by done.
  rewrite bool_decide_eq_false_2.
  2: { intros [= Heq]. apply (f_equal length) in Heq. rewrite !length_app, !length_fmap, length_app in Heq. cbn in Heq.
       rewrite length_app in Hlen. lia. }
  cbn [orb]. set (cs := RootDir :: (Normal <$> a ++ c) ++ [Normal DOT_CODEX]).
  assert (Hex : existsb (fun x => bool_decide (x = reverse (reverse (RootDir :: (Normal <$> a))))) (ancestors cs) = true).
  { apply existsb_exists. exists (RootDir :: (Normal <$> a)). split; [|by rewrite reverse_involutive, bool_decide_eq_true_2].
    apply list_elem_of_In. unfold ancestors. apply list_elem_of_fmap. exists (S (length a)). split.
    - subst cs. cbn [take]. rewrite fmap_app, <-app_assoc, take_app_le by (rewrite length_fmap; lia).
      by rewrite take_ge by (rewrite length_fmap; lia).
    - rewrite elem_of_reverse, elem_of_seq. subst cs. cbn [length]. rewrite length_app, length_fmap, length_app. cbn. lia. }
  by rewrite Hex.
Qed.

Lemma folders_chain previous ds :
  Forall valid_name previous -> Forall (Forall valid_name) ds -> Forall (above previous) ds -> StronglySorted above ds ->
  chain_ok (Some (folder_of previous)) (folder_of <$> ds).
Proof.
  intros Hp Hv Ha Hs. revert previous Hp Ha. induction Hs as [|d ds Hs IH Hd]; intros previous Hp Ha; [done|].
  apply Forall_cons in Hv as [Hvd Hv]. apply Forall_cons in Ha as [Had Ha]. cbn [fmap list_fmap chain_ok].
  split; [by apply folder_below|by apply IH].
Qed.

Lemma folders_chain_none ds :
  Forall (Forall valid_name) ds -> StronglySorted above ds -> chain_ok None (folder_of <$> ds).
Proof.
  intros Hv Hs. destruct Hs as [|d ds Hs Hd]; [done|]. apply Forall_cons in Hv as [Hvd Hv]. cbn [fmap list_fmap chain_ok].
  split; [done|by apply folders_chain].
Qed.

(** The layer of a directory. *)
Definition layer_for (ctx : ProjectTrustContext) (l : Layer) (d : list str) : Prop :=
  name l = Project (folder_of d) /\
  (is_disabled l = false -> decision_trusted (decision_for_dir ctx d) = true \/ config l = empty_table).

Lemma entry_layer_for ctx d v exists' :
  (exists' = false -> v = empty_table) -> layer_for ctx (project_layer_entry ctx (d ++ [DOT_CODEX]) d v exists') d.
Proof.
  intros Hv. unfold layer_for, project_layer_entry, disabled_reason_for_dir. destruct exists'; [|split; [done|]; right; by apply Hv].
  destruct (decision_trusted (decision_for_dir ctx d)); [by split; [|left]|].
  by destruct (decided (decision_for_dir ctx d)) as [[]|].
Qed.

Lemma project_layer_for ctx home d l : project_layer ctx home d = Ok (Some l) -> layer_for ctx l d.
Proof.
  unfold project_layer. destruct (negb _); [done|]. destruct (_ || _); [done|].
  destruct (read_to_string _) as [contents|[]| |]; [|intros [= <-]; by apply entry_layer_for|done..].
  destruct (toml_from_str contents) as [v|e| |]; [..|done|done].
  - intros (v' & _ & [= <-])%bind_Ok. by apply entry_layer_for.
  - destruct (decision_trusted _); [done|]. intros [= <-]. by apply entry_layer_for.
Qed.

Lemma project_layers_for ctx home dirs ls :
  project_layers_of ctx home dirs = Ok ls -> exists ds, ds `sublist_of` dirs /\ Forall2 (layer_for ctx) ls ds.
Proof.
  revert ls. induction dirs as [|d dirs IH]; intros ls; cbn [project_layers_of].
  - intros [= <-]. exists []. by split; constructor.
  - intros (l & Hl & (ls' & Hls & [= <-])%bind_Ok)%bind_Ok. destruct (IH ls' Hls) as (ds & Hs & Hall).
    destruct l as [l|]; cbn [option_list app]; [exists (d :: ds)|exists ds]; split; try by constructor.
    + constructor; [by eapply project_layer_for|done].
    + exact Hall.
Qed.

Lemma layers_projects ctx ls ds : Forall2 (layer_for ctx) ls ds -> projects ls = folder_of <$> ds.
Proof.
  unfold projects. induction 1 as [|l d ls ds [Hn _] _ IH]; [done|]. cbn [omap list_omap fmap list_fmap].
  unfold project_of at 1. by rewrite Hn, IH.
Qed.

Lemma project_layers_chain ctx home dir ls :
  Forall valid_name dir -> load_project_layers dir ctx home = Ok ls -> chain_ok None (projects ls).
Proof.
  unfold load_project_layers. intros Hv (ds & Hs & Hall)%project_layers_for. rewrite (layers_projects ctx ls ds Hall).
  apply folders_chain_none.
  - apply Forall_forall. intros d Hd. apply (elem_of_sublist _ _ _ Hd) in Hs. apply project_dirs_above in Hs as [c Hc].
    rewrite Hc in Hv. by apply Forall_app in Hv as [].
  - exact (StronglySorted_sublist above _ _ Hs (project_dirs_sorted dir (project_root ctx))).
Qed.

(** What loading puts together is always in order: the check of the stack accepts it,
    and finds the one user layer second. *)
Theorem loaded_layers_in_order inp managed_config ls :
  (forall dir, cwd inp = Some dir -> Forall valid_name dir) -> load_layers inp managed_config = Ok ls ->
  verify_layer_ordering ls = Ok (Some 1).
Proof.
  intros Hv. unfold load_layers.
  intros (cli & _ & (system & _ & (user & _ & (ps & Hps & (managed & Hm & [= <-])%bind_Ok)%bind_Ok)%bind_Ok)%bind_Ok)%bind_Ok.
  assert (Hp : chain_ok None (projects ps) /\ Forall (fun l => exists f, name l = Project f) ps).
  { destruct (cwd inp) as [dir|]; [|by injection Hps as <-]. apply bind_Ok in Hps as (ctx & _ & Hps).
    split; [by apply (project_layers_chain ctx (codex_home inp) dir); [apply Hv|]|].
    apply project_layers_for in Hps as (ds & _ & Hall). clear -Hall. induction Hall as [|l d ls ds [Hn _] _ IH]; constructor; eauto. }
  destruct Hp as [Hc Hn]. set (top := option_list (layer_new SessionFlags <$> cli) ++ managed ++ _).
  assert (Htop : StronglySorted prec_le top /\ projects top = [] /\ users_from 0 top = [] /\
            Forall (fun l => 25 <= precedence (name l)) top).
  { subst top. assert (Hmm : managed = [] \/ exists f v, managed = [layer_new (LegacyManagedConfigTomlFromFile f) v]).
    { unfold managed_layer in Hm. destruct managed_config as [v|]; [|injection Hm as <-; by left].
      destruct (managed_config_path inp); [done|]. apply bind_Ok in Hm as (v' & _ & [= <-]). right. eauto. }
    destruct cli, Hmm as [->|(f & v & ->)], (managed_preferences inp); cbn; repeat split; repeat constructor; unfold prec_le; cbn; lia. }
  destruct Htop as (Hs & Hpr & Hu & Hge). clearbody top. change (?a :: ?b :: ps ++ top) with ([a] ++ b :: (ps ++ top)).
  assert (Hps25 : Forall (fun l => precedence (name l) = 25) ps) by (eapply Forall_impl; [exact Hn|]; by intros l [f ->]).
  apply (insert_user_ok [_]); [done|..].
  - cbn [app]. constructor.
    + apply sorted_app_iff. split; [|split; [exact Hs|]].
      * clear -Hps25. induction Hps25 as [|l ls Hl Hls IH]; constructor; [done|]. eapply Forall_impl; [exact Hls|].
        unfold prec_le. intros; cbn beta in *; lia.
      * intros a b Ha Hb. unfold prec_le. rewrite (proj1 (Forall_forall _ _) Hps25 a Ha).
        exact (proj1 (Forall_forall _ _) Hge b Hb).
    + apply Forall_app. split; (eapply Forall_impl; [eassumption|]); unfold prec_le; cbn; intros; lia.
  - unfold projects in *. rewrite omap_app. cbn [omap list_omap]. change (project_of _) with (@None str). cbn [app].
    by rewrite omap_app, Hpr, app_nil_r.
  - done.
  - apply users_from_nil. apply Forall_app. split; [|by apply users_from_nil in Hu].
    eapply Forall_impl; [exact Hn|]. unfold is_user. by intros l [f ->].
  - by repeat constructor.
  - apply Forall_app. split; (eapply Forall_impl; [eassumption|]); cbn; intros; lia.
Qed.

(** A project folder whose configuration takes part in that of a session, and is not
    empty, is trusted by what is said outside of projects: the system's and the user's
    files and the command line. *)
Theorem only_trusted_projects_configure inp managed_config ls l folder :
  load_layers inp managed_config = Ok ls -> l ∈ ls -> name l = Project folder -> is_disabled l = false ->
  config l <> empty_table ->
  exists dir d system user cli ctx,
    cwd inp = Some dir /\ d `prefix_of` dir /\ folder = folder_of d /\
    load_config_toml_for_required_layer SYSTEM_CONFIG_DIR = Ok system /\
    load_config_toml_for_required_layer (codex_home inp) = Ok user /\ cli_layer inp = Ok cli /\
    trust_of inp dir system user cli = Ok ctx /\ decision_trusted (decision_for_dir ctx d) = true.
Proof.
  unfold load_layers.
  intros (cli & Hcli & (system & Hsys & (user & Huser & (ps & Hps & (managed & Hm & [= <-])%bind_Ok)%bind_Ok)%bind_Ok)%bind_Ok)%bind_Ok.
  intros Hl Hn Hd Hc.
  assert (Hin : l ∈ ps).
  { repeat (apply elem_of_cons in Hl as [->|Hl]; [done|]). repeat (apply elem_of_app in Hl as [Hl|Hl]); [done|..]; exfalso.
    - destruct cli; cbn in Hl; [by apply list_elem_of_singleton in Hl as ->|by apply not_elem_of_nil in Hl].
    - unfold managed_layer in Hm. destruct managed_config; [|injection Hm as <-; by apply not_elem_of_nil in Hl].
      destruct (managed_config_path inp); [done|]. apply bind_Ok in Hm as (v' & _ & [= <-]). by apply list_elem_of_singleton in Hl as ->.
    - destruct (managed_preferences inp); cbn in Hl; [by apply list_elem_of_singleton in Hl as ->|by apply not_elem_of_nil in Hl]. }
  destruct (cwd inp) as [dir|]; [|injection Hps as <-; by apply not_elem_of_nil in Hin].
  apply bind_Ok in Hps as (ctx & Hctx & Hps). pose proof Hps as (ds & Hs & Hall)%project_layers_for.
  apply list_elem_of_lookup in Hin as [i Hi]. destruct (Forall2_lookup_l _ _ _ _ _ Hall Hi) as (d & Hdi & Hnl & Htr).
  exists dir, d, system, user, cli, ctx. split; [done|]. split.
  { apply (project_dirs_above dir (project_root ctx)). eapply elem_of_sublist; [by eapply list_elem_of_lookup_2|exact Hs]. }
  split; [congruence|]. repeat split; try done. by destruct (Htr Hd).
Qed.
End projects.

(** ** What untrusted projects cannot do *)

Section ignored.
Context (w : ConfigWorld).

(** The same surroundings with other files. *)
Definition with_reads (f : str -> outcome ReadError str) : ConfigWorld := {|
  read_to_string := f; is_dir := is_dir; path_exists := path_exists; toml_from_str := toml_from_str;
  through_config_toml := through_config_toml; deserialize_projects := deserialize_projects;
  deserialize_requirements := deserialize_requirements; deserialize_legacy := deserialize_legacy;
  normalize_path := normalize_path; resolve_root_git_project_for_trust := resolve_root_git_project_for_trust;
|}.

Variable f : str -> outcome ReadError str.
#[local] Abbreviation w' := (with_reads f).

Definition project_file (d : list str) : str := render_absolute ((d ++ [DOT_CODEX]) ++ [CONFIG_TOML_FILE]).

(** The files of trusted directories agree; those of others may differ in their text. *)
Definition agree_on (ctx : ProjectTrustContext) : Prop :=
  forall d, f (project_file d) = read_to_string (project_file d) \/
    (is_ok (f (project_file d)) = true /\ is_ok (read_to_string (project_file d)) = true /\
     decision_trusted (decision_for_dir ctx d) = false).

Definition enabled_configs (ls : list Layer) : list TomlValue := config <$> filter (fun l => is_disabled l = false) ls.

Lemma untrusted_disabled ctx folder d v : decision_trusted (decision_for_dir ctx d) = false ->
  is_disabled (project_layer_entry ctx folder d v true) = true.
Proof.
  intros Hd. unfold project_layer_entry, disabled_reason_for_dir. rewrite Hd.
  by destruct (decided (decision_for_dir ctx d)) as [[]|].
Qed.

(** An untrusted directory whose file can be read gives a disabled layer. *)
Lemma untrusted_layer (w0 : ConfigWorld) ctx home d l :
  is_ok (@read_to_string w0 (project_file d)) = true -> decision_trusted (decision_for_dir ctx d) = false ->
  @project_layer w0 ctx home d = Ok l -> enabled_configs (option_list l) = [].
Proof.
  intros Hr Hd. unfold project_layer. destruct (negb _); [by intros [= <-]|]. destruct (_ || _); [by intros [= <-]|].
  fold (project_file d). destruct (@read_to_string w0 (project_file d)) as [contents|e| |]; [|done..].
  assert (Hdis : forall l, is_disabled l = true -> enabled_configs [l] = []).
  { intros l0 Hl0. unfold enabled_configs. by rewrite filter_cons_False by (rewrite Hl0; done). }
  destruct (toml_from_str contents) as [v|e| |]; [..|done|done].
  - intros (v' & _ & [= <-])%bind_Ok. by apply Hdis, untrusted_disabled.
  - rewrite Hd. intros [= <-]. by apply Hdis, untrusted_disabled.
Qed.

Lemma project_layers_agree ctx home dirs ls ls' :
  agree_on ctx -> project_layers_of ctx home dirs = Ok ls -> @project_layers_of w' ctx home dirs = Ok ls' ->
  enabled_configs ls = enabled_configs ls'.
Proof.
  intros Ha. assert (Happ : forall a b, enabled_configs (a ++ b) = enabled_configs a ++ enabled_configs b).
  { intros a b. unfold enabled_configs. by rewrite filter_app, fmap_app. }
  revert ls ls'. induction dirs as [|d dirs IH]; intros ls ls'; cbn [project_layers_of]; [by intros [= <-] [= <-]|].
  intros (l & Hl & (ls1 & Hls & [= <-])%bind_Ok)%bind_Ok (l' & Hl' & (ls1' & Hls' & [= <-])%bind_Ok)%bind_Ok.
  rewrite !Happ, (IH _ _ Hls Hls'). f_equal. destruct (Ha d) as [Heq|(Hok & Hok' & Hd)].
  - assert (Hsame : @project_layer w' ctx home d = project_layer ctx home d).
    { unfold project_layer. cbn [read_to_string is_dir toml_from_str with_reads]. fold (project_file d). by rewrite Heq. }
    rewrite Hsame in Hl'. congruence.
  - rewrite (untrusted_layer w ctx home d l), (untrusted_layer w' ctx home d l'); done.
Qed.

End ignored.

(** ** Examples *)

(** A machine with one project, whose folder holds a configuration file of the given text,
    and which the user trusts or does not. *)
Definition example_files (text path : str) : outcome ReadError str :=
  if bool_decide (path = lit "/p/.codex/config.toml") then Ok text else Err NotFound.

Definition example_config_world (trusted : bool) : ConfigWorld := {|
  read_to_string := example_files (lit "x");
  is_dir := fun path => bool_decide (path = lit "/p/.codex");
  path_exists := fun _ => false;
  toml_from_str := fun s => Ok (Table [(lit "model", toml_text s)]);
  through_config_toml := fun _ v => Ok (Some v);
  deserialize_projects := fun _ _ => Ok (if trusted then {[lit "/p" := mk_project (Some Trusted)]} else ∅);
  deserialize_requirements := fun _ => Ok empty_requirements;
  deserialize_legacy := fun _ => Ok (None, None);
  normalize_path := Some;
  resolve_root_git_project_for_trust := fun _ => None;
|}.

Definition example_inputs : LoadInputs := mk_inputs [lit "u"] (Some [lit "p"]) [] None None [lit "m"] None.

Definition example_loaded (trusted : bool) : list Layer :=
  unwrap_or [] (@load_layers (example_config_world trusted) example_inputs None).

Lemma example_loads trusted :
  @load_layers (example_config_world trusted) example_inputs None = Ok (example_loaded trusted).
Proof. destruct trusted; vm_compute; reflexivity. Qed.

Lemma loaded_layers_in_order_witness : verify_layer_ordering (example_loaded true) = Ok (Some 1).
Proof.
  refine (@loaded_layers_in_order (example_config_world true) example_inputs None _ _ (example_loads true)).
  intros dir [= <-]. apply (bool_decide_unpack _). vm_compute. exact I.
Defined.

Lemma only_trusted_projects_configure_witness :
  exists d ctx, lit "/p/.codex" = folder_of d /\ decision_trusted (decision_for_dir ctx d) = true.
Proof.
  destruct (@only_trusted_projects_configure (example_config_world true) example_inputs None (example_loaded true)
    (layer_new (Project (lit "/p/.codex")) (Table [(lit "model", toml_text (lit "x"))])) (lit "/p/.codex") (example_loads true))
    as (dir & d & system & user & cli & ctx & _ & _ & Hf & _ & _ & _ & _ & Ht).
  - apply (list_elem_of_lookup_2 _ 2). vm_compute. reflexivity.
  - reflexivity.
  - reflexivity.
  - discriminate.
  - exists d, ctx. split; [exact Hf|exact Ht].
Defined.

