(* ===== verification/Bwrap.v ===== *)
(** * The file system of the Linux sandbox (linux-sandbox/src/bwrap.rs)

    How a sandbox policy becomes arguments of bubblewrap: everything read-only, writable
    roots over it, protected subpaths over those.  What the arguments mean is read off the
    parser of the vendored bubblewrap, as far as this program uses it. *)

From Stdlib Require Import Sorted.
From S2P Require Import Prelude RustStd Order PatchApply SandboxPolicy ExecSandbox.

(** ** Options *)

Inductive BwrapNetworkMode : Type := FullNetwork | Isolated | ProxyOnly.
#[export] Instance BwrapNetworkMode_eq_dec : EqDecision BwrapNetworkMode.
Proof. solve_decision. Defined.

Definition should_unshare_network (m : BwrapNetworkMode) : bool :=
  match m with FullNetwork => false | Isolated | ProxyOnly => true end.

Record BwrapOptions : Type := mk_bwrap_options { mount_proc : bool; network_mode : BwrapNetworkMode }.

(** ** Paths *)

Definition component_rank (c : component) : N :=
  match c with RootDir => 0%N | CurDir => 1%N | ParentDir => 2%N | Normal _ => 3%N end.
Definition component_compare (a b : component) : comparison :=
  match a, b with
  | Normal x, Normal y => list_compare N.compare x y
  | _, _ => N.compare (component_rank a) (component_rank b)
  end.

(** [BTreeSet<PathBuf>::insert]: of equal paths the first stays. *)
Fixpoint btree_insert (p : str) (l : list str) : list str :=
  match l with
  | [] => [p]
  | q :: l =>
      match list_compare component_compare (components p) (components q) with
      | Lt => p :: q :: l
      | Eq => q :: l
      | Gt => q :: btree_insert p l
      end
  end.

Definition collect_read_only_subpaths (writable_roots : list WritableRoot) : list str :=
  foldl (fun l w => foldl (fun l s => btree_insert s l) l (read_only_subpaths w)) [] writable_roots.

(** The text of a path given by its components. *)
Definition component_str (c : component) : str :=
  match c with RootDir => [SLASH] | CurDir => lit "." | ParentDir => lit ".." | Normal n => n end.
Definition path_string (p : list component) : str :=
  match p with
  | RootDir :: p => SLASH :: join [SLASH] (component_str <$> p)
  | p => join [SLASH] (component_str <$> p)
  end.

(** [PathBuf::pop]. *)
Definition path_pop (p : list component) : list component :=
  match last p with Some RootDir | None => p | Some _ => removelast p end.

Definition is_within_allowed_write_paths (path : list component) (allowed_write_paths : list AbsolutePathBuf) : bool :=
  existsb (fun r => components_start_with path (components r)) allowed_write_paths.

Section bwrap.
Variable h : host.
(** [symlink_metadata], as far as it is used: whether the path is a symbolic link. *)
Variable symlink_metadata : str -> option bool.

(** The next position of a walk along a path, and whether to look at it. *)
Definition walk_step (current : list component) (c : component) : list component * bool :=
  match c with
  | RootDir => ([RootDir], false)
  | CurDir => (current, false)
  | ParentDir => (path_pop current, false)
  | Normal _ => (current ++ [c], true)
  end.

Fixpoint find_symlink_loop (allowed_write_paths : list AbsolutePathBuf) (cs current : list component) : option (list component) :=
  match cs with
  | [] => None
  | c :: cs =>
      let '(current, look) := walk_step current c in
      if look then
        match symlink_metadata (path_string current) with
        | None => None
        | Some is_symlink =>
            if is_symlink && is_within_allowed_write_paths current allowed_write_paths then Some current
            else find_symlink_loop allowed_write_paths cs current
        end
      else find_symlink_loop allowed_write_paths cs current
  end.
Definition find_symlink_in_path (target_path : str) (allowed_write_paths : list AbsolutePathBuf) : option (list component) :=
  find_symlink_loop allowed_write_paths (components target_path) [].

Fixpoint first_missing_loop (cs current : list component) : option (list component) :=
  match cs with
  | [] => None
  | c :: cs =>
      let '(current, look) := walk_step current c in
      if look && negb (path_exists h (path_string current)) then Some current else first_missing_loop cs current
  end.
Definition find_first_non_existent_component (target_path : str) : option (list component) :=
  first_missing_loop (components target_path) [].

(** ** The mounts *)

Fixpoint ensure_mount_targets_exist (writable_roots : list WritableRoot) : outcome CodexErr () :=
  match writable_roots with
  | [] => Ok ()
  | w :: ws =>
      if negb (path_exists h (root w)) then
        Err (UnsupportedOperation (lit "Sandbox expected writable root " ++ root w ++ lit ", but it does not exist."))
      else ensure_mount_targets_exist ws
  end.

(** The arguments that hide one protected subpath. *)
Definition mask_args (allowed_write_paths : list AbsolutePathBuf) (subpath : str) : list str :=
  match find_symlink_in_path subpath allowed_write_paths with
  | Some symlink_path => [lit "--ro-bind"; lit "/dev/null"; path_string symlink_path]
  | None =>
      if negb (path_exists h subpath) then
        match find_first_non_existent_component subpath with
        | Some first_missing_component =>
            if is_within_allowed_write_paths first_missing_component allowed_write_paths
            then [lit "--ro-bind"; lit "/dev/null"; path_string first_missing_component] else []
        | None => []
        end
      else if is_within_allowed_write_paths (components subpath) allowed_write_paths
      then [lit "--ro-bind"; subpath; subpath] else []
  end.

(** [get_writable_roots_with_cwd] does not fail but by a panic. *)
Definition create_filesystem_args (sandbox_policy : SandboxPolicy) (cwd : str) : outcome CodexErr (list str) :=
  if negb (has_full_disk_read_access sandbox_policy) then
    Err (UnsupportedOperation (lit "Restricted read-only access is not yet supported by the Linux bubblewrap backend."))
  else
    writable_roots ← expect (get_writable_roots_with_cwd h sandbox_policy cwd);
    _ ← ensure_mount_targets_exist writable_roots;
    let allowed_write_paths := root <$> writable_roots in
    Ok ([lit "--ro-bind"; lit "/"; lit "/"; lit "--dev"; lit "/dev"]
        ++ (writable_roots ≫= fun w => [lit "--bind"; root w; root w])
        ++ (collect_read_only_subpaths writable_roots ≫= mask_args allowed_write_paths)).

(** ** The command line *)

Definition proc_args (options : BwrapOptions) : list str :=
  (if should_unshare_network (network_mode options) then [lit "--unshare-net"] else [])
  ++ (if mount_proc options then [lit "--proc"; lit "/proc"] else []).

Definition create_bwrap_flags_full_filesystem (command : list str) (options : BwrapOptions) : list str :=
  [lit "--new-session"; lit "--die-with-parent"; lit "--bind"; lit "/"; lit "/"; lit "--unshare-pid"]
  ++ proc_args options ++ [lit "--"] ++ command.

Definition create_bwrap_flags (command : list str) (sandbox_policy : SandboxPolicy) (cwd : str) (options : BwrapOptions)
    : outcome CodexErr (list str) :=
  filesystem_args ← create_filesystem_args sandbox_policy cwd;
  Ok ([lit "--new-session"; lit "--die-with-parent"] ++ filesystem_args ++ [lit "--unshare-pid"]
      ++ proc_args options ++ [lit "--"] ++ command).

Definition create_bwrap_command_args (command : list str) (sandbox_policy : SandboxPolicy) (cwd : str) (options : BwrapOptions)
    : outcome CodexErr (list str) :=
  if has_full_disk_write_access sandbox_policy then
    if bool_decide (network_mode options = FullNetwork) then Ok command
    else Ok (create_bwrap_flags_full_filesystem command options)
  else create_bwrap_flags command sandbox_policy cwd options.
End bwrap.

(** ** What the arguments mean

    The parser of vendor/bubblewrap/bubblewrap.c ([parse_args_recurse]) on the options this
    program passes; it stops at other options, which is [None] here. *)

Inductive mount : Type :=
  | BindMount (src dst : str)
  | RoBindMount (src dst : str)
  | DevMount (dst : str)
  | ProcMount (dst : str).

Record bwrap_setup : Type := mk_setup {
  setup_ops : list mount;
  unshare_pid : bool;
  unshare_net : bool;
  setup_argv0 : option str;
  setup_command : list str;
}.

Definition add_op (m : mount) (s : bwrap_setup) : bwrap_setup :=
  mk_setup (setup_ops s ++ [m]) (unshare_pid s) (unshare_net s) (setup_argv0 s) (setup_command s).

Fixpoint parse_args (args : list str) (s : bwrap_setup) : option bwrap_setup :=
  match args with
  | [] => Some s
  | arg :: args =>
      if bool_decide (arg = lit "--new-session") || bool_decide (arg = lit "--die-with-parent") then parse_args args s
      else if bool_decide (arg = lit "--argv0") then
        match args, setup_argv0 s with
        | a :: args, None => parse_args args (mk_setup (setup_ops s) (unshare_pid s) (unshare_net s) (Some a) (setup_command s))
        | _, _ => None
        end
      else if bool_decide (arg = lit "--unshare-pid") then
        parse_args args (mk_setup (setup_ops s) true (unshare_net s) (setup_argv0 s) (setup_command s))
      else if bool_decide (arg = lit "--unshare-net") then
        parse_args args (mk_setup (setup_ops s) (unshare_pid s) true (setup_argv0 s) (setup_command s))
      else if bool_decide (arg = lit "--bind") then
        match args with src :: dst :: args => parse_args args (add_op (BindMount src dst) s) | _ => None end
      else if bool_decide (arg = lit "--ro-bind") then
        match args with src :: dst :: args => parse_args args (add_op (RoBindMount src dst) s) | _ => None end
      else if bool_decide (arg = lit "--proc") then
        match args with dst :: args => parse_args args (add_op (ProcMount dst) s) | _ => None end
      else if bool_decide (arg = lit "--dev") then
        match args with dst :: args => parse_args args (add_op (DevMount dst) s) | _ => None end
      else if bool_decide (arg = lit "--") then
        Some (mk_setup (setup_ops s) (unshare_pid s) (unshare_net s) (setup_argv0 s) args)
      else None
  end.

Definition MAX_ARGS : nat := 90 * 100.

Definition read_setup (args : list str) : option bwrap_setup :=
  if MAX_ARGS <? length args then None else parse_args args (mk_setup [] false false None []).

(** Mounts are made in order, each over what is there: a path is in the last one whose
    destination it is under. *)
Definition mount_dst (m : mount) : str :=
  match m with BindMount _ d | RoBindMount _ d | DevMount d | ProcMount d => d end.
Definition covering (p : list component) (m : mount) : Prop := components_start_with p (components (mount_dst m)) = true.
#[export] Instance covering_dec p m : Decision (covering p m).
Proof. unfold covering. apply _. Defined.
Definition mount_at (ms : list mount) (p : list component) : option mount := last (filter (covering p) ms).
Definition is_bind (m : mount) : bool := match m with BindMount _ _ => true | _ => false end.
(** The files of the host that can be changed through the mounts. *)
Definition view_writable (ms : list mount) (p : list component) : bool :=
  match mount_at ms p with Some m => is_bind m | None => false end.

(** ** Reading back what was written *)

(** The mounts a list of arguments stands for. *)
Definition op_args (m : mount) : list str :=
  match m with
  | BindMount src dst => [lit "--bind"; src; dst]
  | RoBindMount src dst => [lit "--ro-bind"; src; dst]
  | DevMount dst => [lit "--dev"; dst]
  | ProcMount dst => [lit "--proc"; dst]
  end.

Lemma parse_op m args s : parse_args (op_args m ++ args) s = parse_args args (add_op m s).
Proof. by destruct m. Qed.

Lemma parse_ops ms args s :
  parse_args ((ms ≫= op_args) ++ args) s =
  parse_args args (mk_setup (setup_ops s ++ ms) (unshare_pid s) (unshare_net s) (setup_argv0 s) (setup_command s)).
Proof.
  revert s. induction ms as [|m ms IH]; intros s; [rewrite app_nil_r; by destruct s|].
  rewrite bind_cons, <-app_assoc, parse_op, IH. cbn. by rewrite <-app_assoc.
Qed.

Definition mount_src (m : mount) : str :=
  match m with BindMount s _ | RoBindMount s _ => s | DevMount d | ProcMount d => d end.

Lemma separator_free ops :
  Forall (fun m => mount_src m <> lit "--" /\ mount_dst m <> lit "--") ops ->
  lit "--" ∉ (ops ≫= op_args).
Proof.
  induction 1 as [|m ops [Hs Hd] _ IH]; [apply not_elem_of_nil|]. rewrite bind_cons, elem_of_app. intros [Hin|?]; [|done].
  destruct m; cbn [op_args mount_src mount_dst] in *; rewrite !elem_of_cons in Hin; destruct_or! Hin; try congruence; try discriminate Hin.
  all: by apply not_elem_of_nil in Hin.
Qed.

(** ** Paths without dots *)

#[export] Instance component_compare_total : TotalCompare component_compare.
Proof.
  split.
  - intros [| | |x] [| | |y]; cbn; try done. rewrite compare_eq. split; [by intros ->|by intros [= ->]].
  - intros [| | |x] [| | |y]; cbn; try done. apply compare_opp.
  - intros [| | |x] [| | |y] [| | |z]; cbn; try done. apply compare_lt_trans.
Qed.

Lemma normalized_names p : normalized p -> exists ns, p = RootDir :: (Normal <$> ns) /\ Forall valid_name ns.
Proof.
  destruct p as [|[] p]; try done. cbn. intros Hp.
  assert (exists ns, p = Normal <$> ns /\ Forall valid_name ns) as (ns & -> & ?); [|by exists ns].
  induction Hp as [|[| | |n] p Hn _ (ns & -> & Hns)]; try done; [by exists []|].
  exists (n :: ns). split; [done|by constructor].
Qed.

Lemma path_string_absolute ns : path_string (RootDir :: (Normal <$> ns)) = render_absolute ns.
Proof.
  unfold path_string, render_absolute. do 2 f_equal. rewrite <-list_fmap_compose.
  induction ns as [|n ns IH]; [done|]. csimpl. by f_equal.
Qed.

Lemma components_path_string p : normalized p -> components (path_string p) = p.
Proof. intros (ns & -> & Hns)%normalized_names. by rewrite path_string_absolute, components_render. Qed.

Lemma normalized_app p q : normalized (p ++ q) -> p <> [] -> normalized p.
Proof. destruct p as [|[] p]; try done. cbn. by intros [? _]%Forall_app _. Qed.

Lemma within_allowed path allowed :
  is_within_allowed_write_paths path allowed = true <-> exists r, r ∈ allowed /\ exists rest, path = components r ++ rest.
Proof.
  unfold is_within_allowed_write_paths. rewrite existsb_elem. by setoid_rewrite components_start_with_prefix.
Qed.

(** Two paths above a third are one above the other. *)
Lemma prefixes_comparable {A} (a b c d : list A) :
  a ++ b = c ++ d -> (exists e, c = a ++ e) \/ (exists e, a = c ++ e /\ e <> []).
Proof.
  revert c. induction a as [|x a IH]; intros c; [left; by exists c|]. destruct c as [|y c].
  { intros _. right. by exists (x :: a). }
  cbn. intros [= -> H]. destruct (IH c H) as [[e ->]|(e & -> & He)]; [left; by exists e|right; by exists e].
Qed.

(** ** The set of protected subpaths *)

Lemma btree_insert_elem p l q : q ∈ btree_insert p l -> q = p \/ q ∈ l.
Proof.
  induction l as [|r l IH]; cbn [btree_insert]; [set_solver|].
  destruct (list_compare _ _ _); set_solver.
Qed.

Lemma btree_insert_keeps p l q : q ∈ l -> q ∈ btree_insert p l.
Proof.
  induction l as [|r l IH]; cbn [btree_insert]; [set_solver|].
  destruct (list_compare _ _ _); set_solver.
Qed.

Lemma btree_insert_has p l : exists q, q ∈ btree_insert p l /\ components q = components p.
Proof.
  induction l as [|r l (q & Hq & Hc)]; cbn [btree_insert]; [exists p; set_solver|].
  destruct (list_compare _ _ _) eqn:E.
  - apply compare_eq in E. exists r. set_solver.
  - exists p. set_solver.
  - exists q. set_solver.
Qed.

Lemma btree_insert_all ss l :
  let l' := foldl (fun l s => btree_insert s l) l ss in
  (forall q, q ∈ l' -> q ∈ ss \/ q ∈ l) /\ (forall q, q ∈ l -> q ∈ l') /\
  (forall s, s ∈ ss -> exists q, q ∈ l' /\ components q = components s).
Proof.
  revert l. induction ss as [|s ss IH]; intros l; cbn [foldl]; [set_solver|].
  destruct (IH (btree_insert s l)) as (H1 & H2 & H3). repeat split.
  - intros q [?|[-> | ?]%btree_insert_elem]%H1; set_solver.
  - intros q Hq. by apply H2, btree_insert_keeps.
  - intros s' [-> | Hs]%elem_of_cons; [|by apply H3].
    destruct (btree_insert_has s l) as (q & Hq & Hc). exists q. split; [by apply H2|done].
Qed.

Lemma collect_elem ws :
  (forall q, q ∈ collect_read_only_subpaths ws -> exists w, w ∈ ws /\ q ∈ read_only_subpaths w) /\
  (forall w s, w ∈ ws -> s ∈ read_only_subpaths w ->
     exists q, q ∈ collect_read_only_subpaths ws /\ components q = components s).
Proof.
  unfold collect_read_only_subpaths.
  assert (forall l, let l' := foldl (fun l w => foldl (fun l s => btree_insert s l) l (read_only_subpaths w)) l ws in
    (forall q, q ∈ l' -> q ∈ l \/ exists w, w ∈ ws /\ q ∈ read_only_subpaths w) /\ (forall q, q ∈ l -> q ∈ l') /\
    (forall w s, w ∈ ws -> s ∈ read_only_subpaths w -> exists q, q ∈ l' /\ components q = components s)) as H.
  { induction ws as [|w ws IH]; intros l; cbn [foldl]; [set_solver|].
    destruct (btree_insert_all (read_only_subpaths w) l) as (A1 & A2 & A3). destruct (IH (foldl (fun l s => btree_insert s l) l (read_only_subpaths w)))
      as (H1 & H2 & H3). repeat split.
    - intros q [[?|?]%A1|(w' & ? & ?)]%H1; [right; exists w; set_solver|by left|right; exists w'; set_solver].
    - intros q Hq. by apply H2, A2.
    - intros w' s [-> | Hw]%elem_of_cons Hs; [|by apply (H3 w' s)].
      destruct (A3 s Hs) as (q & Hq & Hc). exists q. split; [by apply H2|done]. }
  destruct (H []) as (H1 & _ & H3). split; [|done]. intros q [?%not_elem_of_nil|?]%H1; [done|done].
Qed.

(** ** What masks a subpath *)

(** Questions about a path depend on its components only; what lies above something that
    exists exists; and path-absolutize leaves no dots. *)
Record file_laws (h : host) : Prop := {
  laws_of_host : host_laws h;
  exists_components p q : components p = components q -> path_exists h p = path_exists h q;
  exists_above p q rest : components q = components p ++ rest -> components p <> [] ->
    path_exists h q = true -> path_exists h p = true;
  absolutize_from_normalized p base q : absolutize_from h p base = Ok q -> normalized base -> normalized (components q);
}.

Section masks.
Context (h : host) (Hh : file_laws h) (symlink_metadata : str -> option bool).

Lemma find_symlink_prefix allowed cs current l :
  Forall is_normal cs -> find_symlink_loop symlink_metadata allowed cs current = Some l ->
  l <> [] /\ is_within_allowed_write_paths l allowed = true /\ (exists rest, current ++ cs = l ++ rest) /\
  symlink_metadata (path_string l) = Some true.
Proof.
  intros Hcs. revert current. induction Hcs as [|c cs Hc _ IH]; intros current; [intros [=]|].
  destruct c as [| | |n]; try done. cbn [find_symlink_loop walk_step].
  destruct (symlink_metadata (path_string (current ++ _))) as [is_symlink|] eqn:Hl; [|intros [=]].
  destruct (is_symlink && _) eqn:E.
  - apply andb_true_iff in E as [E1 E2]. subst is_symlink. intros [= <-]. split; [by destruct current|].
    split; [done|]. split; [|done]. exists cs. by rewrite <-app_assoc.
  - intros (Hne & Hw & (rest & Hr) & Hs)%IH. do 2 (split; [done|]). split; [|done]. exists rest. by rewrite <-Hr, <-app_assoc.
Qed.

Lemma first_missing_prefix cs current f :
  Forall is_normal cs -> first_missing_loop h cs current = Some f ->
  f <> [] /\ path_exists h (path_string f) = false /\ exists rest, current ++ cs = f ++ rest.
Proof.
  intros Hcs. revert current. induction Hcs as [|c cs Hc _ IH]; intros current; [intros [=]|].
  destruct c as [| | |n]; try done. cbn [first_missing_loop walk_step andb].
  destruct (negb _) eqn:E.
  - intros [= <-]. split; [by destruct current|]. split; [by apply negb_true_iff|]. exists cs. by rewrite <-app_assoc.
  - intros (Hne & Hp & rest & Hr)%IH. do 2 (split; [done|]). exists rest. by rewrite <-Hr, <-app_assoc.
Qed.

Lemma first_missing_found cs current :
  Forall is_normal cs -> cs <> [] -> path_exists h (path_string (current ++ cs)) = false ->
  first_missing_loop h cs current <> None.
Proof.
  intros Hcs. revert current. induction Hcs as [|c cs Hc _ IH]; intros current Hne Hmiss; [done|].
  destruct c as [| | |n]; try done. cbn [first_missing_loop walk_step andb].
  destruct (negb _) eqn:E; [done|]. apply IH; [|by rewrite <-app_assoc].
  intros ->. apply negb_false_iff in E. congruence.
Qed.

(** The walks on an absolute path. *)
Lemma walks_absolute allowed s :
  normalized (components s) ->
  exists cs, components s = RootDir :: cs /\ Forall is_normal cs /\
    find_symlink_in_path symlink_metadata s allowed = find_symlink_loop symlink_metadata allowed cs [RootDir] /\
    find_first_non_existent_component h s = first_missing_loop h cs [RootDir].
Proof.
  unfold find_symlink_in_path, find_first_non_existent_component.
  destruct (components s) as [|[] cs]; try done. intros Hcs. by exists cs.
Qed.

Lemma prefix_rendered s l rest :
  normalized (components s) -> components s = l ++ rest -> l <> [] ->
  normalized (components (path_string l)) /\ components (path_string l) = l.
Proof.
  intros Hs Hl Hne. assert (normalized l) as Hnl by (apply (normalized_app _ rest); [by rewrite <-Hl|done]).
  by rewrite components_path_string by done.
Qed.

(** A path without dots is not taken for the end of the options. *)
Lemma not_separator s : normalized (components s) -> s <> lit "--".
Proof. by intros Hs ->. Qed.

(** A mount that takes writing away; its paths do not end the options. *)
Definition masking (m : mount) : Prop := is_bind m = false /\ mount_src m <> lit "--" /\ mount_dst m <> lit "--".

(** What hides a subpath is one read-only mount on it or above it, if anything. *)
Lemma mask_args_op allowed s :
  normalized (components s) ->
  exists m, mask_args h symlink_metadata allowed s = option_list m ≫= op_args /\
    forall op, m = Some op -> masking op /\ exists rest, components s = components (mount_dst op) ++ rest.
Proof.
  intros Hs. destruct (walks_absolute allowed s Hs) as (cs & Hc & Hn & Hl & Hf).
  assert (Hro : forall l rest, RootDir :: cs = l ++ rest -> l <> [] ->
    masking (RoBindMount (lit "/dev/null") (path_string l)) /\
    exists rest, components s = components (mount_dst (RoBindMount (lit "/dev/null") (path_string l))) ++ rest).
  { intros l rest He Hne. rewrite <-Hc in He. destruct (prefix_rendered s l rest Hs He Hne) as [Hnl Hr].
    split; [by repeat split; [|apply not_separator..]|]. exists rest. cbn [mount_dst]. by rewrite Hr. }
  unfold mask_args. rewrite Hl, Hf. destruct (find_symlink_loop _ _ _ _) as [l|] eqn:El.
  { apply find_symlink_prefix in El as (Hne & _ & (rest & He) & _); [|done].
    exists (Some (RoBindMount (lit "/dev/null") (path_string l))). split; [done|]. intros op [= <-]. by apply (Hro _ rest). }
  destruct (path_exists h s); cbn [negb].
  { destruct (is_within_allowed_write_paths _ _); [|by exists None].
    exists (Some (RoBindMount s s)). split; [done|]. intros op [= <-]. split; [by repeat split; apply not_separator|]. exists []. by rewrite app_nil_r. }
  destruct (first_missing_loop _ _ _) as [f|] eqn:Ef; [|by exists None].
  apply first_missing_prefix in Ef as (Hne & _ & rest & He); [|done].
  destruct (is_within_allowed_write_paths _ _); [|by exists None].
  exists (Some (RoBindMount (lit "/dev/null") (path_string f))). split; [done|]. intros op [= <-]. by apply (Hro _ rest).
Qed.

(** A subpath of a root that exists is always hidden. *)
Lemma mask_args_within allowed s r :
  normalized (components s) -> r ∈ allowed -> path_exists h r = true -> components r <> [] ->
  (exists rest, components s = components r ++ rest) ->
  mask_args h symlink_metadata allowed s <> [].
Proof.
  intros Hs Hr Hex Hrne [rest Hrest]. destruct (walks_absolute allowed s Hs) as (cs & Hc & Hn & Hl & Hf).
  unfold mask_args. rewrite Hl, Hf. destruct (find_symlink_loop _ _ _ _) as [l|]; [done|].
  destruct (path_exists h s) eqn:Hes; cbn [negb].
  { rewrite (proj2 (within_allowed _ _)); [done|]. exists r. split; [done|by exists rest]. }
  destruct (first_missing_loop _ _ _) as [f|] eqn:Ef.
  - apply first_missing_prefix in Ef as (Hne & Hmiss & rest' & He); [|done]. cbn [app] in He.
    rewrite (proj2 (within_allowed _ _)); [done|]. exists r. split; [done|].
    assert (components s = f ++ rest') as He' by (by rewrite Hc).
    destruct (prefixes_comparable (components r) rest f rest') as [[e ->]|(e & Hre & _)]; [congruence|by exists e|].
    destruct (prefix_rendered s f rest' Hs He' Hne) as [_ Hcf].
    rewrite (exists_above h Hh (path_string f) r e) in Hmiss; [done|by rewrite Hcf|by rewrite Hcf|done].
  - exfalso. destruct cs as [|c cs].
    + rewrite Hc in Hrest. assert (components r = [RootDir]) as Hr1.
      { destruct (components r) as [|c [|]]; [done|by injection Hrest as <- _|done]. }
      rewrite (exists_components h Hh s r) in Hes by congruence. congruence.
    + revert Ef. apply first_missing_found; [done|done|]. change ([RootDir] ++ c :: cs) with (RootDir :: c :: cs). rewrite <-Hc.
      rewrite <-Hes. apply exists_components; [done|]. by apply components_path_string.
Qed.

(** A subpath that exists, with no link on the way to it, is hidden itself. *)
Lemma mask_args_plain allowed s :
  normalized (components s) -> path_exists h s = true ->
  (forall p rest, components s = p ++ rest -> symlink_metadata (path_string p) <> Some true) ->
  mask_args h symlink_metadata allowed s = [] \/ mask_args h symlink_metadata allowed s = op_args (RoBindMount s s).
Proof.
  intros Hs Hex Hno. destruct (walks_absolute allowed s Hs) as (cs & Hc & Hn & Hl & _).
  unfold mask_args. rewrite Hl. destruct (find_symlink_loop _ _ _ _) as [l|] eqn:El.
  { apply find_symlink_prefix in El as (_ & _ & (rest & He) & Hlink); [|done]. exfalso. apply (Hno l rest); [by rewrite Hc|done]. }
  rewrite Hex. cbn [negb]. destruct (is_within_allowed_write_paths _ _); [by right|by left].
Qed.
End masks.

(** ** The roots of a policy have no dots *)

Definition policy_ok (p : SandboxPolicy) : Prop :=
  match p with WorkspaceWrite roots _ _ _ _ => Forall (fun r => normalized (components r)) roots | _ => True end.

Section roots.
Context (h : host) (Hh : file_laws h).

Lemma push_ok_normalized {F} m roots roots' :
  push_ok (F := F) m roots = Ok roots' -> (forall q, m = Ok q -> normalized (components q)) ->
  Forall (fun r => normalized (components r)) roots -> Forall (fun r => normalized (components r)) roots'.
Proof.
  destruct m as [q| | |]; cbn; intros [= <-] Hm Hr; [|done]. apply Forall_app. split; [done|]. constructor; [by apply Hm|constructor].
Qed.

Lemma from_absolute_normalized p q : from_absolute_path h p = Ok q -> normalized (components q).
Proof. apply (absolutize_normalized h (laws_of_host h Hh)). Qed.

Lemma writable_root_paths_normalized roots a b cwd rs :
  Forall (fun r => normalized (components r)) roots -> writable_root_paths h roots a b cwd = Ok rs ->
  Forall (fun r => normalized (components r)) rs.
Proof.
  intros Hr. unfold writable_root_paths. intros (rs1 & H1 & (rs2 & H2 & H3)%bind_Ok)%bind_Ok.
  apply push_ok_normalized in H1; [|intros q; apply from_absolute_normalized|done].
  assert (Forall (fun r => normalized (components r)) rs2) as Hrs2.
  { destruct (negb b); [|by injection H2 as <-]. apply bind_Ok in H2 as (t & Ht & H2). rewrite expect_Ok in Ht.
    apply from_absolute_normalized in Ht. destruct (is_dir h t); injection H2 as <-; [|done].
    apply Forall_app. split; [done|]. by constructor. }
  destruct (negb a); [|by injection H3 as <-]. destruct (env_tmpdir h) as [d|]; [|by injection H3 as <-].
  case_bool_decide; [by injection H3 as <-|]. eapply push_ok_normalized; [exact H3| |done]. intros q. apply from_absolute_normalized.
Qed.

Lemma abs_join_normalized r n q :
  plain_name n -> starts_with (lit "~") n = false -> normalized (components r) -> abs_join h r n = Ok q ->
  normalized (components q) /\ components q = components r ++ [Normal n].
Proof.
  intros Hn Ht Hr Hq. assert (components q = components r ++ [Normal n]) as Hc by (by apply (abs_join_name h (laws_of_host h Hh) r n)).
  split; [|done]. rewrite Hc. destruct (components r) as [|[] cs]; try done. cbn in *. apply Forall_app. split; [done|].
  constructor; [|constructor]. apply (components_names n). rewrite Hn. set_solver.
Qed.

Lemma gitdir_normalized dot_git r g :
  normalized (components r) -> components dot_git = components r ++ [Normal (lit ".git")] ->
  resolve_gitdir_from_file h dot_git = Ok (Some g) -> normalized (components g).
Proof.
  intros Hr Hc. unfold resolve_gitdir_from_file. destruct (host_read h dot_git) as [contents| | |]; [|done..].
  destruct (split_once _ _) as [[? raw]|]; [|done]. case_bool_decide; [done|].
  unfold parent. rewrite Hc, reverse_snoc. cbv beta iota. rewrite reverse_involutive.
  destruct (resolve_path_against_base h _ _) as [p| | |] eqn:Hp; [|done..]. destruct (path_exists h p); [|done].
  intros [= <-]. by eapply (absolutize_from_normalized h Hh).
Qed.

Lemma existing_subdirs_normalized r dirs ps :
  normalized (components r) -> Forall (fun n => plain_name n /\ starts_with (lit "~") n = false) dirs ->
  existing_subdirs h r dirs = Ok ps -> Forall (fun s => normalized (components s)) ps.
Proof.
  intros Hr Hd. revert ps. induction Hd as [|n dirs [Hn Ht] _ IH]; intros ps; cbn [existing_subdirs]; [intros [= <-]; constructor|].
  intros (p & Hp & (rest & Hrest & [= <-])%bind_Ok)%bind_Ok. rewrite expect_Ok in Hp. apply IH in Hrest.
  destruct (is_dir h p); [|done]. constructor; [|done]. by apply (abs_join_normalized r n).
Qed.

Lemma writable_root_normalized r w :
  normalized (components r) -> writable_root_of h r = Ok w ->
  normalized (components (root w)) /\ Forall (fun s => normalized (components s)) (read_only_subpaths w).
Proof.
  intros Hr. unfold writable_root_of. intros (tg & Htg & (git & Hgit & (sub & Hsub & [= <-])%bind_Ok)%bind_Ok)%bind_Ok.
  rewrite expect_Ok in Htg.
  destruct (abs_join_normalized r (lit ".git") tg) as [Hn Hc]; [done..|]. cbn [root read_only_subpaths]. split; [done|].
  apply Forall_app. split.
  - unfold git_subpaths in Hgit. destruct (_ || _); [|injection Hgit as <-; constructor].
    apply bind_Ok in Hgit as (g & Hg & [= <-]). apply Forall_app. split; [|by constructor].
    destruct g as [g|]; constructor; [|constructor].
    revert Hg. case_match; [|intros [=]]. by apply (gitdir_normalized tg r).
  - eapply existing_subdirs_normalized; [exact Hr| |exact Hsub]. repeat constructor; done.
Qed.

Lemma roots_normalized p cwd ws :
  policy_ok p -> get_writable_roots_with_cwd h p cwd = Ok ws ->
  Forall (fun w => normalized (components (root w)) /\ Forall (fun s => normalized (components s)) (read_only_subpaths w)) ws.
Proof.
  intros Hp. unfold get_writable_roots_with_cwd. destruct p as [| | |roots ? ? a b]; try (intros [= <-]; constructor).
  intros (rs & Hrs & Hws%collect_results_Forall2)%bind_Ok. apply writable_root_paths_normalized in Hrs; [|done].
  revert Hrs. induction Hws as [|r w rs ws Hw _ IH]; intros Hrs; constructor; apply Forall_cons in Hrs as [Hr Hrs].
  - by apply (writable_root_normalized r).
  - by apply IH.
Qed.
End roots.

(** ** What can be written *)

Definition under (p : list component) (s : str) : Prop := exists rest, p = components s ++ rest.

Lemma covering_under p m : covering p m <-> under p (mount_dst m).
Proof. apply components_start_with_prefix. Qed.

Lemma under_trans p s r : under p s -> (exists rest, components s = components r ++ rest) -> under p r.
Proof. intros [a ->] [b ->]. exists (b ++ a). by rewrite app_assoc. Qed.

Lemma mount_at_app a b p : mount_at (a ++ b) p = match mount_at b p with Some m => Some m | None => mount_at a p end.
Proof. unfold mount_at. rewrite filter_app, last_app. by destruct (last (filter (covering p) b)). Qed.

Lemma mount_at_Some ms p m : mount_at ms p = Some m -> m ∈ ms /\ under p (mount_dst m).
Proof.
  unfold mount_at. intros Hl%last_Some_elem_of%list_elem_of_filter. destruct Hl. split; [done|]. by apply covering_under.
Qed.

Lemma mount_at_covered ms p m : m ∈ ms -> under p (mount_dst m) -> exists m', mount_at ms p = Some m'.
Proof.
  intros Hm Hu. unfold mount_at. destruct (last (filter (covering p) ms)) as [m'|] eqn:E; [by exists m'|].
  apply last_None in E. assert (m ∈ filter (covering p) ms) as Hin by (apply list_elem_of_filter; split; [by apply covering_under|done]).
  rewrite E in Hin. by apply not_elem_of_nil in Hin.
Qed.

(** The mounts for the roots. *)
Definition root_ops (ws : list WritableRoot) : list mount := (fun w => BindMount (root w) (root w)) <$> ws.

Lemma root_ops_view ws p : view_writable (root_ops ws) p = true <-> exists w, w ∈ ws /\ under p (root w).
Proof.
  unfold view_writable. split.
  - destruct (mount_at _ _) as [m|] eqn:E; [|done]. apply mount_at_Some in E as [(w & -> & Hw)%list_elem_of_fmap Hu]. by exists w.
  - intros (w & Hw & Hu). destruct (mount_at_covered (root_ops ws) p (BindMount (root w) (root w))) as [m Hm]; [by apply list_elem_of_fmap; exists w|done|].
    rewrite Hm. apply mount_at_Some in Hm as [(w' & -> & _)%list_elem_of_fmap _]. done.
Qed.

(** Mounts that bind nothing only take away. *)
Lemma view_writable_masked a b p :
  Forall masking b ->
  view_writable (a ++ b) p = true <-> view_writable a p = true /\ forall m, m ∈ b -> ~ under p (mount_dst m).
Proof.
  intros Hb. unfold view_writable. rewrite mount_at_app. destruct (mount_at b p) as [m|] eqn:E.
  - apply mount_at_Some in E as [Hm Hu]. split.
    + intros Hbind. rewrite Forall_forall in Hb. destruct (Hb m Hm). congruence.
    + intros [_ Hno]. by destruct (Hno m).
  - split; [|by intros [? _]]. intros Ha. split; [done|]. intros m Hm Hu.
    destruct (mount_at_covered b p m Hm Hu). congruence.
Qed.

Lemma view_writable_over a b p : Forall (fun m => is_bind m = false) a -> view_writable (a ++ b) p = view_writable b p.
Proof.
  intros Ha. unfold view_writable. rewrite mount_at_app. destruct (mount_at b p) as [m|]; [done|].
  destruct (mount_at a p) as [m|] eqn:E; [|done]. apply mount_at_Some in E as [Hm _]. rewrite Forall_forall in Ha. by apply Ha.
Qed.

Section view.
Context (h : host) (Hh : file_laws h) (symlink_metadata : str -> option bool).

(** Nothing on the way to a path is a symbolic link. *)
Definition unlinked (s : str) : Prop :=
  forall p rest, components s = p ++ rest -> symlink_metadata (path_string p) <> Some true.

Lemma masks_ops allowed ss :
  Forall (fun s => normalized (components s)) ss ->
  exists ms, ss ≫= mask_args h symlink_metadata allowed = ms ≫= op_args /\ Forall masking ms /\
    (forall s, s ∈ ss -> mask_args h symlink_metadata allowed s <> [] ->
       exists m, m ∈ ms /\ exists rest, components s = components (mount_dst m) ++ rest) /\
    (Forall (fun s => path_exists h s = true /\ unlinked s) ss -> forall m, m ∈ ms -> mount_dst m ∈ ss).
Proof.
  induction 1 as [|s ss Hs _ (ms & Hms & Hro & Hall & Hdst)]; [exists []; set_solver|].
  destruct (mask_args_op h symlink_metadata allowed s Hs) as (m & Hm & Hop). exists (option_list m ++ ms).
  rewrite bind_cons, bind_app, <-Hms, <-Hm. split; [done|]. split; [|split].
  - apply Forall_app. split; [|done]. destruct m as [m|]; constructor; [|constructor]. by apply Hop.
  - intros s' [-> | Hs']%elem_of_cons Hne.
    + destruct m as [m|]; [|rewrite Hm in Hne; done]. exists m. split; [set_solver|]. by apply Hop.
    + destruct (Hall s' Hs' Hne) as (m' & ? & ?). exists m'. set_solver.
  - intros [[Hex Hun] Hrest]%Forall_cons m' [Hm'|Hm']%elem_of_app; [|set_solver].
    destruct m as [m|]; [|by apply not_elem_of_nil in Hm']. apply list_elem_of_singleton in Hm' as ->.
    destruct (mask_args_plain h symlink_metadata allowed s Hs Hex Hun) as [He|He]; rewrite He in Hm; destruct m; cbn in Hm; try done.
    injection Hm as _ <-. cbn [mount_dst]. set_solver.
Qed.

Lemma ensure_exist ws : ensure_mount_targets_exist h ws = Ok () -> forall w, w ∈ ws -> path_exists h (root w) = true.
Proof.
  induction ws as [|w ws IH]; cbn [ensure_mount_targets_exist]; [set_solver|].
  destruct (path_exists h (root w)) eqn:E; [|done]. intros H w' [-> | Hw]%elem_of_cons; [done|by apply IH].
Qed.

(** A path is protected when it is in a subpath of some root that is within any root. *)
Definition protected (ws : list WritableRoot) (p : list component) : Prop :=
  exists w s r, w ∈ ws /\ s ∈ read_only_subpaths w /\ r ∈ ws /\ under (components s) (root r) /\ under p s.

Lemma filesystem_ops policy cwd args ws :
  policy_ok policy -> get_writable_roots_with_cwd h policy cwd = Ok ws ->
  create_filesystem_args h symlink_metadata policy cwd = Ok args ->
  exists masks, args = ([RoBindMount (lit "/") (lit "/"); DevMount (lit "/dev")] ++ root_ops ws ++ masks) ≫= op_args /\
    Forall masking masks /\
    (forall p, protected ws p -> exists m, m ∈ masks /\ under p (mount_dst m)) /\
    ((forall w s, w ∈ ws -> s ∈ read_only_subpaths w -> path_exists h s = true /\ unlinked s) ->
     forall p m, m ∈ masks -> under p (mount_dst m) -> exists w s, w ∈ ws /\ s ∈ read_only_subpaths w /\ under p s).
Proof.
  intros Hp Hws. unfold create_filesystem_args. destruct (negb _); [done|]. rewrite Hws. cbn [expect mbind outcome_bind].
  intros ([] & Hex & [= <-])%bind_Ok. pose proof (ensure_exist ws Hex) as Hroots. destruct (collect_elem ws) as [Hc1 Hc2].
  pose proof (roots_normalized h Hh policy cwd ws Hp Hws) as Hn. rewrite Forall_forall in Hn.
  destruct (masks_ops (root <$> ws) (collect_read_only_subpaths ws)) as (masks & Hm & Hro & Hall & Hdst).
  { apply Forall_forall. intros q (w & Hw & Hq)%Hc1. destruct (Hn w Hw) as [_ Hs]. rewrite Forall_forall in Hs. by apply Hs. }
  exists masks. split; [|split; [done|split]].
  - rewrite Hm. unfold root_ops. cbn [app]. rewrite !bind_cons, bind_app. cbn [op_args app]. do 5 f_equal.
    f_equal. clear. induction ws as [|w ws IH]; [done|]. rewrite fmap_cons, !bind_cons. by rewrite IH.
  - intros p (w & s & r & Hw & Hs & Hr & Hsr & Hps). destruct (Hc2 w s Hw Hs) as (q & Hq & Hqs).
    assert (normalized (components (root r))) as Hnr by (by apply Hn).
    destruct (Hall q Hq) as (m & Hin & Hrest).
    { apply (mask_args_within h Hh symlink_metadata _ q (root r)).
      - rewrite Hqs. destruct (Hn w Hw) as [_ Hss]. rewrite Forall_forall in Hss. by apply Hss.
      - apply list_elem_of_fmap. by exists r.
      - by apply Hroots.
      - intros E. by rewrite E in Hnr.
      - by rewrite Hqs. }
    exists m. split; [done|]. apply (under_trans p s); [done|]. by rewrite <-Hqs.
  - intros Hplain p m Hin Hu. destruct (Hc1 (mount_dst m)) as (w & Hw & Hq).
    { apply Hdst; [|done]. apply Forall_forall. intros q (w & Hw & Hq)%Hc1. by apply (Hplain w). }
    by exists w, (mount_dst m).
Qed.

(** The arguments of a sandboxed command, with the name of its process where one is given. *)
Definition proc_ops (options : BwrapOptions) : list mount := if mount_proc options then [ProcMount (lit "/proc")] else [].

Lemma parse_flags ops options argv0 command :
  parse_args ([lit "--new-session"; lit "--die-with-parent"] ++ (ops ≫= op_args) ++ [lit "--unshare-pid"]
              ++ proc_args options ++ (match argv0 with Some a => [lit "--argv0"; a] | None => [] end) ++ lit "--" :: command)
    (mk_setup [] false false None []) =
  Some (mk_setup (ops ++ proc_ops options) true (should_unshare_network (network_mode options)) argv0 command).
Proof.
  change (parse_args ((ops ≫= op_args) ++ lit "--unshare-pid" :: proc_args options
    ++ (match argv0 with Some a => [lit "--argv0"; a] | None => [] end) ++ lit "--" :: command) (mk_setup [] false false None []) =
    Some (mk_setup (ops ++ proc_ops options) true (should_unshare_network (network_mode options)) argv0 command)).
  rewrite parse_ops. unfold proc_args, proc_ops.
  destruct (should_unshare_network _), (mount_proc options), argv0; rewrite ?app_nil_r; reflexivity.
Qed.

(** The view is never wider than the roots less what is protected in any of them, and is
    just that where the protected subpaths are ordinary. *)
Definition view_ok (ws : list WritableRoot) (ops : list mount) : Prop :=
  forall p,
  (view_writable ops p = true -> (exists w, w ∈ ws /\ under p (root w)) /\ ~ protected ws p) /\
  ((forall w s, w ∈ ws -> s ∈ read_only_subpaths w -> path_exists h s = true /\ unlinked s) ->
   (exists w, w ∈ ws /\ under p (root w)) -> (forall w s, w ∈ ws -> s ∈ read_only_subpaths w -> ~ under p s) ->
   ~ under p (lit "/proc") -> view_writable ops p = true).

Lemma filesystem_view policy cwd args ws options :
  policy_ok policy -> get_writable_roots_with_cwd h policy cwd = Ok ws ->
  create_filesystem_args h symlink_metadata policy cwd = Ok args ->
  exists ops, args = (ops ≫= op_args) /\ lit "--" ∉ args /\ view_ok ws (ops ++ proc_ops options).
Proof.
  intros Hp Hws (masks & -> & Hro & Hprot & Hplain)%(filesystem_ops _ _ _ ws); [|done..].
  eexists. split; [done|]. split.
  { apply separator_free. apply Forall_app. split; [by repeat constructor|]. apply Forall_app. split.
    - apply Forall_fmap, Forall_forall. intros w Hw. pose proof (roots_normalized h Hh policy cwd ws Hp Hws) as Hn.
      rewrite Forall_forall in Hn. by split; apply not_separator, Hn.
    - eapply Forall_impl; [exact Hro|]. by intros m [_ ?]. }
  intros p. rewrite <-!(assoc_L (++)), view_writable_over by (by repeat constructor).
  rewrite view_writable_masked, root_ops_view.
  2: { apply Forall_app. split; [done|]. unfold proc_ops. destruct (mount_proc options); by repeat constructor. }
  split.
  - intros [Hw Hno]. split; [done|]. intros (m & Hm & Hu)%Hprot. apply (Hno m); [set_solver|done].
  - intros Hord Hw Hnot Hproc. split; [done|]. intros m [Hm|Hm]%elem_of_app Hu.
    + destruct (Hplain Hord p m Hm Hu) as (w & s & ? & ? & ?). by apply (Hnot w s).
    + unfold proc_ops in Hm. destruct (mount_proc options); [|by apply not_elem_of_nil in Hm].
      apply list_elem_of_singleton in Hm as ->. by apply Hproc.
Qed.

(** C12. What bubblewrap is told is what the policy says: the command as it is, in PID and, unless
    the network is open, network namespaces of its own; and of the host's files only those
    under a writable root and in no protected subpath of any root can be changed, all of
    them where the protected subpaths are ordinary files. *)
Theorem bwrap_enforces_policy policy cwd ws command options args :
  policy_ok policy -> get_writable_roots_with_cwd h policy cwd = Ok ws ->
  create_bwrap_flags h symlink_metadata command policy cwd options = Ok args -> length args <= MAX_ARGS ->
  exists s, read_setup args = Some s /\ setup_command s = command /\ unshare_pid s = true /\
    unshare_net s = should_unshare_network (network_mode options) /\ view_ok ws (setup_ops s).
Proof.
  intros Hp Hws (fs & Hfs & [= <-])%bind_Ok Hlen.
  destruct (filesystem_view policy cwd fs ws options Hp Hws Hfs) as (ops & -> & _ & Hv).
  unfold read_setup. rewrite (proj2 (Nat.ltb_ge _ _) Hlen). eexists. split; [exact (parse_flags ops options None command)|]. done.
Qed.
End view.

(** ** An example *)

(** A project with a repository below [/w]. *)
Definition example_dirs : list (list component) :=
  [[RootDir]; [RootDir; Normal (lit "w")]; [RootDir; Normal (lit "w"); Normal (lit "p")];
   [RootDir; Normal (lit "w"); Normal (lit "p"); Normal (lit ".git")]].
Definition example_policy : SandboxPolicy := WorkspaceWrite [] FullAccess false true true.
Definition example_bwrap_args : list str :=
  match create_bwrap_flags (demo_host example_dirs) (fun _ => Some false) [lit "ls"] example_policy (lit "/w/p") (mk_bwrap_options true Isolated) with
  | Ok args => args | _ => [] end.

Lemma resolved_normalized cs : normalized (components (render_absolute (resolve_dots cs))).
Proof.
  rewrite components_render by apply resolve_dots_valid. cbn. apply Forall_fmap. apply resolve_dots_valid.
Qed.

Lemma example_file_laws : file_laws (demo_host example_dirs).
Proof.
  split; [apply demo_host_laws|by intros p q; cbn; intros ->| |].
  - intros p q rest Hq Hp. cbn [path_exists demo_host]. rewrite Hq, !bool_decide_eq_true. unfold example_dirs. clear Hq.
    destruct (components p) as [|a [|b [|c [|d [|]]]]]; [done|..]; rewrite !elem_of_cons; cbn; intros H; decompose [or] H; simplify_eq; try set_solver.
    all: match goal with H : _ ∈ [] |- _ => by apply not_elem_of_nil in H end.
  - intros p base q [= <-] _. apply resolved_normalized.
Qed.

Example example_bwrap_view :
  let ops := match read_setup example_bwrap_args with Some s => setup_ops s | None => [] end in
  (fun p => view_writable ops (components (lit p))) <$> ["/w/p/a"; "/w/p/.git/config"; "/w/a"; "/etc/passwd"; "/w/p"]%string
  = [true; false; false; false; true].
Proof. vm_compute. reflexivity. Qed.

Lemma bwrap_enforces_policy_witness :
  exists s, read_setup example_bwrap_args = Some s /\ setup_command s = [lit "ls"] /\ unshare_pid s = true /\
    unshare_net s = true /\ view_ok (demo_host example_dirs) (fun _ => Some false) [mk_root (lit "/w/p") [lit "/w/p/.git"]] (setup_ops s).
Proof.
  apply (bwrap_enforces_policy (demo_host example_dirs) example_file_laws (fun _ => Some false) example_policy (lit "/w/p")
           [mk_root (lit "/w/p") [lit "/w/p/.git"]] [lit "ls"] (mk_bwrap_options true Isolated) example_bwrap_args).
  - constructor.
  - vm_compute. reflexivity.
  - vm_compute. reflexivity.
  - apply Nat.leb_le. vm_compute. reflexivity.
Defined.
