(* ===== verification/LinuxSandbox.v ===== *)
(** * The Linux sandbox helper (linux-sandbox/src/landlock.rs, linux_run_main.rs)

    The helper is run twice for a command: outside it starts bubblewrap, inside it
    installs the network filter and runs the command.  The process it becomes, the
    restrictions it carries, and the two stages put together. *)

From S2P Require Import Prelude RustStd PatchApply SandboxPolicy ExecSandbox Bwrap.

(** ** The network filter *)

Inductive SeccompCmpOp : Type := SeccompNe | SeccompEq.
(** A condition on the low 32 bits of an argument. *)
Record SeccompCondition : Type := mk_condition { arg_index : nat; arg_op : SeccompCmpOp; arg_value : N }.
Definition SeccompRule : Type := list SeccompCondition.

Definition AF_UNIX : N := 1%N.

(** A [BTreeMap] by the number of the call; an empty list of rules always matches. *)
Definition denied_syscalls : list str :=
  lit <$> ["connect"; "accept"; "accept4"; "bind"; "listen"; "getpeername"; "getsockname"; "shutdown"; "sendto"; "sendmmsg";
           "recvmmsg"; "getsockopt"; "setsockopt"; "ptrace"; "io_uring_setup"; "io_uring_enter"; "io_uring_register"]%string.
Definition unix_only_rule : SeccompRule := [mk_condition 0 SeccompNe AF_UNIX].
Definition network_rules : gmap str (list SeccompRule) :=
  <[lit "socketpair" := [unix_only_rule]]> (<[lit "socket" := [unix_only_rule]]>
    (foldl (fun rules nr => <[nr := []]> rules) ∅ denied_syscalls)).

(** What the filter does with a call, as seccompiler documents it: a rule matches when all
    its conditions hold; the default is to allow. *)
Definition condition_holds (args : list N) (c : SeccompCondition) : bool :=
  let v := (default 0%N (args !! arg_index c) mod 2 ^ 32)%N in
  match arg_op c with SeccompNe => negb (v =? arg_value c)%N | SeccompEq => (v =? arg_value c)%N end.
Definition call_refused (rules : gmap str (list SeccompRule)) (nr : str) (args : list N) : bool :=
  match rules !! nr with
  | None => false
  | Some [] => true
  | Some rs => existsb (fun r => forallb (condition_holds args) r) rs
  end.

(** ** Restrictions of a process *)

Inductive AccessFs : Type := AccessRead | AccessAll.

(** The rules of a Landlock ruleset: what can be done beneath which paths. *)
Definition landlock_ruleset : Type := list (list str * AccessFs).

Record Restrictions : Type := mk_restrictions {
  no_new_privs : bool;
  seccomp : option (gmap str (list SeccompRule));
  landlock : option landlock_ruleset;
}.
Definition unrestricted : Restrictions := mk_restrictions false None None.

(** The kernel's answers, and the rest of what the helper looks at. *)
Class SandboxHost : Type := {
  sandbox_host : host;
  symlink_metadata : str -> option bool;
  prctl_no_new_privs : outcome CodexErr ();
  apply_filter : outcome CodexErr ();
  (** Whether [restrict_self] enforces the ruleset. *)
  restrict_self : outcome CodexErr bool;
  (** The standard error of a trial run of bubblewrap. *)
  run_bwrap_in_child_capture_stderr : list str -> str;
  current_exe : option str;
}.

Section helper.
Context `{SandboxHost}.
Variable policy_json : SandboxPolicy -> str.

Abbreviation helper E A := (io Restrictions E A).

Definition should_install_network_seccomp (sandbox_policy : SandboxPolicy) (allow_network_for_proxy : bool) : bool :=
  negb (has_full_network_access sandbox_policy) || allow_network_for_proxy.

Definition set_no_new_privs : helper CodexErr () := fun r =>
  match prctl_no_new_privs with
  | Ok _ => (mk_restrictions true (seccomp r) (landlock r), Ok ())
  | m => (r, m)
  end.

Definition install_network_seccomp_filter_on_current_thread : helper CodexErr () := fun r =>
  match apply_filter with
  | Ok _ => (mk_restrictions (no_new_privs r) (Some network_rules) (landlock r), Ok ())
  | m => (r, m)
  end.

Definition landlock_rules (writable_roots : list str) : landlock_ruleset :=
  [([lit "/"], AccessRead); ([lit "/dev/null"], AccessAll)]
  ++ (if bool_decide (writable_roots = []) then [] else [(writable_roots, AccessAll)]).

Definition install_filesystem_landlock_rules_on_current_thread (writable_roots : list str) : helper CodexErr () := fun r =>
  match restrict_self with
  | Ok true => (mk_restrictions true (seccomp r) (Some (landlock_rules writable_roots)), Ok ())
  | Ok false => (r, Err (CodexSandbox LandlockRestrict))
  | Err e => (r, Err e)
  | Panic => (r, Panic)
  | Timeout => (r, Timeout)
  end.

Definition apply_sandbox_policy_to_current_thread (sandbox_policy : SandboxPolicy) (cwd : str)
    (apply_landlock_fs allow_network_for_proxy : bool) : helper CodexErr () :=
  let install_network_seccomp := should_install_network_seccomp sandbox_policy allow_network_for_proxy in
  let restrict_files := apply_landlock_fs && negb (has_full_disk_write_access sandbox_policy) in
  _ ← (if install_network_seccomp || restrict_files then set_no_new_privs else mret ());
  _ ← (if install_network_seccomp then install_network_seccomp_filter_on_current_thread else mret ());
  if restrict_files then
    if negb (has_full_disk_read_access sandbox_policy) then
      io_of (Err (UnsupportedOperation (lit "Restricted read-only access is not supported by the legacy Linux Landlock filesystem backend.")))
    else
      writable_roots ← io_of (expect (get_writable_roots_with_cwd sandbox_host sandbox_policy cwd));
      install_filesystem_landlock_rules_on_current_thread (root <$> writable_roots)
  else mret ().

(** ** The command line of the helper *)

Record LandlockCommand : Type := mk_landlock_command {
  sandbox_policy_cwd : str;
  sandbox_policy : SandboxPolicy;
  use_bwrap_sandbox : bool;
  apply_seccomp_then_exec : bool;
  allow_network_for_proxy : bool;
  no_proc : bool;
  helper_command : list str;
}.

(** What the process becomes. *)
Inductive image : Type :=
  | Execvp (argv : list str)
  | ExecBwrap (argv : list str).

(** [CString::new] fails on a zero; [execvp] does not return when it works. *)
Definition c_string_ok (s : str) : bool := forallb (fun c => negb (c =? 0)%N) s.
Definition exec_or_panic (command : list str) : outcome () image :=
  match command with
  | [] => Panic
  | _ => if forallb c_string_ok command then Ok (Execvp command) else Panic
  end.

Definition bwrap_network_mode (sandbox_policy : SandboxPolicy) (allow_network_for_proxy : bool) : BwrapNetworkMode :=
  if allow_network_for_proxy then ProxyOnly
  else if has_full_network_access sandbox_policy then FullNetwork else Isolated.

(** [position] of the separator, and the list split there. *)
Fixpoint split_at_separator (args : list str) : option (list str * list str) :=
  match args with
  | [] => None
  | a :: args =>
      if bool_decide (a = lit "--") then Some ([], a :: args)
      else '(before, after) ← split_at_separator args; Some (a :: before, after)
  end.

Definition build_bwrap_argv (inner : list str) (sandbox_policy : SandboxPolicy) (cwd : str) (options : BwrapOptions) : outcome () (list str) :=
  args ← expect (create_bwrap_command_args sandbox_host symlink_metadata inner sandbox_policy cwd options);
  match split_at_separator args with
  | None => Panic
  | Some (before, after) => Ok (lit "bwrap" :: before ++ [lit "--argv0"; lit "codex-linux-sandbox"] ++ after)
  end.

Definition resolve_true_command : str :=
  if path_exists sandbox_host (lit "/usr/bin/true") then lit "/usr/bin/true"
  else if path_exists sandbox_host (lit "/bin/true") then lit "/bin/true" else lit "true".

Definition is_proc_mount_failure (stderr : str) : bool :=
  contains (lit "Can't mount proc") stderr && contains (lit "/newroot/proc") stderr
  && (contains (lit "Invalid argument") stderr || contains (lit "Operation not permitted") stderr
      || contains (lit "Permission denied") stderr).

Definition preflight_proc_mount_support (sandbox_policy_cwd : str) (sandbox_policy : SandboxPolicy) : outcome () bool :=
  argv ← build_bwrap_argv [resolve_true_command] sandbox_policy sandbox_policy_cwd (mk_bwrap_options true FullNetwork);
  Ok (negb (is_proc_mount_failure (run_bwrap_in_child_capture_stderr argv))).

Definition build_inner_seccomp_command (sandbox_policy_cwd : str) (sandbox_policy : SandboxPolicy)
    (use_bwrap_sandbox allow_network_for_proxy : bool) (command : list str) : outcome () (list str) :=
  exe ← expect (ok_or current_exe ());
  Ok ([exe; lit "--sandbox-policy-cwd"; sandbox_policy_cwd; lit "--sandbox-policy"; policy_json sandbox_policy]
      ++ (if use_bwrap_sandbox then [lit "--use-bwrap-sandbox"; lit "--apply-seccomp-then-exec"] else [])
      ++ (if allow_network_for_proxy then [lit "--allow-network-for-proxy"] else [])
      ++ [lit "--"] ++ command).

Definition run_bwrap_with_proc_fallback (sandbox_policy_cwd : str) (sandbox_policy : SandboxPolicy) (inner : list str)
    (mount_proc allow_network_for_proxy : bool) : outcome () image :=
  mount_proc ← (if mount_proc then preflight_proc_mount_support sandbox_policy_cwd sandbox_policy else Ok false);
  argv ← build_bwrap_argv inner sandbox_policy sandbox_policy_cwd
           (mk_bwrap_options mount_proc (bwrap_network_mode sandbox_policy allow_network_for_proxy));
  if forallb c_string_ok argv then Ok (ExecBwrap argv) else Panic.

(** A failure of the restrictions is a panic. *)
Definition restrict_or_panic (c : LandlockCommand) (landlock_fs : bool) : helper () () := fun r =>
  let (r, m) := apply_sandbox_policy_to_current_thread (sandbox_policy c) (sandbox_policy_cwd c) landlock_fs (allow_network_for_proxy c) r in
  (r, expect m).

Definition run_main (c : LandlockCommand) : helper () image :=
  if bool_decide (helper_command c = []) then io_of Panic
  else if apply_seccomp_then_exec c then _ ← restrict_or_panic c false; io_of (exec_or_panic (helper_command c))
  else if has_full_disk_write_access (sandbox_policy c) && negb (allow_network_for_proxy c) then
    _ ← restrict_or_panic c false; io_of (exec_or_panic (helper_command c))
  else if use_bwrap_sandbox c then
    inner ← io_of (build_inner_seccomp_command (sandbox_policy_cwd c) (sandbox_policy c) (use_bwrap_sandbox c)
                     (allow_network_for_proxy c) (helper_command c));
    io_of (run_bwrap_with_proc_fallback (sandbox_policy_cwd c) (sandbox_policy c) inner (negb (no_proc c)) (allow_network_for_proxy c))
  else _ ← restrict_or_panic c true; io_of (exec_or_panic (helper_command c)).
End helper.

(** ** What the network filter refuses *)

Lemma deny_all_lookup (l : list str) (nr : str) (m : gmap str (list SeccompRule)) :
  (foldl (fun rules nr => <[nr := []]> rules) m l : gmap str (list SeccompRule)) !! nr = if decide (nr ∈ l) then Some [] else m !! nr.
Proof.
  revert m. induction l as [|x l IH]; intros m; [done|]. cbn [foldl]. rewrite IH.
  destruct (decide (nr ∈ l)), (decide (nr ∈ x :: l)) as [Hx|Hx]; try set_solver.
  - assert (nr = x) as -> by set_solver. by rewrite lookup_insert_eq.
  - rewrite lookup_insert_ne; [done|set_solver].
Qed.

Lemma unix_only args :
  existsb (fun r => forallb (condition_holds args) r) [unix_only_rule] = true <->
  (default 0%N (args !! 0%nat) mod 2 ^ 32)%N <> AF_UNIX.
Proof. cbn. by rewrite andb_true_r, orb_false_r, negb_true_iff, N.eqb_neq. Qed.

(** The filter refuses just the calls listed, whatever their arguments, and [socket] and
    [socketpair] for any domain but that of Unix sockets; the latter can then not be
    connected either. *)
Theorem network_filter_spec nr args :
  call_refused network_rules nr args = true <->
  nr ∈ denied_syscalls \/
  (nr = lit "socket" \/ nr = lit "socketpair") /\ (default 0%N (args !! 0%nat) mod 2 ^ 32)%N <> AF_UNIX.
Proof.
  unfold call_refused, network_rules.
  destruct (decide (nr = lit "socketpair")) as [-> | Hp].
  { rewrite lookup_insert_eq, unix_only. split; [by right; split; [right|]|]. intros [?|[_ ?]]; [|done]. set_solver. }
  rewrite lookup_insert_ne by done. destruct (decide (nr = lit "socket")) as [-> | Hs].
  { rewrite lookup_insert_eq, unix_only. split; [by right; split; [left|]|]. intros [?|[_ ?]]; [|done]. set_solver. }
  rewrite lookup_insert_ne, deny_all_lookup, lookup_empty by done. destruct (decide _); naive_solver.
Qed.

(** ** From the first process to the command *)

(** What the command runs under. *)
Record confinement : Type := mk_confinement {
  conf_restrictions : Restrictions;
  conf_setup : option bwrap_setup;
  conf_command : list str;
}.

Section launch.
Context `{SandboxHost}.
Variable policy_json : SandboxPolicy -> str.
(** The parser of the command line, which clap derives. *)
Variable parse_cli : list str -> option LandlockCommand.

(** The helper is started; bubblewrap, if it comes to that, runs the command it is given in
    the file system it sets up, as a child with the restrictions there are. *)
Definition launch (argv : list str) : option confinement :=
  c ← parse_cli argv;
  match run_main policy_json c unrestricted with
  | (r, Ok (Execvp command)) => Some (mk_confinement r None command)
  | (r, Ok (ExecBwrap argv)) =>
      s ← read_setup (tail argv);
      c ← parse_cli (setup_command s);
      match run_main policy_json c r with
      | (r, Ok (Execvp command)) => Some (mk_confinement r (Some s) command)
      | _ => None
      end
  | _ => None
  end.

(** The flags the program passes between the policy and the command. *)
Definition cli_flags : list str :=
  lit <$> ["--use-bwrap-sandbox"; "--apply-seccomp-then-exec"; "--allow-network-for-proxy"; "--no-proc"]%string.

(** What clap documents: flags are on when they are given, and all that follows the
    separator is the command.  The policy is read back from its text. *)
Definition cli_reads (policy : SandboxPolicy) : Prop :=
  forall exe cwd flags command,
    is_absolute cwd = true -> (forall f, f ∈ flags -> f ∈ cli_flags) -> NoDup flags ->
    parse_cli (exe :: lit "--sandbox-policy-cwd" :: cwd :: lit "--sandbox-policy" :: policy_json policy :: flags ++ lit "--" :: command) =
    Some (mk_landlock_command cwd policy (bool_decide (lit "--use-bwrap-sandbox" ∈ flags))
            (bool_decide (lit "--apply-seccomp-then-exec" ∈ flags)) (bool_decide (lit "--allow-network-for-proxy" ∈ flags))
            (bool_decide (lit "--no-proc" ∈ flags)) command).

(** *** Restrictions *)

Lemma exec_Ok command i : exec_or_panic command = Ok i -> i = Execvp command.
Proof. unfold exec_or_panic. destruct command; [done|]. case_match; [by intros [= <-]|done]. Qed.

Lemma apply_restricts policy cwd fs allow r r' :
  apply_sandbox_policy_to_current_thread policy cwd fs allow r = (r', Ok ()) ->
  (should_install_network_seccomp policy allow = true -> seccomp r' = Some network_rules /\ no_new_privs r' = true) /\
  (fs = true -> has_full_disk_write_access policy = false ->
   exists ws, get_writable_roots_with_cwd sandbox_host policy cwd = Ok ws /\ landlock r' = Some (landlock_rules (root <$> ws))).
Proof.
  unfold apply_sandbox_policy_to_current_thread, mbind, io_bind, set_no_new_privs, install_network_seccomp_filter_on_current_thread,
    install_filesystem_landlock_rules_on_current_thread, io_of, mret, io_ret.
  destruct (should_install_network_seccomp policy allow), fs, (has_full_disk_write_access policy); cbn [orb andb negb];
    repeat (case_match; simplify_eq; try done); intros; simplify_eq; cbn [seccomp no_new_privs landlock];
    (split; [done|intros ? ?; try done]).
  all: repeat match goal with Hx : expect _ = Ok _ |- _ => rewrite expect_Ok in Hx end; eauto.
Qed.

(** *** The command line of bubblewrap *)

Lemma split_separator before after : lit "--" ∉ before -> split_at_separator (before ++ lit "--" :: after) = Some (before, lit "--" :: after).
Proof.
  induction before as [|a before IH]; [done|]. rewrite not_elem_of_cons. intros [Ha Hb]. cbn [app split_at_separator].
  rewrite bool_decide_eq_false_2 by done. by rewrite IH.
Qed.

Lemma proc_args_no_separator options : lit "--" ∉ proc_args options.
Proof. unfold proc_args. destruct (should_unshare_network _), (mount_proc options); cbn; by apply (bool_decide_unpack (_ ∉ _)). Qed.

(** The setup for a policy that restricts files. *)
Lemma build_argv_restricted policy cwd ws inner options argv :
  file_laws sandbox_host -> policy_ok policy -> get_writable_roots_with_cwd sandbox_host policy cwd = Ok ws ->
  has_full_disk_write_access policy = false -> build_bwrap_argv inner policy cwd options = Ok argv ->
  exists ops, parse_args (tail argv) (mk_setup [] false false None []) =
      Some (mk_setup (ops ++ proc_ops options) true (should_unshare_network (network_mode options)) (Some (lit "codex-linux-sandbox")) inner) /\
    view_ok sandbox_host symlink_metadata ws (ops ++ proc_ops options).
Proof.
  intros Hlaws Hp Hws Hfull. unfold build_bwrap_argv, create_bwrap_command_args. rewrite Hfull.
  intros (args & Hargs & Hb)%bind_Ok. rewrite expect_Ok in Hargs. unfold create_bwrap_flags in Hargs.
  apply bind_Ok in Hargs as (fs & Hfs & [= <-]).
  destruct (filesystem_view sandbox_host Hlaws symlink_metadata policy cwd fs ws options Hp Hws Hfs) as (ops & -> & Hsep & Hv).
  change (lit "--new-session" :: lit "--die-with-parent" :: (ops ≫= op_args) ++ lit "--unshare-pid" :: proc_args options ++ lit "--" :: inner)
    with ([lit "--new-session"; lit "--die-with-parent"] ++ (ops ≫= op_args) ++ [lit "--unshare-pid"] ++ proc_args options ++ lit "--" :: inner) in Hb.
  rewrite !(assoc_L (++)), split_separator in Hb; [injection Hb as <-|].
  - exists ops. split; [|done]. cbn [tail]. rewrite <-!(assoc_L (++)).
    apply (parse_flags ops options (Some (lit "codex-linux-sandbox")) inner).
  - rewrite !not_elem_of_app. repeat split; [by apply (bool_decide_unpack (_ ∉ _))|done|by apply (bool_decide_unpack (_ ∉ _))|apply proc_args_no_separator].
Qed.

(** The setup for a policy that does not, when the network is cut off. *)
Lemma build_argv_full policy cwd inner options argv :
  has_full_disk_write_access policy = true -> network_mode options <> FullNetwork -> build_bwrap_argv inner policy cwd options = Ok argv ->
  parse_args (tail argv) (mk_setup [] false false None []) =
  Some (mk_setup (BindMount (lit "/") (lit "/") :: proc_ops options) true (should_unshare_network (network_mode options))
          (Some (lit "codex-linux-sandbox")) inner).
Proof.
  intros Hfull Hnet. unfold build_bwrap_argv, create_bwrap_command_args. rewrite Hfull, bool_decide_eq_false_2 by done.
  cbn [expect mbind outcome_bind]. unfold create_bwrap_flags_full_filesystem. rewrite (assoc_L (++)).
  change ([lit "--"] ++ inner) with (lit "--" :: inner). rewrite split_separator.
  - intros [= <-].
    exact (parse_flags [BindMount (lit "/") (lit "/")] options (Some (lit "codex-linux-sandbox")) inner).
  - rewrite not_elem_of_app. split; [by apply (bool_decide_unpack (_ ∉ _))|apply proc_args_no_separator].
Qed.

Lemma network_mode_unshares policy allow :
  should_unshare_network (bwrap_network_mode policy allow) = should_install_network_seccomp policy allow.
Proof. unfold bwrap_network_mode, should_install_network_seccomp. by destruct allow, (has_full_network_access policy). Qed.

(** *** The two stages *)

Lemma outer_args exe command policy cwd use_bwrap allow :
  cli_reads policy -> is_absolute cwd = true ->
  parse_cli (exe :: create_linux_sandbox_command_args policy_json command policy cwd use_bwrap allow) =
  Some (mk_landlock_command cwd policy use_bwrap false allow false command).
Proof.
  intros Hcli Hcwd. unfold create_linux_sandbox_command_args.
  pose proof (Hcli exe cwd ((if use_bwrap then [lit "--use-bwrap-sandbox"] else []) ++ (if allow then [lit "--allow-network-for-proxy"] else [])) command Hcwd) as H'.
  cbn [app]. rewrite <-(assoc_L (++)) in H'. rewrite H'.
  - by destruct use_bwrap, allow.
  - destruct use_bwrap, allow; cbn; set_solver.
  - apply (bool_decide_unpack (NoDup _)). by destruct use_bwrap, allow.
Qed.

Lemma inner_args policy cwd allow command inner :
  cli_reads policy -> is_absolute cwd = true -> build_inner_seccomp_command policy_json cwd policy true allow command = Ok inner ->
  parse_cli inner = Some (mk_landlock_command cwd policy true true allow false command).
Proof.
  intros Hcli Hcwd (exe & _ & [= <-])%bind_Ok.
  pose proof (Hcli exe cwd ([lit "--use-bwrap-sandbox"; lit "--apply-seccomp-then-exec"] ++ (if allow then [lit "--allow-network-for-proxy"] else [])) command Hcwd) as H'.
  cbn [app] in *. rewrite H'.
  - by destruct allow.
  - destruct allow; cbn; set_solver.
  - apply (bool_decide_unpack (NoDup _)). by destruct allow.
Qed.

(** A process that runs the command has applied the policy to itself. *)
Definition restricted (c : LandlockCommand) (r r' : Restrictions) : Prop :=
  exists fs, apply_sandbox_policy_to_current_thread (sandbox_policy c) (sandbox_policy_cwd c) fs (allow_network_for_proxy c) r = (r', Ok ()) /\
    (fs = false -> apply_seccomp_then_exec c = true \/ has_full_disk_write_access (sandbox_policy c) = true).

Lemma restrict_exec c fs r r' i :
  (_ ← restrict_or_panic c fs; io_of (exec_or_panic (helper_command c))) r = (r', Ok i) ->
  (fs = false -> apply_seccomp_then_exec c = true \/ has_full_disk_write_access (sandbox_policy c) = true) ->
  i = Execvp (helper_command c) /\ restricted c r r'.
Proof.
  unfold mbind, io_bind, restrict_or_panic. intros Hr Hfs.
  destruct (apply_sandbox_policy_to_current_thread _ _ fs _ r) as [r1 [[]| | |]] eqn:E; try done.
  injection Hr as <- Hi. split; [by apply exec_Ok|]. by exists fs.
Qed.

Lemma run_main_exec c r r' argv :
  run_main policy_json c r = (r', Ok (Execvp argv)) ->
  argv = helper_command c /\ restricted c r r' /\ (use_bwrap_sandbox c = true -> apply_seccomp_then_exec c = false ->
    has_full_disk_write_access (sandbox_policy c) = true /\ allow_network_for_proxy c = false).
Proof.
  unfold run_main. case_bool_decide; [done|]. destruct (apply_seccomp_then_exec c) eqn:Ea.
  { intros [[= ->] Hr]%restrict_exec; [done|by left]. }
  destruct (has_full_disk_write_access _ && negb _) eqn:Ef.
  { apply andb_true_iff in Ef as [Ef Ep%negb_true_iff]. intros [[= ->] Hr]%restrict_exec; [done|by right]. }
  destruct (use_bwrap_sandbox c); [|by intros [[= ->] Hr]%restrict_exec].
  unfold mbind, io_bind, io_of. destruct (build_inner_seccomp_command _ _ _ _ _ _) as [inner| | |]; try done.
  intros [= <- Hr]. exfalso. revert Hr. unfold run_bwrap_with_proc_fallback.
  intros (? & _ & (? & _ & Hr)%bind_Ok)%bind_Ok. by case_match.
Qed.

Lemma run_main_bwrap c r r' argv :
  run_main policy_json c r = (r', Ok (ExecBwrap argv)) ->
  r' = r /\ use_bwrap_sandbox c = true /\ (has_full_disk_write_access (sandbox_policy c) && negb (allow_network_for_proxy c)) = false /\
  exists inner mount_proc, build_inner_seccomp_command policy_json (sandbox_policy_cwd c) (sandbox_policy c) true (allow_network_for_proxy c) (helper_command c) = Ok inner /\
    build_bwrap_argv inner (sandbox_policy c) (sandbox_policy_cwd c)
      (mk_bwrap_options mount_proc (bwrap_network_mode (sandbox_policy c) (allow_network_for_proxy c))) = Ok argv.
Proof.
  unfold run_main. case_bool_decide; [done|].
  destruct (apply_seccomp_then_exec c) eqn:Ea; [by intros [[=] _]%restrict_exec; left|].
  destruct (has_full_disk_write_access _ && negb _) eqn:Ef.
  { apply andb_true_iff in Ef as [Ef _]. by intros [[=] _]%restrict_exec; right. }
  destruct (use_bwrap_sandbox c); [|by intros [[=] _]%restrict_exec].
  unfold mbind, io_bind, io_of. destruct (build_inner_seccomp_command _ _ _ _ _ _) as [inner| | |]; try done.
  intros [= <- Hr]. do 3 (split; [done|]). exists inner. revert Hr. unfold run_bwrap_with_proc_fallback.
  intros (mount_proc & _ & (argv' & Hargv & Hr)%bind_Ok)%bind_Ok. exists mount_proc. split; [done|].
  destruct (forallb c_string_ok argv'); [|done]. by injection Hr as <-.
Qed.

(** *** What the command runs under *)

(** What the legacy rules let be written. *)
Definition landlock_writable (rules : landlock_ruleset) (p : list component) : Prop :=
  exists paths r, (paths, AccessAll) ∈ rules /\ r ∈ paths /\ under p r.

Lemma landlock_rules_writable roots p :
  landlock_writable (landlock_rules roots) p <-> under p (lit "/dev/null") \/ exists r, r ∈ roots /\ under p r.
Proof.
  unfold landlock_writable, landlock_rules. split.
  - intros (paths & r & Hin & Hr & Hu). rewrite elem_of_app, !elem_of_cons in Hin.
    destruct Hin as [[[=]|[[= ->]|Hin%not_elem_of_nil]]|Hin]; [|done|].
    + left. apply list_elem_of_singleton in Hr as ->. done.
    + case_bool_decide; [by apply not_elem_of_nil in Hin|]. apply list_elem_of_singleton in Hin as [= ->]. right. by exists r.
  - intros [Hu|(r & Hr & Hu)].
    + exists [lit "/dev/null"], (lit "/dev/null"). set_solver.
    + exists roots, r. split; [|done]. apply elem_of_app. right. case_bool_decide; [set_solver|by apply list_elem_of_singleton].
Qed.

Record confined (policy : SandboxPolicy) (ws : list WritableRoot) (command : list str) (use_bwrap allow : bool) (c : confinement) : Prop := {
  confined_command : conf_command c = command;
  confined_network : should_install_network_seccomp policy allow = true ->
    seccomp (conf_restrictions c) = Some network_rules /\ no_new_privs (conf_restrictions c) = true;
  confined_files : has_full_disk_write_access policy = false -> use_bwrap = true ->
    exists s, conf_setup c = Some s /\ unshare_pid s = true /\ unshare_net s = should_install_network_seccomp policy allow /\
      view_ok sandbox_host symlink_metadata ws (setup_ops s);
  confined_legacy : has_full_disk_write_access policy = false -> use_bwrap = false ->
    exists rules, landlock (conf_restrictions c) = Some rules /\
      forall p, landlock_writable rules p <-> under p (lit "/dev/null") \/ exists w, w ∈ ws /\ under p (root w);
}.

Lemma restricted_network c r r' :
  restricted c r r' -> should_install_network_seccomp (sandbox_policy c) (allow_network_for_proxy c) = true ->
  seccomp r' = Some network_rules /\ no_new_privs r' = true.
Proof. intros (fs & Ha%apply_restricts & _). apply Ha. Qed.

Lemma restricted_files c r r' ws :
  restricted c r r' -> apply_seccomp_then_exec c = false -> has_full_disk_write_access (sandbox_policy c) = false ->
  get_writable_roots_with_cwd sandbox_host (sandbox_policy c) (sandbox_policy_cwd c) = Ok ws ->
  exists rules, landlock r' = Some rules /\
    forall p, landlock_writable rules p <-> under p (lit "/dev/null") \/ exists w, w ∈ ws /\ under p (root w).
Proof.
  intros (fs & Ha%apply_restricts & Hfs) Hinner Hfull Hws. destruct fs; [|destruct (Hfs eq_refl); congruence].
  destruct (proj2 Ha eq_refl Hfull) as (ws' & Hws' & Hl). exists (landlock_rules (root <$> ws')). split; [done|].
  assert (ws' = ws) as -> by congruence. intros p. rewrite landlock_rules_writable. setoid_rewrite list_elem_of_fmap. naive_solver.
Qed.


(** A flaw: with full access to files, a managed network and bubblewrap, the helper does
    not run anything, because its trial run of bubblewrap is not wrapped and has no
    separator; only the flag that gives up [/proc] avoids it. *)
Theorem managed_full_access_panics c r :
  has_full_disk_write_access (sandbox_policy c) = true -> allow_network_for_proxy c = true -> use_bwrap_sandbox c = true ->
  apply_seccomp_then_exec c = false -> no_proc c = false ->
  run_main policy_json c r = (r, Panic).
Proof.
  intros Hfull Hproxy Hb Ha Hn. unfold run_main. case_bool_decide; [done|]. rewrite Ha, Hfull, Hproxy, Hb, Hn. cbn [andb negb].
  unfold mbind, io_bind, io_of. unfold build_inner_seccomp_command.
  destruct current_exe as [exe|]; [|done]. cbn [ok_or expect outcome_bind].
  unfold run_bwrap_with_proc_fallback, preflight_proc_mount_support, build_bwrap_argv, create_bwrap_command_args. rewrite Hfull. cbn.
  unfold resolve_true_command. by repeat case_match.
Qed.
End launch.

(** ** An example *)

#[export] Instance example_sandbox_host : SandboxHost :=
  Build_SandboxHost (demo_host example_dirs) (fun _ => Some false) (Ok ()) (Ok ()) (Ok true) (fun _ => []) (Some (lit "helper")).

(** A parser for one policy. *)
Definition example_parse (policy : SandboxPolicy) (argv : list str) : option LandlockCommand :=
  match argv with
  | _ :: _ :: cwd :: _ :: _ :: rest =>
      match split_at_separator rest with
      | Some (flags, _ :: command) =>
          Some (mk_landlock_command cwd policy (bool_decide (lit "--use-bwrap-sandbox" ∈ flags))
            (bool_decide (lit "--apply-seccomp-then-exec" ∈ flags)) (bool_decide (lit "--allow-network-for-proxy" ∈ flags))
            (bool_decide (lit "--no-proc" ∈ flags)) command)
      | _ => None
      end
  | _ => None
  end.

Lemma example_parse_reads policy policy_json : cli_reads policy_json (example_parse policy) policy.
Proof.
  intros exe cwd flags command _ Hflags _. cbn [example_parse]. rewrite split_separator; [done|].
  intros Hin%Hflags. revert Hin. by apply (bool_decide_unpack (_ ∉ _)).
Qed.

Definition example_launch : list str :=
  lit "helper" :: create_linux_sandbox_command_args (fun _ => lit "{}") [lit "ls"] example_policy (lit "/w/p") true false.


Definition example_managed : LandlockCommand := mk_landlock_command (lit "/w/p") DangerFullAccess true false true false [lit "ls"].

Lemma managed_full_access_panics_witness : run_main (fun _ => lit "{}") example_managed unrestricted = (unrestricted, Panic).
Proof. apply (managed_full_access_panics (fun _ => lit "{}") example_managed unrestricted); reflexivity. Defined.
