(* ===== verification/ByteText.v ===== *)
(** * Byte positions in a text

    The operations of [str] and [String] that take byte offsets: slices, searches,
    insertion and replacement, which panic off the boundaries of characters. *)

From S2P Require Import Prelude RustStd.

(** The text before and after a position, if that is a boundary. *)
Fixpoint split_bytes (s : str) (n : nat) : option (str * str) :=
  match n, s with
  | O, _ => Some ([], s)
  | S _, [] => None
  | S _, c :: s => if len_utf8 c <=? n then '(a, b) ← split_bytes s (n - len_utf8 c); Some (c :: a, b) else None
  end.

Definition is_char_boundary (s : str) (n : nat) : bool := match split_bytes s n with Some _ => true | None => false end.

(** [str::get(a..b)], [&s[a..b]], [&s[..b]] and [&s[a..]]. *)
Definition str_get (s : str) (a b : nat) : option str :=
  if a <=? b then '(p, _) ← split_bytes s b; '(_, m) ← split_bytes p a; Some m else None.
Definition or_panic {E A} (o : option A) : outcome E A := match o with Some a => Ok a | None => Panic end.
Definition str_slice {E} (s : str) (a b : nat) : outcome E str := or_panic (str_get s a b).
Definition str_to {E} (s : str) (b : nat) : outcome E str := or_panic (fst <$> split_bytes s b).
Definition str_from {E} (s : str) (a : nat) : outcome E str := or_panic (snd <$> split_bytes s a).

(** [String::insert_str] and [String::replace_range]. *)
Definition insert_at {E} (s : str) (pos : nat) (t : str) : outcome E str :=
  or_panic ('(a, b) ← split_bytes s pos; Some (a ++ t ++ b)).
Definition replace_at {E} (s : str) (a b : nat) (t : str) : outcome E str :=
  if a <=? b then or_panic ('(p, _) ← split_bytes s a; '(_, q) ← split_bytes s b; Some (p ++ t ++ q)) else Panic.

(** [char_indices], and [find] and [rfind] for a predicate on characters. *)
Fixpoint char_indices_from (n : nat) (s : str) : list (nat * char) :=
  match s with [] => [] | c :: s => (n, c) :: char_indices_from (n + len_utf8 c) s end.
Definition char_indices (s : str) : list (nat * char) := char_indices_from 0 s.
Fixpoint first_where {A} (f : A -> bool) (l : list A) : option A :=
  match l with [] => None | x :: l => if f x then Some x else first_where f l end.
Definition find_char (f : char -> bool) (s : str) : option nat := fst <$> first_where (fun p => f p.2) (char_indices s).
Definition rfind_char (f : char -> bool) (s : str) : option nat := fst <$> first_where (fun p => f p.2) (reverse (char_indices s)).

(** ** Lengths and boundaries *)

Lemma len_utf8_pos c : 1 <= len_utf8 c.
Proof. unfold len_utf8. repeat case_bool_decide; lia. Qed.

Lemma str_len_app a b : str_len (a ++ b) = str_len a + str_len b.
Proof. apply sum_list_with_app. Qed.

Lemma str_len_cons c s : str_len (c :: s) = len_utf8 c + str_len s.
Proof. done. Qed.

Lemma str_len_nil s : str_len s = 0 -> s = [].
Proof. destruct s as [|c s]; [done|]. rewrite str_len_cons. pose proof (len_utf8_pos c). lia. Qed.

Lemma split_bytes_Some s n a b : split_bytes s n = Some (a, b) <-> s = a ++ b /\ str_len a = n.
Proof.
  revert n a b. induction s as [|c s IH]; intros n a b.
  - destruct n; cbn.
    + split; [by intros [= <- <-]|]. intros [Hs _]. symmetry in Hs. apply app_nil in Hs as [-> ->]. done.
    + split; [done|]. intros [Hs Hn]. symmetry in Hs. apply app_nil in Hs as [-> ->]. done.
  - destruct n as [|n]; cbn [split_bytes].
    + split; [by intros [= <- <-]|]. intros [Hs Hn%str_len_nil]. subst a. by rewrite Hs.
    + pose proof (len_utf8_pos c). destruct (len_utf8 c <=? S n) eqn:E.
      * apply Nat.leb_le in E. split.
        -- destruct (split_bytes s _) as [[a' b']|] eqn:Es; [|done]. intros [= <- <-]. apply IH in Es as [-> Hl].
           split; [done|]. rewrite str_len_cons. lia.
        -- intros [Hs Hl]. destruct a as [|c' a]; [done|]. injection Hs as <- ->. rewrite str_len_cons in Hl.
           assert (split_bytes (a ++ b) (S n - len_utf8 c) = Some (a, b)) as ->; [|done]. apply IH. split; [done|lia].
      * apply Nat.leb_gt in E. split; [done|]. intros [Hs Hl]. destruct a as [|c' a]; [done|]. injection Hs as <- ->.
        rewrite str_len_cons in Hl. lia.
Qed.

Lemma split_bytes_app a b : split_bytes (a ++ b) (str_len a) = Some (a, b).
Proof. by apply split_bytes_Some. Qed.

(** A position between two characters. *)
Definition boundary (s : str) (n : nat) : Prop := exists a b, s = a ++ b /\ str_len a = n.

Lemma boundary_split s n : boundary s n <-> is_Some (split_bytes s n).
Proof.
  split; [intros (a & b & -> & <-); rewrite split_bytes_app; eauto|].
  intros [[a b] Hs%split_bytes_Some]. by exists a, b.
Qed.

#[export] Instance boundary_dec s n : Decision (boundary s n).
Proof. refine (cast_if (decide (is_Some (split_bytes s n)))); by rewrite boundary_split. Defined.

Lemma is_char_boundary_true s n : is_char_boundary s n = true <-> boundary s n.
Proof. rewrite boundary_split. unfold is_char_boundary. destruct (split_bytes s n); naive_solver. Qed.

Lemma boundary_0 s : boundary s 0.
Proof. by exists [], s. Qed.
Lemma boundary_len s : boundary s (str_len s).
Proof. exists s, []. by rewrite app_nil_r. Qed.
Lemma boundary_le s n : boundary s n -> n <= str_len s.
Proof. intros (a & b & -> & <-). rewrite str_len_app. lia. Qed.

Lemma boundary_app_l a b n : boundary a n -> boundary (a ++ b) n.
Proof. intros (x & y & -> & <-). exists x, (y ++ b). by rewrite <-app_assoc. Qed.
Lemma boundary_app_r a b n : boundary b n -> boundary (a ++ b) (str_len a + n).
Proof. intros (x & y & -> & <-). exists (a ++ x), y. by rewrite app_assoc, str_len_app. Qed.
Lemma boundary_mid a b : boundary (a ++ b) (str_len a).
Proof. by exists a, b. Qed.

(** Two boundaries cut the text in three. *)
Lemma cut_twice s m n : boundary s m -> boundary s n -> m <= n ->
  exists a b c, s = a ++ b ++ c /\ str_len a = m /\ str_len a + str_len b = n.
Proof.
  intros (a & x & -> & <-) (y & c & Hy & <-) Hle. revert y Hy Hle. induction a as [|k a IH]; intros y Hy Hle.
  { exists [], y, c. by rewrite Hy. }
  destruct y as [|k' y]; [rewrite str_len_cons in Hle; pose proof (len_utf8_pos k); cbn in Hle; lia|].
  injection Hy as <- Hy. rewrite !str_len_cons in Hle. destruct (IH y Hy ltac:(lia)) as (a' & b' & c' & He & H1 & H2).
  exists (k :: a'), b', c'. rewrite !str_len_cons. cbn. rewrite He. split; [done|]. lia.
Qed.

Lemma boundary_inv_l a b n : boundary (a ++ b) n -> n <= str_len a -> boundary a n.
Proof.
  intros Hb Hle. destruct (cut_twice (a ++ b) n (str_len a)) as (x & y & z & He & Hx & Hy); [done|apply boundary_mid|done|].
  rewrite app_assoc in He. assert (split_bytes (a ++ b) (str_len a) = Some (x ++ y, z)) as Hs.
  { apply split_bytes_Some. split; [done|]. by rewrite str_len_app. }
  rewrite split_bytes_app in Hs. injection Hs as -> _. by exists x, y.
Qed.

Lemma boundary_inv_r a b n : boundary (a ++ b) n -> str_len a <= n -> boundary b (n - str_len a).
Proof.
  intros Hb Hle. destruct (cut_twice (a ++ b) (str_len a) n) as (x & y & z & He & Hx & Hy); [apply boundary_mid|done|done|].
  assert (split_bytes (a ++ b) (str_len a) = Some (x, y ++ z)) as Hs by (by apply split_bytes_Some).
  rewrite split_bytes_app in Hs. injection Hs as -> ->. exists y, z. split; [done|]. lia.
Qed.

(** ** Slices *)

Lemma str_get_Some s a b m : str_get s a b = Some m <-> exists p q, s = p ++ m ++ q /\ str_len p = a /\ a + str_len m = b.
Proof.
  unfold str_get. split.
  - destruct (a <=? b) eqn:E; [|done]. destruct (split_bytes s b) as [[x q]|] eqn:Eb; [|done].
    destruct (split_bytes x a) as [[p m']|] eqn:Ea; cbn [mbind option_bind]; rewrite Ea; [|done].
    intros [= <-]. apply split_bytes_Some in Eb as [-> Hb], Ea as [-> Ha]. exists p, q. rewrite <-app_assoc. split; [done|].
    split; [done|]. by rewrite str_len_app, Ha in Hb.
  - intros (p & q & -> & <- & <-). rewrite (proj2 (Nat.leb_le _ _)) by lia.
    rewrite app_assoc, <-str_len_app, split_bytes_app. cbn [mbind option_bind]. by rewrite split_bytes_app.
Qed.

Lemma str_get_cut s a b : boundary s a -> boundary s b -> a <= b -> is_Some (str_get s a b).
Proof.
  intros Ha Hb Hle. destruct (cut_twice s a b Ha Hb Hle) as (p & m & q & -> & <- & <-).
  exists m. apply str_get_Some. by exists p, q.
Qed.

Lemma str_to_cut {E} s b : boundary s b -> exists p q, str_to (E := E) s b = Ok p /\ s = p ++ q /\ str_len p = b.
Proof. intros (p & q & -> & <-). exists p, q. unfold str_to. by rewrite split_bytes_app. Qed.

Lemma str_from_cut {E} s a : boundary s a -> exists p q, str_from (E := E) s a = Ok q /\ s = p ++ q /\ str_len p = a.
Proof. intros (p & q & -> & <-). exists p, q. unfold str_from. by rewrite split_bytes_app. Qed.

Lemma insert_at_app {E} a b t : insert_at (E := E) (a ++ b) (str_len a) t = Ok (a ++ t ++ b).
Proof. unfold insert_at. by rewrite split_bytes_app. Qed.

Lemma replace_at_app {E} p m q t : replace_at (E := E) (p ++ m ++ q) (str_len p) (str_len p + str_len m) t = Ok (p ++ t ++ q).
Proof.
  unfold replace_at. rewrite (proj2 (Nat.leb_le _ _)), split_bytes_app by lia. cbn [mbind option_bind].
  by rewrite app_assoc, <-str_len_app, split_bytes_app.
Qed.

(** ** Searches *)

Lemma char_indices_from_elem n s i c : (i, c) ∈ char_indices_from n s -> exists a b, s = a ++ c :: b /\ i = n + str_len a.
Proof.
  revert n. induction s as [|x s IH]; intros n; cbn [char_indices_from]; [by intros ?%not_elem_of_nil|].
  intros [[= -> ->]|(a & b & -> & ->)%IH]%elem_of_cons; [exists [], s; cbn; split; [done|lia]|].
  exists (x :: a), b. rewrite str_len_cons. split; [done|lia].
Qed.

Lemma char_indices_elem s i c : (i, c) ∈ char_indices s -> exists a b, s = a ++ c :: b /\ i = str_len a.
Proof. apply char_indices_from_elem. Qed.

Lemma char_indices_boundary s i c : (i, c) ∈ char_indices s -> boundary s i /\ boundary s (i + len_utf8 c).
Proof.
  intros (a & b & -> & ->)%char_indices_elem. split; [apply boundary_mid|]. apply boundary_app_r.
  exists [c], b. split; [done|]. cbn. lia.
Qed.

Lemma first_where_Some {A} (f : A -> bool) l x : first_where f l = Some x -> x ∈ l /\ f x = true.
Proof.
  induction l as [|y l IH]; cbn [first_where]; [done|]. destruct (f y) eqn:E; [intros [= <-]; set_solver|]. intros [? ?]%IH. set_solver.
Qed.

Lemma first_where_None {A} (f : A -> bool) l : first_where f l = None -> forall x, x ∈ l -> f x = false.
Proof.
  induction l as [|y l IH]; cbn [first_where]; [by intros _ x ?%not_elem_of_nil|].
  destruct (f y) eqn:E; [done|]. intros H x [-> | Hx]%elem_of_cons; [done|by apply IH].
Qed.

Lemma find_char_Some f s i : find_char f s = Some i -> exists a c b, s = a ++ c :: b /\ str_len a = i /\ f c = true.
Proof.
  unfold find_char. destruct (first_where _ _) as [[j c]|] eqn:E; [|done]. intros [= ->].
  apply first_where_Some in E as [(a & b & -> & ->)%char_indices_elem Hf]. by exists a, c, b.
Qed.

Lemma rfind_char_Some f s i : rfind_char f s = Some i -> exists a c b, s = a ++ c :: b /\ str_len a = i /\ f c = true.
Proof.
  unfold rfind_char. destruct (first_where _ _) as [[j c]|] eqn:E; [|done]. intros [= ->].
  apply first_where_Some in E as [Hin Hf]. rewrite elem_of_reverse in Hin.
  apply char_indices_elem in Hin as (a & b & -> & ->). by exists a, c, b.
Qed.
