(* ===== verification/TextArea.v ===== *)
(** * The text area (tui/src/bottom_pane/textarea.rs)

    The editor of the prompt: a text, a cursor, and elements, which are stretches of text
    edited as one (placeholders of pasted content and images, mentions).  Positions are
    byte offsets.  Graphemes, widths on the screen and the wrapping of lines are the
    surroundings. *)

From S2P Require Import Prelude RustStd ByteText.

(** ** Data *)

Record TextElement : Type := mk_element { id : N; range_start : nat; range_end : nat }.

Record WrapCache : Type := mk_wrap_cache { wrap_width : N; wrap_lines : list (nat * nat) }.

Record TextArea : Type := mk_textarea {
  text : str;
  cursor_pos : nat;
  wrap_cache : option WrapCache;
  preferred_col : option nat;
  elements : list TextElement;
  next_id : N;
  kill_buffer : str;
}.

Definition new_textarea : TextArea := mk_textarea [] 0 None None [] 1%N [].

Definition with_text (s : str) (t : TextArea) : TextArea :=
  mk_textarea s (cursor_pos t) None (preferred_col t) (elements t) (next_id t) (kill_buffer t).
Definition with_cursor (pos : nat) (t : TextArea) : TextArea :=
  mk_textarea (text t) pos (wrap_cache t) (preferred_col t) (elements t) (next_id t) (kill_buffer t).
Definition with_cache (c : option WrapCache) (t : TextArea) : TextArea :=
  mk_textarea (text t) (cursor_pos t) c (preferred_col t) (elements t) (next_id t) (kill_buffer t).
Definition with_col (col : option nat) (t : TextArea) : TextArea :=
  mk_textarea (text t) (cursor_pos t) (wrap_cache t) col (elements t) (next_id t) (kill_buffer t).
Definition with_elements (es : list TextElement) (t : TextArea) : TextArea :=
  mk_textarea (text t) (cursor_pos t) (wrap_cache t) (preferred_col t) es (next_id t) (kill_buffer t).
Definition with_kill (k : str) (t : TextArea) : TextArea :=
  mk_textarea (text t) (cursor_pos t) (wrap_cache t) (preferred_col t) (elements t) (next_id t) k.

(** A line from textwrap: a slice of the text, by its positions, or a new string. *)
Inductive Cow : Type := Borrowed (start end_ : nat) | Owned (s : str).

(** Unicode segmentation, display widths, and the first-fit lines of textwrap. *)
Class TextWorld : Type := {
  width : str -> nat;
  graphemes : str -> list str;
  prev_boundary : str -> nat -> outcome () (option nat);
  next_boundary : str -> nat -> outcome () (option nat);
  textwrap_wrap : str -> N -> list Cow;
}.

(** A range of an element and its text, as a message carries them. *)
Record UserTextElement : Type := mk_user_element { byte_range : nat * nat; placeholder : option str }.

Definition WORD_SEPARATORS : str := lit "`~!@#$%^&*()-=+[{]}\|;:'" ++ [34%N] ++ lit ",.<>/?".
Definition is_word_separator (c : char) : bool := bool_decide (c ∈ WORD_SEPARATORS).

(** ** Positions *)

Definition contains_pos (pos : nat) (e : TextElement) : bool := (range_start e <? pos) && (pos <? range_end e).
Definition find_element_containing (t : TextArea) (pos : nat) : option TextElement := first_where (contains_pos pos) (elements t).

(** The nearest boundary below and above, searched byte by byte. *)
Fixpoint boundary_below (s : str) (pos : nat) : nat :=
  match pos with O => 0 | S p => if is_char_boundary s pos then pos else boundary_below s p end.
Fixpoint boundary_above (fuel : nat) (s : str) (pos : nat) : nat :=
  match fuel with
  | O => pos
  | S fuel => if (pos <? str_len s) && negb (is_char_boundary s pos) then boundary_above fuel s (S pos) else pos
  end.

Definition clamp_pos_to_char_boundary (t : TextArea) (pos : nat) : nat :=
  let pos := min pos (str_len (text t)) in
  if is_char_boundary (text t) pos then pos
  else
    let prev := boundary_below (text t) pos in
    let next := boundary_above (str_len (text t)) (text t) pos in
    if pos - prev <=? next - pos then prev else next.

(** [clamp_pos_to_nearest_boundary] and [clamp_pos_for_insertion], which are the same. *)
Definition clamp_pos_to_nearest_boundary (t : TextArea) (pos : nat) : nat :=
  let pos := clamp_pos_to_char_boundary t pos in
  match find_element_containing t pos with
  | Some e =>
      if pos - range_start e <=? range_end e - pos then clamp_pos_to_char_boundary t (range_start e)
      else clamp_pos_to_char_boundary t (range_end e)
  | None => pos
  end.
Definition clamp_pos_for_insertion : TextArea -> nat -> nat := clamp_pos_to_nearest_boundary.

Definition set_cursor (pos : nat) (t : TextArea) : TextArea :=
  with_col None (with_cursor (clamp_pos_to_nearest_boundary t (min pos (str_len (text t)))) t).

(** ** Elements *)

(** [sort_by_key]: stable. *)
Fixpoint insert_by_start (e : TextElement) (l : list TextElement) : list TextElement :=
  match l with
  | [] => [e]
  | f :: l => if range_start f <=? range_start e then f :: insert_by_start e l else e :: f :: l
  end.
Definition sort_by_start (l : list TextElement) : list TextElement := foldl (fun l e => insert_by_start e l) [] l.

Definition U64_MAX : N := (2 ^ 64 - 1)%N.
Definition next_element_id (t : TextArea) : TextArea * N :=
  (mk_textarea (text t) (cursor_pos t) (wrap_cache t) (preferred_col t) (elements t) (N.min (next_id t + 1) U64_MAX) (kill_buffer t), next_id t).

Definition shift_element (at_ removed inserted : nat) (e : TextElement) : TextElement :=
  let end_ := at_ + removed in
  if range_end e <=? at_ then e
  else if end_ <=? range_start e then mk_element (id e) (range_start e + inserted - removed) (range_end e + inserted - removed)
  else mk_element (id e) (min at_ (range_start e)) (at_ + max inserted (range_end e - end_)).
Definition shift_elements (at_ removed inserted : nat) (es : list TextElement) : list TextElement :=
  shift_element at_ removed inserted <$>
    filter (fun e => ((at_ <=? range_start e) && (range_end e <=? at_ + removed)) = false) es.

(** One pass over the elements, and the loop until nothing changes. *)
Definition expand_pass (es : list TextElement) (r : nat * nat) : nat * nat :=
  foldl (fun r e =>
    if (range_start e <? r.2) && (r.1 <? range_end e) then (min r.1 (range_start e), max r.2 (range_end e)) else r) r es.
Fixpoint expand_loop (fuel : nat) (es : list TextElement) (r : nat * nat) : outcome () (nat * nat) :=
  match fuel with
  | O => Timeout
  | S fuel => let r' := expand_pass es r in if bool_decide (r' = r) then Ok r else expand_loop fuel es r'
  end.
Definition expand_range_to_element_boundaries (t : TextArea) (r : nat * nat) : outcome () (nat * nat) :=
  expand_loop (S (length (elements t))) (elements t) r.

(** ** Editing *)

Abbreviation edit := (TextArea -> outcome () TextArea).

Definition insert_str_at (pos : nat) (s : str) : edit := fun t =>
  let pos := clamp_pos_for_insertion t pos in
  new_text ← insert_at (text t) pos s;
  let t := with_text new_text t in
  let t := if pos <=? cursor_pos t then with_cursor (cursor_pos t + str_len s) t else t in
  Ok (with_col None (with_elements (shift_elements pos 0 (str_len s) (elements t)) t)).
Definition insert_str (s : str) : edit := fun t => insert_str_at (cursor_pos t) s t.

Definition moved_cursor (cursor start end_ inserted_len removed_len : nat) : nat :=
  if cursor <? start then cursor
  else if cursor <=? end_ then start + inserted_len
  else cursor + inserted_len - removed_len.

Definition replace_range_raw (r : nat * nat) (s : str) : edit := fun t =>
  if r.2 <? r.1 then Panic
  else
    let start := min r.1 (str_len (text t)) in
    let end_ := min r.2 (str_len (text t)) in
    let removed_len := end_ - start in
    let inserted_len := str_len s in
    if (removed_len =? 0) && (inserted_len =? 0) then Ok t
    else
      new_text ← replace_at (text t) r.1 r.2 s;
      let t := with_col None (with_text new_text t) in
      let t := with_elements (shift_elements start (end_ - start) inserted_len (elements t)) t in
      let t := with_cursor (min (moved_cursor (cursor_pos t) start end_ inserted_len removed_len) (str_len (text t))) t in
      Ok (with_cursor (clamp_pos_to_nearest_boundary t (cursor_pos t)) t).

Definition replace_range (r : nat * nat) (s : str) : edit := fun t =>
  r ← expand_range_to_element_boundaries t r; replace_range_raw r s t.

Definition kill_range (r : nat * nat) : edit := fun t =>
  r ← expand_range_to_element_boundaries t r;
  if r.2 <=? r.1 then Ok t
  else
    removed ← str_slice (text t) r.1 r.2;
    if bool_decide (removed = []) then Ok t else replace_range_raw r [] (with_kill removed t).

Definition yank : edit := fun t => if bool_decide (kill_buffer t = []) then Ok t else insert_str (kill_buffer t) t.

(** ** Elements of the interface *)

Fixpoint push_elements (es : list UserTextElement) (t : TextArea) : TextArea :=
  match es with
  | [] => t
  | e :: es =>
      let start := clamp_pos_to_char_boundary t (min (byte_range e).1 (str_len (text t))) in
      let end_ := clamp_pos_to_char_boundary t (min (byte_range e).2 (str_len (text t))) in
      if end_ <=? start then push_elements es t
      else let (t, i) := next_element_id t in push_elements es (with_elements (elements t ++ [mk_element i start end_]) t)
  end.

Definition set_text_inner (s : str) (es : option (list UserTextElement)) (t : TextArea) : TextArea :=
  let t := mk_textarea s (cursor_pos t) (wrap_cache t) (preferred_col t) (elements t) (next_id t) (kill_buffer t) in
  let t := with_elements [] (with_cursor (min (cursor_pos t) (str_len (text t))) t) in
  let t := match es with
           | Some es => let t := push_elements es t in with_elements (sort_by_start (elements t)) t
           | None => t
           end in
  with_kill [] (with_col None (with_cache None (with_cursor (clamp_pos_to_nearest_boundary t (cursor_pos t)) t))).
Definition set_text_clearing_elements (s : str) : TextArea -> TextArea := set_text_inner s None.
Definition set_text_with_elements (s : str) (es : list UserTextElement) : TextArea -> TextArea := set_text_inner s (Some es).

Definition add_element (start end_ : nat) (t : TextArea) : TextArea * N :=
  let (t, i) := next_element_id t in (with_elements (sort_by_start (elements t ++ [mk_element i start end_])) t, i).

Definition insert_element (s : str) (t : TextArea) : outcome () (TextArea * N) :=
  let start := clamp_pos_for_insertion t (cursor_pos t) in
  t ← insert_str_at start s t;
  let end_ := start + str_len s in
  let (t, i) := add_element start end_ t in
  Ok (set_cursor end_ t, i).

Definition add_element_range (r : nat * nat) (t : TextArea) : TextArea * option N :=
  let start := clamp_pos_to_char_boundary t (min r.1 (str_len (text t))) in
  let end_ := clamp_pos_to_char_boundary t (min r.2 (str_len (text t))) in
  if end_ <=? start then (t, None)
  else if existsb (fun e => (range_start e =? start) && (range_end e =? end_)) (elements t) then (t, None)
  else if existsb (fun e => (start <? range_end e) && (range_start e <? end_)) (elements t) then (t, None)
  else let (t, i) := add_element start end_ t in (t, Some i).

Definition remove_element_range (r : nat * nat) (t : TextArea) : TextArea * bool :=
  let start := clamp_pos_to_char_boundary t (min r.1 (str_len (text t))) in
  let end_ := clamp_pos_to_char_boundary t (min r.2 (str_len (text t))) in
  if end_ <=? start then (t, false)
  else
    let es := filter (fun e => negb (range_start e =? start) || negb (range_end e =? end_) = true) (elements t) in
    (with_elements es t, negb (length (elements t) =? length es)).

Definition payload (t : TextArea) (e : TextElement) : option str := str_get (text t) (range_start e) (range_end e).
Definition element_payloads (t : TextArea) : list str := omap (payload t) (elements t).
Definition text_elements (t : TextArea) : list UserTextElement :=
  (fun e => mk_user_element (range_start e, range_end e) (payload t e)) <$> elements t.

Record TextElementSnapshot : Type := mk_snapshot { snapshot_id : N; snapshot_range : nat * nat; snapshot_text : str }.
Definition text_element_snapshots (t : TextArea) : list TextElementSnapshot :=
  omap (fun e => mk_snapshot (id e) (range_start e, range_end e) <$> payload t e) (elements t).
Definition element_id_for_exact_range (t : TextArea) (r : nat * nat) : option N :=
  id <$> first_where (fun e => bool_decide ((range_start e, range_end e) = r)) (elements t).

(** The other elements when the payload of the one at [start..end_] changes its length. *)
Definition move_element (start end_ inserted_len : nat) (e : TextElement) : TextElement :=
  if range_end e <=? start then e
  else if end_ <=? range_start e then
    mk_element (id e) (range_start e + inserted_len - (end_ - start)) (range_end e + inserted_len - (end_ - start))
  else mk_element (id e) (min start (range_start e)) (max (start + inserted_len) (range_end e + inserted_len - (end_ - start))).

Fixpoint replace_payload_at (idx : nat) (start end_ inserted_len : nat) (es : list TextElement) : list TextElement :=
  let move e := if inserted_len =? end_ - start then e else move_element start end_ inserted_len e in
  match es with
  | [] => []
  | e :: es =>
      match idx with
      | O => mk_element (id e) start (start + inserted_len) :: (move <$> es)
      | S idx => move e :: replace_payload_at idx start end_ inserted_len es
      end
  end.

Definition replace_element_payload (old new : str) (t : TextArea) : outcome () (TextArea * bool) :=
  match list_find (fun e => payload t e = Some old) (elements t) with
  | None => Ok (t, false)
  | Some (idx, e) =>
      let start := range_start e in
      let end_ := range_end e in
      if (end_ <? start) || (str_len (text t) <? end_) then Ok (t, false)
      else
        new_text ← replace_at (text t) start end_ new;
        let t := with_col None (with_text new_text t) in
        let t := with_elements (replace_payload_at idx start end_ (str_len new) (elements t)) t in
        let t := with_cursor (moved_cursor (cursor_pos t) start end_ (str_len new) (end_ - start)) t in
        let t := with_cursor (clamp_pos_to_nearest_boundary t (cursor_pos t)) t in
        Ok (with_elements (sort_by_start (elements t)) t, true)
  end.

(** ** Moving *)

Section moving.
Context `{TextWorld}.

Definition is_lf (c : char) : bool := bool_decide (c = LF).

Definition beginning_of_line (t : TextArea) (pos : nat) : outcome () nat :=
  p ← str_to (text t) pos; Ok (match rfind_char is_lf p with Some i => i + 1 | None => 0 end).
Definition end_of_line (t : TextArea) (pos : nat) : outcome () nat :=
  q ← str_from (text t) pos; Ok (match find_char is_lf q with Some i => i + pos | None => str_len (text t) end).

Definition current_display_col (t : TextArea) : outcome () nat :=
  bol ← beginning_of_line t (cursor_pos t); s ← str_slice (text t) bol (cursor_pos t); Ok (width s).

Definition prev_atomic_boundary (t : TextArea) (pos : nat) : outcome () nat :=
  if pos =? 0 then Ok 0
  else
    match first_where (fun e => (range_start e <? pos) && (pos <=? range_end e)) (elements t) with
    | Some e => Ok (range_start e)
    | None =>
        match prev_boundary (text t) pos with
        | Ok (Some b) => Ok (match find_element_containing t b with Some e => range_start e | None => b end)
        | Ok None => Ok 0
        | Err _ => Ok (pos - 1)
        | Panic => Panic
        | Timeout => Timeout
        end
    end.

Definition next_atomic_boundary (t : TextArea) (pos : nat) : outcome () nat :=
  if str_len (text t) <=? pos then Ok (str_len (text t))
  else
    match first_where (fun e => (range_start e <=? pos) && (pos <? range_end e)) (elements t) with
    | Some e => Ok (range_end e)
    | None =>
        match next_boundary (text t) pos with
        | Ok (Some b) => Ok (match find_element_containing t b with Some e => range_end e | None => b end)
        | Ok None => Ok (str_len (text t))
        | Err _ => Ok (pos + 1)
        | Panic => Panic
        | Timeout => Timeout
        end
    end.

Definition adjust_pos_out_of_elements (t : TextArea) (pos : nat) (prefer_start : bool) : nat :=
  match find_element_containing t pos with
  | Some e => if prefer_start then range_start e else range_end e
  | None => pos
  end.

(** Whether a word ends at a character. *)
Definition ends_word (is_separator : bool) (c : char) : bool := is_whitespace c || negb (Bool.eqb (is_word_separator c) is_separator).

Fixpoint word_start_loop (is_separator : bool) (l : list (nat * char)) (start : nat) : nat :=
  match l with
  | [] => start
  | (idx, c) :: l => if ends_word is_separator c then idx + len_utf8 c else word_start_loop is_separator l idx
  end.

Definition beginning_of_previous_word (t : TextArea) : outcome () nat :=
  prefix ← str_to (text t) (cursor_pos t);
  match first_where (fun p => negb (is_whitespace p.2)) (reverse (char_indices prefix)) with
  | None => Ok 0
  | Some (first_non_ws_idx, c) =>
      before ← str_to prefix first_non_ws_idx;
      let start := word_start_loop (is_word_separator c) (reverse (char_indices before)) first_non_ws_idx in
      Ok (adjust_pos_out_of_elements t start true)
  end.

Definition end_of_next_word (t : TextArea) : outcome () nat :=
  rest ← str_from (text t) (cursor_pos t);
  match find_char (fun c => negb (is_whitespace c)) rest with
  | None => Ok (str_len (text t))
  | Some first_non_ws =>
      let word_start := cursor_pos t + first_non_ws in
      word ← str_from (text t) word_start;
      match char_indices word with
      | [] => Ok word_start
      | (_, first_ch) :: iter =>
          let end_ := match first_where (fun p => ends_word (is_word_separator first_ch) p.2) iter with
                      | Some (idx, _) => word_start + idx
                      | None => str_len (text t)
                      end in
          Ok (adjust_pos_out_of_elements t end_ false)
      end
  end.

(** The position of a column: before the grapheme that reaches beyond it. *)
Fixpoint column_loop (gs : list str) (i width_so_far target_col : nat) : option nat :=
  match gs with
  | [] => None
  | g :: gs => if target_col <? width_so_far + width g then Some i else column_loop gs (i + str_len g) (width_so_far + width g) target_col
  end.

Definition move_to_display_col_on_line (line_start line_end target_col : nat) : edit := fun t =>
  line ← str_slice (text t) line_start line_end;
  let pos := match column_loop (graphemes line) 0 0 target_col with Some i => line_start + i | None => line_end end in
  Ok (with_cursor (clamp_pos_to_nearest_boundary t pos) t).

(** [partition_point] on lines in order, less one. *)
Fixpoint count_while {A} (f : A -> bool) (l : list A) : nat :=
  match l with [] => 0 | x :: l => if f x then S (count_while f l) else 0 end.
Definition wrapped_line_index_by_start (ls : list (nat * nat)) (pos : nat) : option nat :=
  match count_while (fun r => r.1 <=? pos) ls with O => None | S i => Some i end.

(** The column and the line above or below, among the wrapped lines. *)
Definition wrapped_target (up : bool) (t : TextArea) : outcome () (option (nat * option (nat * nat))) :=
  match wrap_cache t with
  | None => Ok None
  | Some cache =>
      let ls := wrap_lines cache in
      match wrapped_line_index_by_start ls (cursor_pos t) with
      | None => Ok None
      | Some idx =>
          cur_range ← index idx ls;
          target_col ← (match preferred_col t with
                        | Some c => Ok c
                        | None => s ← str_slice (text t) cur_range.1 (cursor_pos t); Ok (width s)
                        end);
          let other := if up then match idx with O => None | S i => ls !! i end else ls !! S idx in
          Ok (Some (target_col, (fun r => (r.1, r.2 - 1)) <$> other))
      end
  end.

(** The cursor at an end of the text. *)
Definition to_end (pos : nat) (t : TextArea) : TextArea := with_col None (with_cursor pos t).

Definition move_in_wrapped (target_col : nat) (line : option (nat * nat)) (end_pos : nat) : edit := fun t =>
  match line with
  | Some (line_start, line_end) =>
      let t := match preferred_col t with None => with_col (Some target_col) t | Some _ => t end in
      move_to_display_col_on_line line_start line_end target_col t
  | None => Ok (to_end end_pos t)
  end.

Definition target_column (t : TextArea) : outcome () (nat * TextArea) :=
  match preferred_col t with
  | Some c => Ok (c, t)
  | None => c ← current_display_col t; Ok (c, with_col (Some c) t)
  end.

Definition move_cursor_up : edit := fun t =>
  target ← wrapped_target true t;
  match target with
  | Some (target_col, line) => move_in_wrapped target_col line 0 t
  | None =>
      p ← str_to (text t) (cursor_pos t);
      match rfind_char is_lf p with
      | Some prev_nl =>
          '(target_col, t) ← target_column t;
          q ← str_to (text t) prev_nl;
          let prev_line_start := match rfind_char is_lf q with Some i => i + 1 | None => 0 end in
          move_to_display_col_on_line prev_line_start prev_nl target_col t
      | None => Ok (to_end 0 t)
      end
  end.

Definition move_cursor_down : edit := fun t =>
  target ← wrapped_target false t;
  match target with
  | Some (target_col, line) => move_in_wrapped target_col line (str_len (text t)) t
  | None =>
      '(target_col, t) ← target_column t;
      q ← str_from (text t) (cursor_pos t);
      match find_char is_lf q with
      | Some i =>
          let next_line_start := i + cursor_pos t + 1 in
          next_line_end ← end_of_line t next_line_start;
          move_to_display_col_on_line next_line_start next_line_end target_col t
      | None => Ok (to_end (str_len (text t)) t)
      end
  end.

Definition move_cursor_left : edit := fun t =>
  pos ← prev_atomic_boundary t (cursor_pos t); Ok (with_col None (with_cursor pos t)).
Definition move_cursor_right : edit := fun t =>
  pos ← next_atomic_boundary t (cursor_pos t); Ok (with_col None (with_cursor pos t)).

Definition move_cursor_to_beginning_of_line (move_up_at_bol : bool) : edit := fun t =>
  bol ← beginning_of_line t (cursor_pos t);
  if move_up_at_bol && (cursor_pos t =? bol) then
    pos ← beginning_of_line t (cursor_pos t - 1); Ok (with_col None (set_cursor pos t))
  else Ok (with_col None (set_cursor bol t)).

Definition move_cursor_to_end_of_line (move_down_at_eol : bool) : edit := fun t =>
  eol ← end_of_line t (cursor_pos t);
  if move_down_at_eol && (cursor_pos t =? eol) then
    pos ← end_of_line t (min (cursor_pos t + 1) (str_len (text t))); Ok (set_cursor pos t)
  else Ok (set_cursor eol t).

(** ** Deleting *)

Fixpoint repeat_back (n : nat) (t : TextArea) (target : nat) : outcome () nat :=
  match n with
  | O => Ok target
  | S n => target ← prev_atomic_boundary t target; if target =? 0 then Ok target else repeat_back n t target
  end.
Definition delete_backward (n : nat) : edit := fun t =>
  if (n =? 0) || (cursor_pos t =? 0) then Ok t
  else target ← repeat_back n t (cursor_pos t); replace_range (target, cursor_pos t) [] t.

Fixpoint repeat_forward (n : nat) (t : TextArea) (target : nat) : outcome () nat :=
  match n with
  | O => Ok target
  | S n => target ← next_atomic_boundary t target; if str_len (text t) <=? target then Ok target else repeat_forward n t target
  end.
Definition delete_forward (n : nat) : edit := fun t =>
  if (n =? 0) || (str_len (text t) <=? cursor_pos t) then Ok t
  else target ← repeat_forward n t (cursor_pos t); replace_range (cursor_pos t, target) [] t.

Definition delete_backward_word : edit := fun t =>
  start ← beginning_of_previous_word t; kill_range (start, cursor_pos t) t.
Definition delete_forward_word : edit := fun t =>
  end_ ← end_of_next_word t; if cursor_pos t <? end_ then kill_range (cursor_pos t, end_) t else Ok t.

Definition kill_to_end_of_line : edit := fun t =>
  eol ← end_of_line t (cursor_pos t);
  if cursor_pos t =? eol then
    if eol <? str_len (text t) then kill_range (cursor_pos t, eol + 1) t else Ok t
  else kill_range (cursor_pos t, eol) t.

Definition kill_to_beginning_of_line : edit := fun t =>
  bol ← beginning_of_line t (cursor_pos t);
  if cursor_pos t =? bol then
    if 0 <? bol then kill_range (bol - 1, bol) t else Ok t
  else kill_range (bol, cursor_pos t) t.


(** ** Keys *)

Inductive KeyCode : Type :=
  | Char (c : char) | Enter | Backspace | Delete | Left | Right | Up | Down | Home | End | OtherKey.

(** The bits of [KeyModifiers]. *)
Definition NONE : N := 0.
Definition SHIFT : N := 1.
Definition CONTROL : N := 2.
Definition ALT : N := 4.
Definition modifiers_contain (m flag : N) : bool := (N.land m flag =? flag)%N.

Record KeyEvent : Type := mk_key { code : KeyCode; modifiers : N }.

Definition is_altgr (m : N) : bool := cfg_windows && (modifiers_contain m ALT && modifiers_contain m CONTROL).

(** The keys that are characters, in the order of the patterns. *)
Definition input_char (c : char) (m : N) : edit := fun t =>
  let key k mods := (c =? k)%N && (m =? mods)%N in
  if key 2%N NONE then move_cursor_left t
  else if key 6%N NONE then move_cursor_right t
  else if key 16%N NONE then move_cursor_up t
  else if key 14%N NONE then move_cursor_down t
  else if ((m =? NONE) || (m =? SHIFT))%N then insert_str [c] t
  else if key (ch "j") CONTROL || key (ch "m") CONTROL then insert_str [LF] t
  else if key (ch "h") (N.lor CONTROL ALT) then delete_backward_word t
  else if is_altgr m then insert_str [c] t
  else if key (ch "h") CONTROL then delete_backward 1 t
  else if key (ch "d") CONTROL then delete_forward 1 t
  else if key (ch "w") CONTROL then delete_backward_word t
  else if key (ch "b") ALT then pos ← beginning_of_previous_word t; Ok (set_cursor pos t)
  else if key (ch "f") ALT then pos ← end_of_next_word t; Ok (set_cursor pos t)
  else if key (ch "u") CONTROL then kill_to_beginning_of_line t
  else if key (ch "k") CONTROL then kill_to_end_of_line t
  else if key (ch "y") CONTROL then yank t
  else if key (ch "b") CONTROL then move_cursor_left t
  else if key (ch "f") CONTROL then move_cursor_right t
  else if key (ch "p") CONTROL then move_cursor_up t
  else if key (ch "n") CONTROL then move_cursor_down t
  else if key (ch "a") CONTROL then move_cursor_to_beginning_of_line true t
  else if key (ch "e") CONTROL then move_cursor_to_end_of_line true t
  else Ok t.

Definition input (event : KeyEvent) : edit := fun t =>
  let m := modifiers event in
  match code event with
  | Char c => input_char c m t
  | Enter => insert_str [LF] t
  | Backspace => if (m =? ALT)%N then delete_backward_word t else delete_backward 1 t
  | Delete => if (m =? ALT)%N then delete_forward_word t else delete_forward 1 t
  | Left =>
      if (m =? NONE)%N then move_cursor_left t
      else if ((m =? ALT) || (m =? CONTROL))%N then pos ← beginning_of_previous_word t; Ok (set_cursor pos t)
      else Ok t
  | Right =>
      if (m =? NONE)%N then move_cursor_right t
      else if ((m =? ALT) || (m =? CONTROL))%N then pos ← end_of_next_word t; Ok (set_cursor pos t)
      else Ok t
  | Up => move_cursor_up t
  | Down => move_cursor_down t
  | Home => move_cursor_to_beginning_of_line false t
  | End => move_cursor_to_end_of_line false t
  | OtherKey => Ok t
  end.

(** ** Lines on the screen *)

(** tui/src/wrapping.rs: each line with the spaces after it, one byte past its end. *)
Definition spaces_after (s : str) : nat := count_while (fun c => bool_decide (c = ch " ")) s.
Fixpoint wrap_ranges_of (s : str) (l : list Cow) : outcome () (list (nat * nat)) :=
  match l with
  | [] => Ok []
  | Borrowed start end_ :: l =>
      rest ← str_from s end_;
      ls ← wrap_ranges_of s l;
      Ok ((start, end_ + spaces_after rest + 1) :: ls)
  | Owned _ :: _ => Panic
  end.
Definition wrap_ranges (s : str) (w : N) : outcome () (list (nat * nat)) := wrap_ranges_of s (textwrap_wrap s w).

(** The lines, computed when the cache has none for this width. *)
Definition wrapped_lines (w : N) (t : TextArea) : outcome () (TextArea * list (nat * nat)) :=
  let recalc := ls ← wrap_ranges (text t) w; Ok (with_cache (Some (mk_wrap_cache w ls)) t, ls) in
  match wrap_cache t with
  | Some c => if (wrap_width c =? w)%N then Ok (t, wrap_lines c) else recalc
  | None => recalc
  end.

Definition as_u16 (n : nat) : N := (N.of_nat n mod 2 ^ 16)%N.
(** Addition of [u16]s, which panics on overflow where overflow is checked. *)
Definition u16_add (a b : N) : outcome () N := if (a + b <? 2 ^ 16)%N then Ok (a + b)%N else Panic.

Definition desired_height (w : N) (t : TextArea) : outcome () (TextArea * N) :=
  '(t, ls) ← wrapped_lines w t; Ok (t, as_u16 (length ls)).

Definition effective_scroll (t : TextArea) (area_height : N) (ls : list (nat * nat)) (current_scroll : N) : outcome () N :=
  let total_lines := as_u16 (length ls) in
  if (total_lines <=? area_height)%N then Ok 0%N
  else
    let cursor_line_idx := as_u16 (default 0 (wrapped_line_index_by_start ls (cursor_pos t))) in
    let max_scroll := (total_lines - area_height)%N in
    let scroll := N.min current_scroll max_scroll in
    if (cursor_line_idx <? scroll)%N then Ok cursor_line_idx
    else
      bottom ← u16_add scroll area_height;
      if (bottom <=? cursor_line_idx)%N then
        next ← u16_add cursor_line_idx 1; if (next <? area_height)%N then Panic else Ok (next - area_height)%N
      else Ok scroll.

Record Rect : Type := mk_rect { x : N; y : N; rect_width : N; rect_height : N }.

Definition cursor_pos_with_state (area : Rect) (scroll : N) (t : TextArea) : outcome () (TextArea * option (N * N)) :=
  '(t, ls) ← wrapped_lines (rect_width area) t;
  effective ← effective_scroll t (rect_height area) ls scroll;
  match wrapped_line_index_by_start ls (cursor_pos t) with
  | None => Ok (t, None)
  | Some i =>
      line ← index i ls;
      s ← str_slice (text t) line.1 (cursor_pos t);
      let rows := (N.of_nat i - effective)%N in
      let screen_row := if (rows <? 2 ^ 16)%N then rows else 0%N in
      cx ← u16_add (x area) (as_u16 (width s));
      cy ← u16_add (y area) screen_row;
      Ok (t, Some (cx, cy))
  end.

(** What is written to the screen: where, the text, and whether it is an element. *)
Record Drawn : Type := mk_drawn { drawn_x : N; drawn_y : N; drawn_text : str; drawn_element : bool }.

Fixpoint draw_elements (s : str) (area_x row_y : N) (line_start line_end : nat) (es : list TextElement) : outcome () (list Drawn) :=
  match es with
  | [] => Ok []
  | e :: es =>
      let overlap_start := max (range_start e) line_start in
      let overlap_end := min (range_end e) line_end in
      if overlap_end <=? overlap_start then draw_elements s area_x row_y line_start line_end es
      else
        styled ← str_slice s overlap_start overlap_end;
        before ← str_slice s line_start overlap_start;
        ex ← u16_add area_x (as_u16 (width before));
        ds ← draw_elements s area_x row_y line_start line_end es;
        Ok (mk_drawn ex row_y styled true :: ds)
  end.

(** The slice of a line on the screen; its elements above it, or its mask instead. *)
Definition render_line (mask : option char) (area : Rect) (t : TextArea) (row : nat) (line : nat * nat) : outcome () (list Drawn) :=
  row_y ← u16_add (y area) (as_u16 row);
  if line.2 =? 0 then Panic
  else
    base ← str_slice (text t) line.1 (line.2 - 1);
    match mask with
    | Some c => Ok [mk_drawn (x area) row_y ((fun _ => c) <$> base) false]
    | None =>
        es ← draw_elements (text t) (x area) row_y line.1 (line.2 - 1) (elements t);
        Ok (mk_drawn (x area) row_y base false :: es)
    end.

Fixpoint render_lines (mask : option char) (area : Rect) (t : TextArea) (row : nat) (ls : list (nat * nat)) : outcome () (list Drawn) :=
  match ls with
  | [] => Ok []
  | l :: ls => d ← render_line mask area t row l; ds ← render_lines mask area t (S row) ls; Ok (d ++ ds)
  end.

(** [render_ref] with its state and [render_ref_masked]: the new scroll and the writes. *)
Definition render (mask : option char) (area : Rect) (scroll : N) (t : TextArea) : outcome () (TextArea * N * list Drawn) :=
  '(t, ls) ← wrapped_lines (rect_width area) t;
  scroll ← effective_scroll t (rect_height area) ls scroll;
  bottom ← u16_add scroll (rect_height area);
  let end_ := N.min bottom (as_u16 (length ls)) in
  ds ← render_lines mask area t 0 (take (N.to_nat (end_ - scroll)) (drop (N.to_nat scroll) ls));
  Ok (t, scroll, ds).

(** [render_ref] without a state: every line. *)
Definition render_ref (area : Rect) (t : TextArea) : outcome () (TextArea * list Drawn) :=
  '(t, ls) ← wrapped_lines (rect_width area) t; ds ← render_lines None area t 0 ls; Ok (t, ds).

End moving.
