(* ===== verification/TextAreaEdit.v ===== *)
(** * What an edit keeps

    The invariant of the text area: the elements are stretches of the text that do not
    overlap, and the cursor is between two characters.  Replacing a range that cuts no
    element keeps it, with the text of every element that is left. *)

From stdpp Require Import sorting.
From S2P Require Import Prelude RustStd ByteText TextArea.

(** ** The invariant *)

Definition elem_ok (s : str) (e : TextElement) : Prop :=
  range_start e < range_end e /\ boundary s (range_start e) /\ boundary s (range_end e).
Definition before (e f : TextElement) : Prop := range_end e <= range_start f.
Definition elements_ok (s : str) (es : list TextElement) : Prop := Forall (elem_ok s) es /\ StronglySorted before es.

Definition free (es : list TextElement) (pos : nat) : Prop := Forall (fun e => contains_pos pos e = false) es.

(** An element is outside of a range or within it. *)
Definition uncut (r : nat * nat) (e : TextElement) : Prop :=
  range_end e <= r.1 \/ r.2 <= range_start e \/ (r.1 <= range_start e /\ range_end e <= r.2).

Lemma free_spec es pos : free es pos <-> forall e, e ∈ es -> pos <= range_start e \/ range_end e <= pos.
Proof.
  unfold free. rewrite Forall_forall. unfold contains_pos.
  split; intros H e He; specialize (H e He); rewrite ?andb_false_iff, ?Nat.ltb_ge in *; lia.
Qed.

Lemma before_total s es e f : elements_ok s es -> e ∈ es -> f ∈ es -> e = f \/ before e f \/ before f e.
Proof.
  intros [_ Hs]. induction Hs as [|x l Hs IH Hx]; [by intros ?%not_elem_of_nil|]. rewrite Forall_forall in Hx.
  intros [-> | He]%elem_of_cons [-> | Hf]%elem_of_cons; auto.
Qed.

Lemma elements_ok_elem s es e : elements_ok s es -> e ∈ es -> elem_ok s e.
Proof. intros [H _] He. rewrite Forall_forall in H. by apply H. Qed.

Lemma ends_free s es e : elements_ok s es -> e ∈ es -> free es (range_start e) /\ free es (range_end e).
Proof.
  intros Hok He. destruct (elements_ok_elem s es e Hok He) as (Hlt & _). split; apply free_spec; intros f Hf;
    destruct (elements_ok_elem s es f Hok Hf) as (Hlt' & _);
    (destruct (before_total s es e f Hok He Hf) as [<- | [Hb | Hb]]; unfold before in *; lia).
Qed.

Lemma elements_ok_nil s : elements_ok s [].
Proof. split; constructor. Qed.

(** ** Clamping *)

Lemma boundary_below_ok s pos : boundary s (boundary_below s pos) /\ boundary_below s pos <= pos.
Proof.
  induction pos as [|p IH]; cbn [boundary_below]; [split; [apply boundary_0|done]|].
  destruct (is_char_boundary s (S p)) eqn:E; [apply is_char_boundary_true in E; split; [done|lia]|]. destruct IH. split; [done|lia].
Qed.

Lemma boundary_above_ok s fuel pos : pos <= str_len s -> str_len s <= pos + fuel -> boundary s (boundary_above fuel s pos).
Proof.
  revert pos. induction fuel as [|fuel IH]; intros pos Hle Hf; cbn [boundary_above].
  { replace pos with (str_len s) by lia. apply boundary_len. }
  destruct (pos <? str_len s) eqn:Elt; cbn [andb].
  - apply Nat.ltb_lt in Elt. destruct (is_char_boundary s pos) eqn:Eb; cbn [negb]; [by apply is_char_boundary_true|]. apply IH; lia.
  - apply Nat.ltb_ge in Elt. replace pos with (str_len s) by lia. apply boundary_len.
Qed.

Lemma clamp_char_boundary t pos : boundary (text t) (clamp_pos_to_char_boundary t pos).
Proof.
  unfold clamp_pos_to_char_boundary. destruct (is_char_boundary _ _) eqn:E; [by apply is_char_boundary_true|].
  destruct (_ <=? _); [apply boundary_below_ok|apply boundary_above_ok; lia].
Qed.

Lemma clamp_char_id t pos : boundary (text t) pos -> clamp_pos_to_char_boundary t pos = pos.
Proof.
  intros Hb. unfold clamp_pos_to_char_boundary. pose proof (boundary_le _ _ Hb). rewrite Nat.min_l by done.
  by rewrite (proj2 (is_char_boundary_true _ _) Hb).
Qed.

Lemma find_containing_None t pos : find_element_containing t pos = None <-> free (elements t) pos.
Proof.
  unfold find_element_containing, free. rewrite Forall_forall. split; [by apply first_where_None|].
  intros H. destruct (first_where _ _) as [e|] eqn:E; [|done]. apply first_where_Some in E as [He Hc]. by rewrite H in Hc.
Qed.

Lemma find_containing_Some t pos e : find_element_containing t pos = Some e -> e ∈ elements t /\ range_start e < pos < range_end e.
Proof.
  intros H. apply first_where_Some in H as [He Hc]. split; [done|]. unfold contains_pos in Hc.
  rewrite andb_true_iff, !Nat.ltb_lt in Hc. done.
Qed.

Lemma clamp_nearest_ok t pos : elements_ok (text t) (elements t) ->
  boundary (text t) (clamp_pos_to_nearest_boundary t pos) /\ free (elements t) (clamp_pos_to_nearest_boundary t pos).
Proof.
  intros Hok. unfold clamp_pos_to_nearest_boundary.
  destruct (find_element_containing t (clamp_pos_to_char_boundary t pos)) as [e|] eqn:E.
  - apply find_containing_Some in E as [He _]. destruct (elements_ok_elem _ _ e Hok He) as (_ & Ha & Hb).
    destruct (ends_free _ _ e Hok He). case_match; rewrite clamp_char_id by done; done.
  - split; [apply clamp_char_boundary|by apply find_containing_None].
Qed.

Lemma clamp_nearest_id t pos : boundary (text t) pos -> free (elements t) pos -> clamp_pos_to_nearest_boundary t pos = pos.
Proof.
  intros Hb Hf. unfold clamp_pos_to_nearest_boundary. rewrite clamp_char_id by done. by rewrite (proj2 (find_containing_None _ _) Hf).
Qed.

(** ** Moving the elements with the text *)

(** The text of a range on one side of what is replaced. *)
Lemma get_left p x y a b m : str_get (p ++ x) a b = Some m -> b <= str_len p -> str_get (p ++ y) a b = Some m.
Proof.
  rewrite !str_get_Some. intros (u & v & He & <- & <-) Hb.
  assert (boundary p (str_len (u ++ m))) as (p1 & p2 & Hp & Hl).
  { rewrite str_len_app. apply (boundary_inv_l p x); [|done]. rewrite He, app_assoc, <-str_len_app. apply boundary_mid. }
  assert (split_bytes (p ++ x) (str_len (u ++ m)) = Some (p1, p2 ++ x)) as H1 by (apply split_bytes_Some; by rewrite Hp, <-app_assoc).
  rewrite He, app_assoc, split_bytes_app in H1. injection H1 as <- _. exists u, (p2 ++ y). by rewrite Hp, <-!app_assoc.
Qed.

Lemma get_right p x a b m : str_get (p ++ x) a b = Some m -> str_len p <= a -> str_get x (a - str_len p) (b - str_len p) = Some m.
Proof.
  rewrite !str_get_Some. intros (u & v & He & <- & <-) Hb.
  destruct (boundary_inv_r p x (str_len u)) as (x1 & x2 & -> & Hl); [rewrite He; apply boundary_mid|done|].
  assert (split_bytes (p ++ x1 ++ x2) (str_len u) = Some (p ++ x1, x2)) as H1.
  { apply split_bytes_Some. rewrite <-app_assoc, str_len_app. split; [done|lia]. }
  rewrite He, split_bytes_app in H1. injection H1 as -> <-. exists x1, v. split; [done|]. split; [done|]. rewrite str_len_app. lia.
Qed.

Lemma get_shift p x a b m : str_get x a b = Some m -> str_get (p ++ x) (str_len p + a) (str_len p + b) = Some m.
Proof. rewrite !str_get_Some. intros (u & v & -> & <- & <-). exists (p ++ u), v. rewrite str_len_app, <-app_assoc. split; [done|lia]. Qed.

Section splice.
Context (p m q s : str).

Abbreviation old := (p ++ m ++ q).
Abbreviation new := (p ++ s ++ q).
Abbreviation range := (str_len p, str_len p + str_len m).
Abbreviation shifted := (shift_element (str_len p) (str_len m) (str_len s)).

(** An element that is left is before the range, or after it. *)
Lemma shift_left e : range_end e <= str_len p -> shifted e = e.
Proof. intros H. unfold shift_element. by rewrite (proj2 (Nat.leb_le _ _) H). Qed.
Lemma shift_right e : str_len p + str_len m <= range_start e -> range_start e < range_end e ->
  shifted e = mk_element (id e) (range_start e + str_len s - str_len m) (range_end e + str_len s - str_len m).
Proof. intros H Hlt. unfold shift_element. rewrite (proj2 (Nat.leb_gt _ _)) by lia. by rewrite (proj2 (Nat.leb_le _ _) H). Qed.

Lemma old_get_right a b y : str_get old a b = Some y -> str_len p + str_len m <= a ->
  str_get new (a + str_len s - str_len m) (b + str_len s - str_len m) = Some y.
Proof.
  intros H Ha. assert (a <= b) as Hab by (unfold str_get in H; destruct (a <=? b) eqn:E; [by apply Nat.leb_le|done]).
  rewrite app_assoc in H. apply get_right in H; [|rewrite str_len_app; lia]. rewrite str_len_app in H.
  apply (get_shift (p ++ s)) in H. rewrite <-app_assoc, str_len_app in H.
  by replace (a + str_len s - str_len m) with (str_len p + str_len s + (a - (str_len p + str_len m))) by lia;
     replace (b + str_len s - str_len m) with (str_len p + str_len s + (b - (str_len p + str_len m))) by lia.
Qed.

Lemma new_boundary_left n : boundary old n -> n <= str_len p -> boundary new n.
Proof. intros H Hn. by apply boundary_app_l, (boundary_inv_l p (m ++ q)). Qed.
Lemma new_boundary_right n : boundary old n -> str_len p + str_len m <= n -> boundary new (n + str_len s - str_len m).
Proof.
  intros H Hn. rewrite app_assoc in H. apply boundary_inv_r in H; [|rewrite str_len_app; lia].
  apply (boundary_app_r (p ++ s)) in H. rewrite <-app_assoc in H.
  rewrite !str_len_app in H. by replace (n + _ - _) with (str_len p + str_len s + (n - (str_len p + str_len m))) by lia.
Qed.

Lemma shifted_ok e : elem_ok old e -> uncut range e -> ((str_len p <=? range_start e) && (range_end e <=? str_len p + str_len m)) = false ->
  elem_ok new (shifted e) /\ id (shifted e) = id e /\
  str_get new (range_start (shifted e)) (range_end (shifted e)) = str_get old (range_start e) (range_end e).
Proof.
  intros (Hlt & Ha & Hb) Hu Hc. rewrite andb_false_iff, !Nat.leb_gt in Hc.
  destruct (str_get_cut old (range_start e) (range_end e)) as [y Hy]; [done|done|lia|]. rewrite Hy.
  destruct (decide (range_end e <= str_len p)) as [Hl|Hl].
  - rewrite shift_left by done. split; [|split; [done|by apply (get_left p (m ++ q))]].
    split; [done|]. split; apply new_boundary_left; [done|lia|done|done].
  - assert (str_len p + str_len m <= range_start e) as Hr by (destruct Hu as [?|[?|?]]; cbn in *; lia).
    rewrite shift_right by done. cbn [range_start range_end id]. split; [|split; [done|by apply old_get_right]].
    split; [cbn; lia|]. split; apply new_boundary_right; [done|lia|done|lia].
Qed.

Lemma shifted_before e f : before e f -> range_start e < range_end e -> range_start f < range_end f ->
  uncut range e -> uncut range f ->
  ((str_len p <=? range_start e) && (range_end e <=? str_len p + str_len m)) = false ->
  ((str_len p <=? range_start f) && (range_end f <=? str_len p + str_len m)) = false ->
  before (shifted e) (shifted f).
Proof.
  unfold before. rewrite !andb_false_iff, !Nat.leb_gt. intros Hef He Hf Hue Huf Hce Hcf.
  unfold uncut in *. cbn in *. unfold shift_element.
  repeat (case_match; cbn [range_start range_end]); rewrite ?Nat.leb_le, ?Nat.leb_gt in *; lia.
Qed.

Lemma shift_elements_elem es e' : e' ∈ shift_elements (str_len p) (str_len m) (str_len s) es <->
  exists e, e' = shifted e /\ e ∈ es /\ ((str_len p <=? range_start e) && (range_end e <=? str_len p + str_len m)) = false.
Proof.
  unfold shift_elements. rewrite list_elem_of_fmap. split.
  - intros (e & -> & He). apply list_elem_of_filter in He as [? ?]. by exists e.
  - intros (e & -> & ? & ?). exists e. split; [done|]. by apply list_elem_of_filter.
Qed.

Lemma shift_elements_ok es : elements_ok old es -> Forall (uncut range) es ->
  elements_ok new (shift_elements (str_len p) (str_len m) (str_len s) es).
Proof.
  intros [Hok Hs] Hu. rewrite Forall_forall in Hok, Hu. split.
  - apply Forall_forall. intros e' (e & -> & He & Hc)%shift_elements_elem. apply shifted_ok; auto.
  - unfold shift_elements. induction Hs as [|e l Hs IH Hl]; [constructor|]. rewrite filter_cons.
    assert (StronglySorted before (shifted <$> filter (fun e => ((str_len p <=? range_start e) && (range_end e <=? str_len p + str_len m)) = false) l)) as Htl
      by (apply IH; intros; [apply Hok|apply Hu]; by apply elem_of_cons; right).
    destruct (decide _) as [Hc|_]; [|done]. cbn [fmap list_fmap]. constructor; [done|].
    apply Forall_forall. intros f' (f & -> & [Hcf Hf]%list_elem_of_filter)%list_elem_of_fmap.
    assert (e ∈ e :: l /\ f ∈ e :: l) as [He Hf'] by set_solver. rewrite Forall_forall in Hl.
    apply shifted_before; auto; [apply (Hok e He)|apply (Hok f Hf')].
Qed.
End splice.

(** ** Widening a range to whole elements *)

Definition within (r r' : nat * nat) : Prop := r'.1 <= r.1 /\ r.2 <= r'.2.

#[export] Instance within_refl : Reflexive within.
Proof. by split. Qed.
#[export] Instance within_trans : Transitive within.
Proof. intros a b c [? ?] [? ?]. split; lia. Qed.

Definition touches (r : nat * nat) (e : TextElement) : bool := (range_start e <? r.2) && (r.1 <? range_end e).
Definition span (r : nat * nat) (e : TextElement) : nat * nat := (min r.1 (range_start e), max r.2 (range_end e)).

Lemma expand_pass_cons e es r : expand_pass (e :: es) r = expand_pass es (if touches r e then span r e else r).
Proof. done. Qed.

Lemma expand_step_within r e : within r (if touches r e then span r e else r).
Proof. destruct (touches r e); [|done]. unfold within, span. cbn. lia. Qed.

Lemma expand_pass_within es r : within r (expand_pass es r).
Proof.
  revert r. induction es as [|e es IH]; intros r; [done|]. rewrite expand_pass_cons.
  etrans; [apply (expand_step_within r e)|apply IH].
Qed.

Lemma expand_pass_same es r : expand_pass es r = r -> Forall (fun e => touches r e = true -> within (range_start e, range_end e) r) es.
Proof.
  intros H. induction es as [|e es IH]; [constructor|]. rewrite expand_pass_cons in H.
  pose proof (expand_step_within r e) as [H1 H2]. pose proof (expand_pass_within es (if touches r e then span r e else r)) as [H3 H4].
  rewrite H in H3, H4. assert ((if touches r e then span r e else r) = r) as Hs.
  { destruct (if touches r e then span r e else r) as [a b], r as [c d]; cbn in *. f_equal; lia. }
  rewrite Hs in H. constructor; [|by apply IH]. intros Ht. rewrite Ht in Hs. unfold span in Hs. destruct r as [c d].
  injection Hs as Hc Hd. unfold within. cbn in *. lia.
Qed.

(** The elements that reach out of a range: each pass but the last swallows one. *)
Definition reaching (r : nat * nat) (es : list TextElement) : list TextElement :=
  filter (fun e => ~ (r.1 <= range_start e /\ range_end e <= r.2)) es.

Lemma reaching_le es r r' : within r r' -> length (reaching r' es) <= length (reaching r es).
Proof.
  intros [H1 H2]. induction es as [|e es IH]; [done|]. unfold reaching in *. rewrite !filter_cons.
  repeat destruct (decide _); cbn [length]; lia.
Qed.

Lemma expand_pass_swallows es r : expand_pass es r <> r -> length (reaching (expand_pass es r) es) < length (reaching r es).
Proof.
  revert r. induction es as [|e es IH]; intros r; [done|]. rewrite expand_pass_cons. intros Hne.
  set (r1 := if touches r e then span r e else r) in *.
  pose proof (expand_pass_within es r1) as Hw. pose proof (expand_step_within r e) as Hr. fold r1 in Hr.
  pose proof (reaching_le es r1 _ Hw) as Hl. pose proof (reaching_le es r r1 Hr) as Hl'.
  unfold reaching in *. rewrite !filter_cons. destruct Hw as [Hw1 Hw2], Hr as [Hr1 Hr2].
  destruct (decide (r1 = r)) as [Heq|Hch].
  - rewrite Heq in *. specialize (IH r Hne). repeat destruct (decide _); cbn [length]; lia.
  - assert (r1 = span r e) as Hspan by (unfold r1 in *; destruct (touches r e); [done|done]).
    rewrite Hspan in *. destruct r as [a b]. unfold span in *. cbn [fst snd] in *.
    destruct (decide (~ (a <= range_start e /\ range_end e <= b))) as [_|Hin].
    + rewrite decide_False by lia. cbn [length]. lia.
    + exfalso. apply dec_stable in Hin. apply Hch. f_equal; lia.
Qed.

Lemma expand_loop_Ok fuel es r : length (reaching r es) < fuel ->
  exists r', expand_loop fuel es r = Ok r' /\ within r r' /\ expand_pass es r' = r'.
Proof.
  revert r. induction fuel as [|fuel IH]; intros r Hf; [lia|]. cbn [expand_loop]. case_bool_decide as Hd.
  { by exists r. }
  destruct (IH (expand_pass es r)) as (r' & Hr & Hw & Hs); [pose proof (expand_pass_swallows es r Hd); lia|].
  exists r'. split; [done|]. split; [|done]. etrans; [apply expand_pass_within|done].
Qed.

(** An invariant of the passes: what holds of a range and of its union with any element. *)
Lemma expand_loop_inv (P : nat * nat -> Prop) fuel es r r' :
  (forall r e, P r -> e ∈ es -> touches r e = true -> P (span r e)) -> P r -> expand_loop fuel es r = Ok r' -> P r'.
Proof.
  intros Hstep. assert (forall l r, l ⊆ es -> P r -> P (expand_pass l r)) as Hpass.
  { induction l as [|e l IH]; intros r1 Hl HP; [done|]. rewrite expand_pass_cons. apply IH; [set_solver|].
    destruct (touches r1 e) eqn:E; [apply Hstep; [done|set_solver|done]|done]. }
  revert r. induction fuel as [|fuel IH]; intros r HP H; [done|]. cbn [expand_loop] in H. case_bool_decide.
  - by injection H as <-.
  - apply (IH (expand_pass es r)); [by apply Hpass|done].
Qed.

(** The widened range is the least that has the range and cuts no element. *)
Lemma expand_range_ok t r : elements_ok (text t) (elements t) -> boundary (text t) r.1 -> boundary (text t) r.2 -> r.1 <= r.2 ->
  exists r', expand_range_to_element_boundaries t r = Ok r' /\ within r r' /\
    boundary (text t) r'.1 /\ boundary (text t) r'.2 /\ r'.1 <= r'.2 /\ Forall (uncut r') (elements t) /\
    (forall r'', within r r'' -> Forall (uncut r'') (elements t) -> within r' r'').
Proof.
  intros Hok Ha Hb Hab. unfold expand_range_to_element_boundaries.
  destruct (expand_loop_Ok (S (length (elements t))) (elements t) r) as (r' & Hr & Hw & Hs).
  { unfold reaching. pose proof (length_filter (fun e => ~ (r.1 <= range_start e /\ range_end e <= r.2)) (elements t)). lia. }
  exists r'. split; [done|]. split; [done|].
  assert ((boundary (text t) r'.1 /\ boundary (text t) r'.2)) as [Ha' Hb'].
  { apply (expand_loop_inv (fun r => boundary (text t) r.1 /\ boundary (text t) r.2) _ _ _ _) in Hr; [done| |done].
    intros r1 e [H1 H2] He _. destruct (elements_ok_elem _ _ e Hok He) as (_ & H3 & H4). unfold span. cbn.
    split; [destruct (Nat.min_dec r1.1 (range_start e)) as [-> | ->]|destruct (Nat.max_dec r1.2 (range_end e)) as [-> | ->]]; done. }
  destruct Hw as [Hw1 Hw2]. split; [done|]. split; [done|]. split; [lia|]. split.
  - apply expand_pass_same in Hs. rewrite Forall_forall in Hs. apply Forall_forall. intros e He.
    specialize (Hs e He). unfold touches in Hs. rewrite andb_true_iff, !Nat.ltb_lt in Hs. unfold uncut, within in *. cbn in Hs. lia.
  - intros r'' Hw'' Hu. rewrite Forall_forall in Hu. apply (expand_loop_inv (fun x => within x r'') _ _ _ _) in Hr; [done| |done].
    intros x e [H1 H2] He Ht. specialize (Hu e He). unfold touches in Ht. rewrite andb_true_iff, !Nat.ltb_lt in Ht.
    unfold within, span, uncut in *. cbn. lia.
Qed.

(** ** Edits *)

Section edits.
Context {world : TextWorld}.

Definition cache_ok (t : TextArea) : Prop :=
  forall c, wrap_cache t = Some c -> wrap_ranges (text t) (wrap_width c) = Ok (wrap_lines c).

Record wf (t : TextArea) : Prop := {
  wf_elements : elements_ok (text t) (elements t);
  wf_cursor : boundary (text t) (cursor_pos t);
  wf_cache : cache_ok t;
}.

(** Every element of [t'] is one of [t], with its text. *)
Definition kept (t t' : TextArea) : Prop :=
  forall e', e' ∈ elements t' -> exists e, e ∈ elements t /\ id e = id e' /\ payload t' e' = payload t e.

#[export] Instance kept_refl : Reflexive kept.
Proof. intros t e He. by exists e. Qed.
#[export] Instance kept_trans : Transitive kept.
Proof. intros a b c Hab Hbc e (e1 & He1 & Hi & Hp)%Hbc. destruct (Hab e1 He1) as (e0 & ? & ? & ?). exists e0. split; [done|]. by rewrite <-Hi, Hp. Qed.

Definition at_rest (t : TextArea) : Prop := free (elements t) (cursor_pos t).

Record steps (t t' : TextArea) : Prop := {
  steps_wf : wf t';
  steps_rest : at_rest t -> at_rest t';
  steps_kept : kept t t';
}.

Lemma steps_refl t : wf t -> steps t t.
Proof. by split. Qed.
Lemma steps_trans a b c : steps a b -> steps b c -> steps a c.
Proof. intros [_ Hr Hk] [Hw Hr' Hk']. split; [done|by intros ?%Hr%Hr'|by etrans]. Qed.

(** The range cut out of the text. *)
Definition cut (t : TextArea) (r : nat * nat) (p m q : str) : Prop :=
  text t = p ++ m ++ q /\ str_len p = r.1 /\ str_len p + str_len m = r.2.

Lemma cut_exists t r : boundary (text t) r.1 -> boundary (text t) r.2 -> r.1 <= r.2 -> exists p m q, cut t r p m q.
Proof. intros Ha Hb Hab. destruct (cut_twice _ _ _ Ha Hb Hab) as (p & m & q & ? & ? & ?). by exists p, m, q. Qed.

(** A text area whose range was replaced. *)
Record replaced (p m q s : str) (t t' : TextArea) : Prop := {
  replaced_text : text t' = p ++ s ++ q;
  replaced_elements : elements t' = shift_elements (str_len p) (str_len m) (str_len s) (elements t);
  replaced_cache : wrap_cache t' = None;
}.

Lemma replaced_kept p m q s t t' : text t = p ++ m ++ q -> elements_ok (text t) (elements t) ->
  Forall (uncut (str_len p, str_len p + str_len m)) (elements t) -> replaced p m q s t t' ->
  elements_ok (text t') (elements t') /\ kept t t'.
Proof.
  intros Ht Hok Hu [Ht' He' _]. rewrite Ht in Hok. rewrite Ht', He'. split; [by apply shift_elements_ok|].
  intros e' He. rewrite He' in He. apply shift_elements_elem in He as (e & -> & He & Hc).
  rewrite Forall_forall in Hu. destruct (shifted_ok p m q s e) as (_ & Hi & Hp); [by apply (elements_ok_elem _ (elements t))|by apply Hu|done|].
  exists e. split; [done|]. split; [done|]. unfold payload. by rewrite Ht', Ht.
Qed.

Lemma replaced_wf p m q s t t' : text t = p ++ m ++ q -> elements_ok (text t) (elements t) ->
  Forall (uncut (str_len p, str_len p + str_len m)) (elements t) -> replaced p m q s t t' ->
  boundary (text t') (cursor_pos t') -> wf t'.
Proof.
  intros Ht Hok Hu Hr Hc. split; [by eapply replaced_kept|done|]. intros c Hw. by rewrite (replaced_cache _ _ _ _ _ _ Hr) in Hw.
Qed.

(** The end of what was put in is inside no element. *)
Lemma replaced_end_free p m q s t : text t = p ++ m ++ q -> elements_ok (text t) (elements t) ->
  Forall (uncut (str_len p, str_len p + str_len m)) (elements t) ->
  free (shift_elements (str_len p) (str_len m) (str_len s) (elements t)) (str_len p + str_len s).
Proof.
  intros Ht Hok Hu. apply free_spec. intros e' (e & -> & He & Hc)%shift_elements_elem. rewrite Forall_forall in Hu.
  specialize (Hu e He). destruct (elements_ok_elem _ _ e Hok He) as (Hlt & _).
  rewrite andb_false_iff, !Nat.leb_gt in Hc. unfold uncut in Hu. cbn in Hu. unfold shift_element.
  repeat (case_match; cbn [range_start range_end]); rewrite ?Nat.leb_le, ?Nat.leb_gt in *; lia.
Qed.

Lemma moved_wf t pos col : wf t -> boundary (text t) pos -> wf (with_col col (with_cursor pos t)).
Proof. intros [He _ Hc] Hb. split; [exact He|exact Hb|exact Hc]. Qed.

Lemma moved_steps t pos col : wf t -> boundary (text t) pos -> free (elements t) pos -> steps t (with_col col (with_cursor pos t)).
Proof. intros Hw Hb Hf. split; [by apply moved_wf|intros _; exact Hf|]. intros e He. by exists e. Qed.

Lemma set_cursor_steps t pos : wf t -> steps t (set_cursor pos t) /\ at_rest (set_cursor pos t).
Proof.
  intros Hw. destruct (clamp_nearest_ok t (min pos (str_len (text t))) (wf_elements _ Hw)). split; [by apply moved_steps|done].
Qed.

Lemma raw_spec t r s : wf t -> boundary (text t) r.1 -> boundary (text t) r.2 -> r.1 <= r.2 -> Forall (uncut r) (elements t) ->
  exists p m q t', cut t r p m q /\ replace_range_raw r s t = Ok t' /\ steps t t' /\ text t' = p ++ s ++ q /\
    kill_buffer t' = kill_buffer t /\ (r.1 <= cursor_pos t <= r.2 -> cursor_pos t' = str_len p + str_len s) /\
    (t' = t \/ at_rest t').
Proof.
  intros Hw Ha Hb Hab Hu. destruct (cut_exists t r Ha Hb Hab) as (p & m & q & Ht & H1 & H2). exists p, m, q.
  pose proof (boundary_le _ _ Ha). pose proof (boundary_le _ _ Hb).
  destruct r as [a b]; cbn [fst snd] in *. subst a b. unfold replace_range_raw. cbn [fst snd].
  rewrite (proj2 (Nat.ltb_ge _ _)) by lia. rewrite !Nat.min_l by done. replace (str_len p + str_len m - str_len p) with (str_len m) by lia.
  destruct ((str_len m =? 0) && (str_len s =? 0)) eqn:E.
  { apply andb_true_iff in E as [E1%Nat.eqb_eq%str_len_nil E2%Nat.eqb_eq%str_len_nil]. subst m s.
    exists t. split; [done|]. split; [done|]. split; [by apply steps_refl|]. split; [done|]. split; [done|]. split; [cbn in *; lia|by left]. }
  rewrite Ht, replace_at_app. cbn [mbind outcome_bind].
  set (t1 := with_elements _ _).
  set (t2 := with_cursor (min (moved_cursor _ _ _ _ _) _) t1).
  assert (replaced p m q s t t2) as Hr by (by split).
  destruct (replaced_kept p m q s t t2 Ht (wf_elements _ Hw) Hu Hr) as [Hok Hk].
  destruct (clamp_nearest_ok t2 (cursor_pos t2) Hok) as [Hcb Hcf].
  eexists. split; [done|]. split; [done|]. split; [split|split; [done|split; [done|split; [|right; exact Hcf]]]].
  - eapply replaced_wf; [done|apply Hw|done|split; apply Hr|done].
  - intros _. exact Hcf.
  - exact Hk.
  - intros [Hl Hh]. assert (cursor_pos t2 = str_len p + str_len s) as Hc.
    { unfold t2, t1, moved_cursor. cbn [with_cursor cursor_pos with_elements with_col with_text text].
      rewrite (proj2 (Nat.ltb_ge _ _)), (proj2 (Nat.leb_le _ _)) by lia. rewrite !str_len_app. lia. }
    cbn [with_cursor cursor_pos]. rewrite Hc. apply clamp_nearest_id.
    + change (text t2) with (p ++ s ++ q). rewrite app_assoc, <-str_len_app. apply boundary_mid.
    + change (elements t2) with (shift_elements (str_len p) (str_len m) (str_len s) (elements t)).
      apply (replaced_end_free p m q s t Ht); [apply Hw|done].
Qed.

Lemma uncut_at es pos : free es pos -> Forall (uncut (pos, pos + 0)) es.
Proof. rewrite free_spec, Forall_forall. intros H e He. specialize (H e He). unfold uncut. cbn. lia. Qed.

Lemma inserted_cursor_free es pos n c : free es pos -> Forall (fun e => range_start e < range_end e) es -> free es c ->
  free (shift_elements pos 0 n es) (if pos <=? c then c + n else c).
Proof.
  intros Hp Hlt Hc. rewrite free_spec in *. rewrite Forall_forall in Hlt.
  intros e' He'. unfold shift_elements in He'. apply list_elem_of_fmap in He' as (e & -> & [_ He]%list_elem_of_filter).
  specialize (Hp e He). specialize (Hc e He). specialize (Hlt e He). cbn in Hlt.
  unfold shift_element. destruct (pos <=? c) eqn:E; [apply Nat.leb_le in E|apply Nat.leb_gt in E];
    repeat (case_match; cbn [range_start range_end]); rewrite ?Nat.leb_le, ?Nat.leb_gt in *; lia.
Qed.

Lemma insert_str_at_spec pos s t : wf t ->
  exists a b t', text t = a ++ b /\ str_len a = clamp_pos_for_insertion t pos /\ insert_str_at pos s t = Ok t' /\
    steps t t' /\ text t' = a ++ s ++ b /\ kill_buffer t' = kill_buffer t /\
    free (elements t) (str_len a) /\ elements t' = shift_elements (str_len a) 0 (str_len s) (elements t).
Proof.
  intros Hw. pose proof (wf_elements _ Hw) as Hok. pose proof (wf_cursor _ Hw) as Hcb.
  destruct (clamp_nearest_ok t pos Hok) as [Hb Hf]. change clamp_pos_to_nearest_boundary with clamp_pos_for_insertion in *.
  unfold insert_str_at. remember (clamp_pos_for_insertion t pos) as at_ eqn:Hat. clear Hat.
  pose proof Hb as (a & b & Ht & Ha). subst at_. exists a, b. rewrite Ht, insert_at_app. cbn [mbind outcome_bind].
  set (t1 := if _ <=? _ then _ else _).
  assert (text t = a ++ [] ++ b) as Ht0 by done. assert (elements t1 = elements t) as He1 by (unfold t1; by case_match).
  assert (text t1 = a ++ s ++ b) as Ht1 by (unfold t1; by case_match).
  assert (wrap_cache t1 = None) as Hw1 by (unfold t1; by case_match).
  assert (cursor_pos t1 = if str_len a <=? cursor_pos t then cursor_pos t + str_len s else cursor_pos t) as Hc1
    by (unfold t1; cbn [with_text cursor_pos]; by destruct (str_len a <=? cursor_pos t)).
  assert (kill_buffer t1 = kill_buffer t) as Hk1 by (unfold t1; by destruct (str_len a <=? _)).
  set (t' := with_col None _). assert (replaced a [] b s t t') as Hr by (split; [exact Ht1|cbn; by rewrite He1|exact Hw1]).
  assert (Forall (uncut (str_len a, str_len a + str_len [])) (elements t)) as Hu by (by apply uncut_at).
  exists t'. split; [done|]. split; [done|]. split; [done|]. split; [split|split; [exact Ht1|split; [exact Hk1|split; [done|apply Hr]]]].
  - apply (replaced_wf a [] b s t t'); [exact Ht0|done|done|done|]. change (cursor_pos t') with (cursor_pos t1). rewrite Hc1, (replaced_text _ _ _ _ _ _ Hr).
    rewrite Ht0 in Hcb. destruct (str_len a <=? cursor_pos t) eqn:E; [apply Nat.leb_le in E|apply Nat.leb_gt in E].
    + rewrite <-(Nat.sub_0_r (cursor_pos t + str_len s)). apply (new_boundary_right a [] b s _ Hcb). change (str_len []) with 0. lia.
    + apply (new_boundary_left a [] b s _ Hcb). lia.
  - intros Hrest. unfold at_rest. rewrite (replaced_elements _ _ _ _ _ _ Hr). change (cursor_pos t') with (cursor_pos t1). rewrite Hc1.
    apply inserted_cursor_free; [done| |done]. destruct Hok as [Hall _]. rewrite Forall_forall in Hall. apply Forall_forall. intros e He. apply (Hall e He).
  - by apply (replaced_kept a [] b s t t').
Qed.

Lemma insert_str_steps s t : wf t -> exists t', insert_str s t = Ok t' /\ steps t t'.
Proof. intros Hw. destruct (insert_str_at_spec (cursor_pos t) s t Hw) as (a & b & t' & _ & _ & ? & ? & _). by exists t'. Qed.

Lemma replace_range_steps r s t : wf t -> boundary (text t) r.1 -> boundary (text t) r.2 -> r.1 <= r.2 ->
  exists t', replace_range r s t = Ok t' /\ steps t t'.
Proof.
  intros Hw Ha Hb Hab. destruct (expand_range_ok t r (wf_elements _ Hw) Ha Hb Hab) as (r' & Hr & _ & Ha' & Hb' & Hab' & Hu & _).
  destruct (raw_spec t r' s Hw Ha' Hb' Hab' Hu) as (p & m & q & t' & _ & Ht' & ? & _). exists t'. unfold replace_range. by rewrite Hr.
Qed.

(** A kill takes a range out of the text into the buffer, or does nothing. *)
Lemma kill_range_spec r t : wf t -> boundary (text t) r.1 -> boundary (text t) r.2 -> r.1 <= r.2 ->
  exists t', kill_range r t = Ok t' /\ steps t t' /\
    (t' = t \/ exists p m q, text t = p ++ m ++ q /\ m <> [] /\ text t' = p ++ q /\ kill_buffer t' = m /\
       str_len p <= r.1 /\ r.2 <= str_len p + str_len m /\
       (r.1 <= cursor_pos t <= r.2 -> cursor_pos t' = str_len p /\ at_rest t')).
Proof.
  intros Hw Ha Hb Hab. destruct (expand_range_ok t r (wf_elements _ Hw) Ha Hb Hab) as (r' & Hr & [Hw1 Hw2] & Ha' & Hb' & Hab' & Hu & _).
  unfold kill_range. rewrite Hr. cbn [mbind outcome_bind]. destruct (r'.2 <=? r'.1) eqn:E; [exists t; split; [done|]; split; [by apply steps_refl|by left]|].
  apply Nat.leb_gt in E. destruct (cut_exists t r' Ha' Hb' Hab') as (p & m & q & Ht & H1 & H2).
  assert (str_get (text t) r'.1 r'.2 = Some m) as Hg by (apply str_get_Some; exists p, q; split; [done|split; [done|lia]]).
  unfold str_slice. rewrite Hg. cbn [or_panic mbind outcome_bind]. rewrite bool_decide_false by (intros ->; cbn in H2; lia).
  assert (wf (with_kill m t)) as Hwk by (destruct Hw; by split).
  destruct (raw_spec (with_kill m t) r' [] Hwk Ha' Hb' Hab' Hu) as (p' & m' & q' & t' & (Ht' & H1' & H2') & Hraw & Hs & Htx & Hk & Hc & Hrest').
  assert (p' = p /\ m' = m /\ q' = q) as (-> & -> & ->).
  { cbn in Ht'. rewrite Ht in Ht'. pose proof (split_bytes_app p (m ++ q)) as Hs1. rewrite Ht', H1, <-H1', split_bytes_app in Hs1.
    injection Hs1 as -> Hs1. split; [done|]. pose proof (split_bytes_app m q) as Hs2. rewrite <-Hs1 in Hs2.
    replace (str_len m) with (str_len m') in Hs2 by lia. rewrite split_bytes_app in Hs2. by injection Hs2 as -> ->. }
  exists t'. split; [done|]. split; [|right; exists p, m, q].
  { destruct Hs as [? Hrest Hkp]. split; [done|exact Hrest|exact Hkp]. }
  split; [done|]. split; [intros ->; cbn in H2; lia|]. split; [done|]. split; [done|]. split; [lia|]. split; [lia|].
  intros [Hl Hh]. assert (cursor_pos t' = str_len p) as Hcp by (rewrite Hc by (cbn; lia); cbn; lia). split; [done|].
  destruct Hrest' as [-> |]; [|done]. cbn in Htx. rewrite Ht in Htx. apply app_inv_head, (f_equal str_len) in Htx. rewrite !str_len_app in Htx. cbn in *. lia.
Qed.

End edits.
