(* ===== verification/TextAreaElements.v ===== *)
(** * The elements the program puts into the text area

    Elements made, renamed and removed by the composer of the prompt keep the invariant, and
    a text with its elements is restored from what a message carries. *)

From stdpp Require Import sorting.
From S2P Require Import Prelude RustStd ByteText TextArea TextAreaEdit.

Section interface.
Context {world : TextWorld}.

(** ** The elements of the interface *)

Lemma insert_by_start_last e l : Forall (fun f => range_start f <= range_start e) l -> insert_by_start e l = l ++ [e].
Proof. induction 1 as [|f l Hf _ IH]; cbn [insert_by_start]; [done|]. by rewrite (proj2 (Nat.leb_le _ _) Hf), IH. Qed.

Lemma sort_snoc l e : sort_by_start (l ++ [e]) = insert_by_start e (sort_by_start l).
Proof. unfold sort_by_start. by rewrite foldl_app. Qed.

Lemma sort_start_sorted s l : elements_ok s l -> sort_by_start l = l.
Proof.
  induction l as [|e l IH] using rev_ind; [done|]. intros [Hok Hs]. rewrite sort_snoc.
  apply Forall_app in Hok as [Hok He]. apply StronglySorted_app in Hs as (Hb & Hs & _).
  rewrite IH by done. apply insert_by_start_last. rewrite Forall_forall in Hok. apply Forall_forall. intros f Hf.
  specialize (Hb f e Hf ltac:(set_solver)). destruct (Hok f Hf) as (? & _). unfold before in Hb. lia.
Qed.

Definition disjoint_from (e f : TextElement) : Prop := before e f \/ before f e.

Lemma sorted_filter (P : TextElement -> Prop) `{!forall e, Decision (P e)} l : StronglySorted before l -> StronglySorted before (filter P l).
Proof.
  induction 1 as [|e l Hs IH He]; [constructor|]. rewrite filter_cons. destruct (decide (P e)); [|done]. constructor; [done|].
  rewrite Forall_forall in He. apply Forall_forall. intros f [_ Hf]%list_elem_of_filter. by apply He.
Qed.

Lemma insert_start_perm e l : insert_by_start e l ≡ₚ e :: l.
Proof. induction l as [|f l IH]; cbn [insert_by_start]; [done|]. case_match; [|done]. rewrite IH. constructor. Qed.

Lemma insert_by_start_ok s e l : elements_ok s l -> elem_ok s e -> Forall (disjoint_from e) l -> elements_ok s (insert_by_start e l).
Proof.
  intros [Hok Hs] He Hd. split; [rewrite insert_start_perm; by constructor|].
  destruct He as (Hlt & _). revert Hok Hd. induction Hs as [|f l Hs IH Hf]; intros Hok Hd; cbn [insert_by_start]; [repeat constructor|].
  apply Forall_cons in Hok as [(Hlf & _) Hok], Hd as [Hdf Hd]. rewrite Forall_forall in Hf.
  destruct (range_start f <=? range_start e) eqn:E; [apply Nat.leb_le in E|apply Nat.leb_gt in E].
  - constructor; [by apply IH|]. apply Forall_forall. intros x. rewrite insert_start_perm.
    intros [-> | Hx]%elem_of_cons; [|by apply Hf]. destruct Hdf; unfold before in *; lia.
  - constructor; [constructor; [done|by apply Forall_forall]|]. apply Forall_forall. intros x [-> | Hx]%elem_of_cons.
    + destruct Hdf; unfold before in *; lia.
    + specialize (Hf x Hx). destruct Hdf; unfold before in *; lia.
Qed.

(** A new element over a range of its own. *)
Lemma add_element_ok t a b : wf t -> a < b -> boundary (text t) a -> boundary (text t) b ->
  Forall (fun e => range_end e <= a \/ b <= range_start e) (elements t) -> wf (add_element a b t).1.
Proof.
  intros [Hok Hc Hw] Hlt Ha Hb Hd. unfold add_element. cbn. split; [|exact Hc|exact Hw]. cbn [elements text with_elements].
  rewrite sort_snoc, (sort_start_sorted (text t)) by done. apply insert_by_start_ok; [done|done|].
  rewrite Forall_forall in Hd. apply Forall_forall. intros e He. unfold disjoint_from, before. cbn. destruct (Hd e He); [right|left]; done.
Qed.

Lemma add_element_range_wf t r : wf t -> wf (add_element_range r t).1.
Proof.
  intros Hw. unfold add_element_range. pose proof (clamp_char_boundary t (min r.1 (str_len (text t)))) as Ha.
  pose proof (clamp_char_boundary t (min r.2 (str_len (text t)))) as Hb. revert Ha Hb.
  generalize (clamp_pos_to_char_boundary t (min r.1 (str_len (text t)))), (clamp_pos_to_char_boundary t (min r.2 (str_len (text t)))).
  intros a b Ha Hb. destruct (b <=? a) eqn:E; [done|]. apply Nat.leb_gt in E.
  destruct (existsb _ _); [done|]. destruct (existsb (fun e => (a <? range_end e) && _) _) eqn:Eo; [done|].
  pose proof (add_element_ok t a b Hw E Ha Hb) as Hadd. destruct (add_element a b t) as [t' i]. apply Hadd.
  apply Forall_forall. intros e He. pose proof (proj1 (existsb_false_elem _ _) Eo e He) as Hf. cbv beta in Hf.
  rewrite andb_false_iff, !Nat.ltb_ge in Hf. done.
Qed.

Lemma remove_element_range_wf t r : wf t -> wf (remove_element_range r t).1.
Proof.
  intros Hw. unfold remove_element_range. case_match; [done|]. destruct Hw as [[Hok Hs] Hc Hca]. split; [|exact Hc|exact Hca].
  cbn [fst elements text with_elements]. split; [|by apply sorted_filter].
  rewrite Forall_forall in Hok. apply Forall_forall. intros e [_ He]%list_elem_of_filter. by apply Hok.
Qed.

Lemma insert_element_wf t s : wf t -> s <> [] ->
  exists t' i, insert_element s t = Ok (t', i) /\ wf t' /\ at_rest t' /\
    exists a b, text t = a ++ b /\ text t' = a ++ s ++ b /\ mk_element i (str_len a) (str_len a + str_len s) ∈ elements t'.
Proof.
  intros Hw Hs. destruct (clamp_nearest_ok t (cursor_pos t) (wf_elements _ Hw)) as [Hcb Hcf].
  unfold insert_element. change clamp_pos_to_nearest_boundary with clamp_pos_for_insertion in *.
  destruct (insert_str_at_spec (clamp_pos_for_insertion t (cursor_pos t)) s t Hw) as (a & b & t1 & Ht & Ha & Hi & [Hw1 _ _] & Ht1 & _ & Hf & He1).
  rewrite (clamp_nearest_id t _ Hcb Hcf : clamp_pos_for_insertion t _ = _) in Ha. rewrite Hi, <-Ha. cbn [mbind outcome_bind].
  assert (0 < str_len s) as Hlen by (destruct s; [done|rewrite str_len_cons; pose proof (len_utf8_pos n); lia]).
  assert (wf (add_element (str_len a) (str_len a + str_len s) t1).1) as Hw2.
  { apply add_element_ok; [done|lia| | |].
    - rewrite Ht1. apply boundary_mid.
    - rewrite Ht1, app_assoc, <-str_len_app. apply boundary_mid.
    - rewrite He1. apply Forall_forall. intros e' (e & -> & [_ He]%list_elem_of_filter)%list_elem_of_fmap.
      rewrite free_spec in Hf. specialize (Hf e He). destruct (elements_ok_elem _ _ e (wf_elements _ Hw) He) as (Hlt & _).
      unfold shift_element. repeat (case_match; cbn [range_start range_end]); rewrite ?Nat.leb_le, ?Nat.leb_gt in *; lia. }
  unfold add_element in *. cbn [next_element_id] in *. cbn in Hw2.
  set (t2 := with_elements _ _) in *. destruct (set_cursor_steps t2 (str_len a + str_len s) Hw2) as [[Hw3 _ _] Hr].
  eexists _, _. split; [done|]. split; [done|]. split; [done|]. exists a, b. split; [done|]. split; [exact Ht1|].
  change (elements (set_cursor _ t2)) with (elements t2). unfold t2. cbn [elements with_elements].
  rewrite sort_snoc, insert_start_perm. apply elem_of_cons. by left.
Qed.

(** ** Renaming an element *)

Lemma move_element_shift a n k x : range_end x <= a \/ a + n <= range_start x ->
  (if k =? a + n - a then x else move_element a (a + n) k x) = shift_element a n k x.
Proof.
  intros Hx. unfold move_element, shift_element. replace (a + n - a) with n by lia.
  destruct x as [i s e]. cbn [range_start range_end id] in *.
  destruct (k =? n) eqn:Ek; [apply Nat.eqb_eq in Ek as -> | apply Nat.eqb_neq in Ek];
    repeat (case_match; cbn [range_start range_end id]); rewrite ?Nat.leb_le, ?Nat.leb_gt in *; try done; try (f_equal; lia); lia.
Qed.

Lemma replace_payload_split l1 e l2 a b k :
  replace_payload_at (length l1) a b k (l1 ++ e :: l2) =
  ((fun x => if k =? b - a then x else move_element a b k x) <$> l1) ++ mk_element (id e) a (a + k) ::
  ((fun x => if k =? b - a then x else move_element a b k x) <$> l2).
Proof. induction l1 as [|x l1 IH]; [done|]. cbn [length app replace_payload_at fmap list_fmap]. by rewrite IH. Qed.

Lemma sorted_middle x l1 l2 : StronglySorted before (l1 ++ l2) -> Forall (fun y => before y x) l1 -> Forall (before x) l2 ->
  StronglySorted before (l1 ++ x :: l2).
Proof.
  rewrite !StronglySorted_app. intros (Hb & H1 & H2) Hl1 Hl2. split; [|split; [done|by constructor]].
  rewrite Forall_forall in Hl1. intros y z Hy [-> | Hz]%elem_of_cons; [by apply Hl1|by apply Hb].
Qed.

(** One element takes a new text of its own; the others move with theirs. *)
Lemma renamed_elements_ok p old q new l1 e l2 :
  elements_ok (p ++ old ++ q) (l1 ++ e :: l2) -> range_start e = str_len p -> range_end e = str_len p + str_len old -> new <> [] ->
  elements_ok (p ++ new ++ q) (replace_payload_at (length l1) (range_start e) (range_end e) (str_len new) (l1 ++ e :: l2)).
Proof.
  intros [Hok Hs] Ha Hb Hnew. rewrite replace_payload_split, Ha, Hb. 
  set (f := fun x => if str_len new =? str_len p + str_len old - str_len p then x
                     else move_element (str_len p) (str_len p + str_len old) (str_len new) x).
  assert (0 < str_len new) as Hlen by (destruct new as [|c ?]; [done|rewrite str_len_cons; pose proof (len_utf8_pos c); lia]).
  apply Forall_app in Hok as [Hok1 [He Hok2]%Forall_cons]. apply StronglySorted_app in Hs as (Hb12 & Hs1 & [Hbe Hs2]%StronglySorted_cons).
  assert (forall x, x ∈ l1 -> elem_ok (p ++ old ++ q) x /\ range_end x <= str_len p) as H1.
  { intros x Hx. rewrite Forall_forall in Hok1. split; [by apply Hok1|]. rewrite <-Ha. apply (Hb12 x e Hx). set_solver. }
  assert (forall x, x ∈ l2 -> elem_ok (p ++ old ++ q) x /\ str_len p + str_len old <= range_start x) as H2.
  { intros x Hx. rewrite Forall_forall in Hok2, Hbe. split; [by apply Hok2|]. rewrite <-Hb. by apply (Hbe x). }
  assert (elements_ok (p ++ old ++ q) (l1 ++ l2)) as H12.
  { split; [by apply Forall_app|]. apply StronglySorted_app. split; [|done]. intros x y Hx Hy. apply (Hb12 x y Hx). set_solver. }
  assert (shift_elements (str_len p) (str_len old) (str_len new) (l1 ++ l2) = (f <$> l1) ++ (f <$> l2)) as Heq.
  { destruct He as (Hlt & _). rewrite Ha, Hb in Hlt. unfold shift_elements. rewrite filter_all.
    2:{ intros x Hx. rewrite andb_false_iff, !Nat.leb_gt.
        apply elem_of_app in Hx as [Hx | Hx]; [destruct (H1 x Hx) as [(? & _) ?]|destruct (H2 x Hx) as [(? & _) ?]]; lia. }
    rewrite fmap_app. f_equal; apply list_fmap_ext; intros i x Hx%list_elem_of_lookup_2; unfold f; rewrite move_element_shift; try done;
      [left; apply (H1 x Hx)|right; apply (H2 x Hx)]. }
  assert (Forall (uncut (str_len p, str_len p + str_len old)) (l1 ++ l2)) as Hu
    by (apply Forall_forall; intros x [[_ ?]%H1|[_ ?]%H2]%elem_of_app; unfold uncut; cbn; lia).
  pose proof (shift_elements_ok p old q new _ H12 Hu) as [Hok' Hs']. rewrite Heq in Hok', Hs'.
  apply Forall_app in Hok' as [Hf1 Hf2]. split.
  - apply Forall_app. split; [done|]. constructor; [|done]. split; [cbn; lia|]. cbn. split; [apply boundary_mid|].
    rewrite app_assoc, <-str_len_app. apply boundary_mid.
  - apply sorted_middle; [done| |]; apply Forall_forall; intros y (x & -> & Hx)%list_elem_of_fmap; unfold before; cbn [range_start range_end].
    + destruct (H1 x Hx) as [_ Hle]. unfold f. rewrite move_element_shift by auto. by rewrite shift_left.
    + destruct (H2 x Hx) as [(? & _) Hle]. unfold f. rewrite move_element_shift by auto. rewrite shift_right by done. cbn. lia.
Qed.


Lemma replace_element_payload_wf old new t : wf t -> new <> [] ->
  (Forall (fun e => payload t e <> Some old) (elements t) /\ replace_element_payload old new t = Ok (t, false)) \/
  exists t' p q e, replace_element_payload old new t = Ok (t', true) /\ wf t' /\ at_rest t' /\
    text t = p ++ old ++ q /\ text t' = p ++ new ++ q /\ e ∈ elements t /\ payload t e = Some old /\
    mk_element (id e) (str_len p) (str_len p + str_len new) ∈ elements t'.
Proof.
  intros Hw Hnew. unfold replace_element_payload. destruct (list_find _ (elements t)) as [[idx e]|] eqn:Ef; [right|left; split; [by apply list_find_None in Ef|done]].
  apply list_find_Some in Ef as (Hi & Hp & _). pose proof Hp as Hp0. unfold payload in Hp.
  apply str_get_Some in Hp as (p & q & Ht & Ha & Hb).
  assert (elements t = take idx (elements t) ++ e :: drop (S idx) (elements t)) as Hes by (symmetry; by apply take_drop_middle).
  assert (length (take idx (elements t)) = idx) as Hlen by (apply lookup_lt_Some in Hi; rewrite length_take; lia).
  remember (take idx (elements t)) as l1 eqn:E1. remember (drop (S idx) (elements t)) as l2 eqn:E2. clear E1 E2.
  rewrite (proj2 (Nat.ltb_ge _ _)), (proj2 (Nat.ltb_ge _ _)) by (rewrite ?Ht, ?str_len_app; lia). cbn [orb].
  assert (replace_at (text t) (range_start e) (range_end e) new = Ok (E := ()) (p ++ new ++ q)) as ->
    by (rewrite Ht, <-Hb, <-Ha; apply replace_at_app).
  cbn [mbind outcome_bind]. set (es' := replace_payload_at _ _ _ _ _).
  assert (elements_ok (p ++ new ++ q) es') as Hok.
  { unfold es'. cbn [elements with_col with_text]. rewrite Hes, <-Hlen.
    apply (renamed_elements_ok p old q); [rewrite <-Ht, <-Hes; apply Hw|done|lia|done]. }
  set (t1 := with_cursor (moved_cursor _ _ _ _ _) _). destruct (clamp_nearest_ok t1 (cursor_pos t1) Hok) as [Hcb Hcf].
  eexists _, p, q, e. split; [done|]. cbn [elements with_cursor with_elements]. change (elements t1) with es'. rewrite (sort_start_sorted _ es' Hok).
  split; [split; [exact Hok|exact Hcb|done]|]. split; [exact Hcf|]. split; [done|]. split; [done|].
  split; [by apply (list_elem_of_lookup_2 _ idx)|]. split; [done|]. unfold es'. cbn [elements with_col with_text].
  rewrite Hes, <-Hlen, replace_payload_split. rewrite <-Ha. set_solver.
Qed.

(** ** A whole text *)

Definition ranges (es : list TextElement) : list (nat * nat) := (fun e => (range_start e, range_end e)) <$> es.

Lemma same_ranges s es es' : ranges es = ranges es' -> elements_ok s es -> elements_ok s es'.
Proof.
  intros Hr [Hok Hs]. revert es' Hr. induction es as [|e es IH]; intros [|e' es'] Hr; try done.
  injection Hr as Ha Hb Hr. apply Forall_cons in Hok as [He Hok]. apply StronglySorted_cons in Hs as [Hb' Hs].
  destruct (IH Hok Hs es' Hr) as [Hok' Hs']. split; constructor; [|done|done|].
  - unfold elem_ok in *. by rewrite <-Ha, <-Hb.
  - clear -Hb' Hr Hb. rewrite Forall_forall in *. intros f' Hf'. unfold before in *. rewrite <-Hb.
    assert ((range_start f', range_end f') ∈ ranges es) as (f & Hf & Hin)%list_elem_of_fmap
      by (rewrite Hr; apply list_elem_of_fmap; by exists f').
    injection Hf as -> _. by apply Hb'.
Qed.

(** Ranges of a text as its elements. *)
Definition carried (es : list UserTextElement) : list TextElement := (fun u => mk_element 0 (byte_range u).1 (byte_range u).2) <$> es.

Lemma push_elements_carried us t : Forall (elem_ok (text t)) (carried us) ->
  text (push_elements us t) = text t /\ cursor_pos (push_elements us t) = cursor_pos t /\
  ranges (elements (push_elements us t)) = ranges (elements t ++ carried us).
Proof.
  revert t. induction us as [|u us IH]; intros t Hok; cbn [push_elements]; [by rewrite app_nil_r|].
  cbn [carried fmap list_fmap] in Hok. apply Forall_cons in Hok as [(Hlt & Ha & Hb) Hok]. cbn [range_start range_end] in *.
  pose proof (boundary_le _ _ Ha). pose proof (boundary_le _ _ Hb).
  rewrite !Nat.min_l, !clamp_char_id by done. rewrite (proj2 (Nat.leb_gt _ _)) by done. cbn [next_element_id].
  set (t1 := with_elements _ _). destruct (IH t1 Hok) as (Ht & Hc & Hr). split; [done|]. split; [done|].
  rewrite Hr. unfold ranges. change (elements t1) with (elements t ++ [mk_element (next_id t) (byte_range u).1 (byte_range u).2]).
  by rewrite !fmap_app, <-app_assoc.
Qed.

Lemma set_text_inner_wf s us t : elements_ok s (carried (default [] us)) ->
  let t' := set_text_inner s us t in
  wf t' /\ at_rest t' /\ text t' = s /\ ranges (elements t') = ranges (carried (default [] us)).
Proof.
  intros Hok. unfold set_text_inner. cbn zeta. set (t0 := with_elements [] _).
  set (t1 := match us with Some _ => _ | None => _ end).
  assert (text t1 = s /\ elements_ok s (elements t1) /\ ranges (elements t1) = ranges (carried (default [] us))) as (Ht & Hok1 & Hr).
  { destruct us as [us|]; cbn [default] in *; [|split; [done|split; [apply elements_ok_nil|done]]].
    destruct (push_elements_carried us t0 (proj1 Hok)) as (Ht & _ & Hr). change (elements t0 ++ carried us) with (carried us) in Hr.
    assert (elements_ok s (elements (push_elements us t0))) as Hok0 by (by apply (same_ranges s (carried us))).
    unfold t1. cbn [elements with_elements text]. rewrite (sort_start_sorted s) by done. done. }
  rewrite <-Ht in Hok1. destruct (clamp_nearest_ok t1 (cursor_pos t1) Hok1) as [Hcb Hcf].
  split; [split; [exact Hok1|exact Hcb|done]|]. split; [exact Hcf|]. split; [exact Ht|exact Hr].
Qed.

End interface.
