(* ===== verification/TextAreaKeys.v ===== *)
(** * The keys of the text area

    Every key leaves the text area in order, on any text: no position is off the boundary
    of a character, no loop runs out, and an element is there whole or gone. *)

From S2P Require Import Prelude RustStd ByteText TextArea TextAreaEdit TextAreaElements.

(** What the segmentation of a text and its wrapping are documented to give. *)
Class TextLaws {world : TextWorld} : Prop := {
  graphemes_whole : forall s, mjoin (graphemes s) = s;
  prev_boundary_ok : forall s pos, boundary s pos -> 0 < pos ->
    exists b, prev_boundary s pos = Ok (Some b) /\ boundary s b /\ b < pos;
  next_boundary_ok : forall s pos, boundary s pos -> pos < str_len s ->
    exists b, next_boundary s pos = Ok (Some b) /\ boundary s b /\ pos < b;
  wrap_slices : forall s w, Forall (fun l => exists a b, l = Borrowed a b /\ boundary s a /\ boundary s b /\ a <= b) (textwrap_wrap s w);
}.

Section keys.
Context {world : TextWorld} {laws : TextLaws}.

Definition runs (op : TextArea -> outcome () TextArea) (t : TextArea) : Prop := exists t', op t = Ok t' /\ steps t t'.

(** ** Lines *)

Lemma is_lf_true c : is_lf c = true -> c = LF.
Proof. unfold is_lf. by case_bool_decide. Qed.

Lemma after_lf_boundary a b : boundary (a ++ LF :: b) (str_len a + 1).
Proof. exists (a ++ [LF]), b. by rewrite <-app_assoc, str_len_app. Qed.

Lemma beginning_of_line_ok t pos : boundary (text t) pos ->
  exists b, beginning_of_line t pos = Ok b /\ boundary (text t) b /\ b <= pos /\ boundary (text t) (b - 1).
Proof.
  intros Hb. unfold beginning_of_line. destruct (str_to_cut (E := ()) _ _ Hb) as (p & q & -> & Ht & Hl). cbn [mbind outcome_bind].
  rewrite Ht. destruct (rfind_char is_lf p) as [i|] eqn:Ef; [|exists 0; split; [done|split; [apply boundary_0|split; [lia|apply boundary_0]]]].
  apply rfind_char_Some in Ef as (a & c & b & -> & <- & ->%is_lf_true). exists (str_len a + 1). split; [done|].
  split; [apply boundary_app_l, after_lf_boundary|]. split; [rewrite <-Hl, str_len_app, str_len_cons; pose proof (len_utf8_pos LF); lia|].
  rewrite Nat.add_sub, <-app_assoc. apply boundary_mid.
Qed.

Lemma end_of_line_ok t pos : boundary (text t) pos ->
  exists e, end_of_line t pos = Ok e /\ boundary (text t) e /\ pos <= e /\ (e < str_len (text t) -> boundary (text t) (e + 1)).
Proof.
  intros Hb. unfold end_of_line. destruct (str_from_cut (E := ()) _ _ Hb) as (p & q & -> & Ht & Hl). cbn [mbind outcome_bind].
  rewrite Ht. destruct (find_char is_lf q) as [i|] eqn:Ef.
  - apply find_char_Some in Ef as (a & c & b & -> & <- & ->%is_lf_true). exists (str_len a + pos). split; [done|].
    rewrite <-Hl, (Nat.add_comm (str_len a)), <-str_len_app, app_assoc. split; [apply boundary_mid|]. split; [rewrite str_len_app; lia|].
    intros _. apply after_lf_boundary.
  - exists (str_len (p ++ q)). split; [done|]. split; [apply boundary_len|]. split; [rewrite str_len_app; lia|lia].
Qed.

(** ** One step to the left and to the right *)

Lemma prev_atomic_ok t pos : wf t -> boundary (text t) pos ->
  exists b, prev_atomic_boundary t pos = Ok b /\ boundary (text t) b /\ free (elements t) b /\ b <= pos /\ (0 < pos -> b < pos).
Proof.
  intros Hw Hb. pose proof (wf_elements _ Hw) as Hok. unfold prev_atomic_boundary. destruct (pos =? 0) eqn:E0.
  { apply Nat.eqb_eq in E0 as ->. exists 0. split; [done|]. split; [done|]. split; [apply free_spec; lia|lia]. }
  apply Nat.eqb_neq in E0. destruct (first_where _ _) as [e|] eqn:Ef.
  - apply first_where_Some in Ef as [He Hc]. rewrite andb_true_iff, Nat.ltb_lt, Nat.leb_le in Hc.
    destruct (elements_ok_elem _ _ e Hok He) as (_ & Ha & _). destruct (ends_free _ _ e Hok He).
    exists (range_start e). split; [done|]. split; [done|]. split; [done|lia].
  - destruct (prev_boundary_ok _ _ Hb) as (b & -> & Hbb & Hlt); [lia|]. destruct (find_element_containing t b) as [e|] eqn:Ec.
    + apply find_containing_Some in Ec as [He Hc]. destruct (elements_ok_elem _ _ e Hok He) as (_ & Ha & _). destruct (ends_free _ _ e Hok He).
      exists (range_start e). split; [done|]. split; [done|]. split; [done|lia].
    + exists b. split; [done|]. split; [done|]. split; [by apply find_containing_None|lia].
Qed.

Lemma next_atomic_ok t pos : wf t -> boundary (text t) pos ->
  exists b, next_atomic_boundary t pos = Ok b /\ boundary (text t) b /\ free (elements t) b /\ pos <= b /\ (pos < str_len (text t) -> pos < b).
Proof.
  intros Hw Hb. pose proof (wf_elements _ Hw) as Hok. pose proof (boundary_le _ _ Hb). unfold next_atomic_boundary.
  destruct (str_len (text t) <=? pos) eqn:E0.
  { apply Nat.leb_le in E0. exists (str_len (text t)). split; [done|]. split; [apply boundary_len|]. split; [|lia].
    apply free_spec. intros e He. right. apply boundary_le. apply (elements_ok_elem _ _ e Hok He). }
  apply Nat.leb_gt in E0. destruct (first_where _ _) as [e|] eqn:Ef.
  - apply first_where_Some in Ef as [He Hc]. rewrite andb_true_iff, Nat.ltb_lt, Nat.leb_le in Hc.
    destruct (elements_ok_elem _ _ e Hok He) as (_ & _ & Ha). destruct (ends_free _ _ e Hok He).
    exists (range_end e). split; [done|]. split; [done|]. split; [done|lia].
  - destruct (next_boundary_ok _ _ Hb) as (b & -> & Hbb & Hlt); [lia|]. destruct (find_element_containing t b) as [e|] eqn:Ec.
    + apply find_containing_Some in Ec as [He Hc]. destruct (elements_ok_elem _ _ e Hok He) as (_ & _ & Ha). destruct (ends_free _ _ e Hok He).
      exists (range_end e). split; [done|]. split; [done|]. split; [done|lia].
    + exists b. split; [done|]. split; [done|]. split; [by apply find_containing_None|lia].
Qed.

Lemma move_left_runs t : wf t -> runs move_cursor_left t.
Proof.
  intros Hw. destruct (prev_atomic_ok t _ Hw (wf_cursor _ Hw)) as (b & Hp & Hb & Hf & _). unfold runs, move_cursor_left. rewrite Hp.
  eexists. split; [done|]. by apply moved_steps.
Qed.
Lemma move_right_runs t : wf t -> runs move_cursor_right t.
Proof.
  intros Hw. destruct (next_atomic_ok t _ Hw (wf_cursor _ Hw)) as (b & Hp & Hb & Hf & _). unfold runs, move_cursor_right. rewrite Hp.
  eexists. split; [done|]. by apply moved_steps.
Qed.

Lemma repeat_back_ok n t pos : wf t -> boundary (text t) pos ->
  exists b, repeat_back n t pos = Ok b /\ boundary (text t) b /\ b <= pos.
Proof.
  intros Hw. revert pos. induction n as [|n IH]; intros pos Hb; cbn [repeat_back]; [by exists pos|].
  destruct (prev_atomic_ok t pos Hw Hb) as (b & -> & Hbb & _ & Hle & _). cbn [mbind outcome_bind].
  destruct (b =? 0); [by exists b|]. destruct (IH b Hbb) as (c & -> & Hc & Hcb). exists c. split; [done|]. split; [done|lia].
Qed.
Lemma repeat_forward_ok n t pos : wf t -> boundary (text t) pos ->
  exists b, repeat_forward n t pos = Ok b /\ boundary (text t) b /\ pos <= b.
Proof.
  intros Hw. revert pos. induction n as [|n IH]; intros pos Hb; cbn [repeat_forward]; [by exists pos|].
  destruct (next_atomic_ok t pos Hw Hb) as (b & -> & Hbb & _ & Hle & _). cbn [mbind outcome_bind].
  destruct (_ <=? b); [by exists b|]. destruct (IH b Hbb) as (c & -> & Hc & Hcb). exists c. split; [done|]. split; [done|lia].
Qed.

Lemma delete_backward_runs n t : wf t -> runs (delete_backward n) t.
Proof.
  intros Hw. unfold runs, delete_backward. case_match; [exists t; split; [done|by apply steps_refl]|].
  destruct (repeat_back_ok n t _ Hw (wf_cursor _ Hw)) as (b & -> & Hb & Hle). cbn [mbind outcome_bind].
  by apply (replace_range_steps (b, cursor_pos t) []); [|apply Hb|apply Hw|].
Qed.
Lemma delete_forward_runs n t : wf t -> runs (delete_forward n) t.
Proof.
  intros Hw. unfold runs, delete_forward. case_match; [exists t; split; [done|by apply steps_refl]|].
  destruct (repeat_forward_ok n t _ Hw (wf_cursor _ Hw)) as (b & -> & Hb & Hle). cbn [mbind outcome_bind].
  by apply (replace_range_steps (cursor_pos t, b) []); [|apply Hw|apply Hb|].
Qed.

(** ** Words *)

Lemma word_start_ok is_sep s n l start :
  (forall i c, (i, c) ∈ l -> boundary s i /\ boundary s (i + len_utf8 c) /\ i + len_utf8 c <= n) -> boundary s start -> start <= n ->
  boundary s (word_start_loop is_sep l start) /\ word_start_loop is_sep l start <= n.
Proof.
  revert start. induction l as [|[i c] l IH]; intros start Hl Hb Hle; cbn [word_start_loop]; [done|].
  destruct (Hl i c) as (Hi & Hic & Hn); [by apply elem_of_cons; left|]. destruct (ends_word is_sep c); [done|].
  apply IH; [|done|lia]. intros j d Hd. apply Hl. by apply elem_of_cons; right.
Qed.

Lemma adjust_ok t pos start : wf t -> boundary (text t) pos ->
  boundary (text t) (adjust_pos_out_of_elements t pos start) /\
  (if start then adjust_pos_out_of_elements t pos start <= pos else pos <= adjust_pos_out_of_elements t pos start).
Proof.
  intros Hw Hb. unfold adjust_pos_out_of_elements. destruct (find_element_containing t pos) as [e|] eqn:Ec; [|by destruct start].
  apply find_containing_Some in Ec as [He Hc]. destruct (elements_ok_elem _ _ e (wf_elements _ Hw) He) as (_ & Ha & Hz).
  destruct start; split; try done; lia.
Qed.

Lemma previous_word_ok t : wf t ->
  exists b, beginning_of_previous_word t = Ok b /\ boundary (text t) b /\ b <= cursor_pos t.
Proof.
  intros Hw. unfold beginning_of_previous_word. destruct (str_to_cut (E := ()) _ _ (wf_cursor _ Hw)) as (p & q & -> & Ht & Hl). cbn [mbind outcome_bind].
  destruct (first_where _ (reverse (char_indices p))) as [[i c]|] eqn:Ef; [|exists 0; split; [done|split; [apply boundary_0|lia]]].
  apply first_where_Some in Ef as [Hin _]. rewrite elem_of_reverse in Hin. apply char_indices_elem in Hin as (a & b & -> & ->).
  assert (str_to (E := ()) (a ++ c :: b) (str_len a) = Ok a) as -> by (unfold str_to; by rewrite split_bytes_app). cbn [mbind outcome_bind].
  assert (forall n, boundary a n -> boundary (text t) n) as Hup by (intros n Hn; rewrite Ht, <-app_assoc; by apply boundary_app_l).
  destruct (word_start_ok (is_word_separator c) (text t) (str_len a) (reverse (char_indices a)) (str_len a)) as [Hb Hle].
  - intros i d Hd. rewrite elem_of_reverse in Hd. destruct (char_indices_boundary _ _ _ Hd) as [H1 H2].
    split; [by apply Hup|]. split; [by apply Hup|]. by apply boundary_le.
  - apply Hup, boundary_len.
  - done.
  - destruct (adjust_ok t (word_start_loop (is_word_separator c) (reverse (char_indices a)) (str_len a)) true Hw Hb) as [Hb' Hle'].
    eexists. split; [done|]. split; [done|]. rewrite str_len_app in Hl. lia.
Qed.

Lemma next_word_ok t : wf t -> exists e, end_of_next_word t = Ok e /\ boundary (text t) e.
Proof.
  intros Hw. unfold end_of_next_word. destruct (str_from_cut (E := ()) _ _ (wf_cursor _ Hw)) as (p & q & -> & Ht & Hl). cbn [mbind outcome_bind].
  destruct (find_char _ q) as [i|] eqn:Ef; [|exists (str_len (text t)); split; [done|apply boundary_len]].
  apply find_char_Some in Ef as (a & c & b & -> & <- & _). rewrite app_assoc in Ht.
  assert (cursor_pos t + str_len a = str_len (p ++ a)) as -> by (rewrite str_len_app; lia).
  assert (str_from (E := ()) (text t) (str_len (p ++ a)) = Ok (c :: b)) as -> by (unfold str_from; by rewrite Ht, split_bytes_app).
  cbn [mbind outcome_bind]. change (char_indices (c :: b)) with ((0, c) :: char_indices_from (0 + len_utf8 c) b). cbv beta iota.
  set (e := match first_where _ _ with Some _ => _ | None => _ end).
  assert (boundary (text t) e) as He.
  { unfold e. destruct (first_where _ _) as [[j d]|] eqn:Ej; [|apply boundary_len]. apply first_where_Some in Ej as [Hin _].
    rewrite Ht. apply boundary_app_r, (char_indices_boundary (c :: b) j d). apply elem_of_cons. by right. }
  destruct (adjust_ok t e false Hw He). eexists. split; [done|]. done.
Qed.

Lemma kill_runs r t : wf t -> boundary (text t) r.1 -> boundary (text t) r.2 -> r.1 <= r.2 -> runs (kill_range r) t.
Proof. intros Hw Ha Hb Hle. destruct (kill_range_spec r t Hw Ha Hb Hle) as (t' & ? & ? & _). by exists t'. Qed.

(** The range each kill takes: it has the cursor at one end. *)
Definition kills (op : edit) (t : TextArea) : Prop :=
  op t = Ok t \/ exists r, op t = kill_range r t /\ boundary (text t) r.1 /\ boundary (text t) r.2 /\ r.1 <= cursor_pos t <= r.2.

Lemma backward_word_kills t : wf t -> kills delete_backward_word t.
Proof.
  intros Hw. right. unfold delete_backward_word. destruct (previous_word_ok t Hw) as (b & -> & Hb & Hle).
  exists (b, cursor_pos t). split; [done|]. split; [done|]. split; [apply Hw|cbn; lia].
Qed.
Lemma forward_word_kills t : wf t -> kills delete_forward_word t.
Proof.
  intros Hw. unfold kills, delete_forward_word. destruct (next_word_ok t Hw) as (e & -> & He). cbn [mbind outcome_bind].
  destruct (cursor_pos t <? e) eqn:E; [right; apply Nat.ltb_lt in E|by left].
  exists (cursor_pos t, e). split; [done|]. split; [apply Hw|]. split; [done|cbn; lia].
Qed.
Lemma end_of_line_kills t : wf t -> kills kill_to_end_of_line t.
Proof.
  intros Hw. unfold kills, kill_to_end_of_line. destruct (end_of_line_ok t _ (wf_cursor _ Hw)) as (e & -> & He & Hle & Hnext). cbn [mbind outcome_bind].
  destruct (cursor_pos t =? e) eqn:E; [apply Nat.eqb_eq in E|].
  - destruct (e <? str_len (text t)) eqn:El; [right; apply Nat.ltb_lt in El|by left].
    exists (cursor_pos t, e + 1). split; [done|]. split; [apply Hw|]. split; [by apply Hnext|cbn; lia].
  - right. exists (cursor_pos t, e). split; [done|]. split; [apply Hw|]. split; [done|cbn; lia].
Qed.
Lemma beginning_of_line_kills t : wf t -> kills kill_to_beginning_of_line t.
Proof.
  intros Hw. unfold kills, kill_to_beginning_of_line.
  destruct (beginning_of_line_ok t _ (wf_cursor _ Hw)) as (b & -> & Hb & Hle & Hprev). cbn [mbind outcome_bind].
  destruct (cursor_pos t =? b) eqn:E; [apply Nat.eqb_eq in E|].
  - destruct (0 <? b) eqn:El; [right|by left]. exists (b - 1, b). split; [done|]. split; [done|]. split; [done|cbn; lia].
  - right. exists (b, cursor_pos t). split; [done|]. split; [done|]. split; [apply Hw|cbn; lia].
Qed.

Lemma kills_runs op t : wf t -> kills op t -> runs op t.
Proof.
  intros Hw [Hop | (r & Hop & Ha & Hb & Hc)]; [exists t; split; [done|by apply steps_refl]|].
  unfold runs. rewrite Hop. apply kill_runs; [done|done|done|lia].
Qed.

(** ** Lines on the screen *)

(** A line starts and ends between characters, one byte before the end of its range. *)
Definition line_good (s : str) (r : nat * nat) : Prop := boundary s r.1 /\ boundary s (r.2 - 1) /\ r.1 < r.2.

Lemma spaces_boundary a b : boundary (a ++ b) (str_len a + spaces_after b).
Proof.
  revert a. induction b as [|c b IH]; intros a; cbn; [rewrite Nat.add_0_r; apply boundary_mid|].
  case_bool_decide as Hc; [subst c|rewrite Nat.add_0_r; apply boundary_mid].
  specialize (IH (a ++ [ch " "])). rewrite str_len_app, <-app_assoc in IH. cbn in IH.
  by rewrite <-Nat.add_assoc in IH.
Qed.

Lemma wrap_ranges_ok s w : exists ls, wrap_ranges s w = Ok ls /\ Forall (line_good s) ls.
Proof.
  unfold wrap_ranges. induction (wrap_slices s w) as [|x l (a & b & -> & Ha & Hb & Hle) _ (ls & Hls & Hg)]; cbn [wrap_ranges_of]; [by exists []|].
  destruct (str_from_cut (E := ()) _ _ Hb) as (p & q & -> & Hs & Hl). cbn [mbind outcome_bind]. rewrite Hls. cbn [mbind outcome_bind].
  eexists. split; [done|]. constructor; [|done]. unfold line_good. cbn [fst snd]. rewrite Nat.add_sub.
  split; [done|]. split; [rewrite Hs, <-Hl; apply spaces_boundary|lia].
Qed.

Lemma cached_lines_good t c : wf t -> wrap_cache t = Some c -> Forall (line_good (text t)) (wrap_lines c).
Proof.
  intros Hw Hc. pose proof (wf_cache _ Hw c Hc) as Hr. destruct (wrap_ranges_ok (text t) (wrap_width c)) as (ls & Hls & Hg).
  rewrite Hr in Hls. by injection Hls as ->.
Qed.

Lemma wrapped_lines_ok w t : wf t ->
  exists t' ls, wrapped_lines w t = Ok (t', ls) /\ steps t t' /\ text t' = text t /\ elements t' = elements t /\ cursor_pos t' = cursor_pos t /\
    wrap_ranges (text t) w = Ok ls /\ Forall (line_good (text t)) ls.
Proof.
  intros Hw. unfold wrapped_lines. destruct (wrap_ranges_ok (text t) w) as (ls & Hls & Hg). rewrite Hls. cbn [mbind outcome_bind].
  assert (steps t (with_cache (Some (mk_wrap_cache w ls)) t)) as Hst.
  { split; [destruct Hw; split; [done|done|]; intros c [= <-]; exact Hls|done|]. intros e He. by exists e. }
  destruct (wrap_cache t) as [c|] eqn:Ec; [|by eexists _, ls].
  destruct (wrap_width c =? w)%N eqn:Ew; [apply N.eqb_eq in Ew; subst w|by eexists _, ls].
  pose proof (wf_cache _ Hw c Ec) as Hc. rewrite Hls in Hc. injection Hc as ->. exists t, (wrap_lines c).
  split; [done|]. split; [by apply steps_refl|done].
Qed.

Lemma count_while_lookup {A} (f : A -> bool) l i : count_while f l = S i -> exists x, l !! i = Some x /\ f x = true.
Proof.
  revert i. induction l as [|x l IH]; intros i; cbn [count_while]; [done|]. destruct (f x) eqn:E; [|done]. intros [= Hc].
  destruct i as [|i]; [by exists x|]. destruct (IH i Hc) as (y & ? & ?). by exists y.
Qed.

Lemma line_index_lookup ls pos i : wrapped_line_index_by_start ls pos = Some i -> exists r, ls !! i = Some r /\ r.1 <= pos.
Proof.
  unfold wrapped_line_index_by_start. destruct (count_while _ ls) as [|j] eqn:E; [done|]. intros [= ->].
  apply count_while_lookup in E as (r & ? & ?%Nat.leb_le). by exists r.
Qed.

Lemma index_lookup {A} i (l : list A) a : l !! i = Some a -> index (E := ()) i l = Ok a.
Proof. unfold index. by intros ->. Qed.

Lemma slice_ok s a b : boundary s a -> boundary s b -> a <= b -> exists m, str_slice (E := ()) s a b = Ok m.
Proof. intros Ha Hb Hle. destruct (str_get_cut s a b Ha Hb Hle) as [m Hm]. exists m. unfold str_slice. by rewrite Hm. Qed.

(** Where a move up or down can go: an end of the text, or a line. *)
Definition line_ok (t : TextArea) (line : nat * nat) : Prop := boundary (text t) line.1 /\ boundary (text t) line.2 /\ line.1 <= line.2.

Lemma wrapped_target_ok up t : wf t ->
  exists o, wrapped_target up t = Ok o /\ forall c line, o = Some (c, Some line) -> line_ok t line.
Proof.
  intros Hw. unfold wrapped_target. destruct (wrap_cache t) as [c|] eqn:Ec; [|by exists None].
  pose proof (cached_lines_good t c Hw Ec) as Hg. rewrite Forall_forall in Hg.
  destruct (wrapped_line_index_by_start (wrap_lines c) (cursor_pos t)) as [idx|] eqn:Ei; [|by exists None].
  apply line_index_lookup in Ei as (r & Hr & Hle). rewrite (index_lookup _ _ _ Hr). cbn [mbind outcome_bind].
  destruct (Hg r (list_elem_of_lookup_2 _ _ _ Hr)) as (H1 & _ & _).
  destruct (slice_ok (text t) r.1 (cursor_pos t) H1 (wf_cursor _ Hw) Hle) as [m Hm].
  set (other := if up then _ else _).
  assert (forall (col : nat) (line : nat * nat), Some (col, (fun r : nat * nat => (r.1, r.2 - 1)) <$> other) = Some (col, Some line) -> line_ok t line) as Hother.
  { intros col line [= Hline]. apply fmap_Some in Hline as (r' & Ho & ->).
    assert (r' ∈ wrap_lines c) as Hin by (unfold other in Ho; destruct up; [destruct idx; [done|]|]; by eapply list_elem_of_lookup_2).
    destruct (Hg r' Hin) as (? & ? & ?). split; [done|]. split; [done|cbn; lia]. }
  destruct (preferred_col t) as [col|]; cbn [mbind outcome_bind]; [|rewrite Hm; cbn [mbind outcome_bind]];
    (eexists; split; [done|]); intros c' line Hl; apply (Hother c' line); injection Hl as _ Hl; by rewrite Hl.
Qed.

Lemma display_col_runs t0 t line c : steps t0 t -> line_ok t line ->
  exists t', move_to_display_col_on_line line.1 line.2 c t = Ok t' /\ steps t0 t'.
Proof.
  intros Hs (Ha & Hb & Hle). pose proof (steps_wf _ _ Hs) as Hw. unfold move_to_display_col_on_line. destruct (slice_ok _ _ _ Ha Hb Hle) as [m ->]. cbn [mbind outcome_bind].
  eexists. split; [done|]. match goal with |- steps _ (with_cursor (clamp_pos_to_nearest_boundary t ?pos) t) => destruct (clamp_nearest_ok t pos (wf_elements _ Hw)) as [Hcb Hcf] end.
  eapply steps_trans; [exact Hs|]. split; [destruct Hw; by split|intros _; exact Hcf|]. intros e He. by exists e.
Qed.

Lemma with_col_steps c t : wf t -> steps t (with_col c t).
Proof. intros Hw. split; [destruct Hw; by split|done|]. intros e He. by exists e. Qed.

Lemma to_end_steps pos t : wf t -> pos = 0 \/ pos = str_len (text t) -> steps t (to_end pos t).
Proof.
  intros Hw Hpos. apply moved_steps; [done|destruct Hpos as [-> | ->]; [apply boundary_0|apply boundary_len]|].
  apply free_spec. intros e He. destruct (elements_ok_elem _ _ e (wf_elements _ Hw) He) as (_ & _ & Hb).
  pose proof (boundary_le _ _ Hb). destruct Hpos as [-> | ->]; [left; lia|by right].
Qed.

Lemma move_in_wrapped_runs c line pos t : wf t -> pos = 0 \/ pos = str_len (text t) -> (forall l, line = Some l -> line_ok t l) ->
  runs (move_in_wrapped c line pos) t.
Proof.
  intros Hw Hpos Hl. unfold runs, move_in_wrapped. destruct line as [[a b]|].
  - specialize (Hl _ eq_refl). destruct (preferred_col t); [by apply (display_col_runs t t (a, b)); [apply steps_refl|]|].
    apply (display_col_runs t (with_col (Some c) t) (a, b)); [by apply with_col_steps|done].
  - eexists. split; [done|]. by apply to_end_steps.
Qed.

Lemma target_column_ok t : wf t -> exists c t', target_column t = Ok (c, t') /\ steps t t' /\ text t' = text t /\ cursor_pos t' = cursor_pos t.
Proof.
  intros Hw. unfold target_column. destruct (preferred_col t) as [c|]; [exists c, t; split; [done|split; [by apply steps_refl|done]]|].
  unfold current_display_col. destruct (beginning_of_line_ok t _ (wf_cursor _ Hw)) as (b & -> & Hb & Hle & _). cbn [mbind outcome_bind].
  destruct (slice_ok _ _ _ Hb (wf_cursor _ Hw) Hle) as [m ->]. cbn [mbind outcome_bind].
  eexists _, _. split; [done|]. split; [by apply with_col_steps|done].
Qed.

Lemma move_up_runs t : wf t -> runs move_cursor_up t.
Proof.
  intros Hw. unfold runs, move_cursor_up. destruct (wrapped_target_ok true t Hw) as (o & -> & Ho). cbn [mbind outcome_bind].
  destruct o as [[c line]|]; [apply move_in_wrapped_runs; [done|by left|intros l ->; by apply (Ho c)]|].
  destruct (str_to_cut (E := ()) _ _ (wf_cursor _ Hw)) as (p & q & -> & Ht & Hl). cbn [mbind outcome_bind].
  destruct (rfind_char is_lf p) as [i|] eqn:Ef; [|eexists; split; [done|apply to_end_steps; [done|by left]]].
  apply rfind_char_Some in Ef as (a & d & b & -> & <- & _).
  destruct (target_column_ok t Hw) as (c & t' & -> & Hs & Ht' & _). cbn [mbind outcome_bind].
  assert (boundary (text t') (str_len a)) as Hb by (rewrite Ht', Ht, <-app_assoc; apply boundary_mid).
  destruct (beginning_of_line_ok t' _ Hb) as (e & He & Heb & Hele & _). unfold beginning_of_line in He.
  destruct (str_to (text t') (str_len a)) as [x| | |]; try done. cbn [mbind outcome_bind] in *. injection He as He. rewrite He.
  by apply (display_col_runs t t' (e, str_len a) c Hs).
Qed.

Lemma move_down_runs t : wf t -> runs move_cursor_down t.
Proof.
  intros Hw. unfold runs, move_cursor_down. destruct (wrapped_target_ok false t Hw) as (o & -> & Ho). cbn [mbind outcome_bind].
  destruct o as [[c line]|]; [apply move_in_wrapped_runs; [done|by right|intros l ->; by apply (Ho c)]|].
  destruct (target_column_ok t Hw) as (c & t' & -> & Hs & Ht' & Hc'). cbn [mbind outcome_bind]. pose proof (steps_wf _ _ Hs) as Hw'.
  destruct (str_from_cut (E := ()) _ _ (wf_cursor _ Hw')) as (p & q & -> & Ht & Hl). cbn [mbind outcome_bind].
  destruct (find_char is_lf q) as [i|] eqn:Ef.
  2:{ eexists. split; [done|]. eapply steps_trans; [exact Hs|]. apply to_end_steps; [done|by right]. }
  apply find_char_Some in Ef as (a & d & b & -> & <- & ->%is_lf_true). rewrite app_assoc in Ht.
  assert (boundary (text t') (str_len a + cursor_pos t' + 1)) as Hb.
  { rewrite <-Hl, (Nat.add_comm (str_len a)), <-str_len_app, Ht. apply after_lf_boundary. }
  destruct (end_of_line_ok t' _ Hb) as (e & -> & Heb & Hele & _). cbn [mbind outcome_bind].
  by apply (display_col_runs t t' (_, e) c Hs).
Qed.

Lemma to_beginning_of_line_runs up t : wf t -> runs (move_cursor_to_beginning_of_line up) t.
Proof.
  intros Hw. unfold runs, move_cursor_to_beginning_of_line.
  destruct (beginning_of_line_ok t _ (wf_cursor _ Hw)) as (b & -> & Hb & Hle & Hprev). cbn [mbind outcome_bind].
  destruct (up && (cursor_pos t =? b)) eqn:E.
  - apply andb_true_iff in E as [_ E%Nat.eqb_eq]. rewrite E. destruct (beginning_of_line_ok t _ Hprev) as (c & -> & _). cbn [mbind outcome_bind].
    eexists. split; [done|]. destruct (set_cursor_steps t c Hw) as [Hs _]. eapply steps_trans; [exact Hs|]. apply with_col_steps, Hs.
  - eexists. split; [done|]. destruct (set_cursor_steps t b Hw) as [Hs _]. eapply steps_trans; [exact Hs|]. apply with_col_steps, Hs.
Qed.

Lemma to_end_of_line_runs down t : wf t -> runs (move_cursor_to_end_of_line down) t.
Proof.
  intros Hw. unfold runs, move_cursor_to_end_of_line.
  destruct (end_of_line_ok t _ (wf_cursor _ Hw)) as (e & -> & He & Hle & Hnext). cbn [mbind outcome_bind].
  destruct (down && (cursor_pos t =? e)) eqn:E.
  - apply andb_true_iff in E as [_ E%Nat.eqb_eq].
    assert (boundary (text t) (min (cursor_pos t + 1) (str_len (text t)))) as Hb.
    { rewrite E. pose proof (boundary_le _ _ He). destruct (decide (e < str_len (text t))) as [Hlt|Hge].
      - rewrite Nat.min_l by lia. by apply Hnext.
      - rewrite Nat.min_r by lia. apply boundary_len. }
    destruct (end_of_line_ok t _ Hb) as (c & -> & _). cbn [mbind outcome_bind]. eexists. split; [done|]. by apply set_cursor_steps.
  - eexists. split; [done|]. by apply set_cursor_steps.
Qed.

Lemma yank_runs t : wf t -> runs yank t.
Proof.
  intros Hw. unfold runs, yank. case_bool_decide; [exists t; split; [done|by apply steps_refl]|]. by apply insert_str_steps.
Qed.

Lemma previous_word_runs t : wf t -> runs (fun t => pos ← beginning_of_previous_word t; Ok (set_cursor pos t)) t.
Proof.
  intros Hw. unfold runs. destruct (previous_word_ok t Hw) as (b & -> & _). eexists. split; [done|]. by apply set_cursor_steps.
Qed.
Lemma next_word_runs t : wf t -> runs (fun t => pos ← end_of_next_word t; Ok (set_cursor pos t)) t.
Proof.
  intros Hw. unfold runs. destruct (next_word_ok t Hw) as (b & -> & _). eexists. split; [done|]. by apply set_cursor_steps.
Qed.
Lemma same_runs t : wf t -> runs Ok t.
Proof. intros Hw. exists t. split; [done|by apply steps_refl]. Qed.

Lemma insert_str_runs s t : wf t -> runs (insert_str s) t.
Proof. apply insert_str_steps. Qed.

Create HintDb keys.
#[local] Hint Resolve move_left_runs move_right_runs move_up_runs move_down_runs to_beginning_of_line_runs to_end_of_line_runs
  delete_backward_runs delete_forward_runs yank_runs previous_word_runs next_word_runs insert_str_runs same_runs
  kills_runs backward_word_kills forward_word_kills end_of_line_kills beginning_of_line_kills : keys.

Ltac branches :=
  repeat match goal with |- exists _, (if ?b then _ else _) = _ /\ _ => destruct b end;
  first [apply previous_word_runs; assumption | apply next_word_runs; assumption |
         match goal with |- exists _, ?op ?t = _ /\ _ => change (runs op t) end; eauto with keys].

Lemma char_runs c m t : wf t -> runs (input_char c m) t.
Proof.
  intros Hw. unfold input_char. red. cbv beta zeta. branches.
Qed.

Lemma input_runs k t : wf t -> runs (input k) t.
Proof.
  intros Hw. unfold input. red. cbv beta zeta. destruct (code k); [by apply char_runs|..]; branches.
Qed.

End keys.
