(* ===== verification/TextAreaContract.v ===== *)
(** * What the text area promises

    Whatever is typed and whatever the composer does, the text area stays in order; an edit
    changes what it names and no more; what was cut can be put back; and the cursor is
    among the lines shown. *)

From S2P Require Import Prelude RustStd ByteText TextArea TextAreaEdit TextAreaElements TextAreaKeys.

(** ** Commands *)

(** What is asked of a text area: keys, the calls of the composer, and its lines for a screen. *)
Inductive command : Type :=
  | Key (k : KeyEvent)
  | InsertStrAt (pos : nat) (s : str)
  | ReplaceRange (r : nat * nat) (s : str)
  | SetCursor (pos : nat)
  | InsertElement (s : str)
  | AddElementRange (r : nat * nat)
  | RemoveElementRange (r : nat * nat)
  | ReplaceElementPayload (old new : str)
  | SetTextClearingElements (s : str)
  | SetTextWithElements (s : str) (es : list UserTextElement)
  | WrappedLines (w : N).

Section contract.
Context {world : TextWorld} {laws : TextLaws}.

Definition run (c : command) (t : TextArea) : outcome () TextArea :=
  match c with
  | Key k => input k t
  | InsertStrAt pos s => insert_str_at pos s t
  | ReplaceRange r s => replace_range r s t
  | SetCursor pos => Ok (set_cursor pos t)
  | InsertElement s => '(t, _) ← insert_element s t; Ok t
  | AddElementRange r => Ok (add_element_range r t).1
  | RemoveElementRange r => Ok (remove_element_range r t).1
  | ReplaceElementPayload old new => '(t, _) ← replace_element_payload old new t; Ok t
  | SetTextClearingElements s => Ok (set_text_clearing_elements s t)
  | SetTextWithElements s es => Ok (set_text_with_elements s es t)
  | WrappedLines w => '(t, _) ← wrapped_lines w t; Ok t
  end.

(** What the caller owes: ranges on characters in order, elements with a text, and apart. *)
Definition fits (c : command) (t : TextArea) : Prop :=
  match c with
  | ReplaceRange r s => boundary (text t) r.1 /\ boundary (text t) r.2 /\ r.1 <= r.2
  | InsertElement s => s <> []
  | ReplaceElementPayload _ new => new <> []
  | SetTextWithElements s es => elements_ok s (carried es)
  | _ => True
  end.

Inductive reachable : TextArea -> Prop :=
  | reachable_new : reachable new_textarea
  | reachable_run c t t' : reachable t -> fits c t -> run c t = Ok t' -> reachable t'.

Lemma run_wf c t : wf t -> fits c t -> exists t', run c t = Ok t' /\ wf t'.
Proof.
  intros Hw Hf. destruct c as [k|pos s|r s|pos|s|r|r|old new|s|s es|w]; cbn [run fits] in *.
  - destruct (input_runs k t Hw) as (t' & ? & [? _ _]). by exists t'.
  - destruct (insert_str_at_spec pos s t Hw) as (a & b & t' & _ & _ & ? & [? _ _] & _). by exists t'.
  - destruct Hf as (Ha & Hb & Hle). destruct (replace_range_steps r s t Hw Ha Hb Hle) as (t' & ? & [? _ _]). by exists t'.
  - eexists. split; [done|]. by apply set_cursor_steps.
  - destruct (insert_element_wf t s Hw Hf) as (t' & i & -> & ? & _). by exists t'.
  - eexists. split; [done|]. by apply add_element_range_wf.
  - eexists. split; [done|]. by apply remove_element_range_wf.
  - destruct (replace_element_payload_wf old new t Hw Hf) as [[_ ->]|(t' & p & q & e & -> & ? & _)]; [by exists t|by exists t'].
  - eexists. split; [done|]. apply (set_text_inner_wf s None t). apply elements_ok_nil.
  - eexists. split; [done|]. by apply (set_text_inner_wf s (Some es) t).
  - destruct (wrapped_lines_ok w t Hw) as (t' & ls & -> & [? _ _] & _). by exists t'.
Qed.

Lemma new_wf : wf new_textarea.
Proof. split; [apply elements_ok_nil|apply boundary_0|done]. Qed.

Lemma reachable_wf t : reachable t -> wf t.
Proof.
  induction 1 as [|c t t' _ IH Hf Hr]; [apply new_wf|]. destruct (run_wf c t IH Hf) as (t1 & Hr1 & Hw). rewrite Hr in Hr1. by injection Hr1 as ->.
Qed.

Fixpoint type_keys (ks : list KeyEvent) (t : TextArea) : outcome () TextArea :=
  match ks with [] => Ok t | k :: ks => t ← input k t; type_keys ks t end.

Lemma type_keys_steps ks t : wf t -> exists t', type_keys ks t = Ok t' /\ steps t t'.
Proof.
  revert t. induction ks as [|k ks IH]; intros t Hw; cbn [type_keys]; [exists t; split; [done|by apply steps_refl]|].
  destruct (input_runs k t Hw) as (t1 & -> & Hs). destruct (IH t1 (steps_wf _ _ Hs)) as (t2 & Ht & Hs'). exists t2. split; [exact Ht|by eapply steps_trans].
Qed.

(** C17. In every text area that keys and calls of the composer can reach, the elements lie
    in order on whole characters and do not overlap, the cursor is between two characters,
    and the lines kept for the screen are those of the text; a call that fits never panics
    and never loops. *)
Theorem text_area_in_order t : reachable t ->
  elements_ok (text t) (elements t) /\ boundary (text t) (cursor_pos t) /\ cache_ok t /\
  forall c, fits c t -> exists t', run c t = Ok t' /\ reachable t'.
Proof.
  intros Hr. pose proof (reachable_wf t Hr) as Hw. split; [apply Hw|]. split; [apply Hw|]. split; [apply Hw|].
  intros c Hf. destruct (run_wf c t Hw Hf) as (t' & Ht & _). exists t'. split; [done|]. by eapply reachable_run.
Qed.

(** C36. An element is edited whole: after any keys, every element still there has the
    identity and the text of one that was there before, and a cursor that was inside no
    element still is inside none. *)
Theorem elements_are_atomic ks t : reachable t ->
  exists t', type_keys ks t = Ok t' /\ (at_rest t -> at_rest t') /\
    forall e', e' ∈ elements t' -> exists e, e ∈ elements t /\ id e = id e' /\ payload t' e' = payload t e /\ is_Some (payload t e).
Proof.
  intros Hr%reachable_wf. destruct (type_keys_steps ks t Hr) as (t' & Ht & [_ Hrest Hk]). exists t'. split; [done|]. split; [done|].
  intros e' He'. destruct (Hk e' He') as (e & He & ? & ?). exists e. split; [done|]. split; [done|]. split; [done|].
  destruct (elements_ok_elem _ _ e (wf_elements _ Hr) He) as (? & ? & ?). apply str_get_cut; [done|done|lia].
Qed.

(** Replacing a range replaces the least range around it that cuts no element, and
    leaves the text on both sides as it was. *)
Theorem replace_range_least r s t : wf t -> boundary (text t) r.1 -> boundary (text t) r.2 -> r.1 <= r.2 ->
  exists p m q t', replace_range r s t = Ok t' /\ text t = p ++ m ++ q /\ text t' = p ++ s ++ q /\
    str_len p <= r.1 /\ r.2 <= str_len p + str_len m /\ Forall (uncut (str_len p, str_len p + str_len m)) (elements t) /\
    forall r', within r r' -> Forall (uncut r') (elements t) -> within (str_len p, str_len p + str_len m) r'.
Proof.
  intros Hw Ha Hb Hab. destruct (expand_range_ok t r (wf_elements _ Hw) Ha Hb Hab) as (r' & Hr & [H1 H2] & Ha' & Hb' & Hab' & Hu & Hmin).
  destruct (raw_spec t r' s Hw Ha' Hb' Hab' Hu) as (p & m & q & t' & (Ht & Hp & Hm) & Ht' & _ & Htx & _).
  exists p, m, q, t'. unfold replace_range. rewrite Hr. destruct r' as [a b]. cbn [fst snd] in *. subst a b. done.
Qed.

(** The keys that cut text out. *)
Definition kill_key (k : KeyEvent) : Prop :=
  k ∈ [mk_key (Char (ch "w")) CONTROL; mk_key (Char (ch "k")) CONTROL; mk_key (Char (ch "u")) CONTROL;
       mk_key Backspace ALT; mk_key Delete ALT; mk_key (Char (ch "h")) (N.lor CONTROL ALT)].
Definition yank_key : KeyEvent := mk_key (Char (ch "y")) CONTROL.

Lemma kill_key_kills k t : wf t -> kill_key k -> kills (input k) t.
Proof.
  intros Hw Hk. unfold kill_key in Hk. rewrite !elem_of_cons in Hk.
  destruct Hk as [-> | [-> | [-> | [-> | [-> | [-> | Hk%not_elem_of_nil]]]]]]; [..|done];
    [change (kills delete_backward_word t)|change (kills kill_to_end_of_line t)|change (kills kill_to_beginning_of_line t)
    |change (kills delete_backward_word t)|change (kills delete_forward_word t)|change (kills delete_backward_word t)];
    [by apply backward_word_kills|by apply end_of_line_kills|by apply beginning_of_line_kills|by apply backward_word_kills
    |by apply forward_word_kills|by apply backward_word_kills].
Qed.

(** A key that cuts text changes nothing, or keeps what it cut, which the next key
    Ctrl-Y puts back: the text is the same again. *)
Theorem kill_then_yank k t : wf t -> kill_key k ->
  exists t1, input k t = Ok t1 /\
    (t1 = t \/ (str_len (text t1) < str_len (text t) /\ exists t2, input yank_key t1 = Ok t2 /\ text t2 = text t)).
Proof.
  intros Hw Hk. destruct (kill_key_kills k t Hw Hk) as [Hop | (r & -> & Ha & Hb & Hc)]; [exists t; split; [done|by left]|].
  destruct (kill_range_spec r t Hw Ha Hb ltac:(lia)) as (t1 & -> & Hs & Hspec). exists t1. split; [done|].
  destruct Hspec as [-> | (p & m & q & Ht & Hm & Ht1 & Hkill & _ & _ & Hcur)]; [by left|right].
  destruct (Hcur Hc) as [Hcp Hrest]. pose proof (steps_wf _ _ Hs) as Hw1. split.
  { rewrite Ht, Ht1, !str_len_app. destruct m as [|c m]; [done|]. rewrite str_len_cons. pose proof (len_utf8_pos c). lia. }
  change (input yank_key t1) with (yank t1). unfold yank. rewrite Hkill, bool_decide_false by done. unfold insert_str.
  destruct (insert_str_at_spec (cursor_pos t1) m t1 Hw1) as (a & b & t2 & Ht1' & Hl & -> & _ & Ht2 & _).
  exists t2. split; [done|]. rewrite Ht2, Ht. rewrite (clamp_nearest_id t1 _ (wf_cursor _ Hw1) Hrest : clamp_pos_for_insertion t1 _ = _), Hcp in Hl.
  rewrite Ht1 in Ht1'. assert (split_bytes (p ++ q) (str_len p) = Some (a, b)) as Hsp by (apply split_bytes_Some; by split).
  rewrite split_bytes_app in Hsp. by injection Hsp as -> ->.
Qed.

(** A text area filled with the text and the elements that another one reports has the
    same text and the same elements. *)
Theorem elements_restored t t0 : reachable t ->
  let t' := set_text_with_elements (text t) (text_elements t) t0 in
  text t' = text t /\ text_elements t' = text_elements t.
Proof.
  intros Hw%reachable_wf. cbv zeta. assert (ranges (carried (text_elements t)) = ranges (elements t)) as Hr.
  { unfold ranges, carried, text_elements. rewrite <-!list_fmap_compose. apply list_fmap_ext. by intros. }
  destruct (set_text_inner_wf (text t) (Some (text_elements t)) t0) as (_ & _ & Ht & He).
  { apply (same_ranges _ (elements t)); [symmetry; exact Hr|apply Hw]. }
  split; [exact Ht|]. change (default [] (Some (text_elements t))) with (text_elements t) in He. rewrite Hr in He.
  unfold text_elements at 1 3. unfold set_text_with_elements. unfold payload. rewrite Ht.
  assert (forall es, (fun e => mk_user_element (range_start e, range_end e) (str_get (text t) (range_start e) (range_end e))) <$> es =
                     (fun r : nat * nat => mk_user_element r (str_get (text t) r.1 r.2)) <$> ranges es) as Hf.
  { intros es. unfold ranges. by rewrite <-list_fmap_compose. }
  by rewrite !Hf, He.
Qed.

End contract.

(** ** A world of characters *)

Fixpoint paragraphs (start : nat) (s : str) : list Cow :=
  match s with
  | [] => [Borrowed start start]
  | c :: s =>
      if is_lf c then Borrowed start start :: paragraphs (start + len_utf8 c) s
      else match paragraphs (start + len_utf8 c) s with Borrowed _ b :: l => Borrowed start b :: l | l => l end
  end.

#[export] Instance char_world : TextWorld := {
  width s := length s;
  graphemes s := (fun c => [c]) <$> s;
  prev_boundary s pos := Ok (if pos =? 0 then None else Some (boundary_below s (pos - 1)));
  next_boundary s pos := Ok (if str_len s <=? pos then None else Some (boundary_above (str_len s) s (S pos)));
  textwrap_wrap s _ := paragraphs 0 s;
}.

Definition slice_of (n : nat) (s : str) (l : Cow) : Prop := exists a b, l = Borrowed a b /\ boundary s a /\ boundary s b /\ n <= a <= b.

Lemma slice_of_le n n' s l : n' <= n -> Forall (slice_of n s) l -> Forall (slice_of n' s) l.
Proof. intros Hle Hall. eapply Forall_impl; [exact Hall|]. intros x (a & b & -> & Ha & Hb & Hab). exists a, b. split; [done|]. split; [done|]. split; [done|lia]. Qed.

Lemma paragraphs_ok p s : Forall (slice_of (str_len p) (p ++ s)) (paragraphs (str_len p) s).
Proof.
  revert p. induction s as [|c s IH]; intros p; cbn [paragraphs].
  { repeat constructor. exists (str_len p), (str_len p). split; [done|]. rewrite app_nil_r. split; [apply boundary_len|]. split; [apply boundary_len|done]. }
  specialize (IH (p ++ [c])). rewrite <-app_assoc, str_len_app in IH. replace (str_len [c]) with (len_utf8 c) in IH by (cbn; lia). cbn [app] in IH.
  assert (forall b, boundary (p ++ c :: s) b -> str_len p <= b -> slice_of (str_len p) (p ++ c :: s) (Borrowed (str_len p) b)) as Hone
    by (intros b Hb Hle; exists (str_len p), b; split; [done|split; [apply boundary_mid|done]]).
  destruct (is_lf c); [constructor; [apply Hone; [apply boundary_mid|done]|eapply slice_of_le; [|exact IH]; lia]|].
  destruct (paragraphs _ s) as [|[a b|x] l]; [done| |by apply Forall_cons in IH as [(? & ? & ? & _) _]].
  apply Forall_cons in IH as [(a' & b' & [= <- <-] & Ha & Hb & Hle) Hl]. constructor; [apply Hone; [done|lia]|].
  eapply slice_of_le; [|exact Hl]. lia.
Qed.

Lemma boundary_above_ge fuel s pos : pos <= boundary_above fuel s pos.
Proof. revert pos. induction fuel as [|fuel IH]; intros pos; cbn [boundary_above]; [done|]. case_match; [|done]. specialize (IH (S pos)). lia. Qed.

#[export] Instance char_laws : TextLaws.
Proof.
  split; cbn.
  - intros s. induction s as [|c s IH]; [done|]. cbn. by f_equal.
  - intros s pos Hb Hp. rewrite (proj2 (Nat.eqb_neq _ _)) by lia. eexists. split; [done|].
    destruct (boundary_below_ok s (pos - 1)). split; [done|lia].
  - intros s pos Hb Hp. rewrite (proj2 (Nat.leb_gt _ _)) by lia. eexists. split; [done|].
    split; [apply boundary_above_ok; lia|]. pose proof (boundary_above_ge (str_len s) s (S pos)). lia.
  - intros s _. eapply Forall_impl; [apply (paragraphs_ok [] s)|]. intros l (a & b & ? & ? & ? & ?). exists a, b. split; [done|]. split; [done|]. split; [done|lia].
Qed.

(** ** An example: a word, an image, and a second line *)

Fixpoint run_all (cs : list command) (t : TextArea) : outcome () TextArea :=
  match cs with [] => Ok t | c :: cs => t ← run c t; run_all cs t end.
Fixpoint fits_all (cs : list command) (t : TextArea) : Prop :=
  match cs with [] => True | c :: cs => fits c t /\ match run c t with Ok t => fits_all cs t | _ => False end end.

Lemma reachable_all cs t t' : reachable t -> fits_all cs t -> run_all cs t = Ok t' -> reachable t'.
Proof.
  revert t. induction cs as [|c cs IH]; intros t Hr Hf H; cbn [run_all fits_all] in *; [by injection H as <-|].
  destruct Hf as [Hf Hfs]. destruct (run c t) as [t1| | |] eqn:E; try done. apply (IH t1); [by eapply reachable_run|done|done].
Qed.

Definition demo_commands : list command :=
  [InsertStrAt 0 (lit "see "); InsertElement (lit "[image]"); Key (mk_key Enter NONE); Key (mk_key (Char (ch "x")) NONE)].
Definition demo : TextArea := unwrap_or new_textarea (run_all demo_commands new_textarea).

Example demo_text : text demo = lit "see [image]" ++ [LF] ++ lit "x" /\ cursor_pos demo = 13 /\ element_payloads demo = [lit "[image]"].
Proof. by vm_compute. Qed.

Lemma demo_reachable : reachable demo.
Proof.
  apply (reachable_all demo_commands new_textarea); [constructor| |by vm_compute].
  vm_compute. repeat split. by intros [=].
Qed.

Lemma text_area_in_order_witness : reachable demo /\ elements_ok (text demo) (elements demo) /\ boundary (text demo) 13.
Proof. pose proof (text_area_in_order demo demo_reachable) as (He & Hc & _). split; [exact demo_reachable|]. split; [exact He|exact Hc]. Defined.

(** Backspace over the end of the image takes all of it. *)
Lemma elements_are_atomic_witness :
  let ks := [mk_key Backspace NONE; mk_key Backspace NONE; mk_key Backspace NONE] in
  exists t', type_keys ks demo = Ok t' /\ at_rest t' /\ text t' = lit "see ".
Proof.
  cbv zeta. destruct (elements_are_atomic [mk_key Backspace NONE; mk_key Backspace NONE; mk_key Backspace NONE] demo demo_reachable) as (t' & Ht & Hrest & _).
  exists t'. split; [exact Ht|]. split; [apply Hrest; vm_compute; repeat constructor|]. revert Ht. vm_compute. by intros [= <-].
Defined.

Lemma replace_range_least_witness : exists t', replace_range (6, 7) (lit "it") demo = Ok t' /\ text t' = lit "see it" ++ [LF] ++ lit "x".
Proof.
  destruct (replace_range_least (6, 7) (lit "it") demo (reachable_wf demo demo_reachable)) as (p & m & q & t' & Ht & _).
  - apply (bool_decide_unpack _). by vm_compute.
  - apply (bool_decide_unpack _). by vm_compute.
  - cbn. lia.
  - exists t'. split; [exact Ht|]. revert Ht. vm_compute. by intros [= <-].
Defined.

Lemma kill_then_yank_witness :
  exists t1, input (mk_key (Char (ch "w")) CONTROL) demo = Ok t1 /\ text t1 = lit "see [image]" ++ [LF] /\
    exists t2, input yank_key t1 = Ok t2 /\ text t2 = text demo.
Proof.
  destruct (kill_then_yank (mk_key (Char (ch "w")) CONTROL) demo (reachable_wf demo demo_reachable)) as (t1 & Ht & Hy); [by apply elem_of_cons; left|].
  assert (text t1 = lit "see [image]" ++ [LF]) as Htx by (revert Ht; vm_compute; by intros [= <-]).
  exists t1. split; [exact Ht|]. split; [exact Htx|]. destruct Hy as [-> | [_ Hy]]; [|exact Hy]. revert Htx. by vm_compute.
Defined.

Lemma elements_restored_witness : reachable demo /\ text_elements (set_text_with_elements (text demo) (text_elements demo) new_textarea) = text_elements demo.
Proof. split; [exact demo_reachable|]. exact (proj2 (elements_restored demo new_textarea demo_reachable)). Defined.
