(* ===== verification/TextAreaScreen.v ===== *)
(** * The text area on the screen

    The lines shown are chosen so that the line of the cursor is among them, and writing
    them to the screen stays on the characters of the text. *)

From S2P Require Import Prelude RustStd ByteText TextArea TextAreaEdit TextAreaElements TextAreaKeys TextAreaContract.

Section screen.
Context {world : TextWorld} {laws : TextLaws}.

Lemma as_u16_small n : (N.of_nat n < 2 ^ 16)%N -> as_u16 n = N.of_nat n.
Proof. apply N.mod_small. Qed.

Lemma u16_add_small a b : (a + b < 2 ^ 16)%N -> u16_add a b = Ok (a + b)%N.
Proof. intros H. unfold u16_add. by rewrite (proj2 (N.ltb_lt _ _) H). Qed.

Definition cursor_line (t : TextArea) (ls : list (nat * nat)) : nat := default 0 (wrapped_line_index_by_start ls (cursor_pos t)).

Lemma cursor_line_lt t ls : ls <> [] -> cursor_line t ls < length ls.
Proof.
  intros Hne. unfold cursor_line. destruct (wrapped_line_index_by_start ls (cursor_pos t)) as [i|] eqn:E; cbn.
  - apply line_index_lookup in E as (r & Hr & _). by eapply lookup_lt_Some.
  - destruct ls; [done|cbn; lia].
Qed.

(** The first line shown: the one asked for when that shows the cursor, else the nearest that does. *)
Definition scroll_ok (total height idx asked scroll : N) : Prop :=
  if (total <=? height)%N then scroll = 0%N
  else (scroll + height <= total)%N /\ (scroll <= idx < scroll + height)%N /\
       ((asked + height <= total)%N -> (asked <= idx < asked + height)%N -> scroll = asked).

Lemma effective_scroll_ok t height ls asked : (N.of_nat (length ls) < 2 ^ 16)%N -> (0 < height)%N ->
  exists scroll, effective_scroll t height ls asked = Ok scroll /\
    scroll_ok (N.of_nat (length ls)) height (N.of_nat (cursor_line t ls)) asked scroll.
Proof.
  intros Hlen Hh. unfold effective_scroll, scroll_ok. rewrite (as_u16_small (length ls)) by done.
  destruct (N.of_nat (length ls) <=? height)%N eqn:Et; [by exists 0%N|]. apply N.leb_gt in Et.
  assert (ls <> []) as Hne by (intros ->; cbn in Et; lia). pose proof (cursor_line_lt t ls Hne) as Hlt.
  fold (cursor_line t ls). rewrite (as_u16_small (cursor_line t ls)) by lia.
  set (total := N.of_nat (length ls)) in *. set (idx := N.of_nat (cursor_line t ls)) in *. assert (idx < total)%N as Hi by lia.
  set (scroll := N.min asked (total - height)). destruct (idx <? scroll)%N eqn:E1; [apply N.ltb_lt in E1|apply N.ltb_ge in E1].
  { exists idx. split; [done|]. lia. }
  rewrite (u16_add_small scroll height) by lia. cbn [mbind outcome_bind].
  destruct (scroll + height <=? idx)%N eqn:E2; [apply N.leb_le in E2|apply N.leb_gt in E2; exists scroll; split; [done|lia]].
  rewrite (u16_add_small idx 1) by lia. cbn [mbind outcome_bind]. rewrite (proj2 (N.ltb_ge _ _)) by lia.
  exists (idx + 1 - height)%N. split; [done|]. lia.
Qed.

(** Room on the screen for any part of the text and for the rows. *)
Definition room (area : Rect) (s : str) : Prop :=
  (forall a b m, str_get s a b = Some m -> (x area + N.of_nat (width m) < 2 ^ 16)%N) /\
  (y area + rect_height area < 2 ^ 16)%N.

Lemma room_add area s a b m : room area s -> str_get s a b = Some m -> u16_add (x area) (as_u16 (width m)) = Ok (x area + N.of_nat (width m))%N.
Proof. intros [Hr _] Hm. specialize (Hr a b m Hm). rewrite as_u16_small by lia. by apply u16_add_small. Qed.

Lemma draw_elements_ok area s row_y a b es : room area s -> boundary s a -> boundary s b -> Forall (elem_ok s) es ->
  exists ds, draw_elements s (x area) row_y a b es = Ok ds.
Proof.
  intros Hroom Ha Hb. induction es as [|e es IH]; intros Hok; cbn [draw_elements]; [by exists []|].
  apply Forall_cons in Hok as [(_ & H1 & H2) Hok]. destruct (IH Hok) as [ds Hds].
  destruct (_ <=? _) eqn:E; [by exists ds|]. apply Nat.leb_gt in E.
  assert (boundary s (max (range_start e) a)) as Hs by (destruct (Nat.max_dec (range_start e) a) as [-> | ->]; done).
  assert (boundary s (min (range_end e) b)) as He by (destruct (Nat.min_dec (range_end e) b) as [-> | ->]; done).
  destruct (str_get_cut s _ _ Hs He) as [m Hm]; [lia|]. destruct (str_get_cut s a _ Ha Hs) as [m' Hm']; [lia|].
  unfold str_slice. rewrite Hm, Hm'. cbn [or_panic mbind outcome_bind]. rewrite (room_add _ _ _ _ _ Hroom Hm'). cbn [mbind outcome_bind].
  rewrite Hds. by eexists.
Qed.

(** A row has the text of its line. *)
Definition row_shown (mask : option char) (area : Rect) (t : TextArea) (ds : list Drawn) (row : nat) (line : nat * nat) : Prop :=
  exists base, str_get (text t) line.1 (line.2 - 1) = Some base /\
    mk_drawn (x area) (y area + N.of_nat row) (match mask with Some c => (fun _ => c) <$> base | None => base end) false ∈ ds.

Lemma render_line_ok mask area t row line : wf t -> room area (text t) -> line_good (text t) line -> (N.of_nat row < rect_height area)%N ->
  exists ds, render_line mask area t row line = Ok ds /\ row_shown mask area t ds row line.
Proof.
  intros Hw Hroom (Ha & Hb & Hlt) Hrow. pose proof (proj2 Hroom) as Hy. unfold render_line. rewrite as_u16_small, u16_add_small by lia.
  cbn [mbind outcome_bind]. rewrite (proj2 (Nat.eqb_neq _ _)) by lia. destruct (str_get_cut _ _ _ Ha Hb) as [m Hm]; [lia|].
  unfold str_slice. rewrite Hm. cbn [or_panic mbind outcome_bind]. destruct mask as [c|].
  - eexists. split; [done|]. exists m. split; [done|]. by apply list_elem_of_singleton.
  - destruct (draw_elements_ok area (text t) (y area + N.of_nat row) line.1 (line.2 - 1) (elements t) Hroom Ha Hb) as [ds ->]; [apply Hw|].
    cbn [mbind outcome_bind]. eexists. split; [done|]. exists m. split; [done|]. apply elem_of_cons. by left.
Qed.

Lemma render_lines_ok mask area t row ls : wf t -> room area (text t) -> Forall (line_good (text t)) ls ->
  (N.of_nat (row + length ls) <= rect_height area)%N ->
  exists ds, render_lines mask area t row ls = Ok ds /\ forall j line, ls !! j = Some line -> row_shown mask area t ds (row + j) line.
Proof.
  intros Hw Hroom. revert row. induction ls as [|l ls IH]; intros row Hg Hh; cbn [render_lines]; [by exists []|].
  apply Forall_cons in Hg as [Hl Hg]. cbn [length] in Hh. destruct (render_line_ok mask area t row l Hw Hroom Hl) as (d & -> & Hd); [lia|].
  destruct (IH (S row) Hg) as (ds & Hds & Hrows); [lia|]. cbn [mbind outcome_bind]. rewrite Hds. cbn [mbind outcome_bind].
  exists (d ++ ds). split; [done|]. intros [|j] line Hj.
  - injection Hj as ->. rewrite Nat.add_0_r. destruct Hd as (b & ? & ?). exists b. split; [done|]. apply elem_of_app. by left.
  - rewrite Nat.add_succ_r. destruct (Hrows j line Hj) as (b & ? & ?). exists b. split; [done|]. apply elem_of_app. by right.
Qed.

Lemma wrapped_lines_again w t t' ls : wrapped_lines w t = Ok (t', ls) -> wrapped_lines w t' = Ok (t', ls).
Proof.
  unfold wrapped_lines. intros H.
  assert ((ls0 ← wrap_ranges (text t) w; Ok (with_cache (Some (mk_wrap_cache w ls0)) t, ls0)) = Ok (t', ls) ->
          match wrap_cache t' with
          | Some c => if (wrap_width c =? w)%N then Ok (t', wrap_lines c) else ls0 ← wrap_ranges (text t') w; Ok (with_cache (Some (mk_wrap_cache w ls0)) t', ls0)
          | None => ls0 ← wrap_ranges (text t') w; Ok (with_cache (Some (mk_wrap_cache w ls0)) t', ls0)
          end = Ok (E := ()) (t', ls)) as Hre.
  { intros (l & Hl & Hr)%bind_Ok. injection Hr as <- <-. cbn. by rewrite N.eqb_refl. }
  destruct (wrap_cache t) as [c|] eqn:Ec; [|by apply Hre]. destruct (wrap_width c =? w)%N eqn:Ew; [|by apply Hre].
  injection H as <- <-. by rewrite Ec, Ew.
Qed.

(** The rows between the scroll and the bottom have the line of the cursor. *)
Lemma shown_ok total height idx asked scroll : scroll_ok total height idx asked scroll -> (idx < total)%N ->
  (height < 2 ^ 16)%N -> (total < 2 ^ 16)%N ->
  (scroll + height < 2 ^ 16)%N /\ (scroll <= idx < N.min (scroll + height) total)%N /\ scroll_ok total height idx scroll scroll.
Proof.
  unfold scroll_ok. destruct (total <=? height)%N eqn:E; [apply N.leb_le in E; intros ->; split; [lia|split; [lia|done]]|].
  intros (H1 & H2 & _) Hi Hh Ht. split; [lia|]. split; [lia|]. split; [lia|]. split; [lia|done].
Qed.

Lemma scroll_ok_fun total height idx scroll scroll' :
  scroll_ok total height idx scroll scroll -> scroll_ok total height idx scroll scroll' -> scroll' = scroll.
Proof. unfold scroll_ok. destruct (total <=? height)%N; [by intros -> ->|]. intros (? & ? & _) (_ & _ & Hs). by apply Hs. Qed.

Lemma lookup_shown {A} (l : list A) a b i : a <= i < b -> take (b - a) (drop a l) !! (i - a) = l !! i.
Proof. intros H. rewrite lookup_take_lt by lia. rewrite lookup_drop. f_equal. lia. Qed.

Lemma cursor_pos_ok area asked t ls i line : wf t -> room area (text t) -> (0 < rect_height area)%N ->
  wrapped_lines (rect_width area) t = Ok (t, ls) -> (N.of_nat (length ls) < 2 ^ 16)%N ->
  wrapped_line_index_by_start ls (cursor_pos t) = Some i -> ls !! i = Some line -> boundary (text t) line.1 -> line.1 <= cursor_pos t ->
  scroll_ok (N.of_nat (length ls)) (rect_height area) (N.of_nat i) asked asked ->
  exists cx, cursor_pos_with_state area asked t = Ok (t, Some (cx, (y area + (N.of_nat i - asked))%N)) /\ (N.of_nat i - asked < rect_height area)%N.
Proof.
  intros Hw Hroom Hh Hwl Hlen Hi Hline Hb Hle Hsc. pose proof (lookup_lt_Some _ _ _ Hline). pose proof (proj2 Hroom) as Hy.
  destruct (shown_ok _ _ _ _ _ Hsc) as (_ & Hin & _); [lia|lia|done|].
  destruct (effective_scroll_ok t (rect_height area) ls asked Hlen Hh) as (scroll & Heff & Hok).
  unfold cursor_line in Hok. rewrite Hi in Hok. change (default 0 (Some i)) with i in Hok. apply (scroll_ok_fun _ _ _ _ _ Hsc) in Hok as ->.
  unfold cursor_pos_with_state. rewrite Hwl. cbn [mbind outcome_bind]. rewrite Heff. cbn [mbind outcome_bind].
  rewrite Hi, (index_lookup _ _ _ Hline). cbn [mbind outcome_bind].
  destruct (str_get_cut _ _ _ Hb (wf_cursor _ Hw) Hle) as [m Hm]. unfold str_slice. rewrite Hm. cbn [or_panic mbind outcome_bind].
  rewrite (room_add _ _ _ _ _ Hroom Hm). cbn [mbind outcome_bind]. rewrite (proj2 (N.ltb_lt _ _)) by lia. rewrite u16_add_small by lia.
  eexists. split; [done|lia].
Qed.

(** A text area is drawn without a panic, with the line of the cursor among the rows:
    that row has the text of that line, and the cursor is put on it; a scroll that already
    shows the cursor is kept, and there is none when all lines fit. *)
Theorem cursor_stays_on_screen mask area asked t ls i :
  reachable t -> room area (text t) -> (0 < rect_height area)%N ->
  wrap_ranges (text t) (rect_width area) = Ok ls -> (N.of_nat (length ls) < 2 ^ 16)%N -> wrapped_line_index_by_start ls (cursor_pos t) = Some i ->
  exists t' scroll ds line, render mask area asked t = Ok (t', scroll, ds) /\ text t' = text t /\
    scroll_ok (N.of_nat (length ls)) (rect_height area) (N.of_nat i) asked scroll /\
    ls !! i = Some line /\ row_shown mask area t ds (i - N.to_nat scroll) line /\
    exists cx, cursor_pos_with_state area scroll t' = Ok (t', Some (cx, (y area + (N.of_nat i - scroll))%N)) /\
      (N.of_nat i - scroll < rect_height area)%N.
Proof.
  intros Hw%reachable_wf Hroom Hh Hls Hlen Hi. destruct (wrapped_lines_ok (rect_width area) t Hw) as (t' & ls' & Hwl & Hst & Ht & He & Hc & Hls' & Hg).
  rewrite Hls in Hls'. injection Hls' as <-. pose proof (proj2 Hroom) as Hy. pose proof (steps_wf _ _ Hst) as Hw'.
  destruct (line_index_lookup _ _ _ Hi) as (line & Hline & Hle). pose proof (lookup_lt_Some _ _ _ Hline).
  assert (line_good (text t) line) as Hlg by (rewrite Forall_forall in Hg; apply Hg; by eapply list_elem_of_lookup_2).
  destruct (effective_scroll_ok t' (rect_height area) ls asked Hlen Hh) as (scroll & Heff & Hok).
  unfold cursor_line in Hok. rewrite Hc, Hi in Hok. change (default 0 (Some i)) with i in Hok.
  destruct (shown_ok _ _ _ _ _ Hok) as (Hbot & Hin & Hagain); [lia|lia|done|].
  unfold render. rewrite Hwl. cbn [mbind outcome_bind]. rewrite Heff. cbn [mbind outcome_bind]. rewrite u16_add_small by done. cbn [mbind outcome_bind].
  rewrite (as_u16_small (length ls)) by done. rewrite N2Nat.inj_sub.
  set (bottom := N.min (scroll + rect_height area) (N.of_nat (length ls))) in *.
  set (shown := take (N.to_nat bottom - N.to_nat scroll) (drop (N.to_nat scroll) ls)).
  destruct (render_lines_ok mask area t' 0 shown Hw') as (ds & -> & Hrows); [by rewrite Ht| | |].
  { rewrite Ht. by apply Forall_take, Forall_drop. }
  { unfold shown. rewrite length_take. lia. }
  assert (shown !! (i - N.to_nat scroll) = Some line) as Hshown by (unfold shown; rewrite lookup_shown by lia; done).
  pose proof (Hrows _ _ Hshown) as Hrow. unfold row_shown in Hrow. rewrite Ht in Hrow. cbn [mbind outcome_bind].
  exists t', scroll, ds, line. split; [done|]. split; [done|]. split; [done|]. split; [done|]. split; [exact Hrow|].
  apply (cursor_pos_ok area scroll t' ls i line); try done; [by rewrite Ht|by eapply wrapped_lines_again|by rewrite Hc|rewrite Ht; apply Hlg|by rewrite Hc].
Qed.

End screen.

Lemma char_room area s : (x area + N.of_nat (length s) < 2 ^ 16)%N -> (y area + rect_height area < 2 ^ 16)%N -> room area s.
Proof.
  intros Hx Hy. split; [|done]. intros a b m (p & q & -> & _)%str_get_Some. rewrite !length_app in Hx. cbn. lia.
Qed.

(** One row for two lines: the second is shown. *)
Definition demo_area : Rect := mk_rect 0 5 40 1.

Lemma cursor_stays_on_screen_witness :
  exists t' ds, render None demo_area 0 demo = Ok (t', 1%N, ds) /\ row_shown None demo_area demo ds 0 (12, 14).
Proof.
  destruct (cursor_stays_on_screen None demo_area 0 demo [(0, 12); (12, 14)] 1 demo_reachable) as (t' & scroll & ds & line & Hr & _ & Hs & Hl & Hrow & _);
    [apply char_room; by vm_compute|by vm_compute|by vm_compute|by vm_compute|by vm_compute|].
  assert (scroll = 1%N) as -> by (unfold scroll_ok in Hs; simpl in Hs; lia).
  injection Hl as <-. exists t', ds. split; [exact Hr|exact Hrow].
Defined.
