(* ===== verification/LegacyArgs.v ===== *)
(** * Arguments under the first exec policy (execpolicy-legacy/src)

    The types of arguments, the patterns a list of arguments is compared with, and the
    comparison ([arg_type.rs], [arg_matcher.rs], [arg_resolver.rs], [sed_command.rs],
    [valid_exec.rs], [error.rs]). *)

From S2P Require Import Prelude RustStd PatchApply SandboxPolicy.

(** ** Types of arguments and patterns *)

Inductive ArgType : Type :=
  | TLiteral (value : str) | TOpaqueNonFile | TReadableFile | TWriteableFile | TPositiveInteger | TSedCommand | TUnknown.

Inductive ArgMatcher : Type :=
  | MLiteral (value : str) | MOpaqueNonFile | MReadableFile | MWriteableFile | MReadableFiles | MReadableFilesOrCwd
  | MPositiveInteger | MSedCommand | MUnverifiedVarargs.

#[export] Instance ArgType_eq_dec : EqDecision ArgType.
Proof. solve_decision. Defined.
#[export] Instance ArgMatcher_eq_dec : EqDecision ArgMatcher.
Proof. solve_decision. Defined.

Inductive ArgMatcherCardinality : Type := CardOne | CardAtLeastOne | CardZeroOrMore.

Record PositionalArg : Type := mk_positional { pos_index : nat; pos_value : str }.

(** [Error], of the checks of this file and of the policy. *)
Inductive LegacyError : Type :=
  | NoSpecForProgram (program : str)
  | OptionMissingValue (program option : str)
  | OptionFollowedByOptionInsteadOfValue (program option value : str)
  | UnknownOption (program option : str)
  | UnexpectedArguments (program : str) (args : list PositionalArg)
  | DoubleDashNotSupportedYet (program : str)
  | MultipleVarargPatterns (program : str) (first second : ArgMatcher)
  | RangeStartExceedsEnd (start end_ : nat)
  | RangeEndOutOfBounds (end_ len : nat)
  | PrefixOverlapsSuffix
  | NotEnoughArgs (program : str) (args : list PositionalArg) (arg_patterns : list ArgMatcher)
  | InternalInvariantViolation (message : str)
  | VarargMatcherDidNotMatchAnything (program : str) (matcher : ArgMatcher)
  | EmptyFileName
  | LiteralValueDidNotMatch (expected actual : str)
  | InvalidPositiveInteger (value : str)
  | MissingRequiredOptions (program : str) (options : list str)
  | SedCommandNotProvablySafe (command : str)
  | ReadablePathNotInReadableFolders (file : str) (folders : list str)
  | WriteablePathNotInWriteableFolders (file : str) (folders : list str)
  | CannotCheckRelativePath (file : str)
  | CannotCanonicalizePath (file : str) (error : io_error).

Abbreviation result A := (outcome LegacyError A).

(** [str::parse::<u64>]: decimal digits, after a plus sign at most. *)
Fixpoint parse_digits (limit acc : N) (s : str) : option N :=
  match s with
  | [] => Some acc
  | c :: s =>
      if is_ascii_digit c then
        let acc := (acc * 10 + (c - 48))%N in
        if (limit <? acc)%N then None else parse_digits limit acc s
      else None
  end.
Definition parse_u64 (s : str) : option N :=
  let digits := default s (strip_prefix (lit "+") s) in
  if bool_decide (digits = []) then None else parse_digits (2 ^ 64 - 1) 0 digits.

(** [str::split_once] for a character. *)
Fixpoint split_once (c : char) (s : str) : option (str * str) :=
  match s with
  | [] => None
  | x :: s => if bool_decide (x = c) then Some ([], s) else '(a, b) ← split_once c s; Some (x :: a, b)
  end.

Definition is_some {A} (o : option A) : bool := match o with Some _ => true | None => false end.

(** Only commands like [122,202p]. *)
Definition parse_sed_command (sed_command : str) : result () :=
  let failed := Err (SedCommandNotProvablySafe sed_command) in
  match strip_suffix (lit "p") sed_command with
  | Some stripped =>
      match split_once (ch ",") stripped with
      | Some (first, rest) => if is_some (parse_u64 first) && is_some (parse_u64 rest) then Ok () else failed
      | None => failed
      end
  | None => failed
  end.

Definition validate (ty : ArgType) (value : str) : result () :=
  match ty with
  | TLiteral literal_value => if bool_decide (value <> literal_value) then Err (LiteralValueDidNotMatch literal_value value) else Ok ()
  | TReadableFile | TWriteableFile => if bool_decide (value = []) then Err EmptyFileName else Ok ()
  | TOpaqueNonFile | TUnknown => Ok ()
  | TPositiveInteger =>
      match parse_u64 value with
      | Some n => if (n =? 0)%N then Err (InvalidPositiveInteger value) else Ok ()
      | None => Err (InvalidPositiveInteger value)
      end
  | TSedCommand => parse_sed_command value
  end.

Definition might_write_file (ty : ArgType) : bool :=
  match ty with TWriteableFile | TUnknown => true | _ => false end.

Definition cardinality (m : ArgMatcher) : ArgMatcherCardinality :=
  match m with
  | MReadableFiles => CardAtLeastOne
  | MReadableFilesOrCwd | MUnverifiedVarargs => CardZeroOrMore
  | _ => CardOne
  end.
Definition is_exact (c : ArgMatcherCardinality) : option nat := match c with CardOne => Some 1 | _ => None end.

Definition arg_type (m : ArgMatcher) : ArgType :=
  match m with
  | MLiteral value => TLiteral value
  | MOpaqueNonFile => TOpaqueNonFile
  | MReadableFile | MReadableFiles | MReadableFilesOrCwd => TReadableFile
  | MWriteableFile => TWriteableFile
  | MPositiveInteger => TPositiveInteger
  | MSedCommand => TSedCommand
  | MUnverifiedVarargs => TUnknown
  end.

Record MatchedArg : Type := mk_matched_arg { arg_index : nat; matched_type : ArgType; arg_value : str }.
Definition matched_arg_new (index : nat) (ty : ArgType) (value : str) : result MatchedArg :=
  _ ← validate ty value; Ok (mk_matched_arg index ty value).

(** ** The comparison *)

Record PartitionedArgs : Type := mk_partition {
  num_prefix_args : nat;
  num_suffix_args : nat;
  prefix_patterns : list ArgMatcher;
  suffix_patterns : list ArgMatcher;
  vararg_pattern : option ArgMatcher;
}.

Fixpoint partition_loop (program : str) (arg_patterns : list ArgMatcher) (in_prefix : bool) (p : PartitionedArgs) : result PartitionedArgs :=
  match arg_patterns with
  | [] => Ok p
  | pattern :: arg_patterns =>
      match is_exact (cardinality pattern) with
      | Some n =>
          partition_loop program arg_patterns in_prefix
            (if in_prefix then
               mk_partition (num_prefix_args p + n) (num_suffix_args p) (prefix_patterns p ++ [pattern]) (suffix_patterns p) (vararg_pattern p)
             else
               mk_partition (num_prefix_args p) (num_suffix_args p + n) (prefix_patterns p) (suffix_patterns p ++ [pattern]) (vararg_pattern p))
      | None =>
          match vararg_pattern p with
          | None =>
              partition_loop program arg_patterns false
                (mk_partition (num_prefix_args p) (num_suffix_args p) (prefix_patterns p) (suffix_patterns p) (Some pattern))
          | Some existing_pattern => Err (MultipleVarargPatterns program existing_pattern pattern)
          end
      end
  end.
Definition partition_args (program : str) (arg_patterns : list ArgMatcher) : result PartitionedArgs :=
  partition_loop program arg_patterns true (mk_partition 0 0 [] [] None).

Definition get_range_checked {A} (l : list A) (start end_ : nat) : result (list A) :=
  if end_ <? start then Err (RangeStartExceedsEnd start end_)
  else if length l <? end_ then Err (RangeEndOutOfBounds end_ (length l))
  else slice start end_ l.

Definition match_all (ty : ArgType) (args : list PositionalArg) : result (list MatchedArg) :=
  collect_results (fun a => matched_arg_new (pos_index a) ty (pos_value a)) args.

(** The loop over the patterns with an exact cardinality, from an index into the range. *)
Fixpoint match_exact (patterns : list ArgMatcher) (range : list PositionalArg) (arg_index : nat) : result (list MatchedArg * nat) :=
  match patterns with
  | [] => Ok ([], arg_index)
  | pattern :: patterns =>
      n ← ok_or (is_exact (cardinality pattern)) (InternalInvariantViolation (lit "expected exact cardinality"));
      here ← slice arg_index (arg_index + n) range;
      ms ← match_all (arg_type pattern) here;
      '(rest, i) ← match_exact patterns range (arg_index + n);
      Ok (ms ++ rest, i)
  end.

Definition match_vararg (program : str) (pattern : ArgMatcher) (vararg : list PositionalArg) : result (list MatchedArg) :=
  match cardinality pattern with
  | CardOne => Err (InternalInvariantViolation (lit "vararg pattern should not have cardinality of one"))
  | CardAtLeastOne =>
      if bool_decide (vararg = []) then Err (VarargMatcherDidNotMatchAnything program pattern) else match_all (arg_type pattern) vararg
  | CardZeroOrMore => match_all (arg_type pattern) vararg
  end.

Definition resolve_observed_args_with_patterns (program : str) (args : list PositionalArg) (arg_patterns : list ArgMatcher)
    : result (list MatchedArg) :=
  p ← partition_args program arg_patterns;
  prefix ← get_range_checked args 0 (num_prefix_args p);
  '(matched_prefix, prefix_arg_index) ← match_exact (prefix_patterns p) prefix 0;
  if length args <? num_suffix_args p then Err (NotEnoughArgs program args arg_patterns)
  else
    let initial_suffix_args_index := length args - num_suffix_args p in
    if initial_suffix_args_index <? prefix_arg_index then Err PrefixOverlapsSuffix
    else
      matched_vararg ← (match vararg_pattern p with
                        | Some pattern =>
                            vararg ← get_range_checked args prefix_arg_index initial_suffix_args_index;
                            match_vararg program pattern vararg
                        | None => Ok []
                        end);
      suffix ← get_range_checked args initial_suffix_args_index (length args);
      '(matched_suffix, _) ← match_exact (suffix_patterns p) suffix 0;
      let matched_args := matched_prefix ++ matched_vararg ++ matched_suffix in
      if length matched_args <? length args then
        extra_args ← get_range_checked args (length matched_args) (length args);
        Err (UnexpectedArguments program extra_args)
      else Ok matched_args.

(** ** What a list of patterns means *)

Definition takes (m : ArgMatcher) (args : list PositionalArg) : Prop :=
  match cardinality m with CardOne => length args = 1 | CardAtLeastOne => args <> [] | CardZeroOrMore => True end.

Definition matched (ty : ArgType) (a : PositionalArg) (o : MatchedArg) : Prop :=
  validate ty (pos_value a) = Ok () /\ o = mk_matched_arg (pos_index a) ty (pos_value a).

(** Every pattern takes the next arguments, as many as it may, each valid for its type. *)
Inductive assigned : list ArgMatcher -> list PositionalArg -> list MatchedArg -> Prop :=
  | assigned_nil : assigned [] [] []
  | assigned_cons m ms here rest out out' :
      takes m here -> Forall2 (matched (arg_type m)) here out -> assigned ms rest out' ->
      assigned (m :: ms) (here ++ rest) (out ++ out').

Definition exact (m : ArgMatcher) : Prop := cardinality m = CardOne.
#[export] Instance exact_dec m : Decision (exact m).
Proof. unfold exact. destruct (cardinality m); [by left|right; done..]. Defined.

Definition varargs (ms : list ArgMatcher) : list ArgMatcher := filter (fun m => ~ exact m) ms.

Lemma matched_arg_new_Ok a ty o : matched_arg_new (pos_index a) ty (pos_value a) = Ok o <-> matched ty a o.
Proof.
  unfold matched_arg_new, matched. rewrite bind_Ok. split.
  - intros ([] & Hv & [= <-]). done.
  - intros [Hv ->]. by exists ().
Qed.

Lemma match_all_Ok ty args out : match_all ty args = Ok out <-> Forall2 (matched ty) args out.
Proof.
  unfold match_all. rewrite collect_results_Ok. split; intros H; (eapply Forall2_impl; [exact H|]); intros a o; apply matched_arg_new_Ok.
Qed.

(** ** The comparison does what the patterns mean *)

Lemma get_range_checked_Ok {A} (l : list A) a b r : get_range_checked l a b = Ok r <-> a <= b <= length l /\ r = take (b - a) (drop a l).
Proof.
  unfold get_range_checked, slice. destruct (b <? a) eqn:E1; [apply Nat.ltb_lt in E1; split; [done|lia]|apply Nat.ltb_ge in E1].
  destruct (length l <? b) eqn:E2; [apply Nat.ltb_lt in E2; split; [done|lia]|apply Nat.ltb_ge in E2].
  rewrite bool_decide_true by lia. split; [by intros [= <-]|by intros [_ ->]].
Qed.

Lemma get_range_0_Ok {A} (l : list A) b r : get_range_checked l 0 b = Ok r <-> b <= length l /\ r = take b l.
Proof. rewrite get_range_checked_Ok, drop_0, Nat.sub_0_r. split; intros [? ->]; (split; [lia|done]). Qed.

Lemma is_exact_Some m n : is_exact (cardinality m) = Some n <-> exact m /\ n = 1.
Proof. unfold exact. destruct (cardinality m); cbn; naive_solver. Qed.
Lemma is_exact_None m : is_exact (cardinality m) = None <-> ~ exact m.
Proof. unfold exact. destruct (cardinality m); cbn; naive_solver. Qed.

Lemma assigned_app ms1 ms2 args out : assigned (ms1 ++ ms2) args out <->
  exists a1 a2 o1 o2, args = a1 ++ a2 /\ out = o1 ++ o2 /\ assigned ms1 a1 o1 /\ assigned ms2 a2 o2.
Proof.
  revert args out. induction ms1 as [|m ms1 IH]; intros args out; cbn [app].
  - split; [intros H; exists [], args, [], out; split; [done|split; [done|split; [constructor|done]]]|].
    intros (a1 & a2 & o1 & o2 & -> & -> & H1 & H2). by inversion H1; subst.
  - split.
    + inversion 1 as [|? ? here rest o o' Ht Hm Hrest]; subst. apply IH in Hrest as (a1 & a2 & o1 & o2 & -> & -> & H1 & H2).
      exists (here ++ a1), a2, (o ++ o1), o2. rewrite !app_assoc. split; [done|]. split; [done|]. split; [by constructor|done].
    + intros (a1 & a2 & o1 & o2 & -> & -> & H1 & H2). inversion H1; subst. rewrite <-!app_assoc. constructor; [done|done|].
      apply IH. eauto 10.
Qed.

Lemma assigned_singleton m args out : assigned [m] args out <-> takes m args /\ Forall2 (matched (arg_type m)) args out.
Proof.
  split.
  - inversion 1 as [|? ? here rest o o' Ht Hm Hrest]; subst. inversion Hrest; subst. by rewrite !app_nil_r.
  - intros [Ht Hm]. rewrite <-(app_nil_r args), <-(app_nil_r out). constructor; [done|done|constructor].
Qed.

Lemma assigned_length ms args out : assigned ms args out -> length out = length args /\ (Forall exact ms -> length args = length ms).
Proof.
  induction 1 as [|m ms here rest o o' Ht Hm _ [IH1 IH2]]; [done|]. rewrite !length_app, IH1, (Forall2_length _ _ _ Hm). split; [done|].
  intros [He Hes]%Forall_cons. unfold takes in Ht. rewrite He in Ht. by rewrite <-(Forall2_length _ _ _ Hm), Ht, IH2.
Qed.

Lemma match_exact_Ok ps range i out j : Forall exact ps -> i + length ps <= length range ->
  match_exact ps range i = Ok (out, j) <-> j = i + length ps /\ assigned ps (take (length ps) (drop i range)) out.
Proof.
  intros Hps. revert i out j. induction Hps as [|p ps Hp Hps IH]; intros i out j Hle; cbn [match_exact length].
  { rewrite Nat.add_0_r. split; [intros [= <- <-]; split; [done|constructor]|]. intros [-> Ha]. by inversion Ha. }
  cbn [length] in Hle. destruct (proj2 (is_exact_Some p 1) (conj Hp eq_refl)). assert (is_exact (cardinality p) = Some 1) as -> by (by apply is_exact_Some).
  cbn [ok_or mbind outcome_bind]. unfold slice. rewrite bool_decide_true by lia. cbn [mbind outcome_bind]. rewrite Nat.add_sub'.
  destruct (drop i range) as [|a l] eqn:Ed; [apply (f_equal length) in Ed; rewrite length_drop in Ed; cbn in Ed; lia|].
  assert (drop (i + 1) range = l) as Hl by (rewrite <-drop_drop, Ed; done).
  change (take 1 (a :: l)) with [a]. change (take (S (length ps)) (a :: l)) with ([a] ++ take (length ps) l).
  change (p :: ps) with ([p] ++ ps). rewrite bind_Ok. split.
  - intros (ms & Hms%match_all_Ok & Hrest). apply bind_Ok in Hrest as ([rest k] & Hr & [= <- <-]).
    apply IH in Hr as [-> Hr]; [|lia]. rewrite Hl in Hr. split; [lia|]. constructor; [unfold takes; by rewrite Hp|done|done].
  - intros [-> Ha]. apply assigned_app in Ha as (a1 & a2 & o1 & o2 & He & -> & H1 & H2). apply assigned_singleton in H1 as [Ht Hm].
    unfold takes in Ht. rewrite Hp in Ht. destruct a1 as [|x [|? ?]]; [done| |done]. injection He as <- <-.
    exists o1. split; [by apply match_all_Ok|]. apply bind_Ok. exists (o2, i + 1 + length ps). split; [|f_equal; f_equal; lia].
    apply IH; [lia|]. by rewrite Hl.
Qed.

Lemma partition_suffix program pats p p' v : vararg_pattern p = Some v ->
  partition_loop program pats false p = Ok p' <->
  Forall exact pats /\
  p' = mk_partition (num_prefix_args p) (num_suffix_args p + length pats) (prefix_patterns p) (suffix_patterns p ++ pats) (Some v).
Proof.
  revert p. induction pats as [|m pats IH]; intros p Hv; cbn [partition_loop length].
  { rewrite Nat.add_0_r, app_nil_r, <-Hv. destruct p. split; [by intros [= <-]|by intros [_ ->]]. }
  destruct (is_exact (cardinality m)) as [n|] eqn:E.
  - apply is_exact_Some in E as [Hm ->]. rewrite IH by done. cbn. rewrite <-app_assoc, Forall_cons, <-Nat.add_assoc. naive_solver.
  - apply is_exact_None in E. rewrite Hv. split; [done|]. by intros [[? _]%Forall_cons _].
Qed.

Lemma partition_prefix program pats p p' : vararg_pattern p = None -> suffix_patterns p = [] -> num_suffix_args p = 0 ->
  partition_loop program pats true p = Ok p' <->
  (Forall exact pats /\ p' = mk_partition (num_prefix_args p + length pats) 0 (prefix_patterns p ++ pats) [] None) \/
  (exists l1 v l2, pats = l1 ++ v :: l2 /\ Forall exact l1 /\ ~ exact v /\ Forall exact l2 /\
     p' = mk_partition (num_prefix_args p + length l1) (length l2) (prefix_patterns p ++ l1) l2 (Some v)).
Proof.
  revert p. induction pats as [|m pats IH]; intros p Hv Hs Hn; cbn [partition_loop length].
  { rewrite Nat.add_0_r, app_nil_r. destruct p; cbn in *; subst. split; [intros [= <-]; by left|].
    intros [[_ ->] | (l1 & v & l2 & He & _)]; [done|by destruct l1]. }
  destruct (is_exact (cardinality m)) as [n|] eqn:E.
  - apply is_exact_Some in E as [Hm ->]. rewrite IH by done. cbn. setoid_rewrite <-app_assoc. setoid_rewrite <-Nat.add_assoc. rewrite Forall_cons. split.
    + intros [[? ->] | (l1 & v & l2 & -> & ? & ? & ? & ->)]; [left; done|right]. exists (m :: l1), v, l2. split; [done|]. split; [by constructor|done].
    + intros [[[_ ?] ->] | (l1 & v & l2 & He & H1 & ? & ? & ->)]; [left; done|right].
      destruct l1 as [|x l1]; injection He as -> ->; [done|]. apply Forall_cons in H1 as [_ H1]. by exists l1, v, l2.
  - apply is_exact_None in E. rewrite Hv. rewrite (partition_suffix _ _ _ _ m) by done. cbn. rewrite Hs, Hn, Nat.add_0_l, app_nil_l. split.
    + intros [? ->]. right. exists [], m, pats. rewrite Nat.add_0_r, app_nil_r. done.
    + intros [[[? _]%Forall_cons _] | (l1 & v & l2 & He & H1 & ? & ? & ->)]; [done|].
      destruct l1 as [|x l1]; injection He as -> ->; [by rewrite Nat.add_0_r, app_nil_r|by apply Forall_cons in H1 as [? _]].
Qed.

Lemma partition_args_Ok program pats p : partition_args program pats = Ok p <->
  (Forall exact pats /\ p = mk_partition (length pats) 0 pats [] None) \/
  (exists l1 v l2, pats = l1 ++ v :: l2 /\ Forall exact l1 /\ ~ exact v /\ Forall exact l2 /\ p = mk_partition (length l1) (length l2) l1 l2 (Some v)).
Proof. unfold partition_args. by rewrite partition_prefix. Qed.

(** One pattern at most takes a number of arguments of its own. *)
Definition one_vararg (pats : list ArgMatcher) : Prop :=
  Forall exact pats \/ exists l1 v l2, pats = l1 ++ v :: l2 /\ Forall exact l1 /\ ~ exact v /\ Forall exact l2.

Lemma take_all_slice {A} (l : list A) n : n = length l -> take n l = l.
Proof. intros ->. apply firstn_all. Qed.

Lemma resolve_exact_patterns program args pats out : Forall exact pats ->
  resolve_observed_args_with_patterns program args pats = Ok out <-> assigned pats args out.
Proof.
  intros He. unfold resolve_observed_args_with_patterns. rewrite bind_Ok. setoid_rewrite partition_args_Ok. split.
  - intros (p & Hp & H). destruct Hp as [[_ ->]|(l1 & v & l2 & -> & _ & Hv & _)]; [|apply Forall_app in He as [_ [? _]%Forall_cons]; done].
    cbn [num_prefix_args num_suffix_args prefix_patterns suffix_patterns vararg_pattern] in H.
    apply bind_Ok in H as (prefix & [Hle ->]%get_range_0_Ok & H).
    apply bind_Ok in H as ([mp i] & [-> Hm]%match_exact_Ok & H); [|done|rewrite length_take; lia].
    rewrite drop_0, take_take, Nat.min_id in Hm. cbn [Nat.add] in H. destruct (_ <? 0); [done|]. rewrite Nat.sub_0_r in H.
    destruct (_ <? length pats); [done|]. cbn [mbind outcome_bind] in H. apply bind_Ok in H as (sfx & _ & H). cbn [match_exact mbind outcome_bind] in H.
    rewrite !app_nil_r in H. pose proof (assigned_length _ _ _ Hm) as [Hl1 Hl2]. specialize (Hl2 He). rewrite length_take in Hl1, Hl2.
    destruct (length mp <? length args) eqn:E; [by apply bind_Ok in H as (? & _ & ?)|]. apply Nat.ltb_ge in E. injection H as <-.
    by rewrite take_all_slice in Hm by lia.
  - intros Ha. exists (mk_partition (length pats) 0 pats [] None). split; [by left|]. cbn [num_prefix_args num_suffix_args prefix_patterns suffix_patterns vararg_pattern].
    pose proof (assigned_length _ _ _ Ha) as [Hl1 Hl2]. specialize (Hl2 He).
    apply bind_Ok. exists args. split; [apply get_range_0_Ok; rewrite take_all_slice by lia; split; [lia|done]|].
    apply bind_Ok. exists (out, length pats). split; [apply match_exact_Ok; [done|lia|]; rewrite drop_0, take_all_slice by lia; done|].
    rewrite (proj2 (Nat.ltb_ge _ 0)) by lia. rewrite Nat.sub_0_r, (proj2 (Nat.ltb_ge _ _)) by lia. cbn [mbind outcome_bind].
    apply bind_Ok. exists []. split; [apply get_range_checked_Ok; split; [lia|]; by rewrite drop_all, Nat.sub_diag|].
    cbn [match_exact mbind outcome_bind]. rewrite !app_nil_r. by rewrite (proj2 (Nat.ltb_ge _ _)) by lia.
Qed.

Lemma match_vararg_Ok program v args out : ~ exact v -> match_vararg program v args = Ok out <-> assigned [v] args out.
Proof.
  intros Hv. rewrite assigned_singleton. unfold match_vararg, takes. unfold exact in Hv. destruct (cardinality v); [done| |].
  - case_bool_decide; [split; [done|naive_solver]|]. rewrite match_all_Ok. naive_solver.
  - rewrite match_all_Ok. naive_solver.
Qed.

Lemma split_at_vararg l1 v l2 k1 w k2 : Forall exact l1 -> ~ exact v -> Forall exact k1 -> ~ exact w ->
  l1 ++ v :: l2 = k1 ++ w :: k2 -> l1 = k1 /\ v = w /\ l2 = k2.
Proof.
  intros H1 Hv Hk1 Hw. revert k1 Hk1. induction H1 as [|x l1 Hx H1 IH]; intros [|y k1] Hk1 He; injection He as -> He.
  - done.
  - by apply Forall_cons in Hk1 as [? _].
  - done.
  - apply Forall_cons in Hk1 as [_ Hk1]. by destruct (IH k1 Hk1 He) as (-> & -> & ->).
Qed.

Lemma partition_vararg program l1 v l2 p : Forall exact l1 -> ~ exact v -> Forall exact l2 ->
  partition_args program (l1 ++ v :: l2) = Ok p <-> p = mk_partition (length l1) (length l2) l1 l2 (Some v).
Proof.
  intros H1 Hv H2. rewrite partition_args_Ok. split.
  - intros [[He _]|(k1 & w & k2 & He & Hk1 & Hw & Hk2 & ->)]; [apply Forall_app in He as [_ [? _]%Forall_cons]; done|].
    by apply split_at_vararg in He as (-> & -> & ->).
  - intros ->. right. by exists l1, v, l2.
Qed.

Lemma assigned_three l1 v l2 args out : assigned (l1 ++ v :: l2) args out <->
  exists a1 a2 a3 o1 o2 o3, args = a1 ++ a2 ++ a3 /\ out = o1 ++ o2 ++ o3 /\ assigned l1 a1 o1 /\ assigned [v] a2 o2 /\ assigned l2 a3 o3.
Proof.
  change (v :: l2) with ([v] ++ l2). rewrite assigned_app. setoid_rewrite assigned_app. split.
  - intros (a1 & ? & o1 & ? & -> & -> & ? & a2 & a3 & o2 & o3 & -> & -> & ? & ?). by exists a1, a2, a3, o1, o2, o3.
  - intros (a1 & a2 & a3 & o1 & o2 & o3 & -> & -> & ? & ? & ?). exists a1, (a2 ++ a3), o1, (o2 ++ o3). split; [done|]. split; [done|]. split; [done|].
    by exists a2, a3, o2, o3.
Qed.

Lemma resolve_vararg_sound program args l1 v l2 out : Forall exact l1 -> ~ exact v -> Forall exact l2 ->
  resolve_observed_args_with_patterns program args (l1 ++ v :: l2) = Ok out -> assigned (l1 ++ v :: l2) args out.
Proof.
  intros H1 Hv H2. unfold resolve_observed_args_with_patterns. rewrite bind_Ok. intros (p & ->%partition_vararg & H); [|done..].
  cbn [num_prefix_args num_suffix_args prefix_patterns suffix_patterns vararg_pattern] in H.
  apply bind_Ok in H as (prefix & [Hle ->]%get_range_0_Ok & H).
  apply bind_Ok in H as ([mp i] & [-> Hm]%match_exact_Ok & H); [|done|rewrite length_take; lia].
  rewrite drop_0, take_take, Nat.min_id in Hm. cbn [Nat.add] in H. destruct (length args <? length l2) eqn:E1; [done|apply Nat.ltb_ge in E1].
  destruct (_ <? length l1) eqn:E2; [done|apply Nat.ltb_ge in E2]. apply bind_Ok in H as (mv & Hmv & H).
  apply bind_Ok in Hmv as (va & [_ ->]%get_range_checked_Ok & Hmv%match_vararg_Ok); [|done].
  apply bind_Ok in H as (sfx & [_ ->]%get_range_checked_Ok & H).
  replace (length args - (length args - length l2)) with (length l2) in H by lia.
  apply bind_Ok in H as ([ms j] & [_ Hs]%match_exact_Ok & H); [|done|rewrite length_take, length_drop; lia].
  rewrite drop_0, take_take, Nat.min_id in Hs. destruct (_ <? _); [by apply bind_Ok in H as (? & _ & ?)|]. injection H as <-.
  apply assigned_three.
  exists (take (length l1) args), (take (length args - length l2 - length l1) (drop (length l1) args)), (drop (length args - length l2) args), mp, mv, ms.
  split; [|split; [done|split; [exact Hm|split; [exact Hmv|]]]].
  - rewrite <-(take_drop (length l1) args) at 1. f_equal.
    rewrite <-(take_drop (length args - length l2 - length l1) (drop (length l1) args)) at 1. f_equal. rewrite drop_drop. f_equal. lia.
  - rewrite take_all_slice in Hs; [done|]. rewrite length_drop. lia.
Qed.

Lemma resolve_vararg_complete program args l1 v l2 out : Forall exact l1 -> ~ exact v -> Forall exact l2 ->
  assigned (l1 ++ v :: l2) args out -> resolve_observed_args_with_patterns program args (l1 ++ v :: l2) = Ok out.
Proof.
  intros H1 Hv H2 Ha. pose proof (proj1 (assigned_length _ _ _ Ha)) as Hlen.
  apply assigned_three in Ha as (a1 & a2 & a3 & o1 & o2 & o3 & -> & -> & Ha1 & Ha2 & Ha3).
  pose proof (proj2 (assigned_length _ _ _ Ha1) H1) as Hl1. pose proof (proj2 (assigned_length _ _ _ Ha3) H2) as Hl3.
  unfold resolve_observed_args_with_patterns. apply bind_Ok. eexists. split; [by apply partition_vararg|].
  cbn [num_prefix_args num_suffix_args prefix_patterns suffix_patterns vararg_pattern].
  apply bind_Ok. exists a1. split; [apply get_range_0_Ok; rewrite length_app, <-Hl1, take_app_length; split; [lia|done]|].
  apply bind_Ok. exists (o1, length l1). split.
  { apply match_exact_Ok; [done|lia|]. rewrite drop_0, take_all_slice by done. done. }
  rewrite !length_app in *. rewrite (proj2 (Nat.ltb_ge _ (length l2))), (proj2 (Nat.ltb_ge _ (length l1))) by lia.
  assert (forall x y, x = length a1 -> y = length a2 -> take y (drop x (a1 ++ a2 ++ a3)) = a2) as Hmid
    by (intros x y -> ->; by rewrite drop_app_length, take_app_length).
  assert (forall x y, x = length a1 + length a2 -> y = length a3 -> take y (drop x (a1 ++ a2 ++ a3)) = a3) as Hend.
  { intros x y -> ->. by rewrite <-drop_drop, !drop_app_length, firstn_all. }
  apply bind_Ok. exists o2. split.
  { apply bind_Ok. exists a2. split; [apply get_range_checked_Ok; rewrite !length_app, Hmid by lia; split; [lia|done]|by apply match_vararg_Ok]. }
  apply bind_Ok. exists a3. split; [apply get_range_checked_Ok; rewrite !length_app, Hend by lia; split; [lia|done]|].
  apply bind_Ok. exists (o3, length l2). split.
  { apply match_exact_Ok; [done|lia|]. rewrite drop_0, take_all_slice by done. done. }
  rewrite !length_app. by rewrite (proj2 (Nat.ltb_ge _ _)) by lia.
Qed.

Lemma resolve_Ok program args pats out :
  resolve_observed_args_with_patterns program args pats = Ok out <-> one_vararg pats /\ assigned pats args out.
Proof.
  split.
  - intros H. assert (one_vararg pats) as Hone.
    { unfold resolve_observed_args_with_patterns in H. apply bind_Ok in H as (p & Hp%partition_args_Ok & _).
      destruct Hp as [[? _]|(l1 & v & l2 & ? & ? & ? & ? & _)]; [by left|right; by exists l1, v, l2]. }
    split; [done|]. destruct Hone as [He|(l1 & v & l2 & -> & ? & ? & ?)]; [by eapply resolve_exact_patterns|by eapply resolve_vararg_sound].
  - intros [[He|(l1 & v & l2 & -> & ? & ? & ?)] Ha]; [by apply resolve_exact_patterns|by apply resolve_vararg_complete].
Qed.

(** ** Nothing panics *)

Lemma validate_arg_returns ty v : returns (validate ty v).
Proof. destruct ty; cbn; unfold parse_sed_command; repeat case_match; try done; repeat case_bool_decide; done. Qed.

Lemma match_all_returns ty args : returns (match_all ty args).
Proof.
  induction args as [|a args IH]; [done|]. unfold match_all in *. cbn [collect_results]. apply bind_returns.
  - unfold matched_arg_new. apply bind_returns; [apply validate_arg_returns|done].
  - intros o _. apply bind_returns; [done|done].
Qed.

Lemma match_exact_returns ps range i : Forall exact ps -> i + length ps <= length range -> returns (match_exact ps range i).
Proof.
  intros Hps. revert i. induction Hps as [|p ps Hp Hps IH]; intros i Hle; cbn [match_exact length] in *; [done|].
  assert (is_exact (cardinality p) = Some 1) as -> by (by apply is_exact_Some). cbn [ok_or mbind outcome_bind].
  unfold slice. rewrite bool_decide_true by lia. cbn [mbind outcome_bind]. apply bind_returns; [apply match_all_returns|].
  intros ms _. apply bind_returns; [apply IH; lia|by intros []].
Qed.

Lemma get_range_returns {A} (l : list A) a b : returns (get_range_checked l a b).
Proof.
  unfold get_range_checked, slice. destruct (b <? a) eqn:E1; [done|apply Nat.ltb_ge in E1]. destruct (length l <? b) eqn:E2; [done|apply Nat.ltb_ge in E2].
  by rewrite bool_decide_true by lia.
Qed.

Lemma partition_returns program pats pre p : returns (partition_loop program pats pre p).
Proof. revert pre p. induction pats as [|m pats IH]; intros pre p; cbn [partition_loop]; [done|]. repeat case_match; try done; apply IH. Qed.

Lemma partition_exact program pats p : partition_args program pats = Ok p ->
  Forall exact (prefix_patterns p) /\ Forall exact (suffix_patterns p) /\
  num_prefix_args p = length (prefix_patterns p) /\ num_suffix_args p = length (suffix_patterns p).
Proof. intros [[? ->]|(l1 & v & l2 & -> & ? & ? & ? & ->)]%partition_args_Ok; done. Qed.

Lemma resolve_returns program args pats : returns (resolve_observed_args_with_patterns program args pats).
Proof.
  unfold resolve_observed_args_with_patterns. apply bind_returns; [apply partition_returns|]. intros p (Hpre & Hsuf & Hn1 & Hn2)%partition_exact.
  apply bind_returns; [apply get_range_returns|]. intros prefix [Hle ->]%get_range_0_Ok.
  apply bind_returns; [apply match_exact_returns; [done|rewrite length_take; lia]|]. intros [mp i] _.
  destruct (length args <? num_suffix_args p) eqn:E1; [done|apply Nat.ltb_ge in E1]. destruct (_ <? i); [done|].
  apply bind_returns.
  - case_match; [|done]. apply bind_returns; [apply get_range_returns|]. intros va _. unfold match_vararg.
    repeat case_match; try done; apply match_all_returns.
  - intros mv _. apply bind_returns; [apply get_range_returns|]. intros sfx [_ ->]%get_range_checked_Ok.
    apply bind_returns; [apply match_exact_returns; [done|rewrite length_take, length_drop; lia]|]. intros [ms j] _.
    case_match; [|done]. apply bind_returns; [apply get_range_returns|done].
Qed.

(** The comparison of the arguments with a list of patterns always has a result. It
    succeeds exactly where at most one of the patterns takes a number of arguments of its own
    and the arguments can be given out, in order and none left over, so that every pattern
    takes as many as it may and each is valid for its type; what it gives is that assignment,
    with the place and the type of every argument. *)
Theorem resolve_spec program args pats :
  returns (resolve_observed_args_with_patterns program args pats) /\
  forall out, resolve_observed_args_with_patterns program args pats = Ok out <-> one_vararg pats /\ assigned pats args out.
Proof. split; [apply resolve_returns|intros out; apply resolve_Ok]. Qed.
