(* ===== verification/LegacyPolicy.v ===== *)
(** * The first exec policy (execpolicy-legacy/src)

    Programs with their options and patterns, the policy that a file of definitions makes,
    what it says of a call, and the check of the files a call names ([program.rs],
    [policy.rs], [policy_parser.rs], [opt.rs], [execv_checker.rs], [main.rs]). *)

From S2P Require Import Prelude RustStd Order PatchApply SandboxPolicy ExecPolicy LegacyArgs.

(** ** Programs *)

Inductive OptMeta : Type := Flag | Value (ty : ArgType).
Record Opt : Type := mk_opt { opt_name : str; opt_meta : OptMeta; opt_required : bool }.

Record ExecCall : Type := mk_call { call_program : str; call_args : list str }.

Record MatchedOpt : Type := mk_matched_opt { mopt_name : str; mopt_value : str; mopt_type : ArgType }.
Definition matched_opt_new (name value : str) (ty : ArgType) : result MatchedOpt :=
  _ ← validate ty value; Ok (mk_matched_opt name value ty).
Record MatchedFlag : Type := mk_matched_flag { mflag_name : str }.

Record ValidExec : Type := mk_valid_exec {
  exec_program : str;
  exec_flags : list MatchedFlag;
  exec_opts : list MatchedOpt;
  exec_args : list MatchedArg;
  exec_system_path : list str;
}.
Definition might_write_files (e : ValidExec) : bool :=
  existsb (fun o => might_write_file (mopt_type o)) (exec_opts e) || existsb (fun a => might_write_file (matched_type a)) (exec_args e).

Record ProgramSpec : Type := mk_spec {
  spec_program : str;
  spec_system_path : list str;
  option_bundling : bool;
  combined_format : bool;
  allowed_options : gmap str Opt;
  arg_patterns : list ArgMatcher;
  forbidden : option str;
  required_options : gset str;
  should_match : list (list str);
  should_not_match : list (list str);
}.

Definition spec_new (program : str) (system_path : list str) (option_bundling combined_format : bool) (allowed_options : gmap str Opt)
    (arg_patterns : list ArgMatcher) (forbidden : option str) (should_match should_not_match : list (list str)) : ProgramSpec :=
  mk_spec program system_path option_bundling combined_format allowed_options arg_patterns forbidden
    (dom (filter (fun p => opt_required p.2 = true) allowed_options)) should_match should_not_match.

Inductive Forbidden : Type :=
  | ForbiddenProgram (program : str) (exec_call : ExecCall)
  | ForbiddenArg (arg : str) (exec_call : ExecCall)
  | ForbiddenExec (exec : ValidExec).
Inductive MatchedExec : Type := Match (exec : ValidExec) | IsForbidden (cause : Forbidden) (reason : str).

(** What the loop over the arguments has collected. *)
Record Collected : Type := mk_collected { col_args : list PositionalArg; col_flags : list MatchedFlag; col_opts : list MatchedOpt }.

Fixpoint check_loop (spec : ProgramSpec) (args : list str) (index : nat) (expecting : option (str * ArgType)) (c : Collected)
    : result (Collected * option (str * ArgType)) :=
  match args with
  | [] => Ok (c, expecting)
  | arg :: args =>
      match expecting with
      | Some (name, arg_type) =>
          if starts_with (lit "-") arg then Err (OptionFollowedByOptionInsteadOfValue (spec_program spec) name arg)
          else
            o ← matched_opt_new name arg arg_type;
            check_loop spec args (S index) None (mk_collected (col_args c) (col_flags c) (col_opts c ++ [o]))
      | None =>
          if bool_decide (arg = lit "--") then Err (DoubleDashNotSupportedYet (spec_program spec))
          else if starts_with (lit "-") arg then
            match opt_meta <$> allowed_options spec !! arg with
            | Some Flag => check_loop spec args (S index) None (mk_collected (col_args c) (col_flags c ++ [mk_matched_flag arg]) (col_opts c))
            | Some (Value arg_type) => check_loop spec args (S index) (Some (arg, arg_type)) c
            | None => Err (UnknownOption (spec_program spec) arg)
            end
          else check_loop spec args (S index) None (mk_collected (col_args c ++ [mk_positional index arg]) (col_flags c) (col_opts c))
      end
  end.

Definition check_spec (spec : ProgramSpec) (exec_call : ExecCall) : result MatchedExec :=
  '(c, expecting) ← check_loop spec (call_args exec_call) 0 None (mk_collected [] [] []);
  match expecting with
  | Some (name, _) => Err (OptionMissingValue (spec_program spec) name)
  | None =>
      matched_args ← resolve_observed_args_with_patterns (spec_program spec) (col_args c) (arg_patterns spec);
      let matched_opt_names : gset str := list_to_set (mopt_name <$> col_opts c) in
      if negb (bool_decide (required_options spec ⊆ matched_opt_names)) then
        Err (MissingRequiredOptions (spec_program spec) (sort str_compare (elements (required_options spec ∖ matched_opt_names))))
      else
        let exec := mk_valid_exec (spec_program spec) (col_flags c) (col_opts c) matched_args (spec_system_path spec) in
        match forbidden spec with
        | Some reason => Ok (IsForbidden (ForbiddenExec exec) reason)
        | None => Ok (Match exec)
        end
  end.

Record PositiveExampleFailedCheck : Type := mk_positive { positive_program : str; positive_args : list str; positive_error : LegacyError }.
Record NegativeExamplePassedCheck : Type := mk_negative { negative_program : str; negative_args : list str }.

Definition verify_should_match_list (spec : ProgramSpec) : list PositiveExampleFailedCheck :=
  omap (fun good => match check_spec spec (mk_call (spec_program spec) good) with
                    | Err error => Some (mk_positive (spec_program spec) good error)
                    | _ => None
                    end) (should_match spec).
Definition verify_should_not_match_list (spec : ProgramSpec) : list NegativeExamplePassedCheck :=
  omap (fun bad => if is_ok (check_spec spec (mk_call (spec_program spec) bad)) then Some (mk_negative (spec_program spec) bad) else None)
    (should_not_match spec).

(** ** The policy *)

(** [regex_lite]. *)
Class RegexLib : Type := {
  Regex : Type;
  RegexError : Type;
  regex_new : str -> outcome RegexError Regex;
  regex_is_match : Regex -> str -> bool;
  regex_escape : str -> str;
}.

(** An alternative of escaped texts is found where one of the texts is. *)
Class RegexLaws `{RegexLib} : Prop := {
  escaped_alternatives subs : subs <> [] ->
    exists r, regex_new (lit "(" ++ join (lit "|") (regex_escape <$> subs) ++ lit ")") = Ok r /\
      forall s, regex_is_match r s = existsb (fun p => contains p s) subs;
}.

Section policy.
Context `{RegexLib} {M : Type -> Type} `{MultiMap M}.

Record ForbiddenProgramRegex : Type := mk_forbidden_regex { fpr_regex : Regex; fpr_reason : str }.

Record LegacyPolicy : Type := mk_policy {
  programs : M ProgramSpec;
  forbidden_program_regexes : list ForbiddenProgramRegex;
  forbidden_substrings_pattern : option Regex;
}.

Definition policy_new (programs : M ProgramSpec) (regexes : list ForbiddenProgramRegex) (forbidden_substrings : list str)
    : outcome RegexError LegacyPolicy :=
  if bool_decide (forbidden_substrings = []) then Ok (mk_policy programs regexes None)
  else
    r ← regex_new (lit "(" ++ join (lit "|") (regex_escape <$> forbidden_substrings) ++ lit ")");
    Ok (mk_policy programs regexes (Some r)).

Fixpoint first_match (specs : list ProgramSpec) (exec_call : ExecCall) (last_err : LegacyError) : result MatchedExec :=
  match specs with
  | [] => Err last_err
  | spec :: specs =>
      match check_spec spec exec_call with
      | Err err => first_match specs exec_call err
      | m => m
      end
  end.

Fixpoint forbidden_program (regexes : list ForbiddenProgramRegex) (program : str) : option str :=
  match regexes with
  | [] => None
  | r :: regexes => if regex_is_match (fpr_regex r) program then Some (fpr_reason r) else forbidden_program regexes program
  end.
Fixpoint forbidden_arg (pattern : option Regex) (args : list str) : option str :=
  match args, pattern with
  | arg :: args, Some regex => if regex_is_match regex arg then Some arg else forbidden_arg pattern args
  | _, _ => None
  end.

Definition check_policy (p : LegacyPolicy) (exec_call : ExecCall) : result MatchedExec :=
  match forbidden_program (forbidden_program_regexes p) (call_program exec_call) with
  | Some reason => Ok (IsForbidden (ForbiddenProgram (call_program exec_call) exec_call) reason)
  | None =>
      match forbidden_arg (forbidden_substrings_pattern p) (call_args exec_call) with
      | Some arg => Ok (IsForbidden (ForbiddenArg arg exec_call) (lit "arg `" ++ arg ++ lit "` contains forbidden substring"))
      | None =>
          first_match (default [] (mm_get_vec (programs p) (call_program exec_call))) exec_call (NoSpecForProgram (call_program exec_call))
      end
  end.

Definition check_each_good_list_individually (p : LegacyPolicy) : list PositiveExampleFailedCheck :=
  mm_iter_all (programs p) ≫= fun kv => kv.2 ≫= verify_should_match_list.
Definition check_each_bad_list_individually (p : LegacyPolicy) : list NegativeExamplePassedCheck :=
  mm_iter_all (programs p) ≫= fun kv => kv.2 ≫= verify_should_not_match_list.

(** ** Definitions of a policy: the calls a module makes *)

Inductive policy_call : Type :=
  | DefineProgram (program : str) (system_path : option (list str)) (option_bundling combined_format : option bool)
      (options : option (list Opt)) (args : option (list ArgMatcher)) (forbidden : option str)
      (should_match should_not_match : option (list (list str)))
  | ForbidSubstrings (strings : list str)
  | ForbidProgramRegex (regex reason : str).

Inductive PolicyError : Type := DuplicateFlag (name : str) | BadRegex (e : RegexError) | StarlarkError.

Record PolicyBuilder : Type := mk_builder {
  b_programs : M ProgramSpec;
  b_regexes : list ForbiddenProgramRegex;
  b_substrings : list str;
}.

Definition opt_of (name : str) (type : ArgMatcher) (required : option bool) : Opt := mk_opt name (Value (arg_type type)) (default false required).
Definition flag_of (name : str) : Opt := mk_opt name Flag false.

Fixpoint add_options (options : list Opt) (allowed : gmap str Opt) : outcome PolicyError (gmap str Opt) :=
  match options with
  | [] => Ok allowed
  | opt :: options =>
      match allowed !! opt_name opt with
      | Some _ => Err (DuplicateFlag (opt_name opt))
      | None => add_options options (<[opt_name opt := opt]> allowed)
      end
  end.

Definition run_call (c : policy_call) (b : PolicyBuilder) : outcome PolicyError PolicyBuilder :=
  match c with
  | DefineProgram program system_path bundling combined options args forbidden good bad =>
      allowed ← add_options (default [] options) ∅;
      let spec := spec_new program (default [] system_path) (default false bundling) (default false combined) allowed (default [] args)
                    forbidden (default [] good) (default [] bad) in
      Ok (mk_builder (mm_insert program spec (b_programs b)) (b_regexes b) (b_substrings b))
  | ForbidSubstrings strings => Ok (mk_builder (b_programs b) (b_regexes b) (b_substrings b ++ strings))
  | ForbidProgramRegex regex reason =>
      r ← map_err BadRegex (regex_new regex); Ok (mk_builder (b_programs b) (b_regexes b ++ [mk_forbidden_regex r reason]) (b_substrings b))
  end.

Fixpoint run_calls (cs : list policy_call) (b : PolicyBuilder) : outcome PolicyError PolicyBuilder :=
  match cs with [] => Ok b | c :: cs => b ← run_call c b; run_calls cs b end.

Definition build (b : PolicyBuilder) : outcome PolicyError LegacyPolicy := map_err BadRegex (policy_new (b_programs b) (b_regexes b) (b_substrings b)).

(** Starlark: the calls of a policy file, [None] where it does not evaluate. *)
Definition parse_policy (starlark_calls : str -> option (list policy_call)) (unparsed_policy : str) : outcome PolicyError LegacyPolicy :=
  calls ← ok_or (starlark_calls unparsed_policy) StarlarkError;
  b ← run_calls calls (mk_builder mm_new [] []);
  build b.

(** ** The command line tool *)

Inductive Output : Type :=
  | OutSafe (m : ValidExec) | OutMatch (m : ValidExec) | OutForbidden (reason : str) (cause : Forbidden) | OutUnverified (error : LegacyError).

Definition MATCHED_BUT_WRITES_FILES_EXIT_CODE : Z := 12.
Definition MIGHT_BE_SAFE_EXIT_CODE : Z := 13.
Definition FORBIDDEN_EXIT_CODE : Z := 14.

Definition check_command (p : LegacyPolicy) (exec_call : ExecCall) (check : bool) : outcome () (Output * Z) :=
  match check_policy p exec_call with
  | Ok (Match exec) =>
      if might_write_files exec then Ok (OutMatch exec, if check then MATCHED_BUT_WRITES_FILES_EXIT_CODE else 0%Z)
      else Ok (OutSafe exec, 0%Z)
  | Ok (IsForbidden cause reason) => Ok (OutForbidden reason cause, if check then FORBIDDEN_EXIT_CODE else 0%Z)
  | Err err => Ok (OutUnverified err, if check then MIGHT_BE_SAFE_EXIT_CODE else 0%Z)
  | Panic => Panic
  | Timeout => Timeout
  end.
End policy.
Arguments LegacyPolicy {_} M.
Arguments PolicyBuilder {_} M.

(** ** The files a call names *)

Section checker.
Variable h : host.
(** A file with an execute bit. *)
Variable is_executable_file : str -> bool.

Definition ensure_absolute_path (path : str) (cwd : option str) : result str :=
  if is_absolute path then map_err (CannotCanonicalizePath path) (absolutize h path)
  else
    match cwd with
    | Some cwd => map_err (CannotCanonicalizePath path) (absolutize_from h path (components cwd))
    | None => Err (CannotCheckRelativePath path)
    end.

Definition in_folders (file : str) (folders : list str) : bool :=
  existsb (fun folder => components_start_with (components file) (components folder)) folders.

Definition check_file (cwd : option str) (readable_folders writeable_folders : list str) (ty : ArgType) (value : str) : result () :=
  match ty with
  | TReadableFile =>
      file ← ensure_absolute_path value cwd;
      if in_folders file readable_folders then Ok () else Err (ReadablePathNotInReadableFolders file readable_folders)
  | TWriteableFile =>
      file ← ensure_absolute_path value cwd;
      if in_folders file writeable_folders then Ok () else Err (WriteablePathNotInWriteableFolders file writeable_folders)
  | _ => Ok ()
  end.

Fixpoint check_files (cwd : option str) (readable_folders writeable_folders : list str) (l : list (ArgType * str)) : result () :=
  match l with
  | [] => Ok ()
  | (ty, value) :: l => _ ← check_file cwd readable_folders writeable_folders ty value; check_files cwd readable_folders writeable_folders l
  end.

Definition named_values (e : ValidExec) : list (ArgType * str) :=
  ((fun a => (matched_type a, arg_value a)) <$> exec_args e) ++ ((fun o => (mopt_type o, mopt_value o)) <$> exec_opts e).

Definition execv_check (e : ValidExec) (cwd : option str) (readable_folders writeable_folders : list str) : result str :=
  _ ← check_files cwd readable_folders writeable_folders (named_values e);
  Ok (default (exec_program e) (head (filter (fun p => is_executable_file p = true) (exec_system_path e)))).
End checker.
