(* ===== verification/LegacyPolicySafety.v ===== *)
(** * What the first exec policy guarantees

    A call that matches is accounted for word by word, and a call said to be safe names no
    file outside of the folders it may read. *)

From S2P Require Import Prelude RustStd Order PatchApply SandboxPolicy ExecPolicy LegacyArgs LegacyPolicy.

(** ** Reading a command line *)

Inductive item : Type :=
  | IFlag (name : str)
  | IOpt (name value : str) (ty : ArgType)
  | IArg (index : nat) (value : str).

Definition flag_items (l : list item) : list MatchedFlag := omap (fun i => match i with IFlag n => Some (mk_matched_flag n) | _ => None end) l.
Definition opt_items (l : list item) : list MatchedOpt := omap (fun i => match i with IOpt n v ty => Some (mk_matched_opt n v ty) | _ => None end) l.
Definition arg_items (l : list item) : list PositionalArg := omap (fun i => match i with IArg k v => Some (mk_positional k v) | _ => None end) l.

Definition option_word (w : str) : Prop := starts_with (lit "-") w = true /\ w <> lit "--".

(** Every word is a flag, an option followed by its value, or an argument. *)
Inductive reads (spec : ProgramSpec) : nat -> list str -> list item -> Prop :=
  | reads_nil i : reads spec i [] []
  | reads_flag i w l items : option_word w -> opt_meta <$> allowed_options spec !! w = Some Flag ->
      reads spec (S i) l items -> reads spec i (w :: l) (IFlag w :: items)
  | reads_opt i w v ty l items : option_word w -> opt_meta <$> allowed_options spec !! w = Some (Value ty) ->
      starts_with (lit "-") v = false -> validate ty v = Ok () ->
      reads spec (S (S i)) l items -> reads spec i (w :: v :: l) (IOpt w v ty :: items)
  | reads_arg i w l items : starts_with (lit "-") w = false -> reads spec (S i) l items -> reads spec i (w :: l) (IArg i w :: items).

Definition collect (c : Collected) (items : list item) : Collected :=
  mk_collected (col_args c ++ arg_items items) (col_flags c ++ flag_items items) (col_opts c ++ opt_items items).

Lemma matched_opt_new_Ok n v ty o : matched_opt_new n v ty = Ok o <-> validate ty v = Ok () /\ o = mk_matched_opt n v ty.
Proof. unfold matched_opt_new. rewrite bind_Ok. split; [intros ([] & Hv & [= <-]); done|intros [Hv ->]; by exists ()]. Qed.

(** With an option pending, the first word is its value. *)
Definition reads_from (spec : ProgramSpec) (i : nat) (pending : option (str * ArgType)) (l : list str) (items : list item) : Prop :=
  match pending with
  | None => reads spec i l items
  | Some (n, ty) => exists v l' rest, l = v :: l' /\ items = IOpt n v ty :: rest /\ starts_with (lit "-") v = false /\ validate ty v = Ok () /\
      reads spec (S i) l' rest
  end.

Lemma check_loop_reads spec args i pending c c' : check_loop spec args i pending c = Ok (c', None) <->
  exists items, reads_from spec i pending args items /\ c' = collect c items.
Proof.
  assert (forall c, collect c [] = c) as Hnil by (intros []; unfold collect; cbn; by rewrite !app_nil_r).
  revert i pending c. induction args as [|w args IH]; intros i pending c; cbn [check_loop].
  { split.
    - intros [= -> ->]. exists []. rewrite Hnil. split; [constructor|done].
    - intros (items & Hr & ->). destruct pending as [[n ty]|]; [by destruct Hr as (? & ? & ? & ? & _)|]. inversion Hr; subst. by rewrite Hnil. }
  destruct pending as [[n ty]|].
  - destruct (starts_with (lit "-") w) eqn:Ew; [split; [done|intros (items & (v & l' & rest & [= <- <-] & _ & ? & _) & _); congruence]|].
    rewrite bind_Ok. setoid_rewrite matched_opt_new_Ok. split.
    + intros (o & [Hv ->] & (items & Hr & ->)%IH). exists (IOpt n w ty :: items). split; [by exists w, args, items|]. unfold collect. cbn. by rewrite <-app_assoc.
    + intros (items & (v & l' & rest & [= <- <-] & -> & _ & Hv & Hr) & ->). exists (mk_matched_opt n w ty). split; [done|]. apply IH. exists rest.
      split; [done|]. unfold collect. cbn. by rewrite <-app_assoc.
  - case_bool_decide as Hdd.
    { split; [done|]. intros (items & Hr & _). subst w. inversion Hr as [|? ? ? ? [_ Hn]|? ? ? ? ? ? [_ Hn]|? ? ? ? Hn]; done. }
    destruct (starts_with (lit "-") w) eqn:Ew.
    + destruct (opt_meta <$> allowed_options spec !! w) as [[|ty]|] eqn:Eo.
      * rewrite IH. split.
        -- intros (items & Hr & ->). exists (IFlag w :: items). split; [by constructor|]. unfold collect. cbn. by rewrite <-app_assoc.
        -- intros (items & Hr & ->). inversion Hr; subst; try congruence. eexists. split; [done|]. unfold collect. cbn. by rewrite <-app_assoc.
      * rewrite IH. split.
        -- intros (items & (v & l' & rest & -> & -> & Hv & Hval & Hr) & ->). exists (IOpt w v ty :: rest). split; [by constructor|done].
        -- intros (items & Hr & ->). inversion Hr; subst; try congruence. eexists. split; [|done]. cbn. assert (ty0 = ty) as -> by congruence. eauto 10.
      * split; [done|]. intros (items & Hr & _). inversion Hr; subst; congruence.
    + rewrite IH. split.
      * intros (items & Hr & ->). exists (IArg i w :: items). split; [by constructor|]. unfold collect. cbn. by rewrite <-app_assoc.
      * intros (items & Hr & ->). inversion Hr as [| ? ? ? ? [Hw _] | ? ? ? ? ? ? [Hw _] |]; subst; [congruence|congruence|].
        eexists. split; [done|]. unfold collect. cbn. by rewrite <-app_assoc.
Qed.

(** ** What a definition accepts *)

Record accepts (spec : ProgramSpec) (args : list str) (e : ValidExec) : Prop := {
  accepts_program : exec_program e = spec_program spec /\ exec_system_path e = spec_system_path spec;
  accepts_words : exists items, reads spec 0 args items /\ exec_flags e = flag_items items /\ exec_opts e = opt_items items /\
    one_vararg (arg_patterns spec) /\ assigned (arg_patterns spec) (arg_items items) (exec_args e);
  accepts_required : forall n, n ∈ required_options spec -> exists o, o ∈ exec_opts e /\ mopt_name o = n;
}.

Definition verdict (spec : ProgramSpec) (e : ValidExec) : MatchedExec :=
  match forbidden spec with Some reason => IsForbidden (ForbiddenExec e) reason | None => Match e end.

Lemma required_subset (req : gset str) opts :
  req ⊆ list_to_set (mopt_name <$> opts) <-> forall n, n ∈ req -> exists o, o ∈ opts /\ mopt_name o = n.
Proof.
  split.
  - intros Hs n Hn%Hs. apply elem_of_list_to_set, list_elem_of_fmap in Hn as (o & -> & ?). by exists o.
  - intros Hall n Hn. apply elem_of_list_to_set, list_elem_of_fmap. destruct (Hall n Hn) as (o & ? & <-). by exists o.
Qed.

Lemma check_spec_Ok spec call r : check_spec spec call = Ok r <-> exists e, accepts spec (call_args call) e /\ r = verdict spec e.
Proof.
  unfold check_spec. rewrite bind_Ok. split.
  - intros ([c [[n ty]|]] & Hl & H); [done|]. apply check_loop_reads in Hl as (items & Hr & ->). cbn [reads_from] in Hr.
    apply bind_Ok in H as (out & [Hone Ha]%resolve_Ok & H). unfold collect in *. cbn [col_args col_flags col_opts app] in *.
    case_bool_decide as Hreq; [|done]. cbn [negb] in H.
    exists (mk_valid_exec (spec_program spec) (flag_items items) (opt_items items) out (spec_system_path spec)).
    split; [|unfold verdict; destruct (forbidden spec); by injection H as <-].
    split; [done|by exists items|by apply required_subset].
  - intros (e & [[Hp Hsp] (items & Hr & Hf & Ho & Hone & Ha) Hreq] & ->). exists (collect (mk_collected [] [] []) items, None).
    split; [apply check_loop_reads; by exists items|]. cbn [collect col_args col_flags col_opts app].
    apply bind_Ok. exists (exec_args e). split; [by apply resolve_Ok|]. rewrite bool_decide_true by (apply required_subset; by rewrite <-Ho). cbn [negb].
    unfold verdict. destruct e as [p fs os xs sp]. cbn in *. subst. by destruct (forbidden spec).
Qed.

Lemma check_loop_returns spec args i pending c : returns (check_loop spec args i pending c).
Proof.
  revert i pending c. induction args as [|w args IH]; intros i pending c; cbn [check_loop]; [done|].
  destruct pending as [[n ty]|]; repeat case_match; try done; try apply IH.
  apply bind_returns; [|intros o _; apply IH]. unfold matched_opt_new. apply bind_returns; [apply validate_arg_returns|done].
Qed.

Lemma check_spec_returns spec call : returns (check_spec spec call).
Proof.
  unfold check_spec. apply bind_returns; [apply check_loop_returns|]. intros [c [[n ty]|]] _; [done|].
  apply bind_returns; [apply resolve_returns|]. intros out _. by repeat case_match.
Qed.

(** ** What a policy says of a call *)

Section policy.
Context `{RegexLib} {M : Type -> Type} `{MultiMap M}.

Lemma first_match_Ok specs call err r : first_match specs call err = Ok r <->
  exists before spec after, specs = before ++ spec :: after /\ Forall (fun s => forall r', check_spec s call <> Ok r') before /\ check_spec spec call = Ok r.
Proof.
  revert err. induction specs as [|s specs IH]; intros err; cbn [first_match].
  { split; [done|]. by intros ([|? ?] & ? & ? & ? & _). }
  pose proof (check_spec_returns s call) as Hret. destruct (check_spec s call) as [r0|e| |] eqn:E; try done.
  - split; [intros [= ->]; exists [], s, specs; by split_and!|]. intros ([|x before] & spec & after & [= -> ->] & Hb & Hs); [congruence|].
    apply Forall_cons in Hb as [Hx _]. by specialize (Hx r0).
  - rewrite IH. split.
    + intros (before & spec & after & -> & Hb & Hs). exists (s :: before), spec, after. split; [done|]. split; [|done]. constructor; [by rewrite E|done].
    + intros ([|x before] & spec & after & [= -> ->] & Hb & Hs); [congruence|]. apply Forall_cons in Hb as [_ Hb]. by exists before, spec, after.
Qed.

Lemma forbidden_program_None regexes program : forbidden_program regexes program = None <->
  forall r, r ∈ regexes -> regex_is_match (fpr_regex r) program = false.
Proof.
  induction regexes as [|r regexes IH]; cbn [forbidden_program]; [split; [by intros _ r ?%not_elem_of_nil|done]|].
  destruct (regex_is_match (fpr_regex r) program) eqn:E.
  - split; [done|]. intros Hall. specialize (Hall r ltac:(set_solver)). congruence.
  - rewrite IH. set_solver.
Qed.

Lemma forbidden_arg_None pattern args : forbidden_arg pattern args = None <->
  forall regex w, pattern = Some regex -> w ∈ args -> regex_is_match regex w = false.
Proof.
  induction args as [|a args IH]; cbn [forbidden_arg]; [split; [by intros _ ? ? _ ?%not_elem_of_nil|done]|].
  destruct pattern as [regex|]; [|done]. destruct (regex_is_match regex a) eqn:E.
  - split; [done|]. intros Hall. specialize (Hall regex a eq_refl ltac:(set_solver)). congruence.
  - rewrite IH. split; [|set_solver]. intros Hall r w [= <-] [-> | Hw]%elem_of_cons; [done|by apply Hall].
Qed.

Lemma check_policy_Match p call e : check_policy p call = Ok (Match e) <->
  (forall r, r ∈ forbidden_program_regexes p -> regex_is_match (fpr_regex r) (call_program call) = false) /\
  (forall regex w, forbidden_substrings_pattern p = Some regex -> w ∈ call_args call -> regex_is_match regex w = false) /\
  exists before spec after, default [] (mm_get_vec (programs p) (call_program call)) = before ++ spec :: after /\
    Forall (fun s => forall e', ~ accepts s (call_args call) e') before /\ forbidden spec = None /\ accepts spec (call_args call) e.
Proof.
  rewrite <-forbidden_program_None, <-forbidden_arg_None. unfold check_policy.
  destruct (forbidden_program _ _); [split; [done|by intros [? _]]|]. destruct (forbidden_arg _ _); [split; [done|by intros (_ & ? & _)]|].
  rewrite first_match_Ok. split.
  - intros (before & spec & after & Hs & Hb & (e' & Ha & Hv)%check_spec_Ok). split; [done|]. split; [done|]. exists before, spec, after.
    unfold verdict in Hv. destruct (forbidden spec) eqn:Ef; [done|]. injection Hv as <-. split; [done|]. split; [|done].
    eapply Forall_impl; [exact Hb|]. intros s Hno e1 He1. apply (Hno (verdict s e1)), check_spec_Ok. by exists e1.
  - intros (_ & _ & before & spec & after & Hs & Hb & Hf & Ha). exists before, spec, after. split; [done|]. split.
    + eapply Forall_impl; [exact Hb|]. intros s Hno r (e1 & He1 & _)%check_spec_Ok. by apply (Hno e1).
    + apply check_spec_Ok. exists e. split; [done|]. unfold verdict. by rewrite Hf.
Qed.

(** ** What the definitions of a policy make of it *)

Context {regex_laws : RegexLaws} {mm_laws : MultiMapLaws M}.

Definition substrings_of (cs : list policy_call) : list str := cs ≫= fun c => match c with ForbidSubstrings l => l | _ => [] end.

(** The definition of a program, as a call makes it. *)
Definition defines (c : policy_call) (spec : ProgramSpec) : Prop :=
  match c with
  | DefineProgram program system_path bundling combined options args forbidden good bad =>
      exists allowed, add_options (default [] options) ∅ = Ok (E := PolicyError) allowed /\
        spec = spec_new program (default [] system_path) (default false bundling) (default false combined) allowed (default [] args)
                 forbidden (default [] good) (default [] bad)
  | _ => False
  end.

Lemma run_calls_inv cs b b' : run_calls cs b = Ok b' ->
  b_substrings b' = b_substrings b ++ substrings_of cs /\
  forall program spec, spec ∈ default [] (mm_get_vec (b_programs b') program) ->
    spec ∈ default [] (mm_get_vec (b_programs b) program) \/ exists c, c ∈ cs /\ defines c spec /\ spec_program spec = program.
Proof.
  revert b. induction cs as [|c cs IH]; intros b Hrun; cbn [run_calls] in Hrun.
  { injection Hrun as <-. rewrite app_nil_r. split; [done|by left]. }
  apply bind_Ok in Hrun as (b1 & Hc & Hrun). destruct (IH b1 Hrun) as [Hsub Hspecs].
  assert (b_substrings b1 = b_substrings b ++ substrings_of [c] /\ forall program spec, spec ∈ default [] (mm_get_vec (b_programs b1) program) ->
            spec ∈ default [] (mm_get_vec (b_programs b) program) \/ (defines c spec /\ spec_program spec = program)) as [Hsub1 Hspecs1].
  { destruct c as [prog sp bu co opts args fo good bad|strings|regex reason]; cbn [run_call] in Hc.
    - apply bind_Ok in Hc as (allowed & Ha & [= <-]). cbn. rewrite app_nil_r. split; [done|]. intros program spec. rewrite get_insert.
      destruct (decide (prog = program)) as [->|]; [|by left]. cbn. rewrite elem_of_app, list_elem_of_singleton. intros [?| ->]; [by left|right].
      split; [by exists allowed|done].
    - injection Hc as <-. cbn. rewrite app_nil_r. split; [done|by left].
    - apply bind_Ok in Hc as (r & _ & [= <-]). cbn. rewrite app_nil_r. split; [done|by left]. }
  split.
  - rewrite Hsub, Hsub1, <-app_assoc. unfold substrings_of. by rewrite <-bind_app.
  - intros program spec [Hin | (c' & Hc' & Hd)]%Hspecs; [|right; exists c'; split; [by apply elem_of_cons; right|done]].
    apply Hspecs1 in Hin as [Hin | Hd]; [by left|right]. exists c. split; [by apply elem_of_cons; left|done].
Qed.

Lemma parse_policy_inv starlark src p : parse_policy starlark src = Ok p ->
  exists cs, starlark src = Some cs /\
    (forall program spec, spec ∈ default [] (mm_get_vec (programs p) program) -> exists c, c ∈ cs /\ defines c spec /\ spec_program spec = program) /\
    (forall s, s ∈ substrings_of cs -> exists regex, forbidden_substrings_pattern p = Some regex /\
       forall w, regex_is_match regex w = false -> contains s w = false).
Proof.
  unfold parse_policy. intros (cs & Hcs & Hp)%bind_Ok. destruct (starlark src) as [cs'|]; [|done]. injection Hcs as ->. exists cs. split; [done|].
  apply bind_Ok in Hp as (b & Hb & Hbuild). apply run_calls_inv in Hb as [Hsub Hspecs]. cbn in Hsub.
  unfold build in Hbuild. apply map_err_Ok in Hbuild. unfold policy_new in Hbuild. case_bool_decide as Hempty.
  - injection Hbuild as <-. cbn. split.
    + intros program spec Hin. apply Hspecs in Hin as [Hin|?]; [|done]. cbn in Hin. rewrite get_new in Hin. by apply not_elem_of_nil in Hin.
    + rewrite <-Hsub, Hempty. by intros s ?%not_elem_of_nil.
  - destruct (escaped_alternatives (b_substrings b) Hempty) as (regex & Hr & Hmatch). apply bind_Ok in Hbuild as (r & Hr' & [= <-]).
    rewrite Hr in Hr'. injection Hr' as <-. cbn. split.
    + intros program spec Hin. apply Hspecs in Hin as [Hin|?]; [|done]. cbn in Hin. rewrite get_new in Hin. by apply not_elem_of_nil in Hin.
    + intros s Hs. exists regex. split; [done|]. intros w Hw. rewrite Hmatch in Hw. rewrite <-Hsub in Hs.
      by apply (proj1 (existsb_false_elem _ _) Hw).
Qed.
End policy.

(** ** The words of an accepted call *)

Definition word_of (e : ValidExec) (w : str) : Prop :=
  mk_matched_flag w ∈ exec_flags e \/ (exists o, o ∈ exec_opts e /\ (w = mopt_name o \/ w = mopt_value o)) \/
  (exists a, a ∈ exec_args e /\ w = arg_value a).

Lemma assigned_values ms args out : assigned ms args out -> arg_value <$> out = pos_value <$> args.
Proof.
  induction 1 as [|m ms here rest o o' _ Hm _ IH]; [done|]. rewrite !fmap_app, IH. f_equal.
  clear -Hm. induction Hm as [|a b l k [_ ->] _ IH]; [done|]. cbn. by rewrite IH.
Qed.

Lemma reads_words spec i args items : reads spec i args items -> forall w, w ∈ args ->
  mk_matched_flag w ∈ flag_items items \/ (exists o, o ∈ opt_items items /\ (w = mopt_name o \/ w = mopt_value o)) \/ w ∈ pos_value <$> arg_items items.
Proof.
  induction 1 as [|i w l items _ _ _ IH|i w v ty l items _ _ _ _ _ IH|i w l items _ _ IH]; intros x Hx; [by apply not_elem_of_nil in Hx|..]; cbn.
  - apply elem_of_cons in Hx as [-> | Hx]; [left; by apply elem_of_cons; left|].
    destruct (IH x Hx) as [?|[?|?]]; [left; by apply elem_of_cons; right|by right; left|by right; right].
  - apply elem_of_cons in Hx as [-> | [-> | Hx]%elem_of_cons].
    + right. left. exists (mk_matched_opt w v ty). split; [by apply elem_of_cons; left|by left].
    + right. left. exists (mk_matched_opt w v ty). split; [by apply elem_of_cons; left|by right].
    + destruct (IH x Hx) as [?|[(o & ? & ?)|?]]; [by left|right; left; exists o; split; [by apply elem_of_cons; right|done]|by right; right].
  - apply elem_of_cons in Hx as [-> | Hx]; [right; right; by apply elem_of_cons; left|].
    destruct (IH x Hx) as [?|[?|?]]; [by left|by right; left|right; right; by apply elem_of_cons; right].
Qed.

Lemma accepts_every_word spec args e w : accepts spec args e -> w ∈ args -> word_of e w.
Proof.
  intros [_ (items & Hr & Hf & Ho & _ & Ha) _] Hw. unfold word_of. rewrite Hf, Ho.
  destruct (reads_words _ _ _ _ Hr w Hw) as [?|[?|Hin]]; [by left|by right; left|right; right].
  rewrite <-(assigned_values _ _ _ Ha) in Hin. apply list_elem_of_fmap in Hin as (a & -> & ?). by exists a.
Qed.

Section checker.
Context (h : host) (is_executable_file : str -> bool).

(** A value names a file within some folders. *)
Definition within (cwd : option str) (folders : list str) (value : str) : Prop :=
  exists file folder, ensure_absolute_path h value cwd = Ok file /\ folder ∈ folders /\ components folder `prefix_of` components file.

Lemma in_folders_true file folders : in_folders file folders = true <-> exists folder, folder ∈ folders /\ components folder `prefix_of` components file.
Proof. unfold in_folders. rewrite existsb_elem. by setoid_rewrite components_start_with_prefix. Qed.

Lemma check_files_Ok cwd R W l : check_files h cwd R W l = Ok () <->
  forall ty v, (ty, v) ∈ l -> match ty with TReadableFile => within cwd R v | TWriteableFile => within cwd W v | _ => True end.
Proof.
  induction l as [|[ty v] l IH]; cbn [check_files]; [split; [by intros _ ? ? ?%not_elem_of_nil|done]|].
  assert (forall folders (err : str -> LegacyError), (file ← ensure_absolute_path h v cwd; if in_folders file folders then Ok () else Err (err file)) = Ok () <-> within cwd folders v) as Hone.
  { intros folders err. rewrite bind_Ok. unfold within. split.
    - intros (file & Hf & Hin). destruct (in_folders file folders) eqn:E; [|done]. apply in_folders_true in E as (folder & ? & ?). by exists file, folder.
    - intros (file & folder & Hf & ? & ?). exists file. split; [done|]. assert (in_folders file folders = true) as -> by (apply in_folders_true; by exists folder). done. }
  assert (check_file h cwd R W ty v = Ok () <-> match ty with TReadableFile => within cwd R v | TWriteableFile => within cwd W v | _ => True end) as Hf.
  { destruct ty; try done.
    - apply (Hone R (fun file => ReadablePathNotInReadableFolders file R)).
    - apply (Hone W (fun file => WriteablePathNotInWriteableFolders file W)). }
  rewrite bind_Ok. split.
  - intros ([] & H1%Hf & H2) ty' v' [[= -> ->]|Hin]%elem_of_cons; [done|by apply IH].
  - intros Hall. exists (). split; [apply Hf, Hall; by apply elem_of_cons; left|]. apply IH. intros ty' v' Hin. apply Hall. by apply elem_of_cons; right.
Qed.

Lemma execv_check_Ok e cwd R W program : execv_check h is_executable_file e cwd R W = Ok program <->
  (forall ty v, (ty, v) ∈ named_values e -> match ty with TReadableFile => within cwd R v | TWriteableFile => within cwd W v | _ => True end) /\
  program = default (exec_program e) (head (filter (fun p => is_executable_file p = true) (exec_system_path e))).
Proof. unfold execv_check. rewrite bind_Ok, <-check_files_Ok. split; [intros ([] & ? & [= <-]); done|intros [? ->]; by exists ()]. Qed.
End checker.

(** A value that is no file, or a file within the folders. *)
Definition harmless (h : host) (cwd : option str) (R : list str) (ty : ArgType) (v : str) : Prop :=
  match ty with
  | TLiteral l => v = l
  | TOpaqueNonFile => True
  | TPositiveInteger => exists n, parse_u64 v = Some n /\ (0 < n)%N
  | TSedCommand => parse_sed_command v = Ok ()
  | TReadableFile => within h cwd R v
  | TWriteableFile | TUnknown => False
  end.

Lemma valid_value ty v : validate ty v = Ok () ->
  match ty with
  | TLiteral l => v = l
  | TPositiveInteger => exists n, parse_u64 v = Some n /\ (0 < n)%N
  | TSedCommand => parse_sed_command v = Ok ()
  | _ => True
  end.
Proof.
  destruct ty; cbn; try done; [destruct (decide (v = value)) as [|Hne]; [done|by rewrite bool_decide_true]|].
  destruct (parse_u64 v) as [n|]; [|done]. destruct (n =? 0)%N eqn:E; [done|]. apply N.eqb_neq in E. intros _. exists n. split; [done|lia].
Qed.

Lemma assigned_valid ms args out : assigned ms args out -> forall a, a ∈ out -> validate (matched_type a) (arg_value a) = Ok ().
Proof.
  induction 1 as [|m ms here rest o o' _ Hm _ IH]; intros a Ha; [by apply not_elem_of_nil in Ha|].
  apply elem_of_app in Ha as [Ha|Ha]; [|by apply IH]. clear -Hm Ha.
  induction Hm as [|x y l k [Hv ->] _ IH]; [by apply not_elem_of_nil in Ha|]. apply elem_of_cons in Ha as [-> | Ha]; [done|by apply IH].
Qed.

Lemma reads_valid spec i args items : reads spec i args items -> forall o, o ∈ opt_items items -> validate (mopt_type o) (mopt_value o) = Ok ().
Proof.
  induction 1 as [|i w l items _ _ _ IH|i w v ty l items _ _ _ Hv _ IH|i w l items _ _ IH]; intros o Ho; cbn in Ho; [by apply not_elem_of_nil in Ho|by apply IH| |by apply IH].
  apply elem_of_cons in Ho as [-> | Ho]; [done|by apply IH].
Qed.

Lemma might_write_false e : might_write_files e = false -> forall ty v, (ty, v) ∈ named_values e -> might_write_file ty = false.
Proof.
  unfold might_write_files, named_values. rewrite orb_false_iff, !existsb_false_elem. intros [Ho Ha] ty v.
  rewrite elem_of_app, !list_elem_of_fmap. intros [(a & [= -> ->] & ?)|(o & [= -> ->] & ?)]; [by apply Ha|by apply Ho].
Qed.

Lemma accepts_valid spec args e : accepts spec args e -> forall ty v, (ty, v) ∈ named_values e -> validate ty v = Ok ().
Proof.
  intros [_ (items & Hr & _ & Ho & _ & Ha) _] ty v. unfold named_values. rewrite elem_of_app, !list_elem_of_fmap.
  intros [(a & [= -> ->] & ?)|(o & [= -> ->] & Hin)]; [by eapply assigned_valid|]. rewrite Ho in Hin. by eapply reads_valid.
Qed.

(** ** What holds of every call *)

Section theorems.
Context `{RegexLib} {M : Type -> Type} `{MultiMap M}.
Context {regex_laws : RegexLaws} {mm_laws : MultiMapLaws M}.

Lemma check_command_safe p call check e code : check_command (M := M) p call check = Ok (OutSafe e, code) ->
  check_policy p call = Ok (Match e) /\ might_write_files e = false /\ code = 0%Z.
Proof.
  unfold check_command. destruct (check_policy p call) as [[e'|cause reason]|err| |]; try done. destruct (might_write_files e') eqn:E; [done|].
  by intros [= -> <-].
Qed.

Lemma harmless_values h x spec args e cwd R W program : accepts spec args e -> might_write_files e = false ->
  execv_check h x e cwd R W = Ok program -> forall ty v, (ty, v) ∈ named_values e -> harmless h cwd R ty v.
Proof.
  intros Ha Hw [Hf _]%execv_check_Ok ty v Hin. pose proof (might_write_false e Hw ty v Hin). specialize (Hf ty v Hin).
  pose proof (valid_value ty v (accepts_valid _ _ _ Ha ty v Hin)). by destruct ty.
Qed.

Lemma executed h x e cwd R W program : execv_check h x e cwd R W = Ok program ->
  program = exec_program e \/ (program ∈ exec_system_path e /\ x program = true).
Proof.
  intros [_ ->]%execv_check_Ok. destruct (filter _ _) as [|q l] eqn:E; [by left|right]. cbn.
  assert (q ∈ q :: l) as Hin by (by apply elem_of_cons; left). rewrite <-E in Hin. by apply list_elem_of_filter in Hin as [? ?].
Qed.

Lemma omap_nil {A B} (f : A -> option B) l : omap f l = [] <-> forall x, x ∈ l -> f x = None.
Proof.
  induction l as [|a l IH]; cbn; [split; [by intros _ ? ?%not_elem_of_nil|done]|]. destruct (f a) eqn:E.
  - split; [done|]. intros Hall. specialize (Hall a ltac:(set_solver)). congruence.
  - rewrite IH. set_solver.
Qed.

Lemma reports_nil {A} (f : ProgramSpec -> list A) (m : M ProgramSpec) : (mm_iter_all m ≫= fun kv => kv.2 ≫= f) = [] <->
  forall k specs spec, mm_get_vec m k = Some specs -> spec ∈ specs -> f spec = [].
Proof.
  setoid_rewrite <-elem_of_iter_all. split.
  - intros Hnil k specs spec Hk Hs. destruct (f spec) as [|y l] eqn:E; [done|].
    assert (y ∈ mm_iter_all m ≫= fun kv => kv.2 ≫= f) as Hy; [|rewrite Hnil in Hy; by apply not_elem_of_nil in Hy].
    apply list_elem_of_bind. exists (k, specs). split; [|done]. apply list_elem_of_bind. exists spec. rewrite E. set_solver.
  - intros Hall. destruct (_ ≫= _) as [|y l] eqn:E; [done|].
    assert (y ∈ mm_iter_all m ≫= fun kv => kv.2 ≫= f) as Hy by (rewrite E; set_solver).
    apply list_elem_of_bind in Hy as ([k specs] & (spec & Hy & Hs)%list_elem_of_bind & Hk). rewrite (Hall k specs spec Hk Hs) in Hy. by apply not_elem_of_nil in Hy.
Qed.

(** C18. A call that a parsed policy says is safe, and whose files pass the check of the
    folders: no argument contains a substring the policy file forbids; a definition of the
    file, one without a reason to forbid, accepts the call; every word of the call is a flag
    of it, an option, the value of an option or an argument, none of which can write a file;
    every value is valid for its type, and every file is within the folders that may be
    read; and what is executed is the program called or an executable of its system path. *)
Theorem safe_call_contained starlark src p call check e code h x cwd R W program :
  parse_policy (M := M) starlark src = Ok p -> check_command p call check = Ok (OutSafe e, code) ->
  execv_check h x e cwd R W = Ok program ->
  exists cs, starlark src = Some cs /\
    (forall s w, s ∈ substrings_of cs -> w ∈ call_args call -> contains s w = false) /\
    (exists c spec, c ∈ cs /\ defines c spec /\ spec_program spec = call_program call /\ forbidden spec = None /\ accepts spec (call_args call) e) /\
    (forall w, w ∈ call_args call -> word_of e w) /\
    (forall ty v, (ty, v) ∈ named_values e -> harmless h cwd R ty v) /\
    (program = call_program call \/ (program ∈ exec_system_path e /\ x program = true)).
Proof.
  intros (cs & Hcs & Hspecs & Hsub)%parse_policy_inv (Hm & Hw & _)%check_command_safe He. exists cs. split; [done|].
  apply check_policy_Match in Hm as (_ & Hargs & before & spec & after & Hall & _ & Hf & Ha).
  destruct (Hspecs (call_program call) spec) as (c & Hc & Hd & Hprog); [rewrite Hall; set_solver|].
  split; [|split; [|split; [|split]]].
  - intros s w Hs Hin. destruct (Hsub s Hs) as (regex & Hp & Hno). by apply Hno, Hargs.
  - by exists c, spec.
  - intros w. by apply (accepts_every_word spec).
  - by eapply harmless_values.
  - rewrite <-Hprog, <-(proj1 (accepts_program _ _ _ Ha)). by eapply executed.
Qed.

(** A policy permits a call: no rule forbids it, and the first definition of its program
    that accepts it is one without a reason to forbid. *)
Definition permits (p : LegacyPolicy M) (call : ExecCall) (e : ValidExec) : Prop :=
  (forall r, r ∈ forbidden_program_regexes p -> regex_is_match (fpr_regex r) (call_program call) = false) /\
  (forall regex w, forbidden_substrings_pattern p = Some regex -> w ∈ call_args call -> regex_is_match regex w = false) /\
  exists before spec after, default [] (mm_get_vec (programs p) (call_program call)) = before ++ spec :: after /\
    Forall (fun s => forall e', ~ accepts s (call_args call) e') before /\ forbidden spec = None /\ accepts spec (call_args call) e.

(** The check of a policy always has a result, and it matches a call exactly where the
    policy permits it, with what the call means: the flags, the options with their values,
    and the arguments that the patterns of the definition take, in order. *)
Theorem policy_matches_what_it_permits (p : LegacyPolicy M) call :
  returns (check_policy p call) /\ forall e, check_policy p call = Ok (Match e) <-> permits p call e.
Proof.
  split; [|apply check_policy_Match]. unfold check_policy. repeat case_match; try done. generalize (NoSpecForProgram (call_program call)).
  induction (default [] _) as [|s specs IH]; intros err; cbn [first_match]; [done|]. pose proof (check_spec_returns s call). by destruct (check_spec s call).
Qed.

(** No complaint about the examples of a policy is left exactly where every list of
    arguments given as good is accepted by its definition and no list given as bad is. *)
Theorem examples_hold (p : LegacyPolicy M) :
  (check_each_good_list_individually p = [] <-> forall k specs spec good, mm_get_vec (programs p) k = Some specs -> spec ∈ specs ->
     good ∈ should_match spec -> exists e, accepts spec good e) /\
  (check_each_bad_list_individually p = [] <-> forall k specs spec bad, mm_get_vec (programs p) k = Some specs -> spec ∈ specs ->
     bad ∈ should_not_match spec -> forall e, ~ accepts spec bad e).
Proof.
  unfold check_each_good_list_individually, check_each_bad_list_individually, verify_should_match_list, verify_should_not_match_list.
  split; rewrite reports_nil; setoid_rewrite omap_nil;
    (split; [intros Hall k specs spec args Hk Hs Ha|intros Hall k specs spec Hk Hs args Ha]; specialize (Hall k specs spec)).
  - pose proof (check_spec_returns spec (mk_call (spec_program spec) args)). specialize (Hall Hk Hs args Ha).
    destruct (check_spec _ _) as [r|err| |] eqn:E; try done. apply check_spec_Ok in E as (e & He & _). by exists e.
  - destruct (Hall args Hk Hs Ha) as (e & He).
    assert (check_spec spec (mk_call (spec_program spec) args) = Ok (verdict spec e)) as -> by (apply check_spec_Ok; by exists e). done.
  - intros e He. specialize (Hall Hk Hs args Ha).
    assert (check_spec spec (mk_call (spec_program spec) args) = Ok (verdict spec e)) as E by (apply check_spec_Ok; by exists e). by rewrite E in Hall.
  - destruct (check_spec _ _) as [r|err| |] eqn:E; try done. apply check_spec_Ok in E as (e & He & _). by destruct (Hall args Hk Hs Ha e).
Qed.
End theorems.

(** ** An example: a policy that lists and copies files *)

(** Alternatives of texts, each character escaped. *)
Fixpoint unescape (s cur : str) : list str :=
  match s with
  | [] => [cur]
  | c :: s =>
      if bool_decide (c = ch "|") then cur :: unescape s []
      else match s with c' :: s' => if bool_decide (c = ch "\") then unescape s' (cur ++ [c']) else unescape s (cur ++ [c]) | [] => [cur ++ [c]] end
  end.
Definition escape_text (s : str) : str := s ≫= fun c => [ch "\"; c].

Definition text_alternatives : RegexLib := {|
  Regex := list str;
  RegexError := ();
  regex_new s := match strip_prefix (lit "(") s ≫= strip_suffix (lit ")") with Some s => Ok (unescape s []) | None => Err () end;
  regex_is_match subs s := existsb (fun p => contains p s) subs;
  regex_escape := escape_text;
|}.

Lemma unescape_escaped s rest cur : unescape (escape_text s ++ rest) cur = unescape rest (cur ++ s).
Proof.
  revert cur. induction s as [|c s IH]; intros cur; [by rewrite app_nil_r|]. change (escape_text (c :: s)) with (ch "\" :: c :: escape_text s).
  cbn [app unescape]. rewrite bool_decide_false by done. rewrite bool_decide_true by done. by rewrite IH, <-app_assoc.
Qed.

Lemma unescape_join subs : subs <> [] -> unescape (join (lit "|") (escape_text <$> subs)) [] = subs.
Proof.
  induction subs as [|p subs IH]; [done|]. intros _. destruct subs as [|q subs].
  - cbn. rewrite <-(app_nil_r (escape_text p)). by rewrite unescape_escaped.
  - change (join (lit "|") (escape_text <$> p :: q :: subs)) with (escape_text p ++ lit "|" ++ join (lit "|") (escape_text <$> q :: subs)).
    rewrite unescape_escaped. cbn [app lit]. rewrite <-IH at 2 by done. done.
Qed.

Lemma text_alternatives_laws : @RegexLaws text_alternatives.
Proof.
  constructor. intros subs Hne. exists subs. split; [|done].
  cbn [regex_new regex_escape text_alternatives]. rewrite (proj2 (strip_prefix_Some _ _ _) eq_refl). cbn [mbind option_bind].
  rewrite (proj2 (strip_suffix_Some _ _ _) eq_refl). by rewrite unescape_join.
Qed.

Definition example_calls : list policy_call := [
  DefineProgram (lit "ls") (Some [lit "/bin/ls"; lit "/usr/bin/ls"]) None None (Some [flag_of (lit "-l")]) (Some [MReadableFilesOrCwd]) None None None;
  DefineProgram (lit "head") None None None (Some [opt_of (lit "-n") MPositiveInteger None; flag_of (lit "-q")]) (Some [MReadableFiles]) None
    (Some [[lit "-n"; lit "10"; lit "a"]]) (Some [[]]);
  DefineProgram (lit "cp") None None None None (Some [MReadableFiles; MWriteableFile]) None None None;
  ForbidSubstrings [lit "$("]
].
Definition example_starlark (src : str) : option (list policy_call) := if bool_decide (src = lit "policy") then Some example_calls else None.

Definition example_legacy_policy := parse_policy (H := text_alternatives) (M := map_of_lists) example_starlark (lit "policy").

(** The executable [/usr/bin/ls] alone. *)
Definition example_executable (p : str) : bool := bool_decide (p = lit "/usr/bin/ls").

Definition head_call : ExecCall := mk_call (lit "head") [lit "-n"; lit "10"; lit "/w/a"; lit "/w/b"].
Definition head_exec : ValidExec := mk_valid_exec (lit "head") [] [mk_matched_opt (lit "-n") (lit "10") TPositiveInteger]
  [mk_matched_arg 2 TReadableFile (lit "/w/a"); mk_matched_arg 3 TReadableFile (lit "/w/b")] [].

Lemma safe_call_contained_witness :
  exists p cs, example_legacy_policy = Ok p /\ check_command p head_call true = Ok (OutSafe head_exec, 0%Z) /\ example_starlark (lit "policy") = Some cs /\
    forall w, w ∈ call_args head_call -> word_of head_exec w.
Proof.
  assert (match example_legacy_policy with Ok p => check_command p head_call true | _ => Err () end = Ok (OutSafe head_exec, 0%Z)) as Hc by (vm_compute; reflexivity).
  destruct example_legacy_policy as [p|e| |] eqn:Hp; [|discriminate Hc..].
  destruct (@safe_call_contained text_alternatives map_of_lists _ text_alternatives_laws _ example_starlark (lit "policy") p head_call true head_exec 0%Z
    (demo_host []) example_executable None [lit "/w"] [] (lit "head") Hp Hc ltac:(vm_compute; reflexivity)) as (cs & Hcs & _ & _ & Hw & _).
  exists p, cs. split; [reflexivity|]. split; [exact Hc|]. split; [exact Hcs|exact Hw].
Defined.

(** What the check does not see: [ls] without an argument lists the working directory, and the
    policy says that it is safe; the check of the folders looks at the arguments alone, and so
    lets it run where no folder at all may be read. *)
Theorem working_directory_unchecked h x cwd : exists e,
  (p ← example_legacy_policy; map_err (fun _ => StarlarkError) (check_command p (mk_call (lit "ls") []) true)) = Ok (OutSafe e, 0%Z) /\
  named_values e = [] /\ is_ok (execv_check h x e cwd [] []) = true.
Proof. eexists. split; [vm_compute; reflexivity|]. split; reflexivity. Qed.

(** The option's value, and the arguments of the two patterns. *)
Example cp_writes : (p ← example_legacy_policy; map_err (fun _ => StarlarkError) (check_command p (mk_call (lit "cp") [lit "a"; lit "b"; lit "c"]) true)) =
  Ok (OutMatch (mk_valid_exec (lit "cp") [] [] [mk_matched_arg 0 TReadableFile (lit "a"); mk_matched_arg 1 TReadableFile (lit "b");
    mk_matched_arg 2 TWriteableFile (lit "c")] []), 12%Z).
Proof. vm_compute. reflexivity. Qed.
Example forbidden_word : exists c r, (p ← example_legacy_policy; map_err (fun _ => StarlarkError) (check_command p (mk_call (lit "cp") [lit "a$(b)"; lit "c"]) true)) =
  Ok (OutForbidden r c, 14%Z).
Proof. eexists _, _. vm_compute. reflexivity. Qed.
