(* ===== verification/Utf8.v ===== *)
(** * UTF-8

    [str::as_bytes] and [String::from_utf8_lossy]: the encoding of characters in bytes, and
    the decoding that replaces what is none (RFC 3629; one replacement character for every
    longest start of a sequence). *)

From S2P Require Import Prelude RustStd.

Definition REPLACEMENT : char := 65533%N.

(** A Unicode scalar value. *)
Definition scalar (c : char) : Prop := (c < 55296 \/ 57344 <= c < 1114112)%N.
#[export] Instance scalar_dec c : Decision (scalar c).
Proof. unfold scalar. apply _. Defined.

Definition encode_char (c : char) : list N :=
  (if bool_decide (c < 128) then [c]
   else if bool_decide (c < 2048) then [192 + c / 64; 128 + c mod 64]
   else if bool_decide (c < 65536) then [224 + c / 4096; 128 + c / 64 mod 64; 128 + c mod 64]
   else [240 + c / 262144; 128 + c / 4096 mod 64; 128 + c / 64 mod 64; 128 + c mod 64])%N.
Definition encode_utf8 (s : str) : list N := s ≫= encode_char.

Definition in_range (lo hi b : N) : bool := (lo <=? b)%N && (b <=? hi)%N.
Definition continuation : N -> bool := in_range 128 191.

(** Which second bytes may follow the first one of three, and of four. *)
Definition second_of_three (b c : N) : bool :=
  if (b =? 224)%N then in_range 160 191 c else if (b =? 237)%N then in_range 128 159 c else continuation c.
Definition second_of_four (b c : N) : bool :=
  if (b =? 240)%N then in_range 144 191 c else if (b =? 244)%N then in_range 128 143 c else continuation c.

Definition low (b : N) : N := (b - 128)%N.

Fixpoint from_utf8_lossy (l : list N) : str :=
  match l with
  | [] => []
  | b :: l1 =>
      if (b <? 128)%N then b :: from_utf8_lossy l1
      else if in_range 194 223 b then
        match l1 with
        | c :: l2 => if continuation c then ((b - 192) * 64 + low c)%N :: from_utf8_lossy l2 else REPLACEMENT :: from_utf8_lossy l1
        | [] => [REPLACEMENT]
        end
      else if in_range 224 239 b then
        match l1 with
        | c :: l2 =>
            if second_of_three b c then
              match l2 with
              | d :: l3 => if continuation d then ((b - 224) * 4096 + low c * 64 + low d)%N :: from_utf8_lossy l3 else REPLACEMENT :: from_utf8_lossy l2
              | [] => [REPLACEMENT]
              end
            else REPLACEMENT :: from_utf8_lossy l1
        | [] => [REPLACEMENT]
        end
      else if in_range 240 244 b then
        match l1 with
        | c :: l2 =>
            if second_of_four b c then
              match l2 with
              | d :: l3 =>
                  if continuation d then
                    match l3 with
                    | e :: l4 =>
                        if continuation e then ((b - 240) * 262144 + low c * 4096 + low d * 64 + low e)%N :: from_utf8_lossy l4
                        else REPLACEMENT :: from_utf8_lossy l3
                    | [] => [REPLACEMENT]
                    end
                  else REPLACEMENT :: from_utf8_lossy l2
              | [] => [REPLACEMENT]
              end
            else REPLACEMENT :: from_utf8_lossy l1
        | [] => [REPLACEMENT]
        end
      else REPLACEMENT :: from_utf8_lossy l1
  end.

Lemma in_range_true lo hi b : in_range lo hi b = true <-> (lo <= b <= hi)%N.
Proof. unfold in_range. rewrite andb_true_iff, !N.leb_le. done. Qed.
Lemma in_range_false lo hi b : in_range lo hi b = false <-> ~ (lo <= b <= hi)%N.
Proof. rewrite <-in_range_true. by destruct (in_range lo hi b). Qed.

Ltac bytes := rewrite ?N.ltb_ge, ?N.ltb_lt, ?in_range_true, ?in_range_false; zify; Z.to_euclidean_division_equations; lia.

Lemma continuation_mod n : continuation (128 + n mod 64) = true.
Proof. unfold continuation. bytes. Qed.

Lemma second_of_three_ok c : scalar c -> (2048 <= c < 65536)%N -> second_of_three (224 + c / 4096) (128 + c / 64 mod 64) = true.
Proof.
  unfold scalar, second_of_three, continuation. intros Hs Hc. destruct (N.eqb_spec (224 + c / 4096) 224); [bytes|].
  destruct (N.eqb_spec (224 + c / 4096) 237); bytes.
Qed.

Lemma second_of_four_ok c : scalar c -> (65536 <= c)%N -> second_of_four (240 + c / 262144) (128 + c / 4096 mod 64) = true.
Proof.
  unfold scalar, second_of_four, continuation. intros Hs Hc. destruct (N.eqb_spec (240 + c / 262144) 240); [bytes|].
  destruct (N.eqb_spec (240 + c / 262144) 244); bytes.
Qed.

Lemma from_utf8_lossy_char c l : scalar c -> from_utf8_lossy (encode_char c ++ l) = c :: from_utf8_lossy l.
Proof.
  intros Hs. unfold encode_char. repeat case_bool_decide; cbn [app from_utf8_lossy].
  - by rewrite (proj2 (N.ltb_lt _ _)).
  - rewrite (proj2 (N.ltb_ge _ _)) by bytes. rewrite (proj2 (in_range_true 194 223 _)) by bytes. rewrite continuation_mod. f_equal. unfold low. bytes.
  - rewrite (proj2 (N.ltb_ge _ _)) by bytes. rewrite (proj2 (in_range_false 194 223 _)) by bytes. rewrite (proj2 (in_range_true 224 239 _)) by bytes.
    rewrite second_of_three_ok by (done || lia). rewrite continuation_mod. f_equal. unfold low. bytes.
  - unfold scalar in Hs. rewrite (proj2 (N.ltb_ge _ _)) by bytes. rewrite (proj2 (in_range_false 194 223 _)) by bytes.
    rewrite (proj2 (in_range_false 224 239 _)) by bytes. rewrite (proj2 (in_range_true 240 244 _)) by bytes.
    rewrite second_of_four_ok by (unfold scalar; lia). rewrite !continuation_mod. f_equal. unfold low. bytes.
Qed.

(** What is UTF-8 is decoded as what it encodes. *)
Lemma from_utf8_lossy_encode s l : Forall scalar s -> from_utf8_lossy (encode_utf8 s ++ l) = s ++ from_utf8_lossy l.
Proof.
  induction 1 as [|c s Hc _ IH]; [done|]. change (encode_utf8 (c :: s)) with (encode_char c ++ encode_utf8 s).
  rewrite <-app_assoc, from_utf8_lossy_char by done. by rewrite IH.
Qed.

Lemma decode_encode s : Forall scalar s -> from_utf8_lossy (encode_utf8 s) = s.
Proof. intros Hs. rewrite <-(app_nil_r (encode_utf8 s)), from_utf8_lossy_encode by done. apply app_nil_r. Qed.

Lemma encode_char_length c : length (encode_char c) = len_utf8 c.
Proof. unfold encode_char, len_utf8. repeat case_bool_decide; done. Qed.

Example stray_bytes : from_utf8_lossy [255; 254]%N = [REPLACEMENT; REPLACEMENT].
Proof. reflexivity. Qed.
Example cut_sequence : from_utf8_lossy [240; 159; 146; 97]%N = [REPLACEMENT; 97%N].
Proof. reflexivity. Qed.
