(* ===== verification/ReadFile.v ===== *)
(** * Reading a file for the model (core/src/tools/handlers/read_file.rs)

    A slice of the lines of a file, or the block of lines around one by indentation. *)

From S2P Require Import Prelude RustStd ByteText Utf8 PatchApply Truncate History.

(** ** Calls of tools ([function_tool.rs], [context.rs], [utils/string]) *)

Inductive FunctionCallError : Type := RespondToModel (message : str) | MissingLocalShellCallId | Fatal (message : str).
Abbreviation tool_result A := (outcome FunctionCallError A).

(** The payloads of other tools than functions are not looked into. *)
Inductive ToolPayload : Type := FunctionPayload (arguments : str) | OtherPayload.
Record FunctionOutput : Type := mk_output { output_body : FunctionCallOutputBody; output_success : option bool }.

Fixpoint last_ok_loop (maxb last_ok : nat) (l : list (nat * char)) : nat :=
  match l with
  | [] => last_ok
  | (i, c) :: l => let nb := i + len_utf8 c in if maxb <? nb then last_ok else last_ok_loop maxb nb l
  end.
Definition take_bytes_at_char_boundary {E} (s : str) (maxb : nat) : outcome E str :=
  if str_len s <=? maxb then Ok s else str_to s (last_ok_loop maxb 0 (char_indices s)).

(** ** Lines *)

Definition MAX_LINE_LENGTH : nat := 500.
Definition TAB_WIDTH : nat := 4.
Definition COMMENT_PREFIXES : list str := [lit "#"; lit "//"; lit "--"].

Record LineRecord : Type := mk_line { number : nat; raw : str; display : str; indent : nat }.

Definition is_blank (l : LineRecord) : bool := bool_decide (trim_start (raw l) = []).
Definition is_comment (l : LineRecord) : bool := existsb (fun prefix => starts_with prefix (trim (raw l))) COMMENT_PREFIXES.

Definition format_line {E} (bytes : list N) : outcome E str :=
  let decoded := from_utf8_lossy bytes in
  if MAX_LINE_LENGTH <? str_len decoded then take_bytes_at_char_boundary decoded MAX_LINE_LENGTH else Ok decoded.

(** A file that is read: its bytes, and the error after them if there is one. *)
Record stream : Type := mk_stream { content : list N; failure : option io_error }.

Fixpoint until_lf (l : list N) : option (list N * list N) :=
  match l with
  | [] => None
  | c :: l => if bool_decide (c = LF) then Some ([], l) else '(a, b) ← until_lf l; Some (c :: a, b)
  end.
(** [read_until(b'\n')]: nothing at the end. *)
Definition read_until_lf (s : stream) : outcome io_error (list N * stream) :=
  match until_lf (content s) with
  | Some (line, rest) => Ok (line ++ [LF], mk_stream rest (failure s))
  | None => match failure s with Some e => Err e | None => Ok (content s, mk_stream [] None) end
  end.

(** Without its line ending. *)
Definition chomp (buffer : list N) : list N := match strip_suffix [LF] buffer with Some b => strip_cr b | None => buffer end.

Definition failed_to_read {A} (m : outcome io_error A) : tool_result A :=
  map_err (fun err => RespondToModel (lit "failed to read file: " ++ message err)) m.

Definition line_text (n : nat) (text : str) : str := lit "L" ++ show_usize n ++ lit ": " ++ text.

(** ** A slice *)

Fixpoint slice_loop (fuel : nat) (s : stream) (offset limit seen : nat) (collected : list str) : tool_result (list str * nat) :=
  match fuel with
  | O => Timeout
  | S fuel =>
      '(buffer, s) ← failed_to_read (read_until_lf s);
      if bool_decide (buffer = []) then Ok (collected, seen)
      else
        let buffer := chomp buffer in
        let seen := S seen in
        if seen <? offset then slice_loop fuel s offset limit seen collected
        else if length collected =? limit then Ok (collected, seen)
        else
          formatted ← format_line buffer;
          let collected := collected ++ [line_text seen formatted] in
          if length collected =? limit then Ok (collected, seen) else slice_loop fuel s offset limit seen collected
  end.

Definition slice_read (file : outcome io_error stream) (offset limit : nat) : tool_result (list str) :=
  s ← failed_to_read file;
  '(collected, seen) ← slice_loop (S (length (content s))) s offset limit 0 [];
  if seen <? offset then Err (RespondToModel (lit "offset exceeds file length")) else Ok collected.

(** ** A block *)

Record IndentationArgs : Type := mk_indentation {
  anchor_line : option nat;
  max_levels : N;
  include_siblings : bool;
  include_header : bool;
  max_lines : option nat;
}.
Definition default_indentation : IndentationArgs := mk_indentation None 0 false true None.

Fixpoint take_while {A} (f : A -> bool) (l : list A) : list A := match l with [] => [] | x :: l => if f x then x :: take_while f l else [] end.
Definition measure_indent (line : str) : nat :=
  sum_list_with (fun c => if bool_decide (c = 9%N) then TAB_WIDTH else 1)
    (take_while (fun c => bool_decide (c = 32%N) || bool_decide (c = 9%N)) line).

Fixpoint collect_loop (fuel : nat) (s : stream) (number : nat) (lines : list LineRecord) : tool_result (list LineRecord) :=
  match fuel with
  | O => Timeout
  | S fuel =>
      '(buffer, s) ← failed_to_read (read_until_lf s);
      if bool_decide (buffer = []) then Ok lines
      else
        let buffer := chomp buffer in
        let number := S number in
        let raw := from_utf8_lossy buffer in
        let indent := measure_indent raw in
        display ← format_line buffer;
        collect_loop fuel s number (lines ++ [mk_line number raw display indent])
  end.
Definition collect_file_lines (file : outcome io_error stream) : tool_result (list LineRecord) :=
  s ← failed_to_read file; collect_loop (S (length (content s))) s 0 [].

Fixpoint effective_loop (records : list LineRecord) (previous_indent : nat) : list nat :=
  match records with
  | [] => []
  | record :: records =>
      if is_blank record then previous_indent :: effective_loop records previous_indent
      else indent record :: effective_loop records (indent record)
  end.
Definition compute_effective_indents (records : list LineRecord) : list nat := effective_loop records 0.

Definition trim_empty_lines (out : list LineRecord) : list LineRecord :=
  let empty l := bool_decide (trim (raw l) = []) in drop_while_end empty (drop_while empty out).

(** The cursors, the lines at the least indentation passed on each side, and what is taken. *)
Record scan : Type := mk_scan { up : Z; down : nat; up_min : nat; down_min : nat; taken : list LineRecord }.

Section block.
Variable collected : list LineRecord.
Variable effective_indents : list nat.
Variables min_indent final_limit : nat.
Variable options : IndentationArgs.

(** The progress, and whether the limit is reached at once. *)
Definition go_up (s : scan) : tool_result (scan * nat * bool) :=
  if bool_decide (0 <= up s)%Z then
    let iu := Z.to_nat (up s) in
    here ← index iu effective_indents;
    if min_indent <=? here then
      record ← index iu collected;
      let s := mk_scan (up s - 1) (down s) (up_min s) (down_min s) (record :: taken s) in
      let '(s, progressed) :=
        if (here =? min_indent) && negb (include_siblings options) then
          let allow_header_comment := include_header options && is_comment record in
          if allow_header_comment || (up_min s =? 0) then (mk_scan (up s) (down s) (S (up_min s)) (down_min s) (taken s), 1)
          else (mk_scan (-1) (down s) (up_min s) (down_min s) (tail (taken s)), 0)
        else (s, 1) in
      Ok (s, progressed, final_limit <=? length (taken s))
    else Ok (mk_scan (-1) (down s) (up_min s) (down_min s) (taken s), 0, false)
  else Ok (s, 0, false).

Definition go_down (s : scan) : tool_result (scan * nat) :=
  if down s <? length collected then
    let ju := down s in
    here ← index ju effective_indents;
    if min_indent <=? here then
      record ← index ju collected;
      let s := mk_scan (up s) (S (down s)) (up_min s) (down_min s) (taken s ++ [record]) in
      Ok (if (here =? min_indent) && negb (include_siblings options) then
            if 0 <? down_min s then (mk_scan (up s) (length collected) (up_min s) (S (down_min s)) (take (length (taken s) - 1) (taken s)), 0)
            else (mk_scan (up s) (down s) (up_min s) (S (down_min s)) (taken s), 1)
          else (s, 1))
    else Ok (mk_scan (up s) (length collected) (up_min s) (down_min s) (taken s), 0)
  else Ok (s, 0).

Fixpoint block_loop (fuel : nat) (s : scan) : tool_result scan :=
  match fuel with
  | O => Timeout
  | S fuel =>
      if length (taken s) <? final_limit then
        '(s, progressed, enough) ← go_up s;
        if (enough : bool) then Ok s
        else
          '(s, progressed') ← go_down s;
          if progressed + progressed' =? 0 then Ok s else block_loop fuel s
      else Ok s
  end.
End block.

Definition isize_max : N := 2 ^ 63 - 1.

(** Whether [VecDeque::with_capacity(limit)] of references has a layout. *)
Definition has_capacity (limit : nat) : bool := (N.of_nat limit * 8 <=? isize_max)%N.

(** A product of [usize]s: an overflow panics where the build checks for it, and wraps elsewhere. *)
Definition usize_mul {E} (overflow_checks : bool) (a b : N) : outcome E N :=
  if (2 ^ 64 <=? a * b)%N && overflow_checks then Panic else Ok ((a * b) mod 2 ^ 64)%N.

Definition show_record (l : LineRecord) : str := line_text (number l) (display l).

Definition least_indent {E} (overflow_checks : bool) (options : IndentationArgs) (anchor_indent : nat) : outcome E nat :=
  if (max_levels options =? 0)%N then Ok 0
  else width ← usize_mul overflow_checks (max_levels options) (N.of_nat TAB_WIDTH); Ok (N.to_nat (N.of_nat anchor_indent - width)).

Definition read_block (overflow_checks : bool) (file : outcome io_error stream) (offset limit : nat) (options : IndentationArgs)
    : tool_result (list str) :=
  let anchor_line := default offset (anchor_line options) in
  if anchor_line =? 0 then Err (RespondToModel (lit "anchor_line must be a 1-indexed line number"))
  else
    let guard_limit := default limit (max_lines options) in
    if guard_limit =? 0 then Err (RespondToModel (lit "max_lines must be greater than zero"))
    else
      collected ← collect_file_lines file;
      if bool_decide (collected = []) || (length collected <? anchor_line) then Err (RespondToModel (lit "anchor_line exceeds file length"))
      else
        let anchor_index := anchor_line - 1 in
        let effective_indents := compute_effective_indents collected in
        anchor_indent ← index anchor_index effective_indents;
        min_indent ← least_indent overflow_checks options anchor_indent;
        let final_limit := (limit `min` guard_limit) `min` length collected in
        anchor ← index anchor_index collected;
        if final_limit =? 1 then Ok [show_record anchor]
        else if negb (has_capacity limit) then Panic
        else
          s ← block_loop collected effective_indents min_indent final_limit options (S (length collected))
                (mk_scan (Z.of_nat anchor_index - 1) (S anchor_index) 0 0 [anchor]);
          Ok (show_record <$> trim_empty_lines (taken s)).

(** ** The handler *)

Inductive ReadMode : Type := Slice | Indentation.
Record ReadFileArgs : Type := mk_args {
  file_path : str;
  arg_offset : nat;
  arg_limit : nat;
  mode : ReadMode;
  indentation : option IndentationArgs;
}.

(** The JSON of the arguments, with what may be left out. *)
Record IndentationJson : Type := mk_indentation_json {
  j_anchor_line : option nat;
  j_max_levels : option N;
  j_include_siblings : option bool;
  j_include_header : option bool;
  j_max_lines : option nat;
}.
Record ReadFileJson : Type := mk_json {
  j_file_path : str;
  j_offset : option nat;
  j_limit : option nat;
  j_mode : option ReadMode;
  j_indentation : option IndentationJson;
}.
Definition with_indentation_defaults (j : IndentationJson) : IndentationArgs :=
  mk_indentation (j_anchor_line j) (default 0%N (j_max_levels j)) (default false (j_include_siblings j)) (default true (j_include_header j)) (j_max_lines j).
Definition with_defaults (j : ReadFileJson) : ReadFileArgs :=
  mk_args (j_file_path j) (default 1 (j_offset j)) (default 2000 (j_limit j)) (default Slice (j_mode j))
    (with_indentation_defaults <$> j_indentation j).

Definition parse_arguments {A} (parsed : outcome str A) : tool_result A :=
  map_err (fun err => RespondToModel (lit "failed to parse function arguments: " ++ err)) parsed.

Section handler.
Variable overflow_checks : bool.
(** [serde_json], and [File::open]. *)
Variable from_json : str -> outcome str ReadFileJson.
Variable open_file : str -> outcome io_error stream.

Definition handle_read_file (payload : ToolPayload) : tool_result FunctionOutput :=
  match payload with
  | FunctionPayload arguments =>
      json ← parse_arguments (from_json arguments);
      let args := with_defaults json in
      if arg_offset args =? 0 then Err (RespondToModel (lit "offset must be a 1-indexed line number"))
      else if arg_limit args =? 0 then Err (RespondToModel (lit "limit must be greater than zero"))
      else if negb (is_absolute (file_path args)) then Err (RespondToModel (lit "file_path must be an absolute path"))
      else
        collected ← (match mode args with
                     | Slice => slice_read (open_file (file_path args)) (arg_offset args) (arg_limit args)
                     | Indentation =>
                         read_block overflow_checks (open_file (file_path args)) (arg_offset args) (arg_limit args)
                           (default default_indentation (indentation args))
                     end);
        Ok (mk_output (BodyText (join [LF] collected)) (Some true))
  | OtherPayload => Err (RespondToModel (lit "read_file handler received unsupported payload"))
  end.
End handler.
