(* ===== verification/ReadFileSpec.v ===== *)
(** * What reading a file gives

    A slice is the lines asked for, and a block is a run of lines around its anchor that
    does not leave the indentation, and ends for a reason. *)

From S2P Require Import Prelude RustStd ByteText Utf8 PatchApply Truncate History ReadFile.

(** ** Cutting a text *)

(** The longest start of a text of so many bytes. *)
Fixpoint clip (n : nat) (s : str) : str :=
  match s with [] => [] | c :: s => if len_utf8 c <=? n then c :: clip (n - len_utf8 c) s else [] end.

Lemma clip_fits n s : str_len s <= n -> clip n s = s.
Proof.
  revert n. induction s as [|c s IH]; intros n Hn; [done|]. rewrite str_len_cons in Hn. cbn [clip].
  rewrite (proj2 (Nat.leb_le _ _)) by lia. by rewrite IH by lia.
Qed.

Lemma last_ok_loop_clip n k s : last_ok_loop (k + n) k (char_indices_from k s) = k + str_len (clip n s).
Proof.
  revert n k. induction s as [|c s IH]; intros n k; cbn [char_indices_from last_ok_loop clip]; [cbn; lia|].
  destruct (len_utf8 c <=? n) eqn:E.
  - apply Nat.leb_le in E. rewrite (proj2 (Nat.ltb_ge _ _)) by lia. rewrite str_len_cons.
    replace (k + n) with (k + len_utf8 c + (n - len_utf8 c)) by lia. rewrite IH. lia.
  - apply Nat.leb_gt in E. rewrite (proj2 (Nat.ltb_lt _ _)) by lia. cbn. lia.
Qed.

Lemma clip_prefix n s : exists rest, s = clip n s ++ rest.
Proof.
  revert n. induction s as [|c s IH]; intros n; [by exists []|]. cbn [clip]. destruct (len_utf8 c <=? n); [|by exists (c :: s)].
  destruct (IH (n - len_utf8 c)) as [rest Hr]. exists rest. cbn. by rewrite <-Hr.
Qed.

Lemma take_bytes_clip {E} s n : take_bytes_at_char_boundary (E := E) s n = Ok (clip n s).
Proof.
  unfold take_bytes_at_char_boundary. destruct (str_len s <=? n) eqn:E1; [apply Nat.leb_le in E1; by rewrite clip_fits|].
  rewrite (last_ok_loop_clip n 0). destruct (clip_prefix n s) as [rest Hr]. unfold str_to. rewrite Hr at 1. cbn [Nat.add].
  by rewrite split_bytes_app.
Qed.

Definition shown (bytes : list N) : str := clip MAX_LINE_LENGTH (from_utf8_lossy bytes).

Lemma format_line_shown {E} bytes : format_line (E := E) bytes = Ok (shown bytes).
Proof.
  unfold format_line, shown. destruct (MAX_LINE_LENGTH <? _) eqn:E1; [apply take_bytes_clip|]. apply Nat.ltb_ge in E1. by rewrite clip_fits.
Qed.

(** ** Lines *)

Fixpoint raw_lines (l : list N) : list (list N) :=
  match l with
  | [] => []
  | c :: l => if bool_decide (c = LF) then [c] :: raw_lines l else match raw_lines l with [] => [[c]] | p :: ps => (c :: p) :: ps end
  end.
Definition lines_of (l : list N) : list (list N) := chomp <$> raw_lines l.

Lemma raw_lines_until l : match until_lf l with
  | Some (line, rest) => raw_lines l = (line ++ [LF]) :: raw_lines rest /\ length rest < length l
  | None => raw_lines l = match l with [] => [] | _ => [l] end
  end.
Proof.
  induction l as [|c l IH]; [done|]. cbn [until_lf raw_lines]. case_bool_decide as Hc; [subst; cbn; split; [done|lia]|].
  destruct (until_lf l) as [[line rest]|]; cbn.
  - destruct IH as [-> ?]. split; [done|lia].
  - rewrite IH. by destruct l.
Qed.

Definition sound (l : list N) : stream := mk_stream l None.

Lemma read_until_sound l : match raw_lines l with
  | [] => l = [] /\ read_until_lf (sound l) = Ok ([], sound [])
  | p :: ps => p <> [] /\ exists rest, read_until_lf (sound l) = Ok (p, sound rest) /\ raw_lines rest = ps /\ length rest < length l
  end.
Proof.
  pose proof (raw_lines_until l) as Hl. unfold read_until_lf. cbn [content failure sound]. destruct (until_lf l) as [[line rest]|].
  - destruct Hl as [-> Hlen]. split; [by destruct line|]. by exists rest.
  - rewrite Hl. destruct l as [|c l]; [done|]. split; [done|]. exists []. split; [done|]. split; [done|]. cbn. lia.
Qed.

(** One turn of a loop that reads lines: the end, or the next line. *)
Lemma next_line l : (l = [] /\ read_until_lf (sound l) = Ok ([], sound [])) \/
  exists buffer rest, buffer <> [] /\ read_until_lf (sound l) = Ok (buffer, sound rest) /\ lines_of l = chomp buffer :: lines_of rest /\ length rest < length l.
Proof.
  pose proof (read_until_sound l) as H. unfold lines_of. destruct (raw_lines l) as [|p ps]; [by left|right].
  destruct H as (Hp & rest & Hr & <- & Hlen). by exists p, rest.
Qed.

Definition numbered (from : nat) (ls : list (list N)) : list str := imap (fun i b => line_text (from + i) (shown b)) ls.

Lemma numbered_cons from b ls : numbered from (b :: ls) = line_text from (shown b) :: numbered (S from) ls.
Proof. unfold numbered. rewrite imap_cons, Nat.add_0_r. f_equal. apply imap_ext. intros i x _. cbn. by rewrite Nat.add_succ_r. Qed.

Lemma slice_collects fuel l offset limit seen collected : offset <= S seen -> length l < fuel -> length collected < limit ->
  exists seen', slice_loop fuel (sound l) offset limit seen collected
      = Ok (collected ++ numbered (S seen) (take (limit - length collected) (lines_of l)), seen') /\
    (offset <= seen' <-> offset <= seen \/ lines_of l <> []).
Proof.
  revert l seen collected. induction fuel as [|fuel IH]; intros l seen collected Ho Hf Hc; [lia|]. cbn [slice_loop].
  destruct (next_line l) as [[-> ->]|(buffer & rest & Hb & -> & -> & Hlen)]; cbn [failed_to_read map_err mbind outcome_bind].
  { exists seen. rewrite bool_decide_true by done. change (lines_of []) with (@nil (list N)). rewrite take_nil, app_nil_r. split; [done|]. naive_solver. }
  rewrite bool_decide_false by done. rewrite (proj2 (Nat.ltb_ge _ _)) by lia. rewrite (proj2 (Nat.eqb_neq _ _)) by lia.
  rewrite format_line_shown. cbn [mbind outcome_bind]. rewrite length_app. cbn [length].
  destruct (limit - length collected) as [|k] eqn:Ek; [lia|]. cbn [take]. rewrite numbered_cons.
  destruct (Nat.eqb_spec (length collected + 1) limit).
  - assert (k = 0) as -> by lia. exists (S seen). split; [done|]. split; [by right|]. lia.
  - destruct (IH rest (S seen) (collected ++ [line_text (S seen) (shown (chomp buffer))])) as (seen' & -> & Hs); [lia|lia|rewrite length_app; cbn; lia|].
    exists seen'. rewrite length_app. cbn [length]. replace (limit - (length collected + 1)) with k by lia. rewrite <-app_assoc. split; [done|].
    rewrite Hs. split; [by right|]. intros _. by left.
Qed.

Lemma slice_loop_sound fuel l offset limit seen : S seen <= offset -> length l < fuel -> 0 < limit ->
  exists seen', slice_loop fuel (sound l) offset limit seen [] = Ok (numbered offset (take limit (drop (offset - S seen) (lines_of l))), seen') /\
    (offset <= seen' <-> offset <= seen + length (lines_of l)).
Proof.
  revert l seen. induction fuel as [|fuel IH]; intros l seen Ho Hf Hlim; [lia|]. destruct (decide (offset = S seen)) as [->|].
  { destruct (slice_collects (S fuel) l (S seen) limit seen []) as (seen' & -> & Hs); [lia|done|done|]. exists seen'. cbn [length app].
    rewrite Nat.sub_0_r, Nat.sub_diag, drop_0. split; [done|]. rewrite Hs. destruct (lines_of l); cbn [length]; [split; [intros [?|?]; [lia|done]|lia]|].
    split; [lia|by right]. }
  cbn [slice_loop]. destruct (next_line l) as [[-> ->]|(buffer & rest & Hb & -> & -> & Hlen)]; cbn [failed_to_read map_err mbind outcome_bind].
  { exists seen. rewrite bool_decide_true by done. change (lines_of []) with (@nil (list N)). rewrite drop_nil, take_nil. split; [done|]. cbn. lia. }
  rewrite bool_decide_false by done. rewrite (proj2 (Nat.ltb_lt _ _)) by lia.
  destruct (IH rest (S seen)) as (seen' & -> & Hs); [lia|lia|done|]. exists seen'. replace (offset - S seen) with (S (offset - S (S seen))) by lia.
  split; [done|]. rewrite Hs. cbn [length]. lia.
Qed.

Lemma slice_read_sound l offset limit : 0 < offset -> 0 < limit -> slice_read (Ok (sound l)) offset limit =
  (if length (lines_of l) <? offset then Err (RespondToModel (lit "offset exceeds file length"))
   else Ok (numbered offset (take limit (drop (offset - 1) (lines_of l))))).
Proof.
  intros Ho Hl. unfold slice_read. cbn [failed_to_read map_err mbind outcome_bind content sound].
  destruct (slice_loop_sound (S (length l)) l offset limit 0) as (seen' & Hrun & Hs); [lia|lia|done|]. rewrite Hrun.
  cbn [mbind outcome_bind]. cbn [Nat.add] in Hs. destruct (seen' <? offset) eqn:E.
  - apply Nat.ltb_lt in E. rewrite (proj2 (Nat.ltb_lt _ _)); [done|]. lia.
  - apply Nat.ltb_ge in E. rewrite (proj2 (Nat.ltb_ge _ _)); [done|]. lia.
Qed.

(** ** Blocks *)

Definition record_of (i : nat) (b : list N) : LineRecord := mk_line (S i) (from_utf8_lossy b) (shown b) (measure_indent (from_utf8_lossy b)).
Definition records_of (l : list N) : list LineRecord := imap record_of (lines_of l).

Lemma collect_loop_sound fuel l n lines : length l < fuel ->
  collect_loop fuel (sound l) n lines = Ok (lines ++ imap (fun i b => record_of (n + i) b) (lines_of l)).
Proof.
  revert l n lines. induction fuel as [|fuel IH]; intros l n lines Hf; [lia|]. cbn [collect_loop].
  destruct (next_line l) as [[-> ->]|(buffer & rest & Hb & -> & -> & Hlen)]; cbn [failed_to_read map_err mbind outcome_bind].
  { rewrite bool_decide_true by done. cbn. by rewrite app_nil_r. }
  rewrite bool_decide_false by done. rewrite format_line_shown. cbn [mbind outcome_bind]. rewrite IH by lia. rewrite imap_cons, Nat.add_0_r, <-app_assoc.
  cbn [app]. f_equal. f_equal. f_equal. apply imap_ext. intros i x _. cbn. by rewrite Nat.add_succ_r.
Qed.

Lemma collect_file_lines_sound l : collect_file_lines (Ok (sound l)) = Ok (records_of l).
Proof. unfold collect_file_lines. cbn [failed_to_read map_err mbind outcome_bind content sound]. rewrite collect_loop_sound by lia. done. Qed.

Lemma effective_length records : length (compute_effective_indents records) = length records.
Proof. unfold compute_effective_indents. generalize 0. induction records as [|r records IH]; intros p; [done|]. cbn. destruct (is_blank r); cbn; by rewrite IH. Qed.

Section block.
Variable records : list LineRecord.
Variable effective : list nat.
Variables least final_limit anchor : nat.
Variable options : IndentationArgs.
Hypothesis same_length : length effective = length records.

(** A line of an indentation at which a block ends. *)
Definition ends_block (i : nat) : Prop :=
  exists e, effective !! i = Some e /\ (e < least \/ (e = least /\ include_siblings options = false)).

Definition stopped_above (lo : nat) : Prop := 0 < lo /\ ends_block (lo - 1).
Definition stopped_below (hi : nat) : Prop := hi < length records /\ ends_block hi.

(** What is taken is the lines from [lo] to [hi]. *)
Record window (s : scan) (lo hi : nat) : Prop := {
  window_taken : taken s = take (hi - lo) (drop lo records);
  window_range : lo <= anchor < hi /\ hi <= length records;
  window_limit : hi - lo <= final_limit;
  window_up : up s = (Z.of_nat lo - 1)%Z \/ (up s = (-1)%Z /\ stopped_above lo);
  window_down : down s = hi \/ (down s = length records /\ stopped_below hi);
  window_indents : forall k e, lo <= k < hi -> k <> anchor -> effective !! k = Some e -> least <= e;
}.

Lemma window_length s lo hi : window s lo hi -> length (taken s) = hi - lo.
Proof. intros [-> ? _ _ _ _]. rewrite length_take, length_drop. lia. Qed.

Lemma both_lookups i : i < length records -> exists e r, effective !! i = Some e /\ records !! i = Some r.
Proof.
  intros Hi. destruct (lookup_lt_is_Some_2 records i Hi) as [r Hr]. destruct (lookup_lt_is_Some_2 effective i) as [e He]; [lia|]. by exists e, r.
Qed.

Lemma take_up lo hi r : 0 < lo -> records !! (lo - 1) = Some r -> r :: take (hi - lo) (drop lo records) = take (hi - (lo - 1)) (drop (lo - 1) records) \/ hi < lo.
Proof.
  intros Hlo Hr. destruct (decide (hi < lo)); [by right|left]. rewrite (drop_S _ _ _ Hr). replace (S (lo - 1)) with lo by lia.
  replace (hi - (lo - 1)) with (S (hi - lo)) by lia. done.
Qed.

Lemma window_extend_up s lo hi r n m : window s lo hi -> 0 < lo -> hi - lo < final_limit -> records !! (lo - 1) = Some r ->
  (forall e, effective !! (lo - 1) = Some e -> least <= e) ->
  window (mk_scan (Z.of_nat lo - 1 - 1) (down s) n m (r :: taken s)) (lo - 1) hi.
Proof.
  intros [Ht Hr Hl Hu Hd Hi] Hlo Hlim Hrec He. split; cbn.
  - rewrite Ht. destruct (take_up lo hi r); [done..|lia].
  - lia.
  - lia.
  - left. lia.
  - done.
  - intros k e Hk Hka Hke. destruct (decide (k = lo - 1)) as [->|]; [by apply He|]. apply (Hi k); [lia|done..].
Qed.

Lemma go_up_window s lo hi : window s lo hi -> hi - lo < final_limit -> exists s' lo' p enough,
  go_up records effective least final_limit options s = Ok (s', p, enough) /\ window s' lo' hi /\ down s' = down s /\ lo' + p = lo /\
  (p = 0 -> lo = 0 \/ stopped_above lo) /\ enough = (final_limit <=? hi - lo').
Proof.
  intros Hw Hlim. pose proof Hw as [Ht Hr Hl Hu Hd Hi]. unfold go_up.
  case_bool_decide as Hup.
  2: { exists s, lo, 0, false. split; [done|]. split; [done|]. split; [done|]. split; [lia|]. split; [|by rewrite (proj2 (Nat.leb_gt _ _))].
       intros _. destruct Hu as [Hu|[_ ?]]; [left; lia|by right]. }
  destruct Hu as [Hu|[Hu _]]; [|lia]. assert (0 < lo) as Hlo by lia. assert (Z.to_nat (up s) = lo - 1) as Hiu by lia. rewrite Hiu.
  destruct (both_lookups (lo - 1)) as (e & r & He & Hrec); [lia|]. unfold index. rewrite He, Hrec. cbn [mbind outcome_bind].
  destruct (least <=? e) eqn:Ele.
  2: { apply Nat.leb_gt in Ele. eexists _, lo, 0, false. split; [done|]. split.
       - split; cbn; try done. right. split; [done|]. split; [done|]. exists e. split; [done|]. by left.
       - split; [done|]. split; [lia|]. split; [|by rewrite (proj2 (Nat.leb_gt _ _))]. intros _. right. split; [done|]. exists e. split; [done|]. by left. }
  apply Nat.leb_le in Ele. rewrite Hu.
  assert (forall n m, window (mk_scan (Z.of_nat lo - 1 - 1) (down s) n m (r :: taken s)) (lo - 1) hi) as Hext.
  { intros n m. apply window_extend_up; try done. intros e' He'. rewrite He in He'. by injection He' as <-. }
  assert (forall n m, exists s' lo' p enough,
    Ok (mk_scan (Z.of_nat lo - 1 - 1) (down s) n m (r :: taken s), 1, final_limit <=? length (r :: taken s)) = Ok (E := FunctionCallError) (s', p, enough) /\
    window s' lo' hi /\ down s' = down s /\ lo' + p = lo /\ (p = 0 -> lo = 0 \/ stopped_above lo) /\ enough = (final_limit <=? hi - lo')) as Htake.
  { intros n m. eexists _, (lo - 1), 1, _. split; [done|]. split; [apply Hext|]. split; [done|]. split; [lia|]. split; [lia|].
    pose proof (window_length _ _ _ (Hext n m)) as Hlen. cbn [taken] in Hlen. by rewrite Hlen. }
  destruct ((e =? least) && negb (include_siblings options)) eqn:Esib; [|apply Htake].
  apply andb_true_iff in Esib as [->%Nat.eqb_eq Hsib%negb_true_iff]. destruct (_ || _); [apply Htake|]. cbn [up down up_min down_min taken tail].
  eexists _, lo, 0, _. split; [done|]. assert (stopped_above lo) as Hst by (split; [done|]; exists least; split; [done|]; by right). split.
  - split; cbn; try done. by right.
  - split; [done|]. split; [lia|]. split; [by right|]. by rewrite (window_length _ _ _ Hw).
Qed.

Lemma window_extend_down s lo hi r n m : window s lo hi -> hi - lo < final_limit -> records !! hi = Some r ->
  (forall e, effective !! hi = Some e -> least <= e) ->
  window (mk_scan (up s) (S hi) n m (taken s ++ [r])) lo (S hi).
Proof.
  intros [Ht Hr Hl Hu Hd Hi] Hlim Hrec He. apply lookup_lt_Some in Hrec as Hlt. split; cbn.
  - rewrite Ht. replace (S hi - lo) with (S (hi - lo)) by lia. symmetry. apply take_S_r. rewrite lookup_drop. replace (lo + (hi - lo)) with hi by lia. done.
  - lia.
  - lia.
  - done.
  - by left.
  - intros k e Hk Hka Hke. destruct (decide (k = hi)) as [->|]; [by apply He|]. apply (Hi k); [lia|done..].
Qed.

Lemma go_down_window s lo hi : window s lo hi -> hi - lo < final_limit -> exists s' hi' p,
  go_down records effective least options s = Ok (s', p) /\ window s' lo hi' /\ hi' = hi + p /\ (p = 0 -> hi = length records \/ stopped_below hi).
Proof.
  intros Hw Hlim. pose proof Hw as [Ht Hr Hl Hu Hd Hi]. unfold go_down. destruct (down s <? length records) eqn:Edown.
  2: { apply Nat.ltb_ge in Edown. exists s, hi, 0. split; [done|]. split; [done|]. split; [lia|]. intros _. destruct Hd as [Hd|[_ ?]]; [left; lia|by right]. }
  apply Nat.ltb_lt in Edown. destruct Hd as [Hd|[Hd _]]; [|lia]. rewrite Hd in Edown |- *.
  destruct (both_lookups hi Edown) as (e & r & He & Hrec). unfold index. rewrite He, Hrec. cbn [mbind outcome_bind].
  destruct (least <=? e) eqn:Ele.
  2: { apply Nat.leb_gt in Ele. assert (stopped_below hi) as Hst by (split; [done|]; exists e; split; [done|]; by left).
       eexists _, hi, 0. split; [done|]. split; [|split; [lia|by right]]. split; cbn; try done. by right. }
  apply Nat.leb_le in Ele. cbn [up down up_min down_min taken].
  assert (forall n m, window (mk_scan (up s) (S hi) n m (taken s ++ [r])) lo (S hi)) as Hext.
  { intros n m. apply window_extend_down; try done. intros e' He'. rewrite He in He'. by injection He' as <-. }
  destruct ((e =? least) && negb (include_siblings options)) eqn:Esib; [|eexists _, (S hi), 1; split; [done|]; split; [apply Hext|lia]].
  apply andb_true_iff in Esib as [->%Nat.eqb_eq Hsib%negb_true_iff].
  destruct (0 <? down_min s); [|eexists _, (S hi), 1; split; [done|]; split; [apply Hext|lia]].
  assert (stopped_below hi) as Hst by (split; [done|]; exists least; split; [done|]; by right).
  eexists _, hi, 0. split; [done|]. split; [|split; [lia|by right]]. rewrite length_app, Nat.add_sub, take_app_length. split; cbn; try done. by right.
Qed.

Lemma block_loop_window fuel s lo hi : window s lo hi -> length records - (hi - lo) < fuel ->
  exists s' lo' hi', block_loop records effective least final_limit options fuel s = Ok s' /\ window s' lo' hi' /\
    (hi' - lo' = final_limit \/ ((lo' = 0 \/ stopped_above lo') /\ (hi' = length records \/ stopped_below hi'))).
Proof.
  revert s lo hi. induction fuel as [|fuel IH]; intros s lo hi Hw Hf; [lia|]. cbn [block_loop]. rewrite (window_length _ _ _ Hw).
  pose proof (window_limit _ _ _ Hw). destruct (_ <? final_limit) eqn:Elim; [apply Nat.ltb_lt in Elim|apply Nat.ltb_ge in Elim; exists s, lo, hi; split; [done|]; split; [done|left; lia]].
  destruct (go_up_window s lo hi Hw Elim) as (s1 & lo1 & p & enough & -> & Hw1 & Hd1 & Hp & Hstop & ->). cbn [mbind outcome_bind].
  pose proof (window_limit _ _ _ Hw1). destruct (final_limit <=? hi - lo1) eqn:Een.
  { apply Nat.leb_le in Een. exists s1, lo1, hi. split; [done|]. split; [done|]. left. lia. }
  apply Nat.leb_gt in Een. destruct (go_down_window s1 lo1 hi Hw1 Een) as (s2 & hi2 & q & -> & Hw2 & -> & Hstop2). cbn [mbind outcome_bind].
  pose proof (window_range _ _ _ Hw2). destruct (Nat.eqb_spec (p + q) 0).
  - assert (p = 0 /\ q = 0) as [-> ->] by lia. exists s2, lo1, (hi + 0). split; [done|]. split; [done|]. right. rewrite Nat.add_0_r in *.
    assert (lo1 = lo) as -> by lia. split; [by apply Hstop|by apply Hstop2].
  - apply (IH s2 lo1 (hi + q)); [done|lia].
Qed.
End block.

Definition blank (r : LineRecord) : Prop := trim (raw r) = [].

Lemma drop_while_split {A} (q : A -> bool) l : exists p, l = p ++ drop_while q l /\ Forall (fun x => q x = true) p.
Proof.
  induction l as [|x l (p & IH & Hp)]; cbn; [by exists []|]. destruct (q x) eqn:E; [|by exists []]. exists (x :: p). split; [cbn; by rewrite <-IH|by constructor].
Qed.
Lemma drop_while_end_split {A} (q : A -> bool) l : exists p, l = drop_while_end q l ++ p /\ Forall (fun x => q x = true) p.
Proof.
  induction l as [|x l (p & IH & Hp)]; cbn; [by exists []|]. destruct (drop_while_end q l) as [|y r].
  - destruct (q x) eqn:E; [exists (x :: p); split; [cbn in *; by rewrite <-IH|by constructor]|]. exists p. split; [cbn in *; by rewrite <-IH|done].
  - exists p. split; [cbn in *; by rewrite <-IH|done].
Qed.

Lemma trim_empty_lines_split l : exists above below, l = above ++ trim_empty_lines l ++ below /\ Forall blank above /\ Forall blank below.
Proof.
  unfold trim_empty_lines. set (empty := fun r => bool_decide (trim (raw r) = [])).
  destruct (drop_while_split empty l) as (above & Ha & Hall). destruct (drop_while_end_split empty (drop_while empty l)) as (below & Hb & Hbelow).
  exists above, below. split; [by rewrite <-Hb|]. split; (eapply Forall_impl; [eassumption|]; intros r Hr; by apply bool_decide_eq_true in Hr).
Qed.

(** The block around the line [anchor]: the lines from [lo] to [hi], at most so many, without the blank
    ones at the ends.  None but the anchor is indented less than [least]; and unless the block is
    as long as it may be, each end is an end of the file or next to a line that ends blocks. *)
Record block_around (records : list LineRecord) (least final_limit anchor : nat) (options : IndentationArgs) (block : list LineRecord)
    (lo hi : nat) : Prop := {
  block_range : lo <= anchor < hi /\ hi <= length records /\ hi - lo <= final_limit;
  block_lines : exists above below, take (hi - lo) (drop lo records) = above ++ block ++ below /\ Forall blank above /\ Forall blank below;
  block_indents : forall k e, lo <= k < hi -> k <> anchor -> compute_effective_indents records !! k = Some e -> least <= e;
  block_ends : hi - lo = final_limit \/
    ((lo = 0 \/ ends_block (compute_effective_indents records) least options (lo - 1)) /\
     (hi = length records \/ ends_block (compute_effective_indents records) least options hi));
}.

Lemma one_line {A} (l : list A) i x : l !! i = Some x -> take (S i - i) (drop i l) = [x].
Proof. intros Hx. rewrite (drop_S _ _ _ Hx). by replace (S i - i) with 1 by lia. Qed.

Lemma block_of_line records least anchor options r : records !! anchor = Some r -> block_around records least 1 anchor options [r] anchor (S anchor).
Proof.
  intros Hr. apply lookup_lt_Some in Hr as Hlt. split.
  - lia.
  - exists [], []. by rewrite (one_line _ _ _ Hr).
  - intros k e Hk Hka. lia.
  - left. lia.
Qed.

Lemma block_from_anchor records least final_limit anchor options r : records !! anchor = Some r -> 0 < final_limit ->
  exists s lo hi, block_loop records (compute_effective_indents records) least final_limit options (S (length records))
      (mk_scan (Z.of_nat anchor - 1) (S anchor) 0 0 [r]) = Ok s /\
    block_around records least final_limit anchor options (trim_empty_lines (taken s)) lo hi.
Proof.
  intros Hr Hlim. apply lookup_lt_Some in Hr as Hlt.
  destruct (block_loop_window records (compute_effective_indents records) least final_limit anchor options (effective_length records)
    (S (length records)) (mk_scan (Z.of_nat anchor - 1) (S anchor) 0 0 [r]) anchor (S anchor)) as (s & lo & hi & Hrun & Hw & Hend).
  - split; cbn; [by rewrite (one_line _ _ _ Hr)|lia|lia|by left|by left|lia].
  - lia.
  - exists s, lo, hi. split; [exact Hrun|]. destruct Hw as [Ht Hrange Hl _ _ Hi]. split; [lia| |exact Hi|].
    + rewrite <-Ht. apply trim_empty_lines_split.
    + destruct Hend as [?|[Habove Hbelow]]; [by left|right]. split.
      * destruct Habove as [?|[_ ?]]; [by left|by right].
      * destruct Hbelow as [?|[_ ?]]; [by left|by right].
Qed.

Definition least_of (options : IndentationArgs) (anchor_indent : nat) : nat :=
  if (max_levels options =? 0)%N then 0 else N.to_nat (N.of_nat anchor_indent - max_levels options * 4).

Lemma least_indent_ok checks options i : (max_levels options * 4 < 2 ^ 64)%N -> least_indent (E := FunctionCallError) checks options i = Ok (least_of options i).
Proof.
  intros Hlt. unfold least_indent, least_of, usize_mul. destruct (_ =? 0)%N; [done|]. change (N.of_nat TAB_WIDTH) with 4%N.
  rewrite (proj2 (N.leb_gt _ _)) by done. cbn [andb mbind outcome_bind]. by rewrite N.mod_small.
Qed.

(** What a block is read with: the line asked for, and how much of it. *)
Definition anchor_of (options : IndentationArgs) (offset : nat) : nat := default offset (anchor_line options).
Definition limit_of (options : IndentationArgs) (limit : nat) (records : list LineRecord) : nat :=
  (limit `min` default limit (max_lines options)) `min` length records.

Lemma read_block_sound checks l offset limit options : let records := records_of l in
  1 <= anchor_of options offset <= length records -> 0 < limit -> 0 < default limit (max_lines options) ->
  has_capacity limit = true -> (max_levels options * 4 < 2 ^ 64)%N ->
  exists anchor_indent block lo hi, compute_effective_indents records !! (anchor_of options offset - 1) = Some anchor_indent /\
    read_block checks (Ok (sound l)) offset limit options = Ok (show_record <$> block) /\
    block_around records (least_of options anchor_indent) (limit_of options limit records) (anchor_of options offset - 1) options block lo hi.
Proof.
  intros records Ha Hlim Hmax Hcap Hlev. subst records. unfold read_block. fold (anchor_of options offset).
  rewrite (proj2 (Nat.eqb_neq _ _)) by lia. rewrite (proj2 (Nat.eqb_neq _ 0)) by lia. rewrite collect_file_lines_sound. cbn [mbind outcome_bind].
  rewrite bool_decide_false by (intros Hnil; rewrite Hnil in Ha; cbn in Ha; lia). rewrite (proj2 (Nat.ltb_ge _ _)) by lia. cbn [orb].
  destruct (both_lookups (records_of l) (compute_effective_indents (records_of l)) (effective_length _) (anchor_of options offset - 1)) as (e & r & He & Hr); [lia|].
  unfold index. rewrite He, Hr. cbn [mbind outcome_bind]. rewrite least_indent_ok by done. cbn [mbind outcome_bind]. fold (limit_of options limit (records_of l)).
  exists e. destruct (Nat.eqb_spec (limit_of options limit (records_of l)) 1) as [->|].
  - exists [r], (anchor_of options offset - 1), (S (anchor_of options offset - 1)). split; [done|]. split; [done|]. by apply block_of_line.
  - rewrite Hcap. cbn [negb].
    destruct (block_from_anchor (records_of l) (least_of options e) (limit_of options limit (records_of l)) (anchor_of options offset - 1) options r Hr)
      as (s & lo & hi & Hrun & Hb); [unfold limit_of; lia|].
    exists (trim_empty_lines (taken s)), lo, hi. split; [done|]. split; [|exact Hb]. by rewrite Hrun.
Qed.

(** ** The handler *)

Section handler.
Variable overflow_checks : bool.
Variable from_json : str -> outcome str ReadFileJson.
Variable open_file : str -> outcome io_error stream.

Definition accepted (args : ReadFileArgs) : Prop := 1 <= arg_offset args /\ 1 <= arg_limit args /\ is_absolute (file_path args) = true.

Lemma handle_accepted arguments json : from_json arguments = Ok json -> accepted (with_defaults json) ->
  let args := with_defaults json in
  handle_read_file overflow_checks from_json open_file (FunctionPayload arguments) =
  (collected ← (match mode args with
                | Slice => slice_read (open_file (file_path args)) (arg_offset args) (arg_limit args)
                | Indentation => read_block overflow_checks (open_file (file_path args)) (arg_offset args) (arg_limit args) (default default_indentation (indentation args))
                end);
   Ok (mk_output (BodyText (join [LF] collected)) (Some true))).
Proof.
  intros Hj (Ho & Hl & Hp) args. subst args. unfold handle_read_file, parse_arguments. rewrite Hj. cbn [map_err mbind outcome_bind].
  rewrite (proj2 (Nat.eqb_neq _ 0)) by lia. rewrite (proj2 (Nat.eqb_neq _ 0)) by lia. by rewrite Hp.
Qed.

(** Reading a slice of a file that can be read: the lines from the offset on, as many as the limit
    lets through, without line endings, decoded and cut to 500 bytes, each with its number; or an error where
    the file has not as many lines. *)
Theorem read_file_slice arguments json l : from_json arguments = Ok json -> accepted (with_defaults json) ->
  mode (with_defaults json) = Slice -> open_file (file_path (with_defaults json)) = Ok (sound l) ->
  let offset := arg_offset (with_defaults json) in
  handle_read_file overflow_checks from_json open_file (FunctionPayload arguments) =
    (if length (lines_of l) <? offset then Err (RespondToModel (lit "offset exceeds file length"))
     else Ok (mk_output (BodyText (join [LF] (numbered offset (take (arg_limit (with_defaults json)) (drop (offset - 1) (lines_of l)))))) (Some true))).
Proof.
  intros Hj Ha Hm Hf offset. subst offset. rewrite (handle_accepted _ _ Hj Ha). destruct Ha as (Ho & Hl & _). rewrite Hm, Hf, slice_read_sound by lia.
  by destruct (_ <? _).
Qed.


(** A limit that no queue has room for, which the arguments may ask for, makes the tool panic. *)
Lemma huge_limit_panics arguments json l : from_json arguments = Ok json -> accepted (with_defaults json) ->
  mode (with_defaults json) = Indentation -> open_file (file_path (with_defaults json)) = Ok (sound l) ->
  indentation (with_defaults json) = None -> has_capacity (arg_limit (with_defaults json)) = false ->
  2 <= length (records_of l) -> arg_offset (with_defaults json) <= length (records_of l) ->
  handle_read_file overflow_checks from_json open_file (FunctionPayload arguments) = Panic.
Proof.
  intros Hj Ha Hm Hf Hi Hcap H2 Ho. rewrite (handle_accepted _ _ Hj Ha). destruct Ha as (Ho1 & Hl & _). rewrite Hm, Hf, Hi. cbn [default].
  assert (2 <= arg_limit (with_defaults json)) as Hlim.
  { unfold has_capacity in Hcap. apply N.leb_gt in Hcap. unfold isize_max in Hcap. lia. }
  unfold read_block. cbn [default_indentation anchor_line max_lines default].
  rewrite (proj2 (Nat.eqb_neq _ 0)) by lia. rewrite (proj2 (Nat.eqb_neq _ 0)) by lia. rewrite collect_file_lines_sound. cbn [mbind outcome_bind].
  rewrite bool_decide_false by (intros Hnil; rewrite Hnil in H2; cbn in H2; lia). rewrite (proj2 (Nat.ltb_ge _ _)) by lia. cbn [orb].
  destruct (both_lookups (records_of l) (compute_effective_indents (records_of l)) (effective_length _) (arg_offset (with_defaults json) - 1)) as (e & r & He & Hr); [lia|].
  unfold index. rewrite He, Hr. cbn [mbind outcome_bind]. rewrite least_indent_ok by done. cbn [mbind outcome_bind].
  rewrite (proj2 (Nat.eqb_neq _ 1)) by lia. by rewrite Hcap.
Qed.
End handler.

(** ** An example *)

Definition example_source : list N := encode_utf8 (lit "def f():
    a = 1
    if a:
        b()

def g():
    c()
").

Definition example_json (j : ReadFileJson) (arguments : str) : outcome str ReadFileJson := Ok j.
Definition example_open (path : str) : outcome io_error stream := Ok (sound example_source).

Lemma read_file_slice_witness : exists json,
  handle_read_file true (example_json json) example_open (FunctionPayload []) = Ok (mk_output (BodyText (lit "L2:     a = 1
L3:     if a:")) (Some true)).
Proof.
  exists (mk_json (lit "/f") (Some 2) (Some 2) None None).
  rewrite (read_file_slice true (example_json (mk_json (lit "/f") (Some 2) (Some 2) None None)) example_open [] _ example_source eq_refl);
    [vm_compute; reflexivity|split; [|split]; vm_compute; [lia|lia|reflexivity]|reflexivity|reflexivity].
Defined.

Definition block_json : ReadFileJson :=
  mk_json (lit "/f") (Some 4) None (Some Indentation) (Some (mk_indentation_json None (Some 1%N) None None None)).


(** Around the call of [b]: the line above it, but not a second one at the least indentation, nor the blank line below. *)
Example read_body : handle_read_file true (example_json block_json) example_open (FunctionPayload []) = Ok (mk_output (BodyText (lit "L3:     if a:
L4:         b()")) (Some true)).
Proof. vm_compute. reflexivity. Qed.
