(* ===== verification/ListDir.v ===== *)
(** * Listing a directory for the model (core/src/tools/handlers/list_dir.rs)

    The entries of a directory down to a depth, breadth first, sorted by their paths. *)

From stdpp Require Import sorting.
From S2P Require Import Prelude RustStd ByteText Order PatchApply Truncate History ReadFile ReadFileSpec.

(** ** Directories *)

Inductive FileType : Type := IsSymlink | IsDir | IsFile | IsOther.
#[export] Instance FileType_eq_dec : EqDecision FileType.
Proof. solve_decision. Defined.
Inductive DirEntryKind : Type := Directory | File | Symlink | OtherKind.
#[export] Instance DirEntryKind_eq_dec : EqDecision DirEntryKind.
Proof. solve_decision. Defined.
Definition kind_of (t : FileType) : DirEntryKind :=
  match t with IsSymlink => Symlink | IsDir => Directory | IsFile => File | IsOther => OtherKind end.

Record DirEntry : Type := mk_entry { entry_name : str; display_name : str; entry_depth : nat; entry_kind : DirEntryKind }.

(** [read_dir]: the names in a directory with the answers about their types, in the order of
    the system, and the error after them if there is one. *)
Record dir_stream : Type := mk_dir_stream { dir_names : list (str * (io_error + FileType)); dir_failure : option io_error }.

(** [slice::sort_unstable_by] with the comparison of texts that are a key of the elements: sorted, in some order among equals. *)
Class UnstableSort : Type := {
  sort_unstable_by {A} : (A -> str) -> list A -> list A;
  sort_unstable_perm {A} (key : A -> str) (l : list A) : sort_unstable_by key l ≡ₚ l;
  sort_unstable_sorted {A} (key : A -> str) (l : list A) : StronglySorted (fun x y => str_compare (key x) (key y) <> Gt) (sort_unstable_by key l);
}.

Definition MAX_ENTRY_LENGTH : nat := 500.
Definition INDENTATION_SPACES : nat := 2.

Definition format_entry_component {E} (name : str) : outcome E str :=
  if MAX_ENTRY_LENGTH <? str_len name then take_bytes_at_char_boundary name MAX_ENTRY_LENGTH else Ok name.
Definition format_entry_name {E} (path : str) : outcome E str :=
  format_entry_component (replace_char (fun c => bool_decide (c = ch "\")) (lit "/") path).

Definition format_entry_line (entry : DirEntry) : str :=
  replicate (entry_depth entry * INDENTATION_SPACES) 32%N ++ display_name entry ++
  match entry_kind entry with Directory => lit "/" | Symlink => lit "@" | OtherKind => lit "?" | File => [] end.

Section listing.
Context `{UnstableSort}.
Variable read_dir : str -> io_error + dir_stream.

(** An entry with its path and its path below the directory listed. *)
Record found : Type := mk_found { found_path : str; found_relative : str; found_entry : DirEntry }.

Definition inspect (dir prefix : str) (e : str * (io_error + FileType)) : tool_result found :=
  let '(file_name, file_type) := e in
  file_type ← (match file_type with inl err => Err (RespondToModel (lit "failed to inspect entry: " ++ message err)) | inr t => Ok t end);
  let relative_path := if bool_decide (prefix = []) then file_name else path_join prefix file_name in
  display_name ← format_entry_component file_name;
  sort_key ← format_entry_name relative_path;
  Ok (mk_found (path_join dir file_name) relative_path (mk_entry sort_key display_name (length (components prefix)) (kind_of file_type))).

Definition failed_to_read_dir {A} (m : io_error + A) : tool_result A :=
  match m with inl err => Err (RespondToModel (lit "failed to read directory: " ++ message err)) | inr a => Ok a end.

Definition read_entries (dir prefix : str) : tool_result (list found) :=
  stream ← failed_to_read_dir (read_dir dir);
  dir_entries ← collect_results (inspect dir prefix) (dir_names stream);
  match dir_failure stream with Some err => failed_to_read_dir (inl err) | None => Ok dir_entries end.

Fixpoint collect_entries_loop (fuel : nat) (queue : list (str * str * nat)) (entries : list DirEntry) : tool_result (list DirEntry) :=
  match queue with
  | [] => Ok entries
  | (current_dir, prefix, remaining_depth) :: queue =>
      match fuel with
      | O => Timeout
      | S fuel =>
          dir_entries ← read_entries current_dir prefix;
          let dir_entries := sort_unstable_by (fun f => entry_name (found_entry f)) dir_entries in
          let subdirs := filter (fun f => entry_kind (found_entry f) = Directory /\ 1 < remaining_depth) dir_entries in
          collect_entries_loop fuel (queue ++ ((fun f => (found_path f, found_relative f, remaining_depth - 1)) <$> subdirs))
            (entries ++ (found_entry <$> dir_entries))
      end
  end.

(** The directories there are to read. *)
Fixpoint dirs_below (depth : nat) (dir : str) : nat :=
  match depth with
  | O => 1
  | S depth =>
      match read_dir dir with
      | inr stream => S (sum_list_with (fun e => match e.2 with inr IsDir => dirs_below depth (path_join dir e.1) | _ => 0 end) (dir_names stream))
      | _ => 1
      end
  end.

Definition collect_entries (dir_path relative_prefix : str) (depth : nat) : tool_result (list DirEntry) :=
  collect_entries_loop (S (dirs_below depth dir_path)) [(dir_path, relative_prefix, depth)] [].

Definition list_dir_slice (path : str) (offset limit depth : nat) : tool_result (list str) :=
  entries ← collect_entries path [] depth;
  if bool_decide (entries = []) then Ok []
  else
    let entries := sort_unstable_by entry_name entries in
    let start_index := offset - 1 in
    if length entries <=? start_index then Err (RespondToModel (lit "offset exceeds directory entry count"))
    else
      let remaining_entries := length entries - start_index in
      let capped_limit := limit `min` remaining_entries in
      let end_index := start_index + capped_limit in
      selected_entries ← slice start_index end_index entries;
      let formatted := format_entry_line <$> selected_entries in
      Ok (if end_index <? length entries then formatted ++ [lit "More than " ++ show_usize capped_limit ++ lit " entries found"] else formatted).

(** ** The handler *)

Record ListDirJson : Type := mk_list_json { l_dir_path : str; l_offset : option nat; l_limit : option nat; l_depth : option nat }.

Definition handle_list_dir (from_json : str -> outcome str ListDirJson) (payload : ToolPayload) : tool_result FunctionOutput :=
  match payload with
  | FunctionPayload arguments =>
      json ← parse_arguments (from_json arguments);
      let offset := default 1 (l_offset json) in
      let limit := default 25 (l_limit json) in
      let depth := default 2 (l_depth json) in
      if offset =? 0 then Err (RespondToModel (lit "offset must be a 1-indexed entry number"))
      else if limit =? 0 then Err (RespondToModel (lit "limit must be greater than zero"))
      else if depth =? 0 then Err (RespondToModel (lit "depth must be greater than zero"))
      else if negb (is_absolute (l_dir_path json)) then Err (RespondToModel (lit "dir_path must be an absolute path"))
      else
        entries ← list_dir_slice (l_dir_path json) offset limit depth;
        Ok (mk_output (BodyText (join [LF] ((lit "Absolute path: " ++ l_dir_path json) :: entries))) (Some true))
  | OtherPayload => Err (RespondToModel (lit "list_dir handler received unsupported payload"))
  end.
End listing.

(** ** What listing a directory gives

    The entries collected are those of the tree of directories down to the depth, once
    each, and the answer is the part asked for of them in the order of their paths. *)

Section listing.
Context `{UnstableSort}.
Variable read_dir : str -> io_error + dir_stream.

(** ** The tree *)

Definition relative (prefix name : str) : str := if bool_decide (prefix = []) then name else path_join prefix name.
Definition sort_name (path : str) : str := clip MAX_ENTRY_LENGTH (replace_char (fun c => bool_decide (c = ch "\")) (lit "/") path).
Definition found_of (dir prefix name : str) (t : FileType) : found :=
  mk_found (path_join dir name) (relative prefix name)
    (mk_entry (sort_name (relative prefix name)) (clip MAX_ENTRY_LENGTH name) (length (components prefix)) (kind_of t)).

(** All directories down to a depth can be read, and all their entries inspected. *)
Fixpoint readable (depth : nat) (dir : str) : Prop :=
  match depth with
  | O => True
  | S depth => exists stream, read_dir dir = inr stream /\ dir_failure stream = None /\
      Forall (fun e => exists t, e.2 = inr t /\ (t = IsDir -> readable depth (path_join dir e.1))) (dir_names stream)
  end.

(** The entries below a directory, each before those below it. *)
Fixpoint below (depth : nat) (dir prefix : str) : list DirEntry :=
  match depth with
  | O => []
  | S depth =>
      match read_dir dir with
      | inr stream =>
          dir_names stream ≫= fun e => match e.2 with
            | inr t => found_entry (found_of dir prefix e.1 t) :: (if decide (t = IsDir) then below depth (path_join dir e.1) (relative prefix e.1) else [])
            | _ => []
            end
      | _ => []
      end
  end.

Lemma format_component_clip {E} name : format_entry_component (E := E) name = Ok (clip MAX_ENTRY_LENGTH name).
Proof. unfold format_entry_component. destruct (_ <? _) eqn:E1; [apply take_bytes_clip|]. apply Nat.ltb_ge in E1. by rewrite clip_fits. Qed.

Lemma inspect_spec dir prefix e : match e.2 with
  | inr t => inspect dir prefix e = Ok (found_of dir prefix e.1 t)
  | inl err => exists m, inspect dir prefix e = Err m
  end.
Proof.
  destruct e as [name [err|t]]; cbn [inspect mbind outcome_bind fst snd]; [by eexists|].
  unfold format_entry_name. by rewrite !format_component_clip.
Qed.

(** The entries of one directory. *)
Lemma read_entries_spec dir prefix : match read_entries read_dir dir prefix with
  | Ok fs => exists stream, read_dir dir = inr stream /\ dir_failure stream = None /\
      Forall2 (fun e f => exists t, e.2 = inr t /\ f = found_of dir prefix e.1 t) (dir_names stream) fs
  | Err _ => forall depth, ~ readable (S depth) dir
  | _ => False
  end.
Proof.
  unfold read_entries. destruct (read_dir dir) as [err|stream] eqn:Er; cbn [failed_to_read_dir mbind outcome_bind].
  { intros depth (stream & Hs & _). congruence. }
  assert (match collect_results (inspect dir prefix) (dir_names stream) with
    | Ok fs => Forall2 (fun e f => exists t, e.2 = inr t /\ f = found_of dir prefix e.1 t) (dir_names stream) fs
    | Err _ => ~ Forall (fun e => exists t, e.2 = inr t) (dir_names stream)
    | _ => False end) as Hc.
  { induction (dir_names stream) as [|e names IH]; [by constructor|]. cbn [collect_results]. pose proof (inspect_spec dir prefix e) as He.
    destruct e.2 as [err|t] eqn:Et.
    - destruct He as [m ->]. cbn [mbind outcome_bind]. intros [[t Ht] _]%Forall_cons. congruence.
    - rewrite He. cbn [mbind outcome_bind]. destruct (collect_results _ names); cbn [mbind outcome_bind]; [constructor; [by exists t|done]| |done|done].
      by intros [_ ?]%Forall_cons. }
  assert (forall depth, readable (S depth) dir -> dir_failure stream = None /\ Forall (fun e => exists t, e.2 = inr t) (dir_names stream)) as Hread.
  { intros depth (stream' & Hs & Hf & Hall). assert (stream' = stream) as -> by congruence. split; [done|].
    eapply Forall_impl; [exact Hall|]. intros e (t & Ht & _). by exists t. }
  destruct (collect_results _ _) as [fs|err| |]; cbn [mbind outcome_bind]; [|intros depth [_ ?]%Hread; done|done|done].
  destruct (dir_failure stream) eqn:Ef; [cbn; intros depth [? _]%Hread; done|]. by exists stream.
Qed.

Lemma bind_filter_perm {A B} (P : A -> Prop) `{!forall x, Decision (P x)} (g : A -> B) (h : A -> list B) l :
  (l ≫= fun x => g x :: (if decide (P x) then h x else [])) ≡ₚ (g <$> l) ++ (filter P l ≫= h).
Proof.
  induction l as [|x l IH]; [done|]. rewrite bind_cons, filter_cons, IH. destruct (decide (P x)); cbn [app fmap list_fmap]; rewrite ?bind_cons; [|done].
  f_equiv. rewrite !app_assoc. f_equiv. apply Permutation_app_comm.
Qed.

Definition item_below (q : str * str * nat) : list DirEntry := below q.2 q.1.1 q.1.2.
Definition item_dirs (q : str * str * nat) : nat := dirs_below read_dir q.2 q.1.1.
Definition item_readable (q : str * str * nat) : Prop := readable q.2 q.1.1.
Definition subdirs (depth : nat) (fs : list found) : list (str * str * nat) :=
  (fun f => (found_path f, found_relative f, depth)) <$> filter (fun f => entry_kind (found_entry f) = Directory /\ 1 < S depth) fs.

Lemma kind_of_dir t : kind_of t = Directory <-> t = IsDir.
Proof. by destruct t. Qed.

Section directory.
Variables (dir prefix : str) (depth : nat) (stream : dir_stream) (fs fs' : list found).
Hypothesis read : read_dir dir = inr stream.
Hypothesis complete : dir_failure stream = None.
Hypothesis inspected : Forall2 (fun e f => exists t, e.2 = inr t /\ f = found_of dir prefix e.1 t) (dir_names stream) fs.
Hypothesis sorted : fs' ≡ₚ fs.

Definition is_directory (f : found) : Prop := entry_kind (found_entry f) = Directory.

Lemma subdirs_deep : 0 < depth -> subdirs depth fs' ≡ₚ (fun f => (found_path f, found_relative f, depth)) <$> filter is_directory fs.
Proof.
  intros Hd. unfold subdirs. rewrite sorted. erewrite filter_iff; [done|]. intros f _. unfold is_directory. split; [by intros [? _]|intros ?; split; [done|lia]].
Qed.

Lemma subdirs_flat : depth = 0 -> subdirs depth fs' = [].
Proof. intros Hd. unfold subdirs. rewrite filter_none; [done|]. intros f _ [_ ?]. lia. Qed.

Lemma dirs_of_subdirs : sum_list_with item_dirs (subdirs depth fs') < item_dirs (dir, prefix, S depth).
Proof.
  unfold item_dirs at 2. cbn [dirs_below fst snd]. rewrite read. destruct (decide (depth = 0)) as [Hd|Hd]; [rewrite subdirs_flat by done; cbn; lia|].
  rewrite subdirs_deep by lia. apply le_n_S. clear Hd sorted. pose proof inspected as Hin. clear inspected. induction Hin as [|e f names fs0 (t & Ht & ->) _ IH]; [done|].
  cbn [sum_list_with]. rewrite filter_cons, Ht. unfold is_directory at 1. cbn [found_of found_entry entry_kind].
  destruct (decide (kind_of t = Directory)) as [->%kind_of_dir|Hk]; rewrite ?fmap_cons; cbn [sum_list_with].
  - change (item_dirs _) with (dirs_below read_dir depth (path_join dir e.1)) at 1. lia.
  - destruct t; [lia|by destruct Hk|lia..].
Qed.

Lemma below_of_subdirs : item_below (dir, prefix, S depth) ≡ₚ (found_entry <$> fs') ++ (subdirs depth fs' ≫= item_below).
Proof.
  unfold item_below at 1. cbn [below fst snd]. rewrite read.
  assert ((dir_names stream ≫= fun e => match e.2 with inr t => found_entry (found_of dir prefix e.1 t) :: (if decide (t = IsDir) then below depth (path_join dir e.1) (relative prefix e.1) else []) | inl _ => [] end)
    = (fs ≫= fun f => found_entry f :: (if decide (is_directory f) then below depth (found_path f) (found_relative f) else []))) as ->.
  { clear sorted. pose proof inspected as Hin. clear inspected. induction Hin as [|e f names fs0 (t & Ht & ->) _ IH]; [done|]. rewrite !bind_cons, IH, Ht. f_equal. f_equal.
    unfold is_directory. cbn. destruct (decide (t = IsDir)) as [->|Hk]; [done|]. rewrite decide_False; [done|]. by rewrite kind_of_dir. }
  rewrite bind_filter_perm. f_equiv; [by rewrite sorted|]. destruct (decide (depth = 0)) as [Hd|Hd].
  - rewrite subdirs_flat by done. rewrite Hd. induction (filter _ _) as [|f l IH]; [done|]. cbn. by rewrite IH.
  - rewrite subdirs_deep by lia. induction (filter _ _) as [|f l IH]; [done|]. cbn. by rewrite IH.
Qed.

Lemma readable_subdirs : item_readable (dir, prefix, S depth) <-> Forall item_readable (subdirs depth fs').
Proof.
  unfold item_readable at 1. cbn [readable fst snd].
  assert ((exists stream, read_dir dir = inr stream /\ dir_failure stream = None /\
      Forall (fun e => exists t, e.2 = inr t /\ (t = IsDir -> readable depth (path_join dir e.1))) (dir_names stream)) <->
    Forall (fun f => readable depth (found_path f)) (filter is_directory fs)) as ->.
  { transitivity (Forall (fun e : str * (io_error + FileType) => exists t, e.2 = inr t /\ (t = IsDir -> readable depth (path_join dir e.1))) (dir_names stream)).
    { split; [|intros ?; by exists stream]. intros (stream' & Hs & _ & ?). rewrite read in Hs. by injection Hs as <-. }
    clear sorted. pose proof inspected as Hin. clear inspected. induction Hin as [|e f names fs0 (t & Ht & ->) _ IH]; [by rewrite !Forall_nil|]. rewrite Forall_cons, IH, filter_cons.
    unfold is_directory at 2. cbn [found_of found_entry entry_kind]. destruct (decide (kind_of t = Directory)) as [->%kind_of_dir|Hk].
    - rewrite Forall_cons. cbn. rewrite Ht. naive_solver.
    - rewrite kind_of_dir in Hk. rewrite Ht. naive_solver. }
  destruct (decide (depth = 0)) as [Hd|Hd].
  - rewrite subdirs_flat by done. rewrite Hd. split; [done|]. intros _. apply Forall_forall. done.
  - rewrite subdirs_deep by lia. rewrite Forall_fmap. done.
Qed.
End directory.

Lemma collect_loop_spec fuel queue entries : Forall (fun q => 0 < q.2) queue -> sum_list_with item_dirs queue < fuel ->
  match collect_entries_loop read_dir fuel queue entries with
  | Ok out => Forall item_readable queue /\ out ≡ₚ entries ++ (queue ≫= item_below)
  | Err _ => ~ Forall item_readable queue
  | _ => False
  end.
Proof.
  revert queue entries. induction fuel as [|fuel IH]; intros queue entries Hq Hf; [lia|].
  destruct queue as [|[[dir prefix] [|depth]] queue]; cbn [collect_entries_loop].
  { split; [constructor|]. by rewrite app_nil_r. }
  { apply Forall_cons in Hq as [Hq _]. cbn in Hq. lia. }
  apply Forall_cons in Hq as [_ Hq]. pose proof (read_entries_spec dir prefix) as Hr. destruct (read_entries read_dir dir prefix) as [fs|err| |]; cbn [mbind outcome_bind]; [| |done|done].
  2: { intros [? _]%Forall_cons. by apply (Hr depth). }
  destruct Hr as (stream & Hread & Hc & Hin). set (fs' := sort_unstable_by _ fs). assert (fs' ≡ₚ fs) as Hperm by apply sort_unstable_perm.
  replace (S depth - 1) with depth by lia. fold (subdirs depth fs').
  pose proof (dirs_of_subdirs dir prefix depth stream fs fs' Hread Hin Hperm). pose proof (below_of_subdirs dir prefix depth stream fs fs' Hread Hin Hperm) as Hb.
  cbn [sum_list_with] in Hf.
  specialize (IH (queue ++ subdirs depth fs') (entries ++ (found_entry <$> fs'))). rewrite sum_list_with_app in IH.
  pose proof (readable_subdirs dir prefix depth stream fs fs' Hread Hc Hin Hperm) as Hrd.
  assert (Forall (fun q => 0 < q.2) (queue ++ subdirs depth fs')) as Hpos.
  { apply Forall_app. split; [done|]. unfold subdirs. apply Forall_fmap, Forall_forall. intros f [[_ Hdeep] _]%list_elem_of_filter. simpl. revert Hdeep. clear. lia. }
  specialize (IH Hpos ltac:(lia)). destruct (collect_entries_loop _ _ _ _) as [out|err| |]; [| |done|done].
  - destruct IH as [[? ?]%Forall_app ->]. split; [apply Forall_cons; split; [by apply Hrd|done]|]. rewrite bind_app, bind_cons. rewrite Hb. rewrite <-!app_assoc. f_equiv. f_equiv. apply Permutation_app_comm.
  - intros [?%Hrd ?]%Forall_cons. by apply IH, Forall_app.
Qed.
End listing.

Section handler.
Context `{UnstableSort}.
Variable read_dir : str -> io_error + dir_stream.
Variable from_json : str -> outcome str ListDirJson.

Definition by_name (x y : DirEntry) : Prop := str_compare (entry_name x) (entry_name y) <> Gt.

(** The lines of a part of the entries, and whether there are more. *)
Definition listed (offset limit : nat) (entries : list DirEntry) : list str :=
  (format_entry_line <$> take limit (drop (offset - 1) entries)) ++
  (if bool_decide (offset - 1 + limit < length entries) then [lit "More than " ++ show_usize limit ++ lit " entries found"] else []).

Lemma list_dir_slice_spec path offset limit depth : 0 < depth ->
  match list_dir_slice read_dir path offset limit depth with
  | Err _ => readable read_dir depth path -> exists entries, entries ≡ₚ below read_dir depth path [] /\ entries <> [] /\ length entries <= offset - 1
  | Ok out => readable read_dir depth path /\ exists entries, entries ≡ₚ below read_dir depth path [] /\ StronglySorted by_name entries /\
      (entries <> [] -> offset - 1 < length entries) /\ out = listed offset limit entries
  | _ => False
  end.
Proof.
  intros Hd. unfold list_dir_slice, collect_entries.
  pose proof (collect_loop_spec read_dir (S (dirs_below read_dir depth path)) [(path, [], depth)] []) as Hc.
  destruct (collect_entries_loop _ _ _ _) as [entries|err| |]; cbn [mbind outcome_bind].
  - destruct Hc as [[Hr _]%Forall_cons Hp]; [by apply Forall_singleton|cbn; unfold item_dirs; cbn; lia|]. cbn [app] in Hp. rewrite bind_singleton in Hp.
    case_bool_decide as He; [subst; split; [exact Hr|]; exists []; split; [done|]; split; [apply SSorted_nil|split; [done|]]|].
    { unfold listed. rewrite drop_nil, take_nil. rewrite bool_decide_false; [done|cbn; lia]. }
    set (es := sort_unstable_by entry_name entries). assert (es ≡ₚ entries) as Hes by apply sort_unstable_perm. rewrite Hp in Hes.
    assert (length es <> 0) as Hlen by (intros H0%nil_length_inv; apply He, Permutation_nil_r; by rewrite <-H0, Hes, Hp).
    destruct (length es <=? offset - 1) eqn:Eo.
    { apply Nat.leb_le in Eo. intros _. exists es. split; [done|]. split; [|done]. by destruct es. }
    apply Nat.leb_gt in Eo. unfold slice. rewrite bool_decide_true by lia. cbn [mbind outcome_bind].
    split; [exact Hr|]. exists es. split; [done|]. split; [apply sort_unstable_sorted|]. split; [done|]. unfold listed.
    rewrite Nat.add_sub'.
    destruct (decide (offset - 1 + limit < length es)).
    + rewrite (proj2 (Nat.ltb_lt _ _)), bool_decide_true by lia. by replace (limit `min` (length es - (offset - 1))) with limit by lia.
    + rewrite (proj2 (Nat.ltb_ge _ _)), bool_decide_false by lia. rewrite app_nil_r. replace (limit `min` (length es - (offset - 1))) with (length es - (offset - 1)) by lia.
      rewrite !take_ge by (rewrite ?length_drop; lia). done.
  - intros Hr. destruct Hc; [by apply Forall_singleton|cbn; unfold item_dirs; cbn; lia|by apply Forall_singleton].
  - destruct Hc; [by apply Forall_singleton|cbn; unfold item_dirs; cbn; lia].
  - destruct Hc; [by apply Forall_singleton|cbn; unfold item_dirs; cbn; lia].
Qed.

Definition list_accepted (json : ListDirJson) : Prop :=
  1 <= default 1 (l_offset json) /\ 1 <= default 25 (l_limit json) /\ 1 <= default 2 (l_depth json) /\ is_absolute (l_dir_path json) = true.

(** Listing a directory gives an answer exactly where every directory down to the depth can be read
    and the offset is within its entries: the part asked for of all the entries below it, each once, in the
    order of their paths, a line each after the one of the directory, and the remark that there are more where there are. *)
Theorem list_dir_spec arguments json : from_json arguments = Ok json -> list_accepted json ->
  match handle_list_dir read_dir from_json (FunctionPayload arguments) with
  | Ok out => readable read_dir (default 2 (l_depth json)) (l_dir_path json) /\
      exists entries, entries ≡ₚ below read_dir (default 2 (l_depth json)) (l_dir_path json) [] /\ StronglySorted by_name entries /\
        (entries <> [] -> default 1 (l_offset json) <= length entries) /\
        out = mk_output (BodyText (join [LF] ((lit "Absolute path: " ++ l_dir_path json) ::
                listed (default 1 (l_offset json)) (default 25 (l_limit json)) entries))) (Some true)
  | Err _ => readable read_dir (default 2 (l_depth json)) (l_dir_path json) ->
      exists entries, entries ≡ₚ below read_dir (default 2 (l_depth json)) (l_dir_path json) [] /\ 0 < length entries < default 1 (l_offset json)
  | _ => False
  end.
Proof.
  intros Hj (Ho & Hl & Hd & Hp). unfold handle_list_dir, parse_arguments. rewrite Hj. cbn [map_err mbind outcome_bind].
  rewrite !(proj2 (Nat.eqb_neq _ 0)) by lia. rewrite Hp. cbn [negb].
  pose proof (list_dir_slice_spec (l_dir_path json) (default 1 (l_offset json)) (default 25 (l_limit json)) (default 2 (l_depth json)) ltac:(lia)) as Hs.
  destruct (list_dir_slice _ _ _ _ _) as [lines|err| |]; cbn [mbind outcome_bind]; [| |done|done].
  - destruct Hs as (Hr & entries & Hperm & Hsorted & Hoff & ->). split; [done|]. exists entries. split; [done|]. split; [done|]. split; [|done]. intros Hne%Hoff. lia.
  - intros (entries & Hperm & Hne & Hlen)%Hs. exists entries. split; [done|]. destruct entries; [done|]. cbn [length] in *. lia.
Qed.
End handler.

(** ** An example *)

#[export] Instance by_key_trans {A} (key : A -> str) : Transitive (fun x y => str_compare (key x) (key y) <> Gt).
Proof. intros x y z. apply (compare_le_trans str_compare). Qed.
#[export] Instance by_key_total {A} (key : A -> str) : Total (fun x y => str_compare (key x) (key y) <> Gt).
Proof. intros x y. apply (compare_le_total str_compare). Qed.
#[export] Instance by_key_dec {A} (key : A -> str) (x y : A) : Decision (str_compare (key x) (key y) <> Gt).
Proof. apply _. Defined.

Definition merge_sort_by_key {A} (key : A -> str) (l : list A) : list A := merge_sort (fun x y => str_compare (key x) (key y) <> Gt) l.

Definition stable_order : UnstableSort := {|
  sort_unstable_by A key l := merge_sort_by_key key l;
  sort_unstable_perm A key l := merge_sort_Permutation _ l;
  sort_unstable_sorted A key l := StronglySorted_merge_sort _ l;
|}.

(** A directory [/d] with a directory [a] that has a file [b], and a file [a.txt]. *)
Definition example_dirs (dir : str) : io_error + dir_stream :=
  if bool_decide (dir = lit "/d") then inr (mk_dir_stream [(lit "a.txt", inr IsFile); (lit "a", inr IsDir)] None)
  else if bool_decide (dir = lit "/d/a") then inr (mk_dir_stream [(lit "b", inr IsFile)] None)
  else inl (mk_io_error NotFound []).
Definition example_listing : ListDirJson := mk_list_json (lit "/d") None None None.

Lemma list_dir_spec_witness : readable example_dirs 2 (lit "/d") /\ exists entries, entries ≡ₚ below example_dirs 2 (lit "/d") [] /\ StronglySorted by_name entries.
Proof.
  pose proof (@list_dir_spec stable_order example_dirs (fun _ => Ok example_listing) [] example_listing eq_refl
    ltac:(split; [|split; [|split]]; vm_compute; [lia|lia|lia|reflexivity])) as H.
  destruct (@handle_list_dir stable_order example_dirs (fun _ => Ok example_listing) (FunctionPayload [])) as [out|e| |] eqn:E;
    [|exfalso; vm_compute in E; discriminate E..].
  destruct H as (Hr & entries & Hp & Hs & _). split; [exact Hr|]. exists entries. split; [exact Hp|exact Hs].
Defined.

(** The file [b] of [a], indented, comes after [a.txt], which has the smaller path. *)
Lemma listing_misplaces_children : @handle_list_dir stable_order example_dirs (fun _ => Ok example_listing) (FunctionPayload []) =
  Ok (mk_output (BodyText (lit "Absolute path: /d
a/
a.txt
  b")) (Some true)).
Proof. vm_compute. reflexivity. Qed.
