(* ===== verification/AgentGuards.v ===== *)
(** * Limits on sub-agents (core/src/agent/guards.rs)

    How deep and how many agents are spawned: the counter, which tasks raise by
    compare-and-exchange, the reservations, and the set of registered threads.  The atomic
    operations of all tasks are steps, in any order. *)

From stdpp Require Import gmap.
From S2P Require Import Prelude RustStd.

(** ** Depth *)

Abbreviation ThreadId := N (only parsing).

Inductive SubAgentSource : Type :=
  | Review | Compact
  | ThreadSpawn (parent_thread_id : ThreadId) (depth : Z) (agent_nickname agent_role : option str)
  | MemoryConsolidation
  | OtherSource (name : str).
Inductive SessionSource : Type := Cli | VSCode | ExecSource | McpSource | SubAgent (s : SubAgentSource) | UnknownSource.

Definition session_depth (session_source : SessionSource) : Z :=
  match session_source with
  | SubAgent (ThreadSpawn _ depth _ _) => depth
  | SubAgent _ => 0
  | _ => 0
  end.

Definition i32_max : Z := 2 ^ 31 - 1.
(** [saturating_add] of one. *)
Definition next_thread_spawn_depth (session_source : SessionSource) : Z := Z.min i32_max (session_depth session_source + 1).
Definition exceeds_thread_spawn_depth_limit (depth max_depth : Z) : bool := (max_depth <? depth)%Z.

(** ** The guards *)

Record Guards : Type := mk_guards {
  threads_set : gset ThreadId;
  thread_agent_nicknames : gmap ThreadId str;
  used_agent_nicknames : gset str;
  nickname_reset_count : nat;
  total_count : N;
}.
Definition guards_default : Guards := mk_guards ∅ ∅ ∅ 0 0.

(** [AtomicUsize]: both wrap. *)
Definition with_count (n : N) (g : Guards) : Guards :=
  mk_guards (threads_set g) (thread_agent_nicknames g) (used_agent_nicknames g) (nickname_reset_count g) n.
Definition fetch_add_one (g : Guards) : Guards := with_count ((total_count g + 1) mod 2 ^ 64) g.
Definition fetch_sub_one (g : Guards) : Guards := with_count ((total_count g + (2 ^ 64 - 1)) mod 2 ^ 64) g.

(** What [release_spawned_thread] does under the lock: whether the thread was there. *)
Definition remove_thread (thread_id : ThreadId) (g : Guards) : Guards * bool :=
  (mk_guards (threads_set g ∖ {[thread_id]}) (delete thread_id (thread_agent_nicknames g)) (used_agent_nicknames g) (nickname_reset_count g) (total_count g),
   bool_decide (thread_id ∈ threads_set g)).

Definition register_spawned_thread (thread_id : ThreadId) (agent_nickname : option str) (g : Guards) : Guards :=
  match agent_nickname with
  | Some nickname =>
      mk_guards ({[thread_id]} ∪ threads_set g) (<[thread_id := nickname]> (thread_agent_nicknames g)) ({[nickname]} ∪ used_agent_nicknames g)
        (nickname_reset_count g) (total_count g)
  | None => mk_guards ({[thread_id]} ∪ threads_set g) (thread_agent_nicknames g) (used_agent_nicknames g) (nickname_reset_count g) (total_count g)
  end.

Definition with_used (used : gset str) (resets : nat) (g : Guards) : Guards :=
  mk_guards (threads_set g) (thread_agent_nicknames g) used resets (total_count g).

(** The names that are left, all of them once none is; [pick] is the random choice, none of no names. *)
Definition reserve_agent_nickname (pick : list str -> option str) (names : list str) (preferred : option str) (g : Guards) : option str * Guards :=
  match preferred with
  | Some nickname => (Some nickname, with_used ({[nickname]} ∪ used_agent_nicknames g) (nickname_reset_count g) g)
  | None =>
      if bool_decide (names = []) then (None, g)
      else
        match pick (filter (fun n => n ∉ used_agent_nicknames g) names) with
        | Some nickname => (Some nickname, with_used ({[nickname]} ∪ used_agent_nicknames g) (nickname_reset_count g) g)
        | None =>
            let g := with_used ∅ (S (nickname_reset_count g)) g in
            match pick names with
            | Some nickname => (Some nickname, with_used {[nickname]} (nickname_reset_count g) g)
            | None => (None, g)
            end
        end
  end.

(** ** Tasks *)

(** A loop of [try_increment_spawned], with its limit and the count it read. *)
Record attempt : Type := mk_attempt { max_threads : N; current : N }.

(** The guards; the attempts under way and the active reservations with their nicknames, by task and
    by reservation; and the threads that are removed, but not yet from the count. *)
Record agents : Type := mk_agents {
  guards : Guards;
  attempts : gmap N attempt;
  reservations : gmap N (option str);
  removed : nat;
  (** How often a thread was registered that was registered already. *)
  doubled : nat;
}.
Definition agents_default : agents := mk_agents guards_default ∅ ∅ 0 0.

Definition with_guards (g : Guards) (w : agents) : agents := mk_agents g (attempts w) (reservations w) (removed w) (doubled w).
Definition with_attempts (a : gmap N attempt) (w : agents) : agents := mk_agents (guards w) a (reservations w) (removed w) (doubled w).

Inductive agent_label : Type :=
  | TryStart (task : N) (max_threads : N)
  | TryAgain (task : N)
  | TryFull (task : N)
  | TrySwap (task reservation : N)
  | Unlimited (reservation : N)
  | ReserveNickname (reservation : N) (names : list str) (preferred : option str) (pick : list str -> option str)
  | Commit (reservation : N) (thread_id : ThreadId) (agent_nickname : option str)
  | DropReservation (reservation : N)
  | Remove (thread_id : ThreadId)
  | RemoveCount.

Inductive agent_step : agents -> agent_label -> agents -> Prop :=
  (** The load. *)
  | step_start w t m : attempts w !! t = None -> (m < 2 ^ 64)%N ->
      agent_step w (TryStart t m) (with_attempts (<[t := mk_attempt m (total_count (guards w))]> (attempts w)) w)
  (** [AgentLimitReached]. *)
  | step_full w t a : attempts w !! t = Some a -> (max_threads a <= current a)%N ->
      agent_step w (TryFull t) (with_attempts (delete t (attempts w)) w)
  (** The exchange fails, as it may also where the count is the one that was read. *)
  | step_again w t a : attempts w !! t = Some a -> (current a < max_threads a)%N ->
      agent_step w (TryAgain t) (with_attempts (<[t := mk_attempt (max_threads a) (total_count (guards w))]> (attempts w)) w)
  | step_swap w t a r : attempts w !! t = Some a -> (current a < max_threads a)%N -> current a = total_count (guards w) -> reservations w !! r = None ->
      agent_step w (TrySwap t r)
        (mk_agents (with_count (current a + 1) (guards w)) (delete t (attempts w)) (<[r := None]> (reservations w)) (removed w) (doubled w))
  | step_unlimited w r : reservations w !! r = None ->
      agent_step w (Unlimited r) (mk_agents (fetch_add_one (guards w)) (attempts w) (<[r := None]> (reservations w)) (removed w) (doubled w))
  | step_nickname w r old names preferred pick n g : reservations w !! r = Some old ->
      (forall l, match pick l with Some x => x ∈ l | None => l = [] end) -> reserve_agent_nickname pick names preferred (guards w) = (n, g) ->
      agent_step w (ReserveNickname r names preferred pick)
        (mk_agents g (attempts w) (match n with Some _ => <[r := n]> (reservations w) | None => reservations w end) (removed w) (doubled w))
  | step_commit w r n id nickname : reservations w !! r = Some n ->
      agent_step w (Commit r id nickname)
        (mk_agents (register_spawned_thread id (match n with Some _ => n | None => nickname end) (guards w)) (attempts w) (delete r (reservations w)) (removed w)
           (if bool_decide (id ∈ threads_set (guards w)) then S (doubled w) else doubled w))
  | step_drop w r n : reservations w !! r = Some n ->
      agent_step w (DropReservation r) (mk_agents (fetch_sub_one (guards w)) (attempts w) (delete r (reservations w)) (removed w) (doubled w))
  | step_remove w id g was_there : remove_thread id (guards w) = (g, was_there) ->
      agent_step w (Remove id) (mk_agents g (attempts w) (reservations w) (if was_there : bool then S (removed w) else removed w) (doubled w))
  | step_remove_count w n : removed w = S n ->
      agent_step w RemoveCount (mk_agents (fetch_sub_one (guards w)) (attempts w) (reservations w) n (doubled w)).

Inductive agent_run : list agent_label -> agents -> Prop :=
  | run_start : agent_run [] agents_default
  | run_step ls w l w' : agent_run ls w -> agent_step w l w' -> agent_run (ls ++ [l]) w'.

(** ** The count *)

(** What stands for a slot. *)
Definition slots (w : agents) : N := N.of_nat (size (reservations w) + size (threads_set (guards w)) + removed w + doubled w).

Lemma total_reserve_nickname pick names preferred g n g' : reserve_agent_nickname pick names preferred g = (n, g') ->
  threads_set g' = threads_set g /\ total_count g' = total_count g.
Proof. unfold reserve_agent_nickname. repeat case_match; by intros [= <- <-]. Qed.

Lemma threads_register id n g : threads_set (register_spawned_thread id n g) = {[id]} ∪ threads_set g /\ total_count (register_spawned_thread id n g) = total_count g.
Proof. by destruct n. Qed.

Lemma size_add (id : N) (X : gset N) : size ({[id]} ∪ X) = (if bool_decide (id ∈ X) then size X else S (size X)).
Proof.
  case_bool_decide.
  - by assert ({[id]} ∪ X = X) as -> by set_solver.
  - by rewrite (size_union {[id]} X ltac:(set_solver)), size_singleton.
Qed.

Lemma size_remove (id : N) (X : gset N) : (if bool_decide (id ∈ X) then S (size (X ∖ {[id]})) else size (X ∖ {[id]})) = size X.
Proof.
  case_bool_decide as Hin.
  - rewrite (union_difference_singleton_L id X Hin) at 2. by rewrite (size_union {[id]} (X ∖ {[id]}) ltac:(set_solver)), size_singleton.
  - by assert (X ∖ {[id]} = X) as -> by set_solver.
Qed.

Lemma sub_one_mod s : (0 < s)%N -> (((s mod 2 ^ 64) + (2 ^ 64 - 1)) mod 2 ^ 64 = (s - 1) mod 2 ^ 64)%N.
Proof.
  intros Hs. rewrite N.Div0.add_mod_idemp_l. replace (s + (2 ^ 64 - 1))%N with (s - 1 + 1 * 2 ^ 64)%N by lia. apply N.Div0.mod_add.
Qed.

Definition counted (w : agents) : Prop := total_count (guards w) = (slots w mod 2 ^ 64)%N.

Lemma step_counted w l w' : agent_step w l w' -> counted w ->
  (forall t a, attempts w !! t = Some a -> (max_threads a < 2 ^ 64)%N) -> counted w'.
Proof.
  unfold counted, slots. intros Hs Hc Hmax. destruct Hs as [| |? t a|? t a r Ha Hcur Hread Hr|? r Hr|? r old names pref pick n g Hr _ Hn|? r n id nick Hr|? r n Hr|? id g b Hrm|? n Hn];
    cbn [guards reservations removed doubled with_attempts total_count with_count fetch_add_one fetch_sub_one threads_set]; try done.
  - rewrite map_size_insert_None by done. rewrite Hread, Hc. specialize (Hmax _ _ Ha). rewrite <-(N.mod_small (_ + 1) (2 ^ 64)) by lia.
    rewrite N.Div0.add_mod_idemp_l. f_equal. lia.
  - rewrite map_size_insert_None by done. rewrite Hc, N.Div0.add_mod_idemp_l. f_equal. lia.
  - apply total_reserve_nickname in Hn as [-> ->]. rewrite Hc. f_equal. f_equal. f_equal. f_equal. f_equal. destruct n; [|done].
    rewrite map_size_insert. by rewrite Hr.
  - destruct (threads_register id (match n with Some _ => n | None => nick end) (guards w)) as [-> ->]. rewrite Hc, size_add, map_size_delete, Hr.
    assert (0 < size (reservations w)) as Hpos. { destruct (size (reservations w)) eqn:E; [|lia]. apply map_size_empty_inv in E. rewrite E in Hr. by rewrite lookup_empty in Hr. }
    f_equal. case_bool_decide; lia.
  - rewrite Hc, map_size_delete, Hr.
    assert (0 < size (reservations w)) as Hpos. { destruct (size (reservations w)) eqn:E; [|lia]. apply map_size_empty_inv in E. rewrite E in Hr. by rewrite lookup_empty in Hr. }
    rewrite sub_one_mod by lia. f_equal. lia.
  - injection Hrm as <- <-. cbn. rewrite Hc. f_equal. pose proof (size_remove id (threads_set (guards w))). case_bool_decide; lia.
  - rewrite Hc, Hn. rewrite sub_one_mod by lia. f_equal. lia.
Qed.

(** Limits are those of their attempts. *)
Definition limited (n : N) (l : agent_label) : Prop :=
  match l with TryStart _ m => (m <= n)%N | Unlimited _ => False | _ => True end.

Lemma step_attempt w l w' t a : agent_step w l w' -> attempts w' !! t = Some a ->
  (l = TryStart t (max_threads a) /\ (max_threads a < 2 ^ 64)%N) \/ exists a', attempts w !! t = Some a' /\ max_threads a' = max_threads a.
Proof.
  intros Hs. destruct Hs as [? t' m Hn Hm|? t' b Hb _|? t' b Hb _|? t' b r Hb _ _ _| | | | | |]; cbn [attempts with_attempts]; try (intros Ha; right; by exists a).
  - rewrite lookup_insert_Some. intros [[<- <-]|[_ ?]]; [by left|right; by exists a].
  - rewrite lookup_delete_Some. intros [_ ?]. right. by exists a.
  - rewrite lookup_insert_Some. intros [[<- <-]|[_ ?]]; right; [by exists b|by exists a].
  - rewrite lookup_delete_Some. intros [_ ?]. right. by exists a.
Qed.

Lemma run_attempts ls w : agent_run ls w -> forall t a, attempts w !! t = Some a ->
  (max_threads a < 2 ^ 64)%N /\ exists t', TryStart t' (max_threads a) ∈ ls.
Proof.
  induction 1 as [|ls w l w' _ IH Hs]; [done|]. intros t a Ha. setoid_rewrite elem_of_app.
  destruct (step_attempt _ _ _ _ _ Hs Ha) as [[-> ?]|(a' & [? [t' ?]]%IH & <-)]; [|split; [done|]; exists t'; by left].
  split; [done|]. exists t. right. by apply list_elem_of_singleton.
Qed.

Lemma run_counted ls w : agent_run ls w -> counted w.
Proof. induction 1 as [|ls w l w' Hrun IH Hs]; [done|]. eapply step_counted; [done|done|]. intros t a Ha. by apply (run_attempts _ _ Hrun t). Qed.

Lemma step_slots w l w' n : agent_step w l w' -> limited n l -> counted w -> (n < 2 ^ 64)%N -> (slots w <= n)%N ->
  (forall t a, attempts w !! t = Some a -> (max_threads a <= n)%N) -> (slots w' <= n)%N.
Proof.
  unfold counted. intros Hs Hl Hc Hn Hle Hmax. rewrite N.mod_small in Hc by lia. unfold slots in *.
  destruct Hs as [| |? t a|? t a r Ha Hcur Hread Hr|? r Hr|? r old names pref pick m g Hr _ Hg|? r m id nick Hr|? r m Hr|? id g b Hrm|? m Hm];
    cbn [guards reservations removed doubled with_attempts threads_set with_count fetch_sub_one] in *; try done.
  - rewrite map_size_insert_None by done. specialize (Hmax _ _ Ha). lia.
  - apply total_reserve_nickname in Hg as [-> _]. destruct m; [|done]. by rewrite map_size_insert, Hr.
  - rewrite (proj1 (threads_register _ _ _)), size_add, map_size_delete, Hr.
    assert (0 < size (reservations w)) as Hpos. { destruct (size (reservations w)) eqn:E; [|lia]. apply map_size_empty_inv in E. rewrite E in Hr. by rewrite lookup_empty in Hr. }
    case_bool_decide; lia.
  - rewrite map_size_delete, Hr. lia.
  - injection Hrm as <- <-. cbn. pose proof (size_remove id (threads_set (guards w))). case_bool_decide; lia.
  - lia.
Qed.

(** C20. Whatever the tasks do and in whatever order: where no attempt has a limit above [n], the count is the
    number of reservations, registered threads and threads being removed, and of the registrations of a
    thread that was registered; and it is never above [n]. *)
Theorem agents_within_limit n ls w : agent_run ls w -> Forall (limited n) ls -> (n < 2 ^ 64)%N ->
  total_count (guards w) = slots w /\ (slots w <= n)%N.
Proof.
  intros Hrun Hl Hn. assert (slots w <= n)%N as Hle.
  { induction Hrun as [|ls w l w' Hrun IH Hs]; [change (slots agents_default) with 0%N; lia|]. apply Forall_app in Hl as [Hls [Hl _]%Forall_cons].
    eapply step_slots; [done|done|by eapply run_counted|done|by apply IH|]. intros t a Ha.
    destruct (run_attempts _ _ Hrun t a Ha) as [_ [t' Hin]]. by apply (proj1 (Forall_forall _ _) Hls) in Hin. }
  split; [|done]. rewrite (run_counted _ _ Hrun). by rewrite N.mod_small by lia.
Qed.

(** A nickname that was not asked for is one of the names, and not in use, unless all of them are. *)
Lemma nickname_unused pick names g n g' : (forall l, match pick l with Some x => x ∈ l | None => l = [] end) ->
  reserve_agent_nickname pick names None g = (Some n, g') ->
  n ∈ names /\ n ∈ used_agent_nicknames g' /\ (n ∉ used_agent_nicknames g \/ Forall (fun x => x ∈ used_agent_nicknames g) names).
Proof.
  intros Hpick. unfold reserve_agent_nickname. case_bool_decide; [done|]. pose proof (Hpick (filter (fun x => x ∉ used_agent_nicknames g) names)) as Hf.
  destruct (pick (filter _ names)) as [m|].
  - intros [= -> <-]. apply list_elem_of_filter in Hf as [? ?]. split; [done|]. split; [cbn; set_solver|by left].
  - pose proof (Hpick names). destruct (pick names); [|done]. intros [= -> <-]. split; [done|]. split; [cbn; set_solver|right].
    apply Forall_forall. intros x Hx. destruct (decide (x ∈ used_agent_nicknames g)); [done|].
    assert (x ∈ filter (fun x => x ∉ used_agent_nicknames g) names) as Hin by (by apply list_elem_of_filter). rewrite Hf in Hin. by apply not_elem_of_nil in Hin.
Qed.

(** ** Examples *)

(** Two tasks with the limit two; one has to try again. *)
Definition race : list agent_label := [TryStart 1 2; TryStart 2 2; TrySwap 1 1; TryAgain 2; TrySwap 2 2; Commit 1 7 None].
Definition after_race : agents := mk_agents (mk_guards {[7%N]} ∅ ∅ 0 2) ∅ {[2%N := None]} 0 0.

Lemma run_all ls w l w' : agent_run ls w -> agent_step w l w' -> forall ls', ls' = ls ++ [l] -> agent_run ls' w'.
Proof. intros Hr Hs ls' ->. by eapply run_step. Qed.

Lemma race_runs : exists w, agent_run race w /\ total_count (guards w) = 2%N.
Proof.
  eexists. split.
  - eapply (run_all [TryStart 1 2; TryStart 2 2; TrySwap 1 1; TryAgain 2; TrySwap 2 2]); cycle 2;
    [reflexivity|eapply (run_all [TryStart 1 2; TryStart 2 2; TrySwap 1 1; TryAgain 2]); cycle 2;
    [reflexivity|eapply (run_all [TryStart 1 2; TryStart 2 2; TrySwap 1 1]); cycle 2;
    [reflexivity|eapply (run_all [TryStart 1 2; TryStart 2 2]); cycle 2;
    [reflexivity|eapply (run_all [TryStart 1 2]); cycle 2;
    [reflexivity|eapply (run_all []); cycle 2;
    [reflexivity|exact run_start|eapply step_start; reflexivity]|eapply step_start; reflexivity]|eapply step_swap; reflexivity]|eapply step_again; reflexivity]|eapply step_swap; reflexivity]|eapply step_commit; reflexivity].
  - reflexivity.
Qed.

Lemma agents_within_limit_witness : exists w, agent_run race w /\ total_count (guards w) = slots w /\ (slots w <= 2)%N.
Proof.
  destruct race_runs as (w & Hrun & _). exists w. split; [exact Hrun|].
  apply (agents_within_limit 2 race w Hrun); [|reflexivity]. repeat (apply Forall_cons; split; [cbn; lia|]). apply Forall_nil. exact I.
Defined.

(** A thread that two tasks register, as two resumptions of one thread do, leaves the count too high when it is gone. *)
Lemma double_registration_leaks : exists w, agent_run [Unlimited 1; Unlimited 2; Commit 1 7 None; Commit 2 7 None; Remove 7; RemoveCount] w /\
  (size (reservations w), size (threads_set (guards w)), removed w, total_count (guards w)) = (0, 0, 0, 1%N).
Proof.
  eexists. split.
  - eapply (run_all [Unlimited 1; Unlimited 2; Commit 1 7 None; Commit 2 7 None; Remove 7]); cycle 2;
    [reflexivity|eapply (run_all [Unlimited 1; Unlimited 2; Commit 1 7 None; Commit 2 7 None]); cycle 2;
    [reflexivity|eapply (run_all [Unlimited 1; Unlimited 2; Commit 1 7 None]); cycle 2;
    [reflexivity|eapply (run_all [Unlimited 1; Unlimited 2]); cycle 2;
    [reflexivity|eapply (run_all [Unlimited 1]); cycle 2;
    [reflexivity|eapply (run_all []); cycle 2;
    [reflexivity|exact run_start|eapply step_unlimited; reflexivity]|eapply step_unlimited; reflexivity]|eapply step_commit; reflexivity]|eapply step_commit; reflexivity]|eapply step_remove; reflexivity]|eapply step_remove_count; reflexivity].
  - vm_compute. reflexivity.
Qed.
