(* ===== verification/ExecEnv.v ===== *)
(** * The environment of commands (core/src/exec_env.rs, config/types.rs)

    Which variables a command inherits, and which are set. *)

From stdpp Require Import gmap.
From S2P Require Import Prelude RustStd.

(** ** The policy *)

Inductive ShellEnvironmentPolicyInherit : Type := InheritCore | InheritAll | InheritNone.

(** [wildmatch]: patterns compared without case, of which that of a plain text between stars matches the texts that contain it. *)
Class WildMatch : Type := {
  Pattern : Type;
  new_case_insensitive : str -> Pattern;
  pattern_matches : Pattern -> str -> bool;
}.
Definition plain (s : str) : Prop := Forall (fun c => is_ascii_digit c = true \/ (65 <= c <= 90)%N \/ (97 <= c <= 122)%N) s.
#[export] Instance plain_dec s : Decision (plain s).
Proof. unfold plain. apply _. Defined.
Class WildMatchLaws `{WildMatch} : Prop := {
  matches_between_stars w s : plain w ->
    pattern_matches (new_case_insensitive (lit "*" ++ w ++ lit "*")) s = contains (to_ascii_lowercase w) (to_ascii_lowercase s);
}.

Section env.
Context `{WildMatch}.

Record ShellEnvironmentPolicy : Type := mk_env_policy {
  inherit : ShellEnvironmentPolicyInherit;
  ignore_default_excludes : bool;
  exclude : list Pattern;
  set_vars : gmap str str;
  include_only : list Pattern;
  use_profile : bool;
}.

Record ShellEnvironmentPolicyToml : Type := mk_env_toml {
  t_inherit : option ShellEnvironmentPolicyInherit;
  t_ignore_default_excludes : option bool;
  t_exclude : option (list str);
  t_set : option (gmap str str);
  t_include_only : option (list str);
  t_experimental_use_profile : option bool;
}.

Definition policy_of_toml (toml : ShellEnvironmentPolicyToml) : ShellEnvironmentPolicy :=
  mk_env_policy (default InheritAll (t_inherit toml)) (default true (t_ignore_default_excludes toml))
    (new_case_insensitive <$> default [] (t_exclude toml)) (default ∅ (t_set toml))
    (new_case_insensitive <$> default [] (t_include_only toml)) (default false (t_experimental_use_profile toml)).
Definition default_env_policy : ShellEnvironmentPolicy := mk_env_policy InheritAll true [] ∅ [] false.

Definition CODEX_THREAD_ID_ENV_VAR : str := lit "CODEX_THREAD_ID".
Definition CORE_VARS : list str :=
  [lit "HOME"; lit "LOGNAME"; lit "PATH"; lit "SHELL"; lit "USER"; lit "USERNAME"; lit "TMPDIR"; lit "TEMP"; lit "TMP"].
Definition is_core_var (name : str) : bool := bool_decide (name ∈ CORE_VARS).
Definition default_excludes : list Pattern := [new_case_insensitive (lit "*KEY*"); new_case_insensitive (lit "*SECRET*"); new_case_insensitive (lit "*TOKEN*")].

Definition matches_any (name : str) (patterns : list Pattern) : bool := existsb (fun p => pattern_matches p name) patterns.

(** [collect] into a map: a later pair replaces an earlier one. *)
Definition collect_vars (vars : list (str * str)) : gmap str str := foldl (fun m p => <[p.1 := p.2]> m) ∅ vars.
(** [retain]. *)
Definition retain (f : str -> bool) (m : gmap str str) : gmap str str := filter (fun p => f p.1 = true) m.

Definition populate_env (vars : list (str * str)) (policy : ShellEnvironmentPolicy) (thread_id : option str) : gmap str str :=
  let env_map :=
    match inherit policy with
    | InheritAll => collect_vars vars
    | InheritNone => ∅
    | InheritCore => collect_vars (filter (fun p => is_core_var p.1 = true) vars)
    end in
  let env_map := if ignore_default_excludes policy then env_map else retain (fun k => negb (matches_any k default_excludes)) env_map in
  let env_map := if bool_decide (exclude policy = []) then env_map else retain (fun k => negb (matches_any k (exclude policy))) env_map in
  let env_map := set_vars policy ∪ env_map in
  let env_map := if bool_decide (include_only policy = []) then env_map else retain (fun k => matches_any k (include_only policy)) env_map in
  match thread_id with Some thread_id => <[CODEX_THREAD_ID_ENV_VAR := thread_id]> env_map | None => env_map end.

(** ** What is inherited *)

Lemma lookup_collect vars (k : str) : collect_vars vars !! k = snd <$> last (filter (fun p : str * str => p.1 = k) vars).
Proof.
  unfold collect_vars. induction vars as [|[k' v] vars IH] using rev_ind; [done|]. rewrite foldl_snoc, filter_app. cbn [fst snd].
  rewrite filter_cons. cbn [fst]. case_decide as Hk; [subst; by rewrite lookup_insert_eq, filter_nil, last_snoc|]. by rewrite lookup_insert_ne, filter_nil, app_nil_r.
Qed.

Lemma lookup_retain (f : str -> bool) (m : gmap str str) (k : str) : retain f m !! k = (if f k then m !! k else None).
Proof.
  unfold retain. destruct (f k) eqn:E.
  - destruct (m !! k) as [v|] eqn:Em; [by apply map_lookup_filter_Some|]. apply map_lookup_filter_None. by left.
  - apply map_lookup_filter_None. right. intros v _. cbn. by rewrite E.
Qed.

(** Whether a variable of the process is inherited by its commands. *)
Definition starts_out (policy : ShellEnvironmentPolicy) (k : str) : bool :=
  match inherit policy with InheritAll => true | InheritNone => false | InheritCore => is_core_var k end.
Definition inherited (policy : ShellEnvironmentPolicy) (k : str) : bool :=
  starts_out policy k && (ignore_default_excludes policy || negb (matches_any k default_excludes)) && negb (matches_any k (exclude policy)).

Definition value_in (vars : list (str * str)) (k : str) : option str := snd <$> last (filter (fun p => p.1 = k) vars).

Lemma lookup_filtered (f : str -> bool) vars (k : str) : collect_vars (filter (fun p : str * str => f p.1 = true) vars) !! k = (if f k then value_in vars k else None).
Proof.
  rewrite lookup_collect. unfold value_in. rewrite list_filter_filter. destruct (f k) eqn:E.
  - do 2 f_equal. apply filter_iff. intros p _. naive_solver.
  - rewrite filter_none; [done|]. intros [k1 v1] _ [Hk Hf]. cbn in *. congruence.
Qed.

Lemma retain_unless_empty (patterns : list Pattern) (m : gmap str str) (k : str) :
  (if bool_decide (patterns = []) then m else retain (fun k => negb (matches_any k patterns)) m) !! k = (if matches_any k patterns then None else m !! k).
Proof. case_bool_decide; [by subst|]. rewrite lookup_retain. by destruct (matches_any k patterns). Qed.

(** The value of every variable of a command. *)
Lemma lookup_env vars policy thread_id k : populate_env vars policy thread_id !! k =
  (if bool_decide (k = CODEX_THREAD_ID_ENV_VAR /\ thread_id <> None) then thread_id
   else if bool_decide (include_only policy = []) || matches_any k (include_only policy) then
     match set_vars policy !! k with Some v => Some v | None => if inherited policy k then value_in vars k else None end
   else None).
Proof.
  unfold populate_env. set (start := match inherit policy with InheritCore => _ | InheritAll => _ | InheritNone => _ end).
  assert (start !! k = if starts_out policy k then value_in vars k else None) as Hstart.
  { subst start. unfold starts_out. destruct (inherit policy); [apply lookup_filtered|apply lookup_collect|apply lookup_empty]. }
  set (kept := if bool_decide (exclude policy = []) then _ else _).
  assert (kept !! k = if inherited policy k then value_in vars k else None) as Hkept.
  { subst kept. rewrite retain_unless_empty. unfold inherited. destruct (ignore_default_excludes policy); cbn [orb].
    - rewrite Hstart. by destruct (starts_out policy k), (matches_any k (exclude policy)).
    - rewrite lookup_retain, Hstart. by destruct (starts_out policy k), (matches_any k (exclude policy)), (matches_any k default_excludes). }
  set (all := if bool_decide (include_only policy = []) then _ else _).
  assert (all !! k = if bool_decide (include_only policy = []) || matches_any k (include_only policy)
                     then match set_vars policy !! k with Some v => Some v | None => kept !! k end else None) as Hall.
  { subst all. assert ((set_vars policy ∪ kept) !! k = match set_vars policy !! k with Some v => Some v | None => kept !! k end) as Hu.
    { rewrite lookup_union. by destruct (set_vars policy !! k), (kept !! k). }
    case_bool_decide; cbn [orb]; [done|]. rewrite lookup_retain, Hu. done. }
  rewrite <-Hkept, <-Hall. clearbody all. clear Hall. destruct thread_id as [t|].
  - case_bool_decide as Hk; [destruct Hk as [-> _]; apply lookup_insert_eq|]. apply lookup_insert_ne. intros <-. by apply Hk.
  - rewrite bool_decide_false by naive_solver. done.
Qed.

Context `{!WildMatchLaws}.

Definition secret_words : list str := [lit "key"; lit "secret"; lit "token"].

Lemma default_exclude_matches k w : w ∈ secret_words -> contains w (to_ascii_lowercase k) = true -> matches_any k default_excludes = true.
Proof.
  intros Hw Hc. apply existsb_elem.
  assert (forall u, plain u -> contains (to_ascii_lowercase u) (to_ascii_lowercase k) = true -> pattern_matches (new_case_insensitive (lit "*" ++ u ++ lit "*")) k = true) as Hm
    by (intros u Hu ?; by rewrite matches_between_stars).
  unfold secret_words in Hw. rewrite !elem_of_cons in Hw. destruct Hw as [-> | [-> | [-> | Hw]]]; [| | |by apply not_elem_of_nil in Hw].
  - exists (new_case_insensitive (lit "*KEY*")). split; [unfold default_excludes; set_solver|]. apply (Hm (lit "KEY")); [apply (bool_decide_unpack _); vm_compute; exact I|exact Hc].
  - exists (new_case_insensitive (lit "*SECRET*")). split; [unfold default_excludes; set_solver|]. apply (Hm (lit "SECRET")); [apply (bool_decide_unpack _); vm_compute; exact I|exact Hc].
  - exists (new_case_insensitive (lit "*TOKEN*")). split; [unfold default_excludes; set_solver|]. apply (Hm (lit "TOKEN")); [apply (bool_decide_unpack _); vm_compute; exact I|exact Hc].
Qed.

(** C21. With the default excludes in force, a variable of a command whose name contains KEY, SECRET or TOKEN, in any case,
    is one that the policy sets, with that value; and without [include_only], every variable that the policy sets
    is there, but for the id of the thread. *)
Theorem secrets_not_inherited vars policy thread_id k v :
  (ignore_default_excludes policy = false -> (exists w, w ∈ secret_words /\ contains w (to_ascii_lowercase k) = true) ->
     populate_env vars policy thread_id !! k = Some v -> set_vars policy !! k = Some v) /\
  (include_only policy = [] -> k <> CODEX_THREAD_ID_ENV_VAR -> set_vars policy !! k = Some v -> populate_env vars policy thread_id !! k = Some v).
Proof.
  rewrite lookup_env. split.
  - intros Hi (w & Hw & Hc). rewrite bool_decide_false.
    2: { intros [-> _]. unfold secret_words in Hw. rewrite !elem_of_cons in Hw. destruct Hw as [-> | [-> | [-> | Hw]]]; [vm_compute in Hc; discriminate Hc..|by apply not_elem_of_nil in Hw]. }
    destruct (_ || _); [|done]. destruct (set_vars policy !! k); [done|].
    unfold inherited. rewrite Hi, (default_exclude_matches k w Hw Hc). by rewrite andb_false_r.
  - intros -> Hk ->. rewrite bool_decide_false by naive_solver. done.
Qed.
End env.

(** ** An example *)

(** Patterns between stars, and exact ones. *)
Definition simple_patterns : WildMatch := {|
  Pattern := str + str;
  new_case_insensitive p := match strip_prefix (lit "*") p ≫= strip_suffix (lit "*") with Some w => inl (to_ascii_lowercase w) | None => inr (to_ascii_lowercase p) end;
  pattern_matches p s := match p with inl w => contains w (to_ascii_lowercase s) | inr q => bool_decide (q = to_ascii_lowercase s) end;
|}.
Lemma simple_patterns_laws : @WildMatchLaws simple_patterns.
Proof.
  constructor. intros w s _. cbn [pattern_matches new_case_insensitive simple_patterns]. rewrite (proj2 (strip_prefix_Some _ _ _) eq_refl). cbn [mbind option_bind].
  by rewrite (proj2 (strip_suffix_Some _ _ _) eq_refl).
Qed.

Definition example_vars : list (str * str) := [(lit "PATH", lit "/bin"); (lit "API_KEY", lit "x"); (lit "HOME", lit "/h"); (lit "my_token", lit "y")].
Definition strict_policy : @ShellEnvironmentPolicy simple_patterns := @mk_env_policy simple_patterns InheritAll false [] {[lit "OPEN_KEY" := lit "z"]} [] false.

Lemma secrets_not_inherited_witness :
  @populate_env simple_patterns example_vars strict_policy None !! (lit "OPEN_KEY") = Some (lit "z") /\
  (@populate_env simple_patterns example_vars strict_policy None !! (lit "API_KEY") = Some (lit "x") -> set_vars strict_policy !! (lit "API_KEY") = Some (lit "x")).
Proof.
  split.
  - apply (@secrets_not_inherited simple_patterns simple_patterns_laws example_vars strict_policy None (lit "OPEN_KEY") (lit "z")); [reflexivity|done|reflexivity].
  - intros Hv. apply (proj1 (@secrets_not_inherited simple_patterns simple_patterns_laws example_vars strict_policy None (lit "API_KEY") (lit "x")));
      [reflexivity| |exact Hv]. exists (lit "key"). split; [by apply elem_of_cons; left|reflexivity].
Defined.

Example strict_env : (fun k => @populate_env simple_patterns example_vars strict_policy None !! lit k) <$> ["PATH"; "API_KEY"; "HOME"; "my_token"; "OPEN_KEY"]%string =
  [Some (lit "/bin"); None; Some (lit "/h"); None; Some (lit "z")].
Proof. vm_compute. reflexivity. Qed.
