(* ===== verification/ThreadHistory.v ===== *)
(** * The turns of a thread (app-server-protocol/src/protocol/thread_history.rs)

    The reducer that makes turns of the persisted events of a thread, for replay and for
    the turn that is running. *)

From stdpp Require Import gmap.
From S2P Require Import Prelude RustStd Order Truncate.

(** ** Items of turns ([protocol/v2.rs], [protocol/src/protocol.rs])

    Where a type of the core and the one of the server have the same cases and fields, and the
    conversion keeps them, they are one type here.  The text of a JSON value stands for it,
    and that of an id for the id. *)

Abbreviation JsonValue := str (only parsing).
Abbreviation PathBuf := str (only parsing).

Inductive MessagePhase : Type := Commentary | FinalAnswer.
Inductive WebSearchAction : Type :=
  | Search (query : option str) (queries : option (list str))
  | OpenPage (url : option str)
  | FindInPage (url pattern : option str)
  | OtherAction.
Inductive CommandAction : Type :=
  | ReadAction (command name : str) (path : PathBuf)
  | ListFilesAction (command : str) (path : option str)
  | SearchAction (command : str) (query path : option str)
  | UnknownAction (command : str).

Inductive CommandExecutionStatus : Type := CmdInProgress | CmdCompleted | CmdFailed | CmdDeclined.
Inductive ExecCommandStatus : Type := ExecCompleted | ExecFailed | ExecDeclined.
Definition command_status (s : ExecCommandStatus) : CommandExecutionStatus :=
  match s with ExecCompleted => CmdCompleted | ExecFailed => CmdFailed | ExecDeclined => CmdDeclined end.

Inductive PatchApplyStatus : Type := PatchInProgress | PatchCompleted | PatchFailed | PatchDeclined.
Inductive CorePatchApplyStatus : Type := CorePatchCompleted | CorePatchFailed | CorePatchDeclined.
Definition patch_status (s : CorePatchApplyStatus) : PatchApplyStatus :=
  match s with CorePatchCompleted => PatchCompleted | CorePatchFailed => PatchFailed | CorePatchDeclined => PatchDeclined end.

Inductive CoreFileChange : Type :=
  | AddChange (content : str) | DeleteChange (content : str) | UpdateChange (unified_diff : str) (move_path : option PathBuf).
Inductive PatchChangeKind : Type := KindAdd | KindDelete | KindUpdate (move_path : option PathBuf).
Record FileUpdateChange : Type := mk_file_change { change_path : str; change_kind : PatchChangeKind; change_diff : str }.

Inductive McpToolCallStatus : Type := McpInProgress | McpCompleted | McpFailed.
Record McpToolCallResult : Type := mk_mcp_result { mcp_content : list JsonValue; mcp_structured_content : option JsonValue }.

Inductive AgentStatus : Type :=
  | PendingInit | Running | Completed (message : option str) | Errored (message : str) | Shutdown | NotFoundAgent.
Inductive CollabAgentStatus : Type := CollabPendingInit | CollabRunning | CollabCompleted | CollabErrored | CollabShutdown | CollabNotFound.
Record CollabAgentState : Type := mk_collab_state { collab_status : CollabAgentStatus; collab_message : option str }.
Definition collab_state (s : AgentStatus) : CollabAgentState :=
  match s with
  | PendingInit => mk_collab_state CollabPendingInit None
  | Running => mk_collab_state CollabRunning None
  | Completed message => mk_collab_state CollabCompleted message
  | Errored message => mk_collab_state CollabErrored (Some message)
  | Shutdown => mk_collab_state CollabShutdown None
  | NotFoundAgent => mk_collab_state CollabNotFound None
  end.
Inductive CollabAgentTool : Type := SpawnAgent | SendInput | ResumeAgent | Wait | CloseAgent.
Inductive CollabAgentToolCallStatus : Type := CollabCallInProgress | CollabCallCompleted | CollabCallFailed.

Record UiElement : Type := mk_ui_element { ui_start : nat; ui_end : nat; ui_placeholder : option str }.
Inductive UserInput : Type :=
  | TextInput (text : str) (text_elements : list UiElement)
  | ImageInput (url : str)
  | LocalImageInput (path : PathBuf)
  | SkillInput (name : str) (path : PathBuf)
  | MentionInput (name path : str).

Inductive ThreadItem : Type :=
  | ItemUserMessage (id : str) (content : list UserInput)
  | ItemAgentMessage (id text : str) (phase : option MessagePhase)
  | ItemPlan (id text : str)
  | ItemReasoning (id : str) (summary content : list str)
  | ItemCommandExecution (id command : str) (cwd : PathBuf) (process_id : option str) (status : CommandExecutionStatus)
      (command_actions : list CommandAction) (aggregated_output : option str) (exit_code : option Z) (duration_ms : option N)
  | ItemFileChange (id : str) (changes : list FileUpdateChange) (status : PatchApplyStatus)
  | ItemMcpToolCall (id server tool : str) (status : McpToolCallStatus) (arguments : JsonValue) (result : option McpToolCallResult)
      (error : option str) (duration_ms : option N)
  | ItemCollabAgentToolCall (id : str) (tool : CollabAgentTool) (status : CollabAgentToolCallStatus) (sender_thread_id : str)
      (receiver_thread_ids : list str) (prompt : option str) (agents_states : gmap str CollabAgentState)
  | ItemWebSearch (id query : str) (action : option WebSearchAction)
  | ItemImageView (id path : str)
  | ItemEnteredReviewMode (id review : str)
  | ItemExitedReviewMode (id review : str)
  | ItemContextCompaction (id : str).

Definition item_id (i : ThreadItem) : str :=
  match i with
  | ItemUserMessage id _ | ItemAgentMessage id _ _ | ItemPlan id _ | ItemReasoning id _ _ | ItemCommandExecution id _ _ _ _ _ _ _ _
  | ItemFileChange id _ _ | ItemMcpToolCall id _ _ _ _ _ _ _ | ItemCollabAgentToolCall id _ _ _ _ _ _ | ItemWebSearch id _ _
  | ItemImageView id _ | ItemEnteredReviewMode id _ | ItemExitedReviewMode id _ | ItemContextCompaction id => id
  end.

Inductive CodexErrorInfo : Type :=
  | ContextWindowExceeded | UsageLimitExceeded | ServerOverloaded
  | HttpConnectionFailed (http_status_code : option N) | ResponseStreamConnectionFailed (http_status_code : option N)
  | InternalServerError | Unauthorized | BadRequest | SandboxErrorInfo
  | ResponseStreamDisconnected (http_status_code : option N) | ResponseTooManyFailedAttempts (http_status_code : option N)
  | ThreadRollbackFailed | OtherErrorInfo.
Definition info_affects_turn_status (i : CodexErrorInfo) : bool := match i with ThreadRollbackFailed => false | _ => true end.

Inductive TurnStatus : Type := TurnCompleted | TurnInterrupted | TurnFailed | TurnInProgress.
Record TurnError : Type := mk_turn_error { turn_error_message : str; turn_error_info : option CodexErrorInfo; turn_error_details : option str }.
Record Turn : Type := mk_turn { turn_id : str; turn_items : list ThreadItem; turn_status : TurnStatus; turn_error : option TurnError }.

(** ** Events *)

Record UserMessageEvent : Type := mk_user_message {
  um_message : str; um_images : option (list str); um_local_images : list PathBuf; um_text_elements : list UiElement;
}.
Record ExecCommandBeginEvent : Type := mk_exec_begin {
  eb_call_id : str; eb_process_id : option str; eb_turn_id : str; eb_command : list str; eb_cwd : PathBuf; eb_parsed_cmd : list CommandAction;
}.
Record ExecCommandEndEvent : Type := mk_exec_end {
  ee_begin : ExecCommandBeginEvent; ee_aggregated_output : str; ee_exit_code : Z; ee_duration_ms : N; ee_status : ExecCommandStatus;
}.
Record McpInvocation : Type := mk_invocation { mcp_server : str; mcp_tool : str; mcp_arguments : option JsonValue }.
Record CallToolResult : Type := mk_call_result { call_content : list JsonValue; call_structured_content : option JsonValue; call_is_error : option bool }.

(** [TurnItem] of the core: of a plan, which alone is looked into, or another one. *)
Inductive TurnItem : Type := PlanTurnItem (id text : str) | OtherTurnItem.

Inductive EventMsg : Type :=
  | UserMessage (payload : UserMessageEvent)
  | AgentMessage (message : str) (phase : option MessagePhase)
  | AgentReasoning (text : str)
  | AgentReasoningRawContent (text : str)
  | WebSearchBegin (call_id : str)
  | WebSearchEnd (call_id query : str) (action : WebSearchAction)
  | ExecCommandBegin (payload : ExecCommandBeginEvent)
  | ExecCommandEnd (payload : ExecCommandEndEvent)
  | PatchApplyBegin (call_id turn : str) (changes : gmap PathBuf CoreFileChange)
  | PatchApplyEnd (call_id turn : str) (changes : gmap PathBuf CoreFileChange) (status : CorePatchApplyStatus)
  | McpToolCallBegin (call_id : str) (invocation : McpInvocation)
  | McpToolCallEnd (call_id : str) (invocation : McpInvocation) (duration_ms : N) (result : CallToolResult + str)
  | ViewImageToolCall (call_id path : str)
  | CollabAgentSpawnBegin (call_id sender prompt : str)
  | CollabAgentSpawnEnd (call_id sender : str) (new_thread_id : option str) (prompt : str) (status : AgentStatus)
  | CollabAgentInteractionBegin (call_id sender receiver prompt : str)
  | CollabAgentInteractionEnd (call_id sender receiver prompt : str) (status : AgentStatus)
  | CollabWaitingBegin (call_id sender : str) (receivers : list str)
  | CollabWaitingEnd (call_id sender : str) (statuses : gmap str AgentStatus)
  | CollabCloseBegin (call_id sender receiver : str)
  | CollabCloseEnd (call_id sender receiver : str) (status : AgentStatus)
  | CollabResumeBegin (call_id sender receiver : str)
  | CollabResumeEnd (call_id sender receiver : str) (status : AgentStatus)
  | ContextCompacted
  | EnteredReviewMode (user_facing_hint : option str)
  | ExitedReviewMode (overall_explanation : option str)
  | ItemStarted (turn : str) (item : TurnItem)
  | ItemCompleted (turn : str) (item : TurnItem)
  | ErrorMsg (message : str) (codex_error_info : option CodexErrorInfo)
  | TokenCount
  | ThreadRolledBack (num_turns : N)
  | UndoCompleted
  | TurnAborted (turn : option str)
  | TurnStarted (turn : str)
  | TurnComplete (turn : str)
  | OtherEvent.

Inductive RolloutItem : Type := RolloutEvent (event : EventMsg) | Compacted | TurnContext | SessionMeta | RolloutResponseItem.

(** ** The builder

    Identifiers of new turns are fresh UUIDs: [uuid k] is the [k]-th one made, [uuids] counts
    them.  The index of the next item is a number (the code's [i64]: a vector of items is far
    below its bound). *)
Record PendingTurn : Type := mk_pending {
  p_id : str; p_items : list ThreadItem; p_error : option TurnError; p_status : TurnStatus;
  p_opened_explicitly : bool; p_saw_compaction : bool;
}.
Definition turn_of (t : PendingTurn) : Turn := mk_turn (p_id t) (p_items t) (p_status t) (p_error t).
Definition with_items (f : list ThreadItem -> list ThreadItem) (t : PendingTurn) : PendingTurn :=
  mk_pending (p_id t) (f (p_items t)) (p_error t) (p_status t) (p_opened_explicitly t) (p_saw_compaction t).
Definition with_status (f : TurnStatus -> TurnStatus) (t : PendingTurn) : PendingTurn :=
  mk_pending (p_id t) (p_items t) (p_error t) (f (p_status t)) (p_opened_explicitly t) (p_saw_compaction t).
Definition opened_explicitly (t : PendingTurn) : PendingTurn :=
  mk_pending (p_id t) (p_items t) (p_error t) (p_status t) true (p_saw_compaction t).
Definition turn_with_items (f : list ThreadItem -> list ThreadItem) (t : Turn) : Turn :=
  mk_turn (turn_id t) (f (turn_items t)) (turn_status t) (turn_error t).
Definition turn_with_status (f : TurnStatus -> TurnStatus) (t : Turn) : Turn :=
  mk_turn (turn_id t) (turn_items t) (f (turn_status t)) (turn_error t).

Record ThreadHistoryBuilder : Type := mk_builder {
  turns : list Turn; current_turn : option PendingTurn; next_item_index : nat; uuids : nat;
}.
Definition builder_new : ThreadHistoryBuilder := mk_builder [] None 1 0.
Definition set_current (t : option PendingTurn) (b : ThreadHistoryBuilder) : ThreadHistoryBuilder :=
  mk_builder (turns b) t (next_item_index b) (uuids b).
Definition set_turns (ts : list Turn) (b : ThreadHistoryBuilder) : ThreadHistoryBuilder :=
  mk_builder ts (current_turn b) (next_item_index b) (uuids b).

(** [iter_mut().find(p)] and what is done to what is found; [None] when nothing is. *)
Fixpoint update_first {A} (p : A -> bool) (f : A -> A) (l : list A) : option (list A) :=
  match l with
  | [] => None
  | x :: l => if p x then Some (f x :: l) else cons x <$> update_first p f l
  end.

Definition upsert_turn_item (item : ThreadItem) (items : list ThreadItem) : list ThreadItem :=
  default (items ++ [item]) (update_first (fun x => bool_decide (item_id x = item_id item)) (fun _ => item) items).

Definition worth_keeping (t : PendingTurn) : bool :=
  negb (bool_decide (p_items t = []) && negb (p_opened_explicitly t) && negb (p_saw_compaction t)).

Definition finish_current_turn (b : ThreadHistoryBuilder) : ThreadHistoryBuilder :=
  match current_turn b with
  | Some t => mk_builder (if worth_keeping t then turns b ++ [turn_of t] else turns b) None (next_item_index b) (uuids b)
  | None => b
  end.
Definition finish (b : ThreadHistoryBuilder) : list Turn := turns (finish_current_turn b).
Definition active_turn_snapshot (b : ThreadHistoryBuilder) : option Turn :=
  match current_turn b with Some t => Some (turn_of t) | None => last (turns b) end.
Definition has_active_turn (b : ThreadHistoryBuilder) : bool := bool_decide (is_Some (current_turn b)).

Definition next_item_id (b : ThreadHistoryBuilder) : ThreadHistoryBuilder * str :=
  (mk_builder (turns b) (current_turn b) (S (next_item_index b)) (uuids b), lit "item-" ++ show_usize (next_item_index b)).

Definition named (id : str) (t : Turn) : bool := bool_decide (turn_id t = id).
Definition pending_named (id : str) (t : PendingTurn) : bool := bool_decide (p_id t = id).

Definition upsert_item_in_turn_id (id : str) (item : ThreadItem) (b : ThreadHistoryBuilder) : ThreadHistoryBuilder :=
  match current_turn b with
  | Some t =>
      if pending_named id t then set_current (Some (with_items (upsert_turn_item item) t)) b
      else set_turns (default (turns b) (update_first (named id) (turn_with_items (upsert_turn_item item)) (turns b))) b
  | None => set_turns (default (turns b) (update_first (named id) (turn_with_items (upsert_turn_item item)) (turns b))) b
  end.

(** ** What events carry *)

Definition build_user_inputs (payload : UserMessageEvent) : list UserInput :=
  (if bool_decide (trim (um_message payload) = []) then [] else [TextInput (um_message payload) (um_text_elements payload)])
  ++ (ImageInput <$> default [] (um_images payload))
  ++ (LocalImageInput <$> um_local_images payload).

Definition REVIEW_FALLBACK_MESSAGE : str := lit "Reviewer failed to output a response.".
Definition render_review_output_text (overall_explanation : str) : str :=
  let explanation := trim overall_explanation in
  if bool_decide (explanation = []) then REVIEW_FALLBACK_MESSAGE else explanation.

Definition map_patch_change_kind (c : CoreFileChange) : PatchChangeKind :=
  match c with AddChange _ => KindAdd | DeleteChange _ => KindDelete | UpdateChange _ move_path => KindUpdate move_path end.
Definition format_file_change_diff (c : CoreFileChange) : str :=
  match c with
  | AddChange content | DeleteChange content => content
  | UpdateChange unified_diff (Some path) => unified_diff ++ [LF; LF] ++ lit "Moved to: " ++ path
  | UpdateChange unified_diff None => unified_diff
  end.
Definition convert_patch_changes (changes : gmap PathBuf CoreFileChange) : list FileUpdateChange :=
  sort_by (fun a b => str_compare (change_path a) (change_path b))
    ((fun '(path, c) => mk_file_change path (map_patch_change_kind c) (format_file_change_diff c)) <$> map_to_list changes).

Definition i64_max : N := 9223372036854775807.
Definition affects_turn_status (codex_error_info : option CodexErrorInfo) : bool :=
  match codex_error_info with Some i => info_affects_turn_status i | None => true end.
Definition agent_failed (s : AgentStatus) : bool := match s with Errored _ | NotFoundAgent => true | _ => false end.
Definition mark_completed (s : TurnStatus) : TurnStatus :=
  match s with TurnCompleted | TurnInProgress => TurnCompleted | _ => s end.
Definition null : JsonValue := lit "null".
Definition mcp_is_success (result : CallToolResult + str) : bool :=
  match result with inl r => negb (default false (call_is_error r)) | inr _ => false end.

(** ** Handlers of events

    What is not of this code: the UUIDs of turns that are not opened by an event, and
    [shlex::try_join]. *)
Section Handlers.
Variable uuid : nat -> str.
Variable shlex_try_join : list str -> option str.

Definition new_turn (id : option str) (b : ThreadHistoryBuilder) : ThreadHistoryBuilder * PendingTurn :=
  match id with
  | Some id => (b, mk_pending id [] None TurnCompleted false false)
  | None =>
      (mk_builder (turns b) (current_turn b) (next_item_index b) (S (uuids b)),
       mk_pending (uuid (uuids b)) [] None TurnCompleted false false)
  end.

(** [ensure_turn], whose result is a reference into the builder. *)
Definition ensure_turn (b : ThreadHistoryBuilder) : ThreadHistoryBuilder * PendingTurn :=
  match current_turn b with
  | Some t => (b, t)
  | None => let '(b, t) := new_turn None b in (set_current (Some t) b, t)
  end.
Definition in_ensured_turn (f : PendingTurn -> PendingTurn) (b : ThreadHistoryBuilder) : ThreadHistoryBuilder :=
  let '(b, t) := ensure_turn b in set_current (Some (f t)) b.
Definition push_item (item : ThreadItem) : ThreadHistoryBuilder -> ThreadHistoryBuilder :=
  in_ensured_turn (with_items (fun items => items ++ [item])).
(** An item under the next number, of the turn that is ensured after. *)
Definition push_numbered (item : str -> ThreadItem) (b : ThreadHistoryBuilder) : ThreadHistoryBuilder :=
  let '(b, id) := next_item_id b in push_item (item id) b.
Definition upsert_item_in_current_turn (item : ThreadItem) : ThreadHistoryBuilder -> ThreadHistoryBuilder :=
  in_ensured_turn (with_items (upsert_turn_item item)).

Definition handle_user_message (payload : UserMessageEvent) (b : ThreadHistoryBuilder) : ThreadHistoryBuilder :=
  let b :=
    match current_turn b with
    | Some t =>
        if negb (p_opened_explicitly t) && negb (p_saw_compaction t && bool_decide (p_items t = []))
        then finish_current_turn b else b
    | None => b
    end in
  let '(b, t) := match current_turn b with Some t => (set_current None b, t) | None => new_turn None b end in
  let '(b, id) := next_item_id b in
  set_current (Some (with_items (fun items => items ++ [ItemUserMessage id (build_user_inputs payload)]) t)) b.

Definition handle_agent_message (text : str) (phase : option MessagePhase) (b : ThreadHistoryBuilder) : ThreadHistoryBuilder :=
  if bool_decide (text = []) then b else push_numbered (fun id => ItemAgentMessage id text phase) b.

(** What is thought of goes to the reasoning that is the last item, when it is. *)
Definition extend_reasoning (f : list str -> list str -> list str * list str) (items : list ThreadItem) : option (list ThreadItem) :=
  match last items with
  | Some (ItemReasoning id summary content) =>
      let '(summary, content) := f summary content in
      Some (removelast items ++ [ItemReasoning id summary content])
  | _ => None
  end.
Definition handle_reasoning (f : list str -> list str -> list str * list str) (text : str) (b : ThreadHistoryBuilder) : ThreadHistoryBuilder :=
  if bool_decide (text = []) then b else
  let '(b, t) := ensure_turn b in
  match extend_reasoning f (p_items t) with
  | Some items => set_current (Some (with_items (fun _ => items) t)) b
  | None => let '(summary, content) := f [] [] in push_numbered (fun id => ItemReasoning id summary content) b
  end.
Definition handle_agent_reasoning (text : str) : ThreadHistoryBuilder -> ThreadHistoryBuilder :=
  handle_reasoning (fun summary content => (summary ++ [text], content)) text.
Definition handle_agent_reasoning_raw_content (text : str) : ThreadHistoryBuilder -> ThreadHistoryBuilder :=
  handle_reasoning (fun summary content => (summary, content ++ [text])) text.

(** [handle_item_started] and [handle_item_completed] do the same. *)
Definition handle_item (turn : str) (item : TurnItem) (b : ThreadHistoryBuilder) : ThreadHistoryBuilder :=
  match item with
  | PlanTurnItem id text => if bool_decide (text = []) then b else upsert_item_in_turn_id turn (ItemPlan id text) b
  | OtherTurnItem => b
  end.

Definition handle_web_search_begin (call_id : str) : ThreadHistoryBuilder -> ThreadHistoryBuilder :=
  upsert_item_in_current_turn (ItemWebSearch call_id [] None).
Definition handle_web_search_end (call_id query : str) (action : WebSearchAction) : ThreadHistoryBuilder -> ThreadHistoryBuilder :=
  upsert_item_in_current_turn (ItemWebSearch call_id query (Some action)).

Definition shown_command (command : list str) : str := default (join [32%N] command) (shlex_try_join command).
Definition handle_exec_command_begin (p : ExecCommandBeginEvent) : ThreadHistoryBuilder -> ThreadHistoryBuilder :=
  upsert_item_in_turn_id (eb_turn_id p)
    (ItemCommandExecution (eb_call_id p) (shown_command (eb_command p)) (eb_cwd p) (eb_process_id p) CmdInProgress (eb_parsed_cmd p)
       None None None).
Definition handle_exec_command_end (e : ExecCommandEndEvent) : ThreadHistoryBuilder -> ThreadHistoryBuilder :=
  let p := ee_begin e in
  let aggregated_output := if bool_decide (ee_aggregated_output e = []) then None else Some (ee_aggregated_output e) in
  upsert_item_in_turn_id (eb_turn_id p)
    (ItemCommandExecution (eb_call_id p) (shown_command (eb_command p)) (eb_cwd p) (eb_process_id p) (command_status (ee_status e))
       (eb_parsed_cmd p) aggregated_output (Some (ee_exit_code e)) (Some (N.min (ee_duration_ms e) i64_max))).

Definition upsert_patch (turn : str) (item : ThreadItem) : ThreadHistoryBuilder -> ThreadHistoryBuilder :=
  if bool_decide (turn = []) then upsert_item_in_current_turn item else upsert_item_in_turn_id turn item.
Definition handle_patch_apply_begin (call_id turn : str) (changes : gmap PathBuf CoreFileChange) : ThreadHistoryBuilder -> ThreadHistoryBuilder :=
  upsert_patch turn (ItemFileChange call_id (convert_patch_changes changes) PatchInProgress).
Definition handle_patch_apply_end (call_id turn : str) (changes : gmap PathBuf CoreFileChange) (status : CorePatchApplyStatus) :
    ThreadHistoryBuilder -> ThreadHistoryBuilder :=
  upsert_patch turn (ItemFileChange call_id (convert_patch_changes changes) (patch_status status)).

Definition handle_mcp_tool_call_begin (call_id : str) (i : McpInvocation) : ThreadHistoryBuilder -> ThreadHistoryBuilder :=
  upsert_item_in_current_turn
    (ItemMcpToolCall call_id (mcp_server i) (mcp_tool i) McpInProgress (default null (mcp_arguments i)) None None None).
Definition handle_mcp_tool_call_end (call_id : str) (i : McpInvocation) (duration_ms : N) (result : CallToolResult + str) :
    ThreadHistoryBuilder -> ThreadHistoryBuilder :=
  let status := if mcp_is_success result then McpCompleted else McpFailed in
  let duration := if (duration_ms <=? i64_max)%N then Some duration_ms else None in
  let '(outcome, error) :=
    match result with
    | inl r => (Some (mk_mcp_result (call_content r) (call_structured_content r)), None)
    | inr message => (None, Some message)
    end in
  upsert_item_in_current_turn
    (ItemMcpToolCall call_id (mcp_server i) (mcp_tool i) status (default null (mcp_arguments i)) outcome error duration).
Definition handle_view_image_tool_call (call_id path : str) : ThreadHistoryBuilder -> ThreadHistoryBuilder :=
  upsert_item_in_current_turn (ItemImageView call_id path).

Definition handle_collab_agent_spawn_begin (call_id sender prompt : str) : ThreadHistoryBuilder -> ThreadHistoryBuilder :=
  upsert_item_in_current_turn (ItemCollabAgentToolCall call_id SpawnAgent CollabCallInProgress sender [] (Some prompt) ∅).
Definition handle_collab_agent_spawn_end (call_id sender : str) (new_thread_id : option str) (prompt : str) (status : AgentStatus) :
    ThreadHistoryBuilder -> ThreadHistoryBuilder :=
  let call_status :=
    if agent_failed status then CollabCallFailed
    else if bool_decide (is_Some new_thread_id) then CollabCallCompleted else CollabCallFailed in
  let '(receivers, states) :=
    match new_thread_id with Some id => ([id], {[id := collab_state status]}) | None => ([], ∅) end in
  upsert_item_in_current_turn (ItemCollabAgentToolCall call_id SpawnAgent call_status sender receivers (Some prompt) states).

Definition collab_begin (tool : CollabAgentTool) (call_id sender receiver : str) (prompt : option str) :
    ThreadHistoryBuilder -> ThreadHistoryBuilder :=
  upsert_item_in_current_turn (ItemCollabAgentToolCall call_id tool CollabCallInProgress sender [receiver] prompt ∅).
Definition collab_end (tool : CollabAgentTool) (call_id sender receiver : str) (prompt : option str) (status : AgentStatus) :
    ThreadHistoryBuilder -> ThreadHistoryBuilder :=
  let call_status := if agent_failed status then CollabCallFailed else CollabCallCompleted in
  upsert_item_in_current_turn
    (ItemCollabAgentToolCall call_id tool call_status sender [receiver] prompt {[receiver := collab_state status]}).

Definition handle_collab_agent_interaction_begin (call_id sender receiver prompt : str) : ThreadHistoryBuilder -> ThreadHistoryBuilder :=
  collab_begin SendInput call_id sender receiver (Some prompt).
Definition handle_collab_agent_interaction_end (call_id sender receiver prompt : str) (status : AgentStatus) :
    ThreadHistoryBuilder -> ThreadHistoryBuilder :=
  collab_end SendInput call_id sender receiver (Some prompt) status.
Definition handle_collab_close_begin (call_id sender receiver : str) : ThreadHistoryBuilder -> ThreadHistoryBuilder :=
  collab_begin CloseAgent call_id sender receiver None.
Definition handle_collab_close_end (call_id sender receiver : str) (status : AgentStatus) : ThreadHistoryBuilder -> ThreadHistoryBuilder :=
  collab_end CloseAgent call_id sender receiver None status.
Definition handle_collab_resume_begin (call_id sender receiver : str) : ThreadHistoryBuilder -> ThreadHistoryBuilder :=
  collab_begin ResumeAgent call_id sender receiver None.
Definition handle_collab_resume_end (call_id sender receiver : str) (status : AgentStatus) : ThreadHistoryBuilder -> ThreadHistoryBuilder :=
  collab_end ResumeAgent call_id sender receiver None status.

Definition handle_collab_waiting_begin (call_id sender : str) (receivers : list str) : ThreadHistoryBuilder -> ThreadHistoryBuilder :=
  upsert_item_in_current_turn (ItemCollabAgentToolCall call_id Wait CollabCallInProgress sender receivers None ∅).
Definition handle_collab_waiting_end (call_id sender : str) (statuses : gmap str AgentStatus) : ThreadHistoryBuilder -> ThreadHistoryBuilder :=
  let call_status := if existsb (fun '(_, s) => agent_failed s) (map_to_list statuses) then CollabCallFailed else CollabCallCompleted in
  let receivers := sort str_compare (map_to_list statuses).*1 in
  upsert_item_in_current_turn (ItemCollabAgentToolCall call_id Wait call_status sender receivers None (collab_state <$> statuses)).

Definition handle_context_compacted : ThreadHistoryBuilder -> ThreadHistoryBuilder := push_numbered ItemContextCompaction.
Definition handle_entered_review_mode (user_facing_hint : option str) : ThreadHistoryBuilder -> ThreadHistoryBuilder :=
  push_numbered (fun id => ItemEnteredReviewMode id (default (lit "Review requested.") user_facing_hint)).
Definition handle_exited_review_mode (overall_explanation : option str) : ThreadHistoryBuilder -> ThreadHistoryBuilder :=
  push_numbered (fun id => ItemExitedReviewMode id
    (match overall_explanation with Some e => render_review_output_text e | None => REVIEW_FALLBACK_MESSAGE end)).

Definition handle_error (message : str) (codex_error_info : option CodexErrorInfo) (b : ThreadHistoryBuilder) : ThreadHistoryBuilder :=
  if negb (affects_turn_status codex_error_info) then b else
  match current_turn b with
  | None => b
  | Some t =>
      set_current (Some (mk_pending (p_id t) (p_items t) (Some (mk_turn_error message codex_error_info None)) TurnFailed
        (p_opened_explicitly t) (p_saw_compaction t))) b
  end.

Definition handle_turn_aborted (turn : option str) (b : ThreadHistoryBuilder) : ThreadHistoryBuilder :=
  let active := set_current (with_status (fun _ => TurnInterrupted) <$> current_turn b) b in
  match turn with
  | Some id =>
      if from_option (pending_named id) false (current_turn b) then active else
      match update_first (named id) (turn_with_status (fun _ => TurnInterrupted)) (turns b) with
      | Some ts => set_turns ts b
      | None => active
      end
  | None => active
  end.

Definition handle_turn_started (turn : str) (b : ThreadHistoryBuilder) : ThreadHistoryBuilder :=
  let '(b, t) := new_turn (Some turn) (finish_current_turn b) in
  set_current (Some (opened_explicitly (with_status (fun _ => TurnInProgress) t))) b.

Definition handle_turn_complete (turn : str) (b : ThreadHistoryBuilder) : ThreadHistoryBuilder :=
  let active := finish_current_turn (set_current (with_status mark_completed <$> current_turn b) b) in
  if from_option (pending_named turn) false (current_turn b) then active else
  match update_first (named turn) (turn_with_status mark_completed) (turns b) with
  | Some ts => set_turns ts b
  | None => active
  end.

Definition handle_compacted : ThreadHistoryBuilder -> ThreadHistoryBuilder :=
  in_ensured_turn (fun t => mk_pending (p_id t) (p_items t) (p_error t) (p_status t) (p_opened_explicitly t) true).

Definition item_count (ts : list Turn) : nat := list_sum (length ∘ turn_items <$> ts).
Definition handle_thread_rollback (num_turns : N) (b : ThreadHistoryBuilder) : ThreadHistoryBuilder :=
  let b := finish_current_turn b in
  let n := N.to_nat num_turns in
  let ts := if length (turns b) <=? n then [] else take (length (turns b) - n) (turns b) in
  mk_builder ts (current_turn b) (item_count ts + 1) (uuids b).

Definition handle_event (event : EventMsg) (b : ThreadHistoryBuilder) : ThreadHistoryBuilder :=
  match event with
  | UserMessage payload => handle_user_message payload b
  | AgentMessage message phase => handle_agent_message message phase b
  | AgentReasoning text => handle_agent_reasoning text b
  | AgentReasoningRawContent text => handle_agent_reasoning_raw_content text b
  | WebSearchBegin call_id => handle_web_search_begin call_id b
  | WebSearchEnd call_id query action => handle_web_search_end call_id query action b
  | ExecCommandBegin payload => handle_exec_command_begin payload b
  | ExecCommandEnd payload => handle_exec_command_end payload b
  | PatchApplyBegin call_id turn changes => handle_patch_apply_begin call_id turn changes b
  | PatchApplyEnd call_id turn changes status => handle_patch_apply_end call_id turn changes status b
  | McpToolCallBegin call_id invocation => handle_mcp_tool_call_begin call_id invocation b
  | McpToolCallEnd call_id invocation duration_ms result => handle_mcp_tool_call_end call_id invocation duration_ms result b
  | ViewImageToolCall call_id path => handle_view_image_tool_call call_id path b
  | CollabAgentSpawnBegin call_id sender prompt => handle_collab_agent_spawn_begin call_id sender prompt b
  | CollabAgentSpawnEnd call_id sender new_thread_id prompt status =>
      handle_collab_agent_spawn_end call_id sender new_thread_id prompt status b
  | CollabAgentInteractionBegin call_id sender receiver prompt => handle_collab_agent_interaction_begin call_id sender receiver prompt b
  | CollabAgentInteractionEnd call_id sender receiver prompt status => handle_collab_agent_interaction_end call_id sender receiver prompt status b
  | CollabWaitingBegin call_id sender receivers => handle_collab_waiting_begin call_id sender receivers b
  | CollabWaitingEnd call_id sender statuses => handle_collab_waiting_end call_id sender statuses b
  | CollabCloseBegin call_id sender receiver => handle_collab_close_begin call_id sender receiver b
  | CollabCloseEnd call_id sender receiver status => handle_collab_close_end call_id sender receiver status b
  | CollabResumeBegin call_id sender receiver => handle_collab_resume_begin call_id sender receiver b
  | CollabResumeEnd call_id sender receiver status => handle_collab_resume_end call_id sender receiver status b
  | ContextCompacted => handle_context_compacted b
  | EnteredReviewMode user_facing_hint => handle_entered_review_mode user_facing_hint b
  | ExitedReviewMode overall_explanation => handle_exited_review_mode overall_explanation b
  | ItemStarted turn item | ItemCompleted turn item => handle_item turn item b
  | ErrorMsg message codex_error_info => handle_error message codex_error_info b
  | ThreadRolledBack num_turns => handle_thread_rollback num_turns b
  | TurnAborted turn => handle_turn_aborted turn b
  | TurnStarted turn => handle_turn_started turn b
  | TurnComplete turn => handle_turn_complete turn b
  | TokenCount | UndoCompleted | OtherEvent => b
  end.

Definition handle_rollout_item (item : RolloutItem) (b : ThreadHistoryBuilder) : ThreadHistoryBuilder :=
  match item with
  | RolloutEvent event => handle_event event b
  | Compacted => handle_compacted b
  | TurnContext | SessionMeta | RolloutResponseItem => b
  end.

Definition replay (items : list RolloutItem) : ThreadHistoryBuilder := foldl (fun b item => handle_rollout_item item b) builder_new items.
Definition build_turns_from_rollout_items (items : list RolloutItem) : list Turn := finish (replay items).
End Handlers.
