(* ===== verification/ThreadHistorySpec.v ===== *)
(** * What the reducer of a thread's history keeps

    The builder is an append-only log of turns ([log_step]): a turn is opened at the end, or
    one that is there gains items, and no other thing happens to what is shown of it than
    that it gets further.  Every event but a rollback is steps of that log. *)

From stdpp Require Import gmap.
From S2P Require Import Prelude RustStd Order Truncate ShellWrap ThreadHistory.

Definition ids (t : Turn) : list str := item_id <$> turn_items t.
Definition numbered (n : nat) : str := lit "item-" ++ show_usize n.

#[export] Instance numbered_inj : Inj (=) (=) numbered.
Proof. intros i j H. by apply app_inv_head, show_usize_inj in H. Qed.

(** In progress, then completed, then failed or interrupted. *)
Definition rank (s : TurnStatus) : nat :=
  match s with TurnInProgress => 0 | TurnCompleted => 1 | TurnFailed | TurnInterrupted => 2 end.
Record extends (t t' : Turn) : Prop := mk_extends {
  ext_id : turn_id t' = turn_id t;
  ext_ids : ids t `prefix_of` ids t';
  ext_rank : rank (turn_status t) <= rank (turn_status t');
  ext_error : is_Some (turn_error t) -> is_Some (turn_error t');
}.
Definition grows (ts ts' : list Turn) : Prop := exists kept rest, ts' = kept ++ rest /\ Forall2 extends ts kept.

#[export] Instance extends_preorder : PreOrder extends.
Proof.
  split.
  - intros t. by constructor.
  - intros t u v [] []. constructor; [congruence|by etrans|lia|auto].
Qed.
#[export] Instance grows_preorder : PreOrder grows.
Proof.
  split.
  - intros ts. exists ts, []. rewrite app_nil_r. split; [done|]. apply (reflexivity (R := Forall2 extends)).
  - intros ts us vs (k & r & -> & Hk) (k' & r' & -> & Hk').
    apply Forall2_app_inv_l in Hk' as (k1 & k2 & H1 & _ & ->). exists k1, (k2 ++ r'). rewrite <-(assoc (++)). split; [done|].
    by transitivity k.
Qed.

(** ** The log *)
Section Log.
Variable P : str -> Prop.

(** What may be added to the ids of a turn, where [n] is the next number. *)
Inductive gains (n : nat) (l : list str) : nat -> list str -> Prop :=
  | gains_nothing : gains n l n l
  | gains_given x : P x -> x ∉ l -> gains n l n (l ++ [x])
  | gains_number : gains n l (S n) (l ++ [numbered n]).

Record alters (n : nat) (t : Turn) (n' : nat) (t' : Turn) : Prop := mk_alters {
  alt_id : turn_id t' = turn_id t;
  alt_ids : gains n (ids t) n' (ids t');
  alt_rank : rank (turn_status t) <= rank (turn_status t');
  alt_error : is_Some (turn_error t) -> is_Some (turn_error t');
}.

Inductive log_step : nat * list Turn -> nat * list Turn -> Prop :=
  | log_open n ts n' t : gains n [] n' (ids t) -> log_step (n, ts) (n', ts ++ [t])
  | log_last n ts n' t t' : alters n t n' t' -> log_step (n, ts ++ [t]) (n', ts ++ [t'])
  | log_past n ts i t t' : ts !! i = Some t -> alters n t n t' -> log_step (n, ts) (n, <[i:=t']> ts).

Lemma gains_prefix n l n' l' : gains n l n' l' -> l `prefix_of` l'.
Proof. intros []; [done|apply prefix_app_r; done|apply prefix_app_r; done]. Qed.
Lemma alters_extends n t n' t' : alters n t n' t' -> extends t t'.
Proof. intros [? ?%gains_prefix ? ?]. by constructor. Qed.

Lemma log_step_grows s s' : log_step s s' -> grows s.2 s'.2.
Proof.
  intros [n ts n' t _|n ts n' t t' H%alters_extends|n ts i t t' Hi H%alters_extends]; simpl.
  - exists ts, [t]. split; [done|]. apply (reflexivity (R := Forall2 extends)).
  - exists (ts ++ [t']), []. rewrite app_nil_r. split; [done|]. apply Forall2_app; [by apply (reflexivity (R := Forall2 extends))|]. apply Forall2_cons. split; [done|]. by apply Forall2_nil.
  - exists (<[i:=t']> ts), []. rewrite app_nil_r. split; [done|].
    rewrite <-(list_insert_id ts i t) at 1 by done. apply Forall2_insert; [by apply (reflexivity (R := Forall2 extends))|done].
Qed.
Lemma log_steps_grow s s' : rtc log_step s s' -> grows s.2 s'.2.
Proof. induction 1 as [|s1 s2 s3 H _ IH]; [done|]. etrans; [by apply log_step_grows|done]. Qed.

(** ** Numbers of items

    The number of an item is at most the count of items up to its turn, and below the next
    one, which is what keeps the numbers apart after a rollback starts from the count. *)
Record numbers_ok (n : nat) (ts : list Turn) : Prop := mk_numbers_ok {
  num_nodup : Forall (fun t => NoDup (ids t)) ts;
  num_bound : forall i t k, ts !! i = Some t -> numbered k ∈ ids t -> k <= item_count (take (S i) ts) /\ k < n;
  num_once : forall i j t u k, ts !! i = Some t -> ts !! j = Some u -> numbered k ∈ ids t -> numbered k ∈ ids u -> i = j;
  num_next : n <= item_count ts + 1;
}.
Hypothesis given : forall k, ~ P (numbered k).

Lemma gains_elem n l n' l' k : gains n l n' l' -> numbered k ∈ l' -> numbered k ∈ l \/ k = n /\ n' = S n.
Proof.
  intros [|x Hx _|] Hk; [by left|..]; apply elem_of_app in Hk as [Hk|Hk]; [by left| |by left|];
    apply list_elem_of_singleton in Hk; [subst; by apply given in Hx|right; by apply numbered_inj in Hk].
Qed.
Lemma gains_nodup n l n' l' : gains n l n' l' -> numbered n ∉ l -> NoDup l -> NoDup l'.
Proof.
  intros [|x _ Hx|] Hn Hl; [done|..]; apply NoDup_app; (split; [done|]); (split; [set_solver|apply NoDup_singleton]).
Qed.
Lemma gains_next n l n' l' : gains n l n' l' -> length l + n' <= length l' + n /\ n <= n' /\ length l <= length l'.
Proof. intros []; rewrite ?length_app; simpl; lia. Qed.

Lemma item_count_app ts us : item_count (ts ++ us) = item_count ts + item_count us.
Proof. unfold item_count. by rewrite fmap_app, list_sum_app. Qed.
Lemma item_count_cons t ts : item_count (t :: ts) = length (turn_items t) + item_count ts.
Proof. done. Qed.
Lemma grows_count ts ts' j : grows ts ts' -> item_count (take j ts) <= item_count (take j ts').
Proof.
  intros (kept & rest & -> & H). rewrite take_app, item_count_app.
  enough (item_count (take j ts) <= item_count (take j kept)) by lia.
  apply (Forall2_take _ _ _ j) in H. induction H as [|t t' us us' [_ Hids _ _] _ IH]; [done|].
  apply prefix_length in Hids. unfold ids in Hids. rewrite !length_fmap in Hids. rewrite !item_count_cons. lia.
Qed.
Lemma grows_count_all ts ts' : grows ts ts' -> item_count ts <= item_count ts'.
Proof.
  intros H. pose proof (grows_count ts ts' (length ts + length ts') H) as Hle. by rewrite !take_ge in Hle by lia.
Qed.

(** One turn gains, the others stay. *)
Lemma numbers_step n ts n' ts' i l t' :
  ts' !! i = Some t' -> gains n l n' (ids t') ->
  (forall j u, j <> i -> ts' !! j = Some u -> ts !! j = Some u) ->
  (forall k, numbered k ∈ l -> exists t, ts !! i = Some t /\ numbered k ∈ ids t) ->
  (n' = S n -> take (S i) ts' = ts') ->
  NoDup l -> grows ts ts' -> item_count ts + n' <= item_count ts' + n ->
  numbers_ok n ts -> numbers_ok n' ts'.
Proof.
  intros Hi Hg Hother Hl Hlast Hnd Hgrow Hcount [Hnodup Hbound Honce Hnext].
  assert (Hfresh : forall j t, ts !! j = Some t -> numbered n ∉ ids t) by (intros j t Hj Hin; destruct (Hbound j t n Hj Hin); lia).
  assert (Hcase : forall j u k, ts' !! j = Some u -> numbered k ∈ ids u ->
    (exists t, ts !! j = Some t /\ numbered k ∈ ids t) \/ (j = i /\ k = n /\ n' = S n)).
  { intros j u k Hj Hk. destruct (decide (j = i)) as [->|Hne]; [|left; exists u; split; [by apply Hother|done]].
    rewrite Hi in Hj. simplify_eq. destruct (gains_elem _ _ _ _ k Hg Hk) as [Hin|]; [left; by apply Hl|by right]. }
  pose proof (gains_next _ _ _ _ Hg) as (_ & Hn & _). constructor.
  - apply Forall_lookup. intros j u Hj. destruct (decide (j = i)) as [->|Hne]; [|exact (Forall_lookup_1 _ _ _ _ Hnodup (Hother j u Hne Hj))].
    rewrite Hi in Hj. simplify_eq. eapply gains_nodup; [done| |done]. intros (t & Ht & Hin)%Hl. by eapply Hfresh.
  - intros j u k Hj Hk. destruct (Hcase j u k Hj Hk) as [(t & Ht & Hin)|(-> & -> & Hn')].
    + destruct (Hbound j t k Ht Hin). pose proof (grows_count _ _ (S j) Hgrow). lia.
    + rewrite Hlast by done. lia.
  - intros j j' u u' k Hj Hj' Hk Hk'. destruct (Hcase j u k Hj Hk) as [(t & Ht & Hin)|(-> & -> & Hn')],
      (Hcase j' u' _ Hj' Hk') as [(v & Ht' & Hin')|(-> & ? & Hn'')]; subst; try done.
    + by eapply Honce.
    + destruct (Hfresh _ _ Ht Hin).
    + destruct (Hfresh _ _ Ht' Hin').
  - lia.
Qed.

Lemma log_step_numbers s s' : log_step s s' -> numbers_ok s.1 s.2 -> numbers_ok s'.1 s'.2.
Proof.
  intros Hstep Hok. pose proof (log_step_grows _ _ Hstep) as Hgrow. revert Hstep Hok Hgrow.
  intros [n ts n' t Hg|n ts n' t t' [_ Hg _ _]|n ts i t t' Hi [_ Hg _ _]]; simpl; intros Hok Hgrow;
    pose proof (gains_next _ _ _ _ Hg) as (Hn & Hle & _); unfold ids in Hn; rewrite ?length_fmap in Hn; simpl in Hn.
  - eapply (numbers_step n ts n' _ (length ts) []); [by apply list_lookup_middle|done| |by intros k Hk%elem_of_nil| |apply NoDup_nil; done|done| |done].
    + intros j u Hne Hj. apply lookup_snoc_Some in Hj as [[_ Hj]|[-> _]]; done.
    + intros _. apply take_ge. rewrite length_app. simpl. lia.
    + rewrite item_count_app, item_count_cons. simpl. lia.
  - assert (Hlast : (ts ++ [t]) !! length ts = Some t) by by apply list_lookup_middle.
    eapply (numbers_step n (ts ++ [t]) n' _ (length ts) (ids t)); [by apply list_lookup_middle|done| |by eauto| | |done| |done].
    + intros j u Hne Hj. apply lookup_snoc_Some in Hj as [[? Hj]|[-> _]]; [|done]. by rewrite lookup_app_l by done.
    + intros _. apply take_ge. rewrite length_app. simpl. lia.
    + by eapply (Forall_lookup_1 (fun t => NoDup (ids t)) _ _ _ (num_nodup _ _ Hok)).
    + rewrite !item_count_app, !item_count_cons. simpl. lia.
  - eapply (numbers_step n ts n _ i (ids t)); [by eapply list_lookup_insert_eq, lookup_lt_Some|done| |by eauto|lia| |done| |done].
    + intros j u Hne Hj. by rewrite list_lookup_insert_ne in Hj.
    + by eapply (Forall_lookup_1 (fun t => NoDup (ids t)) _ _ _ (num_nodup _ _ Hok)).
    + apply grows_count_all in Hgrow. lia.
Qed.
Lemma log_steps_numbers s s' : rtc log_step s s' -> numbers_ok s.1 s.2 -> numbers_ok s'.1 s'.2.
Proof. induction 1; eauto using log_step_numbers. Qed.
End Log.

(** ** The builder is such a log *)
Definition shown_turns (b : ThreadHistoryBuilder) : list Turn := turns b ++ option_list (turn_of <$> current_turn b).
Definition view (b : ThreadHistoryBuilder) : nat * list Turn := (next_item_index b, shown_turns b).
Definition current_kept (b : ThreadHistoryBuilder) : Prop := from_option (fun t => worth_keeping t = true) True (current_turn b).

Lemma finish_current_view b : current_kept b -> view (finish_current_turn b) = view b.
Proof.
  unfold current_kept, finish_current_turn, view, shown_turns. destruct (current_turn b) as [t|] eqn:E; [|by rewrite E].
  simpl. intros ->. by rewrite app_nil_r.
Qed.
Lemma finish_current_kept b : current_kept (finish_current_turn b).
Proof. unfold current_kept, finish_current_turn. destruct (current_turn b) eqn:E; simpl; [done|by rewrite E]. Qed.
Lemma finish_current_none b : current_turn (finish_current_turn b) = None.
Proof. unfold finish_current_turn. by destruct (current_turn b) eqn:E. Qed.
Lemma finish_shown b : current_kept b -> finish b = shown_turns b.
Proof.
  intros H%finish_current_view. injection H as _ <-. unfold shown_turns. by rewrite finish_current_none, app_nil_r.
Qed.

Lemma worth_keeping_items t : p_items t <> [] -> worth_keeping t = true.
Proof. unfold worth_keeping. intros H. by rewrite bool_decide_eq_false_2 by done. Qed.
Lemma worth_keeping_mono t t' :
  length (p_items t) <= length (p_items t') -> (p_opened_explicitly t = true -> p_opened_explicitly t' = true) ->
  (p_saw_compaction t = true -> p_saw_compaction t' = true) -> worth_keeping t = true -> worth_keeping t' = true.
Proof.
  unfold worth_keeping. rewrite !negb_true_iff, !andb_false_iff, !bool_decide_eq_false, !negb_false_iff.
  destruct (p_items t), (p_items t'); simpl; intros; naive_solver lia.
Qed.

Lemma update_first_Some {A} (p : A -> bool) f l l' :
  update_first p f l = Some l' <-> exists i x, l !! i = Some x /\ p x = true /\ (forall j y, j < i -> l !! j = Some y -> p y = false) /\ l' = <[i := f x]> l.
Proof.
  revert l'. induction l as [|x l IH]; intros l'; simpl; [split; [done|intros (? & ? & ? & _); done]|].
  destruct (p x) eqn:E.
  - split; [intros [= <-]; exists 0, x; repeat split; [done|intros; lia]|]. intros ([|i] & y & Hy & Hp & Hbefore & ->); simpl in *; [by simplify_eq|].
    by rewrite (Hbefore 0 x) in E by (done || lia).
  - rewrite fmap_Some. setoid_rewrite IH. split.
    + intros (? & (i & y & Hy & Hp & Hbefore & ->) & ->). exists (S i), y. repeat split; [done..|].
      intros [|j] z Hj Hz; simpl in Hz; [by simplify_eq|]. eapply Hbefore; [|done]. lia.
    + intros ([|i] & y & Hy & Hp & Hbefore & ->); simpl in Hy; [by simplify_eq; congruence|].
      eexists. split; [|done]. exists i, y. repeat split; [done..|]. intros j z Hj Hz. apply (Hbefore (S j)); [lia|done].
Qed.

(** An item is put in the place of the one with its id, or after all. *)
Lemma upsert_ids item items :
  item_id <$> upsert_turn_item item items = (item_id <$> items) ++ (if decide (item_id item ∈ item_id <$> items) then [] else [item_id item]).
Proof.
  unfold upsert_turn_item. induction items as [|x items IH]; simpl; [done|]. case_bool_decide as E.
  - rewrite E, decide_True by (by left). by rewrite app_nil_r.
  - replace (default _ _) with (x :: default (items ++ [item]) (update_first (fun x => bool_decide (item_id x = item_id item)) (fun _ => item) items))
      by by destruct (update_first _ _ items).
    rewrite fmap_cons, IH. simpl. f_equal. f_equal. repeat case_decide; try done; exfalso; set_solver.
Qed.

Section Moves.
Variable uuid : nat -> str.
Variable shlex_try_join : list str -> option str.
Variable P : str -> Prop.

(** The builder goes on along the log, and its current turn stays one to keep. *)
Definition moves (b b' : ThreadHistoryBuilder) : Prop :=
  current_kept b -> current_kept b' /\ rtc (log_step P) (view b) (view b').

#[export] Instance moves_preorder : PreOrder moves.
Proof.
  split; [by intros b Hb|]. intros b1 b2 b3 H12 H23 H1. destruct (H12 H1) as [H2 ?]. destruct (H23 H2). split; [done|by etrans].
Qed.

Lemma moves_finish b : moves b (finish_current_turn b).
Proof. intros H. split; [apply finish_current_kept|by rewrite finish_current_view]. Qed.

Lemma alters_items n n' t f :
  gains P n (item_id <$> p_items t) n' (item_id <$> f (p_items t)) -> alters P n (turn_of t) n' (turn_of (with_items f t)).
Proof. intros H. by constructor. Qed.

Lemma moves_open b n' u t :
  current_turn b = None -> worth_keeping t = true -> gains P (next_item_index b) [] n' (ids (turn_of t)) ->
  moves b (mk_builder (turns b) (Some t) n' u).
Proof.
  intros Hb Ht Hg _. split; [done|]. apply rtc_once. unfold view, shown_turns. simpl. rewrite Hb, app_nil_r. by apply log_open.
Qed.
Lemma moves_current b n' u t t' :
  current_turn b = Some t -> (worth_keeping t = true -> worth_keeping t' = true) ->
  alters P (next_item_index b) (turn_of t) n' (turn_of t') -> moves b (mk_builder (turns b) (Some t') n' u).
Proof.
  unfold moves, current_kept. intros Hb Ht Ha. rewrite Hb. simpl. intros Hk. split; [auto|].
  apply rtc_once. unfold view, shown_turns. simpl. rewrite Hb. by apply log_last.
Qed.
Lemma moves_past b p f ts :
  update_first p f (turns b) = Some ts -> (forall t, alters P (next_item_index b) t (next_item_index b) (f t)) -> moves b (set_turns ts b).
Proof.
  intros (i & t & Hi & _ & _ & ->)%update_first_Some Ha H. split; [done|]. apply rtc_once. unfold view, shown_turns. simpl.
  rewrite <-insert_app_l by by eapply lookup_lt_Some. eapply log_past; [by apply lookup_app_l_Some|done].
Qed.

(** What is done to the turn that is ensured is done to the current one, or to a new one. *)
Lemma moves_ensured f b n' :
  (forall t, worth_keeping (f t) = true /\ alters P (next_item_index b) (turn_of t) n' (turn_of (f t))) ->
  moves b (in_ensured_turn uuid f (mk_builder (turns b) (current_turn b) n' (uuids b))).
Proof.
  intros Hf. unfold in_ensured_turn, ensure_turn, set_current. simpl. destruct (current_turn b) as [t|] eqn:E; simpl.
  - destruct (Hf t). by apply (moves_current _ n' (uuids b) t (f t)).
  - destruct (Hf (mk_pending (uuid (uuids b)) [] None TurnCompleted false false)) as [? [_ ? _ _]]. by apply moves_open.
Qed.

Lemma moves_push_numbered item b : (forall id, item_id (item id) = id) -> moves b (push_numbered uuid item b).
Proof.
  intros Hid. unfold push_numbered. simpl. apply moves_ensured. intros t. split.
  - apply worth_keeping_items. simpl. by destruct (p_items t).
  - apply alters_items. rewrite fmap_app. simpl. rewrite Hid. apply gains_number.
Qed.

Lemma upsert_gains n item items : P (item_id item) -> gains P n (item_id <$> items) n (item_id <$> upsert_turn_item item items).
Proof. intros HP. rewrite upsert_ids. case_decide; [rewrite app_nil_r; constructor|by constructor]. Qed.
Lemma upsert_not_nil item items : upsert_turn_item item items <> [].
Proof. intros H. pose proof (upsert_ids item items) as Hu. rewrite H in Hu. case_decide; destruct items; simpl in *; try done; set_solver. Qed.

Lemma moves_upsert_current item b : P (item_id item) -> moves b (upsert_item_in_current_turn uuid item b).
Proof.
  intros HP. unfold upsert_item_in_current_turn. destruct b as [ts c n u]. apply (moves_ensured _ (mk_builder ts c n u)). intros t. split.
  - apply worth_keeping_items, upsert_not_nil.
  - by apply alters_items, upsert_gains.
Qed.
Lemma moves_upsert_in_turn id item b : P (item_id item) -> moves b (upsert_item_in_turn_id id item b).
Proof.
  intros HP. unfold upsert_item_in_turn_id.
  assert (Hpast : moves b (set_turns (default (turns b) (update_first (named id) (turn_with_items (upsert_turn_item item)) (turns b))) b)).
  { destruct (update_first _ _ _) eqn:E; simpl; [|by destruct b]. eapply moves_past; [done|]. intros t. constructor; simpl; [done| |done..]. by apply upsert_gains. }
  destruct (current_turn b) as [t|] eqn:Hb; [|done]. destruct (pending_named id t); [|done].
  eapply moves_current; [done| |by apply alters_items, upsert_gains]. intros _. apply worth_keeping_items, upsert_not_nil.
Qed.

Lemma moves_user_message payload b : moves b (handle_user_message uuid payload b).
Proof.
  assert (Hpush : forall b, moves b
    (let '(b, t) := match current_turn b with Some t => (set_current None b, t) | None => new_turn uuid None b end in
     let '(b, id) := next_item_id b in
     set_current (Some (with_items (fun items => items ++ [ItemUserMessage id (build_user_inputs payload)]) t)) b)).
  { intros b'. pose proof (moves_push_numbered (fun id => ItemUserMessage id (build_user_inputs payload)) b' (fun id => eq_refl)) as H.
    revert H. unfold push_numbered, push_item, in_ensured_turn, ensure_turn. simpl. by destruct (current_turn b'). }
  unfold handle_user_message. destruct (current_turn b) as [t|] eqn:E; [|apply Hpush].
  destruct (_ && _); [|apply Hpush].
  transitivity (finish_current_turn b); [apply moves_finish|apply Hpush].
Qed.

Lemma extend_reasoning_ids f items items' : extend_reasoning f items = Some items' -> item_id <$> items' = item_id <$> items.
Proof.
  unfold extend_reasoning. destruct items as [|x items _] using rev_ind; [done|]. rewrite last_snoc.
  destruct x; try done. destruct (f summary content). intros [= <-]. by rewrite removelast_last, !fmap_app.
Qed.

Lemma moves_reasoning f text b : moves b (handle_reasoning uuid f text b).
Proof.
  unfold handle_reasoning. case_bool_decide; [done|].
  assert (Hpush : moves b (let '(summary, content) := f [] [] in push_numbered uuid (fun id => ItemReasoning id summary content) b))
    by (destruct (f [] []); by apply moves_push_numbered).
  unfold ensure_turn. destruct (current_turn b) as [t|] eqn:E.
  - destruct (extend_reasoning f (p_items t)) as [items|] eqn:Hx; [|done]. eapply moves_current; [done| |].
    + apply worth_keeping_mono; [|done..]. simpl. apply extend_reasoning_ids in Hx.
      apply (f_equal length) in Hx. rewrite !length_fmap in Hx. lia.
    + apply alters_items. rewrite (extend_reasoning_ids _ _ _ Hx). constructor.
  - simpl. destruct (f [] []). revert Hpush. unfold push_numbered, push_item, in_ensured_turn, ensure_turn. simpl. by rewrite E.
Qed.

Lemma moves_item turn item b : (forall id text, item = PlanTurnItem id text -> P id) -> moves b (handle_item turn item b).
Proof.
  intros H. destruct item as [id text|]; simpl; [|done]. case_bool_decide; [done|]. apply moves_upsert_in_turn. by eapply H.
Qed.
Lemma moves_patch turn item b : P (item_id item) -> moves b (upsert_patch uuid turn item b).
Proof. intros H. unfold upsert_patch. case_bool_decide; [by apply moves_upsert_current|by apply moves_upsert_in_turn]. Qed.

Lemma moves_error message info b : moves b (handle_error message info b).
Proof.
  unfold handle_error. destruct (negb _); [done|]. destruct (current_turn b) as [t|] eqn:E; [|done].
  eapply moves_current; [done|done|]. constructor; simpl; [done|apply gains_nothing| |by eauto]. by destruct (p_status t); simpl; lia.
Qed.

(** A status that gets no further back than it is. *)
Definition forward (f : TurnStatus -> TurnStatus) : Prop := forall s, rank s <= rank (f s).
Lemma forward_interrupted : forward (fun _ => TurnInterrupted).
Proof. intros []; simpl; lia. Qed.
Lemma forward_completed : forward mark_completed.
Proof. intros []; simpl; lia. Qed.

Lemma moves_active_status f b : forward f -> moves b (set_current (with_status f <$> current_turn b) b).
Proof.
  intros Hf. destruct (current_turn b) as [t|] eqn:E; simpl; [|destruct b; simpl in E; by subst].
  eapply moves_current; [done|done|]. constructor; simpl; [done|apply gains_nothing|apply Hf|done].
Qed.
Lemma moves_past_status p f b ts : forward f -> update_first p (turn_with_status f) (turns b) = Some ts -> moves b (set_turns ts b).
Proof. intros Hf H. eapply moves_past; [done|]. intros t. constructor; simpl; [done|apply gains_nothing|apply Hf|done]. Qed.

Lemma moves_turn_aborted turn b : moves b (handle_turn_aborted turn b).
Proof.
  pose proof (moves_active_status _ b forward_interrupted) as Hactive. unfold handle_turn_aborted. destruct turn as [id|]; [|done].
  destruct (from_option _ _ _); [done|]. destruct (update_first _ _ _) eqn:E; [|done]. by eapply moves_past_status; [apply forward_interrupted|].
Qed.
Lemma moves_turn_complete turn b : moves b (handle_turn_complete turn b).
Proof.
  assert (Hactive : moves b (finish_current_turn (set_current (with_status mark_completed <$> current_turn b) b)))
    by (etrans; [apply (moves_active_status _ b forward_completed)|apply moves_finish]).
  unfold handle_turn_complete. destruct (from_option _ _ _); [done|].
  destruct (update_first _ _ _) eqn:E; [|done]. by eapply moves_past_status; [apply forward_completed|].
Qed.
Lemma moves_turn_started turn b : moves b (handle_turn_started uuid turn b).
Proof.
  etrans; [apply moves_finish|]. unfold handle_turn_started. simpl.
  apply moves_open; [apply finish_current_none|done|apply gains_nothing].
Qed.
Lemma moves_compacted b : moves b (handle_compacted uuid b).
Proof.
  unfold handle_compacted. destruct b as [ts c n u]. apply (moves_ensured _ (mk_builder ts c n u)). intros t. split.
  - unfold worth_keeping. simpl. by rewrite andb_false_r.
  - constructor; simpl; [done|apply gains_nothing|done|done].
Qed.

(** ** Every event but a rollback goes on along the log *)
Definition given_ids (event : EventMsg) : list str :=
  match event with
  | WebSearchBegin id | WebSearchEnd id _ _ | PatchApplyBegin id _ _ | PatchApplyEnd id _ _ _ | McpToolCallBegin id _ | McpToolCallEnd id _ _ _
  | ViewImageToolCall id _ | CollabAgentSpawnBegin id _ _ | CollabAgentSpawnEnd id _ _ _ _ | CollabAgentInteractionBegin id _ _ _
  | CollabAgentInteractionEnd id _ _ _ _ | CollabWaitingBegin id _ _ | CollabWaitingEnd id _ _ | CollabCloseBegin id _ _
  | CollabCloseEnd id _ _ _ | CollabResumeBegin id _ _ | CollabResumeEnd id _ _ _
  | ItemStarted _ (PlanTurnItem id _) | ItemCompleted _ (PlanTurnItem id _) => [id]
  | ExecCommandBegin p => [eb_call_id p]
  | ExecCommandEnd e => [eb_call_id (ee_begin e)]
  | _ => []
  end.
Definition item_given_ids (item : RolloutItem) : list str := match item with RolloutEvent e => given_ids e | _ => [] end.
Definition is_rollback (item : RolloutItem) : Prop := exists n, item = RolloutEvent (ThreadRolledBack n).

Lemma moves_event e b :
  Forall P (given_ids e) -> (forall n, e <> ThreadRolledBack n) -> moves b (handle_event uuid shlex_try_join e b).
Proof.
  destruct e; simpl; intros Hids Hroll; try done;
    try solve [by apply moves_push_numbered | apply Forall_inv in Hids; by apply moves_upsert_current
      | apply Forall_inv in Hids; by apply moves_upsert_in_turn | apply Forall_inv in Hids; by apply moves_patch
      | apply moves_user_message | apply moves_reasoning | apply moves_error | apply moves_turn_aborted | apply moves_turn_started
      | apply moves_turn_complete | apply moves_item; intros id text ->; by apply Forall_inv in Hids].
  - unfold handle_agent_message. case_bool_decide; [done|by apply moves_push_numbered].
  - apply Forall_inv in Hids. unfold handle_mcp_tool_call_end. destruct result; by apply moves_upsert_current.
  - apply Forall_inv in Hids. unfold handle_collab_agent_spawn_end. destruct new_thread_id; by apply moves_upsert_current.
  - destruct (Hroll num_turns eq_refl).
Qed.

Lemma moves_item_replayed item b :
  Forall P (item_given_ids item) -> ~ is_rollback item -> moves b (handle_rollout_item uuid shlex_try_join item b).
Proof.
  destruct item; simpl; intros Hids Hroll; try done; [|apply moves_compacted].
  apply moves_event; [done|]. intros n ->. apply Hroll. by exists n.
Qed.
End Moves.

(** ** Replays *)
Lemma rollback_turns n b : turns (handle_thread_rollback n b) = take (length (finish b) - N.to_nat n) (finish b).
Proof.
  unfold handle_thread_rollback, finish. simpl. destruct (Nat.leb_spec (length (turns (finish_current_turn b))) (N.to_nat n)); [|done].
  by replace (_ - _) with 0 by lia.
Qed.
Lemma rollback_current n b : current_turn (handle_thread_rollback n b) = None.
Proof. apply finish_current_none. Qed.
Lemma rollback_shown n b : current_kept b -> shown_turns (handle_thread_rollback n b) = take (length (finish b) - N.to_nat n) (finish b).
Proof. intros _. unfold shown_turns. by rewrite rollback_current, app_nil_r, rollback_turns. Qed.

Lemma numbers_ok_take n ts m : numbers_ok n ts -> numbers_ok (item_count (take m ts) + 1) (take m ts).
Proof.
  intros [Hnodup Hbound Honce _].
  assert (Hcount : forall i, i < m -> item_count (take (S i) ts) <= item_count (take m ts)).
  { intros i Hi. replace (take (S i) ts) with (take (S i) (take m ts)) by (rewrite take_take; f_equal; lia).
    rewrite <-(take_drop (S i) (take m ts)) at 2. rewrite item_count_app. lia. }
  constructor.
  - by apply Forall_take.
  - intros i t k [Hi Him]%lookup_take_Some Hk. destruct (Hbound i t k Hi Hk). rewrite take_take, Nat.min_l by lia.
    specialize (Hcount i Him). lia.
  - intros i j t u k [Hi _]%lookup_take_Some [Hj _]%lookup_take_Some. eauto.
  - lia.
Qed.

Section Replays.
Variable uuid : nat -> str.
Variable shlex_try_join : list str -> option str.
Abbreviation replayed := (replay uuid shlex_try_join).
Abbreviation built := (build_turns_from_rollout_items uuid shlex_try_join).

Lemma is_rollback_dec item : is_rollback item \/ ~ is_rollback item.
Proof. destruct item as [[]| | | |]; try (right; by intros [? [=]]). left. by eexists. Qed.

Lemma replay_from_kept items b : current_kept b -> current_kept (foldl (fun b i => handle_rollout_item uuid shlex_try_join i b) b items).
Proof.
  revert b. induction items as [|item items IH]; intros b Hb; [done|]. simpl. apply IH.
  destruct (is_rollback_dec item) as [[n ->]|Hno].
  - unfold current_kept. simpl handle_rollout_item. by rewrite rollback_current.
  - apply (moves_item_replayed uuid shlex_try_join (fun _ => True)); [by apply Forall_true|done..].
Qed.
Lemma replay_kept items : current_kept (replayed items).
Proof. by apply replay_from_kept. Qed.
Lemma built_shown items : built items = shown_turns (replayed items).
Proof. apply finish_shown, replay_kept. Qed.

Lemma replay_from_grows items b :
  current_kept b -> Forall (fun i => ~ is_rollback i) items ->
  grows (shown_turns b) (shown_turns (foldl (fun b i => handle_rollout_item uuid shlex_try_join i b) b items)).
Proof.
  intros Hb H. revert b Hb. induction H as [|item items Hno _ IH]; intros b Hb; [done|]. simpl.
  destruct (moves_item_replayed uuid shlex_try_join (fun _ => True) item b) as [Hk Hsteps]; [by apply Forall_true|done..|].
  etrans; [apply (log_steps_grow _ _ _ Hsteps)|by apply IH].
Qed.

(** C16. Replaying more of a thread only adds to what was shown of it: without a rollback every turn
    keeps its place and its id, its items keep their order and ids and more come after them, its status goes from
    in progress to completed to failed or interrupted and never back, and its error does not go away; a rollback of [n] turns
    leaves the turns before the last [n] exactly as they are. *)
Theorem history_is_kept (items more : list RolloutItem) (Hmore : Forall (fun i => ~ is_rollback i) more) :
  grows (built items) (built (items ++ more)) /\
  forall n, built (items ++ [RolloutEvent (ThreadRolledBack n)]) = take (length (built items) - N.to_nat n) (built items).
Proof.
  split.
  - rewrite !built_shown. unfold replay. rewrite foldl_app. apply replay_from_grows; [apply replay_kept|done].
  - intros n. rewrite built_shown. unfold replay at 1. rewrite foldl_app. simpl. by rewrite rollback_shown by apply replay_kept.
Qed.

Lemma replay_numbers items b :
  current_kept b -> numbers_ok (next_item_index b) (shown_turns b) ->
  Forall (fun i => Forall (fun id => forall k, id <> numbered k) (item_given_ids i)) items ->
  let b' := foldl (fun b i => handle_rollout_item uuid shlex_try_join i b) b items in numbers_ok (next_item_index b') (shown_turns b').
Proof.
  intros Hb Hok H. revert b Hb Hok. induction H as [|item items Hids _ IH]; intros b Hb Hok; [done|]. simpl.
  destruct (is_rollback_dec item) as [[n ->]|Hno].
  - apply IH; simpl handle_rollout_item; [unfold current_kept; by rewrite rollback_current|].
    rewrite rollback_shown by done.
    replace (next_item_index (handle_thread_rollback n b)) with (item_count (turns (handle_thread_rollback n b)) + 1) by done.
    rewrite rollback_turns, finish_shown by done. by eapply numbers_ok_take.
  - destruct (moves_item_replayed uuid shlex_try_join _ item b Hids Hno Hb) as [Hk Hsteps]. apply IH; [done|].
    refine (log_steps_numbers (fun id => forall k, id <> numbered k) _ _ _ Hsteps Hok). by intros k Hne; apply (Hne k).
Qed.

(** C30. The items of a turn have ids of their own, and no number that the reducer gives an item is
    given to two of them, in one turn or in several, even after rollbacks start the numbers again from the count of the
    items that are left (where calls and plans do not come with such a number for an id). *)
Theorem item_ids_are_apart (items : list RolloutItem)
    (Hgiven : Forall (fun i => Forall (fun id => forall k, id <> numbered k) (item_given_ids i)) items) :
  Forall (fun t => NoDup (ids t)) (built items) /\
  forall i j t u k, built items !! i = Some t -> built items !! j = Some u -> numbered k ∈ ids t -> numbered k ∈ ids u -> i = j.
Proof.
  assert (H0 : numbers_ok (next_item_index builder_new) (shown_turns builder_new)) by (constructor; simpl; [by apply Forall_nil|done|done|lia]).
  destruct (replay_numbers items builder_new I H0 Hgiven). rewrite built_shown. eauto.
Qed.

(** ** What ends late goes where it began *)
Lemma update_first_only id f ts rest i t :
  ts !! i = Some t -> turn_id t = id -> (forall j u, (ts ++ rest) !! j = Some u -> turn_id u = id -> j = i) ->
  update_first (named id) f ts = Some (<[i := f t]> ts).
Proof.
  intros Hi Hid Hone. apply update_first_Some. exists i, t. repeat split; [done|by apply bool_decide_eq_true|].
  intros j u Hj Hu. apply bool_decide_eq_false. intros Hne. assert (j = i); [|lia]. eapply Hone; [by apply lookup_app_l_Some|done].
Qed.

Lemma upsert_in_turn_shown id item b i t :
  current_kept b -> shown_turns b !! i = Some t -> turn_id t = id -> (forall j u, shown_turns b !! j = Some u -> turn_id u = id -> j = i) ->
  finish (upsert_item_in_turn_id id item b) = <[i := turn_with_items (upsert_turn_item item) t]> (shown_turns b).
Proof.
  intros Hk Hi Hid Hone. rewrite finish_shown by (by apply (moves_upsert_in_turn (fun _ => True))).
  unfold upsert_item_in_turn_id, shown_turns in *. destruct (current_turn b) as [p|] eqn:E; simpl in *.
  - unfold pending_named. case_bool_decide as Hp; simpl.
    + assert (length (turns b) = i) as <- by (eapply Hone; [by apply list_lookup_middle|exact Hp]).
      rewrite list_lookup_middle in Hi by done. simplify_eq. by rewrite insert_app_r_alt, Nat.sub_diag.
    + apply lookup_snoc_Some in Hi as [[Hlt Hi]|[-> <-]]; [|done]. rewrite E. simpl. rewrite insert_app_l by done. f_equal.
      by erewrite update_first_only.
  - rewrite E. simpl. rewrite app_nil_r in *.
    rewrite (update_first_only id _ (turns b) [] i t) by (done || (intros j u; rewrite app_nil_r; apply Hone)).
    by rewrite ?app_nil_r.
Qed.
Lemma upsert_unknown_turn_shown id item b :
  current_kept b -> (forall j u, shown_turns b !! j = Some u -> turn_id u <> id) -> finish (upsert_item_in_turn_id id item b) = shown_turns b.
Proof.
  intros Hk Hno. rewrite finish_shown by (by apply (moves_upsert_in_turn (fun _ => True))).
  assert (Hnone : update_first (named id) (turn_with_items (upsert_turn_item item)) (turns b) = None).
  { apply eq_None_not_Some. intros [ts (j & u & Hj & Hu%bool_decide_eq_true & _)%update_first_Some].
    eapply Hno; [|exact Hu]. by apply lookup_app_l_Some. }
  unfold upsert_item_in_turn_id, shown_turns in *. destruct (current_turn b) as [p|] eqn:E; rewrite Hnone; simpl; [|by rewrite E].
  unfold pending_named. case_bool_decide as Hp; simpl; [|by rewrite E].
  edestruct Hno; [by apply list_lookup_middle|exact Hp].
Qed.

(** What is made of the end of a command. *)
Definition ended (e : ExecCommandEndEvent) (item : ThreadItem) : Prop :=
  exists command output,
    item = ItemCommandExecution (eb_call_id (ee_begin e)) command (eb_cwd (ee_begin e)) (eb_process_id (ee_begin e)) (command_status (ee_status e))
      (eb_parsed_cmd (ee_begin e)) output (Some (ee_exit_code e)) (Some (N.min (ee_duration_ms e) i64_max)).

(** [l'] is [l] with [item] in the place of the first item of its id, or after all when there is none. *)
Inductive placed (item : ThreadItem) : list ThreadItem -> list ThreadItem -> Prop :=
  | placed_over l1 old l2 : item_id old = item_id item -> item_id item ∉ item_id <$> l1 -> placed item (l1 ++ old :: l2) (l1 ++ item :: l2)
  | placed_last l : item_id item ∉ item_id <$> l -> placed item l (l ++ [item]).

Lemma upsert_placed item l : placed item l (upsert_turn_item item l).
Proof.
  unfold upsert_turn_item. destruct (update_first _ _ l) as [l'|] eqn:E; simpl.
  - apply update_first_Some in E as (i & old & Hi & Hid%bool_decide_eq_true & Hbefore & ->).
    rewrite insert_take_drop by (by eapply lookup_lt_Some). rewrite <-(take_drop_middle l i old Hi) at 1.
    apply placed_over; [done|]. intros (x & Hx & Hin)%list_elem_of_fmap. apply list_elem_of_lookup in Hin as (j & [Hj Hlt]%lookup_take_Some).
    specialize (Hbefore j x Hlt Hj). by apply bool_decide_eq_false in Hbefore.
  - apply placed_last. intros (x & Hx & Hin)%list_elem_of_fmap. apply list_elem_of_lookup in Hin as (j & Hj).
    revert E Hj. revert j. induction l as [|y l IH]; intros j; [done|]. simpl. case_bool_decide as Hy; [done|].
    destruct (update_first _ _ l) eqn:E; [done|]. intros _. destruct j as [|j]; simpl; [by intros [= ->]|by apply IH].
Qed.

(** A command that ends is shown in the turn that it began in, however late its end comes and
    whatever turn is open by then: its item takes the place of the one that its beginning left in that turn (or comes last there),
    with the exit code, the status and the time it took, and no other turn changes; the end of a command of a turn
    that is not there changes nothing. *)
Theorem late_end_goes_to_its_turn (items : list RolloutItem) (e : ExecCommandEndEvent) :
  let after := built (items ++ [RolloutEvent (ExecCommandEnd e)]) in
  (forall i t, built items !! i = Some t -> turn_id t = eb_turn_id (ee_begin e) ->
     (forall j u, built items !! j = Some u -> turn_id u = eb_turn_id (ee_begin e) -> j = i) ->
     exists item shown, ended e item /\ placed item (turn_items t) shown /\ after = <[i := turn_with_items (fun _ => shown) t]> (built items)) /\
  ((forall j u, built items !! j = Some u -> turn_id u <> eb_turn_id (ee_begin e)) -> after = built items).
Proof.
  assert (Hafter : built (items ++ [RolloutEvent (ExecCommandEnd e)]) = finish (handle_exec_command_end shlex_try_join e (replayed items)))
    by (unfold build_turns_from_rollout_items, replay; by rewrite foldl_app).
  cbn zeta. rewrite Hafter, !built_shown. unfold handle_exec_command_end. split.
  - intros i t Hi Hid Hone. rewrite (upsert_in_turn_shown _ _ _ i t) by (done || apply replay_kept).
    eexists _, _. split; [by eexists _, _|]. split; [apply upsert_placed|done].
  - intros Hno. by rewrite upsert_unknown_turn_shown by (done || apply replay_kept).
Qed.
End Replays.

(** ** A thread *)
Definition demo_uuid (k : nat) : str := lit "uuid-" ++ show_usize k.
Definition demo_join (l : list str) : option str := Some (join [32%N] l).
Definition demo_begin : ExecCommandBeginEvent := mk_exec_begin (lit "call-1") None (lit "turn-1") [lit "make"] (lit "/w") [].
Definition demo_end : ExecCommandEndEvent := mk_exec_end demo_begin (lit "ok") 0 1500 ExecCompleted.
Definition demo_said (text : str) : RolloutItem := RolloutEvent (UserMessage (mk_user_message text None [] [])).
Definition demo_thread : list RolloutItem :=
  RolloutEvent (TurnStarted (lit "turn-1")) :: demo_said (lit "build it") :: RolloutEvent (ExecCommandBegin demo_begin)
  :: RolloutEvent (TurnComplete (lit "turn-1")) :: RolloutEvent (TurnStarted (lit "turn-2")) :: demo_said (lit "and now?") :: [].
Definition demo_more : list RolloutItem :=
  RolloutEvent (ExecCommandEnd demo_end) :: RolloutEvent (AgentMessage (lit "done") None) :: RolloutEvent (TurnComplete (lit "turn-2")) :: [].

Lemma history_is_kept_witness :
  grows (build_turns_from_rollout_items demo_uuid demo_join demo_thread) (build_turns_from_rollout_items demo_uuid demo_join (demo_thread ++ demo_more)).
Proof.
  apply (history_is_kept demo_uuid demo_join demo_thread demo_more).
  repeat (apply Forall_cons; split; [by intros [n [=]]|]). by apply Forall_nil.
Defined.

Lemma item_ids_are_apart_witness :
  Forall (fun t => NoDup (ids t)) (build_turns_from_rollout_items demo_uuid demo_join
    (demo_thread ++ RolloutEvent (ThreadRolledBack 1) :: demo_said (lit "again") :: demo_more)).
Proof.
  apply (item_ids_are_apart demo_uuid demo_join).
  repeat (apply Forall_cons; split; [repeat (apply Forall_cons; split; [intros k [=]|]); by apply Forall_nil|]). by apply Forall_nil.
Defined.

Lemma late_end_goes_to_its_turn_witness :
  exists item shown, ended demo_end item /\
    placed item (default [] (turn_items <$> build_turns_from_rollout_items demo_uuid demo_join demo_thread !! 0)) shown /\
    (ids <$> build_turns_from_rollout_items demo_uuid demo_join (demo_thread ++ [RolloutEvent (ExecCommandEnd demo_end)])) =
      [[lit "item-1"; lit "call-1"]; [lit "item-2"]].
Proof.
  destruct (late_end_goes_to_its_turn demo_uuid demo_join demo_thread demo_end) as [H _].
  destruct (build_turns_from_rollout_items demo_uuid demo_join demo_thread !! 0) as [t|] eqn:E; [|by vm_compute in E].
  destruct (H 0 t E) as (item & shown & Hend & Hplaced & Hafter).
  - assert (Some (turn_id t) = Some (lit "turn-1")) as [= Ht]; [|exact Ht]. change (Some (turn_id t)) with (turn_id <$> Some t). rewrite <-E. reflexivity.
  - intros [|[|j]] u Hu; [done| |by vm_compute in Hu]. vm_compute in Hu. injection Hu as <-. intros [=].
  - exists item, shown. split; [exact Hend|]. split; [exact Hplaced|]. reflexivity.
Defined.

(** A search has no turn: what ends it late is an item of the turn that is open by then, and what began it stays without a query. *)
Lemma late_search_is_shown_twice :
  (turn_items <$> build_turns_from_rollout_items demo_uuid demo_join
    (RolloutEvent <$> [TurnStarted (lit "turn-1"); WebSearchBegin (lit "s"); TurnComplete (lit "turn-1"); TurnStarted (lit "turn-2");
       WebSearchEnd (lit "s") (lit "rocq") OtherAction])) =
  [[ItemWebSearch (lit "s") [] None]; [ItemWebSearch (lit "s") (lit "rocq") (Some OtherAction)]].
Proof. reflexivity. Qed.

(** A rollback takes turns away, whether or not the user spoke in them. *)
Lemma rollback_takes_turns_without_user :
  turn_id <$> build_turns_from_rollout_items demo_uuid demo_join
    [RolloutEvent (TurnStarted (lit "turn-1")); demo_said (lit "hi"); RolloutEvent (TurnComplete (lit "turn-1"));
     RolloutEvent (TurnStarted (lit "compact")); RolloutEvent ContextCompacted; RolloutEvent (TurnComplete (lit "compact"));
     RolloutEvent (ThreadRolledBack 1)] = [lit "turn-1"].
Proof. reflexivity. Qed.
