(* ===== verification/TagStream.v ===== *)
(** * Tag blocks in streamed text (core/src/tagged_block_parser.rs, proposed_plan_parser.rs)

    The text of the model comes in pieces; lines that are tags divide it into ordinary text
    and blocks, of which proposed plans are one kind. *)

From stdpp Require Import list.
From S2P Require Import Prelude RustStd.

Section Tags.
Context {T : Type} `{EqDecision T}.

Record TagSpec : Type := mk_tag_spec { tag_open : str; tag_close : str; tag : T }.

Inductive TaggedLineSegment : Type :=
  | Normal (text : str)
  | TagStart (t : T)
  | TagDelta (t : T) (text : str)
  | TagEnd (t : T).

Record TaggedLineParser : Type := mk_parser { specs : list TagSpec; active_tag : option T; detect_tag : bool; line_buffer : str }.
Definition parser_new (specs : list TagSpec) : TaggedLineParser := mk_parser specs None true [].

(** A text goes on with the segment before when that is of the same kind. *)
Definition push_segment (segments : list TaggedLineSegment) (segment : TaggedLineSegment) : list TaggedLineSegment :=
  match segment with
  | Normal delta =>
      if bool_decide (delta = []) then segments else
      match last segments with
      | Some (Normal existing) => removelast segments ++ [Normal (existing ++ delta)]
      | _ => segments ++ [Normal delta]
      end
  | TagDelta t delta =>
      if bool_decide (delta = []) then segments else
      match last segments with
      | Some (TagDelta existing_tag existing) =>
          if bool_decide (existing_tag = t) then removelast segments ++ [TagDelta existing_tag (existing ++ delta)]
          else segments ++ [TagDelta t delta]
      | _ => segments ++ [TagDelta t delta]
      end
  | TagStart _ | TagEnd _ => segments ++ [segment]
  end.

Definition push_text (p : TaggedLineParser) (text : str) (segments : list TaggedLineSegment) : list TaggedLineSegment :=
  push_segment segments (match active_tag p with Some t => TagDelta t text | None => Normal text end).

Definition is_tag_prefix (p : TaggedLineParser) (slug : str) : bool :=
  let slug := trim_end slug in existsb (fun spec => starts_with slug (tag_open spec) || starts_with slug (tag_close spec)) (specs p).
Definition match_open (p : TaggedLineParser) (slug : str) : option T :=
  tag <$> head (filter (fun spec => tag_open spec = slug) (specs p)).
Definition match_close (p : TaggedLineParser) (slug : str) : option T :=
  tag <$> head (filter (fun spec => tag_close spec = slug) (specs p)).

(** What a whole line is: the block it opens or the one it closes, when it does. *)
Inductive line_kind : Type := Opens (t : T) | Closes (t : T) | Plain.
Definition kind_of_line (p : TaggedLineParser) (line : str) : line_kind :=
  let without_newline := default line (strip_suffix [LF] line) in
  let slug := trim_end (trim_start without_newline) in
  match match_open p slug, active_tag p with
  | Some t, None => Opens t
  | _, _ =>
      match match_close p slug with
      | Some t => if bool_decide (active_tag p = Some t) then Closes t else Plain
      | None => Plain
      end
  end.

Definition set_active (t : option T) (p : TaggedLineParser) : TaggedLineParser := mk_parser (specs p) t (detect_tag p) (line_buffer p).
Definition set_detect (d : bool) (p : TaggedLineParser) : TaggedLineParser := mk_parser (specs p) (active_tag p) d (line_buffer p).
Definition set_buffer (b : str) (p : TaggedLineParser) : TaggedLineParser := mk_parser (specs p) (active_tag p) (detect_tag p) b.

Definition take_line (p : TaggedLineParser) (segments : list TaggedLineSegment) : TaggedLineParser * list TaggedLineSegment :=
  let line := line_buffer p in
  let p := set_buffer [] p in
  match kind_of_line p line with
  | Opens t => (set_active (Some t) p, push_segment segments (TagStart t))
  | Closes t => (set_active None p, push_segment segments (TagEnd t))
  | Plain => (p, push_text p line segments)
  end.
Definition finish_line (p : TaggedLineParser) (segments : list TaggedLineSegment) : TaggedLineParser * list TaggedLineSegment :=
  let '(p, segments) := take_line p segments in (set_detect true p, segments).

Fixpoint parse_loop (delta : str) (p : TaggedLineParser) (run : str) (segments : list TaggedLineSegment) :
    TaggedLineParser * str * list TaggedLineSegment :=
  match delta with
  | [] => (p, run, segments)
  | ch :: delta =>
      if detect_tag p then
        let '(run, segments) := if bool_decide (run = []) then (run, segments) else ([], push_text p run segments) in
        let p := set_buffer (line_buffer p ++ [ch]) p in
        if bool_decide (ch = LF) then let '(p, segments) := finish_line p segments in parse_loop delta p run segments else
        let slug := trim_start (line_buffer p) in
        if bool_decide (slug = []) || is_tag_prefix p slug then parse_loop delta p run segments else
        let buffered := line_buffer p in
        let p := set_detect false (set_buffer [] p) in
        parse_loop delta p run (push_text p buffered segments)
      else
        let run := run ++ [ch] in
        if bool_decide (ch = LF) then parse_loop delta (set_detect true p) [] (push_text p run segments)
        else parse_loop delta p run segments
  end.
Definition parse (delta : str) (p : TaggedLineParser) : TaggedLineParser * list TaggedLineSegment :=
  let '(p, run, segments) := parse_loop delta p [] [] in
  (p, if bool_decide (run = []) then segments else push_text p run segments).

Definition finish (p : TaggedLineParser) : TaggedLineParser * list TaggedLineSegment :=
  let '(p, segments) := if bool_decide (line_buffer p = []) then (p, []) else take_line p [] in
  let segments := match active_tag p with Some t => push_segment segments (TagEnd t) | None => segments end in
  (set_detect true (set_active None p), segments).

(** What is streamed of a text that comes in pieces. *)
Fixpoint stream (deltas : list str) (p : TaggedLineParser) : list TaggedLineSegment :=
  match deltas with
  | [] => (finish p).2
  | delta :: deltas => let '(p, segments) := parse delta p in segments ++ stream deltas p
  end.
End Tags.
Arguments TagSpec : clear implicits.
Arguments TaggedLineSegment : clear implicits.
Arguments TaggedLineParser : clear implicits.
Arguments line_kind : clear implicits.

(** ** Proposed plans *)
Definition OPEN_TAG : str := lit "<proposed_plan>".
Definition CLOSE_TAG : str := lit "</proposed_plan>".
Inductive PlanTag : Type := ProposedPlan.
#[export] Instance PlanTag_eq_dec : EqDecision PlanTag.
Proof. solve_decision. Defined.

Inductive ProposedPlanSegment : Type :=
  | PlanNormal (text : str)
  | ProposedPlanStart
  | ProposedPlanDelta (text : str)
  | ProposedPlanEnd.

Definition plan_parser_new : TaggedLineParser PlanTag := parser_new [mk_tag_spec OPEN_TAG CLOSE_TAG ProposedPlan].
Definition map_plan_segment (segment : TaggedLineSegment PlanTag) : ProposedPlanSegment :=
  match segment with
  | Normal text => PlanNormal text
  | TagStart ProposedPlan => ProposedPlanStart
  | TagDelta ProposedPlan text => ProposedPlanDelta text
  | TagEnd ProposedPlan => ProposedPlanEnd
  end.
Definition plan_parse (delta : str) (p : TaggedLineParser PlanTag) : TaggedLineParser PlanTag * list ProposedPlanSegment :=
  let '(p, segments) := parse delta p in (p, map_plan_segment <$> segments).
Definition plan_finish (p : TaggedLineParser PlanTag) : TaggedLineParser PlanTag * list ProposedPlanSegment :=
  let '(p, segments) := finish p in (p, map_plan_segment <$> segments).
Definition plan_stream (deltas : list str) : list ProposedPlanSegment := map_plan_segment <$> stream deltas plan_parser_new.

Definition strip_proposed_plan_blocks (text : str) : str :=
  let '(p, segments) := plan_parse text plan_parser_new in
  foldl (fun out segment => match segment with PlanNormal delta => out ++ delta | _ => out end) [] (segments ++ (plan_finish p).2).

(** The text of the last block, and whether there is one. *)
Definition plan_step (acc : bool * str) (segment : ProposedPlanSegment) : bool * str :=
  match segment with
  | ProposedPlanStart => (true, [])
  | ProposedPlanDelta delta => (acc.1, acc.2 ++ delta)
  | ProposedPlanEnd | PlanNormal _ => acc
  end.
Definition extract_proposed_plan_text (text : str) : option str :=
  let '(p, segments) := plan_parse text plan_parser_new in
  let '(saw_plan_block, plan_text) := foldl plan_step (false, []) (segments ++ (plan_finish p).2) in
  if saw_plan_block : bool then Some plan_text else None.

(** ** Streamed tag blocks are those of the whole text

    The pieces that a text comes in make no difference: what is streamed of it is what
    reading the whole text line by line gives. *)

Section Reference.
Context {T : Type} `{EqDecision T}.
Variable tag_specs : list (TagSpec T).

(** A character with the block it is in, and the ends of blocks. *)
Inductive token : Type := TText (block : option T) (c : char) | TOpen (t : T) | TClose (t : T).
Definition text_tokens (block : option T) (s : str) : list token := TText block <$> s.
Definition segment_tokens (s : TaggedLineSegment T) : list token :=
  match s with
  | Normal text => text_tokens None text
  | TagStart t => [TOpen t]
  | TagDelta t text => text_tokens (Some t) text
  | TagEnd t => [TClose t]
  end.
Definition tokens (l : list (TaggedLineSegment T)) : list token := l ≫= segment_tokens.

(** The lines of a text, each with its line feed. *)
Fixpoint lines_of (s : str) : list str :=
  match s with
  | [] => []
  | c :: s =>
      if bool_decide (c = LF) then [LF] :: lines_of s
      else match lines_of s with [] => [[c]] | l :: ls => (c :: l) :: ls end
  end.

(** The whole text, line by line, [block] being open: a line that is the opening tag of a block
    opens it where none is, the closing tag of the open block closes it, and any other line is text. *)
Definition whole_line (block : option T) (line : str) : line_kind T := kind_of_line (mk_parser tag_specs block true []) line.
Fixpoint by_lines (block : option T) (ls : list str) : list token :=
  match ls with
  | [] => match block with Some t => [TClose t] | None => [] end
  | line :: ls =>
      match whole_line block line with
      | Opens t => TOpen t :: by_lines (Some t) ls
      | Closes t => TClose t :: by_lines None ls
      | Plain => text_tokens block line ++ by_lines block ls
      end
  end.

Lemma lines_of_app b s : LF ∉ b -> lines_of (b ++ LF :: s) = (b ++ [LF]) :: lines_of s.
Proof.
  induction b as [|c b IH]; intros Hb; [done|]. apply not_elem_of_cons in Hb as [Hc Hb]. simpl.
  rewrite bool_decide_eq_false_2 by done. by rewrite IH.
Qed.
Lemma lines_of_last b : LF ∉ b -> b <> [] -> lines_of b = [b].
Proof.
  induction b as [|c b IH]; intros Hb Hne; [done|]. apply not_elem_of_cons in Hb as [Hc Hb]. simpl.
  rewrite bool_decide_eq_false_2 by done. destruct b; [done|]. by rewrite IH.
Qed.

Lemma tokens_app l1 l2 : tokens (l1 ++ l2) = tokens l1 ++ tokens l2.
Proof. apply bind_app. Qed.
Lemma tokens_one x : tokens [x] = segment_tokens x.
Proof. unfold tokens. simpl. by rewrite app_nil_r. Qed.
Lemma text_tokens_app block s r : text_tokens block (s ++ r) = text_tokens block s ++ text_tokens block r.
Proof. apply fmap_app. Qed.
Lemma push_segment_tokens l s : tokens (push_segment l s) = tokens l ++ segment_tokens s.
Proof.
  destruct s as [text|t|t text|t]; simpl; try (by rewrite tokens_app, tokens_one); case_bool_decide as E; try (subst; by rewrite app_nil_r);
    (destruct l as [|x l _] using rev_ind; [apply tokens_one|]); rewrite last_snoc; destruct x; try (by rewrite tokens_app, tokens_one);
    try case_bool_decide; subst; rewrite ?removelast_last, !tokens_app, !tokens_one; simpl; rewrite ?text_tokens_app; by rewrite ?(assoc (++)).
Qed.
Lemma push_text_tokens p text l : tokens (push_text p text l) = tokens l ++ text_tokens (active_tag p) text.
Proof. unfold push_text. rewrite push_segment_tokens. by destruct (active_tag p). Qed.

(** What is still to come of a text. *)
Fixpoint rest_of_line (block : option T) (s : str) : list token :=
  match s with
  | [] => match block with Some t => [TClose t] | None => [] end
  | c :: s => TText block c :: if bool_decide (c = LF) then by_lines block (lines_of s) else rest_of_line block s
  end.
Definition to_come (p : TaggedLineParser T) (s : str) : list token :=
  if detect_tag p then by_lines (active_tag p) (lines_of (line_buffer p ++ s)) else rest_of_line (active_tag p) s.

Record parser_ok (p : TaggedLineParser T) : Prop := mk_parser_ok {
  ok_specs : specs p = tag_specs;
  ok_line : LF ∉ line_buffer p;
  ok_buffer : detect_tag p = false -> line_buffer p = [];
}.

(** ** A line whose beginning is not that of a tag *)
Definition viable (s : str) : Prop :=
  trim_start s = [] \/ is_tag_prefix (mk_parser tag_specs None true []) (trim_start s) = true.

Lemma trim_start_app s r : trim_start s <> [] -> trim_start (s ++ r) = trim_start s ++ r.
Proof. unfold trim_start. induction s as [|c s IH]; simpl; [done|]. by destruct (is_whitespace c). Qed.
Lemma trim_end_app s r : exists q, trim_end (s ++ r) = trim_end s ++ q.
Proof.
  unfold trim_end. induction r as [|c r IH] using rev_ind; [exists []; by rewrite !app_nil_r|].
  rewrite (app_assoc s r [c]). destruct (is_whitespace c) eqn:E; [by rewrite drop_while_end_snoc|].
  rewrite drop_while_end_last by done. destruct (drop_while_end_prefix is_whitespace s) as [w Hw].
  exists (w ++ r ++ [c]). by rewrite (app_assoc _ w), <-Hw, app_assoc.
Qed.

Lemma match_open_Some (p : TaggedLineParser T) slug t : match_open p slug = Some t -> exists spec, spec ∈ specs p /\ tag_open spec = slug.
Proof.
  unfold match_open. intros (spec & H & _)%fmap_Some. exists spec.
  apply head_Some_elem_of, list_elem_of_filter in H. tauto.
Qed.
Lemma match_close_Some (p : TaggedLineParser T) slug t : match_close p slug = Some t -> exists spec, spec ∈ specs p /\ tag_close spec = slug.
Proof.
  unfold match_close. intros (spec & H & _)%fmap_Some. exists spec.
  apply head_Some_elem_of, list_elem_of_filter in H. tauto.
Qed.

Lemma prefix_of_tag spec slug b r :
  spec ∈ tag_specs -> tag_open spec = slug \/ tag_close spec = slug -> slug = trim_end (trim_start (b ++ r)) -> viable b.
Proof.
  intros Hin Hslug Heq. destruct (decide (trim_start b = [])) as [|Hne]; [by left|right].
  rewrite trim_start_app in Heq by done. destruct (trim_end_app (trim_start b) r) as [q Hq]. rewrite Hq in Heq.
  apply existsb_exists. exists spec. split; [by apply list_elem_of_In|]. apply orb_true_iff. rewrite !starts_with_true.
  destruct Hslug as [->| ->]; [left|right]; by exists q.
Qed.

Lemma strip_lf l : LF ∉ l -> default l (strip_suffix [LF] l) = l.
Proof.
  intros Hl. destruct (strip_suffix [LF] l) as [r|] eqn:E; [|done]. apply strip_suffix_Some in E. subst. set_solver.
Qed.
Lemma strip_lf_snoc l : default (l ++ [LF]) (strip_suffix [LF] (l ++ [LF])) = l.
Proof. assert (strip_suffix [LF] (l ++ [LF]) = Some l) as -> by by apply strip_suffix_Some. done. Qed.

Lemma not_viable_plain block b r line : ~ viable b -> default line (strip_suffix [LF] line) = b ++ r -> whole_line block line = Plain.
Proof.
  intros Hb Hline. unfold whole_line, kind_of_line. rewrite Hline.
  destruct (match_open _ _) as [t|] eqn:Ho.
  - apply match_open_Some in Ho as (spec & Hin & Ho). destruct Hb. eapply prefix_of_tag; [done|by left|done].
  - destruct (match_close _ _) as [t|] eqn:Hc; [|done].
    apply match_close_Some in Hc as (spec & Hin & Hc). destruct Hb. eapply prefix_of_tag; [done|by right|done].
Qed.

(** A line that is given up as a tag is text up to its end. *)
Lemma by_lines_plain block b s :
  ~ viable b -> b <> [] -> LF ∉ b -> by_lines block (lines_of (b ++ s)) = text_tokens block b ++ rest_of_line block s.
Proof.
  intros Hv Hne Hb. enough (forall r, LF ∉ r ->
    by_lines block (lines_of ((b ++ r) ++ s)) = text_tokens block (b ++ r) ++ rest_of_line block s) as H.
  { specialize (H []). rewrite app_nil_r in H. apply H. set_solver. }
  induction s as [|c s IH]; intros r Hr.
  - rewrite app_nil_r, lines_of_last by (set_solver || by destruct b). simpl.
    by rewrite (not_viable_plain block b r) by (done || (rewrite strip_lf; set_solver)).
  - simpl. case_bool_decide as Hc.
    + subst c. rewrite lines_of_app by set_solver. cbn [by_lines].
      rewrite (not_viable_plain block b r) by (done || apply strip_lf_snoc). by rewrite text_tokens_app, <-(assoc (++)).
    + replace ((b ++ r) ++ c :: s) with ((b ++ r ++ [c]) ++ s) by by rewrite <-!app_assoc.
      rewrite IH by set_solver. by rewrite !text_tokens_app, <-!app_assoc.
Qed.

(** ** The parser reads the whole text *)
Lemma whole_line_kind p line : specs p = tag_specs -> kind_of_line p line = whole_line (active_tag p) line.
Proof. intros Hs. unfold whole_line, kind_of_line, match_open, match_close. simpl. by rewrite Hs. Qed.
Lemma viable_ok p slug : specs p = tag_specs -> is_tag_prefix p slug = is_tag_prefix (mk_parser tag_specs None true []) slug.
Proof. intros Hs. unfold is_tag_prefix. simpl. by rewrite Hs. Qed.

(** A line is taken as a whole, or given out as text once it cannot be a tag. *)
Lemma take_line_tokens p l :
  specs p = tag_specs -> let '(p', l') := take_line p l in
  specs p' = tag_specs /\ line_buffer p' = [] /\ detect_tag p' = detect_tag p /\
  forall ls, tokens l' ++ by_lines (active_tag p') ls = tokens l ++ by_lines (active_tag p) (line_buffer p :: ls).
Proof.
  intros Hs. unfold take_line. cbn [by_lines]. rewrite <-(whole_line_kind p (line_buffer p)) by done.
  replace (kind_of_line (set_buffer [] p) (line_buffer p)) with (kind_of_line p (line_buffer p)) by done.
  destruct (kind_of_line p (line_buffer p)) as [t|t|]; simpl; (split; [done|]); (split; [done|]); (split; [done|]); intros ls.
  - by rewrite tokens_app, tokens_one, <-app_assoc.
  - by rewrite tokens_app, tokens_one, <-app_assoc.
  - by rewrite push_text_tokens, <-app_assoc.
Qed.

Lemma parse_loop_tokens delta : forall p run l, parser_ok p -> (detect_tag p = true -> run = []) ->
  let '(p', run', l') := parse_loop delta p run l in
  parser_ok p' /\ (detect_tag p' = true -> run' = []) /\
  forall s, tokens l' ++ text_tokens (active_tag p') run' ++ to_come p' s = tokens l ++ text_tokens (active_tag p) run ++ to_come p (delta ++ s).
Proof.
  induction delta as [|c delta IH]; intros p run l Hok Hrun; [done|]. cbn [parse_loop].
  destruct Hok as [Hs Hlf Hbuf]. destruct (detect_tag p) eqn:Hd.
  - rewrite (Hrun eq_refl), (bool_decide_eq_true_2 ([] = [])) by done. case_bool_decide as Hc; [|destruct (_ || _) eqn:Hv].
    + subst c. unfold finish_line. pose proof (take_line_tokens (set_buffer (line_buffer p ++ [LF]) p) l Hs) as Htake.
      destruct (take_line _ l) as [p1 l1]. destruct Htake as (Hs1 & Hb1 & _ & Htok).
      specialize (IH (set_detect true p1) [] l1). destruct (parse_loop delta (set_detect true p1) [] l1) as [[p' run'] l'].
      destruct IH as (Hok & Hrun' & Heq); [by constructor; simpl; rewrite ?Hb1; [|set_solver|]|done|]. split; [done|]. split; [done|].
      intros s. rewrite Heq. unfold to_come. simpl. rewrite Hd, Hb1. simpl. rewrite Htok. simpl. by rewrite lines_of_app.
    + specialize (IH (set_buffer (line_buffer p ++ [c]) p) [] l). destruct (parse_loop delta _ [] l) as [[p' run'] l'].
      destruct IH as (Hok & Hrun' & Heq); [constructor; simpl; [done|set_solver|congruence]|done|]. split; [done|]. split; [done|].
      intros s. rewrite Heq. unfold to_come. simpl. rewrite Hd. by rewrite <-app_assoc.
    + set (p2 := set_detect false (set_buffer [] _)). specialize (IH p2 [] (push_text p2 (line_buffer p ++ [c]) l)).
      simpl line_buffer. destruct (parse_loop delta p2 [] _) as [[p' run'] l'].
      destruct IH as (Hok & Hrun' & Heq); [constructor; simpl; [done|set_solver|done]|done|]. split; [done|]. split; [done|].
      intros s. rewrite Heq, push_text_tokens. unfold to_come. simpl. rewrite Hd. simpl.
      replace (line_buffer p ++ c :: delta ++ s) with ((line_buffer p ++ [c]) ++ delta ++ s) by by rewrite <-app_assoc.
      rewrite by_lines_plain; [by rewrite <-app_assoc| |by destruct (line_buffer p)|set_solver].
      apply orb_false_iff in Hv as [Hv1%bool_decide_eq_false Hv2]. rewrite viable_ok in Hv2 by done. intros [Hv|Hv]; [done|]. simpl in Hv2. by rewrite Hv2 in Hv.
  - specialize (Hbuf eq_refl). case_bool_decide as Hc.
    + subst c. specialize (IH (set_detect true p) [] (push_text p (run ++ [LF]) l)). destruct (parse_loop delta _ [] _) as [[p' run'] l'].
      destruct IH as (Hok & Hrun' & Heq); [by constructor|done|]. split; [done|]. split; [done|].
      intros s. rewrite Heq, push_text_tokens, text_tokens_app. unfold to_come. simpl. rewrite Hd, Hbuf. by rewrite <-!app_assoc.
    + specialize (IH p (run ++ [c]) l). destruct (parse_loop delta _ _ _) as [[p' run'] l'].
      destruct IH as (Hok & Hrun' & Heq); [by constructor|by rewrite Hd|]. split; [done|]. split; [done|].
      intros s. rewrite Heq, text_tokens_app. unfold to_come. simpl. rewrite Hd, bool_decide_eq_false_2 by done. by rewrite <-!app_assoc.
Qed.

Lemma parse_tokens delta p :
  parser_ok p -> parser_ok (parse delta p).1 /\ forall s, tokens (parse delta p).2 ++ to_come (parse delta p).1 s = to_come p (delta ++ s).
Proof.
  intros Hok. unfold parse. pose proof (parse_loop_tokens delta p [] [] Hok (fun _ => eq_refl)) as H.
  destruct (parse_loop delta p [] []) as [[p' run] l]. destruct H as (Hok' & _ & Heq). split; [done|]. intros s.
  specialize (Heq s). simpl in *. case_bool_decide as Hr; [by rewrite Hr in Heq|]. by rewrite push_text_tokens, <-app_assoc.
Qed.
Lemma finish_tokens p : parser_ok p -> tokens (finish p).2 = to_come p [].
Proof.
  intros [Hs Hlf Hbuf]. unfold finish, to_come. rewrite app_nil_r.
  assert (Hend : forall p' l, tokens (match active_tag p' with Some t => l ++ [TagEnd t] | None => l end) = tokens l ++ by_lines (active_tag p') []).
  { intros p' l. destruct (active_tag p'); [by rewrite tokens_app, tokens_one|simpl; by rewrite app_nil_r]. }
  case_bool_decide as Hb; simpl.
  - rewrite Hb. simpl. by destruct (active_tag p), (detect_tag p).
  - pose proof (take_line_tokens p [] Hs) as H. destruct (take_line p []) as [p' l]. destruct H as (_ & _ & _ & Htok). simpl. rewrite Hend, Htok.
    destruct (detect_tag p); [|by rewrite Hbuf in Hb]. by rewrite lines_of_last.
Qed.
Lemma stream_tokens deltas p : parser_ok p -> tokens (stream deltas p) = to_come p (concat deltas).
Proof.
  revert p. induction deltas as [|delta deltas IH]; intros p Hok; cbn [stream concat]; [by apply finish_tokens|].
  destruct (parse_tokens delta p Hok) as [Hok' Heq]. destruct (parse delta p) as [p' l]. simpl in *. by rewrite tokens_app, IH.
Qed.

Lemma streamed_as_whole_of deltas : tokens (stream deltas (parser_new tag_specs)) = by_lines None (lines_of (concat deltas)).
Proof. rewrite stream_tokens by (constructor; simpl; [done|set_solver|done]). done. Qed.

(** C22. However the text of the model is cut into pieces, what is streamed of it is what the whole text says
    read line by line: the same characters, in the same blocks, with the same beginnings and ends of blocks between them, the
    block that is open at the end closed; no character is lost, doubled or held back at the end. *)
Theorem streamed_as_whole (deltas : list str) : tokens (stream deltas (parser_new tag_specs)) = by_lines None (lines_of (concat deltas)).
Proof. apply streamed_as_whole_of. Qed.
End Reference.

(** ** Plans *)
Definition token_step (acc : bool * str) (t : token (T := PlanTag)) : bool * str :=
  match t with TOpen _ => (true, []) | TText (Some _) c => (acc.1, acc.2 ++ [c]) | _ => acc end.
Definition normal_char (t : token (T := PlanTag)) : str := match t with TText None c => [c] | _ => [] end.
Definition normal_text (s : ProposedPlanSegment) : str := match s with PlanNormal text => text | _ => [] end.

Lemma text_tokens_step (t : PlanTag) text acc : foldl token_step acc (text_tokens (Some t) text) = (acc.1, acc.2 ++ text).
Proof.
  revert acc. induction text as [|c text IH]; intros [saw plan]; simpl; [by rewrite app_nil_r|]. fold (text_tokens (Some t) text).
  rewrite IH. simpl. by rewrite <-app_assoc.
Qed.
Lemma plan_steps_tokens l acc : foldl plan_step acc (map_plan_segment <$> l) = foldl token_step acc (tokens l).
Proof.
  revert acc. induction l as [|s l IH]; intros acc; [done|]. rewrite fmap_cons. simpl foldl at 1. rewrite IH.
  change (s :: l) with ([s] ++ l). rewrite tokens_app, tokens_one, foldl_app. f_equal.
  destruct s as [text|[]|[] text|[]]; simpl; [|done|by rewrite text_tokens_step|done].
  induction text as [|c text IHt]; [done|]. simpl. apply IHt.
Qed.
Lemma normal_tokens l : (map_plan_segment <$> l) ≫= normal_text = tokens l ≫= normal_char.
Proof.
  induction l as [|s l IH]; [done|]. rewrite fmap_cons, bind_cons, IH.
  change (s :: l) with ([s] ++ l). rewrite tokens_app, tokens_one, bind_app. f_equal.
  assert (Htext : forall block text, text_tokens block text ≫= normal_char = match block with None => text | Some _ => [] end).
  { intros block text. induction text as [|c text IHt]; [by destruct block|]. unfold text_tokens. rewrite fmap_cons, bind_cons. unfold text_tokens in IHt.
    rewrite IHt. by destruct block. }
  destruct s as [text|[]|[] text|[]]; simpl; rewrite ?Htext; done.
Qed.

Lemma strip_normal text : strip_proposed_plan_blocks text = plan_stream [text] ≫= normal_text.
Proof.
  unfold strip_proposed_plan_blocks, plan_stream, plan_parse, plan_finish. simpl. destruct (parse text plan_parser_new) as [p l].
  destruct (finish p) as [p' l']. simpl. rewrite <-fmap_app.
  enough (forall ss out, foldl (fun out s => match s with PlanNormal delta => out ++ delta | _ => out end) out ss = out ++ (ss ≫= normal_text)) as H by by rewrite H.
  induction ss as [|s ss IH]; intros out; [by rewrite app_nil_r|]. rewrite bind_cons. simpl. rewrite IH.
  destruct s; simpl; [by rewrite app_assoc|done..].
Qed.
Lemma extract_steps text :
  extract_proposed_plan_text text = (let '(saw, plan) := foldl plan_step (false, []) (plan_stream [text]) in if saw : bool then Some plan else None).
Proof.
  unfold extract_proposed_plan_text, plan_stream, plan_parse, plan_finish. simpl. destruct (parse text plan_parser_new) as [p l].
  destruct (finish p) as [p' l']. simpl. by rewrite <-fmap_app.
Qed.


Lemma example_plan :
  plan_stream [lit "Intro" ++ [LF] ++ lit "<prop"; lit "osed_plan> " ++ [LF] ++ lit "- step" ++ [LF]; lit "</proposed_plan>"] =
  [PlanNormal (lit "Intro" ++ [LF]); ProposedPlanStart; ProposedPlanDelta (lit "- step" ++ [LF]); ProposedPlanEnd].
Proof. reflexivity. Qed.
