(* ===== verification/MentionCodec.v ===== *)
(** * Mentions in the history of prompts (tui/src/mention_codec.rs)

    A mention [$name] of a tool or a skill is kept in the history as a link with the path
    it stands for, and comes back as the mention and its path.  The positions of the code, which are of
    bytes, are the texts from them on: all bytes that are looked for are ASCII, so that
    each position is the beginning of a character. *)

From stdpp Require Import gmap.
From S2P Require Import Prelude RustStd ShellWrap.

Record LinkedMention : Type := mk_mention { mention : str; path : str }.
Record DecodedHistoryText : Type := mk_decoded { text : str; mentions : list LinkedMention }.

Definition DOLLAR : char := 36%N.
Definition LBRACKET : char := 91%N.
Definition RBRACKET : char := 93%N.
Definition LPAREN : char := 40%N.
Definition RPAREN : char := 41%N.

Definition is_mention_name_char (c : char) : bool :=
  is_ascii_alphabetic c || is_ascii_digit c || bool_decide (c = 95%N) || bool_decide (c = 45%N).

(** The longest beginning whose characters are such, and what follows. *)
Fixpoint span {A} (f : A -> bool) (l : list A) : list A * list A :=
  match l with
  | [] => ([], [])
  | x :: l => if f x then let '(a, b) := span f l in (x :: a, b) else ([], x :: l)
  end.

Definition ascii_upper (c : char) : char := if bool_decide (97 <= c <= 122)%N then (c - 32)%N else c.
Definition COMMON_ENV_VARS : list str :=
  [lit "PATH"; lit "HOME"; lit "USER"; lit "SHELL"; lit "PWD"; lit "TMPDIR"; lit "TEMP"; lit "TMP"; lit "LANG"; lit "TERM"; lit "XDG_CONFIG_HOME"].
Definition is_common_env_var (name : str) : bool := bool_decide ((ascii_upper <$> name) ∈ COMMON_ENV_VARS).

(** What follows the last separator, [rsplit(['/', '\\']).next()]. *)
Definition after_last_separator (p : str) : str :=
  foldl (fun acc c => if bool_decide (c = SLASH) || bool_decide (c = 92%N) then [] else acc ++ [c]) [] p.
Definition is_tool_path (p : str) : bool :=
  starts_with (lit "app://") p || starts_with (lit "mcp://") p || starts_with (lit "skill://") p
  || eq_ignore_ascii_case (after_last_separator p) (lit "SKILL.md").

(** The paths of each name, first come first. *)
Definition mentions_by_name (l : list LinkedMention) : gmap str (list str) :=
  foldl (fun m x => <[mention x := default [] (m !! mention x) ++ [path x]]> m) ∅ l.

Definition link (name p : str) : str := [LBRACKET; DOLLAR] ++ name ++ [RBRACKET; LPAREN] ++ p ++ [RPAREN].

Fixpoint encode_loop (fuel : nat) (s : str) (queue : gmap str (list str)) (out : str) : outcome unit str :=
  match s with
  | [] => Ok out
  | c :: rest =>
      match fuel with
      | O => Timeout
      | S fuel =>
          let plain := encode_loop fuel rest queue (out ++ [c]) in
          if bool_decide (c = DOLLAR) then
            match span is_mention_name_char rest with
            | ([], _) => plain
            | (name, after) =>
                match queue !! name with
                | Some (p :: ps) => encode_loop fuel after (<[name := ps]> queue) (out ++ link name p)
                | _ => plain
                end
            end
          else plain
      end
  end.
Definition encode_history_mentions (text : str) (mentions : list LinkedMention) : outcome unit str :=
  if bool_decide (mentions = []) || bool_decide (text = []) then Ok text
  else encode_loop (length text) text (mentions_by_name mentions) [].

Definition is_ascii_whitespace (c : char) : bool := bool_decide (c ∈ [32; 9; 10; 12; 13]%N).

(** Of a text after [[]: the name and the path of a link, and what follows it. *)
Definition parse_linked_tool_mention (s : str) : option (str * str * str) :=
  match s with
  | c :: s =>
      if bool_decide (c = DOLLAR) then
        match span is_mention_name_char s with
        | ([], _) => None
        | (name, after_name) =>
            match after_name with
            | c :: after_bracket =>
                if bool_decide (c = RBRACKET) then
                  match snd (span is_ascii_whitespace after_bracket) with
                  | c :: in_parens =>
                      if bool_decide (c = LPAREN) then
                        match span (fun c => bool_decide (c <> RPAREN)) in_parens with
                        | (raw, _ :: rest) => let p := trim raw in if bool_decide (p = []) then None else Some (name, p, rest)
                        | (_, []) => None
                        end
                      else None
                  | [] => None
                  end
                else None
            | [] => None
            end
        end
      else None
  | [] => None
  end.

Fixpoint decode_loop (fuel : nat) (s : str) (out : str) (found : list LinkedMention) : outcome unit DecodedHistoryText :=
  match s with
  | [] => Ok (mk_decoded out found)
  | c :: rest =>
      match fuel with
      | O => Timeout
      | S fuel =>
          let plain := decode_loop fuel rest (out ++ [c]) found in
          if bool_decide (c = LBRACKET) then
            match parse_linked_tool_mention rest with
            | Some (name, p, after) =>
                if negb (is_common_env_var name) && is_tool_path p then decode_loop fuel after (out ++ [DOLLAR] ++ name) (found ++ [mk_mention name p])
                else plain
            | None => plain
            end
          else plain
      end
  end.
Definition decode_history_mentions (text : str) : outcome unit DecodedHistoryText := decode_loop (length text) text [] [].

(** ** What comes back *)

Lemma span_app {A} (f : A -> bool) l : l = (span f l).1 ++ (span f l).2.
Proof. induction l as [|x l IH]; simpl; [done|]. destruct (f x); [|done]. destruct (span f l). simpl in *. by rewrite <-IH. Qed.
Lemma span_all {A} (f : A -> bool) l : Forall (fun x => f x = true) (span f l).1.
Proof. induction l as [|x l IH]; simpl; [by apply Forall_nil|]. destruct (f x) eqn:E; [|by apply Forall_nil]. destruct (span f l). by apply Forall_cons. Qed.
Lemma span_stop {A} (f : A -> bool) l x r : Forall (fun x => f x = true) l -> f x = false -> span f (l ++ x :: r) = (l, x :: r).
Proof.
  intros Hl Hx. induction Hl as [|y l Hy _ IH]; simpl; [by rewrite Hx|]. by rewrite Hy, IH.
Qed.

Definition prefixed (s : str) (found : list LinkedMention) (d : DecodedHistoryText) : DecodedHistoryText := mk_decoded (s ++ text d) (found ++ mentions d).

Lemma parse_linked_shorter s name p rest : parse_linked_tool_mention s = Some (name, p, rest) -> length rest < length s.
Proof.
  unfold parse_linked_tool_mention. destruct s as [|c s]; [done|]. case_bool_decide; [|done].
  pose proof (f_equal length (span_app is_mention_name_char s)) as HA. destruct (span is_mention_name_char s) as [[|n nm] [|c1 l1]]; try done.
  case_bool_decide; [|done]. pose proof (f_equal length (span_app is_ascii_whitespace l1)) as HB.
  destruct (span is_ascii_whitespace l1) as [ws [|c2 l2]]; [done|]. simpl. case_bool_decide; [|done].
  pose proof (f_equal length (span_app (fun c => bool_decide (c <> RPAREN)) l2)) as HC. destruct (span _ l2) as [raw [|c3 l3]]; [done|].
  case_bool_decide; [done|]. intros [= _ _ <-]. rewrite length_app in *. simpl in *. lia.
Qed.

(** The fuel is enough, and what was decoded before does not matter. *)
Lemma decode_loop_more fuel : forall s out found, length s <= fuel ->
  exists d, decode_history_mentions s = Ok d /\ decode_loop fuel s out found = Ok (prefixed out found d).
Proof.
  enough (forall n fuel s, length s <= n -> n <= fuel -> exists d, forall out found, decode_loop fuel s out found = Ok (prefixed out found d) /\
    decode_loop n s out found = Ok (prefixed out found d)) as H.
  { intros s out found Hle. destruct (H (length s) fuel s ltac:(lia) Hle) as [d Hd]. exists d. split; [|apply Hd].
    unfold decode_history_mentions. destruct (Hd [] []) as [_ ->]. by destruct d. }
  induction n as [|n IH]; intros fuel' s Hs Hf.
  - destruct s; [|simpl in Hs; lia]. exists (mk_decoded [] []). intros out found. unfold prefixed. simpl. rewrite !app_nil_r. by destruct fuel'.
  - destruct s as [|c s]; [exists (mk_decoded [] []); intros out found; unfold prefixed; simpl; rewrite !app_nil_r; by destruct fuel'|].
    destruct fuel' as [|fuel']; [lia|]. simpl in Hs. destruct (IH fuel' s) as [d Hd]; [lia..|].
    assert (Hplain : exists d, forall out found, decode_loop fuel' s (out ++ [c]) found = Ok (prefixed out found d) /\ decode_loop n s (out ++ [c]) found = Ok (prefixed out found d)).
    { exists (mk_decoded (c :: text d) (mentions d)). intros out found. destruct (Hd (out ++ [c]) found) as [-> ->].
      unfold prefixed. simpl. by rewrite <-app_assoc. }
    cbn [decode_loop]. case_bool_decide; [|done]. destruct (parse_linked_tool_mention s) as [[[name p] after]|] eqn:E; [|done].
    destruct (_ && _); [|done]. apply parse_linked_shorter in E. destruct (IH fuel' after) as [d' Hd']; [lia..|].
    exists (mk_decoded (DOLLAR :: name ++ text d') (mk_mention name p :: mentions d')). intros out found.
    destruct (Hd' (out ++ [DOLLAR] ++ name) (found ++ [mk_mention name p])) as [-> ->]. unfold prefixed. simpl. by rewrite <-!app_assoc.
Qed.

Lemma decode_history_returns s : exists d, decode_history_mentions s = Ok d.
Proof. destruct (decode_loop_more (length s) s [] []) as (d & Hd & _); [done|by exists d]. Qed.
Lemma decode_cons c s d : c <> LBRACKET -> decode_history_mentions s = Ok d -> decode_history_mentions (c :: s) = Ok (prefixed [c] [] d).
Proof.
  intros Hc Hd. unfold decode_history_mentions. simpl. rewrite bool_decide_eq_false_2 by done.
  destruct (decode_loop_more (length s) s [c] []) as (d' & Hd' & ->); [done|]. rewrite Hd in Hd'. by injection Hd' as <-.
Qed.

Record link_ok (m : LinkedMention) : Prop := mk_link_ok {
  link_not_env : is_common_env_var (mention m) = false;
  link_path : is_tool_path (path m) = true;
  link_trimmed : trim (path m) = path m;
  link_not_empty : path m <> [];
  link_no_paren : RPAREN ∉ path m;
}.

Lemma decode_link name p s d :
  name <> [] -> Forall (fun c => is_mention_name_char c = true) name -> link_ok (mk_mention name p) ->
  decode_history_mentions s = Ok d -> decode_history_mentions (link name p ++ s) = Ok (prefixed (DOLLAR :: name) [mk_mention name p] d).
Proof.
  intros Hne Hname [Henv Hpath Htrim Hp Hparen] Hd. simpl in Henv, Hpath, Htrim, Hp, Hparen.
  assert (Hlink : parse_linked_tool_mention (tail (link name p ++ s)) = Some (name, p, s)).
  { unfold link. simpl. rewrite <-!app_assoc. simpl. rewrite span_stop by done. destruct name as [|n name]; [done|].
    replace (is_ascii_whitespace LPAREN) with false by done. simpl. rewrite <-app_assoc. simpl.
    rewrite span_stop; [by rewrite Htrim, bool_decide_eq_false_2| |done].
    apply Forall_forall. intros c Hc. apply bool_decide_eq_true. by intros ->. }
  unfold decode_history_mentions. destruct (link name p ++ s) as [|c rest] eqn:Erest; [done|]. assert (c = LBRACKET) as -> by by injection Erest.
  assert (length s <= length rest) as Hlen by (apply (f_equal length) in Erest; rewrite length_app in Erest; simpl in Erest; rewrite length_app in Erest; simpl in Erest; lia).
  simpl in Hlink. cbn [length decode_loop]. rewrite Hlink, Henv, Hpath. simpl.
  destruct (decode_loop_more (length rest) s (DOLLAR :: name) [mk_mention name p]) as (d' & Hd' & ->); [|rewrite Hd in Hd'; by injection Hd' as <-]. done.
Qed.

(** The names that follow a dollar sign. *)
Fixpoint names_after (s : str) : list str :=
  match s with
  | [] => []
  | c :: s =>
      if bool_decide (c = DOLLAR) then match (span is_mention_name_char s).1 with [] => names_after s | name => name :: names_after s end
      else names_after s
  end.
(** The mentions that a text has of those there are: each name in turn gets the next of its paths. *)
Fixpoint assign (names : list str) (queue : gmap str (list str)) : list LinkedMention :=
  match names with
  | [] => []
  | name :: names =>
      match queue !! name with
      | Some (p :: ps) => mk_mention name p :: assign names (<[name := ps]> queue)
      | _ => assign names queue
      end
  end.

Lemma names_after_skip name s : Forall (fun c => is_mention_name_char c = true) name -> names_after (name ++ s) = names_after s.
Proof.
  induction 1 as [|c name Hc _ IH]; [done|]. simpl. rewrite bool_decide_eq_false_2 by (by intros ->). done.
Qed.

Definition queue_ok (queue : gmap str (list str)) : Prop := forall name ps, queue !! name = Some ps -> Forall (fun p => link_ok (mk_mention name p)) ps.

Lemma encode_loop_decodes fuel : forall s queue out, length s <= fuel -> LBRACKET ∉ s -> queue_ok queue ->
  exists e, encode_loop fuel s queue out = Ok (out ++ e) /\ decode_history_mentions e = Ok (mk_decoded s (assign (names_after s) queue)).
Proof.
  induction fuel as [|fuel IH]; intros [|c s] queue out Hf Hs Hq; try (simpl in Hf; lia); try (exists []; by rewrite app_nil_r).
  apply not_elem_of_cons in Hs as [Hc Hs]. simpl in Hf. cbn [encode_loop names_after].
  assert (Hplain : exists e, encode_loop fuel s queue (out ++ [c]) = Ok (out ++ e) /\
    decode_history_mentions e = Ok (mk_decoded (c :: s) (assign (names_after s) queue))).
  { destruct (IH s queue (out ++ [c])) as (e & -> & Hd); [lia|done..|]. exists (c :: e). rewrite <-app_assoc. split; [done|]. by apply decode_cons with (c := c) in Hd. }
  case_bool_decide as Hdollar; [|done]. subst c. pose proof (span_app is_mention_name_char s) as Happ. pose proof (span_all is_mention_name_char s) as Hall.
  destruct (span is_mention_name_char s) as [[|n name] after]; [done|]. cbn [fst snd] in *. cbn [assign].
  destruct (queue !! (n :: name)) as [[|p ps]|] eqn:E; [done| |done].
  pose proof (Hq _ _ E) as Hp. apply Forall_cons in Hp as [Hp Hps].
  destruct (IH after (<[n :: name := ps]> queue) (out ++ link (n :: name) p)) as (e & He & Hd).
  - apply (f_equal length) in Happ. rewrite length_app in Happ. simpl in Happ. lia.
  - rewrite Happ in Hs. by apply not_elem_of_app in Hs as [_ ?].
  - intros name' ps' H. apply lookup_insert_Some in H as [[<- <-]|[_ H]]; [done|]. by apply Hq in H.
  - exists (link (n :: name) p ++ e). split; [by rewrite <-app_assoc in He|].
    rewrite (decode_link (n :: name) p e _ ltac:(done) Hall Hp Hd). unfold prefixed. simpl. rewrite Happ at 2.
    rewrite names_after_skip by done. by rewrite Happ at 1.
Qed.

Lemma by_name_lookup (l : list LinkedMention) (m : gmap str (list str)) (name : str) :
  foldl (fun m x => <[mention x := default [] (m !! mention x) ++ [path x]]> m) m l !! name =
  match path <$> filter (fun x => mention x = name) l with [] => m !! name | ps => Some (default [] (m !! name) ++ ps) end.
Proof.
  revert m. induction l as [|x l IH]; intros m; [done|]. cbn [foldl]. rewrite IH, filter_cons. destruct (decide (mention x = name)) as [<-|Hne].
  - rewrite lookup_insert_eq. rewrite fmap_cons. destruct (path <$> _) eqn:E; [done|]. simpl. by rewrite <-app_assoc.
  - by rewrite lookup_insert_ne.
Qed.
Lemma mentions_by_name_ok l : Forall link_ok l -> queue_ok (mentions_by_name l).
Proof.
  intros Hl name ps. unfold mentions_by_name. rewrite by_name_lookup, lookup_empty. destruct (path <$> _) as [|p ps'] eqn:E; [done|].
  intros [= <-]. simpl. rewrite <-E. apply Forall_fmap, Forall_forall. intros x [Hx Hin]%list_elem_of_filter. subst name. simpl.
  rewrite Forall_forall in Hl. specialize (Hl x Hin). by destruct x.
Qed.


Definition demo_mentions : list LinkedMention := [mk_mention (lit "lint") (lit "skills/lint/SKILL.md"); mk_mention (lit "db") (lit "app://db")].

(** A bracket of the text before a mention may take the mention in. *)
Lemma bracket_takes_mention :
  (e ← encode_history_mentions (lit "[$a]($lint") [mk_mention (lit "lint") (lit "skills/lint/SKILL.md")]; decode_history_mentions e) =
  Ok (mk_decoded (lit "$a") [mk_mention (lit "a") (lit "[$lint](skills/lint/SKILL.md")]).
Proof. reflexivity. Qed.
