(* ===== verification/Streaming.v ===== *)
(** * Streaming of messages to the terminal (tui/src/streaming, tui/src/markdown_stream.rs)

    The text of a message is rendered whenever a line of it is complete; new lines wait in a
    queue, from which a tick takes one, or all when the queue is under pressure. *)

From stdpp Require Import list.
From S2P Require Import Prelude RustStd.

(** ** Lines ([ratatui], [render/line_utils.rs], [history_cell.rs])

    Styles are not looked into; the rendering of Markdown is a parameter. *)
Class Terminal : Type := {
  Style : Type;
  plain_style : Style;
  dim : Style;
  bold : Style;
  proposed_plan_style : Style;
}.

Section Lines.
Context `{Terminal}.

Record Span : Type := mk_span { span_content : str; span_style : Style }.
Record Line : Type := mk_line { spans : list Span; line_style : Style }.
Definition line_from (text : str) : Line := mk_line [mk_span text plain_style] plain_style.

Definition is_blank_line_spaces_only (line : Line) : bool := forallb (fun s => forallb (fun c => bool_decide (c = 32%N)) (span_content s)) (spans line).

Definition prefix_lines (lines : list Line) (initial_prefix subsequent_prefix : Span) : list Line :=
  imap (fun i l => mk_line ((if i =? 0 then initial_prefix else subsequent_prefix) :: spans l) (line_style l)) lines.
Definition with_style (s : Style) (l : Line) : Line := mk_line (spans l) s.

Inductive HistoryCell : Type :=
  | AgentMessageCell (lines : list Line) (is_first_line : bool)
  | ProposedPlanStreamCell (lines : list Line) (is_stream_continuation : bool).
End Lines.
Arguments Line : clear implicits.
Arguments Line {_}.
Arguments HistoryCell : clear implicits.
Arguments HistoryCell {_}.

(** ** The collector ([markdown_stream.rs]) *)
Section Collector.
Context `{Terminal}.
Variable append_markdown : str -> option nat -> list Line.

Record MarkdownStreamCollector : Type := mk_collector { buffer : str; committed_line_count : nat; width : option nat }.
Definition collector_new (width : option nat) : MarkdownStreamCollector := mk_collector [] 0 width.
Definition collector_clear (c : MarkdownStreamCollector) : MarkdownStreamCollector := mk_collector [] 0 (width c).
Definition push_delta (delta : str) (c : MarkdownStreamCollector) : MarkdownStreamCollector :=
  mk_collector (buffer c ++ delta) (committed_line_count c) (width c).

(** The text up to its last line feed, when it has one. *)
Fixpoint through_last_lf (s : str) : option str :=
  match s with
  | [] => None
  | c :: s => match through_last_lf s with Some r => Some (c :: r) | None => if bool_decide (c = LF) then Some [LF] else None end
  end.

Definition complete_line_count (rendered : list Line) : nat :=
  match last rendered with
  | Some line => if is_blank_line_spaces_only line then length rendered - 1 else length rendered
  | None => length rendered
  end.

Definition commit_complete_lines (c : MarkdownStreamCollector) : list Line * MarkdownStreamCollector :=
  match through_last_lf (buffer c) with
  | None => ([], c)
  | Some source =>
      let rendered := append_markdown source (width c) in
      let complete := complete_line_count rendered in
      if complete <=? committed_line_count c then ([], c)
      else (drop (committed_line_count c) (take complete rendered), mk_collector (buffer c) complete (width c))
  end.

Definition with_final_lf (s : str) : str := if ends_with [LF] s then s else s ++ [LF].
Definition finalize_and_drain (c : MarkdownStreamCollector) : list Line * MarkdownStreamCollector :=
  let rendered := append_markdown (with_final_lf (buffer c)) (width c) in
  let out := if length rendered <=? committed_line_count c then [] else drop (committed_line_count c) rendered in
  (out, collector_clear c).

(** ** The queue of lines ([streaming/mod.rs])

    Times are nanoseconds. *)
Abbreviation Instant := N (only parsing).
Abbreviation Duration := N (only parsing).

Record QueuedLine : Type := mk_queued { line : Line; enqueued_at : Instant }.
Record StreamState : Type := mk_stream_state { collector : MarkdownStreamCollector; queue : list QueuedLine; has_seen_delta : bool }.
Definition state_new (width : option nat) : StreamState := mk_stream_state (collector_new width) [] false.
Definition state_clear (s : StreamState) : StreamState := mk_stream_state (collector_clear (collector s)) [] false.
Definition step (s : StreamState) : list Line * StreamState :=
  (line <$> take 1 (queue s), mk_stream_state (collector s) (drop 1 (queue s)) (has_seen_delta s)).
Definition drain_n (max_lines : nat) (s : StreamState) : list Line * StreamState :=
  let e := max_lines `min` length (queue s) in
  (line <$> take e (queue s), mk_stream_state (collector s) (drop e (queue s)) (has_seen_delta s)).
Definition drain_all (s : StreamState) : list Line * StreamState :=
  (line <$> queue s, mk_stream_state (collector s) [] (has_seen_delta s)).
Definition is_idle (s : StreamState) : bool := bool_decide (queue s = []).
Definition queued_len (s : StreamState) : nat := length (queue s).
Definition oldest_queued_age (now : Instant) (s : StreamState) : option Duration := (fun q => now - enqueued_at q)%N <$> head (queue s).
Definition enqueue (now : Instant) (lines : list Line) (s : StreamState) : StreamState :=
  mk_stream_state (collector s) (queue s ++ ((fun l => mk_queued l now) <$> lines)) (has_seen_delta s).

(** ** Controllers ([streaming/controller.rs]) *)

(** What [push] does in both of them. *)
Definition push_to_state (now : Instant) (delta : str) (s : StreamState) : bool * StreamState :=
  let s := mk_stream_state (push_delta delta (collector s)) (queue s) (has_seen_delta s || negb (bool_decide (delta = []))) in
  if bool_decide (LF ∈ delta) then
    let '(newly_completed, c) := commit_complete_lines (collector s) in
    let s := mk_stream_state c (queue s) (has_seen_delta s) in
    if bool_decide (newly_completed = []) then (false, s) else (true, enqueue now newly_completed s)
  else (false, s).
(** All that is left when a stream ends. *)
Definition finalize_state (now : Instant) (s : StreamState) : list Line * StreamState :=
  let '(remaining, c) := finalize_and_drain (collector s) in
  let s := mk_stream_state c (queue s) (has_seen_delta s) in
  let s := if bool_decide (remaining = []) then s else enqueue now remaining s in
  let '(out_lines, s) := drain_all s in
  (out_lines, state_clear s).

Record StreamController : Type := mk_controller { state : StreamState; header_emitted : bool }.
Definition controller_new (width : option nat) : StreamController := mk_controller (state_new width) false.
Definition emit (lines : list Line) (c : StreamController) : option HistoryCell * StreamController :=
  if bool_decide (lines = []) then (None, c)
  else (Some (AgentMessageCell lines (negb (header_emitted c))), mk_controller (state c) true).
Definition with_state (s : StreamState) (c : StreamController) : StreamController := mk_controller s (header_emitted c).
Definition push (now : Instant) (delta : str) (c : StreamController) : bool * StreamController :=
  let '(started, s) := push_to_state now delta (state c) in (started, with_state s c).
Definition finalize (now : Instant) (c : StreamController) : option HistoryCell * StreamController :=
  let '(out_lines, s) := finalize_state now (state c) in emit out_lines (with_state s c).
Definition on_commit_tick (c : StreamController) : option HistoryCell * bool * StreamController :=
  let '(lines, s) := step (state c) in
  let '(cell, c) := emit lines (with_state s c) in (cell, is_idle (state c), c).
Definition on_commit_tick_batch (max_lines : nat) (c : StreamController) : option HistoryCell * bool * StreamController :=
  let '(lines, s) := drain_n (max_lines `max` 1) (state c) in
  let '(cell, c) := emit lines (with_state s c) in (cell, is_idle (state c), c).

Record PlanStreamController : Type := mk_plan_controller { plan_state : StreamState; plan_header_emitted : bool; top_padding_emitted : bool }.
Definition plan_controller_new (width : option nat) : PlanStreamController := mk_plan_controller (state_new width) false false.
Definition plan_title : Line := mk_line [mk_span ([8226; 32]%N) dim; mk_span (lit "Proposed Plan") bold] plain_style.
Definition plan_emit (lines : list Line) (include_bottom_padding : bool) (c : PlanStreamController) : option HistoryCell * PlanStreamController :=
  if bool_decide (lines = []) && negb include_bottom_padding then (None, c)
  else
    let is_stream_continuation := plan_header_emitted c in
    let header := if plan_header_emitted c then [] else [plan_title; line_from [32%N]] in
    let plan_lines := (if top_padding_emitted c then [] else [line_from [32%N]]) ++ lines ++ (if include_bottom_padding then [line_from [32%N]] else []) in
    let indent := mk_span [32; 32]%N plain_style in
    let plan_lines := with_style proposed_plan_style <$> prefix_lines plan_lines indent indent in
    (Some (ProposedPlanStreamCell (header ++ plan_lines) is_stream_continuation), mk_plan_controller (plan_state c) true true).
Definition plan_with_state (s : StreamState) (c : PlanStreamController) : PlanStreamController :=
  mk_plan_controller s (plan_header_emitted c) (top_padding_emitted c).
Definition plan_push (now : Instant) (delta : str) (c : PlanStreamController) : bool * PlanStreamController :=
  let '(started, s) := push_to_state now delta (plan_state c) in (started, plan_with_state s c).
Definition plan_finalize (now : Instant) (c : PlanStreamController) : option HistoryCell * PlanStreamController :=
  let '(out_lines, s) := finalize_state now (plan_state c) in plan_emit out_lines true (plan_with_state s c).
Definition plan_on_commit_tick (c : PlanStreamController) : option HistoryCell * bool * PlanStreamController :=
  let '(lines, s) := step (plan_state c) in
  let '(cell, c) := plan_emit lines false (plan_with_state s c) in (cell, is_idle (plan_state c), c).
Definition plan_on_commit_tick_batch (max_lines : nat) (c : PlanStreamController) : option HistoryCell * bool * PlanStreamController :=
  let '(lines, s) := drain_n (max_lines `max` 1) (plan_state c) in
  let '(cell, c) := plan_emit lines false (plan_with_state s c) in (cell, is_idle (plan_state c), c).
End Collector.
