(* ===== verification/Chunking.v ===== *)
(** * When queued lines are shown (tui/src/streaming/chunking.rs, commit_tick.rs)

    The policy that takes one line a tick or catches up, with its hysteresis, and the tick
    that applies it to the controllers of a message and of a plan. *)

From stdpp Require Import list.
From S2P Require Import Prelude RustStd Streaming.

(** ** The policy ([chunking.rs]) *)
Definition from_millis (ms : N) : N := ms * 1000000.
Definition ENTER_QUEUE_DEPTH_LINES : nat := 8.
Definition ENTER_OLDEST_AGE : N := from_millis 120.
Definition EXIT_QUEUE_DEPTH_LINES : nat := 2.
Definition EXIT_OLDEST_AGE : N := from_millis 40.
Definition EXIT_HOLD : N := from_millis 250.
Definition REENTER_CATCH_UP_HOLD : N := from_millis 250.
Definition SEVERE_QUEUE_DEPTH_LINES : nat := 64.
Definition SEVERE_OLDEST_AGE : N := from_millis 300.

Inductive ChunkingMode : Type := Smooth | CatchUp.
#[export] Instance ChunkingMode_eq_dec : EqDecision ChunkingMode.
Proof. solve_decision. Defined.
Record QueueSnapshot : Type := mk_snapshot { queued_lines : nat; oldest_age : option N }.
Inductive DrainPlan : Type := Single | Batch (lines : nat).
Record ChunkingDecision : Type := mk_decision { decision_mode : ChunkingMode; entered_catch_up : bool; drain_plan : DrainPlan }.
Record AdaptiveChunkingPolicy : Type := mk_policy {
  mode : ChunkingMode; below_exit_threshold_since : option N; last_catch_up_exit_at : option N;
}.
Definition policy_default : AdaptiveChunkingPolicy := mk_policy Smooth None None.
Definition policy_reset (p : AdaptiveChunkingPolicy) : AdaptiveChunkingPolicy := mk_policy Smooth None None.

Definition should_enter_catch_up (s : QueueSnapshot) : bool :=
  (ENTER_QUEUE_DEPTH_LINES <=? queued_lines s) || from_option (fun oldest => ENTER_OLDEST_AGE <=? oldest)%N false (oldest_age s).
Definition should_exit_catch_up (s : QueueSnapshot) : bool :=
  (queued_lines s <=? EXIT_QUEUE_DEPTH_LINES) && from_option (fun oldest => oldest <=? EXIT_OLDEST_AGE)%N false (oldest_age s).
Definition is_severe_backlog (s : QueueSnapshot) : bool :=
  (SEVERE_QUEUE_DEPTH_LINES <=? queued_lines s) || from_option (fun oldest => SEVERE_OLDEST_AGE <=? oldest)%N false (oldest_age s).

Definition reentry_hold_active (now : N) (p : AdaptiveChunkingPolicy) : bool :=
  from_option (fun exit => now - exit <? REENTER_CATCH_UP_HOLD)%N false (last_catch_up_exit_at p).
Definition note_catch_up_exit (now : N) (p : AdaptiveChunkingPolicy) : AdaptiveChunkingPolicy :=
  match mode p with CatchUp => mk_policy (mode p) (below_exit_threshold_since p) (Some now) | Smooth => p end.
Definition maybe_enter_catch_up (s : QueueSnapshot) (now : N) (p : AdaptiveChunkingPolicy) : bool * AdaptiveChunkingPolicy :=
  if negb (should_enter_catch_up s) then (false, p)
  else if reentry_hold_active now p && negb (is_severe_backlog s) then (false, p)
  else (true, mk_policy CatchUp None None).
Definition maybe_exit_catch_up (s : QueueSnapshot) (now : N) (p : AdaptiveChunkingPolicy) : AdaptiveChunkingPolicy :=
  if negb (should_exit_catch_up s) then mk_policy (mode p) None (last_catch_up_exit_at p)
  else
    match below_exit_threshold_since p with
    | Some since => if (EXIT_HOLD <=? now - since)%N then mk_policy Smooth None (Some now) else p
    | None => mk_policy (mode p) (Some now) (last_catch_up_exit_at p)
    end.

Definition decide (s : QueueSnapshot) (now : N) (p : AdaptiveChunkingPolicy) : ChunkingDecision * AdaptiveChunkingPolicy :=
  if queued_lines s =? 0 then
    let p := note_catch_up_exit now p in
    let p := mk_policy Smooth None (last_catch_up_exit_at p) in
    (mk_decision (mode p) false Single, p)
  else
    let '(entered, p) := match mode p with Smooth => maybe_enter_catch_up s now p | CatchUp => (false, maybe_exit_catch_up s now p) end in
    let plan := match mode p with Smooth => Single | CatchUp => Batch (queued_lines s `max` 1) end in
    (mk_decision (mode p) entered plan, p).

(** ** The tick ([commit_tick.rs]) *)
Section Tick.
Context `{Terminal}.

Inductive CommitTickScope : Type := AnyMode | CatchUpOnly.
Record CommitTickOutput : Type := mk_tick { cells : list HistoryCell; has_controller : bool; all_idle : bool }.
Definition tick_default : CommitTickOutput := mk_tick [] false true.

Definition max_duration (lhs rhs : option N) : option N :=
  match lhs, rhs with
  | Some l, Some r => Some (N.max l r)
  | Some l, None => Some l
  | None, r => r
  end.
Definition stream_queue_snapshot (c : option StreamController) (plan : option PlanStreamController) (now : N) : QueueSnapshot :=
  let '(n, age) := match c with Some c => (queued_len (state c), max_duration None (oldest_queued_age now (state c))) | None => (0, None) end in
  let '(n, age) :=
    match plan with
    | Some c => (n + queued_len (plan_state c), max_duration age (oldest_queued_age now (plan_state c)))
    | None => (n, age)
    end in
  mk_snapshot n age.

Definition drain_stream_controller (c : StreamController) (plan : DrainPlan) : option HistoryCell * bool * StreamController :=
  match plan with Single => on_commit_tick c | Batch max_lines => on_commit_tick_batch max_lines c end.
Definition drain_plan_stream_controller (c : PlanStreamController) (plan : DrainPlan) : option HistoryCell * bool * PlanStreamController :=
  match plan with Single => plan_on_commit_tick c | Batch max_lines => plan_on_commit_tick_batch max_lines c end.

Definition apply_commit_tick_plan (plan : DrainPlan) (c : option StreamController) (p : option PlanStreamController) :
    CommitTickOutput * option StreamController * option PlanStreamController :=
  let '(out, c) :=
    match c with
    | Some c =>
        let '(cell, idle, c) := drain_stream_controller c plan in (mk_tick (option_list cell) true (all_idle tick_default && idle), Some c)
    | None => (tick_default, None)
    end in
  let '(out, p) :=
    match p with
    | Some p =>
        let '(cell, idle, p) := drain_plan_stream_controller p plan in (mk_tick (cells out ++ option_list cell) true (all_idle out && idle), Some p)
    | None => (out, None)
    end in
  (out, c, p).

Definition run_commit_tick (policy : AdaptiveChunkingPolicy) (c : option StreamController) (p : option PlanStreamController)
    (scope : CommitTickScope) (now : N) :
    CommitTickOutput * AdaptiveChunkingPolicy * option StreamController * option PlanStreamController :=
  let snapshot := stream_queue_snapshot c p now in
  let '(decision, policy) := decide snapshot now policy in
  match scope, decision_mode decision with
  | CatchUpOnly, Smooth => (tick_default, policy, c, p)
  | _, _ => let '(out, c, p) := apply_commit_tick_plan (drain_plan decision) c p in (out, policy, c, p)
  end.
End Tick.

(** ** Hysteresis *)

(** A run of decisions: what was seen and when, and the mode after, the latest first. *)
Inductive decisions : list (N * QueueSnapshot * ChunkingMode) -> AdaptiveChunkingPolicy -> Prop :=
  | decisions_none : decisions [] policy_default
  | decisions_more h p now s d p' :
      decisions h p -> Forall (fun e => e.1.1 <= now)%N h -> decide s now p = (d, p') -> decisions ((now, s, mode p') :: h) p'.

(** The decisions since [t]: all of them caught up with a pressure below the thresholds for an exit. *)
Definition calm_since (t : N) (h : list (N * QueueSnapshot * ChunkingMode)) : Prop :=
  exists h1 s h2, h = h1 ++ (t, s, CatchUp) :: h2 /\ Forall (fun e => should_exit_catch_up e.1.2 = true /\ e.2 = CatchUp) (h1 ++ [(t, s, CatchUp)]).
(** The last decision that left the catching up, if it is the last change of mode. *)
Definition left_at (t : N) (h : list (N * QueueSnapshot * ChunkingMode)) : Prop :=
  exists h1 s e h2, h = h1 ++ (t, s, Smooth) :: e :: h2 /\ e.2 = CatchUp /\ Forall (fun e => e.2 = Smooth) h1.

Definition last_mode (h : list (N * QueueSnapshot * ChunkingMode)) : ChunkingMode := from_option (fun e => e.2) Smooth (head h).

Record policy_ok (h : list (N * QueueSnapshot * ChunkingMode)) (p : AdaptiveChunkingPolicy) : Prop := mk_policy_ok {
  pol_mode : mode p = last_mode h;
  pol_below : forall t, below_exit_threshold_since p = Some t -> mode p = CatchUp /\ calm_since t h;
  pol_exit : forall t, left_at t h <-> mode p = Smooth /\ last_catch_up_exit_at p = Some t;
}.

Lemma left_at_first now s h t : last_mode h = CatchUp -> left_at t ((now, s, Smooth) :: h) <-> t = now.
Proof.
  unfold last_mode. intros Hm. split.
  - intros ([|x h1] & s' & e & h2 & Heq & He & Hall); [by injection Heq|]. inversion Heq; subst. apply Forall_cons in Hall as [_ Hall].
    destruct h1 as [|y h1]; simpl in Hm; [done|]. apply Forall_cons in Hall as [Hy _]. congruence.
  - intros ->. destruct h as [|e h2]; [done|]. exists [], s, e, h2. by repeat split.
Qed.
Lemma left_at_later now s h t : last_mode h = Smooth -> left_at t ((now, s, Smooth) :: h) <-> left_at t h.
Proof.
  unfold last_mode. intros Hm. split.
  - intros ([|x h1] & s' & e & h2 & Heq & He & Hall); inversion Heq; subst; [simpl in Hm; congruence|].
    apply Forall_cons in Hall as [_ Hall]. by exists h1, s', e, h2.
  - intros (h1 & s' & e & h2 & -> & He & Hall). exists ((now, s, Smooth) :: h1), s', e, h2. split; [done|]. split; [done|]. by apply Forall_cons.
Qed.
Lemma left_at_catching now s h t : ~ left_at t ((now, s, CatchUp) :: h).
Proof. intros ([|x h1] & s' & e & h2 & Heq & He & Hall); inversion Heq; subst. by apply Forall_cons in Hall as [Hx _]. Qed.
Lemma calm_since_more now s h t : should_exit_catch_up s = true -> calm_since t h -> calm_since t ((now, s, CatchUp) :: h).
Proof.
  intros Hs (h1 & s' & h2 & -> & Hall). exists ((now, s, CatchUp) :: h1), s', h2. split; [done|]. by apply Forall_cons.
Qed.
Lemma calm_since_now now s h : should_exit_catch_up s = true -> calm_since now ((now, s, CatchUp) :: h).
Proof. intros Hs. exists [], s, h. split; [done|]. by apply Forall_cons. Qed.

(** One decision: what mode it leads to, and why. *)
Lemma decide_ok h p s now d p' : policy_ok h p -> decide s now p = (d, p') -> policy_ok ((now, s, mode p') :: h) p'.
Proof.
  intros [Hmode Hbelow Hexit]. unfold decide. destruct (queued_lines s =? 0).
  { intros [= <- <-]. simpl. constructor; simpl; [done|done|]. intros t. destruct (mode p) eqn:E; unfold note_catch_up_exit; rewrite E; simpl.
    - rewrite left_at_later by done. rewrite Hexit. tauto.
    - rewrite left_at_first by done. split; [by intros ->|by intros [_ [= ->]]]. }
  destruct (mode p) eqn:E.
  - unfold maybe_enter_catch_up. destruct (negb _); [|destruct (_ && _)]; intros [= <- <-]; simpl;
      [rewrite E|rewrite E|]; constructor; simpl; rewrite ?E; try done.
    1, 3: by intros t [? ?]%Hbelow.
    1, 2: intros t; rewrite left_at_later by done; rewrite Hexit; tauto.
    intros t. split; [intros []%left_at_catching|by intros []].
  - unfold maybe_exit_catch_up. destruct (should_exit_catch_up s) eqn:Hs; simpl.
    + destruct (below_exit_threshold_since p) as [t0|] eqn:Eb; [destruct (EXIT_HOLD <=? now - t0)%N|]; intros [= <- <-]; simpl.
      * constructor; simpl; [done|done|]. intros t. rewrite left_at_first by done. split; [by intros ->|by intros [_ [= ->]]].
      * rewrite E. constructor; [done| |].
        -- intros t Ht. split; [done|]. destruct (Hbelow t) as [_ Hc]; [congruence|]. by apply calm_since_more.
        -- intros t. rewrite E. split; [intros []%left_at_catching|by intros []].
      * rewrite E. constructor; simpl; [done| |].
        -- intros t [= ->]. split; [done|]. by apply calm_since_now.
        -- intros t. split; [intros []%left_at_catching|by intros []].
    + intros [= <- <-]. simpl. rewrite E. constructor; simpl; [done|done|].
      intros t. split; [intros []%left_at_catching|by intros []].
Qed.
Lemma decisions_ok h p : decisions h p -> policy_ok h p.
Proof.
  induction 1 as [|h p now s d p' _ IH _ Hd]; [|by eapply decide_ok].
  constructor; simpl; [done|done|]. intros t. split; [|by intros []]. intros (h1 & ? & ? & ? & Heq & _). by destruct h1.
Qed.

Lemma decide_spec h p s now d p' (Hrun : decisions h p) (Hd : decide s now p = (d, p')) :
  (mode p = CatchUp -> mode p' = Smooth ->
     queued_lines s = 0 \/ should_exit_catch_up s = true /\ exists t, calm_since t h /\ (EXIT_HOLD <= now - t)%N) /\
  (mode p = Smooth -> mode p' = CatchUp ->
     should_enter_catch_up s = true /\ forall t, left_at t h -> (now - t < REENTER_CATCH_UP_HOLD)%N -> is_severe_backlog s = true) /\
  (is_severe_backlog s = true -> queued_lines s <> 0 -> mode p' = CatchUp) /\
  decision_mode d = mode p' /\ drain_plan d = (match mode p' with CatchUp => Batch (queued_lines s) | Smooth => Single end) /\
  (entered_catch_up d = true <-> mode p = Smooth /\ mode p' = CatchUp).
Proof.
  destruct (decisions_ok h p Hrun) as [Hmode Hbelow Hexit].
  assert (Hsevere : is_severe_backlog s = true -> queued_lines s <> 0 -> should_enter_catch_up s = true /\ should_exit_catch_up s = false).
  { unfold is_severe_backlog, should_enter_catch_up, should_exit_catch_up, SEVERE_QUEUE_DEPTH_LINES, ENTER_QUEUE_DEPTH_LINES, EXIT_QUEUE_DEPTH_LINES.
    rewrite !orb_true_iff, andb_false_iff, !Nat.leb_le, Nat.leb_gt. destruct (oldest_age s) as [age|]; simpl; [|intuition lia].
    unfold SEVERE_OLDEST_AGE, ENTER_OLDEST_AGE, EXIT_OLDEST_AGE, from_millis. rewrite !N.leb_le, N.leb_gt. intuition lia. }
  unfold decide in Hd. destruct (Nat.eqb_spec (queued_lines s) 0) as [Hq|Hq].
  { injection Hd as <- <-. simpl. repeat split; try done; auto. by intros []. }
  destruct (mode p) eqn:E.
  - unfold maybe_enter_catch_up in Hd. destruct (should_enter_catch_up s) eqn:He; [destruct (reentry_hold_active now p) eqn:Hr; destruct (is_severe_backlog s) eqn:Hs|];
      simpl in Hd; injection Hd as <- <-; simpl; rewrite ?E, ?Nat.max_l by lia; repeat split; try done; try (by intros []); try tauto.
    + intros t Ht. apply Hexit in Ht as [_ Ht]. unfold reentry_hold_active in Hr. rewrite Ht in Hr. simpl in Hr. apply N.ltb_ge in Hr. lia.
    + intros Hs _. by destruct (Hsevere Hs Hq).
  - unfold maybe_exit_catch_up in Hd. destruct (should_exit_catch_up s) eqn:Hs; simpl in Hd;
      [destruct (below_exit_threshold_since p) as [t|] eqn:Eb; [destruct (N.leb_spec EXIT_HOLD (now - t)%N)|]|]; injection Hd as <- <-; simpl;
      rewrite ?E, ?Nat.max_l by lia; repeat split; try done; try (by intros []); try tauto.
    + intros _ _. right. split; [done|]. exists t. split; [by apply Hbelow|done].
    + intros Hv _. by destruct (Hsevere Hv Hq).
Qed.

Lemma decided_catch_up h p s now d p' :
  decisions h p -> decide s now p = (d, p') -> is_severe_backlog s = true -> queued_lines s <> 0 ->
  decision_mode d = CatchUp /\ drain_plan d = Batch (queued_lines s).
Proof.
  intros Hrun Hd Hs Hq. destruct (decide_spec h p s now d p' Hrun Hd) as (_ & _ & Hm & -> & -> & _). by rewrite (Hm Hs Hq).
Qed.

(** C33. Showing a message does not flicker between its two speeds: after any decisions, catching up ends
    only on an empty queue, or when the pressure has been below the thresholds at every decision of the last
    250 ms at least; and within 250 ms of such an end it starts again only under a severe
    backlog.  A severe backlog is always caught up with, and catching up takes all lines that are queued. *)
Theorem chunking_hysteresis h p s now d p' (Hrun : decisions h p) (Hd : decide s now p = (d, p')) :
  (mode p = CatchUp -> mode p' = Smooth ->
     queued_lines s = 0 \/ should_exit_catch_up s = true /\ exists t, calm_since t h /\ (EXIT_HOLD <= now - t)%N) /\
  (mode p = Smooth -> mode p' = CatchUp ->
     should_enter_catch_up s = true /\ forall t, left_at t h -> (now - t < REENTER_CATCH_UP_HOLD)%N -> is_severe_backlog s = true) /\
  (is_severe_backlog s = true -> queued_lines s <> 0 -> mode p' = CatchUp) /\
  decision_mode d = mode p' /\ drain_plan d = (match mode p' with CatchUp => Batch (queued_lines s) | Smooth => Single end) /\
  (entered_catch_up d = true <-> mode p = Smooth /\ mode p' = CatchUp).
Proof. by apply decide_spec. Qed.

(** A burst of lines, then calm: the end of the catching up waits for its hold. *)
Definition burst : QueueSnapshot := mk_snapshot 8 (Some 0%N).
Definition calm : QueueSnapshot := mk_snapshot 1 (Some 0%N).
Lemma decisions_step h p now s d p' m :
  decisions h p -> Forall (fun e => e.1.1 <= now)%N h -> decide s now p = (d, p') -> m = mode p' -> decisions ((now, s, m) :: h) p'.
Proof. intros ? ? ? ->. by eapply decisions_more. Qed.
Lemma calm_run : decisions [(from_millis 260, calm, CatchUp); (from_millis 20, calm, CatchUp); (0%N, burst, CatchUp)]
  (mk_policy CatchUp (Some (from_millis 20)) None).
Proof.
  eapply (decisions_step _ (mk_policy CatchUp (Some (from_millis 20)) None) (from_millis 260) calm); [|by repeat (apply Forall_cons; split; [vm_compute; done|])|reflexivity|reflexivity].
  eapply (decisions_step _ (mk_policy CatchUp None None) (from_millis 20) calm); [|by repeat (apply Forall_cons; split; [vm_compute; done|])|reflexivity|reflexivity].
  eapply (decisions_step _ policy_default 0%N burst); [apply decisions_none|by apply Forall_nil|reflexivity|reflexivity].
Qed.
Lemma chunking_hysteresis_witness : exists d p',
  decide calm (from_millis 270) (mk_policy CatchUp (Some (from_millis 20)) None) = (d, p') /\ mode p' = Smooth /\
  (queued_lines calm = 0 \/ should_exit_catch_up calm = true /\
     exists t, calm_since t [(from_millis 260, calm, CatchUp); (from_millis 20, calm, CatchUp); (0%N, burst, CatchUp)] /\ (EXIT_HOLD <= from_millis 270 - t)%N).
Proof.
  eexists _, _. split; [reflexivity|]. split; [reflexivity|].
  apply (chunking_hysteresis _ _ calm (from_millis 270) _ _ calm_run eq_refl); reflexivity.
Defined.
