(* ===== verification/StreamingSpec.v ===== *)
(** * What is shown of a streamed message

    Whatever the pieces, the ticks and the changes of speed, the lines shown are those of
    the rendering of the message, in order and each once. *)

From stdpp Require Import list.
From S2P Require Import Prelude RustStd Streaming Chunking.

Section Shown.
Context `{Terminal}.
Variable append_markdown : str -> option nat -> list Line.

Inductive stream_op : Type := OpPush (now : N) (delta : str) | OpTick (plan : DrainPlan).
Definition pushed (op : stream_op) : str := match op with OpPush _ delta => delta | OpTick _ => [] end.
Definition apply_op (op : stream_op) (c : StreamController) : option HistoryCell * StreamController :=
  match op with
  | OpPush now delta => (None, (push append_markdown now delta c).2)
  | OpTick plan => let '(cell, _, c) := drain_stream_controller c plan in (cell, c)
  end.
(** The cells shown, and the controller after. *)
Fixpoint run (ops : list stream_op) (c : StreamController) : list HistoryCell * StreamController :=
  match ops with
  | [] => ([], c)
  | op :: ops => let '(cell, c) := apply_op op c in let '(cells, c) := run ops c in (option_list cell ++ cells, c)
  end.

Definition cell_lines (c : HistoryCell) : list Line := match c with AgentMessageCell lines _ | ProposedPlanStreamCell lines _ => lines end.
Definition shown (l : list HistoryCell) : list Line := l ≫= cell_lines.
Definition is_first (c : HistoryCell) : bool := match c with AgentMessageCell _ b => b | ProposedPlanStreamCell _ b => negb b end.

(** The lines of the rendering of a source that are complete. *)
Definition complete_lines (source : str) (w : option nat) : list Line :=
  take (complete_line_count (append_markdown source w)) (append_markdown source w).
(** A beginning of the text that ends with a line. *)
Definition whole_lines (source text : str) : Prop := source `prefix_of` text /\ ends_with [LF] source = true.

Lemma through_last_lf_spec s r : through_last_lf s = Some r -> whole_lines r s.
Proof.
  revert r. induction s as [|c s IH]; intros r; simpl; [done|]. destruct (through_last_lf s) as [r'|].
  - intros [= <-]. destruct (IH r' eq_refl) as [[k ->] Hl]. split; [by exists k|].
    apply ends_with_true in Hl as [q ->]. apply ends_with_true. by exists (c :: q).
  - case_bool_decide; [|done]. subst. intros [= <-]. split; [by exists s|done].
Qed.
Lemma complete_le (l : list Line) : complete_line_count l <= length l.
Proof. unfold complete_line_count. destruct (last l); [|done]. destruct (is_blank_line_spaces_only _); lia. Qed.

(** [log] is what was shown and what waits. *)
Record log_ok (w : option nat) (text : str) (log : list Line) (s : StreamState) : Prop := mk_log_ok {
  log_buffer : buffer (collector s) = text;
  log_width : width (collector s) = w;
  log_length : length log = committed_line_count (collector s);
  log_lines : forall k l, log !! k = Some l -> exists source, whole_lines source text /\ complete_lines source w !! k = Some l;
}.

Lemma whole_lines_more source text delta : whole_lines source text -> whole_lines source (text ++ delta).
Proof. intros [? ?]. split; [by apply prefix_app_r|done]. Qed.

Lemma queue_lines_app (q : list QueuedLine) now (ls : list Line) : line <$> (q ++ ((fun l => mk_queued l now) <$> ls)) = (line <$> q) ++ ls.
Proof. rewrite fmap_app. f_equal. induction ls as [|l ls IH]; [done|]. rewrite !fmap_cons. by rewrite IH. Qed.

Lemma commit_log w text log c l c' :
  buffer c = text -> width c = w -> length log = committed_line_count c ->
  (forall k x, log !! k = Some x -> exists source, whole_lines source text /\ complete_lines source w !! k = Some x) ->
  commit_complete_lines append_markdown c = (l, c') ->
  buffer c' = text /\ width c' = w /\ length (log ++ l) = committed_line_count c' /\
  forall k x, (log ++ l) !! k = Some x -> exists source, whole_lines source text /\ complete_lines source w !! k = Some x.
Proof.
  intros Hb Hw Hlen Hlog. unfold commit_complete_lines. destruct (through_last_lf (buffer c)) as [source|] eqn:Hs;
    [destruct (Nat.leb_spec (complete_line_count (append_markdown source (width c))) (committed_line_count c))|]; intros [= <- <-]; simpl;
    rewrite ?app_nil_r; [done| |done].
  apply through_last_lf_spec in Hs. rewrite Hb in Hs. pose proof (complete_le (append_markdown source (width c))).
  split; [done|]. split; [done|]. split; [rewrite length_app, length_drop, length_take; lia|].
  intros k x [Hk|[Hk Hx]]%lookup_app_Some; [by apply Hlog|]. exists source. split; [done|]. unfold complete_lines.
  rewrite lookup_drop in Hx. rewrite <-Hw, <-Hx. f_equal. lia.
Qed.

Lemma push_log w text emitted now delta s :
  log_ok w text (emitted ++ (line <$> queue s)) s ->
  let s' := (push_to_state append_markdown now delta s).2 in log_ok w (text ++ delta) (emitted ++ (line <$> queue s')) s'.
Proof.
  intros [Hb Hw Hlen Hlog]. unfold push_to_state. simpl.
  assert (Hlog' : forall k x, (emitted ++ (line <$> queue s)) !! k = Some x ->
    exists source, whole_lines source (text ++ delta) /\ complete_lines source w !! k = Some x).
  { intros k x Hk. destruct (Hlog k x Hk) as (source & ? & ?). exists source. split; [by apply whole_lines_more|done]. }
  case_bool_decide; [|constructor; simpl; [by rewrite Hb|done|done|done]].
  destruct (commit_complete_lines append_markdown (push_delta delta (collector s))) as [l c'] eqn:E.
  eapply (commit_log w (text ++ delta)) in E as (Hb' & Hw' & Hlen' & Hl'); [|simpl; by rewrite Hb|done|exact Hlen|done].
  case_bool_decide as Hnil; simpl.
  - subst l. rewrite app_nil_r in *. by constructor.
  - rewrite <-app_assoc, <-(queue_lines_app _ now) in Hlen', Hl'. by constructor.
Qed.

Lemma drain_log w text emitted plan c cell idle c' :
  drain_stream_controller c plan = (cell, idle, c') -> log_ok w text (emitted ++ (line <$> queue (state c))) (state c) ->
  log_ok w text ((emitted ++ (option_list cell ≫= cell_lines)) ++ (line <$> queue (state c'))) (state c') /\
  (cell = None /\ header_emitted c' = header_emitted c \/
   exists ls, ls <> [] /\ cell = Some (AgentMessageCell ls (negb (header_emitted c))) /\ header_emitted c' = true).
Proof.
  intros Hd [Hb Hw Hlen Hlog].
  assert (Htake : exists n, let s' := mk_stream_state (collector (state c)) (drop n (queue (state c))) (has_seen_delta (state c)) in
    emit (line <$> take n (queue (state c))) (with_state s' c) = (cell, c')).
  { destruct plan as [|n]; simpl in Hd; unfold on_commit_tick, on_commit_tick_batch, step, drain_n in Hd; [exists 1|exists ((n `max` 1) `min` length (queue (state c)))];
      simpl in *; destruct (emit _ _) as [x y]; by injection Hd as -> _ ->. }
  destruct Htake as [n Htake]. unfold emit in Htake. case_bool_decide as Hnil; injection Htake as <- <-; simpl.
  - split; [|by left]. rewrite app_nil_r.
    assert (line <$> drop n (queue (state c)) = line <$> queue (state c)) as -> by
      (rewrite <-(take_drop n (queue (state c))) at 2; by rewrite fmap_app, Hnil).
    by constructor.
  - split; [|right; by eexists]. rewrite app_nil_r, <-app_assoc, <-fmap_app, take_drop. by constructor.
Qed.

(** The header is that of the first cell, and of no other. *)
Definition first_once (before : bool) (l : list HistoryCell) (after : bool) : Prop :=
  match l with [] => after = before | x :: xs => is_first x = negb before /\ Forall (fun x => is_first x = false) xs /\ after = true end.

Lemma first_once_app a l1 b l2 d : first_once a l1 b -> first_once b l2 d -> first_once a (l1 ++ l2) d.
Proof.
  destruct l1 as [|x l1]; simpl; [by intros ->|]. intros (Hx & Hl & ->) H2. split; [done|].
  destruct l2 as [|y l2]; simpl in H2; [by rewrite app_nil_r, H2|]. destruct H2 as (Hy & Hl2 & ->).
  split; [|done]. apply Forall_app. split; [done|]. by apply Forall_cons.
Qed.

Lemma run_log ops : forall w text emitted c cells c', run ops c = (cells, c') ->
  log_ok w text (emitted ++ (line <$> queue (state c))) (state c) ->
  log_ok w (text ++ concat (pushed <$> ops)) ((emitted ++ shown cells) ++ (line <$> queue (state c'))) (state c') /\
  first_once (header_emitted c) cells (header_emitted c').
Proof.
  induction ops as [|op ops IH]; intros w text emitted c cells c' Hrun Hlog; simpl in Hrun.
  { injection Hrun as <- <-. simpl. by rewrite !app_nil_r. }
  destruct (apply_op op c) as [cell c1] eqn:Hop. destruct (run ops c1) as [cells2 c2] eqn:Hrun2. injection Hrun as <- <-.
  assert (Hstep : log_ok w (text ++ pushed op) ((emitted ++ (option_list cell ≫= cell_lines)) ++ (line <$> queue (state c1))) (state c1) /\
    first_once (header_emitted c) (option_list cell) (header_emitted c1)).
  { destruct op as [now delta|plan]; simpl in Hop.
    - unfold push in Hop. pose proof (push_log w text emitted now delta (state c) Hlog) as Hpush.
      destruct (push_to_state append_markdown now delta (state c)) as [b s]. injection Hop as <- <-. simpl in *. by rewrite app_nil_r.
    - destruct (drain_stream_controller c plan) as [[cell' idle] c1'] eqn:Hd. injection Hop as -> ->.
      destruct (drain_log w text emitted plan c cell idle c1 Hd Hlog) as [Hok Hhead]. simpl. rewrite app_nil_r. split; [done|].
      destruct Hhead as [[-> Hh]|(ls & _ & -> & ->)]; simpl; [done|]. repeat split; by try apply Forall_nil. }
  destruct Hstep as [Hok Hhead]. destruct (IH _ _ _ _ _ _ Hrun2 Hok) as [Hok2 Hhead2].
  split; [|by eapply first_once_app]. unfold shown in *. rewrite bind_app. rewrite fmap_cons. simpl. by rewrite <-!app_assoc in *.
Qed.

Lemma run_shown (ops : list stream_op) (w : option nat) (now : N) :
  let text := concat (pushed <$> ops) in
  let rendered := append_markdown (with_final_lf text) w in
  let '(cells, c) := run ops (controller_new w) in
  let cells := cells ++ option_list (finalize append_markdown now c).1 in
  (forall k x, shown cells !! k = Some x -> rendered !! k = Some x \/
     exists source, whole_lines source text /\ complete_lines source w !! k = Some x) /\
  length rendered <= length (shown cells) /\
  (match cells with [] => True | x :: xs => is_first x = true /\ Forall (fun x => is_first x = false) xs end) /\
  ((forall source, whole_lines source text -> complete_lines source w `prefix_of` rendered) -> shown cells = rendered).
Proof.
  intros text rendered. destruct (run ops (controller_new w)) as [cells c] eqn:Hrun.
  destruct (run_log ops w [] [] _ _ _ Hrun) as [[Hb Hw Hlen Hlog] Hhead]; [by constructor|]. simpl in Hb, Hlen, Hlog, Hhead. fold text in Hb, Hlog.
  cbn zeta. set (all := cells ++ _).
  assert (Hall : shown all = (shown cells ++ (line <$> queue (state c))) ++ drop (committed_line_count (collector (state c))) rendered /\
    exists b, first_once false all b).
  { assert (Hdrop : (if length rendered <=? committed_line_count (collector (state c)) then [] else drop (committed_line_count (collector (state c))) rendered) =
      drop (committed_line_count (collector (state c))) rendered) by (destruct (Nat.leb_spec (length rendered) (committed_line_count (collector (state c)))); [by rewrite drop_ge|done]).
    subst all. unfold finalize, finalize_state, finalize_and_drain. rewrite Hb, Hw. fold rendered. rewrite Hdrop.
    set (rest := drop _ rendered). unfold drain_all.
    set (lines := line <$> queue (if bool_decide (rest = []) then _ else _)).
    assert (Hlines : lines = (line <$> queue (state c)) ++ rest).
    { subst lines. case_bool_decide as Hr; simpl; [by rewrite Hr, app_nil_r|apply queue_lines_app]. }
    cbn [fst snd]. unfold emit. cbn [header_emitted with_state state]. case_bool_decide as Hnil; cbn [fst option_list].
    - rewrite Hlines in Hnil. apply app_nil in Hnil as [-> ->]. rewrite !app_nil_r. split; [done|by eexists].
    - unfold shown. rewrite bind_app. simpl. rewrite app_nil_r, Hlines, app_assoc. split; [done|]. exists true.
      eapply first_once_app; [exact Hhead|]. by repeat split. }
  destruct Hall as [Hall [b Hfirst]]. rewrite Hall.
  split; [|split; [|split]].
  - intros k x [Hk|[Hk Hx]]%lookup_app_Some; [right; by apply Hlog|left]. rewrite lookup_drop in Hx. rewrite <-Hx. f_equal. lia.
  - rewrite length_app, length_drop. lia.
  - destruct all as [|x xs]; [done|]. destruct Hfirst as (? & ? & ?). done.
  - intros Hstable. apply list_eq. intros k.
    assert (Hpre : forall k x, (shown cells ++ (line <$> queue (state c))) !! k = Some x -> rendered !! k = Some x).
    { intros k' x Hk. destruct (Hlog k' x Hk) as (source & Hs & Hx). by eapply prefix_lookup_Some; [|apply Hstable]. }
    destruct ((shown cells ++ (line <$> queue (state c))) !! k) as [x|] eqn:Ek.
    + rewrite (lookup_app_l_Some _ _ _ _ Ek). symmetry. by apply Hpre.
    + apply lookup_ge_None in Ek. rewrite lookup_app_r, lookup_drop by done. f_equal. lia.
Qed.

(** C23. Of a message that comes in any pieces, with ticks at any moments and speeds and the end of the
    stream after them: every line of the rendering of the whole message is accounted for, the [k]-th line shown being the
    [k]-th line of that rendering or of the rendering of the whole lines that had come when it was taken over; the
    first cell shown, and no other, has the header; and where the rendering of whole lines stays as more
    comes, what was shown is exactly the rendering of the message. *)
Theorem message_shown_as_rendered (ops : list stream_op) (w : option nat) (now : N) :
  let text := concat (pushed <$> ops) in
  let rendered := append_markdown (with_final_lf text) w in
  let '(cells, c) := run ops (controller_new w) in
  let cells := cells ++ option_list (finalize append_markdown now c).1 in
  (forall k x, shown cells !! k = Some x -> rendered !! k = Some x \/
     exists source, whole_lines source text /\ complete_lines source w !! k = Some x) /\
  length rendered <= length (shown cells) /\
  (match cells with [] => True | x :: xs => is_first x = true /\ Forall (fun x => is_first x = false) xs end) /\
  ((forall source, whole_lines source text -> complete_lines source w `prefix_of` rendered) -> shown cells = rendered).
Proof. apply run_shown. Qed.
End Shown.

(** ** Plain text

    A rendering of each line as it is keeps what it made of whole lines, and the messages it shows are complete. *)
#[export] Instance plain_terminal : Terminal := {| Style := unit; plain_style := tt; dim := tt; bold := tt; proposed_plan_style := tt |}.
Definition plain_markdown (s : str) (_ : option nat) : list (@Line plain_terminal) := line_from <$> lines s.

Lemma plain_rendering_stays source text w :
  whole_lines source text -> complete_lines plain_markdown source w `prefix_of` plain_markdown (with_final_lf text) w.
Proof.
  intros [[k ->] Hlf]. unfold complete_lines. etrans; [apply prefix_take|]. apply ends_with_true in Hlf as [a ->].
  assert (exists r, with_final_lf ((a ++ [LF]) ++ k) = a ++ LF :: r) as [r ->].
  { unfold with_final_lf. rewrite <-app_assoc. destruct (ends_with _ _); [by exists k|]. exists (k ++ [LF]). by rewrite <-app_assoc. }
  unfold plain_markdown. rewrite (lines_lf a r), fmap_app. by apply prefix_app_r.
Qed.

Lemma plain_message_complete ops w now :
  let '(cells, c) := run plain_markdown ops (controller_new w) in
  shown (cells ++ option_list (finalize plain_markdown now c).1) = plain_markdown (with_final_lf (concat (pushed <$> ops))) w.
Proof.
  pose proof (run_shown plain_markdown ops w now) as H. cbn zeta in H. destruct (run plain_markdown ops (controller_new w)) as [cells c].
  destruct H as (_ & _ & _ & H). apply H. intros source. apply plain_rendering_stays.
Qed.

(** ** A tick under a severe backlog empties the queues *)
Section Backlog.
Context `{Terminal}.

Lemma drained_all (c : StreamController) n cell idle c' :
  drain_stream_controller c (Batch n) = (cell, idle, c') -> length (queue (state c)) <= n -> queue (state c') = [] /\ idle = true.
Proof.
  simpl. unfold on_commit_tick_batch, drain_n, emit. intros Hd Hn.
  assert (Hq : drop ((n `max` 1) `min` length (queue (state c))) (queue (state c)) = []) by (apply drop_ge; lia).
  case_bool_decide; injection Hd as <- <- <-; simpl; rewrite Hq; done.
Qed.
Lemma plan_drained_all (c : PlanStreamController) n cell idle c' :
  drain_plan_stream_controller c (Batch n) = (cell, idle, c') -> length (queue (plan_state c)) <= n -> queue (plan_state c') = [] /\ idle = true.
Proof.
  simpl. unfold plan_on_commit_tick_batch, drain_n, plan_emit. intros Hd Hn.
  assert (Hq : drop ((n `max` 1) `min` length (queue (plan_state c))) (queue (plan_state c)) = []) by (apply drop_ge; lia).
  destruct (_ && _); injection Hd as <- <- <-; simpl; rewrite Hq; done.
Qed.

Definition empty_after (c : option StreamController) (p : option PlanStreamController) : Prop :=
  from_option (fun c => queue (state c) = []) True c /\ from_option (fun p => queue (plan_state p) = []) True p.

(** However the last decisions went, and in a tick of either scope, a severe backlog is shown at once. *)
Theorem severe_backlog_shown h policy c p scope now (Hrun : decisions h policy)
    (Hsevere : is_severe_backlog (stream_queue_snapshot c p now) = true) (Hsome : queued_lines (stream_queue_snapshot c p now) <> 0) :
  let '(out, policy', c', p') := run_commit_tick policy c p scope now in empty_after c' p' /\ all_idle out = true /\ has_controller out = true.
Proof.
  unfold run_commit_tick. destruct (decide _ now policy) as [d policy'] eqn:Hd.
  destruct (decided_catch_up h policy _ now d policy' Hrun Hd Hsevere Hsome) as (-> & ->).
  assert (Hlen : from_option (fun c => length (queue (state c))) 0 c + from_option (fun p => length (queue (plan_state p))) 0 p =
    queued_lines (stream_queue_snapshot c p now)) by (destruct c, p; simpl; unfold queued_len; lia).
  set (n := queued_lines _) in *.
  destruct (apply_commit_tick_plan (Batch n) c p) as [[out c'] p'] eqn:Ha.
  assert (Hgoal : empty_after c' p' /\ all_idle out = true /\ has_controller out = true); [|by destruct scope].
  unfold apply_commit_tick_plan in Ha. destruct c as [c|]; [destruct (drain_stream_controller c (Batch n)) as [[cell idle] c1] eqn:E1|];
    (destruct p as [p|]; [destruct (drain_plan_stream_controller p (Batch n)) as [[cell2 idle2] p1] eqn:E2|]); injection Ha as <- <- <-; simpl in *;
    try (apply drained_all in E1 as [? ->]; [|lia]); try (apply plan_drained_all in E2 as [? ->]; [|lia]); try done.
Qed.
End Backlog.
