(* ===== verification/Readiness.v ===== *)
(** * A flag that becomes ready once (utils/readiness/src/lib.rs)

    Tasks subscribe to the flag, mark it ready with their token, or wait for it.  What a task
    does between two accesses to shared state is one step; the accesses are of the atomic [ready],
    of the set of tokens under its lock, and of the watch channel. *)

From stdpp Require Import gmap list.
From S2P Require Import Prelude.

(** ** Shared state *)

(** A watch channel of tokio: a value with its version, and for each receiver the version it has
    seen last.  [send] fails, and keeps the value as it is, where there is no receiver. *)
Record watch : Type := mk_watch { value : bool; version : nat; receivers : gmap N nat }.
Definition watch_new : watch := mk_watch false 0 ∅.
Definition send (v : bool) (w : watch) : watch :=
  if bool_decide (receivers w = ∅) then w else mk_watch v (S (version w)) (receivers w).
Definition watch_subscribe (r : N) (w : watch) : watch := mk_watch (value w) (version w) (<[r := version w]> (receivers w)).
Definition watch_seen (r : N) (w : watch) : watch := watch_subscribe r w.
Definition watch_drop (r : N) (w : watch) : watch := mk_watch (value w) (version w) (delete r (receivers w)).
Definition has_changed (r : N) (w : watch) : bool := from_option (fun seen => negb (bool_decide (seen = version w))) false (receivers w !! r).

(** A token is an [i32]. *)
Abbreviation Token := Z (only parsing).
Definition i32_wrap (z : Z) : Z := ((z + 2 ^ 31) mod 2 ^ 32 - 2 ^ 31)%Z.

Record ReadinessFlag : Type := mk_flag { ready : bool; next_id : Z; tokens : gset Z; tx : watch }.
Definition flag_new : ReadinessFlag := mk_flag false 1 ∅ watch_new.
Definition set_tx (w : watch) (f : ReadinessFlag) : ReadinessFlag := mk_flag (ready f) (next_id f) (tokens f) w.

(** The loop of [subscribe]: the next identifier that is not zero and not in use. *)
Fixpoint next_token (fuel : nat) (next_id : Z) (tokens : gset Z) : option (Token * Z) :=
  match fuel with
  | O => None
  | S fuel =>
      if negb (bool_decide (next_id = 0%Z)) && negb (bool_decide (next_id ∈ tokens)) then Some (next_id, i32_wrap (next_id + 1))
      else next_token fuel (i32_wrap (next_id + 1)) tokens
  end.

(** ** Tasks *)
Inductive ReadinessError : Type := TokenLockFailed | FlagAlreadyReady.

(** What a task does next. *)
Inductive task : Type :=
  | InSubscribe                       (* past the first load, about to lock *)
  | InMark (token : Token)            (* past the first load, about to lock *)
  | MarkSend (token : Token)          (* marked, about to send *)
  | InReady (waiting : bool)          (* past the first load of [is_ready], about to try the lock *)
  | ReadySend (waiting : bool)        (* made the flag ready, about to send *)
  | ReadyLoad (waiting : bool)        (* lock or tokens in the way, about to load again *)
  | WaitSubscribe                     (* not ready, about to subscribe to the channel *)
  | WaitBorrow                        (* subscribed, about to look at the value *)
  | WaitChanged                       (* about to await a change *)
  | WaitLook.                         (* woken, about to look at the value *)

Inductive task_result : Type :=
  | Subscribed (r : Token + ReadinessError)
  | Marked (token : Token) (r : bool + ReadinessError)
  | IsReady (b : bool)
  | Waited.

Record world : Type := mk_world { flag : ReadinessFlag; tasks : gmap N task; results : list (N * task_result) }.
Definition world_new : world := mk_world flag_new ∅ [].

Definition goes_on (t : N) (s : task) (f : ReadinessFlag) (w : world) : world := mk_world f (<[t := s]> (tasks w)) (results w).
Definition ends (t : N) (r : task_result) (f : ReadinessFlag) (w : world) : world := mk_world f (delete t (tasks w)) (results w ++ [(t, r)]).
(** [is_ready] has an answer: it is that of the task, or [wait_ready] goes on with it. *)
Definition is_ready_gives (t : N) (waiting b : bool) (f : ReadinessFlag) (w : world) : world :=
  if waiting then (if b then ends t Waited f w else goes_on t WaitSubscribe f w) else ends t (IsReady b) f w.

Inductive call : Type := CallSubscribe | CallMark (token : Token) | CallIsReady | CallWait.

(** The calls, up to the first load that they make. *)
Definition begin (t : N) (c : call) (w : world) : world :=
  let f := flag w in
  match c with
  | CallSubscribe => if ready f then ends t (Subscribed (inr FlagAlreadyReady)) f w else goes_on t InSubscribe f w
  | CallMark token =>
      if ready f then ends t (Marked token (inl false)) f w
      else if bool_decide (token = 0%Z) then ends t (Marked token (inl false)) f w else goes_on t (InMark token) f w
  | CallIsReady => if ready f then ends t (IsReady true) f w else goes_on t (InReady false) f w
  | CallWait => if ready f then ends t Waited f w else goes_on t (InReady true) f w
  end.

(** The next step of a task that has its lock, where it needs one; [None] where it blocks. *)
Definition advance (t : N) (s : task) (w : world) : option world :=
  let f := flag w in
  match s with
  | InSubscribe =>
      if ready f then Some (ends t (Subscribed (inr FlagAlreadyReady)) f w)
      else '(token, next) ← next_token (S (S (size (tokens f)))) (next_id f) (tokens f);
           Some (ends t (Subscribed (inl token)) (mk_flag (ready f) next ({[token]} ∪ tokens f) (tx f)) w)
  | InMark token =>
      if bool_decide (token ∈ tokens f) then Some (goes_on t (MarkSend token) (mk_flag true (next_id f) ∅ (tx f)) w)
      else Some (ends t (Marked token (inl false)) f w)
  | MarkSend token => Some (ends t (Marked token (inl true)) (set_tx (send true (tx f)) f) w)
  | InReady waiting =>
      if bool_decide (tokens f = ∅) then
        let was_ready := ready f in
        let f := mk_flag true (next_id f) (tokens f) (tx f) in
        Some (if was_ready then is_ready_gives t waiting true f w else goes_on t (ReadySend waiting) f w)
      else Some (goes_on t (ReadyLoad waiting) f w)
  | ReadySend waiting => Some (is_ready_gives t waiting true (set_tx (send true (tx f)) f) w)
  | ReadyLoad waiting => Some (is_ready_gives t waiting (ready f) f w)
  | WaitSubscribe => Some (goes_on t WaitBorrow (set_tx (watch_subscribe t (tx f)) f) w)
  | WaitBorrow =>
      if value (tx f) then Some (ends t Waited (set_tx (watch_drop t (tx f)) f) w) else Some (goes_on t WaitChanged f w)
  | WaitChanged => if has_changed t (tx f) then Some (goes_on t WaitLook (set_tx (watch_seen t (tx f)) f) w) else None
  | WaitLook =>
      if value (tx f) then Some (ends t Waited (set_tx (watch_drop t (tx f)) f) w) else Some (goes_on t WaitChanged f w)
  end.

(** A lock that another task holds: [try_lock] fails, and a wait for it may time out. *)
Definition without_lock (t : N) (s : task) (w : world) : option world :=
  match s with
  | InSubscribe => Some (ends t (Subscribed (inr TokenLockFailed)) (flag w) w)
  | InMark token => Some (ends t (Marked token (inr TokenLockFailed)) (flag w) w)
  | InReady waiting => Some (goes_on t (ReadyLoad waiting) (flag w) w)
  | _ => None
  end.

(** Where a task awaits, and so may be dropped. *)
Definition awaits (s : task) : bool := match s with InSubscribe | InMark _ | WaitChanged => true | _ => false end.

Inductive task_step : world -> world -> Prop :=
  | step_begin w t c : tasks w !! t = None -> task_step w (begin t c w)
  | step_advance w t s w' : tasks w !! t = Some s -> advance t s w = Some w' -> task_step w w'
  | step_without_lock w t s w' : tasks w !! t = Some s -> without_lock t s w = Some w' -> task_step w w'.
Inductive readiness_step : world -> world -> Prop :=
  | step_task w w' : task_step w w' -> readiness_step w w'
  | step_cancel w t s : tasks w !! t = Some s -> awaits s = true ->
      readiness_step w (mk_world (set_tx (watch_drop t (tx (flag w))) (flag w)) (delete t (tasks w)) (results w)).
Definition reachable (w : world) : Prop := rtc readiness_step world_new w.

(** ** What holds of every run *)
Definition sends (s : task) : bool := match s with MarkSend _ | ReadySend _ => true | _ => false end.
Definition marked (r : task_result) : bool := match r with Marked _ (inl true) => true | _ => false end.
Definition says_ready (r : task_result) : bool := match r with IsReady true | Waited => true | _ => marked r end.
Definition marks (l : list (N * task_result)) : list (N * task_result) := filter (fun r => marked r.2 = true) l.
Definition given (l : list (N * task_result)) (token : Token) : Prop := exists t, (t, Subscribed (inl token)) ∈ l.

(** A receiver of a channel that carries [true] has not seen it yet. *)
Definition will_wake (t : N) (w : watch) : Prop := exists seen, receivers w !! t = Some seen /\ seen <= version w /\ (value w = true -> seen <> version w).

Definition task_ok (f : ReadinessFlag) (l : list (N * task_result)) (t : N) (s : task) : Prop :=
  (sends s = true -> ready f = true) /\
  (forall token, s = MarkSend token -> given l token /\ marks l = []) /\
  (s = WaitChanged -> will_wake t (tx f)) /\
  (s = WaitBorrow \/ s = WaitLook -> exists seen, receivers (tx f) !! t = Some seen /\ seen <= version (tx f)).
Definition result_ok (f : ReadinessFlag) (l : list (N * task_result)) (r : N * task_result) : Prop :=
  (says_ready r.2 = true -> ready f = true) /\ (forall token, r.2 = Marked token (inl true) -> given l token).

Record world_ok (w : world) : Prop := mk_world_ok {
  ok_zero : (0%Z : Z) ∉ tokens (flag w);
  ok_tokens : ready (flag w) = true -> tokens (flag w) = ∅;
  ok_value : value (tx (flag w)) = true -> ready (flag w) = true;
  ok_given : forall token, token ∈ tokens (flag w) -> given (results w) token;
  ok_task : forall t s, tasks w !! t = Some s -> task_ok (flag w) (results w) t s;
  ok_one : forall t t' s s', tasks w !! t = Some s -> tasks w !! t' = Some s' -> sends s = true -> sends s' = true -> t = t';
  ok_results : forall r, r ∈ results w -> result_ok (flag w) (results w) r;
  ok_marks : length (marks (results w)) <= 1;
}.

(** What a step of one task has to see to. *)
Record change_ok (w : world) (t : N) (o : option task) (f : ReadinessFlag) (res : list (N * task_result)) : Prop := mk_change_ok {
  ch_ready : ready (flag w) = true -> ready f = true;
  ch_zero : (0%Z : Z) ∉ tokens f;
  ch_tokens : ready f = true -> tokens f = ∅;
  ch_value : value (tx f) = true -> ready f = true;
  ch_given : forall token, token ∈ tokens f -> token ∈ tokens (flag w) \/ given res token;
  ch_watch : forall t', t' <> t -> receivers (tx f) !! t' = receivers (tx (flag w)) !! t';
  ch_version : version (tx f) = version (tx (flag w)) /\ value (tx f) = value (tx (flag w)) \/ version (tx (flag w)) < version (tx f);
  ch_task : forall s, o = Some s -> task_ok f (results w ++ res) t s /\
    (sends s = true -> forall t' s', t' <> t -> tasks w !! t' = Some s' -> sends s' = false);
  ch_results : forall r, r ∈ res -> result_ok f (results w ++ res) r;
  ch_marks : marks res = [] \/ marks (results w) = [] /\ length (marks res) <= 1 /\ forall t' s', t' <> t -> tasks w !! t' = Some s' -> sends s' = false;
}.

Lemma marks_app l res : marks (l ++ res) = marks l ++ marks res.
Proof. apply filter_app. Qed.
Lemma given_app l res token : given l token -> given (l ++ res) token.
Proof. intros [t H]. exists t. set_solver. Qed.

Lemma ok_change w t o f res :
  world_ok w -> change_ok w t o f res -> world_ok (mk_world f (partial_alter (fun _ => o) t (tasks w)) (results w ++ res)).
Proof.
  intros [Hzero Htokens Hvalue Hgiven Htask Hone Hres Hmarks] [Cready Czero Ctokens Cvalue Cgiven Cwatch Cversion Ctask Cres Cmarks].
  assert (Hlook : forall t' s', partial_alter (fun _ => o) t (tasks w) !! t' = Some s' -> t' = t /\ o = Some s' \/ t' <> t /\ tasks w !! t' = Some s').
  { intros t' s' H. destruct (decide (t' = t)) as [->|Hne]; [rewrite lookup_partial_alter_eq in H; by left|].
    rewrite lookup_partial_alter_ne in H by done. by right. }
  constructor; simpl; try done.
  - intros token [H|[t' H]]%Cgiven; [by apply given_app, Hgiven|]. exists t'. set_solver.
  - intros t' s' [[-> Ho]|[Hne Hs]]%Hlook; [by apply Ctask|].
    destruct (Htask t' s' Hs) as (T1 & T2 & T3 & T4). split; [auto|]. split; [|split].
    + intros token ->. destruct (T2 token eq_refl) as [Hg Hm]. split; [by apply given_app|]. rewrite marks_app, Hm.
      destruct Cmarks as [->|(_ & _ & Hno)]; [done|]. by specialize (Hno t' _ Hne Hs).
    + intros Hw. destruct (T3 Hw) as (seen & Hseen & Hle & Hv). exists seen. rewrite Cwatch by done. split; [done|].
      destruct Cversion as [[-> ->]|Hlt]; [done|]. split; [lia|]. intros _. lia.
    + intros Hw. destruct (T4 Hw) as (seen & Hseen & Hle). exists seen. rewrite Cwatch by done. split; [done|].
      destruct Cversion as [[-> _]|Hlt]; lia.
  - intros t1 t2 s1 s2 [[-> Ho1]|[Hne1 Hs1]]%Hlook [[-> Ho2]|[Hne2 Hs2]]%Hlook S1 S2; [done| | |by eapply Hone].
    + destruct (Ctask s1 Ho1) as [_ Hn]. by rewrite (Hn S1 t2 s2 Hne2 Hs2) in S2.
    + destruct (Ctask s2 Ho2) as [_ Hn]. by rewrite (Hn S2 t1 s1 Hne1 Hs1) in S1.
  - intros r [Hr|Hr]%elem_of_app; [|by apply Cres]. destruct (Hres r Hr) as [R1 R2]. split; [auto|]. intros token Ht. by apply given_app, R2.
  - rewrite marks_app, length_app. destruct Cmarks as [->|(-> & ? & _)]; simpl; lia.
Qed.

(** Most steps look at the flag and leave it. *)
Lemma change_same w t o res :
  world_ok w -> (forall s, o = Some s -> task_ok (flag w) (results w ++ res) t s /\ sends s = false) ->
  (forall r, r ∈ res -> (says_ready r.2 = true -> ready (flag w) = true) /\ marked r.2 = false) -> change_ok w t o (flag w) res.
Proof.
  intros [Hzero Htokens Hvalue Hgiven _ _ _ _] Htask Hres.
  assert (Hmarks : marks res = []).
  { unfold marks. clear -Hres. induction res as [|r res IH]; [done|]. rewrite filter_cons_False; [apply IH; set_solver|].
    destruct (Hres r) as [_ ->]; [set_solver|done]. }
  constructor; try done; [by left|by left| | |by left].
  - intros s Hs. destruct (Htask s Hs) as [Hok Hno]. split; [done|]. by rewrite Hno.
  - intros r Hr. destruct (Hres r Hr) as [H1 H2]. split; [done|]. intros token Ht. by rewrite Ht in H2.
Qed.
Definition quiet (s : task) : bool := match s with InSubscribe | InMark _ | InReady _ | ReadyLoad _ | WaitSubscribe => true | _ => false end.
Lemma quiet_task f l t s : quiet s = true -> task_ok f l t s /\ sends s = false.
Proof. intros H. destruct s; try done; (split; [|done]); repeat split; try done; by intros []. Qed.

Lemma goes_on_ok w t s : world_ok w -> quiet s = true -> world_ok (goes_on t s (flag w) w).
Proof.
  intros Hw Hs. unfold goes_on. rewrite <-(app_nil_r (results w)). apply (ok_change w t (Some s) (flag w) []); [done|].
  apply change_same; [done| |by intros r []%elem_of_nil]. intros s' [= <-]. by apply quiet_task.
Qed.
Lemma ends_ok w t r : world_ok w -> (says_ready r = true -> ready (flag w) = true) -> marked r = false -> world_ok (ends t r (flag w) w).
Proof.
  intros Hw Hr Hm. apply (ok_change w t None (flag w) [(t, r)]); [done|]. apply change_same; [done|done|].
  intros r' ->%list_elem_of_singleton. done.
Qed.
#[local] Hint Resolve goes_on_ok ends_ok : core.
#[local] Hint Extern 1 (ready _ = true) => done : core.

Lemma is_ready_gives_ok w t waiting b : world_ok w -> (b = true -> ready (flag w) = true) -> world_ok (is_ready_gives t waiting b (flag w) w).
Proof. intros Hw Hb. unfold is_ready_gives. destruct waiting, b; auto. Qed.

Lemma begin_ok w t c : world_ok w -> world_ok (begin t c w).
Proof. intros Hw. destruct c; simpl; destruct (ready (flag w)) eqn:E; try case_bool_decide; try (apply ends_ok; by try intros); auto. Qed.
Lemma without_lock_ok w t s w' : world_ok w -> without_lock t s w = Some w' -> world_ok w'.
Proof. intros Hw. destruct s; simpl; intros [= <-]; try (apply ends_ok; by try intros); auto. Qed.

Lemma next_token_ok fuel n tokens token next : next_token fuel n tokens = Some (token, next) -> token <> 0%Z /\ token ∉ tokens.
Proof.
  revert n. induction fuel as [|fuel IH]; intros n; simpl; [done|]. destruct (_ && _) eqn:E; [|apply IH].
  intros [= -> _]. apply andb_true_iff in E as [E1%negb_true_iff%bool_decide_eq_false E2%negb_true_iff%bool_decide_eq_false]. done.
Qed.

(** A broadcast: the flag is ready, and no receiver that is there misses it. *)
Lemma send_change w t res :
  world_ok w -> ready (flag w) = true -> (forall r, r ∈ res -> result_ok (set_tx (send true (tx (flag w))) (flag w)) (results w ++ res) r) ->
  (marks res = [] \/ marks (results w) = [] /\ length (marks res) <= 1 /\ forall t' s', t' <> t -> tasks w !! t' = Some s' -> sends s' = false) ->
  change_ok w t None (set_tx (send true (tx (flag w))) (flag w)) res.
Proof.
  intros [Hzero Htokens Hvalue Hgiven _ _ _ _] Hready Hres Hmarks. constructor; simpl; try done; try by left.
  - intros t' _. unfold send. by case_bool_decide.
  - unfold send. case_bool_decide; [by left|right; simpl; lia].
Qed.

Lemma watch_change w t o r :
  world_ok w -> (forall s, o = Some s -> task_ok (set_tx r (flag w)) (results w) t s /\ sends s = false) ->
  value r = value (tx (flag w)) -> version r = version (tx (flag w)) -> (forall t', t' <> t -> receivers r !! t' = receivers (tx (flag w)) !! t') ->
  change_ok w t o (set_tx r (flag w)) [].
Proof.
  intros [Hzero Htokens Hvalue Hgiven _ _ _ _] Htask Hv Hver Hrec. constructor; simpl; try done; try by left.
  - by rewrite Hv.
  - intros s Hs. rewrite app_nil_r. destruct (Htask s Hs) as [? Hno]. split; [done|]. by rewrite Hno.
  - by intros r' []%elem_of_nil.
Qed.

Lemma in_subscribe_ok w t w' : world_ok w -> advance t InSubscribe w = Some w' -> world_ok w'.
Proof.
  intros Hw. cbn [advance]. cbv zeta. destruct (ready (flag w)) eqn:E; [intros [= <-]; apply ends_ok; by try intros|].
  destruct (next_token _ _ _) as [[token next]|] eqn:Hn; [|done]. cbn. intros [= <-]. apply next_token_ok in Hn as [Hz Hfresh].
  apply (ok_change w t None _ [(t, Subscribed (inl token))]); [done|]. destruct Hw as [Hzero Htokens Hvalue Hgiven _ _ _ _].
  constructor; simpl; rewrite ?E in *; try done; try by left.
  - set_solver.
  - intros tk [->%elem_of_singleton|]%elem_of_union; [right; exists t; set_solver|by left].
  - by intros r ->%list_elem_of_singleton.
Qed.
Lemma in_mark_ok w t token w' : world_ok w -> advance t (InMark token) w = Some w' -> world_ok w'.
Proof.
  intros Hw. simpl. case_bool_decide as Hin; intros [= <-]; [|apply ends_ok; by try intros].
  unfold goes_on. rewrite <-(app_nil_r (results w)). apply (ok_change w t (Some (MarkSend token)) _ []); [done|].
  assert (Hready : ready (flag w) = false) by (destruct (ready (flag w)) eqn:E; [rewrite (ok_tokens w Hw E) in Hin; set_solver|done]).
  destruct Hw as [Hzero Htokens Hvalue Hgiven Htask Hone Hres Hmarks]. constructor; simpl; try done; try by left.
  - intros s [= <-]. rewrite app_nil_r. split; [split; [done|]; split; [|by split; [|intros []]]|].
    + intros token' [= <-]. split; [by apply Hgiven|]. apply elem_of_nil_inv. intros r Hr.
      apply list_elem_of_filter in Hr as [Hm Hr]. destruct (Hres r Hr) as [H1 _]. destruct r as [n [| ? [[]|]| |]]; try done. by rewrite H1 in Hready.
    + intros _ t' s' Hne Hs. destruct (sends s') eqn:E; [|done]. destruct (Htask t' s' Hs) as [H1 _]. by rewrite (H1 E) in Hready.
  - by intros r []%elem_of_nil.
Qed.
Lemma mark_send_ok w t token w' : world_ok w -> tasks w !! t = Some (MarkSend token) -> advance t (MarkSend token) w = Some w' -> world_ok w'.
Proof.
  intros Hw Ht. simpl. intros [= <-]. destruct (ok_task w Hw t _ Ht) as (T1 & T2 & _). destruct (T2 token eq_refl) as [Hg Hm].
  apply (ok_change w t None _ [(t, Marked token (inl true))]); [done|]. apply send_change; [done|by apply T1| |].
  - intros r ->%list_elem_of_singleton. split; [intros _; by apply T1|]. intros token' [= <-]. by apply given_app.
  - right. split; [done|]. split; [done|]. intros t' s' Hne Hs. destruct (sends s') eqn:E; [|done]. destruct Hne. by apply (ok_one w Hw t' t s' _ Hs Ht).
Qed.
Lemma in_ready_ok w t waiting w' : world_ok w -> tasks w !! t = Some (InReady waiting) -> advance t (InReady waiting) w = Some w' -> world_ok w'.
Proof.
  intros Hw Ht. simpl. case_bool_decide as Hempty; [|intros [= <-]; by apply goes_on_ok].
  destruct (ready (flag w)) eqn:E; intros [= <-].
  - replace (mk_flag true (next_id (flag w)) (tokens (flag w)) (tx (flag w))) with (flag w) by (destruct (flag w); simpl in *; by subst).
    by apply is_ready_gives_ok.
  - unfold goes_on. rewrite <-(app_nil_r (results w)). apply (ok_change w t (Some (ReadySend waiting)) _ []); [done|].
    destruct Hw as [Hzero Htokens Hvalue Hgiven Htask Hone Hres Hmarks]. constructor; simpl; try done; try by left.
    + intros s [= <-]. split; [split; [done|]; split; [done|]; split; [done|by intros []]|].
      intros _ t' s' Hne Hs. destruct (sends s') eqn:Es; [|done]. destruct (Htask t' s' Hs) as [H1 _]. by rewrite (H1 Es) in E.
    + by intros r []%elem_of_nil.
Qed.
Lemma ready_send_ok w t waiting w' : world_ok w -> tasks w !! t = Some (ReadySend waiting) -> advance t (ReadySend waiting) w = Some w' -> world_ok w'.
Proof.
  intros Hw Ht. simpl. intros [= <-]. destruct (ok_task w Hw t _ Ht) as (T1 & _). specialize (T1 eq_refl).
  unfold is_ready_gives. destruct waiting; [apply (ok_change w t None _ [(t, Waited)])|apply (ok_change w t None _ [(t, IsReady true)])]; try done;
    (apply send_change; [done|done| |by left]); by intros r ->%list_elem_of_singleton.
Qed.
Lemma wait_subscribe_ok w t w' : world_ok w -> advance t WaitSubscribe w = Some w' -> world_ok w'.
Proof.
  intros Hw. simpl. intros [= <-]. unfold goes_on. rewrite <-(app_nil_r (results w)). apply (ok_change w t (Some WaitBorrow) _ []); [done|].
  apply watch_change; simpl; try done; [|by intros t' Hne; rewrite lookup_insert_ne].
  intros s [= <-]. split; [|done]. split; [done|]. split; [done|]. split; [done|]. intros _. exists (version (tx (flag w))). simpl. by rewrite lookup_insert_eq.
Qed.
(** A look at the value ends the wait, or goes on to await a change. *)
Lemma look_ok w t s w' :
  world_ok w -> tasks w !! t = Some s -> s = WaitBorrow \/ s = WaitLook ->
  (if value (tx (flag w)) then Some (ends t Waited (set_tx (watch_drop t (tx (flag w))) (flag w)) w) else Some (goes_on t WaitChanged (flag w) w)) = Some w' ->
  world_ok w'.
Proof.
  intros Hw Ht Hs. destruct (value (tx (flag w))) eqn:Hv; intros [= <-].
  - apply (ok_change w t None _ [(t, Waited)]); [done|]. destruct Hw as [Hzero Htokens Hvalue Hgiven _ _ _ _].
    constructor; simpl; try done; try by left.
    + by intros t' Hne; rewrite lookup_delete_ne.
    + intros r ->%list_elem_of_singleton. split; [|done]. intros _. by apply Hvalue.
  - unfold goes_on. rewrite <-(app_nil_r (results w)). apply (ok_change w t (Some WaitChanged) _ []); [done|].
    apply change_same; [done| |by intros r []%elem_of_nil]. intros s' [= <-]. split; [|done].
    destruct (ok_task w Hw t s Ht) as (_ & _ & _ & T4). destruct (T4 Hs) as (seen & Hseen & Hle).
    split; [done|]. split; [done|]. split; [|by intros []]. intros _. exists seen. by rewrite Hv.
Qed.
Lemma wait_changed_ok w t w' : world_ok w -> tasks w !! t = Some WaitChanged -> advance t WaitChanged w = Some w' -> world_ok w'.
Proof.
  intros Hw Ht. simpl. destruct (has_changed _ _) eqn:Hc; [|done]. intros [= <-].
  unfold goes_on. rewrite <-(app_nil_r (results w)). apply (ok_change w t (Some WaitLook) _ []); [done|].
  apply watch_change; simpl; try done; [|by intros t' Hne; rewrite lookup_insert_ne].
  intros s [= <-]. split; [|done]. split; [done|]. split; [done|]. split; [done|]. intros _. exists (version (tx (flag w))). simpl. by rewrite lookup_insert_eq.
Qed.

Lemma step_ok w w' : readiness_step w w' -> world_ok w -> world_ok w'.
Proof.
  intros [w1 w1' [w2 t c _|w2 t s w2' Ht Ha|w2 t s w2' _ Ha]|w1 t s Ht _] Hw; [by apply begin_ok| |by eapply without_lock_ok|].
  - destruct s; [by eapply in_subscribe_ok|by eapply in_mark_ok|by eapply mark_send_ok|by eapply in_ready_ok|by eapply ready_send_ok| |
      by eapply wait_subscribe_ok|eapply look_ok; eauto|by eapply wait_changed_ok|eapply look_ok; eauto].
    simpl in Ha. injection Ha as <-. by apply is_ready_gives_ok.
  - rewrite <-(app_nil_r (results w1)). apply (ok_change w1 t None _ []); [done|]. apply watch_change; simpl; try done.
    by intros t' Hne; rewrite lookup_delete_ne.
Qed.
Lemma reachable_ok w : reachable w -> world_ok w.
Proof.
  intros H. assert (world_ok world_new) as H0 by (constructor; simpl; try done; try set_solver; lia).
  revert H0. induction H; eauto using step_ok.
Qed.

Lemma begin_ready t c w : ready (flag (begin t c w)) = ready (flag w).
Proof. destruct c; simpl; destruct (ready (flag w)) eqn:E; try case_bool_decide; done. Qed.
Lemma is_ready_gives_flag t waiting b f w : flag (is_ready_gives t waiting b f w) = f.
Proof. by destruct waiting, b. Qed.
Lemma step_stays_ready w w' : readiness_step w w' -> ready (flag w) = true -> ready (flag w') = true.
Proof.
  intros [w1 w1' [w2 t c _|w2 t s w2' _ Ha|w2 t s w2' _ Ha]|w1 t s _ _] Hr; [by rewrite begin_ready| | |done].
  - destruct s; cbn [advance] in Ha; cbv zeta in Ha; rewrite ?Hr in Ha; repeat case_bool_decide; try destruct (value _); try destruct (has_changed _ _);
      simplify_eq; rewrite ?is_ready_gives_flag; done.
  - destruct s; simpl in Ha; simplify_eq; done.
Qed.

(** C24. Whatever the tasks do and in whatever order: a flag that is ready stays so; at most one call marks
    it, with a token, not zero, that a subscription gave out; whoever is told that it is ready, or has waited for it, finds it ready;
    and no task that has seen a receiver of the broadcast blocks once the broadcast went out. *)
Theorem ready_once w (Hw : reachable w) :
  (forall w', readiness_step w w' -> ready (flag w) = true -> ready (flag w') = true) /\
  length (marks (results w)) <= 1 /\
  (forall t token, (t, Marked token (inl true)) ∈ results w -> given (results w) token) /\
  (forall t r, (t, r) ∈ results w -> says_ready r = true -> ready (flag w) = true) /\
  (forall t, tasks w !! t = Some WaitChanged -> value (tx (flag w)) = true -> exists w', advance t WaitChanged w = Some w').
Proof.
  pose proof (reachable_ok w Hw) as [Hzero Htokens Hvalue Hgiven Htask Hone Hres Hmarks].
  split; [by intros w'; apply step_stays_ready|]. split; [done|]. split; [|split].
  - intros t token Hin. destruct (Hres _ Hin) as [_ H]. by apply H.
  - intros t r Hin. destruct (Hres _ Hin) as [H _]. apply H.
  - intros t Ht Hv. destruct (Htask t _ Ht) as (_ & _ & T3 & _). destruct (T3 eq_refl) as (seen & Hseen & _ & Hne).
    simpl. unfold has_changed. rewrite Hseen. simpl. rewrite bool_decide_eq_false_2 by auto. by eexists.
Qed.

(** ** The broadcast that nobody hears

    The channel keeps nothing that is sent while it has no receiver.  A task that found the flag not
    ready, and subscribes after another one marked it, waits for a change that has been. *)
Definition missed : world :=
  mk_world (mk_flag true 2 ∅ (mk_watch false 0 {[1%N := 0]})) {[1%N := WaitChanged]} [(2%N, Subscribed (inl 1%Z)); (2%N, Marked 1 (inl true))].

(** A schedule of calls and steps. *)
Definition run_label (l : N * option call) (w : world) : option world :=
  match l with
  | (t, Some c) => if tasks w !! t is None then Some (begin t c w) else None
  | (t, None) => s ← tasks w !! t; advance t s w
  end.
Fixpoint run_labels (l : list (N * option call)) (w : world) : option world :=
  match l with [] => Some w | x :: l => w ← run_label x w; run_labels l w end.
Lemma run_label_step l w w' : run_label l w = Some w' -> task_step w w'.
Proof.
  destruct l as [t [c|]]; simpl.
  - destruct (tasks w !! t) eqn:E; [done|]. intros [= <-]. by apply step_begin.
  - destruct (tasks w !! t) as [s|] eqn:E; [|done]. simpl. intros Ha. by eapply step_advance.
Qed.
Lemma run_labels_steps l w w' : run_labels l w = Some w' -> rtc readiness_step w w'.
Proof.
  revert w. induction l as [|x l IH]; intros w; simpl; [by intros [= ->]|]. destruct (run_label x w) as [w1|] eqn:E; [|done].
  simpl. intros H. eapply rtc_l; [apply step_task, (run_label_step _ _ _ E)|by apply IH].
Qed.

Definition missed_schedule : list (N * option call) :=
  [(2%N, Some CallSubscribe); (2%N, None); (1%N, Some CallWait); (1%N, None); (1%N, None);
   (2%N, Some (CallMark 1)); (2%N, None); (2%N, None); (1%N, None); (1%N, None)].
Lemma missed_reachable : reachable missed.
Proof. apply (run_labels_steps missed_schedule). vm_compute. reflexivity. Qed.

(** From there on the task waits for ever, whatever the other tasks do. *)
Lemma begin_when_ready t c w : ready (flag w) = true -> flag (begin t c w) = flag w /\ tasks (begin t c w) = delete t (tasks w).
Proof. intros Hr. destruct c; simpl; by rewrite Hr. Qed.
Lemma missed_step w w' : task_step w w' -> flag w = flag missed /\ tasks w = tasks missed -> flag w' = flag missed /\ tasks w' = tasks missed.
Proof.
  intros [w1 t c Hnone|w1 t s w1' Ht Ha|w1 t s w1' Ht Ha] [Hf Htasks].
  - destruct (begin_when_ready t c w1) as [-> ->]; [by rewrite Hf|]. split; [done|]. rewrite <-Htasks. by apply delete_id.
  - rewrite Htasks in Ht. cbn [tasks missed] in Ht. apply lookup_singleton_Some in Ht as [<- <-]. cbn [advance] in Ha. cbv zeta in Ha. rewrite Hf in Ha.
    by vm_compute in Ha.
  - rewrite Htasks in Ht. cbn [tasks missed] in Ht. by apply lookup_singleton_Some in Ht as [<- <-].
Qed.
Lemma missed_waits w : rtc task_step missed w -> flag w = flag missed /\ tasks w = tasks missed.
Proof.
  intros H. assert (Hinv : forall w1 w2, rtc task_step w1 w2 -> flag w1 = flag missed /\ tasks w1 = tasks missed -> flag w2 = flag missed /\ tasks w2 = tasks missed).
  { induction 1; eauto using missed_step. }
  by apply (Hinv missed w).
Qed.

Lemma ready_once_witness :
  reachable missed /\ length (marks (results missed)) <= 1 /\
  (forall t r, (t, r) ∈ results missed -> says_ready r = true -> ready (flag missed) = true).
Proof.
  assert (Hm : reachable missed) by (apply (run_labels_steps missed_schedule); vm_compute; reflexivity).
  destruct (ready_once missed Hm) as (_ & H1 & _ & H2 & _). split; [exact Hm|]. split; [exact H1|exact H2].
Defined.
