(* ===== verification/ThreadSubscriptions.v ===== *)
(** * Who hears of a thread (app-server/src/thread_state.rs, codex_message_processor.rs)

    The connections that follow a thread, the listener task that reads its events and passes
    them on, and what requests, closing connections and archived threads do to them.  The
    requests of a client are handled one after the other; the listeners are tasks of their
    own, which share the state of their thread with the requests under its lock.  No
    operation locks a state twice, so that what a request does to the states is one step. *)

From stdpp Require Import gmap.
From S2P Require Import Prelude ThreadHistory.

Abbreviation ThreadId := N (only parsing).
Abbreviation ConnectionId := N (only parsing).
Abbreviation Uuid := N (only parsing).

(** ** The state of a thread

    A listener task has the receivers of its two channels, which its number stands for; a
    conversation (an [Arc], or the [Weak] made of it) is the number of its allocation.  The requests
    that wait for the end of a turn, and the summary of the turn, are left out. *)
Record ThreadState : Type := mk_thread_state {
  cancel_tx : option N; experimental_raw_events : bool; listener_command_tx : option N;
  current_turn_history : ThreadHistoryBuilder; listener_thread : option N; subscribed_connections : gset ConnectionId;
}.
Definition thread_state_default : ThreadState := mk_thread_state None false None builder_new None ∅.
Definition reset_history (b : ThreadHistoryBuilder) : ThreadHistoryBuilder := mk_builder [] None 1 (uuids b).

(** The caller has the conversation, so that it is alive when it is the one that is listened to. *)
Definition listener_matches (conversation : N) (s : ThreadState) : bool := bool_decide (listener_thread s = Some conversation).
(** With the listener that is told to stop. *)
Definition state_set_listener (listener conversation : N) (s : ThreadState) : option N * ThreadState :=
  (cancel_tx s, mk_thread_state (Some listener) (experimental_raw_events s) (Some listener) (current_turn_history s)
                  (Some conversation) (subscribed_connections s)).
Definition clear_listener (s : ThreadState) : option N * ThreadState :=
  (cancel_tx s, mk_thread_state None (experimental_raw_events s) None (reset_history (current_turn_history s)) None (subscribed_connections s)).
Definition with_connections (l : gset ConnectionId) (s : ThreadState) : ThreadState :=
  mk_thread_state (cancel_tx s) (experimental_raw_events s) (listener_command_tx s) (current_turn_history s) (listener_thread s) l.
Definition add_connection (c : ConnectionId) (s : ThreadState) : ThreadState := with_connections ({[c]} ∪ subscribed_connections s) s.
Definition state_remove_connection (c : ConnectionId) (s : ThreadState) : ThreadState := with_connections (subscribed_connections s ∖ {[c]}) s.
Definition set_experimental_raw_events (enabled : bool) (s : ThreadState) : ThreadState :=
  mk_thread_state (cancel_tx s) enabled (listener_command_tx s) (current_turn_history s) (listener_thread s) (subscribed_connections s).
(** No subscriber is left: the listener has nobody to tell. *)
Definition clear_if_unsubscribed (s : ThreadState) : option N * ThreadState :=
  if bool_decide (subscribed_connections s = ∅) then clear_listener s else (None, s).
Definition drop_connection (c : ConnectionId) (s : ThreadState) : option N * ThreadState :=
  clear_if_unsubscribed (state_remove_connection c s).

(** ** Shared states

    The [Arc]s of states with the listeners that were told to stop. *)
Record store : Type := mk_store { heap : gmap N ThreadState; next_ref : N; cancelled : gset N }.
Definition store_new : store := mk_store ∅ 0 ∅.
Definition locked (r : N) (f : ThreadState -> option N * ThreadState) (st : store) : store :=
  match heap st !! r with
  | None => st
  | Some s => let '(stopped, s) := f s in mk_store (<[r := s]> (heap st)) (next_ref st) (default ∅ (singleton <$> stopped) ∪ cancelled st)
  end.
Definition quietly (f : ThreadState -> ThreadState) (s : ThreadState) : option N * ThreadState := (None, f s).

(** ** The manager *)
Record SubscriptionState : Type := mk_subscription { sub_thread : ThreadId; sub_connection : ConnectionId }.
#[export] Instance SubscriptionState_eq_dec : EqDecision SubscriptionState.
Proof. solve_decision. Defined.
Record ThreadStateManager : Type := mk_manager {
  thread_states : gmap ThreadId N;
  subscription_state_by_id : gmap Uuid SubscriptionState;
  thread_ids_by_connection : gmap ConnectionId (gset ThreadId);
}.
Definition manager_new : ThreadStateManager := mk_manager ∅ ∅ ∅.

Definition thread_state (t : ThreadId) (m : ThreadStateManager) (st : store) : N * ThreadStateManager * store :=
  match thread_states m !! t with
  | Some r => (r, m, st)
  | None =>
      let r := next_ref st in
      (r, mk_manager (<[t := r]> (thread_states m)) (subscription_state_by_id m) (thread_ids_by_connection m),
       mk_store (<[r := thread_state_default]> (heap st)) (r + 1) (cancelled st))
  end.

(** A set of threads without one of them; no entry where none is left. *)
Definition without_thread (t : ThreadId) (ts : gset ThreadId) : option (gset ThreadId) :=
  let ts := ts ∖ {[t]} in if bool_decide (ts = ∅) then None else Some ts.
Definition on_thread (t : ThreadId) (f : ThreadState -> option N * ThreadState) (m : ThreadStateManager) (st : store) : store :=
  match thread_states m !! t with Some r => locked r f st | None => st end.

Definition remove_listener (id : Uuid) (m : ThreadStateManager) (st : store) : option ThreadId * ThreadStateManager * store :=
  match subscription_state_by_id m !! id with
  | None => (None, m, st)
  | Some sub =>
      let subs := delete id (subscription_state_by_id m) in
      let still := existsb (fun e => bool_decide (e.2 = sub)) (map_to_list subs) in
      let ids := if still then thread_ids_by_connection m
                 else partial_alter (fun ts => ts ≫= without_thread (sub_thread sub)) (sub_connection sub) (thread_ids_by_connection m) in
      let m := mk_manager (thread_states m) subs ids in
      (Some (sub_thread sub), m,
       on_thread (sub_thread sub) (if still then clear_if_unsubscribed else drop_connection (sub_connection sub)) m st)
  end.

Definition remove_thread_state (t : ThreadId) (m : ThreadStateManager) (st : store) : ThreadStateManager * store :=
  (mk_manager (delete t (thread_states m)) (filter (fun e => sub_thread e.2 <> t) (subscription_state_by_id m))
     (omap (without_thread t) (thread_ids_by_connection m)),
   on_thread t clear_listener m st).

(** [entry(connection_id).or_default().insert(thread_id)] *)
Definition note_thread (c : ConnectionId) (t : ThreadId) (ids : gmap ConnectionId (gset ThreadId)) : gmap ConnectionId (gset ThreadId) :=
  <[c := {[t]} ∪ default ∅ (ids !! c)]> ids.

Definition set_listener (id : Uuid) (t : ThreadId) (c : ConnectionId) (raw : bool) (m : ThreadStateManager) (st : store) : N * ThreadStateManager * store :=
  let m := mk_manager (thread_states m) (<[id := mk_subscription t c]> (subscription_state_by_id m)) (note_thread c t (thread_ids_by_connection m)) in
  let '(r, m, st) := thread_state t m st in
  (r, m, locked r (quietly (fun s => set_experimental_raw_events raw (add_connection c s))) st).

Definition ensure_connection_subscribed (t : ThreadId) (c : ConnectionId) (raw : bool) (m : ThreadStateManager) (st : store) : N * ThreadStateManager * store :=
  let m := mk_manager (thread_states m) (subscription_state_by_id m) (note_thread c t (thread_ids_by_connection m)) in
  let '(r, m, st) := thread_state t m st in
  (r, m, locked r (quietly (fun s => let s := add_connection c s in if raw : bool then set_experimental_raw_events true s else s)) st).

Definition remove_connection (c : ConnectionId) (m : ThreadStateManager) (st : store) : ThreadStateManager * store :=
  let ts := default ∅ (thread_ids_by_connection m !! c) in
  let m := mk_manager (thread_states m) (filter (fun e => sub_connection e.2 <> c) (subscription_state_by_id m)) (delete c (thread_ids_by_connection m)) in
  (m, if bool_decide (ts = ∅) then foldr (fun r st => locked r (drop_connection c) st) st (map_to_list (thread_states m)).*2
      else foldr (fun t st => on_thread t (drop_connection c) m st) st (elements ts)).

(** ** The server *)

Inductive server_event : Type := RawResponseItem | Plain (event : EventMsg).
Record listener : Type := mk_listener {
  l_thread : ThreadId; l_conversation : N; l_state : N;
  l_commands : list ConnectionId;       (* resumptions to answer, by the connections that asked *)
  l_resuming : option ConnectionId;     (* the one that is being answered *)
}.
Record server : Type := mk_server {
  threads : gmap ThreadId N;            (* the conversations of the loaded threads *)
  next_conversation : N;
  manager : ThreadStateManager;
  states : store;
  listeners : gmap N listener;          (* the tasks that run *)
  next_listener : N;
  notified : list (N * gset ConnectionId * server_event);
}.
Definition server_new : server := mk_server ∅ 0 manager_new store_new ∅ 0 [].
Definition with_registry (m : ThreadStateManager) (st : store) (w : server) : server :=
  mk_server (threads w) (next_conversation w) m st (listeners w) (next_listener w) (notified w).
Definition with_states (st : store) (w : server) : server := with_registry (manager w) st w.
Definition with_listeners (l : gmap N listener) (w : server) : server :=
  mk_server (threads w) (next_conversation w) (manager w) (states w) l (next_listener w) (notified w).

Definition ensure_listener_task_running (t : ThreadId) (conversation r : N) (w : server) : server :=
  match heap (states w) !! r with
  | None => w
  | Some s =>
      if listener_matches conversation s then w
      else
        let n := next_listener w in
        mk_server (threads w) (next_conversation w) (manager w) (locked r (state_set_listener n conversation) (states w))
          (<[n := mk_listener t conversation r [] None]> (listeners w)) (n + 1) (notified w)
  end.
Definition ensure_conversation_listener (t : ThreadId) (c : ConnectionId) (raw : bool) (w : server) : server :=
  match threads w !! t with
  | None => w
  | Some conversation =>
      let '(r, m, st) := ensure_connection_subscribed t c raw (manager w) (states w) in
      ensure_listener_task_running t conversation r (with_registry m st w)
  end.
Definition add_conversation_listener (id : Uuid) (t : ThreadId) (c : ConnectionId) (raw : bool) (w : server) : server :=
  match threads w !! t with
  | None => w
  | Some conversation =>
      let '(r, m, st) := set_listener id t c raw (manager w) (states w) in
      ensure_listener_task_running t conversation r (with_registry m st w)
  end.
Definition remove_thread_listener (id : Uuid) (w : server) : server :=
  let '(_, m, st) := remove_listener id (manager w) (states w) in with_registry m st w.
Definition connection_closed (c : ConnectionId) (w : server) : server :=
  let '(m, st) := remove_connection c (manager w) (states w) in with_registry m st w.
(** A loaded thread is archived. *)
Definition archive_thread (t : ThreadId) (w : server) : server :=
  match threads w !! t with
  | None => w
  | Some _ =>
      let '(m, st) := remove_thread_state t (manager w) (states w) in
      let w := with_registry m st w in
      mk_server (delete t (threads w)) (next_conversation w) (manager w) (states w) (listeners w) (next_listener w) (notified w)
  end.

(** A client resumes a thread that runs: its listener is to answer, and to subscribe the client. *)
Definition push_command (c : ConnectionId) (l : listener) : listener :=
  mk_listener (l_thread l) (l_conversation l) (l_state l) (l_commands l ++ [c]) (l_resuming l).
Definition resume_running_thread (t : ThreadId) (c : ConnectionId) (w : server) : server :=
  match threads w !! t with
  | None => w
  | Some conversation =>
      let '(r, m, st) := thread_state t (manager w) (states w) in
      let w := ensure_listener_task_running t conversation r (with_registry m st w) in
      match s ← heap (states w) !! r; listener_command_tx s with
      | Some n => with_listeners (alter (push_command c) n (listeners w)) w
      | None => w
      end
  end.

(** ** Steps *)
Inductive server_label : Type :=
  | LoadThread (t : ThreadId)
  | Attach (t : ThreadId) (c : ConnectionId) (raw : bool)
  | AddListener (id : Uuid) (t : ThreadId) (c : ConnectionId) (raw : bool)
  | RemoveListener (id : Uuid)
  | Resume (t : ThreadId) (c : ConnectionId)
  | Touch (t : ThreadId)                       (* another request asks for the state of a thread *)
  | Closed (c : ConnectionId)
  | Archive (t : ThreadId)
  | TakeCommand (n : N)
  | FinishCommand (n : N) (found : bool)       (* whether the rollout could be read *)
  | TakeEvent (n : N) (event : server_event)
  | EndListener (n : N).                       (* cancelled, or the thread or its channel is gone *)

Section Steps.
Variable uuid : nat -> str.
Variable shlex_try_join : list str -> option str.
Variable single_client_mode : bool.

Definition track_current_turn_event (event : server_event) (s : ThreadState) : ThreadState :=
  let b := match event with Plain event => handle_event uuid shlex_try_join event (current_turn_history s) | RawResponseItem => current_turn_history s end in
  let b := if has_active_turn b then b else reset_history b in
  mk_thread_state (cancel_tx s) (experimental_raw_events s) (listener_command_tx s) b (listener_thread s) (subscribed_connections s).

(** What a listener does with an event. *)
Definition pass_on (n : N) (event : server_event) (l : listener) (w : server) : server :=
  let w := with_states (locked (l_state l) (quietly (if single_client_mode then id else track_current_turn_event event)) (states w)) w in
  match heap (states w) !! l_state l with
  | None => w
  | Some s =>
      if match event with RawResponseItem => negb (experimental_raw_events s) | Plain _ => false end then w
      else if bool_decide (subscribed_connections s = ∅) then w
      else mk_server (threads w) (next_conversation w) (manager w) (states w) (listeners w) (next_listener w)
             (notified w ++ [(n, subscribed_connections s, event)])
  end.

Definition server_step (label : server_label) (w : server) : option server :=
  match label with
  | LoadThread t =>
      match threads w !! t with
      | Some _ => None
      | None => Some (mk_server (<[t := next_conversation w]> (threads w)) (next_conversation w + 1) (manager w) (states w) (listeners w) (next_listener w) (notified w))
      end
  | Attach t c raw => Some (ensure_conversation_listener t c raw w)
  | AddListener id t c raw =>
      if bool_decide (is_Some (subscription_state_by_id (manager w) !! id)) then None else Some (add_conversation_listener id t c raw w)
  | RemoveListener id => Some (remove_thread_listener id w)
  | Resume t c => Some (resume_running_thread t c w)
  | Touch t => let '(_, m, st) := thread_state t (manager w) (states w) in Some (with_registry m st w)
  | Closed c => Some (connection_closed c w)
  | Archive t => Some (archive_thread t w)
  | TakeCommand n =>
      l ← listeners w !! n;
      match l_resuming l, l_commands l with
      | None, c :: cs => Some (with_listeners (<[n := mk_listener (l_thread l) (l_conversation l) (l_state l) cs (Some c)]> (listeners w)) w)
      | _, _ => None
      end
  | FinishCommand n found =>
      l ← listeners w !! n;
      c ← l_resuming l;
      let w := with_listeners (<[n := mk_listener (l_thread l) (l_conversation l) (l_state l) (l_commands l) None]> (listeners w)) w in
      Some (if found : bool then with_states (locked (l_state l) (quietly (add_connection c)) (states w)) w else w)
  | TakeEvent n event => l ← listeners w !! n; if bool_decide (l_resuming l = None) then Some (pass_on n event l w) else None
  | EndListener n => l ← listeners w !! n; if bool_decide (l_resuming l = None) then Some (with_listeners (delete n (listeners w)) w) else None
  end.

Fixpoint server_run (labels : list server_label) (w : server) : option server :=
  match labels with [] => Some w | label :: labels => w ← server_step label w; server_run labels w end.
End Steps.
