(* ===== verification/ThreadSubscriptionsSpec.v ===== *)
(** * What clients hear of threads

    The registry of ThreadSubscriptions keeps its tables together; every thread has one
    listener that was not told to stop, at most; and a connection that closes is forgotten,
    unless it resumed a thread that was running. *)

From stdpp Require Import gmap.
From S2P Require Import Prelude ThreadHistory ThreadSubscriptions.

(** ** Who is subscribed to a thread *)
Definition subscribers (m : ThreadStateManager) (st : store) (t : ThreadId) : gset ConnectionId :=
  match thread_states m !! t with Some r => from_option subscribed_connections ∅ (heap st !! r) | None => ∅ end.

Record refs_ok (m : ThreadStateManager) (st : store) : Prop := mk_refs_ok {
  ref_state : forall t r, thread_states m !! t = Some r -> is_Some (heap st !! r);
  ref_one : forall t t' r, thread_states m !! t = Some r -> thread_states m !! t' = Some r -> t = t';
  ref_next : forall r, is_Some (heap st !! r) -> (r < next_ref st)%N;
}.

(** What an operation on a state does to its subscribers. *)
Class Acts (f : ThreadState -> option N * ThreadState) (g : gset ConnectionId -> gset ConnectionId) : Prop :=
  acts : forall s, subscribed_connections (f s).2 = g (subscribed_connections s).
#[export] Instance clear_acts : Acts clear_listener id.
Proof. by intros s. Qed.
#[export] Instance clear_if_acts : Acts clear_if_unsubscribed id.
Proof. intros s. unfold clear_if_unsubscribed. by case_bool_decide. Qed.
#[export] Instance drop_acts c : Acts (drop_connection c) (fun l => l ∖ {[c]}).
Proof. intros s. unfold drop_connection. by rewrite (clear_if_acts _). Qed.
#[export] Instance add_acts c : Acts (quietly (add_connection c)) (fun l => {[c]} ∪ l).
Proof. by intros s. Qed.
#[export] Instance set_acts n conversation : Acts (state_set_listener n conversation) id.
Proof. by intros s. Qed.

Lemma drop_empty (c : ConnectionId) : (∅ : gset ConnectionId) ∖ {[c]} = ∅.
Proof. set_solver. Qed.

Lemma locked_heap r f st r' :
  heap (locked r f st) !! r' = if decide (r' = r) then (fun s => (f s).2) <$> heap st !! r' else heap st !! r'.
Proof.
  unfold locked. destruct (heap st !! r) as [s|] eqn:E.
  - destruct (f s) as [o s'] eqn:Ef. simpl. destruct (decide (r' = r)) as [->|Hne]; [by rewrite lookup_insert_eq, E; simpl; rewrite Ef|].
    by rewrite lookup_insert_ne.
  - destruct (decide (r' = r)) as [->|Hne]; by rewrite ?E.
Qed.
Lemma locked_next r f st : next_ref (locked r f st) = next_ref st.
Proof. unfold locked. destruct (heap st !! r); [|done]. by destruct (f t). Qed.
Lemma locked_cancelled r f st n :
  n ∈ cancelled (locked r f st) <-> n ∈ cancelled st \/ exists s, heap st !! r = Some s /\ (f s).1 = Some n.
Proof.
  unfold locked. destruct (heap st !! r) as [s|] eqn:E; [|by split; [left|intros [?|(s & ? & _)]]].
  destruct (f s) as [o s'] eqn:Ef. simpl. split.
  - intros [H|H]%elem_of_union; [|by left]. right. exists s. rewrite Ef. destruct o; simpl in H; [|set_solver].
    apply elem_of_singleton in H as ->. done.
  - intros [H|(s2 & [= <-] & H)]; [set_solver|]. rewrite Ef in H. simpl in H. subst o. simpl. set_solver.
Qed.

Lemma locked_refs m st r f : refs_ok m st -> refs_ok m (locked r f st).
Proof.
  intros [H1 H2 H3]. assert (Hiff : forall r', is_Some (heap (locked r f st) !! r') <-> is_Some (heap st !! r')).
  { intros r'. rewrite locked_heap. destruct (decide (r' = r)); [by rewrite fmap_is_Some|done]. }
  constructor; [intros t r' Ht; apply Hiff; eauto|done|]. intros r' Hr%Hiff. rewrite locked_next. auto.
Qed.
Lemma on_thread_refs m m' st t f : refs_ok m st -> refs_ok m (on_thread t f m' st).
Proof. intros H. unfold on_thread. destruct (thread_states m' !! t); [by apply locked_refs|done]. Qed.

Lemma locked_subscribers m st t r f g : Acts f g -> refs_ok m st -> thread_states m !! t = Some r ->
  forall t', subscribers m (locked r f st) t' = if decide (t' = t) then g (subscribers m st t') else subscribers m st t'.
Proof.
  intros Hf [H1 H2 H3] Ht t'. unfold subscribers. destruct (decide (t' = t)) as [->|Hne].
  - rewrite Ht, locked_heap, decide_True by done. destruct (H1 t r Ht) as [s ->]. simpl. apply Hf.
  - destruct (thread_states m !! t') as [r'|] eqn:Ht'; [|done]. rewrite locked_heap, decide_False; [done|]. intros ->. by destruct Hne; eapply H2.
Qed.
Lemma on_thread_subscribers m m' st t f g : Acts f g -> g ∅ = ∅ -> refs_ok m st -> thread_states m' = thread_states m ->
  forall t', subscribers m (on_thread t f m' st) t' = if decide (t' = t) then g (subscribers m st t') else subscribers m st t'.
Proof.
  intros Hf Hg Hm Heq t'. unfold on_thread. rewrite Heq. destruct (thread_states m !! t) as [r|] eqn:Ht; [by apply locked_subscribers|].
  destruct (decide (t' = t)) as [->|]; [|done]. unfold subscribers. by rewrite Ht.
Qed.

Lemma thread_state_spec t m st r m' st' : refs_ok m st -> thread_state t m st = (r, m', st') ->
  refs_ok m' st' /\ thread_states m' !! t = Some r /\ subscription_state_by_id m' = subscription_state_by_id m /\
  thread_ids_by_connection m' = thread_ids_by_connection m /\ forall t', subscribers m' st' t' = subscribers m st t'.
Proof.
  intros [H1 H2 H3] H. unfold thread_state in H. destruct (thread_states m !! t) as [r0|] eqn:Ht; injection H as <- <- <-; [by repeat split|].
  assert (Hold : forall t' r', thread_states m !! t' = Some r' -> r' <> next_ref st) by (intros t' r' Ht' ->; specialize (H3 _ (H1 _ _ Ht')); lia).
  split; [|split; [by simpl; rewrite lookup_insert_eq|split; [done|split; [done|]]]].
  - constructor; simpl.
    + intros t' r' [[<- <-]|[Hne Hr]]%lookup_insert_Some; [by rewrite lookup_insert_eq|]. rewrite lookup_insert_ne by naive_solver. eauto.
    + intros t1 t2 r' [[<- <-]|[Hne1 Hr1]]%lookup_insert_Some [[<- Hr]|[Hne2 Hr2]]%lookup_insert_Some; naive_solver.
    + intros r' Hr. destruct (decide (r' = next_ref st)) as [->|Hne]; [lia|]. rewrite lookup_insert_ne in Hr by done. specialize (H3 _ Hr). lia.
  - intros t'. unfold subscribers. simpl. destruct (decide (t' = t)) as [->|Hne]; [by rewrite lookup_insert_eq, Ht; simpl; rewrite lookup_insert_eq|].
    rewrite lookup_insert_ne by done. destruct (thread_states m !! t') as [r'|] eqn:Ht'; [|done]. rewrite lookup_insert_ne by naive_solver. done.
Qed.

(** ** The tables *)
Definition follows (ids : gmap ConnectionId (gset ThreadId)) (c : ConnectionId) (t : ThreadId) : Prop := t ∈ default ∅ (ids !! c).
Definition no_empty (ids : gmap ConnectionId (gset ThreadId)) : Prop := forall c, ids !! c <> Some ∅.

Lemma note_thread_follows c t ids c' t' : follows (note_thread c t ids) c' t' <-> c' = c /\ t' = t \/ follows ids c' t'.
Proof.
  unfold follows, note_thread. destruct (decide (c' = c)) as [->|Hne]; [rewrite lookup_insert_eq; simpl; set_solver|].
  rewrite lookup_insert_ne by done. naive_solver.
Qed.
Lemma note_thread_no_empty c t ids : no_empty ids -> no_empty (note_thread c t ids).
Proof. intros H c'. unfold note_thread. intros [[_ He]|[_ He]]%lookup_insert_Some; [set_solver|by destruct (H c')]. Qed.
Lemma without_thread_spec t ts t' : t' ∈ default ∅ (without_thread t ts) <-> t' ∈ ts /\ t' <> t.
Proof. unfold without_thread. case_bool_decide as H; simpl; [|set_solver]. split; [set_solver|]. intros Ht. rewrite <-H. set_solver. Qed.
Lemma without_thread_not_empty t ts : without_thread t ts <> Some ∅.
Proof. unfold without_thread. case_bool_decide; [done|]. by intros [= ?]. Qed.
Lemma leave_follows c t ids c' t' :
  follows (partial_alter (fun ts => ts ≫= without_thread t) c ids) c' t' <-> follows ids c' t' /\ ~ (c' = c /\ t' = t).
Proof.
  unfold follows. destruct (decide (c' = c)) as [->|Hne]; [|rewrite lookup_partial_alter_ne by done; naive_solver].
  rewrite lookup_partial_alter_eq. destruct (ids !! c) as [ts|]; simpl; [rewrite without_thread_spec; naive_solver|set_solver].
Qed.
Lemma leave_no_empty c t ids : no_empty ids -> no_empty (partial_alter (fun ts => ts ≫= without_thread t) c ids).
Proof.
  intros H c'. destruct (decide (c' = c)) as [->|Hne]; [|rewrite lookup_partial_alter_ne by done; apply H].
  rewrite lookup_partial_alter_eq. destruct (ids !! c); [apply without_thread_not_empty|done].
Qed.
Lemma forget_thread_follows t ids c' t' : follows (omap (without_thread t) ids) c' t' <-> follows ids c' t' /\ t' <> t.
Proof. unfold follows. rewrite lookup_omap. destruct (ids !! c') as [ts|]; simpl; [apply without_thread_spec|set_solver]. Qed.
Lemma forget_thread_no_empty t ids : no_empty (omap (without_thread t) ids).
Proof. intros c. rewrite lookup_omap. destruct (ids !! c); [apply without_thread_not_empty|done]. Qed.
Lemma forget_connection_follows c ids c' t' : follows (delete c ids) c' t' <-> follows ids c' t' /\ c' <> c.
Proof. unfold follows. destruct (decide (c' = c)) as [->|Hne]; [rewrite lookup_delete_eq; set_solver|rewrite lookup_delete_ne by done; naive_solver]. Qed.
Lemma forget_connection_no_empty c ids : no_empty ids -> no_empty (delete c ids).
Proof. intros H c' [_ He]%lookup_delete_Some. by destruct (H c'). Qed.

Record books_ok (m : ThreadStateManager) (st : store) : Prop := mk_books_ok {
  book_refs : refs_ok m st;
  book_no_empty : no_empty (thread_ids_by_connection m);
  book_follows : forall c t, follows (thread_ids_by_connection m) c t -> c ∈ subscribers m st t;
  book_subs : forall id sub, subscription_state_by_id m !! id = Some sub -> follows (thread_ids_by_connection m) (sub_connection sub) (sub_thread sub);
}.
(** All that a connection is subscribed to is in its table. *)
Definition no_strays (c : ConnectionId) (m : ThreadStateManager) (st : store) : Prop :=
  forall t, c ∈ subscribers m st t -> follows (thread_ids_by_connection m) c t.

(** A connection subscribes, with or without an identifier. *)
Lemma subscribe_ok t c subs m st r m' st' g (Hg : forall s, subscribed_connections (g (add_connection c s)) = subscribed_connections (add_connection c s)) :
  books_ok m st -> (forall id sub, subs !! id = Some sub -> sub = mk_subscription t c \/ exists id, subscription_state_by_id m !! id = Some sub) ->
  thread_state t (mk_manager (thread_states m) subs (note_thread c t (thread_ids_by_connection m))) st = (r, m', st') ->
  let st2 := locked r (quietly (fun s => g (add_connection c s))) st' in
  books_ok m' st2 /\ thread_states m' !! t = Some r /\
  (forall t', subscribers m' st2 t' = if decide (t' = t) then {[c]} ∪ subscribers m st t' else subscribers m st t') /\
  (forall c', no_strays c' m st -> no_strays c' m' st2).
Proof.
  intros [Hr He Hf Hs] Hsubs H. set (m1 := mk_manager _ _ _) in H. assert (refs_ok m1 st) as Hr1 by (destruct Hr; by constructor).
  destruct (thread_state_spec t m1 st r m' st' Hr1 H) as (Hr' & Ht & Hsub & Hids & Hold). intros st2.
  unfold m1 in Hsub, Hids. cbn in Hsub, Hids.
  assert (Hact : Acts (quietly (fun s => g (add_connection c s))) (fun l => {[c]} ∪ l)) by (intros s; apply Hg).
  assert (Hnew : forall t', subscribers m' st2 t' = if decide (t' = t) then {[c]} ∪ subscribers m st t' else subscribers m st t').
  { intros t'. unfold st2. rewrite (locked_subscribers m' st' t r _ _ Hact Hr' Ht), (Hold t'). done. }
  split; [|split; [done|split; [done|]]].
  - constructor; [by apply locked_refs|rewrite Hids; by apply note_thread_no_empty| |].
    + intros c' t'. rewrite Hids, Hnew. intros [[-> ->]|Hfol]%note_thread_follows; [rewrite decide_True by done; set_solver|].
      apply Hf in Hfol. destruct (decide _); set_solver.
    + intros id sub. rewrite Hsub, Hids, note_thread_follows. intros [->|[id' Hid]]%Hsubs; [by left|right; eauto].
  - intros c' Hno t'. rewrite Hids, Hnew, note_thread_follows. destruct (decide (t' = t)) as [->|]; [|auto].
    intros [->%elem_of_singleton|Hin]%elem_of_union; [by left|auto].
Qed.

Lemma remove_listener_ok id m st o m' st' : books_ok m st -> remove_listener id m st = (o, m', st') ->
  books_ok m' st' /\ (forall t, subscribers m' st' t ⊆ subscribers m st t) /\ (forall c, no_strays c m st -> no_strays c m' st') /\
  (forall id sub, subscription_state_by_id m' !! id = Some sub -> subscription_state_by_id m !! id = Some sub) /\
  (forall c t, follows (thread_ids_by_connection m') c t -> follows (thread_ids_by_connection m) c t).
Proof.
  intros [Hr He Hf Hs] H. unfold remove_listener in H. destruct (subscription_state_by_id m !! id) as [sub|] eqn:Hid.
  2: { injection H as _ <- <-. done. }
  destruct (existsb _ _) eqn:Hstill; injection H as _ <- <-; set (m1 := mk_manager _ _ _); assert (refs_ok m1 st) as Hr1 by (destruct Hr; by constructor).
  - assert (Hnew : forall t, subscribers m1 (on_thread (sub_thread sub) clear_if_unsubscribed m1 st) t = subscribers m st t).
    { intros t. rewrite (on_thread_subscribers m1 m1 st _ _ _ clear_if_acts eq_refl Hr1 eq_refl). by destruct (decide _). }
    split; [|split; [by intros t; rewrite Hnew|split; [by intros c Hno t; rewrite Hnew; apply Hno|split; [|done]]]].
    + constructor; [by apply on_thread_refs|done| |].
      * intros c t. rewrite Hnew. apply Hf.
      * intros id' sub'. unfold m1. cbn. intros [_ Hl]%lookup_delete_Some. eauto.
    + intros id' sub'. unfold m1. cbn. by intros [_ Hl]%lookup_delete_Some.
  - assert (Hnew : forall t, subscribers m1 (on_thread (sub_thread sub) (drop_connection (sub_connection sub)) m1 st) t =
        if decide (t = sub_thread sub) then subscribers m st t ∖ {[sub_connection sub]} else subscribers m st t).
    { intros t. by rewrite (on_thread_subscribers m1 m1 st _ _ _ (drop_acts _) (drop_empty _) Hr1 eq_refl). }
    assert (Hother : forall id' sub', delete id (subscription_state_by_id m) !! id' = Some sub' -> sub' <> sub).
    { intros id' sub' Hl ->. apply not_true_iff_false in Hstill. apply Hstill, existsb_exists. exists (id', sub).
      split; [by apply list_elem_of_In, elem_of_map_to_list|by apply bool_decide_eq_true]. }
    split; [|split; [intros t; rewrite Hnew; destruct (decide _); set_solver|split; [|split]]].
    + constructor; [by apply on_thread_refs|by apply leave_no_empty| |].
      * intros c t. rewrite Hnew. intros [Hfol Hne]%leave_follows. apply Hf in Hfol. destruct (decide _) as [->|]; [|done]. set_solver.
      * intros id' sub'. unfold m1. cbn. intros Hl. apply leave_follows. split; [apply lookup_delete_Some in Hl as [_ Hl]; eauto|].
        intros [H1 H2]. apply (Hother id' sub' Hl). destruct sub' as [t1 c1]. simpl in *. subst. by destruct sub.
    + intros c Hno t. rewrite Hnew. intros Hin. apply leave_follows. split; [apply Hno; by destruct (decide _); set_solver|].
      intros [-> ->]. rewrite decide_True in Hin by done. set_solver.
    + intros id' sub'. unfold m1. cbn. by intros [_ Hl]%lookup_delete_Some.
    + by intros c t [Hfol _]%leave_follows.
Qed.

Lemma remove_thread_state_ok t m st m' st' : books_ok m st -> remove_thread_state t m st = (m', st') ->
  books_ok m' st' /\ (forall t', subscribers m' st' t' = if decide (t' = t) then ∅ else subscribers m st t') /\ (forall c, no_strays c m st -> no_strays c m' st') /\
  (forall id sub, subscription_state_by_id m' !! id = Some sub -> subscription_state_by_id m !! id = Some sub) /\
  (forall c t, follows (thread_ids_by_connection m') c t -> follows (thread_ids_by_connection m) c t).
Proof.
  intros [Hr He Hf Hs] [= <- <-]. set (m1 := mk_manager _ _ _).
  assert (Hr1 : refs_ok m1 (on_thread t clear_listener m st)).
  { destruct (on_thread_refs m m st t clear_listener Hr) as [H1 H2 H3]. constructor; [|intros t1 t2 r|done].
    - intros t' r. unfold m1. cbn. intros [_ Ht]%lookup_delete_Some. eauto.
    - unfold m1. cbn. intros [_ Ht1]%lookup_delete_Some [_ Ht2]%lookup_delete_Some. eauto. }
  assert (Hnew : forall t', subscribers m1 (on_thread t clear_listener m st) t' = if decide (t' = t) then ∅ else subscribers m st t').
  { intros t'. pose proof (on_thread_subscribers m m st t _ _ clear_acts eq_refl Hr eq_refl t') as Heq. unfold subscribers in *. simpl.
    destruct (decide (t' = t)) as [->|Hne]; [by rewrite lookup_delete_eq|by rewrite lookup_delete_ne]. }
  split; [|split; [done|split; [|split]]].
  - constructor; [done|apply forget_thread_no_empty| |].
    + intros c t'. rewrite Hnew. intros [Hfol Hne]%forget_thread_follows. rewrite decide_False by done. by apply Hf.
    + intros id sub. unfold m1. cbn. intros [Hl Hne]%map_lookup_filter_Some. apply forget_thread_follows. eauto.
  - intros c Hno t'. rewrite Hnew. destruct (decide (t' = t)) as [|Hne]; [set_solver|]. intros Hin. apply forget_thread_follows. eauto.
  - intros id sub. unfold m1. cbn. by intros [Hl _]%map_lookup_filter_Some.
  - by intros c t' [Hfol _]%forget_thread_follows.
Qed.

(** The loops over states. *)
Lemma drop_all_threads m st c (ts : list ThreadId) : refs_ok m st ->
  refs_ok m (foldr (fun t st => on_thread t (drop_connection c) m st) st ts) /\
  forall t, subscribers m (foldr (fun t st => on_thread t (drop_connection c) m st) st ts) t =
    if decide (t ∈ ts) then subscribers m st t ∖ {[c]} else subscribers m st t.
Proof.
  intros Hr. induction ts as [|t0 ts [IHr IH]]; [split; [done|]; intros t; by rewrite decide_False by set_solver|].
  cbn [foldr]. split; [by apply on_thread_refs|]. intros t.
  rewrite (on_thread_subscribers m m _ t0 _ _ (drop_acts c) (drop_empty c) IHr eq_refl), IH.
  destruct (decide (t = t0)) as [->|Hne]; [rewrite (decide_True (P := t0 ∈ t0 :: ts)) by set_solver; destruct (decide _); set_solver|].
  destruct (decide (t ∈ ts)); [rewrite decide_True by set_solver|rewrite decide_False by set_solver]; done.
Qed.
Lemma drop_all_states m st c (l : list (ThreadId * N)) : (forall t r, (t, r) ∈ l -> thread_states m !! t = Some r) ->
  foldr (fun r st => locked r (drop_connection c) st) st l.*2 = foldr (fun t st => on_thread t (drop_connection c) m st) st l.*1.
Proof.
  intros Hl. induction l as [|[t r] l IH]; [done|]. cbn. rewrite IH by set_solver. unfold on_thread at 2. by rewrite (Hl t r) by set_solver.
Qed.

Lemma remove_connection_ok c m st m' st' : books_ok m st -> remove_connection c m st = (m', st') ->
  books_ok m' st' /\ (forall t, subscribers m' st' t ⊆ subscribers m st t) /\ (forall c', no_strays c' m st -> no_strays c' m' st') /\
  (forall id sub, subscription_state_by_id m' !! id = Some sub -> subscription_state_by_id m !! id = Some sub /\ sub_connection sub <> c) /\
  (forall c' t, follows (thread_ids_by_connection m') c' t <-> follows (thread_ids_by_connection m) c' t /\ c' <> c) /\
  (forall c' t, c' <> c -> (c' ∈ subscribers m' st' t <-> c' ∈ subscribers m st t)) /\
  (no_strays c m st -> forall t, c ∉ subscribers m' st' t).
Proof.
  intros [Hr He Hf Hs] [= <- <-]. set (m1 := mk_manager _ _ _). set (ts := default ∅ _). set (st1 := if bool_decide _ then _ else _).
  assert (Hr1 : refs_ok m1 st) by (destruct Hr; by constructor).
  assert (Hnew : refs_ok m1 st1 /\ (forall t, subscribers m1 st1 t = subscribers m st t ∖ {[c]} \/ (t ∉ ts) /\ subscribers m1 st1 t = subscribers m st t)).
  { unfold st1. case_bool_decide as Hts.
    - rewrite (drop_all_states m1 st c); [|by intros t r Hin%elem_of_map_to_list].
      destruct (drop_all_threads m1 st c (map_to_list (thread_states m)).*1 Hr1) as [H1 H2]. split; [done|]. intros t. rewrite H2.
      destruct (decide _); [by left|right; split; [by rewrite Hts|done]].
    - destruct (drop_all_threads m1 st c (elements ts) Hr1) as [H1 H2]. split; [done|]. intros t. rewrite H2.
      destruct (decide _) as [|Hn]; [by left|right; split; [by rewrite elem_of_elements in Hn|done]]. }
  destruct Hnew as [Hr2 Hnew].
  assert (Hother : forall c' t, c' <> c -> (c' ∈ subscribers m1 st1 t <-> c' ∈ subscribers m st t))
    by (intros c' t Hne; destruct (Hnew t) as [->|[_ ->]]; set_solver).
  split; [|split; [intros t; destruct (Hnew t) as [->|[_ ->]]; set_solver|split; [|split; [|split; [|split; [done|]]]]]].
  - constructor; [done|by apply forget_connection_no_empty| |].
    + intros c' t [Hfol Hne]%forget_connection_follows. apply Hother; [done|]. by apply Hf.
    + intros id sub. unfold m1. cbn. intros [Hl Hne]%map_lookup_filter_Some. apply forget_connection_follows. eauto.
  - intros c' Hno t Hin. apply forget_connection_follows. destruct (decide (c' = c)) as [->|Hne]; [|split; [by apply Hno, Hother|done]].
    destruct (Hnew t) as [Heq|[Hnot Heq]]; rewrite Heq in Hin; [set_solver|]. by apply Hno in Hin.
  - intros id sub. unfold m1. cbn. by intros [Hl Hne]%map_lookup_filter_Some.
  - intros c' t. apply forget_connection_follows.
  - intros Hno t Hin. destruct (Hnew t) as [Heq|[Hnot Heq]]; rewrite Heq in Hin; [set_solver|]. by apply Hno in Hin.
Qed.

(** ** Listeners *)

(** What an operation does to the listener of a state: nothing, or it stops it. *)
Definition same_listener (s s' : ThreadState) : Prop :=
  cancel_tx s' = cancel_tx s /\ listener_command_tx s' = listener_command_tx s /\ listener_thread s' = listener_thread s.
Definition cleared (s : ThreadState) : Prop := cancel_tx s = None /\ listener_command_tx s = None /\ listener_thread s = None.
Class Settling (f : ThreadState -> option N * ThreadState) : Prop :=
  settling : forall s, ((f s).1 = None /\ same_listener s (f s).2) \/ ((f s).1 = cancel_tx s /\ cleared (f s).2).
#[export] Instance clear_settles : Settling clear_listener.
Proof. intros s. by right. Qed.
#[export] Instance clear_if_settles : Settling clear_if_unsubscribed.
Proof. intros s. unfold clear_if_unsubscribed. case_bool_decide; [by right|by left]. Qed.
#[export] Instance drop_settles c : Settling (drop_connection c).
Proof. intros s. exact (clear_if_settles (state_remove_connection c s)). Qed.
Lemma quietly_settles f : (forall s, same_listener s (f s)) -> Settling (quietly f).
Proof. intros Hf s. left. split; [done|apply Hf]. Qed.

Record settles (st st' : store) : Prop := mk_settles {
  settle_state : forall r s, heap st !! r = Some s -> exists s', heap st' !! r = Some s' /\ (same_listener s s' \/ (cleared s' /\ forall n, cancel_tx s = Some n -> n ∈ cancelled st'));
  settle_new : forall r s', heap st' !! r = Some s' -> heap st !! r = None -> cleared s';
  settle_cancelled : forall n, n ∈ cancelled st' -> n ∈ cancelled st \/ exists r s s', heap st !! r = Some s /\ cancel_tx s = Some n /\ heap st' !! r = Some s' /\ cleared s';
  settle_mono : cancelled st ⊆ cancelled st';
}.
#[export] Instance settles_preorder : PreOrder settles.
Proof.
  split.
  - intros st. constructor; [intros r s H; exists s; split; [done|by left]|intros r s' H1 H2; congruence|by left|done].
  - intros st1 st2 st3 [S1 N1 C1 M1] [S2 N2 C2 M2]. constructor.
    + intros r s H. destruct (S1 r s H) as (s2 & H2 & Hrel). destruct (S2 r s2 H2) as (s3 & H3 & Hrel'). exists s3. split; [done|].
      destruct Hrel as [(E1 & E2 & E3)|[(E1 & E2 & E3) Hc]], Hrel' as [(F1 & F2 & F3)|[(F1 & F2 & F3) Hc']].
      * left. repeat split; congruence.
      * right. split; [done|]. intros n Hn. apply Hc'. congruence.
      * right. split; [repeat split; congruence|]. intros n Hn. apply M2; auto.
      * right. split; [done|]. intros n Hn. apply M2; auto.
    + intros r s3 H3 H1. destruct (heap st2 !! r) as [s2|] eqn:H2; [|eauto]. destruct (N1 r s2 H2 H1) as (E1 & E2 & E3).
      destruct (S2 r s2 H2) as (s3' & H3' & Hrel). rewrite H3 in H3'. injection H3' as <-.
      destruct Hrel as [(F1 & F2 & F3)|[? _]]; [repeat split; congruence|done].
    + intros n Hn. destruct (C2 n Hn) as [H|(r & s2 & s3 & H2 & Hc & H3 & Hcl)].
      * destruct (C1 n H) as [|(r & s & s2 & H1 & Hc & H2 & Hcl)]; [by left|right]. destruct (S2 r s2 H2) as (s3 & H3 & Hrel).
        exists r, s, s3. split; [done|]. split; [done|]. split; [done|]. destruct Hcl as (E1 & E2 & E3), Hrel as [(F1 & F2 & F3)|[? _]]; [repeat split; congruence|done].
      * destruct (heap st1 !! r) as [s1|] eqn:H1; [|destruct (N1 r s2 H2 H1) as (E1 & _); congruence].
        destruct (S1 r s1 H1) as (s2' & H2' & Hrel). rewrite H2 in H2'. injection H2' as <-.
        right. exists r, s1, s3. split; [done|]. split; [|done]. destruct Hrel as [(E1 & _)|[(E1 & _) _]]; congruence.
    + set_solver.
Qed.
Lemma locked_settles r f st : Settling f -> settles st (locked r f st).
Proof.
  intros Hf. constructor.
  - intros r' s Hs. rewrite locked_heap, Hs. destruct (decide (r' = r)) as [->|]; [|exists s; split; [done|by left]].
    simpl. exists (f s).2. split; [done|]. destruct (Hf s) as [[_ H]|[Ho H]]; [by left|right]. split; [done|].
    intros n Hn. apply locked_cancelled. right. exists s. split; [done|congruence].
  - intros r' s'. rewrite locked_heap. intros Hs Hnone. rewrite Hnone in Hs. by destruct (decide _).
  - intros n [Hn|(s & Hs & Ho)]%locked_cancelled; [by left|right]. exists r, s, (f s).2. split; [done|].
    destruct (Hf s) as [[Ho' _]|[Ho' Hc]]; [congruence|]. rewrite locked_heap, decide_True, Hs by done. split; [congruence|done].
  - intros n Hn. apply locked_cancelled. by left.
Qed.
Lemma on_thread_settles m st t f : Settling f -> settles st (on_thread t f m st).
Proof. intros Hf. unfold on_thread. destruct (thread_states m !! t); [by apply locked_settles|done]. Qed.
Lemma drop_all_settles m st c ts : settles st (foldr (fun t st => on_thread t (drop_connection c) m st) st ts).
Proof. induction ts as [|t ts IH]; [done|]. cbn. etrans; [exact IH|]. apply on_thread_settles, _. Qed.
Lemma thread_state_settles t m st r m' st' : refs_ok m st -> thread_state t m st = (r, m', st') -> settles st st'.
Proof.
  intros Hr H. unfold thread_state in H. destruct (thread_states m !! t); injection H as _ _ <-; [done|].
  assert (Hnone : heap st !! next_ref st = None).
  { destruct (heap st !! next_ref st) eqn:E; [|done]. pose proof (ref_next m st Hr (next_ref st) ltac:(eauto)). lia. }
  constructor; simpl; [|intros r' s' [[<- <-]|[_ Hs]]%lookup_insert_Some Hn; [done|congruence]|by left|done].
  intros r' s Hs. exists s. rewrite lookup_insert_ne by congruence. split; [done|by left].
Qed.

Record listeners_ok (m : ThreadStateManager) (st : store) (ls : gmap N listener) (next : N) : Prop := mk_listeners_ok {
  li_tx : forall r s n, heap st !! r = Some s -> cancel_tx s = Some n -> (n < next)%N /\ n ∉ cancelled st;
  li_one : forall r r' s s' n, heap st !! r = Some s -> heap st !! r' = Some s' -> cancel_tx s = Some n -> cancel_tx s' = Some n -> r = r';
  li_sync : forall r s, heap st !! r = Some s -> listener_command_tx s = cancel_tx s /\ (cancel_tx s = None -> listener_thread s = None);
  li_cancelled : forall n, n ∈ cancelled st -> (n < next)%N;
  li_next : forall n l, ls !! n = Some l -> (n < next)%N;
  li_live : forall n l, ls !! n = Some l -> n ∉ cancelled st ->
    thread_states m !! l_thread l = Some (l_state l) /\
    exists s, heap st !! l_state l = Some s /\ cancel_tx s = Some n /\ listener_thread s = Some (l_conversation l);
}.

Lemma settles_listeners m m' st st' ls next :
  listeners_ok m st ls next -> settles st st' ->
  (forall t r s, thread_states m !! t = Some r -> heap st' !! r = Some s -> thread_states m' !! t = Some r \/ cleared s) ->
  listeners_ok m' st' ls next.
Proof.
  intros [Htx Hone Hsync Hcan Hnext Hlive] [S N C M] Hm.
  assert (Hback : forall r s' n, heap st' !! r = Some s' -> cancel_tx s' = Some n -> exists s, heap st !! r = Some s /\ same_listener s s').
  { intros r s' n Hs' Hn. destruct (heap st !! r) as [s|] eqn:Hs; [|destruct (N r s' Hs' Hs); congruence].
    exists s. split; [done|]. destruct (S r s Hs) as (s2 & Hs2 & Hrel). rewrite Hs' in Hs2. injection Hs2 as <-.
    destruct Hrel as [|[(E1 & _) _]]; [done|congruence]. }
  constructor.
  - intros r s' n Hs' Hn. destruct (Hback r s' n Hs' Hn) as (s & Hs & E1 & _). rewrite E1 in Hn. destruct (Htx r s n Hs Hn) as [Hlt Hnot].
    split; [done|]. intros [|(r0 & s0 & s0' & H0 & Hn0 & H0' & Hcl & _)]%C; [done|].
    rewrite (Hone r0 r s0 s n H0 Hs Hn0 Hn), Hs' in H0'. injection H0' as <-. congruence.
  - intros r r' s1 s2 n H1 H2 N1 N2. destruct (Hback r s1 n H1 N1) as (t1 & T1 & E1 & _), (Hback r' s2 n H2 N2) as (t2 & T2 & E2 & _).
    apply (Hone r r' t1 t2 n); congruence.
  - intros r s' Hs'. destruct (heap st !! r) as [s|] eqn:Hs; [|destruct (N r s' Hs' Hs) as (E1 & E2 & E3); by rewrite E1, E2, E3].
    destruct (S r s Hs) as (s2 & Hs2 & Hrel). rewrite Hs' in Hs2. injection Hs2 as <-. destruct (Hsync r s Hs) as [H1 H2].
    destruct Hrel as [(E1 & E2 & E3)|[(E1 & E2 & E3) _]]; rewrite E1, E2, E3; done.
  - intros n [|(r & s & s' & Hs & Hn & _)]%C; [auto|]. by destruct (Htx r s n Hs Hn).
  - done.
  - intros n l Hl Hnot. destruct (Hlive n l Hl ltac:(set_solver)) as (Ht & s & Hs & Hn & Hth). destruct (S _ s Hs) as (s' & Hs' & Hrel).
    destruct Hrel as [(E1 & E2 & E3)|[_ Hc]]; [|by destruct Hnot; apply Hc].
    split; [destruct (Hm _ _ s' Ht Hs') as [|(F1 & _)]; [done|congruence]|]. exists s'. repeat split; congruence.
Qed.

Lemma start_listener_ok m st ls next t r s conversation :
  listeners_ok m st ls next -> thread_states m !! t = Some r -> heap st !! r = Some s ->
  listeners_ok m (locked r (state_set_listener next conversation) st) (<[next := mk_listener t conversation r [] None]> ls) (next + 1).
Proof.
  intros [Htx Hone Hsync Hcan Hnext Hlive] Ht Hr. set (st' := locked _ _ _).
  assert (Hheap : forall r' s', heap st' !! r' = Some s' -> r' = r /\ s' = (state_set_listener next conversation s).2 \/ r' <> r /\ heap st !! r' = Some s').
  { intros r' s'. unfold st'. rewrite locked_heap. destruct (decide (r' = r)) as [->|]; [rewrite Hr; intros [= <-]; by left|by right]. }
  assert (Hcan' : forall n, n ∈ cancelled st' <-> n ∈ cancelled st \/ cancel_tx s = Some n).
  { intros n. unfold st'. rewrite locked_cancelled, Hr. split; [intros [?|(s2 & [= <-] & ?)]; [by left|by right]|intros [?|?]; [by left|right; by exists s]]. }
  constructor.
  - intros r' s' n [[-> ->]|[Hne Hs]]%Hheap Hn; simpl in Hn.
    + injection Hn as <-. split; [lia|]. rewrite Hcan'. intros [Hc|Hc]; [specialize (Hcan _ Hc); lia|]. destruct (Htx r s next Hr Hc). lia.
    + destruct (Htx r' s' n Hs Hn) as [Hlt Hnot]. split; [lia|]. rewrite Hcan'. intros [|Hc]; [done|]. by destruct Hne; eapply Hone.
  - intros r1 r2 s1 s2 n [[-> ->]|[Hne1 H1]]%Hheap [[-> ->]|[Hne2 H2]]%Hheap N1 N2; simpl in N1, N2; [done| | |by eapply Hone].
    + injection N1 as <-. destruct (Htx r2 s2 next H2 N2). lia.
    + injection N2 as <-. destruct (Htx r1 s1 next H1 N1). lia.
  - intros r' s' [[-> ->]|[Hne Hs]]%Hheap; [done|by eapply Hsync].
  - intros n [Hc|Hc]%Hcan'; [specialize (Hcan _ Hc); lia|]. destruct (Htx r s n Hr Hc). lia.
  - intros n l [[<- <-]|[Hne Hl]]%lookup_insert_Some; [lia|]. specialize (Hnext _ _ Hl). lia.
  - intros n l [[<- <-]|[Hne Hl]]%lookup_insert_Some Hnot.
    + split; [done|]. exists (state_set_listener next conversation s).2. split; [|done]. simpl. unfold st'. by rewrite locked_heap, decide_True, Hr.
    + rewrite Hcan' in Hnot. destruct (Hlive n l Hl ltac:(auto)) as (Hth & s' & Hs' & Hn & Hlt). split; [done|].
      exists s'. split; [|done]. unfold st'. rewrite locked_heap, decide_False; [done|]. intros Heq. rewrite Heq, Hr in Hs'. injection Hs' as <-. tauto.
Qed.

(** ** Moves of the server *)
Record server_ok (w : server) : Prop := mk_server_ok {
  so_books : books_ok (manager w) (states w);
  so_listeners : listeners_ok (manager w) (states w) (listeners w) (next_listener w);
}.
Definition ids_of (w : server) : gmap ConnectionId (gset ThreadId) := thread_ids_by_connection (manager w).
Definition told (w : server) (t : ThreadId) : gset ConnectionId := subscribers (manager w) (states w) t.
(** No listener has a resumption of the connection to answer. *)
Definition nothing_pending (c : ConnectionId) (w : server) : Prop :=
  forall n l, listeners w !! n = Some l -> (c ∉ l_commands l) /\ l_resuming l <> Some c.
Definition tidy (c : ConnectionId) (w : server) : Prop := nothing_pending c w /\ no_strays c (manager w) (states w).

(** What an operation keeps, but for the connection that it attaches, if any, or that resumes a thread. *)
Record moves (attaching resuming : option ConnectionId) (w w' : server) : Prop := mk_moves {
  mv_ok : server_ok w';
  mv_tidy : forall c, resuming <> Some c -> tidy c w -> tidy c w';
  mv_pending : forall c, resuming <> Some c -> nothing_pending c w -> nothing_pending c w';
  mv_follows : forall c t, attaching <> Some c -> follows (ids_of w') c t -> follows (ids_of w) c t;
  mv_subs : forall id sub, attaching <> Some (sub_connection sub) ->
    subscription_state_by_id (manager w') !! id = Some sub -> subscription_state_by_id (manager w) !! id = Some sub;
  mv_told : forall c t, attaching <> Some c -> nothing_pending c w -> c ∈ told w' t -> c ∈ told w t;
  mv_cancelled : cancelled (states w) ⊆ cancelled (states w');
}.
Lemma moves_refl a r w : server_ok w -> moves a r w w.
Proof. by constructor. Qed.
Lemma moves_trans a r w1 w2 w3 : (r = None \/ a = r) -> moves a r w1 w2 -> moves a r w2 w3 -> moves a r w1 w3.
Proof.
  intros Har [_ T1 P1 F1 S1 D1 C1] [O2 T2 P2 F2 S2 D2 C2]. constructor; auto; [|set_solver].
  intros c t Ha Hp Hin. apply D1, D2; auto. apply P1; [|done]. destruct Har as [->| ->]; [done|congruence].
Qed.

(** The registry changes, and a state it does not have any more is one without listener. *)
Lemma registry_moves a w m' st' :
  server_ok w -> books_ok m' st' -> settles (states w) st' ->
  (forall t r s, thread_states (manager w) !! t = Some r -> heap st' !! r = Some s -> thread_states m' !! t = Some r \/ cleared s) ->
  (forall c, no_strays c (manager w) (states w) -> no_strays c m' st') ->
  (forall c t, a <> Some c -> follows (thread_ids_by_connection m') c t -> follows (ids_of w) c t) ->
  (forall id sub, a <> Some (sub_connection sub) -> subscription_state_by_id m' !! id = Some sub -> subscription_state_by_id (manager w) !! id = Some sub) ->
  (forall c t, a <> Some c -> c ∈ subscribers m' st' t -> c ∈ told w t) ->
  moves a None w (with_registry m' st' w).
Proof.
  intros [Hb Hl] Hb' Hst Hm Hno Hf Hs Ht. constructor; simpl; auto.
  - constructor; [done|]. by eapply settles_listeners.
  - intros c _ [Hp Hc]. split; [exact Hp|by apply Hno].
  - apply (settle_mono _ _ Hst).
Qed.

Lemma ensure_running_moves a t conversation r w :
  server_ok w -> thread_states (manager w) !! t = Some r -> moves a None w (ensure_listener_task_running t conversation r w) /\
  manager (ensure_listener_task_running t conversation r w) = manager w /\
  (exists s, heap (states (ensure_listener_task_running t conversation r w)) !! r = Some s /\ is_Some (listener_command_tx s)) /\
  notified (ensure_listener_task_running t conversation r w) = notified w.
Proof.
  intros [Hb Hl] Ht. destruct (ref_state _ _ (book_refs _ _ Hb) t r Ht) as [s Hs]. unfold ensure_listener_task_running. rewrite Hs.
  unfold listener_matches. case_bool_decide as Hmatch.
  { split; [by apply moves_refl|]. split; [done|]. split; [|done]. exists s. split; [done|]. destruct (li_sync _ _ _ _ Hl r s Hs) as [H1 H2]. rewrite H1.
    destruct (cancel_tx s); [done|]. by rewrite H2 in Hmatch. }
  assert (Hsub : forall t', subscribers (manager w) (locked r (state_set_listener (next_listener w) conversation) (states w)) t' = told w t').
  { intros t'. rewrite (locked_subscribers (manager w) (states w) t r _ id (set_acts _ _) (book_refs _ _ Hb) Ht t'). by destruct (decide _). }
  split; [|split; [done|split; [|done]]].
  - constructor; simpl; auto.
    + constructor; [|by apply (start_listener_ok _ _ _ _ _ _ s)]. destruct Hb as [Hr He Hf Hsb]. constructor; simpl; [by apply locked_refs|done| |done].
      intros c t' Hfol. rewrite Hsub. by apply Hf.
    + intros c _ [Hp Hno]. split; [|intros t'; simpl; rewrite Hsub; apply Hno].
      intros n l. simpl. intros [[<- <-]|[_ Hl']]%lookup_insert_Some; [simpl; split; [set_solver|done]|by apply (Hp n)].
    + intros c _ Hp n l. simpl. intros [[<- <-]|[_ Hl']]%lookup_insert_Some; [simpl; split; [set_solver|done]|by apply (Hp n)].
    + intros c t' _ _. unfold told. simpl. by rewrite Hsub.
    + intros n Hn. apply locked_cancelled. by left.
  - simpl. rewrite locked_heap, decide_True, Hs by done. by eexists.
Qed.

Lemma registry_subscribes g t c subs r m' st' w (Hg : forall s, subscribed_connections (g (add_connection c s)) = subscribed_connections (add_connection c s))
    (Hsame : forall s, same_listener s (g (add_connection c s))) :
  server_ok w -> (forall id sub, subs !! id = Some sub -> sub = mk_subscription t c \/ subscription_state_by_id (manager w) !! id = Some sub) ->
  thread_state t (mk_manager (thread_states (manager w)) subs (note_thread c t (ids_of w))) (states w) = (r, m', st') ->
  let st2 := locked r (quietly (fun s => g (add_connection c s))) st' in
  moves (Some c) None w (with_registry m' st2 w) /\ thread_states m' !! t = Some r.
Proof.
  intros Hw Hsubs H st2. pose proof Hw as [Hb Hl].
  destruct (subscribe_ok t c subs (manager w) (states w) r m' st' g Hg Hb) as (Hb' & Ht & Hnew & Hno); [intros id sub Hid; apply Hsubs in Hid; naive_solver|done|].
  split; [|done]. set (m1 := mk_manager _ _ _) in H. assert (refs_ok m1 (states w)) as Hr1 by (destruct (book_refs _ _ Hb); by constructor).
  destruct (thread_state_spec t m1 _ r m' st' Hr1 H) as (_ & _ & Hsub & Hids & _). unfold m1 in Hsub, Hids. cbn in Hsub, Hids.
  apply registry_moves; auto.
  - etrans; [by eapply thread_state_settles|]. by apply locked_settles, quietly_settles.
  - intros t' r' s' Ht' _. left. unfold thread_state in H. destruct (thread_states m1 !! t) eqn:E; injection H as <- <- <-; [done|]. simpl.
    rewrite lookup_insert_ne; [done|]. intros <-. unfold m1 in E. simpl in E. congruence.
  - intros c' t' Hne. rewrite Hids. by intros [[-> _]|Hfol]%note_thread_follows.
  - intros id sub Hne. rewrite Hsub. by intros [->|]%Hsubs.
  - intros c' t' Hne. unfold st2. rewrite Hnew. destruct (decide _); [|done]. intros [->%elem_of_singleton|Hin]%elem_of_union; [done|exact Hin].
Qed.

Lemma attach_moves t c raw w : server_ok w ->
  moves (Some c) None w (ensure_conversation_listener t c raw w) /\ notified (ensure_conversation_listener t c raw w) = notified w.
Proof.
  intros Hw. unfold ensure_conversation_listener. destruct (threads w !! t) as [conversation|]; [|split; [by apply moves_refl|done]].
  unfold ensure_connection_subscribed. destruct (thread_state _ _ _) as [[r m'] st'] eqn:E.
  pose proof (registry_subscribes (fun s => if raw then set_experimental_raw_events true s else s) t c (subscription_state_by_id (manager w)) r m' st' w) as H.
  destruct H as [H1 Ht]; [by destruct raw|by destruct raw|done|by right|done|].
  destruct (ensure_running_moves (Some c) t conversation r _ (mv_ok _ _ _ _ H1) Ht) as (H2 & _ & _ & Hnot). split; [|by rewrite Hnot].
  eapply moves_trans; [by left|exact H1|exact H2].
Qed.
Lemma add_listener_moves id t c raw w : server_ok w -> subscription_state_by_id (manager w) !! id = None ->
  moves (Some c) None w (add_conversation_listener id t c raw w) /\ notified (add_conversation_listener id t c raw w) = notified w.
Proof.
  intros Hw Hid. unfold add_conversation_listener. destruct (threads w !! t) as [conversation|]; [|split; [by apply moves_refl|done]].
  unfold set_listener. destruct (thread_state _ _ _) as [[r m'] st'] eqn:E.
  pose proof (registry_subscribes (set_experimental_raw_events raw) t c (<[id := mk_subscription t c]> (subscription_state_by_id (manager w))) r m' st' w) as H.
  destruct H as [H1 Ht]; [done|done|done| |done|].
  { intros id' sub [[_ <-]|[_ Hs]]%lookup_insert_Some; [by left|by right]. }
  destruct (ensure_running_moves (Some c) t conversation r _ (mv_ok _ _ _ _ H1) Ht) as (H2 & _ & _ & Hnot). split; [|by rewrite Hnot].
  eapply moves_trans; [by left|exact H1|exact H2].
Qed.
Lemma touch_moves a t w r m' st' : server_ok w -> thread_state t (manager w) (states w) = (r, m', st') ->
  moves a None w (with_registry m' st' w) /\ thread_states m' !! t = Some r.
Proof.
  intros [Hb Hl] H. destruct (thread_state_spec t _ _ r m' st' (book_refs _ _ Hb) H) as (Hr & Ht & Hsub & Hids & Hnew). split; [|done].
  destruct Hb as [Hr0 He Hf Hs]. apply registry_moves; [by constructor| |by eapply thread_state_settles| | | | |].
  - constructor; [done|by rewrite Hids| |]; [intros c t'; rewrite Hids, Hnew; apply Hf|intros id sub; rewrite Hsub, Hids; apply Hs].
  - intros t' r' s' Ht' _. left. unfold thread_state in H. destruct (thread_states (manager w) !! t) eqn:E; injection H as <- <- <-; [done|]. simpl.
    rewrite lookup_insert_ne; [done|]. congruence.
  - intros c Hno t'. rewrite Hids, Hnew. apply Hno.
  - intros c t' _. by rewrite Hids.
  - intros id sub _. by rewrite Hsub.
  - intros c t' _. by rewrite Hnew.
Qed.
Lemma remove_listener_moves id w : server_ok w ->
  moves None None w (remove_thread_listener id w) /\ notified (remove_thread_listener id w) = notified w.
Proof.
  intros Hw. unfold remove_thread_listener. destruct (remove_listener id _ _) as [[o m'] st'] eqn:E. split; [|done].
  destruct (remove_listener_ok _ _ _ _ _ _ (so_books _ Hw) E) as (Hb & Hsub & Hno & Hs & Hf).
  apply registry_moves; auto; [| |intros c t _ Hin; by apply Hsub].
  - unfold remove_listener in E. destruct (subscription_state_by_id (manager w) !! id); [|by injection E as _ _ <-].
    destruct (existsb _ _); injection E as _ _ <-; apply on_thread_settles, _.
  - intros t r s Ht _. left. unfold remove_listener in E. destruct (subscription_state_by_id (manager w) !! id); injection E as _ <- _; done.
Qed.
Lemma closed_moves c w : server_ok w -> moves None None w (connection_closed c w) /\ notified (connection_closed c w) = notified w.
Proof.
  intros Hw. unfold connection_closed. destruct (remove_connection c _ _) as [m' st'] eqn:E. split; [|done].
  destruct (remove_connection_ok _ _ _ _ _ (so_books _ Hw) E) as (Hb & Hsub & Hno & Hs & Hf & _).
  apply registry_moves; auto; [| | | |intros c' t _ Hin; by apply Hsub].
  - unfold remove_connection in E. injection E as <- <-. case_bool_decide; [|apply drop_all_settles].
    rewrite (drop_all_states (manager w)); [apply drop_all_settles|]. by intros t r Hin%elem_of_map_to_list.
  - intros t r s Ht _. left. by injection E as <- _.
  - intros c' t _ Hfol. by apply Hf in Hfol as [Hfol _].
  - intros id sub _ Hl. by apply Hs in Hl as [Hl _].
Qed.

(** A change of tasks or threads that leaves the registry alone. *)
Lemma tasks_moves a w threads' conv ls log : server_ok w ->
  (forall n l, ls !! n = Some l -> exists l0, listeners w !! n = Some l0 /\ l_thread l = l_thread l0 /\ l_state l = l_state l0 /\
     l_conversation l = l_conversation l0 /\ forall c, Some c <> a -> c ∉ l_commands l0 -> l_resuming l0 <> Some c -> (c ∉ l_commands l) /\ l_resuming l <> Some c) ->
  moves a a w (mk_server threads' conv (manager w) (states w) ls (next_listener w) log).
Proof.
  intros [Hb [Htx Hone Hsync Hcan Hnext Hlive]] Hls.
  assert (Hp : forall c, a <> Some c -> nothing_pending c w -> nothing_pending c (mk_server threads' conv (manager w) (states w) ls (next_listener w) log)).
  { intros c Hne Hp n l Hl. destruct (Hls n l Hl) as (l0 & Hl0 & _ & _ & _ & H). destruct (Hp n l0 Hl0). by apply H. }
  constructor; simpl; auto.
  - constructor; [done|]. constructor; simpl; auto.
    + intros n l Hl. destruct (Hls n l Hl) as (l0 & Hl0 & _). eauto.
    + intros n l Hl Hn. destruct (Hls n l Hl) as (l0 & Hl0 & -> & -> & -> & _). eauto.
  - intros c Hne [Hpend Hno]. split; [by apply Hp|exact Hno].
Qed.
Lemma archive_moves t w : server_ok w -> moves None None w (archive_thread t w) /\ notified (archive_thread t w) = notified w.
Proof.
  intros Hw. unfold archive_thread. destruct (threads w !! t); [|split; [by apply moves_refl|done]].
  destruct (remove_thread_state t _ _) as [m' st'] eqn:E. split; [|done].
  destruct (remove_thread_state_ok _ _ _ _ _ (so_books _ Hw) E) as (Hb & Hsub & Hno & Hs & Hf).
  assert (H1 : moves None None w (with_registry m' st' w)).
  { apply registry_moves; auto.
    - injection E as _ <-. apply on_thread_settles, _.
    - intros t' r s' Ht' Hs'. injection E as <- <-. simpl. destruct (decide (t' = t)) as [->|Hne]; [right|left; by rewrite lookup_delete_ne].
      unfold on_thread in Hs'. rewrite Ht', locked_heap, decide_True in Hs' by done. destruct (heap (states w) !! r); [|done]. by injection Hs' as <-.
    - intros c t' _. unfold told. rewrite Hsub. destruct (decide _); set_solver. }
  eapply moves_trans; [by left|exact H1|]. apply (tasks_moves None (with_registry m' st' w)); [apply (mv_ok _ _ _ _ H1)|].
  intros n' l Hl. by exists l.
Qed.
Lemma resume_moves t c w : server_ok w -> moves (Some c) (Some c) w (resume_running_thread t c w) /\ notified (resume_running_thread t c w) = notified w.
Proof.
  intros Hw. unfold resume_running_thread. destruct (threads w !! t) as [conversation|]; [|split; [by apply moves_refl|done]].
  destruct (thread_state t _ _) as [[r m'] st'] eqn:E. destruct (touch_moves (Some c) t w r m' st' Hw E) as [H1 Ht].
  destruct (ensure_running_moves (Some c) t conversation r _ (mv_ok _ _ _ _ H1) Ht) as (H2 & _ & (s & Hs & n & Hn) & Hnot).
  rewrite Hs. simpl. rewrite Hn. split; [|done]. set (w2 := ensure_listener_task_running _ _ _ _) in *.
  assert (H12 : moves (Some c) None w w2) by (eapply moves_trans; [by left|exact H1|exact H2]).
  assert (H3 : moves (Some c) (Some c) w2 (with_listeners (alter (push_command c) n (listeners w2)) w2)).
  { apply (tasks_moves (Some c) w2); [apply (mv_ok _ _ _ _ H2)|]. intros n' l. destruct (decide (n' = n)) as [->|Hne]; [|rewrite lookup_alter_ne by done; by exists l].
    rewrite lookup_alter_eq. destruct (listeners w2 !! n) as [l0|] eqn:Hl0; [|done]. intros [= <-]. exists l0. split; [done|]. split; [done|]. split; [done|]. split; [done|].
    intros c' Hne Hc Hr. split; [|done]. simpl. intros [?|?%list_elem_of_singleton]%elem_of_app; [done|congruence]. }
  eapply moves_trans; [by right| |exact H3]. destruct H12 as [O1 T1 P1 F1 S1 D1 C1]. constructor; auto.
Qed.

(** A state that keeps its listener changes under its lock. *)
Lemma lock_moves a r f w : server_ok w -> (forall s, same_listener s (f s)) ->
  (forall s, heap (states w) !! r = Some s -> forall c, c ∈ subscribed_connections s -> c ∈ subscribed_connections (f s)) ->
  (forall s, heap (states w) !! r = Some s -> forall c, nothing_pending c w -> c ∈ subscribed_connections (f s) -> c ∈ subscribed_connections s) ->
  moves a None w (with_states (locked r (quietly f) (states w)) w).
Proof.
  intros [Hb Hl] Hf Hmore Hless. set (st' := locked r (quietly f) (states w)).
  assert (Hst : settles (states w) st') by by apply locked_settles, quietly_settles.
  assert (Hsub : forall t, told w t ⊆ subscribers (manager w) st' t).
  { intros t. unfold told, subscribers. destruct (thread_states (manager w) !! t) as [r'|]; [|done]. unfold st'. rewrite locked_heap. destruct (decide (r' = r)) as [->|]; [|done].
    destruct (heap (states w) !! r) as [s|] eqn:Hs; [|done]. intros c Hc. simpl in *. by eapply Hmore. }
  assert (Hback : forall t c, nothing_pending c w -> c ∈ subscribers (manager w) st' t -> c ∈ told w t).
  { intros t c Hp. unfold told, subscribers. destruct (thread_states (manager w) !! t) as [r'|]; [|done]. unfold st'. rewrite locked_heap. destruct (decide (r' = r)) as [->|]; [|done].
    destruct (heap (states w) !! r) as [s|] eqn:Hs; [|done]. simpl. by apply Hless. }
  constructor; simpl; auto.
  - constructor; [|by apply (settles_listeners (manager w) (manager w) (states w)); auto]. destruct Hb as [Hr He Hfo Hs].
    constructor; simpl; [by apply locked_refs|done| |done]. intros c t Hfol. apply Hsub, Hfo, Hfol.
  - intros c _ [Hp Hno]. split; [exact Hp|]. intros t Hin. by apply Hno, Hback.
  - apply (settle_mono _ _ Hst).
Qed.

(** ** Every step *)
Definition attaching (label : server_label) : option ConnectionId :=
  match label with Attach _ c _ | AddListener _ _ c _ | Resume _ c => Some c | _ => None end.
Definition resuming (label : server_label) : option ConnectionId := match label with Resume _ c => Some c | _ => None end.

Section Runs.
Variable uuid : nat -> str.
Variable shlex_try_join : list str -> option str.
Variable single_client_mode : bool.
Abbreviation step := (server_step uuid shlex_try_join single_client_mode).
Abbreviation run := (server_run uuid shlex_try_join single_client_mode).

(** What is sent in a step. *)
Definition sends (w w' : server) : Prop :=
  notified w' = notified w \/
  exists n event cs, notified w' = notified w ++ [(n, cs, event)] /\ (n ∈ cancelled (states w') \/ exists t, cs = told w' t).

Lemma pass_on_moves n event l w : server_ok w -> listeners w !! n = Some l ->
  let w' := pass_on uuid shlex_try_join single_client_mode n event l w in moves None None w w' /\ sends w w'.
Proof.
  intros Hw Hl. unfold pass_on. set (f := if single_client_mode then id else _). set (w1 := with_states _ w).
  assert (Hf : forall s, same_listener s (f s) /\ subscribed_connections (f s) = subscribed_connections s) by (intros s; unfold f; by destruct single_client_mode).
  assert (H1 : moves None None w w1) by (apply lock_moves; [done|apply Hf| |]; intros s _ c; destruct (Hf s) as [_ ->]; auto).
  destruct (heap (states w1) !! l_state l) as [s|] eqn:Hs; [|split; [done|by left]].
  destruct (match event with RawResponseItem => _ | _ => _ end); [split; [done|by left]|].
  case_bool_decide; [split; [done|by left]|]. split.
  - eapply moves_trans; [by left|exact H1|]. apply (tasks_moves None w1); [apply (mv_ok _ _ _ _ H1)|]. intros n' l' Hl'. by exists l'.
  - right. exists n, event, (subscribed_connections s). split; [done|]. destruct (decide (n ∈ cancelled (states w1))) as [|Hn]; [by left|right].
    destruct (li_live _ _ _ _ (so_listeners _ (mv_ok _ _ _ _ H1)) n l Hl Hn) as [Ht _]. exists (l_thread l).
    assert (Heq : told w1 (l_thread l) = subscribed_connections s) by (unfold told, subscribers; by rewrite Ht, Hs). symmetry. exact Heq.
Qed.

Lemma step_moves label w w' : server_ok w -> step label w = Some w' -> moves (attaching label) (resuming label) w w' /\ sends w w'.
Proof.
  intros Hw H. destruct label; simpl in H |- *.
  - destruct (threads w !! t); [done|]. injection H as <-. split; [|by left]. apply (tasks_moves None w); [done|]. intros n l Hl. by exists l.
  - injection H as <-. destruct (attach_moves t c raw w Hw). split; [done|by left].
  - case_bool_decide as Hid; [done|]. injection H as <-. destruct (add_listener_moves id t c raw w Hw) as [H1 H2]; [by apply eq_None_not_Some|]. split; [done|by left].
  - injection H as <-. destruct (remove_listener_moves id w Hw). split; [done|by left].
  - injection H as <-. destruct (resume_moves t c w Hw). split; [done|by left].
  - destruct (thread_state t _ _) as [[r m'] st'] eqn:E. injection H as <-. split; [by eapply touch_moves|by left].
  - injection H as <-. destruct (closed_moves c w Hw). split; [done|by left].
  - injection H as <-. destruct (archive_moves t w Hw). split; [done|by left].
  - destruct (listeners w !! n) as [l|] eqn:Hl; [|done]. simpl in H. destruct (l_resuming l) eqn:Hr; [done|]. destruct (l_commands l) as [|c cs] eqn:Hc; [done|].
    injection H as <-. split; [|by left]. apply (tasks_moves None w); [done|].
    intros n' l'. destruct (decide (n' = n)) as [->|Hne]; [|rewrite lookup_insert_ne by done; by exists l'].
    rewrite lookup_insert_eq. intros [= <-]. exists l. rewrite Hc. split; [done|]. split; [done|]. split; [done|]. split; [done|]. simpl. intros c' _ Hc' _. set_solver.
  - destruct (listeners w !! n) as [l|] eqn:Hl; [|done]. simpl in H. destruct (l_resuming l) as [c|] eqn:Hr; [|done]. simpl in H. injection H as <-.
    split; [|by destruct found; left]. set (ls := <[n := _]> (listeners w)).
    set (w1 := if found then with_states (locked (l_state l) (quietly (add_connection c)) (states w)) w else w).
    assert (H1 : moves None None w w1 /\ listeners w1 = listeners w).
    { unfold w1. destruct found; [|split; [by apply moves_refl|done]]. split; [|done].
      apply lock_moves; [done|done|intros s _ c'; simpl; set_solver|]. intros s _ c' Hp. simpl. intros [->%elem_of_singleton|]%elem_of_union; [|done].
      by destruct (Hp n l Hl). }
    destruct H1 as [H1 Heq]. eapply moves_trans; [by left|exact H1|].
    replace (if found then _ else _) with (with_listeners ls w1) by (unfold w1; by destruct found).
    apply (tasks_moves None w1); [apply (mv_ok _ _ _ _ H1)|]. rewrite Heq.
    intros n' l'. unfold ls. destruct (decide (n' = n)) as [->|Hne]; [|rewrite lookup_insert_ne by done; by exists l'].
    rewrite lookup_insert_eq. intros [= <-]. by exists l.
  - destruct (listeners w !! n) as [l|] eqn:Hl; [|done]. simpl in H. case_bool_decide; [|done]. injection H as <-. by apply pass_on_moves.
  - destruct (listeners w !! n) as [l|] eqn:Hl; [|done]. simpl in H. case_bool_decide; [|done]. injection H as <-. split; [|by left].
    apply (tasks_moves None w); [done|]. intros n' l' [_ Hl']%lookup_delete_Some. by exists l'.
Qed.

Lemma server_new_ok : server_ok server_new.
Proof.
  constructor; constructor; simpl; try by intros.
  by constructor; [intros t r|intros t t' r|intros r []].
Qed.
Lemma run_cons label labels w w' : run (label :: labels) w = Some w' -> exists w1, step label w = Some w1 /\ run labels w1 = Some w'.
Proof. simpl. destruct (step label w) as [w1|]; [|done]. by exists w1. Qed.
Lemma run_ok labels : forall w w', server_ok w -> run labels w = Some w' -> server_ok w'.
Proof.
  induction labels as [|label labels IH]; intros w w' Hw; [by intros [= ->]|]. intros (w1 & H1 & H2)%run_cons.
  destruct (step_moves label w w1 Hw H1) as [H _]. exact (IH _ _ (mv_ok _ _ _ _ H) H2).
Qed.
Lemma run_tidy c labels : forall w w', server_ok w -> tidy c w -> (forall t, Resume t c ∉ labels) -> run labels w = Some w' -> tidy c w'.
Proof.
  induction labels as [|label labels IH]; intros w w' Hw Hc Hno; [by intros [= <-]|]. intros (w1 & H1 & H2)%run_cons.
  destruct (step_moves label w w1 Hw H1) as [H _]. apply (IH w1 w'); [apply (mv_ok _ _ _ _ H)| |set_solver|done].
  apply (mv_tidy _ _ _ _ H c); [|done]. intros Hr. destruct label; try done. injection Hr as ->. by destruct (Hno t); left.
Qed.

(** Nothing is left of a connection. *)
Record forgotten (c : ConnectionId) (w : server) : Prop := mk_forgotten {
  fo_follows : forall t, ~ follows (ids_of w) c t;
  fo_subs : forall id sub, subscription_state_by_id (manager w) !! id = Some sub -> sub_connection sub <> c;
  fo_told : forall t, c ∉ told w t;
  fo_pending : nothing_pending c w;
}.
Lemma closed_forgotten c w : server_ok w -> tidy c w -> forgotten c (connection_closed c w).
Proof.
  intros Hw [Hp Hno]. unfold connection_closed. destruct (remove_connection c _ _) as [m' st'] eqn:E.
  destruct (remove_connection_ok _ _ _ _ _ (so_books _ Hw) E) as (Hb & _ & _ & Hs & Hf & _ & Hgone). constructor; simpl.
  - by intros t [_ Hne]%Hf.
  - by intros id sub [_ Hne]%Hs.
  - by apply Hgone.
  - exact Hp.
Qed.
(** What is sent from then on does not go to the connection. *)
Definition sent_without (c : ConnectionId) (w w' : server) : Prop :=
  exists rest, notified w' = notified w ++ rest /\ forall n cs event, (n, cs, event) ∈ rest -> c ∈ cs -> n ∈ cancelled (states w').
Lemma forgotten_run c labels : forall w w', server_ok w -> forgotten c w -> Forall (fun label => attaching label <> Some c) labels ->
  run labels w = Some w' -> forgotten c w' /\ sent_without c w w' /\ cancelled (states w) ⊆ cancelled (states w').
Proof.
  induction labels as [|label labels IH]; intros w w' Hw Hc Hall; [intros [= <-]; split; [done|]; split; [exists []; split; [by rewrite app_nil_r|set_solver]|done]|].
  apply Forall_cons in Hall as [Ha Hall]. intros (w1 & H1 & H2)%run_cons. destruct (step_moves label w w1 Hw H1) as [Hm Hsend].
  assert (Hr : resuming label <> Some c) by by destruct label. destruct Hc as [F1 F2 F3 F4].
  assert (Hc1 : forgotten c w1).
  { constructor; [intros t Hf; apply (F1 t), (mv_follows _ _ _ _ Hm); done| |intros t Hin; apply (F3 t), (mv_told _ _ _ _ Hm); done|by apply (mv_pending _ _ _ _ Hm)].
    intros id sub Hid Heq. apply (F2 id sub); [|done]. apply (mv_subs _ _ _ _ Hm); [by rewrite Heq|done]. }
  destruct (IH w1 w' (mv_ok _ _ _ _ Hm) Hc1 Hall H2) as (Hc' & (rest & Hrest & Hsafe) & Hcan). split; [done|]. split; [|pose proof (mv_cancelled _ _ _ _ Hm); set_solver].
  destruct Hsend as [Heq|(n & event & cs & Heq & Hn)]; rewrite Heq in Hrest; [by exists rest|]. exists ((n, cs, event) :: rest). split; [by rewrite Hrest, <-app_assoc|].
  intros n' cs' event' [[= -> -> ->]|Hin]%elem_of_cons Hcs; [|by eapply Hsafe]. destruct Hn as [Hn|[t ->]]; [by apply Hcan|]. by destruct (fo_told _ _ Hc1 t).
Qed.


(** C26. In any run a thread has one listener that was not told to stop, at most, and that one works on the
    state the thread is registered with; the tables agree: a thread in the table of a connection, or in a
    subscription, has the connection among those it tells; and a running listener was told to stop just when
    the thread is not registered with a state that has it. *)
Theorem one_listener_per_thread labels w (Hrun : run labels server_new = Some w) :
  (forall n n' l l', listeners w !! n = Some l -> listeners w !! n' = Some l' -> n ∉ cancelled (states w) -> n' ∉ cancelled (states w) ->
     l_thread l = l_thread l' -> n = n') /\
  (forall n l, listeners w !! n = Some l ->
     (n ∉ cancelled (states w) <-> exists s, thread_states (manager w) !! l_thread l = Some (l_state l) /\ heap (states w) !! l_state l = Some s /\ cancel_tx s = Some n)) /\
  (forall c t, follows (ids_of w) c t -> c ∈ told w t) /\
  (forall id sub, subscription_state_by_id (manager w) !! id = Some sub -> sub_connection sub ∈ told w (sub_thread sub)).
Proof.
  pose proof (run_ok labels _ _ server_new_ok Hrun) as [[Hr He Hf Hs] [Htx Hone Hsync Hcan Hnext Hlive]]. split; [|split; [|split; [done|eauto]]].
  - intros n n' l l' Hl Hl' Hn Hn' Heq. destruct (Hlive n l Hl Hn) as (Ht & s & Hst & Hc & _), (Hlive n' l' Hl' Hn') as (Ht' & s' & Hst' & Hc' & _).
    rewrite Heq, Ht' in Ht. injection Ht as Ht. congruence.
  - intros n l Hl. split; [intros Hn; destruct (Hlive n l Hl Hn) as (Ht & s & Hst & Hc & _); by exists s|].
    intros (s & _ & Hst & Hc). by destruct (Htx _ s n Hst Hc).
Qed.
End Runs.

(** ** Examples

    Client 8 follows thread 1, client 7 has thread 2 of its own. *)
Definition demo_uuid (n : nat) : str := [N.of_nat n].
Definition demo_run : list server_label -> server -> option server := server_run demo_uuid (fun _ => None) false.
Definition two_clients : list server_label := [LoadThread 1; LoadThread 2; Attach 1 8 false; Attach 2 7 false; AddListener 100 1 7 true].
Definition after (labels : list server_label) : server := default server_new (demo_run labels server_new).

Lemma one_listener_per_thread_witness :
  is_Some (listeners (after two_clients) !! 0%N) /\ forall c t, follows (ids_of (after two_clients)) c t -> c ∈ told (after two_clients) t.
Proof.
  split; [by eexists|].
  apply (one_listener_per_thread demo_uuid (fun _ => None) false two_clients (after two_clients)). vm_compute. reflexivity.
Defined.

(** A client that resumes a running thread is told of it, but its table does not say so: if it has another
    thread, its close leaves it subscribed, its events go on being sent to it, and the listener goes on after
    all others have left. *)
Definition resumed : list server_label := [LoadThread 1; LoadThread 2; Attach 1 8 false; Attach 2 7 false; Resume 1 7; TakeCommand 0; FinishCommand 0 true].
Lemma resumed_connection_outlives_close :
  exists w, demo_run (resumed ++ [Closed 7; Closed 8; TakeEvent 0 (Plain TokenCount)]) server_new = Some w /\
    told w 1 = {[7%N]} /\ notified w = [(0%N, {[7%N]}, Plain TokenCount)] /\ (0%N ∉ cancelled (states w)).
Proof. eexists. split; [vm_compute; reflexivity|]. split; [reflexivity|]. split; [reflexivity|]. apply (bool_decide_unpack _). by vm_compute. Qed.
